(* ===== verification/_CoqProject ===== *)
-Q . S2P
Prelude.v
Float64.v
Rounding.v
Str.v
Value.v
Template.v
Protocol.v
Metrics.v
Aggregate.v
Federation.v
Uplink.v
Proto.v
Dur.v
Threshold.v
Thresholds.v
Slo.v
Summary.v
Pipeline.v
Flush.v
Engine.v
Agent.v
AgentSystem.v
Executor.v
Cookies.v
Extract.v
Conditions.v
Pacing.v
Feeds.v
FeedSystem.v
Vu.v
Program.v
Interp.v
Prepare.v
Flow.v
FlowSystem.v
FlowSafe.v
FlowRuns.v
FlowDemo.v
Closed.v
Diagnostics.v
Merge.v
Validate.v
ValidateSound.v
Exporters.v
Otlp.v
Observe.v
Sse.v
Net.v
Http.v
Sockets.v
Ws.v
StateErr.v
Bytes.v
Mqtt.v
Files.v
Loader.v
Convert.v
AccessLog.v
Har.v
K6Lex.v
Grpc.v
GrpcCache.v
Plugins.v
PluginLoad.v
Payload.v
History.v
Compare.v
Sweep.v
Arrival.v
Controller.v
Fleet.v
ControllerSystem.v
Delivery.v
