(* ===== verification/Prelude.v ===== *)
(** * loadr: a verification development

    loadr is a load-testing tool written in Rust.  A controller hands a test plan to a
    fleet of agents over a bidirectional stream; each agent runs its part of the plan
    with virtual users; metrics are aggregated on the agents and federated to the
    controller, which evaluates thresholds and settles the run with one summary.  This
    library models the coordination, aggregation, planning and scheduling code and the
    interpreter of virtual users' flows, and the tools around them, of the crates
    loadr-agent, loadr-core, loadr-config, loadr-outputs, loadr-protocols, loadr-plugin-api,
    loadr-plugin-mqtt, loadr-convert, loadr-payload, loadr-history and loadr-cli, as executable
    definitions, with the theorems that make each part correct.

    ** Conventions

    A Rust [u64] is a [Z] with its wrap-around written out ([u64_add], release builds do
    not check overflow); an [f64] is the Standard Library's binary64 [spec_float], so
    arithmetic is exact to the bit; a [Duration] or an instant is a number of
    nanoseconds; a [String] is a byte string.  [Result] is [result], a computation that
    can panic is an [option] ([may_panic]).  A [HashMap] is a [gmap]; where the code
    iterates one, the model iterates [map_to_list], and no theorem depends on its order.
    Code under locks is one transition; code between two [await]s is one piece of a
    task.  Code outside the repository is a parameter: the histogram of hdrhistogram
    ([Aggregate.Hdr], its laws [HdrLaws], a model of them in [Federation.HdrModel]),
    tokio's [Notify] ([Uplink.TokioNotify]) and [Semaphore] ([Arrival.Semaphore], its
    accounting laws [SemaphoreLaws], a FIFO model [Arrival.Fifo]), the generator of random
    numbers ([Value.Rng], its laws [RngLaws]), the text of JSON ([Value.JsonText]), the
    query languages of extractors ([Extract.TextTools]), plugins that generate rows
    ([Feeds.DataSourcePlugin]), the script engine ([Interp.VuScript]), the parsers the validator
    calls ([Validate.ValidateTools]), the network below HTTP ([Http.HttpNetwork], its laws
    [HttpNetworkLaws]), archive formats, TOML and SHA-256 ([Plugins.Archives]), the loaders of plugin artifacts
    ([PluginLoad.PluginLoaders]), descriptors and messages of protobuf ([Grpc.Protobuf]), the
    network below gRPC ([Grpc.GrpcNetwork]), the natural logarithm, the printing of a double,
    humantime, and the plan loader as the controller uses it.  SQL statements are their
    meaning on lists of rows, the order of rows of equal times being a parameter.

    ** The files

    - [Prelude], [Float64], [Rounding], [Str]: results, machine integers, lists, even shares;
      doubles and durations, and how far a quotient of doubles can be from the true one; byte
      strings with the [str] methods the code calls.
    - [Metrics] (loadr-core/src/metrics.rs): metric kinds, the registry, tag interning.
    - [Aggregate], [Federation] (aggregate.rs): series, aggregation and snapshots;
      deltas, their merge and restoration, and the sharded recorder.  Theorems: sharded
      recording is equivalent to recording in one aggregator; a restored delta loses
      nothing.
    - [Uplink] (loadr-agent/src/uplink.rs): the agent's window of unacknowledged
      messages, with its invariant for every interleaving.
    - [Proto] (coordination.proto, and the checks of agent.rs on what a controller
      sends).
    - [Dur], [Threshold], [Thresholds], [Summary] (duration.rs, threshold.rs,
      thresholds.rs, summary.rs): the threshold language, its evaluation, and the run
      summary.  [Slo] follows samples to the verdict on an objective: the value judged is
      the quantile of exactly the samples the selector is about.
    - [Executor] (plan.rs, executor.rs, engine.rs): executor specifications, the plan a
      fleet splits, and the numbering of its virtual users.  Theorem: the shares add up to
      the load of the plan, arrival rates to within their rounding.  [Arrival] (executor.rs):
      the open-model dispatcher and its workers over the arrival gate.
    - [Pipeline] (loadr-core/src/engine.rs, output.rs, metrics.rs): [MetricsBus], the
      gauge reporter and the aggregator task with the outputs it feeds.  Theorem: an
      output that records samples misses none.  [Flush] (agent.rs [DeltaOutput]): the
      task, the output and the window together; what the window accepted, what is in
      flight and what is pending always add up to the samples recorded.  [Fleet]: the
      same at the controller, for every agent of a run.
    - [Engine] (engine.rs): [RunHandle] and [Engine::run] as a step relation over its
      awaits.  Theorems: the verdict is true, a stop is never lost.
    - [Agent] (agent.rs): the run slot and its phases, the detached tasks and every
      controller message.  [AgentSystem]: their interleavings with the engines, its
      invariants, and the theorems: nothing starts without a [Start] and before its
      time, a stop before the start is final, one engine executes at a time.
    - [Value], [Template], [Protocol] (vu.rs, template.rs, protocol.rs, error.rs): JSON
      values, the template language with its round trip, requests and responses.
    - [Cookies] (cookies.rs): a request carries the cookies that apply to its URL and no other.  [Extract],
      [Conditions] (extract.rs, conditions.rs): extractors, chains, assertions and checks;
      when a search ends, and what the verdict of a check means.
    - [Pacing] (pacing.rs, flow.rs): think times, fault sampling, pacing, and the
      request-rate ceiling, whose grants are spaced.
    - [Feeds], [FeedSystem] (data.rs): data sources; their fetches by interleaving virtual
      users and branches as a transition system: no panic, shared rows dealt once, per-VU
      rows walked in full.  [Vu] (vu.rs): the context of a virtual user; its tag cache
      changes no tag.
    - [Program], [Prepare], [Flow] (plan.rs, flow.rs): the steps of a scenario, their
      compilation, the rendering of a request, and the runner.  [Interp] has what they are
      written in: an iteration is a tree of effects ([IO]) built in continuation-passing
      style over the state a task owns, and the bridge scripts call into.  [FlowSystem]
      gives trees their steps: tasks interleave over shared state, waits have any answer,
      and a task may be dropped at a wait.  [FlowSafe] proves each statement of the runner
      safe, and [FlowRuns] draws the conclusions for runs: the gauge of requests in flight
      is exact, an iteration leaves its user who it was, and it ends.  [FlowDemo] executes
      small programs.
    - [Closed] (executor.rs): the executors whose users loop on their own, with the graceful
      stop, the ramp and the shared budget.  Theorems: iteration budgets are exact,
      iterations in flight get their grace, the gauge of active users counts the workers that
      are at work, a cancelled scenario can end by the steps of its own tasks alone.
    - [Diagnostics] (diagnostics.rs): diagnostics, suggestions, and the index that finds the
      line of a path in the source of a plan.  Theorem: the positions it gives are in the
      source.  [Merge] (merge.rs): the deep merge and the override of an environment.
      [Validate], [ValidateSound] (plan.rs, validate.rs): the plan as the validator reads it
      and every check.  Theorems: a plan that validates compiles, within what the validator
      looks at, and its request URLs refer to nothing undefined.
    - [Exporters], [Otlp] (crate loadr-outputs): the texts of StatsD, Prometheus and
      InfluxDB and the request of OTLP.  Theorems: what a scrape reads back is what was
      measured; every sample is in one datagram; an OTLP export has one metric per name and
      every point once.  [Observe] (observe.rs, run.rs): metrics pulled in from elsewhere, the
      host sampler, the thresholds on them.  Theorem: the overlay is the nearest sample.
    - [Sse], [Net], [Http] (crate loadr-protocols: sse.rs, net.rs, http.rs, graphql.rs): the
      decoder of event streams, the connection racing of happy eyeballs, and the HTTP client:
      its pool, its hops, redirects, the cache of responses and the timings.  The network
      is the parameter [Http.HttpNetwork].  Theorems: events do not depend on how the stream
      is cut into chunks; connecting gives up on no address; a chain of redirects ends and
      its bytes and times add up; a pooled connection carries requests of its own origin only;
      the cache serves what it stored.
    - [Sockets], [Ws] (socket.rs, ws.rs): raw TCP and UDP, and WebSocket sessions, over what
      the network gives at each await.  Theorems: an answer without an error is an exchange
      that was carried through, and its body is what the network gave, read until there was
      enough, and every frame of a session without an error was accepted by the network.  [Grpc], [GrpcCache] (grpc.rs): field checks, channels and their pools,
      descriptors, and the calls a virtual user keeps.  An address of what the plan owns is a
      key; [request_ok] says that such an address always stands for the same content.
      Theorem: what is kept never shows in an answer or on the network.
    - [StateErr]: the state-and-error monad of the next files, and the relations a
      computation respects.  [Bytes], [Mqtt] (plugins/loadr-plugin-mqtt): base64; targets,
      operations, the wire codec, the exchanges of a publish and of a subscription, the
      pool and the answer to the host.  Theorems: what is written is read back, a publish
      succeeds exactly when it was confirmed, a pool holds connections of its key only.
    - [Files]: std::path and std::fs over a tree of directories, files and symbolic links
      whose system calls may fail at any point.  [Plugins] (loadr-plugin-api/src/manifest.rs,
      install.rs, registry.rs): manifests, the index, unpacking, installing, removing,
      toggling.  [PluginLoad] (registry.rs): from a plan's entry to a loaded plugin.
      Theorems: an installation changes nothing before the digest is checked and nothing
      outside of its two directories, unless a link leads out of the plugins directory; a plugin is loaded as the kind it declares.
    - [Payload] (loadr-payload): the generated worst-case payloads.  [History]
      (loadr-history): the recorded runs and the regression check.  [Compare], [Sweep]
      (loadr-cli/src/commands/compare.rs, sweep.rs): the gates of two commands.  Theorems:
      colliding keys collide, a run is checked against other runs only and is no
      regression of itself, a sweep runs every combination once.
    - [Loader] (loadr-config: lib.rs, plan.rs, duration.rs): from a source to a checked
      plan: reading, merging, interpolating, deserialising and validating, with the
      visitors of steps and durations; YAML and serde's derived code are parameters.
      Theorem: what a load returns is the plan all its stages agree on, or the error of
      the first that fails.
    - [Convert], [AccessLog], [Har], [K6Lex] (crate loadr-convert: lib.rs, accesslog.rs,
      har.rs, k6.rs): what importers return, the replay of an access log, the correlation
      of a recording, and the lexical layer of the k6 importer.  Regular expressions are
      parameters.  Theorems: an imported log is a plan that validates; its calendar is the
      Gregorian one; correlating a value loses nothing and its name is fresh; a literal of
      JavaScript is read as the text it stands for; stripping comments twice is stripping
      them once.
    - [Controller] (loadr-agent/src/controller.rs): the state [Inner] and every handler.
      [ControllerSystem]: the controller's tasks interleaving at their [await]s as a
      step relation, its invariants ([run_ok], [inner_ok]) by rule induction, and the
      theorems on runs, reservations, the start barrier and control commands.
    - [Delivery]: the composition of [Uplink] and [Controller] over a network that loses
      sessions: exactly-once delivery, no loss, and that delivery can always complete.

    ** How parts interact

    An agent pushes messages into its [Uplink]; a session writer replays the window onto
    the stream; [Controller.admit_message] accepts each sequence number once and
    acknowledges it, which retires it from the window.  Metrics deltas produced by
    [Federation.take_delta] travel in those messages and reach the run's aggregator by
    [Federation.merge_delta].  [Controller.submit] reserves agents and sends each its
    index of the partition, from which [Executor.partition_spec] and
    [Executor.vu_placement] give it its share of the load and of the numbering;
    [barrier_check] commits the common start once every agent has reported ready.

    ** Bounds and fuel

    The loops over a text (trimming, the template parser, replacement, lossy decoding)
    run on its length, which every turn shortens.  [Extract.boundary_matches] needs one
    turn more than the text has bytes, and never ends with two empty markers
    ([boundary_terminates]).  A [during] loop lasts as long as the clock says:
    [Flow.during_fuel] bounds its turns, and the run ends in [NoFuel] beyond it
    ([iteration_terminates] is about programs without one).  [Uplink.writer_loop] runs
    on the number of messages written before the session ends.  [Mqtt.wait_for] has one turn for every byte left
    to read, a packet being two at least ([wait_for_total]); a remaining length is written in
    at most ten groups, a [usize] of 64 bits; a path is resolved through at most 40
    symbolic links, as Linux does; [create_dir_all] climbs the components of its path.
    Sequence and session counters are assumed to stay below 2^64 where a theorem
    says so.

    ** Not modelled

    The gRPC transport of the fleet and its encoding, TLS and proxies, the browser client, the
    dialling of raw gRPC connections, the scripting engine, the sockets and files of outputs,
    the hosts of WebAssembly and native plugins: I/O and bindings to other runtimes.  The other native
    plugins: clients of other systems around third-party drivers.  The translation of k6
    calls and of JMeter plans, the generators, the recorder and the assistant.
    The other commands, the tables and reports they print and the web interface: argument
    handling and rendering. *)

From stdpp Require Export base tactics strings list gmap fin_maps numbers sorting.

Declare Scope loadr_scope.
Delimit Scope loadr_scope with loadr.
Global Open Scope string_scope.
Global Open Scope list_scope.
Global Open Scope Z_scope.

(** ** Results: Rust's [Result<T, E>] *)

Inductive result (E A : Type) : Type :=
| Ok (a : A)
| Err (e : E).
Arguments Ok {E A} a.
Arguments Err {E A} e.

Definition result_bind {E A B : Type} (r : result E A) (k : A -> result E B) : result E B :=
  match r with
  | Ok a => k a
  | Err e => Err e
  end.

Definition result_map_err {E F A : Type} (f : E -> F) (r : result E A) : result F A :=
  match r with
  | Ok a => Ok a
  | Err e => Err (f e)
  end.

Definition ok_or {E A : Type} (o : option A) (e : E) : result E A :=
  match o with
  | Some a => Ok a
  | None => Err e
  end.

Definition is_ok {E A : Type} (r : result E A) : bool :=
  match r with
  | Ok _ => true
  | Err _ => false
  end.

Notation "'let?' x := r 'in' k" := (result_bind r (fun x => k))
  (at level 10, x pattern, r at level 100, k at level 200) : loadr_scope.
Global Open Scope loadr_scope.

#[export] Instance result_eq_dec {E A : Type} `{EqDecision E, EqDecision A} :
  EqDecision (result E A).
Proof. solve_decision. Defined.

(** ** 64-bit unsigned integers

    A [u64] (and, on the 64-bit targets the project ships, a [usize]) is a [Z] in
    [0 .. 2^64).  The release profile leaves overflow checks off, so [+] and [-]
    wrap. *)

Definition u64_modulus : Z := 2 ^ 64.
Definition u64_max : Z := u64_modulus - 1.
Definition u64_wrap (z : Z) : Z := z `mod` u64_modulus.
Definition u64_add (a b : Z) : Z := u64_wrap (a + b).
Definition u64_sub (a b : Z) : Z := u64_wrap (a - b).
Definition u64_saturating_sub (a b : Z) : Z := Z.max 0 (a - b).
Definition u64_from_bool (b : bool) : Z := if b then 1 else 0.
Definition is_u64 (z : Z) : Prop := 0 <= z < u64_modulus.

(** ** Lists *)

(** [iter().sum()] over integers. *)
Definition Zsum (l : list Z) : Z := foldr Z.add 0 l.

(** [iter().position(|y| y == x)]. *)
Fixpoint position `{EqDecision A} (x : A) (l : list A) : option nat :=
  match l with
  | [] => None
  | y :: l' => if decide (y = x) then Some 0%nat else S <$> position x l'
  end.

(** Number of occurrences. *)
Definition count_occ_of `{EqDecision A} (x : A) (l : list A) : nat :=
  length (filter (fun y => y = x) l).

(** ** Generic lemmas *)

Lemma u64_wrap_small (z : Z) : is_u64 z -> u64_wrap z = z.
Proof. intros H. unfold u64_wrap. apply Z.mod_small, H. Qed.

Lemma u64_wrap_range (z : Z) : is_u64 (u64_wrap z).
Proof. unfold is_u64, u64_wrap. apply Z.mod_pos_bound. reflexivity. Qed.

Lemma u64_add_small (a b : Z) : is_u64 (a + b) -> u64_add a b = a + b.
Proof. apply u64_wrap_small. Qed.

Lemma u64_sub_small (a b : Z) : is_u64 (a - b) -> u64_sub a b = a - b.
Proof. apply u64_wrap_small. Qed.

Arguments Zsum l : simpl never.
Arguments u64_wrap z : simpl never.
Arguments u64_add a b : simpl never.
Arguments u64_sub a b : simpl never.
Arguments u64_saturating_sub a b : simpl never.

Lemma Zsum_cons (x : Z) (l : list Z) : Zsum (x :: l) = x + Zsum l.
Proof. reflexivity. Qed.

Lemma Zsum_app (l1 l2 : list Z) : Zsum (l1 ++ l2) = Zsum l1 + Zsum l2.
Proof. induction l1 as [|x l1 IH]; [done|]. simpl app. rewrite !Zsum_cons, IH. lia. Qed.

Lemma Zsum_nonneg (l : list Z) : Forall (fun x => 0 <= x) l -> 0 <= Zsum l.
Proof. induction 1; [done|]. rewrite Zsum_cons. lia. Qed.

Lemma Zsum_replicate (n : nat) (x : Z) : Zsum (replicate n x) = Z.of_nat n * x.
Proof. induction n as [|n IH]; [done|]. simpl replicate. rewrite Zsum_cons, IH. lia. Qed.

Lemma position_Some `{EqDecision A} (x : A) (l : list A) (i : nat) :
  position x l = Some i -> l !! i = Some x.
Proof.
  revert i. induction l as [|y l IH]; intros i; simpl; [done|].
  destruct (decide (y = x)) as [->|]; [by intros [= <-]|].
  destruct (position x l) as [j|]; [|done]. intros [= <-]. by apply IH.
Qed.

Lemma position_is_Some `{EqDecision A} (x : A) (l : list A) :
  is_Some (position x l) <-> x ∈ l.
Proof.
  induction l as [|y l IH]; simpl.
  - split; [by intros [? ?]|by intros ?%not_elem_of_nil].
  - rewrite elem_of_cons. destruct (decide (y = x)) as [->|Hne].
    + split; eauto.
    + rewrite fmap_is_Some, IH. split; [tauto|]. by intros [->|?].
Qed.

Lemma position_None `{EqDecision A} (x : A) (l : list A) :
  position x l = None <-> x ∉ l.
Proof.
  rewrite <- position_is_Some, <- eq_None_not_Some. done.
Qed.

Lemma filter_none {A : Type} (P : A -> Prop) `{forall x, Decision (P x)} (l : list A) :
  Forall (fun x => ~ P x) l -> filter P l = [].
Proof. induction 1; [done|]. by rewrite filter_cons_False. Qed.

Lemma filter_all {A : Type} (P : A -> Prop) `{forall x, Decision (P x)} (l : list A) :
  Forall P l -> filter P l = l.
Proof. induction 1; [done|]. rewrite filter_cons_True by done. by f_equal. Qed.

Lemma omap_cons_eq {A B : Type} (f : A -> option B) (x : A) (l : list A) :
  omap f (x :: l) = match f x with Some y => y :: omap f l | None => omap f l end.
Proof. reflexivity. Qed.

(** ** Even shares

    [n / count + u64::from(i < n % count)]: a total split over [count] parts, the
    remainder to the lowest indices. *)
Definition even_share (n count i : Z) : Z :=
  u64_add (n / count) (u64_from_bool (Z.ltb i (n `mod` count))).

Lemma Zsum_shares (q m : Z) (n : nat) :
  0 <= m -> Zsum ((fun i => q + u64_from_bool (Z.ltb i m)) <$> seqZ 0 (Z.of_nat n))
            = q * Z.of_nat n + Z.min m (Z.of_nat n).
Proof.
  intros Hm. induction n as [|n IH]; [simpl; unfold Zsum; simpl; lia|].
  rewrite Nat2Z.inj_succ, <- Z.add_1_r, seqZ_app by lia.
  assert (seqZ (0 + Z.of_nat n) 1 = [Z.of_nat n]) as -> by (unfold seqZ; simpl; f_equal; lia).
  rewrite fmap_app, Zsum_app, IH. simpl. rewrite Zsum_cons. change (Zsum []) with 0.
  unfold u64_from_bool. destruct (Z.ltb_spec (Z.of_nat n) m); lia.
Qed.

Lemma even_share_small (n count i : Z) :
  0 < count -> is_u64 n -> 0 <= i ->
  even_share n count i = n / count + u64_from_bool (Z.ltb i (n `mod` count)).
Proof.
  intros Hc Hn Hi. apply u64_add_small. unfold is_u64, u64_from_bool in *.
  pose proof (Z.div_mod n count ltac:(lia)). pose proof (Z.mod_pos_bound n count Hc).
  assert (0 <= n / count) by (apply Z.div_pos; lia).
  destruct (Z.ltb_spec i (n `mod` count)); [|nia]. split; [lia|].
  destruct (Z.eq_dec count 1); [subst; rewrite Z.mod_1_r in *; lia|]. nia.
Qed.

Lemma even_share_bounds (n count i : Z) :
  0 < count -> is_u64 n -> 0 <= i -> n / count <= even_share n count i <= n / count + 1.
Proof. intros. rewrite even_share_small by done. unfold u64_from_bool. case_match; lia. Qed.

Lemma even_share_mono (n m count i : Z) :
  0 < count -> is_u64 m -> 0 <= n <= m -> 0 <= i -> even_share n count i <= even_share m count i.
Proof.
  intros Hc Hm Hn Hi. rewrite !even_share_small by (unfold is_u64 in *; lia). unfold u64_from_bool.
  assert (n / count <= m / count) by (apply Z.div_le_mono; lia).
  pose proof (Z.div_mod n count ltac:(lia)). pose proof (Z.div_mod m count ltac:(lia)).
  pose proof (Z.mod_pos_bound n count Hc). pose proof (Z.mod_pos_bound m count Hc).
  destruct (Z.ltb_spec i (n `mod` count)), (Z.ltb_spec i (m `mod` count)); try lia.
  destruct (Z.eq_dec (n / count) (m / count)); nia.
Qed.

Lemma Zsum_even_shares (n count : Z) :
  0 < count -> is_u64 n -> Zsum ((even_share n count) <$> seqZ 0 count) = n.
Proof.
  intros Hc Hn. pose proof (Z.mod_pos_bound n count Hc).
  rewrite (list_fmap_ext _ (fun i => n / count + u64_from_bool (Z.ltb i (n `mod` count)))).
  2:{ intros k x Hk. apply even_share_small; [done..|].
      apply list_elem_of_lookup_2, elem_of_seqZ in Hk. lia. }
  pose proof (Zsum_shares (n / count) (n `mod` count) (Z.to_nat count) ltac:(lia)) as HZ.
  rewrite Z2Nat.id in HZ by lia. rewrite HZ. pose proof (Z.div_mod n count ltac:(lia)). lia.
Qed.

Lemma Zsum_fmap_le {A : Type} (f g : A -> Z) (l : list A) :
  Forall (fun x => f x <= g x) l -> Zsum (f <$> l) <= Zsum (g <$> l).
Proof. induction 1; [done|]. rewrite !fmap_cons, !Zsum_cons. lia. Qed.

Create Rewrite HintDb loadr_zsum.
#[export] Hint Rewrite Zsum_app Zsum_cons : loadr_zsum.

Create HintDb loadr discriminated.
#[export] Hint Resolve u64_wrap_range Zsum_nonneg : loadr.

(** ** Tactics *)

(** Break the scrutinee of the first [match] of the goal or a hypothesis,
    keeping the equation. *)
Ltac break_match_goal :=
  match goal with
  | |- context [match ?x with _ => _ end] => destruct x eqn:?
  end.

Ltac break_match_hyp :=
  match goal with
  | H : context [match ?x with _ => _ end] |- _ => destruct x eqn:?
  end.

Ltac break_match := break_match_goal || break_match_hyp.

(** Boolean tests of the code as propositions. *)
Ltac bool_to_prop :=
  repeat match goal with
  | H : (_ && _)%bool = true |- _ => apply andb_prop in H as [? ?]
  | H : (_ || _)%bool = false |- _ => apply orb_false_elim in H as [? ?]
  | H : negb _ = true |- _ => apply negb_true_iff in H
  | H : negb _ = false |- _ => apply negb_false_iff in H
  | H : bool_decide _ = true |- _ => apply bool_decide_eq_true in H
  | H : bool_decide _ = false |- _ => apply bool_decide_eq_false in H
  | H : Z.leb _ _ = true |- _ => apply Z.leb_le in H
  | H : Z.leb _ _ = false |- _ => apply Z.leb_gt in H
  | H : Z.ltb _ _ = true |- _ => apply Z.ltb_lt in H
  | H : Z.ltb _ _ = false |- _ => apply Z.ltb_ge in H
  | H : Z.eqb _ _ = true |- _ => apply Z.eqb_eq in H
  | H : Z.eqb _ _ = false |- _ => apply Z.eqb_neq in H
  end.
