(* ===== verification/Float64.v ===== *)
(** * IEEE-754 doubles and durations

    Rust's [f64] is binary64; its arithmetic is that of the Standard Library's
    [SpecFloat] at precision 53 and maximal exponent 1024, so every definition on
    it computes to the bit.  [Duration] is a whole number of nanoseconds.  The
    functions here are the ones of [std] the modelled sources call. *)

From Stdlib Require Import SpecFloat.
From S2P Require Import Prelude.

Definition f64 : Type := spec_float.

#[export] Instance f64_eq_dec : EqDecision f64.
Proof. solve_decision. Defined.

Definition f64_add : f64 -> f64 -> f64 := SFadd 53 1024.
Definition f64_sub : f64 -> f64 -> f64 := SFsub 53 1024.
Definition f64_mul : f64 -> f64 -> f64 := SFmul 53 1024.
Definition f64_div : f64 -> f64 -> f64 := SFdiv 53 1024.
Definition f64_abs : f64 -> f64 := SFabs.
Definition f64_lt (a b : f64) : bool := SFltb a b.
Definition f64_le (a b : f64) : bool := SFleb a b.
Definition f64_gt (a b : f64) : bool := SFltb b a.
Definition f64_ge (a b : f64) : bool := SFleb b a.
Definition f64_eq (a b : f64) : bool := SFeqb a b.
Definition f64_ne (a b : f64) : bool := negb (SFeqb a b).
Definition f64_is_nan (a : f64) : bool :=
  match a with S754_nan => true | _ => false end.
Definition f64_is_finite (a : f64) : bool :=
  match a with S754_nan | S754_infinity _ => false | _ => true end.
Definition f64_infinity : f64 := S754_infinity false.
Definition f64_neg_infinity : f64 := S754_infinity true.

(** [n as f64] for an integer. *)
Definition f64_of_Z (n : Z) : f64 := binary_normalize 53 1024 n 0 false.
(** The literal [m * 10^-k] ([|m| < 2^53], [k <= 22]: division rounds it correctly). *)
Definition f64_dec (m : Z) (k : Z) : f64 := f64_div (f64_of_Z m) (f64_of_Z (10 ^ k)).
Definition f64_zero : f64 := f64_of_Z 0.
Definition f64_EPSILON : f64 := S754_finite false (2 ^ 52) (-104).

(** [f64::min] and [f64::max]: a NaN operand gives the other one. *)
Definition f64_min (a b : f64) : f64 :=
  if f64_is_nan a then b else if f64_is_nan b then a else if f64_lt b a then b else a.
Definition f64_max (a b : f64) : f64 :=
  if f64_is_nan a then b else if f64_is_nan b then a else if f64_lt a b then b else a.

(** The integer part of a finite double, towards zero. *)
Definition f64_trunc_Z (a : f64) : Z :=
  match a with
  | S754_finite s m e =>
      let n := if Z.leb 0 e then Z.pos m * 2 ^ e else Z.pos m / 2 ^ (- e) in
      if s then - n else n
  | _ => 0
  end.

(** [a as u64]: NaN is 0, everything else truncates and saturates. *)
Definition f64_as_u64 (a : f64) : Z :=
  match a with
  | S754_nan => 0
  | S754_infinity s => if s then 0 else u64_max
  | _ => Z.max 0 (Z.min u64_max (f64_trunc_Z a))
  end.

(** [a as i64]. *)
Definition f64_as_i64 (a : f64) : Z :=
  match a with
  | S754_nan => 0
  | S754_infinity s => if s then - 2 ^ 63 else 2 ^ 63 - 1
  | _ => Z.max (- 2 ^ 63) (Z.min (2 ^ 63 - 1) (f64_trunc_Z a))
  end.

(** [f64::round]: half away from zero. *)
Definition f64_round (a : f64) : f64 :=
  match a with
  | S754_finite s m e =>
      if Z.leb 0 e then a
      else
        let n := (Z.pos m + 2 ^ (- e - 1)) / 2 ^ (- e) in
        match f64_of_Z n with
        | S754_finite _ m' e' => S754_finite s m' e'
        | _ => S754_zero s
        end
  | _ => a
  end.

(** ** [std::time::Duration], in nanoseconds *)

Definition Duration : Type := Z.
Definition NANOS_PER_SEC : Z := 1000000000.
Definition Duration_from_secs (s : Z) : Duration := s * NANOS_PER_SEC.
Definition Duration_from_millis (ms : Z) : Duration := ms * 1000000.
Definition Duration_from_micros (us : Z) : Duration := us * 1000.

(** [Duration::as_secs_f64]: [secs as f64 + nanos as f64 / 1e9]. *)
Definition as_secs_f64 (d : Duration) : f64 :=
  f64_add (f64_of_Z (d / NANOS_PER_SEC))
          (f64_div (f64_of_Z (d `mod` NANOS_PER_SEC)) (f64_of_Z NANOS_PER_SEC)).

(** ** Lemmas *)

Lemma f64_as_u64_range (a : f64) : is_u64 (f64_as_u64 a).
Proof.
  unfold is_u64, f64_as_u64, u64_max, u64_modulus.
  destruct a as [s|s| |s m e]; try destruct s; lia.
Qed.

Lemma f64_min_max_nan_r (a : f64) : f64_min a S754_nan = a /\ f64_max a S754_nan = a.
Proof. by destruct a. Qed.

(** ** The order of doubles is the lexicographic one on class, exponent and mantissa *)

Definition f64_key (a : f64) : Z * Z * Z :=
  match a with
  | S754_nan => (0, 0, 0)
  | S754_zero _ => (0, 0, 0)
  | S754_infinity s => (if s then -2 else 2, 0, 0)
  | S754_finite s m e => if s then (-1, - e, Z.neg m) else (1, e, Z.pos m)
  end.
Definition key_compare (p q : Z * Z * Z) : comparison :=
  match Z.compare p.1.1 q.1.1 with Eq => match Z.compare p.1.2 q.1.2 with Eq => Z.compare p.2 q.2 | c => c end | c => c end.

Lemma f64_compare_key (a b : f64) : f64_is_nan a = false -> f64_is_nan b = false ->
  SFcompare a b = Some (key_compare (f64_key a) (f64_key b)).
Proof.
  destruct a as [[]|[]| |[] m e], b as [[]|[]| |[] n f]; try done; intros _ _; unfold key_compare; cbn; try done.
  rewrite Z.compare_opp, (Z.compare_antisym e f). by destruct (Z.compare e f).
Qed.

Definition key_lt (p q : Z * Z * Z) : Prop :=
  p.1.1 < q.1.1 \/ p.1.1 = q.1.1 /\ (p.1.2 < q.1.2 \/ p.1.2 = q.1.2 /\ p.2 < q.2).

Lemma key_compare_spec (p q : Z * Z * Z) :
  match key_compare p q with Lt => key_lt p q | Gt => key_lt q p | Eq => p = q end.
Proof.
  destruct p as [[x y] z], q as [[x' y'] z']. unfold key_compare, key_lt. cbn [fst snd].
  destruct (Z.compare_spec x x'), (Z.compare_spec y y'), (Z.compare_spec z z'); subst; try done; lia.
Qed.

Lemma f64_lt_key (a b : f64) : f64_is_nan a = false -> f64_is_nan b = false -> f64_lt a b = true <-> key_lt (f64_key a) (f64_key b).
Proof.
  intros Ha Hb. unfold f64_lt, SFltb. rewrite f64_compare_key by done. pose proof (key_compare_spec (f64_key a) (f64_key b)) as Hc.
  destruct (key_compare _ _); try done; (split; [done|]); unfold key_lt in *; [rewrite Hc|]; lia.
Qed.

Lemma f64_le_key (a b : f64) : f64_is_nan a = false -> f64_is_nan b = false -> f64_le a b = true <-> ~ key_lt (f64_key b) (f64_key a).
Proof.
  intros Ha Hb. unfold f64_le, SFleb. rewrite f64_compare_key by done. pose proof (key_compare_spec (f64_key a) (f64_key b)) as Hc.
  destruct (key_compare _ _); try done; (split; [intros _|done || intros Hn; by destruct Hn]); unfold key_lt in *; [rewrite Hc|]; lia.
Qed.

Lemma f64_le_refl (a : f64) : f64_is_nan a = false -> f64_le a a = true.
Proof.
  destruct a as [s|s| |s m e]; try done; [by destruct s|]. intros _. unfold f64_le, SFleb. simpl.
  rewrite Z.compare_refl, Pos.compare_cont_refl. by destruct s.
Qed.
Lemma f64_lt_not_nan (a b : f64) : f64_lt a b = true -> f64_is_nan a = false.
Proof. by destruct a. Qed.
Lemma f64_le_not_nan (a b : f64) : f64_le a b = true -> f64_is_nan a = false.
Proof. by destruct a. Qed.

Lemma f64_le_trans (a b c : f64) : f64_le a b = true -> f64_le b c = true -> f64_le a c = true.
Proof.
  destruct (f64_is_nan b) eqn:Hb; [by destruct a, b|]. destruct (f64_is_nan a) eqn:Ha; [by destruct a|].
  destruct (f64_is_nan c) eqn:Hc; [by destruct b as [[]|[]| |[]], c|]. rewrite !f64_le_key by done. unfold key_lt. lia.
Qed.

Lemma f64_le_lt_trans (a b c : f64) : f64_le a b = true -> f64_lt b c = true -> f64_lt a c = true.
Proof.
  destruct (f64_is_nan b) eqn:Hb; [by destruct a, b|]. destruct (f64_is_nan a) eqn:Ha; [by destruct a|].
  destruct (f64_is_nan c) eqn:Hc; [by destruct b as [[]|[]| |[]], c|]. rewrite f64_le_key, !f64_lt_key by done. unfold key_lt. lia.
Qed.

Lemma f64_lt_le_trans (a b c : f64) : f64_lt a b = true -> f64_le b c = true -> f64_lt a c = true.
Proof.
  destruct (f64_is_nan b) eqn:Hb; [by destruct a, b|]. destruct (f64_is_nan a) eqn:Ha; [by destruct a|].
  destruct (f64_is_nan c) eqn:Hc; [by destruct b as [[]|[]| |[]], c|]. rewrite f64_le_key, !f64_lt_key by done. unfold key_lt. lia.
Qed.

#[export] Hint Resolve f64_as_u64_range : loadr.

Example f64_dec_99_9 : f64_dec 999 1 = S754_finite false 7029837543348634 (-46).
Proof. vm_compute. reflexivity. Qed.

Example f64_as_u64_trunc : f64_as_u64 (f64_dec 27 1) = 2.
Proof. vm_compute. reflexivity. Qed.

Example f64_round_half : f64_round (f64_dec 25 1) = f64_of_Z 3.
Proof. vm_compute. reflexivity. Qed.
