(* ===== verification/Rounding.v ===== *)
(** * How close a quotient of doubles is

    The Standard Library's binary64 division, against the exact quotient.  A finite double is a whole number of units of 2^-1074. *)

From Stdlib Require Import SpecFloat.
From S2P Require Import Prelude Float64.

Definition f64_units (x : f64) : Z :=
  match x with
  | S754_finite s m e => (if s then -1 else 1) * Z.pos m * 2 ^ (e + 1074)
  | _ => 0
  end.

(** A positive double with all its bits, away from the smallest and the largest. *)
Definition ample (x : f64) : Prop :=
  exists m e, x = S754_finite false m e /\ 2 ^ 52 <= Z.pos m < 2 ^ 53 /\ -1000 <= e <= 900.

(** ** Numbers of bits *)

Lemma digits2_pos_bounds p : 2 ^ (Z.pos (digits2_pos p) - 1) <= Z.pos p < 2 ^ Z.pos (digits2_pos p).
Proof.
  induction p as [p IH|p IH|]; cbn [digits2_pos]; [| |done].
  all: rewrite Pos2Z.inj_succ; replace (Z.succ (Z.pos (digits2_pos p)) - 1) with (Z.succ (Z.pos (digits2_pos p) - 1)) by lia.
  all: rewrite !Z.pow_succ_r by lia; lia.
Qed.
Lemma Zdigits2_unique q d : 0 < d -> 2 ^ (d - 1) <= q < 2 ^ d -> Zdigits2 q = d.
Proof.
  intros Hd Hq. assert (0 < q) as Hp by (pose proof (Z.pow_pos_nonneg 2 (d - 1) ltac:(lia) ltac:(lia)); lia).
  destruct q as [|p|]; [lia| |lia]. cbn [Zdigits2]. pose proof (digits2_pos_bounds p) as Hb.
  destruct (Z.lt_total (Z.pos (digits2_pos p)) d) as [Hl|[?|Hl]]; [|done|].
  - pose proof (Z.pow_le_mono_r 2 (Z.pos (digits2_pos p)) (d - 1) ltac:(lia) ltac:(lia)). lia.
  - pose proof (Z.pow_le_mono_r 2 d (Z.pos (digits2_pos p) - 1) ltac:(lia) ltac:(lia)). lia.
Qed.

(** ** Where a quotient [N / D] lies between [m] and [m + 1] *)

Definition between (N D m : Z) (l : location) : Prop :=
  D * m <= N < D * (m + 1)
  /\ match l with
     | loc_Exact => N = D * m
     | loc_Inexact c => D * m < N /\ (2 * (N - D * m) ?= D) = c
     end.

Lemma between_div N D : 0 < D -> between N D (N / D) (new_location D (N mod D)).
Proof.
  intros HD. pose proof (Z.div_mod N D ltac:(lia)) as Hdm. pose proof (Z.mod_pos_bound N D HD).
  set (q := N / D) in *. set (r := N mod D) in *. assert (N - D * q = r) as Hr by lia.
  split; [lia|]. unfold new_location, new_location_even, new_location_odd.
  destruct (Z.even D) eqn:Hev; destruct (Z.eqb_spec r 0); rewrite ?Hr; [lia|split; [lia|done]|lia|split; [lia|]].
  assert (Z.odd D = true) as Ho by (by rewrite <- Z.negb_even, Hev). apply Z.odd_spec in Ho as [k Hk].
  destruct (Z.compare_spec (2 * r + 1) D); destruct (Z.compare_spec (2 * r) D); done || lia.
Qed.

Ltac compare_to_lia := rewrite ?Z.compare_lt_iff, ?Z.compare_gt_iff, ?Z.compare_eq_iff in *.

Lemma between_half N D m l : 0 < D -> 0 < m -> between N D m l ->
  let rec := shr_1 (shr_record_of_loc m l) in shr_m rec = m / 2 /\ between N (2 * D) (m / 2) (loc_of_shr_record rec).
Proof.
  intros HD Hm [Hb Hl]. assert (exists h b, m = 2 * h + b /\ (b = 0 \/ b = 1) /\ m / 2 = h) as (h & b & Hh & Hbit & Hdiv).
  { exists (m / 2), (m mod 2). pose proof (Z.div_mod m 2 ltac:(lia)). pose proof (Z.mod_pos_bound m 2 ltac:(lia)). lia. }
  rewrite Hdiv. destruct m as [|[p|p|]|]; [lia| | | |lia].
  all: destruct l as [|[]]; cbn [shr_record_of_loc shr_1 orb shr_m loc_of_shr_record]; (split; [lia|]).
  all: rewrite Hh in Hb, Hl; unfold between; repeat match goal with Hx : _ /\ _ |- _ => destruct Hx end; compare_to_lia.
  all: destruct Hbit as [-> | ->]; try lia; repeat split; compare_to_lia; lia.
Qed.

(** Rounding is by half of the spacing at most. *)
Lemma round_close N D m l : 0 < D -> between N D m l ->
  let r := round_nearest_even m l in m <= r <= m + 1 /\ 2 * Z.abs (D * r - N) <= D.
Proof.
  intros HD [Hb Hl]. destruct l as [|[]]; cbn [round_nearest_even]; [lia|..].
  all: destruct Hl as [Hl Hc]; compare_to_lia; [destruct (Z.even m)|..]; lia.
Qed.

(** ** Rounding to 53 bits *)

Lemma shr_fexp_none m e l : 2 ^ 52 <= m < 2 ^ 53 -> -1074 <= e -> shr_fexp 53 1024 m e l = (shr_record_of_loc m l, e).
Proof.
  intros Hm He. unfold shr_fexp, fexp, emin. rewrite (Zdigits2_unique m 53) by (done || lia).
  replace (Z.max (53 + e - 53) (3 - 1024 - 53) - e) with 0 by lia. done.
Qed.
Lemma shr_fexp_one m e l : 2 ^ 53 <= m < 2 ^ 54 -> -1074 <= e -> shr_fexp 53 1024 m e l = (shr_1 (shr_record_of_loc m l), e + 1).
Proof.
  intros Hm He. unfold shr_fexp, fexp, emin. rewrite (Zdigits2_unique m 54) by (done || lia).
  replace (Z.max (54 + e - 53) (3 - 1024 - 53) - e) with 1 by lia. done.
Qed.
Lemma loc_of_record m l : loc_of_shr_record (shr_record_of_loc m l) = l /\ shr_m (shr_record_of_loc m l) = m.
Proof. by destruct l as [|[]]. Qed.

(** The end of [binary_round_aux], on what rounding gives. *)
Lemma round_aux_end r e : 2 ^ 52 <= r <= 2 ^ 53 -> -1074 <= e <= 960 ->
  exists m k, (let '(mrs, e') := shr_fexp 53 1024 r e loc_Exact in
               match shr_m mrs with
               | Z0 => S754_zero false
               | Zpos m => if Z.leb e' (1024 - 53) then S754_finite false m e' else S754_infinity false
               | _ => S754_nan
               end) = S754_finite false m (e + k) /\ 0 <= k <= 1 /\ Z.pos m * 2 ^ k = r /\ 2 ^ 52 <= Z.pos m < 2 ^ 53.
Proof.
  intros Hr He. destruct (decide (r = 2 ^ 53)) as [->|Hne].
  - rewrite shr_fexp_one by lia. cbn. rewrite (proj2 (Z.leb_le _ _)) by lia. by exists 4503599627370496%positive, 1.
  - rewrite shr_fexp_none by lia. cbn [shr_record_of_loc shr_m]. destruct r as [|m|]; [lia| |lia].
    rewrite (proj2 (Z.leb_le _ _)) by lia. exists m, 0. rewrite Z.add_0_r, Z.pow_0_r. repeat split; lia.
Qed.

Lemma round_aux_close N D q e l :
  0 < D -> between N D q l -> 2 ^ 52 <= q < 2 ^ 54 -> -1074 <= e <= 950 ->
  exists m k, binary_round_aux 53 1024 false q e l = S754_finite false m (e + k)
    /\ 0 <= k <= 2 /\ 2 ^ 52 <= Z.pos m < 2 ^ 53 /\ 2 ^ 53 * Z.abs (D * (Z.pos m * 2 ^ k) - N) <= N.
Proof.
  intros HD Hb Hq He. pose proof (proj1 Hb) as Hbound. unfold binary_round_aux. destruct (decide (q < 2 ^ 53)) as [Hlt|Hge].
  - rewrite shr_fexp_none by lia. destruct (loc_of_record q l) as [-> ->].
    destruct (round_close N D q l HD Hb) as [Hr Hclose].
    destruct (round_aux_end (round_nearest_even q l) e) as (m & k & -> & Hk & Hm & Hb'); [lia..|].
    exists m, k. rewrite Hm. repeat split; try lia. assert (D * 2 ^ 52 <= N) by nia. lia.
  - rewrite shr_fexp_one by lia. destruct (between_half N D q l HD) as [Hh Hb2]; [lia|done|]. rewrite Hh.
    assert (2 ^ 52 <= q / 2 < 2 ^ 53) as Hq2 by (split; [apply Z.div_le_lower_bound|apply Z.div_lt_upper_bound]; lia).
    destruct (round_close N (2 * D) (q / 2) _ ltac:(lia) Hb2) as [Hr Hclose].
    destruct (round_aux_end (round_nearest_even (q / 2) (loc_of_shr_record (shr_1 (shr_record_of_loc q l)))) (e + 1)) as (m & k & -> & Hk & Hm & Hb'); [lia..|].
    exists m, (k + 1). rewrite Z.pow_add_r by lia. change (2 ^ 1) with 2. rewrite (Z.mul_assoc (Z.pos m)), Hm.
    replace (e + 1 + k) with (e + (k + 1)) by lia. repeat split; try lia.
    replace (D * (round_nearest_even (q / 2) (loc_of_shr_record (shr_1 (shr_record_of_loc q l))) * 2))
      with (2 * D * round_nearest_even (q / 2) (loc_of_shr_record (shr_1 (shr_record_of_loc q l)))) by ring.
    assert (2 * D * 2 ^ 52 <= N) by (destruct Hb2; nia). lia.
Qed.

(** ** Whole numbers *)

Lemma shift_left_pos m d : Z.pos (Pos.iter xO m d) = Z.pos m * 2 ^ Z.pos d.
Proof.
  induction d as [|d IH] using Pos.peano_ind; [cbn; lia|].
  rewrite Pos.iter_succ, Pos2Z.inj_succ, Z.pow_succ_r by lia. change (Z.pos (Pos.iter xO m d)~0) with (2 * Z.pos (Pos.iter xO m d)). lia.
Qed.

Lemma f64_of_Z_exact n : 0 < n < 2 ^ 53 ->
  exists m k, f64_of_Z n = S754_finite false m (- k) /\ 0 <= k <= 52 /\ Z.pos m = n * 2 ^ k /\ 2 ^ 52 <= Z.pos m < 2 ^ 53.
Proof.
  intros Hn. destruct n as [|p|]; [lia| |lia]. unfold f64_of_Z, binary_normalize, binary_round.
  pose proof (digits2_pos_bounds p) as Hd. set (d := Z.pos (digits2_pos p)) in *.
  assert (d <= 53) as Hd53.
  { destruct (Z.le_gt_cases d 53); [done|]. pose proof (Z.pow_le_mono_r 2 53 (d - 1) ltac:(lia) ltac:(lia)). lia. }
  assert (0 < d) as Hdp by lia. unfold shl_align, fexp, emin.
  replace (Z.max (d + 0 - 53) (3 - 1024 - 53) - 0) with (d - 53) by lia.
  replace (Z.max (d + 0 - 53) (3 - 1024 - 53)) with (d - 53) by lia.
  assert (exists m, (match d - 53 with Z.neg x => (Pos.iter xO p x, d - 53) | _ => (p, 0) end) = (m, - (53 - d))
                    /\ Z.pos m = Z.pos p * 2 ^ (53 - d)) as (m & -> & Hm).
  { destruct (d - 53) as [|x|x] eqn:He; [|lia|].
    - exists p. replace (53 - d) with 0 by lia. split; [done|]. by rewrite Z.pow_0_r, Z.mul_1_r.
    - exists (Pos.iter xO p x). replace (53 - d) with (Z.pos x) by lia. split; [done|]. apply shift_left_pos. }
  assert (2 ^ 52 <= Z.pos m < 2 ^ 53) as Hb.
  { rewrite Hm. assert (2 ^ (d - 1) * 2 ^ (53 - d) = 2 ^ 52) as H1 by (rewrite <- Z.pow_add_r by lia; f_equal; lia).
    assert (2 ^ d * 2 ^ (53 - d) = 2 ^ 53) as H2 by (rewrite <- Z.pow_add_r by lia; f_equal; lia).
    pose proof (Z.pow_pos_nonneg 2 (53 - d) ltac:(lia) ltac:(lia)). split; [rewrite <- H1|rewrite <- H2]; nia. }
  exists m, (53 - d). unfold binary_round_aux. rewrite shr_fexp_none by lia. cbn [shr_record_of_loc shr_m loc_of_shr_record round_nearest_even].
  rewrite shr_fexp_none by lia. cbn [shr_record_of_loc shr_m]. rewrite (proj2 (Z.leb_le _ _)) by lia. repeat split; lia.
Qed.

(** ** Division by a whole number

    The quotient, taken as often as it was divided by, is the dividend within one part in 2^53. *)
Theorem f64_div_whole x n : ample x -> 0 < n < 2 ^ 53 ->
  2 ^ 53 * Z.abs (n * f64_units (f64_div x (f64_of_Z n)) - f64_units x) <= f64_units x.
Proof.
  intros (m1 & e1 & -> & Hm1 & He1) Hn. destruct (f64_of_Z_exact n Hn) as (m2 & k & -> & Hk & Hm2 & Hb2).
  unfold f64_div, SFdiv, SFdiv_core_binary. rewrite !(Zdigits2_unique (Z.pos _) 53) by (done || lia). unfold fexp, emin.
  replace (Z.min (Z.max (53 + e1 - (53 + - k) - 53) (3 - 1024 - 53)) (e1 - - k)) with (e1 + k - 53) by lia.
  replace (e1 - - k - (e1 + k - 53)) with 53 by lia. cbn [xorb]. rewrite Z.shiftl_mul_pow2 by lia.
  destruct (Z.div_eucl (Z.pos m1 * 2 ^ 53) (Z.pos m2)) as [q r] eqn:Hqr.
  assert (q = Z.pos m1 * 2 ^ 53 / Z.pos m2 /\ r = (Z.pos m1 * 2 ^ 53) mod Z.pos m2) as [-> ->].
  { unfold Z.div, Z.modulo. by rewrite Hqr. }
  destruct (round_aux_close (Z.pos m1 * 2 ^ 53) (Z.pos m2) (Z.pos m1 * 2 ^ 53 / Z.pos m2) (e1 + k - 53)
              (new_location (Z.pos m2) ((Z.pos m1 * 2 ^ 53) mod Z.pos m2))) as (m & j & -> & Hj & Hm & Hclose); [lia|by apply between_div| |lia|].
  { split; [apply Z.div_le_lower_bound|apply Z.div_lt_upper_bound]; lia. }
  cbn [f64_units]. rewrite !Z.mul_1_l. rewrite Hm2 in Hclose.
  (* Both sides in units: the common factor is 2^(e1 + 1021). *)
  assert (n * (Z.pos m * 2 ^ (e1 + k - 53 + j + 1074)) = n * 2 ^ k * (Z.pos m * 2 ^ j) * 2 ^ (e1 + 1021)) as ->.
  { replace (e1 + k - 53 + j + 1074) with (k + j + (e1 + 1021)) by lia. rewrite !Z.pow_add_r by lia. ring. }
  assert (Z.pos m1 * 2 ^ (e1 + 1074) = Z.pos m1 * 2 ^ 53 * 2 ^ (e1 + 1021)) as ->.
  { replace (e1 + 1074) with (53 + (e1 + 1021)) by lia. rewrite Z.pow_add_r by lia. ring. }
  pose proof (Z.pow_pos_nonneg 2 (e1 + 1021) ltac:(lia) ltac:(lia)) as Hpow.
  rewrite <- Z.mul_sub_distr_r, Z.abs_mul, (Z.abs_eq (2 ^ (e1 + 1021))) by lia. rewrite Z.mul_assoc. apply Z.mul_le_mono_nonneg_r; lia.
Qed.
