(* ===== verification/Str.v ===== *)
(** * Byte strings

    A Rust [str] is its UTF-8 bytes, here a Standard Library [string] whose
    characters are bytes.  The functions are the ones of [str] the modelled sources
    call; [trim] knows every character with the Unicode [White_Space] property. *)

From Stdlib Require Import Ascii.
From stdpp Require Import pretty.
From S2P Require Import Prelude.

Definition chars (s : string) : list ascii := String.list_ascii_of_string s.
Definition of_chars (l : list ascii) : string := String.string_of_list_ascii l.
Definition str_rev (s : string) : string := of_chars (reverse (chars s)).

Definition byte_at (n : N) : ascii := ascii_of_N n.

Fixpoint strip_prefix_l (p s : list ascii) : option (list ascii) :=
  match p, s with
  | [], _ => Some s
  | a :: p, b :: s => if Ascii.eqb a b then strip_prefix_l p s else None
  | _ :: _, [] => None
  end.

Definition strip_prefix (s p : string) : option string :=
  of_chars <$> strip_prefix_l (chars p) (chars s).
Definition strip_suffix (s suf : string) : option string :=
  (fun r => of_chars (reverse r)) <$> strip_prefix_l (reverse (chars suf)) (reverse (chars s)).
Definition starts_with (s p : string) : bool := bool_decide (is_Some (strip_prefix s p)).
Definition ends_with (s suf : string) : bool := bool_decide (is_Some (strip_suffix s suf)).

(** First byte offset at which [p] occurs: [str::find]. *)
Fixpoint find_l (s p : list ascii) : option nat :=
  match strip_prefix_l p s with
  | Some _ => Some 0%nat
  | None => match s with
            | [] => None
            | _ :: s => S <$> find_l s p
            end
  end.
Definition str_find (s p : string) : option nat := find_l (chars s) (chars p).

(** Last byte offset of an ASCII character: [str::rfind]. *)
Fixpoint rfind_l (s : list ascii) (c : ascii) : option nat :=
  match s with
  | [] => None
  | a :: s =>
      match rfind_l s c with
      | Some i => Some (S i)
      | None => if Ascii.eqb a c then Some 0%nat else None
      end
  end.
Definition str_rfind (s : string) (c : ascii) : option nat := rfind_l (chars s) c.

(** [&s[a..b]]. *)
Definition slice (s : string) (a b : nat) : string := of_chars (take (b - a) (drop a (chars s))).
Definition slice_from (s : string) (a : nat) : string := of_chars (drop a (chars s)).
Definition slice_to (s : string) (b : nat) : string := of_chars (take b (chars s)).
Definition str_len (s : string) : nat := length (chars s).
Definition str_is_empty (s : string) : bool := bool_decide (s = "").

Definition ascii_lower (c : ascii) : ascii :=
  let n := N_of_ascii c in
  if (N.leb 65 n && N.leb n 90)%bool then ascii_of_N (n + 32) else c.
Definition to_ascii_lowercase (s : string) : string := of_chars (ascii_lower <$> chars s).

(** The UTF-8 encodings of the [White_Space] characters. *)
Definition white_space : list (list N) :=
  [[9]; [10]; [11]; [12]; [13]; [32]; [194; 133]; [194; 160]; [225; 154; 128];
   [226; 128; 128]; [226; 128; 129]; [226; 128; 130]; [226; 128; 131]; [226; 128; 132];
   [226; 128; 133]; [226; 128; 134]; [226; 128; 135]; [226; 128; 136]; [226; 128; 137];
   [226; 128; 138]; [226; 128; 168]; [226; 128; 169]; [226; 128; 175]; [226; 129; 159];
   [227; 128; 128]]%N.

Fixpoint first_stripped (ws : list (list ascii)) (s : list ascii) : option (list ascii) :=
  match ws with
  | [] => None
  | w :: ws => match strip_prefix_l w s with
               | Some r => Some r
               | None => first_stripped ws s
               end
  end.

Definition ws_forward : list (list ascii) := map (map ascii_of_N) white_space.
Definition ws_backward : list (list ascii) := map (@reverse ascii) ws_forward.

Fixpoint trim_fuel (ws : list (list ascii)) (fuel : nat) (s : list ascii) : list ascii :=
  match fuel with
  | O => s
  | S fuel => match first_stripped ws s with
              | Some r => trim_fuel ws fuel r
              | None => s
              end
  end.
Definition trim_start_l (s : list ascii) : list ascii := trim_fuel ws_forward (length s) s.
Definition trim_end_l (s : list ascii) : list ascii :=
  reverse (trim_fuel ws_backward (length s) (reverse s)).
Definition trim_l (s : list ascii) : list ascii := trim_end_l (trim_start_l s).
Definition trim (s : string) : string := of_chars (trim_l (chars s)).

(** [s.split(c)]. *)
Fixpoint split_l (c : ascii) (s : list ascii) : list (list ascii) :=
  match s with
  | [] => [[]]
  | a :: s =>
      if Ascii.eqb a c then [] :: split_l c s
      else match split_l c s with
           | w :: ws => (a :: w) :: ws
           | [] => [[a]]
           end
  end.
Definition str_split (s : string) (c : ascii) : list string := of_chars <$> split_l c (chars s).

(** [s.split_once(c)]. *)
Fixpoint split_once_l (c : ascii) (s : list ascii) : option (list ascii * list ascii) :=
  match s with
  | [] => None
  | a :: s =>
      if Ascii.eqb a c then Some ([], s)
      else (fun '(l, r) => (a :: l, r)) <$> split_once_l c s
  end.
Definition split_once (s : string) (c : ascii) : option (string * string) :=
  (fun '(l, r) => (of_chars l, of_chars r)) <$> split_once_l c (chars s).

(** [v.join(sep)]. *)
Fixpoint join (sep : string) (l : list string) : string :=
  match l with
  | [] => ""
  | [s] => s
  | s :: l => s +:+ sep +:+ join sep l
  end.

(** Byte-wise order: [Ord] of [str]. *)
Fixpoint str_compare_l (a b : list ascii) : comparison :=
  match a, b with
  | [], [] => Eq
  | [], _ => Lt
  | _, [] => Gt
  | x :: a, y :: b =>
      match N.compare (N_of_ascii x) (N_of_ascii y) with
      | Eq => str_compare_l a b
      | c => c
      end
  end.
Definition str_compare (a b : string) : comparison := str_compare_l (chars a) (chars b).
Definition str_le (a b : string) : Prop := str_compare a b <> Gt.
#[export] Instance str_le_dec (a b : string) : Decision (str_le a b).
Proof. unfold str_le. apply _. Defined.

(** Decimal rendering of an unsigned integer. *)
Definition Z_to_string (z : Z) : string := pretty z.

(** ** Lemmas *)

Lemma of_chars_chars (s : string) : of_chars (chars s) = s.
Proof. apply String.string_of_list_ascii_of_string. Qed.
Lemma chars_of_chars (l : list ascii) : chars (of_chars l) = l.
Proof. apply String.list_ascii_of_string_of_list_ascii. Qed.

Lemma chars_inj (s t : string) : chars s = chars t -> s = t.
Proof. intros H. by rewrite <- (of_chars_chars s), H, of_chars_chars. Qed.

Lemma chars_app (s t : string) : chars (s +:+ t) = chars s ++ chars t.
Proof. induction s as [|c s IH]; [done|]. simpl. unfold chars in *. simpl. by rewrite IH. Qed.

Lemma str_app_assoc (a b c : string) : (a +:+ b) +:+ c = a +:+ b +:+ c.
Proof. apply chars_inj. by rewrite !chars_app, app_assoc. Qed.

Lemma str_len_app (a b : string) : str_len (a +:+ b) = (str_len a + str_len b)%nat.
Proof. unfold str_len. by rewrite chars_app, length_app. Qed.

Lemma of_chars_app (l k : list ascii) : of_chars (l ++ k) = of_chars l +:+ of_chars k.
Proof. apply chars_inj. by rewrite chars_app, !chars_of_chars. Qed.

Lemma strip_prefix_l_Some (p s r : list ascii) : strip_prefix_l p s = Some r <-> s = p ++ r.
Proof.
  revert s. induction p as [|a p IH]; intros s; simpl; [naive_solver|].
  destruct s as [|b s]; [naive_solver|]. destruct (Ascii.eqb_spec a b) as [->|Hne].
  - rewrite IH. naive_solver.
  - naive_solver.
Qed.

Lemma strip_prefix_Some (s p r : string) : strip_prefix s p = Some r <-> s = p +:+ r.
Proof.
  unfold strip_prefix. rewrite fmap_Some. split.
  - intros (l & Hl & ->). apply strip_prefix_l_Some in Hl. apply chars_inj.
    by rewrite chars_app, chars_of_chars.
  - intros ->. exists (chars r). rewrite of_chars_chars. split; [|done].
    apply strip_prefix_l_Some, chars_app.
Qed.

Lemma strip_suffix_Some (s p r : string) : strip_suffix s p = Some r <-> s = r +:+ p.
Proof.
  unfold strip_suffix. rewrite fmap_Some. split.
  - intros (l & Hl & ->). apply strip_prefix_l_Some in Hl. apply chars_inj.
    rewrite chars_app, chars_of_chars. apply (f_equal reverse) in Hl.
    rewrite reverse_app, !reverse_involutive in Hl. done.
  - intros ->. exists (reverse (chars r)). rewrite reverse_involutive, of_chars_chars.
    split; [|done]. apply strip_prefix_l_Some. by rewrite chars_app, reverse_app.
Qed.

Lemma starts_with_spec (s p : string) : starts_with s p = true <-> exists r, s = p +:+ r.
Proof.
  unfold starts_with. rewrite bool_decide_eq_true. split.
  - intros [r Hr]. apply strip_prefix_Some in Hr. eauto.
  - intros [r Hr]. exists r. by apply strip_prefix_Some.
Qed.

Lemma ends_with_spec (s p : string) : ends_with s p = true <-> exists r, s = r +:+ p.
Proof.
  unfold ends_with. rewrite bool_decide_eq_true. split.
  - intros [r Hr]. apply strip_suffix_Some in Hr. eauto.
  - intros [r Hr]. exists r. by apply strip_suffix_Some.
Qed.

Lemma find_l_Some (s p : list ascii) (i : nat) :
  find_l s p = Some i ->
  (exists r, s = take i s ++ p ++ r) /\ (i <= length s)%nat
  /\ forall j r, (j < i)%nat -> drop j s <> p ++ r.
Proof.
  revert i. induction s as [|a s IH]; intros i; simpl.
  - destruct (strip_prefix_l p []) as [r|] eqn:Hp; [|done]. intros [= <-].
    apply strip_prefix_l_Some in Hp. split; [by exists r|]. split; [lia|]. intros; lia.
  - destruct (strip_prefix_l p (a :: s)) as [r|] eqn:Hp.
    + intros [= <-]. apply strip_prefix_l_Some in Hp. split; [by exists r|]. split; [lia|]. intros; lia.
    + destruct (find_l s p) as [j|] eqn:Hf; [|done]. intros [= <-].
      destruct (IH j eq_refl) as ((r & Hr) & Hle & Hmin). split; [|split; [lia|]].
      * exists r. simpl. by f_equal.
      * intros [|k] r' Hk; simpl.
        -- intros Heq. assert (strip_prefix_l p (a :: s) = Some r') as Hc by by apply strip_prefix_l_Some.
           by rewrite Hc in Hp.
        -- apply Hmin. lia.
Qed.

Lemma str_compare_l_eq (a b : list ascii) : str_compare_l a b = Eq <-> a = b.
Proof.
  revert b. induction a as [|x a IH]; intros [|y b]; simpl; try (split; congruence || done).
  destruct (N.compare_spec (N_of_ascii x) (N_of_ascii y)) as [Heq|Hlt|Hgt].
  - rewrite IH. split; [|congruence]. intros ->. f_equal.
    by rewrite <- (ascii_N_embedding x), <- (ascii_N_embedding y), Heq.
  - split; [done|]. intros [= -> _]. lia.
  - split; [done|]. intros [= -> _]. lia.
Qed.

Lemma str_compare_l_antisym (a b : list ascii) : str_compare_l b a = CompOpp (str_compare_l a b).
Proof.
  revert b. induction a as [|x a IH]; intros [|y b]; simpl; try done.
  rewrite (N.compare_antisym (N_of_ascii x)). destruct (N.compare _ _); simpl; auto.
Qed.

Lemma str_compare_l_trans (a b c : list ascii) :
  str_compare_l a b <> Gt -> str_compare_l b c <> Gt -> str_compare_l a c <> Gt.
Proof.
  revert b c. induction a as [|x a IH]; intros [|y b] [|z c]; simpl; try done.
  destruct (N.compare_spec (N_of_ascii x) (N_of_ascii y)), (N.compare_spec (N_of_ascii y) (N_of_ascii z)),
    (N.compare_spec (N_of_ascii x) (N_of_ascii z)); try done; try lia; eauto.
Qed.

#[export] Instance str_le_total : Total str_le.
Proof.
  intros a b. unfold str_le, str_compare. rewrite (str_compare_l_antisym (chars a)).
  destruct (str_compare_l _ _); simpl; naive_solver.
Qed.
#[export] Instance str_le_trans : Transitive str_le.
Proof. intros a b c. unfold str_le, str_compare. apply str_compare_l_trans. Qed.
#[export] Instance str_le_antisymm : AntiSymm (=) str_le.
Proof.
  intros a b. unfold str_le, str_compare. rewrite (str_compare_l_antisym (chars a)).
  destruct (str_compare_l (chars a) (chars b)) eqn:Hc; simpl; try done.
  intros _ _. apply chars_inj. by apply str_compare_l_eq.
Qed.

(** ** Printable text: [trim], [find], [split] and [join] on it *)

(** A visible ASCII character. *)
Definition visible (c : ascii) : bool := N.ltb 32 (N_of_ascii c) && N.ltb (N_of_ascii c) 127.

Lemma first_stripped_visible (ws : list (list ascii)) (c : ascii) (s : list ascii) :
  visible c = true ->
  forallb (fun w => match w with a :: _ => negb (visible a) | [] => false end) ws = true ->
  first_stripped ws (c :: s) = None.
Proof.
  intros Hc. induction ws as [|w ws IH]; simpl; [done|]. intros [Hw Hws]%andb_prop.
  destruct w as [|a w]; [done|]. simpl.
  destruct (Ascii.eqb_spec a c) as [->|]; [|by auto].
  by rewrite Hc in Hw.
Qed.

Lemma trim_fuel_visible (ws : list (list ascii)) (n : nat) (s : list ascii) :
  forallb (fun w => match w with a :: _ => negb (visible a) | [] => false end) ws = true ->
  (forall c, head s = Some c -> visible c = true) -> trim_fuel ws n s = s.
Proof.
  intros Hws Hs. destruct n as [|n]; [done|]. simpl. destruct s as [|c s].
  - assert (first_stripped ws [] = None) as ->; [|done].
    clear Hs. induction ws as [|w ws IH]; [done|]. simpl in *. apply andb_prop in Hws as [Hw ?].
    destruct w; [done|]. simpl. auto.
  - by rewrite first_stripped_visible by auto.
Qed.

(** Text that begins and ends with a visible character is its own trimming. *)
Lemma trim_visible (s : string) :
  (forall c, head (chars s) = Some c -> visible c = true) ->
  (forall c, last (chars s) = Some c -> visible c = true) -> trim s = s.
Proof.
  intros Hh Hl. unfold trim, trim_l, trim_start_l, trim_end_l.
  rewrite (trim_fuel_visible ws_forward) by (done || by vm_compute).
  rewrite (trim_fuel_visible ws_backward), reverse_involutive, of_chars_chars; [done| |].
  - by vm_compute.
  - intros c. rewrite head_reverse. apply Hl.
Qed.

Lemma find_l_char_None (c : ascii) (l : list ascii) : c ∉ l -> find_l l [c] = None.
Proof.
  induction l as [|a l IH]; [done|]. intros Hc. simpl.
  destruct (Ascii.eqb_spec c a) as [->|]; [by destruct Hc; left|].
  rewrite IH; [done|]. intros ?. apply Hc. by right.
Qed.

Lemma find_l_char_app (c : ascii) (l r : list ascii) :
  c ∉ l -> find_l (l ++ c :: r) [c] = Some (length l).
Proof.
  induction l as [|a l IH]; intros Hc; simpl.
  - by rewrite Ascii.eqb_refl.
  - destruct (Ascii.eqb_spec c a) as [->|]; [by destruct Hc; left|].
    rewrite IH; [done|]. intros ?. apply Hc. by right.
Qed.

Lemma rfind_l_snoc (c : ascii) (l : list ascii) : rfind_l (l ++ [c]) c = Some (length l).
Proof. induction l as [|a l IH]; simpl; [by rewrite Ascii.eqb_refl|]. by rewrite IH. Qed.

Lemma split_l_no (c : ascii) (l : list ascii) : c ∉ l -> split_l c l = [l].
Proof.
  induction l as [|a l IH]; intros Hc; simpl; [done|].
  destruct (Ascii.eqb_spec a c) as [->|]; [by destruct Hc; left|].
  rewrite IH; [done|]. intros ?. apply Hc. by right.
Qed.

Lemma split_l_app (c : ascii) (l r : list ascii) :
  c ∉ l -> split_l c (l ++ c :: r) = l :: split_l c r.
Proof.
  induction l as [|a l IH]; intros Hc; simpl; [by rewrite Ascii.eqb_refl|].
  destruct (Ascii.eqb_spec a c) as [->|]; [by destruct Hc; left|].
  rewrite IH; [done|]. intros ?. apply Hc. by right.
Qed.

Lemma split_once_l_app (c : ascii) (l r : list ascii) :
  c ∉ l -> split_once_l c (l ++ c :: r) = Some (l, r).
Proof.
  induction l as [|a l IH]; intros Hc; simpl; [by rewrite Ascii.eqb_refl|].
  destruct (Ascii.eqb_spec a c) as [->|]; [by destruct Hc; left|].
  rewrite IH; [done|]. intros ?. apply Hc. by right.
Qed.

(** [split] undoes [join] on pieces without the separator. *)
Lemma split_join (c : ascii) (l : list string) :
  l <> [] -> Forall (fun s => c ∉ chars s) l -> str_split (join (of_chars [c]) l) c = l.
Proof.
  intros Hne Hl. unfold str_split. induction Hl as [|s l Hs Hl IH]; [done|].
  destruct l as [|t l].
  - cbn [join]. rewrite split_l_no by done. simpl. by rewrite of_chars_chars.
  - cbn [join]. rewrite !chars_app, chars_of_chars. cbn [app].
    rewrite split_l_app by done. cbn [fmap list_fmap]. rewrite of_chars_chars.
    f_equal. by apply IH.
Qed.

Create Rewrite HintDb loadr_str.
#[export] Hint Rewrite chars_app chars_of_chars of_chars_chars : loadr_str.

Example trim_ex : trim "  a b	" = "a b".
Proof. vm_compute. reflexivity. Qed.
Example split_ex : str_split "a,b,,c" "," = ["a"; "b"; ""; "c"].
Proof. vm_compute. reflexivity. Qed.
