(* ===== verification/Value.v ===== *)
(** * JSON values, ordered maps and random draws

    The data [serde_json], [indexmap] and [rand] hand to the code, as their documentation
    describes it: a [Value] is one of six kinds, a [Number] a [u64], a negative [i64] or
    an [f64]; a [serde_json::Map] is ordered by key, an [IndexMap] by insertion.
    Printing and parsing JSON text, and the generators, are parameters with laws. *)

From Stdlib Require Import Ascii.
From S2P Require Import Prelude Float64 Str.

Inductive Number :=
| PosInt (u : Z)
| NegInt (i : Z)
| Float (f : f64).

#[export] Instance Number_eq_dec : EqDecision Number.
Proof. solve_decision. Defined.

Inductive Value :=
| Null
| Bool (b : bool)
| Num (n : Number)
| Text (s : string)
| Array (items : list Value)
| Object (fields : list (string * Value)).

Notation Map := (list (string * Value)).

(** ** [serde_json::Map]: sorted by key *)

Fixpoint map_get (k : string) (m : Map) : option Value :=
  match m with
  | [] => None
  | (k', v) :: m => if bool_decide (k = k') then Some v else map_get k m
  end.

Fixpoint map_insert (k : string) (v : Value) (m : Map) : Map :=
  match m with
  | [] => [(k, v)]
  | (k', v') :: m' =>
      match str_compare k k' with
      | Lt => (k, v) :: m
      | Eq => (k, v) :: m'
      | Gt => (k', v') :: map_insert k v m'
      end
  end.

(** ** [IndexMap<String, A>]: insertion order, a key keeps its place *)

Section IndexMap.
Context {A : Type}.

Fixpoint index_get (k : string) (m : list (string * A)) : option A :=
  match m with
  | [] => None
  | (k', v) :: m => if bool_decide (k = k') then Some v else index_get k m
  end.

Fixpoint index_insert (k : string) (v : A) (m : list (string * A)) : list (string * A) :=
  match m with
  | [] => [(k, v)]
  | (k', v') :: m => if bool_decide (k = k') then (k, v) :: m else (k', v') :: index_insert k v m
  end.

Definition index_collect (l : list (string * A)) : list (string * A) :=
  foldl (fun m '(k, v) => index_insert k v m) [] l.
End IndexMap.

(** ** Numbers *)

Definition i64_max : Z := 2 ^ 63 - 1.

Definition Number_as_i64 (n : Number) : option Z :=
  match n with
  | PosInt u => if Z.leb u i64_max then Some u else None
  | NegInt i => Some i
  | Float _ => None
  end.

Definition Number_as_f64 (n : Number) : f64 :=
  match n with
  | PosInt u => f64_of_Z u
  | NegInt i => f64_of_Z i
  | Float f => f
  end.

Definition Number_from_i64 (i : Z) : Number := if Z.ltb i 0 then NegInt i else PosInt i.
Definition Number_from_f64 (f : f64) : option Number := if f64_is_finite f then Some (Float f) else None.

Definition as_i64 (v : Value) : option Z := match v with Num n => Number_as_i64 n | _ => None end.
Definition as_f64 (v : Value) : option f64 := match v with Num n => Some (Number_as_f64 n) | _ => None end.

(** [==] on values: numbers compare within their representation, objects as maps. *)
Definition number_eqb (a b : Number) : bool :=
  match a, b with
  | PosInt x, PosInt y | NegInt x, NegInt y => Z.eqb x y
  | Float x, Float y => f64_eq x y
  | _, _ => false
  end.

Fixpoint value_eqb (a b : Value) {struct a} : bool :=
  match a, b with
  | Null, Null => true
  | Bool x, Bool y => Bool.eqb x y
  | Num x, Num y => number_eqb x y
  | Text x, Text y => bool_decide (x = y)
  | Array l, Array l' =>
      (fix go (l l' : list Value) {struct l} : bool :=
         match l, l' with
         | [], [] => true
         | x :: l, y :: l' => value_eqb x y && go l l'
         | _, _ => false
         end) l l'
  | Object m, Object m' =>
      (fix go (m m' : Map) {struct m} : bool :=
         match m, m' with
         | [], [] => true
         | (k, x) :: m, (k', y) :: m' => bool_decide (k = k') && value_eqb x y && go m m'
         | _, _ => false
         end) m m'
  | _, _ => false
  end.

(** ** JSON text *)

Class JsonText := {
  to_json : Value -> string;
  from_json : string -> result string Value;
}.

Section Json.
Context `{JsonText}.

(** loadr-core/src/vu.rs, data.rs: text as users expect it. *)
Definition json_to_string (v : Value) : string :=
  match v with
  | Text s => s
  | other => to_json other
  end.
End Json.

(** ** Random draws

    [random_range(0..n)] on indices, [random_range(lo..hi)] and [(lo..=hi)] on doubles,
    the normal distribution of [rand_distr] and [shuffle]. *)

Class Rng (R : Type) := {
  random_index : nat -> R -> nat * R;
  random_f64 : f64 -> f64 -> R -> f64 * R;
  random_f64_inclusive : f64 -> f64 -> R -> f64 * R;
  sample_normal : f64 -> f64 -> R -> option f64 * R;
  shuffle : list nat -> R -> list nat * R;
}.

Class RngLaws (R : Type) `{Rng R} := {
  random_index_lt n r : (0 < n)%nat -> ((random_index n r).1 < n)%nat;
  random_f64_range lo hi r : f64_lt lo hi = true ->
    f64_le lo (random_f64 lo hi r).1 = true /\ f64_lt (random_f64 lo hi r).1 hi = true;
  random_f64_inclusive_range lo hi r : f64_le lo hi = true ->
    f64_le lo (random_f64_inclusive lo hi r).1 = true /\ f64_le (random_f64_inclusive lo hi r).1 hi = true;
  shuffle_perm l r : (shuffle l r).1 ≡ₚ l;
}.

(** ** Lemmas *)

Lemma map_get_insert (k : string) (v : Value) (m : Map) : map_get k (map_insert k v m) = Some v.
Proof.
  induction m as [|[k' v'] m IH]; simpl; [by rewrite bool_decide_true|].
  destruct (str_compare k k') eqn:Hc; simpl; [by rewrite bool_decide_true..|].
  rewrite bool_decide_false; [done|]. intros ->.
  assert (str_compare k' k' = Eq) as Hq by by apply str_compare_l_eq.
  by rewrite Hq in Hc.
Qed.

Lemma map_get_insert_ne (k j : string) (v : Value) (m : Map) :
  j <> k -> map_get j (map_insert k v m) = map_get j m.
Proof.
  intros Hne. induction m as [|[k' v'] m IH]; simpl; [by rewrite bool_decide_false|].
  destruct (str_compare k k') eqn:Hc; simpl.
  - apply str_compare_l_eq, chars_inj in Hc as <-. by rewrite !(bool_decide_false (j = k)).
  - by rewrite (bool_decide_false (j = k)).
  - case_bool_decide; [done|]. apply IH.
Qed.

Section IndexLemmas.
Context {A : Type}.

Lemma index_get_insert (k : string) (v : A) m : index_get k (index_insert k v m) = Some v.
Proof.
  induction m as [|[k' v'] m IH]; simpl; [by rewrite bool_decide_true|].
  case_bool_decide as Hk; simpl; [by rewrite bool_decide_true|]. by rewrite bool_decide_false.
Qed.

Lemma index_get_insert_ne (k j : string) (v : A) m :
  j <> k -> index_get j (index_insert k v m) = index_get j m.
Proof.
  intros Hne. induction m as [|[k' v'] m IH]; simpl; [by rewrite bool_decide_false|].
  case_bool_decide as Hk; simpl; [subst; by rewrite !bool_decide_false|].
  by rewrite IH.
Qed.
End IndexLemmas.

Lemma Value_ind' (P : Value -> Prop) :
  P Null -> (forall b, P (Bool b)) -> (forall n, P (Num n)) -> (forall s, P (Text s)) ->
  (forall l, Forall P l -> P (Array l)) -> (forall m, Forall (fun kv => P kv.2) m -> P (Object m)) ->
  forall v, P v.
Proof.
  intros HN HB Hn Hs HA HO. fix IH 1. intros [|b|n|s|l|m]; [done|by apply HB|by apply Hn|by apply Hs| |].
  - apply HA. induction l as [|v l IHl]; constructor; [apply IH|exact IHl].
  - apply HO. induction m as [|[k v] m IHm]; constructor; [apply IH|exact IHm].
Qed.

(** ** A generator that satisfies the laws *)

Module CountingRng.
#[export] Instance rng : Rng nat := {|
  random_index n r := ((r mod n)%nat, S r);
  random_f64 lo hi r := (lo, S r);
  random_f64_inclusive lo hi r := (lo, S r);
  sample_normal mean dev r := (Some mean, S r);
  shuffle l r := (if Nat.even r then reverse l else l, S r);
|}.

#[export] Instance rng_laws : RngLaws nat.
Proof.
  constructor; simpl.
  - intros n r Hn. by apply Nat.mod_upper_bound, Nat.neq_0_lt_0.
  - intros lo hi r Hl. split; [|done]. by apply f64_le_refl, (f64_lt_not_nan lo hi).
  - intros lo hi r Hl. split; [|done]. by apply f64_le_refl, (f64_le_not_nan lo hi).
  - intros l r. destruct (Nat.even r); [apply reverse_Permutation|done].
Qed.
End CountingRng.
