(* ===== verification/Template.v ===== *)
(** * Templates (crates/loadr-config/src/template.rs)

    [${expr}] interpolation: the parser over the bytes of the text, the renderer, and
    the walk over the string leaves of a JSON value.  The parser's loops run on fuel, the
    number of bytes left, which every turn lowers. *)

From Stdlib Require Import Ascii.
From S2P Require Import Prelude Float64 Str Value.

Inductive TemplateError :=
| Unterminated (at_byte : nat)
| EmptyExpr (at_byte : nat)
| Unresolved (name : string).

#[export] Instance TemplateError_eq_dec : EqDecision TemplateError.
Proof. solve_decision. Defined.

Definition TemplateError_to_string (e : TemplateError) : string :=
  match e with
  | Unterminated b =>
      "unterminated `${` starting at byte " +:+ Z_to_string (Z.of_nat b)
      +:+ "; close it with `}` or escape it as `$${`"
  | EmptyExpr b => "empty `${}` expression at byte " +:+ Z_to_string (Z.of_nat b)
  | Unresolved n => "unresolved template variable `" +:+ n +:+ "`"
  end.

Inductive Part :=
| Lit (l : string)
| Expr (e : string).

#[export] Instance Part_eq_dec : EqDecision Part.
Proof. solve_decision. Defined.

Record Template := mkTemplate {
  parts : list Part;
  source : string;
}.

Definition utf8_len (first_byte : ascii) : nat :=
  let b := N_of_ascii first_byte in
  if N.ltb b 128 then 1
  else if N.eqb (N.shiftr b 5) 6 then 2
  else if N.eqb (N.shiftr b 4) 14 then 3
  else 4.

(** The inner loop: from just after an opening brace at nesting [depth], the bytes up to
    the brace that closes it, and what follows that brace. *)
Fixpoint scan_close (s : list ascii) (depth : nat) : option (list ascii * list ascii) :=
  match s with
  | [] => None
  | c :: s' =>
      let push := fun r : option (list ascii * list ascii) => (fun '(e, rest) => (c :: e, rest)) <$> r in
      if Ascii.eqb c "{" then push (scan_close s' (S depth))
      else if Ascii.eqb c "}" then
        match depth with
        | S (S d) => push (scan_close s' (S d))
        | _ => Some ([], s')
        end
      else push (scan_close s' depth)
  end.

(** [parts.push(Part::Lit(take(&mut lit)))] unless the literal is empty. *)
Definition flush (lit : list ascii) (ps : list Part) : list Part :=
  match lit with [] => ps | _ => ps ++ [Lit (of_chars lit)] end.

(** The outer loop: the bytes left, the offset of the first, the literal and the parts
    so far. *)
Fixpoint parse_loop (fuel : nat) (s : list ascii) (i : nat) (lit : list ascii) (ps : list Part) :
    result TemplateError (list Part) :=
  match fuel, s with
  | _, [] | O, _ => Ok (flush lit ps)
  | S fuel, "$"%char :: "$"%char :: "{"%char :: s' =>
      parse_loop fuel s' (i + 3) (lit ++ ["$"; "{"]%char) ps
  | S fuel, "$"%char :: "{"%char :: s' =>
      match scan_close s' 1 with
      | None => Err (Unterminated i)
      | Some (inner, rest) =>
          match trim_l inner with
          | [] => Err (EmptyExpr i)
          | expr => parse_loop fuel rest (i + 3 + length inner) [] (flush lit ps ++ [Expr (of_chars expr)])
          end
      end
  | S fuel, c :: _ =>
      let n := utf8_len c in
      parse_loop fuel (drop n s) (i + n) (lit ++ take n s) ps
  end.

Definition Template_parse (s : string) : result TemplateError Template :=
  match parse_loop (length (chars s)) (chars s) 0 [] [] with
  | Ok ps => Ok (mkTemplate ps s)
  | Err e => Err e
  end.

Definition is_lit (p : Part) : bool := match p with Lit _ => true | Expr _ => false end.
Definition is_literal (t : Template) : bool := forallb is_lit (parts t).
Definition expressions (t : Template) : list string :=
  omap (fun p => match p with Expr e => Some e | Lit _ => None end) (parts t).

(** [render] with a resolver that has a state of its own ([FnMut]). *)
Section Render.
Context {S : Type} (resolve : string -> S -> option string * S).

Fixpoint render_parts (ps : list Part) (s : S) : result TemplateError string * S :=
  match ps with
  | [] => (Ok "", s)
  | Lit l :: ps =>
      let '(r, s) := render_parts ps s in
      (match r with Ok out => Ok (l +:+ out) | Err e => Err e end, s)
  | Expr e :: ps =>
      match resolve e s with
      | (Some v, s) =>
          let '(r, s) := render_parts ps s in
          (match r with Ok out => Ok (v +:+ out) | Err e => Err e end, s)
      | (None, s) => (Err (Unresolved e), s)
      end
  end.

Definition render (t : Template) (s : S) : result TemplateError string * S := render_parts (parts t) s.

(** [render_json_value]. *)
Context `{JsonText}.

Definition render_text (text : string) (s : S) : result TemplateError Value * S :=
  match Template_parse text with
  | Err e => (Err e, s)
  | Ok t =>
      if is_literal t then (Ok (Text text), s)
      else
        let '(r, s) := render t s in
        (match r with
         | Err e => Err e
         | Ok rendered =>
             Ok (if Nat.eqb (length (parts t)) 1
                 then match from_json rendered with Ok v => v | Err _ => Text rendered end
                 else Text rendered)
         end, s)
  end.

Fixpoint render_json_value (v : Value) (s : S) : result TemplateError Value * S :=
  match v with
  | Text text => render_text text s
  | Array items =>
      let '(r, s) :=
        (fix go (l : list Value) (s : S) : result TemplateError (list Value) * S :=
           match l with
           | [] => (Ok [], s)
           | x :: l =>
               match render_json_value x s with
               | (Err e, s) => (Err e, s)
               | (Ok y, s) =>
                   let '(r, s) := go l s in
                   (match r with Ok ys => Ok (y :: ys) | Err e => Err e end, s)
               end
           end) items s in
      (match r with Ok ys => Ok (Array ys) | Err e => Err e end, s)
  | Object fields =>
      let '(r, s) :=
        (fix go (l : Map) (out : Map) (s : S) : result TemplateError Map * S :=
           match l with
           | [] => (Ok out, s)
           | (k, x) :: l =>
               match render_json_value x s with
               | (Err e, s) => (Err e, s)
               | (Ok y, s) => go l (map_insert k y out) s
               end
           end) fields [] s in
      (match r with Ok out => Ok (Object out) | Err e => Err e end, s)
  | other => (Ok other, s)
  end.
End Render.

Example parse_plain : Template_parse "a${ x }b" = Ok (mkTemplate [Lit "a"; Expr "x"; Lit "b"] "a${ x }b").
Proof. vm_compute. reflexivity. Qed.
Example parse_nested : Template_parse "${js: ({a:1}).a}" = Ok (mkTemplate [Expr "js: ({a:1}).a"] "${js: ({a:1}).a}").
Proof. vm_compute. reflexivity. Qed.
Example parse_escaped : Template_parse "cost: $${amount}" = Ok (mkTemplate [Lit "cost: ${amount}"] "cost: $${amount}").
Proof. vm_compute. reflexivity. Qed.
Example parse_open : Template_parse "a ${b" = Err (Unterminated 2).
Proof. vm_compute. reflexivity. Qed.
Example parse_blank : Template_parse "a ${  }" = Err (EmptyExpr 2).
Proof. vm_compute. reflexivity. Qed.

(** ** Printing, and the round trip *)

Fixpoint escape (s : list ascii) : list ascii :=
  match s with
  | [] => []
  | c :: s' =>
      match c, s' with
      | "$"%char, "{"%char :: _ => "$"%char :: "$"%char :: escape s'
      | _, _ => c :: escape s'
      end
  end.

Definition print_part (p : Part) : list ascii :=
  match p with
  | Lit l => escape (chars l)
  | Expr e => ["$"; "{"]%char ++ chars e ++ ["}"]%char
  end.
Definition print_parts (ps : list Part) : string := of_chars (concat (print_part <$> ps)).

(** Braces nest: none closes below the depth the text starts at. *)
Fixpoint balanced (s : list ascii) (depth : nat) : Prop :=
  match s with
  | [] => depth = 1%nat
  | c :: s' =>
      if Ascii.eqb c "{" then balanced s' (S depth)
      else if Ascii.eqb c "}" then match depth with S (S d) => balanced s' (S d) | _ => False end
      else balanced s' depth
  end.

(** Whole characters, as every [str] has. *)
Inductive utf8 : list ascii -> Prop :=
| utf8_nil : utf8 []
| utf8_char c cont s :
    utf8_len c = S (length cont) -> Forall (fun b => (128 <= N_of_ascii b)%N) cont -> utf8 s ->
    utf8 (c :: cont ++ s).

(** What a parsed template looks like. *)
Fixpoint wf_parts (ps : list Part) : Prop :=
  match ps with
  | [] => True
  | Lit l :: ps =>
      l <> "" /\ utf8 (chars l)
      /\ match ps with
         | [] => True
         | Lit _ :: _ => False
         | Expr _ :: _ => last (chars l) <> Some "$"%char
         end /\ wf_parts ps
  | Expr e :: ps => e <> "" /\ trim e = e /\ balanced (chars e) 1 /\ wf_parts ps
  end.

Lemma scan_close_length (s e rest : list ascii) (d : nat) :
  scan_close s d = Some (e, rest) -> length s = (length e + S (length rest))%nat.
Proof.
  revert d e rest. induction s as [|c s IH]; intros d e rest; simpl; [done|].
  assert (forall d', (fun '(e, rest) => (c :: e, rest)) <$> scan_close s d' = Some (e, rest) ->
            S (length s) = (length e + S (length rest))%nat) as Hp.
  { intros d'. destruct (scan_close s d') as [[e' rest']|] eqn:Hs; [|done]. intros [= <- <-].
    simpl. by rewrite (IH _ _ _ Hs). }
  destruct (Ascii.eqb c "{"); [apply Hp|]. destruct (Ascii.eqb c "}"); [|apply Hp].
  destruct d as [|[|d]]; [by intros [= <- <-]..|apply Hp].
Qed.

Lemma scan_close_balanced (e rest : list ascii) (d : nat) :
  balanced e d -> scan_close (e ++ "}"%char :: rest) d = Some (e, rest).
Proof.
  revert d. induction e as [|c e IH]; intros d; simpl; [by intros ->|].
  destruct (Ascii.eqb c "{"); [by intros ->%IH|].
  destruct (Ascii.eqb c "}"); [|by intros ->%IH].
  destruct d as [|[|d]]; [done..|by intros ->%IH].
Qed.

Lemma utf8_len_pos (c : ascii) : (0 < utf8_len c)%nat.
Proof. unfold utf8_len. repeat case_match; lia. Qed.

(** The three ways a turn of the loop goes. *)
Inductive turn : list ascii -> Prop :=
| turn_nil : turn []
| turn_escape s : turn ("$"%char :: "$"%char :: "{"%char :: s)
| turn_expr s : turn ("$"%char :: "{"%char :: s)
| turn_char c s :
    (forall fuel i lit ps, parse_loop (S fuel) (c :: s) i lit ps
       = parse_loop fuel (drop (utf8_len c) (c :: s)) (i + utf8_len c) (lit ++ take (utf8_len c) (c :: s)) ps) ->
    turn (c :: s).

Lemma turn_of (s : list ascii) : turn s.
Proof.
  destruct s as [|c s]; [constructor|].
  destruct (decide (c = "$"%char)) as [->|Hc].
  2:{ apply turn_char. intros. simpl. repeat (case_match; try congruence). }
  destruct s as [|a s]; [apply turn_char; reflexivity|].
  destruct (decide (a = "{"%char)) as [->|Ha]; [apply turn_expr|].
  destruct (decide (a = "$"%char)) as [->|Ha'].
  2:{ apply turn_char. intros. simpl. repeat (case_match; try congruence). }
  destruct s as [|b s]; [apply turn_char; reflexivity|].
  destruct (decide (b = "{"%char)) as [->|Hb]; [apply turn_escape|].
  apply turn_char. intros. simpl. repeat (case_match; try congruence).
Qed.

(** Enough fuel is enough. *)
Lemma parse_loop_fuel (n m : nat) (s : list ascii) (i : nat) (lit : list ascii) (ps : list Part) :
  (length s <= n)%nat -> (length s <= m)%nat -> parse_loop n s i lit ps = parse_loop m s i lit ps.
Proof.
  revert m s i lit ps. induction n as [|n IH]; intros m s i lit ps Hn Hm.
  { destruct s; [|simpl in Hn; lia]. by destruct m. }
  destruct m as [|m]; [destruct s; [done|simpl in Hm; lia]|].
  destruct (turn_of s) as [|s|s|c s Ht]; [done| | |].
  - simpl in *. apply IH; lia.
  - simpl in *. destruct (scan_close s 1) as [[inner rest]|] eqn:Hs; [|done].
    apply scan_close_length in Hs. destruct (trim_l inner); [done|]. apply IH; lia.
  - rewrite !Ht. pose proof (utf8_len_pos c). apply IH; rewrite length_drop; simpl in *; lia.
Qed.

Lemma parse_loop_escape (n : nat) (s : list ascii) (i : nat) (lit : list ascii) (ps : list Part) :
  parse_loop (S n) ("$"%char :: "$"%char :: "{"%char :: s) i lit ps = parse_loop n s (i + 3) (lit ++ ["$"; "{"]%char) ps.
Proof. reflexivity. Qed.

Lemma parse_loop_expr (n : nat) (s : list ascii) (i : nat) (lit : list ascii) (ps : list Part) :
  parse_loop (S n) ("$"%char :: "{"%char :: s) i lit ps =
  match scan_close s 1 with
  | None => Err (Unterminated i)
  | Some (inner, rest) =>
      match trim_l inner with
      | [] => Err (EmptyExpr i)
      | expr => parse_loop n rest (i + 3 + length inner) [] (flush lit ps ++ [Expr (of_chars expr)])
      end
  end.
Proof. reflexivity. Qed.

Notation parse_bytes s := (parse_loop (length s) s).

Lemma parse_bytes_escape (s : list ascii) (i : nat) (lit : list ascii) (ps : list Part) :
  parse_bytes ("$"%char :: "$"%char :: "{"%char :: s) i lit ps = parse_bytes s (i + 3) (lit ++ ["$"; "{"]%char) ps.
Proof. simpl length. rewrite parse_loop_escape. apply parse_loop_fuel; lia. Qed.

Lemma parse_bytes_expr (e rest : list ascii) (i : nat) (lit : list ascii) (ps : list Part) :
  balanced e 1 -> trim_l e = e -> e <> [] ->
  parse_bytes ("$"%char :: "{"%char :: e ++ "}"%char :: rest) i lit ps
  = parse_bytes rest (i + 3 + length e) [] (flush lit ps ++ [Expr (of_chars e)]).
Proof.
  intros Hb Ht He. simpl length. rewrite parse_loop_expr, scan_close_balanced, Ht by done.
  destruct e as [|c e]; [done|]. apply parse_loop_fuel; simpl length; rewrite ?length_app; simpl length; lia.
Qed.

(** A [$] that starts neither an escape nor an expression, and any other byte. *)
Definition plain (c : ascii) (s : list ascii) : Prop :=
  c <> "$"%char \/ (head s <> Some "{"%char /\ forall s', s <> "$"%char :: "{"%char :: s').

Lemma parse_bytes_plain (c : ascii) (cont s : list ascii) (i : nat) (lit : list ascii) (ps : list Part) :
  plain c (cont ++ s) -> utf8_len c = S (length cont) ->
  parse_bytes (c :: cont ++ s) i lit ps = parse_bytes s (i + utf8_len c) (lit ++ c :: cont) ps.
Proof.
  intros Hp Hl. pose proof (turn_of (c :: cont ++ s)) as Ht.
  assert (forall fuel, parse_loop (S fuel) (c :: cont ++ s) i lit ps
    = parse_loop fuel (drop (utf8_len c) (c :: cont ++ s)) (i + utf8_len c)
        (lit ++ take (utf8_len c) (c :: cont ++ s)) ps) as He.
  { intros fuel. remember (c :: cont ++ s) as full eqn:Hf. destruct Ht as [|x|x|c' s' Hc]; [done|..].
    - injection Hf as <- Hx. destruct Hp as [Hp|[_ Hp]]; [done|]. by destruct (Hp x).
    - injection Hf as <- Hx. destruct Hp as [Hp|[Hp _]]; [done|]. by rewrite <- Hx in Hp.
    - injection Hf as -> ->. apply Hc. }
  rewrite Hl in He |- *. simpl length. rewrite He. simpl drop. simpl take.
  rewrite drop_app_length, take_app_length. apply parse_loop_fuel; rewrite ?length_app; lia.
Qed.

Lemma escape_cont (cont s : list ascii) :
  Forall (fun b => (128 <= N_of_ascii b)%N) cont -> escape (cont ++ s) = cont ++ escape s.
Proof.
  induction 1 as [|c cont Hc _ IH]; [done|]. simpl. rewrite IH.
  destruct (decide (c = "$"%char)) as [->|Hne]; [by vm_compute in Hc|].
  repeat (case_match; try congruence).
Qed.

Lemma escape_char (c : ascii) (s : list ascii) :
  (c = "$"%char -> head s <> Some "{"%char) -> escape (c :: s) = c :: escape s.
Proof.
  intros Hc. simpl. destruct (decide (c = "$"%char)) as [->|Hne].
  - specialize (Hc eq_refl). destruct s as [|a s]; [done|]. simpl in Hc.
    destruct (decide (a = "{"%char)) as [->|]; [done|]. repeat (case_match; try congruence).
  - repeat (case_match; try congruence).
Qed.

Lemma escape_head (s : list ascii) : head (escape s) = head s.
Proof.
  destruct s as [|c s]; [done|]. simpl. destruct (decide (c = "$"%char)) as [->|Hne].
  - destruct s as [|a s]; [done|]. repeat case_match; done.
  - repeat (case_match; try congruence); done.
Qed.

Lemma escape_no_expr (t rest s' : list ascii) :
  t <> [] -> rest = [] \/ last t <> Some "$"%char -> escape t ++ rest <> "$"%char :: "{"%char :: s'.
Proof.
  intros Ht Hr. destruct t as [|c t]; [done|].
  destruct (decide (c = "$"%char)) as [->|Hne].
  2:{ rewrite escape_char by done. intros [= -> _]. done. }
  destruct t as [|a t].
  - destruct Hr as [->|Hr]; [done|]. done.
  - destruct (decide (a = "{"%char)) as [->|Ha]; [done|].
    rewrite escape_char by (intros _ [= ?]; done).
    pose proof (escape_head (a :: t)) as Hh. revert Hh. generalize (escape (a :: t)).
    intros [|b r]; [done|]. intros [= ->] [= -> _]. done.
Qed.

Lemma plain_dollar (t rest : list ascii) :
  head t <> Some "{"%char -> (t = [] -> rest = []) -> rest = [] \/ last t <> Some "$"%char ->
  plain "$"%char (escape t ++ rest).
Proof.
  intros Hh He Hr. right. destruct t as [|a t].
  - by rewrite He.
  - split; [|intros s1; exact (escape_no_expr (a :: t) rest s1 ltac:(discriminate) Hr)].
    pose proof (escape_head (a :: t)) as Hq. revert Hq. generalize (escape (a :: t)).
    intros [|b r]; [done|]. simpl. intros [= ->]. done.
Qed.

Lemma last_cons_ne {A} (x : A) (l : list A) : l <> [] -> last (x :: l) = last l.
Proof. by destruct l. Qed.

Lemma last_app_ne_tpl {A} (k l : list A) : l <> [] -> last (k ++ l) = last l.
Proof. intros Hl. rewrite last_app. by destruct (last l) eqn:He; [|apply last_None in He]. Qed.

Lemma utf8_ascii (c : ascii) (s : list ascii) : utf8 (c :: s) -> (N_of_ascii c < 128)%N -> utf8 s.
Proof.
  intros Hu Hc. inversion Hu as [|c' cont s' Hl _ Hs Heq]. subst.
  unfold utf8_len in Hl. rewrite (proj2 (N.ltb_lt _ _) Hc) in Hl.
  injection Hl as Hl. symmetry in Hl. apply length_zero_iff_nil in Hl as ->. done.
Qed.

Lemma parse_literal_aux (n : nat) (l rest : list ascii) (i : nat) (lit : list ascii) (ps : list Part) :
  (length l <= n)%nat -> utf8 l -> rest = [] \/ last l <> Some "$"%char ->
  exists i', parse_bytes (escape l ++ rest) i lit ps = parse_bytes rest i' (lit ++ l) ps.
Proof.
  revert l i lit. induction n as [|n IH]; intros l i lit Hn Hu Hr.
  { destruct l; [|simpl in Hn; lia]. exists i. by rewrite app_nil_r. }
  destruct Hu as [|c cont s Hl Hc Hs]; [exists i; by rewrite app_nil_r|].
  simpl in Hn. rewrite length_app in Hn.
  assert (rest = [] \/ last s <> Some "$"%char) as Hr'.
  { destruct Hr as [|Hr]; [by left|]. destruct s as [|x s]; [by right|]. right.
    by rewrite app_comm_cons, last_app_ne_tpl in Hr. }
  destruct (decide (c = "$"%char /\ head s = Some "{"%char)) as [[-> Hh]|Hne].
  - assert (cont = []) as -> by (destruct cont; [done|by vm_compute in Hl]).
    destruct s as [|a s]; [done|]. injection Hh as ->. simpl app.
    destruct (IH s (i + 3)%nat (lit ++ ["$"; "{"]%char)) as (i' & Hi').
    + simpl in Hn. lia.
    + by apply (utf8_ascii "{"%char).
    + destruct Hr' as [|Hr']; [by left|]. destruct s as [|x s]; [by right|]. right.
      by rewrite last_cons_ne in Hr'.
    + exists i'. change (escape ("$" :: "{" :: s)%char) with ("$" :: "$" :: "{" :: escape s)%char.
      by rewrite parse_bytes_escape, Hi', <- app_assoc.
  - destruct (IH s (i + utf8_len c)%nat (lit ++ c :: cont)) as (i' & Hi'); [lia|done..|].
    exists i'. rewrite escape_char.
    2:{ intros ->. destruct cont; [|by vm_compute in Hl]. simpl. tauto. }
    rewrite escape_cont by done. rewrite <- app_comm_cons, <- app_assoc, parse_bytes_plain.
    + by rewrite Hi', <- app_assoc, <- app_comm_cons.
    + destruct (decide (c = "$"%char)) as [->|]; [|by left].
      destruct cont; [|by vm_compute in Hl]. apply plain_dollar; [tauto| |done].
      intros ->. destruct Hr as [|Hr]; [done|]. by simpl in Hr.
    + done.
Qed.

(** A literal is read back as it is, up to where an expression starts. *)
Lemma parse_literal (l rest : list ascii) (i : nat) (lit : list ascii) (ps : list Part) :
  utf8 l -> rest = [] \/ last l <> Some "$"%char ->
  exists i', parse_bytes (escape l ++ rest) i lit ps = parse_bytes rest i' (lit ++ l) ps.
Proof. by apply (parse_literal_aux (length l)). Qed.

Lemma trim_chars (e : string) : trim e = e -> trim_l (chars e) = chars e.
Proof. unfold trim. intros He. rewrite <- He at 2. by rewrite chars_of_chars. Qed.

Lemma chars_nonempty (e : string) : e <> "" -> chars e <> [].
Proof. by destruct e. Qed.

Lemma flush_chars (l : string) (ps : list Part) : l <> "" -> flush (chars l) ps = ps ++ [Lit l].
Proof.
  intros Hl. apply chars_nonempty in Hl as Hc. unfold flush. destruct (chars l) eqn:Hd; [done|].
  by rewrite <- Hd, of_chars_chars.
Qed.

Lemma parse_parts (ps acc : list Part) (lit : list ascii) (i : nat) :
  wf_parts ps -> lit = [] \/ (forall l ps', ps <> Lit l :: ps') ->
  parse_bytes (concat (print_part <$> ps)) i lit acc = Ok (flush lit acc ++ ps).
Proof.
  revert acc lit i. induction ps as [|[l|e] ps IH]; intros acc lit i Hw Hlit.
  - simpl. by rewrite app_nil_r.
  - destruct Hlit as [->|Hlit]; [|by destruct (Hlit l ps)]. destruct Hw as (Hl & Hu & Hn & Hw).
    rewrite fmap_cons. simpl concat.
    destruct (parse_literal (chars l) (concat (print_part <$> ps)) i [] acc) as (i' & ->); [done| |].
    + destruct ps as [|[l'|e'] ps]; [by left|done|by right].
    + rewrite IH by (done || (right; intros l' ps' ->; done)). simpl app.
      rewrite flush_chars by done. by rewrite <- app_assoc.
  - destruct Hw as (He & Ht & Hb & Hw). rewrite fmap_cons. simpl concat. rewrite <- app_assoc. simpl app.
    rewrite parse_bytes_expr by (done || by apply trim_chars || by apply chars_nonempty).
    rewrite of_chars_chars, IH by (done || by left). simpl. by rewrite <- app_assoc.
Qed.

(** templates round-trip: the printed form of any well-formed sequence of literals and
    expressions, with every [${] of a literal escaped, parses back to exactly that
    sequence. *)
Theorem template_roundtrip (ps : list Part) :
  wf_parts ps -> Template_parse (print_parts ps) = Ok (mkTemplate ps (print_parts ps)).
Proof.
  intros Hw. unfold Template_parse, print_parts. rewrite chars_of_chars, parse_parts by (done || by left).
  done.
Qed.

Lemma utf8_plain_ascii (s : list ascii) : Forall (fun c => (N_of_ascii c < 128)%N) s -> utf8 s.
Proof.
  induction 1 as [|c s Hc _ IH]; [constructor|]. apply (utf8_char c []); [|constructor|done].
  unfold utf8_len. by rewrite (proj2 (N.ltb_lt _ _) Hc).
Qed.

Module TemplateDemo.
Definition sample : list Part := [Lit "x${"; Expr "js: ({a:1}).a"; Lit "-"; Expr "vu"].

Lemma template_roundtrip_witness :
  print_parts sample = "x$${${js: ({a:1}).a}-${vu}"
  /\ Template_parse (print_parts sample) = Ok (mkTemplate sample (print_parts sample)).
Proof.
  split; [vm_compute; reflexivity|]. apply template_roundtrip.
  repeat split; try discriminate; try (vm_compute; reflexivity);
    apply utf8_plain_ascii; vm_compute; repeat constructor.
Defined.
End TemplateDemo.
