(* ===== verification/Protocol.v ===== *)
(** * Protocol requests and responses (crates/loadr-core/src/protocol.rs, error.rs)

    The response a handler hands back with the judgements the engine makes of it, the
    registry of handlers with its scheme inference, and the errors of the engine.  The
    handlers are a parameter.  [from_utf8_lossy] is the standard library's: every maximal
    invalid sequence becomes one U+FFFD. *)

From Stdlib Require Import Ascii.
From S2P Require Import Prelude Float64 Str Value Template.

(** ** error.rs *)

Inductive EngineError :=
| EngineConfig (message : string)
| EngineData (source_name message : string)
| EngineScript (message : string)
| EngineUnknownProtocol (protocol hint : string)
| EngineTemplate (e : TemplateError)
| EngineIo (path source : string)
| EngineAborted (reason : string)
| EngineOther (message : string).

(** ** Bytes as text *)

Definition byte_range (lo hi : N) (c : ascii) : bool := N.leb lo (N_of_ascii c) && N.leb (N_of_ascii c) hi.

(** For the first byte of a longer character: where its second byte must lie, and how many
    bytes follow the second. *)
Definition utf8_head (c : ascii) : option (N * N * nat) :=
  if byte_range 194 223 c then Some (128, 191, 0%nat)%N
  else if byte_range 224 224 c then Some (160, 191, 1%nat)%N
  else if byte_range 225 236 c then Some (128, 191, 1%nat)%N
  else if byte_range 237 237 c then Some (128, 159, 1%nat)%N
  else if byte_range 238 239 c then Some (128, 191, 1%nat)%N
  else if byte_range 240 240 c then Some (144, 191, 2%nat)%N
  else if byte_range 241 243 c then Some (128, 191, 2%nat)%N
  else if byte_range 244 244 c then Some (128, 143, 2%nat)%N
  else None.

Fixpoint take_cont (n : nat) (s : list ascii) : bool * list ascii * list ascii :=
  match n, s with
  | O, _ => (true, [], s)
  | S n, c :: s' =>
      if byte_range 128 191 c then let '(ok, t, r) := take_cont n s' in (ok, c :: t, r) else (false, [], s)
  | S _, [] => (false, [], [])
  end.

Definition REPLACEMENT : list ascii := byte_at <$> [239; 191; 189]%N.

(** The next character or invalid sequence as it is written out, and the rest. *)
Definition lossy_chunk (c : ascii) (s : list ascii) : list ascii * list ascii :=
  if N.ltb (N_of_ascii c) 128 then ([c], s)
  else match utf8_head c, s with
       | Some (lo, hi, n), d :: s' =>
           if byte_range lo hi d then
             let '(ok, t, r) := take_cont n s' in ((if ok then c :: d :: t else REPLACEMENT), r)
           else (REPLACEMENT, s)
       | _, _ => (REPLACEMENT, s)
       end.

Fixpoint lossy_fuel (fuel : nat) (s : list ascii) : list ascii :=
  match fuel, s with
  | S fuel, c :: s => let '(out, rest) := lossy_chunk c s in out ++ lossy_fuel fuel rest
  | _, _ => []
  end.
Definition from_utf8_lossy (s : string) : string := of_chars (lossy_fuel (length (chars s)) (chars s)).

Definition eq_ignore_ascii_case (a b : string) : bool := bool_decide (to_ascii_lowercase a = to_ascii_lowercase b).
Definition str_contains (s p : string) : bool := bool_decide (is_Some (str_find s p)).

(** ** protocol.rs *)

Record Timings := mkTimings {
  dns_ms : f64;
  connect_ms : f64;
  tls_ms : f64;
  sending_ms : f64;
  waiting_ms : f64;
  receiving_ms : f64;
  duration_ms : f64;
  blocked_ms : f64;
}.
Definition Timings_default : Timings :=
  mkTimings f64_zero f64_zero f64_zero f64_zero f64_zero f64_zero f64_zero f64_zero.

Record GrpcProtobufFieldOutcome := mkOutcome {
  oc_id : Z;
  oc_pass : bool;
  oc_detail : option string;
  oc_actual_code : option Z;
  oc_missing : bool;
}.

Record ProtocolResponse := mkResponse {
  rs_status : Z;
  rs_status_text : string;
  rs_headers : list (string * string);
  rs_body : string;
  rs_timings : Timings;
  rs_bytes_sent : Z;
  rs_bytes_received : Z;
  rs_protocol_version : string;
  rs_error : option string;
  rs_url : string;
  rs_extras : Value;
  rs_grpc_protobuf_outcomes : list GrpcProtobufFieldOutcome;
}.

(** [ProtocolResponse { error, url, ..Default::default() }]. *)
Definition error_response (error url : string) : ProtocolResponse :=
  mkResponse 0 "" [] "" Timings_default 0 0 "" (Some error) url Null [].

Definition header (r : ProtocolResponse) (name : string) : option string :=
  snd <$> find (fun kv : string * string => eq_ignore_ascii_case kv.1 name) (rs_headers r).

Definition body_text (r : ProtocolResponse) : string := from_utf8_lossy (rs_body r).

Definition failed (r : ProtocolResponse) : bool :=
  match rs_error r with
  | Some _ => true
  | None =>
      if starts_with (rs_protocol_version r) "HTTP" then Z.leb 400 (rs_status r)
      else if bool_decide (rs_protocol_version r = "grpc") then negb (Z.eqb (rs_status r) 0)
      else false
  end.

(** The process-wide scheme aliases of protocol plugins. *)
Definition register_plugin_schemes (protocol : string) (schemes : list string) (aliases : gmap string string) :
    gmap string string :=
  foldl (fun m scheme => <[to_ascii_lowercase scheme := protocol]> m) aliases schemes.

Definition plugin_scheme (aliases : gmap string string) (scheme : string) : option string :=
  aliases !! to_ascii_lowercase scheme.

(** [url.split("://").next()]: the text before the first [://], or all of it. *)
Definition url_scheme (url : string) : string :=
  match str_find url "://" with
  | Some i => slice_to url i
  | None => url
  end.

Definition infer (aliases : gmap string string) (explicit : option string) (url : string) : string :=
  match explicit with
  | Some p =>
      if bool_decide (p = "https") then "http"
      else if bool_decide (p = "websocket") || bool_decide (p = "wss") then "ws"
      else if bool_decide (p = "sses") then "sse"
      else default p (plugin_scheme aliases p)
  | None =>
      let scheme := url_scheme url in
      if bool_decide (scheme ∈ ["http"; "https"]) then "http"
      else if bool_decide (scheme ∈ ["ws"; "wss"]) then "ws"
      else if bool_decide (scheme ∈ ["grpc"; "grpcs"]) then "grpc"
      else if bool_decide (scheme ∈ ["sse"; "sses"]) then "sse"
      else if bool_decide (scheme = "tcp") then "tcp"
      else if bool_decide (scheme = "udp") then "udp"
      else if bool_decide (scheme = "noop") then "noop"
      else default "http" (plugin_scheme aliases scheme)
  end.

Section Registry.
Context {H : Type} (handler_name : H -> string).

Definition ProtocolRegistry : Type := gmap string H.

Definition register_handler (handler : H) (r : ProtocolRegistry) : ProtocolRegistry :=
  <[handler_name handler := handler]> r.
Definition register_alias (alias target : string) (r : ProtocolRegistry) : ProtocolRegistry :=
  match r !! target with
  | Some h => <[alias := h]> r
  | None => r
  end.
Definition get_handler (name : string) (r : ProtocolRegistry) : option H := r !! name.
End Registry.

Example lossy_ok : from_utf8_lossy "plain" = "plain".
Proof. vm_compute. reflexivity. Qed.
(** ["a", F0 90, "b"]: a truncated character is one replacement. *)
Example lossy_truncated :
  chars (from_utf8_lossy (of_chars (byte_at <$> [97; 240; 144; 98]%N))) = byte_at <$> [97; 239; 191; 189; 98]%N.
Proof. vm_compute. reflexivity. Qed.
Example infer_scheme : infer ∅ None "wss://h/x" = "ws" /\ infer ∅ None "/relative" = "http".
Proof. split; vm_compute; reflexivity. Qed.
