(* ===== verification/Metrics.v ===== *)
(** * Metric primitives (crates/loadr-core/src/metrics.rs)

    Kinds, tag sets, samples, the metric registry with its tag interning, and the
    series deltas agents send (crates/loadr-core/src/aggregate.rs).  Tag sets are
    [BTreeMap]s, here extensional finite maps. *)

From S2P Require Import Prelude Float64 Str.

Notation Tags := (gmap string string).

Inductive MetricKind :=
| Counter
| Gauge
| Rate
| Trend.

#[export] Instance MetricKind_eq_dec : EqDecision MetricKind.
Proof. solve_decision. Defined.

Definition MetricKind_as_str (k : MetricKind) : string :=
  match k with
  | Counter => "counter"
  | Gauge => "gauge"
  | Rate => "rate"
  | Trend => "trend"
  end.

Definition is_request_counter_metric (metric : string) : bool :=
  ends_with metric "_reqs"
  && negb (bool_decide (metric = "graphql_reqs") || bool_decide (metric = "request_reqs")).

Definition is_request_duration_metric (metric : string) : bool :=
  ends_with metric "_req_duration"
  && negb (bool_decide (metric = "graphql_req_duration") || bool_decide (metric = "request_duration")).

Definition is_additive_gauge (metric : string) : bool :=
  bool_decide (metric = "vus") || bool_decide (metric = "vus_max").

Definition LIVE_GAUGES : list string := ["vus"].

Record MetricDef := mkMetricDef {
  def_name : string;
  def_kind : MetricKind;
  def_time : bool;
  def_description : option string;
}.

Definition BUILTIN_METRIC_DEFS : list (string * MetricKind * bool) :=
  [("http_reqs", Counter, false);
   ("http_req_duration", Trend, true);
   ("http_req_blocked", Trend, true);
   ("http_req_connecting", Trend, true);
   ("http_req_tls_handshaking", Trend, true);
   ("http_req_sending", Trend, true);
   ("http_req_waiting", Trend, true);
   ("http_req_receiving", Trend, true);
   ("http_req_failed", Rate, false);
   ("iterations", Counter, false);
   ("iteration_duration", Trend, true);
   ("dropped_iterations", Counter, false);
   ("vus", Gauge, false);
   ("vus_max", Gauge, false);
   ("requests_in_flight", Gauge, false);
   ("checks", Rate, false);
   ("vu_exceptions", Counter, false);
   ("faults_injected", Counter, false);
   ("data_sent", Counter, false);
   ("data_received", Counter, false);
   ("ws_connecting", Trend, true);
   ("ws_session_duration", Trend, true);
   ("ws_msgs_sent", Counter, false);
   ("ws_msgs_received", Counter, false);
   ("grpc_reqs", Counter, false);
   ("grpc_req_duration", Trend, true);
   ("tcp_reqs", Counter, false);
   ("tcp_req_duration", Trend, true);
   ("udp_reqs", Counter, false);
   ("udp_req_duration", Trend, true);
   ("noop_reqs", Counter, false);
   ("noop_req_duration", Trend, true);
   ("graphql_reqs", Counter, false);
   ("graphql_req_duration", Trend, true)].

(** ** The registry *)

Record MetricRegistry := mkMetricRegistry {
  defs : gmap string MetricDef;
  tag_sets : gmap Tags Z;
}.

Definition with_builtins : MetricRegistry :=
  mkMetricRegistry
    (foldl (fun d '(name, kind, time) => <[name := mkMetricDef name kind time None]> d)
       ∅ BUILTIN_METRIC_DEFS)
    ∅.

Definition TAG_INTERN_CAP : nat := 4096.

Record CachedTags := mkCachedTags {
  ct_tags : Tags;
  ct_hash : Z;
}.

Section Interning.
(** [DefaultHasher] over a tag set. *)
Context (hash_tags : Tags -> Z).

Definition CachedTags_new (tags : Tags) : CachedTags := mkCachedTags tags (hash_tags tags).

(** The unlocked re-check of the source sees the same table here: between the two
    lookups nothing else runs. *)
Definition intern_tags (reg : MetricRegistry) (tags : Tags) : MetricRegistry * CachedTags :=
  match tag_sets reg !! tags with
  | Some hash => (reg, mkCachedTags tags hash)
  | None =>
      let cached := CachedTags_new tags in
      if Nat.ltb (size (tag_sets reg)) TAG_INTERN_CAP
      then (mkMetricRegistry (defs reg) (<[ct_tags cached := ct_hash cached]> (tag_sets reg)), cached)
      else (reg, cached)
  end.
End Interning.

Definition register (reg : MetricRegistry) (name : string) (kind : MetricKind) (time : bool)
    (description : option string) : MetricRegistry * result string string :=
  match defs reg !! name with
  | Some existing =>
      if bool_decide (def_kind existing <> kind)
      then (reg, Err ("metric `" +:+ name +:+ "` already registered as "
                      +:+ MetricKind_as_str (def_kind existing) +:+ ", cannot redefine as "
                      +:+ MetricKind_as_str kind))
      else (reg, Ok (def_name existing))
  | None =>
      (mkMetricRegistry (<[name := mkMetricDef name kind time description]> (defs reg)) (tag_sets reg),
       Ok name)
  end.

(** ** Samples and deltas *)

Record Sample := mkSample {
  s_metric : string;
  s_kind : MetricKind;
  s_value : f64;
  s_tags : Tags;
  s_timestamp_ms : Z;
}.

Inductive SeriesDeltaData :=
| DCounter (delta : f64)
| DGauge (last min max : f64)
| DRate (passes total : Z)
| DTrend (hdr_b64 : string) (sum : f64) (count : Z) (min max : f64).

Record SeriesDelta := mkSeriesDelta {
  d_metric : string;
  d_kind : MetricKind;
  d_tags : Tags;
  d_data : SeriesDeltaData;
}.

Notation MetricsDelta := (list SeriesDelta).

(** ** Properties of the registry *)

(** Registered names are their keys. *)
Definition registry_ok (reg : MetricRegistry) : Prop :=
  map_Forall (fun name d => def_name d = name) (defs reg).

Lemma with_builtins_ok : registry_ok with_builtins.
Proof. apply map_Forall_to_list. vm_compute. repeat constructor. Qed.

Lemma register_ok (reg : MetricRegistry) (name : string) (kind : MetricKind) (time : bool)
    (description : option string) :
  registry_ok reg -> registry_ok (register reg name kind time description).1.
Proof.
  intros Hr. unfold register. destruct (defs reg !! name) as [d|] eqn:Hd.
  - by case_bool_decide.
  - apply map_Forall_insert_2; done.
Qed.

(** The registry fixes a metric's kind: registering succeeds exactly when the
    name is free or already has that kind, a success returns the name itself, and no
    later registration changes the kind of a known metric. *)
Theorem register_kind_stable (reg : MetricRegistry) (name : string) (kind : MetricKind)
    (time : bool) (description : option string) :
  registry_ok reg ->
  let '(reg', r) := register reg name kind time description in
  (is_ok r = true <-> match defs reg !! name with Some d => def_kind d = kind | None => True end)
  /\ (is_ok r = true -> r = Ok name /\ def_kind <$> defs reg' !! name = Some kind)
  /\ (forall other d, defs reg !! other = Some d -> defs reg' !! other = Some d).
Proof.
  intros Hr. unfold register. destruct (defs reg !! name) as [d|] eqn:Hd.
  - specialize (Hr name d Hd). destruct (decide (def_kind d = kind)) as [Hk|Hk].
    + rewrite bool_decide_eq_false_2 by tauto. simpl. split_and!; [done| |done].
      intros _. rewrite Hd. simpl. by rewrite Hr, Hk.
    + rewrite bool_decide_eq_true_2 by done. simpl. split_and!; done.
  - simpl. split_and!; [done| |].
    + intros _. by rewrite lookup_insert_eq.
    + intros other d Ho. rewrite lookup_insert_ne; [done|]. congruence.
Qed.

Lemma register_kind_stable_witness :
  registry_ok with_builtins
  /\ (let '(reg', r) := register with_builtins "checks" Counter false None in
      (is_ok r = true <->
         match defs with_builtins !! "checks" with Some d => def_kind d = Counter | None => True end)
      /\ (is_ok r = true -> r = Ok "checks" /\ def_kind <$> defs reg' !! "checks" = Some Counter)
      /\ (forall other d, defs with_builtins !! other = Some d -> defs reg' !! other = Some d)).
Proof.
  split; [exact with_builtins_ok|].
  exact (register_kind_stable with_builtins "checks" Counter false None with_builtins_ok).
Defined.
