(* ===== verification/Aggregate.v ===== *)
(** * The aggregator (crates/loadr-core/src/aggregate.rs)

    One series per (metric, tags) key; live snapshots, selector merges for
    thresholds, drained deltas for distributed mode and shard-local aggregators.
    The HDR histogram crate is a parameter: [Hdr] lists the operations the source
    calls, [HdrLaws] what its documentation promises of them (a histogram is the
    multiset of the values recorded, at its resolution).  Clock readings are
    arguments, in nanoseconds.  A [HashMap] iteration visits the keys in an
    unspecified order; here it is [map_to_list]'s. *)

From S2P Require Import Prelude Float64 Str Metrics.

(** [hdrhistogram::Histogram<u64>], its V2 serializer and base64. *)
Class Hdr := {
  Histogram : Type;
  hdr_new : Histogram;
  hdr_record : Histogram -> Z -> Histogram;
  hdr_add : Histogram -> Histogram -> Histogram;
  hdr_len : Histogram -> Z;
  hdr_is_empty : Histogram -> bool;
  hdr_mean : Histogram -> f64;
  hdr_value_at_quantile : Histogram -> f64 -> Z;
  hdr_encode : Histogram -> option string;
  hdr_decode : string -> option Histogram;
}.

Class HdrLaws `{Hdr} : Prop := {
  hdr_add_new_r h : hdr_add h hdr_new = h;
  hdr_add_comm h1 h2 : hdr_add h1 h2 = hdr_add h2 h1;
  hdr_add_assoc h1 h2 h3 : hdr_add h1 (hdr_add h2 h3) = hdr_add (hdr_add h1 h2) h3;
  hdr_record_add h1 h2 v : hdr_record (hdr_add h1 h2) v = hdr_add h1 (hdr_record h2 v);
  hdr_is_empty_new h : hdr_is_empty h = true -> h = hdr_new;
  hdr_len_new : hdr_len hdr_new = 0;
  hdr_len_record h v : hdr_len (hdr_record h v) = hdr_len h + 1;
  hdr_len_add h1 h2 : hdr_len (hdr_add h1 h2) = hdr_len h1 + hdr_len h2;
  hdr_roundtrip h b : hdr_encode h = Some b -> hdr_decode b = Some h;
}.

Definition TREND_SCALE : f64 := f64_of_Z 1000.

Section Aggregator.
Context `{Hdr}.

Notation SeriesKey := (string * Tags)%type.

Inductive SeriesData :=
| SCounter (total flushed : f64)
| SGauge (last min max : f64) (seq : Z)
| SRate (passes total flushed_passes flushed_total : Z)
| STrend (hist delta_hist : Histogram) (sum : f64) (count : Z) (min max : f64).

Record Series := mkSeries {
  kind : MetricKind;
  data : SeriesData;
  snap_counter : f64;
  snap_count : Z;
}.

Definition set_data (s : Series) (d : SeriesData) : Series :=
  mkSeries (kind s) d (snap_counter s) (snap_count s).

Definition Series_new (k : MetricKind) : Series :=
  let d := match k with
           | Counter => SCounter f64_zero f64_zero
           | Gauge => SGauge f64_zero f64_infinity f64_neg_infinity 0
           | Rate => SRate 0 0 0 0
           | Trend => STrend hdr_new hdr_new f64_zero 0 f64_infinity f64_neg_infinity
           end in
  mkSeries k d f64_zero 0.

(** The scaled value a trend stores. *)
Definition trend_scaled (value : f64) : Z :=
  f64_as_u64 (f64_max (f64_round (f64_mul value TREND_SCALE)) f64_zero).

Definition Series_record (s : Series) (value : f64) (seq : Z) : Series :=
  set_data s
    match data s with
    | SCounter total flushed => SCounter (f64_add total value) flushed
    | SGauge last min max _ => SGauge value (f64_min min value) (f64_max max value) seq
    | SRate passes total fp ft =>
        SRate (if f64_ne value f64_zero then u64_add passes 1 else passes) (u64_add total 1) fp ft
    | STrend hist delta_hist sum count min max =>
        let scaled := trend_scaled value in
        STrend (hdr_record hist scaled) (hdr_record delta_hist scaled)
               (f64_add sum value) (u64_add count 1) (f64_min min value) (f64_max max value)
    end.

Record AggValues := mkAggValues {
  av_count : Z;
  av_sum : f64;
  av_avg : option f64;
  av_min : option f64;
  av_max : option f64;
  av_med : option f64;
  av_p90 : option f64;
  av_p95 : option f64;
  av_p99 : option f64;
  av_p999 : option f64;
  av_rate : option f64;
  av_last : option f64;
  av_per_second : option f64;
}.

Definition then_some (b : bool) (v : f64) : option f64 := if b then Some v else None.

Definition hist_at (h : Histogram) (q : f64) : f64 :=
  f64_div (f64_of_Z (hdr_value_at_quantile h q)) TREND_SCALE.

Definition per_second (n : f64) (elapsed_secs : f64) : option f64 :=
  then_some (f64_gt elapsed_secs f64_zero) (f64_div n elapsed_secs).

Definition agg_values (s : Series) (elapsed_secs : f64) : AggValues :=
  match data s with
  | SCounter total _ =>
      mkAggValues (f64_as_u64 total) total None None None None None None None None None None
        (per_second total elapsed_secs)
  | SGauge last min max _ =>
      mkAggValues 1 f64_zero None (then_some (f64_is_finite min) min)
        (then_some (f64_is_finite max) max) None None None None None None (Some last) None
  | SRate passes total _ _ =>
      mkAggValues total (f64_of_Z passes) None None None None None None None None
        (then_some (Z.ltb 0 total) (f64_div (f64_of_Z passes) (f64_of_Z total))) None
        (per_second (f64_of_Z total) elapsed_secs)
  | STrend hist _ sum count min max =>
      let some v := then_some (Z.ltb 0 count) v in
      mkAggValues count sum (some (f64_div sum (f64_of_Z count))) (some min) (some max)
        (some (hist_at hist (f64_dec 5 1))) (some (hist_at hist (f64_dec 90 2)))
        (some (hist_at hist (f64_dec 95 2))) (some (hist_at hist (f64_dec 99 2)))
        (some (hist_at hist (f64_dec 999 3))) None None
        (per_second (f64_of_Z count) elapsed_secs)
  end.

(** Fold of [additive_gauge_values]' loop. *)
Definition additive_step (acc : f64 * f64 * f64 * bool * bool * bool) (s : Series) :
    f64 * f64 * f64 * bool * bool * bool :=
  let '(last, min, max, has_value, has_min, has_max) := acc in
  match data s with
  | SGauge l m x _ =>
      (f64_add last l,
       if f64_is_finite m then f64_add min m else min,
       if f64_is_finite x then f64_add max x else max,
       true, has_min || f64_is_finite m, has_max || f64_is_finite x)
  | _ => acc
  end.

Definition additive_gauge_values (series : list Series) : AggValues :=
  let '(last, min, max, has_value, has_min, has_max) :=
    foldl additive_step (f64_zero, f64_zero, f64_zero, false, false, false) series in
  mkAggValues 1 f64_zero None (then_some has_min min) (then_some has_max max)
    None None None None None None (then_some has_value last) None.

Record Aggregator := mkAggregator {
  series : gmap SeriesKey Series;
  start : Z;
  last_snapshot : Z;
  agg_seq : Z;
}.

Definition Aggregator_new (now : Z) : Aggregator := mkAggregator ∅ now now 0.

Definition elapsed (a : Aggregator) (now : Z) : Duration := u64_saturating_sub now (start a).

Definition set_series (a : Aggregator) (m : gmap SeriesKey Series) : Aggregator :=
  mkAggregator m (start a) (last_snapshot a) (agg_seq a).
Definition bump_seq (a : Aggregator) : Aggregator :=
  mkAggregator (series a) (start a) (last_snapshot a) (u64_add (agg_seq a) 1).

Definition record_cached (a : Aggregator) (metric : string) (k : MetricKind) (value : f64)
    (tags : Tags) : Aggregator :=
  let a := bump_seq a in
  let key := (metric, tags) in
  let s := default (Series_new k) (series a !! key) in
  set_series a (<[key := Series_record s value (agg_seq a)]> (series a)).

Definition record (a : Aggregator) (sample : Sample) : Aggregator :=
  record_cached a (s_metric sample) (s_kind sample) (s_value sample) (s_tags sample).

(** ** Merging series *)

Definition merge_series (metric : string) (merged source : Series) : Series :=
  set_data merged
    match data merged, data source with
    | SCounter total fl, SCounter other _ => SCounter (f64_add total other) fl
    | SGauge last min max seq, SGauge other_last other_min other_max other_seq =>
        let '(last, seq) :=
          if is_additive_gauge metric then (f64_add last other_last, Z.max seq other_seq)
          else if Z.leb seq other_seq then (other_last, other_seq)
          else (last, seq) in
        SGauge last (f64_min min other_min) (f64_max max other_max) seq
    | SRate passes total fp ft, SRate other_passes other_total _ _ =>
        SRate (u64_add passes other_passes) (u64_add total other_total) fp ft
    | STrend hist dh sum count min max, STrend other_hist _ other_sum other_count other_min other_max =>
        STrend (hdr_add hist other_hist) dh (f64_add sum other_sum) (u64_add count other_count)
               (f64_min min other_min) (f64_max max other_max)
    | d, _ => d
    end.

Definition merged_agg (metric : string) (matched : list Series) (elapsed_secs : f64) :
    option (MetricKind * AggValues) :=
  match matched with
  | [] => None
  | first :: rest =>
      let k := kind first in
      if bool_decide (k = Gauge) && is_additive_gauge metric
      then Some (k, additive_gauge_values matched)
      else match rest with
           | [] => Some (k, agg_values first elapsed_secs)
           | _ =>
               let merged := foldl (merge_series metric) (Series_new k) matched in
               Some (k, agg_values merged elapsed_secs)
           end
  end.

(** [tag_filter.iter().all(|(k, v)| key.tags.get(k) == Some(v))]. *)
Definition tags_match (tag_filter : list (string * string)) (tags : Tags) : bool :=
  forallb (fun '(k, v) => bool_decide (tags !! k = Some v)) tag_filter.

Definition selected (a : Aggregator) (p : string -> Tags -> bool) : list Series :=
  snd <$> filter (fun '((metric, tags), _) => p metric tags = true) (map_to_list (series a)).

Definition aggregate_selector (a : Aggregator) (metric : string)
    (tag_filter : list (string * string)) (now : Z) : option (MetricKind * AggValues) :=
  merged_agg metric
    (selected a (fun m tags => bool_decide (m = metric) && tags_match tag_filter tags))
    (as_secs_f64 (elapsed a now)).

(** Names in [BTreeMap] order. *)
Definition sort_strings (l : list string) : list string := merge_sort str_le l.

Definition metric_names (a : Aggregator) : list string :=
  sort_strings (remove_dups ((fun kv => fst (fst kv)) <$> map_to_list (series a))).

Definition aggregate_all (a : Aggregator) (now : Z) : list (string * MetricKind * AggValues) :=
  omap (fun metric =>
          (fun kv => (metric, fst kv, snd kv))
            <$> merged_agg metric (selected a (fun m _ => bool_decide (m = metric)))
                  (as_secs_f64 (elapsed a now)))
    (metric_names a).

Definition aggregate_matching (a : Aggregator) (tag_filter : Tags) (matches_metric : string -> bool)
    (now : Z) : option (MetricKind * AggValues) :=
  let matched := selected a (fun m tags => matches_metric m && tags_match (map_to_list tag_filter) tags) in
  match matched with
  | [] => None
  | first :: _ =>
      let merged := foldl (merge_series "request_rollup") (Series_new (kind first)) matched in
      Some (kind first, agg_values merged (as_secs_f64 (elapsed a now)))
  end.

Definition merge_hist (acc : option Histogram) (s : Series) : option Histogram :=
  match data s with
  | STrend hist _ _ _ _ _ =>
      match acc with
      | Some m => Some (hdr_add m hist)
      | None => Some hist
      end
  | _ => acc
  end.

Definition aggregate_selector_percentile (a : Aggregator) (metric : string)
    (tag_filter : list (string * string)) (percentile : f64) : option f64 :=
  (fun h => hist_at h (f64_div percentile (f64_of_Z 100)))
    <$> foldl merge_hist None
          (selected a (fun m tags => bool_decide (m = metric) && tags_match tag_filter tags)).

(** ** Snapshots *)

Record SeriesSnapshot := mkSeriesSnapshot {
  ss_metric : string;
  ss_kind : MetricKind;
  ss_tags : Tags;
  ss_agg : AggValues;
  ss_interval_count : Z;
  ss_interval_sum : f64;
}.

Record Snapshot := mkSnapshot {
  sn_timestamp_ms : Z;
  sn_elapsed_secs : f64;
  sn_interval_secs : f64;
  sn_series : list SeriesSnapshot;
}.

Definition find (sn : Snapshot) (metric : string) : option SeriesSnapshot :=
  head (filter (fun s => ss_metric s = metric) (sn_series sn)).

Definition u64_sum (l : list Z) : Z := foldl u64_add 0 l.

Definition interval_count (sn : Snapshot) (metric : string) : Z :=
  u64_sum (ss_interval_count <$> filter (fun s => ss_metric s = metric) (sn_series sn)).

Definition interval_request_count (sn : Snapshot) : Z :=
  u64_sum (ss_interval_count <$> filter (fun s => is_request_counter_metric (ss_metric s) = true) (sn_series sn)).

(** Roll one series' interval window: the interval values and the series after. *)
Definition roll_interval (s : Series) : Series * (Z * f64) :=
  match data s with
  | SCounter total _ =>
      let d := f64_sub total (snap_counter s) in
      (mkSeries (kind s) (data s) total (snap_count s), (f64_as_u64 (f64_max d f64_zero), d))
  | SRate passes total _ _ =>
      let d := u64_saturating_sub total (snap_count s) in
      let pass_delta := f64_max (f64_sub (f64_of_Z passes) (snap_counter s)) f64_zero in
      (mkSeries (kind s) (data s) (f64_of_Z passes) total, (d, pass_delta))
  | STrend _ _ _ count _ _ =>
      let d := u64_saturating_sub count (snap_count s) in
      (mkSeries (kind s) (data s) (snap_counter s) count, (d, f64_of_Z d))
  | SGauge _ _ _ _ => (s, (0, f64_zero))
  end.

(** [a.metric.cmp(&b.metric).then_with(|| a.tags.cmp(&b.tags))]: a [BTreeMap] compares
    as its sorted list of pairs. *)
Definition sorted_tags (t : Tags) : list (string * string) :=
  merge_sort (fun p q => str_le (fst p) (fst q)) (map_to_list t).

Fixpoint tags_compare (a b : list (string * string)) : comparison :=
  match a, b with
  | [], [] => Eq
  | [], _ => Lt
  | _, [] => Gt
  | (k1, v1) :: a, (k2, v2) :: b =>
      match str_compare k1 k2 with
      | Eq => match str_compare v1 v2 with
              | Eq => tags_compare a b
              | c => c
              end
      | c => c
      end
  end.

Definition snapshot_le (a b : SeriesSnapshot) : Prop :=
  match str_compare (ss_metric a) (ss_metric b) with
  | Eq => tags_compare (sorted_tags (ss_tags a)) (sorted_tags (ss_tags b))
  | c => c
  end <> Gt.
#[global] Instance snapshot_le_dec a b : Decision (snapshot_le a b).
Proof. unfold snapshot_le. apply _. Defined.

Definition build_snapshot (roll : bool) (a : Aggregator) (now now_ms : Z) : Snapshot * Aggregator :=
  let el := as_secs_f64 (elapsed a now) in
  let interval := if roll then as_secs_f64 (u64_saturating_sub now (last_snapshot a)) else f64_zero in
  let last := if roll then now else last_snapshot a in
  let out :=
    (fun '((metric, tags), s) =>
       let '(ic, isum) := if roll then snd (roll_interval s) else (0, f64_zero) in
       mkSeriesSnapshot metric (kind s) tags (agg_values s el) ic isum)
      <$> map_to_list (series a) in
  let m := if roll then (fun s => fst (roll_interval s)) <$> series a else series a in
  (mkSnapshot now_ms el interval (merge_sort snapshot_le out),
   mkAggregator m (start a) last (agg_seq a)).

Definition snapshot (a : Aggregator) (now now_ms : Z) : Snapshot * Aggregator :=
  build_snapshot true a now now_ms.
Definition cumulative_snapshot (a : Aggregator) (now now_ms : Z) : Snapshot * Aggregator :=
  build_snapshot false a now now_ms.

Definition retained_tags (tags : Tags) (grouping : list string) : option Tags :=
  foldl (fun acc tag => match acc, tags !! tag with
                        | Some retained, Some v => Some (<[tag := v]> retained)
                        | _, _ => None
                        end) (Some ∅) grouping.

(** The selector keys and request filters of [aggregate_snapshot]. *)
Definition snapshot_selectors (a : Aggregator) (groupings : list (list string)) : gset (string * Tags) :=
  list_to_set
    ('((metric, tags), _) ← map_to_list (series a);
     if bool_decide (metric = "request_reqs") || bool_decide (metric = "request_duration") then []
     else (metric, ∅) :: ((fun t => (metric, t)) <$> omap (retained_tags tags) groupings)).

Definition snapshot_request_filters (a : Aggregator) (groupings : list (list string)) : gset Tags :=
  {[ ∅ ]} ∪ list_to_set
    ('((metric, tags), _) ← map_to_list (series a);
     if is_request_counter_metric metric || is_request_duration_metric metric
     then omap (retained_tags tags) groupings else []).

Definition rollup (a : Aggregator) (now : Z) (name : string) (p : string -> bool) (tags : Tags) :
    list SeriesSnapshot :=
  match aggregate_matching a tags p now with
  | Some (k, v) => [mkSeriesSnapshot name k tags v 0 f64_zero]
  | None => []
  end.

Definition aggregate_snapshot (a : Aggregator) (groupings : list (list string)) (now now_ms : Z) : Snapshot :=
  let by_selector :=
    '(metric, tags) ← elements (snapshot_selectors a groupings);
    match aggregate_selector a metric (map_to_list tags) now with
    | Some (k, v) => [mkSeriesSnapshot metric k tags v 0 f64_zero]
    | None => []
    end in
  let by_request :=
    tags ← elements (snapshot_request_filters a groupings);
    rollup a now "request_reqs" is_request_counter_metric tags
    ++ rollup a now "request_duration" is_request_duration_metric tags in
  mkSnapshot now_ms (as_secs_f64 (elapsed a now)) f64_zero
    (merge_sort snapshot_le (by_selector ++ by_request)).
End Aggregator.
