(* ===== verification/Federation.v ===== *)
(** * Deltas, federation and shards (crates/loadr-core/src/aggregate.rs)

    [take_delta] drains what was recorded since the previous drain, [merge_delta]
    folds such a delta into another aggregator (a controller's, or the run's primary
    aggregator), [restore_delta] undoes a drain that could not be sent, and
    [MetricShards] records into shard-local aggregators drained into one target.
    The theorems: nothing is lost or counted twice on the way. *)

From Stdlib Require Import Ascii.
From stdpp Require Import gmultiset.
From S2P Require Import Prelude Float64 Str Metrics Aggregate.

Section Federation.
Context `{Hdr}.

Notation SeriesKey := (string * Tags)%type.

(** The body of [take_delta]'s loop for one series. *)
Definition Series_take_delta (s : Series) : Series * option SeriesDeltaData :=
  match data s with
  | SCounter total flushed =>
      let delta := f64_sub total flushed in
      if f64_eq delta f64_zero then (s, None)
      else (set_data s (SCounter total total), Some (DCounter delta))
  | SGauge last min max _ => (s, Some (DGauge last min max))
  | SRate passes total fp ft =>
      let dp := u64_sub passes fp in
      let dt := u64_sub total ft in
      if Z.eqb dt 0 then (s, None)
      else (set_data s (SRate passes total passes total), Some (DRate dp dt))
  | STrend hist delta_hist sum count min max =>
      if hdr_is_empty delta_hist then (s, None)
      else match hdr_encode delta_hist with
           | None => (s, None)
           | Some b =>
               (set_data s (STrend hist hdr_new sum count min max),
                Some (DTrend b sum (hdr_len delta_hist) min max))
           end
  end.

Definition take_delta (a : Aggregator) : Aggregator * MetricsDelta :=
  (set_series a ((fun s => fst (Series_take_delta s)) <$> series a),
   omap (fun '((metric, tags), s) =>
           mkSeriesDelta metric (kind s) tags <$> snd (Series_take_delta s))
     (map_to_list (series a))).

Definition Series_restore_delta (s : Series) (d : SeriesDeltaData) : Series :=
  set_data s
    match data s, d with
    | SCounter total flushed, DCounter delta => SCounter total (f64_sub flushed delta)
    | SRate p t fp ft, DRate passes total => SRate p t (u64_sub fp passes) (u64_sub ft total)
    | STrend hist delta_hist sum count min max, DTrend b _ _ _ _ =>
        match hdr_decode b with
        | Some h => STrend hist (hdr_add delta_hist h) sum count min max
        | None => data s
        end
    | d, _ => d
    end.

Definition restore_delta (a : Aggregator) (delta : MetricsDelta) : Aggregator :=
  set_series a
    (foldl (fun m sd =>
              let key := (d_metric sd, d_tags sd) in
              match m !! key with
              | None => m
              | Some s => <[key := Series_restore_delta s (d_data sd)]> m
              end) (series a) delta).

(** [set_gauge_by_tag(metric, tag, value, gauge_value)]. *)
Definition set_gauge_by_tag (a : Aggregator) (metric tag value : string) (gauge_value : f64) : Aggregator :=
  let a := bump_seq a in
  set_series a
    (map_imap (fun key s =>
       if bool_decide (fst key <> metric) || bool_decide (snd key !! tag <> Some value) then Some s
       else match data s with
            | SGauge _ min max _ =>
                Some (set_data s (SGauge gauge_value (f64_min min gauge_value) (f64_max max gauge_value)
                                    (agg_seq a)))
            | _ => Some s
            end) (series a)).

Definition Series_merge_delta (seq : Z) (s : Series) (d : SeriesDeltaData) : Series :=
  set_data s
    match data s, d with
    | SCounter total fl, DCounter delta => SCounter (f64_add total delta) fl
    | SGauge _ min max _, DGauge l2 m2 x2 => SGauge l2 (f64_min min m2) (f64_max max x2) seq
    | SRate p t fp ft, DRate p2 t2 => SRate (u64_add p p2) (u64_add t t2) fp ft
    | STrend hist delta_hist sum count min max, DTrend b _ _ m2 x2 =>
        match hdr_decode b with
        | Some h =>
            let added := hdr_len h in
            let mean := f64_div (hdr_mean h) TREND_SCALE in
            STrend (hdr_add hist h) (hdr_add delta_hist h)
              (f64_add sum (f64_mul mean (f64_of_Z added))) (u64_add count added)
              (f64_min min m2) (f64_max max x2)
        | None => data s
        end
    | d, _ => d
    end.

Definition merge_one (seq : Z) (m : gmap SeriesKey Series) (sd : SeriesDelta) : gmap SeriesKey Series :=
  let key := (d_metric sd, d_tags sd) in
  <[key := Series_merge_delta seq (default (Series_new (d_kind sd)) (m !! key)) (d_data sd)]> m.

Definition merge_delta (a : Aggregator) (delta : MetricsDelta) : Aggregator :=
  let a := bump_seq a in
  set_series a (foldl (merge_one (agg_seq a)) (series a) delta).

(** ** Shards *)

Record MetricShards := mkMetricShards { shards : list Aggregator }.

Definition MetricShards_new (n : nat) (now : Z) : MetricShards :=
  mkMetricShards (replicate (Nat.max n 1) (Aggregator_new now)).

Definition shard_of (ms : MetricShards) (idx : nat) : nat := (idx mod length (shards ms))%nat.

Definition shards_record (ms : MetricShards) (idx : nat) (sample : Sample) : MetricShards :=
  mkMetricShards (alter (fun a => record a sample) (shard_of ms idx) (shards ms)).

Definition shards_record_cached (ms : MetricShards) (idx : nat) (metric : string) (k : MetricKind)
    (value : f64) (tags : Tags) : MetricShards :=
  mkMetricShards (alter (fun a => record_cached a metric k value tags) (shard_of ms idx) (shards ms)).

Definition record_cached_values (ms : MetricShards) (idx : nat) (values : list (string * MetricKind * f64))
    (tags : Tags) : MetricShards :=
  mkMetricShards
    (alter (fun a => foldl (fun a '(metric, k, v) => record_cached a metric k v tags) a values)
       (shard_of ms idx) (shards ms)).

(** [drain_into]: one [take_delta] and [merge_delta] per shard. *)
Fixpoint drain_list (l : list Aggregator) (target : Aggregator) : list Aggregator * Aggregator :=
  match l with
  | [] => ([], target)
  | a :: l =>
      let '(a', delta) := take_delta a in
      let '(l', target') := drain_list l (merge_delta target delta) in
      (a' :: l', target')
  end.

Definition drain_into (ms : MetricShards) (target : Aggregator) : MetricShards * Aggregator :=
  let '(l, target') := drain_list (shards ms) target in (mkMetricShards l, target').

(** ** Runs of the sharded pipeline

    Virtual users record into their shards in any order, and the engine drains the
    shards into the primary aggregator and snapshots it, any number of times; [log]
    is every sample recorded. *)

Inductive shard_run : MetricShards -> Aggregator -> list Sample -> Prop :=
| sr_new n now now' : shard_run (MetricShards_new n now) (Aggregator_new now') []
| sr_record ms t log idx smp :
    shard_run ms t log -> shard_run (shards_record ms idx smp) t (log ++ [smp])
| sr_drain ms t log :
    shard_run ms t log -> shard_run (drain_into ms t).1 (drain_into ms t).2 log
| sr_snapshot ms t log now now_ms :
    shard_run ms t log -> shard_run ms (snapshot t now now_ms).2 log.

Definition sample_key (smp : Sample) : SeriesKey := (s_metric smp, s_tags smp).

(** ** Lookup lemmas: what a drain sends and what a merge receives for one key *)

Lemma take_delta_lookup (a : Aggregator) (key : SeriesKey) :
  series (take_delta a).1 !! key = (fun s => fst (Series_take_delta s)) <$> series a !! key.
Proof. simpl. by rewrite lookup_fmap. Qed.

(** Entries of a delta for one key. *)
Definition delta_for (key : SeriesKey) (delta : MetricsDelta) : list SeriesDelta :=
  filter (fun sd => (d_metric sd, d_tags sd) = key) delta.

Lemma delta_for_take (a : Aggregator) (key : SeriesKey) :
  delta_for key (take_delta a).2 =
    match series a !! key with
    | Some s => match snd (Series_take_delta s) with
                | Some d => [mkSeriesDelta key.1 (kind s) key.2 d]
                | None => []
                end
    | None => []
    end.
Proof.
  unfold take_delta. simpl. generalize (series a). clear a. intros m.
  induction m as [|k s m Hk Hfst IH] using map_first_key_ind.
  - by rewrite map_to_list_empty, lookup_empty.
  - rewrite map_to_list_insert_first_key, omap_cons_eq by done. destruct k as [metric tags].
    unfold delta_for in *. rewrite lookup_insert. destruct (decide ((metric, tags) = key)) as [<-|Hne].
    + rewrite Hk in IH. destruct (snd (Series_take_delta s)); cbn [fmap option_fmap option_map]; [|done].
      rewrite filter_cons_True by done. by rewrite IH.
    + destruct (snd (Series_take_delta s)); cbn [fmap option_fmap option_map]; [|done].
      rewrite filter_cons_False by done. done.
Qed.

Lemma merge_fold_lookup (seq : Z) (delta : MetricsDelta) (m : gmap SeriesKey Series) (key : SeriesKey) :
  foldl (merge_one seq) m delta !! key =
    foldl (fun o sd => Some (Series_merge_delta seq (default (Series_new (d_kind sd)) o) (d_data sd)))
      (m !! key) (delta_for key delta).
Proof.
  revert m. induction delta as [|sd delta IH]; intros m; [done|]. simpl.
  rewrite IH. unfold delta_for. destruct (decide ((d_metric sd, d_tags sd) = key)) as [Heq|Hne].
  - rewrite filter_cons_True by done. simpl. unfold merge_one. rewrite Heq, lookup_insert_eq. done.
  - rewrite filter_cons_False by done. unfold merge_one. by rewrite lookup_insert_ne.
Qed.

(** One drain of [a] into [c], at one key. *)
Lemma drain_lookup (a c : Aggregator) (key : SeriesKey) :
  let '(a', delta) := take_delta a in
  series a' !! key = (fun s => fst (Series_take_delta s)) <$> series a !! key
  /\ series (merge_delta c delta) !! key =
     match series a !! key with
     | Some s => match snd (Series_take_delta s) with
                 | Some d => Some (Series_merge_delta (u64_add (agg_seq c) 1)
                                     (default (Series_new (kind s)) (series c !! key)) d)
                 | None => series c !! key
                 end
     | None => series c !! key
     end.
Proof.
  pose proof (delta_for_take a key) as Hd. pose proof (take_delta_lookup a key) as Ht.
  destruct (take_delta a) as [a' delta]. simpl in *. split; [done|].
  rewrite merge_fold_lookup, Hd. destruct (series a !! key) as [s|]; [|done].
  by destruct (snd (Series_take_delta s)).
Qed.
(** ** Conservation

    A measure reads off a series what it already holds ([m_val]) and what it has not
    handed on yet ([m_pend]), in a commutative monoid up to [m_eq].  The laws are
    per operation; [conservation] lifts them to whole runs. *)

Class SeriesMeasure (M : Type) := {
  m_eq : relation M;
  m_op : M -> M -> M;
  m_zero : M;
  m_kind : MetricKind;
  m_ok : Series -> Prop;
  m_val : Series -> M;
  m_pend : Series -> M;
  m_of : f64 -> M;
  m_equiv :: Equivalence m_eq;
  m_op_proper :: Proper (m_eq ==> m_eq ==> m_eq) m_op;
  m_op_comm x y : m_eq (m_op x y) (m_op y x);
  m_op_assoc x y z : m_eq (m_op x (m_op y z)) (m_op (m_op x y) z);
  m_op_zero x : m_eq (m_op x m_zero) x;
  m_new : m_ok (Series_new m_kind) /\ m_eq (m_val (Series_new m_kind)) m_zero
          /\ m_eq (m_pend (Series_new m_kind)) m_zero;
  m_record s v seq : m_ok s ->
    m_ok (Series_record s v seq) /\ m_eq (m_pend (Series_record s v seq)) (m_op (m_pend s) (m_of v));
  m_take s : m_ok s ->
    kind s = m_kind /\ m_ok (Series_take_delta s).1
    /\ match (Series_take_delta s).2 with
       | None => m_eq (m_pend (Series_take_delta s).1) (m_pend s)
       | Some d => forall seq c, m_ok c ->
           m_ok (Series_merge_delta seq c d)
           /\ m_eq (m_op (m_val (Series_merge_delta seq c d)) (m_pend (Series_take_delta s).1))
                   (m_op (m_val c) (m_pend s))
       end;
  m_roll s : m_ok s -> m_ok (roll_interval s).1 /\ m_val (roll_interval s).1 = m_val s;
}.

Section Conservation.
Context {M : Type} `{!SeriesMeasure M}.
Context (key : SeriesKey).

Definition val_at (a : Aggregator) : M := from_option m_val m_zero (series a !! key).
Definition pend_at (a : Aggregator) : M := from_option m_pend m_zero (series a !! key).
Definition ok_at (a : Aggregator) : Prop := forall s, series a !! key = Some s -> m_ok s.
Definition pend_all (l : list Aggregator) : M := foldr (fun a acc => m_op (pend_at a) acc) m_zero l.

(** What the samples of a log contribute under [key]. *)
Definition logged (log : list Sample) : M :=
  foldr (fun smp acc => if decide (sample_key smp = key) then m_op (m_of (s_value smp)) acc else acc)
    m_zero log.

Definition kinds_ok (log : list Sample) : Prop :=
  Forall (fun smp => sample_key smp = key -> s_kind smp = m_kind) log.

Lemma m_zero_op (x : M) : m_eq (m_op m_zero x) x.
Proof. rewrite m_op_comm. apply m_op_zero. Qed.

Lemma m_op_swap (x y z : M) : m_eq (m_op x (m_op y z)) (m_op y (m_op x z)).
Proof. rewrite !m_op_assoc. f_equiv. apply m_op_comm. Qed.

Lemma ok_at_new (now : Z) : ok_at (Aggregator_new now) /\ pend_at (Aggregator_new now) = m_zero.
Proof. split; [intros s Hs|]; unfold pend_at; simpl in *; by rewrite lookup_empty in *. Qed.

Lemma pend_replicate (n : nat) (now : Z) : m_eq (pend_all (replicate n (Aggregator_new now))) m_zero.
Proof.
  induction n as [|n IH]; simpl; [done|]. destruct (ok_at_new now) as [_ ->].
  by rewrite m_zero_op.
Qed.

Lemma record_at (a : Aggregator) (smp : Sample) :
  ok_at a -> (sample_key smp = key -> s_kind smp = m_kind) ->
  ok_at (record a smp)
  /\ m_eq (pend_at (record a smp))
      (if decide (sample_key smp = key) then m_op (m_of (s_value smp)) (pend_at a) else pend_at a).
Proof.
  intros Hok Hk. unfold ok_at, pend_at, record, record_cached. simpl.
  fold (sample_key smp). destruct (decide (sample_key smp = key)) as [He|Hne].
  - rewrite He, lookup_insert_eq.
    destruct (m_record (default (Series_new (s_kind smp)) (series a !! key)) (s_value smp)
                (u64_add (agg_seq a) 1)) as [Hr1 Hr2].
    { destruct (series a !! key) as [s|] eqn:Hs; simpl; [by apply Hok|]. rewrite Hk by done. apply m_new. }
    split; [by intros s [= <-]|]. simpl. rewrite Hr2, m_op_comm.
    destruct (series a !! key) as [s|]; simpl; [done|]. rewrite Hk by done. f_equiv. apply m_new.
  - rewrite lookup_insert_ne by done. split; [exact Hok|done].
Qed.

Lemma pend_all_alter (l : list Aggregator) (i : nat) (smp : Sample) :
  (i < length l)%nat -> Forall ok_at l -> (sample_key smp = key -> s_kind smp = m_kind) ->
  Forall ok_at (alter (fun a => record a smp) i l)
  /\ m_eq (pend_all (alter (fun a => record a smp) i l))
      (if decide (sample_key smp = key) then m_op (m_of (s_value smp)) (pend_all l) else pend_all l).
Proof.
  intros Hi Hl Hk. revert i Hi. induction Hl as [|a l Ha Hl IH]; intros i Hi; simpl in *; [lia|].
  destruct (record_at a smp Ha Hk) as [Ho Hp]. destruct i as [|i]; simpl.
  - split; [by constructor|]. rewrite Hp. destruct (decide _); [|done]. symmetry. apply m_op_assoc.
  - destruct (IH i) as [Ho' Hp']; [lia|]. split; [by constructor|].
    change (list_alter (fun a => record a smp) i l) with (alter (fun a => record a smp) i l).
    rewrite Hp'. destruct (decide _); [|done]. apply m_op_swap.
Qed.

Lemma drain_at (a c : Aggregator) :
  ok_at a -> ok_at c ->
  let '(a', delta) := take_delta a in
  ok_at a' /\ ok_at (merge_delta c delta)
  /\ m_eq (m_op (val_at (merge_delta c delta)) (pend_at a')) (m_op (val_at c) (pend_at a)).
Proof.
  intros Ha Hc. pose proof (drain_lookup a c key) as Hd. destruct (take_delta a) as [a' delta].
  destruct Hd as [Ha' Hc']. unfold ok_at, val_at, pend_at in *. rewrite Ha', Hc'.
  destruct (series a !! key) as [s|]; simpl; [|split_and!; try done; by intros ? [=]].
  destruct (m_take s (Ha s eq_refl)) as (Hkd & Hok' & Ht).
  destruct (Series_take_delta s) as [s' [d|]]; simpl in *.
  - destruct (Ht (u64_add (agg_seq c) 1) (default (Series_new (kind s)) (series c !! key))) as [Hm1 Hm2].
    { destruct (series c !! key) as [sc|]; simpl; [by apply Hc|]. rewrite Hkd. apply m_new. }
    split_and!; [by intros ? [= <-]|by intros ? [= <-]|]. rewrite Hm2.
    destruct (series c !! key) as [sc|]; simpl; [done|]. rewrite Hkd. f_equiv. apply m_new.
  - split_and!; [by intros ? [= <-]|exact Hc|]. by rewrite Ht.
Qed.

Lemma drain_list_at (l : list Aggregator) (c : Aggregator) :
  Forall ok_at l -> ok_at c ->
  let '(l', c') := drain_list l c in
  Forall ok_at l' /\ ok_at c' /\ length l' = length l
  /\ m_eq (m_op (val_at c') (pend_all l')) (m_op (val_at c) (pend_all l)).
Proof.
  intros Hl. revert c. induction Hl as [|a l Ha Hl IH]; intros c Hc; cbn [drain_list]; [by split_and!|].
  pose proof (drain_at a c Ha Hc) as Hd. destruct (take_delta a) as [a' delta].
  destruct Hd as (Ha' & Hc' & Heq). specialize (IH (merge_delta c delta) Hc').
  destruct (drain_list l (merge_delta c delta)) as [l' c']. destruct IH as (Hl' & Hc'' & Hlen & Heq').
  split_and!; [by constructor|done|simpl; lia|]. simpl.
  rewrite m_op_swap, Heq', m_op_swap, m_op_assoc, Heq, <- m_op_assoc. done.
Qed.

Lemma logged_snoc (log : list Sample) (smp : Sample) :
  m_eq (logged (log ++ [smp]))
    (if decide (sample_key smp = key) then m_op (m_of (s_value smp)) (logged log) else logged log).
Proof.
  induction log as [|x log IH]; simpl; [done|]. destruct (decide (sample_key x = key)).
  - rewrite IH. destruct (decide _); [|done]. apply m_op_swap.
  - done.
Qed.

Lemma conservation (ms : MetricShards) (t : Aggregator) (log : list Sample) :
  shard_run ms t log -> kinds_ok log ->
  Forall ok_at (shards ms) /\ ok_at t /\ (0 < length (shards ms))%nat
  /\ m_eq (m_op (val_at t) (pend_all (shards ms))) (logged log).
Proof.
  induction 1 as [n now now'|ms t log idx smp _ IH|ms t log _ IH|ms t log now now_ms _ IH]; intros Hk.
  - destruct (ok_at_new now) as [Ho _], (ok_at_new now') as [Ho' _]. simpl. split_and!.
    + by apply Forall_replicate.
    + done.
    + rewrite length_replicate. lia.
    + rewrite pend_replicate. unfold val_at. simpl. rewrite lookup_empty. apply m_op_zero.
  - apply Forall_app in Hk as [Hk Hs]. apply Forall_cons in Hs as [Hs _].
    destruct (IH Hk) as (Hl & Ht & Hlen & Heq).
    destruct (pend_all_alter (shards ms) (shard_of ms idx) smp) as [Hl' Hp]; [|done|done|].
    { unfold shard_of. apply Nat.mod_upper_bound. lia. }
    simpl. split_and!; [done|done|by rewrite length_alter|]. rewrite Hp, logged_snoc.
    destruct (decide _); [|done]. by rewrite m_op_swap, Heq.
  - destruct (IH Hk) as (Hl & Ht & Hlen & Heq). unfold drain_into.
    pose proof (drain_list_at (shards ms) t Hl Ht) as Hd.
    destruct (drain_list (shards ms) t) as [l' t']. destruct Hd as (Hl' & Ht' & Hlen' & Heq').
    simpl. split_and!; [done|done|lia|]. by rewrite Heq'.
  - destruct (IH Hk) as (Hl & Ht & Hlen & Heq).
    assert (forall s, series t !! key = Some s -> m_ok (roll_interval s).1 /\ m_val (roll_interval s).1 = m_val s)
      as Hroll by (intros s Hs; apply m_roll; by apply Ht).
    unfold ok_at, val_at in *. simpl. rewrite lookup_fmap.
    destruct (series t !! key) as [s|]; simpl in *; [|by split_and!].
    destruct (Hroll s eq_refl) as [Hr1 Hr2]. rewrite Hr2. split_and!; try done. by intros ? [= <-].
Qed.
End Conservation.

(** *** Rates: passes and totals, modulo 2^64 *)

Definition eq64 (a b : Z) : Prop := a `mod` u64_modulus = b `mod` u64_modulus.

#[global] Instance eq64_equiv : Equivalence eq64.
Proof. split; [done|by intros ???|]. intros x y z Hxy Hyz. unfold eq64 in *. congruence. Qed.

Lemma eq64_add (a a' b b' : Z) : eq64 a a' -> eq64 b b' -> eq64 (a + b) (a' + b').
Proof.
  unfold eq64. intros Ha Hb. rewrite (Zplus_mod a), (Zplus_mod a'), Ha, Hb. done.
Qed.

Lemma eq64_wrap (a : Z) : eq64 (u64_wrap a) a.
Proof. unfold eq64, u64_wrap. apply Z.mod_mod. done. Qed.

Definition pair_eq64 (x y : Z * Z) : Prop := eq64 x.1 y.1 /\ eq64 x.2 y.2.

Definition rate_val (s : Series) : Z * Z :=
  match data s with SRate p t _ _ => (p, t) | _ => (0, 0) end.
Definition rate_pend (s : Series) : Z * Z :=
  match data s with SRate p t fp ft => (p - fp, t - ft) | _ => (0, 0) end.
Definition rate_ok (s : Series) : Prop :=
  kind s = Rate /\ exists p t fp ft, data s = SRate p t fp ft.
Definition rate_of (v : f64) : Z * Z := (if f64_ne v f64_zero then 1 else 0, 1).

Lemma rate_record_eq (s : Series) (v : f64) (seq : Z) : rate_ok s ->
  rate_ok (Series_record s v seq)
  /\ pair_eq64 (rate_pend (Series_record s v seq))
      ((rate_pend s).1 + (rate_of v).1, (rate_pend s).2 + (rate_of v).2).
Proof.
  intros (Hk & p & t & fp & ft & Hd). unfold rate_ok, rate_pend, rate_of, Series_record, set_data. simpl.
  rewrite Hd. simpl. split; [split; [done|by eauto]|]. unfold u64_add.
  assert (forall x a b, eq64 (u64_wrap (x + a) - b) (x - b + a)) as Hw.
  { intros x a b. replace (u64_wrap (x + a) - b) with (u64_wrap (x + a) + - b) by lia.
    replace (x - b + a) with (x + a + - b) by lia. apply eq64_add; [apply eq64_wrap|done]. }
  split; simpl; [|apply Hw]. destruct (f64_ne v f64_zero); [apply Hw|]. by rewrite Z.add_0_r.
Qed.

Lemma rate_take_eq (s : Series) : rate_ok s ->
  kind s = Rate /\ rate_ok (Series_take_delta s).1
  /\ match (Series_take_delta s).2 with
     | None => pair_eq64 (rate_pend (Series_take_delta s).1) (rate_pend s)
     | Some d => forall seq c, rate_ok c ->
         rate_ok (Series_merge_delta seq c d)
         /\ pair_eq64
             ((rate_val (Series_merge_delta seq c d)).1 + (rate_pend (Series_take_delta s).1).1,
              (rate_val (Series_merge_delta seq c d)).2 + (rate_pend (Series_take_delta s).1).2)
             ((rate_val c).1 + (rate_pend s).1, (rate_val c).2 + (rate_pend s).2)
     end.
Proof.
  intros (Hk & p & t & fp & ft & Hd). unfold Series_take_delta. rewrite Hd.
  split; [done|]. destruct (Z.eqb _ _); simpl.
  - split; [split; eauto 10|done].
  - split; [split; simpl; eauto 10|]. intros seq c (Hck & p' & t' & fp' & ft' & Hcd).
    unfold rate_ok, Series_merge_delta, rate_val, rate_pend, set_data. simpl. rewrite Hcd, Hd. simpl.
    split; [split; eauto 10|].
    assert (forall x y z, eq64 (u64_wrap (x + u64_wrap (y - z)) + (y - y)) (x + (y - z))) as Hw.
    { intros x y z. rewrite Z.sub_diag, Z.add_0_r. rewrite eq64_wrap.
      apply eq64_add; [done|apply eq64_wrap]. }
    split; apply Hw.
Qed.

#[global, refine] Instance rate_measure : SeriesMeasure (Z * Z) := {|
  m_eq := pair_eq64;
  m_op := fun x y => (x.1 + y.1, x.2 + y.2);
  m_zero := (0, 0);
  m_kind := Rate;
  m_ok := rate_ok;
  m_val := rate_val;
  m_pend := rate_pend;
  m_of := rate_of;
|}.
Proof.
  - intros x x' [Hx1 Hx2] y y' [Hy1 Hy2]. split; by apply eq64_add.
  - intros x y. split; simpl; by rewrite Z.add_comm.
  - intros x y z. split; simpl; by rewrite Z.add_assoc.
  - intros x. split; simpl; by rewrite Z.add_0_r.
  - split; [split; [done|simpl; eauto 10]|]. by split.
  - apply rate_record_eq.
  - apply rate_take_eq.
  - intros s (Hk & p & t & fp & ft & Hd). unfold roll_interval, rate_ok, rate_val. rewrite Hd. simpl.
    split; [split; eauto 10|done].
Defined.

Lemma logged_rate (key : SeriesKey) (log : list Sample) :
  logged (M := Z * Z) key log =
    (Z.of_nat (length (filter (fun smp => sample_key smp = key /\ f64_ne (s_value smp) f64_zero = true) log)),
     Z.of_nat (length (filter (fun smp => sample_key smp = key) log))).
Proof.
  induction log as [|x log IH]; [done|]. simpl. destruct (decide (sample_key x = key)) as [He|Hne].
  - rewrite IH. unfold rate_of. rewrite (filter_cons_True (fun smp => sample_key smp = key)) by done.
    destruct (f64_ne (s_value x) f64_zero) eqn:Hv.
    + rewrite filter_cons_True by done. simpl. f_equal; lia.
    + rewrite filter_cons_False by (intros [_ ?]; congruence). simpl. f_equal; lia.
  - rewrite IH, filter_cons_False by tauto. by rewrite filter_cons_False.
Qed.

(** A drain leaves no total behind. *)
Lemma drained_rate (key : SeriesKey) (l : list Aggregator) (c : Aggregator) :
  Forall (ok_at (M := Z * Z) key) l -> eq64 (pend_all (M := Z * Z) key (drain_list l c).1).2 0.
Proof.
  intros Hl. revert c. induction Hl as [|a l Ha Hl IH]; intros c; cbn [drain_list]; [done|].
  pose proof (take_delta_lookup a key) as Ht. destruct (take_delta a) as [a' delta].
  specialize (IH (merge_delta c delta)).
  destruct (drain_list l (merge_delta c delta)) as [l' c']. simpl in *.
  change 0 with (0 + 0). apply eq64_add; [|done]. unfold pend_at. rewrite Ht.
  destruct (series a !! key) as [s|] eqn:Hs; simpl; [|done].
  destruct (Ha s Hs) as (_ & p & t & fp & ft & Hd). unfold Series_take_delta, rate_pend. rewrite Hd.
  destruct (Z.eqb_spec (u64_sub t ft) 0) as [Hz|]; simpl; [rewrite Hd; simpl; exact Hz|].
  by rewrite Z.sub_diag.
Qed.

(** Recording a rate through shards is exact, modulo the 64-bit counters: at every
    moment the passes the primary aggregator holds plus those still in the shards are
    the passing samples recorded, and right after a drain its total is the number of
    samples recorded. *)
Theorem sharded_rate_exact (ms : MetricShards) (t : Aggregator) (log : list Sample) (key : SeriesKey) :
  shard_run ms t log ->
  Forall (fun smp => sample_key smp = key -> s_kind smp = Rate) log ->
  let passing := filter (fun smp => sample_key smp = key /\ f64_ne (s_value smp) f64_zero = true) log in
  let all := filter (fun smp => sample_key smp = key) log in
  eq64 ((val_at (M := Z * Z) key t).1 + (pend_all (M := Z * Z) key (shards ms)).1) (Z.of_nat (length passing))
  /\ eq64 (val_at (M := Z * Z) key (drain_into ms t).2).2 (Z.of_nat (length all)).
Proof.
  intros Hr Hk. assert (kinds_ok (M := Z * Z) key log) as Hk' by exact Hk.
  destruct (conservation (M := Z * Z) key ms t log Hr Hk') as (Hl & _ & _ & Heq).
  destruct (conservation (M := Z * Z) key _ _ log (sr_drain ms t log Hr) Hk') as (_ & _ & _ & Heq').
  rewrite logged_rate in Heq, Heq'. split; [apply Heq|].
  pose proof (drained_rate key (shards ms) t Hl) as Hz.
  unfold drain_into in *. destruct (drain_list (shards ms) t) as [l' t']. destruct Heq' as [_ He]. simpl in *.
  rewrite <- He. rewrite <- (Z.add_0_r (val_at key t').2) at 1. apply eq64_add; [done|].
  symmetry. exact Hz.
Qed.

(** *** Trends: the histograms *)

Section Trend.
Context `{!HdrLaws}.

Definition trend_val (s : Series) : Histogram :=
  match data s with STrend h _ _ _ _ _ => h | _ => hdr_new end.
Definition trend_pend (s : Series) : Histogram :=
  match data s with STrend _ dh _ _ _ _ => dh | _ => hdr_new end.
Definition trend_ok (s : Series) : Prop :=
  kind s = Trend /\ exists h dh sum count mn mx, data s = STrend h dh sum count mn mx.

Lemma hdr_record_split (h : Histogram) (v : Z) : hdr_record h v = hdr_add h (hdr_record hdr_new v).
Proof. rewrite <- (hdr_add_new_r h) at 1. apply hdr_record_add. Qed.

Lemma trend_take_eq (s : Series) : trend_ok s ->
  kind s = Trend /\ trend_ok (Series_take_delta s).1
  /\ match (Series_take_delta s).2 with
     | None => trend_pend (Series_take_delta s).1 = trend_pend s
     | Some d => forall seq c, trend_ok c ->
         trend_ok (Series_merge_delta seq c d)
         /\ hdr_add (trend_val (Series_merge_delta seq c d)) (trend_pend (Series_take_delta s).1)
            = hdr_add (trend_val c) (trend_pend s)
     end.
Proof.
  intros (Hk & h & dh & sum & count & mn & mx & Hd). unfold Series_take_delta. rewrite Hd.
  split; [done|].
  destruct (hdr_is_empty dh); simpl; [split; [split; eauto 20|done]|].
  destruct (hdr_encode dh) as [b|] eqn:He; simpl; [|split; [split; eauto 20|done]].
  split; [split; simpl; eauto 20|]. intros seq c (Hck & h' & dh' & sum' & count' & mn' & mx' & Hcd).
  unfold trend_ok, Series_merge_delta, trend_val, trend_pend, set_data. simpl.
  rewrite Hcd, Hd, (hdr_roundtrip dh b He). simpl. split; [split; eauto 20|]. by rewrite hdr_add_new_r.
Qed.

#[global, refine] Instance trend_measure : SeriesMeasure Histogram := {|
  m_eq := eq;
  m_op := hdr_add;
  m_zero := hdr_new;
  m_kind := Trend;
  m_ok := trend_ok;
  m_val := trend_val;
  m_pend := trend_pend;
  m_of := fun v => hdr_record hdr_new (trend_scaled v);
|}.
Proof.
  - apply hdr_add_comm.
  - apply hdr_add_assoc.
  - apply hdr_add_new_r.
  - split; [split; [done|simpl; eauto 20]|]. by split.
  - intros s v seq (Hk & h & dh & sum & count & mn & mx & Hd).
    unfold trend_ok, trend_pend, Series_record, set_data. simpl. rewrite Hd. simpl.
    split; [split; eauto 20|]. apply hdr_record_split.
  - apply trend_take_eq.
  - intros s (Hk & h & dh & sum & count & mn & mx & Hd). unfold roll_interval, trend_ok, trend_val.
    rewrite Hd. simpl. split; [split; eauto 20|done].
Defined.

(** The histogram one aggregator would hold after recording these values. *)
Definition hist_of_values (vs : list f64) : Histogram :=
  foldl (fun h v => hdr_record h (trend_scaled v)) hdr_new vs.

Lemma hist_of_values_cons (v : f64) (vs : list f64) :
  hist_of_values (v :: vs) = hdr_add (hdr_record hdr_new (trend_scaled v)) (hist_of_values vs).
Proof.
  unfold hist_of_values. simpl. generalize (hdr_record hdr_new (trend_scaled v)).
  induction vs as [|w vs IH]; intros h; simpl; [by rewrite hdr_add_new_r|].
  rewrite IH, (IH (hdr_record hdr_new (trend_scaled w))), (hdr_record_split h).
  by rewrite hdr_add_assoc.
Qed.

Definition key_values (key : SeriesKey) (log : list Sample) : list f64 :=
  s_value <$> filter (fun smp => sample_key smp = key) log.

Lemma logged_trend (key : SeriesKey) (log : list Sample) :
  logged (M := Histogram) key log = hist_of_values (key_values key log).
Proof.
  unfold key_values. induction log as [|x log IH]; [done|]. simpl.
  destruct (decide (sample_key x = key)).
  - rewrite filter_cons_True by done. rewrite fmap_cons, hist_of_values_cons. by rewrite <- IH.
  - by rewrite filter_cons_False.
Qed.

(** A drain whose serializer succeeds leaves nothing behind. *)
Lemma drained_trend (key : SeriesKey) (l : list Aggregator) (c : Aggregator) :
  (forall h, is_Some (hdr_encode h)) -> Forall (ok_at (M := Histogram) key) l ->
  pend_all (M := Histogram) key (drain_list l c).1 = hdr_new.
Proof.
  intros Henc Hl. revert c. induction Hl as [|a l Ha Hl IH]; intros c; cbn [drain_list]; [done|].
  pose proof (take_delta_lookup a key) as Ht. destruct (take_delta a) as [a' delta].
  specialize (IH (merge_delta c delta)).
  destruct (drain_list l (merge_delta c delta)) as [l' c']. simpl in *. rewrite IH.
  rewrite hdr_add_new_r. unfold pend_at. rewrite Ht.
  destruct (series a !! key) as [s|] eqn:Hs; simpl; [|done].
  destruct (Ha s Hs) as (_ & h & dh & sum & count & mn & mx & Hd).
  unfold Series_take_delta, trend_pend. rewrite Hd.
  destruct (hdr_is_empty dh) eqn:He; simpl; [rewrite Hd; by apply hdr_is_empty_new|].
  destruct (Henc dh) as [b ->]. done.
Qed.

(** Recording through shards loses and duplicates no trend sample: after a drain
    the primary aggregator's histogram is the one a single aggregator that had
    recorded every sample itself would hold, so every percentile agrees. *)
Theorem sharded_trend_exact (ms : MetricShards) (t : Aggregator) (log : list Sample) (key : SeriesKey) :
  shard_run ms t log ->
  Forall (fun smp => sample_key smp = key -> s_kind smp = Trend) log ->
  (forall h, is_Some (hdr_encode h)) ->
  from_option trend_val hdr_new (series (drain_into ms t).2 !! key)
  = hist_of_values (key_values key log).
Proof.
  intros Hr Hk Henc.
  assert (kinds_ok (M := Histogram) key log) as Hk' by exact Hk.
  destruct (conservation (M := Histogram) key ms t log Hr Hk') as (Hl & _).
  destruct (conservation (M := Histogram) key _ _ log (sr_drain ms t log Hr) Hk') as (_ & _ & _ & Heq).
  rewrite logged_trend in Heq. rewrite <- Heq.
  pose proof (drained_trend key (shards ms) t Henc Hl) as Hz.
  unfold drain_into. destruct (drain_list (shards ms) t) as [l' t']. simpl in *.
  rewrite Hz. symmetry. apply hdr_add_new_r.
Qed.

(** ** Undoing a drain *)

(** Counters that fit their type; a float counter is restored up to rounding only. *)
Definition restorable (s : Series) : Prop :=
  match data s with
  | SRate _ _ fp ft => is_u64 fp /\ is_u64 ft
  | SCounter _ _ => False
  | _ => True
  end.

Lemma u64_sub_sub (a b : Z) : is_u64 b -> u64_sub a (u64_sub a b) = b.
Proof.
  intros Hb. rewrite <- (u64_wrap_small b Hb) at 2. unfold u64_sub, u64_wrap.
  rewrite Zminus_mod_idemp_r. f_equal. lia.
Qed.

Lemma Series_restore_take (s s' : Series) (d : SeriesDeltaData) :
  restorable s -> Series_take_delta s = (s', Some d) -> Series_restore_delta s' d = s.
Proof.
  destruct s as [k dt sc scn]. unfold restorable, Series_take_delta. simpl. intros Hr.
  destruct dt as [total flushed|last mn mx sq|p t fp ft|h dh sum count mn mx]; [done| | |].
  - by intros [= <- <-].
  - destruct (Z.eqb _ _); [done|]. intros [= <- <-]. unfold Series_restore_delta, set_data. simpl.
    rewrite !u64_sub_sub by tauto. done.
  - destruct (hdr_is_empty dh); [done|]. destruct (hdr_encode dh) as [b|] eqn:He; [|done].
    intros [= <- <-]. unfold Series_restore_delta, set_data. simpl.
    by rewrite (hdr_roundtrip dh b He), hdr_add_comm, hdr_add_new_r.
Qed.

Lemma Series_restore_record (s : Series) (d : SeriesDeltaData) (v : f64) (seq : Z) :
  Series_restore_delta (Series_record s v seq) d = Series_record (Series_restore_delta s d) v seq.
Proof.
  destruct s as [k dt sc scn]. unfold Series_restore_delta, Series_record, set_data. simpl.
  destruct dt, d; simpl; try done. destruct (hdr_decode hdr_b64) as [h|]; [|done].
  f_equal. f_equal. rewrite (hdr_add_comm _ h), <- hdr_record_add. by rewrite (hdr_add_comm h).
Qed.

Lemma restore_fold_lookup (delta : MetricsDelta) (m : gmap SeriesKey Series) (key : SeriesKey) :
  foldl (fun m sd => let key := (d_metric sd, d_tags sd) in
                     match m !! key with
                     | None => m
                     | Some s => <[key := Series_restore_delta s (d_data sd)]> m
                     end) m delta !! key
  = foldl (fun o sd => (fun s => Series_restore_delta s (d_data sd)) <$> o)
      (m !! key) (delta_for key delta).
Proof.
  revert m. induction delta as [|sd delta IH]; intros m; [done|]. simpl. rewrite IH.
  unfold delta_for. destruct (decide ((d_metric sd, d_tags sd) = key)) as [Heq|Hne].
  - rewrite filter_cons_True by done. simpl. rewrite Heq.
    destruct (m !! key) as [s|] eqn:Hs; [by rewrite lookup_insert_eq|by rewrite Hs].
  - rewrite filter_cons_False by done.
    destruct (m !! (d_metric sd, d_tags sd)); [by rewrite lookup_insert_ne|done].
Qed.

(** Restoring the entry a drain sent for one key, if it sent one. *)
Definition restore_opt (od : option SeriesDeltaData) (o : option Series) : option Series :=
  match od with
  | Some d => (fun s => Series_restore_delta s d) <$> o
  | None => o
  end.

Lemma restore_opt_record (od : option SeriesDeltaData) (key : SeriesKey) (log : list Sample)
    (a1 a2 : Aggregator) :
  agg_seq a1 = agg_seq a2 -> restore_opt od (series a1 !! key) = series a2 !! key ->
  (is_Some od -> is_Some (series a1 !! key)) ->
  restore_opt od (series (foldl record a1 log) !! key) = series (foldl record a2 log) !! key.
Proof.
  revert a1 a2. induction log as [|smp log IH]; intros a1 a2 Hseq Heq Hs; simpl; [done|].
  apply IH; simpl; rewrite Hseq; [done| |]; fold (sample_key smp); rewrite !lookup_insert;
    destruct (decide (sample_key smp = key)) as [->|]; try done.
  rewrite <- Heq. destruct od as [d|]; simpl; [|done].
  destruct Hs as [s1 ->]; [done|]. simpl. by rewrite Series_restore_record.
Qed.

(** A delta that could not be sent is restored losslessly: whatever was recorded
    in between, draining, failing to send and restoring leaves every rate, gauge and
    trend series exactly as if the drain had never happened. *)
Theorem restore_delta_lossless (a : Aggregator) (log : list Sample) (key : SeriesKey) :
  (forall s, series a !! key = Some s -> restorable s) ->
  series (restore_delta (foldl record (take_delta a).1 log) (take_delta a).2) !! key
  = series (foldl record a log) !! key.
Proof.
  intros Hok. unfold restore_delta. cbn [set_series series]. rewrite restore_fold_lookup, delta_for_take.
  set (od := s ← series a !! key; (Series_take_delta s).2).
  transitivity (restore_opt od (series (foldl record (take_delta a).1 log) !! key)).
  { unfold od. destruct (series a !! key) as [s|]; [|done]. simpl. by destruct (Series_take_delta s).2. }
  apply restore_opt_record; [done| |]; rewrite take_delta_lookup; unfold od;
    destruct (series a !! key) as [s|] eqn:Hs; try done; simpl; [|by eauto].
  destruct (Series_take_delta s) as [s' [d|]] eqn:Ht; simpl; f_equal.
  - by apply Series_restore_take; [apply Hok|].
  - revert Ht. unfold Series_take_delta. repeat case_match; congruence.
Qed.
End Trend.
End Federation.

(** ** A model of the histogram interface

    A histogram of unlimited resolution: the multiset of recorded values.  It shows
    that [HdrLaws] can hold and lets the theorems above run on concrete inputs. *)

Module HdrModel.

Fixpoint pos_to_string (p : positive) : string :=
  match p with
  | xH => ""
  | xO p => String "0"%char (pos_to_string p)
  | xI p => String "1"%char (pos_to_string p)
  end.

Fixpoint pos_of_string (s : string) : positive :=
  match s with
  | EmptyString => xH
  | String c s => if Ascii.eqb c "0"%char then xO (pos_of_string s) else xI (pos_of_string s)
  end.

Lemma pos_string_roundtrip (p : positive) : pos_of_string (pos_to_string p) = p.
Proof. induction p as [p IH|p IH|]; simpl; by rewrite ?IH. Qed.

Definition quantile (h : gmultiset Z) (q : f64) : Z :=
  let l := merge_sort Z.le (elements h) in
  let i := f64_as_u64 (f64_mul q (f64_of_Z (Z.of_nat (length l)))) in
  default 0 (l !! Z.to_nat (i - 1)).

#[export] Instance hdr_multiset : Hdr := {|
  Histogram := gmultiset Z;
  hdr_new := ∅;
  hdr_record h v := h ⊎ {[+ v +]};
  hdr_add h1 h2 := h1 ⊎ h2;
  hdr_len h := Z.of_nat (size h);
  hdr_is_empty h := bool_decide (h = ∅);
  hdr_mean h := f64_div (f64_of_Z (Zsum (elements h))) (f64_of_Z (Z.of_nat (size h)));
  hdr_value_at_quantile := quantile;
  hdr_encode h := Some (pos_to_string (encode h));
  hdr_decode s := decode (pos_of_string s);
|}.

#[export] Instance hdr_multiset_laws : HdrLaws.
Proof.
  split; simpl; intros.
  - multiset_solver.
  - multiset_solver.
  - multiset_solver.
  - multiset_solver.
  - by bool_to_prop.
  - done.
  - rewrite gmultiset_size_disj_union, gmultiset_size_singleton. lia.
  - rewrite gmultiset_size_disj_union. lia.
  - simplify_eq. by rewrite pos_string_roundtrip, decode_encode.
Qed.

End HdrModel.

Section Witnesses.
Import HdrModel.

Definition trend_key : string * Tags := ("http_req_duration", ∅).
Definition rate_key : string * Tags := ("checks", ∅).
Definition trend_sample (v : Z) : Sample := mkSample "http_req_duration" Trend (f64_of_Z v) ∅ 0.
Definition rate_sample (v : Z) : Sample := mkSample "checks" Rate (f64_of_Z v) ∅ 0.

Definition example_log : list Sample := [trend_sample 7; rate_sample 1; trend_sample 9; rate_sample 0].
Definition example_shards : MetricShards :=
  shards_record (shards_record (shards_record (shards_record (MetricShards_new 2 0)
    0 (trend_sample 7)) 1 (rate_sample 1)) 1 (trend_sample 9)) 2 (rate_sample 0).

Lemma example_run : shard_run example_shards (Aggregator_new 0) example_log.
Proof.
  unfold example_shards, example_log.
  change [trend_sample 7; rate_sample 1; trend_sample 9; rate_sample 0]
    with (((([] ++ [trend_sample 7]) ++ [rate_sample 1]) ++ [trend_sample 9]) ++ [rate_sample 0]).
  repeat apply sr_record. apply sr_new.
Defined.

Lemma sharded_rate_exact_witness :
  eq64 (val_at (M := Z * Z) rate_key (drain_into example_shards (Aggregator_new 0)).2).2 2.
Proof.
  refine (proj2 (sharded_rate_exact example_shards (Aggregator_new 0) example_log rate_key example_run _)).
  repeat constructor; done.
Defined.

Lemma sharded_trend_exact_witness :
  from_option trend_val hdr_new (series (drain_into example_shards (Aggregator_new 0)).2 !! trend_key)
  = hist_of_values [f64_of_Z 7; f64_of_Z 9].
Proof.
  refine (sharded_trend_exact example_shards (Aggregator_new 0) example_log trend_key example_run _ _).
  - repeat constructor; done.
  - intros h. by eexists.
Defined.

Lemma restore_delta_lossless_witness :
  let a := record (Aggregator_new 0) (rate_sample 1) in
  series (restore_delta (foldl record (take_delta a).1 [rate_sample 0]) (take_delta a).2) !! rate_key
  = series (foldl record a [rate_sample 0]) !! rate_key.
Proof.
  apply (restore_delta_lossless (record (Aggregator_new 0) (rate_sample 1)) [rate_sample 0] rate_key).
  intros s. unfold record, record_cached. cbn [set_series series bump_seq Aggregator_new].
  change (s_metric (rate_sample 1), s_tags (rate_sample 1)) with rate_key.
  rewrite lookup_insert_eq, lookup_empty. intros [= <-]. by repeat split.
Defined.
End Witnesses.
