(* ===== verification/Uplink.v ===== *)
(** * The agent's acknowledged uplink window (crates/loadr-agent/src/uplink.rs)

    [State] is the window behind the mutex, [Uplink] the structure the producers,
    the session writer and the acknowledgement reader share.  Each critical
    section of the source is one function here; the two [async] loops
    ([enqueue] and [next_unsent]) are given by what one poll of them does,
    [Pending] standing for the [await] on the notification.  [tokio]'s [Notify]
    and prost's [encoded_len] are parameters. *)

From S2P Require Import Prelude.

(** [tokio::sync::Notify], as far as the window uses it. *)
Class TokioNotify := {
  Notify : Type;
  notify_new : Notify;
  notify_one : Notify -> Notify;
  notify_waiters : Notify -> Notify;
}.

(** [pb::AgentMessage]: the sequence number beside the oneof payload. *)
Record AgentMessage (Msg : Type) := mkAgentMessage {
  seq : Z;
  msg : Msg;
}.
Arguments mkAgentMessage {Msg} seq msg.
Arguments seq {Msg} a.
Arguments msg {Msg} a.

Section Window.
Context `{TokioNotify} {Msg : Type}.
(** [prost::Message::encoded_len]. *)
Context (encoded_len : AgentMessage Msg -> Z).

Record Entry := mkEntry {
  e_msg : AgentMessage Msg;
  e_bytes : Z;
}.

Record State := mkState {
  next_seq : Z;
  pending : list Entry;
  cursor : nat;
  bytes : Z;
  epoch : Z;
  closed : bool;
}.

Definition State_is_full (st : State) (max_bytes max_messages : Z) : bool :=
  Z.leb max_bytes (bytes st) || Z.leb max_messages (Z.of_nat (length (pending st))).

Inductive Rejected :=
| Full (m : AgentMessage Msg)
| Closed.

Record Uplink := mkUplink {
  state : State;
  ready : Notify;
  room : Notify;
  max_bytes : Z;
  max_messages : Z;
  incarnation : string;
}.

Definition set_state (u : Uplink) (st : State) : Uplink :=
  mkUplink st (ready u) (room u) (max_bytes u) (max_messages u) (incarnation u).
Definition notify_ready (u : Uplink) : Uplink :=
  mkUplink (state u) (notify_one (ready u)) (room u) (max_bytes u) (max_messages u) (incarnation u).
Definition notify_room (u : Uplink) : Uplink :=
  mkUplink (state u) (ready u) (notify_waiters (room u)) (max_bytes u) (max_messages u) (incarnation u).

Definition DEFAULT_MAX_BYTES : Z := 16 * 1024 * 1024.
Definition DEFAULT_MAX_MESSAGES : Z := 4096.

(** [uuid::Uuid::new_v4] is the argument [inc]. *)
Definition with_limits (mb mm : Z) (inc : string) : Uplink :=
  mkUplink (mkState 0 [] 0 0 0 false) notify_new notify_new mb mm inc.

Definition new (inc : string) : Uplink :=
  with_limits DEFAULT_MAX_BYTES DEFAULT_MAX_MESSAGES inc.

Definition is_full (u : Uplink) : bool :=
  State_is_full (state u) (max_bytes u) (max_messages u).

Definition push (u : Uplink) (m : AgentMessage Msg) : Uplink * result Rejected Z :=
  let b := encoded_len m in
  let st := state u in
  if closed st then (u, Err Closed)
  else if State_is_full st (max_bytes u) (max_messages u) then (u, Err (Full m))
  else
    let s := u64_add (next_seq st) 1 in
    let m := mkAgentMessage s (msg m) in
    let st := mkState s (pending st ++ [mkEntry m b]) (cursor st) (bytes st + b)
                      (epoch st) (closed st) in
    (notify_ready (set_state u st), Ok s).

Definition try_enqueue (u : Uplink) (m : AgentMessage Msg) : Uplink * bool :=
  let '(u', r) := push u m in (u', is_ok r).

(** What polling an [async fn] gives. *)
Inductive poll (A : Type) :=
| Ready (a : A)
| Pending.
Arguments Ready {A} a.
Arguments Pending {A}.

(** One turn of [enqueue]'s loop: [Pending] parks on [room] and retries the
    message the window handed back. *)
Definition enqueue (u : Uplink) (m : AgentMessage Msg) : Uplink * poll bool * AgentMessage Msg :=
  match push u m with
  | (u', Ok _) => (u', Ready true, m)
  | (u', Err Closed) => (u', Ready false, m)
  | (u', Err (Full returned)) => (u', Pending, returned)
  end.

(** The [while] loop of [ack]: retire the front while it is covered. *)
Fixpoint retire (s : Z) (l : list Entry) (b : Z) (freed : nat) : list Entry * Z * nat :=
  match l with
  | e :: l' =>
      if Z.leb (seq (e_msg e)) s
      then retire s l' (u64_saturating_sub b (e_bytes e)) (S freed)
      else (l, b, freed)
  | [] => ([], b, freed)
  end.

Definition ack (u : Uplink) (s : Z) : Uplink :=
  let st := state u in
  if Z.ltb (next_seq st) s then u
  else
    let '(rest, b, freed) := retire s (pending st) (bytes st) 0 in
    let st := mkState (next_seq st) rest (cursor st) b (epoch st) (closed st) in
    if Nat.eqb freed 0 then set_state u st
    else
      let st := mkState (next_seq st) rest (cursor st - freed) b (epoch st) (closed st) in
      notify_room (set_state u st).

Definition rewind (u : Uplink) : Uplink * Z :=
  let st := state u in
  let ep := u64_add (epoch st) 1 in
  let st := mkState (next_seq st) (pending st) 0 (bytes st) ep (closed st) in
  (notify_ready (set_state u st), ep).

(** One turn of [next_unsent]'s loop for the writer of epoch [ep]. *)
Definition next_unsent (u : Uplink) (ep : Z) : Uplink * poll (option (AgentMessage Msg)) :=
  let st := state u in
  if negb (Z.eqb (epoch st) ep) then (notify_ready u, Ready None)
  else
    match pending st !! cursor st with
    | Some entry =>
        let st := mkState (next_seq st) (pending st) (S (cursor st)) (bytes st)
                          (epoch st) (closed st) in
        (set_state u st, Ready (Some (e_msg entry)))
    | None =>
        if closed st then (notify_ready u, Ready None) else (u, Pending)
    end.

Definition close (u : Uplink) : Uplink :=
  let st := state u in
  let st := mkState (next_seq st) (pending st) (cursor st) (bytes st) (epoch st) true in
  notify_room (notify_ready (set_state u st)).

Definition pending_seqs (u : Uplink) : list Z :=
  (fun e => seq (e_msg e)) <$> pending (state u).

(** [SessionWriter::spawn]'s task, run for [fuel] turns while the channel accepts:
    the messages it puts on the wire. *)
Fixpoint writer_loop (fuel : nat) (u : Uplink) (ep : Z) : Uplink * list (AgentMessage Msg) :=
  match fuel with
  | O => (u, [])
  | S fuel =>
      match next_unsent u ep with
      | (u', Ready (Some m)) =>
          let '(u'', sent) := writer_loop fuel u' ep in (u'', m :: sent)
      | (u', Ready None) => (u', [])
      | (u', Pending) => (u', [])
      end
  end.

Definition SessionWriter_spawn (fuel : nat) (u : Uplink) : Uplink * list (AgentMessage Msg) :=
  let '(u', ep) := rewind u in writer_loop fuel u' ep.

(** ** Interleavings

    Producers, the acknowledgement reader, the session writers and shutdown each
    run one critical section at a time; [reachable] is any order of them.  [push]
    wraps its counter at 2^64, which the [r_push] rule leaves out. *)

Inductive reachable (mb mm : Z) (inc : string) : Uplink -> Prop :=
| r_new : reachable mb mm inc (with_limits mb mm inc)
| r_push u m : reachable mb mm inc u -> next_seq (state u) < u64_max -> 0 <= encoded_len m ->
    reachable mb mm inc (push u m).1
| r_ack u s : reachable mb mm inc u -> reachable mb mm inc (ack u s)
| r_rewind u : reachable mb mm inc u -> reachable mb mm inc (rewind u).1
| r_next u ep : reachable mb mm inc u -> reachable mb mm inc (next_unsent u ep).1
| r_close u : reachable mb mm inc u -> reachable mb mm inc (close u).

(** ** The window invariant *)

(** Sequence numbers of the window are the last [length pending] ones handed out,
    in order and without a gap; the writer's cursor stays inside the window; the
    byte account is the sum of what admission reserved. *)
Definition oldest (u : Uplink) : Z :=
  next_seq (state u) - Z.of_nat (length (pending (state u))) + 1.

Record window_ok (u : Uplink) : Prop := {
  wo_seqs : pending_seqs u = seqZ (oldest u) (Z.of_nat (length (pending (state u))));
  wo_cursor : (cursor (state u) <= length (pending (state u)))%nat;
  wo_bytes : bytes (state u) = Zsum (e_bytes <$> pending (state u));
  wo_entries : Forall (fun e => 0 <= e_bytes e) (pending (state u));
  wo_next : Z.of_nat (length (pending (state u))) <= next_seq (state u) < u64_modulus;
}.

(** ** Lemmas *)

Lemma retire_spec (s : Z) (l : list Entry) (b : Z) (freed : nat) :
  Forall (fun e => 0 <= e_bytes e) l -> Zsum (e_bytes <$> l) <= b ->
  exists k : nat,
    (k <= length l)%nat
    /\ retire s l b freed = (drop k l, b - Zsum (e_bytes <$> take k l), (freed + k)%nat)
    /\ Forall (fun e => seq (e_msg e) <= s) (take k l)
    /\ (forall e, head (drop k l) = Some e -> s < seq (e_msg e)).
Proof.
  intros Hl. revert b freed. induction Hl as [|e l He Hl IH]; intros b freed Hb.
  - exists 0%nat. simpl. rewrite Nat.add_0_r, Z.sub_0_r. repeat split; [done|constructor|done].
  - rewrite fmap_cons, Zsum_cons in Hb. simpl.
    destruct (Z.leb_spec (seq (e_msg e)) s) as [Hle|Hgt].
    + destruct (IH (u64_saturating_sub b (e_bytes e)) (S freed)) as (k & Hk & -> & Hall & Hhd).
      { unfold u64_saturating_sub. lia. }
      exists (S k). simpl take. simpl drop. rewrite fmap_cons, Zsum_cons. repeat split; [lia| |by constructor|done].
      pose proof (Zsum_nonneg (e_bytes <$> l)) as Hnn. rewrite Forall_fmap in Hnn.
      specialize (Hnn Hl). unfold u64_saturating_sub.
      f_equal; [f_equal|]; lia.
    + exists 0%nat. simpl. rewrite Nat.add_0_r, Z.sub_0_r. repeat split; [lia|constructor|].
      by intros ? [= <-].
Qed.
Lemma window_lookup (u : Uplink) (i : nat) (e : Entry) :
  window_ok u -> pending (state u) !! i = Some e -> seq (e_msg e) = oldest u + Z.of_nat i.
Proof.
  intros [Hs _ _ _ _] Hi.
  assert (pending_seqs u !! i = Some (seq (e_msg e))) as Hq.
  { unfold pending_seqs. by rewrite list_lookup_fmap, Hi. }
  rewrite Hs in Hq. apply lookup_seqZ in Hq. lia.
Qed.

(** How many entries an acknowledgement of [s] retires. *)
Definition covered (u : Uplink) (s : Z) : nat :=
  Nat.min (length (pending (state u))) (Z.to_nat (s - oldest u + 1)).

Lemma ack_spec (u : Uplink) (s : Z) :
  window_ok u ->
  state (ack u s) =
    if Z.ltb (next_seq (state u)) s then state u
    else mkState (next_seq (state u)) (drop (covered u s) (pending (state u)))
           (cursor (state u) - covered u s)
           (Zsum (e_bytes <$> drop (covered u s) (pending (state u))))
           (epoch (state u)) (closed (state u)).
Proof.
  intros Hw. unfold ack. destruct (Z.ltb_spec (next_seq (state u)) s) as [|Hle]; [done|].
  destruct (retire_spec s (pending (state u)) (bytes (state u)) 0) as (k & Hk & -> & Hin & Hout).
  { apply Hw. } { by rewrite (wo_bytes u Hw). }
  assert (k = covered u s) as ->.
  { unfold covered. apply Nat.le_antisymm.
    - destruct k as [|k]; [lia|]. destruct (lookup_lt_is_Some_2 (pending (state u)) k) as [e He]; [lia|].
      assert (seq (e_msg e) <= s) as Hes.
      { rewrite Forall_forall in Hin. apply Hin. apply list_elem_of_lookup. exists k.
        rewrite lookup_take_lt by lia. done. }
      rewrite (window_lookup u k e Hw He) in Hes. lia.
    - destruct (decide (k = length (pending (state u)))) as [->|Hne]; [lia|].
      destruct (lookup_lt_is_Some_2 (pending (state u)) k) as [e He]; [lia|].
      assert (s < seq (e_msg e)) as Hes.
      { apply Hout. rewrite head_lookup, lookup_drop, Nat.add_0_r. done. }
      rewrite (window_lookup u k e Hw He) in Hes. lia. }
  assert (bytes (state u) - Zsum (e_bytes <$> take (covered u s) (pending (state u)))
          = Zsum (e_bytes <$> drop (covered u s) (pending (state u)))) as ->.
  { rewrite (wo_bytes u Hw), <- (take_drop (covered u s) (pending (state u))) at 1.
    rewrite fmap_app, Zsum_app. lia. }
  destruct (Nat.eqb_spec (0 + covered u s) 0) as [Heq|]; [|done].
  simpl in Heq. rewrite Heq, Nat.sub_0_r. done.
Qed.

Lemma ack_others (u : Uplink) (s : Z) :
  max_bytes (ack u s) = max_bytes u /\ max_messages (ack u s) = max_messages u
  /\ incarnation (ack u s) = incarnation u.
Proof.
  unfold ack. destruct (Z.ltb _ _); [done|].
  destruct (retire _ _ _ _) as [[? ?] ?]. by destruct (Nat.eqb _ _).
Qed.

Lemma ack_window_ok (u : Uplink) (s : Z) : window_ok u -> window_ok (ack u s).
Proof.
  intros Hw. pose proof (ack_spec u s Hw) as Hst.
  destruct (Z.ltb_spec (next_seq (state u)) s) as [|Hle].
  - destruct Hw. unfold pending_seqs, oldest in *. by constructor;
      unfold pending_seqs, oldest; rewrite Hst.
  - assert (covered u s <= length (pending (state u)))%nat as Hc by (unfold covered; lia).
    destruct Hw as [Hs Hcu Hb He Hn].
    constructor; unfold pending_seqs, oldest in *; rewrite Hst; simpl.
    + rewrite fmap_drop, Hs, length_drop. apply list_eq. intros i.
      rewrite lookup_drop. apply option_eq. intros x. rewrite !lookup_seqZ. lia.
    + rewrite length_drop. lia.
    + done.
    + by apply Forall_drop.
    + rewrite length_drop. lia.
Qed.

Lemma push_cases (u : Uplink) (m : AgentMessage Msg) :
  match push u m with
  | (u', Ok s) =>
      closed (state u) = false /\ is_full u = false
      /\ s = u64_add (next_seq (state u)) 1
      /\ state u' = mkState s (pending (state u) ++ [mkEntry (mkAgentMessage s (msg m)) (encoded_len m)])
                      (cursor (state u)) (bytes (state u) + encoded_len m)
                      (epoch (state u)) false
      /\ max_bytes u' = max_bytes u /\ max_messages u' = max_messages u
      /\ incarnation u' = incarnation u
  | (u', Err r) =>
      u' = u /\ (closed (state u) = true /\ r = Closed
                \/ closed (state u) = false /\ is_full u = true /\ r = Full m)
  end.
Proof.
  unfold push, is_full. destruct (closed (state u)) eqn:Hc; [by auto|].
  destruct (State_is_full _ _ _) eqn:Hf; simpl; split_and?; auto.
Qed.

Lemma push_window_ok (u : Uplink) (m : AgentMessage Msg) :
  window_ok u -> next_seq (state u) < u64_max -> 0 <= encoded_len m ->
  window_ok (push u m).1.
Proof.
  intros Hw Hns Hlen. pose proof (push_cases u m) as Hp.
  destruct (push u m) as [u' [s|r]]; [|by destruct Hp as [-> _]].
  destruct Hp as (_ & _ & -> & Hst & _). destruct Hw as [Hs Hcu Hb He Hn].
  rewrite u64_add_small in Hst by (unfold is_u64, u64_max in *; lia).
  assert (length (pending (state u')) = S (length (pending (state u)))) as Hl.
  { rewrite Hst. simpl. rewrite length_app. simpl. lia. }
  constructor; unfold pending_seqs, oldest in *; cbn [fst]; rewrite ?Hl, Hst;
    cbn [next_seq pending cursor bytes]; rewrite ?Nat2Z.inj_succ.
  - rewrite fmap_app, Hs. simpl.
    replace (next_seq (state u) + 1 - Z.succ (Z.of_nat (length (pending (state u)))) + 1)
      with (next_seq (state u) - Z.of_nat (length (pending (state u))) + 1) by lia.
    rewrite <- Z.add_1_r, seqZ_app by lia. f_equal. unfold seqZ. simpl. f_equal. lia.
  - lia.
  - rewrite fmap_app, Zsum_app, Hb. simpl. rewrite Zsum_cons. unfold Zsum; simpl. lia.
  - apply Forall_app. split; [done|]. by repeat constructor.
  - unfold u64_max in *. lia.
Qed.

Lemma rewind_window_ok (u : Uplink) : window_ok u -> window_ok (rewind u).1.
Proof. intros []. constructor; simpl; try done. lia. Qed.

Lemma close_window_ok (u : Uplink) : window_ok u -> window_ok (close u).
Proof. intros []. by constructor. Qed.

Lemma next_unsent_cases (u : Uplink) (ep : Z) :
  match next_unsent u ep with
  | (u', Ready (Some m)) =>
      epoch (state u) = ep
      /\ exists e, pending (state u) !! cursor (state u) = Some e /\ m = e_msg e
      /\ state u' = mkState (next_seq (state u)) (pending (state u)) (S (cursor (state u)))
                      (bytes (state u)) (epoch (state u)) (closed (state u))
      /\ incarnation u' = incarnation u
  | (u', Ready None) =>
      state u' = state u /\ incarnation u' = incarnation u
      /\ (epoch (state u) <> ep
          \/ closed (state u) = true /\ pending (state u) !! cursor (state u) = None)
  | (u', Pending) =>
      u' = u /\ epoch (state u) = ep /\ closed (state u) = false
      /\ pending (state u) !! cursor (state u) = None
  end.
Proof.
  unfold next_unsent. destruct (Z.eqb_spec (epoch (state u)) ep); simpl.
  - destruct (pending (state u) !! cursor (state u)) eqn:Hp; simpl; [eauto 10|].
    destruct (closed (state u)) eqn:Hc; simpl; auto.
  - auto.
Qed.

Lemma next_unsent_window_ok (u : Uplink) (ep : Z) : window_ok u -> window_ok (next_unsent u ep).1.
Proof.
  intros Hw. pose proof (next_unsent_cases u ep) as Hc.
  destruct (next_unsent u ep) as [u' [[m|]|]]; simpl in *.
  - destruct Hc as (_ & e & He & _ & Hst & _). apply lookup_lt_Some in He. destruct Hw.
    unfold pending_seqs, oldest in *.
    constructor; unfold pending_seqs, oldest; rewrite Hst; simpl; try done; lia.
  - destruct Hc as (Hst & _ & _). destruct Hw. unfold pending_seqs, oldest in *.
    by constructor; unfold pending_seqs, oldest; rewrite Hst.
  - by destruct Hc as (-> & _).
Qed.
(** The byte budget is a floor: without the newest message the window is below it. *)
Record budget_ok (u : Uplink) : Prop := {
  bo_tail : forall l e, pending (state u) = l ++ [e] ->
    Zsum (e_bytes <$> l) < max_bytes u /\ Z.of_nat (length l) < max_messages u;
}.

Lemma budget_ok_drop (u u' : Uplink) (k : nat) :
  window_ok u -> budget_ok u ->
  pending (state u') = drop k (pending (state u)) ->
  max_bytes u' = max_bytes u -> max_messages u' = max_messages u -> budget_ok u'.
Proof.
  intros Hw [Hb] Hp Hmb Hmm. split. intros l e Hl. rewrite Hmb, Hmm.
  rewrite Hp in Hl.
  destruct (Hb (take k (pending (state u)) ++ l) e) as [H1 H2].
  { rewrite <- app_assoc, <- Hl. by rewrite take_drop. }
  rewrite fmap_app, Zsum_app in H1. rewrite length_app in H2. split; [|lia].
  enough (0 <= Zsum (e_bytes <$> take k (pending (state u)))) by lia.
  apply Zsum_nonneg, Forall_fmap, Forall_take. apply (wo_entries u Hw).
Qed.

Lemma push_budget_ok (u : Uplink) (m : AgentMessage Msg) :
  window_ok u -> budget_ok u -> budget_ok (push u m).1.
Proof.
  intros Hw Hb. pose proof (push_cases u m) as Hp.
  destruct (push u m) as [u' [s|r]]; [|by destruct Hp as [-> _]].
  destruct Hp as (_ & Hf & _ & Hst & Hmb & Hmm & _). split. intros l e. simpl.
  rewrite Hst, Hmb, Hmm. simpl. intros [<- _]%app_inj_tail.
  unfold is_full, State_is_full in Hf. bool_to_prop. rewrite <- (wo_bytes u Hw). lia.
Qed.

Lemma reachable_ok (mb mm : Z) (inc : string) (u : Uplink) :
  reachable mb mm inc u ->
  window_ok u /\ budget_ok u
  /\ max_bytes u = mb /\ max_messages u = mm /\ incarnation u = inc.
Proof.
  induction 1 as [|u m _ (Hw&Hb&?&?&?) Hns Hlen|u s _ (Hw&Hb&?&?&?)|u _ (Hw&Hb&?&?&?)
                 |u ep _ (Hw&Hb&?&?&?)|u _ (Hw&Hb&?&?&?)].
  - split; [|split; [split; intros l e Hl; by destruct l|done]].
    constructor; simpl; [done|lia|done|constructor|unfold u64_modulus; lia].
  - split_and!; [by apply push_window_ok|by apply push_budget_ok| | |];
      pose proof (push_cases u m) as Hp; destruct (push u m) as [u' [s|r]]; simpl;
      destruct_and?; subst; done.
  - destruct (ack_others u s) as (Hmb & Hmm & Hi). rewrite Hmb, Hmm, Hi.
    split_and!; try done; [by apply ack_window_ok|].
    pose proof (ack_spec u s Hw) as Hst.
    destruct (Z.ltb _ _).
    + apply (budget_ok_drop u _ 0); try done. by rewrite Hst.
    + apply (budget_ok_drop u _ (covered u s)); try done. by rewrite Hst.
  - split_and!; try done; [by apply rewind_window_ok|]. by apply (budget_ok_drop u _ 0).
  - pose proof (next_unsent_window_ok u ep Hw) as Hw'.
    assert (budget_ok (next_unsent u ep).1) as Hb'.
    { apply (budget_ok_drop u _ 0); try done; unfold next_unsent; by repeat case_match. }
    unfold next_unsent in *. by repeat case_match.
  - split_and!; try done; [by apply close_window_ok|]. by apply (budget_ok_drop u _ 0).
Qed.

Lemma writer_loop_spec (fuel : nat) (u : Uplink) :
  snd (writer_loop fuel u (epoch (state u)))
  = e_msg <$> take fuel (drop (cursor (state u)) (pending (state u))).
Proof.
  revert u. induction fuel as [|fuel IH]; intros u; [done|]. simpl.
  pose proof (next_unsent_cases u (epoch (state u))) as Hc.
  destruct (next_unsent u (epoch (state u))) as [u' [[m|]|]].
  - destruct Hc as (_ & e & He & -> & Hst & _).
    specialize (IH u'). rewrite Hst in IH. simpl in IH.
    destruct (writer_loop fuel u' _) as [u'' sent]. simpl in *. rewrite IH.
    by rewrite (drop_S (pending (state u)) e (cursor (state u)) He).
  - destruct Hc as (_ & _ & [?|[_ Hn]]); [done|]. simpl.
    apply lookup_ge_None in Hn. by rewrite drop_ge.
  - destruct Hc as (_ & _ & _ & Hn). simpl.
    apply lookup_ge_None in Hn. by rewrite drop_ge.
Qed.

(** ** Properties *)

(** [push] on every branch.  A closed or full window refuses, hands the message
    back and leaves the window (the sequence counter included) untouched; otherwise
    the message enters at the back under the next sequence number. *)
Theorem push_spec (u : Uplink) (m : AgentMessage Msg) :
  next_seq (state u) < u64_max -> 0 <= next_seq (state u) ->
  push u m =
    if closed (state u) then (u, Err Closed)
    else if is_full u then (u, Err (Full m))
    else
      let s := next_seq (state u) + 1 in
      (notify_ready (set_state u
         (mkState s (pending (state u) ++ [mkEntry (mkAgentMessage s (msg m)) (encoded_len m)])
            (cursor (state u)) (bytes (state u) + encoded_len m) (epoch (state u)) false)),
       Ok s).
Proof.
  intros H1 H0. unfold push, is_full. destruct (closed (state u)) eqn:Hc; [done|].
  destruct (State_is_full _ _ _); [done|].
  rewrite u64_add_small by (unfold is_u64, u64_max in *; lia). done.
Qed.

(** Under every interleaving the window holds exactly the most recent
    consecutive sequence numbers, its cursor is in range, and its byte account is the
    sum of what admission reserved. *)
Theorem uplink_window_invariant (mb mm : Z) (inc : string) (u : Uplink) :
  reachable mb mm inc u -> window_ok u.
Proof. intros Hr. by apply reachable_ok in Hr as [? _]. Qed.

(** The window is bounded: it never holds more than [max_messages] messages, and
    its bytes exceed [max_bytes] by at most the newest message. *)
Theorem uplink_window_bounded (mb mm : Z) (inc : string) (u : Uplink) :
  0 < mb -> 0 < mm -> reachable mb mm inc u ->
  Z.of_nat (length (pending (state u))) <= mm
  /\ (bytes (state u) < mb
      \/ exists e, last (pending (state u)) = Some e /\ bytes (state u) < mb + e_bytes e).
Proof.
  intros Hmb Hmm Hr. apply reachable_ok in Hr as (Hw & Hb & <- & <- & _).
  rewrite (wo_bytes u Hw). destruct Hb as [Hb].
  destruct (pending (state u)) as [|e l _] eqn:Hp using rev_ind.
  - simpl. split; [lia|]. left. by unfold Zsum.
  - destruct (Hb l e eq_refl) as [H1 H2]. rewrite length_app, last_snoc. simpl. split; [lia|].
    right. exists e. split; [done|]. rewrite fmap_app, Zsum_app. simpl. rewrite Zsum_cons.
    unfold Zsum at 2. simpl. lia.
Qed.

(** Acknowledgements are cumulative and idempotent: an acknowledgement the window
    has earned retires exactly the messages through it, one beyond the last
    sequence handed out changes nothing, and a second, older one changes nothing. *)
Theorem ack_cumulative (mb mm : Z) (inc : string) (u : Uplink) (s s' : Z) :
  reachable mb mm inc u ->
  (next_seq (state u) < s -> state (ack u s) = state u)
  /\ (s <= next_seq (state u) ->
      pending (state (ack u s)) = filter (fun e => s < seq (e_msg e)) (pending (state u))
      /\ next_seq (state (ack u s)) = next_seq (state u)
      /\ (s' <= s -> state (ack (ack u s) s') = state (ack u s))).
Proof.
  intros Hr. apply reachable_ok in Hr as [Hw _].
  pose proof (ack_spec u s Hw) as Hst.
  pose proof (ack_spec (ack u s) s' (ack_window_ok u s Hw)) as Hst'.
  destruct (Z.ltb_spec (next_seq (state u)) s) as [|Hle]; (split; [done || lia|]); [lia|].
  intros _. split_and!.
  - rewrite Hst. simpl. rewrite <- (take_drop (covered u s) (pending (state u))) at 2.
    rewrite filter_app.
    assert (filter (fun e => s < seq (e_msg e)) (take (covered u s) (pending (state u))) = []) as ->.
    { apply filter_none, Forall_lookup. intros i e [Hi Hlt]%lookup_take_Some.
      rewrite (window_lookup u i e Hw Hi). unfold covered in Hlt. lia. }
    symmetry. apply filter_all, Forall_lookup. intros i e Hi. rewrite lookup_drop in Hi.
    rewrite (window_lookup u _ e Hw Hi). unfold covered in *.
    apply lookup_lt_Some in Hi. lia.
  - by rewrite Hst.
  - intros Hs'. rewrite Hst'. rewrite Hst in *. simpl in *.
    destruct (Z.ltb_spec (next_seq (state u)) s') as [|_]; [done|].
    assert (covered (ack u s) s' = 0%nat) as Hc0.
    { unfold covered, oldest. rewrite Hst. simpl. rewrite length_drop. unfold covered, oldest. lia. }
    by rewrite Hc0, drop_0, Nat.sub_0_r.
Qed.

(** A session that opens replays the whole unacknowledged window, oldest first
    and without skipping anything, and keeps every message in the window. *)
Theorem writer_replays_window (u : Uplink) (n : nat) :
  (length (pending (state u)) <= n)%nat ->
  (SessionWriter_spawn n u).2 = e_msg <$> pending (state u)
  /\ pending (state (SessionWriter_spawn n u).1) = pending (state u).
Proof.
  intros Hn. unfold SessionWriter_spawn. simpl. set (u0 := notify_ready _).
  pose proof (writer_loop_spec n u0) as Hl.
  replace (u64_add (epoch (state u)) 1) with (epoch (state u0)) by done.
  split.
  - rewrite Hl. simpl. by rewrite drop_0, take_ge.
  - assert (pending (state u0) = pending (state u)) as Hp by done. rewrite <- Hp.
    generalize (epoch (state u0)). clear. generalize u0. clear.
    induction n as [|n IH]; intros u ep; [done|]. simpl.
    pose proof (next_unsent_cases u ep) as Hc.
    destruct (next_unsent u ep) as [u' [[m|]|]]; simpl.
    + destruct Hc as (_ & e & _ & _ & Hst & _). specialize (IH u' ep).
      destruct (writer_loop n u' ep). simpl in *. by rewrite IH, Hst.
    + by destruct Hc as (-> & _).
    + by destruct Hc as (-> & _).
Qed.

(** A writer of a superseded epoch is served nothing and cannot move the live
    session's cursor; an acknowledgement keeps the live writer at the same message,
    or at the oldest unacknowledged one when it retired past it. *)
Theorem writer_position (mb mm : Z) (inc : string) (u : Uplink) (ep s : Z) :
  reachable mb mm inc u ->
  (epoch (state u) <> ep ->
     (next_unsent u ep).2 = Ready None /\ state (next_unsent u ep).1 = state u)
  /\ (s <= next_seq (state u) ->
     pending (state (ack u s)) !! cursor (state (ack u s))
     = pending (state u) !! Nat.max (cursor (state u)) (covered u s)).
Proof.
  intros Hr. apply reachable_ok in Hr as [Hw _]. split.
  - intros Hne. unfold next_unsent. destruct (Z.eqb_spec (epoch (state u)) ep); done.
  - intros Hs. rewrite (ack_spec u s Hw).
    destruct (Z.ltb_spec (next_seq (state u)) s) as [|_]; [lia|]. simpl.
    rewrite lookup_drop. f_equal. lia.
Qed.
End Window.

Arguments Ready {A} a.
Arguments Pending {A}.

(** ** A concrete window

    Two messages through a window of the production limits. *)

Module Sample.

#[export] Instance unit_notify : TokioNotify :=
  {| Notify := unit; notify_new := tt; notify_one _ := tt; notify_waiters _ := tt |}.

Definition ten_bytes (_ : AgentMessage nat) : Z := 10.

Definition two_pushed : Uplink (Msg := nat) :=
  (push ten_bytes (push ten_bytes (new "boot") (mkAgentMessage 0 7%nat)).1
        (mkAgentMessage 0 8%nat)).1.

Lemma two_pushed_reachable :
  reachable ten_bytes DEFAULT_MAX_BYTES DEFAULT_MAX_MESSAGES "boot" two_pushed.
Proof.
  apply r_push; [|by vm_compute|by vm_compute].
  apply r_push; [|by vm_compute|by vm_compute]. apply r_new.
Qed.

Lemma push_spec_witness :
  push ten_bytes two_pushed (mkAgentMessage 0 9%nat) =
    (notify_ready (set_state two_pushed
       (mkState 3 (pending (state two_pushed) ++ [mkEntry (mkAgentMessage 3 9%nat) 10]) 0 30 0 false)),
     Ok 3).
Proof. rewrite (push_spec ten_bytes two_pushed) by by vm_compute. reflexivity. Defined.

Lemma uplink_window_invariant_witness :
  window_ok two_pushed /\ pending_seqs two_pushed = [1; 2].
Proof.
  split; [|reflexivity].
  exact (uplink_window_invariant ten_bytes _ _ _ _ two_pushed_reachable).
Defined.

Lemma uplink_window_bounded_witness : Z.of_nat (length (pending (state two_pushed))) <= 4096.
Proof.
  refine (proj1 (uplink_window_bounded ten_bytes _ _ _ _ _ _ two_pushed_reachable)); by vm_compute.
Defined.

Lemma ack_cumulative_witness :
  pending_seqs (ack two_pushed 1) = [2]
  /\ state (ack (ack two_pushed 1) 0) = state (ack two_pushed 1).
Proof.
  split; [reflexivity|].
  refine (proj2 (proj2 (proj2 (ack_cumulative ten_bytes _ _ _ two_pushed 1 0
            two_pushed_reachable) _)) _); by vm_compute.
Defined.

Lemma writer_replays_window_witness :
  (SessionWriter_spawn 5 (ack two_pushed 1)).2 = [mkAgentMessage 2 8%nat].
Proof.
  rewrite (proj1 (writer_replays_window (ack two_pushed 1) 5 ltac:(vm_compute; lia))). reflexivity.
Defined.

Lemma writer_position_witness : (next_unsent two_pushed 3).2 = Ready None.
Proof.
  refine (proj1 (proj1 (writer_position ten_bytes _ _ _ two_pushed 3 1 two_pushed_reachable) _)).
  by vm_compute.
Defined.

End Sample.
