(* ===== verification/Proto.v ===== *)
(** * The coordination protocol
    (crates/loadr-agent/proto/loadr/coordination/v1/coordination.proto, error.rs,
    lib.rs)

    The messages of the session stream as the generated [pb] module has them, the
    error type both ends share, and the path checks of agent.rs that the controller
    and the agent apply to shipped data files and run ids.  [bytes] fields are byte
    strings. *)

From Stdlib Require Import Ascii.
From S2P Require Import Prelude Float64 Str Uplink.

Definition PROTOCOL_VERSION : Z := 4.

Record Register := mkRegister {
  reg_agent_id : string;
  reg_agent_name : string;
  reg_protocol_version : Z;
  reg_loadr_version : string;
  reg_cpu_cores : Z;
  reg_labels : gmap string string;
  reg_resume_run_id : string;
  reg_build_revision : string;
  reg_incarnation : string;
}.

Record Heartbeat := mkHeartbeat {
  hb_active_vus : Z;
  hb_cpu_load : f64;
  hb_run_id : string;
  hb_run_state : string;
}.

Record MetricsBatch := mkMetricsBatch {
  mb_run_id : string;
  mb_delta_json : string;
}.

Record RunEvent := mkRunEvent {
  ev_run_id : string;
  ev_kind : string;
  ev_detail : string;
  ev_summary_json : string;
}.

Record AssignmentReady := mkAssignmentReady {
  ar_run_id : string;
  ar_partition_index : Z;
}.

Record ControlAck := mkControlAck {
  ca_run_id : string;
  ca_command_id : Z;
  ca_action : string;
  ca_scenario : string;
  ca_value : Z;
  ca_applied : bool;
  ca_detail : string;
}.

Inductive AgentMsg :=
| MRegister (r : Register)
| MHeartbeat (hb : Heartbeat)
| MMetrics (batch : MetricsBatch)
| MEvent (ev : RunEvent)
| MControlAck (ack : ControlAck)
| MAssignmentReady (ar : AssignmentReady).

(** [msg] of [pb::AgentMessage] is optional on the wire. *)
Notation UplinkMessage := (AgentMessage (option AgentMsg)).

(** An unsequenced message. *)
Definition agent_msg (m : AgentMsg) : UplinkMessage := mkAgentMessage 0 (Some m).

Record DataFile := mkDataFile {
  df_relative_path : string;
  df_content : string;
}.

Record Assignment := mkAssignment {
  as_run_id : string;
  as_plan_yaml : string;
  as_partition_index : Z;
  as_partition_count : Z;
  as_files : list DataFile;
  as_env : string;
}.

Record Control := mkControl {
  ct_run_id : string;
  ct_action : string;
  ct_scenario : string;
  ct_value : Z;
  ct_command_id : Z;
}.

Inductive CtrlMsg :=
| CRegistered (controller_id : string) (protocol_version : Z) (message : string)
| CAssignment (a : Assignment)
| CStart (run_id : string) (start_unix_ms : Z)
| CControl (c : Control)
| CUplinkAck (seq : Z).

(** [tonic::Status]: its code and message. *)
Inductive Status :=
| Aborted_ (message : string)
| InvalidArgument (message : string)
| FailedPrecondition (message : string).

Inductive AgentError :=
| Config (e : string)
| Transport (e : string)
| Tls (e : string)
| Io (path source : string)
| Security (e : string)
| NoAgents
| AgentsBusy
| UnknownRun (run_id : string)
| NotStarted (run_id : string)
| Engine (e : string)
| ControlFailed (e : string).

Definition control_message (run_id action scenario : string) (value command_id : Z) : CtrlMsg :=
  CControl (mkControl run_id action scenario value command_id).

Definition run_event (run_id kind detail summary_json : string) : UplinkMessage :=
  agent_msg (MEvent (mkRunEvent run_id kind detail summary_json)).

Definition assignment_ready (run_id : string) (partition_index : Z) : UplinkMessage :=
  agent_msg (MAssignmentReady (mkAssignmentReady run_id partition_index)).

(** ** Paths

    [std::path::Path::components] on Unix: the path split at [/]; empty pieces and
    [.] pieces vanish, except a leading [.], which stays a [CurDir]. *)

Inductive Component :=
| RootDir
| CurDir
| ParentDir
| Normal (s : string).

Definition component_of (piece : string) : list Component :=
  if bool_decide (piece = "") then []
  else if bool_decide (piece = ".") then []
  else if bool_decide (piece = "..") then [ParentDir]
  else [Normal piece].

Definition components (path : string) : list Component :=
  let pieces := str_split path "/"%char in
  let head := if starts_with path "/" then [RootDir]
              else match pieces with
                   | "." :: _ => [CurDir]
                   | _ => []
                   end in
  head ++ (pieces ≫= component_of).

Definition is_normal (c : Component) : bool :=
  match c with Normal _ => true | _ => false end.

Definition validate_data_file_path (path : string) : result AgentError unit :=
  if str_is_empty path then Err (Security "empty data file path")
  else if starts_with path "/" || starts_with path "\" then
    Err (Security ("absolute data file path `" +:+ path +:+ "` rejected"))
  else if negb (forallb is_normal (components path)) then
    Err (Security ("data file path `" +:+ path +:+ "` must not contain `..`, `.` or a root"))
  else Ok tt.

(** Lexical resolution of a relative path from a directory: what [dir.join(path)]
    names, absent symbolic links. *)
Definition resolve_step (dir : list string) (c : Component) : list string :=
  match c with
  | RootDir => []
  | CurDir => dir
  | ParentDir => take (length dir - 1) dir
  | Normal s => dir ++ [s]
  end.

Definition resolve (dir : list string) (path : string) : list string :=
  foldl resolve_step dir (components path).

Definition str_contains (s p : string) : bool := bool_decide (is_Some (str_find s p)).

Definition validate_run_id (run_id : string) : result AgentError unit :=
  if str_is_empty run_id || str_contains run_id "/" || str_contains run_id "\"
     || str_contains run_id ".."
  then Err (Security ("invalid run id `" +:+ run_id +:+ "`"))
  else Ok tt.

(** ** Properties *)

Lemma resolve_normal (cs : list Component) (dir : list string) :
  forallb is_normal cs = true ->
  exists names, foldl resolve_step dir cs = dir ++ names /\ length names = length cs
                /\ cs = Normal <$> names.
Proof.
  revert dir. induction cs as [|c cs IH]; intros dir; simpl.
  - intros _. exists []. by rewrite app_nil_r.
  - intros [Hc Hcs]%andb_prop. destruct c as [| | |s]; try done. simpl.
    destruct (IH (dir ++ [s]) Hcs) as (names & -> & <- & ->).
    exists (s :: names). by rewrite <- app_assoc.
Qed.

Lemma split_l_cons (c : ascii) (s : list ascii) :
  exists p ps, split_l c s = p :: ps /\ (p = [] -> s = [] \/ exists s', s = c :: s').
Proof.
  destruct s as [|a s]; simpl; [by eexists [], []; auto|].
  destruct (Ascii.eqb_spec a c) as [->|]; [by eexists [], _; eauto|].
  destruct (split_l c s) as [|q qs]; [by eexists [a], []|]. by eexists (a :: q), qs.
Qed.

Lemma split_l_no_sep (c : ascii) (l p : list ascii) : p ∈ split_l c l -> c ∉ p.
Proof.
  revert p. induction l as [|a l IH]; intros p; simpl.
  { by intros ->%list_elem_of_singleton ?%not_elem_of_nil. }
  destruct (Ascii.eqb_spec a c) as [->|].
  { intros [->|?]%elem_of_cons; [by intros ?%not_elem_of_nil|auto]. }
  destruct (split_l c l) as [|q qs].
  { intros ->%list_elem_of_singleton ->%list_elem_of_singleton. done. }
  intros [->|Hin]%elem_of_cons; [|apply IH; by right].
  intros [->|Hq]%elem_of_cons; [done|]. by apply (IH q); [left|].
Qed.

Lemma component_of_normal (piece n : string) :
  Normal n ∈ component_of piece -> n = piece /\ n <> "" /\ n <> "." /\ n <> "..".
Proof.
  unfold component_of. repeat case_bool_decide; intros Hn;
    first [by apply not_elem_of_nil in Hn | apply list_elem_of_singleton in Hn; by simplify_eq].
Qed.

Lemma components_names (path n : string) :
  Normal n ∈ components path -> n <> "" /\ n <> "." /\ n <> ".." /\ "/"%char ∉ chars n.
Proof.
  unfold components. rewrite elem_of_app, list_elem_of_bind. intros [Hh|(p & Hn & Hp)].
  - destruct (starts_with path "/"); [set_solver|].
    by repeat case_match; apply list_elem_of_singleton in Hh || apply not_elem_of_nil in Hh.
  - apply component_of_normal in Hn as (-> & ? & ? & ?). split_and!; try done.
    unfold str_split in Hp. apply list_elem_of_fmap in Hp as (l & -> & Hl).
    rewrite chars_of_chars. by eapply split_l_no_sep.
Qed.

Lemma components_nonempty (path : string) :
  str_is_empty path = false -> starts_with path "/" = false -> components path <> [].
Proof.
  unfold str_is_empty, components. intros He%bool_decide_eq_false Hs. rewrite Hs.
  unfold str_split. destruct (split_l_cons "/"%char (chars path)) as (p & ps & -> & Hp). simpl.
  destruct (decide (of_chars p = ".")) as [->|Hdot]; [done|].
  assert (of_chars p <> "") as Hne.
  { intros Hp0. destruct Hp as [Hnil|[s' Hs']].
    - by destruct p.
    - apply He. by apply chars_inj.
    - assert (starts_with path "/" = true) as Ht; [|by rewrite Hs in Ht].
      apply starts_with_spec. exists (of_chars s'). apply chars_inj.
      by rewrite chars_app, chars_of_chars, Hs'. }
  unfold component_of. rewrite !bool_decide_false by done.
  case_bool_decide; repeat case_match; done.
Qed.

(** A data-file path the check accepts resolves strictly below the run
    directory: it appends at least one name, every name is a plain one, and nothing
    of the directory itself is left. *)
Theorem data_file_path_contained (path : string) (dir : list string) :
  validate_data_file_path path = Ok tt ->
  exists names, resolve dir path = dir ++ names /\ names <> []
    /\ Forall (fun n => n <> "" /\ n <> "." /\ n <> ".." /\ ("/"%char ∉ chars n)) names.
Proof.
  unfold validate_data_file_path, resolve.
  destruct (str_is_empty path) eqn:He; [done|].
  destruct (starts_with path "/") eqn:Hs; [done|]. simpl.
  destruct (starts_with path "\"); [done|].
  destruct (forallb is_normal (components path)) eqn:Hn; [|done]. intros _.
  destruct (resolve_normal _ dir Hn) as (names & -> & Hl & Hc). exists names. split_and!; [done| |].
  - intros ->. by apply (components_nonempty path).
  - apply Forall_forall. intros n Hn'. apply (components_names path). rewrite Hc.
    by apply list_elem_of_fmap_2.
Qed.

Lemma data_file_path_contained_witness :
  exists names, resolve ["work"; "run-1"] "data/users.csv" = ["work"; "run-1"] ++ names
    /\ names <> []
    /\ Forall (fun n => n <> "" /\ n <> "." /\ n <> ".." /\ ("/"%char ∉ chars n)) names.
Proof. exact (data_file_path_contained "data/users.csv" ["work"; "run-1"] eq_refl). Defined.
