(* ===== verification/Dur.v ===== *)
(** * Numbers and durations in text (crates/loadr-config/src/duration.rs)

    [str::parse::<f64>], [str::parse::<i64>] and [Duration::from_secs_f64] of the
    standard library, then [Dur::parse].  A Rust panic is [None]; [humantime] is a
    parameter. *)

From Stdlib Require Import Ascii SpecFloat.
From S2P Require Import Prelude Float64 Str.

(** A computation that may panic. *)
Notation may_panic A := (option A) (only parsing).

(** ** [str::parse] for numbers *)

Definition is_digit (c : ascii) : bool := N.leb 48 (N_of_ascii c) && N.leb (N_of_ascii c) 57.
Definition digit_val (c : ascii) : Z := Z.of_N (N_of_ascii c) - 48.

Fixpoint take_digits (l : list ascii) : list ascii * list ascii :=
  match l with
  | c :: l' => if is_digit c then let '(d, r) := take_digits l' in (c :: d, r) else ([], l)
  | [] => ([], [])
  end.

Definition digits_val (l : list ascii) : Z := foldl (fun acc c => 10 * acc + digit_val c) 0 l.

(** An optional sign: whether it is [-], and the rest. *)
Definition take_sign (l : list ascii) : bool * list ascii :=
  match l with
  | "-"%char :: r => (true, r)
  | "+"%char :: r => (false, r)
  | _ => (false, l)
  end.

(** [m * 10^e] rounded to the nearest double. *)
Definition f64_of_decimal (neg : bool) (m e : Z) : f64 :=
  if Z.eqb m 0 then S754_zero neg
  else if Z.leb 0 e then binary_normalize 53 1024 (if neg then - (m * 10 ^ e) else m * 10 ^ e) 0 neg
  else
    let '(mz, ez, lz) := SFdiv_core_binary 53 1024 m 0 (10 ^ (- e)) 0 in
    binary_round_aux 53 1024 neg mz ez lz.

(** The exponent suffix: absent, or [e] with an optional sign and digits. *)
Definition parse_exponent (l : list ascii) : option Z :=
  match l with
  | [] => Some 0
  | c :: r =>
      if Ascii.eqb (ascii_lower c) "e"%char then
        let '(neg, r) := take_sign r in
        let '(d, rest) := take_digits r in
        match d, rest with
        | _ :: _, [] => Some (if neg then - digits_val d else digits_val d)
        | _, _ => None
        end
      else None
  end.

Definition parse_number (neg : bool) (l : list ascii) : option f64 :=
  let '(int, r) := take_digits l in
  let '(frac, r) := match r with
                    | "."%char :: r' => take_digits r'
                    | _ => ([], r)
                    end in
  match int ++ frac with
  | [] => None
  | ds => (fun e => f64_of_decimal neg (digits_val ds) (e - Z.of_nat (length frac)))
            <$> parse_exponent r
  end.

Definition parse_f64 (s : string) : option f64 :=
  let '(neg, r) := take_sign (chars s) in
  let lower := to_ascii_lowercase (of_chars r) in
  if bool_decide (lower = "inf") || bool_decide (lower = "infinity") then Some (S754_infinity neg)
  else if bool_decide (lower = "nan") then Some S754_nan
  else parse_number neg r.

Definition parse_i64 (s : string) : option Z :=
  let '(neg, r) := take_sign (chars s) in
  match take_digits r with
  | ((_ :: _) as d, []) =>
      let v := if neg then - digits_val d else digits_val d in
      if Z.leb (- 2 ^ 63) v && Z.ltb v (2 ^ 63) then Some v else None
  | _ => None
  end.

(** ** [Duration::from_secs_f64]

    Rounds to the nearest nanosecond, ties to even; panics on a negative, infinite
    or NaN argument and at 2^64 seconds. *)

Definition div_half_even (n d : Z) : Z :=
  let q := n / d in
  let r := n `mod` d in
  if Z.ltb (2 * r) d then q
  else if Z.ltb d (2 * r) then q + 1
  else if Z.even q then q else q + 1.

Definition from_secs_f64 (secs : f64) : may_panic Duration :=
  match secs with
  | S754_zero _ => Some 0
  | S754_finite false m e =>
      let ns := if Z.leb 0 e then Z.pos m * 2 ^ e * NANOS_PER_SEC
                else div_half_even (Z.pos m * NANOS_PER_SEC) (2 ^ (- e)) in
      if Z.ltb ns (u64_modulus * NANOS_PER_SEC) then Some ns else None
  | _ => None
  end.

Section Dur.
(** [humantime::parse_duration]. *)
Context (humantime_parse_duration : string -> result string Duration).

Definition Dur_parse (s : string) : may_panic (result string Duration) :=
  let trimmed := trim s in
  match parse_f64 trimmed with
  | Some secs =>
      if f64_lt secs f64_zero || negb (f64_is_finite secs) then
        Some (Err ("duration must be a non-negative number, got `" +:+ s +:+ "`"))
      else Ok <$> from_secs_f64 secs
  | None =>
      Some (result_map_err
        (fun e => "invalid duration `" +:+ s +:+ "`: " +:+ e +:+ " (try e.g. `500ms`, `30s`, `1m30s`)")
        (humantime_parse_duration trimmed))
  end.

(** A bare number of seconds.  [Dur::parse] rejects negative, infinite and NaN
    numbers with an error, returns any other number below 2^64 seconds, and panics
    on the finite numbers from 2^64 seconds on (up to the rounding to a nanosecond). *)
Theorem Dur_parse_number (s : string) (secs : f64) :
  parse_f64 (trim s) = Some secs ->
  match Dur_parse s with
  | Some (Ok d) => from_secs_f64 secs = Some d /\ f64_is_finite secs = true /\ f64_lt secs f64_zero = false
  | Some (Err _) => f64_lt secs f64_zero = true \/ f64_is_finite secs = false
  | None => f64_is_finite secs = true /\ exists m e, secs = S754_finite false m e /\ u64_modulus <= f64_trunc_Z secs + 1
  end.
Proof.
  intros Hp. unfold Dur_parse. rewrite Hp.
  destruct (f64_lt secs f64_zero) eqn:Hlt; simpl; [by left|].
  destruct (f64_is_finite secs) eqn:Hf; simpl; [|by right].
  destruct secs as [sg|sg| |sg m e]; try done.
  destruct sg; [done|]. unfold from_secs_f64.
  set (ns := if Z.leb 0 e then _ else _). destruct (Z.ltb_spec ns (u64_modulus * NANOS_PER_SEC)); simpl; [done|].
  split; [done|]. exists m, e. split; [done|]. simpl. subst ns.
  destruct (Z.leb_spec 0 e).
  - unfold NANOS_PER_SEC in *. lia.
  - unfold div_half_even, NANOS_PER_SEC in *. set (d := 2 ^ - e) in *.
    assert (0 < d) by (subst d; apply Z.pow_pos_nonneg; lia).
    pose proof (Z.div_mod (Z.pos m) d ltac:(lia)). pose proof (Z.mod_pos_bound (Z.pos m) d ltac:(lia)).
    pose proof (Z.div_mod (Z.pos m * 1000000000) d ltac:(lia)).
    pose proof (Z.mod_pos_bound (Z.pos m * 1000000000) d ltac:(lia)).
    assert (u64_modulus * 1000000000 <= Z.pos m * 1000000000 / d + 1) by
      (repeat case_match; bool_to_prop; lia).
    unfold u64_modulus in *. nia.
Qed.

(** The panic is reachable from a plan's text: [1e20] parses as a number, is
    positive and finite, and does not fit a [Duration]. *)
Example Dur_parse_panics : Dur_parse "1e20" = None.
Proof. vm_compute. reflexivity. Qed.
End Dur.

Example parse_i64_ok : parse_i64 "-42" = Some (-42) /\ parse_i64 "+7" = Some 7 /\ parse_i64 "4x" = None.
Proof. vm_compute. done. Qed.

Example parse_f64_ok :
  parse_f64 "99.9" = Some (f64_dec 999 1) /\ parse_f64 "-1.5e3" = Some (f64_of_Z (-1500))
  /\ parse_f64 ".5" = Some (f64_dec 5 1) /\ parse_f64 "1." = Some (f64_of_Z 1)
  /\ parse_f64 "." = None /\ parse_f64 "" = None /\ parse_f64 "1e" = None
  /\ parse_f64 "NaN" = Some S754_nan /\ parse_f64 "-inf" = Some f64_neg_infinity
  /\ parse_f64 "0.1" = Some (f64_dec 1 1).
Proof. vm_compute. repeat split. Qed.

Lemma Dur_parse_number_witness :
  parse_f64 (trim "1.5") = Some (f64_dec 15 1)
  /\ from_secs_f64 (f64_dec 15 1) = Some 1500000000.
Proof.
  split; [vm_compute; reflexivity|].
  exact (proj1 (Dur_parse_number (fun _ => Err "unused") "1.5" (f64_dec 15 1)
                  ltac:(vm_compute; reflexivity))).
Defined.
