(* ===== verification/Threshold.v ===== *)
(** * Threshold expressions (crates/loadr-config/src/threshold.rs)

    [ThresholdExpr::parse] and [MetricSelector::parse] with every error of the
    source, [Op::eval], and the selector's [Display].  A threshold bound may be a
    duration, so parsing inherits [humantime] and the panic of [Dur::parse]. *)

From Stdlib Require Import Ascii.
From S2P Require Import Prelude Float64 Str Dur.

Inductive ThresholdParseError :=
| Empty
| UnknownAgg (s : string)
| BadPercentile (s : string)
| BadSlo (s : string)
| UnsupportedSlo (s : string)
| MissingOp (s : string)
| BadNumber (s : string)
| BadSelector (s why : string).

(** [Display], derived by [thiserror]. *)
Definition ThresholdParseError_to_string (e : ThresholdParseError) : string :=
  match e with
  | Empty => "empty threshold expression"
  | UnknownAgg s =>
      "unknown aggregation `" +:+ s
      +:+ "` (expected one of: avg, min, max, med, p(N), rate, count, value, slo(N%))"
  | BadPercentile s => "invalid percentile `" +:+ s +:+ "`: must be a number in (0, 100]"
  | BadSlo s =>
      "invalid slo objective `" +:+ s
      +:+ "`: must be one of 50, 90, 95, 99, 99.9 (percent sign optional)"
  | UnsupportedSlo s =>
      "slo(" +:+ s +:+ "%) unsupported: histogram summary carries p50/p90/p95/p99/p99.9"
  | MissingOp s =>
      "missing comparison operator in `" +:+ s +:+ "` (expected <, <=, >, >=, ==, or !=)"
  | BadNumber s => "invalid numeric bound `" +:+ s +:+ "`"
  | BadSelector s why => "invalid metric selector `" +:+ s +:+ "`: " +:+ why
  end.

Inductive Agg :=
| Avg
| Min
| Max
| Med
| Percentile (p : f64)
| ARate
| Count
| Value
| Slo (n : f64).

#[export] Instance Agg_eq_dec : EqDecision Agg.
Proof. solve_decision. Defined.

Definition SUPPORTED_SLO_POINTS : list f64 :=
  [f64_of_Z 50; f64_of_Z 90; f64_of_Z 95; f64_of_Z 99; f64_dec 999 1].

(** The literal [1e-9]. *)
Definition NANO : f64 := f64_dec 1 9.

(** [(a - b).abs() < 1e-9]. *)
Definition f64_near (a b : f64) : bool := f64_lt (f64_abs (f64_sub a b)) NANO.

Inductive Op :=
| Lt
| Le
| Gt
| Ge
| OEq
| Ne.

#[export] Instance Op_eq_dec : EqDecision Op.
Proof. solve_decision. Defined.

Definition Op_eval (op : Op) (lhs rhs : f64) : bool :=
  match op with
  | Lt => f64_lt lhs rhs
  | Le => f64_le lhs rhs
  | Gt => f64_gt lhs rhs
  | Ge => f64_ge lhs rhs
  | OEq => f64_lt (f64_abs (f64_sub lhs rhs)) f64_EPSILON
  | Ne => f64_ge (f64_abs (f64_sub lhs rhs)) f64_EPSILON
  end.

Definition Op_to_string (op : Op) : string :=
  match op with
  | Lt => "<" | Le => "<=" | Gt => ">" | Ge => ">=" | OEq => "==" | Ne => "!="
  end.

Record ThresholdExpr := mkThresholdExpr {
  te_agg : Agg;
  te_op : Op;
  te_bound : f64;
}.

(** The operator table, two-character operators first. *)
Definition ops : list (string * Op) :=
  [("<=", Le); (">=", Ge); ("==", OEq); ("!=", Ne); ("<", Lt); (">", Gt); ("=", OEq)].

(** The loop over the table: the leftmost operator, the earlier entry on a tie. *)
Definition find_op (s : string) : option (nat * nat * Op) :=
  foldl (fun found '(tok, op) =>
           match str_find s tok with
           | Some idx =>
               match found with
               | Some (fidx, _, _) =>
                   if Nat.leb fidx idx then found else Some (idx, str_len tok, op)
               | None => Some (idx, str_len tok, op)
               end
           | None => found
           end) None ops.

Definition parse_slo (inner : string) : result ThresholdParseError Agg :=
  let inner := trim inner in
  let num := trim (default inner (strip_suffix inner "%")) in
  let? n := ok_or (parse_f64 num) (BadSlo inner) in
  if negb (f64_is_finite n) || f64_le n f64_zero || f64_ge n (f64_of_Z 100) then
    Err (BadSlo inner)
  else if negb (existsb (fun p => f64_near p n) SUPPORTED_SLO_POINTS) then
    Err (UnsupportedSlo num)
  else Ok (Slo n).

Definition parse_agg (s : string) : result ThresholdParseError Agg :=
  if bool_decide (s = "avg") then Ok Avg
  else if bool_decide (s = "min") then Ok Min
  else if bool_decide (s = "max") then Ok Max
  else if bool_decide (s = "med") then Ok Med
  else if bool_decide (s = "rate") then Ok ARate
  else if bool_decide (s = "count") then Ok Count
  else if bool_decide (s = "value") then Ok Value
  else
    match (rest ← strip_prefix s "p("; strip_suffix rest ")") with
    | Some inner =>
        let? p := ok_or (parse_f64 (trim inner)) (BadPercentile inner) in
        if f64_le p f64_zero || f64_gt p (f64_of_Z 100) then Err (BadPercentile inner)
        else Ok (Percentile p)
    | None =>
        match (rest ← strip_prefix s "slo("; strip_suffix rest ")") with
        | Some inner => parse_slo inner
        | None => Err (UnknownAgg s)
        end
    end.

Section Parse.
Context (humantime_parse_duration : string -> result string Duration).

Definition parse_bound (s : string) : may_panic (result ThresholdParseError f64) :=
  match parse_f64 s with
  | Some v => Some (Ok v)
  | None =>
      (fun r => match r with
                | Ok d => Ok (f64_mul (as_secs_f64 d) (f64_of_Z 1000))
                | Err _ => Err (BadNumber s)
                end) <$> Dur_parse humantime_parse_duration s
  end.

Definition ThresholdExpr_parse (s : string) : may_panic (result ThresholdParseError ThresholdExpr) :=
  let s := trim s in
  if str_is_empty s then Some (Err Empty)
  else
    match find_op s with
    | None => Some (Err (MissingOp s))
    | Some (idx, len, op) =>
        let lhs := trim (slice_to s idx) in
        let rhs := trim (slice_from s (idx + len)) in
        match parse_agg lhs with
        | Err e => Some (Err e)
        | Ok agg =>
            (fun rb => let? bound := rb in Ok (mkThresholdExpr agg op bound)) <$> parse_bound rhs
        end
    end.
End Parse.

Record MetricSelector := mkMetricSelector {
  ms_metric : string;
  ms_tags : list (string * string);
}.

(** [Ord] on pairs of strings. *)
Definition pair_le (p q : string * string) : Prop :=
  match str_compare p.1 q.1 with
  | Datatypes.Lt => True
  | Datatypes.Gt => False
  | Datatypes.Eq => str_le p.2 q.2
  end.
#[export] Instance pair_le_dec (p q : string * string) : Decision (pair_le p q).
Proof. unfold pair_le. destruct (str_compare p.1 q.1); apply _. Defined.

Fixpoint parse_tags (s : string) (tags_text : list string) : result ThresholdParseError (list (string * string)) :=
  match tags_text with
  | [] => Ok []
  | tag :: rest =>
      let tag := trim tag in
      if str_is_empty tag then parse_tags s rest
      else
        match split_once tag ":"%char with
        | None => Err (BadSelector s ("tag `" +:+ tag +:+ "` must be `key:value`"))
        | Some (k, v) =>
            let? tags := parse_tags s rest in Ok ((trim k, trim v) :: tags)
        end
  end.

Definition MetricSelector_parse (s : string) : result ThresholdParseError MetricSelector :=
  let s := trim s in
  match str_find s "{" with
  | Some opn =>
      let? cls := ok_or (str_rfind s "}"%char) (BadSelector s "missing closing `}`") in
      if Nat.ltb cls opn then Err (BadSelector s "`}` before `{`")
      else
        let metric := trim (slice_to s opn) in
        if str_is_empty metric then Err (BadSelector s "empty metric name")
        else
          let? tags := parse_tags s (str_split (slice s (opn + 1) cls) ","%char) in
          Ok (mkMetricSelector metric (merge_sort pair_le tags))
  | None =>
      if str_is_empty s then Err (BadSelector s "empty metric name")
      else Ok (mkMetricSelector s [])
  end.

Definition tag_to_string (kv : string * string) : string := kv.1 +:+ ":" +:+ kv.2.

Definition MetricSelector_to_string (sel : MetricSelector) : string :=
  ms_metric sel +:+
  (if bool_decide (ms_tags sel = []) then ""
   else "{" +:+ join "," (tag_to_string <$> ms_tags sel) +:+ "}").

Example parse_slo_ok :
  ThresholdExpr_parse (fun _ => Ok 300000000) " slo(99.9%) <= 300ms"
  = Some (Ok (mkThresholdExpr (Slo (f64_dec 999 1)) Le (f64_of_Z 300))).
Proof. vm_compute. reflexivity. Qed.
Example parse_selector_ok :
  MetricSelector_parse "http_req_duration{scenario: browse, method:GET}"
  = Ok (mkMetricSelector "http_req_duration" [("method", "GET"); ("scenario", "browse")]).
Proof. vm_compute. reflexivity. Qed.

(** ** The printed selector *)

(** The names the printed form can carry: visible text without the selector's own
    punctuation. *)
Definition name_char (c : ascii) : bool :=
  visible c && negb (Ascii.eqb c "{") && negb (Ascii.eqb c "}") && negb (Ascii.eqb c ",")
  && negb (Ascii.eqb c ":").
Definition plain_name (s : string) : Prop := s <> "" /\ Forall (fun c => name_char c = true) (chars s).

Record selector_ok (sel : MetricSelector) : Prop := {
  so_metric : plain_name (ms_metric sel);
  so_tags : Forall (fun kv => plain_name kv.1 /\ plain_name kv.2) (ms_tags sel);
  so_sorted : merge_sort pair_le (ms_tags sel) = ms_tags sel;
}.

Lemma plain_name_test (s : string) :
  negb (str_is_empty s) && forallb name_char (chars s) = true -> plain_name s.
Proof.
  unfold str_is_empty. intros [Hs Hc]%andb_prop. bool_to_prop. split; [done|].
  apply Forall_forall. intros c Hin. rewrite List.forallb_forall in Hc. apply Hc.
  by apply list_elem_of_In.
Qed.

Lemma name_char_visible (c : ascii) : name_char c = true -> visible c = true.
Proof. unfold name_char. by intros [[[[? ?]%andb_prop ?]%andb_prop ?]%andb_prop ?]%andb_prop. Qed.

Lemma plain_name_no (s : string) (c : ascii) : plain_name s -> name_char c = false -> c ∉ chars s.
Proof.
  intros [_ Hs] Hc Hin. rewrite Forall_forall in Hs. specialize (Hs c Hin). by rewrite Hc in Hs.
Qed.

Lemma plain_name_head (s : string) (c : ascii) :
  plain_name s -> head (chars s) = Some c -> visible c = true.
Proof.
  intros [_ Hs] Hh. apply name_char_visible. rewrite Forall_forall in Hs. apply Hs.
  rewrite head_lookup in Hh. by apply list_elem_of_lookup_2 in Hh.
Qed.

Lemma plain_name_last (s : string) (c : ascii) :
  plain_name s -> last (chars s) = Some c -> visible c = true.
Proof.
  intros [_ Hs] Hh. apply name_char_visible. rewrite Forall_forall in Hs. apply Hs.
  rewrite last_lookup in Hh. by apply list_elem_of_lookup_2 in Hh.
Qed.

Lemma plain_name_trim (s : string) : plain_name s -> trim s = s.
Proof. intros Hs. apply trim_visible; intros c; [by apply plain_name_head|by apply plain_name_last]. Qed.

Lemma plain_name_chars (s : string) : plain_name s -> chars s <> [].
Proof. intros [Hs _] Hc. apply Hs. by apply chars_inj. Qed.

Lemma head_app_ne {A : Type} (l r : list A) : l <> [] -> head (l ++ r) = head l.
Proof. by destruct l. Qed.

Lemma last_app_ne {A : Type} (l r : list A) : r <> [] -> last (l ++ r) = last r.
Proof. intros Hr. rewrite last_app. destruct (last r) eqn:Hl; [done|]. by apply last_None in Hl. Qed.

Lemma tag_chars (k v : string) : chars (tag_to_string (k, v)) = chars k ++ ":"%char :: chars v.
Proof. unfold tag_to_string. by rewrite !chars_app. Qed.

(** One printed tag is read back. *)
Lemma parse_tag_printed (k v : string) :
  plain_name k -> plain_name v ->
  trim (tag_to_string (k, v)) = tag_to_string (k, v)
  /\ split_once (tag_to_string (k, v)) ":"%char = Some (k, v).
Proof.
  intros Hk Hv. split.
  - apply trim_visible; rewrite tag_chars; intros c.
    + rewrite head_app_ne by by apply plain_name_chars. by apply plain_name_head.
    + rewrite last_app_ne by done. rewrite last_cons.
      destruct (last (chars v)) eqn:Hl; [|by apply last_None in Hl; apply plain_name_chars in Hv].
      intros [= <-]. by eapply plain_name_last.
  - unfold split_once. rewrite tag_chars, split_once_l_app by by apply plain_name_no.
    simpl. by rewrite !of_chars_chars.
Qed.

Lemma parse_tags_printed (s : string) (tags : list (string * string)) :
  Forall (fun kv => plain_name kv.1 /\ plain_name kv.2) tags ->
  parse_tags s (tag_to_string <$> tags) = Ok tags.
Proof.
  induction 1 as [|[k v] tags [Hk Hv] _ IH]; [done|]. cbn [fmap list_fmap parse_tags].
  destruct (parse_tag_printed k v Hk Hv) as [-> ->].
  assert (str_is_empty (tag_to_string (k, v)) = false) as ->.
  { unfold str_is_empty. apply bool_decide_eq_false. intros Hc.
    apply (f_equal chars) in Hc. rewrite tag_chars in Hc. by destruct (chars k). }
  rewrite IH. simpl. by rewrite !plain_name_trim.
Qed.

Lemma tag_no_comma (kv : string * string) :
  plain_name kv.1 /\ plain_name kv.2 -> ","%char ∉ chars (tag_to_string kv).
Proof.
  destruct kv as [k v]. intros [Hk Hv]. rewrite tag_chars, elem_of_app, elem_of_cons.
  intros [?|[?|?]]; [by eapply plain_name_no in Hk|done|by eapply plain_name_no in Hv].
Qed.

(** A selector with plain names and sorted tags survives printing: parsing what
    [Display] writes gives the selector back. *)
Theorem selector_roundtrip (sel : MetricSelector) :
  selector_ok sel -> MetricSelector_parse (MetricSelector_to_string sel) = Ok sel.
Proof.
  destruct sel as [metric tags]. intros [Hm Ht Hs]. simpl in *.
  unfold MetricSelector_parse, MetricSelector_to_string. simpl.
  destruct (decide (tags = [])) as [->|Hne].
  - rewrite bool_decide_true by done.
    assert (metric +:+ "" = metric) as -> by (apply chars_inj; by rewrite chars_app, app_nil_r).
    rewrite plain_name_trim by done.
    unfold str_find. change (chars "{") with ["{"%char]. rewrite find_l_char_None by by apply (plain_name_no metric "{"%char).
    unfold str_is_empty. rewrite bool_decide_false by apply Hm. done.
  - rewrite bool_decide_false by done. set (body := join "," (tag_to_string <$> tags)).
    set (s := metric +:+ "{" +:+ body +:+ "}").
    assert (chars s = chars metric ++ "{"%char :: chars body ++ ["}"%char]) as Hc
      by (subst s; by rewrite !chars_app).
    assert (trim s = s) as ->.
    { apply trim_visible; rewrite Hc; intros c.
      - rewrite head_app_ne by by apply plain_name_chars. by apply plain_name_head.
      - rewrite app_comm_cons, app_assoc, last_snoc. by intros [= <-]. }
    assert (str_find s "{" = Some (length (chars metric))) as ->.
    { unfold str_find. rewrite Hc. by apply find_l_char_app, plain_name_no. }
    assert (str_rfind s "}"%char = Some (length (chars metric) + S (length (chars body)))%nat) as ->.
    { unfold str_rfind. rewrite Hc, app_comm_cons, app_assoc, rfind_l_snoc.
      by rewrite length_app. }
    simpl ok_or. cbn [result_bind].
    destruct (Nat.ltb_spec (length (chars metric) + S (length (chars body))) (length (chars metric))); [lia|].
    assert (slice_to s (length (chars metric)) = metric) as ->.
    { unfold slice_to. by rewrite Hc, take_app_length, of_chars_chars. }
    rewrite plain_name_trim by done. unfold str_is_empty. rewrite bool_decide_false by apply Hm.
    assert (slice s (length (chars metric) + 1) (length (chars metric) + S (length (chars body))) = body) as ->.
    { unfold slice. rewrite Hc, drop_app_add. simpl.
      replace (_ + S _ - _)%nat with (length (chars body)) by lia.
      rewrite drop_0, take_app_length. apply of_chars_chars. }
    unfold body. change "," with (of_chars [","%char]). rewrite split_join.
    + rewrite parse_tags_printed by done. simpl. by rewrite Hs.
    + by destruct tags.
    + apply Forall_fmap. eapply Forall_impl; [done|]. apply tag_no_comma.
Qed.

Lemma selector_roundtrip_witness :
  MetricSelector_parse "http_req_duration{method:GET,scenario:browse}"
  = Ok (mkMetricSelector "http_req_duration" [("method", "GET"); ("scenario", "browse")]).
Proof.
  refine (selector_roundtrip
            (mkMetricSelector "http_req_duration" [("method", "GET"); ("scenario", "browse")]) _).
  split; [by apply plain_name_test| |by vm_compute].
  by repeat constructor; apply plain_name_test.
Defined.

(** ** The operator search *)

(** The best operator among the table entries already tried. *)
Definition best_op (s : string) (tried : list (string * Op)) (found : option (nat * nat * Op)) : Prop :=
  match found with
  | None => forall tok op, (tok, op) ∈ tried -> str_find s tok = None
  | Some (idx, len, op) =>
      exists tok, (tok, op) ∈ tried /\ len = str_len tok /\ str_find s tok = Some idx
      /\ forall tok' op' idx', (tok', op') ∈ tried -> str_find s tok' = Some idx' ->
         (idx < idx')%nat \/ idx = idx' /\ (str_len tok' <= len)%nat
  end.

Lemma best_op_step (s : string) (tried : list (string * Op)) found (tok : string) (op : Op) :
  Forall (fun e => (str_len tok <= str_len e.1)%nat) tried ->
  best_op s tried found ->
  best_op s (tried ++ [(tok, op)])
    (match str_find s tok with
     | Some idx =>
         match found with
         | Some (fidx, _, _) => if Nat.leb fidx idx then found else Some (idx, str_len tok, op)
         | None => Some (idx, str_len tok, op)
         end
     | None => found
     end).
Proof.
  intros Hlen Hb. rewrite Forall_forall in Hlen.
  assert (forall x : string * Op, x ∈ tried ++ [(tok, op)] <-> x ∈ tried \/ x = (tok, op)) as Hin
    by (intros x; by rewrite elem_of_app, list_elem_of_singleton).
  destruct (str_find s tok) as [idx|] eqn:Hf.
  - destruct found as [[[fidx len] fop]|]; simpl in *.
    + destruct Hb as (t & Ht & -> & Htf & Hmin).
      destruct (Nat.leb_spec fidx idx).
      * exists t. rewrite Hin. split_and!; auto. intros t' op' idx' Hi Hf'.
        apply Hin in Hi as [Hi|[= -> ->]]; [eauto|]. rewrite Hf in Hf'. injection Hf' as <-.
        specialize (Hlen _ Ht). simpl in Hlen. lia.
      * exists tok. rewrite Hin. split_and!; auto. intros t' op' idx' Hi Hf'.
        apply Hin in Hi as [Hi|[= -> ->]].
        -- destruct (Hmin _ _ _ Hi Hf'); lia.
        -- rewrite Hf in Hf'. injection Hf' as <-. lia.
    + exists tok. rewrite Hin. split_and!; auto. intros t' op' idx' Hi Hf'.
      apply Hin in Hi as [Hi|[= -> ->]]; [by rewrite (Hb _ _ Hi) in Hf'|].
      rewrite Hf in Hf'. injection Hf' as <-. lia.
  - destruct found as [[[fidx len] fop]|]; simpl in *.
    + destruct Hb as (t & Ht & -> & Htf & Hmin). exists t. rewrite Hin. split_and!; auto.
      intros t' op' idx' Hi Hf'. apply Hin in Hi as [Hi|[= -> ->]]; [eauto|congruence].
    + intros t' op' Hi. apply Hin in Hi as [Hi|[= -> ->]]; eauto.
Qed.

Lemma best_op_fold (s : string) (l tried : list (string * Op)) found :
  best_op s tried found ->
  StronglySorted (fun a b : string * Op => (str_len b.1 <= str_len a.1)%nat) (tried ++ l) ->
  best_op s (tried ++ l)
    (foldl (fun found '(tok, op) =>
           match str_find s tok with
           | Some idx =>
               match found with
               | Some (fidx, _, _) =>
                   if Nat.leb fidx idx then found else Some (idx, str_len tok, op)
               | None => Some (idx, str_len tok, op)
               end
           | None => found
           end) found l).
Proof.
  revert tried found. induction l as [|[tok op] l IH]; intros tried found Hb Hs; simpl.
  - by rewrite app_nil_r.
  - rewrite (cons_middle _ tried), app_assoc in *. apply IH; [|done].
    apply best_op_step; [|done]. clear -Hs. rewrite <- app_assoc in Hs.
    induction tried as [|e tried IHt]; [constructor|]. simpl in Hs.
    apply StronglySorted_inv in Hs as [Hs Hf]. constructor; [|by auto].
    rewrite Forall_forall in Hf. apply (Hf (tok, op)). set_solver.
Qed.

(** The operator of a threshold expression is the leftmost one of the text, and
    the longest of those that start there ([<=] is never read as [<]); an expression is
    reported to lack an operator only when none of the table occurs in it. *)
Theorem threshold_operator (s : string) : best_op s ops (find_op s).
Proof.
  apply (best_op_fold s ops [] None).
  - intros tok op Hn. by apply not_elem_of_nil in Hn.
  - by repeat constructor.
Qed.

(** [p(nan)] parses: both range tests are false on a NaN, so the percentile the
    parser promises to lie in (0, 100] can be NaN. *)
Example nan_percentile_accepted : parse_agg "p(nan)" = Ok (Percentile SpecFloat.S754_nan).
Proof. vm_compute. reflexivity. Qed.
