(* ===== verification/Thresholds.v ===== *)
(** * Threshold evaluation (crates/loadr-core/src/thresholds.rs)

    Compiled thresholds, the lookup of an aggregation in a metric's values
    ([AggValues::value_for] of aggregate.rs), and the verdict over the whole
    aggregator. *)

From Stdlib Require Import SpecFloat.
From S2P Require Import Prelude Float64 Str Dur Metrics Aggregate Threshold.

Section Thresholds.
Context `{Hdr}.

Definition value_for (v : AggValues) (agg : Agg) (kind : MetricKind) : option f64 :=
  match agg with
  | Avg => av_avg v
  | Min => av_min v
  | Max => av_max v
  | Med => av_med v
  | Percentile p =>
      if f64_near p (f64_of_Z 90) then av_p90 v
      else if f64_near p (f64_of_Z 95) then av_p95 v
      else if f64_near p (f64_of_Z 99) then av_p99 v
      else if f64_near p (f64_dec 999 1) then av_p999 v
      else None
  | Slo n =>
      if f64_near n (f64_of_Z 50) then av_med v
      else if f64_near n (f64_of_Z 90) then av_p90 v
      else if f64_near n (f64_of_Z 95) then av_p95 v
      else if f64_near n (f64_of_Z 99) then av_p99 v
      else if f64_near n (f64_dec 999 1) then av_p999 v
      else None
  | ARate => match kind with Rate => av_rate v | _ => av_per_second v end
  | Count => Some (match kind with Counter => av_sum v | _ => f64_of_Z (av_count v) end)
  | Value => av_last v
  end.

Record CompiledThreshold := mkCompiledThreshold {
  ct_selector : MetricSelector;
  ct_expr : ThresholdExpr;
  ct_abort_on_fail : bool;
  ct_delay_abort_eval : option Duration;
  ct_source : string;
}.

Record ThresholdStatus := mkThresholdStatus {
  ts_metric : string;
  ts_expression : string;
  ts_observed : option f64;
  ts_passed : bool;
  ts_abort_on_fail : bool;
}.

Inductive ThresholdEntry :=
| Expr (s : string)
| Detailed (threshold : string) (abort_on_fail : bool) (delay_abort_eval : option Duration).

Definition expression (e : ThresholdEntry) : string :=
  match e with Expr s => s | Detailed t _ _ => t end.
Definition abort_on_fail (e : ThresholdEntry) : bool :=
  match e with Expr _ => false | Detailed _ a _ => a end.
Definition delay_abort_eval (e : ThresholdEntry) : option Duration :=
  match e with Expr _ => None | Detailed _ _ d => d end.

Inductive ThresholdList :=
| Single (s : string)
| Many (v : list ThresholdEntry).

Definition entries (l : ThresholdList) : list ThresholdEntry :=
  match l with Single s => [Expr s] | Many v => v end.

Section Compile.
Context (humantime_parse_duration : string -> result string Duration).

Fixpoint compile_entries (selector_str : string) (selector : MetricSelector) (l : list ThresholdEntry) :
    may_panic (result string (list CompiledThreshold)) :=
  match l with
  | [] => Some (Ok [])
  | entry :: l =>
      match ThresholdExpr_parse humantime_parse_duration (expression entry) with
      | None => None
      | Some (Err e) =>
          Some (Err ("threshold `" +:+ selector_str +:+ "`: " +:+ ThresholdParseError_to_string e))
      | Some (Ok expr) =>
          (fun r => let? rest := r in
                    Ok (mkCompiledThreshold selector expr (abort_on_fail entry)
                          (delay_abort_eval entry) (expression entry) :: rest))
            <$> compile_entries selector_str selector l
      end
  end.

Fixpoint compile_thresholds (thresholds : list (string * ThresholdList)) :
    may_panic (result string (list CompiledThreshold)) :=
  match thresholds with
  | [] => Some (Ok [])
  | (selector_str, l) :: rest =>
      match MetricSelector_parse selector_str with
      | Err e => Some (Err (ThresholdParseError_to_string e))
      | Ok selector =>
          match compile_entries selector_str selector (entries l) with
          | None => None
          | Some (Err e) => Some (Err e)
          | Some (Ok out) =>
              (fun r => let? more := r in Ok (out ++ more)) <$> compile_thresholds rest
          end
      end
  end.
End Compile.

Definition effective_agg (agg : Agg) : Agg :=
  match agg with
  | Slo n => if f64_near n (f64_of_Z 50) then Med else Percentile n
  | other => other
  end.

Definition observe (t : CompiledThreshold) (agg : Aggregator) (now : Z) : option f64 :=
  let metric := ms_metric (ct_selector t) in
  let tags := ms_tags (ct_selector t) in
  let lookup := effective_agg (te_agg (ct_expr t)) in
  match aggregate_selector agg metric tags now with
  | None => None
  | Some (kind, values) =>
      match lookup with
      | Percentile p =>
          match value_for values lookup kind with
          | Some v => Some v
          | None => aggregate_selector_percentile agg metric tags p
          end
      | _ => value_for values lookup kind
      end
  end.

Definition evaluate (t : CompiledThreshold) (agg : Aggregator) (now : Z) : ThresholdStatus :=
  let observed := observe t agg now in
  let passed := match observed with
                | Some v => Op_eval (te_op (ct_expr t)) v (te_bound (ct_expr t))
                | None => true
                end in
  mkThresholdStatus (MetricSelector_to_string (ct_selector t)) (ct_source t) observed passed
    (ct_abort_on_fail t).

(** The loop carries the abort flag beside the statuses. *)
Definition evaluate_all (thresholds : list CompiledThreshold) (agg : Aggregator) (elapsed : Duration)
    (now : Z) : list ThresholdStatus * bool :=
  foldl (fun '(statuses, abort) t =>
           let status := evaluate t agg now in
           let abort :=
             if negb (ts_passed status) && ct_abort_on_fail t then
               let delay_ok := match ct_delay_abort_eval t with
                               | Some d => Z.leb d elapsed
                               | None => true
                               end in
               if delay_ok then true else abort
             else abort in
           (statuses ++ [status], abort))
        ([], false) thresholds.

Definition threshold_kind (agg : Aggregator) (t : CompiledThreshold) (now : Z) : option MetricKind :=
  fst <$> aggregate_selector agg (ms_metric (ct_selector t)) (ms_tags (ct_selector t)) now.

Section Label.
(** [format!("{v:.2}")]. *)
Context (format_2 : f64 -> string).

Fixpoint trim_end_char (c : Ascii.ascii) (l : list Ascii.ascii) : list Ascii.ascii :=
  match l with
  | a :: l' => match trim_end_char c l' with
               | [] => if Ascii.eqb a c then [] else [a]
               | r => a :: r
               end
  | [] => []
  end.

Definition fmt_ms (v : f64) : string :=
  if f64_lt (f64_abs (f64_sub v (f64_round v))) NANO then Z_to_string (f64_as_i64 (f64_round v))
  else of_chars (trim_end_char (Ascii.ascii_of_N 46) (trim_end_char (Ascii.ascii_of_N 48) (chars (format_2 v)))).

Definition slo_observed_label (t : CompiledThreshold) (observed : option f64) : option string :=
  match te_agg (ct_expr t), observed with
  | Slo n, Some v =>
      let budget_op := match te_op (ct_expr t) with
                       | Lt | Le => "<="
                       | Gt | Ge => ">="
                       | other => Op_to_string other
                       end in
      Some ("p" +:+ fmt_ms n +:+ "=" +:+ fmt_ms v +:+ "ms (budget: " +:+ budget_op
            +:+ fmt_ms (te_bound (ct_expr t)) +:+ "ms)")
  | _, _ => None
  end.
End Label.

(** ** Lemmas *)

Lemma binary_round_abs (m : positive) (e : Z) :
  SFabs (binary_round 53 1024 true m e) = SFabs (binary_round 53 1024 false m e).
Proof.
  unfold binary_round. destruct (shl_align _ _ _) as [mz ez]. unfold binary_round_aux.
  destruct (shr_fexp _ _ _ _ _) as [mrs' e']. destruct (shr_fexp _ _ _ _ _) as [mrs'' e''].
  destruct (shr_m mrs''); [done| |done]. by destruct (Z.leb e'' _).
Qed.

Lemma binary_normalize_opp (z e : Z) :
  SFabs (binary_normalize 53 1024 (- z) e false) = SFabs (binary_normalize 53 1024 z e false).
Proof. destruct z as [|m|m]; simpl; [done|apply binary_round_abs|by rewrite <- binary_round_abs]. Qed.

(** [|a - b| = |b - a|] on doubles. *)
Lemma f64_dist_comm (a b : f64) : f64_abs (f64_sub a b) = f64_abs (f64_sub b a).
Proof.
  unfold f64_abs, f64_sub.
  destruct a as [[]|[]| |[] ma ea], b as [[]|[]| |[] mb eb]; try done; unfold SFsub;
    rewrite (Z.min_comm eb ea), <- binary_normalize_opp; do 3 f_equal; lia.
Qed.

Lemma f64_near_comm (a b : f64) : f64_near a b = f64_near b a.
Proof. unfold f64_near. by rewrite f64_dist_comm. Qed.

Lemma parse_slo_points (s : string) (n : f64) :
  parse_slo s = Ok (Slo n) -> existsb (fun p => f64_near n p) SUPPORTED_SLO_POINTS = true.
Proof.
  unfold parse_slo. destruct (parse_f64 _) as [v|]; [|done]. cbn [ok_or result_bind].
  destruct (_ || _); [done|]. destruct (existsb _ _) eqn:He; [|done]. intros [= <-].
  rewrite <- He. unfold SUPPORTED_SLO_POINTS. cbn [existsb].
  by rewrite (f64_near_comm v), (f64_near_comm v (f64_of_Z 90)), (f64_near_comm v (f64_of_Z 95)),
    (f64_near_comm v (f64_of_Z 99)), (f64_near_comm v (f64_dec 999 1)).
Qed.

(** A failing abort-on-fail threshold whose delay has passed. *)
Definition aborts (agg : Aggregator) (elapsed : Duration) (now : Z) (t : CompiledThreshold) : Prop :=
  ct_abort_on_fail t = true
  /\ (exists v, observe t agg now = Some v /\ Op_eval (te_op (ct_expr t)) v (te_bound (ct_expr t)) = false)
  /\ (forall d, ct_delay_abort_eval t = Some d -> d <= elapsed).

Lemma evaluate_failed (t : CompiledThreshold) (agg : Aggregator) (now : Z) :
  ts_passed (evaluate t agg now) = false <->
  exists v, observe t agg now = Some v /\ Op_eval (te_op (ct_expr t)) v (te_bound (ct_expr t)) = false.
Proof.
  unfold evaluate. simpl. destruct (observe t agg now) as [v|]; [|split; [done|by intros (? & ? & _)]].
  split; [eauto|]. by intros (? & [= <-] & ?).
Qed.

(** The loop's test. *)
Definition aborts_test (agg : Aggregator) (elapsed : Duration) (now : Z) (t : CompiledThreshold) : bool :=
  negb (ts_passed (evaluate t agg now)) && ct_abort_on_fail t
  && match ct_delay_abort_eval t with Some d => Z.leb d elapsed | None => true end.

Lemma aborts_test_spec (agg : Aggregator) (elapsed : Duration) (now : Z) (t : CompiledThreshold) :
  aborts_test agg elapsed now t = true <-> aborts agg elapsed now t.
Proof.
  unfold aborts_test, aborts. rewrite <- evaluate_failed, !andb_true_iff, negb_true_iff. split.
  - intros [[? ?] Hd]. split_and!; try done. intros d Hde. rewrite Hde in Hd. by apply Z.leb_le.
  - intros (? & ? & Hd). split_and!; try done. destruct (ct_delay_abort_eval t); [|done].
    apply Z.leb_le. by apply Hd.
Qed.

(** The verdict over all thresholds: one status per threshold, in order; a
    threshold fails exactly when a value was observed and the comparison is false (no
    samples pass); and the run is to be aborted exactly when some failing
    abort-on-fail threshold is past its delay. *)
Theorem evaluate_all_spec (thresholds : list CompiledThreshold) (agg : Aggregator)
    (elapsed : Duration) (now : Z) :
  let '(statuses, abort) := evaluate_all thresholds agg elapsed now in
  statuses = (fun t => evaluate t agg now) <$> thresholds
  /\ (forall t, t ∈ thresholds -> ts_passed (evaluate t agg now) = false <->
        exists v, observe t agg now = Some v
                  /\ Op_eval (te_op (ct_expr t)) v (te_bound (ct_expr t)) = false)
  /\ (abort = true <-> exists t, t ∈ thresholds /\ aborts agg elapsed now t).
Proof.
  unfold evaluate_all. induction thresholds as [|t l IH] using rev_ind.
  - simpl. split_and!; [done|by intros t Hn; apply not_elem_of_nil in Hn|].
    split; [done|]. intros (t & Hn & _). by apply not_elem_of_nil in Hn.
  - rewrite foldl_app. destruct (foldl _ _ l) as [statuses abort]. simpl.
    destruct IH as (-> & _ & Ha). split_and!.
    + by rewrite fmap_app.
    + intros u _. apply evaluate_failed.
    + transitivity ((aborts_test agg elapsed now t || abort) = true).
      { unfold aborts_test. by destruct (_ && ct_abort_on_fail t), (ct_delay_abort_eval t) as [d|];
          try destruct (Z.leb d elapsed). }
      rewrite orb_true_iff, Ha, aborts_test_spec. setoid_rewrite elem_of_app.
      setoid_rewrite list_elem_of_singleton. naive_solver.
Qed.
End Thresholds.
