(* ===== verification/Slo.v ===== *)
(** * What an SLO objective is judged on (crates/loadr-core/src/thresholds.rs, aggregate.rs)

    The way from the samples of a run to the verdict on an objective like [slo(99.9%) < 300]: recording, the selection and the merge
    of series, the summary, and [observe]. *)

From Stdlib Require Import SpecFloat.
From S2P Require Import Prelude Float64 Str Dur Metrics Aggregate Federation Threshold Thresholds.

Section Slo.
Context `{HdrLaws}.
Notation SeriesKey := (string * Tags)%type.

(** ** Sums over the series a selector picks *)

Definition trend_count (s : Series) : Z := match data s with STrend _ _ _ count _ _ => count | _ => 0 end.
Definition hist_sum (l : list Series) : Histogram := foldr (fun s h => hdr_add (trend_val s) h) hdr_new l.
Definition count_sum (l : list Series) : Z := Zsum (trend_count <$> l).

Lemma hdr_add_swap (a b c : Histogram) : hdr_add a (hdr_add b c) = hdr_add b (hdr_add a c).
Proof. by rewrite !hdr_add_assoc, (hdr_add_comm a b). Qed.

#[local] Instance hist_sum_permutation : Proper ((≡ₚ) ==> (=)) hist_sum.
Proof. intros l l' Hl. induction Hl; simpl; [done|by f_equal|apply hdr_add_swap|congruence]. Qed.
#[local] Instance count_sum_permutation : Proper ((≡ₚ) ==> (=)) count_sum.
Proof. unfold count_sum. intros l l' Hl. induction Hl; rewrite ?fmap_cons, ?Zsum_cons; [done|lia|lia|congruence]. Qed.

Definition picks (p : string -> Tags -> bool) (key : SeriesKey) : bool := p key.1 key.2.
Definition of_map (p : string -> Tags -> bool) (m : gmap SeriesKey Series) : list Series :=
  snd <$> filter (fun '((metric, tags), _) => p metric tags = true) (map_to_list m).

Lemma of_map_insert (p : string -> Tags -> bool) (m : gmap SeriesKey Series) (key : SeriesKey) (s : Series) :
  m !! key = None -> of_map p (<[key := s]> m) ≡ₚ (if picks p key then [s] else []) ++ of_map p m.
Proof.
  intros Hm. unfold of_map. rewrite map_to_list_insert by done. destruct key as [metric tags]. unfold picks. simpl.
  rewrite filter_cons. case_decide as Hp; [by rewrite Hp|]. by destruct (p metric tags).
Qed.
Lemma of_map_update (p : string -> Tags -> bool) (m : gmap SeriesKey Series) (key : SeriesKey) (s s' : Series) :
  m !! key = Some s -> exists rest,
    of_map p m ≡ₚ (if picks p key then [s] else []) ++ rest /\ of_map p (<[key := s']> m) ≡ₚ (if picks p key then [s'] else []) ++ rest.
Proof.
  intros Hm. exists (of_map p (delete key m)). split.
  - rewrite <- (insert_delete_id m key s Hm) at 1. apply of_map_insert, lookup_delete_eq.
  - rewrite <- (insert_delete_eq m key s'). apply of_map_insert, lookup_delete_eq.
Qed.

(** ** Recording *)

(** The samples a selector is about. *)
Definition selects (metric : string) (tag_filter : list (string * string)) (m : string) (tags : Tags) : bool :=
  bool_decide (m = metric) && tags_match tag_filter tags.
Definition selected_values (p : string -> Tags -> bool) (log : list Sample) : list f64 :=
  s_value <$> filter (fun smp => p (s_metric smp) (s_tags smp) = true) log.
Definition recorded (start : Z) (log : list Sample) : Aggregator := foldl record (Aggregator_new start) log.

Lemma hist_of_values_snoc (vs : list f64) (v : f64) : hist_of_values (vs ++ [v]) = hdr_record (hist_of_values vs) (trend_scaled v).
Proof. unfold hist_of_values. by rewrite foldl_app. Qed.
Lemma selected_values_snoc (p : string -> Tags -> bool) (log : list Sample) (smp : Sample) :
  selected_values p (log ++ [smp]) = selected_values p log ++ (if p (s_metric smp) (s_tags smp) then [s_value smp] else []).
Proof.
  unfold selected_values. rewrite filter_app, fmap_app. f_equal. rewrite filter_cons, filter_nil.
  destruct (p _ _); [by rewrite decide_True|by rewrite decide_False].
Qed.

Lemma Series_record_trend (s : Series) (v : f64) (seq : Z) : trend_ok s ->
  trend_ok (Series_record s v seq) /\ trend_val (Series_record s v seq) = hdr_record (trend_val s) (trend_scaled v)
  /\ trend_count (Series_record s v seq) = u64_add (trend_count s) 1.
Proof.
  intros (Hk & h & dh & sum & count & mn & mx & Hd). unfold trend_ok, trend_val, trend_count, Series_record, set_data. simpl.
  rewrite Hd. split; [split; [done|eauto 20]|done].
Qed.
Lemma Series_new_trend : trend_ok (Series_new Trend) /\ trend_val (Series_new Trend) = hdr_new /\ trend_count (Series_new Trend) = 0.
Proof. split; [split; [done|simpl; eauto 20]|done]. Qed.

Record tallied (p : string -> Tags -> bool) (log : list Sample) (a : Aggregator) : Prop := {
  ta_trend key s : series a !! key = Some s -> picks p key = true -> trend_ok s /\ 0 < trend_count s;
  ta_hist : hist_sum (of_map p (series a)) = hist_of_values (selected_values p log);
  ta_count : count_sum (of_map p (series a)) = Z.of_nat (length (selected_values p log));
}.

Lemma of_map_elem (p : string -> Tags -> bool) (m : gmap SeriesKey Series) (s : Series) : s ∈ of_map p m -> exists key, m !! key = Some s /\ picks p key = true.
Proof.
  unfold of_map. intros ([key s'] & -> & Hin)%list_elem_of_fmap. apply list_elem_of_filter in Hin as [Hp Hin].
  exists key. split; [by apply elem_of_map_to_list|]. by destruct key.
Qed.
Lemma count_sum_nonneg (l : list Series) :
  (forall s, s ∈ l -> 0 <= trend_count s) -> 0 <= count_sum l.
Proof. intros Hl. apply Zsum_nonneg, Forall_fmap, Forall_forall. exact Hl. Qed.

Lemma recorded_tallied (p : string -> Tags -> bool) (start : Z) (log : list Sample) :
  Forall (fun smp => p (s_metric smp) (s_tags smp) = true -> s_kind smp = Trend) log ->
  Z.of_nat (length (selected_values p log)) < u64_modulus -> tallied p log (recorded start log).
Proof.
  unfold recorded. induction log as [|smp log IH] using rev_ind; intros Hk Hn.
  - split; [|done|done]. intros key s Hs. simpl in Hs. by rewrite lookup_empty in Hs.
  - apply Forall_app in Hk as [Hk [Hsmp _]%Forall_cons]. rewrite selected_values_snoc, length_app in Hn.
    destruct IH as [Ht Hh Hc]; [done|lia|]. rewrite foldl_app. simpl. set (a := foldl record (Aggregator_new start) log) in *.
    unfold record, record_cached, set_series, bump_seq. simpl. set (key := (s_metric smp, s_tags smp)).
    assert (picks p key = p (s_metric smp) (s_tags smp)) as Hpk by done. rewrite <- Hpk in Hsmp, Hn. set (seq := u64_add (agg_seq a) 1).
    set (old := default (Series_new (s_kind smp)) (series a !! key)). set (new := Series_record old (s_value smp) seq).
    assert (picks p key = true -> trend_ok old /\ 0 <= trend_count old) as Hold.
    { intros Hp. subst old. destruct (series a !! key) as [s|] eqn:Hs; simpl; [destruct (Ht key s Hs Hp); split; [done|lia]|].
      rewrite (Hsmp Hp). by destruct Series_new_trend as (? & _ & ->). }
    assert (exists rest, of_map p (series a) ≡ₚ (if picks p key then if series a !! key then [old] else [] else []) ++ rest
              /\ of_map p (<[key := new]> (series a)) ≡ₚ (if picks p key then [new] else []) ++ rest) as (rest & H1 & H2).
    { subst old new. destruct (series a !! key) as [s|] eqn:Hs; simpl.
      - exact (of_map_update p _ key s _ Hs).
      - exists (of_map p (series a)). split; [by destruct (picks p key)|]. by apply of_map_insert. }
    assert (forall s, s ∈ rest -> 0 <= trend_count s) as Hrest.
    { intros s Hs. destruct (of_map_elem p (series a) s) as (k & Hk1 & Hk2); [|apply Z.lt_le_incl; by apply (Ht k)]. rewrite H1. apply elem_of_app. by right. }
    pose proof (count_sum_nonneg rest Hrest) as Hpos. unfold count_sum in Hpos.
    rewrite H1 in Hh, Hc. destruct (picks p key) eqn:Hp.
    + destruct (Hold eq_refl) as [Hok Hc0]. destruct (Series_record_trend old (s_value smp) seq Hok) as (Hok' & Hv & Hcn).
      fold new in Hok', Hv, Hcn. simpl in Hn.
      assert (hdr_add (trend_val old) (hist_sum rest) = hist_of_values (selected_values p log)
              /\ trend_count old + count_sum rest = Z.of_nat (length (selected_values p log))) as [Hh' Hc'].
      { subst old. destruct (series a !! key); [done|]. simpl in Hh, Hc. rewrite (Hsmp eq_refl) in *. simpl.
        destruct Series_new_trend as (_ & Hz1 & Hz2). rewrite Hz1, Hz2, hdr_add_comm, hdr_add_new_r. split; [done|lia]. }
      assert (trend_count new = trend_count old + 1) as Hcn'.
      { rewrite Hcn. apply u64_add_small; unfold is_u64, count_sum in *; lia. }
      split; simpl.
      * intros k s [[<- <-]|[_ Hs]]%lookup_insert_Some Hpk2; [split; [done|lia]|]. by apply (Ht k).
      * rewrite H2, selected_values_snoc, <- Hpk, hist_of_values_snoc. simpl.
        by rewrite Hv, <- Hh', hdr_add_comm, <- hdr_record_add, hdr_add_comm.
      * rewrite H2, selected_values_snoc, <- Hpk, length_app. simpl length. unfold count_sum in *.
        cbn [app]. rewrite fmap_cons, Zsum_cons, Hcn'. lia.
    + simpl in H1, H2, Hh, Hc. split; simpl.
      * intros k s [[<- _]|[_ Hs]]%lookup_insert_Some Hpk2; [congruence|]. by apply (Ht k).
      * by rewrite H2, selected_values_snoc, <- Hpk, app_nil_r.
      * by rewrite H2, selected_values_snoc, <- Hpk, app_nil_r.
Qed.

(** ** Merging and the summary *)

(** The five points of a trend's summary. *)
Definition summary_of (v : AggValues) (h : Histogram) : Prop :=
  av_med v = Some (hist_at h (f64_dec 5 1)) /\ av_p90 v = Some (hist_at h (f64_dec 90 2))
  /\ av_p95 v = Some (hist_at h (f64_dec 95 2)) /\ av_p99 v = Some (hist_at h (f64_dec 99 2))
  /\ av_p999 v = Some (hist_at h (f64_dec 999 3)).

Lemma agg_values_summary (s : Series) (el : f64) : trend_ok s -> 0 < trend_count s -> summary_of (agg_values s el) (trend_val s).
Proof.
  intros (_ & h & dh & sum & count & mn & mx & Hd) Hc. unfold trend_count, agg_values, trend_val, summary_of in *. rewrite Hd in *.
  unfold then_some. by rewrite (proj2 (Z.ltb_lt _ _) Hc).
Qed.

Lemma merge_trends (metric : string) (l : list Series) (acc : Series) :
  trend_ok acc -> 0 <= trend_count acc -> (forall s, s ∈ l -> trend_ok s /\ 0 <= trend_count s) ->
  trend_count acc + count_sum l < u64_modulus ->
  let merged := foldl (merge_series metric) acc l in
  trend_ok merged /\ trend_val merged = hdr_add (trend_val acc) (hist_sum l) /\ trend_count merged = trend_count acc + count_sum l.
Proof.
  revert acc. induction l as [|s l IH]; intros acc Hok Hz Hl Hn; simpl.
  { split_and!; [done|by rewrite hdr_add_new_r|]. change (count_sum []) with 0. lia. }
  unfold count_sum in *. rewrite fmap_cons, Zsum_cons in *. destruct (Hl s) as [Hs Hs0]; [left|].
  assert (0 <= Zsum (trend_count <$> l)) as Hpos.
  { apply (count_sum_nonneg l). intros x Hx. apply Hl. by right. }
  assert (trend_ok (merge_series metric acc s) /\ trend_val (merge_series metric acc s) = hdr_add (trend_val acc) (trend_val s)
          /\ trend_count (merge_series metric acc s) = trend_count acc + trend_count s) as (Ho & Hv & Hc).
  { destruct Hok as (Hk & h & dh & sum & count & mn & mx & Hd), Hs as (_ & h' & dh' & sum' & count' & mn' & mx' & Hd').
    unfold trend_ok, trend_val, trend_count, merge_series, set_data in *. simpl. rewrite Hd, Hd' in *.
    split_and!; [done|eauto 20|done|]. apply u64_add_small. unfold is_u64. lia. }
  destruct (IH (merge_series metric acc s)) as (H1 & H2 & H3); [done|lia| |lia|].
  { intros x Hx. apply Hl. by right. }
  split_and!; [done|by rewrite H2, Hv, hdr_add_assoc|lia].
Qed.

Lemma merged_agg_trends (metric : string) (l : list Series) (el : f64) :
  (forall s, s ∈ l -> trend_ok s /\ 0 <= trend_count s) -> 0 < count_sum l < u64_modulus ->
  exists v, merged_agg metric l el = Some (Trend, v) /\ summary_of v (hist_sum l).
Proof.
  intros Hl Hn. destruct l as [|s l]; [change (count_sum []) with 0 in Hn; lia|].
  destruct (Hl s) as [Hs Hs0]; [left|]. pose proof (proj1 Hs) as Hk. unfold merged_agg. rewrite Hk. simpl bool_decide. cbn [andb].
  destruct l as [|s' l].
  - eexists. split; [done|]. cbn [hist_sum foldr]. rewrite hdr_add_new_r. apply agg_values_summary; [done|].
    change (count_sum [s]) with (trend_count s + 0) in Hn. lia.
  - destruct Series_new_trend as (Hok & Hv & Hc).
    destruct (merge_trends metric (s :: s' :: l) (Series_new Trend)) as (H1 & H2 & H3); [done|lia|done|lia|].
    eexists. split; [done|]. replace (hist_sum _) with (trend_val (foldl (merge_series metric) (Series_new Trend) (s :: s' :: l))).
    + apply agg_values_summary; [done|lia].
    + by rewrite H2, Hv, hdr_add_comm, hdr_add_new_r.
Qed.

(** ** The verdict *)

(** The objectives, in percent, and the quantile each stands for. *)
Definition slo_points : list (f64 * f64) :=
  [(f64_of_Z 50, f64_dec 5 1); (f64_of_Z 90, f64_dec 90 2); (f64_of_Z 95, f64_dec 95 2);
   (f64_of_Z 99, f64_dec 99 2); (f64_dec 999 1, f64_dec 999 3)].

(** What [observe] reads for an accepted objective, from any summary of [h]. *)
Lemma slo_point (text : string) (n : f64) (h : Histogram) :
  parse_slo text = Ok (Slo n) -> exists p q, (p, q) ∈ slo_points /\ f64_near n p = true
  /\ forall v, summary_of v h -> value_for v (effective_agg (Slo n)) Trend = Some (hist_at h q).
Proof.
  intros Hn%parse_slo_points. unfold SUPPORTED_SLO_POINTS in Hn. cbn [existsb] in Hn. unfold effective_agg, value_for, slo_points.
  destruct (f64_near n (f64_of_Z 50)) eqn:E50.
  { exists (f64_of_Z 50), (f64_dec 5 1). split; [left|]. split; [done|]. intros v Hv. apply Hv. }
  destruct (f64_near n (f64_of_Z 90)) eqn:E90.
  { exists (f64_of_Z 90), (f64_dec 90 2). split; [do 1 right; left|]. split; [done|]. intros v Hv. apply Hv. }
  destruct (f64_near n (f64_of_Z 95)) eqn:E95.
  { exists (f64_of_Z 95), (f64_dec 95 2). split; [do 2 right; left|]. split; [done|]. intros v Hv. apply Hv. }
  destruct (f64_near n (f64_of_Z 99)) eqn:E99.
  { exists (f64_of_Z 99), (f64_dec 99 2). split; [do 3 right; left|]. split; [done|]. intros v Hv. apply Hv. }
  destruct (f64_near n (f64_dec 999 1)) eqn:E999; [|done].
  exists (f64_dec 999 1), (f64_dec 999 3). split; [do 4 right; left|]. split; [done|]. intros v Hv. apply Hv.
Qed.

(** What the aggregator answers a selector with. *)
Lemma selector_summary (metric : string) (tag_filter : list (string * string)) (start now : Z) (log : list Sample) :
  let about := selects metric tag_filter in
  let values := selected_values about log in
  Forall (fun smp => about (s_metric smp) (s_tags smp) = true -> s_kind smp = Trend) log -> Z.of_nat (length values) < u64_modulus ->
  match values with
  | [] => aggregate_selector (recorded start log) metric tag_filter now = None
  | _ => exists v, aggregate_selector (recorded start log) metric tag_filter now = Some (Trend, v)
         /\ summary_of v (hist_of_values values)
  end.
Proof.
  intros about values Hk Hn. destruct (recorded_tallied about start log Hk Hn) as [Ht Hh Hc].
  fold values in Hh, Hc. unfold aggregate_selector. set (el := as_secs_f64 _).
  change (selected _ _) with (of_map about (series (recorded start log))). set (l := of_map _ _) in *.
  assert (forall s, s ∈ l -> trend_ok s /\ 0 < trend_count s) as Hl.
  { intros s (key & Hs & Hp)%of_map_elem. by apply (Ht key). }
  destruct values as [|x values].
  - destruct l as [|s l]; [done|]. exfalso. destruct (Hl s) as [_ Hs]; [left|].
    unfold count_sum in Hc. rewrite fmap_cons, Zsum_cons in Hc. simpl length in Hc.
    assert (0 <= count_sum l) as Hpos; [|unfold count_sum in Hpos; lia].
    apply count_sum_nonneg. intros x Hx. apply Z.lt_le_incl, Hl. by right.
  - rewrite <- Hh. apply merged_agg_trends; [|rewrite Hc; simpl length in *; lia].
    intros s Hs. destruct (Hl s Hs). split; [done|lia].
Qed.

(** C39: an SLO objective the parser accepts is judged on the samples themselves: whatever samples a run records,
    under however many tag sets, if those of the metric that carry the selector's tags are trend samples and there is
    at least one (fewer than 2^64), then the observed value is the objective's quantile - the median, 0.9, 0.95, 0.99
    or 0.999 - of the one histogram of exactly their values, and the verdict is the comparison of that value with the
    bound. If there is none, nothing is observed and the objective passes. *)
Theorem slo_reads_summary (text : string) (n : f64) (t : CompiledThreshold) (start now : Z) (log : list Sample) :
  parse_slo text = Ok (Slo n) -> te_agg (ct_expr t) = Slo n ->
  let about := selects (ms_metric (ct_selector t)) (ms_tags (ct_selector t)) in
  let values := selected_values about log in
  Forall (fun smp => about (s_metric smp) (s_tags smp) = true -> s_kind smp = Trend) log ->
  Z.of_nat (length values) < u64_modulus ->
  let status := evaluate t (recorded start log) now in
  exists p q, (p, q) ∈ slo_points /\ f64_near n p = true
    /\ match values with
       | [] => ts_observed status = None /\ ts_passed status = true
       | _ => let observed := hist_at (hist_of_values values) q in
              ts_observed status = Some observed /\ ts_passed status = Op_eval (te_op (ct_expr t)) observed (te_bound (ct_expr t))
       end.
Proof.
  intros Hp Ht about values Hk Hn status.
  pose proof (selector_summary (ms_metric (ct_selector t)) (ms_tags (ct_selector t)) start now log Hk Hn) as Hs.
  fold about values in Hs. destruct (slo_point text n (hist_of_values values) Hp) as (p & q & Hin & Hnear & Hv).
  exists p, q. split_and!; [done|done|]. subst status. unfold evaluate, observe. rewrite Ht. cbn [ts_observed ts_passed].
  destruct values as [|x values]; [by rewrite Hs|]. destruct Hs as (v & -> & Hsum). specialize (Hv v Hsum).
  destruct (effective_agg (Slo n)); by rewrite Hv.
Qed.
End Slo.

(** ** An example: two series of a metric and one that the tags leave out *)

Module SloDemo.
Import HdrModel.

Definition fast : Tags := {["tier" := "gold"; "host" := "a"]}.
Definition fast_b : Tags := {["tier" := "gold"; "host" := "b"]}.
Definition slow : Tags := {["tier" := "free"]}.
Definition sample (tags : Tags) (value : Z) : Sample := mkSample "request_duration" Trend (f64_of_Z value) tags 0.
Definition log : list Sample := [sample fast 120; sample slow 900; sample fast_b 250; sample fast 180].
Definition objective : CompiledThreshold :=
  mkCompiledThreshold (mkMetricSelector "request_duration" [("tier", "gold")])
    (mkThresholdExpr (Slo (f64_dec 999 1)) Lt (f64_of_Z 300)) false None "slo(99.9%) < 300".

Example objective_parsed : parse_slo "99.9%" = Ok (Slo (f64_dec 999 1)).
Proof. by vm_compute. Qed.

(** The three gold samples are what is judged: 0.999 of them is at most 300 ms although the fourth took 900 ms. *)
Definition gold : list f64 := [f64_of_Z 120; f64_of_Z 250; f64_of_Z 180].
Lemma slo_reads_summary_witness :
  let status := evaluate objective (recorded 0 log) 5 in
  exists p q, (p, q) ∈ slo_points /\ f64_near (f64_dec 999 1) p = true
    /\ ts_observed status = Some (hist_at (hist_of_values gold) q) /\ ts_observed status = Some (f64_of_Z 180)
    /\ ts_passed status = Op_eval Lt (hist_at (hist_of_values gold) q) (f64_of_Z 300) /\ ts_passed status = true.
Proof.
  destruct (slo_reads_summary "99.9%" (f64_dec 999 1) objective 0 5 log objective_parsed eq_refl) as (p & q & Hin & Hn & Ho & Hv).
  - repeat constructor.
  - by vm_compute.
  - exists p, q. split_and!; [exact Hin|exact Hn|exact Ho|by vm_compute|exact Hv|by vm_compute].
Defined.
End SloDemo.

