(* ===== verification/Summary.v ===== *)
(** * The end-of-run summary (crates/loadr-core/src/summary.rs)

    [TimelinePoint::from_snapshots] and [Summary::build], the structured half of the
    file; the console and JSON renderers only format it.  A [BTreeMap] being filled is
    a [gmap], read back in key order. *)

From Stdlib Require Import SpecFloat.
From S2P Require Import Prelude Float64 Str Dur Metrics Aggregate Thresholds.

Section Summary.
Context `{Hdr}.

Record CheckFailureGroupSummary := mkCheckFailureGroupSummary {
  fg_code : option Z;
  fg_label : string;
  fg_count : Z;
}.

Record CheckSummary := mkCheckSummary {
  cs_name : string;
  cs_passes : Z;
  cs_fails : Z;
  cs_failure_groups : list CheckFailureGroupSummary;
}.

Record CheckAccumulator := mkCheckAccumulator {
  ca_passes : Z;
  ca_fails : Z;
  ca_failure_groups : gmap (option Z * string) Z;
}.

Record MetricSummary := mkMetricSummary {
  ms_name : string;
  ms_kind : MetricKind;
  ms_agg : AggValues;
}.

Record TimelinePoint := mkTimelinePoint {
  tp_elapsed_secs : f64;
  tp_rps : f64;
  tp_iterations_ps : f64;
  tp_active_vus : f64;
  tp_error_rate : f64;
  tp_latency_avg : option f64;
  tp_latency_p50 : option f64;
  tp_latency_p95 : option f64;
  tp_latency_p99 : option f64;
  tp_external : gmap string f64;
}.

Definition default_agg : AggValues :=
  mkAggValues 0 f64_zero None None None None None None None None None None None.

(** [Iterator::sum] of doubles folds from [-0.0]. *)
Definition f64_sum (l : list f64) : f64 := foldl f64_add (S754_zero true) l.

(** Failed fraction over the snapshot interval. *)
Definition interval_error_rate (snap : Snapshot) : f64 :=
  let '(passes, total) :=
    foldl (fun '(p, t) s => (f64_add p (ss_interval_sum s), u64_add t (ss_interval_count s)))
          (f64_zero, 0) (filter (fun s => ss_metric s = "http_req_failed") (sn_series snap)) in
  if Z.ltb 0 total then f64_div passes (f64_of_Z total) else f64_zero.

(** The closure [latency]: the exact projection when there is one, else the
    count-weighted mean over the request-duration series. *)
Definition weighted_latency (snap : Snapshot) (pick : AggValues -> option f64) : option f64 :=
  let '(acc, total) :=
    foldl (fun '(acc, total) s =>
             if Z.eqb (av_count (ss_agg s)) 0 then (acc, total)
             else match pick (ss_agg s) with
                  | Some v => (f64_add acc (f64_mul v (f64_of_Z (av_count (ss_agg s)))),
                               u64_add total (av_count (ss_agg s)))
                  | None => (acc, total)
                  end)
          (f64_zero, 0)
          (filter (fun s => is_request_duration_metric (ss_metric s) = true) (sn_series snap)) in
  if Z.ltb 0 total then Some (f64_div acc (f64_of_Z total)) else None.

Definition latency (snap : Snapshot) (exact : option Snapshot) (pick : AggValues -> option f64) : option f64 :=
  match (sn ← exact;
         s ← head (filter (fun s => ss_metric s = "request_duration" /\ ss_tags s = ∅) (sn_series sn));
         pick (ss_agg s)) with
  | Some value => Some value
  | None => weighted_latency snap pick
  end.

Definition from_snapshots (snap : Snapshot) (exact : option Snapshot) : TimelinePoint :=
  let interval := if f64_gt (sn_interval_secs snap) f64_zero then sn_interval_secs snap else f64_of_Z 1 in
  mkTimelinePoint (sn_elapsed_secs snap)
    (f64_div (f64_of_Z (interval_request_count snap)) interval)
    (f64_div (f64_of_Z (interval_count snap "iterations")) interval)
    (f64_sum (omap (fun s => av_last (ss_agg s)) (filter (fun s => ss_metric s = "vus") (sn_series snap))))
    (interval_error_rate snap)
    (latency snap exact av_avg) (latency snap exact av_med)
    (latency snap exact av_p95) (latency snap exact av_p99) ∅.

Definition from_snapshot (snap : Snapshot) : TimelinePoint := from_snapshots snap None.

Record Summary := mkSummary {
  sum_name : option string;
  sum_run_id : string;
  sum_started_ms : Z;
  sum_ended_ms : Z;
  sum_duration_secs : f64;
  sum_scenarios : list string;
  sum_metrics : list MetricSummary;
  sum_checks : list CheckSummary;
  sum_thresholds : list ThresholdStatus;
  sum_thresholds_passed : bool;
  sum_aborted : option string;
  sum_snapshot : Snapshot;
  sum_timeline : list TimelinePoint;
}.

(** One [checks] series folded into its check's accumulator. *)
Definition check_step (checks : gmap string CheckAccumulator) (s : SeriesSnapshot) :
    gmap string CheckAccumulator :=
  let name := default "unnamed" (ss_tags s !! "check") in
  let entry := default (mkCheckAccumulator 0 0 ∅) (checks !! name) in
  let passes := f64_as_u64 (av_sum (ss_agg s)) in
  let fails := u64_sub (av_count (ss_agg s)) passes in
  let groups :=
    if Z.ltb 0 fails then
      match ss_tags s !! "failure_group" with
      | Some label =>
          let code := ss_tags s !! "failure_code" ≫= parse_i64 in
          <[(code, label) := u64_add (default 0 (ca_failure_groups entry !! (code, label))) fails]>
            (ca_failure_groups entry)
      | None => ca_failure_groups entry
      end
    else ca_failure_groups entry in
  <[name := mkCheckAccumulator (u64_add (ca_passes entry) passes) (u64_add (ca_fails entry) fails) groups]>
    checks.

(** Key order of [BTreeMap<(Option<i64>, String), _>]. *)
Definition group_le (a b : (option Z * string) * Z) : Prop :=
  match a.1.1, b.1.1 with
  | None, Some _ => True
  | Some _, None => False
  | None, None => str_le a.1.2 b.1.2
  | Some x, Some y => x < y \/ x = y /\ str_le a.1.2 b.1.2
  end.
#[global] Instance group_le_dec a b : Decision (group_le a b).
Proof. unfold group_le. destruct a.1.1, b.1.1; apply _. Defined.

Definition check_summary (kv : string * CheckAccumulator) : CheckSummary :=
  mkCheckSummary kv.1 (ca_passes kv.2) (ca_fails kv.2)
    ((fun g => mkCheckFailureGroupSummary g.1.1 g.1.2 g.2)
       <$> merge_sort group_le (map_to_list (ca_failure_groups kv.2))).

Definition check_summaries (series : list SeriesSnapshot) : list CheckSummary :=
  check_summary <$>
    merge_sort (fun a b => str_le a.1 b.1)
      (map_to_list (foldl check_step ∅ (filter (fun s => ss_metric s = "checks") series))).

Definition is_rollup (metric : string) : bool :=
  bool_decide (metric = "request_reqs") || bool_decide (metric = "request_duration").

(** The derived successful-throughput counter. *)
Definition request_reqs_ok (metrics : list MetricSummary) (elapsed_secs : f64) : option MetricSummary :=
  m ← head (filter (fun m => ms_name m = "http_req_failed") metrics);
  if Z.ltb 0 (av_count (ms_agg m)) then
    let ok := u64_sub (av_count (ms_agg m)) (f64_as_u64 (av_sum (ms_agg m))) in
    let ps := if f64_gt elapsed_secs f64_zero then Some (f64_div (f64_of_Z ok) elapsed_secs) else None in
    Some (mkMetricSummary "request_reqs_ok" Counter
            (mkAggValues ok (f64_of_Z ok) None None None None None None None None None None ps))
  else None.

Definition metric_summaries (agg : Aggregator) (snap : Snapshot) (now now_ms : Z) : list MetricSummary :=
  let names := sort_strings (remove_dups (ss_metric <$> sn_series snap)) in
  let metrics := omap (fun m => (fun kv => mkMetricSummary m kv.1 kv.2) <$> aggregate_selector agg m [] now)
                      names in
  let request_rollups := aggregate_snapshot agg [] now now_ms in
  let metrics := filter (fun m => is_rollup (ms_name m) = false) metrics in
  let metrics := metrics
    ++ ((fun s => mkMetricSummary (ss_metric s) (ss_kind s) (ss_agg s))
          <$> filter (fun s => ss_tags s = ∅ /\ is_rollup (ss_metric s) = true) (sn_series request_rollups)) in
  let metrics := match request_reqs_ok metrics (sn_elapsed_secs snap) with
                 | Some s => metrics ++ [s]
                 | None => metrics
                 end in
  merge_sort (fun a b => str_le (ms_name a) (ms_name b)) metrics.

Definition build (name : option string) (run_id : string) (started_ms : Z) (scenarios : list string)
    (agg : Aggregator) (thresholds : list ThresholdStatus) (aborted : option string)
    (timeline : list TimelinePoint) (now now_ms : Z) : Summary * Aggregator :=
  let '(snap, agg) := snapshot agg now now_ms in
  (mkSummary name run_id started_ms now_ms (sn_elapsed_secs snap) scenarios
     (metric_summaries agg snap now now_ms) (check_summaries (sn_series snap)) thresholds
     (forallb ts_passed thresholds) aborted snap timeline, agg).

(** ** Check accounting *)

Definition passes_of (s : SeriesSnapshot) : Z := f64_as_u64 (av_sum (ss_agg s)).
Definition check_name (s : SeriesSnapshot) : string := default "unnamed" (ss_tags s !! "check").
Definition of_check (name : string) (l : list SeriesSnapshot) : list SeriesSnapshot :=
  filter (fun s => ss_metric s = "checks" /\ check_name s = name) l.

(** Series as the aggregator reports them: no more passes than samples, and run
    totals that fit a counter. *)
Definition checks_fit (l : list SeriesSnapshot) : Prop :=
  Forall (fun s => passes_of s <= av_count (ss_agg s)) l
  /\ Zsum ((fun s => av_count (ss_agg s)) <$> l) < u64_modulus.

Lemma passes_nonneg (s : SeriesSnapshot) : 0 <= passes_of s.
Proof. apply f64_as_u64_range. Qed.

Lemma checks_fit_bounds (l : list SeriesSnapshot) :
  checks_fit l ->
  0 <= Zsum (passes_of <$> l) <= Zsum ((fun s => av_count (ss_agg s)) <$> l).
Proof.
  intros [Hl _]. induction Hl as [|s l Hs Hl IH]; [done|]. cbn [fmap list_fmap].
  rewrite !Zsum_cons. pose proof (passes_nonneg s). lia.
Qed.

Lemma of_check_snoc (name : string) (l : list SeriesSnapshot) (s : SeriesSnapshot) :
  of_check name (l ++ [s])
  = of_check name l ++ (if decide (ss_metric s = "checks" /\ check_name s = name) then [s] else []).
Proof. unfold of_check. by rewrite filter_app. Qed.

Lemma checks_fit_app (l k : list SeriesSnapshot) : checks_fit (l ++ k) -> checks_fit l.
Proof.
  intros [[Hl Hk]%Forall_app Hs]. split; [done|]. rewrite fmap_app, Zsum_app in Hs.
  assert (0 <= Zsum ((fun s => av_count (ss_agg s)) <$> k)); [|lia].
  apply Zsum_nonneg, Forall_fmap. eapply Forall_impl; [exact Hk|]. intros x Hx. simpl in *.
  pose proof (passes_nonneg x). lia.
Qed.

(** What the accumulator of a check holds. *)
Definition accounts (acc : CheckAccumulator) (l : list SeriesSnapshot) : Prop :=
  ca_passes acc = Zsum (passes_of <$> l)
  /\ ca_passes acc + ca_fails acc = Zsum ((fun s => av_count (ss_agg s)) <$> l).

Lemma check_step_accounts (m : gmap string CheckAccumulator) (l : list SeriesSnapshot) (s : SeriesSnapshot) :
  checks_fit (l ++ [s]) ->
  accounts (default (mkCheckAccumulator 0 0 ∅) (m !! check_name s)) l ->
  exists acc, check_step m s !! check_name s = Some acc /\ accounts acc (l ++ [s]).
Proof.
  intros Hfit [Hp Hpf]. unfold check_step. fold (check_name s). rewrite lookup_insert_eq.
  set (entry := default _ _) in *. fold (passes_of s).
  eexists. split; [done|]. unfold accounts. cbn [ca_passes ca_fails].
  pose proof (checks_fit_bounds _ Hfit) as Hb. pose proof (checks_fit_bounds _ (checks_fit_app _ _ Hfit)).
  destruct Hfit as [Hf Hsum].
  rewrite !fmap_app, !Zsum_app in *. cbn [fmap list_fmap] in *. rewrite !Zsum_cons in *.
  change (Zsum []) with 0 in *. apply Forall_app in Hf as [_ Hf]. apply Forall_cons in Hf as [Hf _].
  pose proof (passes_nonneg s).
  unfold u64_sub. rewrite (u64_wrap_small (_ - _)) by (unfold is_u64, u64_modulus in *; lia).
  rewrite !u64_add_small by (unfold is_u64, u64_modulus in *; lia). lia.
Qed.

Lemma check_fold_spec (name : string) (l : list SeriesSnapshot) :
  checks_fit (of_check name l) ->
  let m := foldl check_step ∅ (filter (fun s => ss_metric s = "checks") l) in
  match m !! name with
  | Some acc => of_check name l <> [] /\ accounts acc (of_check name l)
  | None => of_check name l = []
  end.
Proof.
  induction l as [|s l IH] using rev_ind; [done|].
  rewrite of_check_snoc, filter_app, foldl_app. intros Hfit.
  specialize (IH (checks_fit_app _ _ Hfit)). simpl in IH.
  set (m := foldl check_step ∅ (filter _ l)) in *.
  unfold filter, list_filter. simpl.
  destruct (decide (ss_metric s = "checks")) as [Hm|Hm]; simpl.
  - destruct (decide (check_name s = name)) as [Hn|Hn].
    + rewrite decide_True in * by done.
      destruct (check_step_accounts m (of_check name l) s Hfit) as (acc & Hacc & Ha).
      { rewrite Hn. destruct (m !! name); [by destruct IH|]. simpl. by rewrite IH. }
      rewrite Hn in Hacc. rewrite Hacc. split; [by destruct (of_check name l)|done].
    + rewrite decide_False, app_nil_r by naive_solver.
      unfold check_step. fold (check_name s). rewrite lookup_insert_ne by done. exact IH.
  - rewrite decide_False, app_nil_r by naive_solver. exact IH.
Qed.

(** The check table of a summary loses nothing: a check is listed exactly when
    the snapshot has a [checks] series for it, its passes are the passing samples of
    all its series, and passes and failures together are all of its samples. *)
Theorem check_summary_exact (series : list SeriesSnapshot) (name : string) :
  checks_fit (of_check name series) ->
  (of_check name series = [] -> forall c, c ∈ check_summaries series -> cs_name c <> name)
  /\ (of_check name series <> [] ->
      exists c, c ∈ check_summaries series /\ cs_name c = name
        /\ cs_passes c = Zsum (passes_of <$> of_check name series)
        /\ cs_passes c + cs_fails c = Zsum ((fun s => av_count (ss_agg s)) <$> of_check name series)).
Proof.
  intros Hfit. pose proof (check_fold_spec name series Hfit) as Hm. simpl in Hm.
  unfold check_summaries. set (m := foldl check_step ∅ _) in *. split.
  - intros Hnil c Hc <-. apply list_elem_of_fmap in Hc as ([n acc] & -> & Hin). simpl in *.
    rewrite merge_sort_Permutation in Hin. apply elem_of_map_to_list in Hin.
    rewrite Hin in Hm. by destruct Hm.
  - intros Hne. destruct (m !! name) as [acc|] eqn:Hl; [|done].
    destruct Hm as (_ & Hp & Hpf). exists (check_summary (name, acc)). split; [|done].
    apply list_elem_of_fmap_2. rewrite merge_sort_Permutation. by apply elem_of_map_to_list.
Qed.
End Summary.

Definition ok_check (passes count : Z) : SeriesSnapshot :=
  mkSeriesSnapshot "checks" Rate {[ "check" := "status is 200" ]}
    (mkAggValues count (f64_of_Z passes) None None None None None None None None None None None) 0 f64_zero.

Lemma check_summary_exact_witness :
  exists c, c ∈ check_summaries [ok_check 3 5; ok_check 4 4] /\ cs_name c = "status is 200"
    /\ cs_passes c = 7 /\ cs_passes c + cs_fails c = 9.
Proof.
  refine (proj2 (check_summary_exact [ok_check 3 5; ok_check 4 4] "status is 200" _) _).
  - split; [|by vm_compute]. by repeat constructor; vm_compute.
  - by vm_compute.
Defined.
