(* ===== verification/Pipeline.v ===== *)
(** * The metrics pipeline of one engine (crates/loadr-core/src/engine.rs, output.rs,
    metrics.rs, crates/loadr-agent/src/agent.rs)

    [MetricsBus] takes the samples of the virtual users to a channel or to the shards;
    the aggregator task ([aggregator_loop]) drains them, snapshots once per interval,
    feeds the outputs, evaluates the thresholds and hands the drained deltas to the
    outputs that want them; [DeltaOutput] is the agent's output, which puts a delta
    into the uplink window or refuses it.  An [Output] is a record of functions on a
    world [W] its methods share; a method that may park returns a [poll].

    The task is cut where it can park: [tick_begin] and [finalize_begin] run up to the
    delta dispatch, [dispatch_poll] is one poll of it.  Clock readings are arguments. *)

From S2P Require Import Prelude Float64 Str Dur Metrics Aggregate Federation Uplink Proto Threshold Thresholds Summary.

Notation ThresholdAbort := "threshold crossed (abort_on_fail)".

Section Pipeline.
Context `{Hdr}.

(** ** Outputs *)

Record Output (W : Type) := mkOutput {
  name : string;
  on_samples : list Sample -> W -> W;
  wants_samples : bool;
  on_snapshot : Snapshot -> W -> W;
  wants_delta : bool;
  on_delta : MetricsDelta -> bool -> W -> W * poll bool;
  finish : Summary -> W -> W;
}.
Arguments mkOutput {W}.
Arguments name {W} _.
Arguments on_samples {W} _ _ _.
Arguments wants_samples {W} _.
Arguments on_snapshot {W} _ _ _.
Arguments wants_delta {W} _.
Arguments on_delta {W} _ _ _ _.
Arguments finish {W} _ _ _.

(** The trait's default methods. *)
Definition default_output {W : Type} (n : string) : Output W :=
  mkOutput n (fun _ w => w) true (fun _ w => w) false (fun _ _ w => (w, Ready true)) (fun _ w => w).

(** [ChannelOutput]: its world is the watch channel's current value. *)
Definition ChannelOutput (n : string) : Output (option Snapshot) :=
  let d := default_output n in
  mkOutput n (on_samples d) false (fun snapshot _ => Some snapshot) (wants_delta d) (on_delta d) (finish d).

(** ** The bus *)

(** The unbounded channel a [Tx] sink sends to: what it still holds, and whether the
    receiver is open. *)
Record SampleChannel := mkSampleChannel {
  sc_queue : list Sample;
  sc_open : bool;
}.

Inductive Sink :=
| Tx
| Shard (idx : nat).

(** What the handles of one run share. *)
Record BusState := mkBusState {
  bs_channel : SampleChannel;
  bs_shards : MetricShards;
  bs_in_flight : Z;
}.

Definition channel_send (sample : Sample) (c : SampleChannel) : SampleChannel :=
  if sc_open c then mkSampleChannel (sc_queue c ++ [sample]) true else c.

Definition bus_new : Sink := Tx.
Definition bus_sharded : Sink := Shard 0.

Definition for_vu (sink : Sink) (vu_id : Z) (b : BusState) : Sink :=
  match sink with
  | Tx => Tx
  | Shard _ => Shard (Z.to_nat (vu_id `mod` Z.of_nat (length (shards (bs_shards b)))))
  end.

Definition set_channel (c : SampleChannel) (b : BusState) : BusState :=
  mkBusState c (bs_shards b) (bs_in_flight b).
Definition set_shards (ms : MetricShards) (b : BusState) : BusState :=
  mkBusState (bs_channel b) ms (bs_in_flight b).
Definition set_in_flight (n : Z) (b : BusState) : BusState :=
  mkBusState (bs_channel b) (bs_shards b) n.

Definition emit (sink : Sink) (sample : Sample) (b : BusState) : BusState :=
  match sink with
  | Tx => set_channel (channel_send sample (bs_channel b)) b
  | Shard idx => set_shards (shards_record (bs_shards b) idx sample) b
  end.

Definition emit_value (sink : Sink) (metric : string) (k : MetricKind) (value : f64) (tags : Tags)
    (now_ms : Z) (b : BusState) : BusState :=
  let timestamp_ms := match sink with Tx => now_ms | Shard _ => 0 end in
  emit sink (mkSample metric k value tags timestamp_ms) b.

Definition emit_cached (sink : Sink) (metric : string) (k : MetricKind) (value : f64)
    (tags : CachedTags) (now_ms : Z) (b : BusState) : BusState :=
  match sink with
  | Tx => emit_value sink metric k value (ct_tags tags) now_ms b
  | Shard idx => set_shards (shards_record_cached (bs_shards b) idx metric k value (ct_tags tags)) b
  end.

Definition emit_cached_values (sink : Sink) (values : list (string * MetricKind * f64))
    (tags : CachedTags) (now_ms : Z) (b : BusState) : BusState :=
  match sink with
  | Tx => foldl (fun b '(metric, k, v) => emit_value sink metric k v (ct_tags tags) now_ms b) b values
  | Shard idx => set_shards (record_cached_values (bs_shards b) idx values (ct_tags tags)) b
  end.

Definition bus_rate (sink : Sink) (metric : string) (pass : bool) (tags : Tags) (now_ms : Z)
    (b : BusState) : BusState :=
  emit_value sink metric Rate (f64_of_Z (if pass then 1 else 0)) tags now_ms b.

(** [AtomicU64] wraps. *)
Definition begin_request (b : BusState) : BusState := set_in_flight (u64_add (bs_in_flight b) 1) b.
Definition end_request (b : BusState) : BusState := set_in_flight (u64_sub (bs_in_flight b) 1) b.

(** One tick of the gauge reporter of [Engine::run]: the active virtual users over the
    scenarios' counters, the most ever seen, the requests in flight. *)
Definition gauge_tick (sink : Sink) (counters : list Z) (max_seen : Z) (tags : Tags) (now_ms : Z) (b : BusState) :
    Z * BusState :=
  let active := u64_sum counters in
  let max_seen := Z.max max_seen active in
  let b := emit_value sink "vus" Gauge (f64_of_Z active) tags now_ms b in
  let b := emit_value sink "vus_max" Gauge (f64_of_Z max_seen) tags now_ms b in
  (max_seen, emit_value sink "requests_in_flight" Gauge (f64_of_Z (bs_in_flight b)) tags now_ms b).

(** The terminal values published before the bus closes. *)
Definition final_gauges (sink : Sink) (tags : Tags) (now_ms : Z) (b : BusState) : BusState :=
  let b := emit_value sink "vus" Gauge f64_zero tags now_ms b in
  emit_value sink "requests_in_flight" Gauge (f64_of_Z (bs_in_flight b)) ∅ now_ms b.

(** Any output that wants samples pins the run to the channel; [cores] is what
    [available_parallelism] says. *)
Definition choose_bus {W : Type} (outputs : list (Output W)) (cores : option nat) (now : Z) : Sink * option MetricShards :=
  if existsb wants_samples outputs then (bus_new, None)
  else (bus_sharded, Some (MetricShards_new (Nat.min (default 1%nat cores) 16) now)).

(** ** The aggregator task *)

Section Loop.
Context {W : Type}.
Context (outputs : list (Output W)) (thresholds : list CompiledThreshold).

Definition BATCH_MAX : nat := 8192.

(** A delta on its way to the outputs: those left to call, and [all_accepted]. *)
Record Dispatch := mkDispatch {
  dp_delta : MetricsDelta;
  dp_rest : list (Output W);
  dp_accepted : bool;
}.

Inductive LoopPc :=
| Selecting
| Ticking (d : Dispatch)
| Flushing (d : Dispatch)
| Ended.

Record Loop := mkLoop {
  agg : Aggregator;
  batch : list Sample;
  timeline : list TimelinePoint;
  snapshots : option Snapshot;
  aggregates : option Snapshot;
  statuses : list ThresholdStatus;
  abort_sent : bool;
  aborts : list string;
  pc : LoopPc;
}.

Definition Loop_new (now : Z) : Loop :=
  mkLoop (Aggregator_new now) [] [] None None [] false [] Selecting.

Definition set_agg (a : Aggregator) (l : Loop) : Loop :=
  mkLoop a (batch l) (timeline l) (snapshots l) (aggregates l) (statuses l) (abort_sent l) (aborts l) (pc l).
Definition set_batch (b : list Sample) (l : Loop) : Loop :=
  mkLoop (agg l) b (timeline l) (snapshots l) (aggregates l) (statuses l) (abort_sent l) (aborts l) (pc l).
Definition set_pc (p : LoopPc) (l : Loop) : Loop :=
  mkLoop (agg l) (batch l) (timeline l) (snapshots l) (aggregates l) (statuses l) (abort_sent l) (aborts l) p.

Definition any_wants_delta : bool := existsb wants_delta outputs.

(** The [for] loop of [dispatch_delta], up to the first output that parks. *)
Fixpoint dispatch_loop (rest : list (Output W)) (delta : MetricsDelta) (last ok : bool) (w : W) :
    W * list (Output W) * bool :=
  match rest with
  | [] => (w, [], ok)
  | o :: rest' =>
      if wants_delta o then
        match on_delta o delta last w with
        | (w', Ready accepted) => dispatch_loop rest' delta last (ok && accepted) w'
        | (w', Uplink.Pending) => (w', rest, ok)
        end
      else dispatch_loop rest' delta last ok w
  end.

(** [take_delta], and the dispatch it starts unless the delta is empty. *)
Definition dispatch_begin (l : Loop) : Loop * option Dispatch :=
  let '(a, delta) := take_delta (agg l) in
  (set_agg a l,
   match delta with [] => None | _ => Some (mkDispatch delta outputs true) end).

Definition dispatch_end (d : Dispatch) (l : Loop) : Loop :=
  if dp_accepted d then l else set_agg (restore_delta (agg l) (dp_delta d)) l.

Definition tick_end (now : Z) (l : Loop) : Loop :=
  let '(sts, abort) := evaluate_all thresholds (agg l) (elapsed (agg l) now) now in
  let send := abort && negb (abort_sent l) in
  mkLoop (agg l) (batch l) (timeline l) (snapshots l) (aggregates l) sts
    (abort_sent l || send)
    (if send then aborts l ++ [ThresholdAbort] else aborts l) Selecting.

Definition publish (aggs snap : Snapshot) (l : Loop) : Loop :=
  mkLoop (agg l) (batch l) (timeline l) (Some snap) (Some aggs) (statuses l) (abort_sent l) (aborts l) (pc l).
Definition push_timeline (p : TimelinePoint) (l : Loop) : Loop :=
  mkLoop (agg l) (batch l) (timeline l ++ [p]) (snapshots l) (aggregates l) (statuses l) (abort_sent l)
    (aborts l) (pc l).

(** [tick] up to the dispatch; [now] is read by the calls it makes. *)
Definition tick_begin (now now_ms : Z) (l : Loop) (w : W) : Loop * W :=
  let aggs := aggregate_snapshot (agg l) [["scenario"]] now now_ms in
  let '(snap, a) := snapshot (agg l) now now_ms in
  let l := push_timeline (from_snapshots snap (Some aggs)) (set_agg a l) in
  let w := foldl (fun w o => on_snapshot o snap w) w outputs in
  let l := publish aggs snap l in
  if any_wants_delta then
    match dispatch_begin l with
    | (l, Some d) => (set_pc (Ticking d) l, w)
    | (l, None) => (tick_end now l, w)
    end
  else (tick_end now l, w).

(** [finalize] up to the dispatch. *)
Definition finalize_begin (now now_ms : Z) (l : Loop) (w : W) : Loop * W :=
  let '(sts, _) := evaluate_all thresholds (agg l) (elapsed (agg l) now) now in
  let aggs := aggregate_snapshot (agg l) [["scenario"]] now now_ms in
  let '(snap, a) := snapshot (agg l) now now_ms in
  let l := set_agg a l in
  let l := mkLoop (agg l) (batch l) (timeline l) (snapshots l) (aggregates l) sts (abort_sent l) (aborts l) (pc l) in
  let l :=
    if f64_gt (sn_interval_secs snap) f64_zero
       && existsb (fun s => Z.ltb 0 (ss_interval_count s) || bool_decide (ss_metric s = "vus")) (sn_series snap)
    then push_timeline (from_snapshots snap (Some aggs)) l else l in
  let l := publish aggs snap l in
  if any_wants_delta then
    match dispatch_begin l with
    | (l, Some d) => (set_pc (Flushing d) l, w)
    | (l, None) => (set_pc Ended l, w)
    end
  else (set_pc Ended l, w).

(** One poll of the dispatch in progress, and what follows it when it completes. *)
Definition dispatch_poll (now : Z) (l : Loop) (w : W) : Loop * W :=
  match pc l with
  | Ticking d =>
      let '(w, rest, ok) := dispatch_loop (dp_rest d) (dp_delta d) false (dp_accepted d) w in
      let d := mkDispatch (dp_delta d) rest ok in
      match rest with
      | [] => (tick_end now (dispatch_end d l), w)
      | _ => (set_pc (Ticking d) l, w)
      end
  | Flushing d =>
      let '(w, rest, ok) := dispatch_loop (dp_rest d) (dp_delta d) true (dp_accepted d) w in
      let d := mkDispatch (dp_delta d) rest ok in
      match rest with
      | [] => (set_pc Ended (dispatch_end d l), w)
      | _ => (set_pc (Flushing d) l, w)
      end
  | Selecting | Ended => (l, w)
  end.

Definition send_batch (l : Loop) (w : W) : Loop * W :=
  match batch l with
  | [] => (l, w)
  | b => (set_batch [] l, foldl (fun w o => on_samples o b w) w outputs)
  end.

(** The [recv] arm: one sample, then everything the channel holds until the batch is
    full; a full batch goes out.  [None] when the channel is empty and closed or
    nothing arrived. *)
Definition bus_take (queue : list Sample) (l : Loop) : Loop * list Sample :=
  let n := Nat.max 1 (BATCH_MAX - length (batch l)) in
  (set_batch (batch l ++ take n queue) (set_agg (foldl record (agg l) (take n queue)) l), drop n queue).

Definition bus_recv (queue : list Sample) (l : Loop) (w : W) : Loop * list Sample * W :=
  let '(l, queue) := bus_take queue l in
  if Nat.leb BATCH_MAX (length (batch l))
  then let '(l, w) := send_batch l w in (l, queue, w)
  else (l, queue, w).

Definition bus_tick (now now_ms : Z) (l : Loop) (w : W) : Loop * W :=
  let '(l, w) := send_batch l w in tick_begin now now_ms l w.

(** [None => break]: the last batch, then [finalize]. *)
Definition bus_end (now now_ms : Z) (l : Loop) (w : W) : Loop * W :=
  let '(l, w) := send_batch l w in finalize_begin now now_ms l w.

Definition shards_tick (now now_ms : Z) (ms : MetricShards) (l : Loop) (w : W) : MetricShards * (Loop * W) :=
  let '(ms, a) := drain_into ms (agg l) in (ms, tick_begin now now_ms (set_agg a l) w).

Definition shards_end (now now_ms : Z) (ms : MetricShards) (l : Loop) (w : W) : MetricShards * (Loop * W) :=
  let '(ms, a) := drain_into ms (agg l) in (ms, finalize_begin now now_ms (set_agg a l) w).
End Loop.
End Pipeline.

(** ** Sample outputs miss nothing

    In channel mode the task batches the samples it receives and hands each batch to
    every output.  [seen] reads off the world what an output has been given. *)

Section BusRun.
Context `{Hdr} {W : Type}.
Context (outputs : list (Output W)) (thresholds : list CompiledThreshold) (w0 : W).

(** The channel, the task and the world; the log is every sample sent while the
    receiver was open. *)
Inductive bus_run : SampleChannel -> Loop (W := W) -> W -> list Sample -> Prop :=
| br_new now : bus_run (mkSampleChannel [] true) (Loop_new now) w0 []
| br_send c l w log sample :
    bus_run c l w log -> bus_run (channel_send sample c) l w (if sc_open c then log ++ [sample] else log)
| br_recv c l w log l' queue w' :
    bus_run c l w log -> pc l = Selecting -> sc_queue c <> [] ->
    bus_recv outputs (sc_queue c) l w = (l', queue, w') ->
    bus_run (mkSampleChannel queue (sc_open c)) l' w' log
| br_tick c l w log now now_ms l' w' :
    bus_run c l w log -> pc l = Selecting ->
    bus_tick outputs thresholds now now_ms l w = (l', w') -> bus_run c l' w' log
| br_poll c l w log now l' w' :
    bus_run c l w log -> dispatch_poll thresholds now l w = (l', w') -> bus_run c l' w' log
| br_close c l w log :
    bus_run c l w log -> bus_run (mkSampleChannel (sc_queue c) false) l w log
| br_end c l w log now now_ms l' w' :
    bus_run c l w log -> pc l = Selecting -> sc_queue c = [] -> sc_open c = false ->
    bus_end outputs thresholds now now_ms l w = (l', w') -> bus_run c l' w' log.

(** One output of the list appends what it is given to [seen], the others leave it
    alone, and nothing but [on_samples] touches it. *)
Record recorder (seen : W -> list Sample) : Prop := {
  rec_samples b w : seen (foldl (fun w o => on_samples _ o b w) w outputs) = seen w ++ b;
  rec_snapshot sn w : seen (foldl (fun w o => on_snapshot _ o sn w) w outputs) = seen w;
  rec_delta o d last w : o ∈ outputs -> seen (on_delta _ o d last w).1 = seen w;
}.

Context (seen : W -> list Sample) (Hrec : recorder seen).

Lemma send_batch_seen (l : Loop (W := W)) (w : W) :
  let '(l', w') := send_batch outputs l w in
  batch l' = [] /\ seen w' = seen w ++ batch l /\ pc l' = pc l.
Proof.
  unfold send_batch. destruct (batch l) as [|s b] eqn:Hb.
  - rewrite Hb, app_nil_r. done.
  - split_and!; [done|apply Hrec|done].
Qed.

Lemma dispatch_loop_seen (rest : list (Output W)) (d : MetricsDelta) (last ok : bool) (w : W) :
  rest ⊆ outputs -> seen (dispatch_loop rest d last ok w).1.1 = seen w
  /\ (dispatch_loop rest d last ok w).1.2 ⊆ outputs.
Proof.
  revert ok w. induction rest as [|o rest IH]; intros ok w Hin; simpl; [done|].
  assert (rest ⊆ outputs) as Hr by (intros x Hx; apply Hin; by right).
  destruct (wants_delta _ o); [|by apply IH].
  pose proof (rec_delta seen Hrec o d last w (Hin o (list_elem_of_here _ _))) as Hd.
  destruct (on_delta _ o d last w) as [w' [a|]]; simpl in *; [|done].
  destruct (IH (ok && a) w' Hr) as [-> ?]. done.
Qed.

Definition rest_ok (l : Loop (W := W)) : Prop :=
  match pc l with Ticking d | Flushing d => dp_rest d ⊆ outputs | _ => True end.

(** The task has left its loop. *)
Definition finalizing (l : Loop (W := W)) : Prop :=
  match pc l with Flushing _ | Ended => True | _ => False end.

Lemma dispatch_begin_batch (l : Loop (W := W)) :
  let '(l', od) := dispatch_begin outputs l in
  batch l' = batch l /\ pc l' = pc l /\ (forall d, od = Some d -> dp_rest d = outputs).
Proof.
  unfold dispatch_begin. destruct (take_delta (agg l)) as [a delta]. split_and!; [done..|].
  intros d. destruct delta; [done|]. by intros [= <-].
Qed.

Lemma tick_end_batch (now : Z) (l : Loop (W := W)) :
  batch (tick_end thresholds now l) = batch l /\ pc (tick_end thresholds now l) = Selecting.
Proof. unfold tick_end. by destruct (evaluate_all _ _ _ _). Qed.

Lemma tick_begin_seen (now now_ms : Z) (l : Loop (W := W)) (w : W) :
  let '(l', w') := tick_begin outputs thresholds now now_ms l w in
  batch l' = batch l /\ seen w' = seen w /\ rest_ok l' /\ ~ finalizing l'.
Proof.
  unfold tick_begin, rest_ok, finalizing. destruct (snapshot (agg l) now now_ms) as [sn a]. set (l1 := publish _ _ _).
  destruct (any_wants_delta outputs).
  - pose proof (dispatch_begin_batch l1) as Hb. destruct (dispatch_begin outputs l1) as [l2 [d|]];
      destruct Hb as (Hb & _ & Hd).
    + simpl. rewrite (Hd d eq_refl). split_and!; [done|apply Hrec|done|by intros []].
    + destruct (tick_end_batch now l2) as [-> ->]. split_and!; [done|apply Hrec|done|by intros []].
  - destruct (tick_end_batch now l1) as [-> ->]. split_and!; [done|apply Hrec|done|by intros []].
Qed.

Lemma finalize_begin_seen (now now_ms : Z) (l : Loop (W := W)) (w : W) :
  let '(l', w') := finalize_begin outputs thresholds now now_ms l w in
  batch l' = batch l /\ w' = w /\ rest_ok l'.
Proof.
  unfold finalize_begin, rest_ok. destruct (evaluate_all _ _ _ _) as [sts ab].
  destruct (snapshot (agg l) now now_ms) as [sn a]. set (l1 := publish _ _ _).
  assert (batch l1 = batch l) as Hl1 by (subst l1; by destruct (_ && _)).
  destruct (any_wants_delta outputs); [|by rewrite <- Hl1].
  pose proof (dispatch_begin_batch l1) as Hb. destruct (dispatch_begin outputs l1) as [l2 [d|]];
    destruct Hb as (Hb & _ & Hd); simpl; rewrite <- Hl1; [|done]. by rewrite (Hd d eq_refl).
Qed.

Lemma dispatch_poll_seen (now : Z) (l : Loop (W := W)) (w : W) :
  rest_ok l ->
  let '(l', w') := dispatch_poll thresholds now l w in
  batch l' = batch l /\ seen w' = seen w /\ rest_ok l' /\ (finalizing l' -> finalizing l).
Proof.
  unfold dispatch_poll, rest_ok, finalizing. destruct (pc l) as [|d|d|] eqn:Hl; intros Hr; [rewrite Hl; by split_and!| | |rewrite Hl; by split_and!].
  - pose proof (dispatch_loop_seen (dp_rest d) (dp_delta d) false (dp_accepted d) w Hr) as [Hs Hr'].
    destruct (dispatch_loop _ _ _ _ _) as [[w' rest] ok]. simpl in *. destruct rest as [|o rest]; [|by split_and!].
    set (l1 := dispatch_end _ l). destruct (tick_end_batch now l1) as [-> ->].
    assert (batch l1 = batch l) as -> by (subst l1; unfold dispatch_end; by destruct (dp_accepted _)). by split_and!.
  - pose proof (dispatch_loop_seen (dp_rest d) (dp_delta d) true (dp_accepted d) w Hr) as [Hs Hr'].
    destruct (dispatch_loop _ _ _ _ _) as [[w' rest] ok]. simpl in *. destruct rest as [|o rest]; [|by split_and!].
    assert (batch (dispatch_end (mkDispatch (dp_delta d) [] ok) l) = batch l) as Hb
      by (unfold dispatch_end; by destruct ok). by split_and!.
Qed.

(** Nothing between the channel and the outputs is dropped, doubled or reordered. *)
Record bus_ok (c : SampleChannel) (l : Loop (W := W)) (w : W) (log : list Sample) : Prop := {
  bo_log : seen w ++ batch l ++ sc_queue c = seen w0 ++ log;
  bo_rest : rest_ok l;
  bo_end : finalizing l -> batch l = [] /\ sc_queue c = [] /\ sc_open c = false;
}.

Lemma bus_run_ok (c : SampleChannel) (l : Loop) (w : W) (log : list Sample) :
  bus_run c l w log -> bus_ok c l w log.
Proof.
  induction 1 as [now|c l w log s _ [Hl Hr He]|c l w log l' queue w' _ [Hl Hr He] Hpc Hq Hb
                 |c l w log now now_ms l' w' _ [Hl Hr He] Hpc Ht|c l w log now l' w' _ [Hl Hr He] Ht
                 |c l w log _ [Hl Hr He]|c l w log now now_ms l' w' _ [Hl Hr He] Hpc Hq Hop Ht].
  - by constructor.
  - unfold channel_send. destruct (sc_open c) eqn:Ho; [|constructor; [done..|]; naive_solver]. constructor; [|done|].
    + simpl. rewrite (app_assoc (seen w0)), <- Hl. by rewrite <- !app_assoc.
    + intros Hf. destruct (He Hf) as (_ & _ & ?). congruence.
  - unfold bus_recv, bus_take in Hb. set (n := Nat.max 1 _) in Hb. set (l1 := set_batch _ _) in Hb.
    assert (batch l1 = batch l ++ take n (sc_queue c)) as Hl1 by done.
    assert (seen w ++ batch l1 ++ drop n (sc_queue c) = seen w0 ++ log) as Hlog.
    { rewrite Hl1, <- app_assoc, take_drop. exact Hl. }
    assert (pc l1 = Selecting) as Hpc1 by done.
    destruct (Nat.leb BATCH_MAX (length (batch l1))).
    + pose proof (send_batch_seen l1 w) as Hs. destruct (send_batch outputs l1 w) as [l2 w2].
      destruct Hs as (Hb2 & Hw2 & Hp2). injection Hb as <- <- <-.
      constructor; unfold rest_ok, finalizing; rewrite ?Hp2, ?Hpc1; [|done|done]. by rewrite Hb2, Hw2, <- app_assoc.
    + injection Hb as <- <- <-. by constructor; unfold rest_ok, finalizing; rewrite ?Hpc1.
  - unfold bus_tick in Ht. pose proof (send_batch_seen l w) as Hs. destruct (send_batch outputs l w) as [l1 w1].
    destruct Hs as (Hb1 & Hw1 & Hp1). pose proof (tick_begin_seen now now_ms l1 w1) as Htb. rewrite Ht in Htb.
    destruct Htb as (Hb2 & Hw2 & Hr2 & Hne). constructor; [|done|].
    + by rewrite Hb2, Hb1, Hw2, Hw1, <- app_assoc.
    + by intros Hf%Hne.
  - pose proof (dispatch_poll_seen now l w Hr) as Hp. rewrite Ht in Hp. destruct Hp as (Hb & Hw & Hr' & Hpc).
    constructor; [by rewrite Hb, Hw|done|]. rewrite Hb. by intros Hf%Hpc%He.
  - constructor; [done|done|]. intros Hf. by destruct (He Hf) as (? & ? & _).
  - unfold bus_end in Ht. pose proof (send_batch_seen l w) as Hs. destruct (send_batch outputs l w) as [l1 w1].
    destruct Hs as (Hb1 & Hw1 & Hp1). pose proof (finalize_begin_seen now now_ms l1 w1) as Htb. rewrite Ht in Htb.
    destruct Htb as (Hb2 & -> & Hr2). constructor; [|done|].
    + by rewrite Hb2, Hb1, Hw1, <- app_assoc.
    + intros _. by rewrite Hb2, Hb1.
Qed.

(** C35: the outputs that record samples miss nothing: at every moment what such an output
    has been handed, what waits in the batch and what waits in the channel are, in this
    order, exactly the samples sent; when the task has ended the output has all of them. *)
Theorem bus_outputs_complete (c : SampleChannel) (l : Loop) (w : W) (log : list Sample) :
  bus_run c l w log ->
  seen w ++ batch l ++ sc_queue c = seen w0 ++ log
  /\ (pc l = Ended -> seen w = seen w0 ++ log).
Proof.
  intros [Hl _ He]%bus_run_ok. split; [done|]. intros Hpc.
  destruct He as (Hb & Hq & _); [unfold finalizing; by rewrite Hpc|].
  by rewrite Hb, Hq, !app_nil_r in Hl.
Qed.
End BusRun.

(** ** A concrete run with one recording output *)

Module PipelineDemo.
Import HdrModel.

Definition file_output : Output (list Sample) :=
  mkOutput _ "file" (fun b w => w ++ b) true (fun _ w => w) false (fun _ _ w => (w, Ready true)) (fun _ w => w).

Lemma file_recorder : recorder [file_output] id.
Proof. split; [done|done|]. by intros o d last w ->%list_elem_of_singleton. Qed.

Definition s7 : Sample := trend_sample 7.
Definition c1 : SampleChannel := channel_send s7 (mkSampleChannel [] true).
Definition l0 : Loop (W := list Sample) := Loop_new 0.
Definition recvd := bus_recv [file_output] (sc_queue c1) l0 [].
Definition c2 : SampleChannel := mkSampleChannel recvd.1.2 false.
Definition ended := bus_end [file_output] [] 1000000000 1 recvd.1.1 recvd.2.

Lemma run_recv c l w log r :
  bus_run [file_output] [] [] c l w log -> pc l = Selecting -> sc_queue c <> [] ->
  bus_recv [file_output] (sc_queue c) l w = r ->
  bus_run [file_output] [] [] (mkSampleChannel r.1.2 (sc_open c)) r.1.1 r.2 log.
Proof. intros Hr Hpc Hq He. destruct r as [[l' q] w']. by eapply br_recv. Qed.

Lemma run_end c l w log now now_ms r :
  bus_run [file_output] [] [] c l w log -> pc l = Selecting -> sc_queue c = [] -> sc_open c = false ->
  bus_end [file_output] [] now now_ms l w = r ->
  bus_run [file_output] [] [] c r.1 r.2 log.
Proof. intros Hr Hpc Hq Ho He. destruct r as [l' w']. by eapply br_end. Qed.

Lemma c1_run : bus_run [file_output] [] [] c1 l0 [] [s7].
Proof. exact (br_send [file_output] [] [] _ _ _ _ s7 (br_new [file_output] [] [] 0)). Qed.

Lemma c1_some : sc_queue c1 <> [].
Proof. done. Qed.

Lemma c2_run : bus_run [file_output] [] [] c2 ended.1 ended.2 [s7].
Proof.
  exact (run_end c2 recvd.1.1 recvd.2 [s7] _ _ ended
    (br_close [file_output] [] [] _ _ _ _ (run_recv c1 l0 [] [s7] recvd c1_run eq_refl c1_some eq_refl))
    eq_refl eq_refl eq_refl eq_refl).
Qed.

Lemma bus_outputs_complete_witness : ended.2 = [s7].
Proof.
  refine (proj2 (bus_outputs_complete [file_output] [] [] id file_recorder c2 ended.1 ended.2 [s7] c2_run) _).
  vm_compute. reflexivity.
Defined.
End PipelineDemo.
