(* ===== verification/Flush.v ===== *)
(** * From the virtual users to the uplink window: federation is exact

    [DeltaOutput] (crates/loadr-agent/src/agent.rs) is the only consumer of the deltas
    the aggregator task of Pipeline.v drains.  Here the shards, the task, the output and
    the window of Uplink.v run together, with every other user of the window, and
    [SeriesMeasure] of Federation.v is extended to what a delta carries: what the window
    has accepted, what is in flight and what is still pending always add up to the
    samples recorded. *)

From S2P Require Import Prelude Float64 Str Metrics Aggregate Federation Uplink Proto Threshold Thresholds Summary Pipeline.

(** What [DeltaOutput] uses of the window. *)
Class Window (W : Type) := {
  win_is_full : W -> bool;
  win_try_enqueue : W -> UplinkMessage -> W * bool;
  win_enqueue : W -> UplinkMessage -> W * poll bool;
}.

Section Output.
Context `{Hdr} {W : Type} `{!Window W}.
(** [serde_json::to_vec]. *)
Context (delta_to_json : MetricsDelta -> option string).
Context (run_id : string).

Definition DeltaOutput_batch (delta : MetricsDelta) : option UplinkMessage :=
  (fun delta_json => agent_msg (MMetrics (mkMetricsBatch run_id delta_json))) <$> delta_to_json delta.

Definition DeltaOutput_on_delta (delta : MetricsDelta) (last : bool) (w : W) : W * poll bool :=
  if negb last && win_is_full w then (w, Ready false)
  else match DeltaOutput_batch delta with
       | None => (w, Ready true)
       | Some msg =>
           if last then
             match win_enqueue w msg with
             | (w, Ready _) => (w, Ready true)
             | (w, Uplink.Pending) => (w, Uplink.Pending)
             end
           else let '(w, accepted) := win_try_enqueue w msg in (w, Ready accepted)
       end.

Definition DeltaOutput : Output W :=
  let d := default_output "controller-delta" in
  mkOutput _ (name _ d) (on_samples _ d) false (on_snapshot _ d) true DeltaOutput_on_delta (finish _ d).
End Output.

(** ** The window as a world, with the ghost log of what it accepted *)

Section Logged.
Context `{TokioNotify}.
Context (encoded_len : UplinkMessage -> Z).

#[global] Instance uplink_window : Window Uplink := {|
  win_is_full := is_full;
  win_try_enqueue u m := try_enqueue encoded_len u m;
  win_enqueue u m := let '(u, r, _) := enqueue encoded_len u m in (u, r);
|}.

Record Logged := mkLogged {
  lg_uplink : @Uplink _ (option AgentMsg);
  lg_queued : list (option AgentMsg);
}.

Definition logged_op {R : Type} (accepted : R -> bool) (m : UplinkMessage)
    (r : @Uplink _ (option AgentMsg) * R) (w : Logged) : Logged * R :=
  (mkLogged r.1 (if accepted r.2 then lg_queued w ++ [msg m] else lg_queued w), r.2).

#[global] Instance logged_window : Window Logged := {|
  win_is_full w := win_is_full (lg_uplink w);
  win_try_enqueue w m := logged_op id m (win_try_enqueue (lg_uplink w) m) w;
  win_enqueue w m :=
    logged_op (fun r => match r with Ready b => b | Uplink.Pending => false end) m
      (win_enqueue (lg_uplink w) m) w;
|}.

(** The batches of [run_id] in a log. *)
Definition batch_of (run_id : string) (p : option AgentMsg) : option string :=
  match p with
  | Some (MMetrics b) => if decide (mb_run_id b = run_id) then Some (mb_delta_json b) else None
  | _ => None
  end.
Definition batches (run_id : string) (queued : list (option AgentMsg)) : list string :=
  omap (batch_of run_id) queued.

Lemma push_result (u : Uplink) (m : UplinkMessage) :
  match (push encoded_len u m).2 with
  | Ok _ => closed (state u) = false /\ closed (state (push encoded_len u m).1) = false
  | Err Closed => closed (state u) = true /\ (push encoded_len u m).1 = u
  | Err (Full _) => (push encoded_len u m).1 = u
  end.
Proof.
  unfold push. destruct (closed (state u)) eqn:Hc; [done|].
  destruct (State_is_full _ _ _); [done|]. cbn. auto.
Qed.
End Logged.

(** ** What a delta carries *)

Section Measure.
Context `{Hdr}.
Notation SeriesKey := (string * Tags)%type.

(** Two entries that differ in floating-point values only: what a round trip through
    JSON text promises. *)
Definition data_sim (d d' : SeriesDeltaData) : Prop :=
  match d, d' with
  | DCounter _, DCounter _ | DGauge _ _ _, DGauge _ _ _ => True
  | DRate p t, DRate p' t' => p = p' /\ t = t'
  | DTrend b _ c _ _, DTrend b' _ c' _ _ => b = b' /\ c = c'
  | _, _ => False
  end.
Definition entry_sim (sd sd' : SeriesDelta) : Prop :=
  d_metric sd = d_metric sd' /\ d_kind sd = d_kind sd' /\ d_tags sd = d_tags sd' /\ data_sim (d_data sd) (d_data sd').

(** A [SeriesMeasure] that also reads the entries of a delta. *)
Class FlushMeasure (M : Type) `{!SeriesMeasure M} := {
  m_delta : SeriesDeltaData -> M;
  f_take s : m_ok s ->
    m_eq (m_pend s)
      (m_op (from_option m_delta m_zero (Series_take_delta s).2) (m_pend (Series_take_delta s).1));
  f_merge seq c d : m_ok c ->
    m_ok (Series_merge_delta seq c d)
    /\ m_eq (m_val (Series_merge_delta seq c d)) (m_op (m_val c) (m_delta d))
    /\ m_eq (m_pend (Series_merge_delta seq c d)) (m_op (m_pend c) (m_delta d));
  f_restore s d : m_ok s ->
    m_ok (Series_restore_delta s d) /\ m_eq (m_pend (Series_restore_delta s d)) (m_op (m_pend s) (m_delta d));
  f_roll s : m_ok s -> m_pend (roll_interval s).1 = m_pend s;
  f_no_gauge s : m_ok s -> match data s with SGauge _ _ _ _ => False | _ => True end;
  f_sim d d' : data_sim d d' -> m_delta d = m_delta d';
}.

Section Conserve.
Context {M : Type} `{!SeriesMeasure M} `{!FlushMeasure M}.
Context (key : SeriesKey).

(** The share of a delta under [key], and of a list of deltas. *)
Definition delta_at (delta : MetricsDelta) : M :=
  foldr (fun sd acc => m_op (m_delta (d_data sd)) acc) m_zero (delta_for key delta).
Definition deltas_at (ds : list MetricsDelta) : M := foldr (fun d acc => m_op (delta_at d) acc) m_zero ds.

Lemma deltas_at_snoc (ds : list MetricsDelta) (d : MetricsDelta) :
  m_eq (deltas_at (ds ++ [d])) (m_op (deltas_at ds) (delta_at d)).
Proof.
  induction ds as [|x ds IH]; simpl; [by rewrite m_op_comm|]. by rewrite IH, m_op_assoc.
Qed.

Lemma take_at (a : Aggregator) :
  ok_at key a ->
  ok_at key (take_delta a).1
  /\ m_eq (pend_at key a) (m_op (delta_at (take_delta a).2) (pend_at key (take_delta a).1)).
Proof.
  intros Ha. unfold delta_at, ok_at, pend_at. rewrite delta_for_take, take_delta_lookup.
  destruct (series a !! key) as [s|] eqn:Hs; simpl; [|split; [done|by rewrite m_op_zero]].
  specialize (Ha s Hs). split; [intros ? [= <-]; by apply m_take|].
  rewrite (f_take s Ha) at 1. destruct (Series_take_delta s).2; simpl; [|done].
  by rewrite m_op_zero.
Qed.

(** A merge of any delta whose entries under [key] have the measure's kind. *)
Definition delta_kind_ok (delta : MetricsDelta) : Prop :=
  Forall (fun sd => d_kind sd = m_kind) (delta_for key delta).

Lemma take_kind_ok (a : Aggregator) : ok_at key a -> delta_kind_ok (take_delta a).2.
Proof.
  intros Ha. unfold delta_kind_ok. rewrite delta_for_take.
  destruct (series a !! key) as [s|] eqn:Hs; [|done].
  destruct (m_take s (Ha s Hs)) as [Hk _].
  destruct (Series_take_delta s).2; [|done]. by repeat constructor.
Qed.

Lemma merge_at (a : Aggregator) (delta : MetricsDelta) :
  ok_at key a -> delta_kind_ok delta ->
  ok_at key (merge_delta a delta)
  /\ m_eq (val_at key (merge_delta a delta)) (m_op (val_at key a) (delta_at delta))
  /\ m_eq (pend_at key (merge_delta a delta)) (m_op (pend_at key a) (delta_at delta)).
Proof.
  unfold ok_at, val_at, pend_at, delta_at, delta_kind_ok, merge_delta. simpl.
  rewrite merge_fold_lookup. generalize (delta_for key delta). intros l.
  generalize (u64_add (agg_seq a) 1). intros seq. generalize (series a !! key). intros o Ho Hl. revert o Ho.
  induction Hl as [|sd l Hk Hl IH]; intros o Ho; simpl.
  - by rewrite !m_op_zero.
  - set (c := default (Series_new (d_kind sd)) o).
    assert (m_ok c /\ m_eq (m_val c) (from_option m_val m_zero o)
            /\ m_eq (m_pend c) (from_option m_pend m_zero o)) as (Hc & Hv & Hp).
    { subst c. destruct o; simpl; [by split_and!; [apply Ho| |]|]. rewrite Hk. apply m_new. }
    destruct (f_merge seq c (d_data sd) Hc) as (Hm & Hmv & Hmp).
    destruct (IH (Some (Series_merge_delta seq c (d_data sd)))) as (Hok & Hv' & Hp'); [by intros ? [= <-]|].
    simpl in Hv', Hp'. split_and!; [done|..].
    + by rewrite Hv', Hmv, Hv, m_op_assoc.
    + by rewrite Hp', Hmp, Hp, m_op_assoc.
Qed.

(** A restore of a delta whose series the aggregator holds. *)
Lemma restore_at (a : Aggregator) (delta : MetricsDelta) :
  ok_at key a -> (delta_for key delta = [] \/ is_Some (series a !! key)) ->
  ok_at key (restore_delta a delta)
  /\ m_eq (pend_at key (restore_delta a delta)) (m_op (pend_at key a) (delta_at delta)).
Proof.
  unfold ok_at, pend_at, delta_at, restore_delta. simpl. rewrite restore_fold_lookup.
  generalize (delta_for key delta). intros l. generalize (series a !! key). intros o Ho Hs. revert o Ho Hs.
  induction l as [|sd l IH]; intros o Ho Hs; simpl; [by rewrite m_op_zero|].
  destruct Hs as [|[s ->]]; [done|].
  destruct (f_restore s (d_data sd) (Ho s eq_refl)) as [Hr Hp].
  destruct (IH (Some (Series_restore_delta s (d_data sd)))) as [Hok Hp']; [by intros ? [= <-]|by eauto|].
  simpl in Hp' |- *. split; [done|]. by rewrite Hp', Hp, m_op_assoc.
Qed.
End Conserve.
End Measure.

(** ** Rates and trends *)

Section Instances.
Context `{Hdr}.

Definition rate_delta (d : SeriesDeltaData) : Z * Z :=
  match d with DRate passes total => (passes, total) | _ => (0, 0) end.

Lemma eq64_sub_wrap (a b c : Z) : eq64 (a - u64_wrap (b - c)) (a - b + c).
Proof.
  unfold eq64, u64_wrap. rewrite Zminus_mod_idemp_r. f_equal. lia.
Qed.

Lemma eq64_wrap_sub (a b c : Z) : eq64 (u64_wrap (a + b) - c) (a - c + b).
Proof.
  unfold eq64, u64_wrap. rewrite Zminus_mod_idemp_l. f_equal. lia.
Qed.

#[global, refine] Instance rate_flush : FlushMeasure (Z * Z) := {| m_delta := rate_delta |}.
Proof.
  - intros s (Hk & p & t & fp & ft & Hd). cbn. unfold Series_take_delta, rate_pend. rewrite Hd.
    destruct (Z.eqb _ _); simpl; rewrite ?Hd; [split; simpl; by rewrite Z.add_0_l|].
    rewrite !Z.sub_diag, !Z.add_0_r. split; simpl; symmetry; apply eq64_wrap.
  - intros seq c d (Hk & p & t & fp & ft & Hd). cbn.
    unfold Series_merge_delta, rate_ok, rate_val, rate_pend, rate_delta, set_data. cbn. rewrite Hd.
    split; [split; [done|]; destruct d; by eauto|].
    destruct d; cbn; try by (split; split; simpl; by rewrite Z.add_0_r).
    split; split; simpl; try apply eq64_wrap; apply eq64_wrap_sub.
  - intros s d (Hk & p & t & fp & ft & Hd). cbn.
    unfold Series_restore_delta, rate_ok, rate_pend, rate_delta, set_data. cbn. rewrite Hd.
    split; [split; [done|]; destruct d; by eauto|].
    destruct d; cbn; try by (split; simpl; by rewrite Z.add_0_r).
    split; simpl; apply eq64_sub_wrap.
  - intros s (Hk & p & t & fp & ft & Hd). cbn. unfold roll_interval, rate_pend. by rewrite Hd.
  - intros s (Hk & p & t & fp & ft & Hd). by rewrite Hd.
  - intros [] []; try done. by intros [-> ->].
Defined.

Context `{!HdrLaws}.

Definition trend_delta (d : SeriesDeltaData) : Histogram :=
  match d with DTrend b _ _ _ _ => default hdr_new (hdr_decode b) | _ => hdr_new end.

#[global, refine] Instance trend_flush : FlushMeasure Histogram := {| m_delta := trend_delta |}.
Proof.
  - intros s (Hk & h & dh & sum & count & mn & mx & Hd). cbn. unfold Series_take_delta, trend_pend. rewrite Hd.
    destruct (hdr_is_empty dh); simpl; [rewrite Hd; by rewrite hdr_add_comm, hdr_add_new_r|].
    destruct (hdr_encode dh) as [b|] eqn:He; simpl; [|rewrite Hd; by rewrite hdr_add_comm, hdr_add_new_r].
    by rewrite (hdr_roundtrip dh b He), hdr_add_new_r.
  - intros seq c d (Hk & h & dh & sum & count & mn & mx & Hd). cbn.
    unfold Series_merge_delta, trend_ok, trend_val, trend_pend, trend_delta, set_data. cbn. rewrite Hd.
    destruct d as [?|? ? ?|? ?|b ? ? ? ?]; cbn; try (rewrite !hdr_add_new_r; split_and!; by eauto 20).
    destruct (hdr_decode b) as [hd|]; cbn; rewrite ?hdr_add_new_r; split_and!; by eauto 20.
  - intros s d (Hk & h & dh & sum & count & mn & mx & Hd). cbn.
    unfold Series_restore_delta, trend_ok, trend_pend, trend_delta, set_data. cbn. rewrite Hd.
    destruct d as [?|? ? ?|? ?|b ? ? ? ?]; cbn; try (rewrite !hdr_add_new_r; split_and!; by eauto 20).
    destruct (hdr_decode b) as [hd|]; cbn; rewrite ?hdr_add_new_r; split_and!; by eauto 20.
  - intros s (Hk & h & dh & sum & count & mn & mx & Hd). cbn. unfold roll_interval, trend_pend. by rewrite Hd.
  - intros s (Hk & h & dh & sum & count & mn & mx & Hd). by rewrite Hd.
  - intros [] []; try done. by intros [-> _].
Defined.
End Instances.

(** ** The pipeline of an agent's run

    Virtual users record into the shards, the aggregator task ticks, polls its dispatch
    and finally ends, the window is acknowledged, replayed, read by the session writers,
    closed, and takes the messages of others; [log] is every sample recorded. *)

Section Run.
Context `{Hdr} `{TokioNotify}.
Context (encoded_len : UplinkMessage -> Z).
Context (delta_to_json : MetricsDelta -> option string).
Context (run_id : string) (thresholds : list CompiledThreshold).

#[local] Existing Instance logged_window.
#[local] Instance the_window : Window Logged := logged_window encoded_len.

Definition outs : list (Output Logged) := [DeltaOutput delta_to_json run_id].

Record Pipe := mkPipe {
  pi_shards : MetricShards;
  pi_loop : Loop (W := Logged);
  pi_up : Logged;
}.

Inductive window_op : @Uplink _ (option AgentMsg) -> @Uplink _ (option AgentMsg) -> Prop :=
| wop_ack u s : window_op u (ack u s)
| wop_rewind u : window_op u (rewind u).1
| wop_next u ep : window_op u (next_unsent u ep).1
| wop_close u : window_op u (close u).

Definition recording (p : Pipe) : Prop :=
  match pc (pi_loop p) with Selecting | Ticking _ => True | Flushing _ | Ended => False end.

Inductive pipe_run : Pipe -> list Sample -> Prop :=
| pp_new n now now' u queued :
    batches run_id queued = [] ->
    pipe_run (mkPipe (MetricShards_new n now) (Loop_new now') (mkLogged u queued)) []
| pp_record p log idx smp :
    pipe_run p log -> recording p ->
    pipe_run (mkPipe (shards_record (pi_shards p) idx smp) (pi_loop p) (pi_up p)) (log ++ [smp])
| pp_tick p log now now_ms ms l w :
    pipe_run p log -> pc (pi_loop p) = Selecting ->
    shards_tick outs thresholds now now_ms (pi_shards p) (pi_loop p) (pi_up p) = (ms, (l, w)) ->
    pipe_run (mkPipe ms l w) log
| pp_poll p log now l w :
    pipe_run p log -> dispatch_poll thresholds now (pi_loop p) (pi_up p) = (l, w) ->
    pipe_run (mkPipe (pi_shards p) l w) log
| pp_end p log now now_ms ms l w :
    pipe_run p log -> pc (pi_loop p) = Selecting ->
    shards_end outs thresholds now now_ms (pi_shards p) (pi_loop p) (pi_up p) = (ms, (l, w)) ->
    pipe_run (mkPipe ms l w) log
| pp_window p log u :
    pipe_run p log -> window_op (lg_uplink (pi_up p)) u ->
    pipe_run (mkPipe (pi_shards p) (pi_loop p) (mkLogged u (lg_queued (pi_up p)))) log
| pp_other p log m :
    pipe_run p log -> batch_of run_id (msg m) = None ->
    pipe_run (mkPipe (pi_shards p) (pi_loop p) (win_try_enqueue (pi_up p) m).1) log.

Definition is_closed (w : Logged) : bool := closed (state (lg_uplink w)).

Lemma try_enqueue_closed (w : Logged) (m : UplinkMessage) :
  is_closed (win_try_enqueue w m).1 = is_closed w
  /\ lg_queued (win_try_enqueue w m).1
     = (if (win_try_enqueue w m).2 then lg_queued w ++ [msg m] else lg_queued w).
Proof.
  unfold is_closed. simpl. unfold try_enqueue. pose proof (push_result encoded_len (lg_uplink w) m) as Hp.
  destruct (push encoded_len (lg_uplink w) m) as [u [s|[|]]]; simpl in *; [|by subst|];
    destruct Hp as [Hc Hu]; split; congruence.
Qed.

Lemma window_op_closed (u u' : Uplink) :
  window_op u u' -> closed (state u') = false -> closed (state u) = false.
Proof.
  destruct 1 as [u s|u|u ep|u]; simpl; [|done| |done].
  - unfold ack. destruct (Z.ltb _ _); [done|]. destruct (retire _ _ _ _) as [[l b] n].
    by destruct (Nat.eqb n 0).
  - unfold next_unsent. destruct (negb _); [done|]. destruct (_ !! _); [done|]. by destruct (closed (state u)) eqn:Hc; simpl; rewrite ?Hc.
Qed.

(** What one call of [on_delta] does to the window. *)
Lemma on_delta_cases (d : MetricsDelta) (last : bool) (w : Logged) :
  is_Some (delta_to_json d) ->
  let '(w', r) := DeltaOutput_on_delta delta_to_json run_id d last w in
  is_closed w' = is_closed w
  /\ match r with
     | Ready true =>
         (exists json, delta_to_json d = Some json
            /\ batches run_id (lg_queued w') = batches run_id (lg_queued w) ++ [json])
         \/ is_closed w = true
     | Ready false => last = false /\ lg_queued w' = lg_queued w
     | Uplink.Pending => lg_queued w' = lg_queued w
     end.
Proof.
  intros [json Hj]. unfold DeltaOutput_on_delta, DeltaOutput_batch. rewrite Hj. cbn [fmap option_fmap option_map].
  destruct (negb last && win_is_full w) eqn:Hf; [split; [done|]; destruct last; simpl in Hf; [done|done]|].
  set (m := agent_msg _).
  assert (batches run_id (lg_queued w ++ [msg m]) = batches run_id (lg_queued w) ++ [json]) as Hb.
  { unfold batches. rewrite omap_app. simpl. by rewrite decide_True. }
  destruct last.
  - unfold is_closed. simpl. unfold enqueue. pose proof (push_result encoded_len (lg_uplink w) m) as Hp.
    destruct (push encoded_len (lg_uplink w) m) as [u [s|[|]]]; simpl in *.
    + destruct Hp as [Hc Hu]. split; [congruence|]. left. eauto.
    + by subst.
    + destruct Hp as [Hc ->]. by auto.
  - pose proof (try_enqueue_closed w m) as [Hc Hq]. destruct (win_try_enqueue w m) as [w' r].
    simpl in *. split; [done|]. destruct r; [|done]. left. exists json. by rewrite Hq.
Qed.

(** *** Conservation *)

Section Conserved.
Context {M : Type} `{!SeriesMeasure M} `{!FlushMeasure M}.
Context (key : string * Tags).
(** Serializing a delta never fails. *)
Context (delta_to_json_total : forall d, is_Some (delta_to_json d)).
(** What a drain can leave behind: nothing, as far as [residue] tells. *)
Context (residue : M -> Prop) `{!Proper (m_eq ==> iff) residue}.
Context (residue_zero : residue m_zero) (residue_op : forall x y, residue x -> residue y -> residue (m_op x y)).
Context (residue_take : forall s, m_ok s -> residue (m_pend (Series_take_delta s).1)).

(** What is on its way to the window. *)
Definition in_flight (l : Loop (W := Logged)) : M :=
  match pc l with
  | Ticking d | Flushing d => delta_at key (dp_delta d)
  | Selecting | Ended => m_zero
  end.

Definition dispatch_ok (l : Loop (W := Logged)) (d : Dispatch) : Prop :=
  dp_rest d = outs /\ dp_accepted d = true /\ delta_kind_ok key (dp_delta d)
  /\ (delta_for key (dp_delta d) = [] \/ is_Some (series (agg l) !! key)).

Definition loop_ok (l : Loop (W := Logged)) : Prop :=
  ok_at key (agg l)
  /\ match pc l with
     | Ticking d => dispatch_ok l d
     | Flushing d => dispatch_ok l d /\ residue (pend_at key (agg l))
     | Selecting => True
     | Ended => residue (pend_at key (agg l))
     end.

(** The batches of the run are [ds], and with what has not reached the window they are
    what was recorded. *)
Definition balanced (l : Loop (W := Logged)) (w : Logged) (pending_shards total : M) : Prop :=
  is_closed w = true
  \/ exists ds, batches run_id (lg_queued w) = omap delta_to_json ds /\ Forall (delta_kind_ok key) ds
     /\ m_eq (m_op (m_op (deltas_at key ds) (in_flight l)) (m_op (pend_at key (agg l)) pending_shards)) total.

Record pipe_ok (p : Pipe) (log : list Sample) : Prop := {
  po_shards : Forall (ok_at key) (shards (pi_shards p));
  po_some : (0 < length (shards (pi_shards p)))%nat;
  po_loop : loop_ok (pi_loop p);
  po_drained : ~ recording p -> residue (pend_all key (shards (pi_shards p)));
  po_balance : balanced (pi_loop p) (pi_up p) (pend_all key (shards (pi_shards p))) (logged key log);
}.

Lemma drain_take_residue (a : Aggregator) : ok_at key a -> residue (pend_at key (take_delta a).1).
Proof.
  intros Ha. unfold pend_at. rewrite take_delta_lookup. destruct (series a !! key) as [s|] eqn:Hs; simpl; [|done].
  by apply residue_take, Ha.
Qed.

Lemma drain_list_pend (l : list Aggregator) (c : Aggregator) :
  Forall (ok_at key) l -> ok_at key c ->
  Forall (ok_at key) (drain_list l c).1 /\ length (drain_list l c).1 = length l
  /\ ok_at key (drain_list l c).2
  /\ residue (pend_all key (drain_list l c).1)
  /\ m_eq (m_op (pend_at key (drain_list l c).2) (pend_all key (drain_list l c).1))
          (m_op (pend_at key c) (pend_all key l)).
Proof.
  intros Hl. revert c. induction Hl as [|a l Ha Hl IH]; intros c Hc; cbn [drain_list]; [by split_and!|].
  pose proof (take_at key a Ha) as [Ha' Hp]. pose proof (take_kind_ok key a Ha) as Hk.
  pose proof (drain_take_residue a Ha) as Hr.
  destruct (take_delta a) as [a' delta]. simpl in *.
  destruct (merge_at key c delta Hc Hk) as (Hc' & _ & Hp').
  specialize (IH (merge_delta c delta) Hc').
  destruct (drain_list l (merge_delta c delta)) as [l' c']. simpl in *.
  destruct IH as (H1 & H2 & H3 & H4 & H5). split_and!; [by constructor|lia|done|by apply residue_op|].
  rewrite m_op_swap, H5, Hp', Hp. rewrite (m_op_swap (pend_at key c)), <- !m_op_assoc.
  rewrite (m_op_swap _ (delta_at key delta)), (m_op_swap (pend_at key a')). f_equiv.
Qed.

Lemma drain_into_pend (ms : MetricShards) (c : Aggregator) (ms' : MetricShards) (c' : Aggregator) :
  drain_into ms c = (ms', c') -> Forall (ok_at key) (shards ms) -> ok_at key c ->
  Forall (ok_at key) (shards ms') /\ length (shards ms') = length (shards ms) /\ ok_at key c'
  /\ residue (pend_all key (shards ms'))
  /\ m_eq (m_op (pend_at key c') (pend_all key (shards ms'))) (m_op (pend_at key c) (pend_all key (shards ms))).
Proof.
  intros Hd Hl Hc. pose proof (drain_list_pend (shards ms) c Hl Hc) as Hp.
  unfold drain_into in Hd. destruct (drain_list (shards ms) c) as [l' c1]. by injection Hd as <- <-.
Qed.

Lemma snapshot_at (a : Aggregator) (now now_ms : Z) :
  ok_at key a ->
  ok_at key (snapshot a now now_ms).2 /\ pend_at key (snapshot a now now_ms).2 = pend_at key a
  /\ (is_Some (series a !! key) -> is_Some (series (snapshot a now now_ms).2 !! key)).
Proof.
  unfold ok_at, pend_at. simpl. rewrite lookup_fmap. intros Ha.
  destruct (series a !! key) as [s|]; simpl; [|done]. specialize (Ha s eq_refl).
  split_and!; [intros ? [= <-]; by apply m_roll|by apply f_roll|by eauto].
Qed.

Lemma dispatch_begin_ok (l : Loop (W := Logged)) :
  ok_at key (agg l) ->
  let '(l', od) := dispatch_begin outs l in
  ok_at key (agg l') /\ residue (pend_at key (agg l'))
  /\ m_eq (m_op (from_option (fun d => delta_at key (dp_delta d)) m_zero od) (pend_at key (agg l')))
       (pend_at key (agg l))
  /\ (forall d, od = Some d -> dispatch_ok l' d).
Proof.
  intros Ha. unfold dispatch_begin. pose proof (take_at key (agg l) Ha) as [Ha' Hp].
  pose proof (drain_take_residue _ Ha) as Hr. pose proof (take_kind_ok key _ Ha) as Hk.
  assert (delta_for key (take_delta (agg l)).2 = [] \/ is_Some (series (take_delta (agg l)).1 !! key)) as Hs.
  { rewrite delta_for_take, take_delta_lookup. destruct (series (agg l) !! key); [by eauto|by left]. }
  destruct (take_delta (agg l)) as [a delta]. simpl in *. split_and!; [done|done| |].
  - symmetry. destruct delta; simpl; [|done]. rewrite Hp. unfold delta_at. simpl. done.
  - intros d Hd. destruct delta as [|x delta]; [done|]. injection Hd as <-. by split_and!.
Qed.

Lemma tick_end_agg (now : Z) (l : Loop (W := Logged)) :
  agg (tick_end thresholds now l) = agg l /\ pc (tick_end thresholds now l) = Selecting.
Proof. unfold tick_end. by destruct (evaluate_all _ _ _ _). Qed.

(** [tick_begin] and [finalize_begin]: the world is untouched, what was pending is now
    pending or in flight. *)
Definition begun (l l' : Loop (W := Logged)) : Prop :=
  loop_ok l' /\ m_eq (m_op (in_flight l') (pend_at key (agg l'))) (pend_at key (agg l)).

Lemma tick_begin_ok (now now_ms : Z) (l : Loop (W := Logged)) (w : Logged) :
  ok_at key (agg l) ->
  let '(l', w') := tick_begin outs thresholds now now_ms l w in
  w' = w /\ begun l l' /\ match pc l' with Selecting | Ticking _ => True | _ => False end.
Proof.
  intros Ha. unfold tick_begin. destruct (snapshot_at (agg l) now now_ms Ha) as (Hs & Hp & _).
  destruct (snapshot (agg l) now now_ms) as [snap a]. simpl in Hs, Hp.
  cbn [any_wants_delta outs existsb wants_delta DeltaOutput orb foldl on_snapshot].
  set (l1 := publish _ _ _). assert (agg l1 = a) as Hl1 by done.
  pose proof (dispatch_begin_ok l1) as Hb. rewrite Hl1 in Hb. specialize (Hb Hs).
  destruct (dispatch_begin outs l1) as [l2 od]. destruct Hb as (Hok & Hr & Hm & Hd). unfold begun. rewrite <- Hp.
  destruct od as [d|]; [by split_and!; [|split; [|apply Hd]|..]|].
  destruct (tick_end_agg now l2) as [Ea Ep]. unfold loop_ok, in_flight. rewrite Ea, Ep.
  by split_and!.
Qed.

Lemma finalize_begin_ok (now now_ms : Z) (l : Loop (W := Logged)) (w : Logged) :
  ok_at key (agg l) ->
  let '(l', w') := finalize_begin outs thresholds now now_ms l w in
  w' = w /\ begun l l' /\ match pc l' with Flushing _ | Ended => True | _ => False end.
Proof.
  intros Ha. unfold finalize_begin. destruct (evaluate_all _ _ _ _) as [sts ab].
  destruct (snapshot_at (agg l) now now_ms Ha) as (Hs & Hp & _).
  destruct (snapshot (agg l) now now_ms) as [snap a]. simpl in Hs, Hp.
  cbn [any_wants_delta outs existsb wants_delta DeltaOutput orb].
  set (l1 := publish _ _ _). assert (agg l1 = a) as Hl1 by (subst l1; by destruct (_ && _)).
  pose proof (dispatch_begin_ok l1) as Hb. rewrite Hl1 in Hb. specialize (Hb Hs).
  destruct (dispatch_begin outs l1) as [l2 od]. destruct Hb as (Hok & Hr & Hm & Hd). unfold begun. rewrite <- Hp.
  unfold loop_ok, in_flight. destruct od as [d|]; simpl; split_and!; try done.
  exact (Hd d eq_refl).
Qed.

(** One poll of the dispatch. *)
Lemma dispatch_poll_ok (now : Z) (l : Loop (W := Logged)) (w : Logged) (ps total : M) :
  loop_ok l -> balanced l w ps total ->
  let '(l', w') := dispatch_poll thresholds now l w in
  loop_ok l' /\ balanced l' w' ps total
  /\ match pc l' with
     | Selecting | Ticking _ => match pc l with Selecting | Ticking _ => True | _ => False end
     | Flushing _ | Ended => match pc l with Flushing _ | Ended => True | _ => False end
     end.
Proof.
  intros [Ha Hpc] Hb. unfold dispatch_poll, loop_ok.
  destruct (pc l) as [|d|d|] eqn:Hl; [rewrite Hl; by split_and!| | |rewrite Hl; by split_and!].
  - destruct Hpc as (Hrest & Hacc & Hk & Hs). rewrite Hrest, Hacc.
    cbn [outs dispatch_loop wants_delta DeltaOutput on_delta].
    pose proof (on_delta_cases (dp_delta d) false w (delta_to_json_total _)) as Hc.
    destruct (DeltaOutput_on_delta _ _ (dp_delta d) false w) as [w' [acc|]].
    + cbn [andb]. destruct Hc as [Hcl Hc]. set (d' := mkDispatch _ _ _).
      destruct (tick_end_agg now (dispatch_end d' l)) as [Ea Ep]. rewrite Ea, Ep.
      destruct acc.
      * simpl. split_and!; [done|done| |done]. destruct Hb as [Hb|(ds & Hds & Hkd & Hm)]; [left; congruence|].
        destruct Hc as [(json & Hj & Hq)|Hx]; [|left; congruence]. right. exists (ds ++ [dp_delta d]).
        rewrite Hq, Hds, omap_app. simpl. rewrite Hj. split_and!; [done|apply Forall_app; split; [done|by constructor]|].
        unfold in_flight in *. rewrite Ep, Ea, Hl in *. simpl. by rewrite deltas_at_snoc, m_op_zero.
      * simpl. destruct Hc as [_ Hq]. destruct (restore_at key (agg l) (dp_delta d) Ha Hs) as [Hr Hp].
        split_and!; [done|done| |done]. destruct Hb as [Hb|(ds & Hds & Hkd & Hm)]; [left; congruence|].
        right. exists ds. rewrite Hq. split_and!; [done|done|]. unfold in_flight in *. rewrite Ep, Ea, Hl in *.
        simpl. rewrite m_op_zero, Hp, <- Hm, <- !m_op_assoc. f_equiv. rewrite (m_op_swap (delta_at key _)). done.
    + destruct Hc as [Hcl Hq]. cbn [dp_rest pc set_pc agg]. split_and!; [done|by split_and!| |done].
      unfold balanced, in_flight in *. rewrite Hl in Hb. cbn [pc set_pc agg dp_delta]. by rewrite Hcl, Hq.
  - destruct Hpc as [(Hrest & Hacc & Hk & Hs) Hres]. rewrite Hrest, Hacc.
    cbn [outs dispatch_loop wants_delta DeltaOutput on_delta].
    pose proof (on_delta_cases (dp_delta d) true w (delta_to_json_total _)) as Hc.
    destruct (DeltaOutput_on_delta _ _ (dp_delta d) true w) as [w' [acc|]].
    + cbn [andb]. destruct Hc as [Hcl Hc]. destruct acc; [|by destruct Hc].
      cbn [dispatch_end dp_accepted set_pc agg pc]. split_and!; [done|done| |done].
      destruct Hb as [Hb|(ds & Hds & Hkd & Hm)]; [left; congruence|].
      destruct Hc as [(json & Hj & Hq)|Hx]; [|left; congruence]. right. exists (ds ++ [dp_delta d]).
      rewrite Hq, Hds, omap_app. simpl. rewrite Hj. split_and!; [done|apply Forall_app; split; [done|by constructor]|].
      unfold in_flight in *. rewrite Hl in Hm. simpl. by rewrite deltas_at_snoc, m_op_zero.
    + destruct Hc as [Hcl Hq]. cbn [dp_rest pc set_pc agg]. split_and!; [done|by split_and!|done| |done].
      unfold balanced, in_flight in *. rewrite Hl in Hb. cbn [pc set_pc agg dp_delta]. by rewrite Hcl, Hq.
Qed.

Lemma begun_balanced (l0 l l' : Loop (W := Logged)) (w : Logged) (ps ps' total : M) :
  pc l0 = Selecting -> begun l l' ->
  m_eq (m_op (pend_at key (agg l)) ps') (m_op (pend_at key (agg l0)) ps) ->
  balanced l0 w ps total -> balanced l' w ps' total.
Proof.
  intros Hpc [_ Hm] Hd [Hc|(ds & Hq & Hk & Hb)]; [by left|]. right. exists ds. split_and!; [done|done|].
  unfold in_flight in Hb. rewrite Hpc, m_op_zero, <- Hd, <- Hm in Hb.
  rewrite <- Hb, <- !m_op_assoc. done.
Qed.

Lemma balanced_ext (l : Loop (W := Logged)) (w w' : Logged) (ps ps' total : M) :
  (is_closed w' = false -> is_closed w = false /\ batches run_id (lg_queued w') = batches run_id (lg_queued w)) ->
  m_eq ps' ps -> balanced l w ps total -> balanced l w' ps' total.
Proof.
  intros Hw Hps Hb. destruct (is_closed w') eqn:Hc; [by left|]. destruct (Hw eq_refl) as [Hc' Hq].
  destruct Hb as [?|(ds & Hds & Hk & Hm)]; [congruence|]. right. exists ds. rewrite Hq, Hps. by split_and!.
Qed.

Lemma conserved (p : Pipe) (log : list Sample) :
  pipe_run p log -> kinds_ok key log -> pipe_ok p log.
Proof.
  induction 1 as [n now now' u queued Hq|p log idx smp _ IH Hrec|p log now now_ms ms l w _ IH Hpc Ht
                 |p log now l w _ IH Ht|p log now now_ms ms l w _ IH Hpc Ht|p log u _ IH Hop|p log m _ IH Hm];
    intros Hk.
  - destruct (ok_at_new key now) as [Ho _], (ok_at_new key now') as [Ho' Hz]. constructor; simpl.
    + by apply Forall_replicate.
    + rewrite length_replicate. lia.
    + by split.
    + intros Hr. by destruct Hr.
    + right. exists []. split_and!; [done|done|]. unfold in_flight. simpl.
      rewrite pend_replicate, Hz, !m_op_zero. done.
  - apply Forall_app in Hk as [Hk Hs]. apply Forall_cons in Hs as [Hs _]. destruct (IH Hk) as [Hl Hlen Ho Hd Hb].
    destruct (pend_all_alter key (shards (pi_shards p)) (shard_of (pi_shards p) idx) smp) as [Hl' Hp]; [|done|done|].
    { unfold shard_of. apply Nat.mod_upper_bound. lia. }
    constructor; simpl; [done|by rewrite length_alter|done| |].
    + intros Hr. by destruct Hr.
    + destruct Hb as [Hb|(ds & Hds & Hkd & Hm)]; [by left|]. right. exists ds. split_and!; [done|done|].
      rewrite Hp, logged_snoc. destruct (decide _); [|done]. rewrite <- Hm.
      rewrite (m_op_swap (pend_at key (agg (pi_loop p)))). apply m_op_swap.
  - destruct (IH Hk) as [Hl Hlen [Ho _] Hd Hb]. unfold shards_tick in Ht.
    destruct (drain_into (pi_shards p) (agg (pi_loop p))) as [ms' a'] eqn:Hdr. injection Ht as <- Ht.
    destruct (drain_into_pend _ _ _ _ Hdr Hl Ho) as (Hl' & Hlen' & Ho' & Hr & Hm).
    pose proof (tick_begin_ok now now_ms (set_agg a' (pi_loop p)) (pi_up p) Ho') as Htb. rewrite Ht in Htb.
    destruct Htb as (-> & Hbg & Hpc'). constructor; simpl; [done|lia|apply Hbg|by intros _|].
    by eapply begun_balanced.
  - destruct (IH Hk) as [Hl Hlen Ho Hd Hb].
    pose proof (dispatch_poll_ok now (pi_loop p) (pi_up p) _ _ Ho Hb) as Hp. rewrite Ht in Hp.
    destruct Hp as (Ho' & Hb' & Hpc). constructor; simpl; [done|done|done| |done].
    intros Hr. apply Hd. unfold recording in *. simpl in Hr. by destruct (pc l), (pc (pi_loop p)).
  - destruct (IH Hk) as [Hl Hlen [Ho _] Hd Hb]. unfold shards_end in Ht.
    destruct (drain_into (pi_shards p) (agg (pi_loop p))) as [ms' a'] eqn:Hdr. injection Ht as <- Ht.
    destruct (drain_into_pend _ _ _ _ Hdr Hl Ho) as (Hl' & Hlen' & Ho' & Hr & Hm).
    pose proof (finalize_begin_ok now now_ms (set_agg a' (pi_loop p)) (pi_up p) Ho') as Htb. rewrite Ht in Htb.
    destruct Htb as (-> & Hbg & Hpc'). constructor; simpl; [done|lia|apply Hbg|by intros _|].
    by eapply begun_balanced.
  - destruct (IH Hk) as [Hl Hlen Ho Hd Hb]. constructor; simpl; [done..|].
    eapply balanced_ext; [|done|exact Hb]. unfold is_closed. simpl. intros Hc. split; [|done].
    by eapply window_op_closed.
  - destruct (IH Hk) as [Hl Hlen Ho Hd Hb]. destruct (try_enqueue_closed (pi_up p) m) as [Hc Hq].
    constructor; cbn [pi_shards pi_loop pi_up]; [done..|]. eapply balanced_ext; [|done|exact Hb].
    intros Hc'. split; [congruence|].
    rewrite Hq. destruct (win_try_enqueue (pi_up p) m).2; [|done]. unfold batches. rewrite omap_app. simpl.
    by rewrite Hm, app_nil_r.
Qed.

(** At the end of the run. *)
Lemma conserved_end (p : Pipe) (log : list Sample) :
  pipe_run p log -> kinds_ok key log -> pc (pi_loop p) = Ended -> is_closed (pi_up p) = false ->
  exists ds rest, batches run_id (lg_queued (pi_up p)) = omap delta_to_json ds /\ Forall (delta_kind_ok key) ds
    /\ residue rest /\ m_eq (m_op (deltas_at key ds) rest) (logged key log).
Proof.
  intros Hp Hk Hpc Hc. destruct (conserved p log Hp Hk) as [Hl Hlen [Ho Hr] Hd Hb]. rewrite Hpc in Hr.
  destruct Hb as [Hb|(ds & Hds & Hkd & Hm)]; [congruence|]. unfold in_flight in Hm. rewrite Hpc, m_op_zero in Hm.
  exists ds. eexists. split_and!; [done|done| |exact Hm]. apply residue_op; [done|]. apply Hd.
  unfold recording. rewrite Hpc. by intros [].
Qed.
End Conserved.
End Run.
