(* ===== verification/Engine.v ===== *)
(** * One run of the engine (crates/loadr-core/src/engine.rs)

    [RunHandle] is the live control of a run, with the [watch] channels and tokens its
    clones share; [EngineRun] is [Engine::run] with the tasks it waits for, cut at its
    [await]s.  Setup, the scenarios, the scripts and the aggregator task are seen
    through what they tell the orchestrator: an error, an abort message, their end.

    [tokio]'s [watch::Sender::send] does nothing when no receiver is left; the pause
    channel's only receivers are the scenarios', so [rh_pause_receivers] counts them. *)

From S2P Require Import Prelude Float64 Str.

Inductive RunStatus :=
| StPending
| StRunning
| StStopping
| StFinished (passed : bool).

#[export] Instance RunStatus_eq_dec : EqDecision RunStatus.
Proof. solve_decision. Defined.

Record RunHandle := mkRunHandle {
  rh_run_id : string;
  rh_status : RunStatus;
  rh_soft_stop : bool;
  rh_hard_stop : bool;
  rh_pause : bool;
  rh_pause_receivers : nat;
  rh_stop_reason : option string;
  rh_scale : gmap string Z;
}.

Definition set_status (v : RunStatus) (h : RunHandle) : RunHandle :=
  mkRunHandle (rh_run_id h) v (rh_soft_stop h) (rh_hard_stop h) (rh_pause h) (rh_pause_receivers h) (rh_stop_reason h) (rh_scale h).
Definition cancel_soft (h : RunHandle) : RunHandle :=
  mkRunHandle (rh_run_id h) (rh_status h) true (rh_hard_stop h) (rh_pause h) (rh_pause_receivers h) (rh_stop_reason h) (rh_scale h).
Definition cancel_hard (h : RunHandle) : RunHandle :=
  mkRunHandle (rh_run_id h) (rh_status h) (rh_soft_stop h) true (rh_pause h) (rh_pause_receivers h) (rh_stop_reason h) (rh_scale h).
Definition set_stop_reason (v : option string) (h : RunHandle) : RunHandle :=
  mkRunHandle (rh_run_id h) (rh_status h) (rh_soft_stop h) (rh_hard_stop h) (rh_pause h) (rh_pause_receivers h) v (rh_scale h).
Definition set_pause_receivers (n : nat) (h : RunHandle) : RunHandle :=
  mkRunHandle (rh_run_id h) (rh_status h) (rh_soft_stop h) (rh_hard_stop h) (rh_pause h) n (rh_stop_reason h) (rh_scale h).
Definition set_scale (m : gmap string Z) (h : RunHandle) : RunHandle :=
  mkRunHandle (rh_run_id h) (rh_status h) (rh_soft_stop h) (rh_hard_stop h) (rh_pause h) (rh_pause_receivers h) (rh_stop_reason h) m.

(** The handle [Engine::new] makes: one scale channel per externally controlled
    scenario, no scenario subscribed to the pause channel yet. *)
Definition RunHandle_new (run_id : string) (externally_controlled : list string) : RunHandle :=
  mkRunHandle run_id StPending false false false 0 None
    (list_to_map ((fun name => (name, 0)) <$> externally_controlled)).

Definition stop (reason : string) (h : RunHandle) : RunHandle :=
  cancel_soft (set_stop_reason (Some reason) h).

Definition kill (reason : string) (h : RunHandle) : RunHandle :=
  cancel_hard (cancel_soft (set_stop_reason (Some reason) h)).

Definition pause (paused : bool) (h : RunHandle) : RunHandle :=
  match rh_pause_receivers h with
  | O => h
  | S _ => mkRunHandle (rh_run_id h) (rh_status h) (rh_soft_stop h) (rh_hard_stop h) paused (rh_pause_receivers h)
             (rh_stop_reason h) (rh_scale h)
  end.

Definition is_paused (h : RunHandle) : bool := rh_pause h.


(** The receiving end of each scale channel lives in the engine, so the value is
    always stored. *)
Definition scale (scenario : string) (vus : Z) (h : RunHandle) : RunHandle * result string unit :=
  match rh_scale h !! scenario with
  | Some _ => (set_scale (<[scenario := vus]> (rh_scale h)) h, Ok tt)
  | None =>
      (h, Err ("scenario `" +:+ scenario +:+ "` is not externally controlled (available: "
               +:+ join ", " (fst <$> map_to_list (rh_scale h)) +:+ ")"))
  end.

Definition externally_controlled_scenarios (h : RunHandle) : list string := fst <$> map_to_list (rh_scale h).

(** ** [Engine::run] *)

Record RunResult := mkRunResult {
  rr_passed : bool;
  rr_aborted : option string;
}.

(** Where [run] stands: not called; starting outputs and running [setup()]; in the
    [select!] over the scenarios, the abort channel and the stop token; awaiting the
    scenarios of a stopping run; past them, before the stop reason is read; in
    teardown and the summary; returned. *)
Inductive EnginePc :=
| EnNew
| EnSetup
| EnSelect
| EnDraining (aborted : option string)
| EnJoined (aborted : option string)
| EnFinishing (aborted : option string)
| EnReturned (r : result string RunResult).

Record EngineRun := mkEngineRun {
  en_handle : RunHandle;
  en_pc : EnginePc;
  en_scenarios : nat;          (** scenario tasks spawned and not finished *)
  en_total : nat;              (** scenarios of the plan *)
  en_aborts : list string;     (** the abort channel *)
  en_aggregating : bool;       (** the aggregator task, which also holds a sender *)
  en_net : bool;               (** the 35 s safety net is armed *)
}.

Definition Engine_new (run_id : string) (total : nat) (externally_controlled : list string) : EngineRun :=
  mkEngineRun (RunHandle_new run_id externally_controlled) EnNew 0 total [] false false.

Definition with_handle (f : RunHandle -> RunHandle) (e : EngineRun) : EngineRun :=
  mkEngineRun (f (en_handle e)) (en_pc e) (en_scenarios e) (en_total e) (en_aborts e) (en_aggregating e) (en_net e).
Definition goto (p : EnginePc) (e : EngineRun) : EngineRun :=
  mkEngineRun (en_handle e) p (en_scenarios e) (en_total e) (en_aborts e) (en_aggregating e) (en_net e).
Definition arm_net (e : EngineRun) : EngineRun :=
  mkEngineRun (en_handle e) (en_pc e) (en_scenarios e) (en_total e) (en_aborts e) (en_aggregating e) true.
Definition set_aborts (l : list string) (e : EngineRun) : EngineRun :=
  mkEngineRun (en_handle e) (en_pc e) (en_scenarios e) (en_total e) l (en_aggregating e) (en_net e).

(** The call of [run]: the status, the outputs and the aggregator task. *)
Definition run_begin (e : EngineRun) : EngineRun :=
  mkEngineRun (set_status StRunning (en_handle e)) EnSetup (en_scenarios e) (en_total e) (en_aborts e) true (en_net e).

(** An output that does not start returns at once; a failing [setup()] kills the run
    first.  Neither touches the status. *)
Definition output_failed (error : string) (e : EngineRun) : EngineRun := goto (EnReturned (Err error)) e.
Definition setup_failed (error : string) (e : EngineRun) : EngineRun :=
  goto (EnReturned (Err ("setup() failed: " +:+ error)))
    (with_handle (kill ("setup() failed: " +:+ error)) e).

(** Spawn the scenarios; each subscribes to the pause channel. *)
Definition spawn_scenarios (e : EngineRun) : EngineRun :=
  mkEngineRun (set_pause_receivers (en_total e) (en_handle e)) EnSelect (en_total e) (en_total e)
    (en_aborts e) (en_aggregating e) (en_net e).

Definition scenario_done (e : EngineRun) : EngineRun :=
  mkEngineRun (set_pause_receivers (pred (rh_pause_receivers (en_handle e))) (en_handle e)) (en_pc e)
    (pred (en_scenarios e)) (en_total e) (en_aborts e) (en_aggregating e) (en_net e).

(** The three arms of the [select!]; an arm is ready under its condition. *)
Definition arm_done (e : EngineRun) : option EngineRun :=
  if Nat.eqb (en_scenarios e) 0 then Some (goto (EnJoined None) e) else None.

Definition arm_abort (e : EngineRun) : option EngineRun :=
  match en_aborts e with
  | reason :: rest =>
      let e := with_handle (set_stop_reason (Some reason)) (set_aborts rest e) in
      let e := with_handle (set_status StStopping) e in
      let e := with_handle cancel_soft e in
      Some (goto (EnDraining (Some reason)) (arm_net e))
  | [] =>
      (* [recv] gives [None] once every sender is gone. *)
      if Nat.eqb (en_scenarios e) 0 && negb (en_aggregating e) then Some (goto (EnJoined None) e) else None
  end.

Definition arm_soft (e : EngineRun) : option EngineRun :=
  if rh_soft_stop (en_handle e)
  then Some (goto (EnDraining None) (arm_net (with_handle (set_status StStopping) e)))
  else None.

Definition drained (e : EngineRun) : option EngineRun :=
  match en_pc e with
  | EnDraining aborted => if Nat.eqb (en_scenarios e) 0 then Some (goto (EnJoined aborted) e) else None
  | _ => None
  end.

Definition read_reason (e : EngineRun) : option EngineRun :=
  match en_pc e with
  | EnJoined aborted =>
      let aborted := match aborted with None => rh_stop_reason (en_handle e) | Some r => Some r end in
      Some (goto (EnFinishing aborted) e)
  | _ => None
  end.

(** Teardown, the gauges, the end of the aggregator task and the summary, whose
    threshold verdict is [thresholds_passed]; or the aggregator task had panicked. *)
Definition finish_run (thresholds_passed : bool) (e : EngineRun) : option EngineRun :=
  match en_pc e with
  | EnFinishing aborted =>
      let passed := thresholds_passed && negb (bool_decide (is_Some aborted)) in
      Some (goto (EnReturned (Ok (mkRunResult thresholds_passed aborted)))
              (with_handle (set_status (StFinished passed)) e))
  | _ => None
  end.

Definition aggregator_panicked (error : string) (e : EngineRun) : option EngineRun :=
  match en_pc e with
  | EnFinishing _ => Some (goto (EnReturned (Err ("aggregator task panicked: " +:+ error))) e)
  | _ => None
  end.

(** ** Steps *)

(** What holders of the handle do. *)
Inductive handle_op : RunHandle -> RunHandle -> option string -> Prop :=
| ho_stop reason h : handle_op h (stop reason h) (Some reason)
| ho_kill reason h : handle_op h (kill reason h) (Some reason)
| ho_pause b h : handle_op h (pause b h) None
| ho_scale scenario vus h : handle_op h (scale scenario vus h).1 None.

(** A step of the run; the label is a reason to abort handed over in it. *)
Inductive engine_step : EngineRun -> option string -> EngineRun -> Prop :=
| es_handle e h reason : handle_op (en_handle e) h reason -> engine_step e reason (with_handle (fun _ => h) e)
| es_begin e : en_pc e = EnNew -> engine_step e None (run_begin e)
| es_output_failed e error : en_pc e = EnSetup -> engine_step e None (output_failed error e)
| es_setup_failed e error :
    en_pc e = EnSetup -> engine_step e (Some ("setup() failed: " +:+ error)) (setup_failed error e)
| es_spawn e : en_pc e = EnSetup -> engine_step e None (spawn_scenarios e)
| es_abort_message e reason :
    (0 < en_scenarios e)%nat \/ en_aggregating e = true ->
    engine_step e (Some reason) (set_aborts (en_aborts e ++ [reason]) e)
| es_scenario_done e : (0 < en_scenarios e)%nat -> engine_step e None (scenario_done e)
| es_aggregator_panic e :
    en_aggregating e = true ->
    engine_step e None (mkEngineRun (en_handle e) (en_pc e) (en_scenarios e) (en_total e) (en_aborts e) false (en_net e))
| es_select e e' : en_pc e = EnSelect -> (arm_done e = Some e' \/ arm_abort e = Some e' \/ arm_soft e = Some e') ->
    engine_step e None e'
| es_net e : en_net e = true -> engine_step e None (with_handle cancel_hard e)
| es_drained e e' : drained e = Some e' -> engine_step e None e'
| es_reason e e' : read_reason e = Some e' -> engine_step e None e'
| es_finish e b e' : finish_run b e = Some e' -> engine_step e None e'
| es_panicked e error e' : aggregator_panicked error e = Some e' -> engine_step e None e'.

(** Runs from a fresh engine, with the reasons handed over. *)
Inductive engine_run (run_id : string) (total : nat) (ext : list string) : EngineRun -> list string -> Prop :=
| er_new : engine_run run_id total ext (Engine_new run_id total ext) []
| er_step e reasons o e' :
    engine_run run_id total ext e reasons -> engine_step e o e' ->
    engine_run run_id total ext e' (reasons ++ option_list o).

(** ** The invariant *)

Definition aborted_of (p : EnginePc) : option string :=
  match p with
  | EnDraining a | EnJoined a | EnFinishing a => a
  | EnReturned (Ok r) => rr_aborted r
  | _ => None
  end.

Definition status_ok (p : EnginePc) (st : RunStatus) : Prop :=
  match p with
  | EnNew => st = StPending
  | EnSetup | EnSelect => st = StRunning
  | EnDraining _ => st = StStopping
  | EnJoined _ | EnFinishing _ | EnReturned (Err _) => st = StRunning \/ st = StStopping
  | EnReturned (Ok r) => st = StFinished (rr_passed r && negb (bool_decide (is_Some (rr_aborted r))))
  end.

(** No scenario task is alive where [run] is not waiting for them. *)
Definition waits (p : EnginePc) : bool :=
  match p with EnSelect | EnDraining _ => true | _ => false end.

Record engine_ok (e : EngineRun) (reasons : list string) : Prop := {
  eo_status : status_ok (en_pc e) (rh_status (en_handle e));
  eo_reason r : rh_stop_reason (en_handle e) = Some r -> r ∈ reasons;
  eo_queue : Forall (fun r => r ∈ reasons) (en_aborts e);
  eo_aborted r : aborted_of (en_pc e) = Some r -> r ∈ reasons;
  eo_soft : rh_soft_stop (en_handle e) = true -> is_Some (rh_stop_reason (en_handle e));
  eo_left : waits (en_pc e) = false -> en_scenarios e = 0%nat;
}.

Lemma handle_op_keeps (h h' : RunHandle) (reason : option string) :
  handle_op h h' reason ->
  rh_run_id h' = rh_run_id h /\ rh_status h' = rh_status h
  /\ rh_stop_reason h' = match reason with Some r => Some r | None => rh_stop_reason h end
  /\ (rh_soft_stop h' = true -> is_Some reason \/ rh_soft_stop h = true)
  /\ (rh_soft_stop h = true -> rh_soft_stop h' = true).
Proof.
  destruct 1 as [r h|r h|b h|sc v h]; simpl; [split_and!; by eauto..| |].
  - unfold pause. destruct (rh_pause_receivers h); split_and!; by eauto.
  - unfold scale. destruct (rh_scale h !! sc); split_and!; by eauto.
Qed.

(** The identity of a run never changes, and a run that was called stays called. *)
Lemma engine_step_keeps (e e' : EngineRun) (o : option string) :
  engine_step e o e' ->
  rh_run_id (en_handle e') = rh_run_id (en_handle e) /\ (en_pc e <> EnNew -> en_pc e' <> EnNew).
Proof.
  destruct 1 as [e h reason Hop|e Hpc|e error Hpc|e error Hpc|e Hpc|e reason Hal|e Hn|e Hag|e e' Hpc Harm|e Hn
                 |e e' Hd|e e' Hd|e b e' Hd|e error e' Hd]; try done.
  - destruct (handle_op_keeps _ _ _ Hop) as (E & _). done.
  - destruct Harm as [Ha|[Ha|Ha]].
    + unfold arm_done in Ha. by destruct (Nat.eqb _ _); simplify_eq.
    + unfold arm_abort in Ha. destruct (en_aborts e); simplify_eq; [|done]. by destruct (_ && _); simplify_eq.
    + unfold arm_soft in Ha. by destruct (rh_soft_stop (en_handle e)); simplify_eq.
  - unfold drained in Hd. destruct (en_pc e); try done. by destruct (Nat.eqb _ _); simplify_eq.
  - unfold read_reason in Hd. destruct (en_pc e); by simplify_eq.
  - unfold finish_run in Hd. destruct (en_pc e); by simplify_eq.
  - unfold aggregator_panicked in Hd. destruct (en_pc e); by simplify_eq.
Qed.

Lemma engine_step_returned (e e' : EngineRun) (o : option string) (r : result string RunResult) :
  engine_step e o e' -> en_pc e = EnReturned r -> en_pc e' = EnReturned r.
Proof.
  destruct 1 as [e h reason Hop|e Hpc|e error Hpc|e error Hpc|e Hpc|e reason Hal|e Hn|e Hag|e e' Hpc Harm|e Hn
                 |e e' Hd|e e' Hd|e b e' Hd|e error e' Hd]; intros Hr; try congruence; try done.
  - unfold drained in Hd. by rewrite Hr in Hd.
  - unfold read_reason in Hd. by rewrite Hr in Hd.
  - unfold finish_run in Hd. by rewrite Hr in Hd.
  - unfold aggregator_panicked in Hd. by rewrite Hr in Hd.
Qed.

(** Reasons are only ever added. *)
Lemma engine_ok_more (e : EngineRun) (reasons extra : list string) :
  engine_ok e reasons -> engine_ok e (reasons ++ extra).
Proof.
  intros [H1 H2 H3 H4 H5 H6]. constructor; [done| | | |done|done]; setoid_rewrite elem_of_app; auto.
  eapply Forall_impl; [exact H3|by auto].
Qed.

Lemma engine_step_ok (e : EngineRun) (reasons : list string) (o : option string) (e' : EngineRun) :
  engine_step e o e' -> engine_ok e reasons -> engine_ok e' (reasons ++ option_list o).
Proof.
  intros Hs Hok. pose proof (engine_ok_more e reasons (option_list o) Hok) as [H1 H2 H3 H4 H5 H6]. clear Hok.
  destruct Hs as [e h reason Hop|e Hpc|e error Hpc|e error Hpc|e Hpc|e reason Hal|e Hn|e Hag|e e' Hpc Harm|e Hn
                 |e e' Hd|e e' Hd|e b e' Hd|e error e' Hd]; simpl option_list in *.
  - destruct (handle_op_keeps _ _ _ Hop) as (_ & E1 & E2 & E3 & _). constructor; simpl; [by rewrite E1| |done|done| |done].
    + intros r. rewrite E2. destruct reason as [x|]; [|by auto]. intros [= ->]. set_solver.
    + intros Hsoft. rewrite E2. destruct (E3 Hsoft) as [[x ->]|Hs]; [by eauto|]. destruct reason; by eauto.
  - rewrite Hpc in *. by constructor.
  - rewrite Hpc in *. constructor; simpl; auto.
  - rewrite Hpc in *. constructor; simpl; auto. intros r [= <-]. set_solver.
  - rewrite Hpc in *. by constructor.
  - constructor; simpl; auto. apply Forall_app. split; [done|]. repeat constructor. set_solver.
  - constructor; simpl; auto. intros Hw. rewrite H6; done.
  - by constructor.
  - rewrite Hpc in *. destruct Harm as [Ha|[Ha|Ha]].
    + unfold arm_done in Ha. destruct (Nat.eqb_spec (en_scenarios e) 0); simplify_eq. constructor; simpl; auto.
    + unfold arm_abort in Ha. destruct (en_aborts e) as [|r rest] eqn:Hq.
      * destruct (Nat.eqb_spec (en_scenarios e) 0); simplify_eq/=. destruct (negb _); simplify_eq.
        constructor; simpl; rewrite ?Hq; auto.
      * simplify_eq. apply Forall_cons in H3 as [Hr Hrest]. constructor; simpl; auto; by intros ? [= <-].
    + unfold arm_soft in Ha. destruct (rh_soft_stop (en_handle e)) eqn:Hso; simplify_eq. constructor; simpl; auto; done.
  - by constructor.
  - unfold drained in Hd. destruct (en_pc e) eqn:Hpc; try done.
    destruct (Nat.eqb_spec (en_scenarios e) 0); simplify_eq. constructor; simpl in *; auto.
  - unfold read_reason in Hd. destruct (en_pc e) eqn:Hpc; try done. simplify_eq. constructor; simpl in *; auto.
    intros r. destruct aborted; [|by auto]. by auto.
  - unfold finish_run in Hd. destruct (en_pc e) eqn:Hpc; try done. simplify_eq. constructor; simpl in *; auto.
  - unfold aggregator_panicked in Hd. destruct (en_pc e) eqn:Hpc; try done. simplify_eq. constructor; simpl in *; auto. done.
Qed.

Lemma engine_run_ok run_id total ext (e : EngineRun) (reasons : list string) :
  engine_run run_id total ext e reasons -> engine_ok e reasons.
Proof.
  induction 1 as [|e reasons o e' _ IH Hs]; [|by eapply engine_step_ok].
  by constructor.
Qed.

(** No scenario listens to the pause channel yet. *)
Definition unstarted (e : EngineRun) : Prop :=
  rh_pause_receivers (en_handle e) = 0%nat /\ rh_pause (en_handle e) = false.

Lemma unstarted_step (e e' : EngineRun) (o : option string) :
  engine_step e o e' -> en_pc e = EnNew -> en_pc e' = EnNew -> unstarted e -> unstarted e'.
Proof.
  unfold unstarted. intros Hs Hpc Hpc' [Hr Hp].
  destruct Hs as [e h reason Hop|e ?|e error ?|e error ?|e ?|e reason Hal|e Hn|e Hag|e e' ? Harm|e Hn
                 |e e' Hd|e e' Hd|e b e' Hd|e error e' Hd]; try done; simpl in *.
  - destruct Hop as [r h|r h|b h|sc v h]; simpl; [done|done| |].
    + unfold pause. by rewrite Hr.
    + unfold scale. by destruct (rh_scale h !! sc).
  - by rewrite Hr.
  - congruence.
  - unfold drained in Hd. by rewrite Hpc in Hd.
  - unfold read_reason in Hd. by rewrite Hpc in Hd.
  - unfold finish_run in Hd. by rewrite Hpc in Hd.
  - unfold aggregator_panicked in Hd. by rewrite Hpc in Hd.
Qed.

Lemma engine_new_ok run_id total ext : engine_ok (Engine_new run_id total ext) [].
Proof. apply (engine_run_ok run_id total ext). apply er_new. Qed.

(** A finished status means a returned run. *)
Lemma finished_returned (e : EngineRun) (reasons : list string) (passed : bool) :
  engine_ok e reasons -> rh_status (en_handle e) = StFinished passed -> exists r, en_pc e = EnReturned r.
Proof.
  intros Hok Hst. pose proof (eo_status _ _ Hok) as Hs. rewrite Hst in Hs.
  destruct (en_pc e); simpl in Hs; try done; try (destruct Hs; done). by eexists.
Qed.

(** ** Properties *)

(** Steps that lead on from a state, whatever their labels. *)
Definition engine_next (e e' : EngineRun) : Prop := exists o, engine_step e o e'.

(** The run has not read the stop reason yet. *)
Definition before_verdict (p : EnginePc) : bool :=
  match p with EnNew | EnSetup | EnSelect | EnDraining _ | EnJoined _ => true | _ => false end.

(** A stopped run: whichever way it goes, its verdict has a reason. *)
Definition doomed (e : EngineRun) : Prop :=
  match en_pc e with
  | EnFinishing a => is_Some a
  | EnReturned (Ok r) => is_Some (rr_aborted r)
  | EnReturned (Err _) => True
  | _ => rh_soft_stop (en_handle e) = true
  end.

Lemma doomed_step (e e' : EngineRun) (reasons : list string) :
  engine_ok e reasons -> engine_next e e' -> doomed e -> doomed e'.
Proof.
  intros Hok [o Hs] Hd. pose proof (eo_soft e reasons Hok) as Hsoft. unfold doomed in *.
  destruct Hs as [e h reason Hop|e Hpc|e error Hpc|e error Hpc|e Hpc|e reason Hal|e Hn|e Hag|e e' Hpc Harm|e Hn
                 |e e' He|e e' He|e b e' He|e error e' He]; simpl; try done.
  - destruct (handle_op_keeps _ _ _ Hop) as (_ & _ & _ & _ & E4). destruct (en_pc e) as [| | | | | |[|]]; auto.
  - by rewrite Hpc in Hd.
  - by rewrite Hpc in Hd.
  - rewrite Hpc in Hd. destruct Harm as [Ha|[Ha|Ha]].
    + unfold arm_done in Ha. by destruct (Nat.eqb _ _); simplify_eq.
    + unfold arm_abort in Ha. destruct (en_aborts e); simplify_eq; [|done]. by destruct (_ && _); simplify_eq.
    + unfold arm_soft in Ha. by destruct (rh_soft_stop (en_handle e)) eqn:?; simplify_eq.
  - unfold drained in He. destruct (en_pc e) eqn:Hpc; try done. by destruct (Nat.eqb _ _); simplify_eq.
  - unfold read_reason in He. destruct (en_pc e) eqn:Hpc; try done. simplify_eq. simpl. destruct aborted; [done|auto].
  - unfold finish_run in He. destruct (en_pc e) eqn:Hpc; try done. by simplify_eq.
  - unfold aggregator_panicked in He. destruct (en_pc e) eqn:Hpc; try done. by simplify_eq.
Qed.

(** The verdict of a run is true.  In every reachable state the status is
    [Finished { passed }] exactly when [run] has returned a result, [passed] then says
    that the thresholds passed and the run was not aborted, the reason of an abort is
    one that was really handed over (by a stop, a kill, a threshold or a script), and
    no scenario task is left running. *)
Theorem engine_verdict run_id total ext (e : EngineRun) (reasons : list string) :
  engine_run run_id total ext e reasons ->
  (forall passed, rh_status (en_handle e) = StFinished passed <->
     exists r, en_pc e = EnReturned (Ok r) /\ passed = (rr_passed r && negb (bool_decide (is_Some (rr_aborted r)))))
  /\ (forall r, en_pc e = EnReturned (Ok r) ->
       en_scenarios e = 0%nat /\ forall reason, rr_aborted r = Some reason -> reason ∈ reasons).
Proof.
  intros Hr%engine_run_ok. destruct Hr as [Hst _ _ Hab _ Hleft]. split.
  - intros passed. destruct (en_pc e) as [| | | | | |[r|]]; simpl in Hst; split;
      try (intros Hp; rewrite Hp in Hst; destruct_or?; done); try (by intros (? & ? & _)).
    + intros Hp. rewrite Hst in Hp. injection Hp as <-. by eexists.
    + intros (r' & [= <-] & ->). done.
  - intros r Hpc. rewrite Hpc in *. split; [by apply Hleft|]. intros reason. apply Hab.
Qed.

(** C16: a stop is never lost.  Once the run has been told to stop, by anyone, before it
    reads the stop reason, every continuation that returns a result reports it aborted,
    never finished, whatever the thresholds say. *)
Theorem stop_never_lost run_id total ext (e e' : EngineRun) (reasons : list string) (r : RunResult) :
  engine_run run_id total ext e reasons -> before_verdict (en_pc e) = true -> rh_soft_stop (en_handle e) = true ->
  rtc engine_next e e' -> en_pc e' = EnReturned (Ok r) ->
  is_Some (rr_aborted r) /\ rh_status (en_handle e') = StFinished false.
Proof.
  intros Hr Hpc Hsoft Hs Hret.
  assert (doomed e) as Hd by (unfold doomed; by destruct (en_pc e)). clear Hpc Hsoft.
  assert (exists reasons', engine_run run_id total ext e' reasons' /\ doomed e') as (reasons' & Hr' & Hd').
  { clear Hret. revert reasons Hr Hd. induction Hs as [e|e e1 e' Hn Hs IH]; intros reasons Hr Hd; [by eauto|].
    pose proof (doomed_step e e1 reasons (engine_run_ok _ _ _ _ _ Hr) Hn Hd) as Hd1. destruct Hn as [o Ho].
    eapply IH; [|done]. by eapply er_step. }
  unfold doomed in Hd'. rewrite Hret in Hd'. split; [done|].
  pose proof (eo_status _ _ (engine_run_ok _ _ _ _ _ Hr')) as Hst. rewrite Hret in Hst. simpl in Hst.
  rewrite Hst, bool_decide_eq_true_2 by done. by rewrite andb_false_r.
Qed.

(** ** A concrete run: stopped while its only scenario runs *)

Module EngineDemo.

Definition e0 : EngineRun := Engine_new "run-1" 1 [].
Definition e1 : EngineRun := spawn_scenarios (run_begin e0).
Definition e2 : EngineRun := with_handle (fun _ => stop "enough" (en_handle e1)) e1.
Definition e3 : EngineRun := goto (EnDraining None) (arm_net (with_handle (set_status StStopping) e2)).
Definition e4 : EngineRun := goto (EnJoined None) (scenario_done e3).
Definition e5 : EngineRun := goto (EnFinishing (Some "enough")) e4.
Definition result : RunResult := mkRunResult true (Some "enough").
Definition e6 : EngineRun := goto (EnReturned (Ok result)) (with_handle (set_status (StFinished false)) e5).

Lemma s1 : engine_run "run-1" 1 [] e1 [].
Proof.
  change (engine_run "run-1" 1 [] e1 (([] ++ option_list None) ++ option_list None)).
  eapply er_step; [eapply er_step; [apply er_new|]|]; [by apply es_begin|by apply es_spawn].
Qed.

Lemma s2 : engine_run "run-1" 1 [] e2 ["enough"].
Proof.
  change (engine_run "run-1" 1 [] e2 ([] ++ option_list (Some "enough"))).
  eapply er_step; [exact s1|]. apply es_handle, ho_stop.
Qed.

Lemma n3 : engine_next e2 e3.
Proof. exists None. apply es_select; [done|]. right. by right. Qed.
Lemma n4 : engine_next e3 (scenario_done e3).
Proof. exists None. apply es_scenario_done. simpl. lia. Qed.
Lemma n5 : engine_next (scenario_done e3) e4.
Proof. exists None. by apply es_drained. Qed.
Lemma n6 : engine_next e4 e5.
Proof. exists None. by apply es_reason. Qed.
Lemma n7 : engine_next e5 e6.
Proof. exists None. by apply (es_finish _ true). Qed.

Lemma s7 : rtc engine_next e2 e6.
Proof.
  eapply rtc_l; [exact n3|]. eapply rtc_l; [exact n4|]. eapply rtc_l; [exact n5|]. eapply rtc_l; [exact n6|].
  eapply rtc_once, n7.
Qed.

Lemma stop_never_lost_witness :
  is_Some (rr_aborted result) /\ rh_status (en_handle e6) = StFinished false.
Proof. exact (stop_never_lost "run-1" 1 [] e2 e6 ["enough"] result s2 eq_refl eq_refl s7 eq_refl). Defined.

Lemma s6 : exists reasons, engine_run "run-1" 1 [] e6 reasons.
Proof.
  assert (forall e e', rtc engine_next e e' -> forall reasons, engine_run "run-1" 1 [] e reasons ->
            exists reasons', engine_run "run-1" 1 [] e' reasons') as Hrtc.
  { intros e e'. induction 1 as [e|e e1 e' [o Ho] _ IH]; intros reasons Hr; [by eauto|]. eapply IH. by eapply er_step. }
  exact (Hrtc _ _ s7 _ s2).
Qed.

Lemma engine_verdict_witness :
  exists reasons, engine_run "run-1" 1 [] e6 reasons
    /\ exists r, en_pc e6 = EnReturned (Ok r) /\ false = (rr_passed r && negb (bool_decide (is_Some (rr_aborted r)))).
Proof.
  destruct s6 as [reasons Hr]. exists reasons. split; [exact Hr|].
  exact (proj1 (proj1 (engine_verdict "run-1" 1 [] e6 reasons Hr) false) eq_refl).
Defined.
End EngineDemo.
