(* ===== verification/Agent.v ===== *)
(** * The load agent (crates/loadr-agent/src/agent.rs)

    One slot holds the run that occupies the agent ([RunPhase]); assignments are
    prepared, runs held behind the start barrier, executed and reported by detached
    tasks; the session loop answers the controller.  What the tasks share by reference
    is a store here: the cancel flags, the [oneshot] channels of the start barrier, and
    the engines with their handles.  Every function takes and returns the whole state.

    [prepare_engine] (files, plan loading, engine construction) is a parameter seen
    through its result. *)

From S2P Require Import Prelude Float64 Str Metrics Aggregate Federation Uplink Proto Threshold Thresholds Summary Pipeline Flush Engine.

Definition AgentError_to_string (e : AgentError) : string :=
  match e with
  | Config e => "configuration error: " +:+ e
  | Transport e => "transport error: " +:+ e
  | Tls e => "tls error: " +:+ e
  | Io path source => "i/o error on " +:+ path +:+ ": " +:+ source
  | Security e => "security violation: " +:+ e
  | NoAgents => "no connected agents match the request"
  | AgentsBusy => "all matching agents are busy with other runs"
  | UnknownRun run => "unknown run `" +:+ run +:+ "`"
  | NotStarted run => "run `" +:+ run +:+ "` has not started yet"
  | Proto.Engine e => "engine error: " +:+ e
  | ControlFailed e => "control command failed: " +:+ e
  end.

(** The rest of what the agent uses of the window. *)
Class AgentWindow (W : Type) := {
  aw_window :: Window W;
  win_ack : W -> Z -> W;
  win_close : W -> W;
  win_incarnation : W -> string;
}.

Record ActiveRun := mkActiveRun {
  ar_run_id : string;
  ar_handle : nat;             (** the engine whose handle this is *)
  ar_start_tx : option nat;    (** the sender of a start channel *)
}.

Inductive RunPhase :=
| Preparing (run_id : string) (cancel : nat) (pending_start : option Z)
| Armed (run : ActiveRun).

Definition phase_run_id (p : RunPhase) : string :=
  match p with Preparing run_id _ _ => run_id | Armed run => ar_run_id run end.

(** A [oneshot] channel: open, with the value sent, or with its sender dropped. *)
Inductive Oneshot :=
| Open
| Sent (start_ms : Z)
| Dropped.

(** The detached tasks, by where they are suspended. *)
Inductive AgentTask :=
| TPrepare (a : Assignment) (cancel : nat)
| TReady (run_id : string) (partition_index : Z)
| TPrepFailed (run_id detail : string)
| TWaitStart (engine start_rx : nat) (run_id : string)
| TSleep (engine : nat) (run_id : string) (start_ms : Z)
| TStarted (engine : nat) (run_id : string)
| TRunning (engine : nat) (run_id : string)
| TReport (engine : nat) (run_id kind detail summary_json : string).

Record AgentState (W : Type) := mkAgent {
  current : option RunPhase;
  cancels : gmap nat bool;
  starts : gmap nat Oneshot;
  engines : gmap nat EngineRun;
  tasks : list AgentTask;
  uplink : W;
  registered : bool;
  next_id : nat;
}.
Arguments mkAgent {W}.
Arguments current {W} _.
Arguments cancels {W} _.
Arguments starts {W} _.
Arguments engines {W} _.
Arguments tasks {W} _.
Arguments uplink {W} _.
Arguments registered {W} _.
Arguments next_id {W} _.

Section Agent.
Context {W : Type} `{!AgentWindow W}.

Notation Agent := (AgentState W).

Definition agent_new (w : W) : Agent := mkAgent None ∅ ∅ ∅ [] w false 0.

Definition set_current (v : option RunPhase) (g : Agent) : Agent :=
  mkAgent v (cancels g) (starts g) (engines g) (tasks g) (uplink g) (registered g) (next_id g).
Definition set_cancel (c : nat) (b : bool) (g : Agent) : Agent :=
  mkAgent (current g) (<[c := b]> (cancels g)) (starts g) (engines g) (tasks g) (uplink g) (registered g) (next_id g).
Definition set_start (ch : nat) (v : Oneshot) (g : Agent) : Agent :=
  mkAgent (current g) (cancels g) (<[ch := v]> (starts g)) (engines g) (tasks g) (uplink g) (registered g) (next_id g).
Definition set_engine (id : nat) (e : EngineRun) (g : Agent) : Agent :=
  mkAgent (current g) (cancels g) (starts g) (<[id := e]> (engines g)) (tasks g) (uplink g) (registered g) (next_id g).
Definition set_tasks (l : list AgentTask) (g : Agent) : Agent :=
  mkAgent (current g) (cancels g) (starts g) (engines g) l (uplink g) (registered g) (next_id g).
Definition set_uplink (w : W) (g : Agent) : Agent :=
  mkAgent (current g) (cancels g) (starts g) (engines g) (tasks g) w (registered g) (next_id g).
Definition set_registered (b : bool) (g : Agent) : Agent :=
  mkAgent (current g) (cancels g) (starts g) (engines g) (tasks g) (uplink g) b (next_id g).
Definition fresh (g : Agent) : Agent * nat :=
  (mkAgent (current g) (cancels g) (starts g) (engines g) (tasks g) (uplink g) (registered g) (S (next_id g)),
   next_id g).
Definition spawn (t : AgentTask) (g : Agent) : Agent := set_tasks (tasks g ++ [t]) g.

Definition try_enqueue_msg (m : UplinkMessage) (g : Agent) : Agent :=
  set_uplink (win_try_enqueue (uplink g) m).1 g.

Definition handle_of (id : nat) (g : Agent) : option RunHandle := en_handle <$> engines g !! id.
Definition on_handle (id : nat) (f : RunHandle -> RunHandle) (g : Agent) : Agent :=
  mkAgent (current g) (cancels g) (starts g) (alter (with_handle f) id (engines g)) (tasks g) (uplink g)
    (registered g) (next_id g).

(** Dropping an [ActiveRun] drops the sender it still holds. *)
Definition drop_run (run : ActiveRun) (g : Agent) : Agent :=
  match ar_start_tx run with Some ch => set_start ch Dropped g | None => g end.
Definition drop_phase (p : option RunPhase) (g : Agent) : Agent :=
  match p with Some (Armed run) => drop_run run g | _ => g end.

(** Assigning the slot drops what it held. *)
Definition replace_current (v : option RunPhase) (g : Agent) : Agent :=
  set_current v (drop_phase (current g) g).

(** ** Messages *)

Definition register_message (agent_id agent_name loadr_version build_revision : string)
    (labels : gmap string string) (cpu_cores : Z) (g : Agent) : UplinkMessage :=
  agent_msg (MRegister (mkRegister agent_id agent_name PROTOCOL_VERSION loadr_version cpu_cores labels
    (from_option phase_run_id "" (current g)) build_revision (win_incarnation (uplink g)))).

Definition run_state_name (s : RunStatus) : string :=
  match s with
  | StPending => "pending"
  | StRunning => "running"
  | StStopping => "stopping"
  | StFinished _ => "finished"
  end.

(** [vus] is the last value of the gauge in the handle's snapshot. *)
Definition make_heartbeat (vus : nat -> option f64) (g : Agent) : UplinkMessage :=
  let '(run_id, run_state, active_vus) :=
    match current g with
    | Some (Preparing run_id _ _) => (run_id, "preparing", 0)
    | Some (Armed run) =>
        let state := from_option (fun h => run_state_name (rh_status h)) "" (handle_of (ar_handle run) g) in
        (ar_run_id run, state, f64_as_u64 (f64_max (default f64_zero (vus (ar_handle run))) f64_zero))
    | None => ("", "idle", 0)
    end in
  agent_msg (MHeartbeat (mkHeartbeat active_vus f64_zero run_id run_state)).

(** ** Assignments *)

Definition is_finished (s : RunStatus) : bool := match s with StFinished _ => true | _ => false end.

(** Claim the slot and hand the setup to the blocking pool. *)
Definition accept_assignment (a : Assignment) (g : Agent) : Agent :=
  let '(g, cancel) := fresh g in
  let g := set_cancel cancel false g in
  let g := replace_current (Some (Preparing (as_run_id a) cancel None)) g in
  spawn (TPrepare a cancel) g.

Definition arm_assignment (a : Assignment) (g : Agent) : Agent * result string unit :=
  if Z.eqb (as_partition_count a) 0 || Z.leb (as_partition_count a) (as_partition_index a) then
    (g, Err ("invalid partition " +:+ Z_to_string (as_partition_index a) +:+ "/" +:+ Z_to_string (as_partition_count a)))
  else match validate_run_id (as_run_id a) with
  | Err e => (g, Err (AgentError_to_string e))
  | Ok _ =>
      let accept := (accept_assignment a g, Ok tt) in
      match current g with
      | Some phase =>
          if decide (phase_run_id phase = as_run_id a) then (g, Ok tt)
          else match phase with
               | Preparing run_id _ _ => (g, Err ("agent is busy with run " +:+ run_id))
               | Armed run =>
                   if from_option (fun h => is_finished (rh_status h)) true (handle_of (ar_handle run) g)
                   then accept
                   else (g, Err ("agent is busy with run " +:+ ar_run_id run))
               end
      | None => accept
      end
  end.

(** [matches!(cur, Some(Preparing { run_id, .. }) if run_id == ...)] *)
Definition is_preparing (run_id : string) (p : option RunPhase) : bool :=
  match p with Some (Preparing id _ _) => bool_decide (id = run_id) | _ => false end.
Definition is_armed (run_id : string) (p : option RunPhase) : bool :=
  match p with Some (Armed run) => bool_decide (ar_run_id run = run_id) | _ => false end.

Definition cancelled (cancel : nat) (g : Agent) : bool := default false (cancels g !! cancel).

(** [prepare_assignment] once the blocking half has given its result: the state, and
    the task it goes on as. *)
Definition prepare_assignment (a : Assignment) (cancel : nat) (result : result string EngineRun) (g : Agent) :
    Agent * option AgentTask :=
  let run_id := as_run_id a in
  match result with
  | Err detail =>
      let g := if is_preparing run_id (current g) then replace_current None g else g in
      (g, if cancelled cancel g then None else Some (TPrepFailed run_id detail))
  | Ok engine =>
      match current g with
      | Some (Preparing id _ pending_start) =>
          if negb (bool_decide (id = run_id)) then (g, None)
          else if cancelled cancel g then (replace_current None g, None)
          else
            let '(g, ch) := fresh g in
            let '(g, eid) := fresh g in
            let g := set_engine eid engine g in
            let '(g, start_tx) :=
              match pending_start with
              | Some start_ms => (set_start ch (Sent start_ms) g, None)
              | None => (set_start ch Open g, Some ch)
              end in
            let g := replace_current (Some (Armed (mkActiveRun run_id eid start_tx))) g in
            (spawn (TWaitStart eid ch run_id) g, Some (TReady run_id (as_partition_index a)))
      | _ => (g, None)
      end
  end.

(** The [clear] closure of [spawn_run]. *)
Definition clear (run_id : string) (g : Agent) : Agent :=
  if is_armed run_id (current g) then replace_current None g else g.

(** ** The detached tasks

    One poll of a task: the state, and the task it is afterwards ([None] when it has
    ended).  [enqueue] parks while the window is full. *)

Definition report (m : UplinkMessage) (parked next : option AgentTask) (g : Agent) : Agent * option AgentTask :=
  match win_enqueue (uplink g) m with
  | (w, Ready _) => (set_uplink w g, next)
  | (w, Uplink.Pending) => (set_uplink w g, parked)
  end.

(** [spawn_run]'s task after [engine.run()]. *)
Definition outcome (r : result string RunResult) : string * string :=
  match r with
  | Ok res => match rr_aborted res with Some reason => ("aborted", reason) | None => ("finished", "") end
  | Err e => ("failed", e)
  end.

(** [now] is read by a task that sleeps; [built] is what the blocking half of a
    preparation gave, [summary_json] the serialized summary of a run that returned. *)
Definition task_poll (now : Z) (built : result string EngineRun) (summary_json : string) (t : AgentTask) (g : Agent) :
    Agent * option AgentTask :=
  match t with
  | TPrepare a cancel => prepare_assignment a cancel built g
  | TReady run_id partition_index => report (assignment_ready run_id partition_index) (Some t) None g
  | TPrepFailed run_id detail => report (run_event run_id "prep_failed" detail "") (Some t) None g
  | TWaitStart engine start_rx run_id =>
      match starts g !! start_rx with
      | Some (Sent start_ms) => (g, Some (TSleep engine run_id start_ms))
      | Some Dropped => (clear run_id g, None)
      | Some Open | None => (g, Some t)
      end
  | TSleep engine run_id start_ms =>
      (g, Some (if Z.leb start_ms now then TStarted engine run_id else t))
  | TStarted engine run_id =>
      match report (run_event run_id "started" "" "") (Some t) (Some (TRunning engine run_id)) g with
      | (g, Some (TRunning _ _)) =>
          (mkAgent (current g) (cancels g) (starts g) (alter run_begin engine (engines g)) (tasks g) (uplink g)
             (registered g) (next_id g), Some (TRunning engine run_id))
      | r => r
      end
  | TRunning engine run_id =>
      match en_pc <$> engines g !! engine with
      | Some (EnReturned r) =>
          let '(kind, detail) := outcome r in
          (g, Some (TReport engine run_id kind detail (match r with Ok _ => summary_json | Err _ => "" end)))
      | _ => (g, Some t)
      end
  | TReport engine run_id kind detail summary =>
      match report (run_event run_id kind detail summary) (Some t) None g with
      | (g, None) => (clear run_id g, None)
      | r => r
      end
  end.

(** ** Messages from the controller *)

Definition enqueue_control_ack (c : Control) (r : result string unit) (g : Agent) : Agent :=
  let '(applied, detail) := match r with Ok _ => (true, "") | Err detail => (false, detail) end in
  try_enqueue_msg (agent_msg (MControlAck (mkControlAck (ct_run_id c) (ct_command_id c) (ct_action c)
    (ct_scenario c) (ct_value c) applied detail))) g.

Definition handle_start (run_id : string) (start_unix_ms : Z) (g : Agent) : Agent :=
  match current g with
  | Some (Armed run) =>
      if decide (ar_run_id run = run_id) then
        match ar_start_tx run with
        | Some ch =>
            set_current (Some (Armed (mkActiveRun (ar_run_id run) (ar_handle run) None)))
              (set_start ch (Sent start_unix_ms) g)
        | None => g
        end
      else g
  | Some (Preparing id cancel _) =>
      if decide (id = run_id) then set_current (Some (Preparing id cancel (Some start_unix_ms))) g else g
  | None => g
  end.

Definition is_stopish (action : string) : bool := bool_decide (action = "stop") || bool_decide (action = "kill").

Inductive Action :=
| CancelPrep (cancel : nat)
| Disarm (run : ActiveRun)
| Drive (handle : nat)
| PreparingAction
| Unknown.

Definition action_of (c : Control) (g : Agent) : Action :=
  match current g with
  | Some (Preparing run_id cancel _) =>
      if decide (run_id = ct_run_id c) then (if is_stopish (ct_action c) then CancelPrep cancel else PreparingAction)
      else Unknown
  | Some (Armed run) =>
      if decide (ar_run_id run = ct_run_id c) then
        (if is_stopish (ct_action c) && bool_decide (is_Some (ar_start_tx run)) then Disarm run
         else Drive (ar_handle run))
      else Unknown
  | None => Unknown
  end.

(** The [match] on the action's name: the handle after it, and the outcome. *)
Definition drive (c : Control) (h : RunHandle) : RunHandle * result string unit :=
  if bool_decide (ct_action c = "stop") then (stop "controller requested stop" h, Ok tt)
  else if bool_decide (ct_action c = "kill") then (kill "controller requested kill" h, Ok tt)
  else if bool_decide (ct_action c = "pause") then (pause true h, Ok tt)
  else if bool_decide (ct_action c = "resume") then (pause false h, Ok tt)
  else if bool_decide (ct_action c = "scale") then scale (ct_scenario c) (ct_value c) h
  else (h, Err ("unknown control action `" +:+ ct_action c +:+ "`")).

Definition handle_control (c : Control) (g : Agent) : Agent :=
  match action_of c g with
  | CancelPrep cancel => enqueue_control_ack c (Ok tt) (set_current None (set_cancel cancel true g))
  | Disarm run =>
      enqueue_control_ack c (Ok tt)
        (drop_run run (on_handle (ar_handle run) (kill "controller requested stop before start")
                         (set_current None g)))
  | Drive id =>
      match handle_of id g with
      | Some h => let '(h, r) := drive c h in enqueue_control_ack c r (on_handle id (fun _ => h) g)
      | None => g
      end
  | PreparingAction => enqueue_control_ack c (Err "run is still preparing on this agent") g
  | Unknown => enqueue_control_ack c (Err "run is not active on this agent") g
  end.

Definition handle_controller_message (m : option CtrlMsg) (g : Agent) : Agent :=
  match m with
  | Some (CRegistered _ _ _) => set_registered true g
  | Some (CAssignment a) =>
      match arm_assignment a g with
      | (g, Ok _) => g
      | (g, Err detail) => try_enqueue_msg (run_event (as_run_id a) "prep_failed" detail "") g
      end
  | Some (CStart run_id start_unix_ms) => handle_start run_id start_unix_ms g
  | Some (CControl c) => handle_control c g
  | Some (CUplinkAck seq) => set_uplink (win_ack (uplink g) seq) g
  | None => g
  end.

(** The end of [Agent::run]. *)
Definition shutdown (g : Agent) : Agent :=
  let g := match current g with
           | Some (Preparing _ cancel _) => set_current None (set_cancel cancel true g)
           | Some (Armed run) =>
               drop_run run (on_handle (ar_handle run) (kill "agent shutting down") (set_current None g))
           | None => g
           end in
  set_uplink (win_close (uplink g)) g.
End Agent.

(** The real window. *)
#[global] Instance uplink_agent_window `{TokioNotify} (encoded_len : UplinkMessage -> Z) : AgentWindow Uplink := {|
  aw_window := uplink_window encoded_len;
  win_ack u seq := ack u seq;
  win_close u := close u;
  win_incarnation u := incarnation u;
|}.
