(* ===== verification/AgentSystem.v ===== *)
(** * The agent's behaviour over time

    Messages from the controller, the detached tasks, the engines and the readers of the
    window interleave in any order.  [assumption] restricts the messages a controller
    may send; the theorems that need none take [any_controller]. *)

From S2P Require Import Prelude Float64 Str Metrics Aggregate Federation Uplink Proto Threshold Thresholds Summary Pipeline Flush Engine Agent.

Section System.
Context {W : Type} `{!AgentWindow W}.
Notation Agent := (AgentState W).

Record System := mkSystem {
  agent : Agent;
  clock : Z;
  received : list CtrlMsg;
  stopped : bool;
}.

(** A freshly built engine for the assignment. *)
Definition built_for (a : Assignment) (e : EngineRun) : Prop :=
  exists total ext, e = Engine_new (as_run_id a) total ext.

Definition built_ok (t : AgentTask) (built : result string EngineRun) : Prop :=
  match t, built with TPrepare a _, Ok e => built_for a e | _, _ => True end.

Context (assumption : Agent -> CtrlMsg -> Prop).

Inductive step : System -> System -> Prop :=
| st_message s m :
    stopped s = false -> assumption (agent s) m ->
    step s (mkSystem (handle_controller_message (Some m) (agent s)) (clock s) (received s ++ [m]) false)
| st_task s l1 t l2 built summary g o :
    tasks (agent s) = l1 ++ t :: l2 -> built_ok t built ->
    task_poll (clock s) built summary t (set_tasks (l1 ++ l2) (agent s)) = (g, o) ->
    step s (mkSystem (set_tasks (tasks g ++ option_list o) g) (clock s) (received s) (stopped s))
| st_engine s id e o e' :
    engines (agent s) !! id = Some e -> en_pc e <> EnNew -> engine_step e o e' ->
    step s (mkSystem (set_engine id e' (agent s)) (clock s) (received s) (stopped s))
| st_window s w : step s (mkSystem (set_uplink w (agent s)) (clock s) (received s) (stopped s))
| st_time s now : clock s <= now -> step s (mkSystem (agent s) now (received s) (stopped s))
| st_shutdown s :
    stopped s = false -> step s (mkSystem (shutdown (agent s)) (clock s) (received s) true).

Inductive reach : System -> Prop :=
| re_new w now : reach (mkSystem (agent_new w) now [] false)
| re_step s s' : reach s -> step s s' -> reach s'.

End System.

(** ** Run tasks *)

Definition run_task (t : AgentTask) : option (nat * string) :=
  match t with
  | TWaitStart e _ r | TSleep e r _ | TStarted e r | TRunning e r | TReport e r _ _ _ => Some (e, r)
  | _ => None
  end.

Definition run_engines (l : list AgentTask) : list nat := omap (fun t => fst <$> run_task t) l.

Definition executing (e : EngineRun) : Prop :=
  match en_pc e with EnNew | EnReturned _ => False | _ => True end.

(** Where the engine of a task stands. *)
Definition stage_ok (t : AgentTask) (e : EngineRun) : Prop :=
  match t with
  | TWaitStart _ _ _ | TSleep _ _ _ | TStarted _ _ => en_pc e = EnNew
  | TRunning _ _ => en_pc e <> EnNew
  | TReport _ _ _ _ _ => exists r, en_pc e = EnReturned r
  | _ => True
  end.

(** An engine in one of its own reachable shapes. *)
Definition good (e : EngineRun) : Prop :=
  (exists reasons, engine_ok e reasons) /\ (en_pc e = EnNew -> unstarted e).

Lemma good_step (e e' : EngineRun) (o : option string) :
  engine_step e o e' -> (en_pc e' = EnNew -> en_pc e = EnNew) -> good e -> good e'.
Proof.
  intros Hs Hn [[rs Hok] Hu]. split; [eexists; by eapply engine_step_ok|]. intros Hpc.
  eapply unstarted_step; [exact Hs|by apply Hn|done|by apply Hu, Hn].
Qed.

(** What a step of an engine keeps, as long as it does not begin it. *)
Definition engine_change (e e' : EngineRun) : Prop :=
  e' = e \/ exists o, engine_step e o e' /\ (en_pc e = EnNew -> en_pc e' = EnNew).

Lemma change_facts (e e' : EngineRun) : engine_change e e' ->
  rh_run_id (en_handle e') = rh_run_id (en_handle e)
  /\ (good e -> good e')
  /\ (en_pc e' = en_pc e
      \/ en_pc e <> EnNew /\ en_pc e' <> EnNew /\ forall r, en_pc e = EnReturned r -> en_pc e' = en_pc e).
Proof.
  intros [->|(o & Hs & Hn)]; [split_and!; [done|done|by left]|].
  destruct (engine_step_keeps e e' o Hs) as [Hid Hk]. split_and!; [done| |].
  - apply (good_step e e' o Hs). intros Hn'. destruct (en_pc e); try done; by destruct Hk.
  - destruct (en_pc e) eqn:Hpc; try (right; split_and!; [done|by apply Hk|by intros]).
    + left. by apply Hn.
    + left. by eapply engine_step_returned.
Qed.

Section Invariant.
Context {W : Type} `{!AgentWindow W}.
Notation Agent := (AgentState W).

(** A start of the run was received, for a time that has come. *)
Definition due (rec : list CtrlMsg) (now : Z) (run_id : string) : Prop :=
  exists ms, CStart run_id ms ∈ rec /\ ms <= now.

(** What a task knows of the start it waits for or was given. *)
Definition claim_ok (g : Agent) (rec : list CtrlMsg) (now : Z) (t : AgentTask) : Prop :=
  match t with
  | TWaitStart _ ch r => exists o, starts g !! ch = Some o /\ forall ms, o = Sent ms -> CStart r ms ∈ rec
  | TSleep _ r ms => CStart r ms ∈ rec
  | TStarted _ r => due rec now r
  | _ => True
  end.

(** The invariant, for a list of tasks that need not be in the state yet. *)
Record ok (ts : list AgentTask) (rec : list CtrlMsg) (now : Z) (g : Agent) : Prop := {
  ok_task t e r : t ∈ ts -> run_task t = Some (e, r) ->
    exists en, engines g !! e = Some en /\ rh_run_id (en_handle en) = r /\ stage_ok t en;
  ok_claim t : t ∈ ts -> claim_ok g rec now t;
  ok_begun e en : engines g !! e = Some en -> en_pc en <> EnNew -> due rec now (rh_run_id (en_handle en));
  ok_pending id c ms : current g = Some (Preparing id c (Some ms)) -> CStart id ms ∈ rec;
  ok_slot run : current g = Some (Armed run) ->
    (exists en, engines g !! ar_handle run = Some en)
    /\ forall ch, ar_start_tx run = Some ch ->
         TWaitStart (ar_handle run) ch (ar_run_id run) ∈ ts /\ starts g !! ch = Some Open;
  ok_chan e ch r e' r' : TWaitStart e ch r ∈ ts -> TWaitStart e' ch r' ∈ ts -> e = e' /\ r = r';
  ok_nodup : NoDup (run_engines ts);
  ok_fresh_engine e : is_Some (engines g !! e) -> (e < next_id g)%nat;
  ok_fresh_start ch : is_Some (starts g !! ch) -> (ch < next_id g)%nat;
  ok_exec e en : engines g !! e = Some en -> executing en -> exists r, TRunning e r ∈ ts;
  ok_cancel id c p : current g = Some (Preparing id c p) -> (c < next_id g)%nat;
  ok_good e en : engines g !! e = Some en -> good en;
}.

Lemma due_mono (rec rec' : list CtrlMsg) (now now' : Z) (r : string) :
  rec ⊆ rec' -> now <= now' -> due rec now r -> due rec' now' r.
Proof. intros Hr Hn (ms & Hin & Hms). exists ms. split; [by apply Hr|lia]. Qed.

Lemma ok_mono (ts : list AgentTask) (rec rec' : list CtrlMsg) (now now' : Z) (g : Agent) :
  rec ⊆ rec' -> now <= now' -> ok ts rec now g -> ok ts rec' now' g.
Proof.
  intros Hr Hn [H1 H2 H3 H4 H5 H6 H7 H8 H9 H10 H11 H12]. constructor; auto.
  - intros t Ht. specialize (H2 t Ht). destruct t; simpl in *; auto; [|by eapply due_mono].
    destruct H2 as (o & Ho & Hs). exists o. split; [done|]. intros ms Hms. apply Hr. by apply Hs.
  - intros e en He Hpc. by eapply due_mono; [..|apply (H3 e en)].
  - intros id c ms Hc. apply Hr. by eapply H4.
Qed.

Lemma ok_perm (ts ts' : list AgentTask) (rec : list CtrlMsg) (now : Z) (g : Agent) :
  ts ≡ₚ ts' -> ok ts rec now g -> ok ts' rec now g.
Proof.
  intros Hp [H1 H2 H3 H4 H5 H6 H7 H8 H9 H10 H11 H12]. constructor; auto.
  - intros t e r. rewrite <- Hp. apply H1.
  - intros t. rewrite <- Hp. apply H2.
  - intros run Hc. destruct (H5 run Hc) as [He Hch]. split; [done|]. intros ch Hs. rewrite <- Hp. by apply Hch.
  - intros e ch r e' r'. rewrite <- Hp. apply H6.
  - unfold run_engines. by rewrite <- Hp.
  - intros e en He Hx. destruct (H10 e en He Hx) as [r Hr]. exists r. by rewrite <- Hp.
Qed.

(** Only the slot, the channels and the engines matter. *)
Lemma ok_ext (ts : list AgentTask) (rec : list CtrlMsg) (now : Z) (g g' : Agent) :
  current g' = current g -> starts g' = starts g -> engines g' = engines g -> (next_id g <= next_id g')%nat ->
  ok ts rec now g -> ok ts rec now g'.
Proof.
  intros E1 E2 E3 E4 [H1 H2 H3 H4 H5 H6 H7 H8 H9 H10 H11 H12].
  constructor; unfold claim_ok in *; rewrite ?E1, ?E2, ?E3; auto.
  - intros e He. specialize (H8 e He). lia.
  - intros ch Hch. specialize (H9 ch Hch). lia.
  - intros id c p Hp. specialize (H11 id c p Hp). lia.
Qed.

(** Tasks of no run come and go freely. *)
Lemma ok_spawn (ts : list AgentTask) (rec : list CtrlMsg) (now : Z) (g : Agent) (t : AgentTask) :
  run_task t = None -> ok ts rec now g -> ok (ts ++ [t]) rec now g.
Proof.
  intros Ht [H1 H2 H3 H4 H5 H6 H7 H8 H9 H10 H11 H12].
  assert (forall e ch r, TWaitStart e ch r ∈ ts ++ [t] -> TWaitStart e ch r ∈ ts) as Hw.
  { intros e ch r [?|<-%list_elem_of_singleton]%elem_of_app; done. }
  constructor; auto.
  - intros t' e r [Hin| ->%list_elem_of_singleton]%elem_of_app Hr; [by eauto|congruence].
  - intros t' [Hin| ->%list_elem_of_singleton]%elem_of_app; [by auto|]. by destruct t.
  - intros run Hc. destruct (H5 run Hc) as [He Hch]. split; [done|]. intros ch Hs.
    rewrite elem_of_app. destruct (Hch ch Hs). auto.
  - intros e ch r e' r' Ha%Hw Hb%Hw. by eapply H6.
  - unfold run_engines. rewrite omap_app. simpl. rewrite Ht. simpl. by rewrite app_nil_r.
  - intros e en He Hx. destruct (H10 e en He Hx) as [r Hr]. exists r. apply elem_of_app. auto.
Qed.

(** A run task goes away, or becomes the next one of its run, once its channel is
    decided and its engine is not executing. *)
Definition settled (g : Agent) (t : AgentTask) : Prop :=
  match t with
  | TWaitStart _ ch _ => starts g !! ch <> Some Open
  | TRunning e _ => forall en, engines g !! e = Some en -> ~ executing en
  | _ => True
  end.

Lemma settled_slot (ts : list AgentTask) (rec : list CtrlMsg) (now : Z) (g : Agent) (t : AgentTask) :
  settled g t -> ok (t :: ts) rec now g ->
  (forall run, current g = Some (Armed run) -> (exists en, engines g !! ar_handle run = Some en)
    /\ forall ch, ar_start_tx run = Some ch ->
         TWaitStart (ar_handle run) ch (ar_run_id run) ∈ ts /\ starts g !! ch = Some Open)
  /\ (forall e en, engines g !! e = Some en -> executing en -> exists r, TRunning e r ∈ ts).
Proof.
  intros Hs Hok. split.
  - intros run Hc. destruct (ok_slot _ _ _ _ Hok run Hc) as [He Hch]. split; [done|]. intros ch Htx.
    destruct (Hch ch Htx) as [[<-|Hin]%elem_of_cons Ho]; [|done]. by destruct Hs.
  - intros e en He Hx. destruct (ok_exec _ _ _ _ Hok e en He Hx) as [r [<-|Hin]%elem_of_cons]; [|by eauto].
    by destruct (Hs en He).
Qed.

Lemma ok_drop (ts : list AgentTask) (rec : list CtrlMsg) (now : Z) (g : Agent) (t : AgentTask) :
  settled g t -> ok (t :: ts) rec now g -> ok ts rec now g.
Proof.
  intros Hs Hok. destruct (settled_slot ts rec now g t Hs Hok) as [Hslot Hexec].
  destruct Hok as [H1 H2 H3 H4 H5 H6 H7 H8 H9 H10 H11 H12]. constructor; auto.
  - intros t' e r Hin. apply H1. by right.
  - intros t' Hin. apply H2. by right.
  - intros e ch r e' r' Ha Hb. by eapply H6; right.
  - unfold run_engines in *. simpl in H7. destruct (fst <$> run_task t); [by apply NoDup_cons in H7 as []|done].
Qed.

Lemma ok_swap (ts : list AgentTask) (rec : list CtrlMsg) (now : Z) (g : Agent) (t t' : AgentTask) (e : nat) (r : string) :
  run_task t = Some (e, r) -> run_task t' = Some (e, r) ->
  (forall e ch r, t' <> TWaitStart e ch r) -> settled g t ->
  (forall en, engines g !! e = Some en -> stage_ok t en -> stage_ok t' en) -> claim_ok g rec now t' ->
  ok (t :: ts) rec now g -> ok (t' :: ts) rec now g.
Proof.
  intros Ht Ht' Hnw Hs Hst Hcl Hok. destruct (settled_slot ts rec now g t Hs Hok) as [Hslot Hexec].
  destruct Hok as [H1 H2 H3 H4 H5 H6 H7 H8 H9 H10 H11 H12]. constructor; auto.
  - intros t1 e1 r1 [->|Hin]%elem_of_cons Hr; [|by eapply H1; [by right|]].
    rewrite Ht' in Hr. injection Hr as <- <-.
    destruct (H1 t e r (list_elem_of_here _ _) Ht) as (en & He & Hid & Hstage). eauto 10.
  - intros t1 [->|Hin]%elem_of_cons; [done|]. apply H2. by right.
  - intros run Hc. destruct (Hslot run Hc) as [He Hch]. split; [done|]. intros ch Htx.
    destruct (Hch ch Htx). split; [by right|done].
  - intros e1 ch r1 e2 r2 [<-|Ha]%elem_of_cons; [by destruct (Hnw e1 ch r1)|].
    intros [<-|Hb]%elem_of_cons; [by destruct (Hnw e2 ch r2)|]. by eapply H6; right.
  - unfold run_engines in *. simpl in *. by rewrite Ht' ; rewrite Ht in H7.
  - intros e1 en He Hx. destruct (Hexec e1 en He Hx) as [r1 Hin]. exists r1. by right.
Qed.

(** The slot is emptied, or taken by a preparation. *)
Lemma ok_replace (ts : list AgentTask) (rec : list CtrlMsg) (now : Z) (g : Agent) (v : option RunPhase) :
  match v with
  | Some (Armed _) => False
  | Some (Preparing id c p) => (c < next_id g)%nat /\ match p with Some ms => CStart id ms ∈ rec | None => True end
  | None => True
  end ->
  ok ts rec now g -> ok ts rec now (replace_current v g).
Proof.
  intros Hv Hok. assert (forall id c ms, v = Some (Preparing id c (Some ms)) -> CStart id ms ∈ rec) as Hv1
    by (intros id c ms ->; by destruct Hv).
  assert (forall id c p, v = Some (Preparing id c p) -> (c < next_id g)%nat) as Hv3
    by (intros id c p ->; by destruct Hv).
  assert (forall run, v <> Some (Armed run)) as Hv2 by (by intros run ->). clear Hv.
  unfold replace_current, drop_phase, drop_run.
  destruct (current g) as [[id c p|run]|] eqn:Hc; [| |].
  2: destruct (ar_start_tx run) as [ch|] eqn:Htx.
  2: { destruct (ok_slot _ _ _ _ Hok run Hc) as [_ Hch]. destruct (Hch ch Htx) as [Hin Ho].
    destruct Hok as [H1 H2 H3 H4 H5 H6 H7 H8 H9 H10 H11 H12]. constructor; simpl; auto.
    - intros t Ht. specialize (H2 t Ht). destruct t as [| | |e ch' r| | | |]; simpl in *; auto.
      rewrite lookup_insert. destruct (decide (ch = ch')); [|done]. by exists Dropped.
    - intros r' Hr'. by destruct (Hv2 r').
    - intros ch'. rewrite lookup_insert. destruct (decide (ch = ch')) as [<-|]; [|by apply H9].
      intros _. apply H9. by rewrite Ho. }
  all: destruct Hok as [H1 H2 H3 H4 H5 H6 H7 H8 H9 H10 H11 H12]; constructor; simpl; auto;
    intros r' Hr'; by destruct (Hv2 r').
Qed.

(** The engines change without starting, stopping or changing their run. *)
Lemma ok_engines (ts : list AgentTask) (rec : list CtrlMsg) (now : Z) (g g' : Agent) :
  current g' = current g -> starts g' = starts g -> next_id g' = next_id g ->
  (forall e, match engines g !! e, engines g' !! e with
             | Some en, Some en' => engine_change en en'
             | None, None => True
             | _, _ => False
             end) ->
  ok ts rec now g -> ok ts rec now g'.
Proof.
  intros E1 E2 E4 Hen [H1 H2 H3 H4 H5 H6 H7 H8 H9 H10 H11 H12].
  constructor; unfold claim_ok in *; rewrite ?E1, ?E2, ?E4; auto.
  - intros t e r Hin Ht. destruct (H1 t e r Hin Ht) as (en & He & Hid & Hst). specialize (Hen e). rewrite He in Hen.
    destruct (engines g' !! e) as [en'|]; [|done]. apply change_facts in Hen as (Hid' & _ & Hpc). exists en'.
    split_and!; [done|congruence|]. destruct t; simpl in *; try done; destruct Hpc as [->|(Hn & Hn' & Hr)]; try done.
    destruct Hst as [x Hx]. exists x. by rewrite (Hr x Hx).
  - intros e en' He' Hn. specialize (Hen e). rewrite He' in Hen. destruct (engines g !! e) as [en|] eqn:He; [|done].
    apply change_facts in Hen as (Hid' & _ & Hpc). rewrite Hid'. apply (H3 e en He). destruct Hpc as [Hp|(? & _)]; congruence.
  - intros run Hc. destruct (H5 run Hc) as [[en He] Hch]. split; [|done]. specialize (Hen (ar_handle run)).
    rewrite He in Hen. destruct (engines g' !! ar_handle run); [by eauto|done].
  - intros e [en' He']. apply H8. specialize (Hen e). rewrite He' in Hen. by destruct (engines g !! e).
  - intros e en' He' Hx. specialize (Hen e). rewrite He' in Hen. destruct (engines g !! e) as [en|] eqn:He; [|done].
    apply change_facts in Hen as (_ & _ & Hpc). apply (H10 e en He). unfold executing in *.
    destruct Hpc as [<-|(Hn & Hn' & Hr)]; [done|]. destruct (en_pc en) eqn:Hp; try done.
    by rewrite (Hr _ eq_refl) in Hx.
  - intros e en' He'. specialize (Hen e). rewrite He' in Hen. destruct (engines g !! e) as [en|] eqn:He; [|done].
    apply change_facts in Hen as (_ & Hg & _). by eapply Hg, H12.
Qed.

Lemma ok_on_handle (ts : list AgentTask) (rec : list CtrlMsg) (now : Z) (g : Agent) (id : nat) (f : RunHandle -> RunHandle) :
  (forall e, engines g !! id = Some e ->
     f (en_handle e) = en_handle e \/ exists reason, handle_op (en_handle e) (f (en_handle e)) reason) ->
  ok ts rec now g -> ok ts rec now (on_handle id f g).
Proof.
  intros Hf. apply ok_engines; [done..|]. intros e. simpl. destruct (decide (id = e)) as [->|Hne].
  - rewrite lookup_alter_eq. destruct (engines g !! e) as [en|] eqn:He; simpl; [|done].
    destruct (Hf en eq_refl) as [Hs|[reason Hop]].
    + left. destruct en. unfold with_handle. simpl in *. by rewrite Hs.
    + right. exists reason. split; [|done].
      by apply (es_handle en (f (en_handle en)) reason).
  - rewrite lookup_alter_ne by done. destruct (engines g !! e); [by left|done].
Qed.

Lemma drive_op (c : Control) (h : RunHandle) : (drive c h).1 = h \/ exists reason, handle_op h (drive c h).1 reason.
Proof.
  unfold drive. repeat case_bool_decide; cbn [fst]; try (by left); right; eexists; constructor.
Qed.

(** A [Start]: latched by a preparation, or sent to the task that waits for it. *)
Lemma ok_handle_start (ts : list AgentTask) (rec : list CtrlMsg) (now : Z) (g : Agent) (r : string) (ms : Z) :
  CStart r ms ∈ rec -> ok ts rec now g -> ok ts rec now (handle_start r ms g).
Proof.
  intros Hin Hok. unfold handle_start. destruct (current g) as [[id c p|run]|] eqn:Hc; [| |done].
  - destruct (decide (id = r)) as [->|]; [|done]. destruct Hok as [H1 H2 H3 H4 H5 H6 H7 H8 H9 H10 H11 H12].
    constructor; simpl; auto; [by intros id' c' ms' [= <- <- <-]|done|].
    intros id' c' p' [= <- <- <-]. by eapply H11.
  - destruct (decide (ar_run_id run = r)) as [<-|]; [|done].
    destruct (ar_start_tx run) as [ch|] eqn:Htx; [|done].
    destruct (ok_slot _ _ _ _ Hok run Hc) as [He Hch]. destruct (Hch ch Htx) as [Hw Ho].
    destruct Hok as [H1 H2 H3 H4 H5 H6 H7 H8 H9 H10 H11 H12]. constructor; simpl; auto; [| |by intros ? [= <-]| |done].
    + intros t Ht. specialize (H2 t Ht). destruct t as [| | |e ch' r'| | | |]; simpl in *; auto.
      rewrite lookup_insert. destruct (decide (ch = ch')) as [<-|]; [|done].
      exists (Sent ms). split; [done|]. intros ms' [= <-]. by destruct (H6 _ _ _ _ _ Ht Hw) as [_ ->].
    + done.
    + intros ch'. rewrite lookup_insert. destruct (decide (ch = ch')) as [<-|]; [|by apply H9].
      intros _. apply H9. by rewrite Ho.
Qed.

(** The guarded transition of a successful preparation. *)
Lemma ok_arm (ts : list AgentTask) (rec : list CtrlMsg) (now : Z) (g : Agent) (en : EngineRun) (id : string)
    (c : nat) (p : option Z) :
  current g = Some (Preparing id c p) -> en_pc en = EnNew -> rh_run_id (en_handle en) = id -> good en ->
  ok ts rec now g ->
  let ch := next_id g in
  let eid := S (next_id g) in
  ok (ts ++ [TWaitStart eid ch id]) rec now
    (mkAgent (Some (Armed (mkActiveRun id eid (match p with Some _ => None | None => Some ch end))))
       (cancels g) (<[ch := match p with Some ms => Sent ms | None => Open end]> (starts g))
       (<[eid := en]> (engines g)) (tasks g) (uplink g) (registered g) (S (S (next_id g)))).
Proof.
  intros Hc Hpc Hid Hgood [H1 H2 H3 H4 H5 H6 H7 H8 H9 H10 H11 H12] ch eid.
  assert (forall e x, engines g !! e = Some x -> e <> eid) as Hne.
  { intros e x He ->. assert (eid < next_id g)%nat by (apply H8; by rewrite He). lia. }
  assert (forall e ch' r, TWaitStart e ch' r ∈ ts -> ch' <> ch) as Hnc.
  { intros e ch' r Hw ->. destruct (H2 _ Hw) as (o & Ho & _). assert (ch < next_id g)%nat by (apply H9; by rewrite Ho). lia. }
  assert (forall e, e ∈ run_engines ts -> e <> eid) as Hnt.
  { intros e (t & Ht & He)%list_elem_of_omap. destruct (run_task t) as [[e' r]|] eqn:Hr; [|done]. simplify_eq/=.
    destruct (H1 t e r Ht Hr) as (x & Hx & _). by apply (Hne e x). }
  constructor; cbn [current starts engines next_id].
  - intros t e r [Hin| ->%list_elem_of_singleton]%elem_of_app Hr.
    + destruct (H1 t e r Hin Hr) as (x & Hx & ? & ?). exists x. rewrite lookup_insert_ne; [done|].
      by apply not_eq_sym, (Hne e x).
    + simpl in Hr. injection Hr as <- <-. exists en. by rewrite lookup_insert_eq.
  - intros t [Hin| ->%list_elem_of_singleton]%elem_of_app.
    + specialize (H2 t Hin). destruct t; simpl in *; auto. rewrite lookup_insert_ne; [done|].
      by apply not_eq_sym, (Hnc engine start_rx run_id).
    + simpl. rewrite lookup_insert_eq. eexists. split; [done|]. intros ms Hms. destruct p; simplify_eq. by eapply H4.
  - intros e x. rewrite lookup_insert. destruct (decide (eid = e)); [by intros [= <-]|apply H3].
  - done.
  - intros run [= <-]. simpl. rewrite lookup_insert_eq. split; [by eauto|]. intros ch' Hch. destruct p; simplify_eq.
    split; [apply elem_of_app; right; by left|by rewrite lookup_insert_eq].
  - intros e ch1 r e' r' [Ha|Ha%list_elem_of_singleton]%elem_of_app [Hb|Hb%list_elem_of_singleton]%elem_of_app.
    + by eapply H6.
    + simplify_eq. by destruct (Hnc _ _ _ Ha).
    + simplify_eq. by destruct (Hnc _ _ _ Hb).
    + by simplify_eq.
  - unfold run_engines. rewrite omap_app. apply NoDup_app. split_and!; [done| |by apply NoDup_singleton].
    intros e He Hin. simpl in Hin. apply list_elem_of_singleton in Hin. by apply (Hnt e He).
  - intros e. rewrite lookup_insert. destruct (decide (eid = e)); [intros _; lia|]. intros Hx%H8. lia.
  - intros ch'. rewrite lookup_insert. destruct (decide (ch = ch')); [intros _; lia|]. intros Hx%H9. lia.
  - intros e x. rewrite lookup_insert. destruct (decide (eid = e)); [intros [= <-] Hx; unfold executing in Hx; by rewrite Hpc in Hx|].
    intros He Hx. destruct (H10 e x He Hx) as [r Hr]. exists r. apply elem_of_app. by left.
  - done.
  - intros e x. rewrite lookup_insert. destruct (decide (eid = e)); [by intros [= <-]|apply H12].
Qed.

(** [engine.run()] is called. *)
Lemma ok_begin (ts : list AgentTask) (rec : list CtrlMsg) (now : Z) (g g' : Agent) (e : nat) (r : string) :
  current g' = current g -> starts g' = starts g -> next_id g' = next_id g ->
  engines g' = alter run_begin e (engines g) ->
  ok (TStarted e r :: ts) rec now g -> ok (TRunning e r :: ts) rec now g'.
Proof.
  intros E1 E2 E4 E3 Hok. assert (due rec now r) as Hdue by (apply (ok_claim _ _ _ _ Hok (TStarted e r)); by left).
  destruct (ok_task _ _ _ _ Hok (TStarted e r) e r (list_elem_of_here _ _) eq_refl) as (en & He & Hid & Hnew).
  assert (ok (TRunning e r :: ts) rec now (set_engine e (run_begin en) g)) as Hok'.
  { destruct (settled_slot ts rec now g (TStarted e r) I Hok) as [Hslot Hexec].
    destruct Hok as [H1 H2 H3 H4 H5 H6 H7 H8 H9 H10 H11 H12]. constructor; simpl; auto.
    - intros t1 e1 r1 [->|Hin]%elem_of_cons Hr.
      + simpl in Hr. injection Hr as <- <-. exists (run_begin en). by rewrite lookup_insert_eq.
      + destruct (H1 t1 e1 r1) as (x & Hx & Hidx & Hst); [by right|done|]. exists x.
        rewrite lookup_insert_ne; [done|]. intros ->. unfold run_engines in H7. simpl in H7.
        apply NoDup_cons in H7 as [Hni _]. apply Hni. apply list_elem_of_omap. exists t1. by rewrite Hr.
    - intros t1 [->|Hin]%elem_of_cons; [done|]. apply H2. by right.
    - intros e1 x. rewrite lookup_insert. destruct (decide (e = e1)) as [<-|]; [|by apply H3].
      intros [= <-] _. simpl. by rewrite Hid.
    - intros run Hc. destruct (Hslot run Hc) as [[x Hx] Hch]. split.
      + rewrite lookup_insert. destruct (decide _); by eauto.
      + intros ch Htx. destruct (Hch ch Htx). split; [by right|done].
    - intros e1 ch r1 e2 r2 [?|Ha]%elem_of_cons [?|Hb]%elem_of_cons; try done. by eapply H6; right.
    - intros e1. rewrite lookup_insert. destruct (decide (e = e1)) as [<-|]; [|by apply H8].
      intros _. apply H8. by rewrite He.
    - intros e1 x. rewrite lookup_insert. destruct (decide (e = e1)) as [<-|]; [exists r; by left|].
      intros Hx Hxx. destruct (Hexec e1 x Hx Hxx) as [r1 Hin]. exists r1. by right.
    - intros e1 x. rewrite lookup_insert. destruct (decide (e = e1)) as [<-|]; [intros [= <-]|apply H12].
      destruct (H12 e en He) as [[rs Hen] _]. split; [|done]. exists (rs ++ option_list None).
      eapply engine_step_ok; [|exact Hen]. by apply es_begin. }
  eapply (ok_ext _ _ _ (set_engine e (run_begin en) g)); [done|done| |simpl; lia|exact Hok'].
  simpl. rewrite E3. apply map_eq. intros e1. rewrite lookup_insert. destruct (decide (e = e1)) as [<-|].
  - by rewrite lookup_alter_eq, He.
  - by rewrite lookup_alter_ne.
Qed.

Lemma ok_control (rec : list CtrlMsg) (now : Z) (g : Agent) (c : Control) :
  ok (tasks g) rec now g ->
  tasks (handle_control c g) = tasks g /\ ok (tasks g) rec now (handle_control c g).
Proof.
  intros Hok. unfold handle_control, action_of, enqueue_control_ack, try_enqueue_msg.
  destruct (current g) as [[id cancel p|run]|] eqn:Hc.
  - destruct (decide _); [|by split; [|eapply ok_ext; [..|exact Hok]; simpl; done || lia]].
    destruct (is_stopish _); [|by split; [|eapply ok_ext; [..|exact Hok]; simpl; done || lia]].
    split; [done|]. eapply ok_ext; [..|exact (ok_replace _ _ _ _ None I Hok)]; unfold replace_current; rewrite Hc; simpl; done || lia.
  - destruct (decide _); [|by split; [|eapply ok_ext; [..|exact Hok]; simpl; done || lia]]. destruct (is_stopish _ && _).
    + split; [unfold drop_run; by destruct (ar_start_tx run)|].
      eapply (ok_ext _ _ _ (on_handle (ar_handle run) (kill "controller requested stop before start") (replace_current None g)));
        try (unfold replace_current, drop_phase, drop_run; rewrite Hc; destruct (ar_start_tx run); simpl; done || lia).
      apply ok_on_handle; [intros en _; right; eexists; by constructor|]. by apply ok_replace.
    + unfold handle_of. destruct (engines g !! ar_handle run) as [en|] eqn:He; simpl; [|done].
      pose proof (drive_op c (en_handle en)) as Hid. destruct (drive c (en_handle en)) as [h r]. simpl in Hid.
      destruct r as [u|detail]; (split; [done|]);
        (eapply ok_ext; [..|apply (ok_on_handle _ _ _ g (ar_handle run) (fun _ => h)); [|exact Hok]]; simpl; try done; try lia;
         intros en'; rewrite He; by intros [= <-]).
  - by split; [|eapply ok_ext; [..|exact Hok]; simpl; done || lia].
Qed.

Lemma ok_assignment (rec : list CtrlMsg) (now : Z) (g : Agent) (a : Assignment) :
  ok (tasks g) rec now g -> ok (tasks (arm_assignment a g).1) rec now (arm_assignment a g).1.
Proof.
  intros Hok. unfold arm_assignment. destruct (_ || _); [done|]. destruct (validate_run_id _); [|done].
  assert (ok (tasks (accept_assignment a g)) rec now (accept_assignment a g)) as Hacc.
  { unfold accept_assignment. cbn [fresh]. set (g1 := set_cancel _ _ _). set (v := Some (Preparing _ _ _)).
    assert (tasks (spawn (TPrepare a (next_id g)) (replace_current v g1)) = tasks g ++ [TPrepare a (next_id g)]) as ->.
    { unfold replace_current, drop_phase, drop_run, spawn. by repeat case_match. }
    apply ok_spawn; [done|].
    eapply ok_ext; [..|apply (ok_replace (tasks g) rec now g1 v); [simpl; split; [lia|done]|]]; simpl; try done; try lia.
    eapply ok_ext; [..|exact Hok]; simpl; done || lia. }
  destruct (current g) as [phase|]; [|exact Hacc]. destruct (decide _); [done|].
  destruct phase; [done|]. by destruct (from_option _ _ _).
Qed.

Lemma ok_message (rec : list CtrlMsg) (now : Z) (g : Agent) (m : CtrlMsg) :
  ok (tasks g) rec now g ->
  ok (tasks (handle_controller_message (Some m) g)) (rec ++ [m]) now (handle_controller_message (Some m) g).
Proof.
  intros Hok. assert (ok (tasks g) (rec ++ [m]) now g) as Hok'.
  { eapply ok_mono; [..|exact Hok]; [set_solver|lia]. }
  destruct m as [ctl v msg|a|r ms|c|q]; simpl.
  - eapply ok_ext; [..|exact Hok']; simpl; done || lia.
  - pose proof (ok_assignment _ now g a Hok') as Ha.
    destruct (arm_assignment a g) as [g' [u|detail]]; [done|]. eapply ok_ext; [..|exact Ha]; simpl; done || lia.
  - assert (tasks (handle_start r ms g) = tasks g) as ->.
    { unfold handle_start. by repeat case_match. }
    apply ok_handle_start; [set_solver|done].
  - destruct (ok_control _ now g c Hok') as [-> Hc]. done.
  - eapply ok_ext; [..|exact Hok']; simpl; done || lia.
Qed.

Lemma ok_shutdown (rec : list CtrlMsg) (now : Z) (g : Agent) :
  ok (tasks g) rec now g -> tasks (shutdown g) = tasks g /\ ok (tasks g) rec now (shutdown g).
Proof.
  intros Hok. unfold shutdown. destruct (current g) as [[id cancel p|run]|] eqn:Hc.
  - split; [done|]. eapply ok_ext; [..|exact (ok_replace _ _ _ _ None I Hok)]; unfold replace_current; rewrite Hc; simpl; done || lia.
  - split; [unfold drop_run; by destruct (ar_start_tx run)|].
    eapply (ok_ext _ _ _ (on_handle (ar_handle run) (kill "agent shutting down") (replace_current None g)));
      try (unfold replace_current, drop_phase, drop_run; rewrite Hc; destruct (ar_start_tx run); simpl; done || lia).
    apply ok_on_handle; [intros en _; right; eexists; by constructor|]. by apply ok_replace.
  - by split; [|eapply ok_ext; [..|exact Hok]; simpl; done || lia].
Qed.

Lemma replace_tasks (v : option RunPhase) (g : Agent) : tasks (replace_current v g) = tasks g.
Proof. unfold replace_current, drop_phase, drop_run. by repeat case_match. Qed.

Lemma clear_tasks (r : string) (g : Agent) : tasks (clear r g) = tasks g.
Proof. unfold clear. destruct (is_armed _ _); [apply replace_tasks|done]. Qed.

Lemma ok_clear (ts : list AgentTask) (rec : list CtrlMsg) (now : Z) (g : Agent) (r : string) :
  ok ts rec now g -> ok ts rec now (clear r g).
Proof. intros Hok. unfold clear. destruct (is_armed _ _); [|done]. by apply ok_replace. Qed.

Lemma report_cases (m : UplinkMessage) (parked next : option AgentTask) (g : Agent) :
  exists w, (report m parked next g).1 = set_uplink w g
    /\ ((report m parked next g).2 = parked \/ (report m parked next g).2 = next).
Proof. unfold report. destruct (win_enqueue (uplink g) m) as [w [b|]]; eauto. Qed.

Lemma ok_back (ts : list AgentTask) (rec : list CtrlMsg) (now : Z) (g : Agent) (t : AgentTask) :
  ok (t :: ts) rec now g -> ok (ts ++ [t]) rec now g.
Proof. apply ok_perm. apply Permutation_cons_append. Qed.

Lemma ok_uplink (ts : list AgentTask) (rec : list CtrlMsg) (now : Z) (g : Agent) (w : W) :
  ok ts rec now g -> ok ts rec now (set_uplink w g).
Proof. intros Hok. eapply ok_ext; [..|exact Hok]; simpl; done || lia. Qed.

(** A report that parks leaves its task, one that goes through ends it. *)
Lemma ok_report (rec : list CtrlMsg) (now : Z) (g : Agent) (t : AgentTask) (m : UplinkMessage) :
  settled g t -> ok (t :: tasks g) rec now g ->
  let '(g', o) := report m (Some t) None g in ok (tasks g' ++ option_list o) rec now g'.
Proof.
  intros Hs Hok. destruct (report_cases m (Some t) None g) as (w & Hg & Ho).
  destruct (report m (Some t) None g) as [g' o]. simpl in *. subst g'. simpl.
  destruct Ho as [-> | ->]; simpl; apply ok_uplink; [by apply ok_back|]. rewrite app_nil_r. by eapply ok_drop.
Qed.

Lemma ok_prepare (rec : list CtrlMsg) (now : Z) (g : Agent) (a : Assignment) (cancel : nat) (built : result string EngineRun) :
  match built with Ok e => built_for a e | Err _ => True end ->
  ok (tasks g) rec now g ->
  let '(g', o) := prepare_assignment a cancel built g in ok (tasks g' ++ option_list o) rec now g'.
Proof.
  intros Hb Hok. unfold prepare_assignment. destruct built as [en|detail].
  - destruct (current g) as [[id c p|run]|] eqn:Hc; [|by rewrite app_nil_r|by rewrite app_nil_r].
    destruct (negb _) eqn:Hid; [by rewrite app_nil_r|]. apply negb_false_iff, bool_decide_eq_true in Hid.
    destruct (cancelled cancel g).
    + cbn -[replace_current]. rewrite app_nil_r, replace_tasks. by apply ok_replace.
    + destruct Hb as (total & ext & Hen).
      pose proof (ok_arm (tasks g) rec now g en id c p Hc) as Ha. rewrite Hen in Ha at 1 2. simpl in Ha.
      assert (good en) as Hgood by (rewrite Hen; split; [eexists; apply engine_new_ok|done]).
      specialize (Ha eq_refl (eq_sym Hid) Hgood Hok). subst id.
      destruct p as [ms|]; unfold replace_current; cbn; rewrite Hc; cbn; (apply ok_spawn; [done|]);
        (eapply ok_ext; [..|exact Ha]; cbn; done || lia).
  - set (g1 := if is_preparing _ _ then _ else _).
    assert (tasks g1 = tasks g /\ ok (tasks g) rec now g1) as [Ht Hg1].
    { subst g1. destruct (is_preparing _ _); [|done]. split; [apply replace_tasks|by apply ok_replace]. }
    rewrite Ht. destruct (cancelled cancel g1); simpl; [by rewrite app_nil_r|]. by apply ok_spawn.
Qed.

Lemma ok_poll (rec : list CtrlMsg) (now : Z) (g : Agent) (t : AgentTask) (built : result string EngineRun) (summary : string) :
  built_ok t built -> ok (t :: tasks g) rec now g ->
  let '(g', o) := task_poll now built summary t g in ok (tasks g' ++ option_list o) rec now g'.
Proof.
  intros Hb Hok. destruct t as [a c|r idx|r detail|e ch r|e r ms|e r|e r|e r kind detail sm].
  - apply ok_prepare; [exact Hb|]. by apply (ok_drop _ _ _ _ (TPrepare a c) I).
  - by apply ok_report.
  - by apply ok_report.
  - cbn [task_poll]. destruct (starts g !! ch) as [[|ms|]|] eqn:Hch; try by apply ok_back.
    + apply ok_back. eapply (ok_swap _ _ _ _ (TWaitStart e ch r)); try done; simpl; [congruence|].
      destruct (ok_claim _ _ _ _ Hok (TWaitStart e ch r) (list_elem_of_here _ _)) as (o & Ho & Hs).
      rewrite Hch in Ho. injection Ho as <-. by apply Hs.
    + simpl. rewrite app_nil_r, clear_tasks. apply ok_clear. eapply (ok_drop _ _ _ _ (TWaitStart e ch r)); [|done].
      simpl. congruence.
  - cbn [task_poll]. destruct (Z.leb_spec ms now); [|by apply ok_back].
    apply ok_back. eapply (ok_swap _ _ _ _ (TSleep e r ms)); try done. exists ms. split; [|done].
    by apply (ok_claim _ _ _ _ Hok (TSleep e r ms) (list_elem_of_here _ _)).
  - cbn [task_poll]. destruct (report_cases (run_event r "started" "" "") (Some (TStarted e r)) (Some (TRunning e r)) g)
      as (w & Hg & Ho).
    destruct (report _ _ _ g) as [g' o]. simpl in Hg, Ho. subst g'. destruct Ho as [-> | ->].
    + apply ok_uplink, ok_back, Hok.
    + apply ok_back. eapply ok_begin; [..|exact Hok]; done.
  - cbn [task_poll]. destruct (en_pc <$> engines g !! e) as [[]|] eqn:Hpc; try by apply ok_back.
    destruct (outcome r0) as [kind detail]. apply ok_back.
    assert (forall en, engines g !! e = Some en -> en_pc en = EnReturned r0) as Hret.
    { intros en He. rewrite He in Hpc. by injection Hpc. }
    eapply (ok_swap _ _ _ _ (TRunning e r)); try done; simpl.
    + intros en He. unfold executing. rewrite (Hret en He). by intros [].
    + intros en He _. eauto.
  - cbn [task_poll]. pose proof (ok_report rec now g (TReport e r kind detail sm) (run_event r kind detail sm) I Hok) as Hr.
    destruct (report _ _ _ g) as [g' [t'|]]; [done|]. cbn [option_list] in *.
    rewrite app_nil_r in *. rewrite clear_tasks. by apply ok_clear.
Qed.
End Invariant.

(** ** What a step can change *)

Section Effects.
Context {W : Type} `{!AgentWindow W}.
Notation Agent := (AgentState W).

(** Dropped channels stay dropped, set flags stay set, engines stay and are begun by
    their own task only. *)
Record grows (g g' : Agent) (begun : option nat) : Prop := {
  gr_starts ch : starts g !! ch = Some Dropped -> starts g' !! ch = Some Dropped;
  gr_flags c : (c < next_id g)%nat -> cancels g !! c = Some true -> cancels g' !! c = Some true;
  gr_next : (next_id g <= next_id g')%nat;
  gr_engines e en : (e < next_id g)%nat -> engines g !! e = Some en ->
    exists en', engines g' !! e = Some en' /\ (begun = Some e \/ en_pc en' = en_pc en);
}.

Lemma grows_refl (g : Agent) (b : option nat) : grows g g b.
Proof. constructor; eauto. Qed.

Lemma grows_trans (g1 g2 g3 : Agent) (b : option nat) : grows g1 g2 b -> grows g2 g3 b -> grows g1 g3 b.
Proof.
  intros [A1 B1 C1 D1] [A2 B2 C2 D2]. constructor; [by auto| |lia|].
  - intros c Hc Hf. apply B2; [lia|]. by apply B1.
  - intros e en He Hen. destruct (D1 e en He Hen) as (en1 & H1 & P1).
    destruct (D2 e en1) as (en2 & H2 & P2); [lia|done|]. exists en2. split; [done|].
    destruct P1 as [->|P1]; [by left|]. destruct P2 as [->|P2]; [by left|]. right. congruence.
Qed.

(** Same channels, flags, engines and counter. *)
Lemma grows_same (g g' : Agent) (b : option nat) :
  starts g' = starts g -> cancels g' = cancels g -> engines g' = engines g -> next_id g' = next_id g -> grows g g' b.
Proof. intros E1 E2 E3 E4. constructor; rewrite ?E1, ?E2, ?E3, ?E4; eauto. Qed.

Lemma grows_replace (g : Agent) (v : option RunPhase) (b : option nat) : grows g (replace_current v g) b.
Proof.
  unfold replace_current, drop_phase, drop_run. destruct (current g) as [[|run]|]; [by apply grows_same| |by apply grows_same].
  destruct (ar_start_tx run) as [ch|]; [|by apply grows_same]. constructor; simpl; eauto.
  intros ch' Hch. rewrite lookup_insert. by destruct (decide _).
Qed.

Lemma grows_on_handle (g : Agent) (id : nat) (f : RunHandle -> RunHandle) (b : option nat) : grows g (on_handle id f g) b.
Proof.
  constructor; simpl; eauto. intros e en _ He. destruct (decide (id = e)) as [->|].
  - rewrite lookup_alter_eq, He. eexists. split; [done|by right].
  - rewrite lookup_alter_ne by done. eauto.
Qed.

Lemma grows_set_cancel (g : Agent) (c : nat) (b : option nat) : grows g (set_cancel c true g) b.
Proof.
  constructor; simpl; eauto. intros c' _ Hf. rewrite lookup_insert. by destruct (decide _).
Qed.

Lemma grows_uplink (g : Agent) (w : W) (b : option nat) : grows g (set_uplink w g) b.
Proof. by apply grows_same. Qed.

Lemma grows_clear (g : Agent) (r : string) (b : option nat) : grows g (clear r g) b.
Proof. unfold clear. destruct (is_armed _ _); [apply grows_replace|apply grows_refl]. Qed.

Lemma grows_drop_run (g : Agent) (run : ActiveRun) (b : option nat) : grows g (drop_run run g) b.
Proof.
  unfold drop_run. destruct (ar_start_tx run) as [ch|]; [|apply grows_refl]. constructor; simpl; eauto.
  intros ch' Hch. rewrite lookup_insert. by destruct (decide _).
Qed.

Lemma grows_shutdown (g : Agent) : grows g (shutdown g) None.
Proof.
  unfold shutdown. destruct (current g) as [[id c p|run]|].
  - eapply grows_trans; [|apply grows_uplink]. eapply grows_trans; [apply (grows_set_cancel _ c)|by apply grows_same].
  - eapply grows_trans; [|apply grows_uplink]. eapply grows_trans; [|apply grows_drop_run].
    eapply grows_trans; [|apply grows_on_handle]. by apply grows_same.
  - apply grows_uplink.
Qed.

(** An assignment leaves the agent as it is, or takes a slot that is free or holds a
    finished run. *)
Lemma arm_cases (a : Assignment) (g : Agent) :
  (exists r, arm_assignment a g = (g, r))
  \/ arm_assignment a g = (accept_assignment a g, Ok tt)
     /\ match current g with
        | None => True
        | Some (Preparing _ _ _) => False
        | Some (Armed run) => ar_run_id run <> as_run_id a
            /\ forall h, handle_of (ar_handle run) g = Some h -> is_finished (rh_status h) = true
        end.
Proof.
  unfold arm_assignment. destruct (_ || _); [by left; eauto|]. destruct (validate_run_id _); [|by left; eauto].
  destruct (current g) as [phase|]; [|by right]. destruct (decide _); [by left; eauto|].
  destruct phase as [|run]; [by left; eauto|].
  destruct (from_option _ _ _) eqn:Hf; [|by left; eauto]. right. split_and!; [done|done|].
  intros h Hh. by rewrite Hh in Hf.
Qed.

Lemma grows_message (g : Agent) (m : CtrlMsg) (rec : list CtrlMsg) (now : Z) :
  ok (tasks g) rec now g ->
  grows g (handle_controller_message (Some m) g) None
  /\ (forall t p, t ∈ tasks (handle_controller_message (Some m) g) -> run_task t = Some p -> t ∈ tasks g).
Proof.
  intros Hok. destruct m as [ctl v msg|a|r ms|c|q]; simpl; [split; [by apply grows_same|done]| | | |split; [by apply grows_same|done]].
  - assert (grows g (accept_assignment a g) None /\ forall t p, t ∈ tasks (accept_assignment a g) -> run_task t = Some p -> t ∈ tasks g) as Hacc.
    { unfold accept_assignment. cbn [fresh]. set (g1 := set_cancel _ _ _). split.
      - eapply grows_trans; [|by apply (grows_same (replace_current (Some (Preparing (as_run_id a) (next_id g) None)) g1))].
        eapply grows_trans; [|apply grows_replace]. constructor; simpl; eauto. intros c Hc Hf. rewrite lookup_insert_ne by lia. done.
      - intros t p. cbn [spawn set_tasks tasks]. rewrite replace_tasks. intros [?| ->%list_elem_of_singleton]%elem_of_app; done. }
    destruct (arm_cases a g) as [[[u|d] ->]|[-> _]]; [split; [apply grows_refl|done]| |exact Hacc].
    split; [apply grows_uplink|done].
  - unfold handle_start. destruct (current g) as [[id c p|run]|] eqn:Hc; [|destruct (decide _)|split; [apply grows_refl|done]].
    + destruct (decide _); (split; [by apply grows_same|done]).
    + destruct (ar_start_tx run) as [ch|] eqn:Htx; [|split; [apply grows_refl|done]]. split; [|done].
      destruct (ok_slot _ _ _ _ Hok run Hc) as [_ Hch]. destruct (Hch ch Htx) as [_ Ho].
      constructor; simpl; eauto. intros ch' Hd. rewrite lookup_insert_ne; [done|]. congruence.
    + split; [apply grows_refl|done].
  - destruct (ok_control rec now g c Hok) as [Ht _]. rewrite Ht. split; [|done].
    unfold handle_control, enqueue_control_ack, try_enqueue_msg. destruct (action_of c g) as [cn|run|id| |]; try apply grows_uplink.
    + eapply grows_trans; [|apply grows_uplink]. eapply grows_trans; [apply (grows_set_cancel _ cn)|by apply grows_same].
    + eapply grows_trans; [|apply grows_uplink]. eapply grows_trans; [|apply grows_drop_run].
      eapply grows_trans; [|apply grows_on_handle]. by apply grows_same.
    + destruct (handle_of id g) as [h|]; [|apply grows_refl]. destruct (drive c h) as [h' [u|d]];
        (eapply grows_trans; [apply (grows_on_handle _ id (fun _ => h'))|apply grows_uplink]).
Qed.

(** The engine a task begins when it is polled. *)
Definition begins (t : AgentTask) : option nat := match t with TStarted e _ => Some e | _ => None end.

Lemma grows_report (g : Agent) (m : UplinkMessage) (p n : option AgentTask) (b : option nat) :
  grows g (report m p n g).1 b /\ tasks (report m p n g).1 = tasks g
  /\ ((report m p n g).2 = p \/ (report m p n g).2 = n).
Proof. destruct (report_cases m p n g) as (w & -> & Ho). split_and!; [apply grows_uplink|done|done]. Qed.

Lemma grows_prepare (g : Agent) (a : Assignment) (c : nat) (built : result string EngineRun) (b : option nat) :
  (forall e, is_Some (engines g !! e) -> (e < next_id g)%nat) ->
  (forall ch, is_Some (starts g !! ch) -> (ch < next_id g)%nat) ->
  let '(g', o) := prepare_assignment a c built g in
  grows g g' b
  /\ (forall t p, t ∈ tasks g' ++ option_list o -> run_task t = Some p -> t ∈ tasks g \/ engines g !! p.1 = None)
  /\ (cancels g !! c = Some true -> engines g' = engines g).
Proof.
  intros Hfe Hfs. unfold prepare_assignment. destruct built as [en|detail].
  - assert (grows g g b /\ (forall t p, t ∈ tasks g ++ option_list None -> run_task t = Some p ->
             t ∈ tasks g \/ engines g !! p.1 = None) /\ (cancels g !! c = Some true -> engines g = engines g)) as Hsame.
    { split_and!; [apply grows_refl| |done]. intros t p. rewrite app_nil_r. auto. }
    destruct (current g) as [[id c' p|run]|] eqn:Hc; [|exact Hsame|exact Hsame].
    destruct (negb _); [exact Hsame|]. destruct (cancelled c g) eqn:Hcan.
    + split_and!; [apply grows_replace| |].
      * intros t x. rewrite replace_tasks, app_nil_r. auto.
      * intros _. unfold replace_current, drop_phase. by rewrite Hc.
    + assert (forall st tx, let g' := spawn (TWaitStart (S (next_id g)) (next_id g) (as_run_id a))
                (replace_current (Some (Armed (mkActiveRun (as_run_id a) (S (next_id g)) tx)))
                  (set_start (next_id g) st (set_engine (S (next_id g)) en (fresh (fresh g).1).1))) in
              grows g g' b /\ (forall t p, t ∈ tasks g' ++ option_list (Some (TReady (as_run_id a) (as_partition_index a))) ->
                run_task t = Some p -> t ∈ tasks g \/ engines g !! p.1 = None)) as Hnew.
      { intros st tx g'. assert (tasks g' = tasks g ++ [TWaitStart (S (next_id g)) (next_id g) (as_run_id a)]) as Hts.
        { subst g'. unfold spawn. cbn [set_tasks tasks]. by rewrite replace_tasks. }
        split.
        - subst g'. unfold replace_current. cbn. rewrite Hc. cbn. constructor; simpl; eauto.
          + intros ch Hch. rewrite lookup_insert_ne; [done|].
            assert (ch < next_id g)%nat by (apply Hfs; by rewrite Hch). lia.
          + intros e x He Hx. rewrite lookup_insert_ne by lia. eauto.
        - rewrite Hts. clear g' Hts. intros t p0 Hin Hrt.
          rewrite <- app_assoc in Hin. apply elem_of_app in Hin as [?|Hin]; [by left|]. right.
          apply elem_of_cons in Hin as [->| ->%list_elem_of_singleton]; [|done]. simpl in Hrt. injection Hrt as <-. simpl.
          destruct (engines g !! S (next_id g)) eqn:He; [|done].
          assert (S (next_id g) < next_id g)%nat by (apply Hfe; by rewrite He). lia. }
      assert (cancels g !! c <> Some true) as Hnc by (intros Hx; unfold cancelled in Hcan; by rewrite Hx in Hcan).
      destruct p as [ms|]; [destruct (Hnew (Sent ms) None) as [Hg Ht]|destruct (Hnew Open (Some (next_id g))) as [Hg Ht]];
        (split; [exact Hg|]; split; [exact Ht|intros Hx; by destruct Hnc]).
  - set (g1 := if is_preparing _ _ then _ else _).
    assert (grows g g1 b /\ tasks g1 = tasks g /\ engines g1 = engines g) as (Hg & Ht & He).
    { subst g1. destruct (is_preparing _ _); [|by split; [apply grows_refl|]].
      split_and!; [apply grows_replace|apply replace_tasks|].
      unfold replace_current, drop_phase, drop_run. by repeat case_match. }
    split_and!; [done| |done]. rewrite Ht. intros t p [?|Hin]%elem_of_app Hrt; [by left|].
    destruct (cancelled c g1); simpl in Hin; [by apply not_elem_of_nil in Hin|].
    apply list_elem_of_singleton in Hin as ->. done.
Qed.

Lemma grows_poll (rec : list CtrlMsg) (now : Z) (g : Agent) (t : AgentTask) (built : result string EngineRun) (summary : string) :
  ok (t :: tasks g) rec now g ->
  let '(g', o) := task_poll now built summary t g in
  grows g g' (begins t)
  /\ (forall t' p, t' ∈ tasks g' ++ option_list o -> run_task t' = Some p ->
       t' ∈ tasks g \/ (run_task t = Some p /\ o = Some t') \/ engines g !! p.1 = None).
Proof.
  intros Hok.
  assert (forall (g' : Agent) o, tasks g' = tasks g -> (o = None \/ exists t', o = Some t' /\ run_task t' = run_task t) ->
            forall t' p, t' ∈ tasks g' ++ option_list o -> run_task t' = Some p ->
            t' ∈ tasks g \/ (run_task t = Some p /\ o = Some t') \/ engines g !! p.1 = None) as Hkeep.
  { intros g' o -> Ho t' p [?|Hin]%elem_of_app Hrt; [by left|]. right. left.
    destruct Ho as [->|(t1 & -> & Ht1)]; [by apply not_elem_of_nil in Hin|]. apply list_elem_of_singleton in Hin as ->.
    by rewrite <- Ht1. }
  destruct t as [a c|r idx|r detail|e ch r|e r ms|e r|e r|e r kind detail sm]; cbn [task_poll begins].
  - pose proof (grows_prepare g a c built None (ok_fresh_engine _ _ _ _ Hok) (ok_fresh_start _ _ _ _ Hok)) as Hp.
    destruct (prepare_assignment a c built g) as [g' o]. destruct Hp as (Hg & Ht & _). split; [done|].
    intros t' p Hin Hrt. destruct (Ht t' p Hin Hrt); auto.
  - destruct (grows_report g (assignment_ready r idx) (Some (TReady r idx)) None None) as (Hg & Ht & Ho).
    destruct (report _ _ _ g) as [g' o]. simpl in Ho. split; [done|]. apply Hkeep; [done|]. destruct Ho as [->| ->]; eauto.
  - destruct (grows_report g (run_event r "prep_failed" detail "") (Some (TPrepFailed r detail)) None None) as (Hg & Ht & Ho).
    destruct (report _ _ _ g) as [g' o]. simpl in Ho. split; [done|]. apply Hkeep; [done|]. destruct Ho as [->| ->]; eauto.
  - destruct (starts g !! ch) as [[|ms|]|]; (split; [apply grows_refl || apply grows_clear|]); apply Hkeep; eauto.
    apply clear_tasks.
  - split; [apply grows_refl|]. apply Hkeep; [done|]. destruct (Z.leb ms now); eauto.
  - destruct (grows_report g (run_event r "started" "" "") (Some (TStarted e r)) (Some (TRunning e r)) (Some e)) as (Hg & Ht & Ho).
    destruct (report _ _ _ g) as [g' o]. simpl in Hg, Ht, Ho. destruct Ho as [->| ->].
    + split; [done|]. apply Hkeep; eauto.
    + split; [|apply Hkeep; eauto]. eapply grows_trans; [exact Hg|]. constructor; simpl; eauto.
      intros e1 en _ He1. destruct (decide (e = e1)) as [->|].
      * rewrite lookup_alter_eq, He1. eexists. split; [done|by left].
      * rewrite lookup_alter_ne by done. eauto.
  - destruct (en_pc <$> engines g !! e) as [[]|]; try (split; [apply grows_refl|apply Hkeep; eauto]).
    destruct (outcome r0) as [kind detail]. split; [apply grows_refl|apply Hkeep; eauto].
  - destruct (grows_report g (run_event r kind detail sm) (Some (TReport e r kind detail sm)) None None) as (Hg & Ht & Ho).
    destruct (report _ _ _ g) as [g' o]. simpl in Hg, Ht, Ho. destruct Ho as [->| ->].
    + split; [done|]. apply Hkeep; eauto.
    + split; [eapply grows_trans; [exact Hg|apply grows_clear]|]. apply Hkeep; [by rewrite clear_tasks|by left].
Qed.
End Effects.

(** ** Reachable states *)

Section Reach.
Context {W : Type} `{!AgentWindow W}.
Context (assumption : AgentState W -> CtrlMsg -> Prop).
Notation Agent := (AgentState W).

Definition sys_ok (s : System (W := W)) : Prop := ok (tasks (agent s)) (received s) (clock s) (agent s).

Lemma taken_ok (s : System (W := W)) l1 t l2 :
  tasks (agent s) = l1 ++ t :: l2 -> sys_ok s ->
  ok (t :: tasks (set_tasks (l1 ++ l2) (agent s))) (received s) (clock s) (set_tasks (l1 ++ l2) (agent s)).
Proof.
  intros Ht Hok. simpl. eapply (ok_perm (l1 ++ t :: l2)); [by rewrite <- Permutation_middle|].
  unfold sys_ok in Hok. rewrite Ht in Hok. eapply ok_ext; [..|exact Hok]; simpl; done || lia.
Qed.

Lemma stepped_engine (s : System (W := W)) (id : nat) (e : EngineRun) (o : option string) (e' : EngineRun) :
  engines (agent s) !! id = Some e -> en_pc e <> EnNew -> engine_step e o e' -> sys_ok s ->
  ok (tasks (agent s)) (received s) (clock s) (set_engine id e' (agent s)).
Proof.
  intros He Hn Hs. apply ok_engines; [done..|]. intros e1. simpl. rewrite lookup_insert.
  destruct (decide (id = e1)) as [<-|]; [|destruct (engines (agent s) !! e1); [by left|done]].
  rewrite He. right. by exists o.
Qed.

Lemma step_sys_ok (s s' : System (W := W)) : step assumption s s' -> sys_ok s -> sys_ok s'.
Proof.
  destruct 1 as [s m Hst Ha|s l1 t l2 built summary g o Ht Hb Hp|s id e o e' He Hn Hs|s w|s now Hnow|s Hst];
    intros Hok; unfold sys_ok in *; cbn [agent received clock stopped].
  - by apply ok_message.
  - pose proof (ok_poll _ _ _ t built summary Hb (taken_ok s l1 t l2 Ht Hok)) as Hpoll. rewrite Hp in Hpoll.
    eapply ok_ext; [..|exact Hpoll]; simpl; done || lia.
  - by eapply stepped_engine.
  - by apply ok_uplink.
  - by eapply ok_mono; [..|exact Hok].
  - destruct (ok_shutdown _ _ _ Hok) as [-> Hs]. done.
Qed.

Lemma reach_sys_ok (s : System (W := W)) : reach assumption s -> sys_ok s.
Proof.
  induction 1 as [w now|s s' _ IH Hs]; [|by eapply step_sys_ok].
  constructor; cbn; intros; rewrite ?lookup_empty in *; try done; try (by constructor);
    try match goal with
        | H : _ ∈ [] |- _ => by apply not_elem_of_nil in H
        | H : is_Some None |- _ => by destruct H
        end.
Qed.

(** An engine that will never be begun: only a task with a dropped channel holds it. *)
Definition dead (e : nat) (g : Agent) : Prop :=
  (e < next_id g)%nat
  /\ (exists en, engines g !! e = Some en /\ en_pc en = EnNew)
  /\ forall t r, t ∈ tasks g -> run_task t = Some (e, r) -> exists ch, t = TWaitStart e ch r /\ starts g !! ch = Some Dropped.

Lemma dead_grows (e : nat) (g g' : Agent) (b : option nat) :
  grows g g' b -> b <> Some e ->
  (forall t p, t ∈ tasks g' -> run_task t = Some p -> p.1 = e -> t ∈ tasks g) ->
  dead e g -> dead e g'.
Proof.
  intros Hg Hb Ht (Hlt & (en & He & Hpc) & Hd). split_and!.
  - pose proof (gr_next _ _ _ Hg). lia.
  - destruct (gr_engines _ _ _ Hg e en Hlt He) as (en' & He' & [?|Hpc']); [done|]. exists en'. split; [done|congruence].
  - intros t r Hin Hrt. destruct (Hd t r (Ht t (e, r) Hin Hrt eq_refl) Hrt) as (ch & -> & Hch).
    exists ch. split; [done|]. by apply (gr_starts _ _ _ Hg).
Qed.

Lemma dead_step (e : nat) (s s' : System (W := W)) :
  sys_ok s -> step assumption s s' -> dead e (agent s) -> dead e (agent s').
Proof.
  intros Hok. destruct 1 as [s m Hst Ha|s l1 t l2 built summary g o Ht Hb Hp|s id en o en' He Hn Hs|s w|s now Hnow|s Hst];
    intros Hd; cbn [agent received clock stopped]; [| | |exact Hd|exact Hd|].
  - destruct (grows_message (agent s) m (received s) (clock s) Hok) as [Hg Hts].
    eapply dead_grows; [exact Hg|done| |exact Hd]. eauto.
  - pose proof (taken_ok s l1 t l2 Ht Hok) as Hok'.
    pose proof (grows_poll _ _ _ t built summary Hok') as Hpoll. rewrite Hp in Hpoll. destruct Hpoll as [Hg Hts].
    destruct Hd as (Hlt & (en & He & Hpc) & Hd).
    assert (forall r, run_task t = Some (e, r) -> exists ch, t = TWaitStart e ch r /\ starts (agent s) !! ch = Some Dropped) as Hdt.
    { intros r Hr. apply Hd; [|done]. rewrite Ht. apply elem_of_app. right. by left. }
    assert (dead e (set_tasks (l1 ++ l2) (agent s))) as Hd'.
    { split_and!; [done|by eauto|]. intros t' r Hin. apply Hd. rewrite Ht. apply elem_of_app in Hin as [?|?];
        apply elem_of_app; [by left|right; by right]. }
    assert (grows g (set_tasks (tasks g ++ option_list o) g) (begins t)) as Hg' by by apply grows_same.
    eapply dead_grows; [exact (grows_trans _ _ _ _ Hg Hg')| | |exact Hd'].
    + intros Hbe. destruct t as [| | | | |e1 r1| |]; try done. injection Hbe as ->. by destruct (Hdt r1 eq_refl) as (? & ? & _).
    + intros t' [e1 r] Hin Hrt Heq. simpl in Heq. subst e1. destruct (Hts t' (e, r) Hin Hrt) as [?|[[Hrt' Ho]|Hnone]].
      * done.
      * exfalso. destruct (Hdt r Hrt') as (ch & -> & Hch). cbn [task_poll] in Hp. simpl in Hp. rewrite Hch in Hp.
        by injection Hp as _ <-.
      * simpl in Hnone. by rewrite He in Hnone.
  - destruct Hd as (Hlt & (x & Hx & Hpc) & Hd). split_and!; [done| |exact Hd]. simpl. rewrite lookup_insert.
    destruct (decide (id = e)) as [->|]; [|by eauto]. rewrite He in Hx. by simplify_eq.
  - destruct (ok_shutdown _ _ _ Hok) as [Hts _]. eapply dead_grows; [apply grows_shutdown|done| |exact Hd].
    rewrite Hts. eauto.
Qed.

(** A flag that is set stays set. *)
Lemma flag_step (c : nat) (s s' : System (W := W)) :
  sys_ok s -> step assumption s s' ->
  (c < next_id (agent s))%nat /\ cancels (agent s) !! c = Some true ->
  (c < next_id (agent s'))%nat /\ cancels (agent s') !! c = Some true.
Proof.
  intros Hok Hs [Hlt Hf].
  assert (exists b, grows (agent s) (agent s') b) as [b Hg].
  { destruct Hs as [s m Hst Ha|s l1 t l2 built summary g o Ht Hb Hp|s id en o en' He Hn Hs|s w|s now Hnow|s Hst]; simpl.
    - exists None. by apply (grows_message (agent s) m (received s) (clock s)).
    - pose proof (grows_poll _ _ _ t built summary (taken_ok s l1 t l2 Ht Hok)) as Hpoll. rewrite Hp in Hpoll.
      exists (begins t). destruct Hpoll as [Hg _]. eapply grows_trans; [|by apply (grows_same g)].
      eapply grows_trans; [|exact Hg]. by apply grows_same.
    - exists (Some id). constructor; simpl; eauto. intros e1 x _ Hx. rewrite lookup_insert.
      destruct (decide (id = e1)) as [->|]; eauto.
    - exists None. apply grows_uplink.
    - exists None. apply grows_refl.
    - exists None. apply grows_shutdown. }
  split; [pose proof (gr_next _ _ _ Hg); lia|by apply (gr_flags _ _ _ Hg)].
Qed.
End Reach.

(** ** One run at a time

    The assumption on the controller: it does not assign a run again while a task of an
    earlier instance of that run is still winding down, unless the agent still holds
    the run. *)

Section Exclusive.
Context {W : Type} `{!AgentWindow W}.
Notation Agent := (AgentState W).

Definition any_controller (_ : Agent) (_ : CtrlMsg) : Prop := True.

Definition fresh_assignments (g : Agent) (m : CtrlMsg) : Prop :=
  match m with
  | CAssignment a =>
      (phase_run_id <$> current g = Some (as_run_id a))
      \/ forall t p, t ∈ tasks g -> run_task t = Some p -> p.2 <> as_run_id a
  | _ => True
  end.

(** A task whose engine runs, or still may. *)
Definition active (g : Agent) (t : AgentTask) (e : nat) : Prop :=
  match t with
  | TWaitStart e' ch _ => e' = e /\ starts g !! ch <> Some Dropped
  | TSleep e' _ _ | TStarted e' _ => e' = e
  | TRunning e' _ => e' = e /\ exists en, engines g !! e = Some en /\ executing en
  | _ => False
  end.

Record excl (ts : list AgentTask) (halted : bool) (g : Agent) : Prop := {
  ex_active t e : halted = false -> t ∈ ts -> active g t e ->
    exists run, current g = Some (Armed run) /\ ar_handle run = e;
  ex_same t e run : t ∈ ts -> run_task t = Some (e, ar_run_id run) -> current g = Some (Armed run) -> ar_handle run = e;
  ex_prep t e id c p : t ∈ ts -> run_task t = Some (e, id) -> current g <> Some (Preparing id c p);
  ex_open ch r run : TWaitStart (ar_handle run) ch r ∈ ts -> current g = Some (Armed run) -> starts g !! ch <> Some Dropped;
  ex_halted t t' e e' : halted = true -> current g = None /\ (t ∈ ts -> t' ∈ ts -> active g t e -> active g t' e' -> e = e');
}.

(** Two active tasks hold the same engine. *)
Lemma excl_unique (ts : list AgentTask) (halted : bool) (g : Agent) (t t' : AgentTask) (e e' : nat) :
  excl ts halted g -> t ∈ ts -> t' ∈ ts -> active g t e -> active g t' e' -> e = e'.
Proof.
  intros Hex Ht Ht' Ha Ha'. destruct halted.
  - by apply (ex_halted _ _ _ Hex t t' e e' eq_refl).
  - destruct (ex_active _ _ _ Hex t e eq_refl Ht Ha) as (run & Hr & <-).
    destruct (ex_active _ _ _ Hex t' e' eq_refl Ht' Ha') as (run' & Hr' & <-). congruence.
Qed.

(** Nothing the invariant reads gets worse: fewer run tasks, the same slot, no channel
    reopened, no engine begun. *)
Definition slot_sim (c c' : option RunPhase) : Prop :=
  match c, c' with
  | None, None => True
  | Some (Preparing id _ _), Some (Preparing id' _ _) => id' = id
  | Some (Armed run), Some (Armed run') => ar_run_id run' = ar_run_id run /\ ar_handle run' = ar_handle run
  | _, _ => False
  end.

Lemma slot_sim_refl (c : option RunPhase) : slot_sim c c.
Proof. by destruct c as [[]|]. Qed.

Lemma excl_mono (ts ts' : list AgentTask) (halted : bool) (g g' : Agent) :
  slot_sim (current g) (current g') ->
  (forall t p, t ∈ ts' -> run_task t = Some p -> t ∈ ts) ->
  (forall ch, starts g' !! ch = Some Dropped <-> starts g !! ch = Some Dropped) ->
  (forall e en', engines g' !! e = Some en' -> executing en' -> exists en, engines g !! e = Some en /\ executing en) ->
  excl ts halted g -> excl ts' halted g'.
Proof.
  intros Ec Hts Hst Hen Hex.
  assert (forall t e, active g' t e -> active g t e) as Hact.
  { intros t e. destruct t; simpl; try done.
    - intros [-> Hd]. split; [done|]. by rewrite <- Hst.
    - intros [-> (en' & He' & Hx)]. split; [done|]. by eapply Hen. }
  assert (forall t e, active g' t e -> exists p, run_task t = Some p) as Hrt by (intros [] ?; simpl; try done; eauto).
  destruct Hex as [H1 H2 H3 H4 H5]. constructor.
  - intros t e Hh Hin Ha. destruct (Hrt t e Ha) as [p Hp].
    destruct (H1 t e Hh (Hts t p Hin Hp) (Hact t e Ha)) as (run & Hc & <-). rewrite Hc in Ec.
    destruct (current g') as [[|run']|]; try done. destruct Ec as [_ <-]. by eexists.
  - intros t e run' Hin Hr Hc'. rewrite Hc' in Ec. destruct (current g) as [[|run]|] eqn:Hc; try done.
    destruct Ec as [Hid ->]. rewrite Hid in Hr. by eapply H2; eauto.
  - intros t e id c p Hin Hr Hc'. rewrite Hc' in Ec. destruct (current g) as [[id' c' p'|]|] eqn:Hc; try done.
    simpl in Ec. subst id'. by eapply H3; eauto.
  - intros ch r run' Hin Hc'. rewrite Hc' in Ec. destruct (current g) as [[|run]|] eqn:Hc; try done.
    destruct Ec as [_ Heq]. rewrite Heq in Hin. rewrite Hst. eapply H4; [|done]. by eapply Hts.
  - intros t t' e e' Hh. destruct (H5 t t' e e' Hh) as [Hc Hu]. rewrite Hc in Ec.
    split; [by destruct (current g')|]. intros Hin Hin' Ha Ha'.
    destruct (Hrt t e Ha), (Hrt t' e' Ha'). by eapply Hu; eauto.
Qed.

Lemma excl_perm (ts ts' : list AgentTask) (halted : bool) (g : Agent) :
  ts ≡ₚ ts' -> excl ts halted g -> excl ts' halted g.
Proof.
  intros Hp. apply excl_mono; [apply slot_sim_refl| |done|by eauto]. intros t p. by rewrite Hp.
Qed.

(** The slot is let go: nothing active is left behind. *)
Lemma excl_release (ts : list AgentTask) (g : Agent) (v : option RunPhase) (rec : list CtrlMsg) (now : Z) :
  ok ts rec now g -> excl ts false g ->
  (forall run t, current g = Some (Armed run) -> t ∈ ts -> active g t (ar_handle run) ->
     exists ch r, t = TWaitStart (ar_handle run) ch r /\ ar_start_tx run = Some ch) ->
  match v with
  | Some (Armed _) => False
  | Some (Preparing id _ _) => forall t e, t ∈ ts -> run_task t <> Some (e, id)
  | None => True
  end ->
  excl ts false (replace_current v g).
Proof.
  intros Hok Hex Hgone Hv.
  assert (starts (replace_current v g) = starts (drop_phase (current g) g)
          /\ engines (replace_current v g) = engines g /\ current (replace_current v g) = v) as (Es & Ee & Ec).
  { unfold replace_current, drop_phase, drop_run. by repeat case_match. }
  assert (forall t e, t ∈ ts -> active (replace_current v g) t e -> False) as Hnone.
  { intros t e Hin Ha.
    assert (active g t e) as Ha'.
    { destruct t; simpl in *; try done; rewrite ?Ee in Ha; try done. destruct Ha as [-> Hd]. split; [done|].
      intros Hx. apply Hd. unfold replace_current, drop_phase, drop_run. repeat case_match; simpl; try exact Hx;
        rewrite lookup_insert; by destruct (decide _). }
    destruct (ex_active _ _ _ Hex t e eq_refl Hin Ha') as (run & Hr & <-).
    destruct (Hgone run t Hr Hin Ha') as (ch & r & -> & Htx). destruct Ha as [_ Hd]. apply Hd.
    rewrite Es, Hr. unfold drop_phase, drop_run. rewrite Htx. simpl. by rewrite lookup_insert_eq. }
  constructor; rewrite ?Ec.
  - intros t e _ Hin Ha. by destruct (Hnone t e Hin Ha).
  - by intros t e run _ _ ->.
  - intros t e id c p Hin Hr ->. by apply (Hv t e).
  - by intros ch r run _ ->.
  - done.
Qed.

(** A change that leaves the slot, the channels and the engines alone. *)
Lemma excl_same (ts ts' : list AgentTask) (halted : bool) (g g' : Agent) :
  current g' = current g -> starts g' = starts g -> engines g' = engines g ->
  (forall t p, t ∈ ts' -> run_task t = Some p -> t ∈ ts) ->
  excl ts halted g -> excl ts' halted g'.
Proof.
  intros E1 E2 E3 Ht. apply excl_mono; [rewrite E1; apply slot_sim_refl|done|by rewrite E2|rewrite E3; by eauto].
Qed.

Lemma excl_on_handle (ts : list AgentTask) (halted : bool) (g : Agent) (id : nat) (f : RunHandle -> RunHandle) :
  excl ts halted g -> excl ts halted (on_handle id f g).
Proof.
  apply excl_mono; [apply slot_sim_refl|done|done|]. intros e en'. simpl. destruct (decide (id = e)) as [->|].
  - rewrite lookup_alter_eq. destruct (engines g !! e) as [en|]; [|done]. intros [= <-]. by eauto.
  - rewrite lookup_alter_ne by done. by eauto.
Qed.

Lemma task_unique (ts : list AgentTask) (t t' : AgentTask) (e : nat) (r r' : string) :
  NoDup (run_engines ts) -> t ∈ ts -> t' ∈ ts -> run_task t = Some (e, r) -> run_task t' = Some (e, r') -> t = t'.
Proof.
  intros Hnd Hin Hin' Hr Hr'. induction ts as [|x ts IH]; [by apply not_elem_of_nil in Hin|].
  unfold run_engines in Hnd. rewrite omap_cons_eq in Hnd.
  assert (forall y q, y ∈ ts -> run_task y = Some (e, q) -> e ∈ run_engines ts) as Hmem.
  { intros y q Hy Hq. apply list_elem_of_omap. exists y. by rewrite Hq. }
  apply elem_of_cons in Hin as [->|Hin]; apply elem_of_cons in Hin' as [->|Hin']; [done|..].
  - rewrite Hr in Hnd. simpl in Hnd. apply NoDup_cons in Hnd as [Hni _]. by destruct Hni; eapply Hmem.
  - rewrite Hr' in Hnd. simpl in Hnd. apply NoDup_cons in Hnd as [Hni _]. by destruct Hni; eapply Hmem.
  - apply IH; [|done|done]. destruct (fst <$> run_task x); [by apply NoDup_cons in Hnd as []|done].
Qed.

Lemma active_task (g : Agent) (t : AgentTask) (e : nat) : active g t e -> exists r, run_task t = Some (e, r).
Proof. destruct t; simpl; try done; [intros [-> _]|intros ->|intros ->|intros [-> _]]; by eauto. Qed.

(** Nothing is active for an engine whose run has finished. *)
Lemma finished_inactive (ts : list AgentTask) (rec : list CtrlMsg) (now : Z) (g : Agent) (t : AgentTask) (e : nat) (en : EngineRun) :
  ok ts rec now g -> t ∈ ts -> engines g !! e = Some en -> is_finished (rh_status (en_handle en)) = true ->
  ~ active g t e.
Proof.
  intros Hok Hin He Hf Ha. destruct (active_task g t e Ha) as [r Hr].
  destruct (ok_task _ _ _ _ Hok t e r Hin Hr) as (en' & He' & _ & Hst). rewrite He in He'. injection He' as <-.
  destruct (ok_good _ _ _ _ Hok e en He) as [[rs Hen] _].
  destruct (rh_status (en_handle en)) as [| | |passed] eqn:Hs; try done.
  destruct (finished_returned en rs passed Hen Hs) as [x Hx].
  destruct t; simpl in *; try done; try congruence.
  destruct Ha as [-> (en2 & He2 & Hex)]. rewrite He in He2. injection He2 as <-. unfold executing in Hex. by rewrite Hx in Hex.
Qed.

Lemma excl_accept (rec : list CtrlMsg) (now : Z) (g : Agent) (a : Assignment) :
  ok (tasks g) rec now g -> excl (tasks g) false g -> fresh_assignments g (CAssignment a) ->
  match current g with
  | None => True
  | Some (Preparing _ _ _) => False
  | Some (Armed run) => ar_run_id run <> as_run_id a
      /\ forall h, handle_of (ar_handle run) g = Some h -> is_finished (rh_status h) = true
  end ->
  excl (tasks (accept_assignment a g)) false (accept_assignment a g).
Proof.
  intros Hok Hex Hf Hc. unfold accept_assignment. cbn [fresh]. set (g1 := set_cancel _ _ _).
  set (v := Some (Preparing _ _ _)).
  assert (ok (tasks g) rec now g1) as Hok1 by (eapply ok_ext; [..|exact Hok]; simpl; done || lia).
  assert (excl (tasks g) false (replace_current v g1)) as Hr.
  { apply (excl_release _ g1 v rec now Hok1).
    - by eapply excl_same; [..|exact Hex].
    - intros run t Hrun Hin Ha. exfalso. simpl in Hrun. rewrite Hrun in Hc. destruct Hc as [_ Hfin].
      destruct (ok_slot _ _ _ _ Hok run Hrun) as [[en He] _].
      eapply (finished_inactive _ _ _ _ t _ en Hok1 Hin He); [|exact Ha].
      apply Hfin. unfold handle_of. by rewrite He.
    - simpl. intros t e Hin Hrt. destruct Hf as [Hs|Hn]; [|by eapply Hn].
      destruct (current g) as [[|run]|]; try done. destruct Hc as [Hne _]. injection Hs. done. }
  eapply excl_same; [..|exact Hr]; [done..|]. unfold spawn. cbn [set_tasks tasks]. rewrite replace_tasks.
  intros t p [?| ->%list_elem_of_singleton]%elem_of_app; done.
Qed.

Lemma excl_control (rec : list CtrlMsg) (now : Z) (g : Agent) (c : Control) :
  ok (tasks g) rec now g -> excl (tasks g) false g -> excl (tasks g) false (handle_control c g).
Proof.
  intros Hok Hex. unfold handle_control, action_of, enqueue_control_ack, try_enqueue_msg.
  destruct (current g) as [[id cancel p|run]|] eqn:Hc.
  - destruct (decide _); [|by eapply excl_same; [..|exact Hex]].
    destruct (is_stopish _); [|by eapply excl_same; [..|exact Hex]].
    assert (excl (tasks g) false (replace_current None g)) as Hr.
    { apply (excl_release _ g None rec now Hok Hex); [|done]. intros run t Hrun. congruence. }
    unfold replace_current in Hr. rewrite Hc in Hr. by eapply excl_same; [..|exact Hr].
  - destruct (decide _); [|by eapply excl_same; [..|exact Hex]]. destruct (is_stopish _ && _) eqn:Hd.
    + assert (excl (tasks g) false (replace_current None g)) as Hr.
      { apply (excl_release _ g None rec now Hok Hex); [|done]. intros run' t Hrun Hin Ha.
        rewrite Hrun in Hc. injection Hc as ->. apply andb_prop in Hd as [_ Hd]. apply bool_decide_eq_true in Hd as [ch Hch].
        destruct (ok_slot _ _ _ _ Hok run Hrun) as [_ Hs]. destruct (Hs ch Hch) as [Hw _].
        destruct (active_task g t _ Ha) as [r Hr]. exists ch, (ar_run_id run). split; [|done].
        by eapply (task_unique (tasks g)); [apply Hok|..]. }
      eapply excl_same; [..|exact (excl_on_handle _ _ _ (ar_handle run) (kill "controller requested stop before start") Hr)];
        unfold replace_current, drop_phase, drop_run; rewrite ?Hc; by destruct (ar_start_tx run).
    + destruct (handle_of (ar_handle run) g) as [h|]; [|done]. destruct (drive c h) as [h' [u|d]];
        (eapply excl_same; [..|exact (excl_on_handle _ _ _ (ar_handle run) (fun _ => h') Hex)]; done).
  - by eapply excl_same; [..|exact Hex].
Qed.

Lemma excl_start (rec : list CtrlMsg) (now : Z) (g : Agent) (r : string) (ms : Z) :
  ok (tasks g) rec now g -> excl (tasks g) false g -> excl (tasks g) false (handle_start r ms g).
Proof.
  intros Hok Hex. unfold handle_start. destruct (current g) as [[id c p|run]|] eqn:Hc; [| |done].
  - destruct (decide _); [|done]. eapply excl_mono; [..|exact Hex]; [by rewrite Hc|done|done|by eauto].
  - destruct (decide _); [|done]. destruct (ar_start_tx run) as [ch|] eqn:Htx; [|done].
    destruct (ok_slot _ _ _ _ Hok run Hc) as [_ Hch]. destruct (Hch ch Htx) as [_ Ho].
    eapply excl_mono; [..|exact Hex]; [by rewrite Hc|done| |by eauto]. intros ch'. simpl. rewrite lookup_insert.
    destruct (decide (ch = ch')) as [<-|]; [|done]. rewrite Ho. done.
Qed.

Lemma excl_drop (ts : list AgentTask) (halted : bool) (g : Agent) (t : AgentTask) :
  excl (t :: ts) halted g -> excl ts halted g.
Proof. apply excl_same; [done..|]. intros t' p Hin _. by right. Qed.

(** Every task answers to one that was there. *)
Lemma excl_sim (ts ts' : list AgentTask) (halted : bool) (g g' : Agent) :
  current g' = current g -> starts g' = starts g ->
  (forall x e, x ∈ ts' -> active g' x e -> exists y, y ∈ ts /\ active g y e) ->
  (forall x p, x ∈ ts' -> run_task x = Some p -> exists y, y ∈ ts /\ run_task y = Some p) ->
  (forall e ch r, TWaitStart e ch r ∈ ts' -> TWaitStart e ch r ∈ ts) ->
  excl ts halted g -> excl ts' halted g'.
Proof.
  intros Ec Es Hback Hrt Hw [H1 H2 H3 H4 H5]. constructor; rewrite ?Ec, ?Es.
  - intros x e Hh Hin Hx. destruct (Hback x e Hin Hx) as (y & Hy & Hya). by eapply H1.
  - intros x e run Hin Hx Hc. destruct (Hrt x _ Hin Hx) as (y & Hy & Hyr). by eapply H2.
  - intros x e id c p Hin Hx. destruct (Hrt x _ Hin Hx) as (y & Hy & Hyr). by eapply H3.
  - intros ch r run Hin Hc. eapply H4; [by apply Hw|done].
  - intros x x' e e' Hh. split; [by apply (H5 x x e e)|]. intros Hin Hin' Hx Hx'.
    destruct (Hback x e Hin Hx) as (y & Hy & Hya). destruct (Hback x' e' Hin' Hx') as (y' & Hy' & Hya').
    by apply (H5 y y' e e' Hh).
Qed.

Lemma excl_swap (ts : list AgentTask) (halted : bool) (g : Agent) (t t' : AgentTask) :
  run_task t' = run_task t -> (forall e ch r, t' <> TWaitStart e ch r) -> (forall e, active g t' e -> active g t e) ->
  excl (t :: ts) halted g -> excl (t' :: ts) halted g.
Proof.
  intros Hr Hnw Ha. apply excl_sim; [done..| | |].
  - intros x e [->|Hin]%elem_of_cons Hx; [exists t; split; [by left|by apply Ha]|exists x; split; [by right|done]].
  - intros x p [->|Hin]%elem_of_cons Hx; [exists t; split; [by left|congruence]|exists x; split; [by right|done]].
  - intros e ch r [Heq|Hin]%elem_of_cons; [by destruct (Hnw _ _ _ (eq_sym Heq))|by right].
Qed.

Lemma excl_back (ts : list AgentTask) (halted : bool) (g : Agent) (t : AgentTask) :
  excl (t :: ts) halted g -> excl (ts ++ [t]) halted g.
Proof. apply excl_perm, Permutation_cons_append. Qed.

Lemma excl_uplink (ts : list AgentTask) (halted : bool) (g : Agent) (w : W) :
  excl ts halted g -> excl ts halted (set_uplink w g).
Proof. by apply excl_same. Qed.

Lemma clear_same (r : string) (g : Agent) : (forall run, current g = Some (Armed run) -> ar_run_id run <> r) -> clear r g = g.
Proof.
  intros Hn. unfold clear, is_armed. destruct (current g) as [[|run]|]; [done| |done].
  by rewrite bool_decide_eq_false_2 by by apply Hn.
Qed.

Lemma excl_report (halted : bool) (g : Agent) (t : AgentTask) (m : UplinkMessage) :
  excl (t :: tasks g) halted g ->
  let '(g', o) := report m (Some t) None g in excl (tasks g' ++ option_list o) halted g'.
Proof.
  intros Hex. destruct (report_cases m (Some t) None g) as (w & Hg & Ho).
  destruct (report m (Some t) None g) as [g' o]. simpl in *. subst g'. simpl.
  destruct Ho as [-> | ->]; simpl; apply excl_uplink; [by apply excl_back|]. rewrite app_nil_r. by eapply excl_drop.
Qed.

Lemma excl_slot (ts : list AgentTask) (halted : bool) (g : Agent) (c : option RunPhase) :
  excl ts halted g -> current g = c -> halted = true -> c = None.
Proof.
  intros Hex <- Hh. by apply (ex_halted _ _ _ Hex (TReady "" 0) (TReady "" 0) 0%nat 0%nat Hh).
Qed.

Lemma excl_prepare (rec : list CtrlMsg) (now : Z) (halted : bool) (g : Agent) (a : Assignment) (cancel : nat)
    (built : result string EngineRun) :
  ok (tasks g) rec now g -> excl (tasks g) halted g ->
  let '(g', o) := prepare_assignment a cancel built g in excl (tasks g' ++ option_list o) halted g'.
Proof.
  intros Hok Hex.
  assert (forall id c p, current g = Some (Preparing id c p) -> halted = false) as Hrun.
  { intros id c p Hc. destruct halted; [|done]. by specialize (excl_slot _ _ _ _ Hex Hc eq_refl). }
  assert (forall id c p, current g = Some (Preparing id c p) -> excl (tasks g) halted (replace_current None g)) as Hrel.
  { intros id c p Hc. pose proof (Hrun _ _ _ Hc) as ->. apply (excl_release _ g None rec now Hok Hex); [|done].
    intros run t Hx. congruence. }
  unfold prepare_assignment. destruct built as [en|detail].
  - destruct (current g) as [[id c p|run]|] eqn:Hc; [|by rewrite app_nil_r|by rewrite app_nil_r].
    destruct (negb _) eqn:Hid; [by rewrite app_nil_r|]. apply negb_false_iff, bool_decide_eq_true in Hid. subst id.
    destruct (cancelled cancel g).
    + cbn -[replace_current]. rewrite app_nil_r, replace_tasks. by eapply Hrel.
    + pose proof (Hrun _ _ _ eq_refl) as ->.
      set (ch := next_id g). set (eid := S (next_id g)).
      assert (forall st tx, st <> Dropped ->
        excl (tasks g ++ [TWaitStart eid ch (as_run_id a)]) false
          (mkAgent (Some (Armed (mkActiveRun (as_run_id a) eid tx))) (cancels g) (<[ch := st]> (starts g))
             (<[eid := en]> (engines g)) (tasks g) (uplink g) (registered g) (S (S (next_id g))))) as Hnew.
      { intros st tx Hst. set (g' := mkAgent _ _ _ _ _ _ _ _).
        assert (forall t e, t ∈ tasks g -> active g' t e -> False) as Hnone.
        { intros t e Hin Ha. assert (active g t e) as Ha'.
          { pose proof (ok_claim _ _ _ _ Hok t Hin) as Hcl. destruct t; simpl in *; try done.
            - destruct Ha as [-> Hd]. split; [done|]. destruct Hcl as (o & Ho & _).
              assert (start_rx < next_id g)%nat by (apply (ok_fresh_start _ _ _ _ Hok); by rewrite Ho).
              rewrite lookup_insert_ne in Hd by (unfold ch; lia). done.
            - destruct Ha as [-> (x & Hx & Hxx)]. split; [done|].
              destruct (ok_task _ _ _ _ Hok (TRunning e run_id) e run_id Hin eq_refl) as (y & Hy & _).
              assert (e < next_id g)%nat by (apply (ok_fresh_engine _ _ _ _ Hok); by rewrite Hy).
              rewrite lookup_insert_ne in Hx by (unfold eid; lia). eauto. }
          destruct (ex_active _ _ _ Hex t e eq_refl Hin Ha') as (run & Hr & _). congruence. }
        assert (forall e ch' r, TWaitStart e ch' r ∈ tasks g -> e <> eid) as Hne.
        { intros e ch' r Hin ->. destruct (ok_task _ _ _ _ Hok _ eid r Hin eq_refl) as (y & Hy & _).
          assert (eid < next_id g)%nat by (apply (ok_fresh_engine _ _ _ _ Hok); by rewrite Hy). unfold eid in *. lia. }
        constructor.
        - intros t e _ [Hin| ->%list_elem_of_singleton]%elem_of_app Ha; [by destruct (Hnone t e Hin Ha)|].
          destruct Ha as [-> _]. by eexists.
        - intros t e run [Hin| ->%list_elem_of_singleton]%elem_of_app Hr Hx; injection Hx as <-; simpl in *.
          + by destruct (ex_prep _ _ _ Hex t e (as_run_id a) c p Hin Hr).
          + by injection Hr.
        - done.
        - intros ch' r run [Hin|Heq%list_elem_of_singleton]%elem_of_app Hx; injection Hx as <-; simpl in *.
          + by destruct (Hne _ _ _ Hin).
          + injection Heq as -> _. rewrite lookup_insert_eq. congruence.
        - done. }
      destruct p as [ms|]; unfold replace_current; cbn; rewrite Hc; cbn;
        [eapply excl_same; [..|exact (Hnew (Sent ms) None ltac:(done))]|eapply excl_same; [..|exact (Hnew Open (Some ch) ltac:(done))]];
        try done; by intros t x [?| ->%list_elem_of_singleton]%elem_of_app.
  - set (g1 := if is_preparing _ _ then _ else _).
    assert (tasks g1 = tasks g /\ excl (tasks g) halted g1) as [Ht Hg1].
    { subst g1. unfold is_preparing. destruct (current g) as [[id c p|run]|] eqn:Hc; [|done|done].
      destruct (bool_decide _); [|done]. split; [apply replace_tasks|by eapply Hrel]. }
    rewrite Ht. eapply excl_same; [..|exact Hg1]; [done..|].
    intros t p [?|Hin]%elem_of_app Hr; [done|]. destruct (cancelled cancel g1); simpl in Hin.
    + by apply not_elem_of_nil in Hin.
    + by apply list_elem_of_singleton in Hin as ->.
Qed.

(** The end of a run's task clears the slot only of its own run. *)
Lemma excl_end (rec : list CtrlMsg) (now : Z) (halted : bool) (g : Agent) (e : nat) (r kind detail sm : string) :
  ok (TReport e r kind detail sm :: tasks g) rec now g -> excl (TReport e r kind detail sm :: tasks g) halted g ->
  excl (tasks g) halted (clear r g).
Proof.
  intros Hok Hex. unfold clear, is_armed. destruct (current g) as [[|run]|] eqn:Hc; [by eapply excl_drop| |by eapply excl_drop].
  case_bool_decide as Hid; [|by eapply excl_drop].
  destruct halted; [by specialize (excl_slot _ _ _ _ Hex Hc eq_refl)|].
  eapply excl_drop. apply (excl_release _ g None rec now Hok Hex); [|done]. intros run' t Hrun Hin Ha. exfalso.
  rewrite Hc in Hrun. injection Hrun as <-. destruct (active_task g t _ Ha) as [r' Hr'].
  assert (ar_handle run = e) as He.
  { apply (ex_same _ _ _ Hex (TReport e r kind detail sm) e run); [by left|by rewrite Hid|done]. }
  rewrite He in *. assert (t = TReport e r kind detail sm) as -> by
    (by eapply (task_unique _ _ _ e r' r); [apply Hok|done|by left|done|done]). done.
Qed.

Lemma excl_poll (rec : list CtrlMsg) (now : Z) (halted : bool) (g : Agent) (t : AgentTask)
    (built : result string EngineRun) (summary : string) :
  ok (t :: tasks g) rec now g -> excl (t :: tasks g) halted g ->
  let '(g', o) := task_poll now built summary t g in excl (tasks g' ++ option_list o) halted g'.
Proof.
  intros Hok Hex. destruct t as [a c|r idx|r detail|e ch r|e r ms|e r|e r|e r kind detail sm].
  - apply (excl_prepare rec now); [by apply (ok_drop _ _ _ _ (TPrepare a c) I)|by eapply excl_drop].
  - by apply excl_report.
  - by apply excl_report.
  - cbn [task_poll]. destruct (starts g !! ch) as [[|ms|]|] eqn:Hch; try by apply excl_back.
    + apply excl_back. eapply (excl_swap _ _ _ (TWaitStart e ch r)); try done. intros e' ->. simpl. split; [done|congruence].
    + simpl. rewrite app_nil_r, clear_tasks, clear_same; [by eapply excl_drop|]. intros run Hc Hid.
      assert (ar_handle run = e) as He.
      { apply (ex_same _ _ _ Hex (TWaitStart e ch r) e run); [by left|by rewrite Hid|done]. }
      subst e. by apply (ex_open _ _ _ Hex ch r run (list_elem_of_here _ _) Hc).
  - cbn [task_poll]. destruct (Z.leb ms now); [|by apply excl_back]. apply excl_back.
    by eapply (excl_swap _ _ _ (TSleep e r ms)).
  - cbn [task_poll]. destruct (report_cases (run_event r "started" "" "") (Some (TStarted e r)) (Some (TRunning e r)) g)
      as (w & Hg & Ho).
    destruct (report _ _ _ g) as [g' o]. simpl in Hg, Ho. subst g'. destruct Ho as [-> | ->].
    + apply excl_uplink, excl_back, Hex.
    + apply excl_back. set (g2 := mkAgent _ _ _ _ _ _ _ _).
      eapply excl_sim; [..|exact Hex]; [done..| | |].
      * intros x e' [->|Hin]%elem_of_cons Hx.
        { destruct Hx as [-> _]. exists (TStarted e' r). split; [by left|done]. }
        exists x. split; [by right|]. destruct x as [| | | | | |e1 r1|]; simpl in *; try done.
        destruct Hx as [-> (en & He & Hx)]. split; [done|]. rewrite lookup_alter_ne in He; [by eauto|]. intros ->.
        by pose proof (task_unique _ (TStarted e' r) (TRunning e' r1) e' r r1 (ok_nodup _ _ _ _ Hok)
                         (list_elem_of_here _ _) (list_elem_of_further _ _ _ Hin) eq_refl eq_refl).
      * intros x q [->|Hin]%elem_of_cons Hx; [exists (TStarted e r); split; [by left|done]|exists x; split; [by right|done]].
      * intros e1 ch1 r1 [?|Hin]%elem_of_cons; [done|by right].
  - cbn [task_poll]. destruct (en_pc <$> engines g !! e) as [[]|]; try by apply excl_back.
    destruct (outcome r0) as [kind detail]. apply excl_back. by eapply (excl_swap _ _ _ (TRunning e r)).
  - cbn [task_poll]. pose proof (excl_report halted g (TReport e r kind detail sm) (run_event r kind detail sm) Hex) as Hr.
    destruct (report_cases (run_event r kind detail sm) (Some (TReport e r kind detail sm)) None g) as (w & Hg & Ho).
    destruct (report _ _ _ g) as [g' o]. simpl in Hg, Ho. subst g'. destruct Ho as [-> | ->]; [exact Hr|].
    cbn [option_list]. rewrite app_nil_r, clear_tasks. simpl in Hr.
    eapply (excl_end rec now halted (set_uplink w g)); [by apply ok_uplink|by apply excl_uplink].
Qed.

Lemma excl_shutdown (g : Agent) :
  excl (tasks g) false g -> excl (tasks g) true (shutdown g).
Proof.
  intros Hex.
  assert (current (shutdown g) = None) as Hc by (unfold shutdown, drop_run; by repeat case_match).
  assert (forall t e, active (shutdown g) t e -> active g t e) as Hact.
  { intros t e. unfold shutdown. destruct (current g) as [[id c p|run]|]; [done| |done].
    destruct t as [| | |e1 ch r| | |e1 r|]; simpl; try done.
    - intros [-> Hd]. split; [done|]. unfold drop_run in Hd. destruct (ar_start_tx run) as [ch'|]; [|done]. simpl in Hd.
      rewrite lookup_insert in Hd. by destruct (decide _).
    - intros [-> (en & He & Hx)]. split; [done|].
      assert (alter (with_handle (kill "agent shutting down")) (ar_handle run) (engines g) !! e = Some en) as He'
        by (unfold drop_run in He; by destruct (ar_start_tx run)).
      destruct (decide (ar_handle run = e)) as [Heq|]; [|rewrite lookup_alter_ne in He' by done; by eauto].
      rewrite Heq, lookup_alter_eq in He'. destruct (engines g !! e) as [x|]; [|done]. injection He' as <-. by exists x. }
  constructor; rewrite ?Hc; try done.
  intros t t' e e' _. split; [done|]. intros Hin Hin' Ha Ha'.
  by apply (excl_unique (tasks g) false g t t' e e' Hex); [..|apply Hact|apply Hact].
Qed.

Lemma excl_message (rec : list CtrlMsg) (now : Z) (g : Agent) (m : CtrlMsg) :
  ok (tasks g) rec now g -> excl (tasks g) false g -> fresh_assignments g m ->
  excl (tasks (handle_controller_message (Some m) g)) false (handle_controller_message (Some m) g).
Proof.
  intros Hok Hex Hf. destruct m as [ctl v msg|a|r ms|c|q]; simpl; [by eapply excl_same; [..|exact Hex]| | | |by apply excl_uplink].
  - destruct (arm_cases a g) as [[[u|d] ->]|[-> Hc]]; [done|by apply excl_uplink|]. by eapply excl_accept.
  - assert (tasks (handle_start r ms g) = tasks g) as ->.
    { unfold handle_start. by repeat case_match. } by eapply excl_start.
  - destruct (ok_control rec now g c Hok) as [-> _]. by eapply excl_control.
Qed.

Lemma step_excl (s s' : System (W := W)) :
  step fresh_assignments s s' -> sys_ok s -> excl (tasks (agent s)) (stopped s) (agent s) ->
  excl (tasks (agent s')) (stopped s') (agent s').
Proof.
  destruct 1 as [s m Hst Ha|s l1 t l2 built summary g o Ht Hb Hp|s id e o e' He Hn Hs|s w|s now Hnow|s Hst];
    intros Hok Hex; cbn [agent received clock stopped].
  - rewrite Hst in Hex. by eapply excl_message.
  - pose proof (taken_ok s l1 t l2 Ht Hok) as Hok'.
    assert (excl (t :: tasks (set_tasks (l1 ++ l2) (agent s))) (stopped s) (set_tasks (l1 ++ l2) (agent s))) as Hex'.
    { simpl. eapply (excl_perm (l1 ++ t :: l2)); [by rewrite <- Permutation_middle|]. rewrite Ht in Hex.
      by eapply excl_same; [..|exact Hex]. }
    pose proof (excl_poll _ _ _ _ t built summary Hok' Hex') as Hpoll. rewrite Hp in Hpoll.
    by eapply excl_same; [..|exact Hpoll].
  - eapply excl_mono; [..|exact Hex]; [apply slot_sim_refl|done|done|]. intros e1 en'. simpl. rewrite lookup_insert.
    destruct (decide (id = e1)) as [<-|]; [|by eauto]. intros [= <-] Hx. exists e. split; [done|].
    unfold executing in *. destruct (en_pc e) eqn:Hpc; try done. by rewrite (engine_step_returned e e' o r Hs Hpc) in Hx.
  - by apply excl_uplink.
  - exact Hex.
  - rewrite Hst in Hex. destruct (ok_shutdown _ _ _ Hok) as [-> _]. by apply excl_shutdown.
Qed.

Lemma reach_excl (s : System (W := W)) : reach fresh_assignments s -> excl (tasks (agent s)) (stopped s) (agent s).
Proof.
  induction 1 as [w now|s s' Hr IH Hs]; [|by eapply step_excl; [exact Hs|by eapply reach_sys_ok|]].
  constructor; simpl; try done.
  - by intros t e _ Hin%not_elem_of_nil.
Qed.
End Exclusive.

(** ** Properties *)

Section Properties.
Context {W : Type} `{!AgentWindow W}.

(** C7: the start barrier holds on the agent too.  Whatever the controller sends and
    however tasks and messages interleave, an engine runs only after a [Start] for its
    run was received, and never before the time that [Start] names. *)
Theorem start_gate (s : System (W := W)) (id : nat) (e : EngineRun) :
  reach any_controller s -> engines (agent s) !! id = Some e -> en_pc e <> EnNew ->
  exists ms, CStart (rh_run_id (en_handle e)) ms ∈ received s /\ ms <= clock s.
Proof. intros Hr He Hn. by apply (ok_begun _ _ _ _ (reach_sys_ok any_controller s Hr) id e). Qed.

(** a stop or kill before the start is final.  If it reaches a run that is armed and
    has not been told to start, the engine is never begun, whatever follows; if it
    reaches a run still in preparation, the slot is free at once and the preparation,
    however it ends, builds nothing that could run. *)
Theorem stop_before_start (s s' : System (W := W)) (c : Control) :
  reach any_controller s -> stopped s = false -> is_stopish (ct_action c) = true ->
  let s1 := mkSystem (handle_controller_message (Some (CControl c)) (agent s)) (clock s)
              (received s ++ [CControl c]) false in
  rtc (step any_controller) s1 s' ->
  match current (agent s) with
  | Some (Armed run) =>
      ar_run_id run = ct_run_id c -> is_Some (ar_start_tx run) ->
      current (agent s1) = None
      /\ exists e, engines (agent s') !! ar_handle run = Some e /\ en_pc e = EnNew
  | Some (Preparing id cancel _) =>
      id = ct_run_id c ->
      current (agent s1) = None
      /\ forall a built, engines (prepare_assignment a cancel built (agent s')).1 = engines (agent s')
  | None => True
  end.
Proof.
  intros Hr Hst Hstop s1 Hs. pose proof (reach_sys_ok any_controller s Hr) as Hok.
  assert (step any_controller s s1) as Hs1 by by apply st_message.
  assert (sys_ok s1) as Hok1 by by eapply step_sys_ok.
  destruct (current (agent s)) as [[id cancel p|run]|] eqn:Hc; [| |done].
  - intros ->. assert (current (agent s1) = None /\ (cancel < next_id (agent s1))%nat /\ cancels (agent s1) !! cancel = Some true)
      as (Hn & Hf).
    { pose proof (ok_cancel _ _ _ _ Hok _ cancel p Hc). subst s1. simpl. unfold handle_control, action_of.
      rewrite Hc, decide_True, Hstop by done. simpl. by rewrite lookup_insert_eq. }
    split; [done|]. clear Hs1 Hn. intros a built.
    assert (sys_ok s' /\ cancels (agent s') !! cancel = Some true) as [Hok' Hf'].
    { clear Hr Hok Hst Hc. induction Hs as [x|x y z Hxy Hyz IH]; [by destruct Hf|]. apply IH.
      - by eapply step_sys_ok.
      - by eapply flag_step. }
    pose proof (grows_prepare (agent s') a cancel built None (ok_fresh_engine _ _ _ _ Hok') (ok_fresh_start _ _ _ _ Hok')) as Hp.
    destruct (prepare_assignment a cancel built (agent s')) as [g' o]. destruct Hp as (_ & _ & He). by apply He.
  - intros Hid [ch Htx]. destruct (ok_slot _ _ _ _ Hok run Hc) as [[en He] Hch]. destruct (Hch ch Htx) as [Hw Ho].
    destruct (ok_task _ _ _ _ Hok _ _ _ Hw eq_refl) as (en' & He' & _ & Hnew). rewrite He in He'. injection He' as <-.
    assert (current (agent s1) = None /\ dead (ar_handle run) (agent s1)) as [Hn Hd].
    { subst s1. simpl. unfold handle_control, action_of.
      rewrite Hc, decide_True, Hstop, Htx by done. simpl. unfold drop_run. rewrite Htx. simpl. split; [done|]. split_and!.
      - apply (ok_fresh_engine _ _ _ _ Hok). by rewrite He.
      - simpl. rewrite lookup_alter_eq, He. eexists. by split.
      - simpl. intros t r Hin Hr'. assert (t = TWaitStart (ar_handle run) ch (ar_run_id run)) as ->.
        { by eapply (task_unique (tasks (agent s))); [apply Hok|..]. }
        injection Hr' as <-. exists ch. by rewrite lookup_insert_eq. }
    split; [done|]. assert (dead (ar_handle run) (agent s')) as (_ & Hfin & _).
    { clear Hr Hok Hst Hc He Hch Hw Ho Hs1 Hn. induction Hs as [x|x y z Hxy Hyz IH]; [done|].
      apply IH; [by eapply step_sys_ok|by eapply dead_step]. }
    destruct Hfin as (e & Hfe & Hpc). by exists e.
Qed.

(** C9: an agent runs one test at a time: if the controller does not re-assign a run whose
    earlier instance is still winding down on the agent, then no two engines ever
    execute together, and while the agent serves its controller the executing engine is
    the one that holds the slot, so heartbeats, controls and the busy answer to further
    assignments speak of it. *)
Theorem one_engine_at_a_time (s : System (W := W)) (i j : nat) (e e' : EngineRun) :
  reach fresh_assignments s ->
  engines (agent s) !! i = Some e -> executing e -> engines (agent s) !! j = Some e' -> executing e' ->
  i = j /\ (stopped s = false -> exists run, current (agent s) = Some (Armed run) /\ ar_handle run = i).
Proof.
  intros Hr He Hx He' Hx'. pose proof (reach_excl s Hr) as Hex.
  pose proof (reach_sys_ok fresh_assignments s Hr) as Hok.
  destruct (ok_exec _ _ _ _ Hok i e He Hx) as [r Hin]. destruct (ok_exec _ _ _ _ Hok j e' He' Hx') as [r' Hin'].
  assert (active (agent s) (TRunning i r) i) as Ha by (simpl; eauto).
  assert (active (agent s) (TRunning j r') j) as Ha' by (simpl; eauto).
  split; [exact (excl_unique _ _ _ _ _ i j Hex Hin Hin' Ha Ha')|].
  intros Hst. exact (ex_active _ _ _ Hex (TRunning i r) i Hst Hin Ha).
Qed.

(** A pause that reaches a run before its scenarios exist is acknowledged as applied
    and has no effect: the pause channel has no receiver yet, and the run will start
    unpaused. *)
Theorem early_pause_lost (s : System (W := W)) (c : Control) (run : ActiveRun) (e : EngineRun) :
  reach any_controller s -> current (agent s) = Some (Armed run) -> ar_run_id run = ct_run_id c ->
  ct_action c = "pause" -> engines (agent s) !! ar_handle run = Some e -> en_pc e = EnNew ->
  let ack := agent_msg (MControlAck (mkControlAck (ct_run_id c) (ct_command_id c) "pause" (ct_scenario c)
               (ct_value c) true "")) in
  handle_controller_message (Some (CControl c)) (agent s) = try_enqueue_msg ack (agent s)
  /\ is_paused (en_handle e) = false.
Proof.
  intros Hr Hc Hid Hact He Hpc. pose proof (reach_sys_ok any_controller s Hr) as Hok.
  destruct (ok_good _ _ _ _ Hok _ e He) as [_ Hu]. destruct (Hu Hpc) as [Hrec Hp]. split; [|done].
  simpl. unfold handle_control, action_of. rewrite Hc, decide_True, Hact by done. simpl.
  unfold handle_of. rewrite He. simpl. unfold drive. rewrite Hact. simpl. unfold pause. rewrite Hrec.
  unfold enqueue_control_ack. rewrite Hact. f_equal.
  assert (alter (with_handle (fun _ => en_handle e)) (ar_handle run) (engines (agent s)) = engines (agent s)) as Heq.
  { apply map_eq. intros k. destruct (decide (ar_handle run = k)) as [<-|]; [|by rewrite lookup_alter_ne].
    rewrite lookup_alter_eq, He. simpl. by destruct e. }
  unfold on_handle. rewrite Heq. by destruct (agent s).
Qed.
End Properties.

(** ** A concrete agent: one run, assigned, started and running *)

Module AgentDemo.
Import Uplink.Sample.

Definition len1 (_ : UplinkMessage) : Z := 1.
#[local] Instance demo_window : AgentWindow (@Uplink unit_notify (option AgentMsg)) := uplink_agent_window len1.
Notation Sys := (System (W := @Uplink unit_notify (option AgentMsg))).
Notation dreach := (reach fresh_assignments).

Definition assignment : Assignment := mkAssignment "run-1" "" 0 1 [] "".
Definition engine : EngineRun := Engine_new "run-1" 1 [].

Definition message (m : CtrlMsg) (s : Sys) : Sys :=
  mkSystem (handle_controller_message (Some m) (agent s)) (clock s) (received s ++ [m]) false.
(** One poll of the first task. *)
Definition poll_first (s : Sys) : Sys :=
  match tasks (agent s) with
  | t :: l =>
      let '(g, o) := task_poll (clock s) (Ok engine) "{}" t (set_tasks l (agent s)) in
      mkSystem (set_tasks (tasks g ++ option_list o) g) (clock s) (received s) (stopped s)
  | [] => s
  end.
Definition at_time (now : Z) (s : Sys) : Sys := mkSystem (agent s) now (received s) (stopped s).

Lemma reach_message A (m : CtrlMsg) (s : Sys) :
  reach A s -> stopped s = false -> A (agent s) m -> reach A (message m s).
Proof. intros Hr Hs Ha. eapply re_step; [exact Hr|]. by apply st_message. Qed.

Lemma reach_poll A (s : Sys) :
  reach A s -> match tasks (agent s) with TPrepare a _ :: _ => as_run_id a = "run-1" | _ => True end ->
  reach A (poll_first s).
Proof.
  intros Hr Hb. unfold poll_first. destruct (tasks (agent s)) as [|t l] eqn:Ht; [done|].
  destruct (task_poll _ _ _ _ _) as [g o] eqn:Hp. eapply re_step; [exact Hr|].
  apply (st_task A s [] t l (Ok engine) "{}" g o Ht); [|exact Hp].
  destruct t; try done. simpl. exists 1%nat, []. by rewrite Hb.
Qed.

Lemma reach_time A (now : Z) (s : Sys) : reach A s -> Z.leb (clock s) now = true -> reach A (at_time now s).
Proof. intros Hr Hn. eapply re_step; [exact Hr|]. apply st_time. by apply Z.leb_le. Qed.

Definition s0 : Sys := mkSystem (agent_new (with_limits 1000 10 "boot")) 0 [] false.
(** Armed: the plan is built, the start has not come. *)
Definition s1 : Sys := poll_first (message (CAssignment assignment) s0).
(** The start was received at time 3, for time 5; at time 7 the task has begun the run. *)
Definition s2 : Sys := poll_first (poll_first (at_time 7 (message (CStart "run-1" 5) (at_time 3 s1)))).
Definition s3 : Sys := poll_first (poll_first (poll_first s2)).

Lemma s1_reached A : A (agent s0) (CAssignment assignment) -> reach A s1.
Proof.
  intros Ha. apply reach_poll; [|reflexivity]. apply reach_message; [|reflexivity|exact Ha]. apply re_new.
Qed.

Lemma s3_reached A :
  A (agent s0) (CAssignment assignment) -> A (agent (at_time 3 s1)) (CStart "run-1" 5) -> reach A s3.
Proof.
  intros Ha Hb. unfold s3, s2. do 5 (apply reach_poll; [|exact I]). apply reach_time; [|reflexivity].
  apply reach_message; [|reflexivity|exact Hb]. apply reach_time; [|reflexivity]. by apply s1_reached.
Qed.

Lemma start_gate_witness :
  exists ms, CStart "run-1" ms ∈ received s3 /\ ms <= 7.
Proof.
  apply (start_gate s3 2 (run_begin engine) (s3_reached any_controller I I)); [vm_compute; reflexivity|done].
Defined.

Lemma fresh_s0 : fresh_assignments (agent s0) (CAssignment assignment).
Proof. right. by intros t p Hin%not_elem_of_nil. Qed.

Lemma one_engine_at_a_time_witness :
  2%nat = 2%nat /\ (false = false -> exists run, current (agent s3) = Some (Armed run) /\ ar_handle run = 2%nat).
Proof.
  refine (one_engine_at_a_time s3 2 2 (run_begin engine) (run_begin engine)
           (s3_reached fresh_assignments fresh_s0 I) _ _ _ _); try done; vm_compute; reflexivity.
Defined.

Definition stop_run : Control := mkControl "run-1" "stop" "" 0 9.
Definition armed : ActiveRun := mkActiveRun "run-1" 2 (Some 1%nat).

Lemma stop_before_start_witness :
  current (agent (message (CControl stop_run) s1)) = None
  /\ exists e, engines (agent (message (CControl stop_run) s1)) !! 2%nat = Some e /\ en_pc e = EnNew.
Proof.
  exact (stop_before_start s1 (message (CControl stop_run) s1) stop_run (s1_reached any_controller I) eq_refl eq_refl
           (rtc_refl _ _) eq_refl (ex_intro _ 1%nat eq_refl)).
Defined.

Definition pause_run : Control := mkControl "run-1" "pause" "" 0 8.

Lemma early_pause_lost_witness :
  is_paused (en_handle engine) = false.
Proof.
  refine (proj2 (early_pause_lost s1 pause_run armed engine (s1_reached any_controller I) _ _ _ _ _)); reflexivity.
Defined.
End AgentDemo.
