(* ===== verification/Executor.v ===== *)
(** * Executors: specifications, schedules and partitions
    (crates/loadr-config/src/plan.rs, crates/loadr-core/src/executor.rs, engine.rs)

    The seven executor specifications, how a scenario of the plan becomes one
    ([executor_spec]), the piecewise linear schedules, and how the agents of a fleet
    split a specification ([partition_spec]) and number their virtual users
    ([vu_placement]).  A sum of durations beyond 2^64 seconds panics in Rust; here
    durations are unbounded. *)

From Stdlib Require Import SpecFloat.
From S2P Require Import Prelude Float64 Rounding Str Dur Value Template Protocol.

(** ** Plan data *)

Inductive ExecutorKind :=
| KConstantVus | KRampingVus | KConstantArrivalRate | KRampingArrivalRate
| KPerVuIterations | KSharedIterations | KExternallyControlled.

Record Stage := mkStage {
  st_duration : Duration;
  st_target : f64;
}.

(** The executor fields of a scenario, its start and its grace. *)
Record Scenario := mkScenario {
  executor : ExecutorKind;
  vus : option Z;
  duration : option Duration;
  iterations : option Z;
  start_vus : option Z;
  stages : list Stage;
  rate : option f64;
  start_rate : option f64;
  time_unit : option Duration;
  pre_allocated_vus : option Z;
  max_vus : option Z;
  max_duration : option Duration;
  sc_start_time : option Duration;
  sc_graceful_stop : option Duration;
  sc_graceful_ramp_down : option Duration;
}.

Inductive ExecutorSpec :=
| ConstantVus (vus : Z) (duration : Duration)
| RampingVus (start_vus : Z) (stages : list (Duration * Z))
| ConstantArrivalRate (rate : f64) (duration : Duration) (pre_allocated_vus max_vus : Z)
| RampingArrivalRate (start_rate : f64) (stages : list (Duration * f64)) (pre_allocated_vus max_vus : Z)
| PerVuIterations (vus iterations : Z) (max_duration : Duration)
| SharedIterations (vus iterations : Z) (max_duration : Duration)
| ExternallyControlled (max_vus : Z) (duration : option Duration).

Definition ExecutorKind_as_str (k : ExecutorKind) : string :=
  match k with
  | KConstantVus => "constant-vus"
  | KRampingVus => "ramping-vus"
  | KConstantArrivalRate => "constant-arrival-rate"
  | KRampingArrivalRate => "ramping-arrival-rate"
  | KPerVuIterations => "per-vu-iterations"
  | KSharedIterations => "shared-iterations"
  | KExternallyControlled => "externally-controlled"
  end.

Definition executor_name (spec : ExecutorSpec) : string :=
  match spec with
  | ConstantVus _ _ => "constant-vus"
  | RampingVus _ _ => "ramping-vus"
  | ConstantArrivalRate _ _ _ _ => "constant-arrival-rate"
  | RampingArrivalRate _ _ _ _ => "ramping-arrival-rate"
  | PerVuIterations _ _ _ => "per-vu-iterations"
  | SharedIterations _ _ _ => "shared-iterations"
  | ExternallyControlled _ _ => "externally-controlled"
  end.

Definition total_of {A : Type} (stages : list (Duration * A)) : Duration := Zsum (fst <$> stages).

Definition scheduled_duration (spec : ExecutorSpec) : option Duration :=
  match spec with
  | ConstantVus _ d | ConstantArrivalRate _ d _ _ => Some d
  | RampingVus _ st => Some (total_of st)
  | RampingArrivalRate _ st _ _ => Some (total_of st)
  | PerVuIterations _ _ d | SharedIterations _ _ d => Some d
  | ExternallyControlled _ d => d
  end.

Definition peak_vus (spec : ExecutorSpec) : Z :=
  match spec with
  | ConstantVus v _ => v
  | RampingVus start st => foldl Z.max start (snd <$> st)
  | ConstantArrivalRate _ _ _ m | RampingArrivalRate _ _ _ m | ExternallyControlled m _ => m
  | PerVuIterations v _ _ | SharedIterations v _ _ => v
  end.

(** *** From a scenario to its specification *)

Definition f64_fract (a : f64) : f64 :=
  if f64_is_finite a then f64_sub a (f64_of_Z (f64_trunc_Z a)) else S754_nan.

(** [iter().map(f).collect::<Result<Vec<_>, _>>()]: the first error wins. *)
Fixpoint collect {E A B : Type} (f : A -> result E B) (l : list A) : result E (list B) :=
  match l with
  | [] => Ok []
  | x :: l => let? y := f x in let? ys := collect f l in Ok (y :: ys)
  end.

Section Spec.
(** [format!("{v}")] on a double. *)
Context (format_f64 : f64 -> string).

Definition executor_spec (sc : Scenario) : result string ExecutorSpec :=
  let tu := default (Duration_from_secs 1) (time_unit sc) in
  if Z.eqb tu 0 then Err "`time_unit` must be greater than zero"
  else
    let per_second r := f64_div r (as_secs_f64 tu) in
    let default_max_duration := Duration_from_secs 600 in
    match executor sc with
    | KConstantVus =>
        let? v := ok_or (vus sc) "`constant-vus` requires `vus`" in
        let? d := ok_or (duration sc) "`constant-vus` requires `duration`" in
        if Z.eqb v 0 then Err "`vus` must be at least 1"
        else if Z.eqb d 0 then Err "`duration` must be greater than zero"
        else Ok (ConstantVus v d)
    | KRampingVus =>
        if bool_decide (length (stages sc) = 0%nat) then Err "`ramping-vus` requires at least one entry in `stages`"
        else
          let? st := collect (fun s =>
            if f64_lt (st_target s) f64_zero || f64_ne (f64_fract (st_target s)) f64_zero
            then Err ("`ramping-vus` stage targets must be non-negative integers, got "
                      +:+ format_f64 (st_target s))
            else Ok (st_duration s, f64_as_u64 (st_target s))) (stages sc) in
          Ok (RampingVus (default 0 (start_vus sc)) st)
    | KConstantArrivalRate =>
        let? r := ok_or (rate sc) "`constant-arrival-rate` requires `rate`" in
        let? d := ok_or (duration sc) "`constant-arrival-rate` requires `duration`" in
        let? pre := ok_or (pre_allocated_vus sc) "`constant-arrival-rate` requires `pre_allocated_vus`" in
        if f64_le r f64_zero then Err "`rate` must be greater than zero"
        else
          let m := default pre (max_vus sc) in
          if Z.ltb m pre then Err "`max_vus` cannot be less than `pre_allocated_vus`"
          else Ok (ConstantArrivalRate (per_second r) d pre m)
    | KRampingArrivalRate =>
        if bool_decide (length (stages sc) = 0%nat) then
          Err "`ramping-arrival-rate` requires at least one entry in `stages`"
        else
          let? pre := ok_or (pre_allocated_vus sc) "`ramping-arrival-rate` requires `pre_allocated_vus`" in
          let m := default pre (max_vus sc) in
          if Z.ltb m pre then Err "`max_vus` cannot be less than `pre_allocated_vus`"
          else
            let? st := collect (fun s =>
              if f64_lt (st_target s) f64_zero
              then Err "`ramping-arrival-rate` stage targets must be non-negative"
              else Ok (st_duration s, per_second (st_target s))) (stages sc) in
            Ok (RampingArrivalRate (per_second (default f64_zero (start_rate sc))) st pre m)
    | KPerVuIterations =>
        let? v := ok_or (vus sc) "`per-vu-iterations` requires `vus`" in
        let? n := ok_or (iterations sc) "`per-vu-iterations` requires `iterations`" in
        if Z.eqb v 0 || Z.eqb n 0 then Err "`vus` and `iterations` must be at least 1"
        else Ok (PerVuIterations v n (default default_max_duration (max_duration sc)))
    | KSharedIterations =>
        let? v := ok_or (vus sc) "`shared-iterations` requires `vus`" in
        let? n := ok_or (iterations sc) "`shared-iterations` requires `iterations`" in
        if Z.eqb v 0 || Z.eqb n 0 then Err "`vus` and `iterations` must be at least 1"
        else Ok (SharedIterations v n (default default_max_duration (max_duration sc)))
    | KExternallyControlled =>
        let? m := ok_or (max_vus sc) "`externally-controlled` requires `max_vus`" in
        if Z.eqb m 0 then Err "`max_vus` must be at least 1"
        else Ok (ExternallyControlled m (duration sc))
    end.
End Spec.

(** ** Schedules *)

Section Schedules.

(** The stage loop shared by [vus_at] and [rate_at]: the value interpolated in the
    stage that contains [t], [None] past the last one. *)
Fixpoint stage_at {A : Type} (value : A -> f64) (from : f64) (offset : Duration)
    (stages : list (Duration * A)) (t : Duration) : option f64 :=
  match stages with
  | [] => None
  | (len, target) :: rest =>
      let to := value target in
      if Z.ltb t (offset + len) then
        let progress := f64_div (as_secs_f64 (t - offset)) (f64_max (as_secs_f64 len) (f64_dec 1 9)) in
        Some (f64_add from (f64_mul (f64_sub to from) progress))
      else stage_at value to (offset + len) rest t
  end.

Definition vus_at (start_vus : Z) (stages : list (Duration * Z)) (t : Duration) : Z :=
  match stage_at f64_of_Z (f64_of_Z start_vus) 0 stages t with
  | Some v => f64_as_u64 (f64_round v)
  | None => from_option snd start_vus (last stages)
  end.

Inductive RateSchedule :=
| ConstantRate (rate : f64) (duration : Duration)
| RampingRate (start_rate : f64) (stages : list (Duration * f64)).

Definition total_duration (s : RateSchedule) : Duration :=
  match s with ConstantRate _ d => d | RampingRate _ st => total_of st end.

Definition rate_at (s : RateSchedule) (t : Duration) : f64 :=
  match s with
  | ConstantRate r _ => r
  | RampingRate start st =>
      match stage_at id start 0 st t with
      | Some r => r
      | None => from_option snd start (last st)
      end
  end.
End Schedules.

(** ** Partitions *)

Definition vu_capacity (spec : ExecutorSpec) : Z :=
  match spec with
  | ConstantVus v _ | PerVuIterations v _ _ | SharedIterations v _ _ => v
  | RampingVus start st => foldl Z.max start (snd <$> st)
  | ConstantArrivalRate _ _ pre m | RampingArrivalRate _ _ pre m => Z.max pre m
  | ExternallyControlled m _ => m
  end.

(** The closures of [partition_spec]. *)
Definition split (count index n : Z) : Z :=
  u64_add (n / count) (u64_from_bool (Z.ltb index (n `mod` count))).
Definition split_min1 (count index n : Z) : Z :=
  Z.max (split count index n) (u64_from_bool (Z.ltb 0 n)).
Definition frac (count : Z) (r : f64) : f64 := f64_div r (f64_of_Z count).

Definition partition_part (spec : ExecutorSpec) (index count : Z) : ExecutorSpec :=
  let split := split count index in
  let split_min1 := split_min1 count index in
  let frac := frac count in
  match spec with
  | ConstantVus v d => ConstantVus (split v) d
  | RampingVus start st => RampingVus (split start) ((fun s => (s.1, split s.2)) <$> st)
  | ConstantArrivalRate r d pre m => ConstantArrivalRate (frac r) d (split_min1 pre) (split_min1 m)
  | RampingArrivalRate r st pre m =>
      RampingArrivalRate (frac r) ((fun s => (s.1, frac s.2)) <$> st) (split_min1 pre) (split_min1 m)
  | PerVuIterations v n d => PerVuIterations (split v) n d
  | SharedIterations v n d => SharedIterations (split_min1 v) (split n) d
  | ExternallyControlled m d => ExternallyControlled (split_min1 m) d
  end.

(** [assert!(count > 0 && index < count)] panics. *)
Definition partition_spec (spec : ExecutorSpec) (index count : Z) : may_panic ExecutorSpec :=
  if Z.ltb 0 count && Z.ltb index count then Some (partition_part spec index count) else None.

Record VuPlacement := mkVuPlacement {
  p_vus : Z;
  p_vu_offset : Z;
}.

Section Placement.
Context (format_f64 : f64 -> string).

(** One scenario of the loop of [vu_placement]. *)
Definition add_capacities (spec : ExecutorSpec) (count : Z) (shares : list Z) : list Z :=
  imap (fun i share => u64_add share (vu_capacity (partition_part spec (Z.of_nat i) count))) shares.

Fixpoint capacity_shares (scenarios : list (string * Scenario)) (count : Z) (shares : list Z) :
    result EngineError (list Z) :=
  match scenarios with
  | [] => Ok shares
  | (name, sc) :: rest =>
      let? spec := result_map_err (fun e => EngineConfig ("scenario `" +:+ name +:+ "`: " +:+ e))
                     (executor_spec format_f64 sc) in
      capacity_shares rest count (add_capacities spec count shares)
  end.

(** Indexing [shares] past its end panics. *)
Definition vu_placement (scenarios : list (string * Scenario)) (partition : option (Z * Z)) :
    may_panic (result EngineError VuPlacement) :=
  let '(index, count) := default (0, 1) partition in
  match capacity_shares scenarios count (replicate (Z.to_nat count) 0) with
  | Err e => Some (Err e)
  | Ok shares =>
      match shares !! Z.to_nat index with
      | Some v => Some (Ok (mkVuPlacement v (foldl u64_add 0 (take (Z.to_nat index) shares))))
      | None => None
      end
  end.
End Placement.

(** The unit tests of executor.rs. *)
Example vus_interpolation :
  let stages := [(Duration_from_secs 10, 10); (Duration_from_secs 10, 10); (Duration_from_secs 10, 0)] in
  (fun s => vus_at 0 stages (Duration_from_secs s)) <$> [0; 5; 10; 15; 25; 40] = [0; 5; 10; 10; 5; 0].
Proof. vm_compute. reflexivity. Qed.

(** ** Properties of partitions *)

(** The virtual-user targets a partition splits exactly. *)
Definition vu_targets (spec : ExecutorSpec) : list Z :=
  match spec with
  | ConstantVus v _ | PerVuIterations v _ _ => [v]
  | RampingVus start st => start :: (snd <$> st)
  | _ => []
  end.

(** The pools every part keeps at least one virtual user of. *)
Definition pools (spec : ExecutorSpec) : list Z :=
  match spec with
  | ConstantArrivalRate _ _ pre m | RampingArrivalRate _ _ pre m => [pre; m]
  | SharedIterations v _ _ => [v]
  | ExternallyControlled m _ => [m]
  | _ => []
  end.

Definition shared_iterations (spec : ExecutorSpec) : Z :=
  match spec with SharedIterations _ n _ => n | _ => 0 end.

Definition counts_fit (spec : ExecutorSpec) : Prop :=
  Forall is_u64 (vu_targets spec) /\ Forall is_u64 (pools spec) /\ is_u64 (shared_iterations spec).

Definition parts (spec : ExecutorSpec) (count : Z) : list ExecutorSpec :=
  (fun i => partition_part spec i count) <$> seqZ 0 count.

Lemma vu_targets_part (spec : ExecutorSpec) (i count : Z) :
  vu_targets (partition_part spec i count) = split count i <$> vu_targets spec.
Proof. destruct spec; try done. simpl. f_equal. by rewrite <- !list_fmap_compose. Qed.

Lemma pools_part (spec : ExecutorSpec) (i count : Z) :
  pools (partition_part spec i count) = split_min1 count i <$> pools spec.
Proof. by destruct spec. Qed.

Lemma partition_spec_part (spec : ExecutorSpec) (count : Z) :
  mapM (fun i => partition_spec spec i count) (seqZ 0 count) = Some (parts spec count).
Proof.
  apply mapM_Some_2. unfold parts. rewrite Forall2_fmap_r. apply Forall2_same_length_lookup_2; [done|].
  intros k x y Hx Hy. simplify_eq. apply lookup_seqZ in Hx as [-> Hk].
  unfold partition_spec. by rewrite !(proj2 (Z.ltb_lt _ _)) by lia.
Qed.

Lemma Zsum_parts (f : ExecutorSpec -> Z) (n count : Z) (spec : ExecutorSpec) :
  0 < count -> is_u64 n ->
  (forall i, 0 <= i < count -> f (partition_part spec i count) = split count i n) ->
  Zsum (f <$> parts spec count) = n.
Proof.
  intros Hc Hn Hf. unfold parts. rewrite <- list_fmap_compose. rewrite <- (Zsum_even_shares n count) by done.
  f_equal. apply list_fmap_ext. intros k x Hx%lookup_seqZ. destruct Hx as [-> Hk]. apply Hf. lia.
Qed.

Lemma split_min1_bounds (count i n : Z) :
  0 < count -> is_u64 n -> 0 <= i -> split_min1 count i n <= n /\ (0 < n -> 0 < split_min1 count i n).
Proof.
  intros Hc Hn Hi. pose proof (even_share_small n count i Hc Hn Hi) as Hs.
  change (even_share n count i) with (split count i n) in Hs. unfold split_min1. rewrite Hs.
  pose proof (Z.div_mod n count ltac:(lia)). pose proof (Z.mod_pos_bound n count Hc).
  unfold is_u64 in Hn. assert (0 <= n / count) by (apply Z.div_pos; lia).
  unfold u64_from_bool. destruct (Z.ltb_spec i (n `mod` count)), (Z.ltb_spec 0 n); nia.
Qed.

(** The arrival rates of a specification. *)
Definition rates (spec : ExecutorSpec) : list f64 :=
  match spec with
  | ConstantArrivalRate r _ _ _ => [r]
  | RampingArrivalRate r st _ _ => r :: (snd <$> st)
  | _ => []
  end.
(** How many iterations each virtual user runs. *)
Definition iterations_each (spec : ExecutorSpec) : option Z := match spec with PerVuIterations _ n _ => Some n | _ => None end.
(** The stages, and the length of an executor without any. *)
Definition lengths (spec : ExecutorSpec) : list (option Duration) :=
  match spec with
  | ConstantVus _ d | ConstantArrivalRate _ d _ _ | PerVuIterations _ _ d | SharedIterations _ _ d => [Some d]
  | RampingVus _ st => (fun s => Some s.1) <$> st
  | RampingArrivalRate _ st _ _ => (fun s => Some s.1) <$> st
  | ExternallyControlled _ d => [d]
  end.

Lemma rates_part (spec : ExecutorSpec) (i count : Z) : rates (partition_part spec i count) = frac count <$> rates spec.
Proof. destruct spec; try done. simpl. f_equal. by rewrite <- !list_fmap_compose. Qed.

Lemma Zsum_constant {A} (f : A -> Z) (c : Z) (l : list A) : (forall x, x ∈ l -> f x = c) -> Zsum (f <$> l) = Z.of_nat (length l) * c.
Proof.
  induction l as [|x l IH]; intros Hf; [done|]. rewrite fmap_cons, Zsum_cons, IH by (intros y Hy; apply Hf; by right).
  rewrite (Hf x) by by left. cbn [length]. lia.
Qed.

(** The shares of a rate add up to it within one part in 2^53. *)
Lemma rates_add_up (spec : ExecutorSpec) (count : Z) (k : nat) (r : f64) :
  0 < count < 2 ^ 53 -> rates spec !! k = Some r -> ample r \/ r = f64_zero ->
  2 ^ 53 * Z.abs (Zsum ((fun p => f64_units (default f64_zero (rates p !! k))) <$> parts spec count) - f64_units r) <= f64_units r.
Proof.
  intros Hc Hk Hr. rewrite (Zsum_constant _ (f64_units (f64_div r (f64_of_Z count)))).
  - unfold parts. rewrite length_fmap, length_seqZ, Z2Nat.id by lia. destruct Hr as [Hr| ->]; [by apply f64_div_whole|].
    destruct (f64_of_Z_exact count Hc) as (m & j & -> & _). cbn. lia.
  - intros p (i & -> & _)%list_elem_of_fmap. by rewrite rates_part, list_lookup_fmap, Hk.
Qed.

(** C33: a fleet runs the load of the plan, for counts that are machine integers.  Every agent of a fleet of [count] gets a part.
    The virtual-user targets of the parts, stage by stage, and their shares of a common iteration budget add up to the plan's
    exactly; their arrival rates, stage by stage, add up to the plan's within one part in 2^53, which is the rounding of a
    double (for fewer than 2^53 agents, and a rate that is zero or neither below 2^-940 nor above 2^950); and each part keeps the
    executor, the length of each stage, the iterations of each virtual user, and pools that are never empty where the plan's
    are not, never larger than the plan's, and together at least as large. *)
Theorem partition_exact (spec : ExecutorSpec) (count : Z) :
  0 < count -> counts_fit spec ->
  mapM (fun i => partition_spec spec i count) (seqZ 0 count) = Some (parts spec count)
  /\ (forall k v, vu_targets spec !! k = Some v ->
        Zsum ((fun p => default 0 (vu_targets p !! k)) <$> parts spec count) = v)
  /\ Zsum (shared_iterations <$> parts spec count) = shared_iterations spec
  /\ (forall k r, count < 2 ^ 53 -> rates spec !! k = Some r -> ample r \/ r = f64_zero ->
        2 ^ 53 * Z.abs (Zsum ((fun p => f64_units (default f64_zero (rates p !! k))) <$> parts spec count) - f64_units r)
        <= f64_units r)
  /\ (forall k v, pools spec !! k = Some v ->
        v <= Zsum ((fun p => default 0 (pools p !! k)) <$> parts spec count))
  /\ (forall p, p ∈ parts spec count ->
        executor_name p = executor_name spec /\ lengths p = lengths spec /\ scheduled_duration p = scheduled_duration spec
        /\ iterations_each p = iterations_each spec
        /\ length (vu_targets p) = length (vu_targets spec) /\ length (rates p) = length (rates spec)
        /\ Forall2 (fun whole part => part <= whole /\ (0 < whole -> 0 < part)) (pools spec) (pools p)).
Proof.
  intros Hc (Hv & Hp & Hs). split_and!.
  - apply partition_spec_part.
  - intros k v Hk. apply Zsum_parts; [done|by apply (Forall_lookup_1 _ _ _ _ Hv Hk)|].
    intros i Hi. by rewrite vu_targets_part, list_lookup_fmap, Hk.
  - apply Zsum_parts; [done..|]. intros i Hi. destruct spec; try done; simpl; unfold split.
    all: rewrite Z.div_0_l, Z.mod_0_l, (proj2 (Z.ltb_ge i 0)) by lia; reflexivity.
  - intros k r Hc53. by apply rates_add_up.
  - intros k v Hk. rewrite <- (Zsum_even_shares v count) at 1 by (done || by eapply Forall_lookup_1).
    unfold parts. rewrite <- list_fmap_compose. apply Zsum_fmap_le, Forall_forall. intros i Hi. simpl.
    rewrite pools_part, list_lookup_fmap, Hk. simpl. unfold split_min1, split, even_share. lia.
  - intros p (i & -> & Hi%elem_of_seqZ)%list_elem_of_fmap. split_and!; [by destruct spec|..].
    + destruct spec; try done; simpl; by rewrite <- !list_fmap_compose.
    + destruct spec; try done; simpl; unfold total_of; do 2 f_equal; by rewrite <- !list_fmap_compose.
    + by destruct spec.
    + by rewrite vu_targets_part, length_fmap.
    + by rewrite rates_part, length_fmap.
    + rewrite pools_part, Forall2_fmap_r. apply Forall_Forall2_diag, (Forall_impl _ _ _ Hp).
      intros n Hn. by apply split_min1_bounds; [..|lia].
Qed.

(** Three agents share 100 arrivals a second, and each runs its virtual users' iterations in full. *)
Lemma partition_exact_witness :
  Zsum ((fun p => default 0 (vu_targets p !! 1%nat)) <$> parts (RampingVus 1 [(5, 10)]) 3) = 10
  /\ 2 ^ 53 * Z.abs (Zsum ((fun p => f64_units (default f64_zero (rates p !! 0%nat))) <$> parts (ConstantArrivalRate (f64_of_Z 100) 5 4 9) 3)
                      - f64_units (f64_of_Z 100)) <= f64_units (f64_of_Z 100)
  /\ (iterations_each <$> parts (PerVuIterations 5 7 60) 2) = [Some 7; Some 7].
Proof.
  split; [|split].
  - refine (proj1 (proj2 (partition_exact (RampingVus 1 [(5, 10)]) 3 ltac:(lia) _)) 1%nat 10 eq_refl).
    split_and!; simpl; repeat constructor; vm_compute; congruence.
  - refine (proj1 (proj2 (proj2 (proj2 (partition_exact (ConstantArrivalRate (f64_of_Z 100) 5 4 9) 3 ltac:(lia) _))))
              0%nat (f64_of_Z 100) ltac:(lia) eq_refl _).
    + split_and!; simpl; repeat constructor; vm_compute; congruence.
    + left. exists 7036874417766400%positive, (-46). split; [vm_compute; reflexivity|lia].
  - reflexivity.
Defined.

(** ** Properties of placements *)

Section PlacementProperties.
Context (format_f64 : f64 -> string).

(** The ids the agent at [i] can take over all scenarios. *)
Definition agent_capacity (specs : list ExecutorSpec) (count i : Z) : Z :=
  Zsum ((fun s => vu_capacity (partition_part s i count)) <$> specs).

Definition fleet_capacity (specs : list ExecutorSpec) (count : Z) : Z :=
  Zsum (agent_capacity specs count <$> seqZ 0 count).

Lemma Zsum_lookup_le (l : list Z) (k : nat) (x : Z) :
  Forall (fun y => 0 <= y) l -> l !! k = Some x -> Zsum (take k l) + x <= Zsum l /\ 0 <= x /\ 0 <= Zsum (take k l).
Proof.
  revert k. induction l as [|y l IH]; intros k Hl Hk; [done|]. apply Forall_cons in Hl as [Hy Hl].
  destruct k as [|k]; simpl in Hk |- *; rewrite !Zsum_cons.
  - injection Hk as ->. pose proof (Zsum_nonneg _ Hl). change (Zsum []) with 0. lia.
  - specialize (IH k Hl Hk). lia.
Qed.

Lemma vu_capacity_part_nonneg (s : ExecutorSpec) (i count : Z) : 0 <= vu_capacity (partition_part s i count).
Proof.
  assert (forall l a, 0 <= a -> 0 <= foldl Z.max a l) as Hf.
  { induction l as [|x l IH]; simpl; [done|]. intros a Ha. apply IH. lia. }
  assert (forall n, 0 <= split count i n) as Hs by (intros; unfold split, u64_add; apply u64_wrap_range).
  assert (forall n, 0 <= split_min1 count i n) as Hm by (intros n; unfold split_min1; specialize (Hs n); lia).
  destruct s; simpl; auto; specialize (Hm max_vus0); lia.
Qed.

Lemma add_capacities_lookup (spec : ExecutorSpec) (count : Z) (shares : list Z) (k : nat) :
  add_capacities spec count shares !! k
  = (fun share => u64_add share (vu_capacity (partition_part spec (Z.of_nat k) count))) <$> shares !! k.
Proof. apply list_lookup_imap. Qed.

Lemma capacity_shares_spec (scenarios : list (string * Scenario)) (specs : list ExecutorSpec)
    (count : Z) (shares : list Z) :
  Forall2 (fun sc spec => executor_spec format_f64 sc.2 = Ok spec) scenarios specs ->
  (forall k x, shares !! k = Some x ->
     0 <= x /\ is_u64 (x + agent_capacity specs count (Z.of_nat k))) ->
  exists shares', capacity_shares format_f64 scenarios count shares = Ok shares'
    /\ length shares' = length shares
    /\ forall k x, shares !! k = Some x -> shares' !! k = Some (x + agent_capacity specs count (Z.of_nat k)).
Proof.
  intros Hall. revert shares. induction Hall as [|[n sc] spec scenarios specs Hsc _ IH]; intros shares Hfit; simpl.
  - exists shares. split_and!; [done..|]. intros k x Hk. rewrite Hk. f_equal. unfold agent_capacity. simpl.
    change (Zsum []) with 0. lia.
  - simpl in Hsc. rewrite Hsc. simpl.
    assert (forall k, agent_capacity (spec :: specs) count (Z.of_nat k)
              = vu_capacity (partition_part spec (Z.of_nat k) count) + agent_capacity specs count (Z.of_nat k)) as Hcap
      by done.
    assert (forall k, 0 <= agent_capacity specs count k) as Hnn.
    { intros k. apply Zsum_nonneg, Forall_fmap, Forall_forall. intros s _. apply vu_capacity_part_nonneg. }
    assert (forall k x, shares !! k = Some x ->
              add_capacities spec count shares !! k
              = Some (x + vu_capacity (partition_part spec (Z.of_nat k) count))) as Hadd.
    { intros k x Hk. rewrite add_capacities_lookup, Hk. simpl. f_equal. apply u64_add_small.
      destruct (Hfit k x Hk) as [? Hf]. rewrite Hcap in Hf. specialize (Hnn (Z.of_nat k)).
      pose proof (vu_capacity_part_nonneg spec (Z.of_nat k) count). unfold is_u64 in *. lia. }
    destruct (IH (add_capacities spec count shares)) as (shares' & Hs & Hlen & Hsh).
    + intros k y Hk. assert (is_Some (shares !! k)) as [x Hx].
      { apply lookup_lt_is_Some. apply lookup_lt_Some in Hk. unfold add_capacities in Hk. by rewrite length_imap in Hk. }
      rewrite (Hadd k x Hx) in Hk. injection Hk as <-. destruct (Hfit k x Hx) as [? Hf]. rewrite Hcap in Hf.
      pose proof (vu_capacity_part_nonneg spec (Z.of_nat k) count). split; [lia|]. by rewrite <- Z.add_assoc.
    + exists shares'. split_and!; [done|rewrite Hlen; apply length_imap|].
      intros k x Hk. rewrite (Hsh k _ (Hadd k x Hk)), Hcap. f_equal. lia.
Qed.

Lemma foldl_u64_add (l : list Z) (acc : Z) :
  Forall (fun x => 0 <= x) l -> 0 <= acc -> is_u64 (acc + Zsum l) -> foldl u64_add acc l = acc + Zsum l.
Proof.
  intros Hl. revert acc. induction Hl as [|x l Hx Hl IH]; intros acc Ha Hf; simpl.
  - change (Zsum []) with 0. lia.
  - rewrite Zsum_cons in *. pose proof (Zsum_nonneg _ Hl). unfold is_u64 in *.
    rewrite u64_add_small by (unfold is_u64; lia). rewrite IH; lia.
Qed.

(** Where an agent stands: its capacity after those of the agents before it. *)
Lemma vu_placement_spec (scenarios : list (string * Scenario)) (specs : list ExecutorSpec) (count i : Z) :
  Forall2 (fun sc spec => executor_spec format_f64 sc.2 = Ok spec) scenarios specs ->
  fleet_capacity specs count < u64_modulus -> 0 <= i < count ->
  vu_placement format_f64 scenarios (Some (i, count))
  = Some (Ok (mkVuPlacement (agent_capacity specs count i)
                (Zsum (agent_capacity specs count <$> seqZ 0 i)))).
Proof.
  intros Hall Hfit Hi.
  assert (forall k, 0 <= agent_capacity specs count k) as Hnn.
  { intros k. apply Zsum_nonneg, Forall_fmap, Forall_forall. intros s _. apply vu_capacity_part_nonneg. }
  assert (Forall (fun y => 0 <= y) (agent_capacity specs count <$> seqZ 0 count)) as Hall0.
  { apply Forall_fmap, Forall_forall. intros k _. apply Hnn. }
  assert (forall k, (k < Z.to_nat count)%nat ->
    (agent_capacity specs count <$> seqZ 0 count) !! k = Some (agent_capacity specs count (Z.of_nat k))) as Hlk.
  { intros k Hk. rewrite list_lookup_fmap, (proj2 (lookup_seqZ 0 count k (Z.of_nat k))) by lia. done. }
  destruct (capacity_shares_spec scenarios specs count (replicate (Z.to_nat count) 0) Hall) as (sh & Hs & Hlen & Hsh).
  { intros k x [-> Hk]%lookup_replicate. split; [done|].
    destruct (Zsum_lookup_le _ k _ Hall0 (Hlk k Hk)) as (H1 & H2 & H3).
    unfold fleet_capacity, is_u64 in *. lia. }
  rewrite length_replicate in Hlen.
  assert (sh = agent_capacity specs count <$> seqZ 0 count) as ->.
  { apply list_eq. intros k. destruct (decide (k < Z.to_nat count)%nat) as [Hk|Hk].
    - rewrite (Hsh k 0), Hlk by (done || by apply lookup_replicate_2). f_equal; lia.
    - rewrite !lookup_ge_None_2; [done| |lia]. rewrite length_fmap, length_seqZ. lia. }
  unfold vu_placement. simpl. rewrite Hs, Hlk by lia. rewrite Z2Nat.id by lia. do 3 f_equal.
  rewrite <- fmap_take. replace (take (Z.to_nat i) (seqZ 0 count)) with (seqZ 0 i).
  2:{ replace count with (i + (count - i)) by lia. rewrite seqZ_app by lia.
      rewrite take_app_length'; [done|]. rewrite length_seqZ. done. }
  apply (foldl_u64_add _ 0); [|done|].
  - apply Forall_fmap, Forall_forall. intros k _. apply Hnn.
  - unfold fleet_capacity in Hfit. replace count with (i + (count - i)) in Hfit at 2 by lia.
    rewrite seqZ_app, fmap_app, Zsum_app in Hfit by lia. unfold is_u64.
    assert (0 <= Zsum (agent_capacity specs count <$> seqZ (0 + i) (count - i))).
    { apply Zsum_nonneg, Forall_fmap, Forall_forall. intros k _. apply Hnn. }
    assert (0 <= Zsum (agent_capacity specs count <$> seqZ 0 i)).
    { apply Zsum_nonneg, Forall_fmap, Forall_forall. intros k _. apply Hnn. }
    lia.
Qed.

Lemma seqZ_one (m : Z) : seqZ m 1 = [m].
Proof. unfold seqZ. simpl. f_equal. Qed.

Lemma Zsum_one (f : Z -> Z) (m : Z) : Zsum (f <$> [m]) = f m.
Proof. rewrite fmap_cons, Zsum_cons. apply Z.add_0_r. Qed.

(** virtual users are numbered without collision across a fleet.  Every agent finds
    its placement alone, from the plan and its position; it holds all the ids its
    executors can take; the next agent's block begins where its own ends; and no global
    number [vu_offset + vu] is shared by two agents. *)
Theorem vu_ids_unique (scenarios : list (string * Scenario)) (specs : list ExecutorSpec) (count : Z) :
  Forall2 (fun sc spec => executor_spec format_f64 sc.2 = Ok spec) scenarios specs ->
  fleet_capacity specs count < u64_modulus ->
  forall i, 0 <= i < count ->
  exists p, vu_placement format_f64 scenarios (Some (i, count)) = Some (Ok p)
    /\ p_vus p = Zsum (vu_capacity <$> ((fun s => partition_part s i count) <$> specs))
    /\ (forall j q, 0 <= j < count -> vu_placement format_f64 scenarios (Some (j, count)) = Some (Ok q) ->
          (j = i + 1 -> p_vu_offset q = p_vu_offset p + p_vus p)
          /\ (j <> i -> forall v w, 1 <= v <= p_vus p -> 1 <= w <= p_vus q ->
              p_vu_offset p + v <> p_vu_offset q + w)).
Proof.
  intros Hall Hfit i Hi. eexists. split; [by apply vu_placement_spec|]. simpl. split.
  { unfold agent_capacity. by rewrite <- list_fmap_compose. }
  assert (forall a b, 0 <= a < b -> Zsum (agent_capacity specs count <$> seqZ 0 a) + agent_capacity specs count a
            <= Zsum (agent_capacity specs count <$> seqZ 0 b)) as Hmono.
  { intros a b Hab. replace b with (a + (1 + (b - a - 1))) by lia. rewrite !seqZ_app, !fmap_app, !Zsum_app by lia.
    rewrite (Z.add_0_l a), seqZ_one, Zsum_one.
    assert (0 <= Zsum (agent_capacity specs count <$> seqZ (a + 1) (b - a - 1))); [|lia].
    apply Zsum_nonneg, Forall_fmap, Forall_forall. intros k _.
    apply Zsum_nonneg, Forall_fmap, Forall_forall. intros s _. apply vu_capacity_part_nonneg. }
  intros j q Hj Hq. rewrite (vu_placement_spec _ specs) in Hq by done. injection Hq as <-. simpl. split.
  - intros ->. rewrite (seqZ_app 0 i 1), fmap_app, Zsum_app by lia.
    by rewrite (Z.add_0_l i), seqZ_one, Zsum_one.
  - intros Hne v w Hv Hw. destruct (Z.lt_total i j) as [Hlt|[->|Hlt]]; [|done|].
    + specialize (Hmono i j). lia.
    + specialize (Hmono j i). lia.
Qed.
End PlacementProperties.

Definition sample_scenarios : list (string * Scenario) :=
  [("a", mkScenario KConstantVus (Some 10) (Some 1) None None [] None None None None None None None None None);
   ("b", mkScenario KRampingVus None None None (Some 0) [mkStage 1 (f64_of_Z 5)] None None None None None None None None None)].

Lemma vu_ids_unique_witness :
  exists p, vu_placement (fun _ => "") sample_scenarios (Some (1, 3)) = Some (Ok p) /\ p_vus p = 5.
Proof.
  destruct (vu_ids_unique (fun _ => "") sample_scenarios [ConstantVus 10 1; RampingVus 0 [(1, 5)]] 3
              ltac:(repeat constructor) ltac:(vm_compute; reflexivity) 1 ltac:(lia)) as (p & Hp & Hv & _).
  exists p. split; [done|]. rewrite Hv. vm_compute. reflexivity.
Defined.
