(* ===== verification/Cookies.v ===== *)
(** * Cookies (crates/loadr-core/src/cookies.rs)

    The jar of one virtual user.  [url::Url] and [cookie::Cookie::parse] are seen through
    what the jar reads of them; the clock is an argument. *)

From Stdlib Require Import Ascii.
From S2P Require Import Prelude Float64 Str.

(** What the jar reads of a parsed URL. *)
Record Url := mkUrl {
  url_scheme_part : string;
  url_host : option string;
  url_path : string;
}.

(** What it reads of a parsed [Set-Cookie]; instants in nanoseconds. *)
Record ParsedCookie := mkParsedCookie {
  pc_name : string;
  pc_value : string;
  pc_domain : option string;
  pc_path : option string;
  pc_secure : option bool;
  pc_expires : option Z;
  pc_max_age : option Z;
}.

Record StoredCookie := mkStoredCookie {
  sc_name : string;
  sc_value : string;
  sc_domain : string;
  sc_domain_wide : bool;
  sc_path : string;
  sc_secure : bool;
  sc_expires : option Z;
}.

Record CookieJar := mkCookieJar {
  cookies : list StoredCookie;
  auto : bool;
}.

Definition CookieJar_new (auto : bool) : CookieJar := mkCookieJar [] auto.

Definition domain_matches (request_host cookie_domain : string) (domain_wide : bool) : bool :=
  if bool_decide (request_host = cookie_domain) then true
  else if negb domain_wide then false
  else match strip_suffix request_host cookie_domain with
       | Some prefix => ends_with prefix "."
       | None => false
       end.

Definition path_matches (request_path cookie_path : string) : bool :=
  if bool_decide (request_path = cookie_path) then true
  else match strip_prefix request_path cookie_path with
       | Some rest => ends_with cookie_path "/" || starts_with rest "/"
       | None => false
       end.

Definition default_path (u : Url) : string :=
  match str_rfind (url_path u) "/" with
  | Some O | None => "/"
  | Some idx => slice_to (url_path u) idx
  end.

(** [trim_start_matches('.')]. *)
Fixpoint trim_dots (s : list ascii) : list ascii :=
  match s with
  | "."%char :: s => trim_dots s
  | _ => s
  end.

Definition host_of (u : Url) : string := to_ascii_lowercase (default "" (url_host u)).
Definition path_of (u : Url) : string := if str_is_empty (url_path u) then "/" else url_path u.
Definition is_https (u : Url) : bool :=
  bool_decide (url_scheme_part u = "https") || bool_decide (url_scheme_part u = "wss").

(** The [retain] of a store: the cookie a new one replaces. *)
Definition same_slot (name domain path : string) (c : StoredCookie) : bool :=
  bool_decide (sc_name c = name) && bool_decide (sc_domain c = domain) && bool_decide (sc_path c = path).
Definition retain (p : StoredCookie -> bool) (jar : CookieJar) : CookieJar :=
  mkCookieJar (filter (fun c => p c = true) (cookies jar)) (auto jar).
Definition jar_push (c : StoredCookie) (jar : CookieJar) : CookieJar := mkCookieJar (cookies jar ++ [c]) (auto jar).

Section Store.
(** [Cookie::parse]. *)
Context (cookie_parse : string -> option ParsedCookie).

(** Where a cookie of [u] goes: its domain and whether subdomains match, or a refusal. *)
Definition cookie_domain (u : Url) (c : ParsedCookie) : option (string * bool) :=
  match pc_domain c with
  | Some d =>
      let d := to_ascii_lowercase (of_chars (trim_dots (chars d))) in
      if domain_matches (host_of u) d true then Some (d, true) else None
  | None => Some (host_of u, false)
  end.

Definition cookie_expires (now : Z) (c : ParsedCookie) : option Z :=
  match pc_expires c with
  | Some at_ => Some at_
  | None => match pc_max_age c with
            | Some ma => if Z.leb 0 ma then Some (now + ma) else None
            | None => None
            end
  end.

Definition store_from_header (u : Url) (header_value : string) (now : Z) (jar : CookieJar) : CookieJar :=
  match cookie_parse header_value with
  | None => jar
  | Some parsed =>
      match cookie_domain u parsed with
      | None => jar
      | Some (domain, domain_wide) =>
          let path := default (default_path u) (pc_path parsed) in
          let expires := cookie_expires now parsed in
          let expired := match expires with Some e => Z.leb e now | None => false end in
          let jar := retain (fun c => negb (same_slot (pc_name parsed) domain path c)) jar in
          if expired then jar
          else jar_push (mkStoredCookie (pc_name parsed) (pc_value parsed) domain domain_wide path
                           (default false (pc_secure parsed)) expires) jar
      end
  end.
End Store.

Definition unexpired (now : Z) (c : StoredCookie) : bool :=
  match sc_expires c with Some e => Z.ltb now e | None => true end.

Definition sendable (u : Url) (c : StoredCookie) : bool :=
  domain_matches (host_of u) (sc_domain c) (sc_domain_wide c)
  && path_matches (path_of u) (sc_path c)
  && negb (sc_secure c && negb (is_https u)).

Definition header_for (u : Url) (now : Z) (jar : CookieJar) : CookieJar * option string :=
  let jar := retain (unexpired now) jar in
  let pairs := (fun c => sc_name c +:+ "=" +:+ sc_value c) <$> filter (fun c => sendable u c = true) (cookies jar) in
  (jar, match pairs with [] => None | _ => Some (join "; " pairs) end).

Definition jar_set (u : Url) (name value : string) (jar : CookieJar) : CookieJar :=
  let domain := host_of u in
  jar_push (mkStoredCookie name value domain false "/" false None)
    (retain (fun c => negb (same_slot name domain "/" c)) jar).

Definition jar_get (u : Url) (name : string) (jar : CookieJar) : option string :=
  sc_value <$> find (fun c => bool_decide (sc_name c = name)
                              && domain_matches (host_of u) (sc_domain c) (sc_domain_wide c)
                              && path_matches (path_of u) (sc_path c)) (cookies jar).

Definition jar_clear (jar : CookieJar) : CookieJar := mkCookieJar [] (auto jar).

(** ** Confinement *)

Section Confinement.
Context (cookie_parse : string -> option ParsedCookie).

(** How a jar is used: each operation with the clock at its time. *)
Inductive JarOp :=
| JStore (u : Url) (header_value : string) (now : Z)
| JHeader (u : Url) (now : Z)
| JSet (u : Url) (name value : string)
| JClear.

Definition jar_op (op : JarOp) (jar : CookieJar) : CookieJar :=
  match op with
  | JStore u h now => store_from_header cookie_parse u h now jar
  | JHeader u now => (header_for u now jar).1
  | JSet u n v => jar_set u n v jar
  | JClear => jar_clear jar
  end.
Definition jar_run (ops : list JarOp) (jar : CookieJar) : CookieJar := foldl (fun j op => jar_op op j) jar ops.

(** Host [h] may set, and be sent, a cookie of this scope. *)
Definition in_scope (h domain : string) (domain_wide : bool) : Prop :=
  h = domain \/ domain_wide = true /\ exists p, h = p +:+ "." +:+ domain.

Definition op_host (op : JarOp) : option string :=
  match op with
  | JStore u _ _ | JSet u _ _ => Some (host_of u)
  | _ => None
  end.

(** Set by a host of its scope, alone in its slot. *)
Record jar_ok (ops : list JarOp) (jar : CookieJar) : Prop := mkJarOk {
  jar_origin c : c ∈ cookies jar ->
    exists op h, op ∈ ops /\ op_host op = Some h /\ in_scope h (sc_domain c) (sc_domain_wide c);
  jar_slots : NoDup ((fun c => (sc_name c, sc_domain c, sc_path c)) <$> cookies jar);
}.

Lemma domain_matches_scope (h d : string) (w : bool) : domain_matches h d w = true <-> in_scope h d w.
Proof.
  unfold domain_matches, in_scope. case_bool_decide as He; [naive_solver|]. destruct w; simpl.
  2:{ naive_solver. }
  destruct (strip_suffix h d) as [p|] eqn:Hs.
  - apply strip_suffix_Some in Hs as ->. rewrite ends_with_spec. split.
    + intros [q ->]. right. split; [done|]. exists q. by rewrite str_app_assoc.
    + intros [Hd|[_ [q Hq]]]; [done|]. exists q. rewrite <- str_app_assoc in Hq.
      apply (f_equal chars) in Hq. rewrite !chars_app in Hq. apply app_inv_tail in Hq.
      apply chars_inj. by rewrite chars_app.
  - split; [done|]. intros [|[_ [q ->]]]; [done|]. exfalso.
    assert (strip_suffix (q +:+ "." +:+ d) d = Some (q +:+ ".")) as Hc.
    { apply strip_suffix_Some. by rewrite str_app_assoc. }
    congruence.
Qed.

Lemma retain_ok ops p jar : jar_ok ops jar -> jar_ok ops (retain p jar).
Proof.
  intros [Ho Hs]. constructor; simpl.
  - intros c [_ Hc]%list_elem_of_filter. by apply Ho.
  - eapply sublist_NoDup; [exact Hs|]. apply fmap_sublist, sublist_filter.
Qed.

Lemma retain_slot name domain path jar c :
  c ∈ cookies (retain (fun c => negb (same_slot name domain path c)) jar) ->
  (sc_name c, sc_domain c, sc_path c) <> (name, domain, path).
Proof.
  simpl. intros [Hn _]%list_elem_of_filter. apply negb_true_iff in Hn. unfold same_slot in Hn.
  intros [= H1 H2 H3]. by rewrite !bool_decide_true in Hn by done.
Qed.

Lemma push_ok ops jar c op h :
  jar_ok ops jar -> op ∈ ops -> op_host op = Some h -> in_scope h (sc_domain c) (sc_domain_wide c) ->
  (forall c', c' ∈ cookies jar -> (sc_name c', sc_domain c', sc_path c') <> (sc_name c, sc_domain c, sc_path c)) ->
  jar_ok ops (jar_push c jar).
Proof.
  intros [Ho Hs] Hop Hh Hsc Hn. constructor; simpl.
  - intros c' [Hc| ->%list_elem_of_singleton]%elem_of_app; [by apply Ho|eauto].
  - rewrite fmap_app. apply NoDup_app. split; [done|]. split; [|apply NoDup_singleton].
    intros x (c1 & Hx1 & Hc1)%list_elem_of_fmap Hx2%list_elem_of_singleton. apply (Hn c1 Hc1). congruence.
Qed.

Lemma jar_ok_weaken ops op jar : jar_ok ops jar -> jar_ok (ops ++ [op]) jar.
Proof.
  intros [Ho Hs]. constructor; [|done]. intros c Hc. destruct (Ho c Hc) as (o & h & Hin & Hr).
  exists o, h. split; [|done]. apply elem_of_app. by left.
Qed.

Lemma jar_op_ok ops op jar : jar_ok ops jar -> jar_ok (ops ++ [op]) (jar_op op jar).
Proof.
  intros Hj. apply (jar_ok_weaken _ op) in Hj. assert (op ∈ ops ++ [op]) as Hin.
  { apply elem_of_app. right. by apply list_elem_of_singleton. }
  destruct op as [u hv now|u now|u n v|]; simpl.
  - unfold store_from_header. destruct (cookie_parse hv) as [parsed|]; [|done].
    unfold cookie_domain. destruct (pc_domain parsed) as [d|].
    + destruct (domain_matches _ _ _) eqn:Hd; [|done]. cbv zeta.
      destruct (match cookie_expires now parsed with Some e => _ | None => _ end); [by apply retain_ok|].
      eapply push_ok; [by apply retain_ok|exact Hin|done|by apply domain_matches_scope|].
      intros c. simpl. apply retain_slot.
    + cbv zeta. destruct (match cookie_expires now parsed with Some e => _ | None => _ end); [by apply retain_ok|].
      eapply push_ok; [by apply retain_ok|exact Hin|done|by left|]. intros c. simpl. apply retain_slot.
  - by apply retain_ok.
  - eapply push_ok; [by apply retain_ok|exact Hin|done|by left|]. intros c. simpl. apply retain_slot.
  - constructor; simpl; [by intros c ?%elem_of_nil|constructor].
Qed.

Lemma jar_run_snoc ops op jar : jar_run (ops ++ [op]) jar = jar_op op (jar_run ops jar).
Proof. unfold jar_run. by rewrite foldl_app. Qed.

Lemma jar_run_ok auto ops : jar_ok ops (jar_run ops (CookieJar_new auto)).
Proof.
  induction ops as [|op ops IH] using rev_ind.
  - constructor; simpl; [by intros c ?%elem_of_nil|constructor].
  - rewrite jar_run_snoc. by apply jar_op_ok.
Qed.

(** What RFC 6265 says of a request and a cookie, apart from the functions of the jar: the cookie's path is the request's, or a
    prefix of it that ends at a slash or that a slash follows. *)
Definition in_path (request cookie : string) : Prop :=
  request = cookie
  \/ exists rest, request = cookie +:+ rest /\ ((exists p, cookie = p +:+ "/") \/ (exists r, rest = "/" +:+ r)).
Definition applies (u : Url) (now : Z) (c : StoredCookie) : Prop :=
  in_scope (host_of u) (sc_domain c) (sc_domain_wide c)
  /\ in_path (path_of u) (sc_path c)
  /\ (sc_secure c = true -> url_scheme_part u = "https" \/ url_scheme_part u = "wss")
  /\ (forall e, sc_expires c = Some e -> now < e).

Lemma path_matches_in_path request cookie : path_matches request cookie = true <-> in_path request cookie.
Proof.
  unfold path_matches, in_path. case_bool_decide as He; [naive_solver|].
  destruct (strip_prefix request cookie) as [rest|] eqn:Hs.
  - apply strip_prefix_Some in Hs as ->. rewrite orb_true_iff, ends_with_spec, starts_with_spec. split.
    + intros Hr. right. by exists rest.
    + intros [?|(rest' & Hr & H)]; [done|]. assert (rest' = rest) as ->; [|done].
      apply chars_inj. apply (f_equal chars) in Hr. rewrite !chars_app in Hr. by apply app_inv_head in Hr.
  - split; [done|]. intros [?|(rest & -> & _)]; [done|]. exfalso.
    assert (strip_prefix (cookie +:+ rest) cookie = Some rest) as Hc by (by apply strip_prefix_Some). congruence.
Qed.

Lemma sendable_applies (u : Url) (now : Z) (c : StoredCookie) : sendable u c = true /\ unexpired now c = true <-> applies u now c.
Proof.
  unfold sendable, applies, unexpired, is_https. rewrite !andb_true_iff, domain_matches_scope, path_matches_in_path, negb_true_iff.
  assert (sc_secure c && negb (bool_decide (url_scheme_part u = "https") || bool_decide (url_scheme_part u = "wss")) = false
          <-> (sc_secure c = true -> url_scheme_part u = "https" \/ url_scheme_part u = "wss")) as ->.
  { destruct (sc_secure c); simpl; [|naive_solver]. rewrite negb_false_iff, orb_true_iff, !bool_decide_eq_true. naive_solver. }
  assert (match sc_expires c with Some e => now <? e | None => true end = true <-> (forall e, sc_expires c = Some e -> now < e)) as ->.
  { destruct (sc_expires c); [rewrite Z.ltb_lt|]; naive_solver. }
  naive_solver.
Qed.

(** The scope a [Set-Cookie] of [u] asks for. *)
Definition asked_scope (u : Url) (p : ParsedCookie) : string * bool :=
  match pc_domain p with
  | Some d => (to_ascii_lowercase (of_chars (trim_dots (chars d))), true)
  | None => (host_of u, false)
  end.

Lemma stored_is_there (u : Url) (hv : string) (now : Z) (p : ParsedCookie) (jar : CookieJar) :
  cookie_parse hv = Some p -> let '(d, w) := asked_scope u p in
  in_scope (host_of u) d w -> (forall e, cookie_expires now p = Some e -> now < e) ->
  mkStoredCookie (pc_name p) (pc_value p) d w (default (default_path u) (pc_path p)) (default false (pc_secure p)) (cookie_expires now p)
    ∈ cookies (store_from_header cookie_parse u hv now jar).
Proof.
  intros Hp. unfold asked_scope, store_from_header, cookie_domain. rewrite Hp.
  assert (forall e, (forall x, e = Some x -> now < x) -> match e with Some e => Z.leb e now | None => false end = false) as Hexp.
  { intros [e|] He; [|done]. apply Z.leb_gt. by apply He. }
  destruct (pc_domain p) as [d|]; intros Hin He.
  - rewrite (proj2 (domain_matches_scope _ _ _) Hin), Hexp by done. simpl. apply elem_of_app. right. by left.
  - rewrite Hexp by done. simpl. apply elem_of_app. right. by left.
Qed.

(** C31: cookies stay in their scope, and are not lost.  Whatever a virtual user's jar has been through, the header it builds
    for a URL has, in the order of the jar, exactly the cookies that apply: the host is of their scope, the path is under
    theirs, they have not expired, and [Secure] ones only go over a secure scheme; no two are of one slot of name, domain and path;
    each was set by a host of its scope.  And a response that sets a cookie, live and of a scope its host belongs
    to, puts it in the jar. *)
Theorem cookies_confined (on : bool) (ops : list JarOp) (u : Url) (now : Z) :
  let jar := jar_run ops (CookieJar_new on) in
  (exists sent : list StoredCookie,
     (header_for u now jar).2
     = match sent with [] => None | _ => Some (join "; " ((fun c => sc_name c +:+ "=" +:+ sc_value c) <$> sent)) end
     /\ sent `sublist_of` cookies jar
     /\ (forall c, c ∈ sent <-> c ∈ cookies jar /\ applies u now c)
     /\ NoDup ((fun c => (sc_name c, sc_domain c, sc_path c)) <$> sent)
     /\ forall c, c ∈ sent -> exists op h, op ∈ ops /\ op_host op = Some h /\ in_scope h (sc_domain c) (sc_domain_wide c))
  /\ forall hv p, cookie_parse hv = Some p -> let '(d, w) := asked_scope u p in
     in_scope (host_of u) d w -> (forall e, cookie_expires now p = Some e -> now < e) ->
     mkStoredCookie (pc_name p) (pc_value p) d w (default (default_path u) (pc_path p)) (default false (pc_secure p)) (cookie_expires now p)
       ∈ cookies (jar_run (ops ++ [JStore u hv now]) (CookieJar_new on)).
Proof.
  pose proof (jar_run_ok on ops) as [Ho Hs]. cbv zeta. split.
  - exists (filter (fun c => sendable u c = true) (filter (fun c => unexpired now c = true) (cookies (jar_run ops (CookieJar_new on))))).
    assert (forall c, c ∈ filter (fun c => sendable u c = true) (filter (fun c => unexpired now c = true) (cookies (jar_run ops (CookieJar_new on))))
                      <-> c ∈ cookies (jar_run ops (CookieJar_new on)) /\ applies u now c) as Hin.
    { intros c. rewrite !list_elem_of_filter, <- sendable_applies. naive_solver. }
    split; [|split; [etrans; apply sublist_filter|split; [exact Hin|split]]].
    + cbn [header_for snd retain cookies]. by destruct (filter _ (filter _ _)).
    + eapply sublist_NoDup; [exact Hs|]. apply fmap_sublist. etrans; apply sublist_filter.
    + intros c [Hc _]%Hin. by apply Ho.
  - intros hv p Hp. rewrite jar_run_snoc. by apply stored_is_there.
Qed.
End Confinement.

Example cookie_subdomain :
  domain_matches "api.example.com" "example.com" true = true
  /\ domain_matches "badexample.com" "example.com" true = false
  /\ domain_matches "api.example.com" "example.com" false = false.
Proof. repeat split; vm_compute; reflexivity. Qed.

Module CookiesDemo.
(** [name=value], for the whole domain, under a path. *)
Definition parse_pair (path : string) (header : string) : option ParsedCookie :=
  '(name, value) ← split_once header "="; Some (mkParsedCookie name value (Some ".example.com") (Some path) (Some true) None None).
Definition api : Url := mkUrl "https" (Some "api.example.com") "/v1/users".
Definition ops : list JarOp := [JStore api "sid=7" 0; JSet (mkUrl "http" (Some "other.org") "/") "x" "1"; JStore api "sid=8" 5].

Lemma cookies_confined_witness :
  (header_for api 9 (jar_run (parse_pair "/v1") ops (CookieJar_new true))).2 = Some "sid=8"
  /\ (header_for (mkUrl "https" (Some "api.example.com") "/v10") 9 (jar_run (parse_pair "/v1") ops (CookieJar_new true))).2 = None
  /\ exists sent, (header_for api 9 (jar_run (parse_pair "/v1") ops (CookieJar_new true))).2
       = match sent with [] => None | _ => Some (join "; " ((fun c => sc_name c +:+ "=" +:+ sc_value c) <$> sent)) end
       /\ forall c, c ∈ sent <-> c ∈ cookies (jar_run (parse_pair "/v1") ops (CookieJar_new true)) /\ applies api 9 c.
Proof.
  split; [vm_compute; reflexivity|]. split; [vm_compute; reflexivity|].
  destruct (cookies_confined (parse_pair "/v1") true ops api 9) as [(sent & Hh & _ & Hin & _) _]. exists sent. exact (conj Hh Hin).
Defined.
End CookiesDemo.
