(* ===== verification/Extract.v ===== *)
(** * Extraction and correlation (crates/loadr-core/src/extract.rs)

    Classic extractors and fused chains over a response: what is matched, which match is
    taken, coercion, the transform pipeline, inline checks.  The engines for regular
    expressions, JSONPath, JMESPath, XPath, CSS selectors and base64, the Unicode case
    tables and [Debug] formatting are parameters ([TextTools]).

    [boundary_matches] loops on fuel; [None] is a loop that has not ended. *)

From Stdlib Require Import Ascii.
From S2P Require Import Prelude Float64 Str Dur Value Template Protocol.

(** What an XPath evaluation yields. *)
Inductive XPathValue :=
| XNodeset (first : option string)
| XString (s : string)
| XNumber (n : f64)
| XBoolean (b : bool).

Class TextTools := {
  Regex : Type;
  regex_new : string -> result string Regex;
  regex_is_match : Regex -> string -> bool;
  regex_text : Regex -> string;
  (** [captures_iter], the group of each match. *)
  regex_captures : Regex -> nat -> string -> list (option string);
  JsonPath : Type;
  jsonpath_parse : string -> result string JsonPath;
  jsonpath_query : JsonPath -> Value -> list Value;
  Jmespath : Type;
  jmespath_compile : string -> result string Jmespath;
  (** [None]: the body is not JSON, the search fails or yields null. *)
  jmespath_search : Jmespath -> string -> option Value;
  Selector : Type;
  selector_parse : string -> result string Selector;
  (** The attribute, or the text, of every element selected. *)
  css_values : Selector -> option string -> string -> list string;
  xpath_run : string -> string -> result string XPathValue;
  base64_encode : string -> string;
  base64_decode : string -> result string string;
  (** [FromUtf8Error]. *)
  utf8_error : string -> string;
  str_to_lowercase : string -> string;
  str_to_uppercase : string -> string;
  f64_to_string : f64 -> string;
  fmt_debug : string -> string;
  fmt_debug_values : list Value -> string;
}.

(** ** The plan's description (crates/loadr-config/src/plan.rs) *)

Inductive MatchIndex := IdxFirst | IdxLast | IdxRandom | IdxAll.
Inductive FailureAction := ActContinue | ActAbortIteration | ActAbortScenario | ActAbortTest.
Inductive CoerceType := CoInt | CoFloat | CoBool | CoString.

#[export] Instance MatchIndex_eq_dec : EqDecision MatchIndex.
Proof. solve_decision. Defined.

Inductive Transform :=
| Trim
| Lowercase
| Uppercase
| UrlEncode
| UrlDecode
| Base64Encode
| Base64Decode
| Append (s : string)
| Prepend (s : string)
| Replace (args : list string)
| Substring (args : list Z).

Record ChainCheck := mkChainCheck {
  cc_equals : option Value;
  cc_matches : option string;
  cc_one_of : option (list Value);
  cc_min : option f64;
  cc_max : option f64;
  cc_not_empty : option bool;
  cc_on_failure : option FailureAction;
}.

Record ChainSpec := mkChainSpec {
  cs_name : string;
  cs_jmespath : option string;
  cs_jsonpath : option string;
  cs_regex : option string;
  cs_header : option string;
  cs_css : option string;
  cs_xpath : option string;
  cs_left : option string;
  cs_right : option string;
  cs_group : option nat;
  cs_attribute : option string;
  cs_index : option MatchIndex;
  cs_as_type : option CoerceType;
  cs_transform : list Transform;
  cs_default : option Value;
  cs_check : option ChainCheck;
}.

Inductive ClassicExtractor :=
| ExJsonpath (name expression : string) (default : option string) (index : option MatchIndex)
| ExRegex (name expression : string) (group : option nat) (default : option string) (index : option MatchIndex)
| ExXpath (name expression : string) (default : option string)
| ExCss (name expression : string) (attribute default : option string) (index : option MatchIndex)
| ExBoundary (name left right : string) (default : option string) (index : option MatchIndex)
| ExHeader (name header : string) (default : option string).

Inductive Extractor :=
| ExChain (c : ChainSpec)
| ExClassic (c : ClassicExtractor).

Inductive ExtractError :=
| Invalid (name message : string)
| NoMatch (name : string)
| CheckFailed (name detail : string) (on_failure : FailureAction).

(** ** Text *)

Definition hex_digit (n : N) : ascii := if N.ltb n 10 then byte_at (48 + n) else byte_at (55 + n).

Definition unreserved (c : ascii) : bool :=
  byte_range 65 90 c || byte_range 97 122 c || byte_range 48 57 c
  || existsb (Ascii.eqb c) ["-"; "_"; "."; "~"]%char.

Definition percent (c : ascii) : list ascii :=
  ["%"%char; hex_digit (N_of_ascii c / 16); hex_digit (N_of_ascii c mod 16)].

Definition url_encode (s : string) : string :=
  of_chars (concat ((fun c => if unreserved c then [c] else percent c) <$> chars s)).

(** [char::to_digit(16)]. *)
Definition to_digit16 (c : ascii) : option N :=
  if byte_range 48 57 c then Some (N_of_ascii c - 48)%N
  else if byte_range 97 102 c then Some (N_of_ascii c - 87)%N
  else if byte_range 65 70 c then Some (N_of_ascii c - 55)%N
  else None.

Fixpoint url_decode_l (s : list ascii) : list ascii :=
  match s with
  | [] => []
  | c :: s' =>
      if Ascii.eqb c "%" then
        match s' with
        | h :: l :: rest =>
            match to_digit16 h, to_digit16 l with
            | Some hi, Some lo => byte_at (hi * 16 + lo) :: url_decode_l rest
            | _, _ => c :: url_decode_l s'
            end
        | _ => c :: url_decode_l s'
        end
      else if Ascii.eqb c "+" then " "%char :: url_decode_l s'
      else c :: url_decode_l s'
  end.
Definition url_decode (s : string) : string := from_utf8_lossy (of_chars (url_decode_l (chars s))).

(** The characters of a text, each its bytes. *)
Fixpoint char_list (fuel : nat) (s : list ascii) : list (list ascii) :=
  match fuel, s with
  | S fuel, c :: _ => let n := utf8_len c in take n s :: char_list fuel (drop n s)
  | _, _ => []
  end.
Definition str_chars (s : string) : list (list ascii) := char_list (length (chars s)) (chars s).

(** [str::replace]. *)
Fixpoint replace_fuel (fuel : nat) (s from to_ : list ascii) : list ascii :=
  match fuel with
  | O => s
  | S fuel =>
      match find_l s from with
      | Some i => take i s ++ to_ ++ replace_fuel fuel (drop (i + length from) s) from to_
      | None => s
      end
  end.
Definition str_replace (s from to_ : string) : string :=
  if str_is_empty from
  then of_chars (concat ((fun ch => chars to_ ++ ch) <$> str_chars s) ++ chars to_)
  else of_chars (replace_fuel (S (length (chars s))) (chars s) (chars from) (chars to_)).

(** Turns of the loop of [boundary_matches] from byte [at_]. *)
Fixpoint boundary_loop (fuel : nat) (text left right : list ascii) (at_ : nat) (all : list Value) : option (list Value) :=
  match fuel with
  | O => None
  | S fuel =>
      match find_l (drop at_ text) left with
      | None => Some all
      | Some start =>
          let vstart := (at_ + start + length left)%nat in
          match find_l (drop vstart text) right with
          | Some end_ =>
              boundary_loop fuel text left right (vstart + end_ + length right)
                (all ++ [Text (of_chars (take end_ (drop vstart text)))])
          | None => Some all
          end
      end
  end.
Definition boundary_matches (fuel : nat) (text left right : string) : option (list Value) :=
  boundary_loop fuel (chars text) (chars left) (chars right) 0 [].

Section Extract.
Context `{TextTools, JsonText} {R : Type} `{!Rng R}.

Definition pick (all : list Value) (index : MatchIndex) (r : R) : option Value * R :=
  match all with
  | [] => (None, r)
  | v :: _ =>
      match index with
      | IdxFirst => (Some v, r)
      | IdxLast => (last all, r)
      | IdxRandom => let '(i, r) := random_index (length all) r in (all !! i, r)
      | IdxAll => (Some (Array all), r)
      end
  end.

Definition xpath_eval (xml expression : string) : result string (option string) :=
  match xpath_run xml expression with
  | Err e => Err e
  | Ok (XNodeset n) => Ok (trim <$> n)
  | Ok (XString s) => Ok (if str_is_empty s then None else Some s)
  | Ok (XNumber n) => Ok (Some (f64_to_string n))
  | Ok (XBoolean b) => Ok (Some (if b then "true" else "false"))
  end.

Definition value_to_text (v : Value) : string :=
  match v with
  | Text s => s
  | Null => ""
  | other => to_json other
  end.

Definition value_as_f64 (v : Value) : option f64 :=
  match v with
  | Num n => Some (Number_as_f64 n)
  | Text s => parse_f64 (trim s)
  | Bool b => Some (f64_of_Z (if b then 1 else 0))
  | _ => None
  end.

Definition coerce (name : string) (v : Value) (ct : CoerceType) : result ExtractError Value :=
  let bad := fun msg => Err (Invalid name msg) in
  let text := value_to_text v in
  match ct with
  | CoString => Ok (Text text)
  | CoInt =>
      match as_i64 v, as_f64 v, parse_i64 (trim text) with
      | Some i, _, _ => Ok (Num (Number_from_i64 i))
      | None, Some f, _ => Ok (Num (Number_from_i64 (f64_as_i64 f)))
      | None, None, Some i => Ok (Num (Number_from_i64 i))
      | None, None, None => bad ("cannot coerce " +:+ fmt_debug text +:+ " to int")
      end
  | CoFloat =>
      match (match as_f64 v with Some f => Some f | None => parse_f64 (trim text) end) with
      | None => bad ("cannot coerce " +:+ fmt_debug text +:+ " to float")
      | Some f =>
          match Number_from_f64 f with
          | Some n => Ok (Num n)
          | None => bad (f64_to_string f +:+ " is not a finite float")
          end
      end
  | CoBool =>
      match v with
      | Bool b => Ok (Bool b)
      | _ =>
          let t := to_ascii_lowercase (trim text) in
          if bool_decide (t ∈ ["true"; "1"; "yes"; "on"]) then Ok (Bool true)
          else if bool_decide (t ∈ ["false"; "0"; "no"; "off"]) then Ok (Bool false)
          else bad ("cannot coerce " +:+ fmt_debug text +:+ " to bool")
      end
  end.

(** Character offsets; [start + len] is [usize] arithmetic. *)
Definition substring (args : list Z) (text : string) : string :=
  let cs := str_chars text in
  let len := Z.of_nat (length cs) in
  let start := Z.min (default 0 (args !! 0%nat)) len in
  let end_ := match args !! 1%nat with
              | Some l => Z.min (u64_add start l) len
              | None => len
              end in
  of_chars (concat (take (Z.to_nat (Z.max end_ start - start)) (drop (Z.to_nat start) cs))).

Definition apply_transform (name : string) (v : Value) (t : Transform) : result ExtractError Value :=
  let bad := fun msg => Err (Invalid name msg) in
  let text := value_to_text v in
  match t with
  | Trim => Ok (Text (trim text))
  | Lowercase => Ok (Text (str_to_lowercase text))
  | Uppercase => Ok (Text (str_to_uppercase text))
  | UrlEncode => Ok (Text (url_encode text))
  | UrlDecode => Ok (Text (url_decode text))
  | Base64Encode => Ok (Text (base64_encode text))
  | Base64Decode =>
      match base64_decode text with
      | Err e => bad ("base64 decode: " +:+ e)
      | Ok bytes =>
          if bool_decide (from_utf8_lossy bytes = bytes) then Ok (Text bytes)
          else bad ("base64 decode: " +:+ utf8_error bytes)
      end
  | Append s => Ok (Text (text +:+ s))
  | Prepend s => Ok (Text (s +:+ text))
  | Replace [from; to_] => Ok (Text (str_replace text from to_))
  | Replace _ => bad "`replace` needs [from, to]"
  | Substring args => Ok (Text (substring args text))
  end.

(** ** Compiled extractors *)

Inductive CompiledClassic :=
| ClJsonpath (name : string) (path : JsonPath) (default : option string) (index : MatchIndex)
| ClRegex (name : string) (regex : Regex) (group : nat) (default : option string) (index : MatchIndex)
| ClXpath (name expression : string) (default : option string)
| ClCss (name : string) (selector : Selector) (attribute default : option string) (index : MatchIndex)
| ClBoundary (name left right : string) (default : option string) (index : MatchIndex)
| ClHeader (name header : string) (default : option string).

Definition default_index (i : option MatchIndex) : MatchIndex := default IdxFirst i.

Definition CompiledClassic_compile (spec : ClassicExtractor) : result ExtractError CompiledClassic :=
  match spec with
  | ExJsonpath name expression dflt index =>
      let? path := result_map_err (Invalid name) (jsonpath_parse expression) in
      Ok (ClJsonpath name path dflt (default_index index))
  | ExRegex name expression group dflt index =>
      let? regex := result_map_err (Invalid name) (regex_new expression) in
      Ok (ClRegex name regex (default 1%nat group) dflt (default_index index))
  | ExXpath name expression dflt => Ok (ClXpath name expression dflt)
  | ExCss name expression attribute dflt index =>
      let? selector := result_map_err (Invalid name) (selector_parse expression) in
      Ok (ClCss name selector attribute dflt (default_index index))
  | ExBoundary name lft rgt dflt index => Ok (ClBoundary name lft rgt dflt (default_index index))
  | ExHeader name header dflt => Ok (ClHeader name header dflt)
  end.

Definition classic_name (c : CompiledClassic) : string :=
  match c with
  | ClJsonpath name _ _ _ | ClRegex name _ _ _ _ | ClXpath name _ _ | ClCss name _ _ _ _
  | ClBoundary name _ _ _ _ | ClHeader name _ _ => name
  end.

Definition classic_default (c : CompiledClassic) : option string :=
  match c with
  | ClJsonpath _ _ d _ | ClRegex _ _ _ d _ | ClXpath _ _ d | ClCss _ _ _ d _
  | ClBoundary _ _ _ d _ | ClHeader _ _ d => d
  end.

Definition body_json (r : ProtocolResponse) : Value :=
  match from_json (rs_body r) with Ok v => v | Err _ => Null end.

Definition regex_matches (re : Regex) (group : nat) (text : string) : list Value :=
  Text <$> omap id (regex_captures re group text).

(** What an extractor matches before its default; [fuel] is for [boundary_matches]. *)
Definition classic_result (fuel : nat) (c : CompiledClassic) (response : ProtocolResponse) (r : R) :
    option (result ExtractError (option Value) * R) :=
  match c with
  | ClJsonpath _ path _ index =>
      let '(v, r) := pick (jsonpath_query path (body_json response)) index r in Some (Ok v, r)
  | ClRegex _ re group _ index =>
      let '(v, r) := pick (regex_matches re group (body_text response)) index r in Some (Ok v, r)
  | ClXpath name expression _ =>
      Some (match xpath_eval (body_text response) expression with
            | Err e => Err (Invalid name e)
            | Ok v => Ok (Text <$> v)
            end, r)
  | ClCss _ selector attribute _ index =>
      let '(v, r) := pick (Text <$> css_values selector attribute (body_text response)) index r in Some (Ok v, r)
  | ClBoundary _ lft rgt _ index =>
      match boundary_matches fuel (body_text response) lft rgt with
      | None => None
      | Some all => let '(v, r) := pick all index r in Some (Ok v, r)
      end
  | ClHeader _ h _ => Some (Ok (Text <$> header response h), r)
  end.

Definition classic_extract (fuel : nat) (c : CompiledClassic) (response : ProtocolResponse) (r : R) :
    option (result ExtractError Value * R) :=
  match classic_result fuel c response r with
  | None => None
  | Some (Err e, r) => Some (Err e, r)
  | Some (Ok (Some v), r) => Some (Ok v, r)
  | Some (Ok None, r) =>
      Some (match classic_default c with
            | Some d => Ok (Text d)
            | None => Err (NoMatch (classic_name c))
            end, r)
  end.

(** ** Chains *)

Inductive ChainSource :=
| ChJmespath (e : Jmespath)
| ChJsonpath (p : JsonPath)
| ChRegex (re : Regex) (group : nat)
| ChHeader (h : string)
| ChCss (selector : Selector) (attribute : option string)
| ChXpath (e : string)
| ChBoundary (left right : string).

Record CompiledChainCheck := mkCompiledCheck {
  ck_equals : option Value;
  ck_matches : option Regex;
  ck_one_of : option (list Value);
  ck_min : option f64;
  ck_max : option f64;
  ck_not_empty : bool;
  ck_on_failure : FailureAction;
}.

Record CompiledChain := mkCompiledChain {
  ch_name : string;
  ch_source : ChainSource;
  ch_index : MatchIndex;
  ch_coerce : option CoerceType;
  ch_transforms : list Transform;
  ch_default : option Value;
  ch_check : option CompiledChainCheck;
}.

Definition chain_source (spec : ChainSpec) : result ExtractError ChainSource :=
  let invalid := Invalid (cs_name spec) in
  match cs_jmespath spec, cs_jsonpath spec, cs_regex spec, cs_header spec, cs_css spec, cs_xpath spec,
        cs_left spec, cs_right spec with
  | Some e, _, _, _, _, _, _, _ => let? j := result_map_err invalid (jmespath_compile e) in Ok (ChJmespath j)
  | None, Some e, _, _, _, _, _, _ => let? p := result_map_err invalid (jsonpath_parse e) in Ok (ChJsonpath p)
  | None, None, Some e, _, _, _, _, _ =>
      let? re := result_map_err invalid (regex_new e) in Ok (ChRegex re (default 1%nat (cs_group spec)))
  | None, None, None, Some h, _, _, _, _ => Ok (ChHeader h)
  | None, None, None, None, Some sel, _, _, _ =>
      let? s := result_map_err invalid (selector_parse sel) in Ok (ChCss s (cs_attribute spec))
  | None, None, None, None, None, Some e, _, _ => Ok (ChXpath e)
  | None, None, None, None, None, None, Some l, Some rt => Ok (ChBoundary l rt)
  | None, None, None, None, None, None, _, _ => Err (invalid "chain has no source")
  end.

Definition CompiledChainCheck_compile (name : string) (c : ChainCheck) : result ExtractError CompiledChainCheck :=
  let? matches_ :=
    match cc_matches c with
    | None => Ok None
    | Some m => let? re := result_map_err (Invalid name) (regex_new m) in Ok (Some re)
    end in
  Ok (mkCompiledCheck (cc_equals c) matches_ (cc_one_of c) (cc_min c) (cc_max c)
        (default false (cc_not_empty c)) (default ActContinue (cc_on_failure c))).

Definition CompiledChain_compile (spec : ChainSpec) : result ExtractError CompiledChain :=
  let? source := chain_source spec in
  let? check :=
    match cs_check spec with
    | None => Ok None
    | Some c => let? k := CompiledChainCheck_compile (cs_name spec) c in Ok (Some k)
    end in
  Ok (mkCompiledChain (cs_name spec) source (default_index (cs_index spec)) (cs_as_type spec)
        (cs_transform spec) (cs_default spec) check).

Definition extract_raw (fuel : nat) (c : CompiledChain) (response : ProtocolResponse) (r : R) :
    option (option Value * R) :=
  match ch_source c with
  | ChJmespath e =>
      Some (match jmespath_search e (body_text response) with
            | None => (None, r)
            | Some (Array items) => if bool_decide (ch_index c = IdxAll) then (Some (Array items), r)
                                    else pick items (ch_index c) r
            | Some other => (Some other, r)
            end)
  | ChJsonpath p => Some (pick (jsonpath_query p (body_json response)) (ch_index c) r)
  | ChRegex re group => Some (pick (regex_matches re group (body_text response)) (ch_index c) r)
  | ChHeader h => Some (Text <$> header response h, r)
  | ChCss selector attribute =>
      Some (pick (Text <$> css_values selector attribute (body_text response)) (ch_index c) r)
  | ChXpath e =>
      Some (match xpath_eval (body_text response) e with Ok v => Text <$> v | Err _ => None end, r)
  | ChBoundary lft rgt =>
      (fun all => pick all (ch_index c) r) <$> boundary_matches fuel (body_text response) lft rgt
  end.

(** [CompiledChainCheck::evaluate]: the first condition that fails, in order. *)
Definition check_bounds (k : CompiledChainCheck) (v : Value) (as_text : string) : option string :=
  match ck_min k, ck_max k with
  | None, None => None
  | mn, mx =>
      match value_as_f64 v with
      | None => Some ("value " +:+ fmt_debug as_text +:+ " is not numeric")
      | Some n =>
          match mn, mx with
          | Some lo, _ =>
              if f64_lt n lo then Some (f64_to_string n +:+ " is below minimum " +:+ f64_to_string lo)
              else match mx with
                   | Some hi => if f64_gt n hi
                                then Some (f64_to_string n +:+ " is above maximum " +:+ f64_to_string hi) else None
                   | None => None
                   end
          | None, Some hi =>
              if f64_gt n hi then Some (f64_to_string n +:+ " is above maximum " +:+ f64_to_string hi) else None
          | None, None => None
          end
      end
  end.

Definition first_some {A : Type} (l : list (option A)) : option A :=
  match omap id l with x :: _ => Some x | [] => None end.

Definition check_evaluate (k : CompiledChainCheck) (v : Value) : result string unit :=
  let as_text := value_to_text v in
  match first_some
    [ match ck_equals k with
      | Some expected => if value_eqb v expected then None
                         else Some ("expected " +:+ to_json expected +:+ ", got " +:+ to_json v)
      | None => None
      end;
      match ck_matches k with
      | Some re => if regex_is_match re as_text then None
                   else Some (fmt_debug as_text +:+ " does not match /" +:+ regex_text re +:+ "/")
      | None => None
      end;
      match ck_one_of k with
      | Some set_ => if existsb (fun c => value_eqb c v || bool_decide (value_to_text c = as_text)) set_ then None
                     else Some (fmt_debug as_text +:+ " is not one of " +:+ fmt_debug_values set_)
      | None => None
      end;
      check_bounds k v as_text;
      if ck_not_empty k && str_is_empty as_text then Some "value is empty" else None ]
  with
  | Some detail => Err detail
  | None => Ok tt
  end.

Fixpoint apply_transforms (name : string) (v : Value) (ts : list Transform) : result ExtractError Value :=
  match ts with
  | [] => Ok v
  | t :: ts => let? v := apply_transform name v t in apply_transforms name v ts
  end.

(** From the raw value on: default, coercion, transforms, validation. *)
Definition chain_finish (c : CompiledChain) (raw : option Value) : result ExtractError Value :=
  let? v := match raw, ch_default c with
            | Some v, _ => Ok v
            | None, Some d => Ok d
            | None, None => Err (NoMatch (ch_name c))
            end in
  let? v := match ch_coerce c with Some ct => coerce (ch_name c) v ct | None => Ok v end in
  let? v := apply_transforms (ch_name c) v (ch_transforms c) in
  match ch_check c with
  | None => Ok v
  | Some k => match check_evaluate k v with
              | Ok _ => Ok v
              | Err detail => Err (CheckFailed (ch_name c) detail (ck_on_failure k))
              end
  end.

Definition chain_extract (fuel : nat) (c : CompiledChain) (response : ProtocolResponse) (r : R) :
    option (result ExtractError Value * R) :=
  (fun '(raw, r) => (chain_finish c raw, r)) <$> extract_raw fuel c response r.

Inductive CompiledExtractor :=
| CxClassic (c : CompiledClassic)
| CxChain (c : CompiledChain).

Definition CompiledExtractor_compile (spec : Extractor) : result ExtractError CompiledExtractor :=
  match spec with
  | ExClassic c => let? k := CompiledClassic_compile c in Ok (CxClassic k)
  | ExChain c => let? k := CompiledChain_compile c in Ok (CxChain k)
  end.

Definition extractor_name (c : CompiledExtractor) : string :=
  match c with
  | CxClassic c => classic_name c
  | CxChain c => ch_name c
  end.

Definition is_chain_with_check (c : CompiledExtractor) : bool :=
  match c with
  | CxChain c => bool_decide (is_Some (ch_check c))
  | CxClassic _ => false
  end.

Definition extract (fuel : nat) (c : CompiledExtractor) (response : ProtocolResponse) (r : R) :
    option (result ExtractError Value * R) :=
  match c with
  | CxClassic c => classic_extract fuel c response r
  | CxChain c => chain_extract fuel c response r
  end.
End Extract.

(** ** Percent-encoding *)

Lemma to_digit16_hex (n : N) : (n < 16)%N -> to_digit16 (hex_digit n) = Some n.
Proof.
  assert (forall k : nat, (k < 16)%nat -> to_digit16 (hex_digit (N.of_nat k)) = Some (N.of_nat k)) as Hk.
  { intros k Hk. do 16 (destruct k as [|k]; [by vm_compute|]). lia. }
  intros Hn. rewrite <- (N2Nat.id n). apply Hk. lia.
Qed.

Lemma url_decode_percent (c : ascii) (l : list ascii) : url_decode_l (percent c ++ l) = c :: url_decode_l l.
Proof.
  pose proof (N_ascii_bounded c). cbn [percent app url_decode_l].
  rewrite Ascii.eqb_refl, !to_digit16_hex.
  - f_equal. unfold byte_at. rewrite <- (ascii_N_embedding c) at 3. f_equal.
    pose proof (N.div_mod (N_of_ascii c) 16). lia.
  - apply N.mod_lt. lia.
  - apply N.Div0.div_lt_upper_bound. lia.
Qed.

Lemma url_decode_unreserved (c : ascii) (l : list ascii) :
  unreserved c = true -> url_decode_l (c :: l) = c :: url_decode_l l.
Proof. destruct c as [[] [] [] [] [] [] [] []]; first [discriminate | reflexivity]. Qed.

Lemma url_decode_encoded (l : list ascii) :
  url_decode_l (concat ((fun c => if unreserved c then [c] else percent c) <$> l)) = l.
Proof.
  induction l as [|c l IH]; [done|]. cbn [fmap list_fmap concat].
  destruct (unreserved c) eqn:Hc; cbn [app].
  - by rewrite url_decode_unreserved, IH.
  - by rewrite url_decode_percent, IH.
Qed.

(** Decoding the percent-encoding of a text gives the text back, for every text that is valid
    UTF-8 (which [from_utf8_lossy] leaves alone). *)
Theorem url_roundtrip (s : string) : from_utf8_lossy s = s -> url_decode (url_encode s) = s.
Proof.
  intros Hs. unfold url_decode, url_encode. rewrite chars_of_chars, url_decode_encoded, of_chars_chars.
  exact Hs.
Qed.

(** ** Boundary matching ends *)

Lemma find_l_split (s p : list ascii) (i : nat) :
  find_l s p = Some i -> exists r, s = take i s ++ p ++ r /\ (i + length p <= length s)%nat.
Proof.
  intros ((r & Hs) & Hi & _)%find_l_Some. exists r. split; [exact Hs|].
  apply (f_equal (@length ascii)) in Hs. rewrite !length_app, length_take in Hs. lia.
Qed.

Lemma find_l_nil (s : list ascii) : find_l s [] = Some 0%nat.
Proof. by destruct s. Qed.

(** A value cut out of [text]: the left marker stands before it, the right one after it. *)
Definition between (text lft rgt : list ascii) (v : Value) : Prop :=
  exists pre w post, v = Text (of_chars w) /\ text = pre ++ lft ++ w ++ rgt ++ post.

Lemma between_turn (text lft rgt : list ascii) (at_ i j : nat) :
  find_l (drop at_ text) lft = Some i ->
  find_l (drop (at_ + i + length lft) text) rgt = Some j ->
  between text lft rgt (Text (of_chars (take j (drop (at_ + i + length lft) text))))
  /\ ((at_ <= length text)%nat -> (at_ + i + length lft + j + length rgt <= length text)%nat).
Proof.
  intros (r & Hl & Hli)%find_l_split (r' & Hr & Hrj)%find_l_split. rewrite length_drop in Hli, Hrj. split; [|lia].
  exists (take (at_ + i) text), (take j (drop (at_ + i + length lft) text)), r'. split; [reflexivity|].
  rewrite <- Hr, <- drop_drop.
  assert (drop (at_ + i) text = lft ++ r) as Hd.
  { rewrite <- drop_drop, Hl, drop_app_length'; [reflexivity|]. rewrite length_take, length_drop. lia. }
  rewrite Hd, drop_app_length, <- Hd. by rewrite take_drop.
Qed.

Lemma boundary_loop_ends (text lft rgt : list ascii) (fuel at_ : nat) (all : list Value) :
  (0 < length lft + length rgt)%nat -> (at_ <= length text)%nat -> (length text - at_ < fuel)%nat ->
  Forall (between text lft rgt) all ->
  exists res, boundary_loop fuel text lft rgt at_ all = Some res /\ Forall (between text lft rgt) res.
Proof.
  intros Hpos. revert at_ all. induction fuel as [|fuel IH]; intros at_ all Hat Hfuel Hall; [lia|].
  cbn [boundary_loop]. destruct (find_l (drop at_ text) lft) as [i|] eqn:Hi; [|by exists all].
  destruct (find_l (drop (at_ + i + length lft) text) rgt) as [j|] eqn:Hj; [|by exists all].
  destruct (between_turn text lft rgt at_ i j Hi Hj) as [Hv Hle]. specialize (Hle Hat).
  apply IH; [exact Hle|lia|]. apply Forall_app. split; [exact Hall|]. by apply Forall_singleton.
Qed.

Lemma boundary_loop_stuck (text : list ascii) (fuel : nat) (all : list Value) :
  boundary_loop fuel text [] [] 0 all = None.
Proof.
  revert all. induction fuel as [|fuel IH]; intros all; [reflexivity|].
  cbn [boundary_loop]. rewrite find_l_nil. cbn [length Nat.add]. rewrite find_l_nil. apply IH.
Qed.

(** The loop of [boundary_matches] ends, after at most one turn per byte and one more, exactly when
    one of its markers is not empty, and then every value it yields stands between the two markers in
    the text; with both markers empty no number of turns ends it. *)
Theorem boundary_terminates (text lft rgt : string) :
  (lft = "" /\ rgt = "" -> forall fuel, boundary_matches fuel text lft rgt = None)
  /\ (lft <> "" \/ rgt <> "" -> forall fuel, (length (chars text) < fuel)%nat ->
      exists all, boundary_matches fuel text lft rgt = Some all
                  /\ Forall (between (chars text) (chars lft) (chars rgt)) all).
Proof.
  split.
  - intros [-> ->] fuel. apply boundary_loop_stuck.
  - intros Hne fuel Hfuel. apply boundary_loop_ends; [|lia|lia|constructor].
    destruct lft, rgt; cbn [chars String.list_ascii_of_string length]; try lia. by destruct Hne.
Qed.

Module ExtractDemo.
(** Toy engines: a pattern matches the texts that contain it, a path is a key of an object. *)
#[export] Instance demo_json : JsonText := {|
  to_json v := match v with Bool true => "true" | Bool false => "false" | Null => "null" | _ => "?" end;
  from_json s := Ok (Text s);
|}.

#[export] Instance demo_tools : TextTools := {|
  Regex := string;
  regex_new s := if str_is_empty s then Err "empty" else Ok s;
  regex_is_match re t := str_contains t re;
  regex_text re := re;
  regex_captures re _ t := if str_contains t re then [Some re] else [];
  JsonPath := string;
  jsonpath_parse s := Ok s;
  jsonpath_query p v := match v with Object m => option_list (map_get p m) | _ => [] end;
  Jmespath := string;
  jmespath_compile s := Ok s;
  jmespath_search _ _ := None;
  Selector := string;
  selector_parse s := Ok s;
  css_values _ _ _ := [];
  xpath_run _ _ := Err "no XML";
  base64_encode s := s;
  base64_decode s := Ok s;
  utf8_error _ := "invalid utf-8";
  str_to_lowercase s := to_ascii_lowercase s;
  str_to_uppercase s := s;
  f64_to_string _ := "?";
  fmt_debug s := "'" +:+ s +:+ "'";
  fmt_debug_values _ := "[]";
|}.

Example url_roundtrip_witness :
  from_utf8_lossy "a b&c/%~" = "a b&c/%~" /\ url_decode (url_encode "a b&c/%~") = "a b&c/%~".
Proof. split; [by vm_compute|]. apply (url_roundtrip "a b&c/%~"). by vm_compute. Defined.

Example boundary_terminates_witness :
  boundary_matches 30 "<a>x</a><a>y</a>" "" "" = None
  /\ exists all, boundary_matches 30 "<a>x</a><a>y</a>" "<a>" "</a>" = Some all
     /\ Forall (between (chars "<a>x</a><a>y</a>") (chars "<a>") (chars "</a>")) all.
Proof.
  split.
  - apply (boundary_terminates "<a>x</a><a>y</a>" "" ""). by split.
  - apply (boundary_terminates "<a>x</a><a>y</a>" "<a>" "</a>"); [by left|]. cbn. lia.
Defined.

Example boundary_values : boundary_matches 30 "<a>x</a><a>y</a>" "<a>" "</a>" = Some [Text "x"; Text "y"].
Proof. by vm_compute. Qed.

Example url_encode_space : url_encode "a b%" = "a%20b%25".
Proof. by vm_compute. Qed.
End ExtractDemo.
