(* ===== verification/Conditions.v ===== *)
(** * Conditions (crates/loadr-core/src/conditions.rs and [Condition] of crates/loadr-config/src/plan.rs)

    Assertions and checks on a response: what each condition of the plan is called, how it is
    compiled, what it answers, and whether answering needs the response body.  A JS condition is
    handed back to the caller.  The engines are those of [TextTools]; fixed-point float formatting
    and the display of a duration are parameters ([ConditionText]). *)

From S2P Require Import Prelude Float64 Str Dur Value Template Protocol Extract.

Class ConditionText := {
  (** [format!("{:.n}", f)]. *)
  fmt_fixed : nat -> f64 -> string;
  (** [humantime::format_duration]. *)
  dur_display : Duration -> string;
}.

(** ** The plan's description *)

Inductive Condition :=
| CdStatus (name : option string) (equals : option Z) (one_of : option (list Z)) (matches_ : option string)
    (on_failure : option FailureAction)
| CdProtobufField (name : option string) (field : string) (equals : option Value) (exists_ : option bool)
    (failure_groups : option (list (Z * string))) (on_failure : option FailureAction)
| CdBodyContains (name : option string) (value : string) (negate : bool) (on_failure : option FailureAction)
| CdBodyMatches (name : option string) (pattern : string) (negate : bool) (on_failure : option FailureAction)
| CdJsonpath (name : option string) (expression : string) (equals : option Value) (exists_ : option bool)
    (on_failure : option FailureAction)
| CdXpath (name : option string) (expression : string) (equals : option string) (exists_ : option bool)
    (on_failure : option FailureAction)
| CdDuration (name : option string) (max : Duration) (on_failure : option FailureAction)
| CdSize (name : option string) (min max equals : option Z) (on_failure : option FailureAction)
| CdHeader (name : option string) (header : string) (equals contains : option string) (exists_ : option bool)
    (on_failure : option FailureAction)
| CdJs (name : option string) (expression : string) (on_failure : option FailureAction).

(** [Debug] of a vector of integers. *)
Definition fmt_debug_ints (l : list Z) : string := "[" +:+ join ", " (Z_to_string <$> l) +:+ "]".

Definition explicit_name (c : Condition) : option string :=
  match c with
  | CdStatus n _ _ _ _ | CdProtobufField n _ _ _ _ _ | CdBodyContains n _ _ _ | CdBodyMatches n _ _ _
  | CdJsonpath n _ _ _ _ | CdXpath n _ _ _ _ | CdDuration n _ _ | CdSize n _ _ _ _
  | CdHeader n _ _ _ _ _ | CdJs n _ _ => n
  end.

Definition on_failure (c : Condition) : FailureAction :=
  match c with
  | CdStatus _ _ _ _ f | CdProtobufField _ _ _ _ _ f | CdBodyContains _ _ _ f | CdBodyMatches _ _ _ f
  | CdJsonpath _ _ _ _ f | CdXpath _ _ _ _ f | CdDuration _ _ f | CdSize _ _ _ _ f
  | CdHeader _ _ _ _ _ f | CdJs _ _ f => default ActContinue f
  end.

Record ConditionFailureGroup := mkFailureGroup {
  fg_code : option Z;
  fg_label : string;
}.

Record ConditionResult := mkConditionResult {
  cr_name : string;
  cr_pass : bool;
  cr_detail : option string;
  cr_on_failure : FailureAction;
  cr_needs_js : option string;
  cr_failure_group : option ConditionFailureGroup;
}.

Record GrpcProtobufFieldCheck := mkFieldCheck {
  fc_id : Z;
  fc_field : string;
  fc_equals : option Value;
  fc_exists : bool;
  fc_group_failures : bool;
}.

Section Conditions.
Context `{TextTools, JsonText, ConditionText}.

Definition display_name (c : Condition) : string :=
  match explicit_name c with
  | Some n => n
  | None =>
      match c with
      | CdStatus _ (Some e) _ _ _ => "status is " +:+ Z_to_string e
      | CdStatus _ None (Some o) _ _ => "status in " +:+ fmt_debug_ints o
      | CdStatus _ None None (Some m) _ => "status matches " +:+ m
      | CdStatus _ None None None _ => "status"
      | CdBodyContains _ v negate _ =>
          (if negate then "body does not contain " else "body contains ") +:+ fmt_debug v
      | CdBodyMatches _ p _ _ => "body matches /" +:+ p +:+ "/"
      | CdJsonpath _ e _ _ _ => "jsonpath " +:+ e
      | CdProtobufField _ f _ _ _ _ => "protobuf field " +:+ f
      | CdXpath _ e _ _ _ => "xpath " +:+ e
      | CdDuration _ m _ => "duration < " +:+ dur_display m
      | CdSize _ _ _ _ _ => "body size"
      | CdHeader _ h _ _ _ _ => "header " +:+ h
      | CdJs _ e _ => "js: " +:+ e
      end
  end.

Inductive Kind :=
| KStatus (equals : option Z) (one_of : option (list Z)) (matches_ : option Regex)
| KBodyContains (value : string) (negate : bool)
| KBodyMatches (pattern : Regex) (negate : bool)
| KJsonpath (path : JsonPath) (equals : option Value) (exists_ : bool)
| KProtobufField (id : option Z) (field : string) (equals : option Value) (exists_ : bool)
    (failure_groups : option (list (Z * string)))
| KXpath (expression : string) (equals : option string) (exists_ : bool)
| KDuration (max_ms : f64)
| KSize (min max equals : option Z)
| KHeader (header : string) (equals contains : option string) (exists_ : bool)
| KJs (expression : string).

Record CompiledCondition := mkCondition {
  cd_name : string;
  cd_on_failure : FailureAction;
  cd_kind : Kind;
}.

Definition CompiledCondition_compile (spec : Condition) : result string CompiledCondition :=
  let name := display_name spec in
  let err := fun e => "condition `" +:+ name +:+ "`: " +:+ e in
  let? kind :=
    match spec with
    | CdStatus _ equals one_of matches_ _ =>
        let? re := match matches_ with
                   | None => Ok None
                   | Some m => let? re := result_map_err err (regex_new m) in Ok (Some re)
                   end in
        Ok (KStatus equals one_of re)
    | CdBodyContains _ value negate _ => Ok (KBodyContains value negate)
    | CdBodyMatches _ pattern negate _ =>
        let? re := result_map_err err (regex_new pattern) in Ok (KBodyMatches re negate)
    | CdJsonpath _ expression equals exists_ _ =>
        let? path := result_map_err err (jsonpath_parse expression) in
        Ok (KJsonpath path equals (default true exists_))
    | CdProtobufField _ field equals exists_ failure_groups _ =>
        Ok (KProtobufField None field equals (default true exists_) failure_groups)
    | CdXpath _ expression equals exists_ _ => Ok (KXpath expression equals (default true exists_))
    | CdDuration _ max _ => Ok (KDuration (f64_mul (as_secs_f64 max) (f64_of_Z 1000)))
    | CdSize _ min max equals _ => Ok (KSize min max equals)
    | CdHeader _ header equals contains exists_ _ =>
        Ok (KHeader header equals contains (default true exists_))
    | CdJs _ expression _ => Ok (KJs expression)
    end in
  Ok (mkCondition name (on_failure spec) kind).

(** The failures a condition records, in the order it records them: each overwrites the detail of
    the one before. *)
Definition first_match (path : JsonPath) (response : ProtocolResponse) : option Value :=
  head (jsonpath_query path (body_json response)).

Definition status_failures (equals : option Z) (one_of : option (list Z)) (matches_ : option Regex) (status : Z) :
    list string :=
  match equals with
  | Some e => if Z.eqb status e then [] else ["expected status " +:+ Z_to_string e +:+ ", got " +:+ Z_to_string status]
  | None => []
  end
  ++ match one_of with
     | Some set_ =>
         if bool_decide (status ∈ set_) then []
         else ["expected status in " +:+ fmt_debug_ints set_ +:+ ", got " +:+ Z_to_string status]
     | None => []
     end
  ++ match matches_ with
     | Some re => if regex_is_match re (Z_to_string status) then []
                  else ["status " +:+ Z_to_string status +:+ " does not match /" +:+ regex_text re +:+ "/"]
     | None => []
     end.

Definition size_failures (min max equals : option Z) (size : Z) : list string :=
  match equals with
  | Some e => if Z.eqb size e then [] else ["expected size " +:+ Z_to_string e +:+ ", got " +:+ Z_to_string size]
  | None => []
  end
  ++ match min with
     | Some m => if Z.ltb size m then ["size " +:+ Z_to_string size +:+ " below minimum " +:+ Z_to_string m] else []
     | None => []
     end
  ++ match max with
     | Some m => if Z.ltb m size then ["size " +:+ Z_to_string size +:+ " above maximum " +:+ Z_to_string m] else []
     | None => []
     end.

Definition header_failures (h : string) (equals contains : option string) (exists_ : bool) (value : option string) :
    list string :=
  match exists_, value with
  | true, None => ["missing header `" +:+ h +:+ "`"]
  | false, Some v => ["unexpected header `" +:+ h +:+ ": " +:+ v +:+ "`"]
  | false, None => []
  | true, Some v =>
      match equals with
      | Some e => if bool_decide (v = e) then []
                  else ["header `" +:+ h +:+ "` is " +:+ fmt_debug v +:+ ", expected " +:+ fmt_debug e]
      | None => []
      end
      ++ match contains with
         | Some c => if str_contains v c then []
                     else ["header `" +:+ h +:+ "` is " +:+ fmt_debug v +:+ ", expected to contain " +:+ fmt_debug c]
         | None => []
         end
  end.

Definition jsonpath_failures (equals : option Value) (exists_ : bool) (first : option Value) : list string :=
  match exists_, first with
  | true, None => ["no JSONPath match"]
  | false, Some v => ["unexpected JSONPath match: " +:+ to_json v]
  | true, Some v =>
      match equals with
      | Some expected => if value_eqb v expected then []
                         else ["expected " +:+ to_json expected +:+ ", got " +:+ to_json v]
      | None => []
      end
  | false, None => []
  end.

Definition xpath_failures (equals : option string) (exists_ : bool) (found : result string (option string)) :
    list string :=
  match found with
  | Err e => ["xpath error: " +:+ e]
  | Ok None => if exists_ then ["no XPath match"] else []
  | Ok (Some v) =>
      if exists_ then
        match equals with
        | Some expected => if bool_decide (v = expected) then []
                           else ["expected " +:+ fmt_debug expected +:+ ", got " +:+ fmt_debug v]
        | None => []
        end
      else ["unexpected XPath match: " +:+ v]
  end.

Definition body_failures (value : string) (negate found : bool) : list string :=
  if Bool.eqb found negate
  then [(if negate then "body unexpectedly contains " else "body does not contain ") +:+ fmt_debug value] else [].

Definition pattern_failures (pattern : Regex) (negate found : bool) : list string :=
  if Bool.eqb found negate
  then [(if negate then "body unexpectedly matches /" else "body does not match /") +:+ regex_text pattern +:+ "/"]
  else [].

Definition duration_failures (max_ms actual : f64) : list string :=
  if f64_gt actual max_ms
  then ["duration " +:+ fmt_fixed 1 actual +:+ "ms exceeds " +:+ fmt_fixed 0 max_ms +:+ "ms"] else [].

Fixpoint group_get (k : Z) (m : list (Z * string)) : option string :=
  match m with
  | [] => None
  | (j, l) :: m => if Z.eqb k j then Some l else group_get k m
  end.

Definition failure_group (groups : list (Z * string)) (o : GrpcProtobufFieldOutcome) : ConditionFailureGroup :=
  if oc_missing o then mkFailureGroup None "missing"
  else match oc_actual_code o with
       | Some code => match group_get code groups with
                      | Some label => mkFailureGroup (Some code) label
                      | None => mkFailureGroup None "other"
                      end
       | None => mkFailureGroup None "other"
       end.

Definition protobuf_outcome (id : option Z) (response : ProtocolResponse) : option GrpcProtobufFieldOutcome :=
  match id with
  | Some id => List.find (fun o => Z.eqb (oc_id o) id) (rs_grpc_protobuf_outcomes response)
  | None => None
  end.

(** A result after the failures a condition recorded. *)
Definition record_failures (r : ConditionResult) (failures : list string) : ConditionResult :=
  match last failures with
  | None => r
  | Some detail => mkConditionResult (cr_name r) false (Some detail) (cr_on_failure r) (cr_needs_js r) (cr_failure_group r)
  end.

Definition evaluate_protobuf (r : ConditionResult) (groups : option (list (Z * string)))
    (outcome : option GrpcProtobufFieldOutcome) : ConditionResult :=
  match outcome with
  | Some o =>
      mkConditionResult (cr_name r) (oc_pass o) (oc_detail o) (cr_on_failure r) (cr_needs_js r)
        (if oc_pass o then None else (fun g => failure_group g o) <$> groups)
  | None =>
      mkConditionResult (cr_name r) false (Some "no protobuf response message was available") (cr_on_failure r)
        (cr_needs_js r)
        (match groups with Some _ => Some (mkFailureGroup None "no_response") | None => None end)
  end.

Definition evaluate (c : CompiledCondition) (response : ProtocolResponse) : ConditionResult :=
  let r := mkConditionResult (cd_name c) true None (cd_on_failure c) None None in
  match cd_kind c with
  | KStatus equals one_of matches_ => record_failures r (status_failures equals one_of matches_ (rs_status response))
  | KBodyContains value negate =>
      record_failures r (body_failures value negate (str_contains (body_text response) value))
  | KBodyMatches pattern negate =>
      record_failures r (pattern_failures pattern negate (regex_is_match pattern (body_text response)))
  | KJsonpath path equals exists_ => record_failures r (jsonpath_failures equals exists_ (first_match path response))
  | KProtobufField id _ _ _ groups => evaluate_protobuf r groups (protobuf_outcome id response)
  | KXpath expression equals exists_ =>
      record_failures r (xpath_failures equals exists_ (xpath_eval (body_text response) expression))
  | KDuration max_ms => record_failures r (duration_failures max_ms (duration_ms (rs_timings response)))
  | KSize min max equals =>
      record_failures r (size_failures min max equals (Z.of_nat (length (chars (rs_body response)))))
  | KHeader h equals contains exists_ =>
      record_failures r (header_failures h equals contains exists_ (header response h))
  | KJs expression => mkConditionResult (cr_name r) true None (cr_on_failure r) (Some expression) None
  end.

Definition reads_body (c : CompiledCondition) : bool :=
  match cd_kind c with
  | KStatus _ _ _ | KProtobufField _ _ _ _ _ | KDuration _ | KHeader _ _ _ _ => false
  | KBodyContains _ _ | KBodyMatches _ _ | KJsonpath _ _ _ | KXpath _ _ _ | KSize _ _ _ | KJs _ => true
  end.

Definition bind_protobuf_check (c : CompiledCondition) (id : Z) : CompiledCondition * option GrpcProtobufFieldCheck :=
  match cd_kind c with
  | KProtobufField _ field equals exists_ groups =>
      (mkCondition (cd_name c) (cd_on_failure c) (KProtobufField (Some id) field equals exists_ groups),
       Some (mkFieldCheck id field equals exists_ (bool_decide (is_Some groups))))
  | _ => (c, None)
  end.

(** ** What a condition means *)

(** The meaning of a condition, one clause a kind; a JS condition holds until the script says otherwise. *)
Definition holds (k : Kind) (response : ProtocolResponse) : Prop :=
  let body := body_text response in
  let size := Z.of_nat (length (chars (rs_body response))) in
  match k with
  | KStatus equals one_of matches_ =>
      (forall e, equals = Some e -> rs_status response = e)
      /\ (forall l, one_of = Some l -> rs_status response ∈ l)
      /\ (forall re, matches_ = Some re -> regex_is_match re (Z_to_string (rs_status response)) = true)
  | KBodyContains v negate => str_contains body v = negb negate
  | KBodyMatches p negate => regex_is_match p body = negb negate
  | KJsonpath path equals exists_ =>
      if exists_ then exists v, first_match path response = Some v
                                /\ forall e, equals = Some e -> value_eqb v e = true
      else first_match path response = None
  | KProtobufField id _ _ _ _ => exists o, protobuf_outcome id response = Some o /\ oc_pass o = true
  | KXpath e equals exists_ =>
      if exists_ then exists v, xpath_eval body e = Ok (Some v) /\ forall x, equals = Some x -> v = x
      else xpath_eval body e = Ok None
  | KDuration max_ms => f64_gt (duration_ms (rs_timings response)) max_ms = false
  | KSize mn mx equals =>
      (forall e, equals = Some e -> size = e) /\ (forall m, mn = Some m -> m <= size)
      /\ (forall m, mx = Some m -> size <= m)
  | KHeader h equals contains exists_ =>
      if exists_ then exists v, header response h = Some v /\ (forall e, equals = Some e -> v = e)
                                /\ (forall c, contains = Some c -> str_contains v c = true)
      else header response h = None
  | KJs _ => True
  end.
End Conditions.

Section Facts.
Context `{TextTools, JsonText, ConditionText}.

Lemma recorded (name : string) (action : FailureAction) (l : list string) (P : Prop) :
  (l = [] <-> P) ->
  let r := record_failures (mkConditionResult name true None action None None) l in
  (cr_pass r = true <-> P) /\ cr_name r = name /\ cr_on_failure r = action /\ cr_needs_js r = None
  /\ (cr_pass r = false -> is_Some (cr_detail r)).
Proof.
  intros HP. unfold record_failures. rewrite <- HP. destruct l as [|x l] using rev_ind; [done|].
  rewrite last_snoc. cbn. split; [|done]. split; [done|]. by intros [_ ?]%app_nil.
Qed.

Lemma one_failure (b : bool) (x : string) : (if b then [] else [x]) = [] <-> b = true.
Proof. by destruct b. Qed.

Lemma one_failure' (b : bool) (x : string) : (if b then [x] else []) = [] <-> b = false.
Proof. by destruct b. Qed.

Lemma opt_failures {A : Type} (o : option A) (f : A -> list string) (P : A -> Prop) :
  (forall a, f a = [] <-> P a) ->
  match o with Some a => f a | None => [] end = [] <-> forall a, o = Some a -> P a.
Proof. intros Hf. destruct o as [a|]; [|done]. rewrite Hf. split; [by intros ? ? [= <-]|by auto]. Qed.

Lemma status_failures_nil equals one_of matches_ status :
  status_failures equals one_of matches_ status = []
  <-> (forall e, equals = Some e -> status = e) /\ (forall l, one_of = Some l -> status ∈ l)
      /\ (forall re, matches_ = Some re -> regex_is_match re (Z_to_string status) = true).
Proof.
  unfold status_failures. rewrite !app_nil.
  rewrite (opt_failures equals _ (fun e => status = e)) by (intros a; by rewrite one_failure, Z.eqb_eq).
  rewrite (opt_failures one_of _ (fun l => status ∈ l)) by (intros a; by rewrite one_failure, bool_decide_eq_true).
  rewrite (opt_failures matches_ _ (fun re => regex_is_match re (Z_to_string status) = true))
    by (intros a; by rewrite one_failure).
  done.
Qed.

Lemma size_failures_nil mn mx equals size :
  size_failures mn mx equals size = []
  <-> (forall e, equals = Some e -> size = e) /\ (forall m, mn = Some m -> m <= size)
      /\ (forall m, mx = Some m -> size <= m).
Proof.
  unfold size_failures. rewrite !app_nil.
  rewrite (opt_failures equals _ (fun e => size = e)) by (intros a; by rewrite one_failure, Z.eqb_eq).
  rewrite (opt_failures mn _ (fun m => m <= size)) by (intros a; by rewrite one_failure', Z.ltb_ge).
  rewrite (opt_failures mx _ (fun m => size <= m)) by (intros a; by rewrite one_failure', Z.ltb_ge).
  done.
Qed.

Lemma header_failures_nil h equals contains exists_ value :
  header_failures h equals contains exists_ value = []
  <-> if exists_ : bool
      then exists v, value = Some v /\ (forall e, equals = Some e -> v = e)
                     /\ (forall c, contains = Some c -> str_contains v c = true)
      else value = None.
Proof.
  destruct exists_, value as [v|]; cbn [header_failures]; try done.
  - rewrite app_nil.
    rewrite (opt_failures equals _ (fun e => v = e)) by (intros a; by rewrite one_failure, bool_decide_eq_true).
    rewrite (opt_failures contains _ (fun c => str_contains v c = true)) by (intros a; by rewrite one_failure).
    naive_solver.
  - naive_solver.
Qed.

Lemma jsonpath_failures_nil equals exists_ first :
  jsonpath_failures equals exists_ first = []
  <-> if exists_ : bool then exists v, first = Some v /\ forall e, equals = Some e -> value_eqb v e = true
      else first = None.
Proof.
  destruct exists_, first as [v|]; cbn [jsonpath_failures]; try done.
  - rewrite (opt_failures equals _ (fun e => value_eqb v e = true)) by (intros a; by rewrite one_failure).
    naive_solver.
  - naive_solver.
Qed.

Lemma xpath_failures_nil equals exists_ found :
  xpath_failures equals exists_ found = []
  <-> if exists_ : bool then exists v, found = Ok (Some v) /\ forall x, equals = Some x -> v = x
      else found = Ok None.
Proof.
  destruct exists_, found as [[v|]|e]; cbn [xpath_failures]; try (by naive_solver).
  rewrite (opt_failures equals _ (fun x => v = x)) by (intros a; by rewrite one_failure, bool_decide_eq_true).
  naive_solver.
Qed.

Lemma eqb_failure (b c : bool) (x : string) : (if Bool.eqb b c then [x] else []) = [] <-> b = negb c.
Proof. by destruct b, c. Qed.

(** A condition passes on a response exactly when its meaning holds there, keeps the name and the
    failure action of the plan's condition, asks for the script engine exactly when it is a JS
    condition, and explains every failure other than one the gRPC handler left unexplained. *)
Theorem evaluate_exact (spec : Condition) (c : CompiledCondition) (response : ProtocolResponse) :
  CompiledCondition_compile spec = Ok c ->
  let r := evaluate c response in
  (cr_pass r = true <-> holds (cd_kind c) response)
  /\ cr_name r = display_name spec /\ cr_on_failure r = on_failure spec
  /\ cr_needs_js r = match spec with CdJs _ e _ => Some e | _ => None end
  /\ (cr_pass r = false -> is_Some (cr_detail r)
      \/ exists id f e x g o, cd_kind c = KProtobufField id f e x g
                              /\ protobuf_outcome id response = Some o /\ oc_detail o = None).
Proof.
  intros Hc.
  assert (cd_name c = display_name spec /\ cd_on_failure c = on_failure spec
          /\ match cd_kind c with KJs e => Some e | _ => None end
             = match spec with CdJs _ e _ => Some e | _ => None end) as (<- & <- & <-).
  { revert Hc. unfold CompiledCondition_compile, result_bind, result_map_err.
    destruct spec; intros Hc; repeat case_match; simplify_eq/=; by repeat split. }
  cbv zeta. unfold evaluate, holds.
  pose proof (recorded (cd_name c) (cd_on_failure c)) as Hrec.
  destruct (cd_kind c) as [| | | |id ? ? ? ?| | | | |];
    try (edestruct Hrec as (Hp & Hn & Ha & Hj & Hd); [|split; [exact Hp|]; by eauto 6]).
  - apply status_failures_nil.
  - apply eqb_failure.
  - apply eqb_failure.
  - apply jsonpath_failures_nil.
  - unfold evaluate_protobuf. destruct (protobuf_outcome id response) as [o|] eqn:Ho; cbn.
    + repeat split; [by eauto|by intros (? & [= <-] & ?)|].
      intros _. destruct (oc_detail o) eqn:Hod; [by left; eauto|right; by eauto 12].
    + repeat split; [done|by intros (? & ? & ?)|by eauto].
  - apply xpath_failures_nil.
  - apply one_failure'.
  - apply size_failures_nil.
  - apply header_failures_nil.
  - cbn. by repeat split.
Qed.

(** [response] with another body. *)
Definition with_body (response : ProtocolResponse) (body : string) : ProtocolResponse :=
  mkResponse (rs_status response) (rs_status_text response) (rs_headers response) body (rs_timings response)
    (rs_bytes_sent response) (rs_bytes_received response) (rs_protocol_version response) (rs_error response)
    (rs_url response) (rs_extras response) (rs_grpc_protobuf_outcomes response).

(** A condition that says it does not read the body answers the same whatever the body is: the gRPC
    handler may leave the message undecoded for it. *)
Theorem unread_body_irrelevant (c : CompiledCondition) (response : ProtocolResponse) (body : string) :
  reads_body c = false -> evaluate c (with_body response body) = evaluate c response.
Proof. unfold reads_body, evaluate. by destruct (cd_kind c). Qed.

Lemma bind_protobuf_check_spec (c : CompiledCondition) (id : Z) :
  reads_body (bind_protobuf_check c id).1 = reads_body c
  /\ forall k, (bind_protobuf_check c id).2 = Some k -> fc_id k = id
     /\ forall response, protobuf_outcome (Some id) response = None ->
        cr_pass (evaluate (bind_protobuf_check c id).1 response) = false.
Proof.
  unfold reads_body, bind_protobuf_check.
  destruct (cd_kind c) eqn:Hk; cbn; rewrite ?Hk; split; try reflexivity; try by intros ? [=].
  intros k [= <-]. split; [reflexivity|]. intros response Ho. unfold evaluate. cbn [cd_kind]. by rewrite Ho.
Qed.
End Facts.

Module ConditionDemo.
Import ExtractDemo.

#[export] Instance demo_text : ConditionText := {| fmt_fixed _ _ := "?"; dur_display d := Z_to_string d |}.

Definition spec : Condition := CdBodyContains None "ok" false None.
Definition c : CompiledCondition := mkCondition "body contains 'ok'" ActContinue (KBodyContains "ok" false).
Definition answer (body : string) : ProtocolResponse := with_body (error_response "" "u") body.

Example evaluate_exact_witness :
  CompiledCondition_compile spec = Ok c /\ cr_pass (evaluate c (answer "all ok")) = true
  /\ (cr_pass (evaluate c (answer "bad")) = false -> is_Some (cr_detail (evaluate c (answer "bad")))
      \/ exists id f e x g o, cd_kind c = KProtobufField id f e x g
                              /\ protobuf_outcome id (answer "bad") = Some o /\ oc_detail o = None).
Proof.
  split; [by vm_compute|]. split; [by vm_compute|].
  exact (proj2 (proj2 (proj2 (proj2 (evaluate_exact spec c (answer "bad") eq_refl))))).
Defined.

Definition status_is : CompiledCondition := mkCondition "status is 200" ActContinue (KStatus (Some 200) None None).

Example unread_body_irrelevant_witness :
  reads_body status_is = false
  /\ evaluate status_is (with_body (answer "a") "b") = evaluate status_is (answer "a").
Proof. split; [reflexivity|]. apply (unread_body_irrelevant status_is (answer "a") "b"). reflexivity. Defined.
End ConditionDemo.
