(* ===== verification/Pacing.v ===== *)
(** * Pacing of one virtual user (crates/loadr-core/src/pacing.rs, and [Throttle], fault sampling of flow.rs)

    Think times and fault latency drawn from the virtual user's generator, iteration pacing,
    and the request-rate ceiling a scenario's virtual users share.  Instants are nanoseconds
    of one monotonic clock; adding a duration to one is not bounded here. *)

From Stdlib Require Import SpecFloat.
From S2P Require Import Prelude Float64 Str Dur Value.

Inductive ThinkTimeSpec :=
| TtConstant (duration : Duration)
| TtUniform (min max : Duration)
| TtGaussian (mean std_dev : Duration).

Inductive FaultDistribution := FaultUniform | FaultGaussian.
Inductive DropMode := BeforeSend | AfterResponse.

#[export] Instance DropMode_eq_dec : EqDecision DropMode.
Proof. solve_decision. Defined.

Record LatencyFault := mkLatencyFault {
  jitter : Duration;
  distribution : FaultDistribution;
}.

Record FaultSpec := mkFaultSpec {
  latency : option LatencyFault;
  drop_rate : option f64;
  drop_mode : option DropMode;
}.

Section Sampling.
Context {R : Type} `{!Rng R}.

(** Draws come with the generator after them; [None] is a panic of [Duration::from_secs_f64]. *)
Definition with_rng {A : Type} (d : may_panic A) (r : R) : may_panic (A * R) := (fun x => (x, r)) <$> d.

Definition sample_think_time (spec : ThinkTimeSpec) (r : R) : may_panic (Duration * R) :=
  match spec with
  | TtConstant d => Some (d, r)
  | TtUniform mn mx =>
      let lo := as_secs_f64 mn in
      let hi := as_secs_f64 mx in
      if f64_le hi lo then Some (mn, r)
      else let '(x, r) := random_f64_inclusive lo hi r in with_rng (from_secs_f64 x) r
  | TtGaussian mean std_dev =>
      let mu := as_secs_f64 mean in
      let '(x, r) := sample_normal mu (as_secs_f64 std_dev) r in
      with_rng (from_secs_f64 (f64_max (default mu x) f64_zero)) r
  end.

Definition sample_fault_jitter (l : LatencyFault) (r : R) : may_panic (Duration * R) :=
  let j := as_secs_f64 (jitter l) in
  if f64_le j f64_zero then Some (0, r)
  else match distribution l with
       | FaultUniform => let '(x, r) := random_f64 f64_zero j r in with_rng (from_secs_f64 x) r
       | FaultGaussian =>
           let '(x, r) := sample_normal f64_zero j r in
           with_rng (from_secs_f64 (f64_max (default f64_zero x) f64_zero)) r
       end.

Definition fault_drop_decision (rate : f64) (r : R) : bool * R :=
  if f64_gt rate f64_zero
  then let '(x, r) := random_f64 f64_zero (f64_of_Z 1) r in (f64_lt x rate, r)
  else (false, r).
End Sampling.

(** ** [Pacer] *)

Record Pacer := mkPacer {
  pc_interval : f64;
  pc_started : Z;
  pc_iterations : Z;
}.

Definition Pacer_new (iterations_per_second : f64) (now : Z) : Pacer :=
  mkPacer (f64_div (f64_of_Z 1) (f64_max iterations_per_second (f64_dec 1 9))) now 0.

Definition next_delay (p : Pacer) (now : Z) : may_panic (Duration * Pacer) :=
  let due := f64_mul (pc_interval p) (f64_of_Z (pc_iterations p)) in
  let p' := mkPacer (pc_interval p) (pc_started p) (u64_add (pc_iterations p) 1) in
  let elapsed := as_secs_f64 (u64_saturating_sub now (pc_started p)) in
  if f64_gt due elapsed
  then (fun d => (d, p')) <$> from_secs_f64 (f64_sub due elapsed)
  else Some (0, p').

(** ** [Throttle] *)

Definition throttle_interval (requests_per_second : f64) : may_panic Duration :=
  from_secs_f64 (f64_div (f64_of_Z 1) (f64_max requests_per_second (f64_dec 1 9))).

(** [reserve]: the next slot after this reservation and the wait before using the one granted.
    [now] is read before the lock is taken, so reservations may come with instants out of order. *)
Definition reserve (interval : Duration) (next_slot : option Z) (now : Z) : option Z * Duration :=
  let slot := match next_slot with
              | Some t => if Z.ltb now t then t else now
              | None => now
              end in
  (Some (slot + interval), u64_saturating_sub slot now).

(** Reservations in lock order: the instant each request goes out. *)
Fixpoint grants (interval : Duration) (next_slot : option Z) (nows : list Z) : list Z :=
  match nows with
  | [] => []
  | now :: nows =>
      let '(next_slot, wait) := reserve interval next_slot now in
      (now + wait) :: grants interval next_slot nows
  end.

Lemma grants_lower (interval : Duration) (t : Z) (nows : list Z) :
  0 <= interval -> Forall (fun g => t <= g) (grants interval (Some t) nows).
Proof.
  intros Hi. revert t. induction nows as [|now nows IH]; intros t; cbn; [constructor|].
  unfold u64_saturating_sub. constructor.
  - destruct (Z.ltb_spec now t); lia.
  - eapply Forall_impl; [apply IH|]. intros g. destruct (Z.ltb_spec now t); lia.
Qed.

Lemma grants_spaced (interval : Duration) (next_slot : option Z) (nows : list Z) (i j : nat) (a b : Z) :
  0 <= interval -> grants interval next_slot nows !! i = Some a -> grants interval next_slot nows !! j = Some b ->
  (i <= j)%nat -> a + Z.of_nat (j - i) * interval <= b.
Proof.
  intros Hi. revert next_slot i j a b.
  induction nows as [|now nows IH]; intros o i j a b Ha Hb Hij; [by destruct i|].
  cbn in Ha, Hb. destruct i as [|i], j as [|j]; cbn in Ha, Hb; simplify_eq.
  - lia.
  - set (slot := match o with Some t => if now <? t then t else now | None => now end) in *.
    assert (slot <= now + u64_saturating_sub slot now /\ now + u64_saturating_sub slot now <= slot) as [Hs1 Hs2].
    { unfold u64_saturating_sub, slot. destruct o as [t|]; [destruct (Z.ltb_spec now t)|]; lia. }
    assert (exists c, grants interval (Some (slot + interval)) nows !! 0%nat = Some c) as [c Hc].
    { apply lookup_lt_is_Some. apply lookup_lt_Some in Hb. lia. }
    pose proof (IH _ 0%nat j c b Hc Hb ltac:(lia)) as Hcb.
    pose proof (Forall_lookup_1 _ _ _ _ (grants_lower interval (slot + interval) nows Hi) Hc) as Hlow. cbn in Hlow. lia.
  - lia.
  - pose proof (IH _ i j a b Ha Hb ltac:(lia)). replace (S j - S i)%nat with (j - i)%nat by lia. lia.
Qed.

(** Whatever the instants at which the virtual users of a scenario ask, in whatever order they get
    the lock, two requests of a throttled scenario that are [n] grants apart go out at least [n]
    intervals apart, and none goes out before it was asked for: no window of [n] intervals sees more
    than [n + 1] of them. *)
Theorem throttle_spacing (interval : Duration) (nows : list Z) (i j : nat) (a b : Z) :
  0 <= interval ->
  grants interval None nows !! i = Some a -> grants interval None nows !! j = Some b -> (i <= j)%nat ->
  a + Z.of_nat (j - i) * interval <= b
  /\ (forall now, nows !! i = Some now -> now <= a).
Proof.
  intros Hi Ha Hb Hij. split; [exact (grants_spaced interval None nows i j a b Hi Ha Hb Hij)|].
  clear Hb Hij b j. revert Ha. generalize (@None Z) as o. revert i. induction nows as [|now nows IH]; intros i o Ha n Hn.
  - by rewrite lookup_nil in Hn.
  - destruct i as [|i]; cbn in Ha, Hn.
    + simplify_eq. unfold u64_saturating_sub. lia.
    + exact (IH i _ Ha n Hn).
Qed.

Example throttle_spacing_witness :
  grants 100 None [5; 7; 6; 400] = [5; 105; 205; 400]
  /\ 5 + Z.of_nat (2 - 0) * 100 <= 205 /\ (forall now, [5; 7; 6; 400] !! 0%nat = Some now -> now <= 5).
Proof.
  split; [reflexivity|].
  apply (throttle_spacing 100 [5; 7; 6; 400] 0 2 5 205); [lia|reflexivity|reflexivity|lia].
Defined.
