(* ===== verification/Feeds.v ===== *)
(** * Data feeds (crates/loadr-core/src/data.rs)

    Memory feeds walk their rows with a cursor that is shared by the run or kept per
    virtual user; plugin feeds generate rows on demand.  What the virtual users of a
    run share is explicit: the cursors inside [DataFeeds], the plugin objects, and a store
    of the sequence maps and counters that the branches of one virtual user share
    ([Arc]).  [next_row] touches shared state through one [fetch_add] only, so it is one
    step of the system in FeedSystem.v.

    Files, the CSV reader, the plugins and JSON text are parameters.  A Rust panic is
    [None]. *)

From Stdlib Require Import Ascii.
From S2P Require Import Prelude Float64 Str Dur Value Template Protocol Executor.

Notation Row := (list (string * string)).

(** ** The plan's description of a source (crates/loadr-config/src/plan.rs) *)

Inductive DataMode := Shared | PerVu.
Inductive OnEof := Recycle | StopAtEof.
Inductive PickStrategy := PickSequential | PickRandom | PickShuffle.

#[export] Instance DataMode_eq_dec : EqDecision DataMode.
Proof. solve_decision. Defined.
#[export] Instance OnEof_eq_dec : EqDecision OnEof.
Proof. solve_decision. Defined.
#[export] Instance PickStrategy_eq_dec : EqDecision PickStrategy.
Proof. solve_decision. Defined.

Inductive DataSource :=
| SrcCsv (path : string) (mode : DataMode) (on_eof : OnEof) (pick : PickStrategy) (delimiter : option Z)
    (has_header : bool)
| SrcJson (path : string) (mode : DataMode) (on_eof : OnEof) (pick : PickStrategy)
| SrcInline (rows : list (list (string * Value))) (mode : DataMode) (on_eof : OnEof) (pick : PickStrategy)
| SrcPlugin (source : string) (config : Value) (blocking : bool).

(** ** Rows and plugins *)

Record RowIdentity := mkRowIdentity {
  id_vu : Z;
  id_iteration : Z;
  id_scenario : string;
  id_request : option string;
}.

Record PluginRowCtx := mkPluginRowCtx {
  cx_source : string;
  cx_id : RowIdentity;
  cx_seq : Z;
  cx_ts_ms : Z;
}.

Inductive PluginRowResult :=
| PluginRow (row : Row)
| PluginExhausted.

(** [DataSourcePlugin]: an object the sources that name it share. *)
Class DataSourcePlugin (P : Type) := {
  plugin_set_placement : VuPlacement -> P -> P;
  plugin_init : list (string * Value) -> P -> result string P;
  plugin_next_row : PluginRowCtx -> P -> result string PluginRowResult * P;
  plugin_wants_results : P -> bool;
  plugin_on_result : string -> P -> P;
}.

Record MemoryFeed := mkMemoryFeed {
  mf_rows : list Row;
  mf_mode : DataMode;
  mf_on_eof : OnEof;
  mf_pick : PickStrategy;
  mf_shared_cursor : Z;
}.

(** [Feed::Plugin] holds the plugin by reference: its key among the shared objects. *)
Inductive Feed :=
| Memory (feed : MemoryFeed)
| OnDemand (plugin : string) (blocking : bool) (name : option string).

Record DataFeeds (P : Type) := mkDataFeeds {
  df_feeds : gmap string Feed;
  df_plugins : gmap string P;
  df_has_on_demand : bool;
  df_reports_results : bool;
}.
Arguments mkDataFeeds {P}.
Arguments df_feeds {P}.
Arguments df_plugins {P}.
Arguments df_has_on_demand {P}.
Arguments df_reports_results {P}.

Inductive NextRowError :=
| UnknownSource (source : string)
| Exhausted (source : string)
| PluginError (source_name message : string).

Definition NextRowError_to_string (e : NextRowError) : string :=
  match e with
  | UnknownSource s => "unknown data source `" +:+ s +:+ "`"
  | Exhausted s => "data source `" +:+ s +:+ "` is exhausted"
  | PluginError s m => "data source `" +:+ s +:+ "`: plugin error: " +:+ m
  end.

(** ** Per-VU state *)

Record PendingRow := mkPendingRow {
  pr_source : string;
  pr_seq : Z;
  pr_row : Row;
  pr_plugin : string;
  pr_blocking : bool;
}.

(** [plugin_sequences] and the values of [local_sequences] are references into [SeqStore]. *)
Record VuFeedState := mkVuFeedState {
  fs_cursors : gmap string Z;
  fs_shuffles : gmap string (list nat);
  fs_plugin_sequences : nat;
  fs_local_sequences : gmap string nat;
  fs_pending : list PendingRow;
}.

Record SeqStore := mkSeqStore {
  sq_maps : gmap nat (gmap string nat);
  sq_slots : gmap nat Z;
  sq_next : nat;
}.

Definition SeqStore_empty : SeqStore := mkSeqStore ∅ ∅ 0.

Definition VuFeedState_new (g : SeqStore) : VuFeedState * SeqStore :=
  let m := sq_next g in
  (mkVuFeedState ∅ ∅ m ∅ [], mkSeqStore (<[m := ∅]> (sq_maps g)) (sq_slots g) (S m)).

Definition fork_for_parallel (st : VuFeedState) : VuFeedState :=
  mkVuFeedState ∅ ∅ (fs_plugin_sequences st) ∅ [].

Definition has_pending (st : VuFeedState) : bool := match fs_pending st with [] => false | _ => true end.
Definition set_pending (p : list PendingRow) (st : VuFeedState) : VuFeedState :=
  mkVuFeedState (fs_cursors st) (fs_shuffles st) (fs_plugin_sequences st) (fs_local_sequences st) p.
Definition clear_pending (st : VuFeedState) : VuFeedState := set_pending [] st.

(** [fetch_add(1)] on a [u64] counter. *)
Definition fetch_add (slot : nat) (g : SeqStore) : Z * SeqStore :=
  let n := default 0 (sq_slots g !! slot) in
  (n, mkSeqStore (sq_maps g) (<[slot := u64_add n 1]> (sq_slots g)) (sq_next g)).

(** The slot of [source] in the shared map, created on first use. *)
Definition shared_slot (st : VuFeedState) (source : string) (g : SeqStore) : nat * SeqStore :=
  let m := default ∅ (sq_maps g !! fs_plugin_sequences st) in
  match m !! source with
  | Some slot => (slot, g)
  | None =>
      let slot := sq_next g in
      (slot, mkSeqStore (<[fs_plugin_sequences st := <[source := slot]> m]> (sq_maps g))
               (<[slot := 0]> (sq_slots g)) (S slot))
  end.

Definition next_plugin_seq (source : string) (st : VuFeedState) (g : SeqStore) : Z * VuFeedState * SeqStore :=
  match fs_local_sequences st !! source with
  | Some slot => let '(seq, g) := fetch_add slot g in (seq, st, g)
  | None =>
      let '(slot, g) := shared_slot st source g in
      let '(seq, g) := fetch_add slot g in
      (seq, mkVuFeedState (fs_cursors st) (fs_shuffles st) (fs_plugin_sequences st)
              (<[source := slot]> (fs_local_sequences st)) (fs_pending st), g)
  end.

(** ** Loading *)

Section Load.
Context {P : Type} `{!DataSourcePlugin P} `{JsonText}.
(** [std::fs::read], the [csv] crate (the header row, and each record or its error). *)
Context (read_file : string -> result string string).
Context (csv_headers : option Z -> string -> result string (list string)).
Context (csv_records : option Z -> bool -> string -> list (result string (list string))).

(** [Path::join] on Unix. *)
Definition path_join (base path : string) : string :=
  if starts_with path "/" then path
  else if str_is_empty base then path
  else if ends_with base "/" then base +:+ path
  else base +:+ "/" +:+ path.

Definition resolve_path (base_dir path : string) : string :=
  if starts_with path "/" then path else path_join base_dir path.

Definition make_feed (rows : list Row) (mode : DataMode) (on_eof : OnEof) (pick : PickStrategy) : Feed :=
  Memory (mkMemoryFeed rows mode on_eof pick 0).

(** The sources of each plugin, in the order the plan first names it. *)
Definition plugin_groups (sources : list (string * DataSource)) : list (string * list (string * Value)) :=
  foldl (fun groups '(name, source) =>
           match source with
           | SrcPlugin plugin_name config _ =>
               index_insert plugin_name
                 (index_insert name config (default [] (index_get plugin_name groups))) groups
           | _ => groups
           end) [] sources.

Fixpoint init_plugins (groups : list (string * list (string * Value))) (plugins initialized : gmap string P)
    (placement : VuPlacement) : result EngineError (gmap string P) :=
  match groups with
  | [] => Ok initialized
  | (plugin_name, group_configs) :: groups =>
      match plugins !! plugin_name with
      | None =>
          Err (EngineData plugin_name
                 ("plugin `" +:+ plugin_name
                  +:+ "` is not loaded or does not provide the data_source capability"))
      | Some plugin =>
          match plugin_init group_configs (plugin_set_placement placement plugin) with
          | Err message => Err (EngineData plugin_name message)
          | Ok plugin =>
              init_plugins groups (delete plugin_name plugins) (<[plugin_name := plugin]> initialized) placement
          end
      end
  end.

Fixpoint collect_results {E A : Type} (l : list (result E A)) : result E (list A) :=
  match l with
  | [] => Ok []
  | Ok a :: l => match collect_results l with Ok r => Ok (a :: r) | Err e => Err e end
  | Err e :: _ => Err e
  end.

Definition csv_row (headers fields : list string) : Row :=
  index_collect (imap (fun i field => (default ("col" +:+ Z_to_string (Z.of_nat i)) (headers !! i), field)) fields).

Definition load_csv (name resolved : string) (delimiter : option Z) (has_header : bool) :
    result EngineError (list Row) :=
  match read_file resolved with
  | Err e => Err (EngineData name ("cannot read " +:+ resolved +:+ ": " +:+ e))
  | Ok raw =>
      let delimiter := (fun d => d `mod` 256) <$> delimiter in
      match (if has_header then csv_headers delimiter raw else Ok []) with
      | Err e => Err (EngineData name e)
      | Ok headers =>
          match collect_results (csv_records delimiter has_header raw) with
          | Err e => Err (EngineData name e)
          | Ok [] => Err (EngineData name "CSV has no data rows")
          | Ok records => Ok (csv_row headers <$> records)
          end
      end
  end.

Definition row_of_object (m : list (string * Value)) : Row :=
  index_collect ((fun '(k, v) => (k, json_to_string v)) <$> m).

Definition load_json (name resolved : string) : result EngineError (list Row) :=
  match read_file resolved with
  | Err e => Err (EngineData name ("cannot read " +:+ resolved +:+ ": " +:+ e))
  | Ok raw =>
      match from_json raw with
      | Err e => Err (EngineData name ("invalid JSON: " +:+ e))
      | Ok (Array items) =>
          match collect_results
                  ((fun item => match item with
                                | Object m => Ok (row_of_object m)
                                | _ => Err (EngineData name "each JSON data row must be an object")
                                end) <$> items) with
          | Err e => Err e
          | Ok [] => Err (EngineData name "JSON data source is empty")
          | Ok rows => Ok rows
          end
      | Ok _ => Err (EngineData name "JSON data source must be an array of objects")
      end
  end.

Definition load_inline (name : string) (rows : list (list (string * Value))) : result EngineError (list Row) :=
  match rows with
  | [] => Err (EngineData name "inline data has no rows")
  | _ => Ok (row_of_object <$> rows)
  end.

(** One turn of the main loop: the feed of a source. *)
Definition load_feed (base_dir : string) (initialized : gmap string P) (name : string) (source : DataSource) :
    may_panic (result EngineError Feed) :=
  match source with
  | SrcPlugin plugin_name _ blocking =>
      match initialized !! plugin_name with
      | None => None
      | Some plugin =>
          Some (Ok (OnDemand plugin_name blocking (if plugin_wants_results plugin then Some name else None)))
      end
  | SrcCsv path mode on_eof pick delimiter has_header =>
      Some (let? rows := load_csv name (resolve_path base_dir path) delimiter has_header in
            Ok (make_feed rows mode on_eof pick))
  | SrcJson path mode on_eof pick =>
      Some (let? rows := load_json name (resolve_path base_dir path) in Ok (make_feed rows mode on_eof pick))
  | SrcInline rows mode on_eof pick =>
      Some (let? rows := load_inline name rows in Ok (make_feed rows mode on_eof pick))
  end.

Definition is_on_demand_source (s : DataSource) : bool := match s with SrcPlugin _ _ _ => true | _ => false end.
Definition feed_reports (f : Feed) : bool := match f with OnDemand _ _ (Some _) => true | _ => false end.

Fixpoint load_feeds (base_dir : string) (initialized : gmap string P) (sources : list (string * DataSource))
    (d : DataFeeds P) : may_panic (result EngineError (DataFeeds P)) :=
  match sources with
  | [] => Some (Ok d)
  | (name, source) :: sources =>
      match load_feed base_dir initialized name source with
      | None => None
      | Some (Err e) => Some (Err e)
      | Some (Ok feed) =>
          load_feeds base_dir initialized sources
            (mkDataFeeds (<[name := feed]> (df_feeds d)) (df_plugins d)
               (df_has_on_demand d || is_on_demand_source source) (df_reports_results d || feed_reports feed))
      end
  end.

(** [DataFeeds::load]. *)
Definition load (sources : list (string * DataSource)) (base_dir : string) (plugins : gmap string P)
    (placement : VuPlacement) : may_panic (result EngineError (DataFeeds P)) :=
  match init_plugins (plugin_groups sources) plugins ∅ placement with
  | Err e => Some (Err e)
  | Ok initialized => load_feeds base_dir initialized sources (mkDataFeeds ∅ initialized false false)
  end.
End Load.

(** ** Fetching *)

Section Fetch.
Context {P : Type} `{!DataSourcePlugin P} {R : Type} `{!Rng R}.

(** What a fetch reads and writes: the run's feeds, the store, the state and the generator
    of the calling virtual user. *)
Record FetchEnv := mkFetchEnv {
  fe_data : DataFeeds P;
  fe_store : SeqStore;
  fe_state : VuFeedState;
  fe_rng : R;
}.

Definition is_on_demand (d : DataFeeds P) (name : string) : bool :=
  match df_feeds d !! name with Some (OnDemand _ _ _) => true | _ => false end.

Definition set_plugin (k : string) (p : P) (d : DataFeeds P) : DataFeeds P :=
  mkDataFeeds (df_feeds d) (<[k := p]> (df_plugins d)) (df_has_on_demand d) (df_reports_results d).
Definition set_feed (k : string) (f : Feed) (d : DataFeeds P) : DataFeeds P :=
  mkDataFeeds (<[k := f]> (df_feeds d)) (df_plugins d) (df_has_on_demand d) (df_reports_results d).

Definition usize_add (a b : Z) : Z := u64_add a b.

(** The cursor the mode asks for, advanced by one ([fetch_add], [*c += 1]). *)
Definition next_cursor (source : string) (feed : MemoryFeed) (e : FetchEnv) : Z * FetchEnv :=
  match mf_mode feed with
  | Shared =>
      (mf_shared_cursor feed,
       mkFetchEnv
         (set_feed source (Memory (mkMemoryFeed (mf_rows feed) (mf_mode feed) (mf_on_eof feed) (mf_pick feed)
                                     (usize_add (mf_shared_cursor feed) 1))) (fe_data e))
         (fe_store e) (fe_state e) (fe_rng e))
  | PerVu =>
      let st := fe_state e in
      let c := default 0 (fs_cursors st !! source) in
      (c, mkFetchEnv (fe_data e) (fe_store e)
            (mkVuFeedState (<[source := usize_add c 1]> (fs_cursors st)) (fs_shuffles st)
               (fs_plugin_sequences st) (fs_local_sequences st) (fs_pending st))
            (fe_rng e))
  end.

(** The virtual user's own permutation, drawn on first use. *)
Definition shuffle_order (source : string) (len : nat) (e : FetchEnv) : list nat * FetchEnv :=
  let st := fe_state e in
  match fs_shuffles st !! source with
  | Some order => (order, e)
  | None =>
      let '(order, rng) := shuffle (seq 0 len) (fe_rng e) in
      (order, mkFetchEnv (fe_data e) (fe_store e)
                (mkVuFeedState (fs_cursors st) (<[source := order]> (fs_shuffles st))
                   (fs_plugin_sequences st) (fs_local_sequences st) (fs_pending st)) rng)
  end.

Definition memory_row (source : string) (feed : MemoryFeed) (e : FetchEnv) :
    may_panic (result NextRowError Row * FetchEnv) :=
  let len := length (mf_rows feed) in
  match mf_pick feed with
  | PickRandom =>
      if Nat.eqb len 0 then None
      else
        let '(i, rng) := random_index len (fe_rng e) in
        (fun row => (Ok row, mkFetchEnv (fe_data e) (fe_store e) (fe_state e) rng)) <$> mf_rows feed !! i
  | pick =>
      let '(cursor, e) := next_cursor source feed e in
      if Z.leb (Z.of_nat len) cursor && bool_decide (mf_on_eof feed = StopAtEof)
      then Some (Err (Exhausted source), e)
      else if Nat.eqb len 0 then None
      else
        let at_cursor := Z.to_nat (cursor `mod` Z.of_nat len) in
        match pick with
        | PickShuffle =>
            let '(order, e) := shuffle_order source len e in
            i ← order !! at_cursor; (fun row => (Ok row, e)) <$> mf_rows feed !! i
        | _ => (fun row => (Ok row, e)) <$> mf_rows feed !! at_cursor
        end
  end.

Definition push_pending (p : PendingRow) (st : VuFeedState) : VuFeedState :=
  set_pending (fs_pending st ++ [p]) st.

Definition plugin_row (source plugin : string) (blocking : bool) (name : option string) (id : RowIdentity)
    (now_ms : Z) (e : FetchEnv) : may_panic (result NextRowError Row * FetchEnv) :=
  match df_plugins (fe_data e) !! plugin with
  | None => None
  | Some p =>
      let '(seq, st, g) := next_plugin_seq source (fe_state e) (fe_store e) in
      let '(fetched, p) := plugin_next_row (mkPluginRowCtx source id seq now_ms) p in
      let d := set_plugin plugin p (fe_data e) in
      Some (match fetched with
            | Ok (PluginRow row) =>
                let st := match name with
                          | Some name => push_pending (mkPendingRow name seq row plugin blocking) st
                          | None => st
                          end in
                (Ok row, mkFetchEnv d g st (fe_rng e))
            | Ok PluginExhausted => (Err (Exhausted source), mkFetchEnv d g st (fe_rng e))
            | Err message => (Err (PluginError source message), mkFetchEnv d g st (fe_rng e))
            end)
  end.

Definition next_row (source : string) (id : RowIdentity) (now_ms : Z) (e : FetchEnv) :
    may_panic (result NextRowError Row * FetchEnv) :=
  match df_feeds (fe_data e) !! source with
  | None => Some (Err (UnknownSource source), e)
  | Some (OnDemand plugin blocking name) => plugin_row source plugin blocking name id now_ms e
  | Some (Memory feed) => memory_row source feed e
  end.

(** [report_result]: [encode] is [serde_json::to_string] on the payload. *)
Record ResultPayload := mkResultPayload {
  rp_source : string;
  rp_id : RowIdentity;
  rp_seq : Z;
  rp_row : Row;
  rp_response : ProtocolResponse;
}.
Context (encode : ResultPayload -> option string).

Definition report_one (id : RowIdentity) (response : ProtocolResponse) (d : DataFeeds P) (entry : PendingRow) :
    DataFeeds P :=
  match encode (mkResultPayload (pr_source entry) id (pr_seq entry) (pr_row entry) response),
        df_plugins d !! pr_plugin entry with
  | Some json, Some p => set_plugin (pr_plugin entry) (plugin_on_result json p) d
  | _, _ => d
  end.

Definition report_result (id : RowIdentity) (response : ProtocolResponse) (e : FetchEnv) : FetchEnv :=
  mkFetchEnv (foldl (report_one id response) (fe_data e) (fs_pending (fe_state e))) (fe_store e)
    (clear_pending (fe_state e)) (fe_rng e).
End Fetch.
Arguments FetchEnv P R : clear implicits.
