(* ===== verification/FeedSystem.v ===== *)
(** * What the virtual users of a run draw from its data sources

    The fetches of all virtual users, and of the branches their parallel steps fork,
    interleave in any order over the feeds of Feeds.v.  A source with one shared cursor
    hands its rows out in order, each once per lap; a source with per-VU cursors is
    walked in full by every virtual user; the rows of a plugin are numbered per virtual
    user without gaps or repetitions. *)

From Stdlib Require Import Ascii.
From S2P Require Import Prelude Float64 Str Dur Value Template Protocol Executor Feeds.

Section FeedSystem.
Context {P : Type} `{!DataSourcePlugin P} {R : Type} `{!Rng R}.
Context (encode : ResultPayload -> option string).

Record VuFeed := mkVuFeed {
  vf_vu : Z;
  vf_state : VuFeedState;
  vf_rng : R;
}.

(** One fetch, as the virtual user sees it; [ft_seq] is the number a plugin was given. *)
Record Fetched := mkFetched {
  ft_key : nat;
  ft_vu : Z;
  ft_source : string;
  ft_result : result NextRowError Row;
  ft_seq : option Z;
}.

Record System := mkSystem {
  sy_data : DataFeeds P;
  sy_store : SeqStore;
  sy_vus : gmap nat VuFeed;
  sy_log : list Fetched;
}.

Definition env_of (s : System) (v : VuFeed) : FetchEnv P R :=
  mkFetchEnv (sy_data s) (sy_store s) (vf_state v) (vf_rng v).

Definition fetch_seq (source : string) (e : FetchEnv P R) : option Z :=
  match df_feeds (fe_data e) !! source with
  | Some (OnDemand _ _ _) => Some (next_plugin_seq source (fe_state e) (fe_store e)).1.1
  | _ => None
  end.

Definition back (k : nat) (v : VuFeed) (e : FetchEnv P R) (log : list Fetched) (s : System) : System :=
  mkSystem (fe_data e) (fe_store e) (<[k := mkVuFeed (vf_vu v) (fe_state e) (fe_rng e)]> (sy_vus s)) log.

(** A new virtual user has a number of its own; a branch shares its parent's. *)
Inductive step : System -> System -> Prop :=
| step_new s k vu rng :
    sy_vus s !! k = None -> (forall j v, sy_vus s !! j = Some v -> vf_vu v <> vu) ->
    step s (mkSystem (sy_data s) (VuFeedState_new (sy_store s)).2
              (<[k := mkVuFeed vu (VuFeedState_new (sy_store s)).1 rng]> (sy_vus s)) (sy_log s))
| step_fork s k v k' rng :
    sy_vus s !! k = Some v -> sy_vus s !! k' = None ->
    step s (mkSystem (sy_data s) (sy_store s)
              (<[k' := mkVuFeed (vf_vu v) (fork_for_parallel (vf_state v)) rng]> (sy_vus s)) (sy_log s))
| step_fetch s k v source id now_ms r e :
    sy_vus s !! k = Some v -> next_row source id now_ms (env_of s v) = Some (r, e) ->
    step s (back k v e (sy_log s ++ [mkFetched k (vf_vu v) source r (fetch_seq source (env_of s v))]) s)
| step_clear s k v :
    sy_vus s !! k = Some v ->
    step s (mkSystem (sy_data s) (sy_store s)
              (<[k := mkVuFeed (vf_vu v) (clear_pending (vf_state v)) (vf_rng v)]> (sy_vus s)) (sy_log s))
| step_report s k v id response :
    sy_vus s !! k = Some v ->
    step s (back k v (report_result encode id response (env_of s v)) (sy_log s) s).

Definition System_new (d : DataFeeds P) : System := mkSystem d SeqStore_empty ∅ [].
Definition reach (d : DataFeeds P) (s : System) : Prop := rtc step (System_new d) s.

(** What was drawn from a source, by everyone and by one state. *)
Definition drawn (source : string) (log : list Fetched) : list (result NextRowError Row) :=
  ft_result <$> filter (fun f => ft_source f = source) log.
Definition drawn_by (k : nat) (source : string) (log : list Fetched) : list (result NextRowError Row) :=
  ft_result <$> filter (fun f => ft_key f = k /\ ft_source f = source) log.
(** The numbers a plugin was given for a virtual user, branches included. *)
Definition seqs_of (vu : Z) (source : string) (log : list Fetched) : list Z :=
  omap ft_seq (filter (fun f => ft_vu f = vu /\ ft_source f = source) log).

(** The specification of a walk: the [i]-th row in the order, laps or stops at the end. *)
Definition walk (source : string) (feed : MemoryFeed) (order : list nat) (i : nat) : result NextRowError Row :=
  let len := length (mf_rows feed) in
  if Nat.leb len i && bool_decide (mf_on_eof feed = StopAtEof) then Err (Exhausted source)
  else Ok (default [] (mf_rows feed !! default 0%nat (order !! (i mod len)%nat))).

(** ** One fetch *)

Definition bump (feed : MemoryFeed) : MemoryFeed :=
  mkMemoryFeed (mf_rows feed) (mf_mode feed) (mf_on_eof feed) (mf_pick feed) (usize_add (mf_shared_cursor feed) 1).

Definition walks (m : DataMode) (feed : MemoryFeed) : bool :=
  bool_decide (mf_mode feed = m) && negb (bool_decide (mf_pick feed = PickRandom)).

Definition cursor_at (source : string) (feed : MemoryFeed) (e : FetchEnv P R) : Z :=
  match mf_mode feed with
  | Shared => mf_shared_cursor feed
  | PerVu => default 0 (fs_cursors (fe_state e) !! source)
  end.

Definition in_order (feed : MemoryFeed) (order : list nat) : Prop := order ≡ₚ seq 0 (length (mf_rows feed)).

Lemma in_order_lookup (feed : MemoryFeed) (order : list nat) (i : nat) :
  mf_rows feed <> [] -> in_order feed order ->
  exists j row, order !! (i mod length (mf_rows feed))%nat = Some j /\ mf_rows feed !! j = Some row.
Proof.
  intros Hr Hp. assert (length (mf_rows feed) <> 0)%nat as Hl by (by destruct (mf_rows feed)).
  pose proof (Nat.mod_upper_bound i _ Hl) as Hi.
  destruct (lookup_lt_is_Some_2 order (i mod length (mf_rows feed))%nat) as [j Hj].
  { rewrite Hp, length_seq. done. }
  assert (j ∈ seq 0 (length (mf_rows feed))) as Hin by (rewrite <- Hp; by eapply list_elem_of_lookup_2).
  apply elem_of_seq in Hin. destruct (lookup_lt_is_Some_2 (mf_rows feed) j) as [row Hrow]; [lia|]. eauto.
Qed.

Lemma cursor_mod (c : Z) (len : nat) : 0 <= c -> len <> 0%nat ->
  Z.to_nat (c `mod` Z.of_nat len) = (Z.to_nat c mod len)%nat.
Proof. intros Hc Hl. rewrite Z2Nat.inj_mod by lia. by rewrite Nat2Z.id. Qed.

(** A walk reads the row the specification names, whatever the order. *)
Lemma walk_row (source : string) (feed : MemoryFeed) (order : list nat) (c : Z) :
  mf_rows feed <> [] -> in_order feed order -> 0 <= c ->
  Z.leb (Z.of_nat (length (mf_rows feed))) c && bool_decide (mf_on_eof feed = StopAtEof) = false ->
  (i ← order !! Z.to_nat (c `mod` Z.of_nat (length (mf_rows feed))); Ok <$> mf_rows feed !! i)
  = Some (walk source feed order (Z.to_nat c)).
Proof.
  intros Hr Hp Hc Hb. assert (length (mf_rows feed) <> 0)%nat as Hl by (by destruct (mf_rows feed)).
  destruct (in_order_lookup feed order (Z.to_nat c) Hr Hp) as (j & row & Hj & Hrow).
  rewrite cursor_mod, Hj by done. simpl. rewrite Hrow. simpl. unfold walk. rewrite Hj. simpl.
  rewrite Hrow. simpl. replace (Nat.leb _ _) with (Z.leb (Z.of_nat (length (mf_rows feed))) c); [by rewrite Hb|].
  apply eq_bool_prop_intro. rewrite !Is_true_true, Z.leb_le, Nat.leb_le. lia.
Qed.

Lemma walk_end (source : string) (feed : MemoryFeed) (order : list nat) (c : Z) :
  0 <= c -> Z.leb (Z.of_nat (length (mf_rows feed))) c && bool_decide (mf_on_eof feed = StopAtEof) = true ->
  walk source feed order (Z.to_nat c) = Err (Exhausted source).
Proof.
  intros Hc Hb. unfold walk. replace (Nat.leb _ _) with (Z.leb (Z.of_nat (length (mf_rows feed))) c); [by rewrite Hb|].
  apply eq_bool_prop_intro. rewrite !Is_true_true, Z.leb_le, Nat.leb_le. lia.
Qed.

Definition set_shuffles (sh : gmap string (list nat)) (st : VuFeedState) : VuFeedState :=
  mkVuFeedState (fs_cursors st) sh (fs_plugin_sequences st) (fs_local_sequences st) (fs_pending st).
Definition drew (sh : gmap string (list nat)) (rng : R) (e : FetchEnv P R) : FetchEnv P R :=
  mkFetchEnv (fe_data e) (fe_store e) (set_shuffles sh (fe_state e)) rng.
Definition advance (source : string) (feed : MemoryFeed) (e : FetchEnv P R) : FetchEnv P R :=
  (next_cursor source feed e).2.

Lemma next_cursor_eq source feed (e : FetchEnv P R) :
  next_cursor source feed e = (cursor_at source feed e, advance source feed e).
Proof. unfold advance, next_cursor, cursor_at. by destruct (mf_mode feed). Qed.

Lemma drew_same (e : FetchEnv P R) : drew (fs_shuffles (fe_state e)) (fe_rng e) e = e.
Proof. by destruct e as [? ? [] ?]. Qed.

Lemma advance_shuffles source feed (e : FetchEnv P R) :
  fs_shuffles (fe_state (advance source feed e)) = fs_shuffles (fe_state e) /\ fe_rng (advance source feed e) = fe_rng e.
Proof. unfold advance, next_cursor. by destruct (mf_mode feed). Qed.

(** Memory feeds: the row is the walk's at the cursor, in some order of the rows, the
    file's for [sequential] and the virtual user's own for [shuffle]. *)
Lemma memory_row_walk `{!RngLaws R} source feed (e : FetchEnv P R) :
  mf_pick feed <> PickRandom -> mf_rows feed <> [] -> 0 <= cursor_at source feed e ->
  (forall o, fs_shuffles (fe_state e) !! source = Some o -> in_order feed o) ->
  exists order sh rng,
    memory_row source feed e
    = Some (walk source feed order (Z.to_nat (cursor_at source feed e)), drew sh rng (advance source feed e))
    /\ in_order feed order
    /\ (mf_pick feed = PickSequential -> order = seq 0 (length (mf_rows feed)))
    /\ (forall s, s <> source -> sh !! s = fs_shuffles (fe_state e) !! s)
    /\ (mf_pick feed = PickSequential -> sh = fs_shuffles (fe_state e))
    /\ (forall o, fs_shuffles (fe_state e) !! source = Some o -> mf_pick feed = PickShuffle -> sh !! source = Some o)
    /\ (mf_pick feed = PickShuffle -> sh !! source = Some order
        \/ sh = fs_shuffles (fe_state e)
           /\ Z.leb (Z.of_nat (length (mf_rows feed))) (cursor_at source feed e)
              && bool_decide (mf_on_eof feed = StopAtEof) = true).
Proof.
  intros Hp Hr Hc Hs. unfold memory_row. rewrite next_cursor_eq.
  pose proof (advance_shuffles source feed e) as [Has Har].
  pose proof (drew_same (advance source feed e)) as Hd. rewrite Has, Har in Hd.
  destruct (mf_pick feed) eqn:Hpk; [|done|].
  - exists (seq 0 (length (mf_rows feed))), (fs_shuffles (fe_state e)), (fe_rng e). rewrite Hd.
    split; [|split; [unfold in_order; done|repeat split; done]].
    destruct (Z.leb _ _ && _) eqn:Hb; [by rewrite walk_end|].
    rewrite (proj2 (Nat.eqb_neq _ _)) by (by destruct (mf_rows feed)).
    pose proof (walk_row source feed (seq 0 (length (mf_rows feed))) _ Hr (reflexivity _) Hc Hb) as Hw.
    assert (length (mf_rows feed) <> 0)%nat as Hl by (by destruct (mf_rows feed)).
    rewrite cursor_mod in Hw |- * by done. rewrite lookup_seq_lt in Hw by (by apply Nat.mod_upper_bound).
    simpl in Hw. destruct (mf_rows feed !! _); [|done]. simpl in *. by injection Hw as ->.
  - destruct (Z.leb _ _ && _) eqn:Hb.
    + destruct (fs_shuffles (fe_state e) !! source) as [o|] eqn:Ho.
      * exists o, (fs_shuffles (fe_state e)), (fe_rng e). rewrite Hd, walk_end by done.
        split_and!; [done|by apply Hs|done..| |]; [by intros ? [= ->]|by left].
      * exists (seq 0 (length (mf_rows feed))), (fs_shuffles (fe_state e)), (fe_rng e).
        rewrite Hd, walk_end by done. unfold in_order. split_and!; [done..|by right].
    + rewrite (proj2 (Nat.eqb_neq _ _)) by (by destruct (mf_rows feed)).
      unfold shuffle_order. rewrite Has, Har.
      destruct (fs_shuffles (fe_state e) !! source) as [o|] eqn:Ho.
      * exists o, (fs_shuffles (fe_state e)), (fe_rng e). rewrite Hd.
        pose proof (walk_row source feed o _ Hr (Hs o eq_refl) Hc Hb) as Hw.
        split_and!; [|by apply Hs|done..| |]; [|by intros ? [= ->]|by left].
        destruct (o !! _) as [j|]; [|done]. simpl in *. destruct (mf_rows feed !! j); [|done].
        simpl in *. by injection Hw as ->.
      * destruct (shuffle (seq 0 (length (mf_rows feed))) (fe_rng e)) as [o rng] eqn:Hsh.
        assert (in_order feed o) as Hio.
        { unfold in_order. pose proof (shuffle_perm (seq 0 (length (mf_rows feed))) (fe_rng e)) as Hq.
          by rewrite Hsh in Hq. }
        exists o, (<[source:=o]> (fs_shuffles (fe_state e))), rng.
        pose proof (walk_row source feed o _ Hr Hio Hc Hb) as Hw.
        split_and!; [|done| |by intros; apply lookup_insert_ne| | |]; [|done..| |].
        -- destruct (o !! _) as [j|]; [|done]. simpl in *. destruct (mf_rows feed !! j); [|done].
           simpl in *. injection Hw as ->. unfold drew, set_shuffles. rewrite <- Has. done.
        -- done.
        -- intros _. left. apply lookup_insert_eq.
Qed.

(** ** The invariant of the cursors *)

(** What [load] returns: rows to walk, cursors at the start, every plugin initialised. *)
Definition loaded (d : DataFeeds P) : Prop :=
  map_Forall (fun _ f => match f with
                         | Memory feed => mf_rows feed <> [] /\ mf_shared_cursor feed = 0
                         | OnDemand plugin _ _ => is_Some (df_plugins d !! plugin)
                         end) (df_feeds d).

Definition at_cursor (c : Z) (feed : MemoryFeed) : MemoryFeed :=
  mkMemoryFeed (mf_rows feed) (mf_mode feed) (mf_on_eof feed) (mf_pick feed) c.

Definition count (l : list (result NextRowError Row)) : Z := u64_wrap (Z.of_nat (length l)).

(** A feed after the fetches of the log. *)
Definition feed_now (source : string) (log : list Fetched) (f : Feed) : Feed :=
  match f with
  | Memory feed => Memory (at_cursor (if walks Shared feed then count (drawn source log) else 0) feed)
  | f => f
  end.

Record inv (d : DataFeeds P) (s : System) : Prop := mkInv {
  inv_feeds source : df_feeds (sy_data s) !! source = feed_now source (sy_log s) <$> df_feeds d !! source;
  inv_plugins k : is_Some (df_plugins d !! k) -> is_Some (df_plugins (sy_data s) !! k);
  inv_orders k v source o :
    sy_vus s !! k = Some v -> fs_shuffles (vf_state v) !! source = Some o ->
    exists feed, df_feeds d !! source = Some (Memory feed) /\ in_order feed o;
  inv_cursors k v source feed :
    sy_vus s !! k = Some v -> df_feeds d !! source = Some (Memory feed) -> walks PerVu feed = true ->
    default 0 (fs_cursors (vf_state v) !! source) = count (drawn_by k source (sy_log s));
  inv_shared source feed :
    df_feeds d !! source = Some (Memory feed) -> walks Shared feed = true -> mf_pick feed = PickSequential ->
    let l := drawn source (sy_log s) in
    Z.of_nat (length l) <= u64_modulus ->
    l = walk source feed (seq 0 (length (mf_rows feed))) <$> seq 0 (length l);
  inv_own k v source feed :
    sy_vus s !! k = Some v -> df_feeds d !! source = Some (Memory feed) -> walks PerVu feed = true ->
    let l := drawn_by k source (sy_log s) in
    Z.of_nat (length l) <= u64_modulus ->
    exists order, in_order feed order
      /\ (mf_pick feed = PickSequential -> order = seq 0 (length (mf_rows feed)))
      /\ (mf_pick feed = PickShuffle -> fs_shuffles (vf_state v) !! source = Some order
                                        \/ fs_shuffles (vf_state v) !! source = None /\ l = [])
      /\ l = walk source feed order <$> seq 0 (length l);
  inv_keys f : f ∈ sy_log s -> is_Some (sy_vus s !! ft_key f);
}.

Lemma drawn_snoc source log (f : Fetched) :
  drawn source (log ++ [f]) = drawn source log ++ (if decide (ft_source f = source) then [ft_result f] else []).
Proof.
  unfold drawn. rewrite filter_app, fmap_app. f_equal. destruct (decide _) as [Hd|Hd].
  - by rewrite filter_cons_True.
  - by rewrite filter_cons_False.
Qed.

Lemma drawn_by_snoc k source log (f : Fetched) :
  drawn_by k source (log ++ [f])
  = drawn_by k source log ++ (if decide (ft_key f = k /\ ft_source f = source) then [ft_result f] else []).
Proof.
  unfold drawn_by. rewrite filter_app, fmap_app. f_equal. destruct (decide _) as [Hd|Hd].
  - by rewrite filter_cons_True.
  - by rewrite filter_cons_False.
Qed.

Lemma drawn_by_fresh (s : System) k source :
  (forall f, f ∈ sy_log s -> is_Some (sy_vus s !! ft_key f)) -> sy_vus s !! k = None ->
  drawn_by k source (sy_log s) = [].
Proof.
  intros Hk Hn. unfold drawn_by. rewrite filter_none; [done|]. apply Forall_forall.
  intros f Hf [He _]. apply Hk in Hf as [v Hv]. by rewrite He, Hn in Hv.
Qed.

Lemma count_snoc (l : list (result NextRowError Row)) r : count (l ++ [r]) = usize_add (count l) 1.
Proof.
  unfold count, usize_add, u64_add, u64_wrap. rewrite length_app. simpl length.
  rewrite Nat2Z.inj_add. change (Z.of_nat 1) with 1. by rewrite Z.add_mod_idemp_l.
Qed.

Lemma count_small (l : list (result NextRowError Row)) :
  Z.of_nat (length l) < u64_modulus -> Z.to_nat (count l) = length l.
Proof. intros Hl. unfold count. rewrite u64_wrap_small by (unfold is_u64; lia). lia. Qed.

Lemma count_nonneg (l : list (result NextRowError Row)) : 0 <= count l.
Proof. unfold count. apply u64_wrap_range. Qed.

Lemma fmap_seq_snoc {A} (f : nat -> A) (l : list A) (x : A) :
  l = f <$> seq 0 (length l) -> x = f (length l) -> l ++ [x] = f <$> seq 0 (length (l ++ [x])).
Proof.
  intros Hl ->. rewrite length_app. simpl length. rewrite seq_app, fmap_app, <- Hl. done.
Qed.

(** A state that is new, or changed in nothing a walk reads. *)
Definition walk_state (s : System) (k : nat) (st : VuFeedState) : Prop :=
  match sy_vus s !! k with
  | Some v => fs_cursors st = fs_cursors (vf_state v) /\ fs_shuffles st = fs_shuffles (vf_state v)
  | None => fs_cursors st = ∅ /\ fs_shuffles st = ∅
  end.

Lemma inv_quiet d s k v dt g :
  inv d s -> walk_state s k (vf_state v) -> df_feeds dt = df_feeds (sy_data s) ->
  (forall k, is_Some (df_plugins (sy_data s) !! k) -> is_Some (df_plugins dt !! k)) ->
  inv d (mkSystem dt g (<[k := v]> (sy_vus s)) (sy_log s)).
Proof.
  intros Hi Hw Hf Hp. unfold walk_state in Hw.
  assert (sy_vus s !! k = None -> forall source, drawn_by k source (sy_log s) = []) as Hfresh.
  { intros Hn source. apply drawn_by_fresh; [apply (inv_keys _ _ Hi)|done]. }
  constructor; simpl.
  - intros source. rewrite Hf. apply (inv_feeds _ _ Hi).
  - intros j Hj. by apply Hp, (inv_plugins _ _ Hi).
  - intros j w source o [[<- <-]|[Hne Hj]]%lookup_insert_Some Ho; [|by eapply (inv_orders _ _ Hi)].
    destruct (sy_vus s !! k) as [v0|] eqn:Hv; destruct Hw as [_ Hw]; rewrite Hw in Ho; [|done].
    by eapply (inv_orders _ _ Hi).
  - intros j w source feed [[<- <-]|[Hne Hj]]%lookup_insert_Some Hd Hwk; [|by eapply (inv_cursors _ _ Hi)].
    destruct (sy_vus s !! k) as [v0|] eqn:Hv; destruct Hw as [Hw _]; rewrite Hw.
    + by eapply (inv_cursors _ _ Hi).
    + by rewrite Hfresh.
  - apply (inv_shared _ _ Hi).
  - intros j w source feed [[<- <-]|[Hne Hj]]%lookup_insert_Some Hd Hwk; [|by eapply (inv_own _ _ Hi)].
    destruct (sy_vus s !! k) as [v0|] eqn:Hv; destruct Hw as [_ Hw]; rewrite Hw.
    + by eapply (inv_own _ _ Hi).
    + rewrite Hfresh by done. intros _. exists (seq 0 (length (mf_rows feed))). unfold in_order. naive_solver.
  - intros f Hf'. apply lookup_insert_is_Some'. right. by apply (inv_keys _ _ Hi).
Qed.

Lemma set_plugin_keeps k k' (p : P) dt :
  is_Some (df_plugins dt !! k) -> is_Some (df_plugins (set_plugin k' p dt) !! k).
Proof. intros Hk. simpl. apply lookup_insert_is_Some'. by right. Qed.

Lemma report_feeds id response (e : FetchEnv P R) :
  df_feeds (fe_data (report_result encode id response e)) = df_feeds (fe_data e)
  /\ forall k, is_Some (df_plugins (fe_data e) !! k) -> is_Some (df_plugins (fe_data (report_result encode id response e)) !! k).
Proof.
  unfold report_result. simpl. generalize (fe_data e). induction (fs_pending (fe_state e)) as [|x l IH]; intros dt; [done|].
  simpl. destruct (IH (report_one encode id response dt x)) as [Hf Hp].
  assert (df_feeds (report_one encode id response dt x) = df_feeds dt
    /\ forall k, is_Some (df_plugins dt !! k) -> is_Some (df_plugins (report_one encode id response dt x) !! k)) as [Hf1 Hp1].
  { unfold report_one. repeat case_match; try done. split; [done|]. intros. by apply set_plugin_keeps. }
  rewrite Hf, Hf1. split; [done|]. intros k Hk. by apply Hp, Hp1.
Qed.

(** Looking a source up among the loaded ones. *)
Lemma inv_lookup d s source :
  inv d s ->
  match df_feeds (sy_data s) !! source with
  | None => df_feeds d !! source = None
  | Some (OnDemand p b n) => df_feeds d !! source = Some (OnDemand p b n)
  | Some (Memory feed) => exists feed0, df_feeds d !! source = Some (Memory feed0)
      /\ feed = at_cursor (if walks Shared feed0 then count (drawn source (sy_log s)) else 0) feed0
  end.
Proof.
  intros Hi. rewrite (inv_feeds _ _ Hi). destruct (df_feeds d !! source) as [[feed|p b n]|]; simpl; eauto.
Qed.

(** A fetch changes the log of its own source and state only. *)
Lemma inv_fetch_other d s k v source r sq dt g st rng :
  inv d s -> sy_vus s !! k = Some v ->
  (forall s', df_feeds dt !! s' = feed_now s' (sy_log s ++ [mkFetched k (vf_vu v) source r sq]) <$> df_feeds d !! s') ->
  (forall k, is_Some (df_plugins (sy_data s) !! k) -> is_Some (df_plugins dt !! k)) ->
  (forall s', s' <> source -> fs_cursors st !! s' = fs_cursors (vf_state v) !! s'
                              /\ fs_shuffles st !! s' = fs_shuffles (vf_state v) !! s') ->
  (forall o, fs_shuffles st !! source = Some o ->
     exists feed, df_feeds d !! source = Some (Memory feed) /\ in_order feed o) ->
  (forall feed, df_feeds d !! source = Some (Memory feed) -> walks PerVu feed = true ->
     default 0 (fs_cursors st !! source) = count (drawn_by k source (sy_log s) ++ [r])
     /\ (Z.of_nat (length (drawn_by k source (sy_log s) ++ [r])) <= u64_modulus ->
         exists order, in_order feed order
           /\ (mf_pick feed = PickSequential -> order = seq 0 (length (mf_rows feed)))
           /\ (mf_pick feed = PickShuffle -> fs_shuffles st !! source = Some order)
           /\ drawn_by k source (sy_log s) ++ [r]
              = walk source feed order <$> seq 0 (length (drawn_by k source (sy_log s) ++ [r])))) ->
  (forall feed, df_feeds d !! source = Some (Memory feed) -> walks Shared feed = true ->
     mf_pick feed = PickSequential -> Z.of_nat (length (drawn source (sy_log s) ++ [r])) <= u64_modulus ->
     r = walk source feed (seq 0 (length (mf_rows feed))) (length (drawn source (sy_log s)))) ->
  inv d (mkSystem dt g (<[k := mkVuFeed (vf_vu v) st rng]> (sy_vus s)) (sy_log s ++ [mkFetched k (vf_vu v) source r sq])).
Proof.
  intros Hi Hv Hf Hp Ho Hor Hown Hsh. constructor; simpl.
  - done.
  - intros j Hj. by apply Hp, (inv_plugins _ _ Hi).
  - intros j w src o [[<- <-]|[Hne Hj]]%lookup_insert_Some Hs; [|by eapply (inv_orders _ _ Hi)].
    simpl in Hs. destruct (decide (src = source)) as [->|Hn]; [by apply Hor|].
    destruct (Ho src Hn) as [_ Hq]. rewrite Hq in Hs. by eapply (inv_orders _ _ Hi).
  - intros j w src feed [[<- <-]|[Hne Hj]]%lookup_insert_Some Hd Hw; rewrite drawn_by_snoc; simpl.
    + destruct (decide (src = source)) as [->|Hn].
      * rewrite decide_True by done. by destruct (Hown feed Hd Hw) as [? _].
      * rewrite decide_False, app_nil_r by naive_solver. destruct (Ho src Hn) as [-> _].
        by eapply (inv_cursors _ _ Hi).
    + rewrite decide_False, app_nil_r by naive_solver. by eapply (inv_cursors _ _ Hi).
  - intros src feed Hd Hw Hpk. rewrite drawn_snoc. simpl. destruct (decide (source = src)) as [->|Hn].
    + intros Hl. apply fmap_seq_snoc; [|by apply Hsh].
      apply (inv_shared _ _ Hi src feed Hd Hw Hpk). rewrite length_app in Hl. simpl in Hl. lia.
    + rewrite app_nil_r. by apply (inv_shared _ _ Hi).
  - intros j w src feed [[<- <-]|[Hne Hj]]%lookup_insert_Some Hd Hw; rewrite drawn_by_snoc; simpl.
    + destruct (decide (src = source)) as [->|Hn].
      * rewrite decide_True by done. intros Hl. destruct (Hown feed Hd Hw) as [_ (order & Hio & Hs & Hq & Heq)]; [done|].
        exists order. split_and!; try done. intros Hx. left. by apply Hq.
      * rewrite decide_False, app_nil_r by naive_solver. destruct (Ho src Hn) as [_ ->].
        by eapply (inv_own _ _ Hi).
    + rewrite decide_False, app_nil_r by naive_solver. by eapply (inv_own _ _ Hi).
  - intros f [Hin| ->%list_elem_of_singleton]%elem_of_app; apply lookup_insert_is_Some'; [right|by left].
    by apply (inv_keys _ _ Hi).
Qed.

Lemma feeds_now_other d s (dt : DataFeeds P) (f : Fetched) :
  inv d s ->
  (forall s', s' <> ft_source f -> df_feeds dt !! s' = df_feeds (sy_data s) !! s') ->
  df_feeds dt !! ft_source f = feed_now (ft_source f) (sy_log s ++ [f]) <$> df_feeds d !! ft_source f ->
  forall s', df_feeds dt !! s' = feed_now s' (sy_log s ++ [f]) <$> df_feeds d !! s'.
Proof.
  intros Hi Hne Heq s'. destruct (decide (s' = ft_source f)) as [->|Hn]; [done|].
  rewrite Hne, (inv_feeds _ _ Hi) by done. unfold feed_now. rewrite drawn_snoc, decide_False, app_nil_r by done. done.
Qed.

(** Nothing a walk reads moves: unknown sources, plugins, random picks. *)
Lemma inv_fetch_still d s k v source r sq (dt : DataFeeds P) g st rng :
  inv d s -> sy_vus s !! k = Some v ->
  match df_feeds d !! source with Some (Memory feed) => mf_pick feed = PickRandom | _ => True end ->
  df_feeds dt = df_feeds (sy_data s) ->
  (forall k, is_Some (df_plugins (sy_data s) !! k) -> is_Some (df_plugins dt !! k)) ->
  fs_cursors st = fs_cursors (vf_state v) -> fs_shuffles st = fs_shuffles (vf_state v) ->
  inv d (mkSystem dt g (<[k := mkVuFeed (vf_vu v) st rng]> (sy_vus s)) (sy_log s ++ [mkFetched k (vf_vu v) source r sq])).
Proof.
  intros Hi Hv Hm Hf Hp Hc Hs.
  assert (forall m feed, df_feeds d !! source = Some (Memory feed) -> walks m feed = true -> False) as Hno.
  { intros m feed Hd Hw. rewrite Hd in Hm. unfold walks in Hw. rewrite Hm in Hw. by rewrite andb_false_r in Hw. }
  apply inv_fetch_other; try done.
  - apply feeds_now_other; simpl; [done|by intros; rewrite Hf|].
    rewrite Hf, (inv_feeds _ _ Hi). destruct (df_feeds d !! source) as [[feed|]|] eqn:Hd; try done.
    simpl. destruct (walks Shared feed) eqn:Hw; [by destruct (Hno Shared feed)|done].
  - intros s' _. by rewrite Hc, Hs.
  - intros o Ho. rewrite Hs in Ho. by eapply (inv_orders _ _ Hi).
  - intros feed Hd Hw. by destruct (Hno PerVu feed).
  - intros feed Hd Hw. by destruct (Hno Shared feed).
Qed.

Lemma advance_feeds source feed (e : FetchEnv P R) :
  df_feeds (fe_data (advance source feed e))
  = match mf_mode feed with
    | Shared => <[source := Memory (bump feed)]> (df_feeds (fe_data e))
    | PerVu => df_feeds (fe_data e)
    end
  /\ df_plugins (fe_data (advance source feed e)) = df_plugins (fe_data e)
  /\ fs_cursors (fe_state (advance source feed e))
     = match mf_mode feed with
       | Shared => fs_cursors (fe_state e)
       | PerVu => <[source := usize_add (default 0 (fs_cursors (fe_state e) !! source)) 1]> (fs_cursors (fe_state e))
       end
  /\ fe_store (advance source feed e) = fe_store e.
Proof. unfold advance, next_cursor, bump. by destruct (mf_mode feed) eqn:Hm. Qed.

Lemma walks_true m feed : walks m feed = true <-> mf_mode feed = m /\ mf_pick feed <> PickRandom.
Proof. unfold walks. rewrite andb_true_iff, negb_true_iff, bool_decide_eq_true, bool_decide_eq_false. done. Qed.

Lemma walk_at_cursor source feed c order i : walk source (at_cursor c feed) order i = walk source feed order i.
Proof. reflexivity. Qed.

Lemma inv_fetch_memory `{!RngLaws R} d s k v source feed r sq e :
  loaded d -> inv d s -> sy_vus s !! k = Some v -> df_feeds (sy_data s) !! source = Some (Memory feed) ->
  mf_pick feed <> PickRandom -> memory_row source feed (env_of s v) = Some (r, e) ->
  inv d (back k v e (sy_log s ++ [mkFetched k (vf_vu v) source r sq]) s).
Proof.
  intros Hd Hi Hv Hf Hpk Hm. pose proof (inv_lookup _ _ source Hi) as Hl. rewrite Hf in Hl.
  destruct Hl as (feed0 & Hd0 & Hfeed). destruct (Hd _ _ Hd0) as [Hrows _].
  assert (cursor_at source feed (env_of s v)
    = match mf_mode feed0 with Shared => count (drawn source (sy_log s))
                             | PerVu => count (drawn_by k source (sy_log s)) end) as Hcur.
  { unfold cursor_at. rewrite Hfeed. simpl. destruct (mf_mode feed0) eqn:Hmode.
    - rewrite (proj2 (walks_true Shared feed0)); [done|]. by rewrite Hfeed in Hpk.
    - apply (inv_cursors _ _ Hi k v source feed0); [done..|]. apply walks_true. by rewrite Hfeed in Hpk. }
  destruct (memory_row_walk source feed (env_of s v)) as (order & sh & rng & Hr & Hio & Hseq & Hne & Hsq & Hold & Hshuf);
    [done|by rewrite Hfeed|rewrite Hcur; destruct (mf_mode feed0); apply count_nonneg| |].
  { intros o Ho. destruct (inv_orders _ _ Hi k v source o Hv Ho) as (f1 & Hf1 & Hio). rewrite Hd0 in Hf1.
    injection Hf1 as <-. by rewrite Hfeed. }
  rewrite Hr in Hm. injection Hm as <- <-. rewrite Hcur in Hshuf |- *. clear Hr.
  pose proof (advance_feeds source feed (env_of s v)) as (Haf & Hap & Hac & _).
  rewrite Hfeed in Haf, Hac, Hpk, Hio, Hseq, Hsq, Hold, Hshuf. simpl in *. subst feed.
  apply inv_fetch_other; try done.
  - apply feeds_now_other; [done| |]; simpl; rewrite Haf.
    + intros s' Hn. destruct (mf_mode feed0); [by rewrite lookup_insert_ne|done].
    + rewrite Hd0. simpl. rewrite drawn_snoc, decide_True by done. simpl. rewrite count_snoc.
      destruct (mf_mode feed0) eqn:Hmode.
      * rewrite lookup_insert_eq. unfold bump, at_cursor. simpl.
        by rewrite (proj2 (walks_true Shared feed0)) by done.
      * rewrite Hf. assert (walks Shared feed0 = false) as ->; [|done].
        unfold walks. by rewrite Hmode.
  - intros j Hj. simpl. by rewrite Hap.
  - intros s' Hn. split; [|by apply Hne]. simpl. rewrite Hac. destruct (mf_mode feed0); [done|].
    by apply lookup_insert_ne.
  - intros o Ho. simpl in Ho. exists feed0. split; [done|]. destruct (mf_pick feed0) eqn:Hpk0; [|done|].
    + rewrite Hsq in Ho by done. destruct (inv_orders _ _ Hi k v source o Hv Ho) as (f1 & Hf1 & Hio'). congruence.
    + destruct (Hshuf eq_refl) as [Hq|[Hq _]]; [rewrite Ho in Hq; by injection Hq as ->|]. rewrite Hq in Ho.
      destruct (inv_orders _ _ Hi k v source o Hv Ho) as (f1 & Hf1 & Hio'). congruence.
  - intros f1 Hf1 Hw. rewrite Hd0 in Hf1. injection Hf1 as <-. apply walks_true in Hw as Hw'. destruct Hw' as [Hmode _].
    simpl. rewrite Hac, Hmode, lookup_insert_eq. simpl.
    rewrite (inv_cursors _ _ Hi k v source feed0) by done. split; [by rewrite count_snoc|].
    intros Hlen. pose proof (inv_own _ _ Hi k v source feed0 Hv Hd0 Hw) as Hown. simpl in Hown.
    destruct Hown as (o & Hio' & Hs' & Hsh' & Heq); [rewrite length_app in Hlen; simpl in Hlen; lia|].
    rewrite walk_at_cursor, count_small by (rewrite length_app in Hlen; simpl in Hlen; lia).
    destruct (mf_pick feed0) eqn:Hpk0; [|done|].
    + exists o. split_and!; [done..|]. apply fmap_seq_snoc; [done|]. by rewrite Hseq, Hs' by done.
    + destruct (Hsh' eq_refl) as [Ho|[Ho Hnil]].
      * exists o. split_and!; [done|done|by intros _; apply Hold|]. apply fmap_seq_snoc; [done|].
        destruct (Hshuf eq_refl) as [Hq|[_ Hb]]; [rewrite (Hold o Ho eq_refl) in Hq; by injection Hq as ->|].
        rewrite Hmode in Hb. rewrite <- (count_small (drawn_by k source (sy_log s)))
          by (rewrite length_app in Hlen; simpl in Hlen; lia).
        rewrite !walk_end; done || apply count_nonneg.
      * exists order. split_and!; [done|done| |].
        -- intros _. destruct (Hshuf eq_refl) as [Hq|[_ Hb]]; [done|].
           rewrite Hmode, Hnil in Hb. by destruct (mf_rows feed0).
        -- by rewrite Hnil.
  - intros f1 Hf1 Hw Hs' Hlen. rewrite Hd0 in Hf1. injection Hf1 as <-. apply walks_true in Hw as [Hmode _].
    rewrite Hmode, walk_at_cursor, Hseq by done. f_equal. apply count_small. rewrite length_app in Hlen. simpl in Hlen. lia.
Qed.

Lemma inv_new d : loaded d -> inv d (System_new d).
Proof.
  intros Hd. constructor; simpl; try done.
  - intros source. destruct (df_feeds d !! source) as [[feed|p b n]|] eqn:Hf; try done.
    pose proof (Hd _ _ Hf) as Hc. simpl in Hc. destruct Hc as [_ Hc]. simpl. unfold count, drawn. simpl.
    destruct feed as [rows mode eof pick c]. simpl in *. subst c. by case_match.
  - intros f Hf. by apply elem_of_nil in Hf.
Qed.

Lemma next_plugin_seq_walks source st g seq st' g' :
  next_plugin_seq source st g = (seq, st', g') ->
  fs_cursors st' = fs_cursors st /\ fs_shuffles st' = fs_shuffles st.
Proof.
  unfold next_plugin_seq. destruct (fs_local_sequences st !! source).
  - destruct (fetch_add n g). by intros [= <- <- <-].
  - destruct (shared_slot st source g) as [slot g1]. destruct (fetch_add slot g1). by intros [= <- <- <-].
Qed.

Lemma inv_fetch `{!RngLaws R} d s k v source id now_ms r e :
  loaded d -> inv d s -> sy_vus s !! k = Some v -> next_row source id now_ms (env_of s v) = Some (r, e) ->
  inv d (back k v e (sy_log s ++ [mkFetched k (vf_vu v) source r (fetch_seq source (env_of s v))]) s).
Proof.
  intros Hd Hi Hv Hn. unfold next_row in Hn. pose proof (inv_lookup _ _ source Hi) as Hl.
  simpl in Hn. destruct (df_feeds (sy_data s) !! source) as [[feed|p b n]|] eqn:Hf.
  - destruct (decide (mf_pick feed = PickRandom)) as [Hr|Hr]; [|by eapply inv_fetch_memory].
    destruct Hl as (feed0 & Hd0 & ->). simpl in Hr. unfold memory_row in Hn. simpl in Hn. rewrite Hr in Hn.
    destruct (Nat.eqb _ _); [done|]. destruct (random_index _ _) as [i rng].
    destruct (mf_rows feed0 !! i); [|done]. injection Hn as <- <-.
    apply inv_fetch_still; try done. by rewrite Hd0.
  - unfold plugin_row in Hn. simpl in Hn. destruct (df_plugins (sy_data s) !! p) as [pl|] eqn:Hp; [|done].
    destruct (next_plugin_seq source (vf_state v) (sy_store s)) as [[seq st] g] eqn:Hs.
    apply next_plugin_seq_walks in Hs as [Hc Hsh].
    destruct (plugin_next_row _ pl) as [fetched p'].
    assert (exists st' r0 g0, e = mkFetchEnv (set_plugin p p' (sy_data s)) g0 st' (vf_rng v) /\ r = r0
      /\ fs_cursors st' = fs_cursors (vf_state v) /\ fs_shuffles st' = fs_shuffles (vf_state v))
      as (st' & r0 & g0 & -> & -> & Hc' & Hs').
    { destruct fetched as [[row|]|m]; injection Hn as <- <-; destruct n; eauto 10. }
    apply inv_fetch_still; try done; [by rewrite Hl|]. intros. by apply set_plugin_keeps.
  - injection Hn as <- <-. apply inv_fetch_still; try done. by rewrite Hl.
Qed.

Lemma inv_step `{!RngLaws R} d s s' : loaded d -> inv d s -> step s s' -> inv d s'.
Proof.
  intros Hd Hi Hs. destruct Hs as [s k vu rng Hk Hvu|s k v k' rng Hk Hk'|s k v source id now_ms r e Hk Hn|s k v Hk|s k v id resp Hk].
  - apply inv_quiet; try done. unfold walk_state. by rewrite Hk.
  - apply inv_quiet; try done. unfold walk_state. by rewrite Hk'.
  - by eapply inv_fetch.
  - apply inv_quiet; try done. unfold walk_state. by rewrite Hk.
  - destruct (report_feeds id resp (env_of s v)) as [Hf Hp].
    unfold back. simpl. apply inv_quiet; try done. unfold walk_state. by rewrite Hk.
Qed.

Lemma reach_inv `{!RngLaws R} d s : loaded d -> reach d s -> inv d s.
Proof.
  intros Hd Hr. unfold reach in Hr. remember (System_new d) as s0 eqn:H0.
  assert (inv d s0) as Hi by (subst; by apply inv_new). clear H0.
  induction Hr as [s|s s1 s2 Hs _ IH]; [done|]. apply IH. by eapply inv_step.
Qed.

(** Under the invariant a fetch never panics, and a memory source hands out its own rows. *)
Lemma inv_next_row `{!RngLaws R} d s k v source id now_ms :
  loaded d -> inv d s -> sy_vus s !! k = Some v ->
  exists r e, next_row source id now_ms (env_of s v) = Some (r, e)
    /\ forall feed row, df_feeds d !! source = Some (Memory feed) -> r = Ok row -> row ∈ mf_rows feed.
Proof.
  intros Hd Hi Hv. unfold next_row. pose proof (inv_lookup _ _ source Hi) as Hl. simpl.
  destruct (df_feeds (sy_data s) !! source) as [[feed|p b n]|] eqn:Hf.
  - destruct Hl as (feed0 & Hd0 & Hfeed). destruct (Hd _ _ Hd0) as [Hrows _].
    destruct (decide (mf_pick feed = PickRandom)) as [Hr|Hr].
    + unfold memory_row. rewrite Hr. subst feed. simpl in *.
      assert (length (mf_rows feed0) <> 0)%nat as Hlen by (by destruct (mf_rows feed0)).
      rewrite (proj2 (Nat.eqb_neq _ _)) by done.
      pose proof (random_index_lt (length (mf_rows feed0)) (vf_rng v) ltac:(lia)) as Hlt.
      destruct (random_index _ _) as [i rng]. simpl in Hlt.
      destruct (lookup_lt_is_Some_2 _ _ Hlt) as [row Hrow]. rewrite Hrow. simpl.
      eexists _, _. split; [done|]. intros f1 row1 Hf1 [= <-]. rewrite Hd0 in Hf1. injection Hf1 as <-.
      by eapply list_elem_of_lookup_2.
    + destruct (memory_row_walk source feed (env_of s v)) as (order & sh & rng & Hm & Hio & _);
        [done|by rewrite Hfeed| | |].
      { unfold cursor_at. rewrite Hfeed. simpl. destruct (mf_mode feed0) eqn:Hmode; [case_match; [apply count_nonneg|done]|].
        rewrite (inv_cursors _ _ Hi k v source feed0 Hv Hd0); [apply count_nonneg|].
        apply walks_true. by rewrite Hfeed in Hr. }
      { intros o Ho. destruct (inv_orders _ _ Hi k v source o Hv Ho) as (f1 & Hf1 & Hio). rewrite Hd0 in Hf1.
        injection Hf1 as <-. by rewrite Hfeed. }
      eexists _, _. split; [exact Hm|]. intros f1 row Hf1 Hw. rewrite Hd0 in Hf1. injection Hf1 as <-.
      subst feed. rewrite walk_at_cursor in Hw. generalize dependent (Z.to_nat (cursor_at source (at_cursor (if walks Shared feed0 then count (drawn source (sy_log s)) else 0) feed0) (env_of s v))).
      intros i _ Hw. unfold walk in Hw. case_match; [done|]. injection Hw as <-.
      destruct (in_order_lookup feed0 order i) as (j & row & -> & Hj); [done..|]. simpl. rewrite Hj. simpl.
      by eapply list_elem_of_lookup_2.
  - unfold plugin_row. simpl. destruct (inv_plugins _ _ Hi p (Hd _ _ Hl)) as [pl ->].
    destruct (next_plugin_seq _ _ _) as [[seq st] g]. destruct (plugin_next_row _ pl) as [[[row0|]|m] pl'];
      (eexists _, _; split; [done|]; intros f1 row Hf1; congruence).
  - eexists _, _. split; [done|]. intros f1 row Hf1. congruence.
Qed.

(** ** The numbers of plugin rows *)

(** What the store and the states that point into it agree on. *)
Record seq_inv (s : System) : Prop := mkSeqInv {
  sv_map_lt m t : sq_maps (sy_store s) !! m = Some t -> (m < sq_next (sy_store s))%nat;
  sv_slot_lt m t source slot :
    sq_maps (sy_store s) !! m = Some t -> t !! source = Some slot -> (slot < sq_next (sy_store s))%nat;
  sv_slot_inj m1 t1 s1 m2 t2 s2 slot :
    sq_maps (sy_store s) !! m1 = Some t1 -> t1 !! s1 = Some slot ->
    sq_maps (sy_store s) !! m2 = Some t2 -> t2 !! s2 = Some slot -> m1 = m2 /\ s1 = s2;
  sv_map k v : sy_vus s !! k = Some v -> is_Some (sq_maps (sy_store s) !! fs_plugin_sequences (vf_state v));
  sv_local k v source slot :
    sy_vus s !! k = Some v -> fs_local_sequences (vf_state v) !! source = Some slot ->
    exists t, sq_maps (sy_store s) !! fs_plugin_sequences (vf_state v) = Some t /\ t !! source = Some slot;
  (** Branches and their parent, and only they, share a map. *)
  sv_owner k1 v1 k2 v2 :
    sy_vus s !! k1 = Some v1 -> sy_vus s !! k2 = Some v2 ->
    (vf_vu v1 = vf_vu v2 <-> fs_plugin_sequences (vf_state v1) = fs_plugin_sequences (vf_state v2));
  sv_count k v source :
    sy_vus s !! k = Some v ->
    let l := seqs_of (vf_vu v) source (sy_log s) in
    match sq_maps (sy_store s) !! fs_plugin_sequences (vf_state v) ≫= fun t => t !! source with
    | Some slot => sq_slots (sy_store s) !! slot = Some (u64_wrap (Z.of_nat (length l)))
    | None => l = []
    end;
  sv_seqs vu source :
    let l := seqs_of vu source (sy_log s) in
    Z.of_nat (length l) <= u64_modulus -> l = seqZ 0 (Z.of_nat (length l));
  sv_known f : f ∈ sy_log s -> exists k v, sy_vus s !! k = Some v /\ vf_vu v = ft_vu f;
}.

Lemma seqs_of_snoc vu source log (f : Fetched) :
  seqs_of vu source (log ++ [f])
  = seqs_of vu source log
    ++ (if decide (ft_vu f = vu /\ ft_source f = source) then option_list (ft_seq f) else []).
Proof.
  unfold seqs_of. rewrite filter_app, omap_app. f_equal. destruct (decide _) as [Hd|Hd].
  - rewrite filter_cons_True by done. simpl. by destruct (ft_seq f).
  - by rewrite filter_cons_False.
Qed.

Lemma seqs_of_unknown (s : System) vu source :
  (forall f, f ∈ sy_log s -> exists k v, sy_vus s !! k = Some v /\ vf_vu v = ft_vu f) ->
  (forall j v, sy_vus s !! j = Some v -> vf_vu v <> vu) -> seqs_of vu source (sy_log s) = [].
Proof.
  intros Hk Hn. unfold seqs_of. rewrite filter_none; [done|]. apply Forall_forall.
  intros f Hf [He _]. apply Hk in Hf as (k & v & Hv & Heq). apply (Hn k v Hv). congruence.
Qed.

Lemma seqZ_snoc_small (n : nat) : seqZ 0 (Z.of_nat n) ++ [Z.of_nat n] = seqZ 0 (Z.of_nat (S n)).
Proof.
  rewrite Nat2Z.inj_succ, <- Z.add_1_r, seqZ_app by lia. done.
Qed.

Lemma seq_inv_new d : seq_inv (System_new d).
Proof. constructor; simpl; try done. intros f Hf. by apply elem_of_nil in Hf. Qed.

(** A state whose references stay, a fetch a plugin does not see. *)
Lemma seq_quiet s k v v' dt log :
  seq_inv s -> sy_vus s !! k = Some v -> vf_vu v' = vf_vu v ->
  fs_plugin_sequences (vf_state v') = fs_plugin_sequences (vf_state v) ->
  fs_local_sequences (vf_state v') = fs_local_sequences (vf_state v) ->
  Forall (fun f => ft_seq f = None /\ ft_vu f = vf_vu v) log ->
  seq_inv (mkSystem dt (sy_store s) (<[k := v']> (sy_vus s)) (sy_log s ++ log)).
Proof.
  intros Hi Hv Hvu Hm Hl Hlog.
  assert (forall vu source, seqs_of vu source (sy_log s ++ log) = seqs_of vu source (sy_log s)) as Hs.
  { intros vu source. unfold seqs_of. rewrite filter_app, omap_app.
    replace (omap ft_seq (filter _ log)) with (@nil Z); [by rewrite app_nil_r|].
    induction Hlog as [|f log [Hf _] _ IH]; [done|]. rewrite filter_cons.
    destruct (decide _); simpl; by rewrite ?Hf. }
  constructor; simpl.
  - apply (sv_map_lt _ Hi).
  - apply (sv_slot_lt _ Hi).
  - apply (sv_slot_inj _ Hi).
  - intros j w [[<- <-]|[_ Hj]]%lookup_insert_Some; [rewrite Hm; by apply (sv_map _ Hi k)|by apply (sv_map _ Hi j)].
  - intros j w source slot [[<- <-]|[_ Hj]]%lookup_insert_Some;
      [rewrite Hm, Hl; by apply (sv_local _ Hi k)|by apply (sv_local _ Hi j)].
  - intros j1 w1 j2 w2 [[<- <-]|[_ H1]]%lookup_insert_Some [[<- <-]|[_ H2]]%lookup_insert_Some;
      rewrite ?Hvu, ?Hm;
      [done|by apply (sv_owner _ Hi k v j2 w2)|by apply (sv_owner _ Hi j1 w1 k v)|by apply (sv_owner _ Hi j1 w1 j2 w2)].
  - intros j w source [[<- <-]|[_ Hj]]%lookup_insert_Some; rewrite Hs, ?Hvu, ?Hm;
      [by apply (sv_count _ Hi k v)|by apply (sv_count _ Hi j w)].
  - intros vu source. rewrite Hs. apply (sv_seqs _ Hi).
  - intros f [Hf|Hf]%elem_of_app.
    + destruct (sv_known _ Hi f Hf) as (j & w & Hj & <-). destruct (decide (j = k)) as [->|Hn].
      * exists k, v'. rewrite lookup_insert_eq. split; [done|]. congruence.
      * exists j, w. by rewrite lookup_insert_ne.
    + rewrite Forall_forall in Hlog. destruct (Hlog f Hf) as [_ He]. exists k, v'. rewrite lookup_insert_eq.
      split; [done|]. congruence.
Qed.

(** A new virtual user, with a map of its own. *)
Lemma seq_new s k vu rng :
  seq_inv s -> sy_vus s !! k = None -> (forall j v, sy_vus s !! j = Some v -> vf_vu v <> vu) ->
  seq_inv (mkSystem (sy_data s) (VuFeedState_new (sy_store s)).2
             (<[k := mkVuFeed vu (VuFeedState_new (sy_store s)).1 rng]> (sy_vus s)) (sy_log s)).
Proof.
  intros Hi Hk Hvu. unfold VuFeedState_new. simpl.
  assert (sq_maps (sy_store s) !! sq_next (sy_store s) = None) as Hfresh.
  { destruct (sq_maps (sy_store s) !! sq_next (sy_store s)) as [t|] eqn:Ht; [|done].
    apply (sv_map_lt _ Hi) in Ht. lia. }
  assert (forall j w, sy_vus s !! j = Some w -> fs_plugin_sequences (vf_state w) <> sq_next (sy_store s)) as Hold.
  { intros j w Hj He. destruct (sv_map _ Hi j w Hj) as [t Ht]. rewrite He in Ht. congruence. }
  constructor; simpl.
  - intros m t [[<- _]|[_ Hm]]%lookup_insert_Some; [lia|]. apply (sv_map_lt _ Hi) in Hm. lia.
  - intros m t source slot [[<- <-]|[_ Hm]]%lookup_insert_Some Hs; [done|].
    pose proof (sv_slot_lt _ Hi m t source slot Hm Hs). lia.
  - intros m1 t1 s1 m2 t2 s2 slot [[<- <-]|[_ H1]]%lookup_insert_Some; [done|].
    intros Hs1 [[<- <-]|[_ H2]]%lookup_insert_Some; [done|]. intros Hs2. by eapply (sv_slot_inj _ Hi).
  - intros j w [[<- <-]|[_ Hj]]%lookup_insert_Some; apply lookup_insert_is_Some'; [by left|right].
    by eapply (sv_map _ Hi).
  - intros j w source slot [[<- <-]|[_ Hj]]%lookup_insert_Some Hs; [done|].
    rewrite lookup_insert_ne by (by eapply not_eq_sym, Hold). by apply (sv_local _ Hi j).
  - intros j1 w1 j2 w2 [[<- <-]|[_ H1]]%lookup_insert_Some [[<- <-]|[_ H2]]%lookup_insert_Some; simpl.
    + done.
    + split; [intros He; by destruct (Hvu j2 w2 H2)|intros He; by destruct (Hold j2 w2 H2)].
    + split; [intros He; by destruct (Hvu j1 w1 H1)|intros He; by destruct (Hold j1 w1 H1)].
    + by apply (sv_owner _ Hi j1 w1 j2 w2).
  - intros j w source [[<- <-]|[_ Hj]]%lookup_insert_Some; simpl.
    + rewrite lookup_insert_eq. simpl. rewrite lookup_empty.
      by apply seqs_of_unknown; [apply (sv_known _ Hi)|].
    + rewrite lookup_insert_ne by (by eapply not_eq_sym, Hold). by apply (sv_count _ Hi j).
  - apply (sv_seqs _ Hi).
  - intros f Hf. destruct (sv_known _ Hi f Hf) as (j & w & Hj & He). exists j, w.
    rewrite lookup_insert_ne; [done|]. intros ->. congruence.
Qed.

Lemma seq_fork s k v k' rng :
  seq_inv s -> sy_vus s !! k = Some v -> sy_vus s !! k' = None ->
  seq_inv (mkSystem (sy_data s) (sy_store s)
             (<[k' := mkVuFeed (vf_vu v) (fork_for_parallel (vf_state v)) rng]> (sy_vus s)) (sy_log s)).
Proof.
  intros Hi Hv Hk'. constructor; simpl.
  - apply (sv_map_lt _ Hi).
  - apply (sv_slot_lt _ Hi).
  - apply (sv_slot_inj _ Hi).
  - intros j w [[<- <-]|[_ Hj]]%lookup_insert_Some; [by apply (sv_map _ Hi k v)|by apply (sv_map _ Hi j)].
  - intros j w source slot [[<- <-]|[_ Hj]]%lookup_insert_Some Hs; [done|by apply (sv_local _ Hi j)].
  - intros j1 w1 j2 w2 [[<- <-]|[_ H1]]%lookup_insert_Some [[<- <-]|[_ H2]]%lookup_insert_Some; simpl;
      [done|by apply (sv_owner _ Hi k v j2 w2)|by apply (sv_owner _ Hi j1 w1 k v)|by apply (sv_owner _ Hi j1 w1 j2 w2)].
  - intros j w source [[<- <-]|[_ Hj]]%lookup_insert_Some; [by apply (sv_count _ Hi k v)|by apply (sv_count _ Hi j)].
  - apply (sv_seqs _ Hi).
  - intros f Hf. destruct (sv_known _ Hi f Hf) as (j & w & Hj & He). exists j, w.
    rewrite lookup_insert_ne; [done|]. intros ->. congruence.
Qed.

Definition slot_of (g : SeqStore) (m : nat) (source : string) : option nat := sq_maps g !! m ≫= fun t => t !! source.

Lemma seq_alloc s k v source slot g :
  seq_inv s -> sy_vus s !! k = Some v -> shared_slot (vf_state v) source (sy_store s) = (slot, g) ->
  seq_inv (mkSystem (sy_data s) g (sy_vus s) (sy_log s))
  /\ slot_of g (fs_plugin_sequences (vf_state v)) source = Some slot.
Proof.
  intros Hi Hv. destruct (sv_map _ Hi k v Hv) as [t Ht]. unfold shared_slot, slot_of. rewrite Ht. simpl.
  destruct (t !! source) as [sl|] eqn:Hsl.
  { intros [= <- <-]. rewrite Ht. simpl. by destruct s. }
  intros [= <- <-]. simpl. rewrite lookup_insert_eq. simpl. rewrite lookup_insert_eq. split; [|done].
  assert (forall m t' src sl, sq_maps (sy_store s) !! m = Some t' -> t' !! src = Some sl -> sl <> sq_next (sy_store s)) as Hnew.
  { intros m t' src sl Hm Hs ->. pose proof (sv_slot_lt _ Hi m t' src _ Hm Hs). lia. }
  constructor; simpl.
  - intros m t' [[<- _]|[_ Hm]]%lookup_insert_Some; [|apply (sv_map_lt _ Hi) in Hm; lia].
    pose proof (sv_map_lt _ Hi _ _ Ht). lia.
  - intros m t' src sl [[<- <-]|[_ Hm]]%lookup_insert_Some.
    + intros [[<- <-]|[_ Hs]]%lookup_insert_Some; [lia|]. pose proof (sv_slot_lt _ Hi _ _ _ _ Ht Hs). lia.
    + intros Hs. pose proof (sv_slot_lt _ Hi _ _ _ _ Hm Hs). lia.
  - intros m1 t1 s1 m2 t2 s2 sl [[<- <-]|[Hn1 H1]]%lookup_insert_Some.
    + intros [[<- <-]|[Hs1 H1]]%lookup_insert_Some [[<- <-]|[Hn2 H2]]%lookup_insert_Some.
      * intros [[<- _]|[_ Hs]]%lookup_insert_Some; [done|]. by destruct (Hnew _ _ _ _ Ht Hs).
      * intros Hs. by destruct (Hnew _ _ _ _ H2 Hs).
      * intros [[<- <-]|[_ Hs]]%lookup_insert_Some; [by destruct (Hnew _ _ _ _ Ht H1)|by eapply (sv_slot_inj _ Hi)].
      * intros Hs. by eapply (sv_slot_inj _ Hi).
    + intros Hs1 [[<- <-]|[Hn2 H2]]%lookup_insert_Some; [|intros Hs; by eapply (sv_slot_inj _ Hi)].
      intros [[<- <-]|[_ Hs]]%lookup_insert_Some; [by destruct (Hnew _ _ _ _ H1 Hs1)|by eapply (sv_slot_inj _ Hi)].
  - intros j w Hj. apply lookup_insert_is_Some'. right. by apply (sv_map _ Hi j).
  - intros j w src sl Hj Hs. destruct (sv_local _ Hi j w src sl Hj Hs) as (t' & Hm & Hl).
    destruct (decide (fs_plugin_sequences (vf_state w) = fs_plugin_sequences (vf_state v))) as [He|He].
    + rewrite He in *. rewrite lookup_insert_eq. eexists. split; [done|]. assert (t' = t) as -> by congruence.
      rewrite lookup_insert_ne; [done|]. intros ->. congruence.
    + rewrite lookup_insert_ne by done. eauto.
  - apply (sv_owner _ Hi).
  - intros j w src Hj. pose proof (sv_count _ Hi j w src Hj) as Hc. simpl in Hc.
    destruct (decide (fs_plugin_sequences (vf_state w) = fs_plugin_sequences (vf_state v))) as [He|He].
    + rewrite He in *. rewrite Ht in Hc. rewrite lookup_insert_eq. simpl in *.
      destruct (decide (src = source)) as [->|Hne].
      * rewrite Hsl in Hc. rewrite lookup_insert_eq. rewrite Hc, lookup_insert_eq. done.
      * rewrite lookup_insert_ne by done. destruct (t !! src) as [sl|] eqn:Hs; [|done].
        rewrite lookup_insert_ne; [done|]. apply not_eq_sym. by apply (Hnew _ t src sl Ht).
    + rewrite lookup_insert_ne by done.
      destruct (sq_maps (sy_store s) !! fs_plugin_sequences (vf_state w)) as [t'|] eqn:Ht'; [|done]. simpl in *.
      destruct (t' !! src) as [sl|] eqn:Hs; [|done]. rewrite lookup_insert_ne; [done|].
      apply not_eq_sym. by apply (Hnew _ t' src sl Ht').
  - apply (sv_seqs _ Hi).
  - apply (sv_known _ Hi).
Qed.

Lemma seq_take s k v source slot r st rng (dt : DataFeeds P) n g :
  seq_inv s -> sy_vus s !! k = Some v ->
  slot_of (sy_store s) (fs_plugin_sequences (vf_state v)) source = Some slot ->
  fetch_add slot (sy_store s) = (n, g) ->
  fs_plugin_sequences st = fs_plugin_sequences (vf_state v) ->
  (forall src sl, fs_local_sequences st !! src = Some sl ->
     fs_local_sequences (vf_state v) !! src = Some sl \/ src = source /\ sl = slot) ->
  seq_inv (mkSystem dt g (<[k := mkVuFeed (vf_vu v) st rng]> (sy_vus s))
             (sy_log s ++ [mkFetched k (vf_vu v) source r (Some n)])).
Proof.
  intros Hi Hv Hslot Hf Hm Hl. unfold fetch_add in Hf. injection Hf as <- <-.
  pose proof (sv_count _ Hi k v source Hv) as Hc. simpl in Hc. fold (slot_of (sy_store s)) in Hc.
  unfold slot_of in Hslot. rewrite Hslot in Hc. rewrite Hc. simpl.
  set (l := seqs_of (vf_vu v) source (sy_log s)) in *.
  constructor; simpl.
  - apply (sv_map_lt _ Hi).
  - apply (sv_slot_lt _ Hi).
  - apply (sv_slot_inj _ Hi).
  - intros j w [[<- <-]|[_ Hj]]%lookup_insert_Some; [simpl; rewrite Hm; by apply (sv_map _ Hi k)|by apply (sv_map _ Hi j)].
  - intros j w src sl [[<- <-]|[_ Hj]]%lookup_insert_Some Hs; [|by apply (sv_local _ Hi j)].
    simpl in *. rewrite Hm. destruct (Hl src sl Hs) as [Hs'|[-> ->]]; [by apply (sv_local _ Hi k)|].
    apply bind_Some in Hslot as (t & Ht & Hs'). eauto.
  - intros j1 w1 j2 w2 [[<- <-]|[_ H1]]%lookup_insert_Some [[<- <-]|[_ H2]]%lookup_insert_Some; simpl;
      rewrite ?Hm;
      [done|by apply (sv_owner _ Hi k v j2 w2)|by apply (sv_owner _ Hi j1 w1 k v)|by apply (sv_owner _ Hi j1 w1 j2 w2)].
  - assert (forall j w src, sy_vus s !! j = Some w ->
      match slot_of (sy_store s) (fs_plugin_sequences (vf_state w)) src with
      | Some sl => <[slot:=u64_add (u64_wrap (Z.of_nat (length l))) 1]> (sq_slots (sy_store s)) !! sl
                   = Some (u64_wrap (Z.of_nat (length (seqs_of (vf_vu w) src
                       (sy_log s ++ [mkFetched k (vf_vu v) source r (Some (u64_wrap (Z.of_nat (length l))))])))))
      | None => seqs_of (vf_vu w) src (sy_log s ++ [mkFetched k (vf_vu v) source r (Some (u64_wrap (Z.of_nat (length l))))]) = []
      end) as Hall.
    { intros j w src Hj. pose proof (sv_count _ Hi j w src Hj) as Hcj. simpl in Hcj.
      fold (slot_of (sy_store s) (fs_plugin_sequences (vf_state w)) src) in Hcj.
      rewrite seqs_of_snoc. simpl. destruct (decide (vf_vu v = vf_vu w /\ source = src)) as [[He <-]|Hne].
      - apply (sv_owner _ Hi k v j w Hv Hj) in He as Hmm. rewrite <- Hmm in *. rewrite <- He.
        unfold slot_of. rewrite Hslot, lookup_insert_eq. fold l. do 2 f_equal.
        unfold u64_add, u64_wrap. rewrite length_app, Nat2Z.inj_add. simpl length. change (Z.of_nat 1) with 1.
        by rewrite Z.add_mod_idemp_l.
      - rewrite app_nil_r. destruct (slot_of (sy_store s) _ src) as [sl|] eqn:Hsl; [|done].
        rewrite lookup_insert_ne; [done|]. intros ->. apply Hne. unfold slot_of in Hsl.
        apply bind_Some in Hslot as (t1 & Ht1 & Hs1). apply bind_Some in Hsl as (t2 & Ht2 & Hs2).
        destruct (sv_slot_inj _ Hi _ _ _ _ _ _ _ Ht1 Hs1 Ht2 Hs2) as [He ->].
        split; [|done]. by apply (sv_owner _ Hi k v j w Hv Hj). }
    intros j w src [[<- <-]|[_ Hj]]%lookup_insert_Some; [|by apply (Hall j w src)].
    simpl. rewrite Hm. by apply (Hall k v src).
  - intros vu src. rewrite seqs_of_snoc. simpl.
    destruct (decide (vf_vu v = vu /\ source = src)) as [[<- <-]|Hne]; [|rewrite app_nil_r; apply (sv_seqs _ Hi)].
    simpl. fold l. rewrite length_app. simpl length. intros Hlen.
    pose proof (sv_seqs _ Hi (vf_vu v) source) as Hq. simpl in Hq. fold l in Hq.
    rewrite u64_wrap_small by (unfold is_u64; lia).
    rewrite Hq at 1 by lia. rewrite seqZ_snoc_small. f_equal. lia.
  - intros f [Hf| ->%list_elem_of_singleton]%elem_of_app.
    + destruct (sv_known _ Hi f Hf) as (j & w & Hj & <-). destruct (decide (j = k)) as [->|Hn].
      * eexists k, _. rewrite lookup_insert_eq. split; [done|]. simpl. congruence.
      * exists j, w. by rewrite lookup_insert_ne.
    + eexists k, _. rewrite lookup_insert_eq. done.
Qed.

Lemma seq_fetch s k v source id now_ms r e :
  seq_inv s -> sy_vus s !! k = Some v -> next_row source id now_ms (env_of s v) = Some (r, e) ->
  seq_inv (back k v e (sy_log s ++ [mkFetched k (vf_vu v) source r (fetch_seq source (env_of s v))]) s).
Proof.
  intros Hi Hv Hn. unfold next_row, fetch_seq in *. simpl in *.
  destruct (df_feeds (sy_data s) !! source) as [[feed|p b name]|] eqn:Hf.
  - assert (fe_store e = sy_store s /\ fs_plugin_sequences (fe_state e) = fs_plugin_sequences (vf_state v)
      /\ fs_local_sequences (fe_state e) = fs_local_sequences (vf_state v)) as (Hst & Hm & Hl).
    { unfold memory_row, next_cursor, shuffle_order, env_of in Hn.
      repeat (case_match; simplify_eq/=; try done).
      all: repeat match goal with
           | H : _ ≫= _ = Some _ |- _ => apply bind_Some in H as (? & ? & ?)
           | H : _ <$> _ = Some _ |- _ => apply fmap_Some in H as (? & ? & ?)
           end; simplify_eq/=; done. }
    unfold back. rewrite Hst. apply (seq_quiet s k v); try done. by constructor.
  - unfold plugin_row in Hn. simpl in Hn. destruct (df_plugins (sy_data s) !! p) as [pl|]; [|done].
    destruct (next_plugin_seq source (vf_state v) (sy_store s)) as [[n st] g] eqn:Hs.
    destruct (plugin_next_row _ pl) as [fetched pl']. simpl.
    assert (exists st' dt, e = mkFetchEnv dt g st' (vf_rng v)
      /\ fs_plugin_sequences st' = fs_plugin_sequences st /\ fs_local_sequences st' = fs_local_sequences st)
      as (st' & dt & -> & Hm' & Hl').
    { destruct fetched as [[row|]|m]; injection Hn as _ <-; destruct name; eauto 10. }
    unfold next_plugin_seq in Hs. unfold back. simpl.
    destruct (fs_local_sequences (vf_state v) !! source) as [slot|] eqn:Hloc.
    + destruct (fetch_add slot (sy_store s)) as [n' g'] eqn:Hfa. injection Hs as <- <- <-.
      destruct (sv_local _ Hi k v source slot Hv Hloc) as (t & Ht & Hts).
      eapply (seq_take s k v source slot); try done.
      * unfold slot_of. by rewrite Ht.
      * intros src sl. rewrite Hl'. by left.
    + destruct (shared_slot (vf_state v) source (sy_store s)) as [slot g1] eqn:Hss.
      destruct (seq_alloc s k v source slot g1 Hi Hv Hss) as [Hi1 Hslot].
      destruct (fetch_add slot g1) as [n' g'] eqn:Hfa. injection Hs as <- <- <-. simpl in *.
      apply (seq_take (mkSystem (sy_data s) g1 (sy_vus s) (sy_log s)) k v source slot r st' (vf_rng v) dt n' g'
               Hi1 Hv Hslot Hfa Hm').
      intros src sl. rewrite Hl'. intros [[<- <-]|[_ Hx]]%lookup_insert_Some; [by right|by left].
  - injection Hn as <- <-. unfold back. simpl. apply (seq_quiet s k v); try done. by constructor.
Qed.

Lemma seq_step s s' : seq_inv s -> step s s' -> seq_inv s'.
Proof.
  intros Hi Hs. destruct Hs as [s k vu rng Hk Hvu|s k v k' rng Hk Hk'|s k v source id now_ms r e Hk Hn|s k v Hk|s k v id resp Hk].
  - exact (seq_new s k vu rng Hi Hk Hvu).
  - exact (seq_fork s k v k' rng Hi Hk Hk').
  - exact (seq_fetch s k v source id now_ms r e Hi Hk Hn).
  - rewrite <- (app_nil_r (sy_log s)). by apply (seq_quiet s k v).
  - unfold back, report_result. simpl. rewrite <- (app_nil_r (sy_log s)). by apply (seq_quiet s k v).
Qed.

Lemma reach_seq_inv d s : reach d s -> seq_inv s.
Proof.
  intros Hr. unfold reach in Hr. remember (System_new d) as s0 eqn:H0.
  assert (seq_inv s0) as Hi by (subst; apply seq_inv_new). clear H0.
  induction Hr as [s|s s1 s2 Hs _ IH]; [done|]. apply IH. by eapply seq_step.
Qed.
End FeedSystem.

(** ** Loading *)

Section Loaded.
Context {P : Type} `{!DataSourcePlugin P} `{JsonText}.
Context (read_file : string -> result string string).
Context (csv_headers : option Z -> string -> result string (list string)).
Context (csv_records : option Z -> bool -> string -> list (result string (list string))).
Notation load_feed := (load_feed read_file csv_headers csv_records).
Notation load_feeds := (load_feeds read_file csv_headers csv_records).
Notation load := (load read_file csv_headers csv_records).

Lemma collect_results_length {E A : Type} (l : list (result E A)) (r : list A) :
  collect_results l = Ok r -> length r = length l.
Proof.
  revert r. induction l as [|[a|e] l IH]; intros r; simpl; [by intros [= <-]| |done].
  destruct (collect_results l) as [r'|]; [|done]. intros [= <-]. simpl. by rewrite (IH r').
Qed.

Lemma load_feed_rows (base : string) (ini : gmap string P) name source f :
  load_feed base ini name source = Some (Ok f) ->
  match f with
  | Memory feed => mf_rows feed <> [] /\ mf_shared_cursor feed = 0
  | OnDemand plugin _ _ => is_Some (ini !! plugin)
  end.
Proof.
  unfold Feeds.load_feed. destruct source as [path mode eof pick dl hh|path mode eof pick|rows mode eof pick|pn cfg bl].
  - unfold load_csv. destruct (read_file _) as [raw|e]; [|done]. simpl.
    destruct (if hh then _ else _) as [hs|e]; [|done].
    destruct (collect_results _) as [[|r rs]|e]; [done| |done]. simpl. by intros [= <-].
  - unfold load_json. destruct (read_file _) as [raw|e]; [|done]. simpl.
    destruct (from_json raw) as [[]|e]; try done.
    destruct (collect_results _) as [[|r rs]|e]; [done| |done]. simpl. by intros [= <-].
  - unfold load_inline. destruct rows; [done|]. simpl. by intros [= <-].
  - destruct (ini !! pn) as [p|] eqn:Hp; [|done]. intros [= <-]. by rewrite Hp.
Qed.

Lemma load_feeds_loaded (base : string) (ini : gmap string P) sources d d' :
  df_plugins d = ini -> loaded d -> load_feeds base ini sources d = Some (Ok d') -> loaded d' /\ df_plugins d' = ini.
Proof.
  revert d. induction sources as [|[name source] sources IH]; intros d Hini Hd; simpl; [by intros [= <-]|].
  destruct (load_feed base ini name source) as [[f|e]|] eqn:Hf; [|done..]. apply IH; [done|].
  unfold loaded. simpl. apply map_Forall_insert_2; [|apply Hd].
  apply load_feed_rows in Hf. by rewrite Hini.
Qed.

Lemma load_loaded sources base plugins placement d :
  load sources base plugins placement = Some (Ok d) -> loaded d.
Proof.
  unfold Feeds.load. destruct (init_plugins _ _ _ _) as [ini|e]; [|done]. intros Hl.
  by eapply load_feeds_loaded in Hl as [? _].
Qed.

(** Every plugin a source names is initialised, so the lookup of [load_feed] cannot fail. *)
Lemma index_insert_keys {A : Type} (k : string) (x : A) (m : list (string * A)) (j : string) :
  j ∈ (index_insert k x m).*1 <-> j = k \/ j ∈ m.*1.
Proof.
  induction m as [|[k' x'] m IH]; simpl; [rewrite list_elem_of_singleton; set_solver|].
  case_bool_decide as Hk; simpl; rewrite !elem_of_cons; [naive_solver|]. rewrite IH. tauto.
Qed.

Lemma plugin_groups_keys sources name pn cfg bl :
  (name, SrcPlugin pn cfg bl) ∈ sources -> pn ∈ (plugin_groups sources).*1.
Proof.
  unfold plugin_groups. generalize (@nil (string * list (string * Value))) as acc.
  assert (forall acc : list (string * list (string * Value)), pn ∈ acc.*1 \/ (name, SrcPlugin pn cfg bl) ∈ sources ->
    pn ∈ (foldl (fun groups '(name, source) =>
           match source with
           | SrcPlugin plugin_name config _ =>
               index_insert plugin_name
                 (index_insert name config (default [] (index_get plugin_name groups))) groups
           | _ => groups
           end) acc sources).*1) as Hall; [|intros acc Hin; apply Hall; by right].
  induction sources as [|[n s] sources IH]; intros acc [Hin|Hin]; simpl; try done.
  - by apply elem_of_nil in Hin.
  - apply IH. left. destruct s; try done. apply index_insert_keys. by right.
  - apply elem_of_cons in Hin as [[= <- <-]|Hin]; apply IH; [left|by right].
    apply index_insert_keys. by left.
Qed.

Lemma init_plugins_keys groups (plugins ini : gmap string P) placement r pn :
  init_plugins groups plugins ini placement = Ok r -> pn ∈ groups.*1 \/ is_Some (ini !! pn) -> is_Some (r !! pn).
Proof.
  revert plugins ini. induction groups as [|[g cfg] groups IH]; intros plugins ini; simpl.
  - intros [= <-] [Hin|Hi]; [by apply elem_of_nil in Hin|done].
  - destruct (plugins !! g) as [p|]; [|done]. destruct (plugin_init _ _) as [p'|]; [|done].
    intros Hr Hin. eapply IH; [exact Hr|]. rewrite lookup_insert_is_Some'. rewrite elem_of_cons in Hin. naive_solver.
Qed.

Lemma load_feeds_total (base : string) (ini : gmap string P) sources d :
  (forall name pn cfg bl, (name, SrcPlugin pn cfg bl) ∈ sources -> is_Some (ini !! pn)) ->
  is_Some (load_feeds base ini sources d).
Proof.
  revert d. induction sources as [|[name source] sources IH]; intros d Hs; simpl; [done|].
  assert (is_Some (load_feed base ini name source)) as [[f|e] ->]; [|apply IH; set_solver|done].
  destruct source as [| | |pn cfg bl]; try done. simpl.
  destruct (Hs name pn cfg bl) as [p ->]; [set_solver|done].
Qed.

Lemma load_total sources base plugins placement : is_Some (load sources base plugins placement).
Proof.
  unfold Feeds.load. destruct (init_plugins _ _ _ _) as [ini|e] eqn:Hi; [|done].
  apply load_feeds_total. intros name pn cfg bl Hin. eapply init_plugins_keys; [exact Hi|].
  left. by eapply plugin_groups_keys.
Qed.

(** ** The theorems *)

Context {R : Type} `{!Rng R} `{!RngLaws R}.
Context (encode : ResultPayload -> option string).

(** C13: data sources are well typed: loading never panics, and once it has succeeded no
    fetch of any virtual user or branch ever does, in any reachable state of the run,
    and what a stored source hands out is one of its rows. *)
Theorem data_sources_never_panic sources base plugins placement :
  exists res, load sources base plugins placement = Some res /\
  forall d (s : System (P := P) (R := R)) k v source id now_ms,
    res = Ok d -> reach encode d s -> sy_vus s !! k = Some v ->
    exists r e, next_row source id now_ms (env_of s v) = Some (r, e)
      /\ forall feed row, df_feeds d !! source = Some (Memory feed) -> r = Ok row -> row ∈ mf_rows feed.
Proof.
  destruct (load_total sources base plugins placement) as [res Hres]. exists res. split; [done|].
  intros d s k v source id now_ms -> Hr Hv. apply load_loaded in Hres.
  eapply inv_next_row; [done| |done]. by apply (reach_inv encode).
Qed.

(** C14: a source with a shared cursor is dealt out exactly once per lap.  However the virtual
    users interleave, the rows drawn from it are, in the order of the draws, the rows of
    the file from the first on, again and again with [recycle]; with [stop] each row goes
    to exactly one virtual user, and every later draw reports the end of the data. *)
Theorem shared_rows_dealt_once sources base plugins placement d (s : System (P := P) (R := R)) source feed :
  load sources base plugins placement = Some (Ok d) -> reach encode d s ->
  df_feeds d !! source = Some (Memory feed) -> mf_mode feed = Shared -> mf_pick feed = PickSequential ->
  let drawn := drawn source (sy_log s) in
  Z.of_nat (length drawn) <= u64_modulus ->
  drawn = walk source feed (seq 0 (length (mf_rows feed))) <$> seq 0 (length drawn)
  /\ (mf_on_eof feed = StopAtEof ->
      omap (fun r => match r with Ok row => Some row | Err _ => None end) drawn = take (length drawn) (mf_rows feed)).
Proof.
  intros Hl Hr Hf Hm Hp l Hlen. apply load_loaded in Hl. pose proof (reach_inv encode d s Hl Hr) as Hi.
  assert (l = walk source feed (seq 0 (length (mf_rows feed))) <$> seq 0 (length l)) as Heq.
  { apply (inv_shared _ _ Hi); [done| |done|done]. apply walks_true. split; [done|]. by rewrite Hp. }
  split; [done|]. intros Hs. rewrite Heq at 1. clear - Hs. generalize (length l) as n. intros n. clear l.
  set (rows := mf_rows feed) in *. induction n as [|n IH]; [done|].
  rewrite seq_S, fmap_app, omap_app, IH. simpl. unfold walk. rewrite Hs. fold rows.
  destruct (Nat.leb_spec (length rows) n) as [Hle|Hlt].
  - rewrite (bool_decide_true (StopAtEof = StopAtEof)) by done. simpl.
    rewrite app_nil_r, !take_ge; [done|lia..].
  - simpl. rewrite Nat.mod_small, lookup_seq_lt by done. simpl.
    destruct (lookup_lt_is_Some_2 rows n Hlt) as [row Hrow]. rewrite Hrow. simpl. by rewrite (take_S_r rows n row).
Qed.

(** A source with per-VU cursors is walked in full by every virtual user: whatever
    the others do, the rows one draws are those of a fixed order of all the rows, the
    file's for [sequential] and a permutation of its own for [shuffle], every row once
    per lap, stopping at the end if the source says so. *)
Theorem per_vu_walks_all_rows sources base plugins placement d (s : System (P := P) (R := R)) k v source feed :
  load sources base plugins placement = Some (Ok d) -> reach encode d s -> sy_vus s !! k = Some v ->
  df_feeds d !! source = Some (Memory feed) -> mf_mode feed = PerVu -> mf_pick feed <> PickRandom ->
  let drawn := drawn_by k source (sy_log s) in
  Z.of_nat (length drawn) <= u64_modulus ->
  exists order, order ≡ₚ seq 0 (length (mf_rows feed))
    /\ (mf_pick feed = PickSequential -> order = seq 0 (length (mf_rows feed)))
    /\ drawn = walk source feed order <$> seq 0 (length drawn).
Proof.
  intros Hl Hr Hv Hf Hm Hp l Hlen. apply load_loaded in Hl. pose proof (reach_inv encode d s Hl Hr) as Hi.
  destruct (inv_own _ _ Hi k v source feed Hv Hf) as (order & Ho & Hs & _ & Heq); [by apply walks_true|done|].
  eauto.
Qed.

(** The rows a plugin generates are numbered without gaps or repetitions: the draws of one
    virtual user from one source, those of the branches of its parallel steps included,
    carry the sequence numbers 0, 1, 2, ... in the order they are made, so no two rows
    of a run share a virtual user, source and number. *)
Theorem plugin_rows_numbered d (s : System (P := P) (R := R)) vu source :
  reach encode d s -> let seqs := seqs_of vu source (sy_log s) in
  Z.of_nat (length seqs) <= u64_modulus -> seqs = seqZ 0 (Z.of_nat (length seqs)).
Proof. intros Hr. by apply (sv_seqs _ (reach_seq_inv encode d s Hr)). Qed.
End Loaded.

(** ** A run, executed *)

Section Exec.
Context {P : Type} `{!DataSourcePlugin P} {R : Type} `{!Rng R}.
Context (encode : ResultPayload -> option string).

Inductive Op :=
| OpNew (k : nat) (vu : Z) (rng : R)
| OpFork (k k' : nat) (rng : R)
| OpFetch (k : nat) (source : string) (id : RowIdentity).

Definition exec1 (op : Op) (s : System (P := P) (R := R)) : option System :=
  match op with
  | OpNew k vu rng =>
      if bool_decide (sy_vus s !! k = None) && bool_decide (map_Forall (fun _ v => vf_vu v <> vu) (sy_vus s)) then
        Some (mkSystem (sy_data s) (VuFeedState_new (sy_store s)).2
                (<[k := mkVuFeed vu (VuFeedState_new (sy_store s)).1 rng]> (sy_vus s)) (sy_log s))
      else None
  | OpFork k k' rng =>
      v ← sy_vus s !! k;
      if bool_decide (sy_vus s !! k' = None) then
        Some (mkSystem (sy_data s) (sy_store s)
                (<[k' := mkVuFeed (vf_vu v) (fork_for_parallel (vf_state v)) rng]> (sy_vus s)) (sy_log s))
      else None
  | OpFetch k source id =>
      v ← sy_vus s !! k;
      match next_row source id 0 (env_of s v) with
      | Some (r, e) =>
          Some (back k v e (sy_log s ++ [mkFetched k (vf_vu v) source r (fetch_seq source (env_of s v))]) s)
      | None => None
      end
  end.

Fixpoint exec (ops : list Op) (s : System) : option System :=
  match ops with
  | [] => Some s
  | op :: ops => exec1 op s ≫= exec ops
  end.

Lemma exec_reach ops s s' : exec ops s = Some s' -> rtc (step encode) s s'.
Proof.
  revert s. induction ops as [|op ops IH]; intros s; simpl; [by intros [= ->]|].
  intros (s1 & Hs & He)%bind_Some. eapply rtc_l; [|by apply IH]. clear He IH.
  destruct op as [k vu rng|k k' rng|k source id]; simpl in Hs.
  - case_bool_decide as Hk; [|done]. case_bool_decide as Hv; [|done]. simpl in Hs. injection Hs as <-.
    exact (step_new encode s k vu rng Hk Hv).
  - apply bind_Some in Hs as (v & Hv & Hs). case_bool_decide as Hk; [|done]. injection Hs as <-.
    exact (step_fork encode s k v k' rng Hv Hk).
  - apply bind_Some in Hs as (v & Hv & Hs). destruct (next_row _ _ _ _) as [[r e]|] eqn:Hn; [|done].
    injection Hs as <-. exact (step_fetch encode s k v source id 0 r e Hv Hn).
Qed.
End Exec.

Module FeedDemo.
Import CountingRng.

(** A plugin that counts what it hands out. *)
#[export] Instance counting_plugin : DataSourcePlugin Z := {|
  plugin_set_placement p n := p_vu_offset p;
  plugin_init _ n := Ok n;
  plugin_next_row _ n := (Ok (PluginRow [("n", Z_to_string n)]), n + 1);
  plugin_wants_results _ := false;
  plugin_on_result _ n := n;
|}.
#[export] Instance no_json : JsonText := {| to_json _ := "?"; from_json _ := Err "?" |}.

Definition user (n : string) : list (string * Value) := [("user", Text n)].
Definition sources : list (string * DataSource) :=
  [("users", SrcInline [user "u1"; user "u2"] Shared StopAtEof PickSequential);
   ("own", SrcInline [user "u1"; user "u2"; user "u3"] PerVu Recycle PickShuffle);
   ("tx", SrcPlugin "signer" Null false)].
Definition load_demo := load (fun _ => Err "no file") (fun _ _ => Ok []) (fun _ _ _ => []) sources "." {["signer" := 7]}
  (mkVuPlacement 2 0).
Definition demo : DataFeeds Z := match load_demo with Some (Ok d) => d | _ => mkDataFeeds ∅ ∅ false false end.
Definition none (_ : ResultPayload) : option string := None.
Definition id (vu : Z) : RowIdentity := mkRowIdentity vu 0 "s" None.

Definition ops : list Op :=
  [OpNew 0 1 0%nat; OpNew 1 2 5%nat; OpFetch 1 "users" (id 2); OpFetch 0 "users" (id 1);
   OpFetch 1 "users" (id 2); OpFetch 0 "own" (id 1); OpFetch 0 "tx" (id 1); OpFork 0 2 9%nat;
   OpFetch 2 "tx" (id 1); OpFetch 0 "tx" (id 1); OpFetch 0 "own" (id 1)].
Definition final : System (P := Z) (R := nat) := default (System_new demo) (exec ops (System_new demo)).

Lemma loaded_demo : load_demo = Some (Ok demo).
Proof. vm_compute. reflexivity. Qed.

Lemma reach_final : reach none demo final.
Proof.
  apply (exec_reach none ops). unfold final. destruct (exec ops (System_new demo)) as [s|] eqn:He; [done|].
  exfalso. assert (bool_decide (is_Some (exec ops (System_new demo))) = true) as Hs by (vm_compute; reflexivity).
  apply bool_decide_eq_true in Hs. rewrite He in Hs. by apply is_Some_None in Hs.
Qed.

Definition feed_of (source : string) : MemoryFeed :=
  match df_feeds demo !! source with Some (Memory f) => f | _ => mkMemoryFeed [] Shared Recycle PickSequential 0 end.

Lemma shared_rows_dealt_once_witness :
  drawn "users" (sy_log final) = [Ok [("user", "u1")]; Ok [("user", "u2")]; Err (Exhausted "users")]
  /\ omap (fun r => match r with Ok row => Some row | Err _ => None end) (drawn "users" (sy_log final))
     = take 3 (mf_rows (feed_of "users")).
Proof.
  split; [vm_compute; reflexivity|].
  refine (proj2 (shared_rows_dealt_once _ _ _ none sources "." {["signer" := 7]} (mkVuPlacement 2 0) demo final
    "users" (feed_of "users") loaded_demo reach_final _ _ _ _) _); try (vm_compute; reflexivity).
  by vm_compute.
Defined.

Lemma per_vu_walks_all_rows_witness :
  drawn_by 0 "own" (sy_log final) = [Ok [("user", "u3")]; Ok [("user", "u2")]]
  /\ exists order, order ≡ₚ seq 0 3
     /\ drawn_by 0 "own" (sy_log final) = walk "own" (feed_of "own") order <$> seq 0 2.
Proof.
  split; [vm_compute; reflexivity|].
  destruct (sy_vus final !! 0%nat) as [v|] eqn:Hv; [|by vm_compute in Hv].
  destruct (per_vu_walks_all_rows _ _ _ none sources "." {["signer" := 7]} (mkVuPlacement 2 0) demo final
    0 v "own" (feed_of "own") loaded_demo reach_final Hv) as (order & Ho & _ & Heq).
  - vm_compute; reflexivity.
  - vm_compute; reflexivity.
  - vm_compute; discriminate.
  - by vm_compute.
  - exists order. split; [exact Ho|exact Heq].
Defined.

Lemma plugin_rows_numbered_witness :
  seqs_of 1 "tx" (sy_log final) = [0; 1; 2] /\ seqs_of 1 "tx" (sy_log final) = seqZ 0 3.
Proof.
  split; [vm_compute; reflexivity|].
  exact (plugin_rows_numbered none demo final 1 "tx" reach_final ltac:(by vm_compute)).
Defined.

Lemma data_sources_never_panic_witness :
  exists v r e, sy_vus final !! 0%nat = Some v /\ next_row "own" (id 1) 0 (env_of final v) = Some (r, e)
    /\ forall row, r = Ok row -> row ∈ mf_rows (feed_of "own").
Proof.
  destruct (data_sources_never_panic (fun _ => Err "no file") (fun _ _ => Ok []) (fun _ _ _ => []) none
              sources "." {["signer" := 7]} (mkVuPlacement 2 0)) as (res & Hres & Hall).
  fold load_demo in Hres. rewrite loaded_demo in Hres. injection Hres as <-.
  destruct (sy_vus final !! 0%nat) as [v|] eqn:Hv; [|by vm_compute in Hv].
  destruct (Hall demo final 0%nat v "own" (id 1) 0 eq_refl reach_final Hv) as (r & e & Hn & Hrow).
  exists v, r, e. split; [done|]. split; [exact Hn|]. intros row. apply Hrow. vm_compute. reflexivity.
Defined.

(** A cursor shared over permutations of their own does not deal rows out once per lap. *)
Definition mixed : list (string * DataSource) :=
  [("users", SrcInline [user "u1"; user "u2"; user "u3"] Shared StopAtEof PickShuffle)].
Definition load_mixed := load (fun _ => Err "no file") (fun _ _ => Ok []) (fun _ _ _ => []) mixed "." (∅ : gmap string Z)
  (mkVuPlacement 2 0).
Definition mixed_demo : DataFeeds Z := match load_mixed with Some (Ok d) => d | _ => mkDataFeeds ∅ ∅ false false end.
Example shared_shuffle_repeats :
  let s := exec [OpNew 0 1 0%nat; OpNew 1 2 5%nat; OpFetch 0 "users" (id 1); OpFetch 1 "users" (id 2);
                 OpFetch 1 "users" (id 2); OpFetch 0 "users" (id 1)] (System_new mixed_demo) in
  load_mixed = Some (Ok mixed_demo)
  /\ drawn "users" <$> (sy_log <$> s)
     = Some [Ok [("user", "u3")]; Ok [("user", "u2")]; Ok [("user", "u3")]; Err (Exhausted "users")].
Proof. split; vm_compute; reflexivity. Qed.
End FeedDemo.
