(* ===== verification/Vu.v ===== *)
(** * One virtual user (crates/loadr-core/src/vu.rs)

    [VuContext] is what a virtual user owns; [World] what the virtual users of a run
    share behind [Arc]s and locks: data sources, sequence counters, the metric registry,
    and the calls made on the metrics bus, logged in order (Pipeline.v gives them their
    meaning).  Synchronous code is a computation over both that may panic.  The extensions
    of protocol handlers are theirs alone and are left to them. *)

From Stdlib Require Import Ascii.
From S2P Require Import Prelude Float64 Str Dur Value Template Protocol Metrics Aggregate Federation Pipeline Executor Cookies Feeds.

Inductive BusCall :=
| EmitValue (metric : string) (kind : MetricKind) (value : f64) (tags : Tags)
| EmitCached (values : list (string * MetricKind * f64)) (tags : CachedTags)
| BeginRequest
| EndRequest.

Section Calls.
Context `{Hdr}.

(** The call on the bus of Pipeline.v. *)
Definition bus_call (sink : Sink) (call : BusCall) (now_ms : Z) (b : BusState) : BusState :=
  match call with
  | EmitValue metric kind value tags => emit_value sink metric kind value tags now_ms b
  | EmitCached values tags => emit_cached_values sink values tags now_ms b
  | BeginRequest => begin_request b
  | EndRequest => end_request b
  end.
End Calls.

(** The shared context of a run; the parts that change live in [World]. *)
Record RunContext := mkRunContext {
  rc_variables : gmap string Value;
  rc_secrets : gmap string string;
  rc_env : gmap string string;
  rc_base_dir : string;
  rc_setup_data : Value;
}.

Record TagCacheEntry := mkTagCacheEntry {
  te_groups : list string;
  te_extras : list (string * string);
  te_tags : CachedTags;
}.

Record World (P : Type) := mkWorld {
  w_data : DataFeeds P;
  w_store : SeqStore;
  w_registry : MetricRegistry;
  w_calls : list (Sink * BusCall);
  w_now_ms : Z;
}.
Arguments mkWorld {P}.
Arguments w_data {P}.
Arguments w_store {P}.
Arguments w_registry {P}.
Arguments w_calls {P}.
Arguments w_now_ms {P}.

Record VuContext (R : Type) := mkVu {
  vu_id : Z;
  scenario : string;
  iteration : Z;
  base_tags : Tags;
  base_cached_tags : CachedTags;
  tag_cache : list TagCacheEntry;
  groups : list string;
  vars : gmap string Value;
  cookie_jar : CookieJar;
  metrics : Sink;
  rng : R;
  data_state : VuFeedState;
  current_rows : gmap string Row;
  current_request : option string;
  last_request_failed : bool;
}.
Arguments mkVu {R}.
Arguments vu_id {R}.
Arguments scenario {R}.
Arguments iteration {R}.
Arguments base_tags {R}.
Arguments base_cached_tags {R}.
Arguments tag_cache {R}.
Arguments groups {R}.
Arguments vars {R}.
Arguments cookie_jar {R}.
Arguments metrics {R}.
Arguments rng {R}.
Arguments data_state {R}.
Arguments current_rows {R}.
Arguments current_request {R}.
Arguments last_request_failed {R}.

(** ** Setters *)

Section Setters.
Context {R : Type}.
Implicit Types v : VuContext R.

Definition set_iteration (n : Z) v := mkVu (vu_id v) (scenario v) n (base_tags v) (base_cached_tags v) (tag_cache v)
  (groups v) (vars v) (cookie_jar v) (metrics v) (rng v) (data_state v) (current_rows v) (current_request v)
  (last_request_failed v).
Definition set_tag_cache (c : list TagCacheEntry) v := mkVu (vu_id v) (scenario v) (iteration v) (base_tags v)
  (base_cached_tags v) c (groups v) (vars v) (cookie_jar v) (metrics v) (rng v) (data_state v) (current_rows v)
  (current_request v) (last_request_failed v).
Definition set_groups (gs : list string) v := mkVu (vu_id v) (scenario v) (iteration v) (base_tags v)
  (base_cached_tags v) (tag_cache v) gs (vars v) (cookie_jar v) (metrics v) (rng v) (data_state v) (current_rows v)
  (current_request v) (last_request_failed v).
Definition set_vars (m : gmap string Value) v := mkVu (vu_id v) (scenario v) (iteration v) (base_tags v)
  (base_cached_tags v) (tag_cache v) (groups v) m (cookie_jar v) (metrics v) (rng v) (data_state v) (current_rows v)
  (current_request v) (last_request_failed v).
Definition set_cookie_jar (j : CookieJar) v := mkVu (vu_id v) (scenario v) (iteration v) (base_tags v)
  (base_cached_tags v) (tag_cache v) (groups v) (vars v) j (metrics v) (rng v) (data_state v) (current_rows v)
  (current_request v) (last_request_failed v).
Definition set_rng (r : R) v := mkVu (vu_id v) (scenario v) (iteration v) (base_tags v) (base_cached_tags v)
  (tag_cache v) (groups v) (vars v) (cookie_jar v) (metrics v) r (data_state v) (current_rows v) (current_request v)
  (last_request_failed v).
Definition set_data_state (st : VuFeedState) v := mkVu (vu_id v) (scenario v) (iteration v) (base_tags v)
  (base_cached_tags v) (tag_cache v) (groups v) (vars v) (cookie_jar v) (metrics v) (rng v) st (current_rows v)
  (current_request v) (last_request_failed v).
Definition set_current_rows (m : gmap string Row) v := mkVu (vu_id v) (scenario v) (iteration v) (base_tags v)
  (base_cached_tags v) (tag_cache v) (groups v) (vars v) (cookie_jar v) (metrics v) (rng v) (data_state v) m
  (current_request v) (last_request_failed v).
Definition set_current_request (o : option string) v := mkVu (vu_id v) (scenario v) (iteration v) (base_tags v)
  (base_cached_tags v) (tag_cache v) (groups v) (vars v) (cookie_jar v) (metrics v) (rng v) (data_state v)
  (current_rows v) o (last_request_failed v).
Definition set_last_request_failed (b : bool) v := mkVu (vu_id v) (scenario v) (iteration v) (base_tags v)
  (base_cached_tags v) (tag_cache v) (groups v) (vars v) (cookie_jar v) (metrics v) (rng v) (data_state v)
  (current_rows v) (current_request v) b.
Definition set_var (k : string) (x : Value) v := set_vars (<[k := x]> (vars v)) v.
End Setters.

Section WorldSetters.
Context {P : Type}.
Definition log_call (sink : Sink) (c : BusCall) (w : World P) : World P :=
  mkWorld (w_data w) (w_store w) (w_registry w) (w_calls w ++ [(sink, c)]) (w_now_ms w).
Definition set_registry (r : MetricRegistry) (w : World P) : World P :=
  mkWorld (w_data w) (w_store w) r (w_calls w) (w_now_ms w).
Definition set_data (d : DataFeeds P) (g : SeqStore) (w : World P) : World P :=
  mkWorld d g (w_registry w) (w_calls w) (w_now_ms w).
End WorldSetters.

(** ** Operations *)

Section Vu.
Context {P : Type} `{!DataSourcePlugin P} {R : Type} `{!Rng R} `{JsonText}.
Context (hash_tags : Tags -> Z).
(** [SmallRng::seed_from_u64]. *)
Context (seed_from_u64 : Z -> R).
Context (run : RunContext).
Implicit Types (v : VuContext R) (w : World P).

Definition VuContext_new (id : Z) (sc : string) (tags : Tags) (sink : Sink) (cookies_auto : bool) w :
    VuContext R * World P :=
  let '(reg, cached) := intern_tags hash_tags (w_registry w) tags in
  let '(st, g) := VuFeedState_new (w_store w) in
  (mkVu id sc 0 tags cached [] [] ∅ (CookieJar_new cookies_auto) sink
     (seed_from_u64 (Z.lxor 4269 (u64_wrap (id * 11400714819323198485)))) st ∅ None false,
   set_data (w_data w) g (set_registry reg w)).

Definition add_group (gs : list string) (tags : Tags) : Tags :=
  match gs with [] => tags | _ => <["group" := "::" +:+ join "::" gs]> tags end.

Definition sample_tags (extras : list (string * string)) v : Tags :=
  match extras, groups v with
  | [], [] => base_tags v
  | _, _ => foldl (fun m '(k, x) => <[k := x]> m) (add_group (groups v) (base_tags v)) extras
  end.

Definition entry_matches (extras : list (string * string)) v (e : TagCacheEntry) : bool :=
  bool_decide (te_groups e = groups v) && bool_decide (te_extras e = extras).

Definition cached_sample_tags (extras : list (string * string)) v w : CachedTags * VuContext R * World P :=
  match extras, groups v with
  | [], [] => (base_cached_tags v, v, w)
  | _, _ =>
      match List.find (entry_matches extras v) (tag_cache v) with
      | Some e => (te_tags e, v, w)
      | None =>
          let '(reg, tags) := intern_tags hash_tags (w_registry w) (sample_tags extras v) in
          let cache := if Nat.leb 64 (length (tag_cache v)) then [] else tag_cache v in
          (tags, set_tag_cache (cache ++ [mkTagCacheEntry (groups v) extras tags]) v, set_registry reg w)
      end
  end.

Definition begin_iteration v : VuContext R :=
  set_data_state (clear_pending (data_state v))
    (set_current_request None (set_current_rows ∅ (set_iteration (u64_add (iteration v) 1) v))).

Definition begin_message w v : VuContext R :=
  if df_has_on_demand (w_data w)
  then set_current_rows (filter (fun kv => is_on_demand (w_data w) kv.1 = false) (current_rows v)) v
  else v.

Definition begin_vu_request (name : string) w v : VuContext R :=
  if df_has_on_demand (w_data w)
  then begin_message w (set_data_state (clear_pending (data_state v)) (set_current_request (Some name) v))
  else v.

Definition row_identity v : RowIdentity :=
  mkRowIdentity (vu_id v) (u64_saturating_sub (iteration v) 1) (scenario v) (current_request v).

Definition data_row (source : string) v w : may_panic (result NextRowError Row * VuContext R * World P) :=
  match current_rows v !! source with
  | Some row => Some (Ok row, v, w)
  | None =>
      match next_row source (row_identity v) (w_now_ms w) (mkFetchEnv (w_data w) (w_store w) (data_state v) (rng v)) with
      | None => None
      | Some (r, e) =>
          let v := set_rng (fe_rng e) (set_data_state (fe_state e) v) in
          let w := set_data (fe_data e) (fe_store e) w in
          match r with
          | Ok row => Some (Ok row, set_current_rows (<[source := row]> (current_rows v)) v, w)
          | Err e => Some (Err e, v, w)
          end
      end
  end.

Definition resolve_expr (expr : string) v w : may_panic (result NextRowError (option string) * VuContext R * World P) :=
  match strip_prefix expr "env.", strip_prefix expr "vars.", strip_prefix expr "secrets.", strip_prefix expr "data." with
  | Some name, _, _, _ => Some (Ok (rc_env run !! name), v, w)
  | None, Some name, _, _ => Some (Ok (json_to_string <$> rc_variables run !! name), v, w)
  | None, None, Some name, _ => Some (Ok (rc_secrets run !! name), v, w)
  | None, None, None, Some rest =>
      match split_once rest "." with
      | None => Some (Ok None, v, w)
      | Some (source, column) =>
          match data_row source v w with
          | None => None
          | Some (Err e, v, w) => Some (Err e, v, w)
          | Some (Ok row, v, w) => Some (Ok (index_get column row), v, w)
          end
      end
  | None, None, None, None =>
      Some (Ok (if bool_decide (expr = "vu") then Some (Z_to_string (vu_id v))
                else if bool_decide (expr = "iteration") then Some (Z_to_string (u64_saturating_sub (iteration v) 1))
                else if bool_decide (expr = "scenario") then Some (scenario v)
                else match vars v !! expr with
                     | Some x => Some (json_to_string x)
                     | None => json_to_string <$> rc_variables run !! expr
                     end), v, w)
  end.
End Vu.

(** ** The tag cache *)

Section TagCache.
Context {P : Type} `{!DataSourcePlugin P} {R : Type} `{!Rng R}.
Context (hash_tags : Tags -> Z) (seed_from_u64 : Z -> R).
Implicit Types (v : VuContext R) (w : World P).

(** What happens between two samples: a group is entered or left, tags are asked for, and other
    virtual users intern tag sets of their own in the registry they share. *)
Inductive TagOp :=
| EnterGroup (g : string)
| LeaveGroup
| TagsFor (extras : list (string * string))
| InternedElsewhere (tags : Tags).

Definition tag_op (op : TagOp) (s : VuContext R * World P) : VuContext R * World P :=
  let '(v, w) := s in
  match op with
  | EnterGroup g => (set_groups (groups v ++ [g]) v, w)
  | LeaveGroup => (set_groups (removelast (groups v)) v, w)
  | TagsFor extras => let '(_, v, w) := cached_sample_tags hash_tags extras v w in (v, w)
  | InternedElsewhere tags => (v, set_registry (intern_tags hash_tags (w_registry w) tags).1 w)
  end.
Definition tag_ops (ops : list TagOp) (s : VuContext R * World P) : VuContext R * World P :=
  foldl (fun s op => tag_op op s) s ops.

(** The tags of a sample under a given group stack. *)
Definition tags_under (base : Tags) (gs : list string) (extras : list (string * string)) : Tags :=
  foldl (fun m '(k, x) => <[k := x]> m) (add_group gs base) extras.

Definition registry_hashes_ok (reg : MetricRegistry) : Prop :=
  forall tags h, tag_sets reg !! tags = Some h -> h = hash_tags tags.

Record tag_cache_ok (s : VuContext R * World P) : Prop := mkTagCacheOk {
  tc_registry : registry_hashes_ok (w_registry s.2);
  tc_base : base_cached_tags s.1 = CachedTags_new hash_tags (base_tags s.1);
  tc_entries : Forall (fun e => te_tags e = CachedTags_new hash_tags (tags_under (base_tags s.1) (te_groups e) (te_extras e)))
                 (tag_cache s.1);
  tc_bound : (length (tag_cache s.1) <= 64)%nat;
}.

Lemma intern_tags_exact (reg : MetricRegistry) (tags : Tags) :
  registry_hashes_ok reg ->
  (intern_tags hash_tags reg tags).2 = CachedTags_new hash_tags tags
  /\ registry_hashes_ok (intern_tags hash_tags reg tags).1.
Proof.
  intros Hok. unfold intern_tags. destruct (tag_sets reg !! tags) as [h|] eqn:Ht; cbn.
  - split; [|exact Hok]. by rewrite (Hok _ _ Ht).
  - case_match; cbn; (split; [done|]); [|exact Hok].
    intros t h. cbn. destruct (decide (t = tags)) as [->|Hne].
    + rewrite lookup_insert_eq. by intros [= <-].
    + rewrite lookup_insert_ne by done. apply Hok.
Qed.

Lemma sample_tags_under (extras : list (string * string)) v :
  sample_tags extras v = tags_under (base_tags v) (groups v) extras.
Proof. unfold sample_tags, tags_under. by destruct extras, (groups v). Qed.

Lemma cached_sample_tags_exact (extras : list (string * string)) v w :
  tag_cache_ok (v, w) ->
  let '(tags, v', w') := cached_sample_tags hash_tags extras v w in
  tags = CachedTags_new hash_tags (sample_tags extras v) /\ tag_cache_ok (v', w').
Proof.
  intros [Hreg Hbase Hents Hlen]. cbn in *.
  assert (tag_cache_ok (v, w)) as Hok by by constructor.
  unfold cached_sample_tags.
  assert (let '(tags, v', w') :=
            match List.find (entry_matches extras v) (tag_cache v) with
            | Some e => (te_tags e, v, w)
            | None =>
                let '(reg, tags) := intern_tags hash_tags (w_registry w) (sample_tags extras v) in
                let cache := if Nat.leb 64 (length (tag_cache v)) then [] else tag_cache v in
                (tags, set_tag_cache (cache ++ [mkTagCacheEntry (groups v) extras tags]) v, set_registry reg w)
            end in
          tags = CachedTags_new hash_tags (sample_tags extras v) /\ tag_cache_ok (v', w')) as Hmain.
  { destruct (List.find _ _) as [e|] eqn:He.
    - split; [|exact Hok]. apply List.find_some in He as [Hin Hm].
      unfold entry_matches in Hm. bool_to_prop. apply list_elem_of_In in Hin.
      rewrite Forall_forall in Hents. rewrite (Hents _ Hin), sample_tags_under. by f_equal; f_equal.
    - destruct (intern_tags_exact (w_registry w) (sample_tags extras v) Hreg) as [Ht Hr].
      destruct (intern_tags _ _ _) as [reg tags]. cbn in Ht, Hr. split; [exact Ht|].
      destruct (Nat.leb_spec 64 (length (tag_cache v))) as [Hfull|Hroom].
      + constructor; cbn; [exact Hr|exact Hbase| |lia].
        apply Forall_singleton. cbn. by rewrite Ht, sample_tags_under.
      + constructor; cbn; [exact Hr|exact Hbase| |rewrite length_app; cbn; lia].
        apply Forall_app. split; [exact Hents|]. apply Forall_singleton. cbn. by rewrite Ht, sample_tags_under. }
  destruct extras, (groups v) eqn:Hg; try exact Hmain.
  split; [|exact Hok]. unfold sample_tags. by rewrite Hg.
Qed.

Lemma tag_op_ok (op : TagOp) (s : VuContext R * World P) : tag_cache_ok s -> tag_cache_ok (tag_op op s).
Proof.
  destruct s as [v w]. intros Hok. destruct op as [g| |extras|tags]; cbn.
  - by destruct Hok.
  - by destruct Hok.
  - pose proof (cached_sample_tags_exact extras v w Hok) as Hc.
    destruct (cached_sample_tags _ _ _ _) as [[tags v'] w']. exact (proj2 Hc).
  - destruct Hok as [Hreg ? ? ?]. constructor; cbn in *; try done.
    exact (proj2 (intern_tags_exact _ _ Hreg)).
Qed.

(** Whatever groups a virtual user enters and leaves, whatever tags it asked for before and whatever
    the others intern, the cached tags of a sample are the ones built from scratch: base tags,
    then the group path, then the extras; and the cache never holds more than 64 entries. *)
Theorem cached_tags_exact (id : Z) (sc : string) (tags : Tags) (sink : Sink) (auto : bool) w
    (ops : list TagOp) (extras : list (string * string)) :
  registry_hashes_ok (w_registry w) ->
  let '(v, w) := tag_ops ops (VuContext_new hash_tags seed_from_u64 id sc tags sink auto w) in
  (cached_sample_tags hash_tags extras v w).1.1 = CachedTags_new hash_tags (sample_tags extras v)
  /\ (length (tag_cache v) <= 64)%nat.
Proof.
  intros Hreg. assert (tag_cache_ok (VuContext_new hash_tags seed_from_u64 id sc tags sink auto w)) as Hok.
  { unfold VuContext_new. destruct (intern_tags_exact (w_registry w) tags Hreg) as [Ht Hr].
    destruct (intern_tags _ _ _) as [reg cached], (VuFeedState_new _) as [st g].
    constructor; cbn; [exact Hr|exact Ht|constructor|lia]. }
  assert (tag_cache_ok (tag_ops ops (VuContext_new hash_tags seed_from_u64 id sc tags sink auto w))) as Hops.
  { unfold tag_ops. revert Hok. generalize (VuContext_new hash_tags seed_from_u64 id sc tags sink auto w) as s.
    induction ops as [|op ops IH]; intros s Hs; [exact Hs|]. apply IH, tag_op_ok, Hs. }
  destruct (tag_ops _ _) as [v w']. split; [|exact (tc_bound _ Hops)].
  pose proof (cached_sample_tags_exact extras v w' Hops) as Hc.
  by destruct (cached_sample_tags _ _ _ _) as [[ts v'] w''], Hc.
Qed.
End TagCache.

Module VuDemo.
Import CountingRng.

(** A plugin that never has a row. *)
#[export] Instance no_plugin : DataSourcePlugin unit := {|
  plugin_set_placement _ n := n;
  plugin_init _ n := Ok n;
  plugin_next_row _ n := (Ok PluginExhausted, n);
  plugin_wants_results _ := false;
  plugin_on_result _ n := n;
|}.

Definition hash (t : Tags) : Z := Z.of_nat (size t).
Definition w0 : World unit := mkWorld (mkDataFeeds ∅ ∅ false false) SeqStore_empty (mkMetricRegistry ∅ ∅) [] 0.
Definition ops : list TagOp :=
  [EnterGroup "login"; TagsFor [("name", "home")]; InternedElsewhere {["a" := "b"]}; LeaveGroup].

Example cached_tags_exact_witness :
  registry_hashes_ok hash (w_registry w0)
  /\ let '(v, w) := tag_ops hash ops (VuContext_new hash Z.to_nat 1 "s" ∅ Tx true w0) in
     (cached_sample_tags hash [("name", "home")] v w).1.1 = CachedTags_new hash (sample_tags [("name", "home")] v)
     /\ (length (tag_cache v) <= 64)%nat.
Proof.
  split.
  - intros t h Ht. discriminate Ht.
  - apply (cached_tags_exact hash Z.to_nat 1 "s" ∅ Tx true w0 ops [("name", "home")]).
    intros t h Ht. discriminate Ht.
Defined.
End VuDemo.
