(* ===== verification/Program.v ===== *)
(** * Scenario programs (crates/loadr-config/src/plan.rs, compilation half of crates/loadr-core/src/flow.rs)

    The steps of a scenario as the plan writes them and as the flow runner executes them,
    and how the one becomes the other: templates parsed, conditions and extractors compiled,
    files read, protobuf checks bound to their slots.

    A compiled [Random] step owns an atomic counter; the model numbers the counters
    ([cursor]) by the position of the step. *)

From Stdlib Require Import Ascii.
From S2P Require Import Prelude Float64 Str Dur Value Template Protocol Extract Conditions Feeds Pacing.

(** ** Plan *)

Record GraphqlOptions := mkGraphql {
  gq_query : string;
  gq_variables : option Value;
  gq_operation_name : option string;
}.

Inductive WsMessage :=
| WmText (text : string)
| WmDetailed (text binary_base64 : option string) (delay : option Duration).

Record WsOptions := mkWsOptions {
  wo_subprotocols : list string;
  wo_send : list WsMessage;
  wo_receive_count : option Z;
  wo_receive_until : option string;
  wo_session_duration : option Duration;
}.

Inductive GrpcTransport := TransportChannel | TransportRaw.

Record GrpcOptions := mkGrpcOptions {
  go_proto_files : list string;
  go_proto_includes : list string;
  go_reflection : bool;
  go_service : string;
  go_method : string;
  go_message : option Value;
  go_messages : list Value;
  go_stream_repeat : option nat;
  go_metadata : list (string * string);
  go_channel_pool_size : option Z;
  go_transport : GrpcTransport;
}.

Record SocketOptions := mkSocketOptions {
  so_send_text : option string;
  so_send_hex : option string;
  so_read_bytes : option Z;
  so_read_until_close : bool;
  so_read_timeout : option Duration;
}.

Record SseOptions := mkSseOptions {
  se_events : option Z;
  se_until : option string;
  se_duration : option Duration;
}.

Record SqlOptions := mkSqlOptions {
  sq_query : string;
  sq_params : list string;
}.

Record MultipartPart := mkPart {
  mp_name : string;
  mp_value : option string;
  mp_file : option string;
  mp_content_type : option string;
  mp_filename : option string;
}.

Record BodySpec := mkBodySpec {
  bs_json : option Value;
  bs_file : option string;
  bs_form : option (list (string * string));
  bs_multipart : option (list MultipartPart);
}.

Inductive Body :=
| BodyText (text : string)
| BodyOf (spec : BodySpec).

Record RequestStep := mkRequestStep {
  rq_name : option string;
  rq_protocol : option string;
  rq_method : option string;
  rq_url : string;
  rq_headers : list (string * string);
  rq_params : list (string * string);
  rq_body : option Body;
  rq_timeout : option Duration;
  rq_follow_redirects : option bool;
  rq_tags : list (string * string);
  rq_extract : list Extractor;
  rq_assert : list Condition;
  rq_checks : list Condition;
  rq_ws : option WsOptions;
  rq_grpc : option GrpcOptions;
  rq_graphql : option GraphqlOptions;
  rq_socket : option SocketOptions;
  rq_sse : option SseOptions;
  rq_sql : option SqlOptions;
  rq_plugin : option Value;
}.

Inductive JsStep :=
| JsCode (code : string)
| JsDetailed (call script : option string).

Inductive SwitchStrategy := Weighted | Uniform | RoundRobin.

Inductive Step :=
| StRequest (r : RequestStep)
| StThinkTime (t : ThinkTimeSpec)
| StJs (j : JsStep)
| StGroup (name : string) (steps : list Step)
| StRepeat (times : Z) (counter : option string) (steps : list Step)
| StWhile (condition : string) (max_iterations : option Z) (steps : list Step)
| StIf (condition : string) (then_ otherwise : list Step)
| StRandom (strategy : SwitchStrategy) (choices : list (option f64 * option string * list Step))
| StForeach (items : Value) (var index : option string) (steps : list Step)
| StSwitch (value : string) (cases : list (string * list Step)) (dflt : list Step)
| StDuring (duration : Duration) (counter : option string) (steps : list Step)
| StRetry (times : option Z) (until : option string) (backoff : option Duration) (steps : list Step)
| StParallel (branches : list (list Step))
| StRendezvous (name : string) (users : Z) (timeout : option Duration).

(** The fields of [HttpDefaults] the flow runner reads; the others are the HTTP handler's. *)
Record HttpDefaults := mkHttpDefaults {
  hd_base_url : option string;
  hd_headers : list (string * string);
  hd_timeout : Duration;
  hd_follow_redirects : bool;
  hd_max_redirects : Z;
  hd_cookies : bool;
}.

(** What [ScenarioProgram::compile] reads of [plan.defaults] and of the scenario. *)
Record PlanDefaults := mkPlanDefaults {
  pd_http : HttpDefaults;
  pd_tags : list (string * string);
  pd_think_time : option ThinkTimeSpec;
}.

Record ScenarioPlan := mkScenarioPlan {
  sp_flow : list Step;
  sp_tags : list (string * string);
  sp_exec : option string;
  sp_on_start : option string;
  sp_on_stop : option string;
  sp_think_time : option ThinkTimeSpec;
  sp_pacing : option f64;
  sp_throttle : option f64;
  sp_faults : option FaultSpec;
}.

(** ** Compiled *)

Inductive CompiledJson :=
| CjLiteral (v : Value)
| CjString (t : Template)
| CjSplice (t : Template)
| CjArray (items : list CompiledJson)
| CjObject (fields : list (string * CompiledJson)).

Inductive CompiledGrpcValue :=
| CgLiteral (v : Value)
| CgDynamic (j : CompiledJson).

Inductive CompiledGrpcValues :=
| CvLiteral (vs : list Value)
| CvDynamic (values : list CompiledJson) (repeat : nat).

Record CompiledGrpc := mkCompiledGrpc {
  cg_proto_files : list string;
  cg_proto_includes : list string;
  cg_reflection : bool;
  cg_service : string;
  cg_method : string;
  cg_message : option CompiledGrpcValue;
  cg_messages : CompiledGrpcValues;
  cg_metadata : list (string * Template);
  cg_channel_pool_size : option Z;
  cg_transport : GrpcTransport;
}.

Record CompiledPart := mkCompiledPart {
  cp_name : string;
  cp_value : option Template;
  cp_bytes : option string;
  cp_filename : option string;
  cp_content_type : option string;
}.

Inductive CompiledBody :=
| CbNone
| CbText (t : Template)
| CbJson (v : Value)
| CbBytes (b : string)
| CbForm (fields : list (string * Template))
| CbMultipart (parts : list CompiledPart).

Section Compiled.
Context `{TextTools}.

Record CompiledRequest := mkCompiledRequest {
  cr_req_name : option Template;
  cr_display_name : string;
  cr_protocol : string;
  cr_method : string;
  cr_url : Template;
  cr_headers : list (string * Template);
  cr_params : list (string * Template);
  cr_body : CompiledBody;
  cr_timeout : option Duration;
  cr_follow_redirects : option bool;
  cr_tags : list (string * string);
  cr_extract : list CompiledExtractor;
  cr_assert : list CompiledCondition;
  cr_checks : list CompiledCondition;
  cr_grpc_protobuf_checks : option (list GrpcProtobufFieldCheck);
  cr_reads_response_body : bool;
  cr_ws : option WsOptions;
  cr_grpc : option CompiledGrpc;
  cr_graphql : option GraphqlOptions;
  cr_socket : option SocketOptions;
  cr_sse : option SseOptions;
  cr_sql : option SqlOptions;
  cr_plugin : option Value;
}.

Inductive CompiledStep :=
| CsRequest (r : CompiledRequest)
| CsThinkTime (t : ThinkTimeSpec)
| CsJs (call script : option string)
| CsGroup (name : string) (steps : list CompiledStep)
| CsRepeat (times : Z) (counter : option string) (steps : list CompiledStep)
| CsWhile (condition : string) (max_iterations : Z) (steps : list CompiledStep)
| CsIf (condition : string) (then_ otherwise : list CompiledStep)
| CsRandom (strategy : SwitchStrategy) (choices : list (f64 * option string * list CompiledStep)) (cursor : list nat)
| CsForeach (items : Value) (var index : string) (steps : list CompiledStep)
| CsSwitch (value : Template) (cases : list (string * list CompiledStep)) (dflt : list CompiledStep)
| CsDuring (duration : Duration) (counter : string) (steps : list CompiledStep)
| CsRetry (times : Z) (until : option string) (backoff : option Duration) (steps : list CompiledStep)
| CsParallel (branches : list (list CompiledStep))
| CsRendezvous (name : string) (users : Z) (timeout : Duration).

Record ScenarioProgram := mkProgram {
  pg_name : string;
  pg_steps : list CompiledStep;
  pg_exec : option string;
  pg_on_start : option string;
  pg_on_stop : option string;
  pg_think_time : option ThinkTimeSpec;
  pg_pacing : option f64;
  pg_throttle : option Duration;
  pg_faults : option FaultSpec;
  pg_tags : gmap string string;
  pg_http : HttpDefaults;
  pg_cookies_auto : bool;
}.
End Compiled.

(** ** Compilation *)

(** [map] and [collect] over a list of results, the first error first. *)
Section Traverse.
Context {E A B : Type} (f : A -> result E B).
Fixpoint traverse (l : list A) : result E (list B) :=
  match l with
  | [] => Ok []
  | x :: l => let? y := f x in let? ys := traverse l in Ok (y :: ys)
  end.
(** The same with the index of each element. *)
Fixpoint traverse_at (g : nat -> A -> result E B) (i : nat) (l : list A) : result E (list B) :=
  match l with
  | [] => Ok []
  | x :: l => let? y := g i x in let? ys := traverse_at g (S i) l in Ok (y :: ys)
  end.
Definition traverse_opt (o : option A) : result E (option B) :=
  match o with
  | None => Ok None
  | Some x => let? y := f x in Ok (Some y)
  end.
End Traverse.

Definition parse_template (s what : string) : result EngineError Template :=
  result_map_err (fun e => EngineConfig (what +:+ ": " +:+ TemplateError_to_string e)) (Template_parse s).

Definition cj_is_literal (j : CompiledJson) : bool := match j with CjLiteral _ => true | _ => false end.

Fixpoint CompiledJson_compile (value : Value) (what : string) : result EngineError CompiledJson :=
  match value with
  | Text source =>
      let? t := parse_template source what in
      if is_literal t then Ok (CjLiteral value)
      else if Nat.eqb (length (parts t)) 1 then Ok (CjSplice t) else Ok (CjString t)
  | Array items =>
      let? js := traverse (fun item => CompiledJson_compile item what) items in
      if forallb cj_is_literal js then Ok (CjLiteral value) else Ok (CjArray js)
  | Object m =>
      let? fields := traverse (fun kv => let? j := CompiledJson_compile kv.2 what in Ok (kv.1, j)) m in
      if forallb (fun kv => cj_is_literal kv.2) fields then Ok (CjLiteral value) else Ok (CjObject fields)
  | _ => Ok (CjLiteral value)
  end.

Definition CompiledGrpcValue_compile (value : Value) (what : string) : result EngineError CompiledGrpcValue :=
  let? j := CompiledJson_compile value what in
  match j with
  | CjLiteral v => Ok (CgLiteral v)
  | dynamic => Ok (CgDynamic dynamic)
  end.

Definition CompiledGrpcValues_compile (values : list Value) (repeat : nat) (what : string) :
    result EngineError CompiledGrpcValues :=
  let? js := traverse (fun v => CompiledJson_compile v what) values in
  if forallb cj_is_literal js then Ok (CvLiteral (concat (replicate repeat values)))
  else Ok (CvDynamic js repeat).

Definition cg_is_literal (v : CompiledGrpcValue) : bool := match v with CgLiteral _ => true | _ => false end.
Definition cv_is_literal (v : CompiledGrpcValues) : bool := match v with CvLiteral _ => true | _ => false end.
Definition cv_is_empty (v : CompiledGrpcValues) : bool :=
  match v with
  | CvLiteral vs => match vs with [] => true | _ => false end
  | CvDynamic vs _ => match vs with [] => true | _ => false end
  end.

Definition CompiledGrpc_compile (g : GrpcOptions) (base_dir : string) : result EngineError CompiledGrpc :=
  let? message := traverse_opt (fun m => CompiledGrpcValue_compile m "grpc message") (go_message g) in
  let? messages := CompiledGrpcValues_compile (go_messages g) (default 1%nat (go_stream_repeat g)) "grpc message" in
  let? metadata := traverse (fun kv => let? t := parse_template kv.2 ("grpc metadata `" +:+ kv.1 +:+ "`") in
                                       Ok (kv.1, t)) (go_metadata g) in
  Ok (mkCompiledGrpc (resolve_path base_dir <$> go_proto_files g) (resolve_path base_dir <$> go_proto_includes g)
        (go_reflection g) (go_service g) (go_method g) message messages metadata (go_channel_pool_size g)
        (go_transport g)).

Definition ascii_upper (c : ascii) : ascii :=
  if byte_range 97 122 c then byte_at (N_of_ascii c - 32) else c.
Definition to_ascii_uppercase (s : string) : string := of_chars (ascii_upper <$> chars s).

(** [Path::file_name]: the last component, unless there is none or it is [..]. *)
Definition file_name (path : string) : option string :=
  match last (filter (fun c => c <> "" /\ c <> ".") (str_split path "/")) with
  | Some c => if bool_decide (c = "..") then None else Some c
  | None => None
  end.

Section Compile.
Context `{TextTools, JsonText, ConditionText}.
(** [std::fs::read]: the bytes of a file or the message of the error. *)
Context (read : string -> result string string).
(** The process-wide scheme aliases. *)
Context (aliases : gmap string string).
Context (base_dir : string).

Definition read_file (path : string) : result EngineError string :=
  let resolved := resolve_path base_dir path in
  result_map_err (EngineIo resolved) (read resolved).

Definition compile_fields (what : string) (l : list (string * string)) : result EngineError (list (string * Template)) :=
  traverse (fun kv => let? t := parse_template kv.2 what in Ok (kv.1, t)) l.

Definition compile_part (p : MultipartPart) : result EngineError CompiledPart :=
  let? value := traverse_opt (fun v => parse_template v "multipart value") (mp_value p) in
  let? bytes := traverse_opt read_file (mp_file p) in
  let filename := match mp_filename p with
                  | Some f => Some f
                  | None => from_utf8_lossy <$> (mp_file p ≫= file_name)
                  end in
  Ok (mkCompiledPart (mp_name p) value bytes filename (mp_content_type p)).

Definition compile_body (b : option Body) : result EngineError CompiledBody :=
  match b with
  | None => Ok CbNone
  | Some (BodyText t) => let? t := parse_template t "body" in Ok (CbText t)
  | Some (BodyOf spec) =>
      match bs_json spec, bs_file spec, bs_form spec, bs_multipart spec with
      | Some json, _, _, _ => Ok (CbJson json)
      | None, Some file, _, _ => let? b := read_file file in Ok (CbBytes b)
      | None, None, Some form, _ => let? fields := compile_fields "form value" form in Ok (CbForm fields)
      | None, None, None, Some ps => let? ps := traverse compile_part ps in Ok (CbMultipart ps)
      | None, None, None, None => Ok CbNone
      end
  end.

Definition default_method (r : RequestStep) (body : CompiledBody) : string :=
  match rq_graphql r, body with
  | Some _, _ => "POST"
  | None, CbNone => "GET"
  | None, _ => "POST"
  end.

(** Bind the protobuf conditions of a list to consecutive slots, after [bound]. *)
Fixpoint bind_checks (cs : list CompiledCondition) (bound : list GrpcProtobufFieldCheck) :
    list CompiledCondition * list GrpcProtobufFieldCheck :=
  match cs with
  | [] => ([], bound)
  | c :: cs =>
      let '(c, check) := bind_protobuf_check c (Z.of_nat (length bound)) in
      let '(cs, bound) := bind_checks cs (bound ++ option_list check) in
      (c :: cs, bound)
  end.

Definition ExtractError_to_string (e : ExtractError) : string :=
  match e with
  | Invalid n m => "extractor `" +:+ n +:+ "` is invalid: " +:+ m
  | NoMatch n => "extractor `" +:+ n +:+ "` found no match and has no default"
  | CheckFailed n d _ => "chain `" +:+ n +:+ "` failed validation: " +:+ d
  end.

Definition compile_conditions (cs : list Condition) : result EngineError (list CompiledCondition) :=
  traverse (fun c => result_map_err EngineConfig (CompiledCondition_compile c)) cs.

Definition compile_request (r : RequestStep) : result EngineError CompiledRequest :=
  let? body := compile_body (rq_body r) in
  let protocol := infer aliases (rq_protocol r) (rq_url r) in
  let method := to_ascii_uppercase (default (default_method r body) (rq_method r)) in
  let? grpc := traverse_opt (fun g => CompiledGrpc_compile g base_dir) (rq_grpc r) in
  let? ex := traverse (fun e => result_map_err (fun x => EngineConfig (ExtractError_to_string x))
                                  (CompiledExtractor_compile e)) (rq_extract r) in
  let? asserts := compile_conditions (rq_assert r) in
  let? checks := compile_conditions (rq_checks r) in
  let '(asserts, bound) := bind_checks asserts [] in
  let '(checks, bound) := bind_checks checks bound in
  let reads := negb (Nat.eqb (length ex) 0) || existsb reads_body asserts || existsb reads_body checks in
  let? name := traverse_opt (fun n => parse_template n "request name") (rq_name r) in
  let? url := parse_template (rq_url r) "url" in
  let? headers := compile_fields "header" (rq_headers r) in
  let? params := compile_fields "param" (rq_params r) in
  Ok (mkCompiledRequest name (default (rq_url r) (rq_name r)) protocol method url headers params body
        (rq_timeout r) (rq_follow_redirects r) (rq_tags r) ex asserts checks
        (match bound with [] => None | _ => Some bound end) reads
        (rq_ws r) grpc (rq_graphql r) (rq_socket r) (rq_sse r) (rq_sql r) (rq_plugin r)).

(** [at_] is the position of the step in the scenario. *)
Fixpoint compile_step (at_ : list nat) (s : Step) : result EngineError CompiledStep :=
  let compile := fun (tag : nat) (l : list Step) => traverse_at (fun i s => compile_step (at_ ++ [tag; i]) s) 0 l in
  match s with
  | StRequest r => let? c := compile_request r in Ok (CsRequest c)
  | StThinkTime t => Ok (CsThinkTime t)
  | StJs (JsCode code) => Ok (CsJs None (Some code))
  | StJs (JsDetailed call script) => Ok (CsJs call script)
  | StGroup name steps => let? ss := compile 0%nat steps in Ok (CsGroup name ss)
  | StRepeat times counter steps => let? ss := compile 0%nat steps in Ok (CsRepeat times counter ss)
  | StWhile condition mx steps => let? ss := compile 0%nat steps in Ok (CsWhile condition (default 10000 mx) ss)
  | StIf condition then_ otherwise =>
      let? t := compile 0%nat then_ in
      let? o := compile 1%nat otherwise in
      Ok (CsIf condition t o)
  | StRandom strategy choices =>
      let? cs := traverse_at (fun n '(weight, name, steps) =>
                   let? ss := compile n steps in
                   Ok (default (f64_of_Z 1) weight, name, ss)) 0 choices in
      Ok (CsRandom strategy cs at_)
  | StForeach items var index steps =>
      let? ss := compile 0%nat steps in
      Ok (CsForeach items (default "item" var) (default "index" index) ss)
  | StSwitch value cases dflt =>
      let? v := parse_template value "switch value" in
      let? cs := traverse_at (fun n '(k, steps) => let? ss := compile (S n) steps in Ok (k, ss)) 0 cases in
      let? d := compile 0%nat dflt in
      Ok (CsSwitch v cs d)
  | StDuring duration counter steps =>
      let? ss := compile 0%nat steps in
      Ok (CsDuring duration (default "index" counter) ss)
  | StRetry times until backoff steps =>
      let? ss := compile 0%nat steps in
      Ok (CsRetry (default 3 times) until backoff ss)
  | StParallel branches =>
      let? bs := traverse_at compile 0 branches in
      Ok (CsParallel bs)
  | StRendezvous name users timeout => Ok (CsRendezvous name users (default (Duration_from_secs 30) timeout))
  end.

Definition compile_steps (steps : list Step) : result EngineError (list CompiledStep) :=
  traverse_at (fun i s => compile_step [i] s) 0 steps.

Definition insert_tags (l : list (string * string)) (m : gmap string string) : gmap string string :=
  foldl (fun m kv => <[kv.1 := kv.2]> m) m l.

Definition ScenarioProgram_compile (d : PlanDefaults) (scenario_name : string) (sc : ScenarioPlan) :
    may_panic (result EngineError ScenarioProgram) :=
  let tags := <["scenario" := scenario_name]> (insert_tags (sp_tags sc) (insert_tags (pd_tags d) ∅)) in
  match compile_steps (sp_flow sc) with
  | Err e => Some (Err e)
  | Ok steps =>
      match match sp_throttle sc with
            | None => Some None
            | Some rps => Some <$> throttle_interval rps
            end with
      | None => None
      | Some throttle =>
          Some (Ok (mkProgram scenario_name steps (sp_exec sc) (sp_on_start sc) (sp_on_stop sc)
                      (match sp_think_time sc with Some t => Some t | None => pd_think_time d end)
                      (sp_pacing sc) throttle (sp_faults sc) tags (pd_http d) (hd_cookies (pd_http d))))
      end
  end.
End Compile.

(** ** Protobuf checks and their slots *)

Section Slots.
Context `{TextTools, JsonText, ConditionText}.

(** The slot and the field of a protobuf condition. *)
Definition condition_slot (c : CompiledCondition) : list (option Z * string) :=
  match cd_kind c with
  | KProtobufField id field _ _ _ => [(id, field)]
  | _ => []
  end.

(** The slots and fields of a list of bound checks. *)
Definition check_slots (bound : list GrpcProtobufFieldCheck) : list (option Z * string) :=
  (fun k => (Some (fc_id k), fc_field k)) <$> bound.

Lemma bind_checks_spec (cs : list CompiledCondition) (bound : list GrpcProtobufFieldCheck) :
  exists new, (bind_checks cs bound).2 = bound ++ new
  /\ concat (condition_slot <$> (bind_checks cs bound).1) = check_slots new
  /\ fc_id <$> new = seqZ (Z.of_nat (length bound)) (Z.of_nat (length new)).
Proof.
  revert bound. induction cs as [|c cs IH]; intros bound; cbn [bind_checks].
  - exists []. by rewrite app_nil_r.
  - destruct (bind_protobuf_check c (Z.of_nat (length bound))) as [c' check] eqn:Hc.
    destruct (IH (bound ++ option_list check)) as (new & Hb & Hs & Hids).
    destruct (bind_checks cs (bound ++ option_list check)) as [cs' bound']. cbn in Hb, Hs |- *.
    exists (option_list check ++ new). subst bound'. rewrite app_assoc. split; [done|].
    rewrite Hs. unfold bind_protobuf_check in Hc.
    destruct (cd_kind c) eqn:Hk; simplify_eq/=; unfold condition_slot; cbn [cd_kind]; rewrite ?Hk; cbn;
      (split; [done|]); try (by rewrite app_nil_r in Hids).
    rewrite length_app in Hids. cbn in Hids. rewrite Hids, (seqZ_cons (Z.of_nat (length bound))) by lia.
    f_equal. f_equal; lia.
Qed.

(** The protobuf conditions of a compiled request, assertions first, and the checks its gRPC handler is
    given are the same, in the same order, and their slots are 0, 1, 2, ...: no two conditions share
    one, and the outcome of each check goes to its own condition. *)
Theorem protobuf_slots_exact (read : string -> result string string) (aliases : gmap string string) (base_dir : string)
    (r : RequestStep) (c : CompiledRequest) :
  compile_request read aliases base_dir r = Ok c ->
  let bound := default [] (cr_grpc_protobuf_checks c) in
  concat (condition_slot <$> cr_assert c ++ cr_checks c) = check_slots bound
  /\ fc_id <$> bound = seqZ 0 (Z.of_nat (length bound)).
Proof.
  intros Hc. unfold compile_request, result_bind in Hc.
  repeat (match type of Hc with context [match ?x with Ok _ => _ | Err _ => _ end] => destruct x as [?|?]; [|discriminate Hc] end).
  match type of Hc with context [bind_checks ?cs []] => destruct (bind_checks_spec cs []) as (new1 & Hb1 & Hs1 & Hi1);
    destruct (bind_checks cs []) as [asserts bound1] end.
  cbn in Hb1, Hs1, Hi1. subst bound1.
  match type of Hc with context [bind_checks ?cs new1] => destruct (bind_checks_spec cs new1) as (new2 & Hb2 & Hs2 & Hi2);
    destruct (bind_checks cs new1) as [checks bound2] end.
  cbn in Hb2, Hs2, Hi2. subst bound2.
  repeat (match type of Hc with context [match ?x with Ok _ => _ | Err _ => _ end] => destruct x as [?|?]; [|discriminate Hc] end).
  injection Hc as <-. cbn.
  assert (default [] (match new1 ++ new2 with [] => None | _ => Some (new1 ++ new2) end) = new1 ++ new2) as ->
    by by destruct (new1 ++ new2).
  rewrite fmap_app, concat_app, Hs1, Hs2. unfold check_slots. rewrite fmap_app. split; [done|].
  rewrite fmap_app, Hi1, Hi2, length_app, Nat2Z.inj_add, seqZ_app by lia. done.
Qed.
End Slots.

Module ProgramDemo.
Import ExtractDemo ConditionDemo.

Definition fields_step : RequestStep :=
  mkRequestStep None None None "grpc://h/S" [] [] None None None [] []
    [CdProtobufField None "code" None None None None; CdStatus None (Some 0) None None None]
    [CdProtobufField None "state" None None None None] None None None None None None None.
Definition compiled : result EngineError CompiledRequest := compile_request (fun _ => Err "no file") ∅ "." fields_step.

Example slots_of_step :
  match compiled with
  | Ok c => concat (condition_slot <$> cr_assert c ++ cr_checks c)
  | Err _ => []
  end = [(Some 0, "code"); (Some 1, "state")].
Proof. vm_compute. reflexivity. Qed.

Example protobuf_slots_exact_witness :
  exists c, compiled = Ok c
  /\ concat (condition_slot <$> cr_assert c ++ cr_checks c) = check_slots (default [] (cr_grpc_protobuf_checks c))
  /\ fc_id <$> default [] (cr_grpc_protobuf_checks c) = seqZ 0 (Z.of_nat (length (default [] (cr_grpc_protobuf_checks c)))).
Proof.
  assert (is_ok compiled = true) as Hok by (vm_compute; reflexivity).
  destruct compiled as [c|e] eqn:Hc; [|discriminate Hok]. exists c. split; [reflexivity|].
  exact (protobuf_slots_exact (fun _ => Err "no file") ∅ "." fields_step c Hc).
Defined.
End ProgramDemo.
