(* ===== verification/Interp.v ===== *)
(** * What the flow of an iteration does to the world

    An iteration is asynchronous code over a virtual user it owns and state it shares.  Here
    it is a tree of effects ([IO]): samples emitted, accesses to shared state (atomic: the code
    holds a lock, or an atomic, and no await happens inside), waits the environment answers,
    and branches joined ([join_all]).  Code is written in continuation-passing style ([M])
    over the state a task owns: its [VuContext] and its script engine.

    The module also holds the bridge scripts call into ([HostBridge] of flow.rs): a script is
    the sequence of host calls it makes ([Script]), the engine behind it a parameter. *)

From Stdlib Require Import Ascii.
From S2P Require Import Prelude Float64 Str Dur Value Template Protocol Metrics Aggregate Federation Pipeline Cookies Extract Conditions Feeds Pacing Vu Program.

(** Outcome of one iteration. *)
Inductive IterationOutcome :=
| Completed
| StopVu
| AbortScenario
| AbortTest (reason : string).

#[export] Instance IterationOutcome_eq_dec : EqDecision IterationOutcome.
Proof. solve_decision. Defined.

(** ** Prepared requests (protocol.rs) *)

Record WsFrame := mkWsFrame {
  wf_payload : string;
  wf_binary : bool;
  wf_delay : option Duration;
}.

Record WsRequest := mkWsRequest {
  wr_subprotocols : list string;
  wr_send : list WsFrame;
  wr_receive_count : option Z;
  wr_receive_until : option string;
  wr_session_duration : option Duration;
}.

Record GrpcRequest := mkGrpcRequest {
  gr_proto_files : list string;
  gr_proto_includes : list string;
  gr_reflection : bool;
  gr_service : string;
  gr_method : string;
  gr_message : option Value;
  gr_messages : list Value;
  gr_message_literal : bool;
  gr_metadata : list (string * string);
  gr_channel_pool_size : option Z;
  gr_transport : GrpcTransport;
  gr_discard_response_body : bool;
  gr_protobuf_only_response : bool;
  gr_protobuf_checks : option (list GrpcProtobufFieldCheck);
}.

Record SocketRequest := mkSocketRequest {
  sr_payload : string;
  sr_read_bytes : option Z;
  sr_read_until_close : bool;
  sr_read_timeout : option Duration;
}.

Record RequestOptions := mkRequestOptions {
  ro_ws : option WsRequest;
  ro_grpc : option GrpcRequest;
  ro_socket : option SocketRequest;
  ro_plugin : option Value;
}.
Definition RequestOptions_default : RequestOptions := mkRequestOptions None None None None.

Record PreparedRequest := mkPrepared {
  pr_name : string;
  pr_protocol : string;
  pr_method : string;
  pr_url : string;
  pr_headers : list (string * string);
  pr_body : string;
  pr_timeout : Duration;
  pr_follow_redirects : bool;
  pr_max_redirects : Z;
  pr_options : RequestOptions;
}.

(** ** Scripts (script.rs) *)

Record HostHttpRequest := mkHostRequest {
  hq_method : string;
  hq_url : string;
  hq_headers : list (string * string);
  hq_body : option string;
  hq_timeout_ms : option f64;
  hq_tags : list (string * string);
  hq_name : option string;
}.

Record HostHttpResponse := mkHostResponse {
  hs_status : Z;
  hs_status_text : string;
  hs_headers : list (string * string);
  hs_body : string;
  hs_duration_ms : f64;
  hs_timings : Timings;
  hs_error : option string;
  hs_url : string;
  hs_protocol_version : string;
}.

(** The host calls a script makes, in order, each with what it does with the answer. *)
Inductive Script (A : Type) :=
| SRet (a : A)
| SHttp (req : HostHttpRequest) (k : HostHttpResponse -> Script A)
| SSleep (seconds : f64) (k : Script A)
| SCheck (name : string) (pass : bool) (k : Script A)
| SMetricAdd (metric : string) (kind : MetricKind) (value : f64) (tags : list (string * string))
    (k : result string unit -> Script A)
| SGroupPush (name : string) (k : Script A)
| SGroupPop (k : Script A)
| SLog (message : string) (k : Script A)
| SEnvVar (name : string) (k : option string -> Script A)
| SOpenFile (path : string) (k : result string string -> Script A)
| SGetVar (name : string) (k : option Value -> Script A)
| SSetVar (name : string) (value : Value) (k : Script A)
| SCookieGet (url name : string) (k : option string -> Script A)
| SCookieSet (url name value : string) (k : Script A)
| SCookiesClear (k : Script A)
| SVuInfo (k : Z * Z * string -> Script A)
| SDataRow (source : string) (k : result string Value -> Script A).
Arguments SRet {A}.
Arguments SHttp {A}.
Arguments SSleep {A}.
Arguments SCheck {A}.
Arguments SMetricAdd {A}.
Arguments SGroupPush {A}.
Arguments SGroupPop {A}.
Arguments SLog {A}.
Arguments SEnvVar {A}.
Arguments SOpenFile {A}.
Arguments SGetVar {A}.
Arguments SSetVar {A}.
Arguments SCookieGet {A}.
Arguments SCookieSet {A}.
Arguments SCookiesClear {A}.
Arguments SVuInfo {A}.
Arguments SDataRow {A}.

(** [VuScript]: a script instance; a call ends with the value or the message of the error,
    and the instance after it. *)
Class VuScript (S : Type) := {
  has_function : S -> string -> bool;
  call_function : S -> string -> list Value -> Script (result string Value * S);
  eval_code : S -> string -> Script (result string Value * S);
}.

(** ** Effects *)

(** The state the virtual users of a scenario share. *)
Record Shared (P : Type) := mkShared {
  sh_world : World P;
  sh_next_slot : option Z;
  sh_cursors : gmap (list nat) Z;
  sh_barriers : gmap string Z;
  sh_clock : Z;
}.
Arguments mkShared {P}.
Arguments sh_world {P}.
Arguments sh_next_slot {P}.
Arguments sh_cursors {P}.
Arguments sh_barriers {P}.
Arguments sh_clock {P}.

Definition set_world {P : Type} (w : World P) (s : Shared P) : Shared P :=
  mkShared w (sh_next_slot s) (sh_cursors s) (sh_barriers s) (sh_clock s).
Definition set_next_slot {P : Type} (o : option Z) (s : Shared P) : Shared P :=
  mkShared (sh_world s) o (sh_cursors s) (sh_barriers s) (sh_clock s).
Definition set_cursors {P : Type} (m : gmap (list nat) Z) (s : Shared P) : Shared P :=
  mkShared (sh_world s) (sh_next_slot s) m (sh_barriers s) (sh_clock s).
Definition set_barriers {P : Type} (m : gmap string Z) (s : Shared P) : Shared P :=
  mkShared (sh_world s) (sh_next_slot s) (sh_cursors s) m (sh_clock s).

(** What a task owns. *)
Record Local (R S : Type) := mkLocal {
  l_vu : VuContext R;
  l_script : option S;
}.
Arguments mkLocal {R S}.
Arguments l_vu {R S}.
Arguments l_script {R S}.

(** [blocking] waits hold the thread ([block_in_place]): the task cannot be cancelled there. *)
Inductive IO (P R S : Type) :=
| Done (o : IterationOutcome) (l : Local R S)
| Dropped
| Panic
| NoFuel
| Emit (sink : Sink) (c : BusCall) (k : IO P R S)
| Access (f : Shared P -> Shared P) (k : Shared P -> IO P R S)
| Sleep (blocking : bool) (d : Duration) (k : IO P R S)
| Execute (blocking : bool) (p : PreparedRequest) (vu : Z) (jar : CookieJar) (drop_glue : IO P R S)
    (k : result string ProtocolResponse -> CookieJar -> IO P R S)
| Rendezvous (name : string) (timeout : Duration) (k : bool -> IO P R S)
| Fresh (k : string -> IO P R S)
| Par (branches : list (IO P R S)) (k : list (IterationOutcome * Local R S) -> IO P R S).
Arguments Done {P R S}.
Arguments Dropped {P R S}.
Arguments Panic {P R S}.
Arguments NoFuel {P R S}.
Arguments Emit {P R S}.
Arguments Access {P R S}.
Arguments Sleep {P R S}.
Arguments Execute {P R S}.
Arguments Rendezvous {P R S}.
Arguments Fresh {P R S}.
Arguments Par {P R S}.

(** ** Code over a task's state *)

Definition M (P R S A : Type) : Type := Local R S -> (A -> Local R S -> IO P R S) -> IO P R S.

Definition ret {P R S A : Type} (a : A) : M P R S A := fun l k => k a l.
Definition bind {P R S A B : Type} (m : M P R S A) (f : A -> M P R S B) : M P R S B :=
  fun l k => m l (fun a l => f a l k).
(** [?] on a result. *)
Definition bind_ok {P R S E A B : Type} (m : M P R S (result E A)) (f : A -> M P R S (result E B)) :
    M P R S (result E B) :=
  bind m (fun r => match r with Ok a => f a | Err e => ret (Err e) end).

Notation "'let*' x := m 'in' k" := (bind m (fun x => k)) (at level 200, x pattern, m at level 100, k at level 200).
Notation "'try*' x := m 'in' k" := (bind_ok m (fun x => k)) (at level 200, x pattern, m at level 100, k at level 200).

Section Primitives.
Context {P R S : Type}.
Notation M := (M P R S).

Definition get_vu : M (VuContext R) := fun l k => k (l_vu l) l.
Definition modify_vu (f : VuContext R -> VuContext R) : M unit := fun l k => k tt (mkLocal (f (l_vu l)) (l_script l)).
Definition get_script : M (option S) := fun l k => k (l_script l) l.
Definition put_script (s : option S) : M unit := fun l k => k tt (mkLocal (l_vu l) s).
Definition panic {A : Type} : M A := fun _ _ => Panic.
Definition no_fuel {A : Type} : M A := fun _ _ => NoFuel.
Definition sleep (d : Duration) : M unit := fun l k => Sleep false d (k tt l).
Definition fresh_uuid : M string := fun l k => Fresh (fun s => k s l).
Definition or_panic {A : Type} (o : may_panic A) : M A := match o with Some a => ret a | None => panic end.

(** One atomic access to shared state. *)
Definition access {A : Type} (f : Shared P -> A * Shared P) : M A :=
  fun l k => Access (fun s => (f s).2) (fun s => k (f s).1 l).
Definition clock : M Z := access (fun s => (sh_clock s, s)).
(** An operation of the virtual user on shared state. *)
Definition on_world {A : Type} (f : VuContext R -> World P -> may_panic (A * VuContext R * World P)) : M A :=
  fun l k =>
    Access (fun s => match f (l_vu l) (sh_world s) with Some (_, _, w) => set_world w s | None => s end)
      (fun s => match f (l_vu l) (sh_world s) with
                | Some (a, v, _) => k a (mkLocal v (l_script l))
                | None => Panic
                end).
Definition draw {A : Type} (f : R -> A * R) : M A :=
  fun l k => let '(a, r) := f (rng (l_vu l)) in k a (mkLocal (set_rng r (l_vu l)) (l_script l)).
Definition draw_or_panic {A : Type} (f : R -> may_panic (A * R)) : M A :=
  fun l k => match f (rng (l_vu l)) with
             | Some (a, r) => k a (mkLocal (set_rng r (l_vu l)) (l_script l))
             | None => Panic
             end.

(** The metrics bus. *)
Definition emit_call (c : BusCall) : M unit := fun l k => Emit (metrics (l_vu l)) c (k tt l).
Definition emit_rate (metric : string) (pass : bool) (tags : Tags) : M unit :=
  emit_call (EmitValue metric Rate (f64_of_Z (if pass then 1 else 0)) tags).
Definition emit_counter (metric : string) (value : f64) (tags : Tags) : M unit :=
  emit_call (EmitValue metric Counter value tags).
Definition emit_trend (metric : string) (value : f64) (tags : Tags) : M unit :=
  emit_call (EmitValue metric Trend value tags).

(** Lists of computations in order. *)
Fixpoint each {A B : Type} (f : A -> M B) (l : list A) : M (list B) :=
  match l with
  | [] => ret []
  | x :: l => let* y := f x in let* ys := each f l in ret (y :: ys)
  end.
Fixpoint try_each {E A B : Type} (f : A -> M (result E B)) (l : list A) : M (result E (list B)) :=
  match l with
  | [] => ret (Ok [])
  | x :: l => try* y := f x in try* ys := try_each f l in ret (Ok (y :: ys))
  end.
End Primitives.

(** ** The host bridge *)

Section Host.
Context {P : Type} `{!DataSourcePlugin P} {R : Type} `{!Rng R} {S : Type} `{JsonText}.
Notation M := (M P R S).
Context (hash_tags : Tags -> Z).
(** [url::Url::parse]. *)
Context (url_parse : string -> option Url).
(** [Path::canonicalize] as the components of the path, and [std::fs::read] of a canonical path. *)
Context (canonicalize : string -> result string (list string)).
Context (read_canonical : list string -> result string string).
Context (run : RunContext).
Context (http : HttpDefaults).
(** Is a handler registered under this name? *)
Context (registered : string -> bool).

Definition sample_tags_now (extras : list (string * string)) : M Tags :=
  let* v := get_vu in ret (sample_tags extras v).
Definition cached_tags_now (extras : list (string * string)) : M CachedTags :=
  on_world (fun v w => Some (cached_sample_tags hash_tags extras v w)).

Definition trim_slashes_end (s : string) : string :=
  of_chars (reverse ((fix go l := match l with "/"%char :: l => go l | _ => l end) (reverse (chars s)))).
Definition trim_slashes_start (s : string) : string :=
  of_chars ((fix go l := match l with "/"%char :: l => go l | _ => l end) (chars s)).

(** A relative URL under the base URL. *)
Definition join_base (base url : string) : string := trim_slashes_end base +:+ "/" +:+ trim_slashes_start url.

(** [retain] the headers of other names, then push. *)
Definition set_header (headers : list (string * string)) (k v : string) : list (string * string) :=
  filter (fun kv => eq_ignore_ascii_case kv.1 k = false) headers ++ [(k, v)].

Definition emit_http_metrics (p : PreparedRequest) (r : ProtocolResponse) : M unit :=
  let* tags := sample_tags_now [("name", pr_name p); ("method", pr_method p);
                                ("status", Z_to_string (rs_status r)); ("proto", "http")] in
  let t := rs_timings r in
  let* _ := emit_counter "http_reqs" (f64_of_Z 1) tags in
  let* _ := emit_trend "http_req_duration" (duration_ms t) tags in
  let* _ := emit_trend "http_req_blocked" (blocked_ms t) tags in
  let* _ := emit_trend "http_req_connecting" (connect_ms t) tags in
  let* _ := emit_trend "http_req_tls_handshaking" (tls_ms t) tags in
  let* _ := emit_trend "http_req_sending" (sending_ms t) tags in
  let* _ := emit_trend "http_req_waiting" (waiting_ms t) tags in
  let* _ := emit_trend "http_req_receiving" (receiving_ms t) tags in
  let* _ := emit_rate "http_req_failed" (failed r) tags in
  let* _ := emit_counter "data_sent" (f64_of_Z (rs_bytes_sent r)) tags in
  emit_counter "data_received" (f64_of_Z (rs_bytes_received r)) tags.

(** [handler.execute]: the handler sees the request, the virtual user's number and its cookies. *)
Definition execute (blocking : bool) (p : PreparedRequest) (drop_glue : Local R S -> IO P R S) :
    M (result string ProtocolResponse) :=
  fun l k => Execute blocking p (vu_id (l_vu l)) (cookie_jar (l_vu l)) (drop_glue l)
               (fun r jar => k r (mkLocal (set_cookie_jar jar (l_vu l)) (l_script l))).

Definition or_error_response (url : string) (r : result string ProtocolResponse) : ProtocolResponse :=
  match r with
  | Ok r => r
  | Err e => error_response e url
  end.

Definition host_request (req : HostHttpRequest) : may_panic PreparedRequest :=
  let url := if str_contains (hq_url req) "://" then hq_url req
             else match hd_base_url http with
                  | Some base => join_base base (hq_url req)
                  | None => hq_url req
                  end in
  let headers := foldl (fun hs kv => set_header hs kv.1 kv.2) (hd_headers http) (hq_headers req) in
  match match hq_timeout_ms req with
        | None => Some (hd_timeout http)
        | Some ms => from_secs_f64 (f64_div ms (f64_of_Z 1000))
        end with
  | None => None
  | Some timeout =>
      Some (mkPrepared (default (hq_url req) (hq_name req)) "http" (to_ascii_uppercase (hq_method req)) url headers
              (default "" (hq_body req)) timeout (hd_follow_redirects http) (hd_max_redirects http)
              RequestOptions_default)
  end.

Definition host_http_request (req : HostHttpRequest) : M HostHttpResponse :=
  let* p := or_panic (host_request req) in
  if registered "http" then
    let* r := execute true p (fun _ => Dropped) in
    let response := or_error_response (pr_url p) r in
    let* _ := emit_http_metrics p response in
    ret (mkHostResponse (rs_status response) (rs_status_text response) (rs_headers response) (rs_body response)
           (duration_ms (rs_timings response)) (rs_timings response) (rs_error response) (rs_url response)
           (rs_protocol_version response))
  else ret (mkHostResponse 0 "" [] "" f64_zero Timings_default (Some "no http protocol handler registered") "" "").

Definition host_sleep (seconds : f64) : M unit :=
  if f64_gt seconds f64_zero
  then let* d := or_panic (from_secs_f64 (f64_min seconds (f64_of_Z 3600))) in fun l k => Sleep true d (k tt l)
  else ret tt.

Definition host_check (name : string) (pass : bool) : M unit :=
  let* tags := sample_tags_now [("check", name)] in emit_rate "checks" pass tags.

Definition host_metric_add (metric : string) (kind : MetricKind) (value : f64) (tags : list (string * string)) :
    M (result string unit) :=
  let* r := access (fun s => let '(reg, r) := register (w_registry (sh_world s)) metric kind false None in
                             (r, set_world (set_registry reg (sh_world s)) s)) in
  match r with
  | Err e => ret (Err e)
  | Ok name =>
      let* ts := sample_tags_now tags in
      let* _ := emit_call (EmitValue name kind value ts) in
      ret (Ok tt)
  end.

(** [Path::starts_with], on components. *)
Definition path_starts_with (p base : list string) : bool := bool_decide (base `prefix_of` p).

Definition open_file (path : string) : result string string :=
  let err := fun e => "open(" +:+ path +:+ "): " +:+ e in
  let? canonical := result_map_err err (canonicalize (resolve_path (rc_base_dir run) path)) in
  let? base := result_map_err err (canonicalize (rc_base_dir run)) in
  if path_starts_with canonical base then result_map_err err (read_canonical canonical)
  else Err ("open(" +:+ path +:+ "): refusing to read outside the test directory").

Definition row_object (row : Row) : Value :=
  Object (foldl (fun m kv => map_insert kv.1 (Text kv.2) m) [] row).

Definition host_data_row (source : string) : M (result string Value) :=
  let* r := on_world (data_row source) in
  ret (match r with
       | Ok row => Ok (row_object row)
       | Err e => Err (NextRowError_to_string e)
       end).

Definition host_cookie_get (v : VuContext R) (url name : string) : option string :=
  match url_parse url with
  | Some u => jar_get u name (cookie_jar v)
  | None => None
  end.
Definition host_cookie_set (url name value : string) (v : VuContext R) : VuContext R :=
  match url_parse url with
  | Some u => set_cookie_jar (jar_set u name value (cookie_jar v)) v
  | None => v
  end.

Definition pop_group (v : VuContext R) : VuContext R := set_groups (removelast (groups v)) v.
Definition push_group (name : string) (v : VuContext R) : VuContext R := set_groups (groups v ++ [name]) v.

(** A script, each host call answered by the bridge. *)
Fixpoint run_host {A : Type} (p : Script A) : M A :=
  match p with
  | SRet a => ret a
  | SHttp req k => let* r := host_http_request req in run_host (k r)
  | SSleep seconds k => let* _ := host_sleep seconds in run_host k
  | SCheck name pass k => let* _ := host_check name pass in run_host k
  | SMetricAdd metric kind value tags k => let* r := host_metric_add metric kind value tags in run_host (k r)
  | SGroupPush name k => let* _ := modify_vu (push_group name) in run_host k
  | SGroupPop k => let* _ := modify_vu pop_group in run_host k
  | SLog _ k => run_host k
  | SEnvVar name k => run_host (k (rc_env run !! name))
  | SOpenFile path k => run_host (k (open_file path))
  | SGetVar name k => let* v := get_vu in run_host (k (vars v !! name))
  | SSetVar name value k => let* _ := modify_vu (set_var name value) in run_host k
  | SCookieGet url name k => let* v := get_vu in run_host (k (host_cookie_get v url name))
  | SCookieSet url name value k => let* _ := modify_vu (host_cookie_set url name value) in run_host k
  | SCookiesClear k => let* _ := modify_vu (fun v => set_cookie_jar (jar_clear (cookie_jar v)) v) in run_host k
  | SVuInfo k =>
      let* v := get_vu in run_host (k (vu_id v, u64_saturating_sub (iteration v) 1, scenario v))
  | SDataRow source k => let* r := host_data_row source in run_host (k r)
  end.

Context `{!VuScript S}.

Inductive ScriptInvocation :=
| Call (name : string) (args : list Value)
| Eval_ (code : string).

(** [run_script] on an instance the task holds. *)
Definition run_script (s : S) (i : ScriptInvocation) : M (result string Value) :=
  let* r := run_host (match i with
                      | Call name args => call_function s name args
                      | Eval_ code => eval_code s code
                      end) in
  let* _ := put_script (Some r.2) in
  ret r.1.
End Host.

(** ** Reading is confined to the test's directory *)

Section OpenFile.
Context (canonicalize : string -> result string (list string)).
Context (read_canonical : list string -> result string string).
Context (run : RunContext).

(** a script's [open] reads nothing but canonical paths under the canonical directory of the test:
    what lies elsewhere, through [..], an absolute path or a link, makes no difference to it. *)
Theorem open_file_confined (path : string) (read' : list string -> result string string) :
  (forall p base, canonicalize (rc_base_dir run) = Ok base -> base `prefix_of` p -> read' p = read_canonical p) ->
  open_file canonicalize read' run path = open_file canonicalize read_canonical run path.
Proof.
  intros Hsame. unfold open_file, result_bind, result_map_err.
  destruct (canonicalize (resolve_path _ _)) as [canonical|]; [|reflexivity].
  destruct (canonicalize (rc_base_dir run)) as [base|] eqn:Hb; [|reflexivity].
  unfold path_starts_with. case_bool_decide; [|reflexivity]. by rewrite (Hsame canonical base).
Qed.

Example open_file_refuses :
  let canon s := Ok (filter (fun c => c <> "") (str_split s "/")) in
  let rc := mkRunContext ∅ ∅ ∅ "/t" Null in
  open_file canon (fun _ => Ok "secret") rc "/etc/passwd" = Err "open(/etc/passwd): refusing to read outside the test directory".
Proof. reflexivity. Qed.
End OpenFile.

Example open_file_confined_witness :
  let canon s := Ok (filter (fun c => c <> "") (str_split s "/")) in
  let rc := mkRunContext ∅ ∅ ∅ "/t" Null in
  let data p := match p with "t" :: rest => Ok (join "/" rest) | _ => Ok "secret" end in
  let data' p := match p with "t" :: rest => Ok (join "/" rest) | _ => Ok "other" end in
  open_file canon data' rc "a.csv" = open_file canon data rc "a.csv".
Proof.
  apply open_file_confined. intros p base [= <-] [k ->]. reflexivity.
Defined.
