(* ===== verification/Prepare.v ===== *)
(** * Preparing a request (flow.rs: [render_template] to [FlowRunner::prepare])

    Templates rendered against the virtual user, scripts and payload specs, then the request
    built in the order of the code: URL, query, headers, body, protocol options, name.  The
    first failure ends it; what earlier parts did (rows taken, scripts run) stays done.

    Rendering payloads (the payload crate) and reading the process environment are
    parameters. *)

From Stdlib Require Import Ascii FunctionalExtensionality Sorted.
From S2P Require Import Prelude Float64 Str Dur Value Template Protocol Metrics Aggregate Federation Pipeline Cookies Extract Conditions Feeds Pacing Vu Program Interp.

Inductive PrepareError :=
| DataExhausted
| PrepareOther (message : string).

(** [str::rsplit_once(':')]. *)
Definition rsplit_colon (s : string) : option (string * string) :=
  (fun i => (slice_to s i, slice_from s (S i))) <$> str_rfind s ":".

Section Prepare.
Context {P : Type} `{!DataSourcePlugin P} {R : Type} `{!Rng R} {S : Type} `{!VuScript S} `{JsonText, TextTools}.
Notation M := (M P R S).
Context (url_parse : string -> option Url).
Context (canonicalize : string -> result string (list string)) (read_canonical : list string -> result string string).
Context (run : RunContext) (http : HttpDefaults) (registered : string -> bool).
(** [std::env::var], and [loadr_payload::generate_str]: bytes or the message of the error. *)
Context (os_env : string -> option string) (generate_str : string -> result string string).

Notation script_call := (run_script url_parse canonicalize read_canonical run http registered).

Definition resolve_payload_env (spec : string) : string :=
  match rsplit_colon spec with
  | Some (kind, mag) =>
      match strip_prefix mag "$" with
      | Some name => kind +:+ ":" +:+ default "" (os_env name)
      | None => spec
      end
  | None => spec
  end.

Definition eval_js (expr code : string) : M (result PrepareError string) :=
  let* script := get_script in
  match script with
  | None => ret (Err (PrepareOther ("`${js: ...}` needs a script engine: " +:+ expr)))
  | Some s =>
      let* r := script_call s (Eval_ code) in
      ret (match r with
           | Ok v => Ok (json_to_string v)
           | Err e => Err (PrepareOther e)
           end)
  end.

Definition resolve_reference (expr : string) : M (result PrepareError string) :=
  let* r := on_world (resolve_expr run expr) in
  ret (match r with
       | Ok (Some v) => Ok v
       | Ok None => Err (PrepareOther ("unresolved template variable `" +:+ expr +:+ "`"))
       | Err (Exhausted _) => Err DataExhausted
       | Err e => Err (PrepareOther (NextRowError_to_string e))
       end).

Definition render_part (p : Part) : M (result PrepareError string) :=
  match p with
  | Lit l => ret (Ok l)
  | Expr expr =>
      match strip_prefix expr "payload:", strip_prefix expr "js:" with
      | Some spec, _ =>
          ret (match generate_str (resolve_payload_env spec) with
               | Ok bytes => Ok (from_utf8_lossy bytes)
               | Err e => Err (PrepareOther e)
               end)
      | None, Some code => eval_js expr code
      | None, None => resolve_reference expr
      end
  end.

Definition render_template (t : Template) : M (result PrepareError string) :=
  try* outs := try_each render_part (parts t) in ret (Ok (String.concat "" outs)).

Definition parse_prepared (s : string) : result PrepareError Template :=
  result_map_err (fun e => PrepareOther (TemplateError_to_string e)) (Template_parse s).

Definition render_str (s : string) : M (result PrepareError string) :=
  match parse_prepared s with
  | Err e => ret (Err e)
  | Ok t => render_template t
  end.

(** JSON text spliced in as a value, or kept as text. *)
Definition splice (rendered : string) : Value :=
  match from_json rendered with
  | Ok v => v
  | Err _ => Text rendered
  end.

Section TryMap.
Context {A B : Type} (f : A -> M (result PrepareError B)).
Fixpoint try_map (l : list A) : M (result PrepareError (list B)) :=
  match l with
  | [] => ret (Ok [])
  | x :: l => try* y := f x in try* ys := try_map l in ret (Ok (y :: ys))
  end.
End TryMap.

Fixpoint render_json (value : Value) : M (result PrepareError Value) :=
  match value with
  | Text s =>
      match parse_prepared s with
      | Err e => ret (Err e)
      | Ok t =>
          if is_literal t then ret (Ok (Text s))
          else
            try* rendered := render_template t in
            ret (Ok (if Nat.eqb (length (parts t)) 1 then splice rendered else Text rendered))
      end
  | Array items => try* vs := try_map render_json items in ret (Ok (Array vs))
  | Object m =>
      try* kvs := try_map (fun kv => try* v := render_json kv.2 in ret (Ok (kv.1, v))) m in
      ret (Ok (Object (foldl (fun m kv => map_insert kv.1 kv.2 m) [] kvs)))
  | other => ret (Ok other)
  end.

Fixpoint render_compiled (j : CompiledJson) : M (result PrepareError Value) :=
  match j with
  | CjLiteral v => ret (Ok v)
  | CjString t => try* s := render_template t in ret (Ok (Text s))
  | CjSplice t => try* s := render_template t in ret (Ok (splice s))
  | CjArray items => try* vs := try_map render_compiled items in ret (Ok (Array vs))
  | CjObject fields =>
      try* kvs := try_map (fun kv => try* v := render_compiled kv.2 in ret (Ok (kv.1, v))) fields in
      ret (Ok (Object (foldl (fun m kv => map_insert kv.1 kv.2 m) [] kvs)))
  end.

(** [key=value] pairs, percent-encoded, joined with [&]. *)
Definition encode_pairs (fields : list (string * Template)) : M (result PrepareError string) :=
  try* pairs := try_map (fun kv => try* v := render_template kv.2 in
                                   ret (Ok (url_encode kv.1 +:+ "=" +:+ url_encode v))) fields in
  ret (Ok (join "&" pairs)).

Definition prepare_url (req : CompiledRequest) : M (result PrepareError string) :=
  try* url := render_template (cr_url req) in
  try* url := (if str_contains url "://" then ret (Ok url)
               else match hd_base_url http with
                    | None => ret (Ok url)
                    | Some base => try* base := render_str base in ret (Ok (join_base base url))
                    end) in
  match cr_params req with
  | [] => ret (Ok url)
  | ps => try* query := encode_pairs ps in
          ret (Ok (url +:+ (if str_contains url "?" then "&" else "?") +:+ query))
  end.

Definition prepare_headers (req : CompiledRequest) : M (result PrepareError (list (string * string))) :=
  try* defaults := try_map (fun kv => try* v := render_str kv.2 in ret (Ok (kv.1, v))) (hd_headers http) in
  try* own := try_map (fun kv => try* v := render_template kv.2 in ret (Ok (kv.1, v))) (cr_headers req) in
  ret (Ok (foldl (fun hs kv => set_header hs kv.1 kv.2) [] (defaults ++ own))).

Definition CRLF : string := of_chars (byte_at <$> [13; 10]%N).
(** The double quote. *)
Definition QUOTE : string := of_chars [byte_at 34].

Definition multipart_head (boundary : string) (p : CompiledPart) : string :=
  "--" +:+ boundary +:+ CRLF
  +:+ "Content-Disposition: form-data; name=" +:+ QUOTE +:+ cp_name p +:+ QUOTE
  +:+ match cp_filename p with Some f => "; filename=" +:+ QUOTE +:+ f +:+ QUOTE | None => "" end
  +:+ CRLF
  +:+ match cp_content_type p with Some ct => "Content-Type: " +:+ ct +:+ CRLF | None => "" end
  +:+ CRLF.

Definition multipart_part (boundary : string) (p : CompiledPart) : M (result PrepareError string) :=
  try* payload := (match cp_value p with
                   | Some v => render_template v
                   | None => ret (Ok (default "" (cp_bytes p)))
                   end) in
  ret (Ok (multipart_head boundary p +:+ payload +:+ CRLF)).

(** The body and the content type it implies. *)
Definition prepare_body (req : CompiledRequest) : M (result PrepareError (string * option string)) :=
  match cr_graphql req with
  | Some gql =>
      try* vars := (match gq_variables gql with
                    | None => ret (Ok None)
                    | Some v => try* v := render_json v in ret (Ok (Some v))
                    end) in
      let m := map_insert "query" (Text (gq_query gql)) [] in
      let m := match vars with Some v => map_insert "variables" v m | None => m end in
      let m := match gq_operation_name gql with Some op => map_insert "operationName" (Text op) m | None => m end in
      ret (Ok (to_json (Object m), Some "application/json"))
  | None =>
      match cr_body req with
      | CbNone => ret (Ok ("", None))
      | CbText t => try* s := render_template t in ret (Ok (s, None))
      | CbJson j => try* v := render_json j in ret (Ok (to_json v, Some "application/json"))
      | CbBytes b => ret (Ok (b, None))
      | CbForm fields => try* s := encode_pairs fields in ret (Ok (s, Some "application/x-www-form-urlencoded"))
      | CbMultipart ps =>
          let* uuid := fresh_uuid in
          let boundary := "loadrboundary" +:+ uuid in
          try* out := try_map (multipart_part boundary) ps in
          ret (Ok (String.concat "" out +:+ "--" +:+ boundary +:+ "--" +:+ CRLF,
                   Some ("multipart/form-data; boundary=" +:+ boundary)))
      end
  end.

Definition add_content_type (ct : option string) (headers : list (string * string)) : list (string * string) :=
  match ct with
  | None => headers
  | Some ct => if existsb (fun kv => eq_ignore_ascii_case kv.1 "content-type") headers then headers
               else headers ++ [("Content-Type", ct)]
  end.

Definition prepare_frame (m : WsMessage) : M (result PrepareError WsFrame) :=
  match m with
  | WmText t => try* s := render_str t in ret (Ok (mkWsFrame s false None))
  | WmDetailed (Some t) _ delay => try* s := render_str t in ret (Ok (mkWsFrame s false delay))
  | WmDetailed None (Some b64) delay =>
      ret (match base64_decode (trim b64) with
           | Ok bytes => Ok (mkWsFrame bytes true delay)
           | Err e => Err (PrepareOther ("invalid binary_base64: " +:+ e))
           end)
  | WmDetailed None None delay => ret (Ok (mkWsFrame "" false delay))
  end.

Definition prepare_ws (ws : WsOptions) : M (result PrepareError WsRequest) :=
  try* frames := try_map prepare_frame (wo_send ws) in
  ret (Ok (mkWsRequest (wo_subprotocols ws) frames (wo_receive_count ws) (wo_receive_until ws)
             (wo_session_duration ws))).

(** Streamed frames: every one but the first starts a message of its own. *)
Fixpoint render_frames (first : bool) (values : list CompiledJson) : M (result PrepareError (list Value)) :=
  match values with
  | [] => ret (Ok [])
  | value :: values =>
      let* _ := (if first then ret tt else on_world (fun v w => Some (tt, begin_message w v, w))) in
      try* frame := render_compiled value in
      try* frames := render_frames false values in
      ret (Ok (frame :: frames))
  end.

Definition prepare_grpc (req : CompiledRequest) (g : CompiledGrpc) : M (result PrepareError GrpcRequest) :=
  try* messages := (match cg_messages g with
                    | CvLiteral vs => ret (Ok vs)
                    | CvDynamic vs n => render_frames true (concat (replicate n vs))
                    end) in
  try* metadata := try_map (fun kv => try* v := render_template kv.2 in ret (Ok (kv.1, v))) (cg_metadata g) in
  try* message := (match cg_message g with
                   | None => ret (Ok None)
                   | Some (CgLiteral v) => ret (Ok (Some v))
                   | Some (CgDynamic j) => try* v := render_compiled j in ret (Ok (Some v))
                   end) in
  let literal := if cv_is_empty (cg_messages g)
                 then match cg_message g with Some m => cg_is_literal m | None => false end
                 else cv_is_literal (cg_messages g) in
  let* script := get_script in
  let has_after_request := match script with Some s => has_function s "afterRequest" | None => false end in
  let has_checks := bool_decide (is_Some (cr_grpc_protobuf_checks req)) in
  let* reports := access (fun s => (df_reports_results (w_data (sh_world s)), s)) in
  ret (Ok (mkGrpcRequest (cg_proto_files g) (cg_proto_includes g) (cg_reflection g) (cg_service g) (cg_method g)
             message messages literal metadata (cg_channel_pool_size g) (cg_transport g)
             (negb (cr_reads_response_body req) && negb has_checks && negb has_after_request && negb reports)
             (has_checks && negb (cr_reads_response_body req) && negb has_after_request)
             (cr_grpc_protobuf_checks req))).

Definition is_whitespace_char (c : list ascii) : bool := bool_decide (c ∈ ws_forward).

Fixpoint hex_pairs (cs : list (list ascii)) : result PrepareError (list ascii) :=
  match cs with
  | [hi] :: [lo] :: cs =>
      match to_digit16 hi, to_digit16 lo with
      | Some h, Some l => let? bytes := hex_pairs cs in Ok (byte_at (h * 16 + l) :: bytes)
      | _, _ => Err (PrepareOther "invalid hex payload")
      end
  | _ :: _ :: _ => Err (PrepareOther "invalid hex payload")
  | _ => Ok []
  end.

Definition prepare_socket (s : SocketOptions) : M (result PrepareError SocketRequest) :=
  try* payload := (match so_send_text s, so_send_hex s with
                   | Some text, _ => render_str text
                   | None, Some hex =>
                       ret (let? bytes := hex_pairs (List.filter (fun c => negb (is_whitespace_char c)) (str_chars hex)) in
                            Ok (of_chars bytes))
                   | None, None => ret (Ok "")
                   end) in
  ret (Ok (mkSocketRequest payload (so_read_bytes s) (so_read_until_close s) (so_read_timeout s))).

Definition sse_options (s : SseOptions) : option Value :=
  let m := match se_events s with Some n => map_insert "events" (Num (PosInt n)) [] | None => [] end in
  let m := match se_until s with Some u => map_insert "until" (Text u) m | None => m end in
  let m := match se_duration s with
           | Some d => map_insert "duration" (Text (Z_to_string (d / 1000000) +:+ "ms")) m
           | None => m
           end in
  match m with [] => None | _ => Some (Object m) end.

Definition prepare_sql (q : SqlOptions) : M (result PrepareError Value) :=
  try* query := render_str (sq_query q) in
  try* ps := try_map (fun p => try* s := render_str p in ret (Ok (Text s))) (sq_params q) in
  ret (Ok (Object (map_insert "params" (Array ps) (map_insert "query" (Text query) [])))).

Definition prepare_opt {A B : Type} (f : A -> M (result PrepareError B)) (o : option A) :
    M (result PrepareError (option B)) :=
  match o with
  | None => ret (Ok None)
  | Some a => try* b := f a in ret (Ok (Some b))
  end.

(** The generic options channel: [sse], then [sql] over it, then [plugin] when neither filled it. *)
Definition prepare_plugin (req : CompiledRequest) : M (result PrepareError (option Value)) :=
  try* sql := prepare_opt prepare_sql (cr_sql req) in
  let typed := match sql with Some v => Some v | None => cr_sse req ≫= sse_options end in
  match typed, cr_plugin req with
  | Some v, _ => ret (Ok (Some v))
  | None, None => ret (Ok None)
  | None, Some p => try* v := render_json p in ret (Ok (Some v))
  end.

Definition prepare (req : CompiledRequest) : M (result PrepareError PreparedRequest) :=
  try* url := prepare_url req in
  try* headers := prepare_headers req in
  try* body := prepare_body req in
  let headers := add_content_type body.2 headers in
  try* ws := prepare_opt prepare_ws (cr_ws req) in
  try* grpc := prepare_opt (prepare_grpc req) (cr_grpc req) in
  try* socket := prepare_opt prepare_socket (cr_socket req) in
  try* plugin := prepare_plugin req in
  try* name := (match cr_req_name req with
                | Some t => render_template t
                | None => ret (Ok (cr_display_name req))
                end) in
  ret (Ok (mkPrepared name (cr_protocol req) (cr_method req) url headers body.1
             (default (hd_timeout http) (cr_timeout req))
             (default (hd_follow_redirects http) (cr_follow_redirects req)) (hd_max_redirects http)
             (mkRequestOptions ws grpc socket plugin))).
End Prepare.

(** ** Compiled JSON renders as the JSON it was compiled from *)

Section JsonSorted.
(** The keys of a [serde_json::Map] are in order. *)
Definition keys_sorted (m : Map) : Prop := StronglySorted (fun a b => str_compare a b = Lt) m.*1.

Fixpoint value_sorted (v : Value) : Prop :=
  match v with
  | Array items => foldr (fun v acc => value_sorted v /\ acc) True items
  | Object m => keys_sorted m /\ foldr (fun kv acc => value_sorted kv.2 /\ acc) True m
  | _ => True
  end.

Lemma map_insert_last (k : string) (v : Value) (m : Map) :
  Forall (fun j => str_compare j k = Lt) m.*1 -> map_insert k v m = m ++ [(k, v)].
Proof.
  induction m as [|[j w] m IH]; cbn; intros Hm; [done|]. apply Forall_cons in Hm as [Hj Hm].
  assert (str_compare k j = Gt) as ->.
  { unfold str_compare in *. by rewrite str_compare_l_antisym, Hj. }
  by rewrite IH.
Qed.

Lemma map_insert_all (acc m : Map) :
  keys_sorted (acc ++ m) -> foldl (fun m kv => map_insert kv.1 kv.2 m) acc m = acc ++ m.
Proof.
  revert acc. induction m as [|[k v] m IH]; intros acc Hs; cbn; [by rewrite app_nil_r|].
  rewrite map_insert_last.
  - rewrite IH, <- app_assoc; [done|]. by rewrite <- app_assoc.
  - unfold keys_sorted in Hs. rewrite fmap_app in Hs. clear IH.
    induction acc as [|[j w] acc IHa]; cbn in *; [constructor|]. apply StronglySorted_inv in Hs as [Hs Hj].
    constructor; [|by apply IHa]. apply Forall_app in Hj as [_ Hj]. cbn in Hj. by apply Forall_cons in Hj as [? _].
Qed.

Lemma map_insert_sorted (m : Map) : keys_sorted m -> foldl (fun m kv => map_insert kv.1 kv.2 m) [] m = m.
Proof. apply (map_insert_all [] m). Qed.
End JsonSorted.

Lemma traverse_Forall2 {E A B : Type} (f : A -> result E B) (l : list A) (ys : list B) :
  traverse f l = Ok ys -> Forall2 (fun x y => f x = Ok y) l ys.
Proof.
  revert ys. induction l as [|x l IH]; intros ys Hys; cbn in Hys; unfold result_bind in Hys.
  - injection Hys as <-. constructor.
  - destruct (f x) as [y|] eqn:Hx; [|discriminate]. destruct (traverse f l) as [ys'|] eqn:Hl; [|discriminate].
    injection Hys as <-. constructor; [exact Hx|by apply IH].
Qed.

Section Equivalence.
Context {P : Type} `{!DataSourcePlugin P} {R : Type} `{!Rng R} {S : Type} `{!VuScript S} `{JsonText, TextTools}.
Notation M := (M P R S).
Context (url_parse : string -> option Url).
Context (canonicalize : string -> result string (list string)) (read_canonical : list string -> result string string).
Context (run : RunContext) (http : HttpDefaults) (registered : string -> bool).
Context (os_env : string -> option string) (generate_str : string -> result string string).
Notation render_json_now := (render_json url_parse canonicalize read_canonical run http registered os_env generate_str).
Notation render_compiled_now :=
  (render_compiled url_parse canonicalize read_canonical run http registered os_env generate_str).
Notation try_map := (try_map (P := P) (R := R) (S := S)).

Lemma bind_ok_ext {E A B : Type} (m m' : M (result E A)) (f f' : A -> M (result E B)) :
  m = m' -> (forall a, f a = f' a) -> bind_ok m f = bind_ok m' f'.
Proof. intros -> Hf. by rewrite (functional_extensionality f f' Hf). Qed.

Lemma bind_ok_ret {E A B : Type} (a : A) (f : A -> M (result E B)) : bind_ok (ret (Ok a)) f = f a.
Proof. reflexivity. Qed.

Lemma try_map_Forall2 {A A' B : Type} (f : A -> M (result PrepareError B)) (g : A' -> M (result PrepareError B)) l l' :
  Forall2 (fun x y => f x = g y) l l' -> try_map f l = try_map g l'.
Proof.
  induction 1 as [|x y l l' Hxy _ IH]; [reflexivity|]. cbn [Prepare.try_map].
  apply bind_ok_ext; [exact Hxy|]. intros a. by apply bind_ok_ext.
Qed.

Lemma try_map_ret {A B : Type} (f : A -> M (result PrepareError B)) (h : A -> B) l :
  Forall (fun x => f x = ret (Ok (h x))) l -> try_map f l = ret (Ok (h <$> l)).
Proof.
  induction 1 as [|x l Hx _ IH]; [reflexivity|]. cbn [Prepare.try_map]. rewrite Hx, bind_ok_ret, IH. reflexivity.
Qed.

Lemma compile_literal (v w : Value) what : CompiledJson_compile v what = Ok (CjLiteral w) -> w = v.
Proof.
  destruct v; cbn; unfold result_bind; repeat case_match; naive_solver.
Qed.
Lemma literal_is (j : CompiledJson) : cj_is_literal j = true -> exists w, j = CjLiteral w.
Proof. destruct j; [by eauto|done..]. Qed.

(** C30: the compiled form of a gRPC message renders as the message itself would, template by template: same
    value, same failure, same effects in the same order, whichever parts compilation found to be
    literal. *)
Theorem compiled_json_equiv (v : Value) (what : string) (j : CompiledJson) :
  value_sorted v -> CompiledJson_compile v what = Ok j -> render_compiled_now j = render_json_now v.
Proof.
  revert j. induction v as [|b|n|s|items IH|m IH] using Value_ind'; intros j Hv Hj; try (by injection Hj as <-).
  - cbn [CompiledJson_compile] in Hj. unfold parse_template, result_map_err, result_bind in Hj.
    cbn [render_json]. unfold parse_prepared, result_map_err.
    destruct (Template_parse s) as [t|e]; [|discriminate Hj].
    destruct (is_literal t); [by injection Hj as <-|]. destruct (Nat.eqb (length (parts t)) 1); by injection Hj as <-.
  - cbn [CompiledJson_compile] in Hj. unfold result_bind in Hj. cbn [render_json].
    destruct (traverse _ items) as [js|] eqn:Hjs; [|discriminate Hj]. apply traverse_Forall2 in Hjs.
    assert (Forall2 (fun x y => render_compiled_now x = render_json_now y) js items) as Heq.
    { clear Hj. cbn in Hv. induction Hjs as [|x y items js Hx _ IHjs]; constructor.
      - apply Forall_cons in IH as [IHx _]. apply (IHx y); [apply Hv|exact Hx].
      - apply Forall_cons in IH as [_ IH]. apply IHjs; [exact IH|apply Hv]. }
    destruct (forallb cj_is_literal js) eqn:Hl; injection Hj as <-; cbn [render_compiled].
    + rewrite (try_map_ret _ id); [by rewrite list_fmap_id|].
      clear Hv IH. revert items Hjs Heq. induction js as [|x js IHjs]; intros items Hjs Heq; inversion Hjs; inversion Heq; subst;
        [constructor|]. simplify_eq. cbn in Hl. apply andb_prop in Hl as [Hx Hl].
      apply literal_is in Hx as [w ->].
      match goal with Hc : CompiledJson_compile ?y _ = _, He : render_compiled_now (CjLiteral w) = _ |- _ =>
        pose proof (compile_literal _ _ _ Hc) as ->; constructor; [symmetry; exact He|] end.
      by apply IHjs.
    + by rewrite (try_map_Forall2 _ _ _ _ Heq).
  - cbn [CompiledJson_compile] in Hj. unfold result_bind in Hj. cbn [render_json].
    destruct (traverse _ m) as [js|] eqn:Hjs; [|discriminate Hj]. apply traverse_Forall2 in Hjs.
    destruct Hv as [Hsorted Hv].
    assert (Forall2 (fun x y => x.1 = y.1 /\ CompiledJson_compile y.2 what = Ok x.2
                                /\ render_compiled_now x.2 = render_json_now y.2) js m) as Heq.
    { clear Hj Hsorted. induction Hjs as [|y x m js Hx _ IHjs]; constructor.
      - apply Forall_cons in IH as [IHx _]. destruct (CompiledJson_compile y.2 what) as [jx|] eqn:Hc; [|discriminate Hx].
        injection Hx as <-. cbn. split; [done|]. split; [done|]. apply IHx; [apply Hv|reflexivity].
      - apply Forall_cons in IH as [_ IH]. apply IHjs; [exact IH|apply Hv]. }
    clear Hjs IH Hv. destruct (forallb _ js) eqn:Hl; injection Hj as <-; cbn [render_compiled].
    + rewrite (try_map_ret _ id).
      { rewrite list_fmap_id, bind_ok_ret, map_insert_sorted by exact Hsorted. reflexivity. }
      clear Hsorted. induction Heq as [|[k x] [k' y] js m (Hk & Hc & Hr) _ IHeq]; [constructor|].
      cbn in Hl, Hk, Hc, Hr. subst k'. apply andb_prop in Hl as [Hx Hl]. apply literal_is in Hx as [w ->].
      constructor; [|by apply IHeq]. cbn. pose proof (compile_literal _ _ _ Hc) as ->.
      rewrite <- Hr. reflexivity.
    + rewrite (try_map_Forall2 _ (fun kv => bind_ok (render_json_now kv.2) (fun v => ret (Ok (kv.1, v)))) js m); [done|].
      eapply Forall2_impl; [exact Heq|]. intros [k x] [k' y] (Hk & _ & Hr). cbn in *. by rewrite Hk, Hr.
Qed.
End Equivalence.
