(* ===== verification/Flow.v ===== *)
(** * The flow runner (crates/loadr-core/src/flow.rs)

    One iteration of one virtual user: its request steps (rate ceiling, fault injection,
    preparation, hooks, execution, metrics, extraction, assertions, checks), the control
    steps around them, parallel branches, and the hooks of its lifecycle.

    Counted loops run on their count.  A [during] loop runs on [during_fuel] turns, after which
    the model gives up ([NoFuel]); an extraction loop that never ends is [NoFuel] too. *)

From Stdlib Require Import Ascii.
From S2P Require Import Prelude Float64 Str Dur Value Template Protocol Metrics Aggregate Federation Pipeline Cookies Extract Conditions Feeds Pacing Vu Program Interp Prepare.

Inductive RequestFlow :=
| FlowContinue
| FlowAbortIteration
| FlowStopVu
| FlowAbortScenario
| FlowAbortTest (reason : string).

(** ** Names and classes of failures *)

Definition FAULT_DROP_ERROR : string := "fault injected: request dropped before send".
Definition FAULT_DROP_RESPONSE_ERROR : string := "fault injected: response dropped".
Definition REQUEST_CANCELLED_ERROR : string := "request cancelled".

Definition contains_any (s : string) (l : list string) : bool := existsb (str_contains s) l.

Definition classify_transport_error (error : string) : string :=
  let e := to_ascii_lowercase error in
  if str_contains e "fault injected" then "fault_injected"
  else if contains_any e ["cancelled"; "canceled"] then "cancelled"
  else if contains_any e ["timed out"; "timeout"] then "timeout"
  else if contains_any e ["dns"; "resolve"; "name or service"] then "dns"
  else if contains_any e ["tls"; "certificate"; "ssl"] then "tls"
  else if str_contains e "refused" then "connection_refused"
  else if contains_any e ["reset"; "broken pipe"; "closed"] then "connection_reset"
  else if str_contains e "connect" then "connection"
  else "transport".

Definition is_alnum (c : ascii) : bool := byte_range 97 122 c || byte_range 65 90 c || byte_range 48 57 c.

Definition family_char (c : list ascii) : ascii :=
  match c with
  | [a] => if is_alnum (ascii_lower a) || Ascii.eqb a "_" then ascii_lower a else "_"%char
  | _ => "_"%char
  end.

Fixpoint trim_underscores (l : list ascii) : list ascii :=
  match l with
  | "_"%char :: l => trim_underscores l
  | _ => l
  end.

Definition metric_family (protocol : string) : string :=
  match reverse (trim_underscores (reverse (trim_underscores (family_char <$> str_chars protocol)))) with
  | [] => "plugin"
  | l => of_chars l
  end.

(** The character that stands for a quoted literal. *)
Definition ELLIPSIS : list ascii := byte_at <$> [226; 128; 166]%N.

Definition quote_of (c : list ascii) : option ascii :=
  match c with
  | [a] => if N.eqb (N_of_ascii a) 34 || Ascii.eqb a "'" || Ascii.eqb a "`" then Some a else None
  | _ => None
  end.

(** [inside]: within a literal opened by that quote. *)
Fixpoint normalize_chars (cs : list (list ascii)) (inside : option ascii) (last_placeholder : bool) : list (list ascii) :=
  match cs, inside with
  | [], _ => []
  | c :: cs, Some q =>
      normalize_chars cs (if bool_decide (c = [q]) then None else Some q) last_placeholder
  | c :: cs, None =>
      match quote_of c with
      | Some q => (if last_placeholder then [] else [ELLIPSIS]) ++ normalize_chars cs (Some q) true
      | None =>
          match c with
          | [a] => if byte_range 48 57 a
                   then (if last_placeholder then [] else [["N"%char]]) ++ normalize_chars cs None true
                   else c :: normalize_chars cs None false
          | _ => c :: normalize_chars cs None false
          end
      end
  end.

(** [lines().next()]: up to a line feed, without the carriage return before it. *)
Definition first_line (s : string) : string :=
  match str_find s (of_chars [byte_at 10]) with
  | None => s
  | Some i => let l := slice_to s i in default l (strip_suffix l (of_chars [byte_at 13]))
  end.

Definition normalize_exception (message : string) : string :=
  let out := of_chars (concat (normalize_chars (str_chars (trim (first_line message))) None false)) in
  match take 120 (str_chars (trim out)) with
  | [] => "exception"
  | capped => of_chars (concat capped)
  end.

Definition is_truthy (v : Value) : bool :=
  match v with
  | Null => false
  | Bool b => b
  | Num n => f64_ne (Number_as_f64 n) f64_zero
  | Text s => negb (str_is_empty s)
  | Array _ | Object _ => true
  end.

Definition json_f64 (f : f64) : Value := match Number_from_f64 f with Some n => Num n | None => Null end.

Definition object_of (l : list (string * Value)) : Value :=
  Object (foldl (fun m kv => map_insert kv.1 kv.2 m) [] l).

Definition response_to_json (r : ProtocolResponse) : Value :=
  object_of
    [("status", Num (Number_from_i64 (rs_status r)));
     ("status_text", Text (rs_status_text r));
     ("body", Text (body_text r));
     ("headers", object_of ((fun kv => (to_ascii_lowercase kv.1, Text kv.2)) <$> rs_headers r));
     ("duration_ms", json_f64 (duration_ms (rs_timings r)));
     ("error", match rs_error r with Some e => Text e | None => Null end);
     ("url", Text (rs_url r));
     ("protocol", Text (rs_protocol_version r))].

Definition request_to_json (p : PreparedRequest) : Value :=
  object_of
    [("name", Text (pr_name p));
     ("method", Text (pr_method p));
     ("url", Text (pr_url p));
     ("headers", object_of ((fun kv => (kv.1, Text kv.2)) <$> pr_headers p));
     ("body", Text (from_utf8_lossy (pr_body p)))].

Definition set_error (e : string) (r : ProtocolResponse) : ProtocolResponse :=
  mkResponse (rs_status r) (rs_status_text r) (rs_headers r) (rs_body r) (rs_timings r) (rs_bytes_sent r)
    (rs_bytes_received r) (rs_protocol_version r) (Some e) (rs_url r) (rs_extras r) (rs_grpc_protobuf_outcomes r).

(** A number under a key of the extras of a response. *)
Definition extra_f64 (k : string) (r : ProtocolResponse) : option f64 :=
  match rs_extras r with
  | Object m => map_get k m ≫= as_f64
  | _ => None
  end.

Section Flow.
Context {P : Type} `{!DataSourcePlugin P} {R : Type} `{!Rng R} {S : Type} `{!VuScript S}.
Context `{JsonText, TextTools, ConditionText}.
Notation M := (M P R S).
Context (hash_tags : Tags -> Z) (seed_from_u64 : Z -> R) (url_parse : string -> option Url).
Context (canonicalize : string -> result string (list string)) (read_canonical : list string -> result string string).
Context (run : RunContext) (registered : string -> bool).
Context (os_env : string -> option string) (generate_str : string -> result string string).
(** [serde_json::to_string] of the result payload a plugin is told. *)
Context (payload_text : ResultPayload -> option string).
Context (during_fuel : nat).
Context (program : ScenarioProgram).

Notation http := (pg_http program).
Notation script_call := (run_script url_parse canonicalize read_canonical run http registered).
Notation prepare_request := (prepare url_parse canonicalize read_canonical run http registered os_env generate_str).
Notation render_str_now := (render_str url_parse canonicalize read_canonical run http registered os_env generate_str).
Notation render_template_now :=
  (render_template url_parse canonicalize read_canonical run http registered os_env generate_str).

(** ** Samples of a request *)

Definition note_fault (kind : string) : M unit :=
  let* tags := sample_tags_now [("kind", kind)] in emit_counter "faults_injected" (f64_of_Z 1) tags.

Definition record_exception (site message : string) : M unit :=
  let* tags := sample_tags_now [("exception", normalize_exception message); ("site", site)] in
  emit_counter "vu_exceptions" (f64_of_Z 1) tags.

Definition emit_values (values : list (string * MetricKind * f64)) (tags : CachedTags) : M unit :=
  emit_call (EmitCached values tags).

(** [emit_named]: the name as the registry has it. *)
Definition emit_named (name : string) (kind : MetricKind) (value : f64) (tags : CachedTags) : M unit :=
  let* d := access (fun s => (defs (w_registry (sh_world s)) !! name, s)) in
  emit_values [(match d with Some d => def_name d | None => name end, kind, value)] tags.

Definition emit_extra (name key : string) (r : ProtocolResponse) (tags : CachedTags) : M unit :=
  match extra_f64 key r with
  | Some v => emit_named name Counter v tags
  | None => ret tt
  end.

Definition protocol_family (protocol : string) : string :=
  if bool_decide (protocol ∈ ["grpc"; "tcp"; "udp"]) then protocol
  else if bool_decide (protocol ∈ ["sse"; "browser"]) then "plugin"
  else metric_family protocol.

Definition emit_request_metrics (p : PreparedRequest) (r : ProtocolResponse) (tags : CachedTags) : M unit :=
  let t := rs_timings r in
  let one := f64_of_Z 1 in
  let sent := ("data_sent", Counter, f64_of_Z (rs_bytes_sent r)) in
  let received := ("data_received", Counter, f64_of_Z (rs_bytes_received r)) in
  let outcome := ("http_req_failed", Rate, f64_of_Z (if failed r then 1 else 0)) in
  if bool_decide (pr_protocol p ∈ ["http"; "graphql"]) then
    let* _ := emit_values
      [sent; received; ("http_reqs", Counter, one); ("http_req_duration", Trend, duration_ms t);
       ("http_req_blocked", Trend, blocked_ms t); ("http_req_connecting", Trend, connect_ms t);
       ("http_req_tls_handshaking", Trend, tls_ms t); ("http_req_sending", Trend, sending_ms t);
       ("http_req_waiting", Trend, waiting_ms t); ("http_req_receiving", Trend, receiving_ms t); outcome] tags in
    if bool_decide (pr_protocol p = "graphql")
    then emit_values [("graphql_reqs", Counter, one); ("graphql_req_duration", Trend, duration_ms t)] tags
    else ret tt
  else if bool_decide (pr_protocol p = "grpc") then
    emit_values [sent; received; ("grpc_reqs", Counter, one); ("grpc_req_duration", Trend, duration_ms t); outcome] tags
  else if bool_decide (pr_protocol p = "ws") then
    emit_values
      [sent; received; ("ws_connecting", Trend, blocked_ms t); ("ws_session_duration", Trend, duration_ms t);
       ("ws_msgs_sent", Counter, default f64_zero (extra_f64 "msgs_sent" r));
       ("ws_msgs_received", Counter, default f64_zero (extra_f64 "msgs_received" r));
       ("http_req_failed", Rate, f64_of_Z (match rs_error r with Some _ => 1 | None => 0 end))] tags
  else
    let family := protocol_family (pr_protocol p) in
    let* _ := emit_values [sent; received] tags in
    let* _ := emit_named (family +:+ "_reqs") Counter one tags in
    let* _ := emit_named (family +:+ "_req_duration") Trend (duration_ms t) tags in
    let* _ := emit_extra (family +:+ "_docs") "docs" r tags in
    let* _ := emit_extra (family +:+ "_rows") "rows" r tags in
    let* _ := emit_extra (family +:+ "_msgs") "msgs" r tags in
    emit_values [outcome] tags.

Definition request_extras (p : PreparedRequest) (r : ProtocolResponse) : list (string * string) :=
  [("name", pr_name p); ("method", pr_method p); ("status", Z_to_string (rs_status r)); ("proto", pr_protocol p)]
  ++ match rs_error r with
     | Some e => [("error_kind", classify_transport_error e)]
     | None => []
     end.

(** [RequestMetricsGuard]: opened before the request goes out ... *)
Definition guard_new : M Z :=
  let* _ := emit_call BeginRequest in clock.

(** ... closed by the response ... *)
Definition record_completed (p : PreparedRequest) (r : ProtocolResponse) : M unit :=
  let* tags := cached_tags_now hash_tags (request_extras p r) in
  let* _ := emit_request_metrics p r tags in
  emit_call EndRequest.

(** ... or by the drop of the future that waits for it. *)
Definition cancelled_response (p : PreparedRequest) (elapsed : Duration) : ProtocolResponse :=
  mkResponse 0 "" [] ""
    (mkTimings f64_zero f64_zero f64_zero f64_zero f64_zero f64_zero
       (f64_mul (as_secs_f64 elapsed) (f64_of_Z 1000)) f64_zero)
    0 0 "" (Some REQUEST_CANCELLED_ERROR) (pr_url p) Null [].

Definition guard_drop (p : PreparedRequest) (started : Z) (l : Local R S) : IO P R S :=
  (let* now := clock in
   let r := cancelled_response p (u64_saturating_sub now started) in
   let* tags := on_world (fun v w =>
     let '(reg, tags) := intern_tags hash_tags (w_registry w) (sample_tags (request_extras p r) v) in
     Some (tags, v, set_registry reg w)) in
   let* _ := emit_request_metrics p r tags in
   emit_call EndRequest) l (fun _ _ => Dropped).

(** ** Hooks *)

Definition apply_request_overrides (p : PreparedRequest) (updated : list (string * Value)) : PreparedRequest :=
  let url := match map_get "url" updated with Some (Text u) => u | _ => pr_url p end in
  let method := match map_get "method" updated with Some (Text m) => to_ascii_uppercase m | _ => pr_method p end in
  let headers := match map_get "headers" updated with
                 | Some (Object hs) => foldl (fun acc kv => set_header acc kv.1 (json_to_string kv.2)) (pr_headers p) hs
                 | _ => pr_headers p
                 end in
  let body := match map_get "body" updated with Some (Text b) => b | _ => pr_body p end in
  mkPrepared (pr_name p) (pr_protocol p) method url headers body (pr_timeout p) (pr_follow_redirects p)
    (pr_max_redirects p) (pr_options p).

Definition before_request (p : PreparedRequest) : M PreparedRequest :=
  let* script := get_script in
  match script with
  | Some s =>
      if has_function s "beforeRequest" then
        let* r := script_call s (Call "beforeRequest" [request_to_json p]) in
        ret (match r with Ok (Object updated) => apply_request_overrides p updated | _ => p end)
      else ret p
  | None => ret p
  end.

Definition after_request (r : ProtocolResponse) : M unit :=
  let* script := get_script in
  match script with
  | Some s =>
      if has_function s "afterRequest"
      then let* _ := script_call s (Call "afterRequest" [response_to_json r]) in ret tt
      else ret tt
  | None => ret tt
  end.

(** A lifecycle or flow function; its failure is recorded as an exception at [site]. *)
Definition call_hook (s : S) (site : string) (i : ScriptInvocation) : M unit :=
  let* r := script_call s i in
  match r with
  | Ok _ => ret tt
  | Err e => record_exception site e
  end.

(** ** Extraction, assertions, checks *)

Definition failure_flow (action : FailureAction) (reason : string) (flow : RequestFlow) : RequestFlow :=
  match action with
  | ActContinue => flow
  | ActAbortIteration => FlowAbortIteration
  | ActAbortScenario => FlowAbortScenario
  | ActAbortTest => FlowAbortTest reason
  end.

Definition emit_check (name : string) (pass : bool) : M unit :=
  let* tags := cached_tags_now hash_tags [("check", name)] in
  emit_values [("checks", Rate, f64_of_Z (if pass then 1 else 0))] tags.

(** One extractor; [boundary_matches] ends within one turn more than the bytes of the body, or never. *)
Definition run_extractor (p : PreparedRequest) (response : ProtocolResponse) (x : CompiledExtractor)
    (st : RequestFlow * bool) : M (RequestFlow * bool) :=
  let fuel := Datatypes.S (length (chars (body_text response))) in
  fun l k =>
    match extract fuel x response (rng (l_vu l)) with
    | None => NoFuel
    | Some (r, g) =>
        (match r with
         | Ok value =>
             let* _ := (if is_chain_with_check x then emit_check (extractor_name x) true else ret tt) in
             let* _ := modify_vu (set_var (extractor_name x) value) in
             ret st
         | Err (CheckFailed name _ action) =>
             let* _ := emit_check name false in
             ret (failure_flow action ("chain `" +:+ name +:+ "` check failed on `" +:+ pr_name p +:+ "`") st.1, true)
         | Err _ => ret (st.1, true)
         end) (mkLocal (set_rng g (l_vu l)) (l_script l)) k
    end.

Fixpoint run_extractors (p : PreparedRequest) (response : ProtocolResponse) (xs : list CompiledExtractor)
    (st : RequestFlow * bool) : M (RequestFlow * bool) :=
  match xs with
  | [] => ret st
  | x :: xs => let* st := run_extractor p response x st in run_extractors p response xs st
  end.

Definition with_pass (pass : bool) (detail : option string) (r : ConditionResult) : ConditionResult :=
  mkConditionResult (cr_name r) pass detail (cr_on_failure r) None (cr_failure_group r).

Definition eval_condition (c : CompiledCondition) (response : ProtocolResponse) : M ConditionResult :=
  let r := evaluate c response in
  match cr_needs_js r with
  | None => ret r
  | Some expr =>
      let* script := get_script in
      match script with
      | None => ret (with_pass false (Some "js condition requires a script engine") r)
      | Some s =>
          let* _ := modify_vu (set_var "response" (response_to_json response)) in
          let* v := script_call s (Eval_ expr) in
          let* _ := modify_vu (fun v => set_vars (delete "response" (vars v)) v) in
          ret (match v with
               | Ok v => if is_truthy v then with_pass true (cr_detail r) r
                         else with_pass false (Some ("js expression evaluated to " +:+ to_json v)) r
               | Err e => with_pass false (Some ("js error: " +:+ e)) r
               end)
      end
  end.

Fixpoint run_asserts (p : PreparedRequest) (response : ProtocolResponse) (cs : list CompiledCondition)
    (st : RequestFlow * bool) : M (RequestFlow * bool) :=
  match cs with
  | [] => ret st
  | c :: cs =>
      let* r := eval_condition c response in
      run_asserts p response cs
        (if cr_pass r then st
         else (failure_flow (cr_on_failure r)
                 ("assertion `" +:+ cr_name r +:+ "` failed on `" +:+ pr_name p +:+ "`") st.1, true))
  end.

Definition run_check (response : ProtocolResponse) (c : CompiledCondition) : M unit :=
  let* r := eval_condition c response in
  match cr_failure_group r with
  | None => emit_check (cr_name r) (cr_pass r)
  | Some g =>
      let* tags := sample_tags_now
        ([("check", cr_name r); ("failure_group", fg_label g)]
         ++ match fg_code g with Some code => [("failure_code", Z_to_string code)] | None => [] end) in
      emit_rate "checks" (cr_pass r) tags
  end.

Definition count_failure (b : bool) (p : PreparedRequest) : M unit :=
  if b then let* tags := sample_tags_now [("name", pr_name p)] in emit_rate "http_req_failed" true tags
  else ret tt.

(** Results go back to the plugins that made rows for the request. *)
Definition report_rows (display_name : string) (response : ProtocolResponse) : M unit :=
  on_world (fun v w =>
    Some (if has_pending (data_state v)
          then let id := mkRowIdentity (vu_id v) (u64_saturating_sub (iteration v) 1) (scenario v) (Some display_name) in
               let e := report_result payload_text id response (mkFetchEnv (w_data w) (w_store w) (data_state v) (rng v)) in
               (tt, set_rng (fe_rng e) (set_data_state (fe_state e) v), set_data (fe_data e) (fe_store e) w)
          else (tt, v, w))).

(** ** One request *)

Definition acquire (interval : Duration) : M unit :=
  let* now := clock in
  let* wait := access (fun s => let '(slot, wait) := reserve interval (sh_next_slot s) now in
                                (wait, set_next_slot slot s)) in
  if Z.eqb wait 0 then ret tt else sleep wait.

Definition inject_latency (l : LatencyFault) : M unit :=
  let* pause := draw_or_panic (sample_fault_jitter l) in
  if Z.eqb pause 0 then ret tt
  else let* _ := note_fault "latency" in sleep pause.

Definition exchange (p : PreparedRequest) (drop_fault drop_before_send : bool) (started : Z) : M ProtocolResponse :=
  if drop_before_send then
    let* _ := note_fault "drop" in ret (error_response FAULT_DROP_ERROR (pr_url p))
  else
    let* r := execute false p (guard_drop p started) in
    let response := or_error_response (pr_url p) r in
    if drop_fault then
      let* _ := note_fault "drop" in ret (set_error FAULT_DROP_RESPONSE_ERROR response)
    else ret response.

(** Steps 4 to 8: from the response on. *)
Definition conclude (req : CompiledRequest) (p : PreparedRequest) (response : ProtocolResponse) : M RequestFlow :=
  let* _ := record_completed p response in
  let* st := run_extractors p response (cr_extract req) (FlowContinue, false) in
  let '(chain_flow, extraction_failed) := st in
  let* _ := count_failure extraction_failed p in
  let* _ := report_rows (cr_display_name req) response in
  let* _ := after_request response in
  let* st := run_asserts p response (cr_assert req) (chain_flow, false) in
  let '(flow, assert_failed) := st in
  let* _ := count_failure assert_failed p in
  let* _ := each (run_check response) (cr_checks req) in
  let* _ := modify_vu (set_last_request_failed (failed response || assert_failed || extraction_failed)) in
  ret flow.

(** A request that could not be sent counts as failed. *)
Definition refuse (name error : string) : M RequestFlow :=
  let* tags := sample_tags_now [("name", name); ("error", error)] in
  let* _ := emit_rate "http_req_failed" true tags in
  ret FlowContinue.

Definition send (req : CompiledRequest) (p : PreparedRequest) : M RequestFlow :=
  let* p := before_request p in
  if registered (pr_protocol p) then
    let faults := pg_faults program in
    let* drop_fault := (match faults ≫= drop_rate with
                        | Some rate => draw (fault_drop_decision rate)
                        | None => ret false
                        end) in
    let drop_before_send := drop_fault && bool_decide (default BeforeSend (faults ≫= drop_mode) = BeforeSend) in
    let* started := guard_new in
    let* response := exchange p drop_fault drop_before_send started in
    conclude req p response
  else refuse (pr_name p) "protocol".

Definition run_request (req : CompiledRequest) : M RequestFlow :=
  let* _ := (match pg_throttle program with Some interval => acquire interval | None => ret tt end) in
  let* _ := (match pg_faults program ≫= latency with Some l => inject_latency l | None => ret tt end) in
  let* _ := on_world (fun v w => Some (tt, begin_vu_request (cr_display_name req) w v, w)) in
  let* prepared := prepare_request req in
  let* _ := modify_vu (set_current_request None) in
  match prepared with
  | Err DataExhausted => ret FlowStopVu
  | Err (PrepareOther _) => refuse (cr_display_name req) "prepare"
  | Ok p => send req p
  end.

(** ** Control steps *)

Definition eval_condition_bool (expr : string) : M bool :=
  let* script := get_script in
  match script with
  | None => ret false
  | Some s =>
      let* r := script_call s (Eval_ expr) in
      ret (match r with Ok v => is_truthy v | Err _ => false end)
  end.

Fixpoint weighted_index (weights : list f64) (pick : f64) (i : nat) : option nat :=
  match weights with
  | [] => None
  | w :: weights =>
      let pick := f64_sub pick (f64_max w f64_zero) in
      if f64_lt pick f64_zero then Some i else weighted_index weights pick (Datatypes.S i)
  end.

(** [random_range(0.0..total)] panics when [total] is not finite. *)
Definition pick_branch (strategy : SwitchStrategy) (weights : list f64) (cursor : list nat) : M nat :=
  let n := length weights in
  match strategy with
  | RoundRobin =>
      let* c := access (fun s => let c := default 0 (sh_cursors s !! cursor) in
                                 (c, set_cursors (<[cursor := u64_add c 1]> (sh_cursors s)) s)) in
      ret (Z.to_nat (c mod Z.of_nat n))
  | Uniform => draw (random_index n)
  | Weighted =>
      let total := foldl (fun acc w => f64_add acc (f64_max w f64_zero)) f64_zero weights in
      if f64_le total f64_zero then draw (random_index n)
      else if f64_is_finite total then
        let* pick := draw (random_f64 f64_zero total) in
        ret (default (n - 1)%nat (weighted_index weights pick 0))
      else panic
  end.

Definition resolve_items (items : Value) : M (list Value) :=
  match items with
  | Array a => ret a
  | Text s =>
      let* r := render_str_now s in
      ret (match r with
           | Ok rendered => match from_json rendered with
                            | Ok (Array a) => a
                            | Ok other => [other]
                            | Err _ => []
                            end
           | Err _ => []
           end)
  | other => ret [other]
  end.

Definition set_index (var : string) (i : Z) : M unit := modify_vu (set_var var (Num (PosInt i))).

(** What a body that may end the steps gives its loop. *)
Definition and_then (body : M IterationOutcome) (next : M (option IterationOutcome)) : M (option IterationOutcome) :=
  let* o := body in
  match o with
  | Completed => next
  | o => ret (Some o)
  end.

Fixpoint repeat_loop (n : nat) (i : Z) (var : string) (body : M IterationOutcome) : M (option IterationOutcome) :=
  match n with
  | O => ret None
  | Datatypes.S n => let* _ := set_index var i in and_then body (repeat_loop n (i + 1) var body)
  end.

Fixpoint while_loop (n : nat) (condition : string) (body : M IterationOutcome) : M (option IterationOutcome) :=
  match n with
  | O => ret None
  | Datatypes.S n =>
      let* b := eval_condition_bool condition in
      if b then and_then body (while_loop n condition body) else ret None
  end.

Fixpoint foreach_loop (items : list Value) (i : Z) (var index : string) (body : M IterationOutcome) :
    M (option IterationOutcome) :=
  match items with
  | [] => ret None
  | x :: items =>
      let* _ := modify_vu (set_var var x) in
      let* _ := set_index index i in
      and_then body (foreach_loop items (i + 1) var index body)
  end.

Fixpoint during_loop (fuel : nat) (deadline i : Z) (counter : string) (body : M IterationOutcome) :
    M (option IterationOutcome) :=
  let* now := clock in
  if Z.ltb now deadline then
    match fuel with
    | O => no_fuel
    | Datatypes.S fuel =>
        let* _ := set_index counter i in
        and_then body (during_loop fuel deadline (u64_add i 1) counter body)
    end
  else ret None.

(** [n] attempts left, the first of them number [attempt]. *)
Fixpoint retry_loop (n : nat) (attempt : Z) (until : option string) (backoff : option Duration)
    (body : M IterationOutcome) : M (option IterationOutcome) :=
  match n with
  | O => ret None
  | Datatypes.S n =>
      let* _ := set_index "attempt" attempt in
      let* _ := modify_vu (set_last_request_failed false) in
      and_then body
        (let* v := get_vu in
         let* ok := (match until with
                     | Some expr => eval_condition_bool expr
                     | None => ret (negb (last_request_failed v))
                     end) in
         if ok then ret None
         else
           let* _ := (match n, backoff with
                      | Datatypes.S _, Some b => sleep b
                      | _, _ => ret tt
                      end) in
           retry_loop n (attempt + 1) until backoff body)
  end.

(** ** Parallel branches *)

Definition child_context (parent : VuContext R) (branch : Z) : M (VuContext R) :=
  on_world (fun v w =>
    let '(child, w) := VuContext_new hash_tags seed_from_u64 (vu_id parent) (scenario parent) (base_tags parent)
                         (metrics parent) (auto (cookie_jar parent)) w in
    let seed := Z.lxor (Z.lxor (vu_id parent) (u64_wrap (iteration parent * 40503))) (u64_wrap (branch * 49842)) in
    Some (set_data_state (fork_for_parallel (data_state parent))
            (set_rng (seed_from_u64 seed)
               (set_cookie_jar (cookie_jar parent)
                  (set_vars (vars parent) (set_groups (groups parent) (set_iteration (iteration parent) child))))),
          v, w)).

Definition merge_children (children : list (VuContext R)) (v : VuContext R) : VuContext R :=
  set_last_request_failed (existsb last_request_failed children)
    (set_vars (foldl (fun m child => vars child ∪ m) (vars v) children) v).

Fixpoint merge_outcomes (os : list IterationOutcome) : IterationOutcome :=
  match os with
  | AbortTest r :: _ => AbortTest r
  | AbortScenario :: _ => AbortScenario
  | _ :: os => merge_outcomes os
  | [] => Completed
  end.

Definition join_all (branches : list (M IterationOutcome)) (children : list (VuContext R)) :
    M (list (IterationOutcome * VuContext R)) :=
  fun l k => Par (zip_with (fun (b : M IterationOutcome) child => b (mkLocal child None) Done) branches children)
               (fun results => k ((fun r => (r.1, l_vu r.2)) <$> results) l).

Definition run_parallel (branches : list (M IterationOutcome)) : M IterationOutcome :=
  let* v := get_vu in
  let* children := each (fun i => child_context v (Z.of_nat i)) (seq 0 (length branches)) in
  let* results := join_all branches children in
  let* _ := modify_vu (merge_children results.*2) in
  ret (merge_outcomes results.*1).

(** ** Steps *)

(** The barrier, made by the first virtual user to arrive; a timeout lets it go on. *)
Definition rendezvous (name : string) (users : Z) (timeout : Duration) : M bool :=
  let* _ := access (fun s => (tt, match sh_barriers s !! name with
                                  | Some _ => s
                                  | None => set_barriers (<[name := Z.max users 1]> (sh_barriers s)) s
                                  end)) in
  fun l k => Rendezvous name timeout (fun b => k b l).

Definition think (t : ThinkTimeSpec) : M unit :=
  let* pause := draw_or_panic (sample_think_time t) in sleep pause.

Definition flow_outcome (f : RequestFlow) : option IterationOutcome :=
  match f with
  | FlowContinue => None
  | FlowAbortIteration => Some Completed
  | FlowStopVu => Some StopVu
  | FlowAbortScenario => Some AbortScenario
  | FlowAbortTest reason => Some (AbortTest reason)
  end.

Definition run_request_step (req : CompiledRequest) : M (option IterationOutcome) :=
  let* f := run_request req in
  match flow_outcome f with
  | Some o => ret (Some o)
  | None =>
      let* _ := (match pg_think_time program with Some t => think t | None => ret tt end) in
      ret None
  end.

Definition run_js (call script : option string) : M (option IterationOutcome) :=
  let* vu_script := get_script in
  match vu_script, call, script with
  | Some s, Some name, _ => let* _ := call_hook s "js_step" (Call name [rc_setup_data run]) in ret None
  | Some s, None, Some code => let* _ := call_hook s "js_step" (Eval_ code) in ret None
  | _, _, _ => ret None
  end.

(** The steps of a group, a choice: under a name on the group stack. *)
Definition in_group (name : string) (body : M IterationOutcome) : M (option IterationOutcome) :=
  let* _ := modify_vu (push_group name) in
  let* o := body in
  let* _ := modify_vu pop_group in
  and_then (ret o) (ret None).

Definition choice_label (name : option string) (i : nat) : string :=
  default ("branch-" +:+ Z_to_string (Z.of_nat i)) name.

(** [Some o]: the steps end with [o]. *)
Fixpoint run_step (s : CompiledStep) : M (option IterationOutcome) :=
  let run_steps := fix run_steps (l : list CompiledStep) : M IterationOutcome :=
    match l with
    | [] => ret Completed
    | s :: l =>
        let* o := run_step s in
        match o with
        | Some o => ret o
        | None => run_steps l
        end
    end in
  match s with
  | CsRequest req => run_request_step req
  | CsThinkTime t => let* _ := think t in ret None
  | CsJs call script => run_js call script
  | CsGroup name steps => in_group name (run_steps steps)
  | CsRepeat times counter steps => repeat_loop (Z.to_nat times) 0 (default "index" counter) (run_steps steps)
  | CsWhile condition max_iterations steps => while_loop (Z.to_nat max_iterations) condition (run_steps steps)
  | CsIf condition then_ otherwise =>
      let* b := eval_condition_bool condition in
      and_then (if b then run_steps then_ else run_steps otherwise) (ret None)
  | CsRandom strategy choices cursor =>
      let bodies := map (fun c => (c.1.2, run_steps c.2)) choices in
      match bodies with
      | [] => ret None
      | _ =>
          let* i := pick_branch strategy (map (fun c => c.1.1) choices) cursor in
          match bodies !! i with
          | Some (name, body) => in_group (choice_label name i) body
          | None => panic
          end
      end
  | CsForeach items var index steps =>
      let* l := resolve_items items in foreach_loop l 0 var index (run_steps steps)
  | CsSwitch value cases dflt =>
      let bodies := map (fun c => (c.1, run_steps c.2)) cases in
      let* r := render_template_now value in
      let key := match r with Ok s => s | Err _ => "" end in
      let body := match List.find (fun c => bool_decide (c.1 = key)) bodies with
                  | Some (_, body) => body
                  | None => run_steps dflt
                  end in
      and_then body (ret None)
  | CsDuring duration counter steps =>
      let* now := clock in during_loop during_fuel (now + duration) 0 counter (run_steps steps)
  | CsRetry times until backoff steps =>
      retry_loop (Z.to_nat (Z.max times 1)) 0 until backoff (run_steps steps)
  | CsParallel branches => and_then (run_parallel (map run_steps branches)) (ret None)
  | CsRendezvous name users timeout => let* _ := rendezvous name users timeout in ret None
  end.

Fixpoint run_steps (l : list CompiledStep) : M IterationOutcome :=
  match l with
  | [] => ret Completed
  | s :: l =>
      let* o := run_step s in
      match o with
      | Some o => ret o
      | None => run_steps l
      end
  end.

(** ** Iterations *)

Definition run_on_start : M unit :=
  let* v := get_vu in
  let* script := get_script in
  match pg_on_start program, script with
  | Some f, Some s =>
      if Z.eqb (iteration v) 1 && has_function s f
      then call_hook s "on_start" (Call f [rc_setup_data run]) else ret tt
  | _, _ => ret tt
  end.

Definition run_exec (exec : string) : M IterationOutcome :=
  let* script := get_script in
  match script with
  | None =>
      ret (AbortTest ("scenario `" +:+ pg_name program +:+ "` requires JS function `" +:+ exec
                      +:+ "` but no script engine is configured"))
  | Some s =>
      let* v := get_vu in
      let context := object_of [("vu", Num (PosInt (vu_id v)));
                                ("iteration", Num (PosInt (u64_saturating_sub (iteration v) 1)));
                                ("scenario", Text (scenario v))] in
      let* r := script_call s (Call exec [rc_setup_data run; context]) in
      match r with
      | Ok _ => ret Completed
      | Err e =>
          let* tags := sample_tags_now [("scenario_fn", exec)] in
          let* _ := emit_rate "http_req_failed" true tags in
          let* _ := record_exception "exec" e in
          ret Completed
      end
  end.

Definition run_iteration : M IterationOutcome :=
  let* _ := modify_vu begin_iteration in
  let* _ := run_on_start in
  let* started := clock in
  let* o := run_steps (pg_steps program) in
  let* o := (match o, pg_exec program with
             | Completed, Some exec => run_exec exec
             | o, _ => ret o
             end) in
  let* tags := cached_tags_now hash_tags [] in
  let* now := clock in
  let elapsed := f64_mul (as_secs_f64 (u64_saturating_sub now started)) (f64_of_Z 1000) in
  let* _ := emit_values [("iterations", Counter, f64_of_Z 1); ("iteration_duration", Trend, elapsed)] tags in
  ret o.

Definition run_on_stop : M unit :=
  let* v := get_vu in
  let* script := get_script in
  match pg_on_stop program, script with
  | Some f, Some s =>
      if negb (Z.eqb (iteration v) 0) && has_function s f
      then call_hook s "on_stop" (Call f [rc_setup_data run]) else ret tt
  | _, _ => ret tt
  end.

(** A task that runs one iteration. *)
Definition iteration_task (l : Local R S) : IO P R S := run_iteration l Done.
End Flow.
