(* ===== verification/FlowSystem.v ===== *)
(** * Runs of iterations (Flow.v)

    Tasks that run iterations over one shared state, in any interleaving, with any answers
    to what they wait for, and with any task dropped at a wait ([tokio] cancellation).
    [safe] is what the code of an iteration is proved to satisfy, statement by statement
    ([triple]); [io_step] is how a task moves; the theorems put the two together. *)

From Stdlib Require Import Ascii FunctionalExtensionality.
From S2P Require Import Prelude Float64 Str Dur Value Template Protocol Metrics Aggregate Federation Pipeline Cookies Extract Conditions Feeds Pacing Vu Program Interp Prepare Flow.

(** ** Steps of a task *)

Section Semantics.
Context {P R S : Type}.
Notation IO := (IO P R S).

(** A step of a task over the shared state, with the call it made on the metrics bus. *)
Inductive io_step : IO -> Shared P -> option (Sink * BusCall) -> IO -> Shared P -> Prop :=
| step_emit sink c k s : io_step (Emit sink c k) s (Some (sink, c)) k (set_world (log_call sink c (sh_world s)) s)
| step_access f k s : io_step (Access f k) s None (k s) (f s)
| step_sleep b d k s : io_step (Sleep b d k) s None k s
| step_execute b p vu jar g k s r jar' : io_step (Execute b p vu jar g k) s None (k r jar') s
| step_rendezvous n t k s b : io_step (Rendezvous n t k) s None (k b) s
| step_fresh k s u : io_step (Fresh k) s None (k u) s
| step_branch pre b post_ k s o b' s' :
    io_step b s o b' s' -> io_step (Par (pre ++ b :: post_) k) s o (Par (pre ++ b' :: post_) k) s'
| step_join results k s :
    io_step (Par ((fun r => Done r.1 r.2) <$> results) k) s None (k results) s.

(** What dropping a suspended task runs; [None] where it is not at a wait it can be dropped at. *)
Fixpoint drops (io : IO) : option (list IO) :=
  match io with
  | Done _ _ | Sleep false _ _ | Rendezvous _ _ _ => Some []
  | Execute false _ _ _ glue _ => Some [glue]
  | Par bs _ =>
      (fix all (bs : list IO) : option (list IO) :=
         match bs with
         | [] => Some []
         | b :: bs => match drops b, all bs with
                      | Some g, Some gs => Some (g ++ gs)
                      | _, _ => None
                      end
         end) bs
  | _ => None
  end.

Inductive Task :=
| Running (io : IO)
| Dropping (glue : list IO).

Record Sys := mkSys {
  sy_shared : Shared P;
  sy_tasks : list Task;
  sy_trace : list (Sink * BusCall);
}.

Inductive task_step : Task -> Shared P -> option (Sink * BusCall) -> Task -> Shared P -> Prop :=
| task_run io s o io' s' : io_step io s o io' s' -> task_step (Running io) s o (Running io') s'
| task_cancel io s gs : drops io = Some gs -> task_step (Running io) s None (Dropping gs) s
| task_drop io gs s o io' s' : io_step io s o io' s' -> task_step (Dropping (io :: gs)) s o (Dropping (io' :: gs)) s'
| task_dropped gs s : task_step (Dropping (Dropped :: gs)) s None (Dropping gs) s.

(** Any task moves, a new iteration starts, or other code changes the shared state. *)
Inductive sys_step (fresh_task : IO -> Prop) : Sys -> Sys -> Prop :=
| sys_task sh pre t post_ tr o t' sh' :
    task_step t sh o t' sh' ->
    sys_step fresh_task (mkSys sh (pre ++ t :: post_) tr) (mkSys sh' (pre ++ t' :: post_) (tr ++ option_list o))
| sys_spawn sh ts tr io : fresh_task io -> sys_step fresh_task (mkSys sh ts tr) (mkSys sh (ts ++ [Running io]) tr)
| sys_elsewhere sh sh' ts tr : sys_step fresh_task (mkSys sh ts tr) (mkSys sh' ts tr).

Definition sys_run (fresh_task : IO -> Prop) : Sys -> Sys -> Prop := rtc (sys_step fresh_task).

(** ** What is proved of the code of an iteration

    [safe d n io Q]: with [n] requests in flight that [io] has announced on the bus, every run of
    [io] announces and retires requests in turn, waits only where a drop retires what it
    announced, ends with none in flight in a state [Q], and gives up only if [d]. *)
Fixpoint safe (d : bool) (n : nat) (io : IO) (Q : IterationOutcome -> Local R S -> Prop) : Prop :=
  match io with
  | Done o l => n = 0%nat /\ Q o l
  | Dropped => n = 0%nat /\ forall o l, ~ Q o l
  | Panic => n = 0%nat
  | NoFuel => n = 0%nat /\ d = true
  | Emit _ BeginRequest k => n = 0%nat /\ safe d 1 k Q
  | Emit _ EndRequest k => n = 1%nat /\ safe d 0 k Q
  | Emit _ _ k => safe d n k Q
  | Access _ k => forall s, safe d n (k s) Q
  | Sleep _ _ k => n = 0%nat /\ safe d 0 k Q
  | Execute true _ _ _ _ k => n = 0%nat /\ forall r jar, safe d 0 (k r jar) Q
  | Execute false _ _ _ g k =>
      n = 1%nat /\ safe d 1 g (fun _ _ => False) /\ forall r jar, safe d 1 (k r jar) Q
  | Rendezvous _ _ k => n = 0%nat /\ forall b, safe d 0 (k b) Q
  | Fresh k => forall u, safe d n (k u) Q
  | Par bs k =>
      (exists ns, n = sum_list ns
        /\ (fix all (bs : list IO) (ns : list nat) : Prop :=
              match bs, ns with
              | [], [] => True
              | b :: bs, m :: ns => safe d m b (fun _ _ => True) /\ all bs ns
              | _, _ => False
              end) bs ns)
      /\ forall results, safe d 0 (k results) Q
  end.

Lemma safe_all_Forall2 d (bs : list IO) (ns : list nat) :
  (fix all (bs : list IO) (ns : list nat) : Prop :=
     match bs, ns with
     | [], [] => True
     | b :: bs, m :: ns => safe d m b (fun _ _ => True) /\ all bs ns
     | _, _ => False
     end) bs ns <-> Forall2 (fun b m => safe d m b (fun _ _ => True)) bs ns.
Proof.
  revert ns. induction bs as [|b bs IH]; intros [|m ns]; cbn.
  - split; [intros; constructor|constructor].
  - split; [done|by inversion 1].
  - split; [done|by inversion 1].
  - rewrite IH. split; [intros []; by constructor|by inversion 1].
Qed.

Lemma safe_Par d n bs k Q :
  safe d n (Par bs k) Q
  <-> (exists ns, n = sum_list ns /\ Forall2 (fun b m => safe d m b (fun _ _ => True)) bs ns)
      /\ forall results, safe d 0 (k results) Q.
Proof.
  cbn [safe]. split; intros ((ns & Hn & Hb) & Hk); (split; [exists ns; split; [exact Hn|]|exact Hk]);
    by apply safe_all_Forall2.
Qed.

(** The change a bus call makes to the requests in flight. *)
Definition call_delta (o : option (Sink * BusCall)) (n n' : nat) : Prop :=
  match o with
  | Some (_, BeginRequest) => n' = (n + 1)%nat
  | Some (_, EndRequest) => n = (n' + 1)%nat
  | _ => n' = n
  end.

Lemma safe_step d io s o io' s' n Q :
  io_step io s o io' s' -> safe d n io Q -> exists n', safe d n' io' Q /\ call_delta o n n'.
Proof.
  intros Hstep. revert n Q. induction Hstep; intros m Q Hsafe.
  - destruct c; cbn in *; try (by exists m); destruct Hsafe as [-> Hk]; by eexists; split; [exact Hk|].
  - exists m. split; [apply Hsafe|done].
  - destruct Hsafe as [-> Hk]. by exists 0%nat.
  - destruct b; cbn in Hsafe.
    + destruct Hsafe as [-> Hk]. exists 0%nat. split; [apply Hk|done].
    + destruct Hsafe as (-> & _ & Hk). exists 1%nat. split; [apply Hk|done].
  - destruct Hsafe as [-> Hk]. exists 0%nat. split; [apply Hk|done].
  - exists m. split; [apply Hsafe|done].
  - apply safe_Par in Hsafe as ((ns & -> & Hns) & Hk).
    apply Forall2_app_inv_l in Hns as (ns1 & ns2 & H1 & H2 & ->).
    apply Forall2_cons_inv_l in H2 as (m & ns2' & Hb & H2 & ->).
    destruct (IHHstep m _ Hb) as (m' & Hb' & Hd).
    exists (sum_list (ns1 ++ m' :: ns2')). split.
    + apply safe_Par. split; [|exact Hk]. exists (ns1 ++ m' :: ns2'). split; [reflexivity|].
      apply Forall2_app; [exact H1|]. by constructor.
    + rewrite !sum_list_with_app. unfold call_delta in *. cbn.
      destruct o as [[? []]|]; lia.
  - apply safe_Par in Hsafe as ((ns & -> & Hns) & Hk). exists 0%nat. split; [apply Hk|]. cbn.
    clear Hk. revert ns Hns. induction results as [|r rs IH]; intros ns Hns; cbn in Hns.
    + by apply Forall2_nil_inv_l in Hns as ->.
    + apply Forall2_cons_inv_l in Hns as (m & ns' & Hr & Hrs & ->). cbn in Hr. destruct Hr as [-> _].
      cbn. by apply IH.
Qed.
End Semantics.

Section Accounting.
Context {P R S : Type}.
Notation IO := (IO P R S).

Lemma IO_ind' (Pr : IO -> Prop)
    (HDone : forall o l, Pr (Done o l)) (HDropped : Pr Dropped) (HPanic : Pr Panic) (HNoFuel : Pr NoFuel)
    (HEmit : forall sink c k, Pr k -> Pr (Emit sink c k))
    (HAccess : forall f k, (forall s, Pr (k s)) -> Pr (Access f k))
    (HSleep : forall b d k, Pr k -> Pr (Sleep b d k))
    (HExecute : forall b p vu jar g k, Pr g -> (forall r jar', Pr (k r jar')) -> Pr (Execute b p vu jar g k))
    (HRendezvous : forall n t k, (forall b, Pr (k b)) -> Pr (Rendezvous n t k))
    (HFresh : forall k, (forall u, Pr (k u)) -> Pr (Fresh k))
    (HPar : forall bs k, Forall Pr bs -> (forall rs, Pr (k rs)) -> Pr (Par bs k)) :
  forall io, Pr io.
Proof.
  fix IH 1. intros [o l| | | |sink c k|f k|b d k|b p vu jar g k|n t k|k|bs k].
  - apply HDone.
  - exact HDropped.
  - exact HPanic.
  - exact HNoFuel.
  - apply HEmit, IH.
  - apply HAccess. intros s. apply IH.
  - apply HSleep, IH.
  - apply HExecute; [apply IH|]. intros r jar'. apply IH.
  - apply HRendezvous. intros b. apply IH.
  - apply HFresh. intros u. apply IH.
  - apply HPar; [|intros rs; apply IH]. induction bs as [|b bs IHbs]; constructor; [apply IH|exact IHbs].
Qed.

Lemma drops_Par (bs : list IO) k gs :
  drops (Par bs k) = Some gs -> exists gss, Forall2 (fun b g => drops b = Some g) bs gss /\ gs = concat gss.
Proof.
  cbn [drops]. revert gs. induction bs as [|b bs IH]; intros gs Hd.
  - injection Hd as <-. by exists [].
  - destruct (drops b) as [g|] eqn:Hb; [|done].
    destruct (_ bs) as [gs'|] eqn:Hbs in Hd; [|done]. injection Hd as <-.
    destruct (IH gs' Hbs) as (gss & Hgss & ->). exists (g :: gss). split; [by constructor|reflexivity].
Qed.

(** Dropping a suspended task leaves one closing act for each of its requests in flight. *)
Lemma safe_drops d (io : IO) : forall n Q gs,
  safe d n io Q -> drops io = Some gs -> n = length gs /\ Forall (fun g => safe d 1 g (fun _ _ => False)) gs.
Proof.
  induction io as [| | | | | |b d' k _|b p vu jar g k _ _|n' t k _| |bs k IHbs _] using IO_ind'; intros n Q gs Hs Hd;
    try discriminate Hd.
  - injection Hd as <-. destruct Hs as [-> _]. by split.
  - destruct b; [discriminate Hd|]. injection Hd as <-. destruct Hs as [-> _]. by split.
  - destruct b; [discriminate Hd|]. injection Hd as <-. destruct Hs as (-> & Hg & _). split; [done|].
    by apply Forall_singleton.
  - injection Hd as <-. destruct Hs as [-> _]. by split.
  - apply drops_Par in Hd as (gss & Hgss & ->). apply safe_Par in Hs as ((ns & -> & Hns) & _).
    revert ns Hns IHbs. induction Hgss as [|b g bs gss Hb _ IH]; intros ns Hns IHbs.
    + apply Forall2_nil_inv_l in Hns as ->. by split.
    + apply Forall2_cons_inv_l in Hns as (m & ns' & Hm & Hns & ->). apply Forall_cons in IHbs as [IHb IHbs].
      destruct (IHb _ _ _ Hm Hb) as [-> Hg]. destruct (IH ns' Hns IHbs) as [Hsum Hgs].
      cbn. rewrite length_app. split; [cbn in Hsum; lia|]. by apply Forall_app.
Qed.

(** A task announced [n] requests that it has not retired. *)
Definition task_owes (d : bool) (t : Task (P := P) (R := R) (S := S)) (n : nat) : Prop :=
  match t with
  | Running io => exists Q, safe d n io Q
  | Dropping gs => exists ns, n = sum_list ns /\ Forall2 (fun g m => safe d m g (fun _ _ => False)) gs ns
  end.

Lemma task_step_owes d t s o t' s' n :
  task_step t s o t' s' -> task_owes d t n -> exists n', task_owes d t' n' /\ call_delta o n n'.
Proof.
  intros [io s1 o1 io' s2 Hstep|io s1 gs Hd|io gs s1 o1 io' s2 Hstep|gs s1]; cbn [task_owes].
  - intros [Q Hs]. destruct (safe_step _ _ _ _ _ _ _ _ Hstep Hs) as (n' & Hs' & Hn). exists n'. by split; [exists Q|].
  - intros [Q Hs]. destruct (safe_drops _ _ _ _ _ Hs Hd) as [-> Hgs]. exists (length gs). split; [|done].
    exists (replicate (length gs) 1%nat). split.
    + clear. induction gs as [|g gs IH]; [done|]. cbn in *. by rewrite <- IH.
    + clear -Hgs. induction Hgs; cbn; by constructor.
  - intros (ns & -> & Hns). apply Forall2_cons_inv_l in Hns as (m & ns' & Hm & Hns & ->).
    destruct (safe_step _ _ _ _ _ _ _ _ Hstep Hm) as (m' & Hm' & Hd).
    exists (sum_list (m' :: ns')). split; [exists (m' :: ns'); split; [done|by constructor]|].
    unfold call_delta in *. cbn. destruct o1 as [[? []]|]; lia.
  - intros (ns & -> & Hns). apply Forall2_cons_inv_l in Hns as (m & ns' & Hm & Hns & ->). cbn in Hm. destruct Hm as [-> _].
    exists (sum_list ns'). split; [by exists ns'|done].
Qed.

Definition delta (c : Sink * BusCall) : Z :=
  match c.2 with BeginRequest => 1 | EndRequest => -1 | _ => 0 end.

Definition sys_ok (d : bool) (y : Sys (P := P) (R := R) (S := S)) : Prop :=
  exists ns, Forall2 (task_owes d) (sy_tasks y) ns /\ Zsum (delta <$> sy_trace y) = Z.of_nat (sum_list ns).

Lemma sys_step_ok d fresh y y' :
  (forall io, fresh io -> exists Q, safe d 0 io Q) -> sys_step fresh y y' -> sys_ok d y -> sys_ok d y'.
Proof.
  intros Hfresh [sh pre t post_ tr o1 t' sh' Hstep|sh ts tr io Hio|sh sh' ts tr]; unfold sys_ok; cbn.
  - intros (ns & Hns & Hsum).
    apply Forall2_app_inv_l in Hns as (ns1 & ns2 & H1 & H2 & ->).
    apply Forall2_cons_inv_l in H2 as (m & ns2' & Ht & H2 & ->).
    destruct (task_step_owes d t sh o1 t' sh' m Hstep Ht) as (m' & Ht' & Hd).
    exists (ns1 ++ m' :: ns2'). split; [apply Forall2_app; [exact H1|by constructor]|].
    assert (Zsum (delta <$> option_list o1) = Z.of_nat m' - Z.of_nat m) as Ho.
    { unfold call_delta in Hd. destruct o1 as [[? []]|]; unfold Zsum, delta; cbn; lia. }
    rewrite fmap_app, Zsum_app, Hsum, Ho, !sum_list_with_app. cbn. lia.
  - intros (ns & Hns & Hsum). exists (ns ++ [0%nat]). split.
    + apply Forall2_app; [exact Hns|]. constructor; [|constructor]. exact (Hfresh io Hio).
    + rewrite Hsum, sum_list_with_app. cbn. lia.
  - done.
Qed.

Lemma sys_run_ok d fresh y y' :
  (forall io, fresh io -> exists Q, safe d 0 io Q) -> sys_run fresh y y' -> sys_ok d y -> sys_ok d y'.
Proof. intros Hf Hrun. induction Hrun as [|y y1 y2 Hs _ IH]; [done|]. intros Hy. apply IH, (sys_step_ok d fresh y y1 Hf Hs Hy). Qed.
End Accounting.

(** ** What follows for runs *)

Section Consequences.
Context {P R S : Type}.
Notation IO := (IO P R S).

(** Runs of one task, whatever the shared state is at each of its steps. *)
Definition io_next (io' io : IO) : Prop := exists s o s', io_step io s o io' s'.
Definition io_run : IO -> IO -> Prop := rtc (fun io io' => io_next io' io).

Lemma safe_run d (io io' : IO) n Q : io_run io io' -> safe d n io Q -> exists n', safe d n' io' Q.
Proof.
  intros Hrun. revert n. induction Hrun as [io|io io1 io' (s & o & s' & Hs) _ IH]; intros n Hsafe; [by exists n|].
  destruct (safe_step _ _ _ _ _ _ _ _ Hs Hsafe) as (n1 & Hsafe1 & _). exact (IH n1 Hsafe1).
Qed.

(** A panic in the task, or in a branch it joins. *)
Inductive panicked : IO -> Prop :=
| panicked_here : panicked Panic
| panicked_branch bs k b : b ∈ bs -> panicked b -> panicked (Par bs k).

Definition stuck (io : IO) : Prop := forall io', ~ io_next io' io.

Lemma all_done (bs : list IO) :
  Forall (fun b => exists o l, b = Done o l) bs -> exists results, bs = (fun r => Done r.1 r.2) <$> results.
Proof.
  induction 1 as [|b bs (o & l & ->) _ (rs & ->)]; [by exists []|]. by exists ((o, l) :: rs).
Qed.

Lemma stuck_branch (pre post_ : list IO) b k : stuck (Par (pre ++ b :: post_) k) -> stuck b.
Proof. intros Hs b' (s & o & s' & Hstep). apply (Hs (Par (pre ++ b' :: post_) k)). exists s, o, s'. by constructor. Qed.

(** Some shared state. *)
Definition shared0 : Shared P :=
  mkShared (mkWorld (mkDataFeeds ∅ ∅ false false) SeqStore_empty (mkMetricRegistry ∅ ∅) [] 0) None ∅ ∅ 0.

Lemma not_stuck (io io' : IO) o s' : io_step io shared0 o io' s' -> ~ stuck io.
Proof. intros Hs Hstuck. apply (Hstuck io'). by exists shared0, o, s'. Qed.

Lemma stuck_done_or_panicked (bs : list IO) k :
  stuck (Par bs k) -> Forall (fun b => stuck b -> (exists o l, b = Done o l) \/ panicked b) bs ->
  Forall (fun b => exists o l, b = Done o l) bs \/ panicked (Par bs k).
Proof.
  intros Hstuck Hbs.
  assert (Forall (fun b => (exists o l, b = Done o l) \/ panicked b) bs) as Hall.
  { rewrite Forall_forall in Hbs |- *. intros b Hin. apply (Hbs b Hin).
    apply list_elem_of_split in Hin as (pre & post_ & ->). exact (stuck_branch _ _ _ _ Hstuck). }
  assert (Forall (fun b => exists o l, b = Done o l) bs \/ Exists panicked bs) as [Hd|Hp]; [|by left|].
  { clear -Hall. induction Hall as [|b bs [Hb|Hb] _ [IH|IH]].
    - left. constructor.
    - left. by constructor.
    - right. by constructor 2.
    - right. by constructor.
    - right. by constructor. }
  right. apply Exists_exists in Hp as (b & Hin & Hb). exact (panicked_branch bs k b Hin Hb).
Qed.

Lemma safe_stuck (io : IO) : forall n Q,
  safe false n io Q -> (exists o l, Q o l) -> stuck io -> (exists o l, io = Done o l) \/ panicked io.
Proof.
  induction io as [o l| | | |sink c k _|f k _|b d' k _|b p vu jar g k _ _|n' t k _|k _|bs k IHbs _] using IO_ind';
    intros n Q Hsafe [o0 [l0 HQ]] Hstuck.
  - left. eauto.
  - destruct Hsafe as [_ Hno]. by destruct (Hno o0 l0).
  - right. constructor.
  - by destruct Hsafe.
  - by destruct (not_stuck _ _ _ _ (step_emit sink c k shared0)).
  - by destruct (not_stuck _ _ _ _ (step_access f k shared0)).
  - by destruct (not_stuck _ _ _ _ (step_sleep b d' k shared0)).
  - by destruct (not_stuck _ _ _ _ (step_execute b p vu jar g k shared0 (Err "") jar)).
  - by destruct (not_stuck _ _ _ _ (step_rendezvous n' t k shared0 true)).
  - by destruct (not_stuck _ _ _ _ (step_fresh k shared0 "")).
  - apply safe_Par in Hsafe as ((ns & -> & Hns) & _).
    destruct (stuck_done_or_panicked bs k Hstuck) as [Hd|Hp]; [|exfalso|by right].
    + clear Hstuck. revert ns Hns. induction IHbs as [|b bs Hb _ IH]; intros ns Hns; [constructor|].
      apply Forall2_cons_inv_l in Hns as (m & ns' & Hm & Hns & ->). constructor; [|exact (IH ns' Hns)].
      intros Hs. apply (Hb m _ Hm); [by exists o0, l0|exact Hs].
    + apply all_done in Hd as [results ->]. by destruct (not_stuck _ _ _ _ (step_join results k shared0)).
Qed.

(** ** Every schedule of a task is finite *)

(** One of several tasks moves. *)
Definition some_next (v' v : list IO) : Prop :=
  exists pre b b' post_, v = pre ++ b :: post_ /\ v' = pre ++ b' :: post_ /\ io_next b' b.

Lemma Acc_cons (b : IO) : Acc io_next b -> forall v, Acc some_next v -> Acc some_next (b :: v).
Proof.
  induction 1 as [b _ IHb]. induction 1 as [v Hv IHv]. constructor.
  intros v' (pre & c & c' & post_ & Heq & -> & Hnext). destruct pre as [|b0 pre]; cbn in Heq; simplify_eq.
  - apply IHb; [exact Hnext|]. by constructor.
  - apply IHv. by exists pre, c, c', post_.
Qed.

Lemma Acc_some (v : list IO) : Forall (Acc io_next) v -> Acc some_next v.
Proof.
  induction 1 as [|b v Hb _ IH]; [|by apply Acc_cons]. constructor. intros v' (pre & c & c' & post_ & Heq & _).
  by destruct pre.
Qed.

Lemma Acc_Par (k : list (IterationOutcome * Local R S) -> IO) (bs : list IO) :
  (forall rs, Acc io_next (k rs)) -> Acc some_next bs -> Acc io_next (Par bs k).
Proof.
  intros Hk. induction 1 as [bs _ IH]. constructor. intros io' (s & o & s' & Hstep). inversion Hstep; subst.
  - apply IH. exists pre, b, b', post_. repeat split. by exists s, o, s'.
  - apply Hk.
Qed.

Lemma io_Acc (io : IO) : Acc io_next io.
Proof.
  induction io as [o l| | | |sink c k IH|f k IH|b d' k IH|b p vu jar g k _ IH|n' t k IH|k IH|bs k IHbs IH] using IO_ind';
    try (constructor; intros io' (s & o' & s' & Hstep); inversion Hstep; subst; first [exact IH|apply IH]).
  apply Acc_Par; [exact IH|]. by apply Acc_some.
Qed.
End Consequences.
