(* ===== verification/FlowSafe.v ===== *)
(** * The code of an iteration is safe (Flow.v against FlowSystem.v)

    [keeps n n' m]: started with [n] requests in flight, the statement [m] ends with [n'] of
    them, and on every path keeps who the virtual user is ([same]): its number, scenario,
    iteration, tags and sink, and, when it has no script engine, its group stack. *)

From Stdlib Require Import Ascii.
From S2P Require Import Prelude Float64 Str Dur Value Template Protocol Metrics Aggregate Federation Pipeline Cookies Extract Conditions Feeds Pacing Vu Program Interp Prepare Flow FlowSystem.

(** The identity of a virtual user. *)
Record vu_ident {R : Type} (v v' : VuContext R) : Prop := mkIdent {
  id_num : vu_id v' = vu_id v;
  id_scen : scenario v' = scenario v;
  id_iter : iteration v' = iteration v;
  id_base : base_tags v' = base_tags v;
  id_cached : base_cached_tags v' = base_cached_tags v;
  id_sink : metrics v' = metrics v;
}.

#[export] Instance vu_ident_preorder {R : Type} : PreOrder (@vu_ident R).
Proof. split; [by constructor|]. intros v1 v2 v3 [] []. constructor; congruence. Qed.

(** The identity and the group stack. *)
Definition vu_same {R : Type} (v v' : VuContext R) : Prop := vu_ident v v' /\ groups v' = groups v.

Section Keeps.
Context {P R S : Type}.
Notation M := (M P R S).
Notation Local := (Local R S).
Context (d : bool).

(** [b]: does the task hold a script engine? *)
Record same (v : VuContext R) (b : bool) (l : Local) : Prop := mkSame {
  sm_ident : vu_ident v (l_vu l);
  sm_script : b = bool_decide (is_Some (l_script l));
  sm_groups : b = false -> groups (l_vu l) = groups v;
}.

Definition keeps {A : Type} (n n' : nat) (m : M A) : Prop :=
  forall v b l k Q, same v b l -> (forall a l', same v b l' -> safe d n' (k a l') Q) -> safe d n (m l k) Q.

(** The same where the task is known to hold a script engine. *)
Definition keeps_scripted {A : Type} (n : nat) (m : M A) : Prop :=
  forall v l k Q, same v true l -> (forall a l', same v true l' -> safe d n (k a l') Q) -> safe d n (m l k) Q.

Lemma keeps_keeps_scripted {A} n (m : M A) : keeps n n m -> keeps_scripted n m.
Proof. intros Hm v l k Q. apply Hm. Qed.

Lemma keeps_ret {A} n (a : A) : keeps n n (ret a).
Proof. intros v b l k Q Hl Hk. by apply Hk. Qed.

Lemma keeps_bind {A B} n n' n'' (m : M A) (f : A -> M B) :
  keeps n n' m -> (forall a, keeps n' n'' (f a)) -> keeps n n'' (bind m f).
Proof. intros Hm Hf v b l k Q Hl Hk. eapply Hm; [exact Hl|]. intros a l' Hl'. by eapply Hf. Qed.

Lemma keeps_bind_ok {E A B} n (m : M (result E A)) (f : A -> M (result E B)) :
  keeps n n m -> (forall a, keeps n n (f a)) -> keeps n n (bind_ok m f).
Proof. intros Hm Hf. eapply keeps_bind; [exact Hm|]. intros [a|e]; [apply Hf|apply keeps_ret]. Qed.

Lemma keeps_get_vu n : keeps n n get_vu.
Proof. intros v b l k Q Hl Hk. by apply Hk. Qed.

Lemma keeps_modify n f : (forall v, vu_same v (f v)) -> keeps n n (modify_vu f).
Proof.
  intros Hf v b l k Q [Hi Hs Hg] Hk. apply Hk. destruct (Hf (l_vu l)) as [Hf1 Hf2]. constructor; cbn.
  - by etrans.
  - exact Hs.
  - intros Hb. by rewrite Hf2, Hg.
Qed.

Lemma keeps_put_script n (s : S) : keeps_scripted n (put_script (Some s)).
Proof. intros v l k Q [Hi Hs Hg] Hk. apply Hk. by constructor. Qed.

Lemma keeps_access {A} n (f : Shared P -> A * Shared P) : keeps n n (access f).
Proof. intros v b l k Q Hl Hk s. by apply Hk. Qed.

Lemma keeps_on_world {A} n (f : VuContext R -> World P -> may_panic (A * VuContext R * World P)) :
  (forall v w, match f v w with Some (_, v', _) => vu_same v v' | None => n = 0%nat end) -> keeps n n (on_world f).
Proof.
  intros Hf v b l k Q Hl Hk s. specialize (Hf (l_vu l) (sh_world s)).
  destruct (f (l_vu l) (sh_world s)) as [[[a v'] w']|]; [|exact Hf].
  destruct Hl as [Hi Hs Hg], Hf as [Hf1 Hf2]. apply Hk. constructor; cbn; [by etrans|exact Hs|].
  intros Hb. by rewrite Hf2, Hg.
Qed.

Lemma keeps_draw {A} n (f : R -> A * R) : keeps n n (draw f).
Proof.
  intros v b l k Q [[] Hs Hg] Hk. unfold draw. destruct (f (rng (l_vu l))) as [a r]. apply Hk.
  constructor; [by constructor|exact Hs|exact Hg].
Qed.

Lemma keeps_draw_or_panic {A} (f : R -> may_panic (A * R)) : keeps 0 0 (draw_or_panic f).
Proof.
  intros v b l k Q [[] Hs Hg] Hk. unfold draw_or_panic. destruct (f (rng (l_vu l))) as [[a r]|]; [|done]. apply Hk.
  constructor; [by constructor|exact Hs|exact Hg].
Qed.

Lemma keeps_or_panic {A} (o : may_panic A) : keeps 0 0 (or_panic o).
Proof. destruct o; [apply keeps_ret|]. by intros v b l k Q Hl Hk. Qed.

Lemma keeps_panic {A} : keeps (A := A) 0 0 panic.
Proof. by intros v b l k Q Hl Hk. Qed.

Lemma keeps_sleep dur : keeps 0 0 (sleep dur).
Proof. intros v b l k Q Hl Hk. split; [reflexivity|]. by apply Hk. Qed.

Lemma keeps_fresh_uuid n : keeps n n fresh_uuid.
Proof. intros v b l k Q Hl Hk u. by apply Hk. Qed.

Lemma keeps_emit_value n metric kind value tags : keeps n n (emit_call (EmitValue metric kind value tags)).
Proof. intros v b l k Q Hl Hk. by apply Hk. Qed.

Lemma keeps_emit_cached n values tags : keeps n n (emit_call (EmitCached values tags)).
Proof. intros v b l k Q Hl Hk. by apply Hk. Qed.

Lemma keeps_begin : keeps 0 1 (emit_call BeginRequest).
Proof. intros v b l k Q Hl Hk. split; [reflexivity|]. by apply Hk. Qed.

Lemma keeps_end : keeps 1 0 (emit_call EndRequest).
Proof. intros v b l k Q Hl Hk. split; [reflexivity|]. by apply Hk. Qed.

Lemma keeps_each {A B} n (f : A -> M B) (l : list A) : (forall a, keeps n n (f a)) -> keeps n n (each f l).
Proof.
  intros Hf. induction l as [|x l IH]; [apply keeps_ret|]. eapply keeps_bind; [apply Hf|]. intros y.
  eapply keeps_bind; [exact IH|]. intros ys. apply keeps_ret.
Qed.

Lemma keeps_try_each {E A B} n (f : A -> M (result E B)) (l : list A) :
  (forall a, keeps n n (f a)) -> keeps n n (try_each f l).
Proof.
  intros Hf. induction l as [|x l IH]; [apply keeps_ret|]. eapply keeps_bind_ok; [apply Hf|]. intros y.
  eapply keeps_bind_ok; [exact IH|]. intros ys. apply keeps_ret.
Qed.

Lemma keeps_try_map {A B} n (f : A -> M (result PrepareError B)) (l : list A) :
  Forall (fun a => keeps n n (f a)) l -> keeps n n (try_map f l).
Proof.
  induction 1 as [|x l Hx _ IH]; [apply keeps_ret|]. eapply keeps_bind_ok; [exact Hx|]. intros y.
  eapply keeps_bind_ok; [exact IH|]. intros ys. apply keeps_ret.
Qed.

Lemma keeps_try_map_all {A B} n (f : A -> M (result PrepareError B)) (l : list A) :
  (forall a, keeps n n (f a)) -> keeps n n (try_map f l).
Proof. intros Hf. apply keeps_try_map. by apply Forall_true. Qed.

(** Code that looks at the script engine of the task. *)
Lemma keeps_with_script {A} n (f : option S -> M A) :
  keeps n n (f None) -> (forall s, keeps_scripted n (f (Some s))) -> keeps n n (bind get_script f).
Proof.
  intros HNone HSome v b l k Q Hl Hk. unfold bind, get_script. destruct (l_script l) as [s|] eqn:Hs.
  - assert (b = true) as ->.
    { destruct Hl as [_ -> _]. rewrite Hs. by apply bool_decide_eq_true. }
    by eapply HSome.
  - by eapply HNone.
Qed.

Lemma keeps_scripted_bind {A B} n (m : M A) (f : A -> M B) :
  keeps_scripted n m -> (forall a, keeps_scripted n (f a)) -> keeps_scripted n (bind m f).
Proof. intros Hm Hf v l k Q Hl Hk. eapply Hm; [exact Hl|]. intros a l' Hl'. by eapply Hf. Qed.

Lemma keeps_scripted_modify n f : (forall v, vu_ident v (f v)) -> keeps_scripted n (modify_vu f).
Proof.
  intros Hf v l k Q [Hi Hs Hg] Hk. apply Hk. constructor; cbn; [by etrans; [exact Hi|apply Hf]|exact Hs|done].
Qed.
End Keeps.

Create HintDb flow.
#[export] Hint Resolve keeps_ret keeps_get_vu keeps_access keeps_draw keeps_draw_or_panic keeps_or_panic keeps_panic
  keeps_sleep keeps_fresh_uuid keeps_emit_value keeps_emit_cached : flow.

(** Take a statement apart along its structure. *)
Ltac keep :=
  repeat (intros;
    match goal with
    | |- keeps _ _ _ (bind_ok _ _) => apply keeps_bind_ok
    | |- keeps _ ?n ?n (bind _ _) => apply (keeps_bind _ n n n)
    | |- keeps _ _ _ (match ?x with _ => _ end) => destruct x
    | |- keeps _ _ _ (modify_vu _) => apply keeps_modify; by intros ?; split; [constructor|]
    | |- keeps _ _ _ (try_map _ _) => apply keeps_try_map_all
    | |- keeps _ _ _ (each _ _) => apply keeps_each
    | _ => solve [eauto 3 with flow]
    end).

(** ** Virtual users *)

Section VuFacts.
Context {P : Type} `{!DataSourcePlugin P} {R : Type} `{!Rng R}.

Lemma data_row_same (source : string) (v : VuContext R) (w : World P) :
  match data_row source v w with Some (_, v', _) => vu_same v v' | None => True end.
Proof.
  unfold data_row. destruct (current_rows v !! source); [by repeat split|].
  destruct (next_row _ _ _ _) as [[[row|e] env]|]; [..|done]; by repeat split.
Qed.

Lemma resolve_expr_same `{JsonText} run (expr : string) (v : VuContext R) (w : World P) :
  match resolve_expr run expr v w with Some (_, v', _) => vu_same v v' | None => True end.
Proof.
  unfold resolve_expr. repeat case_match; simplify_eq/=; try done; try (by repeat split);
    match goal with Hd : data_row ?s v w = _ |- _ => pose proof (data_row_same s v w) as Hs; by rewrite Hd in Hs end.
Qed.

Lemma cached_sample_tags_same (hash_tags : Tags -> Z) extras (v : VuContext R) (w : World P) :
  vu_same v (cached_sample_tags hash_tags extras v w).1.2.
Proof.
  unfold cached_sample_tags.
  destruct extras, (groups v) eqn:?; try (by repeat split);
    (destruct (List.find _ _); [by repeat split|]; destruct (intern_tags _ _ _); by repeat split).
Qed.
End VuFacts.

(** ** The bridge and the preparation of requests *)

Section Code.
Context {P : Type} `{!DataSourcePlugin P} {R : Type} `{!Rng R} {S : Type} `{!VuScript S}.
Context `{JsonText, TextTools}.
Notation M := (M P R S).
Context (hash_tags : Tags -> Z) (url_parse : string -> option Url).
Context (canonicalize : string -> result string (list string)) (read_canonical : list string -> result string string).
Context (run : RunContext) (http : HttpDefaults) (registered : string -> bool).
Context (os_env : string -> option string) (generate_str : string -> result string string).
Context (d : bool).
Notation keeps := (keeps (P := P) (R := R) (S := S) d).
Notation keeps_scripted := (keeps_scripted (P := P) (R := R) (S := S) d).
Notation script_call := (run_script url_parse canonicalize read_canonical run http registered).

Lemma keeps_sample_tags_now n extras : keeps n n (sample_tags_now extras).
Proof. unfold sample_tags_now. keep. Qed.

Lemma keeps_cached_tags_now n extras : keeps n n (cached_tags_now hash_tags extras).
Proof.
  apply keeps_on_world. intros v w. pose proof (cached_sample_tags_same hash_tags extras v w) as Hs.
  by destruct (cached_sample_tags hash_tags extras v w) as [[? ?] ?].
Qed.

Lemma keeps_emit_rate n metric pass tags : keeps n n (emit_rate metric pass tags).
Proof. apply keeps_emit_value. Qed.
Lemma keeps_emit_counter n metric value tags : keeps n n (emit_counter metric value tags).
Proof. apply keeps_emit_value. Qed.
Lemma keeps_emit_trend n metric value tags : keeps n n (emit_trend metric value tags).
Proof. apply keeps_emit_value. Qed.
Hint Resolve keeps_sample_tags_now keeps_cached_tags_now keeps_emit_rate keeps_emit_counter keeps_emit_trend : flow.

Lemma keeps_data_row source : keeps 0 0 (on_world (data_row source)).
Proof.
  apply keeps_on_world. intros v w. pose proof (data_row_same source v w) as Hs.
  by destruct (data_row source v w) as [[[? ?] ?]|].
Qed.
Hint Resolve keeps_data_row : flow.

Lemma keeps_execute_blocking p : keeps 0 0 (execute true p (fun _ => Dropped)).
Proof.
  intros v b l k Q [[] Hs Hg] Hk. split; [reflexivity|]. intros r jar. apply Hk.
  constructor; [by constructor|exact Hs|exact Hg].
Qed.
Hint Resolve keeps_execute_blocking : flow.

Lemma keeps_host_http_request req : keeps 0 0 (host_http_request http registered req).
Proof. unfold host_http_request, emit_http_metrics. keep. Qed.

Lemma keeps_host_sleep seconds : keeps 0 0 (host_sleep seconds).
Proof.
  unfold host_sleep. keep. intros dur v b l k Q Hl Hk. split; [reflexivity|]. by apply Hk.
Qed.

Lemma keeps_host_metric_add metric kind value tags : keeps 0 0 (host_metric_add metric kind value tags).
Proof. unfold host_metric_add. keep. Qed.

Lemma keeps_run_host {A : Type} (p : Script A) :
  keeps_scripted 0 (run_host url_parse canonicalize read_canonical run http registered p).
Proof.
  induction p; cbn [run_host].
  - apply keeps_keeps_scripted, keeps_ret.
  - apply keeps_scripted_bind; [|done]. apply keeps_keeps_scripted, keeps_host_http_request.
  - apply keeps_scripted_bind; [|done]. apply keeps_keeps_scripted, keeps_host_sleep.
  - apply keeps_scripted_bind; [|done]. apply keeps_keeps_scripted. unfold host_check. keep.
  - apply keeps_scripted_bind; [|done]. apply keeps_keeps_scripted, keeps_host_metric_add.
  - apply keeps_scripted_bind; [|done]. apply keeps_scripted_modify. by constructor.
  - apply keeps_scripted_bind; [|done]. apply keeps_scripted_modify. by constructor.
  - done.
  - done.
  - done.
  - apply keeps_scripted_bind; [|done]. apply keeps_keeps_scripted, keeps_get_vu.
  - apply keeps_scripted_bind; [|done]. apply keeps_scripted_modify. by constructor.
  - apply keeps_scripted_bind; [|done]. apply keeps_keeps_scripted, keeps_get_vu.
  - apply keeps_scripted_bind; [|done]. apply keeps_scripted_modify.
    intros v. unfold host_cookie_set. case_match; by constructor.
  - apply keeps_scripted_bind; [|done]. apply keeps_scripted_modify. by constructor.
  - apply keeps_scripted_bind; [|done]. apply keeps_keeps_scripted, keeps_get_vu.
  - apply keeps_scripted_bind; [|done]. apply keeps_keeps_scripted. unfold host_data_row. keep.
Qed.

Lemma keeps_run_script (s : S) i : keeps_scripted 0 (script_call s i).
Proof.
  unfold run_script. apply keeps_scripted_bind; [apply keeps_run_host|]. intros r.
  apply keeps_scripted_bind; [apply keeps_put_script|]. intros _. apply keeps_keeps_scripted, keeps_ret.
Qed.

Notation render_template_now :=
  (render_template url_parse canonicalize read_canonical run http registered os_env generate_str).

Lemma keeps_render_template t : keeps 0 0 (render_template_now t).
Proof.
  unfold render_template. apply keeps_bind_ok; [|keep]. apply keeps_try_each. intros [l|expr]; cbn [render_part]; [keep|].
  case_match; [keep|]. case_match.
  - unfold eval_js. apply keeps_with_script; [apply keeps_ret|]. intros sc.
    apply keeps_scripted_bind; [apply keeps_run_script|]. intros r. apply keeps_keeps_scripted, keeps_ret.
  - unfold resolve_reference. apply (keeps_bind _ 0 0 0); [|keep].
    apply keeps_on_world. intros v w. pose proof (resolve_expr_same run expr v w) as Hs.
    by destruct (resolve_expr run expr v w) as [[[? ?] ?]|].
Qed.
Hint Resolve keeps_render_template : flow.

Lemma keeps_render_str s :
  keeps 0 0 (render_str url_parse canonicalize read_canonical run http registered os_env generate_str s).
Proof. unfold render_str. keep. Qed.
Hint Resolve keeps_render_str : flow.

Lemma keeps_render_json v :
  keeps 0 0 (render_json url_parse canonicalize read_canonical run http registered os_env generate_str v).
Proof.
  induction v as [| | | |items IH|m IH] using Value_ind'; cbn [render_json]; try (by keep).
  - apply keeps_bind_ok; [by apply keeps_try_map|keep].
  - apply keeps_bind_ok; [|keep]. apply keeps_try_map. eapply Forall_impl; [exact IH|]. intros [k v] Hv. keep.
Qed.
Hint Resolve keeps_render_json : flow.

Lemma CompiledJson_ind' (Pr : CompiledJson -> Prop)
    (HL : forall v, Pr (CjLiteral v)) (HS : forall t, Pr (CjString t)) (HP : forall t, Pr (CjSplice t))
    (HA : forall items, Forall Pr items -> Pr (CjArray items))
    (HO : forall fields, Forall (fun kv => Pr kv.2) fields -> Pr (CjObject fields)) : forall j, Pr j.
Proof.
  fix IH 1. intros [v|t|t|items|fields]; [apply HL|apply HS|apply HP|apply HA|apply HO].
  - induction items as [|j items IHi]; constructor; [apply IH|exact IHi].
  - induction fields as [|[k j] fields IHf]; constructor; [apply IH|exact IHf].
Qed.

Lemma keeps_render_compiled j :
  keeps 0 0 (render_compiled url_parse canonicalize read_canonical run http registered os_env generate_str j).
Proof.
  induction j as [| | |items IH|fields IH] using CompiledJson_ind'; cbn [render_compiled]; try (by keep).
  - apply keeps_bind_ok; [by apply keeps_try_map|keep].
  - apply keeps_bind_ok; [|keep]. apply keeps_try_map. eapply Forall_impl; [exact IH|]. intros [k v] Hv. keep.
Qed.
Hint Resolve keeps_render_compiled : flow.

Lemma keeps_begin_message n : keeps n n (on_world (fun v w => Some (tt, begin_message w v, w))).
Proof. apply keeps_on_world. intros v w. unfold begin_message. case_match; by repeat split. Qed.
Hint Resolve keeps_begin_message : flow.

Lemma keeps_render_frames first values :
  keeps 0 0 (render_frames url_parse canonicalize read_canonical run http registered os_env generate_str first values).
Proof. revert first. induction values as [|j values IH]; intros first; cbn [render_frames]; keep. Qed.
Hint Resolve keeps_render_frames : flow.

Lemma keeps_prepare_opt {A B : Type} (f : A -> M (result PrepareError B)) (o : option A) :
  (forall a, keeps 0 0 (f a)) -> keeps 0 0 (prepare_opt f o).
Proof. intros Hf. unfold prepare_opt. keep. Qed.

Lemma keeps_prepare_grpc req g :
  keeps 0 0 (prepare_grpc url_parse canonicalize read_canonical run http registered os_env generate_str req g).
Proof.
  unfold prepare_grpc. apply keeps_bind_ok; [keep|]. intros messages.
  apply keeps_bind_ok; [keep|]. intros metadata. apply keeps_bind_ok; [keep|]. intros message. cbv zeta.
  apply keeps_with_script; [keep|]. intros s. apply keeps_keeps_scripted. keep.
Qed.

Lemma keeps_prepare req :
  keeps 0 0 (prepare url_parse canonicalize read_canonical run http registered os_env generate_str req).
Proof.
  unfold prepare, prepare_url, prepare_headers, prepare_body, encode_pairs, prepare_plugin.
  apply keeps_bind_ok; [keep|]. intros url. apply keeps_bind_ok; [keep|]. intros headers.
  apply keeps_bind_ok; [keep; unfold multipart_part; keep|]. intros body. cbv zeta.
  apply keeps_bind_ok; [apply keeps_prepare_opt; intros ws; unfold prepare_ws, prepare_frame; keep|]. intros ws.
  apply keeps_bind_ok; [apply keeps_prepare_opt, keeps_prepare_grpc|]. intros grpc.
  apply keeps_bind_ok; [apply keeps_prepare_opt; intros so; unfold prepare_socket; keep|]. intros socket.
  apply keeps_bind_ok; [|keep]. apply keeps_bind_ok; [|keep].
  apply keeps_prepare_opt. intros q. unfold prepare_sql. keep.
Qed.
End Code.

#[export] Hint Resolve keeps_sample_tags_now keeps_cached_tags_now keeps_emit_rate keeps_emit_counter keeps_emit_trend
  keeps_render_template keeps_render_str keeps_prepare : flow.

(** ** Programs whose loops end by themselves *)

Section Ends.
Context `{TextTools}.

(** Not a boundary between two empty markers. *)
Definition extractor_ends (x : CompiledExtractor) : bool :=
  match x with
  | CxClassic (ClBoundary _ lft rgt _ _) => negb (str_is_empty lft && str_is_empty rgt)
  | CxChain c => match ch_source c with
                 | ChBoundary lft rgt => negb (str_is_empty lft && str_is_empty rgt)
                 | _ => true
                 end
  | _ => true
  end.

(** No [during] loop, and extractors that end. *)
Fixpoint step_ends (s : CompiledStep) : bool :=
  match s with
  | CsRequest r => forallb extractor_ends (cr_extract r)
  | CsGroup _ steps | CsRepeat _ _ steps | CsWhile _ _ steps | CsForeach _ _ _ steps | CsRetry _ _ _ steps =>
      forallb step_ends steps
  | CsIf _ then_ otherwise => forallb step_ends then_ && forallb step_ends otherwise
  | CsRandom _ choices _ => forallb (fun c => forallb step_ends c.2) choices
  | CsSwitch _ cases dflt => forallb (fun c => forallb step_ends c.2) cases && forallb step_ends dflt
  | CsParallel branches => forallb (forallb step_ends) branches
  | CsDuring _ _ _ => false
  | CsThinkTime _ | CsJs _ _ | CsRendezvous _ _ _ => true
  end.

Context `{JsonText} {R : Type} `{!Rng R}.

Lemma boundary_ends (lft rgt text : string) fuel :
  negb (str_is_empty lft && str_is_empty rgt) = true -> (length (chars text) < fuel)%nat ->
  is_Some (boundary_matches fuel text lft rgt).
Proof.
  intros Hne Hfuel. destruct (boundary_loop_ends (chars text) (chars lft) (chars rgt) fuel 0 []) as (all & Hall & _).
  - unfold str_is_empty in Hne.
    destruct lft, rgt; cbn [chars String.list_ascii_of_string length]; try lia. by rewrite !bool_decide_eq_true_2 in Hne.
  - lia.
  - lia.
  - constructor.
  - by exists all.
Qed.

Lemma extract_ends (x : CompiledExtractor) (response : ProtocolResponse) (r : R) fuel :
  extractor_ends x = true -> (length (chars (body_text response)) < fuel)%nat ->
  is_Some (extract fuel x response r).
Proof.
  intros Hx Hfuel. destruct x as [c|c]; cbn [extract].
  - unfold classic_extract.
    assert (is_Some (classic_result fuel c response r)) as [[[v|e] g] ->]; [|by destruct v; eauto|by eauto].
    destruct c; cbn [classic_result]; try (by eexists); try (by destruct (pick _ _ _); eexists).
    destruct (boundary_ends left right (body_text response) fuel Hx Hfuel) as [all ->].
    by destruct (pick _ _ _); eexists.
  - unfold chain_extract. apply fmap_is_Some. unfold extract_raw. cbn [extractor_ends] in Hx.
    destruct (ch_source c); try (by eexists).
    destruct (boundary_ends left right (body_text response) fuel Hx Hfuel) as [all ->]. by eexists.
Qed.
End Ends.

(** ** The flow runner *)

Section FlowCode.
Context {P : Type} `{!DataSourcePlugin P} {R : Type} `{!Rng R} {S : Type} `{!VuScript S}.
Context `{JsonText, TextTools, ConditionText}.
Notation M := (M P R S).
Context (hash_tags : Tags -> Z) (seed_from_u64 : Z -> R) (url_parse : string -> option Url).
Context (canonicalize : string -> result string (list string)) (read_canonical : list string -> result string string).
Context (run : RunContext) (registered : string -> bool).
Context (os_env : string -> option string) (generate_str : string -> result string string).
Context (payload_text : ResultPayload -> option string) (during_fuel : nat) (program : ScenarioProgram).
Context (d : bool).
Notation keeps := (keeps (P := P) (R := R) (S := S) d).
Notation http := (pg_http program).
Notation script_call := (run_script url_parse canonicalize read_canonical run http registered).

Lemma keeps_note_fault n kind : keeps n n (note_fault kind).
Proof. unfold note_fault. keep. Qed.
Lemma keeps_record_exception n site message : keeps n n (record_exception site message).
Proof. unfold record_exception. keep. Qed.
Lemma keeps_emit_values n values tags : keeps n n (emit_values values tags).
Proof. apply keeps_emit_cached. Qed.
Hint Resolve keeps_note_fault keeps_record_exception keeps_emit_values : flow.

Lemma keeps_emit_request_metrics n p r tags : keeps n n (emit_request_metrics p r tags).
Proof. unfold emit_request_metrics, emit_extra, emit_named. cbv zeta. keep. Qed.
Hint Resolve keeps_emit_request_metrics : flow.

Lemma keeps_record_completed p r : keeps 1 0 (record_completed hash_tags p r).
Proof.
  unfold record_completed. apply (keeps_bind _ 1 1 0); [keep|]. intros tags.
  apply (keeps_bind _ 1 1 0); [keep|]. intros _. apply keeps_end.
Qed.

Lemma safe_guard_drop p started (l : Local R S) : safe d 1 (guard_drop (P := P) hash_tags p started l) (fun _ _ => False).
Proof.
  unfold guard_drop.
  set (m := bind clock _).
  assert (keeps 1 0 m) as Hm.
  { unfold m. apply (keeps_bind _ 1 1 0); [unfold clock; keep|]. intros now. cbv zeta.
    apply (keeps_bind _ 1 1 0).
    - apply keeps_on_world. intros v w. by destruct (intern_tags _ _ _).
    - intros tags. apply (keeps_bind _ 1 1 0); [keep|]. intros _. apply keeps_end. }
  apply (Hm (l_vu l) (bool_decide (is_Some (l_script l)))); [by constructor|]. intros. split; [reflexivity|]. by intros ? ? [].
Qed.

Lemma keeps_exchange p df dbs started : keeps 1 1 (exchange hash_tags p df dbs started).
Proof.
  unfold exchange. destruct dbs; [keep|]. apply (keeps_bind _ 1 1 1); [|keep].
  intros v b l k Q [[] Hs Hg] Hk. split; [reflexivity|]. split; [apply safe_guard_drop|]. intros r jar. apply Hk.
  constructor; [by constructor|exact Hs|exact Hg].
Qed.

Lemma keeps_script_hook (f : option S -> M unit) :
  f None = ret tt -> (forall s, keeps_scripted d 0 (f (Some s))) -> keeps 0 0 (bind get_script f).
Proof. intros Hf. apply keeps_with_script. rewrite Hf. apply keeps_ret. Qed.

Lemma keeps_scripted_call (s : S) i (f : result string Value -> M unit) :
  (forall r, keeps 0 0 (f r)) -> keeps_scripted d 0 (bind (script_call s i) f).
Proof.
  intros Hf. apply keeps_scripted_bind; [apply keeps_run_script|]. intros r. apply keeps_keeps_scripted, Hf.
Qed.

Lemma keeps_before_request p :
  keeps 0 0 (before_request url_parse canonicalize read_canonical run registered program p).
Proof.
  unfold before_request. apply keeps_with_script; [keep|]. intros s. case_match; [|apply keeps_keeps_scripted; keep].
  apply keeps_scripted_bind; [apply keeps_run_script|]. intros r. apply keeps_keeps_scripted. keep.
Qed.

Lemma keeps_after_request r :
  keeps 0 0 (after_request url_parse canonicalize read_canonical run registered program r).
Proof.
  unfold after_request. apply keeps_script_hook; [done|]. intros s. case_match; [|apply keeps_keeps_scripted; keep].
  apply keeps_scripted_call. keep.
Qed.

Lemma keeps_call_hook s site i :
  keeps_scripted d 0 (call_hook url_parse canonicalize read_canonical run registered program s site i).
Proof. apply keeps_scripted_call. keep. Qed.

Lemma keeps_emit_check n name pass : keeps n n (emit_check hash_tags name pass).
Proof. unfold emit_check. keep. Qed.
Hint Resolve keeps_emit_check : flow.

Lemma keeps_set_var n k x : keeps n n (modify_vu (set_var k x)).
Proof. apply keeps_modify. by split; [constructor|]. Qed.
Hint Resolve keeps_set_var : flow.

Lemma keeps_run_extractor p response x st :
  d = true \/ extractor_ends x = true -> keeps 0 0 (run_extractor hash_tags p response x st).
Proof.
  intros Hx v b l k Q Hl Hk. unfold run_extractor.
  destruct (extract _ x response (rng (l_vu l))) as [[r g]|] eqn:He.
  - assert (same v b (mkLocal (set_rng g (l_vu l)) (l_script l))) as Hl'.
    { destruct Hl as [[] Hs Hg]. constructor; [by constructor|exact Hs|exact Hg]. }
    revert Hl' Hk. generalize (mkLocal (set_rng g (l_vu l)) (l_script l)). intros l' Hl' Hk.
    match goal with |- safe _ _ (?m l' k) _ => assert (keeps 0 0 m) as Hm end; [keep|].
    by apply (Hm v b l' k Q).
  - split; [reflexivity|]. destruct Hx as [Hd|Hx]; [exact Hd|].
    destruct (extract_ends x response (rng (l_vu l)) (Datatypes.S (length (chars (body_text response)))) Hx ltac:(lia)) as [y Hy].
    by rewrite Hy in He.
Qed.

Lemma keeps_run_extractors p response xs st :
  d = true \/ forallb extractor_ends xs = true -> keeps 0 0 (run_extractors hash_tags p response xs st).
Proof.
  revert st. induction xs as [|x xs IH]; intros st Hxs; cbn [run_extractors]; [keep|].
  apply (keeps_bind _ 0 0 0).
  - apply keeps_run_extractor. destruct Hxs as [?|Hxs]; [by left|right; by apply andb_prop in Hxs as [? _]].
  - intros st'. apply IH. destruct Hxs as [?|Hxs]; [by left|right; by apply andb_prop in Hxs as [_ ?]].
Qed.

Lemma keeps_eval_condition c response :
  keeps 0 0 (eval_condition url_parse canonicalize read_canonical run registered program c response).
Proof.
  unfold eval_condition. case_match; [|keep]. apply keeps_with_script; [keep|]. intros sc.
  apply keeps_scripted_bind; [apply keeps_keeps_scripted; keep|]. intros _.
  apply keeps_scripted_bind; [apply keeps_run_script|]. intros v. apply keeps_keeps_scripted. keep.
Qed.
Hint Resolve keeps_eval_condition : flow.

Lemma keeps_run_asserts p response cs st :
  keeps 0 0 (run_asserts url_parse canonicalize read_canonical run registered program p response cs st).
Proof. revert st. induction cs as [|c cs IH]; intros st; cbn [run_asserts]; keep. Qed.

Lemma keeps_run_check response c :
  keeps 0 0 (run_check hash_tags url_parse canonicalize read_canonical run registered program response c).
Proof. unfold run_check. keep. Qed.

Lemma keeps_report_rows name response : keeps 0 0 (report_rows payload_text name response).
Proof. apply keeps_on_world. intros v w. destruct (has_pending _); by repeat split. Qed.

Lemma keeps_conclude req p response :
  d = true \/ forallb extractor_ends (cr_extract req) = true ->
  keeps 1 0 (conclude hash_tags url_parse canonicalize read_canonical run registered payload_text program req p response).
Proof.
  intros Hx. unfold conclude, count_failure.
  apply (keeps_bind _ 1 0 0); [apply keeps_record_completed|]. intros _.
  apply (keeps_bind _ 0 0 0); [by apply keeps_run_extractors|]. intros [chain_flow ef].
  apply (keeps_bind _ 0 0 0); [keep|]. intros _.
  apply (keeps_bind _ 0 0 0); [apply keeps_report_rows|]. intros _.
  apply (keeps_bind _ 0 0 0); [apply keeps_after_request|]. intros _.
  apply (keeps_bind _ 0 0 0); [apply keeps_run_asserts|]. intros [flow af].
  apply (keeps_bind _ 0 0 0); [keep|]. intros _.
  apply (keeps_bind _ 0 0 0); [apply keeps_each, keeps_run_check|]. intros _. keep.
Qed.

Lemma keeps_refuse name error : keeps 0 0 (refuse name error).
Proof. unfold refuse. keep. Qed.
Hint Resolve keeps_refuse : flow.

Lemma keeps_guard_new : keeps 0 1 guard_new.
Proof. unfold guard_new. apply (keeps_bind _ 0 1 1); [apply keeps_begin|]. intros _. unfold clock. keep. Qed.

Lemma keeps_run_request req :
  d = true \/ forallb extractor_ends (cr_extract req) = true ->
  keeps 0 0 (run_request hash_tags url_parse canonicalize read_canonical run registered os_env generate_str payload_text
               program req).
Proof.
  intros Hx. unfold run_request, acquire, inject_latency, clock.
  apply (keeps_bind _ 0 0 0); [keep|]. intros _.
  apply (keeps_bind _ 0 0 0); [keep|]. intros _.
  apply (keeps_bind _ 0 0 0).
  { apply keeps_on_world. intros v w. unfold begin_vu_request, begin_message. destruct (df_has_on_demand (w_data w)); by repeat split. }
  intros _. apply (keeps_bind _ 0 0 0); [keep|]. intros [p|[|e]].
  - apply (keeps_bind _ 0 0 0); [keep|]. intros _. unfold send.
    apply (keeps_bind _ 0 0 0); [apply keeps_before_request|]. intros p'. case_match; [|keep]. cbv zeta.
    apply (keeps_bind _ 0 0 0); [keep|]. intros df.
    apply (keeps_bind _ 0 1 0); [apply keeps_guard_new|]. intros started.
    apply (keeps_bind _ 1 1 0); [apply keeps_exchange|]. intros response. by apply keeps_conclude.
  - keep.
  - keep.
Qed.

(** ** Steps *)

Definition may (b : bool) : Prop := d = true \/ b = true.

Lemma may_and a b : may (a && b) <-> may a /\ may b.
Proof. unfold may. rewrite andb_true_iff. tauto. Qed.

Lemma may_forallb {A : Type} (f : A -> bool) (l : list A) : may (forallb f l) <-> Forall (fun x => may (f x)) l.
Proof.
  induction l as [|x l IH]; cbn; [split; [constructor|by right]|].
  rewrite may_and, IH. split; [intros []; by constructor|by inversion 1].
Qed.

Lemma keeps_eval_condition_bool expr :
  keeps 0 0 (eval_condition_bool url_parse canonicalize read_canonical run registered program expr).
Proof.
  unfold eval_condition_bool. apply keeps_with_script; [keep|]. intros s.
  apply keeps_scripted_bind; [apply keeps_run_script|]. intros r. apply keeps_keeps_scripted. keep.
Qed.
Hint Resolve keeps_eval_condition_bool : flow.

Lemma keeps_set_index n var i : keeps n n (set_index var i).
Proof. apply keeps_set_var. Qed.
Hint Resolve keeps_set_index : flow.

Lemma keeps_and_then body next : keeps 0 0 body -> keeps 0 0 next -> keeps 0 0 (and_then body next).
Proof. intros Hb Hn. unfold and_then. keep. Qed.

Lemma keeps_repeat_loop n i var body : keeps 0 0 body -> keeps 0 0 (repeat_loop n i var body).
Proof.
  intros Hb. revert i. induction n as [|n IH]; intros i; cbn [repeat_loop]; [keep|].
  apply (keeps_bind _ 0 0 0); [keep|]. intros _. by apply keeps_and_then.
Qed.

Lemma keeps_while_loop n condition body :
  keeps 0 0 body -> keeps 0 0 (while_loop url_parse canonicalize read_canonical run registered program n condition body).
Proof.
  intros Hb. induction n as [|n IH]; cbn [while_loop]; [keep|].
  apply (keeps_bind _ 0 0 0); [keep|]. intros [|]; [|keep]. by apply keeps_and_then.
Qed.

Lemma keeps_foreach_loop items i var index body : keeps 0 0 body -> keeps 0 0 (foreach_loop items i var index body).
Proof.
  intros Hb. revert i. induction items as [|x items IH]; intros i; cbn [foreach_loop]; [keep|].
  apply (keeps_bind _ 0 0 0); [keep|]. intros _. apply (keeps_bind _ 0 0 0); [keep|]. intros _. by apply keeps_and_then.
Qed.

Lemma keeps_during_loop fuel deadline i counter body :
  d = true -> keeps 0 0 body -> keeps 0 0 (during_loop fuel deadline i counter body).
Proof.
  intros Hd Hb. revert i. induction fuel as [|fuel IH]; intros i; cbn [during_loop]; unfold clock.
  - apply (keeps_bind _ 0 0 0); [keep|]. intros now. case_match; [|keep]. intros v b l k Q Hl Hk. by split.
  - apply (keeps_bind _ 0 0 0); [keep|]. intros now. case_match; [|keep].
    apply (keeps_bind _ 0 0 0); [keep|]. intros _. by apply keeps_and_then.
Qed.

Lemma keeps_retry_loop n attempt until backoff body :
  keeps 0 0 body ->
  keeps 0 0 (retry_loop url_parse canonicalize read_canonical run registered program n attempt until backoff body).
Proof.
  intros Hb. revert attempt. induction n as [|n IH]; intros attempt; cbn [retry_loop]; [keep|].
  apply (keeps_bind _ 0 0 0); [keep|]. intros _. apply (keeps_bind _ 0 0 0); [keep|]. intros _.
  apply keeps_and_then; [exact Hb|]. keep.
Qed.

Lemma keeps_child_context parent branch : keeps 0 0 (child_context hash_tags seed_from_u64 parent branch).
Proof.
  apply keeps_on_world. intros v w. by destruct (VuContext_new _ _ _ _ _ _ _ _).
Qed.

Lemma keeps_join_all (branches : list (M IterationOutcome)) children :
  Forall (fun m => keeps 0 0 m) branches -> keeps 0 0 (join_all branches children).
Proof.
  intros Hbs v b l k Q Hl Hk. apply safe_Par. split; [|intros results; by apply Hk].
  exists (replicate (length (zip_with (fun (b : M IterationOutcome) child => b (mkLocal child None) Done) branches children)) 0%nat).
  split; [by rewrite sum_list_replicate; lia|].
  revert children. induction Hbs as [|m branches Hm _ IH]; intros [|child children]; cbn; try constructor; [|apply IH].
  apply (Hm child false); [by constructor|]. intros o l' _. by split.
Qed.

Lemma keeps_run_parallel (branches : list (M IterationOutcome)) :
  Forall (fun m => keeps 0 0 m) branches -> keeps 0 0 (run_parallel hash_tags seed_from_u64 branches).
Proof.
  intros Hbs. unfold run_parallel. apply (keeps_bind _ 0 0 0); [keep|]. intros v.
  apply (keeps_bind _ 0 0 0); [apply keeps_each; intros i; apply keeps_child_context|]. intros children.
  apply (keeps_bind _ 0 0 0); [by apply keeps_join_all|]. intros results. keep.
Qed.

Lemma keeps_resolve_items items :
  keeps 0 0 (resolve_items url_parse canonicalize read_canonical run registered os_env generate_str program items).
Proof. unfold resolve_items. keep. Qed.

Lemma keeps_in_group name body : keeps 0 0 body -> keeps 0 0 (in_group name body).
Proof.
  intros Hb v b l k Q [Hi Hs Hg] Hk. unfold in_group, bind, modify_vu.
  set (v' := push_group name (l_vu l)).
  apply (Hb v' b); [constructor; cbn; [done|exact Hs|done]|].
  intros o l' [Hi' Hs' Hg'].
  assert (same v b (mkLocal (pop_group (l_vu l')) (l_script l'))) as Hl'.
  { constructor; cbn; [|exact Hs'|].
    - etrans; [exact Hi|]. destruct Hi' as [? ? ? ? ? ?]. by constructor.
    - intros Hb'. rewrite (Hg' Hb'). cbn. rewrite removelast_last. by apply Hg. }
  unfold and_then, bind, ret. destruct o; by apply Hk.
Qed.

Lemma keeps_rendezvous name users timeout : keeps 0 0 (rendezvous name users timeout).
Proof.
  unfold rendezvous. apply (keeps_bind _ 0 0 0); [keep|]. intros _ v b l k Q Hl Hk. split; [reflexivity|].
  intros released. by apply Hk.
Qed.

Lemma keeps_think t : keeps 0 0 (think t).
Proof. unfold think. keep. Qed.
Hint Resolve keeps_think : flow.

Lemma keeps_pick_branch strategy weights cursor : keeps 0 0 (pick_branch strategy weights cursor).
Proof. unfold pick_branch. cbv zeta. keep. Qed.

Notation run_step_now := (run_step hash_tags seed_from_u64 url_parse canonicalize read_canonical run registered os_env
  generate_str payload_text during_fuel program).
Notation run_steps_now := (run_steps hash_tags seed_from_u64 url_parse canonicalize read_canonical run registered os_env
  generate_str payload_text during_fuel program).

Lemma CompiledStep_ind' (Pr : CompiledStep -> Prop)
    (HRequest : forall r, Pr (CsRequest r)) (HThink : forall t, Pr (CsThinkTime t)) (HJs : forall c s, Pr (CsJs c s))
    (HGroup : forall n steps, Forall Pr steps -> Pr (CsGroup n steps))
    (HRepeat : forall t c steps, Forall Pr steps -> Pr (CsRepeat t c steps))
    (HWhile : forall c m steps, Forall Pr steps -> Pr (CsWhile c m steps))
    (HIf : forall c t o, Forall Pr t -> Forall Pr o -> Pr (CsIf c t o))
    (HRandom : forall s cs c, Forall (fun c => Forall Pr c.2) cs -> Pr (CsRandom s cs c))
    (HForeach : forall i v x steps, Forall Pr steps -> Pr (CsForeach i v x steps))
    (HSwitch : forall v cs dflt, Forall (fun c => Forall Pr c.2) cs -> Forall Pr dflt -> Pr (CsSwitch v cs dflt))
    (HDuring : forall t c steps, Forall Pr steps -> Pr (CsDuring t c steps))
    (HRetry : forall t u b steps, Forall Pr steps -> Pr (CsRetry t u b steps))
    (HParallel : forall bs, Forall (Forall Pr) bs -> Pr (CsParallel bs))
    (HRendezvous : forall n u t, Pr (CsRendezvous n u t)) : forall s, Pr s.
Proof.
  fix IH 1.
  intros [r|t|c s|n steps|t c steps|c m steps|c t o|s cs c|i v x steps|v cs dflt|t c steps|t u b steps|bs|n u t].
  - apply HRequest.
  - apply HThink.
  - apply HJs.
  - apply HGroup. induction steps; constructor; [apply IH|assumption].
  - apply HRepeat. induction steps; constructor; [apply IH|assumption].
  - apply HWhile. induction steps; constructor; [apply IH|assumption].
  - apply HIf; [induction t|induction o]; constructor; first [apply IH|assumption].
  - apply HRandom. induction cs as [|[w steps] cs IHcs]; constructor; [|exact IHcs].
    cbn. induction steps; constructor; [apply IH|assumption].
  - apply HForeach. induction steps; constructor; [apply IH|assumption].
  - apply HSwitch; [|induction dflt; constructor; [apply IH|assumption]].
    induction cs as [|[k steps] cs IHcs]; constructor; [|exact IHcs].
    cbn. induction steps; constructor; [apply IH|assumption].
  - apply HDuring. induction steps; constructor; [apply IH|assumption].
  - apply HRetry. induction steps; constructor; [apply IH|assumption].
  - apply HParallel. induction bs as [|steps bs IHbs]; constructor; [|exact IHbs].
    induction steps; constructor; [apply IH|assumption].
  - apply HRendezvous.
Qed.

Lemma keeps_steps (steps : list CompiledStep) :
  Forall (fun s => may (step_ends s) -> keeps 0 0 (run_step_now s)) steps ->
  may (forallb step_ends steps) -> keeps 0 0 (run_steps_now steps).
Proof.
  induction 1 as [|s steps Hs _ IH]; intros Hmay; cbn [run_steps]; [keep|].
  apply may_and in Hmay as [Ha Hb]. apply (keeps_bind _ 0 0 0); [by apply Hs|]. intros [o|]; [keep|by apply IH].
Qed.

Lemma keeps_run_step (s : CompiledStep) : may (step_ends s) -> keeps 0 0 (run_step_now s).
Proof.
  induction s as [r|t|c s|n steps IH|t c steps IH|c m steps IH|c t o IHt IHo|s cs c IH|i v x steps IH|v cs dflt IH IHd
                 |t c steps IH|t u b steps IH|bs IH|n u t] using CompiledStep_ind'; intros Hmay; cbn [run_step].
  - unfold run_request_step. apply (keeps_bind _ 0 0 0); [by apply keeps_run_request|]. keep.
  - keep.
  - unfold run_js. apply keeps_with_script; [keep|]. intros sc. destruct c as [name|]; [|destruct s as [code|]].
    + apply keeps_scripted_bind; [apply keeps_call_hook|]. intros _. apply keeps_keeps_scripted. keep.
    + apply keeps_scripted_bind; [apply keeps_call_hook|]. intros _. apply keeps_keeps_scripted. keep.
    + apply keeps_keeps_scripted. keep.
  - apply keeps_in_group. exact (keeps_steps steps IH Hmay).
  - apply keeps_repeat_loop. exact (keeps_steps steps IH Hmay).
  - apply keeps_while_loop. exact (keeps_steps steps IH Hmay).
  - apply may_and in Hmay as [Ha Hb]. apply (keeps_bind _ 0 0 0); [keep|]. intros b. apply keeps_and_then; [|keep].
    destruct b; [exact (keeps_steps t IHt Ha)|exact (keeps_steps o IHo Hb)].
  - set (bodies := map _ cs).
    assert (Forall (fun c : option string * M IterationOutcome => keeps 0 0 c.2) bodies) as Hbodies.
    { apply may_forallb in Hmay. unfold bodies. clear bodies.
      induction IH as [|c' cs Hc _ IHcs]; [constructor|]. apply Forall_cons in Hmay as [Ha Hb].
      cbn. constructor; [exact (keeps_steps c'.2 Hc Ha)|by apply IHcs]. }
    clearbody bodies. destruct bodies as [|body bodies]; [keep|].
    apply (keeps_bind _ 0 0 0); [apply keeps_pick_branch|]. intros i.
    destruct ((body :: bodies) !! i) as [[name m]|] eqn:Hi; [|keep].
    apply keeps_in_group. exact (Forall_lookup_1 _ _ _ _ Hbodies Hi).
  - apply (keeps_bind _ 0 0 0); [apply keeps_resolve_items|]. intros l. apply keeps_foreach_loop.
    exact (keeps_steps steps IH Hmay).
  - apply may_and in Hmay as [Ha Hb]. set (bodies := map _ cs).
    assert (Forall (fun c : string * M IterationOutcome => keeps 0 0 c.2) bodies) as Hbodies.
    { apply may_forallb in Ha. unfold bodies. clear bodies.
      induction IH as [|c' cs Hc _ IHcs]; [constructor|]. apply Forall_cons in Ha as [Ha1 Ha2].
      cbn. constructor; [exact (keeps_steps c'.2 Hc Ha1)|by apply IHcs]. }
    clearbody bodies. apply (keeps_bind _ 0 0 0); [keep|]. intros r. cbv zeta.
    destruct (List.find _ bodies) as [[k m]|] eqn:Hf; (apply keeps_and_then; [|keep]).
    + apply List.find_some in Hf as [Hin _]. apply list_elem_of_In in Hin.
      rewrite Forall_forall in Hbodies. exact (Hbodies _ Hin).
    + exact (keeps_steps dflt IHd Hb).
  - destruct Hmay as [Hd|Hd]; [|discriminate Hd]. apply (keeps_bind _ 0 0 0); [unfold clock; keep|]. intros now.
    apply keeps_during_loop; [exact Hd|]. apply (keeps_steps steps IH). by left.
  - apply keeps_retry_loop. exact (keeps_steps steps IH Hmay).
  - apply may_forallb in Hmay. apply keeps_and_then; [|keep]. apply keeps_run_parallel.
    clear -IH Hmay. induction IH as [|steps bs Hs _ IHbs]; [constructor|]. apply Forall_cons in Hmay as [Ha Hb].
    cbn. constructor; [exact (keeps_steps steps Hs Ha)|by apply IHbs].
  - apply (keeps_bind _ 0 0 0); [apply keeps_rendezvous|]. keep.
Qed.

Lemma keeps_run_steps (steps : list CompiledStep) : may (forallb step_ends steps) -> keeps 0 0 (run_steps_now steps).
Proof. apply keeps_steps. apply Forall_true. apply keeps_run_step. Qed.

Lemma keeps_run_on_start : keeps 0 0 (run_on_start url_parse canonicalize read_canonical run registered program).
Proof.
  unfold run_on_start. apply (keeps_bind _ 0 0 0); [keep|]. intros v.
  apply keeps_with_script; [keep|]. intros s. destruct (pg_on_start program); [|apply keeps_keeps_scripted; keep].
  case_match; [apply keeps_call_hook|apply keeps_keeps_scripted; keep].
Qed.

Lemma keeps_run_exec exec : keeps 0 0 (run_exec url_parse canonicalize read_canonical run registered program exec).
Proof.
  unfold run_exec. apply keeps_with_script; [keep|]. intros s.
  apply keeps_scripted_bind; [apply keeps_keeps_scripted; keep|]. intros v. cbv zeta.
  apply keeps_scripted_bind; [apply keeps_run_script|]. intros r. apply keeps_keeps_scripted. keep.
Qed.

Notation iteration_now := (iteration_task hash_tags seed_from_u64 url_parse canonicalize read_canonical run registered
  os_env generate_str payload_text during_fuel program).

(** An iteration announces and retires its requests, keeps who the virtual user is, and its group
    stack unless scripts may have changed it. *)
Lemma iteration_safe (l : Local R S) :
  may (forallb step_ends (pg_steps program)) ->
  safe d 0 (iteration_now l)
    (fun _ l' => same (begin_iteration (l_vu l)) (bool_decide (is_Some (l_script l))) l').
Proof.
  intros Hmay. unfold iteration_task, run_iteration.
  set (v := begin_iteration (l_vu l)). set (b := bool_decide (is_Some (l_script l))).
  match goal with |- safe _ _ (bind (modify_vu begin_iteration) ?f l Done) _ =>
    change (safe d 0 (f tt (mkLocal v (l_script l)) Done) (fun _ l' => same v b l')); assert (keeps 0 0 (f tt)) as Hf end.
  { apply (keeps_bind _ 0 0 0); [apply keeps_run_on_start|]. intros _.
    apply (keeps_bind _ 0 0 0); [unfold clock; keep|]. intros started.
    apply (keeps_bind _ 0 0 0); [by apply keeps_run_steps|]. intros o.
    apply (keeps_bind _ 0 0 0).
    { destruct o, (pg_exec program); first [apply keeps_run_exec|keep]. }
    intros o'. apply (keeps_bind _ 0 0 0); [keep|]. intros tags.
    apply (keeps_bind _ 0 0 0); [unfold clock; keep|]. intros now. cbv zeta.
    apply (keeps_bind _ 0 0 0); [keep|]. intros _. keep. }
  apply (Hf v b); [by constructor|]. intros o l' Hl'. by split.
Qed.
End FlowCode.
