(* ===== verification/FlowRuns.v ===== *)
(** * Iterations: what holds of every run

    The theorems about the flow runner as a whole: the gauge of requests in flight, what an
    iteration leaves of its virtual user, that it ends, and which parts of a request its
    samples do not depend on. *)

From Stdlib Require Import Ascii FunctionalExtensionality.
From S2P Require Import Prelude Float64 Str Dur Value Template Protocol Metrics Aggregate Federation Pipeline Cookies Extract Conditions Feeds Pacing Vu Program Interp Prepare Flow FlowSystem FlowSafe.

(** ** The gauge on the bus *)

Section Bus.
Context `{Hdr}.

(** The bus after the calls of a trace. *)
Definition bus_after (now_ms : Z) (b : BusState) (tr : list (Sink * BusCall)) : BusState :=
  foldl (fun b c => bus_call c.1 c.2 now_ms b) b tr.

Lemma emit_in_flight (sink : Sink) (sample : Sample) (b : BusState) : bs_in_flight (Pipeline.emit sink sample b) = bs_in_flight b.
Proof. by destruct sink. Qed.

Lemma emit_values_in_flight sink values tags now_ms (b : BusState) :
  bs_in_flight (emit_cached_values sink values tags now_ms b) = bs_in_flight b.
Proof.
  destruct sink as [|idx]; cbn; [|done]. revert b. induction values as [|[[metric k] v] values IH]; intros b; [done|].
  cbn. by rewrite IH.
Qed.

Lemma u64_wrap_add (a c : Z) : u64_wrap (u64_wrap a + c) = u64_wrap (a + c).
Proof. unfold u64_wrap. by rewrite Zplus_mod_idemp_l. Qed.

Lemma bus_call_in_flight (c : Sink * BusCall) now_ms (b : BusState) (n : Z) :
  bs_in_flight b = u64_wrap n -> bs_in_flight (bus_call c.1 c.2 now_ms b) = u64_wrap (n + delta c).
Proof.
  intros Hb. destruct c as [sink [metric k v tags|values tags| |]]; unfold delta; cbn [fst snd bus_call].
  - unfold Pipeline.emit_value. by rewrite emit_in_flight, Z.add_0_r.
  - by rewrite emit_values_in_flight, Z.add_0_r.
  - cbn. rewrite Hb. apply u64_wrap_add.
  - cbn. rewrite Hb. apply (u64_wrap_add n (-1)).
Qed.

Lemma bus_after_in_flight now_ms (tr : list (Sink * BusCall)) (b : BusState) (n : Z) :
  bs_in_flight b = u64_wrap n -> bs_in_flight (bus_after now_ms b tr) = u64_wrap (n + Zsum (delta <$> tr)).
Proof.
  revert b n. induction tr as [|c tr IH]; intros b n Hb.
  - cbn. rewrite Hb. f_equal. unfold Zsum. cbn. lia.
  - change (bus_after now_ms b (c :: tr)) with (bus_after now_ms (bus_call c.1 c.2 now_ms b) tr).
    rewrite fmap_cons, Zsum_cons, Z.add_assoc. by apply IH, bus_call_in_flight.
Qed.
End Bus.

(** ** Runs of iterations *)

Section Runs.
Context {P : Type} `{!DataSourcePlugin P} {R : Type} `{!Rng R} {S : Type} `{!VuScript S}.
Context `{JsonText, TextTools, ConditionText, Hdr}.
Context (hash_tags : Tags -> Z) (seed_from_u64 : Z -> R) (url_parse : string -> option Url).
Context (canonicalize : string -> result string (list string)) (read_canonical : list string -> result string string).
Context (run : RunContext) (registered : string -> bool).
Context (os_env : string -> option string) (generate_str : string -> result string string).
Context (payload_text : ResultPayload -> option string) (during_fuel : nat) (program : ScenarioProgram).
Notation iteration_now := (iteration_task (P := P) hash_tags seed_from_u64 url_parse canonicalize read_canonical run registered
  os_env generate_str payload_text during_fuel program).

(** The requests a task waits for, where it is at rest: suspended at its waits, finished, or dropped. *)
Definition waits_for (t : Task (P := P) (R := R) (S := S)) (n : nat) : Prop :=
  match t with
  | Running io => exists gs, drops io = Some gs /\ n = length gs
  | Dropping gs => gs = [] /\ n = 0%nat
  end.

Definition is_iteration (io : IO P R S) : Prop := exists l, io = iteration_now l.

(** C3: the gauge of requests in flight is exact.  However the iterations of a scenario interleave,
    whatever they wait for answers, and whichever of them are dropped at a wait, the calls they made
    on the bus leave the gauge at the number of requests the tasks wait for, wherever all of them are
    at rest; and it never goes below zero: no request is counted twice, leaked, or retired twice. *)
Theorem requests_in_flight_exact (sh sh' : Shared P) (ts : list Task) (tr : list (Sink * BusCall)) now_ms (b : BusState) :
  sys_run is_iteration (mkSys sh [] []) (mkSys sh' ts tr) ->
  bs_in_flight b = 0 ->
  0 <= Zsum (delta <$> tr)
  /\ forall ns, Forall2 waits_for ts ns -> bs_in_flight (bus_after now_ms b tr) = u64_wrap (Z.of_nat (sum_list ns)).
Proof.
  intros Hrun Hb.
  assert (sys_ok true (mkSys sh' ts tr)) as (ns & Hns & Hsum).
  { eapply (sys_run_ok true is_iteration); [|exact Hrun|by exists []].
    intros io (l & ->). eexists. apply iteration_safe. by left. }
  cbn in Hns, Hsum. split; [lia|]. intros ms Hms.
  rewrite (bus_after_in_flight now_ms tr b 0) by (by rewrite Hb). rewrite Z.add_0_l, Hsum. do 2 f_equal.
  clear -Hns Hms. revert ms Hms. induction Hns as [|t n ts ns Ht _ IH]; intros ms Hms.
  - by apply Forall2_nil_inv_l in Hms as ->.
  - apply Forall2_cons_inv_l in Hms as (m & ms' & Hm & Hms & ->). cbn. rewrite (IH ms' Hms). f_equal.
    destruct t as [io|gs]; cbn in Ht, Hm.
    + destruct Ht as [Q Ht], Hm as (gs & Hd & ->). by destruct (safe_drops true io n Q gs Ht Hd) as [-> _].
    + destruct Hm as [-> ->], Ht as (ns' & -> & Hns'). by apply Forall2_nil_inv_l in Hns' as ->.
Qed.

(** C8: an iteration leaves its virtual user who it was: same number, scenario, tags and sink, one
    iteration further, and, when no script engine runs in it, with the group stack it began with,
    whatever requests failed, branches aborted or loops were left early. *)
Theorem iteration_keeps_user (l l' : Local R S) (o : IterationOutcome) :
  io_run (iteration_now l) (Done o l') ->
  vu_id (l_vu l') = vu_id (l_vu l) /\ scenario (l_vu l') = scenario (l_vu l)
  /\ iteration (l_vu l') = u64_add (iteration (l_vu l)) 1
  /\ base_tags (l_vu l') = base_tags (l_vu l) /\ metrics (l_vu l') = metrics (l_vu l)
  /\ (l_script l = None -> groups (l_vu l') = groups (l_vu l)).
Proof.
  intros Hrun.
  assert (true = true \/ forallb step_ends (pg_steps program) = true) as Hmay by by left.
  destruct (safe_run true _ _ 0 _ Hrun
              (iteration_safe hash_tags seed_from_u64 url_parse canonicalize read_canonical run registered os_env
                 generate_str payload_text during_fuel program true l Hmay))
    as (n & _ & [[Hn Hsc Hit Hbt _ Hsi] Hs Hg]).
  repeat split; [exact Hn|exact Hsc|exact Hit|exact Hbt|exact Hsi|].
  intros Hnone. rewrite Hg; [done|]. rewrite Hnone. by apply bool_decide_eq_false.
Qed.

(** C5: an iteration of a scenario without [during], and whose boundary extractors have a marker, always
    ends.  Whatever the environment answers, every schedule of its steps is finite, and where it can
    take no step it has finished with an outcome, or panicked. *)
Theorem iteration_terminates (l : Local R S) :
  forallb step_ends (pg_steps program) = true ->
  Acc io_next (iteration_now l)
  /\ forall io, io_run (iteration_now l) io -> stuck io -> (exists o l', io = Done o l') \/ panicked io.
Proof.
  intros Hends. split; [apply io_Acc|]. intros io Hrun Hstuck.
  assert (false = true \/ forallb step_ends (pg_steps program) = true) as Hmay by by right.
  destruct (safe_run false _ _ 0 _ Hrun
              (iteration_safe hash_tags seed_from_u64 url_parse canonicalize read_canonical run registered os_env
                 generate_str payload_text during_fuel program false l Hmay)) as (n & Hsafe).
  apply (safe_stuck io n _ Hsafe); [|exact Hstuck].
  exists Completed, (mkLocal (begin_iteration (l_vu l)) (l_script l)). by constructor.
Qed.
(** The same request with other [tags]. *)
Definition with_tags (tags : list (string * string)) (r : CompiledRequest) : CompiledRequest :=
  mkCompiledRequest (cr_req_name r) (cr_display_name r) (cr_protocol r) (cr_method r) (cr_url r) (cr_headers r)
    (cr_params r) (cr_body r) (cr_timeout r) (cr_follow_redirects r) tags (cr_extract r) (cr_assert r) (cr_checks r)
    (cr_grpc_protobuf_checks r) (cr_reads_response_body r) (cr_ws r) (cr_grpc r) (cr_graphql r) (cr_socket r) (cr_sse r)
    (cr_sql r) (cr_plugin r).

(** The [tags] of a request reach none of its samples: the runs of a request step are the same
    whatever they are. *)
Lemma request_tags_ignored (tags : list (string * string)) (r : CompiledRequest) :
  run_request (P := P) (S := S) hash_tags url_parse canonicalize read_canonical run registered os_env generate_str payload_text
    program (with_tags tags r)
  = run_request hash_tags url_parse canonicalize read_canonical run registered os_env generate_str payload_text program r.
Proof. reflexivity. Qed.
End Runs.
