(* ===== verification/FlowDemo.v ===== *)
(** * Concrete runs of iterations

    An executable runner of the effect trees of Interp.v, sound for the steps of FlowSystem.v,
    and the instances of the theorems of FlowRuns.v and Prepare.v at small programs. *)

From Stdlib Require Import Ascii.
From S2P Require Import Prelude Float64 Str Dur Value Template Protocol Metrics Aggregate Federation Pipeline Cookies Extract Conditions Feeds Pacing Vu Program Interp Prepare Flow FlowSystem FlowSafe FlowRuns.

(** ** A runner *)

Section Runner.
Context {P R S : Type}.
Notation IO := (IO P R S).
(** What the wire answers, and whether a task is held at its requests. *)
Context (wire : PreparedRequest -> result string ProtocolResponse) (hold : bool).

(** Run a task alone until it ends, joins branches or is held. *)
Fixpoint run_alone (io : IO) (s : Shared P) : IO * Shared P * list (Sink * BusCall) :=
  match io with
  | Emit sink c k =>
      let '(io, s, tr) := run_alone k (set_world (log_call sink c (sh_world s)) s) in (io, s, (sink, c) :: tr)
  | Access f k => run_alone (k s) (f s)
  | Sleep _ _ k => run_alone k s
  | Execute b p _ jar _ k => if negb b && hold then (io, s, []) else run_alone (k (wire p) jar) s
  | Rendezvous _ _ k => run_alone (k true) s
  | Fresh k => run_alone (k "uuid") s
  | _ => (io, s, [])
  end.

(** Steps of one task among others. *)
Lemma alone_sound fresh (io : IO) (s : Shared P) (pre post_ : list (Task (P := P) (R := R) (S := S))) tr
    (wrap : IO -> Task) :
  (forall io s o io' s', io_step io s o io' s' -> task_step (wrap io) s o (wrap io') s') ->
  sys_run fresh (mkSys s (pre ++ wrap io :: post_) tr)
    (mkSys (run_alone io s).1.2 (pre ++ wrap (run_alone io s).1.1 :: post_) (tr ++ (run_alone io s).2)).
Proof.
  intros Hwrap.
  assert (forall io s io' s' o tr y,
            io_step io s o io' s' -> sys_run fresh (mkSys s' (pre ++ wrap io' :: post_) (tr ++ option_list o)) y ->
            sys_run fresh (mkSys s (pre ++ wrap io :: post_) tr) y) as Hone.
  { intros io0 s0 io' s' o tr0 y Hs Hr. eapply rtc_l; [|exact Hr]. apply sys_task, Hwrap, Hs. }
  revert s tr.
  induction io as [| | | |sink c k IH|f k IH|b d' k IH|b p vu jar g k _ IH|n' t k IH|k IH|bs k _ _] using IO_ind';
    intros s tr; cbn [run_alone]; try (cbn [fst snd]; rewrite app_nil_r; apply rtc_refl).
  - eapply (Hone _ _ k); [constructor|]. pose proof (IH (set_world (log_call sink c (sh_world s)) s) (tr ++ [(sink, c)])) as HI.
    destruct (run_alone k _) as [[io2 s2] tr2]. cbn in *. by rewrite <- app_assoc in HI.
  - eapply Hone; [constructor|]. cbn. rewrite app_nil_r. apply IH.
  - eapply Hone; [constructor|]. cbn. rewrite app_nil_r. apply IH.
  - destruct (negb b && hold); [cbn [fst snd]; rewrite app_nil_r; apply rtc_refl|].
    eapply Hone; [apply (step_execute b p vu jar g k s (wire p) jar)|]. cbn. rewrite app_nil_r. apply IH.
  - eapply Hone; [apply (step_rendezvous n' t k s true)|]. cbn. rewrite app_nil_r. apply IH.
  - eapply Hone; [apply (step_fresh k s "uuid")|]. cbn. rewrite app_nil_r. apply IH.
Qed.

Lemma alone_run (io : IO) (s : Shared P) : io_run io (run_alone io s).1.1.
Proof.
  revert s.
  induction io as [| | | |sink c k IH|f k IH|b d' k IH|b p vu jar g k _ IH|n' t k IH|k IH|bs k _ _] using IO_ind';
    intros s; cbn [run_alone]; try apply rtc_refl.
  - specialize (IH (set_world (log_call sink c (sh_world s)) s)).
    destruct (run_alone k _) as [[io2 s2] tr2]. eapply rtc_l; [|exact IH].
    exists s, (Some (sink, c)), (set_world (log_call sink c (sh_world s)) s). constructor.
  - eapply rtc_l; [|apply IH]. exists s, None, (f s). constructor.
  - eapply rtc_l; [|apply IH]. exists s, None, s. constructor.
  - destruct (negb b && hold); [apply rtc_refl|].
    eapply rtc_l; [|apply IH]. exists s, None, s. constructor.
  - eapply rtc_l; [|apply IH]. exists s, None, s. constructor.
  - eapply rtc_l; [|apply IH]. exists s, None, s. constructor.
Qed.
End Runner.

(** ** Instances *)

Module FlowDemo.
Import CountingRng ExtractDemo ConditionDemo VuDemo HdrModel.

(** A script engine that defines no function. *)
#[export] Instance no_script : VuScript unit := {|
  has_function _ _ := false;
  call_function s name _ := SRet (Err ("no function " +:+ name), s);
  eval_code s _ := SRet (Ok Null, s);
|}.

Definition http0 : HttpDefaults := mkHttpDefaults (Some "http://h") [] 30000000000 true 10 true.
Definition home : CompiledRequest :=
  mkCompiledRequest None "home" "http" "GET" (mkTemplate [Lit "http://h/"] "http://h/") [] [] CbNone None None [] [] [] [] None
    false None None None None None None None.
Definition run0 : RunContext := mkRunContext ∅ ∅ ∅ "." Null.
Definition shared_start : Shared unit := mkShared w0 None ∅ ∅ 0.

Definition small_seed (n : Z) : nat := Z.to_nat (n mod 8).
Definition steps_program (steps : list CompiledStep) : ScenarioProgram :=
  mkProgram "s" steps None None None None None None None ∅ http0 true.
(** A request in a group, asked again while it fails. *)
Definition login : ScenarioProgram :=
  steps_program [CsGroup "login" [CsRetry 3 None None [CsRequest home]]; CsRepeat 2 None [CsRequest home]].

Notation iteration_of := (iteration_task (P := unit) hash small_seed (fun _ => None) (fun _ => Err "none")
  (fun _ => Err "none") run0 (fun p => bool_decide (p = "http")) (fun _ => None) (fun s => Ok s) (fun _ => None) 0).
Definition user (n : Z) : Local nat unit := mkLocal (VuContext_new hash small_seed n "s" ∅ Tx true w0).1 None.
Definition wire_down (p : PreparedRequest) : result string ProtocolResponse := Err "connection refused".

Definition start (n : Z) : IO unit nat unit := iteration_of login (user n).
(** User 1 waits for its request; user 2 is dropped while it waits for its own. *)
Definition first := run_alone wire_down true (start 1) shared_start.
Definition second := run_alone wire_down true (start 2) first.1.2.
Definition glue : IO unit nat unit := match drops second.1.1 with Some [g] => g | _ => Panic end.
Definition retired := run_alone wire_down true glue second.1.2.
Definition calls : list (Sink * BusCall) := first.2 ++ second.2 ++ retired.2.

Example calls_made : (fun c => delta c) <$> calls = [1; 1; 0; -1].
Proof. vm_compute. reflexivity. Qed.

Lemma demo_run :
  sys_run (is_iteration hash small_seed (fun _ => None) (fun _ => Err "none") (fun _ => Err "none") run0
             (fun p => bool_decide (p = "http")) (fun _ => None) (fun s => Ok s) (fun _ => None) 0 login)
    (mkSys shared_start [] []) (mkSys retired.1.2 [Running first.1.1; Dropping []] calls).
Proof.
  eapply rtc_l; [apply (sys_spawn _ shared_start [] [] (start 1)); by exists (user 1)|].
  eapply rtc_l; [apply (sys_spawn _ shared_start [Running (start 1)] [] (start 2)); by exists (user 2)|].
  etransitivity.
  { apply (alone_sound wire_down true _ (start 1) shared_start [] [Running (start 2)] [] Running). by constructor. }
  fold first. cbn [app]. etransitivity.
  { apply (alone_sound wire_down true _ (start 2) first.1.2 [Running first.1.1] [] first.2 Running). by constructor. }
  fold second. cbn [app].
  assert (drops second.1.1 = Some [glue]) as Hd.
  { assert (length <$> drops second.1.1 = Some 1%nat) as Hl by (vm_compute; reflexivity). unfold glue.
    destruct (drops second.1.1) as [[|g [|]]|]; try discriminate Hl. reflexivity. }
  eapply rtc_l.
  { apply (sys_task _ second.1.2 [Running first.1.1] (Running second.1.1) [] (first.2 ++ second.2) None (Dropping [glue])).
    by constructor. }
  cbn [option_list]. rewrite app_nil_r. cbn [app]. etransitivity.
  { apply (alone_sound wire_down true _ glue second.1.2 [Running first.1.1] [] (first.2 ++ second.2)
             (fun io => Dropping [io])). by constructor. }
  fold retired. cbn [app].
  assert (retired.1.1 = Dropped) as -> by (vm_compute; reflexivity).
  eapply rtc_l.
  { apply (sys_task _ retired.1.2 [Running first.1.1] (Dropping [Dropped]) [] _ None (Dropping [])). constructor. }
  cbn [option_list app]. rewrite app_nil_r. unfold calls. rewrite app_assoc. apply rtc_refl.
Qed.

Example requests_in_flight_exact_witness :
  exists b : BusState, bs_in_flight b = 0 /\ bs_in_flight (bus_after 0 b calls) = 1.
Proof.
  exists (mkBusState (mkSampleChannel [] true) (MetricShards_new 1 0) 0). split; [reflexivity|].
  pose proof (proj2 (requests_in_flight_exact hash small_seed (fun _ => None) (fun _ => Err "none")
    (fun _ => Err "none") run0 (fun p => bool_decide (p = "http")) (fun _ => None) (fun s => Ok s) (fun _ => None) 0%nat login
    shared_start retired.1.2 [Running first.1.1; Dropping []] calls 0
    (mkBusState (mkSampleChannel [] true) (MetricShards_new 1 0) 0) demo_run eq_refl) [1%nat; 0%nat]) as Hn.
  apply Hn. constructor; [|constructor; [by split|constructor]].
  assert (length <$> drops first.1.1 = Some 1%nat) as Hl by (vm_compute; reflexivity). cbn [waits_for].
  destruct (drops first.1.1) as [gs|]; [|discriminate Hl]. exists gs. split; [reflexivity|]. by injection Hl.
Defined.

(** Alone, user 1 tries three times in its group and twice in its loop, and ends. *)
Definition finished := run_alone wire_down false (start 1) shared_start.

Definition outcome_of (io : IO unit nat unit) : option (IterationOutcome * Local nat unit) :=
  match io with Done o l => Some (o, l) | _ => None end.

Example demo_outcome : fst <$> outcome_of finished.1.1 = Some Completed.
Proof. vm_compute. reflexivity. Qed.

Example five_requests : length (filter (fun c => delta c = 1) finished.2) = 5%nat.
Proof. vm_compute. reflexivity. Qed.

Example iteration_keeps_user_witness :
  exists o l', io_run (start 1) (Done o l') /\ o = Completed /\ groups (l_vu l') = [] /\ iteration (l_vu l') = 1.
Proof.
  pose proof (alone_run wire_down false (start 1) shared_start : io_run (start 1) finished.1.1) as Hrun.
  pose proof demo_outcome as Ho.
  destruct finished.1.1 as [o l'| | | | | | | | | |]; try discriminate Ho. exists o, l'.
  destruct (iteration_keeps_user hash small_seed (fun _ => None) (fun _ => Err "none")
    (fun _ => Err "none") run0 (fun p => bool_decide (p = "http")) (fun _ => None) (fun s => Ok s) (fun _ => None) 0%nat login
    (user 1) l' o Hrun) as (_ & _ & Hit & _ & _ & Hg).
  split; [exact Hrun|]. split; [by injection Ho|]. split; [exact (Hg eq_refl)|exact Hit].
Defined.

Example iteration_terminates_witness :
  forallb step_ends (pg_steps login) = true
  /\ forall io, io_run (start 1) io -> stuck io -> (exists o l', io = Done o l') \/ panicked io.
Proof.
  assert (forallb step_ends (pg_steps login) = true) as Hends by (vm_compute; reflexivity). split; [exact Hends|].
  exact (proj2 (iteration_terminates hash small_seed (fun _ => None) (fun _ => Err "none")
    (fun _ => Err "none") run0 (fun p => bool_decide (p = "http")) (fun _ => None) (fun s => Ok s) (fun _ => None) 0%nat login
    (user 1) Hends)).
Defined.

(** A body of a request: an object with a template in it. *)
Definition body : Value := Object [("id", Text "${user}"); ("kind", Text "note"); ("tags", Array [Text "a"; Text "b-${n}"])].

Example compiled_json_equiv_witness :
  exists j, CompiledJson_compile body "message" = Ok j /\ cj_is_literal j = false
  /\ render_compiled (P := unit) (R := nat) (S := unit) (fun _ => None) (fun _ => Err "none") (fun _ => Err "none") run0 http0
       (fun _ => true) (fun _ => None) (fun s => Ok s) j
     = render_json (fun _ => None) (fun _ => Err "none") (fun _ => Err "none") run0 http0
       (fun _ => true) (fun _ => None) (fun s => Ok s) body.
Proof.
  assert (match CompiledJson_compile body "message" with Ok j => Some (cj_is_literal j) | Err _ => None end = Some false) as Hok by (vm_compute; reflexivity).
  destruct (CompiledJson_compile body "message") as [j|e] eqn:Hj; [|discriminate Hok]. exists j.
  split; [reflexivity|]. split; [by injection Hok|].
  refine (compiled_json_equiv (fun _ => None) (fun _ => Err "none") (fun _ => Err "none") run0 http0
           (fun _ => true) (fun _ => None) (fun s => Ok s) body "message" j _ Hj).
  cbn. unfold keys_sorted. repeat split; repeat constructor.
Defined.

(** An assertion that aborts the iteration, within a group: the steps after the group run. *)
Definition refuses : CompiledRequest :=
  mkCompiledRequest None "home" "http" "GET" (mkTemplate [Lit "http://h/"] "http://h/") [] [] CbNone None None [] []
    [mkCondition "status is 200" ActAbortIteration (KStatus (Some 200) None None)] [] None
    false None None None None None None None.
Definition requests_of (steps : list CompiledStep) : nat :=
  length (filter (fun c => delta c = 1)
    (run_alone wire_down false (iteration_of (steps_program steps) (user 1)) shared_start).2).

Example abort_iteration_goes_on :
  requests_of [CsRequest refuses; CsRequest home] = 1%nat
  /\ requests_of [CsGroup "g" [CsRequest refuses]; CsRequest home] = 2%nat.
Proof. vm_compute. by split. Qed.
End FlowDemo.
