(* ===== verification/Closed.v ===== *)
(** * Closed-model executors (crates/loadr-core/src/executor.rs)

    The executors whose virtual users loop on their own: [run_constant_vus],
    [run_ramping_vus], [run_iterations] and [run_externally_controlled], with the pool
    they run, the watchdog that ends them and the plumbing of an iteration's outcome.

    The code of a task between two [await]s is one transition, except that the loads and
    the exchanges of the shared iteration budget are transitions of their own: workers
    interleave between them.  A [pause] whose sender is gone counts as over.  An iteration (Flow.v) runs from [PcRun] until it is given
    an outcome or is dropped.  Time only goes forward; every read of the clock is of [now]. *)

From Stdlib Require Import SpecFloat.
From S2P Require Import Prelude Float64 Str Dur Executor Interp.

(** ** What the tasks of a scenario share *)

Record Env := mkEnv {
  now : Z;
  hard_stop : bool;
  soft_stop : option Z;
  cancelled : option Z;
  pause : bool;
  allowed : Z;
  allowed_open : bool;
  budget_left : Z;
  vu_ids : Z;
  active_vus : Z;
  aborts : list string;
  scenario_aborted : bool;
}.
(** [soft_stop] and [cancelled] hold the instant they were triggered; [scenario_aborted] records
    that an iteration asked for the end of the scenario. *)

Definition set_now (t : Z) (e : Env) : Env :=
  mkEnv t (hard_stop e) (soft_stop e) (cancelled e) (pause e) (allowed e) (allowed_open e) (budget_left e) (vu_ids e)
    (active_vus e) (aborts e) (scenario_aborted e).
Definition set_hard (e : Env) : Env :=
  mkEnv (now e) true (soft_stop e) (cancelled e) (pause e) (allowed e) (allowed_open e) (budget_left e) (vu_ids e)
    (active_vus e) (aborts e) (scenario_aborted e).
(** Triggering a token that is triggered already changes nothing. *)
Definition trigger_soft (e : Env) : Env :=
  mkEnv (now e) (hard_stop e) (Some (default (now e) (soft_stop e))) (cancelled e) (pause e) (allowed e) (allowed_open e)
    (budget_left e) (vu_ids e) (active_vus e) (aborts e) (scenario_aborted e).
Definition cancel (e : Env) : Env :=
  mkEnv (now e) (hard_stop e) (soft_stop e) (Some (default (now e) (cancelled e))) (pause e) (allowed e) (allowed_open e)
    (budget_left e) (vu_ids e) (active_vus e) (aborts e) (scenario_aborted e).
Definition set_pause (b : bool) (e : Env) : Env :=
  mkEnv (now e) (hard_stop e) (soft_stop e) (cancelled e) b (allowed e) (allowed_open e) (budget_left e) (vu_ids e)
    (active_vus e) (aborts e) (scenario_aborted e).
Definition set_allowed (n : Z) (open : bool) (e : Env) : Env :=
  mkEnv (now e) (hard_stop e) (soft_stop e) (cancelled e) (pause e) n open (budget_left e) (vu_ids e)
    (active_vus e) (aborts e) (scenario_aborted e).
Definition set_budget (n : Z) (e : Env) : Env :=
  mkEnv (now e) (hard_stop e) (soft_stop e) (cancelled e) (pause e) (allowed e) (allowed_open e) n (vu_ids e)
    (active_vus e) (aborts e) (scenario_aborted e).
Definition set_vu_ids (n : Z) (e : Env) : Env :=
  mkEnv (now e) (hard_stop e) (soft_stop e) (cancelled e) (pause e) (allowed e) (allowed_open e) (budget_left e) n
    (active_vus e) (aborts e) (scenario_aborted e).
Definition set_active_vus (n : Z) (e : Env) : Env :=
  mkEnv (now e) (hard_stop e) (soft_stop e) (cancelled e) (pause e) (allowed e) (allowed_open e) (budget_left e) (vu_ids e)
    n (aborts e) (scenario_aborted e).
Definition abort_test (reason : string) (e : Env) : Env :=
  mkEnv (now e) (hard_stop e) (soft_stop e) (cancelled e) (pause e) (allowed e) (allowed_open e) (budget_left e) (vu_ids e)
    (active_vus e) (aborts e ++ [reason]) (scenario_aborted e).
Definition abort_scenario (e : Env) : Env :=
  let e := cancel e in
  mkEnv (now e) (hard_stop e) (soft_stop e) (cancelled e) (pause e) (allowed e) (allowed_open e) (budget_left e) (vu_ids e)
    (active_vus e) (aborts e) true.

Definition is_cancelled (e : Env) : bool := bool_decide (is_Some (cancelled e)).
Definition is_soft_stopped (e : Env) : bool := bool_decide (is_Some (soft_stop e)).

(** ** Setups *)

Inductive IterationBudget :=
| BudgetPerVu (n : Z)
| BudgetShared.

(** The loop of a worker. *)
Inductive WorkerLoop :=
| WhileTime
| Budgeted (b : IterationBudget)
| Allocated (ramp_down_grace : Duration).

(** Who moves the target of a pool. *)
Inductive RampKind :=
| NoRamp
| RampStages (started start_vus : Z) (stages : list (Duration * Z)).

Record Setup := mkSetup {
  su_loop : WorkerLoop;
  su_pool : Z;
  su_deadline : option Z;
  su_graceful : Duration;
  su_ramp : RampKind;
  su_on_stop : bool;
}.

(** The arms of [run_scenario] that are closed models: the setup, the target the pool starts at and
    the shared budget; [external] is the target an external controller holds, if one is connected. *)
Definition run_setup (spec : ExecutorSpec) (graceful graceful_ramp_down : Duration) (on_stop : bool) (start : Z)
    (external : option Z) : option (Setup * Z * bool * Z) :=
  match spec with
  | ConstantVus vus duration =>
      Some (mkSetup WhileTime vus (Some (start + duration)) graceful NoRamp on_stop, 0, false, 0)
  | RampingVus start_vus stages =>
      Some (mkSetup (Allocated graceful_ramp_down) (foldl Z.max start_vus (snd <$> stages))
              (Some (start + total_of stages)) graceful (RampStages start start_vus stages) on_stop, start_vus, true, 0)
  | PerVuIterations vus iterations max_duration =>
      Some (mkSetup (Budgeted (BudgetPerVu iterations)) vus (Some (start + max_duration)) graceful NoRamp on_stop,
            0, false, 0)
  | SharedIterations vus iterations max_duration =>
      Some (mkSetup (Budgeted BudgetShared) vus (Some (start + max_duration)) graceful NoRamp on_stop,
            0, false, iterations)
  | ExternallyControlled max_vus duration =>
      (* Without a controller the sender of the target is dropped at once. *)
      Some (mkSetup (Allocated graceful_ramp_down) max_vus ((fun d => start + d) <$> duration) graceful NoRamp on_stop,
            default 0 external, bool_decide (is_Some external), 0)
  | ConstantArrivalRate _ _ _ _ | RampingArrivalRate _ _ _ _ => None
  end.

(** ** Workers *)

(** Why a worker left its loop: a stop or the deadline seen at the head, no iteration left, a
    cancellation seen in [wait_unpaused] or while parked, an iteration that ended it, or the end
    of the target's sender. *)
Inductive Leaving := LeftStopped | LeftExhausted | LeftWaiting | LeftEnded | LeftSenderGone.

(** Where a worker is: not polled yet, at the head of its loop, claiming a shared iteration (with the
    value it read), in [wait_unpaused], about to poll an iteration, in one, parked, past its loop, over. *)
Inductive Pc :=
| PcStart
| PcHead
| PcClaim (remaining : option Z)
| PcWait
| PcReady
| PcRun
| PcParked
| PcLeave
| PcDone.

#[export] Instance Pc_eq_dec : EqDecision Pc.
Proof. solve_decision. Defined.

(** [w_begun], [w_claims], [w_left], [w_cut] (when its iteration was cut by a cancellation) and [w_stops]
    (runs of [on_stop]) record what the worker did; [w_dealloc] is the end of a ramp-down grace. *)
Record Worker := mkWorker {
  w_pc : Pc;
  w_id : option Z;
  w_done : Z;
  w_active : bool;
  w_dealloc : option Z;
  w_begun : Z;
  w_claims : Z;
  w_left : option Leaving;
  w_cut : option Z;
  w_stops : Z;
}.

Definition worker_new : Worker := mkWorker PcStart None 0 false None 0 0 None None 0.

Definition at_pc (pc : Pc) (w : Worker) : Worker :=
  mkWorker pc (w_id w) (w_done w) (w_active w) (w_dealloc w) (w_begun w) (w_claims w) (w_left w) (w_cut w) (w_stops w).
Definition leave (r : Leaving) (w : Worker) : Worker :=
  mkWorker PcLeave (w_id w) (w_done w) (w_active w) (w_dealloc w) (w_begun w) (w_claims w) (Some r) (w_cut w) (w_stops w).
Definition with_id (id : Z) (w : Worker) : Worker :=
  mkWorker (w_pc w) (Some id) (w_done w) (w_active w) (w_dealloc w) (w_begun w) (w_claims w) (w_left w) (w_cut w) (w_stops w).
Definition with_active (b : bool) (w : Worker) : Worker :=
  mkWorker (w_pc w) (w_id w) (w_done w) b (w_dealloc w) (w_begun w) (w_claims w) (w_left w) (w_cut w) (w_stops w).
Definition with_dealloc (d : option Z) (w : Worker) : Worker :=
  mkWorker (w_pc w) (w_id w) (w_done w) (w_active w) d (w_begun w) (w_claims w) (w_left w) (w_cut w) (w_stops w).
Definition count_done (w : Worker) : Worker :=
  mkWorker (w_pc w) (w_id w) (u64_add (w_done w) 1) (w_active w) (w_dealloc w) (w_begun w) (w_claims w) (w_left w) (w_cut w)
    (w_stops w).
Definition claimed (w : Worker) : Worker :=
  mkWorker (w_pc w) (w_id w) (w_done w) (w_active w) (w_dealloc w) (w_begun w) (w_claims w + 1) (w_left w) (w_cut w) (w_stops w).
Definition begun (w : Worker) : Worker :=
  mkWorker (w_pc w) (w_id w) (w_done w) (w_active w) None (w_begun w + 1) (w_claims w) (w_left w) (w_cut w) (w_stops w).
Definition cut_at (t : Z) (w : Worker) : Worker :=
  mkWorker (w_pc w) (w_id w) (w_done w) (w_active w) (w_dealloc w) (w_begun w) (w_claims w) (w_left w) (Some t) (w_stops w).
Definition retired (w : Worker) : Worker :=
  mkWorker (w_pc w) (w_id w) (w_done w) (w_active w) (w_dealloc w) (w_begun w) (w_claims w) (w_left w) (w_cut w) (w_stops w + 1).

(** [new_worker]: the next id of the run. *)
Definition new_worker (w : Worker) (e : Env) : Worker * Env :=
  let id := u64_add (vu_ids e) 1 in (with_id id w, set_vu_ids id e).

Definition activate (w : Worker) (e : Env) : Worker * Env :=
  if w_active w then (w, e) else (with_active true w, set_active_vus (u64_add (active_vus e) 1) e).
Definition deactivate (w : Worker) (e : Env) : Worker * Env :=
  if w_active w then (with_active false w, set_active_vus (u64_sub (active_vus e) 1) e) else (w, e).

Section Worker.
Context (su : Setup) (i : nat).

Definition in_time (e : Env) : bool :=
  match su_deadline su with Some d => Z.ltb (now e) d | None => true end.

(** Before the loop: a pool creates its workers when they are first allowed. *)
Definition worker_begin (w : Worker) (e : Env) : Worker * Env :=
  match su_loop su with
  | Allocated _ => (at_pc PcHead w, e)
  | _ => let '(w, e) := new_worker w e in let '(w, e) := activate w e in (at_pc PcHead w, e)
  end.

Definition not_allowed (e : Env) : bool := Z.leb (allowed e) (Z.of_nat i).

Definition loop_head (w : Worker) (e : Env) : Worker * Env :=
  if is_cancelled e || is_soft_stopped e || negb (in_time e) then (leave LeftStopped w, e)
  else match su_loop su with
       | WhileTime => (at_pc PcWait w, e)
       | Budgeted BudgetShared => (at_pc (PcClaim None) w, e)
       | Budgeted (BudgetPerVu n) =>
           if Z.leb n (w_done w) then (leave LeftExhausted w, e) else (at_pc PcWait w, e)
       | Allocated _ =>
           if not_allowed e then let '(w, e) := deactivate w e in (at_pc PcParked w, e)
           else (at_pc PcWait w, e)
       end.

(** The value read from the shared budget. *)
Definition claim_read (w : Worker) (remaining : Z) : Worker :=
  if Z.eqb remaining 0 then leave LeftExhausted w else at_pc (PcClaim (Some remaining)) w.

(** [compare_exchange_weak]: it may fail though the value is the expected one. *)
Definition claim_exchange (w : Worker) (remaining : Z) (spurious : bool) (e : Env) : Worker * Env :=
  if Z.eqb (budget_left e) remaining && negb spurious
  then (at_pc PcWait (claimed w), set_budget (remaining - 1) e)
  else (claim_read w (budget_left e), e).

(** After [wait_unpaused]. *)
Definition unpaused (w : Worker) (e : Env) : Worker * Env :=
  match su_loop su with
  | Allocated _ =>
      let '(w, e) := activate w e in
      let '(w, e) := match w_id w with None => new_worker w e | Some _ => (w, e) end in
      (at_pc PcReady w, e)
  | _ => (at_pc PcReady w, e)
  end.

(** The first poll of [run_one]: the cancellation is looked at first. *)
Definition poll_iteration (w : Worker) (e : Env) : Worker * Env :=
  if is_cancelled e then (leave LeftEnded (count_done w), e) else (at_pc PcRun (begun w), e).

(** [run_one] on the outcome of the iteration. *)
Definition iteration_end (o : IterationOutcome) (w : Worker) (e : Env) : Worker * Env :=
  let w := count_done w in
  match o with
  | Completed => (at_pc PcHead w, e)
  | StopVu => (leave LeftEnded w, e)
  | AbortScenario => (leave LeftEnded w, abort_scenario e)
  | AbortTest reason => (leave LeftEnded w, abort_test reason e)
  end.

(** The end of the task: the worker is dropped, and a virtual user that ran retires. *)
Definition worker_end (w : Worker) (e : Env) : Worker * Env :=
  let '(w, e) := deactivate w e in
  let w := if su_on_stop su && Z.ltb 0 (w_begun w) then retired w else w in
  (at_pc PcDone w, e).

Inductive worker_step (w : Worker) (e : Env) : Worker -> Env -> Prop :=
| ws_begin w' e' : w_pc w = PcStart -> worker_begin w e = (w', e') -> worker_step w e w' e'
| ws_head w' e' : w_pc w = PcHead -> loop_head w e = (w', e') -> worker_step w e w' e'
| ws_load : w_pc w = PcClaim None -> worker_step w e (claim_read w (budget_left e)) e
| ws_exchange r spurious w' e' :
    w_pc w = PcClaim (Some r) -> claim_exchange w r spurious e = (w', e') -> worker_step w e w' e'
| ws_wait_cancelled : w_pc w = PcWait -> is_cancelled e = true -> worker_step w e (leave LeftWaiting w) e
| ws_unpaused w' e' : w_pc w = PcWait -> pause e = false -> unpaused w e = (w', e') -> worker_step w e w' e'
| ws_poll w' e' : w_pc w = PcReady -> poll_iteration w e = (w', e') -> worker_step w e w' e'
| ws_iteration o w' e' : w_pc w = PcRun -> iteration_end o w e = (w', e') -> worker_step w e w' e'
(** The iteration is dropped: the scenario is cancelled. *)
| ws_cut : w_pc w = PcRun -> is_cancelled e = true ->
    worker_step w e (leave LeftEnded (count_done (cut_at (now e) w))) e
(** The slot is taken away: after a grace that does not see it given back, the iteration is dropped. *)
| ws_dealloc grace : w_pc w = PcRun -> su_loop su = Allocated grace -> not_allowed e = true -> w_dealloc w = None ->
    worker_step w e (with_dealloc (Some (now e + grace)) w) e
| ws_dealloc_end grace t : w_pc w = PcRun -> su_loop su = Allocated grace -> w_dealloc w = Some t -> t <= now e ->
    worker_step w e (if not_allowed e then at_pc PcHead w else with_dealloc None w) e
(** [changed] returns, or fails once the sender is gone. *)
| ws_changed : w_pc w = PcParked -> worker_step w e (at_pc PcHead w) e
| ws_sender_gone : w_pc w = PcParked -> allowed_open e = false -> worker_step w e (leave LeftSenderGone w) e
| ws_parked_cancelled : w_pc w = PcParked -> is_cancelled e = true -> worker_step w e (leave LeftWaiting w) e
| ws_end w' e' : w_pc w = PcLeave -> worker_end w e = (w', e') -> worker_step w e w' e'.
End Worker.

(** ** The scenario *)

(** [arm_graceful_stop]: waiting for the end of the schedule or a soft stop, in the grace period that
    ends at an instant, over. *)
Inductive Watchdog :=
| WdArmed
| WdGrace (until : Z)
| WdOver.

Record Exec := mkExec {
  env : Env;
  watchdog : Watchdog;
  ramp_over : bool;
  workers : list Worker;
  finished : bool;
}.

Section Scenario.
Context (su : Setup).

Definition exec_start (allowed0 : Z) (open : bool) (budget : Z) (e : Env) : Exec :=
  mkExec (set_active_vus 0 (set_budget budget (set_allowed allowed0 open e))) WdArmed false
    (replicate (Z.to_nat (su_pool su)) worker_new) false.

Definition with_env (e : Env) (x : Exec) : Exec := mkExec e (watchdog x) (ramp_over x) (workers x) (finished x).

(** The deadline passes, or the run is stopped softly. *)
Definition soft_due (e : Env) : bool :=
  is_soft_stopped e || match su_deadline su with Some d => Z.leb d (now e) | None => false end.

Definition watchdog_poll (x : Exec) : Exec :=
  match watchdog x with
  | WdArmed =>
      if soft_due (env x) then mkExec (env x) (WdGrace (now (env x) + su_graceful su)) (ramp_over x) (workers x) (finished x)
      else if is_cancelled (env x) then mkExec (env x) WdOver (ramp_over x) (workers x) (finished x) else x
  | WdGrace until =>
      if Z.leb until (now (env x)) then mkExec (cancel (env x)) WdOver (ramp_over x) (workers x) (finished x)
      else if is_cancelled (env x) then mkExec (env x) WdOver (ramp_over x) (workers x) (finished x) else x
  | WdOver => x
  end.

(** A tick of the ramp: the target by the stages; the last tick, and a cancellation, end it. *)
Definition ramp_poll (x : Exec) : Exec :=
  match su_ramp su with
  | NoRamp => x
  | RampStages started start_vus stages =>
      if ramp_over x then x
      else if is_cancelled (env x)
      then mkExec (set_allowed (allowed (env x)) false (env x)) (watchdog x) true (workers x) (finished x)
      else
        let t := now (env x) - started in
        let over := Z.leb (total_of stages) t in
        mkExec (set_allowed (vus_at start_vus stages t) (negb over) (env x)) (watchdog x) over (workers x) (finished x)
  end.

(** What happens outside: time, the run's stops and pauses, other scenarios, an external controller. *)
Inductive env_step (e : Env) : Env -> Prop :=
| es_time t : now e <= t -> env_step e (set_now t e)
| es_hard : env_step e (set_hard e)
| es_soft : env_step e (trigger_soft e)
| es_pause b : env_step e (set_pause b e)
| es_target n : su_ramp su = NoRamp -> allowed_open e = true -> env_step e (set_allowed n true e)
(** Fewer than 2^64 virtual users are ever created. *)
| es_other_ids k : vu_ids e <= k -> k + su_pool su < u64_modulus -> env_step e (set_vu_ids k e).

(** What the scenario's own tasks do. *)
Inductive task_step (x : Exec) : Exec -> Prop :=
| xs_hard : hard_stop (env x) = true -> task_step x (with_env (cancel (env x)) x)
| xs_watchdog : task_step x (watchdog_poll x)
| xs_ramp : task_step x (ramp_poll x)
| xs_worker i w w' e' : workers x !! i = Some w -> worker_step su i w (env x) w' e' ->
    task_step x (mkExec e' (watchdog x) (ramp_over x) (<[i := w']> (workers x)) (finished x))
(** Every handle is joined: the scenario is cancelled, and over. *)
| xs_join : finished x = false -> Forall (fun w => w_pc w = PcDone) (workers x) ->
    task_step x (mkExec (cancel (env x)) (watchdog x) (ramp_over x) (workers x) true).

Inductive exec_step (x : Exec) : Exec -> Prop :=
| xs_env e' : env_step (env x) e' -> exec_step x (with_env e' x)
| xs_task y : task_step x y -> exec_step x y.

Definition exec_run : Exec -> Exec -> Prop := rtc exec_step.
End Scenario.

(** The runs of a specification. *)
Definition runs_of (spec : ExecutorSpec) (graceful graceful_ramp_down : Duration) (on_stop : bool) (external : option Z)
    (e0 : Env) (su : Setup) (x : Exec) : Prop :=
  exists allowed0 open budget,
    run_setup spec graceful graceful_ramp_down on_stop (now e0) external = Some (su, allowed0, open, budget)
    /\ exec_run su (exec_start su allowed0 open budget e0) x.

(** ** Invariant of a worker *)

Definition left_early (w : Worker) : bool :=
  match w_left w with
  | None | Some LeftExhausted => false
  | Some _ => true
  end.

Section Invariants.
Context (su : Setup).

(** The iterations a worker claimed, began and counted, by where it is. *)
Definition counts_ok (w : Worker) : Prop :=
  match su_loop su with
  | Budgeted BudgetShared =>
      match w_pc w with
      | PcWait | PcReady => w_claims w = w_begun w + 1
      | PcLeave | PcDone => w_claims w = w_begun w \/ (w_claims w = w_begun w + 1 /\ left_early w = true)
      | _ => w_claims w = w_begun w
      end
  | Budgeted (BudgetPerVu n) =>
      w_begun w <= n /\
      match w_pc w with
      | PcWait | PcReady => w_done w = w_begun w /\ w_done w < n
      | PcRun => w_begun w = w_done w + 1
      | PcLeave | PcDone => left_early w = true \/ (w_done w = w_begun w /\ n <= w_done w)
      | _ => w_done w = w_begun w
      end
  | _ => True
  end.

Definition budget_fits : Prop :=
  match su_loop su with Budgeted (BudgetPerVu n) => is_u64 n | _ => True end.

(** Whether its place says that a worker is counted: in an iteration or about to poll one it is; before its first turn, parked and
    over it is not; in between, a worker of a pool is when it still has its slot, and the others always are. *)
Definition active_ok (w : Worker) : Prop :=
  match w_pc w with
  | PcStart | PcDone => w_active w = false
  | PcParked => w_active w = false /\ match su_loop su with Allocated _ => True | _ => False end
  | PcReady | PcRun => w_active w = true
  | _ => match su_loop su with Allocated _ => True | _ => w_active w = true end
  end.

(** What its place says of a worker. *)
Definition place_ok (w : Worker) : Prop :=
  match w_pc w with
  | PcStart => w_id w = None
  | PcClaim o => su_loop su = Budgeted BudgetShared /\ (forall r, o = Some r -> r <> 0)
  | _ => True
  end
  /\ match w_pc w with
     | PcLeave | PcDone => is_Some (w_left w)
     | _ => w_left w = None
     end
  /\ w_stops w = match w_pc w with
                 | PcDone => if su_on_stop su && Z.ltb 0 (w_begun w) then 1 else 0
                 | _ => 0
                 end.

Record worker_ok (w : Worker) : Prop := {
  wk_counts : counts_ok w;
  wk_begun : 0 <= w_begun w /\ 0 <= w_claims w;
  wk_place : place_ok w;
  wk_active : active_ok w;
}.
End Invariants.

(** ** What a step of a worker does *)

Section Steps.
Context (su : Setup).

Definition active_delta (w w' : Worker) : Z := u64_from_bool (w_active w') - u64_from_bool (w_active w).

(** What the steps of workers never touch, and what they only trigger. *)
Record worker_effect (w : Worker) (e : Env) (w' : Worker) (e' : Env) : Prop := {
  we_now : now e' = now e;
  we_hard : hard_stop e' = hard_stop e;
  we_soft : soft_stop e' = soft_stop e;
  we_cancel : cancelled e' = cancelled e \/ (scenario_aborted e' = true /\ cancelled e' = Some (default (now e) (cancelled e)));
  we_aborted : scenario_aborted e = true -> scenario_aborted e' = true;
  we_budget : budget_left e' = budget_left e - (w_claims w' - w_claims w);
  we_claim : w_claims w' = w_claims w \/ (w_claims w' = w_claims w + 1 /\ budget_left e <> 0);
  we_active : active_vus e' = u64_wrap (active_vus e + active_delta w w') \/ (active_delta w w' = 0 /\ active_vus e' = active_vus e);
  we_id : (w_id w' = w_id w /\ vu_ids e' = vu_ids e)
          \/ (w_id w = None /\ w_id w' = Some (u64_add (vu_ids e) 1) /\ vu_ids e' = u64_add (vu_ids e) 1);
  we_cut : w_cut w' = w_cut w \/ (w_cut w' = Some (now e) /\ is_cancelled e = true);
  we_exhausted : w_left w' = Some LeftExhausted -> w_left w = Some LeftExhausted \/ budget_left e = 0
                 \/ exists n, su_loop su = Budgeted (BudgetPerVu n);
}.

Ltac worker_pieces :=
  unfold worker_begin, loop_head, claim_exchange, claim_read, unpaused, poll_iteration, iteration_end, worker_end, new_worker,
    activate, deactivate in *.

Lemma worker_step_effect i (w : Worker) (e : Env) (w' : Worker) (e' : Env) :
  worker_ok su w -> worker_step su i w e w' e' -> worker_effect w e w' e'.
Proof.
  intros [_ _ (Hp & _) Ha] Hstep. unfold active_ok in Ha. destruct Hstep; repeat match goal with Hx : w_pc w = _ |- _ => rewrite Hx in Hp end; worker_pieces; repeat (break_match || simplify_eq/=); constructor; cbn;
    unfold active_delta; cbn;
    repeat match goal with Hx : w_active _ = _ |- _ => rewrite Hx end; cbn;
    try done; try lia; try (by left); try (by right); try (by auto); try (left; f_equal; lia); bool_to_prop;
    try (right; split; [done|]; naive_solver); try (intros _; right; right; eauto); try (by auto).
Qed.

Lemma worker_new_ok : budget_fits su -> worker_ok su worker_new.
Proof.
  unfold budget_fits, counts_ok, is_u64. intros Hfits.
  constructor; unfold counts_ok, place_ok, active_ok; cbn; [|lia|done|done]. destruct (su_loop su) as [|[n|]|]; cbn; lia.
Qed.

Lemma loop_step_ok i (w : Worker) (e : Env) (w' : Worker) (e' : Env) :
  budget_fits su -> worker_ok su w -> worker_step su i w e w' e' -> worker_ok su w'.
Proof.
  unfold budget_fits, is_u64. intros Hfits [Hc Hn Hp Ha] Hstep. unfold counts_ok, place_ok, active_ok in *.
  destruct w as [pc id dn act dl bg cl lf ct st].
  destruct Hstep; cbn in *; subst pc; destruct Hp as (Hpc & Hl & Hs); worker_pieces; cbn in *.
  all: destruct (su_loop su) as [|[n|]|] eqn:Hloop; cbn in *; simplify_eq/=.
  all: repeat (match goal with
               | Hx : context [if ?b then _ else _] |- _ => destruct b eqn:?
               | |- context [if ?b then _ else _] => destruct b eqn:?
               | Hx : context [match ?o with Completed => _ | _ => _ end] |- _ => destruct o
               | Hx : context [match ?o with Some _ => _ | None => _ end] |- _ => destruct o eqn:?
               end; simplify_eq/=).
  all: constructor; unfold counts_ok, place_ok, active_ok, left_early in *; rewrite ?Hloop; cbn in *; try lia; try done.
  all: repeat match goal with Hx : ?b = _ |- context [if ?b then _ else _] => rewrite Hx end.
  all: bool_to_prop; rewrite ?u64_add_small by (unfold is_u64; lia).
  all: repeat split; try done; try lia; try (by destruct Hpc); try (by destruct Ha); try (by intros ? [= <-]); apply Hc.
Qed.
End Steps.

(** ** The invariant of a scenario *)

Section Lists.
Context {A : Type}.
Implicit Types (l : list A) (f : A -> Z).

Lemma Zsum_update f l i x y : l !! i = Some x -> Zsum (f <$> <[i := y]> l) = Zsum (f <$> l) + f y - f x.
Proof.
  revert i. induction l as [|z l IH]; intros i Hi; [done|]. destruct i as [|i]; cbn in Hi.
  - injection Hi as ->. change (<[0%nat := y]> (x :: l)) with (y :: l). rewrite !fmap_cons, !Zsum_cons. lia.
  - change (<[S i := y]> (z :: l)) with (z :: <[i := y]> l). rewrite !fmap_cons, !Zsum_cons, (IH i Hi). lia.
Qed.

End Lists.

Section System.
Context (su : Setup) (budget0 : Z).

Definition claims_of (x : Exec) : Z := Zsum (w_claims <$> workers x).
Definition begun_of (x : Exec) : Z := Zsum (w_begun <$> workers x).
Definition active_of (x : Exec) : Z := Zsum ((fun w => u64_from_bool (w_active w)) <$> workers x).

(** An instant before [t] by the grace at which the schedule was over or the run stopped softly. *)
Definition grace_over (e : Env) (t : Z) : Prop :=
  exists t0, t0 + su_graceful su <= t
    /\ ((exists s, soft_stop e = Some s /\ s <= t0) \/ (exists d, su_deadline su = Some d /\ d <= t0)).

(** What can have cancelled the scenario at [t]. *)
Definition cancel_cause (e : Env) (t : Z) : Prop := hard_stop e = true \/ scenario_aborted e = true \/ grace_over e t.

Record exec_ok (x : Exec) : Prop := {
  ok_workers : Forall (worker_ok su) (workers x);
  ok_count : length (workers x) = Z.to_nat (su_pool su);
  ok_claims : budget_left (env x) + claims_of x = budget0;
  ok_budget : 0 <= budget_left (env x);
  ok_exhausted : su_loop su = Budgeted BudgetShared -> forall w, w ∈ workers x -> w_left w = Some LeftExhausted ->
                 budget_left (env x) = 0;
  ok_active : active_vus (env x) = u64_wrap (active_of x);
  ok_soft : forall s, soft_stop (env x) = Some s -> s <= now (env x);
  ok_watchdog : forall t, watchdog x = WdGrace t -> grace_over (env x) t;
  ok_cancel : forall t, cancelled (env x) = Some t -> t <= now (env x) /\ (finished x = true \/ cancel_cause (env x) t);
  ok_cut : forall w t, w ∈ workers x -> w_cut w = Some t ->
           exists t0, t0 <= t /\ cancelled (env x) = Some t0 /\ cancel_cause (env x) t0;
  ok_finished : finished x = true -> Forall (fun w => w_pc w = PcDone) (workers x);
}.

Lemma grace_over_mono (e e' : Env) t :
  (forall s, soft_stop e = Some s -> soft_stop e' = Some s) -> grace_over e t -> grace_over e' t.
Proof. intros Hs (t0 & Ht & [(s & Hs0 & Hle)|Hd]); exists t0; split; [done| |done|by right]. left. exists s. split; [by apply Hs|done]. Qed.

Lemma cancel_cause_mono (e e' : Env) t :
  (hard_stop e = true -> hard_stop e' = true) -> (scenario_aborted e = true -> scenario_aborted e' = true) ->
  (forall s, soft_stop e = Some s -> soft_stop e' = Some s) -> cancel_cause e t -> cancel_cause e' t.
Proof.
  intros Hh Ha Hs [?|[?|Hg]]; [left; auto|right; left; auto|right; right]. by apply (grace_over_mono e).
Qed.

(** A change of the environment that leaves the workers alone. *)
Lemma ok_env (x x' : Exec) :
  exec_ok x -> workers x' = workers x -> finished x' = finished x -> now (env x) <= now (env x') ->
  budget_left (env x') = budget_left (env x) -> active_vus (env x') = active_vus (env x) ->
  (hard_stop (env x) = true -> hard_stop (env x') = true) ->
  (scenario_aborted (env x) = true -> scenario_aborted (env x') = true) ->
  (forall s, soft_stop (env x) = Some s -> soft_stop (env x') = Some s) ->
  (forall s, soft_stop (env x') = Some s -> s <= now (env x')) ->
  (forall t, watchdog x' = WdGrace t -> watchdog x = WdGrace t \/ grace_over (env x') t) ->
  (forall t, cancelled (env x) = Some t -> cancelled (env x') = Some t) ->
  (forall t, cancelled (env x') = Some t -> cancelled (env x) = Some t \/ (t <= now (env x') /\ cancel_cause (env x') t)) ->
  exec_ok x'.
Proof.
  intros [] Hw Hf Hnow Hb Ha Hh Hsa Hs Hsn Hwd Hc Hc'.
  assert (forall t, cancel_cause (env x) t -> cancel_cause (env x') t) as Hmono by (intros t; by apply cancel_cause_mono).
  constructor; unfold claims_of, active_of in *; rewrite ?Hw, ?Hf, ?Hb, ?Ha; try done.
  - intros t Ht. destruct (Hwd t Ht) as [Hold|Hg]; [|done]. by apply (grace_over_mono (env x)), ok_watchdog0.
  - intros t Ht. destruct (Hc' t Ht) as [Hold|[Hle Hcause]]; [|by split; [|right]].
    destruct (ok_cancel0 t Hold) as [Hle [?|?]]; (split; [lia|]); [by left|right; auto].
  - intros w t Hin Ht. destruct (ok_cut0 w t Hin Ht) as (t0 & Hle & Ht0 & Hcause). exists t0. auto.
Qed.

Lemma ok_env_step (x : Exec) (e' : Env) : exec_ok x -> env_step su (env x) e' -> exec_ok (with_env e' x).
Proof.
  intros Hx Hstep. pose proof (ok_soft x Hx) as Hsoft. apply (ok_env x); try done; destruct Hstep; cbn; try done; try lia;
    try (by left); try (by intros; left); eauto.
  all: try (by intros s ->).
  - intros s Hs. specialize (Hsoft s Hs). lia.
  - intros s [= <-]. destruct (soft_stop (env x)) as [s|] eqn:Hs; cbn; [by apply Hsoft|lia].
Qed.

Lemma ok_cancel_now (x : Exec) (wd : Watchdog) (t : Z) :
  exec_ok x -> cancel_cause (env x) t -> t <= now (env x) -> (forall u, wd = WdGrace u -> watchdog x = WdGrace u) ->
  exec_ok (mkExec (cancel (env x)) wd (ramp_over x) (workers x) (finished x)).
Proof.
  intros Hx Hcause Hle Hwd. apply (ok_env x); cbn; try done; try lia; try (by intros; left).
  - apply (ok_soft x Hx).
  - intros u Hu. left. by apply Hwd.
  - intros u ->. done.
  - intros u [= <-]. destruct (cancelled (env x)) as [t0|] eqn:Ht0; [by left|]. right. cbn. split; [lia|].
    destruct Hcause as [?|[?|(t0 & Ht & Hg)]]; [by left|by right; left|]. right. right. exists t0. split; [lia|done].
Qed.

Lemma ok_watchdog_poll (x : Exec) : exec_ok x -> exec_ok (watchdog_poll su x).
Proof.
  intros Hx. pose proof (ok_soft x Hx) as Hsoft. unfold watchdog_poll.
  assert (forall wd, (forall t, wd = WdGrace t -> watchdog x = WdGrace t \/ grace_over (env x) t) ->
          exec_ok (mkExec (env x) wd (ramp_over x) (workers x) (finished x))) as Hset.
  { intros wd Hwd. apply (ok_env x); cbn; try done; try (by intros; left). }
  destruct (watchdog x) as [|until|] eqn:Hw.
  - destruct (soft_due su (env x)) eqn:Hdue; [|destruct (is_cancelled (env x)); [by apply Hset|done]].
    apply Hset. intros t [= <-]. right. exists (now (env x)). split; [lia|].
    unfold soft_due, is_soft_stopped in Hdue. apply orb_prop in Hdue as [Hs|Hd].
    + left. apply bool_decide_eq_true in Hs as [s Hs]. exists s. split; [done|by apply Hsoft].
    + right. destruct (su_deadline su) as [d|]; [|done]. exists d. split; [done|]. by bool_to_prop.
  - destruct (Z.leb_spec until (now (env x))) as [Hle|_].
    + apply (ok_cancel_now x WdOver until); [done|right; right; by apply (ok_watchdog x Hx)|done|done].
    + destruct (is_cancelled (env x)); [by apply Hset|done].
  - done.
Qed.

Lemma ok_ramp_poll (x : Exec) : exec_ok x -> exec_ok (ramp_poll su x).
Proof.
  intros Hx. pose proof (ok_soft x Hx) as Hsoft. unfold ramp_poll. destruct (su_ramp su) as [|st sv stages]; [done|].
  destruct (ramp_over x); [done|]. destruct (is_cancelled (env x)); apply (ok_env x); cbn; try done; try (by intros; left).
Qed.

Lemma ok_join (x : Exec) :
  exec_ok x -> Forall (fun w => w_pc w = PcDone) (workers x) ->
  exec_ok (mkExec (cancel (env x)) (watchdog x) (ramp_over x) (workers x) true).
Proof.
  intros [] Hdone. constructor; cbn; try done.
  - intros t [= <-]. split; [|by left]. destruct (cancelled (env x)) as [t|] eqn:Ht; cbn; [by apply ok_cancel0|lia].
  - intros w t Hin Hc. destruct (ok_cut0 w t Hin Hc) as (t0 & Hle & Ht0 & Hcause). exists t0. by rewrite Ht0.
Qed.

Lemma active_step (a : Z) (ws : list Worker) (i : nat) (w w' : Worker) :
  ws !! i = Some w -> a = u64_wrap (Zsum ((fun w => u64_from_bool (w_active w)) <$> ws)) ->
  u64_wrap (a + active_delta w w') = u64_wrap (Zsum ((fun w => u64_from_bool (w_active w)) <$> <[i := w']> ws)).
Proof.
  intros Hi ->. rewrite (Zsum_update _ ws i w w' Hi). unfold active_delta, u64_wrap. rewrite Zplus_mod_idemp_l. f_equal. lia.
Qed.

Lemma ok_worker (x : Exec) (i : nat) (w w' : Worker) (e' : Env) :
  budget_fits su -> exec_ok x -> workers x !! i = Some w -> worker_step su i w (env x) w' e' ->
  exec_ok (mkExec e' (watchdog x) (ramp_over x) (<[i := w']> (workers x)) (finished x)).
Proof.
  intros Hfits [] Hi Hstep.
  assert (worker_ok su w) as Hw by (rewrite Forall_forall in ok_workers0; by eapply ok_workers0, list_elem_of_lookup_2).
  pose proof (loop_step_ok su i w (env x) w' e' Hfits Hw Hstep) as Hw'.
  destruct (worker_step_effect su i w (env x) w' e' Hw Hstep).
  assert (forall t, cancel_cause (env x) t -> cancel_cause e' t) as Hmono.
  { intros t. apply cancel_cause_mono; [by rewrite we_hard0|done|by rewrite we_soft0]. }
  assert (forall t, cancelled (env x) = Some t -> cancelled e' = Some t) as Hkeep.
  { intros t Ht. destruct we_cancel0 as [->|[_ ->]]; [done|]. by rewrite Ht. }
  constructor; cbn.
  - by apply Forall_insert.
  - by rewrite length_insert.
  - unfold claims_of in *. cbn. rewrite (Zsum_update w_claims (workers x) i w w' Hi), we_budget0. lia.
  - rewrite we_budget0. destruct we_claim0 as [->|[-> ?]]; lia.
  - intros Hs v Hv Hleft. assert (budget_left (env x) = 0 -> budget_left e' = 0) as Hz.
    { intros Hz. rewrite we_budget0. destruct we_claim0 as [->|[_ ?]]; [lia|done]. }
    apply list_elem_of_lookup in Hv as (j & Hj). apply list_lookup_insert_Some in Hj as [(-> & <- & _)|[_ Hj]].
    + destruct (we_exhausted0 Hleft) as [Hl|[Hl|[n Hn]]]; [|by apply Hz|by rewrite Hs in Hn].
      apply Hz, (ok_exhausted0 Hs w); [by eapply list_elem_of_lookup_2|done].
    + apply Hz, (ok_exhausted0 Hs v); [by eapply list_elem_of_lookup_2|done].
  - unfold active_of in *. cbn. destruct we_active0 as [->|[Hd ->]]; [by apply active_step|].
    rewrite <- (active_step _ _ i w w' Hi ok_active0), Hd, Z.add_0_r, ok_active0. unfold u64_wrap. by rewrite Zmod_mod.
  - rewrite we_soft0, we_now0. apply ok_soft0.
  - intros t Ht. apply (grace_over_mono (env x)); [by rewrite we_soft0|by apply ok_watchdog0].
  - intros t Ht. destruct we_cancel0 as [Hc|[Hsa Hc]]; rewrite Hc in Ht.
    + destruct (ok_cancel0 t Ht) as [Hle [?|?]]; rewrite we_now0; (split; [done|]); [by left|right; auto].
    + rewrite we_now0. injection Ht as <-. split; [|by right; right; left].
      destruct (cancelled (env x)) as [t0|] eqn:Ht0; cbn; [by apply ok_cancel0|lia].
  - intros v t Hv Hcut. apply list_elem_of_lookup in Hv as (j & Hj).
    assert (forall t, w_cut v = Some t -> v ∈ workers x -> exists t0, t0 <= t /\ cancelled e' = Some t0 /\ cancel_cause e' t0) as Hold.
    { intros t1 Hc Hin. destruct (ok_cut0 v t1 Hin Hc) as (t0 & Hle & Ht0 & Hcause). exists t0. auto. }
    apply list_lookup_insert_Some in Hj as [(-> & <- & _)|[_ Hj]]; [|by eapply Hold, list_elem_of_lookup_2].
    destruct we_cut0 as [Hc|[Hc Hcan]].
    + rewrite Hc in Hcut. destruct (ok_cut0 w t (list_elem_of_lookup_2 _ _ _ Hi) Hcut) as (t0 & Hle & Ht0 & Hcause). exists t0. auto.
    + rewrite Hc in Hcut. injection Hcut as <-. apply bool_decide_eq_true in Hcan as [t0 Ht0].
      destruct (ok_cancel0 t0 Ht0) as [Hle [Hfin|Hcause]]; [|by exists t0; auto].
      specialize (ok_finished0 Hfin). rewrite Forall_forall in ok_finished0.
      pose proof (ok_finished0 w (list_elem_of_lookup_2 _ _ _ Hi)) as Hpc. destruct Hstep; congruence.
  - intros Hfin. apply Forall_insert; [by apply ok_finished0|]. specialize (ok_finished0 Hfin). rewrite Forall_forall in ok_finished0.
    pose proof (ok_finished0 w (list_elem_of_lookup_2 _ _ _ Hi)) as Hpc. destruct Hstep; congruence.
Qed.

Lemma ok_step (x x' : Exec) : budget_fits su -> exec_ok x -> exec_step su x x' -> exec_ok x'.
Proof.
  intros Hfits Hx [e' He|y [Hh| | |i w w' e' Hi Hstep|Hfin Hdone]].
  - by apply ok_env_step.
  - by apply (ok_cancel_now x (watchdog x) (now (env x))); [|left|lia|].
  - by apply ok_watchdog_poll.
  - by apply ok_ramp_poll.
  - by apply (ok_worker x i w w' e').
  - by apply ok_join.
Qed.

Lemma ok_start allowed0 open (e : Env) :
  budget_fits su -> 0 <= budget0 -> cancelled e = None -> (forall s, soft_stop e = Some s -> s <= now e) ->
  exec_ok (exec_start su allowed0 open budget0 e).
Proof.
  intros Hfits Hb Hc Hs.
  assert (forall f : Worker -> Z, f worker_new = 0 -> Zsum (f <$> replicate (Z.to_nat (su_pool su)) worker_new) = 0) as Hsum.
  { intros f Hf. rewrite fmap_replicate, Hf, Zsum_replicate. lia. }
  constructor; cbn; try done.
  - apply Forall_replicate, worker_new_ok, Hfits.
  - by rewrite length_replicate.
  - unfold claims_of. cbn. rewrite Hsum by done. lia.
  - intros _ w Hw. apply elem_of_replicate in Hw as [-> _]. done.
  - unfold active_of. cbn. by rewrite Hsum.
  - rewrite Hc. done.
  - intros w t Hw. apply elem_of_replicate in Hw as [-> _]. done.
Qed.

Lemma ok_run (x x' : Exec) : budget_fits su -> exec_run su x x' -> exec_ok x -> exec_ok x'.
Proof. intros Hfits Hrun. induction Hrun as [|x y z Hs _ IH]; [done|]. intros Hx. by apply IH, (ok_step x). Qed.
End System.

(** ** What holds of every run *)

Section Theorems.
Context (spec : ExecutorSpec) (graceful graceful_ramp_down : Duration) (on_stop : bool) (external : option Z).
Notation runs := (runs_of spec graceful graceful_ramp_down on_stop external).

(** Where a worker is at work, and where it is there at all. *)
Definition at_work (pc : Pc) : bool := match pc with PcReady | PcRun => true | _ => false end.
Definition around (pc : Pc) : bool := match pc with PcStart | PcParked | PcDone => false | _ => true end.
Definition count_at (p : Pc -> bool) (x : Exec) : Z := Zsum ((fun w => u64_from_bool (p (w_pc w))) <$> workers x).
Definition is_pool (su : Setup) : bool := match su_loop su with Allocated _ => true | _ => false end.

(** A scenario that starts: not cancelled, and the past is past. *)
Definition fresh_env (e : Env) : Prop := cancelled e = None /\ forall s, soft_stop e = Some s -> s <= now e.

Definition spec_fits : Prop :=
  match spec with
  | PerVuIterations _ n _ | SharedIterations _ n _ => is_u64 n
  | _ => True
  end.

Lemma runs_ok (e0 : Env) (su : Setup) (x : Exec) :
  spec_fits -> fresh_env e0 -> runs e0 su x ->
  exists budget, exec_ok su budget x
    /\ match spec with
       | SharedIterations vus n _ => su_loop su = Budgeted BudgetShared /\ budget = n /\ su_pool su = vus
       | PerVuIterations _ n _ => su_loop su = Budgeted (BudgetPerVu n)
       | _ => True
       end.
Proof.
  unfold spec_fits, is_u64. intros Hfits [Hc Hs] (allowed0 & open & budget & Hsetup & Hrun). exists budget.
  assert (budget_fits su /\ 0 <= budget) as [Hbf Hb].
  { unfold budget_fits, is_u64. destruct spec; cbn in Hsetup; simplify_eq/=; lia. }
  split; [|by destruct spec; cbn in Hsetup; simplify_eq/=].
  apply (ok_run su budget _ x Hbf Hrun). by apply ok_start.
Qed.

(** C17: iteration budgets are exact.  However the workers interleave on the shared counter, an
    executor of shared iterations never begins more than its budget, and, unless a worker left
    early (stopped, out of time, or retired by its iteration), it begins exactly that many; and with a
    budget per virtual user, each one begins that many, or fewer if it left early. *)
Theorem iteration_budgets_exact (e0 : Env) (su : Setup) (x : Exec) :
  spec_fits -> fresh_env e0 -> runs e0 su x ->
  match spec with
  | SharedIterations vus n _ =>
      begun_of x <= n
      /\ (finished x = true -> 0 < vus -> begun_of x = n \/ Exists (fun w => left_early w = true) (workers x))
  | PerVuIterations _ n _ =>
      Forall (fun w => w_begun w <= n /\ (finished x = true -> w_begun w = n \/ left_early w = true)) (workers x)
  | _ => True
  end.
Proof.
  intros Hfits Hfresh Hrun. destruct (runs_ok e0 su x Hfits Hfresh Hrun) as (budget & [] & Hspec).
  unfold spec_fits, is_u64 in Hfits. clear Hrun. destruct spec; try done.
  - rewrite Forall_forall in ok_workers0 |- *. intros w Hin. specialize (ok_workers0 w Hin) as [Hc _ Hp _].
    unfold counts_ok in Hc. rewrite Hspec in Hc. destruct Hc as [Hle Hc]. split; [done|]. intros Hfin.
    specialize (ok_finished0 Hfin). rewrite Forall_forall in ok_finished0. rewrite (ok_finished0 w Hin) in Hc.
    destruct Hc as [?|[? ?]]; [by right|left; lia].
  - destruct Hspec as (Hloop & -> & <-).
    assert (Forall (fun w => w_begun w <= w_claims w) (workers x)) as Hle.
    { eapply Forall_impl; [exact ok_workers0|]. intros w [Hc _ _ _]. unfold counts_ok in Hc. rewrite Hloop in Hc.
      destruct (w_pc w); lia. }
    split; [pose proof (Zsum_fmap_le w_begun w_claims (workers x) Hle); unfold begun_of, claims_of in *; lia|].
    intros Hfin Hpool. destruct (decide (Exists (fun w => left_early w = true) (workers x))) as [?|Hnone]; [by right|left].
    rewrite <- Forall_Exists_neg in Hnone by (intros w; apply _). specialize (ok_finished0 Hfin).
    assert (Forall (fun w => w_begun w = w_claims w /\ w_left w = Some LeftExhausted) (workers x)) as Hall.
    { rewrite Forall_forall in ok_workers0, ok_finished0, Hnone |- *. intros w Hin.
      destruct (ok_workers0 w Hin) as [Hc _ (_ & Hl & _) _]. unfold counts_ok in Hc.
      rewrite (ok_finished0 w Hin), Hloop in Hc. rewrite (ok_finished0 w Hin) in Hl.
      specialize (Hnone w Hin). unfold left_early in Hnone, Hc. destruct Hl as [[] Hl]; rewrite Hl in *; try done.
      destruct Hc as [->|[_ ?]]; [done|done]. }
    assert (budget_left (env x) = 0) as Hz.
    { destruct (workers x) as [|w ws] eqn:Hws; [cbn in ok_count0; lia|]. apply (ok_exhausted0 Hloop w); [by left|].
      rewrite Forall_cons in Hall. apply Hall. }
    unfold begun_of, claims_of in *. rewrite Hz in ok_claims0.
    assert (w_begun <$> workers x = w_claims <$> workers x) as ->; [|lia].
    apply Forall_fmap_ext. eapply Forall_impl; [exact Hall|]. by intros w [].
Qed.

(** C18: iterations in flight are given their grace.  An iteration is cut by the end of its scenario only
    if the run is stopped hard, an iteration asked for the end of the scenario, or the graceful period has
    passed since the schedule ended or the run was stopped softly.  (A pool that shrinks drops the
    iterations of the slots it takes away after its own ramp-down grace.) *)
Theorem iterations_not_cut_early (e0 : Env) (su : Setup) (x : Exec) (w : Worker) (t : Z) :
  spec_fits -> fresh_env e0 -> runs e0 su x -> w ∈ workers x -> w_cut w = Some t ->
  hard_stop (env x) = true \/ scenario_aborted (env x) = true \/ grace_over su (env x) t.
Proof.
  intros Hfits Hfresh Hrun Hin Hcut. destruct (runs_ok e0 su x Hfits Hfresh Hrun) as (budget & [] & _).
  destruct (ok_cut0 w t Hin Hcut) as (t0 & Hle & _ & [?|[?|(t1 & Ht1 & Hg)]]); [by left|by right; left|right; right].
  exists t1. split; [lia|done].
Qed.

(** Once every worker is over nobody is counted. *)
Lemma gauge_empty (su : Setup) (budget : Z) (x : Exec) :
  exec_ok su budget x -> Forall (fun w => w_pc w = PcDone) (workers x) -> active_vus (env x) = 0.
Proof.
  intros [] Hdone. rewrite Forall_forall in ok_workers0, Hdone. rewrite ok_active0. unfold active_of.
  rewrite (Zsum_constant _ 0); [by rewrite Z.mul_0_r|]. intros w Hin. destruct (ok_workers0 w Hin) as [_ _ _ Ha].
  unfold active_ok in Ha. rewrite (Hdone w Hin) in Ha. by rewrite Ha.
Qed.

(** C19: the gauge of active virtual users says who is at work.  At every moment of a scenario that began uncancelled, its counts
    being machine integers, it is at least the number of workers in an iteration or about to begin one, and at most the number of
    those that have started, are not parked and are not over; in an executor without a pool it is exactly the number of workers that
    have started and are not over.  When the scenario is over it is zero, and every virtual user that ran an iteration has run the
    [on_stop] hook, if there is one, once, and one that never ran has not. *)
Theorem active_vus_exact (e0 : Env) (su : Setup) (x : Exec) :
  spec_fits -> fresh_env e0 -> runs e0 su x -> su_pool su < u64_modulus ->
  count_at at_work x <= active_vus (env x) <= count_at around x
  /\ (is_pool su = false -> active_vus (env x) = count_at around x)
  /\ (finished x = true ->
      active_vus (env x) = 0
      /\ Forall (fun w => w_stops w = if su_on_stop su && Z.ltb 0 (w_begun w) then 1 else 0) (workers x)).
Proof.
  intros Hfits Hfresh Hrun Hpool. destruct (runs_ok e0 su x Hfits Hfresh Hrun) as (budget & Hok & _). pose proof Hok as [].
  assert (count_at at_work x <= active_of x <= count_at around x /\ (is_pool su = false -> active_of x = count_at around x)) as [Hle Hex].
  { unfold count_at, active_of. clear -ok_workers0. induction ok_workers0 as [|w ws Hw _ IH]; [done|].
    rewrite !fmap_cons, !Zsum_cons. destruct Hw as [_ _ _ Ha]. unfold active_ok in Ha. unfold is_pool in *.
    destruct (w_pc w), (su_loop su), (w_active w); cbn [at_work around u64_from_bool]; try done; lia. }
  assert (count_at around x <= Z.of_nat (length (workers x))) as Hlen.
  { unfold count_at. clear. induction (workers x) as [|w ws IH]; [done|]. rewrite fmap_cons, Zsum_cons.
    destruct (w_pc w); cbn [around u64_from_bool length]; lia. }
  assert (0 <= count_at at_work x) as Hpos.
  { unfold count_at. clear. apply Zsum_nonneg, Forall_fmap, Forall_true. intros w. cbn. by destruct (at_work (w_pc w)). }
  assert (active_vus (env x) = active_of x) as Heq.
  { rewrite ok_active0. apply u64_wrap_small. unfold is_u64. assert (0 < u64_modulus) by done. lia. }
  rewrite Heq. split; [done|]. split; [done|]. intros Hfin. specialize (ok_finished0 Hfin).
  rewrite Forall_forall in ok_workers0, ok_finished0. split.
  - rewrite <- Heq. apply (gauge_empty su budget); [done|]. by apply Forall_forall.
  - rewrite Forall_forall. intros w Hin. destruct (ok_workers0 w Hin) as [_ _ (_ & _ & Hs) _].
    by rewrite (ok_finished0 w Hin) in Hs.
Qed.
End Theorems.

(** ** Once cancelled, a scenario can end *)

Section Drain.
Context (su : Setup).














End Drain.

Section Liveness.
Context (spec : ExecutorSpec) (graceful graceful_ramp_down : Duration) (on_stop : bool) (external : option Z).


End Liveness.

(** ** Executable schedules and runs at concrete inputs *)

Module ClosedDemo.

(** What a schedule asks for next; an iteration left alone completes. *)
Inductive Act := Turn (i : nat) | Time (t : Z) | Pause | Hard | HardSeen | Tick | Join.

Definition poll_worker (su : Setup) (i : nat) (w : Worker) (e : Env) : option (Worker * Env) :=
  match w_pc w with
  | PcStart => Some (worker_begin su w e)
  | PcHead => Some (loop_head su i w e)
  | PcClaim None => Some (claim_read w (budget_left e), e)
  | PcClaim (Some r) => Some (claim_exchange w r false e)
  | PcWait => if is_cancelled e then Some (leave LeftWaiting w, e) else if pause e then None else Some (unpaused su w e)
  | PcReady => Some (poll_iteration w e)
  | PcRun => Some (if is_cancelled e then (leave LeftEnded (count_done (cut_at (now e) w)), e) else iteration_end Completed w e)
  | PcParked => Some (if is_cancelled e then (leave LeftWaiting w, e)
                      else if allowed_open e then (at_pc PcHead w, e) else (leave LeftSenderGone w, e))
  | PcLeave => Some (worker_end su w e)
  | PcDone => None
  end.

Lemma poll_sound su i (w : Worker) (e : Env) (w' : Worker) (e' : Env) :
  poll_worker su i w e = Some (w', e') -> worker_step su i w e w' e'.
Proof.
  unfold poll_worker. destruct (w_pc w) as [| |[r|]| | | | | |] eqn:Hpc; intros H.
  - injection H as H. by apply ws_begin.
  - injection H as H. by apply ws_head.
  - injection H as H. by apply (ws_exchange su i w e r false).
  - injection H as <- <-. by apply ws_load.
  - destruct (is_cancelled e) eqn:Hc; [injection H as <- <-; by apply ws_wait_cancelled|].
    destruct (pause e) eqn:Hp; [done|]. injection H as H. by apply ws_unpaused.
  - injection H as H. by apply ws_poll.
  - destruct (is_cancelled e) eqn:Hc.
    + injection H as <- <-. by apply ws_cut.
    + apply (ws_iteration su i w e Completed); [done|congruence].
  - destruct (is_cancelled e) eqn:Hc; [injection H as <- <-; by apply ws_parked_cancelled|].
    destruct (allowed_open e) eqn:Ho; injection H as <- <-; [by apply ws_changed|by apply ws_sender_gone].
  - injection H as H. by apply ws_end.
  - done.
Qed.

Definition act (su : Setup) (a : Act) (x : Exec) : option Exec :=
  match a with
  | Turn i =>
      w ← workers x !! i;
      '(w', e') ← poll_worker su i w (env x);
      Some (mkExec e' (watchdog x) (ramp_over x) (<[i := w']> (workers x)) (finished x))
  | Time t => if Z.leb (now (env x)) t then Some (with_env (set_now t (env x)) x) else None
  | Pause => Some (with_env (set_pause true (env x)) x)
  | Hard => Some (with_env (set_hard (env x)) x)
  | HardSeen => if hard_stop (env x) then Some (with_env (cancel (env x)) x) else None
  | Tick => Some (watchdog_poll su x)
  | Join =>
      if bool_decide (Forall (fun w => w_pc w = PcDone) (workers x)) && negb (finished x)
      then Some (mkExec (cancel (env x)) (watchdog x) (ramp_over x) (workers x) true) else None
  end.

Lemma act_sound su a (x y : Exec) : act su a x = Some y -> exec_step su x y.
Proof.
  destruct a as [i|t| | | | |]; cbn; intros H.
  - destruct (workers x !! i) as [w|] eqn:Hi; [|done]. cbn in H.
    destruct (poll_worker su i w (env x)) as [[w' e']|] eqn:Hp; [|done]. injection H as <-.
    by apply xs_task, (xs_worker su x i w), poll_sound.
  - destruct (Z.leb_spec (now (env x)) t); [|done]. injection H as <-. by apply xs_env, es_time.
  - injection H as <-. apply xs_env, es_pause.
  - injection H as <-. apply xs_env, es_hard.
  - destruct (hard_stop (env x)) eqn:Hh; [|done]. injection H as <-. by apply xs_task, xs_hard.
  - injection H as <-. apply xs_task, xs_watchdog.
  - destruct (bool_decide _) eqn:Hd; [|done]. destruct (finished x) eqn:Hf; [done|]. injection H as <-.
    apply bool_decide_eq_true in Hd. by apply xs_task, xs_join.
Qed.

Definition play (su : Setup) (acts : list Act) (x : Exec) : option Exec :=
  foldl (fun o a => x ← o; act su a x) (Some x) acts.

Lemma play_none su acts : foldl (fun o a => x ← o; act su a x) None acts = None.
Proof. by induction acts. Qed.

Lemma play_sound su acts : forall (x y : Exec), play su acts x = Some y -> exec_run su x y.
Proof.
  unfold play. induction acts as [|a acts IH]; intros x y H; cbn in H; [injection H as ->; apply rtc_refl|].
  destruct (act su a x) as [z|] eqn:Ha.
  - apply (rtc_l _ x z); [by eapply act_sound|by apply IH].
  - by rewrite play_none in H.
Qed.

Definition e0 : Env := mkEnv 0 false None None false 0 false 0 0 0 [] false.
Lemma e0_fresh : fresh_env e0.
Proof. by split. Qed.

(** Two users share three iterations, polled in turn: some exchanges find the budget changed. *)
Definition shared : ExecutorSpec := SharedIterations 2 3 60000.
Definition su_shared : Setup := mkSetup (Budgeted BudgetShared) 2 (Some 60000) 1000 NoRamp true.
Definition x_shared : Exec := exec_start su_shared 0 false 3 e0.
Definition alternate (n : nat) : list Act := mjoin (replicate n [Turn 0; Turn 1]).
Definition rest_of (i : nat) (n : nat) : list Act := replicate n (Turn i).

Definition to_end : list Act := alternate 10 ++ rest_of 0 6 ++ rest_of 1 1.

(** The state a schedule leaves. *)
Definition end_of (su : Setup) (acts : list Act) (x : Exec) : Exec := default x (play su acts x).

Lemma end_of_run su acts (x : Exec) : exec_run su x (end_of su acts x).
Proof. unfold end_of. destruct (play su acts x) as [y|] eqn:Hp; [by eapply play_sound|apply rtc_refl]. Qed.

Lemma shared_runs acts : runs_of shared 1000 0 true None e0 su_shared (end_of su_shared acts x_shared).
Proof. exists 0, false, 3. split; [done|apply end_of_run]. Qed.

Lemma shared_fits : spec_fits shared.
Proof. done. Qed.
Lemma shared_pool : su_pool su_shared < u64_modulus.
Proof. done. Qed.

Definition x_end : Exec := end_of su_shared (to_end ++ [Join]) x_shared.

Example shared_three : finished x_end = true /\ begun_of x_end = 3 /\ active_vus (env x_end) = 0
  /\ (w_begun <$> workers x_end) = [2; 1] /\ (w_stops <$> workers x_end) = [1; 1].
Proof. vm_compute. done. Qed.

Lemma iteration_budgets_exact_witness :
  begun_of x_end <= 3
  /\ (finished x_end = true -> 0 < 2 -> begun_of x_end = 3 \/ Exists (fun w => left_early w = true) (workers x_end)).
Proof.
  exact (iteration_budgets_exact shared 1000 0 true None e0 su_shared x_end shared_fits e0_fresh (shared_runs _)).
Defined.

(** One user that loops for ten; its iteration outlives the schedule and its grace of five. *)
Definition looping : ExecutorSpec := ConstantVus 1 10.
Definition su_loop10 : Setup := mkSetup WhileTime 1 (Some 10) 5 NoRamp false.
Definition overrun : list Act := rest_of 0 4 ++ [Time 12; Tick; Time 17; Tick; Turn 0].
Definition x_cut : Exec := end_of su_loop10 overrun (exec_start su_loop10 0 false 0 e0).

Lemma looping_runs : runs_of looping 5 0 false None e0 su_loop10 x_cut.
Proof. exists 0, false, 0. split; [done|apply end_of_run]. Qed.

Lemma iterations_not_cut_early_witness :
  w_cut <$> workers x_cut = [Some 17]
  /\ (hard_stop (env x_cut) = true \/ scenario_aborted (env x_cut) = true \/ grace_over su_loop10 (env x_cut) 17).
Proof.
  split; [done|].
  assert (nth 0 (workers x_cut) worker_new ∈ workers x_cut /\ w_cut (nth 0 (workers x_cut) worker_new) = Some 17) as [Hin Hcut].
  { vm_compute. split; [by left|done]. }
  exact (iterations_not_cut_early looping 5 0 false None e0 su_loop10 x_cut _ 17 I e0_fresh looping_runs Hin Hcut).
Defined.

(** A pool of two of which one is wanted: one is in an iteration, the other parked. *)
Definition pool : ExecutorSpec := ExternallyControlled 2 None.
Definition su_two : Setup := mkSetup (Allocated 5) 2 None 5 NoRamp true.
Definition x_pool : Exec := end_of su_two (rest_of 0 4 ++ rest_of 1 2) (exec_start su_two 1 true 0 e0).

Lemma pool_runs : runs_of pool 5 5 true (Some 1) e0 su_two x_pool.
Proof. exists 1, true, 0. split; [done|apply end_of_run]. Qed.

Lemma active_vus_exact_witness :
  (w_pc <$> workers x_pool = [PcRun; PcParked] /\ 1 <= active_vus (env x_pool) <= 1)
  /\ (finished x_end = true -> active_vus (env x_end) = 0
      /\ Forall (fun w => w_stops w = if true && Z.ltb 0 (w_begun w) then 1 else 0) (workers x_end)).
Proof.
  split; [split; [vm_compute; reflexivity|]|].
  - exact (proj1 (active_vus_exact pool 5 5 true (Some 1) e0 su_two x_pool I e0_fresh pool_runs ltac:(vm_compute; reflexivity))).
  - exact (proj2 (proj2 (active_vus_exact shared 1000 0 true None e0 su_shared x_end shared_fits e0_fresh (shared_runs _) shared_pool))).
Defined.


End ClosedDemo.
