(* ===== verification/Diagnostics.v ===== *)
(** * Diagnostics (crates/loadr-config/src/diagnostics.rs)

    A finding of the validator, how it prints, the suggestion of a close name, and the
    index from document paths to positions in the source.  The index is built by a scan of
    the lines by indentation; a path that is not in it falls back to the longest of its
    ancestors that is.  The Jaro-Winkler distance is a parameter. *)

From Stdlib Require Import Ascii.
From S2P Require Import Prelude Float64 Str Dur.

Inductive Severity := Warning | Error.

#[export] Instance Severity_eq_dec : EqDecision Severity.
Proof. solve_decision. Defined.

Record Diagnostic := mkDiagnostic {
  dg_severity : Severity;
  dg_path : string;
  dg_message : string;
  dg_line : option nat;
  dg_column : option nat;
  dg_suggestion : option string;
}.

Definition Diagnostic_error (path message : string) : Diagnostic := mkDiagnostic Error path message None None None.
Definition Diagnostic_warning (path message : string) : Diagnostic := mkDiagnostic Warning path message None None None.
Definition with_suggestion (suggestion : string) (d : Diagnostic) : Diagnostic :=
  mkDiagnostic (dg_severity d) (dg_path d) (dg_message d) (dg_line d) (dg_column d) (Some suggestion).
Definition with_position (line column : nat) (d : Diagnostic) : Diagnostic :=
  mkDiagnostic (dg_severity d) (dg_path d) (dg_message d) (Some line) (Some column) (dg_suggestion d).

Definition nat_to_string (n : nat) : string := Z_to_string (Z.of_nat n).

(** [Display]. *)
Definition Diagnostic_to_string (d : Diagnostic) : string :=
  let sev := match dg_severity d with Error => "error" | Warning => "warning" end in
  match dg_line d, dg_column d with
  | Some l, Some c => sev +:+ " at line " +:+ nat_to_string l +:+ ", column " +:+ nat_to_string c
  | Some l, None => sev +:+ " at line " +:+ nat_to_string l
  | None, _ => sev
  end
  +:+ (if str_is_empty (dg_path d) then "" else " (" +:+ dg_path d +:+ ")")
  +:+ ": " +:+ dg_message d
  +:+ match dg_suggestion d with Some s => " — " +:+ s | None => "" end.

(** ** Suggestions *)

Section Suggest.
Context (jaro_winkler : string -> string -> f64).

Definition closer (input : string) (best : option (f64 * string)) (cand : string) : option (f64 * string) :=
  let score := jaro_winkler input cand in
  if f64_lt (from_option fst f64_zero best) score then Some (score, cand) else best.

Definition did_you_mean (input : string) (candidates : list string) : option string :=
  match foldl (closer input) None candidates with
  | Some (score, cand) =>
      if f64_le (f64_dec 78 2) score then Some ("did you mean `" +:+ cand +:+ "`?") else None
  | None => None
  end.
End Suggest.

(** ** The index *)

(** A path and its position, both counted from 1. *)
Definition SpanEntry : Type := string * nat * nat.
Definition SpanIndex : Type := list SpanEntry.

(** [str::lines]. *)
Definition newline : ascii := byte_at 10.
Definition strip_cr (l : list ascii) : list ascii :=
  match reverse l with
  | c :: r => if Ascii.eqb c (byte_at 13) then reverse r else l
  | [] => l
  end.
Fixpoint lines_l (parts : list (list ascii)) : list (list ascii) :=
  match parts with
  | [] => []
  | [last_] => match last_ with [] => [] | _ => [last_] end
  | l :: parts => strip_cr l :: lines_l parts
  end.
Definition str_lines (s : string) : list (list ascii) := lines_l (split_l newline (chars s)).

Fixpoint drop_while (c : ascii) (l : list ascii) : list ascii :=
  match l with
  | a :: l' => if Ascii.eqb a c then drop_while c l' else l
  | [] => []
  end.
(** [trim_matches(c)]. *)
Definition trim_matches (c : ascii) (l : list ascii) : list ascii :=
  reverse (drop_while c (reverse (drop_while c l))).

(** [find_key_colon]: quotes open and not closed, and the depth of flow brackets. *)
Definition double_quote : ascii := byte_at 34.
Fixpoint key_colon (s : list ascii) (i : nat) (in_single in_double : bool) (depth : nat) : option nat :=
  match s with
  | [] => None
  | b :: s' =>
      let free := negb in_single && negb in_double in
      if Ascii.eqb b "'" && negb in_double then key_colon s' (S i) (negb in_single) in_double depth
      else if Ascii.eqb b double_quote && negb in_single then key_colon s' (S i) in_single (negb in_double) depth
      else if (Ascii.eqb b "{" || Ascii.eqb b "[") && free then key_colon s' (S i) in_single in_double (S depth)
      else if (Ascii.eqb b "}" || Ascii.eqb b "]") && free then key_colon s' (S i) in_single in_double (pred depth)
      else if Ascii.eqb b ":" && free && Nat.eqb depth 0
              && match s' with [] => true | c :: _ => Ascii.eqb c " " end
           then Some i
      else key_colon s' (S i) in_single in_double depth
  end.
Definition find_key_colon (s : list ascii) : option nat := key_colon s 0 false false 0.

(** The open levels, innermost first: the indentation of each and its segment of the path. *)
Definition Stack : Type := list (nat * string).

Definition push_segment (out seg : string) : string :=
  if starts_with seg "[" then out +:+ seg
  else (if str_is_empty out then out else out +:+ ".") +:+ seg.
Definition path_of (stack : Stack) : string := foldl push_segment "" (reverse stack.*2).

Fixpoint pop_levels (indent : nat) (stack : Stack) : Stack :=
  match stack with
  | (top, seg) :: stack' => if Nat.leb indent top then pop_levels indent stack' else stack
  | [] => []
  end.

(** [parse::<usize>]. *)
Definition parse_usize (s : string) : option nat :=
  let r := match chars s with "+"%char :: r => r | r => r end in
  match take_digits r with
  | ((_ :: _) as d, []) => if Z.ltb (digits_val d) u64_modulus then Some (Z.to_nat (digits_val d)) else None
  | _ => None
  end.

Example parse_usize_ok : parse_usize "12" = Some 12%nat /\ parse_usize "" = None.
Proof. vm_compute. done. Qed.

Definition has_separator (s : string) : bool := existsb (fun c => Ascii.eqb c "." || Ascii.eqb c "[") (chars s).

(** The number of an entry that is an item of the sequence at [parent]. *)
Definition item_number (parent : string) (e : SpanEntry) : option nat :=
  match strip_prefix e.1.1 (parent +:+ "[") with
  | Some r => if has_separator r then None else strip_suffix r "]" ≫= parse_usize
  | None => None
  end.
Definition next_item (parent : string) (entries : SpanIndex) : nat :=
  match head (omap (item_number parent) (reverse entries)) with
  | Some n => S n
  | None => 0
  end.

(** [- ], or a dash alone. *)
Definition strip_dash (rest : list ascii) : option (list ascii) :=
  match strip_prefix_l ["-"; " "]%char rest with
  | Some after => Some after
  | None => if bool_decide (rest = ["-"%char]) then Some [] else None
  end.

(** What a line has left after its dashes, with the levels and the entries they opened. *)
Fixpoint open_items (fuel line_no : nat) (rest : list ascii) (indent : nat) (stack : Stack) (entries : SpanIndex) :
    list ascii * nat * Stack * SpanIndex :=
  match fuel, strip_dash rest with
  | S fuel, Some after =>
      let parent := path_of stack in
      let seg := "[" +:+ nat_to_string (next_item parent entries) +:+ "]" in
      let entries := entries ++ [(parent +:+ seg, line_no, S indent)] in
      let stack := (indent, seg) :: stack in
      match trim_start_l after with
      | [] => ([], (indent + 2)%nat, stack, entries)
      | rest => open_items fuel line_no rest (indent + 2) stack entries
      end
  | _, _ => (rest, indent, stack, entries)
  end.

Definition scan_key (line_no len : nat) (rest : list ascii) (indent : nat) (stack : Stack) (entries : SpanIndex) :
    Stack * SpanIndex :=
  match find_key_colon rest with
  | Some colon =>
      let key := of_chars (trim_matches "'" (trim_matches double_quote (trim_l (take colon rest)))) in
      if str_is_empty key then (stack, entries)
      else
        let path := path_of stack in
        let path := if negb (str_is_empty path) && negb (starts_with key "[") then path +:+ "." else path in
        ((indent, key) :: stack, entries ++ [(path +:+ key, line_no, (len - length rest + 1)%nat)])
  | None => (stack, entries)
  end.

Definition scan_line (line_no : nat) (raw : list ascii) (stack : Stack) (entries : SpanIndex) : Stack * SpanIndex :=
  let trimmed_start := trim_start_l raw in
  match trimmed_start with
  | [] => (stack, entries)
  | c :: _ =>
      if Ascii.eqb c "#" then (stack, entries)
      else
        let indent := (length raw - length trimmed_start)%nat in
        let '(rest, indent, stack, entries) :=
          open_items (length raw) line_no trimmed_start indent (pop_levels indent stack) entries in
        match rest with
        | [] => (stack, entries)
        | _ => scan_key line_no (length raw) rest indent stack entries
        end
  end.

Fixpoint scan (line_no : nat) (lines : list (list ascii)) (stack : Stack) (entries : SpanIndex) : SpanIndex :=
  match lines with
  | [] => entries
  | raw :: lines =>
      let '(stack, entries) := scan_line line_no raw stack entries in
      scan (S line_no) lines stack entries
  end.

Definition SpanIndex_build (source : string) : SpanIndex := scan 1 (str_lines source) [] [].

Definition find_entry (path : string) (index : SpanIndex) : option (nat * nat) :=
  match List.find (fun e : SpanEntry => bool_decide (e.1.1 = path)) index with
  | Some (_, line, column) => Some (line, column)
  | None => None
  end.

(** The last separator, [.] or [[]. *)
Fixpoint rfind_separator (s : list ascii) : option nat :=
  match s with
  | [] => None
  | c :: s =>
      match rfind_separator s with
      | Some i => Some (S i)
      | None => if Ascii.eqb c "." || Ascii.eqb c "[" then Some 0%nat else None
      end
  end.

Fixpoint lookup_from (fuel : nat) (candidate : list ascii) (index : SpanIndex) : option (nat * nat) :=
  match find_entry (of_chars candidate) index with
  | Some p => Some p
  | None =>
      match fuel, rfind_separator candidate with
      | S fuel, Some idx =>
          match take idx candidate with
          | [] => None
          | shorter => lookup_from fuel shorter index
          end
      | _, _ => None
      end
  end.
Definition SpanIndex_lookup (index : SpanIndex) (path : string) : option (nat * nat) :=
  lookup_from (str_len path) (chars path) index.

Definition locate (index : SpanIndex) (d : Diagnostic) : Diagnostic :=
  match dg_line d with
  | Some _ => d
  | None =>
      match SpanIndex_lookup index (dg_path d) with
      | Some (line, column) =>
          mkDiagnostic (dg_severity d) (dg_path d) (dg_message d) (Some line) (Some column) (dg_suggestion d)
      | None => d
      end
  end.

(** ** Positions are positions of the source *)

Lemma first_stripped_length (ws : list (list ascii)) (s r : list ascii) :
  first_stripped ws s = Some r -> (length r <= length s)%nat.
Proof.
  induction ws as [|w ws IH]; cbn; [done|]. destruct (strip_prefix_l w s) as [x|] eqn:Hs; [|done].
  intros [= ->]. apply strip_prefix_l_Some in Hs. subst s. rewrite length_app. lia.
Qed.

Lemma trim_start_length (l : list ascii) : (length (trim_start_l l) <= length l)%nat.
Proof.
  unfold trim_start_l. enough (forall n l, (length (trim_fuel ws_forward n l) <= length l)%nat) as H by apply H. clear l.
  intros n. induction n as [|n IH]; intros l; cbn [trim_fuel]; [lia|].
  destruct (first_stripped ws_forward l) as [r|] eqn:Hr; [|lia]. apply first_stripped_length in Hr. specialize (IH r). lia.
Qed.

Lemma strip_dash_length (rest after : list ascii) :
  strip_dash rest = Some after ->
  (length rest = 2 + length after)%nat \/ (rest = ["-"%char] /\ after = []).
Proof.
  unfold strip_dash. destruct (strip_prefix_l ["-"; " "]%char rest) as [x|] eqn:Hs.
  - intros [= <-]. apply strip_prefix_l_Some in Hs. subst rest. by left.
  - case_bool_decide; [|done]. intros [= <-]. by right.
Qed.

(** A position within a line of that length. *)
Definition entry_in (line_no len : nat) (e : SpanEntry) : Prop := e.1.2 = line_no /\ (1 <= e.2 <= len)%nat.

Lemma open_items_spec (fuel line_no len : nat) rest indent stack entries rest' indent' stack' entries' :
  open_items fuel line_no rest indent stack entries = (rest', indent', stack', entries') ->
  (indent + length rest <= len)%nat ->
  (length rest' <= len)%nat
  /\ exists new, entries' = entries ++ new /\ Forall (entry_in line_no len) new.
Proof.
  revert rest indent stack entries. induction fuel as [|fuel IH]; intros rest indent stack entries; cbn.
  { intros [= <- <- <- <-] Hlen. split; [lia|]. exists []. by rewrite app_nil_r. }
  destruct (strip_dash rest) as [after|] eqn:Hd; cycle 1.
  { intros [= <- <- <- <-] Hlen. split; [lia|]. exists []. by rewrite app_nil_r. }
  intros Hrun Hlen. set (e := (path_of stack +:+ _, line_no, S indent)) in Hrun.
  assert (entry_in line_no len e) as He.
  { split; [done|]. subst e. cbn [snd]. pose proof (strip_dash_length _ _ Hd) as [?|[Hr _]]; [lia|].
    apply (f_equal length) in Hr. cbn in Hr. lia. }
  destruct (trim_start_l after) as [|c l] eqn:Ht.
  - injection Hrun as <- <- <- <-. split; [cbn; lia|]. exists [e]. split; [done|]. by constructor.
  - assert (length (c :: l) <= length after)%nat as Hl by (rewrite <- Ht; apply trim_start_length).
    apply IH in Hrun as (Hr & new & -> & Hnew).
    + split; [done|]. exists (e :: new). rewrite <- app_assoc. split; [done|]. by constructor.
    + destruct (strip_dash_length _ _ Hd) as [?|[_ ->]]; [lia|cbn in Hl; lia].
Qed.

Lemma scan_line_spec (line_no : nat) (raw : list ascii) stack entries stack' entries' :
  scan_line line_no raw stack entries = (stack', entries') ->
  exists new, entries' = entries ++ new /\ Forall (entry_in line_no (length raw)) new.
Proof.
  unfold scan_line. intros Hscan.
  assert (forall s : Stack, (s, entries) = (stack', entries') ->
          exists new, entries' = entries ++ new /\ Forall (entry_in line_no (length raw)) new) as Hnone.
  { intros s [= _ <-]. exists []. by rewrite app_nil_r. }
  pose proof (trim_start_length raw) as Hlen. destruct (trim_start_l raw) as [|c l]; [by eapply Hnone|].
  destruct (Ascii.eqb c "#"); [by eapply Hnone|].
  destruct (open_items _ _ _ _ _ _) as [[[rest indent] st] en] eqn:Hopen.
  apply (open_items_spec _ _ (length raw)) in Hopen as (Hrest & new & -> & Hnew); [|cbn in *; lia].
  assert (forall s, (s, entries ++ new) = (stack', entries') ->
          exists new, entries' = entries ++ new /\ Forall (entry_in line_no (length raw)) new) as Hdone.
  { intros s [= _ <-]. by exists new. }
  destruct rest as [|r rest]; [by eapply Hdone|]. unfold scan_key in Hscan.
  destruct (find_key_colon (r :: rest)) as [colon|]; [|by eapply Hdone].
  destruct (str_is_empty _); [by eapply Hdone|]. injection Hscan as _ <-.
  eexists (new ++ [_]). split; [by rewrite <- app_assoc|]. apply Forall_app. split; [done|]. repeat constructor; cbn in *; lia.
Qed.

Lemma scan_spec (lines : list (list ascii)) (line_no : nat) stack entries :
  forall e, e ∈ scan line_no lines stack entries ->
  e ∈ entries \/ exists i raw, lines !! i = Some raw /\ entry_in (line_no + i) (length raw) e.
Proof.
  revert line_no stack entries. induction lines as [|raw lines IH]; intros line_no stack entries e; cbn; [by left|].
  destruct (scan_line line_no raw stack entries) as [st en] eqn:Hs. apply scan_line_spec in Hs as (new & -> & Hnew).
  intros [[?|Hin]%elem_of_app|(i & r & Hi & He)]%IH.
  - by left.
  - right. exists 0%nat, raw. rewrite Nat.add_0_r. split; [done|]. rewrite Forall_forall in Hnew. by apply Hnew.
  - right. exists (S i), r. split; [done|]. by replace (line_no + S i)%nat with (S line_no + i)%nat by lia.
Qed.

(** Every position the index holds is a position of the source: a line of it, and a column within the
    bytes of that line. *)
Theorem positions_in_source (source path : string) (line column : nat) :
  SpanIndex_lookup (SpanIndex_build source) path = Some (line, column) ->
  exists raw, str_lines source !! (line - 1)%nat = Some raw /\ (1 <= line)%nat /\ (1 <= column <= length raw)%nat.
Proof.
  assert (forall p, find_entry p (SpanIndex_build source) = Some (line, column) ->
          exists raw, str_lines source !! (line - 1)%nat = Some raw /\ (1 <= line)%nat /\ (1 <= column <= length raw)%nat)
    as Hentry.
  { intros p. unfold find_entry, SpanIndex_build. destruct (List.find _ _) as [[[q l] c]|] eqn:Hf; [|done].
    intros [= -> ->]. apply List.find_some in Hf as [Hin _]. apply list_elem_of_In in Hin.
    apply scan_spec in Hin as [Hin|(i & raw & Hi & Hline & Hcol)]; [by apply not_elem_of_nil in Hin|].
    cbn in Hline, Hcol. exists raw.
    assert ((line - 1)%nat = i) as -> by lia. split; [done|]. lia. }
  unfold SpanIndex_lookup. generalize (str_len path) as n. intros n. generalize (chars path) as cand.
  induction n as [|n IH]; intros cand; cbn [lookup_from]; (destruct (find_entry _ _) as [p|] eqn:Hf; [intros [= ->]; exact (Hentry _ Hf)|]); [done|].
  destruct (rfind_separator cand) as [idx|]; [|done]. destruct (take idx cand) as [|c l] eqn:Ht; [done|apply IH].
Qed.

(** ** The fallback is to the nearest ancestor *)

Definition is_separator (c : ascii) : Prop := c = "."%char \/ c = "["%char.

(** The path itself, or what is left of it at a separator. *)
Definition ancestor (q p : list ascii) : Prop := q = p \/ (q <> [] /\ exists c r, p = q ++ c :: r /\ is_separator c).

Lemma rfind_separator_None (s : list ascii) : rfind_separator s = None -> Forall (fun c => ~ is_separator c) s.
Proof.
  induction s as [|c s IH]; cbn; [by constructor|]. destruct (rfind_separator s); [done|].
  destruct (Ascii.eqb_spec c "."), (Ascii.eqb_spec c "["); try done. intros _. constructor; [|by apply IH].
  by intros [?|?].
Qed.

Lemma rfind_separator_Some (s : list ascii) (i : nat) :
  rfind_separator s = Some i ->
  (exists c, s !! i = Some c /\ is_separator c) /\ Forall (fun c => ~ is_separator c) (drop (S i) s).
Proof.
  revert i. induction s as [|c s IH]; intros i; cbn; [done|]. destruct (rfind_separator s) as [j|] eqn:Hj.
  - intros [= <-]. cbn. by apply IH.
  - pose proof (rfind_separator_None s Hj) as Hnone.
    destruct (Ascii.eqb_spec c "."), (Ascii.eqb_spec c "["); try done; intros [= <-]; cbn;
      (split; [exists c; split; [done|]|by rewrite drop_0]); by (left + right).
Qed.

(** An ancestor is the path, or an ancestor of what is left at the last separator. *)
Lemma ancestor_step (q p : list ascii) :
  ancestor q p -> q = p \/ exists i, rfind_separator p = Some i /\ take i p <> [] /\ ancestor q (take i p).
Proof.
  intros [->|(Hq & c & r & -> & Hc)]; [by left|]. right.
  destruct (rfind_separator (q ++ c :: r)) as [i|] eqn:Hi; cycle 1.
  { apply rfind_separator_None in Hi. rewrite Forall_app, Forall_cons in Hi. by destruct Hi as (_ & ? & _). }
  apply rfind_separator_Some in Hi as [(c' & Hc' & _) Hrest].
  assert (length q <= i)%nat as Hle.
  { destruct (Nat.le_gt_cases (length q) i); [done|]. exfalso. rewrite Forall_forall in Hrest. apply (Hrest c); [|done].
    rewrite drop_app_le by lia. apply elem_of_app. right. by left. }
  exists i. split; [done|].
  destruct (decide (i = length q)) as [->|Hne].
  - rewrite take_app_length. split; [done|by left].
  - rewrite take_app_ge by lia. destruct (i - length q)%nat as [|k] eqn:Hk; [lia|]. cbn [take firstn]. split; [by destruct q|].
    right. split; [done|]. by exists c, (take k r).
Qed.

Lemma ancestor_length (q p : list ascii) : ancestor q p -> (length q <= length p)%nat.
Proof. intros [->|(_ & c & r & -> & _)]; [done|]. rewrite length_app. lia. Qed.

Lemma ancestor_trans (q p : list ascii) (i : nat) :
  rfind_separator p = Some i -> take i p <> [] -> ancestor q (take i p) -> ancestor q p.
Proof.
  intros Hi Hne Hq. apply rfind_separator_Some in Hi as [(c & Hc & Hsep) _]. apply take_drop_middle in Hc.
  right. destruct Hq as [->|(Hq & c' & r & Htake & Hc')].
  - split; [done|]. exists c, (drop (S i) p). by split.
  - split; [done|]. exists c', (r ++ c :: drop (S i) p). split; [|done]. rewrite <- Hc at 1. rewrite Htake. by rewrite <- app_assoc.
Qed.

Lemma lookup_from_spec (n : nat) (p : list ascii) (index : SpanIndex) :
  (length p <= n)%nat ->
  match lookup_from n p index with
  | Some pos => exists q, ancestor q p /\ find_entry (of_chars q) index = Some pos
      /\ forall q', ancestor q' p -> (length q < length q')%nat -> find_entry (of_chars q') index = None
  | None => forall q, ancestor q p -> find_entry (of_chars q) index = None
  end.
Proof.
  revert p. induction n as [|n IH]; intros p Hn; cbn [lookup_from]; destruct (find_entry (of_chars p) index) as [pos|] eqn:Hf.
  1, 3: exists p; split; [by left|]; split; [done|]; intros q' Hq'%ancestor_length ?; lia.
  - intros q [->|(_ & c & r & -> & _)]; [done|]. rewrite length_app in Hn. cbn in Hn. lia.
  - destruct (rfind_separator p) as [i|] eqn:Hi; cycle 1.
    { intros q [->|(j & ? & _)]%ancestor_step; [done|congruence]. }
    assert (i < length p)%nat as Hlt.
    { apply rfind_separator_Some in Hi as [(c & Hc & _) _]. by apply lookup_lt_Some in Hc. }
    destruct (take i p) as [|c l] eqn:Htake.
    { intros q [->|(j & Hj & Hne & _)]%ancestor_step; [done|]. rewrite Hi in Hj. injection Hj as <-. by rewrite Htake in Hne. }
    rewrite <- Htake. assert (take i p <> []) as Hne by (by rewrite Htake).
    specialize (IH (take i p)). rewrite length_take in IH. specialize (IH ltac:(lia)).
    destruct (lookup_from n (take i p) index) as [pos|].
    + destruct IH as (q & Hq & Hpos & Hmax). exists q. split; [by eapply ancestor_trans|]. split; [done|].
      intros q' [->|(j & Hj & _ & Hq')]%ancestor_step Hlen; [done|]. rewrite Hi in Hj. injection Hj as <-. by apply Hmax.
    + intros q [->|(j & Hj & _ & Hq)]%ancestor_step; [done|]. rewrite Hi in Hj. injection Hj as <-. by apply IH.
Qed.

(** A diagnostic points at the nearest place the source has for its path: the position looked up
    is that of the longest ancestor of the path that is in the index (the path itself if it is), always a position
    of the source, and a path is without a position only if none of its ancestors is in the index. *)
Theorem lookup_nearest (source path : string) :
  match SpanIndex_lookup (SpanIndex_build source) path with
  | Some (line, column) =>
      (exists q, ancestor q (chars path) /\ find_entry (of_chars q) (SpanIndex_build source) = Some (line, column)
        /\ forall q', ancestor q' (chars path) -> (length q < length q')%nat ->
           find_entry (of_chars q') (SpanIndex_build source) = None)
      /\ exists raw, str_lines source !! (line - 1)%nat = Some raw /\ (1 <= line)%nat /\ (1 <= column <= length raw)%nat
  | None => forall q, ancestor q (chars path) -> find_entry (of_chars q) (SpanIndex_build source) = None
  end.
Proof.
  pose proof (positions_in_source source path) as Hpos. unfold SpanIndex_lookup in *.
  pose proof (lookup_from_spec (str_len path) (chars path) (SpanIndex_build source) (le_n _)) as Hspec.
  destruct (lookup_from _ _ _) as [[line column]|]; [|done]. split; [done|]. by apply Hpos.
Qed.

Module DiagnosticsDemo.
Definition lines_of (l : list string) : string := join (of_chars [newline]) l.

Definition doc : string := lines_of
  ["name: demo"; "defaults:"; "  http:"; "    base_url: https://example.com"; "scenarios:"; "  browse:";
   "    executor: constant-vus"; "    flow:"; "      - request:"; "          url: /";
   "      - think_time: { type: constant, duration: 1s }"; ""].

Example nested_keys :
  SpanIndex_lookup (SpanIndex_build doc) <$>
    ["name"; "defaults.http.base_url"; "scenarios.browse.executor"; "scenarios.browse.flow[0].request.url";
     "scenarios.browse.flow[1]"; "scenarios.browse.flow[0].request.nonexistent"; "nothing"]
  = [Some (1, 1); Some (4, 5); Some (7, 5); Some (10, 11); Some (11, 7); Some (9, 9); None]%nat.
Proof. vm_compute. reflexivity. Qed.

(** The items of a sequence that is not indented under its key are not below it: the lookup falls back to the key. *)
Example unindented_sequence :
  SpanIndex_lookup (SpanIndex_build (lines_of ["flow:"; "- request:"; "    url: /"])) "flow[0].request.url" = Some (1, 1)%nat
  /\ SpanIndex_lookup (SpanIndex_build (lines_of ["flow:"; "  - request:"; "      url: /"])) "flow[0].request.url" = Some (3, 7)%nat.
Proof. vm_compute. done. Qed.

Example display :
  Diagnostic_to_string (with_suggestion "add `vus: 10`" (with_position 7 5 (Diagnostic_error "scenarios.x" "missing `vus`")))
  = "error at line 7, column 5 (scenarios.x): missing `vus` — add `vus: 10`".
Proof. vm_compute. reflexivity. Qed.
End DiagnosticsDemo.
