(* ===== verification/Merge.v ===== *)
(** * Environment overrides (crates/loadr-config/src/merge.rs)

    The override of an environment merged over the document: mappings merge key by key, everything
    else is replaced.  A YAML document is a third-party value of which the code asks one thing, whether
    it is a mapping; keys and other values are parameters.  A mapping keeps its entries in order. *)

From S2P Require Import Prelude.

Section Merge.
Context {Key Scalar : Type} `{!EqDecision Key}.
(** [Value::String] and [Value::as_str] of a key. *)
Context (key_string : string -> Key) (key_as_str : Key -> option string).

Inductive Yaml :=
| Other (v : Scalar)
| Mapping (entries : list (Key * Yaml)).

Section Ind.
Context (P : Yaml -> Prop) (HO : forall v, P (Other v)) (HM : forall m, Forall (fun kv => P kv.2) m -> P (Mapping m)).
Fixpoint Yaml_nested_ind (v : Yaml) : P v :=
  match v with
  | Other v => HO v
  | Mapping m =>
      HM m ((fix go (m : list (Key * Yaml)) : Forall (fun kv => P kv.2) m :=
               match m with
               | [] => Forall_nil_2 _
               | kv :: m => Forall_cons_2 _ _ _ (Yaml_nested_ind kv.2) (go m)
               end) m)
  end.
End Ind.

Implicit Types (m bm om : list (Key * Yaml)) (k : Key) (v base overlay doc : Yaml).

Fixpoint map_get k m : option Yaml :=
  match m with
  | [] => None
  | (k', v) :: m => if decide (k = k') then Some v else map_get k m
  end.
(** [get_mut] and an assignment, and [insert] of a key that is not there. *)
Fixpoint map_set k v m : list (Key * Yaml) :=
  match m with
  | [] => []
  | (k', w) :: m => if decide (k = k') then (k', v) :: m else (k', w) :: map_set k v m
  end.
Definition map_insert k v m : list (Key * Yaml) := m ++ [(k, v)].

(** [Mapping::remove]: the last entry takes the place of the one removed. *)
Fixpoint map_remove k m : list (Key * Yaml) :=
  match m with
  | [] => []
  | (k', v) :: m =>
      if decide (k = k') then match last m with Some l => l :: removelast m | None => [] end
      else (k', v) :: map_remove k m
  end.

Fixpoint deep_merge base overlay {struct overlay} : Yaml :=
  match overlay with
  | Other v => Other v
  | Mapping om =>
      match base with
      | Other _ => Mapping om
      | Mapping bm =>
          Mapping ((fix go om bm :=
                      match om with
                      | [] => bm
                      | (k, v) :: om =>
                          go om (match map_get k bm with
                                 | Some existing => map_set k (deep_merge existing v) bm
                                 | None => map_insert k v bm
                                 end)
                      end) om bm)
      end
  end.

(** One entry of the overlay. *)
Definition merge_entry bm (kv : Key * Yaml) : list (Key * Yaml) :=
  match map_get kv.1 bm with
  | Some existing => map_set kv.1 (deep_merge existing kv.2) bm
  | None => map_insert kv.1 kv.2 bm
  end.

Lemma deep_merge_mappings bm om : deep_merge (Mapping bm) (Mapping om) = Mapping (foldl merge_entry bm om).
Proof. cbn. f_equal. revert bm. induction om as [|[k v] om IH]; intros bm; [done|]. cbn. by rewrite IH. Qed.

Definition value_get k v : option Yaml := match v with Mapping m => map_get k m | Other _ => None end.

Definition apply_env doc (env_name : string) : result (list string) Yaml :=
  let envs := match value_get (key_string "env") doc with
              | Some (Mapping m) => omap (fun kv => key_as_str kv.1) m
              | _ => []
              end in
  match value_get (key_string "env") doc ≫= value_get (key_string env_name) with
  | None => Err envs
  | Some overlay =>
      Ok (deep_merge (match doc with Mapping m => Mapping (map_remove (key_string "env") m) | _ => doc end) overlay)
  end.

(** ** A mapping has each key once *)

Fixpoint yaml_ok v : Prop :=
  match v with
  | Other _ => True
  | Mapping m => NoDup m.*1 /\ (fix go m := match m with [] => True | kv :: m => yaml_ok kv.2 /\ go m end) m
  end.

Lemma yaml_ok_mapping m : yaml_ok (Mapping m) <-> NoDup m.*1 /\ Forall (fun kv => yaml_ok kv.2) m.
Proof.
  cbn. split; intros [Hn Hall]; (split; [done|]); clear Hn.
  - induction m as [|kv m IH]; [constructor|]. destruct Hall as [? ?]. constructor; [done|by apply IH].
  - induction m as [|kv m IH]; [done|]. rewrite Forall_cons in Hall. destruct Hall as [? ?]. split; [done|by apply IH].
Qed.

Lemma map_get_None k m : map_get k m = None <-> k ∉ m.*1.
Proof.
  induction m as [|[k' v] m IH]; cbn; [split; [intros _ H; by apply not_elem_of_nil in H|done]|].
  rewrite not_elem_of_cons. destruct (decide (k = k')) as [->|Hne]; [split; [done|by intros [? _]]|]. naive_solver.
Qed.

Lemma map_get_Some k v m : map_get k m = Some v -> (k, v) ∈ m.
Proof.
  induction m as [|[k' w] m IH]; cbn; [done|]. destruct (decide (k = k')) as [->|Hne].
  - intros [= ->]. by left.
  - intros Hg. right. by apply IH.
Qed.

Lemma map_set_keys k v m : (map_set k v m).*1 = m.*1.
Proof. induction m as [|[k' w] m IH]; cbn; [done|]. destruct (decide (k = k')); cbn; [done|by rewrite IH]. Qed.

Lemma map_get_set k k' v m : map_get k' (map_set k v m) = if decide (k' = k) then (fun _ => v) <$> map_get k m else map_get k' m.
Proof.
  induction m as [|[k'' w] m IH]; cbn; [by destruct (decide (k' = k))|].
  destruct (decide (k = k'')); cbn; rewrite ?IH; repeat case_decide; subst; done.
Qed.

Lemma map_get_app k m m' :
  map_get k (m ++ m') = match map_get k m with Some v => Some v | None => map_get k m' end.
Proof. induction m as [|[k' v] m IH]; cbn; [done|]. by destruct (decide (k = k')). Qed.

Lemma map_set_id k v m : map_get k m = Some v -> map_set k v m = m.
Proof.
  induction m as [|[k' w] m IH]; cbn; [done|]. destruct (decide (k = k')); [by intros [= ->]|]. intros Hg. by rewrite IH.
Qed.

(** ** Merging mappings *)

Lemma merge_entry_get bm kv k :
  map_get k (merge_entry bm kv)
  = if decide (k = kv.1) then Some (match map_get k bm with Some e => deep_merge e kv.2 | None => kv.2 end) else map_get k bm.
Proof.
  unfold merge_entry, map_insert. destruct (map_get kv.1 bm) as [e|] eqn:He.
  - rewrite map_get_set. destruct (decide (k = kv.1)) as [->|]; [|done]. by rewrite He.
  - rewrite map_get_app. cbn. destruct (decide (k = kv.1)) as [->|]; [by rewrite He|]. by destruct (map_get k bm).
Qed.

Lemma merge_entry_keys bm kv : (merge_entry bm kv).*1 = if decide (kv.1 ∈ bm.*1) then bm.*1 else bm.*1 ++ [kv.1].
Proof.
  unfold merge_entry, map_insert. destruct (map_get kv.1 bm) as [e|] eqn:He.
  - rewrite map_set_keys, decide_True; [done|]. apply map_get_Some in He. by eapply (list_elem_of_fmap_2 fst) in He.
  - apply map_get_None in He. by rewrite decide_False, fmap_app.
Qed.

Lemma merge_get bm om k :
  NoDup om.*1 ->
  map_get k (foldl merge_entry bm om)
  = match map_get k om, map_get k bm with
    | Some v, Some e => Some (deep_merge e v)
    | Some v, None => Some v
    | None, e => e
    end.
Proof.
  revert bm. induction om as [|[k' v] om IH]; intros bm; cbn; [done|]. intros [Hk Hnd]%NoDup_cons.
  rewrite IH, merge_entry_get by done. cbn. destruct (decide (k = k')) as [->|Hne]; [|done].
  assert (map_get k' om = None) as -> by by apply map_get_None. by destruct (map_get k' bm).
Qed.

(** An entry of the overlay that is there already changes nothing. *)
Lemma merge_present m om :
  Forall (fun kv => exists e, map_get kv.1 m = Some e /\ deep_merge e kv.2 = e) om -> foldl merge_entry m om = m.
Proof.
  induction 1 as [|kv om (e & He & Hm) _ IH]; [done|]. cbn. unfold merge_entry at 2. by rewrite He, Hm, map_set_id.
Qed.

Lemma map_get_elem k v m : NoDup m.*1 -> map_get k m = Some v <-> (k, v) ∈ m.
Proof.
  intros Hnd. split; [apply map_get_Some|]. induction m as [|[k' w] m IH]; [by intros ?%not_elem_of_nil|].
  cbn in *. apply NoDup_cons in Hnd as [Hk Hnd]. intros [[= <- <-]|Hin]%elem_of_cons; [by rewrite decide_True|].
  rewrite decide_False; [by apply IH|]. intros ->. apply Hk. by eapply (list_elem_of_fmap_2 fst) in Hin.
Qed.

(** Merging an overlay a second time changes nothing, nor does merging a document with itself. *)
Lemma deep_merge_idemp overlay :
  yaml_ok overlay ->
  (forall base, deep_merge (deep_merge base overlay) overlay = deep_merge base overlay) /\ deep_merge overlay overlay = overlay.
Proof.
  induction overlay as [v|om IH] using Yaml_nested_ind; [done|]. intros [Hnd Hok]%yaml_ok_mapping.
  assert (Forall (fun kv => (forall base, deep_merge (deep_merge base kv.2) kv.2 = deep_merge base kv.2)
                            /\ deep_merge kv.2 kv.2 = kv.2) om) as Hall.
  { rewrite Forall_forall in IH, Hok |- *. intros kv Hin. by apply IH, Hok. }
  assert (deep_merge (Mapping om) (Mapping om) = Mapping om) as Hself.
  { rewrite deep_merge_mappings. f_equal. apply merge_present. rewrite Forall_forall in Hall |- *. intros [k v] Hin.
    exists v. split; [by apply map_get_elem|]. by apply (Hall _ Hin). }
  split; [|done]. intros [s|bm]; [done|]. rewrite !deep_merge_mappings. f_equal. apply merge_present.
  rewrite Forall_forall in Hall |- *. intros [k v] Hin. destruct (Hall _ Hin) as [Hb Hv].
  rewrite merge_get by done. cbn. apply map_get_elem in Hin as ->; [|done].
  destruct (map_get k bm) as [e|]; eexists; (split; [done|]); [apply Hb|apply Hv].
Qed.

Lemma map_get_perm k m m' : NoDup m.*1 -> m ≡ₚ m' -> map_get k m = map_get k m'.
Proof.
  intros Hnd Hp. assert (NoDup m'.*1) as Hnd' by by rewrite <- Hp. apply option_eq. intros v.
  rewrite !map_get_elem by done. by rewrite Hp.
Qed.

Lemma map_remove_perm k m : map_remove k m ++ option_list ((fun v => (k, v)) <$> map_get k m) ≡ₚ m.
Proof.
  induction m as [|[k' v] m IH]; cbn; [done|]. destruct (decide (k = k')) as [<-|Hne]; cbn; [|by rewrite IH].
  destruct m as [|l m' _] using rev_ind; [done|]. rewrite last_snoc, removelast_last. cbn. rewrite <- !Permutation_cons_append. apply perm_swap.
Qed.

Lemma map_remove_get k k' m : NoDup m.*1 -> map_get k' (map_remove k m) = if decide (k' = k) then None else map_get k' m.
Proof.
  intros Hnd. pose proof (map_remove_perm k m) as Hp.
  assert (NoDup (map_remove k m ++ option_list ((fun v => (k, v)) <$> map_get k m)).*1) as Hnd' by by rewrite Hp.
  rewrite <- (map_get_perm k' _ _ Hnd' Hp), map_get_app. destruct (decide (k' = k)) as [->|Hne].
  - apply map_get_None. destruct (map_get k m) as [v|] eqn:Hg; cbn in Hp, Hnd'.
    + rewrite fmap_app in Hnd'. apply NoDup_app in Hnd' as (_ & Hdisj & _). intros Hin. apply (Hdisj k Hin). by left.
    + rewrite app_nil_r in Hp. rewrite Hp. by apply map_get_None.
  - destruct (map_get k' (map_remove k m)); [done|]. destruct (map_get k m); cbn; [|done]. by rewrite decide_False.
Qed.

Lemma yaml_ok_get k v w : yaml_ok v -> value_get k v = Some w -> yaml_ok w.
Proof.
  destruct v as [s|m]; [done|]. intros [_ Hall]%yaml_ok_mapping Hg%map_get_Some. rewrite Forall_forall in Hall. by apply (Hall _ Hg).
Qed.

(** An override is exactly what it says.  With the environment found, the document without its [env]
    block is merged with it: a key of the override replaces the key of the document, or merges into it
    if both are mappings, a key only the override has is added, every other key keeps its value, and
    applying the override twice is applying it once; without it, the error lists the environments there are. *)
Theorem env_override_exact doc (env_name : string) :
  yaml_ok doc ->
  match value_get (key_string "env") doc ≫= value_get (key_string env_name) with
  | None => apply_env doc env_name
            = Err (match value_get (key_string "env") doc with
                   | Some (Mapping m) => omap (fun kv => key_as_str kv.1) m
                   | _ => []
                   end)
  | Some overlay => exists merged, apply_env doc env_name = Ok merged
      /\ deep_merge merged overlay = merged
      /\ forall om, overlay = Mapping om ->
         forall k, value_get k merged
           = match map_get k om, (if decide (k = key_string "env") then None else value_get k doc) with
             | Some v, Some e => Some (deep_merge e v)
             | Some v, None => Some v
             | None, e => e
             end
  end.
Proof.
  intros Hdoc. unfold apply_env. destruct (value_get (key_string "env") doc ≫= value_get (key_string env_name)) as [overlay|] eqn:Ho;
    [|done].
  assert (yaml_ok overlay) as Hover.
  { apply bind_Some in Ho as (envs & He & Ho). eapply yaml_ok_get; [|exact Ho]. by eapply yaml_ok_get. }
  eexists. split; [reflexivity|]. split; [by apply deep_merge_idemp|]. intros om -> k.
  destruct doc as [s|m]; [discriminate Ho|]. rewrite deep_merge_mappings. cbn [value_get].
  apply yaml_ok_mapping in Hdoc as [Hnd _], Hover as [Hndo _]. rewrite merge_get, map_remove_get by done.
  by destruct (map_get k om).
Qed.
End Merge.

Module MergeDemo.
Definition yaml : Type := Yaml (Key := string) (Scalar := string).
Definition prod : yaml :=
  Mapping [("http", Mapping [("base_url", Other "https://prod"); ("timeout", Other "30s")]); ("name", Other "t")].
Definition doc : yaml :=
  Mapping [("defaults", prod); ("env", Mapping [("staging", Mapping [("defaults",
      Mapping [("http", Mapping [("base_url", Other "https://staging")])])])]); ("outputs", Other "[a]")].

Example staging : apply_env id Some doc "staging"
  = Ok (Mapping [("defaults", Mapping [("http", Mapping [("base_url", Other "https://staging"); ("timeout", Other "30s")]);
                                       ("name", Other "t")]); ("outputs", Other "[a]")]).
Proof. vm_compute. reflexivity. Qed.
Example unknown : apply_env id Some doc "qa" = Err ["staging"].
Proof. vm_compute. reflexivity. Qed.

Lemma doc_ok : yaml_ok doc.
Proof. cbn. repeat split; repeat constructor; set_solver. Qed.

Lemma env_override_exact_witness : exists merged, apply_env id Some doc "staging" = Ok merged
  /\ value_get "outputs" merged = Some (Other "[a]") /\ value_get "env" merged = None.
Proof.
  destruct (env_override_exact id Some doc "staging" doc_ok) as (merged & Hm & _ & Hget).
  exists merged. split; [exact Hm|]. rewrite !(Hget _ eq_refl). split; reflexivity.
Defined.
End MergeDemo.
