(* ===== verification/Validate.v ===== *)
(** * Plan validation (crates/loadr-config/src/validate.rs, plan.rs)

    The test plan and its validator: what it reports, in which order, on every part of the
    plan.  Third-party code is a parameter: the engines of [TextTools], URL parsing, the number of groups
    of a regular expression, the Jaro-Winkler distance, and the files that exist ([ValidateTools]).

    [Ctx] pushes to one vector; here each check returns the diagnostics it pushes. *)

From Stdlib Require Import Ascii.
From S2P Require Import Prelude Float64 Str Dur Metrics Threshold Thresholds Executor Value Template Protocol Extract Conditions Feeds Pacing Program Interp Prepare Diagnostics.

Class ValidateTools `{TextTools} := {
  (** [Regex::captures_len]. *)
  captures_len : Regex -> nat;
  (** [Url::parse(s).is_ok()]. *)
  url_parses : string -> bool;
  jaro_winkler : string -> string -> f64;
  path_exists : string -> bool;
}.

(** ** The plan *)

Record TlsConfig := mkTlsConfig {
  tls_ca_file : option string;
  tls_cert_file : option string;
  tls_key_file : option string;
}.

Record SecretSource := mkSecretSource {
  ss_env : option string;
  ss_file : option string;
}.

Record CustomMetric := mkCustomMetric {
  cm_kind : MetricKind;
  cm_description : option string;
  cm_time : bool;
}.

Record JsConfig := mkJsConfig {
  jc_file : option string;
  jc_script : option string;
  jc_timeout : option Duration;
  jc_memory_limit_mb : option Z;
}.

Inductive OutputConfig :=
| OcJson (path : string)
| OcCsv (path : string)
| OcPrometheus (listen remote_write_url : option string) (interval final_scrape_grace : option Duration)
| OcInfluxdb (url database : string) (token organization : option string) (interval : option Duration)
| OcOtlp (endpoint : string) (http : bool) (headers : list (string * string)) (interval : option Duration)
| OcStatsd (address : string) (prefix : option string)
| OcPlugin (name : string) (config : Value).

Inductive ObserveConfig :=
| ObPrometheus (name : option string) (source query : string) (as_name unit_ token : option string)
| ObSystem (metrics : list string) (interval : option Duration) (as_prefix : option string).

Record PluginRef := mkPluginRef {
  pr_name : string;
  pr_path : option string;
  pr_config : Value;
  pr_enabled : bool;
}.

(** A scenario: what its executor reads, and what its program reads. *)
Record PlanScenario := mkPlanScenario {
  ps_executor : Scenario;
  ps_program : ScenarioPlan;
}.

Record TestPlan := mkTestPlan {
  tp_name : option string;
  tp_description : option string;
  tp_defaults : PlanDefaults;
  tp_proxy : option string;
  tp_tls : TlsConfig;
  tp_variables : list (string * Value);
  tp_secrets : list (string * SecretSource);
  tp_data : list (string * DataSource);
  tp_metrics : list (string * CustomMetric);
  tp_js : option JsConfig;
  tp_scenarios : list (string * PlanScenario);
  tp_thresholds : list (string * ThresholdList);
  tp_outputs : list OutputConfig;
  tp_observe : list ObserveConfig;
  tp_plugins : list PluginRef;
}.

(** [ValidateOptions]. *)
Record ValidateOptions := mkValidateOptions {
  check_files_relative_to : option string;
}.

Definition BUILTIN_METRICS : list string :=
  ["http_reqs"; "http_req_duration"; "http_req_blocked"; "http_req_connecting"; "http_req_tls_handshaking";
   "http_req_sending"; "http_req_waiting"; "http_req_receiving"; "http_req_failed"; "iterations"; "iteration_duration";
   "dropped_iterations"; "vus"; "vus_max"; "requests_in_flight"; "checks"; "faults_injected"; "data_sent"; "data_received";
   "ws_connecting"; "ws_session_duration"; "ws_msgs_sent"; "ws_msgs_received"; "grpc_req_duration"; "tcp_req_duration";
   "udp_req_duration"; "noop_reqs"; "noop_req_duration"; "graphql_req_duration"].

Definition KNOWN_PROTOCOLS : list string :=
  ["http"; "https"; "ws"; "websocket"; "grpc"; "graphql"; "sse"; "sses"; "browser"; "tcp"; "udp"; "noop"].
Definition HTTP_METHODS : list string :=
  ["GET"; "POST"; "PUT"; "DELETE"; "PATCH"; "HEAD"; "OPTIONS"; "TRACE"; "CONNECT"].

Definition has_key {A : Type} (k : string) (m : list (string * A)) : bool := bool_decide (k ∈ m.*1).
Definition has_plugin (p : TestPlan) (name : string) : bool := existsb (fun r => bool_decide (pr_name r = name)) (tp_plugins p).

Definition Extractor_name (e : Extractor) : string :=
  match e with
  | ExClassic (ExJsonpath n _ _ _ | ExRegex n _ _ _ _ | ExXpath n _ _ | ExCss n _ _ _ _ | ExBoundary n _ _ _ _ | ExHeader n _ _) => n
  | ExChain c => cs_name c
  end.

Definition contains_js (s : string) : bool := str_contains s "${js:".

Fixpoint step_uses_js (s : Step) : bool :=
  match s with
  | StJs _ | StWhile _ _ _ | StIf _ _ _ => true
  | StRetry _ until _ steps => bool_decide (is_Some until) || existsb step_uses_js steps
  | StGroup _ steps | StRepeat _ _ steps | StDuring _ _ steps => existsb step_uses_js steps
  | StRandom _ choices => existsb (fun '(_, _, steps) => existsb step_uses_js steps) choices
  | StForeach items _ _ steps =>
      match items with Text s => contains_js s | _ => false end || existsb step_uses_js steps
  | StSwitch value cases dflt =>
      contains_js value || existsb (fun '(_, steps) => existsb step_uses_js steps) cases || existsb step_uses_js dflt
  | StParallel branches => existsb (existsb step_uses_js) branches
  | StRequest _ | StThinkTime _ | StRendezvous _ _ _ => false
  end.

(** ** Checks *)

Definition err (path message : string) : list Diagnostic := [Diagnostic_error path message].
Definition warn (path message : string) : list Diagnostic := [Diagnostic_warning path message].
Definition when {A : Type} (b : bool) (l : list A) : list A := if b then l else [].
Definition is_some {A : Type} (o : option A) : bool := match o with Some _ => true | None => false end.
Definition is_nil {A : Type} (l : list A) : bool := match l with [] => true | _ => false end.
Definition on_err {E A : Type} (r : result E A) (f : E -> list Diagnostic) : list Diagnostic :=
  match r with Ok _ => [] | Err e => f e end.

(** Each element with its position, from [i]. *)
Fixpoint each_at {A : Type} (g : nat -> A -> list Diagnostic) (i : nat) (l : list A) : list Diagnostic :=
  match l with
  | [] => []
  | x :: l => g i x ++ each_at g (S i) l
  end.

(** The same, with the names declared so far. *)
Section Declaring.
Context {A : Type} (g : nat -> A -> gset string -> list Diagnostic * gset string).
Fixpoint declaring (i : nat) (l : list A) (declared : gset string) : list Diagnostic * gset string :=
  match l with
  | [] => ([], declared)
  | x :: l =>
      let '(ds, declared) := g i x declared in
      let '(rest, declared) := declaring (S i) l declared in
      (ds ++ rest, declared)
  end.
End Declaring.

Definition at_index (path : string) (i : nat) : string := path +:+ "[" +:+ nat_to_string i +:+ "]".

Section Validate.
Context `{ValidateTools, JsonText, ConditionText}.
Context (humantime_parse_duration : string -> result string Duration).
Context (plan : TestPlan) (opts : ValidateOptions).

Definition suggest (d : Diagnostic) (s : option string) : Diagnostic :=
  match s with Some s => with_suggestion s d | None => d end.

Definition check_file (path file : string) : list Diagnostic :=
  match check_files_relative_to opts with
  | None => []
  | Some root =>
      let resolved := resolve_path root file in
      when (negb (path_exists resolved)) (err path ("file not found: " +:+ resolved))
  end.
Definition check_file_opt (path : string) (file : option string) : list Diagnostic :=
  match file with Some f => check_file path f | None => [] end.

Definition check_think_time (path : string) (tt : ThinkTimeSpec) : list Diagnostic :=
  match tt with
  | TtUniform min max => when (Z.ltb max min) (err path "`min` must not exceed `max`")
  | _ => []
  end.

Definition check_faults (path : string) (faults : FaultSpec) : list Diagnostic :=
  match drop_rate faults with
  | Some rate =>
      when (negb (f64_is_finite rate) || negb (f64_le f64_zero rate && f64_lt rate (f64_of_Z 1)))
        (err (path +:+ ".drop_rate") "`drop_rate` must be a probability in [0, 1)")
  | None => []
  end
  ++ match latency faults with
     | Some l => when (Z.eqb (jitter l) 0) (err (path +:+ ".latency.jitter") "`jitter` must be greater than zero")
     | None => []
     end.

(** [check_expr_reference]: references that cannot resolve at runtime. *)
Definition check_expr_reference (path expr : string) (declared : gset string) : list Diagnostic :=
  match strip_prefix expr "vars.", strip_prefix expr "secrets.", strip_prefix expr "data." with
  | Some rest, _, _ =>
      when (negb (has_key rest (tp_variables plan)))
        [suggest (Diagnostic_error path ("`${vars." +:+ rest +:+ "}` is not defined under `variables:`"))
           (did_you_mean jaro_winkler rest (tp_variables plan).*1)]
  | None, Some rest, _ =>
      when (negb (has_key rest (tp_secrets plan)))
        (err path ("`${secrets." +:+ rest +:+ "}` is not defined under `secrets:`"))
  | None, None, Some rest =>
      let source := default rest (head (str_split rest ".")) in
      when (negb (has_key source (tp_data plan)))
        [suggest (Diagnostic_error path ("`${data." +:+ source +:+ "...}` references an unknown data source"))
           (did_you_mean jaro_winkler source (tp_data plan).*1)]
  | None, None, None =>
      if starts_with expr "env." || starts_with expr "js:" then []
      else
        let builtin := bool_decide (expr ∈ ["vu"; "iteration"; "scenario"]) in
        when (negb builtin && negb (bool_decide (expr ∈ declared)))
          (warn path ("`${" +:+ expr +:+ "}` is not produced by any earlier `extract:` in this scenario; it must be set from JS at runtime"))
  end.

Definition check_template (path text : string) : list Diagnostic :=
  on_err (Template_parse text) (fun e => err path (TemplateError_to_string e)).

Fixpoint check_json_templates (path : string) (value : Value) : list Diagnostic :=
  match value with
  | Text s => check_template path s
  | Array values => each_at (fun i v => check_json_templates (at_index path i) v) 0 values
  | Object fields => concat ((fun kv => check_json_templates (path +:+ "." +:+ kv.1) kv.2) <$> fields)
  | _ => []
  end.

Definition check_regex (path prefix pattern : string) : list Diagnostic :=
  on_err (regex_new pattern) (fun e => err path (prefix +:+ e)).

(** A regular expression and the group taken of it. *)
Definition check_regex_group (path pattern : string) (group : option nat) : list Diagnostic :=
  match regex_new pattern with
  | Err e => err path ("invalid regex: " +:+ e)
  | Ok re =>
      let g := default 1%nat group in
      let groups := (captures_len re - 1)%nat in
      when (Nat.ltb groups g)
        (err path ("regex has " +:+ nat_to_string groups +:+ " capture group(s) but `group` is " +:+ nat_to_string g))
  end.

Definition chain_sources (c : ChainSpec) : list string :=
  when (is_some (cs_jmespath c)) ["jmespath"] ++ when (is_some (cs_jsonpath c)) ["jsonpath"]
  ++ when (is_some (cs_regex c)) ["regex"] ++ when (is_some (cs_header c)) ["header"] ++ when (is_some (cs_css c)) ["css"]
  ++ when (is_some (cs_xpath c)) ["xpath"] ++ when (is_some (cs_left c) || is_some (cs_right c)) ["boundary"].

Definition check_transform (path : string) (t : Transform) : list Diagnostic :=
  match t with
  | Replace args => when (negb (Nat.eqb (length args) 2)) (err path "transform `replace` needs exactly [from, to]")
  | Substring args =>
      when (is_nil args || Nat.ltb 2 (length args)) (err path "transform `substring` needs [start] or [start, len]")
  | _ => []
  end.

Definition check_chain_check (path : string) (k : ChainCheck) : list Diagnostic :=
  match cc_matches k with Some m => check_regex path "invalid regex in `check.matches`: " m | None => [] end
  ++ match cc_min k, cc_max k with
     | Some mn, Some mx =>
         when (f64_lt mx mn)
           (err path ("`check.min` (" +:+ f64_to_string mn +:+ ") is greater than `check.max` (" +:+ f64_to_string mx +:+ ")"))
     | _, _ => []
     end
  ++ when (negb (is_some (cc_equals k)) && negb (is_some (cc_matches k)) && negb (is_some (cc_one_of k))
           && negb (is_some (cc_min k)) && negb (is_some (cc_max k)) && negb (is_some (cc_not_empty k)))
       (warn path "chain `check` is empty; remove it or add a constraint").

Definition check_chain (path : string) (c : ChainSpec) : list Diagnostic :=
  let sources := chain_sources c in
  match sources with
  | [] => err path "chain has no source; set one of `jmespath`, `jsonpath`, `regex`, `header`, `css`, `xpath` or `left`/`right`"
  | [_] => []
  | _ => err path ("chain has multiple sources (" +:+ join ", " sources +:+ "); pick one")
  end
  ++ when (xorb (is_some (cs_left c)) (is_some (cs_right c))) (err path "boundary chain needs both `left` and `right`")
  ++ match cs_jmespath c with
     | Some e => on_err (jmespath_compile e) (fun _ => err path ("invalid JMESPath `" +:+ e +:+ "`"))
     | None => []
     end
  ++ match cs_jsonpath c with
     | Some e => on_err (jsonpath_parse e) (fun _ => err path ("invalid JSONPath `" +:+ e +:+ "`"))
     | None => []
     end
  ++ match cs_regex c with Some e => check_regex_group path e (cs_group c) | None => [] end
  ++ match cs_check c with Some k => check_chain_check path k | None => [] end
  ++ concat (check_transform path <$> cs_transform c).

Definition check_extractor (path : string) (e : Extractor) : list Diagnostic :=
  match e with
  | ExClassic (ExRegex _ expression group _ _) => check_regex_group path expression group
  | ExClassic (ExJsonpath _ expression _ _) =>
      on_err (jsonpath_parse expression) (fun _ => err path ("invalid JSONPath `" +:+ expression +:+ "`"))
  | ExChain c => check_chain path c
  | _ => []
  end.

(** A condition of the [section] ([assert] or [checks]) of a request. *)
Definition check_condition (req : RequestStep) (section path : string) (c : Condition) : list Diagnostic :=
  match c with
  | CdBodyMatches _ pattern _ _ => check_regex path "invalid regex: " pattern
  | CdStatus _ equals one_of matches_ _ =>
      when (negb (is_some equals) && negb (is_some one_of) && negb (is_some matches_))
        (err path "status condition needs `equals`, `one_of` or `matches`")
      ++ match matches_ with Some m => check_regex path "invalid regex: " m | None => [] end
  | CdJsonpath _ expression _ _ _ =>
      on_err (jsonpath_parse expression) (fun _ => err path ("invalid JSONPath `" +:+ expression +:+ "`"))
  | CdProtobufField _ field equals exists_ failure_groups _ =>
      when (negb (is_some (rq_grpc req))) (err path "protobuf_field conditions require a gRPC request")
      ++ when (str_is_empty field || str_contains field ".")
           (err path "protobuf_field `field` must be a non-empty top-level protobuf field name")
      ++ when (negb (is_some equals) && negb (is_some exists_)) (err path "protobuf_field condition needs `equals` or `exists`")
      ++ when (is_some equals && match exists_ with Some b => negb b | None => false end)
           (err path "protobuf_field cannot combine `equals` with `exists: false`")
      ++ match failure_groups with
         | Some groups =>
             when (bool_decide (section = "assert")) (err path "protobuf_field `failure_groups` is only valid under `checks`")
             ++ when (is_nil groups) (err path "protobuf_field `failure_groups` must not be empty")
             ++ when (existsb (fun g => str_is_empty (trim g.2)) groups)
                  (err path "protobuf_field failure-group labels must not be empty")
         | None => []
         end
  | CdSize _ min max equals _ =>
      when (negb (is_some min) && negb (is_some max) && negb (is_some equals))
        (err path "size condition needs `min`, `max` or `equals`")
  | CdHeader _ _ equals contains exists_ _ =>
      when (negb (is_some equals) && negb (is_some contains) && negb (is_some exists_))
        (err path "header condition needs `equals`, `contains` or `exists`")
  | _ => []
  end.

Definition check_body (rpath : string) (spec : BodySpec) : list Diagnostic :=
  when (negb (Nat.eqb (length (List.filter id [is_some (bs_json spec); is_some (bs_file spec); is_some (bs_form spec);
                                               is_some (bs_multipart spec)])) 1))
    (err (rpath +:+ ".body") "body must set exactly one of `json`, `file`, `form`, `multipart`")
  ++ check_file_opt (rpath +:+ ".body.file") (bs_file spec)
  ++ match bs_multipart spec with
     | Some ps =>
         each_at (fun pi part =>
           let ppath := at_index (rpath +:+ ".body.multipart") pi in
           when (Bool.eqb (is_some (mp_value part)) (is_some (mp_file part)))
             (err ppath "multipart part needs exactly one of `value` or `file`")
           ++ check_file_opt (ppath +:+ ".file") (mp_file part)) 0 ps
     | None => []
     end.

Definition check_grpc (rpath : string) (g : GrpcOptions) : list Diagnostic :=
  let gpath := rpath +:+ ".grpc" in
  when (is_nil (go_proto_files g) && negb (go_reflection g)) (err gpath "gRPC needs `proto_files` or `reflection: true`")
  ++ each_at (fun fi f => check_file (at_index (gpath +:+ ".proto_files") fi) f) 0 (go_proto_files g)
  ++ when (is_some (go_message g) && negb (is_nil (go_messages g)))
       (err gpath "set `message` (unary) or `messages` (streaming), not both")
  ++ match go_message g with Some m => check_json_templates (gpath +:+ ".message") m | None => [] end
  ++ each_at (fun i m => check_json_templates (at_index (gpath +:+ ".messages") i) m) 0 (go_messages g)
  ++ concat ((fun kv => check_template (gpath +:+ ".metadata." +:+ kv.1) kv.2) <$> go_metadata g)
  ++ when (bool_decide (go_channel_pool_size g = Some 0)) (err gpath "`channel_pool_size` must be >= 1")
  ++ when (bool_decide (go_stream_repeat g = Some 0%nat)) (err gpath "`stream_repeat` must be >= 1")
  ++ when (is_some (go_stream_repeat g) && is_nil (go_messages g))
       (err gpath "`stream_repeat` needs `messages` (it repeats the streamed frames)").

(** The characters of a hex payload, without white space. *)
Definition cleaned_hex (hex : string) : list (list ascii) :=
  List.filter (fun c => negb (is_whitespace_char c)) (str_chars hex).
Definition is_ascii_hexdigit (c : list ascii) : bool := match c with [a] => is_some (to_digit16 a) | _ => false end.

Definition check_socket (rpath : string) (s : SocketOptions) : list Diagnostic :=
  when (is_some (so_send_text s) && is_some (so_send_hex s)) (err (rpath +:+ ".socket") "set `send_text` or `send_hex`, not both")
  ++ match so_send_hex s with
     | Some hex =>
         when (negb (Nat.even (length (concat (cleaned_hex hex)))) || negb (forallb is_ascii_hexdigit (cleaned_hex hex)))
           (err (rpath +:+ ".socket.send_hex") "invalid hex payload (use pairs of hex digits, whitespace allowed)")
     | None => []
     end.

Definition check_protocol (rpath protocol : string) : list Diagnostic :=
  when (negb (bool_decide (protocol ∈ KNOWN_PROTOCOLS)) && negb (has_plugin plan protocol))
    [with_suggestion
       (default "built-in protocols: http, ws, grpc, graphql, tcp, udp, noop — or list a protocol plugin under `plugins:`"
          (did_you_mean jaro_winkler protocol KNOWN_PROTOCOLS))
       (Diagnostic_error (rpath +:+ ".protocol") ("unknown protocol `" +:+ protocol +:+ "`"))].

Definition check_method (rpath m : string) : list Diagnostic :=
  let upper := to_ascii_uppercase m in
  when (negb (bool_decide (upper ∈ HTTP_METHODS)))
    [suggest (Diagnostic_warning (rpath +:+ ".method") ("non-standard HTTP method `" +:+ m +:+ "`"))
       (did_you_mean jaro_winkler upper HTTP_METHODS)].

Definition check_url (rpath url : string) (declared : gset string) : list Diagnostic :=
  when (str_is_empty url) (err (rpath +:+ ".url") "request URL is empty")
  ++ match Template_parse url with
     | Err e => err (rpath +:+ ".url") (TemplateError_to_string e)
     | Ok t => concat ((fun expr => check_expr_reference (rpath +:+ ".url") expr declared) <$> expressions t)
     end.

Definition check_request (path : string) (req : RequestStep) (declared : gset string) : list Diagnostic * gset string :=
  let rpath := path +:+ ".request" in
  (check_url rpath (rq_url req) declared
   ++ concat ((fun kv => check_template (rpath +:+ ".headers." +:+ kv.1) kv.2) <$> rq_headers req)
   ++ match rq_protocol req with Some p => check_protocol rpath p | None => [] end
   ++ match rq_method req with Some m => check_method rpath m | None => [] end
   ++ match rq_body req with Some (BodyOf spec) => check_body rpath spec | _ => [] end
   ++ match rq_grpc req with Some g => check_grpc rpath g | None => [] end
   ++ match rq_socket req with Some s => check_socket rpath s | None => [] end
   ++ match rq_sql req with
      | Some sql => when (str_is_empty (trim (sq_query sql))) (err (rpath +:+ ".sql.query") "SQL `query` must not be empty")
      | None => []
      end
   ++ each_at (fun ei e => check_extractor (at_index (rpath +:+ ".extract") ei) e) 0 (rq_extract req)
   ++ each_at (fun ci c => check_condition req "assert" (at_index (rpath +:+ ".assert") ci) c) 0 (rq_assert req)
   ++ each_at (fun ci c => check_condition req "checks" (at_index (rpath +:+ ".checks") ci) c) 0 (rq_checks req),
   declared ∪ list_to_set (Extractor_name <$> rq_extract req)).

Definition check_js (path : string) (j : JsStep) : list Diagnostic :=
  match j with
  | JsDetailed call script =>
      when (negb (is_some call) && negb (is_some script)) (err (path +:+ ".js") "js step needs `call` or `script`")
      ++ when (is_some call && negb (is_some (tp_js plan)))
           (err (path +:+ ".js.call") "`call` names a JS function, but the test has no `js:` block")
  | JsCode _ => []
  end.

Fixpoint check_step (path : string) (s : Step) (declared : gset string) : list Diagnostic * gset string :=
  let check_steps := fun (base field : string) (l : list Step) (declared : gset string) =>
    declaring (fun i s d => check_step (at_index (base +:+ "." +:+ field) i) s d) 0 l declared in
  let after := fun (ds : list Diagnostic) (r : list Diagnostic * gset string) => (ds ++ r.1, r.2) in
  match s with
  | StRequest req => check_request path req declared
  | StThinkTime t => (check_think_time (path +:+ ".think_time") t, declared)
  | StJs j => (check_js path j, declared)
  | StGroup _ steps =>
      after (when (is_nil steps) (warn (path +:+ ".group") "empty group"))
        (check_steps (path +:+ ".group") "steps" steps declared)
  | StRepeat times _ steps =>
      after (when (Z.eqb times 0) (warn (path +:+ ".repeat.times") "`repeat` runs zero times"))
        (check_steps (path +:+ ".repeat") "steps" steps declared)
  | StWhile condition _ steps =>
      after (when (str_is_empty (trim condition)) (err (path +:+ ".while.condition") "`while` needs a condition"))
        (check_steps (path +:+ ".while") "steps" steps declared)
  | StIf condition then_ otherwise =>
      let '(ds, declared) := check_steps (path +:+ ".if") "then" then_ declared in
      after (when (str_is_empty (trim condition)) (err (path +:+ ".if.condition") "`if` needs a condition") ++ ds)
        (check_steps (path +:+ ".if") "else" otherwise declared)
  | StRandom _ choices =>
      after (when (is_nil choices) (err (path +:+ ".random.choices") "`random` needs at least one choice"))
        (declaring (fun ci '(weight, _, steps) declared =>
           let cpath := at_index (path +:+ ".random.choices") ci in
           after (match weight with
                  | Some w => when (f64_lt w f64_zero) (err (cpath +:+ ".weight") "weight must not be negative")
                  | None => []
                  end)
             (check_steps cpath "steps" steps declared)) 0 choices declared)
  | StForeach _ var index steps =>
      check_steps (path +:+ ".foreach") "steps" steps
        ({[default "item" var]} ∪ {[default "index" index]} ∪ declared)
  | StSwitch value cases dflt =>
      let '(ds, declared) := declaring (fun _ '(key, steps) declared =>
           check_steps (path +:+ ".switch.cases." +:+ key) "steps" steps declared) 0 cases declared in
      after (check_template (path +:+ ".switch.value") value
             ++ when (is_nil cases) (err (path +:+ ".switch.cases") "`switch` needs at least one case") ++ ds)
        (check_steps (path +:+ ".switch") "default" dflt declared)
  | StDuring duration _ steps =>
      after (when (Z.eqb duration 0) (warn (path +:+ ".during.duration") "`during` duration is zero"))
        (check_steps (path +:+ ".during") "steps" steps declared)
  | StRetry times _ _ steps =>
      after (when (bool_decide (times = Some 0)) (warn (path +:+ ".retry.times") "`retry` allows zero attempts"))
        (check_steps (path +:+ ".retry") "steps" steps declared)
  | StParallel branches =>
      after (when (is_nil branches) (err (path +:+ ".parallel.branches") "`parallel` needs at least one branch"))
        (declaring (fun bi branch declared => check_steps (at_index (path +:+ ".parallel.branches") bi) "" branch declared)
           0 branches declared)
  | StRendezvous _ users _ =>
      (when (Z.eqb users 0) (err (path +:+ ".rendezvous.users") "`rendezvous` needs `users` >= 1"), declared)
  end.

Definition check_steps (base field : string) (steps : list Step) (declared : gset string) : list Diagnostic * gset string :=
  declaring (fun i s d => check_step (at_index (base +:+ "." +:+ field) i) s d) 0 steps declared.

(** ** The plan *)

Definition check_js_config : list Diagnostic :=
  let exec_users := (fun kv => kv.1) <$> List.filter (fun kv => is_some (sp_exec (ps_program kv.2))) (tp_scenarios plan) in
  let needs_js := existsb (fun kv => is_some (sp_exec (ps_program kv.2)) || existsb step_uses_js (sp_flow (ps_program kv.2)))
                    (tp_scenarios plan) in
  match exec_users with
  | user :: _ =>
      when (needs_js && negb (is_some (tp_js plan)))
        (err ("scenarios." +:+ user +:+ ".exec") "`exec` names a JS function, but the test has no `js:` block")
  | [] => []
  end
  ++ match tp_js plan with
     | Some js =>
         when (is_some (jc_file js) && is_some (jc_script js)) (err "js" "set either `js.file` or `js.script`, not both")
         ++ when (negb (is_some (jc_file js)) && negb (is_some (jc_script js)))
              (warn "js" "`js:` block is empty (no `file` or `script`)")
         ++ check_file_opt "js.file" (jc_file js)
     | None => []
     end.

Definition check_secret (name : string) (src : SecretSource) : list Diagnostic :=
  when (negb (is_some (ss_env src)) && negb (is_some (ss_file src)))
    (err ("secrets." +:+ name) "secret needs an `env` variable name or a `file` path")
  ++ check_file_opt ("secrets." +:+ name +:+ ".file") (ss_file src).

Definition check_data_source (name : string) (ds : DataSource) : list Diagnostic :=
  let base := "data." +:+ name in
  match ds with
  | SrcCsv path _ _ _ delimiter _ =>
      check_file (base +:+ ".path") path
      ++ match delimiter with
         | Some d => when (negb (Z.ltb d 128)) (err (base +:+ ".delimiter") "CSV delimiter must be a single ASCII character")
         | None => []
         end
  | SrcJson path _ _ _ => check_file (base +:+ ".path") path
  | SrcInline rows _ _ _ => when (is_nil rows) (err (base +:+ ".rows") "inline data has no rows")
  | SrcPlugin source _ _ =>
      if str_is_empty source then err (base +:+ ".source") "plugin data source needs a `source` plugin name"
      else when (negb (has_plugin plan source))
             [with_suggestion "declare the plugin under `plugins:`; it must provide the data_source capability"
                (Diagnostic_error (base +:+ ".source")
                   ("data source references plugin `" +:+ source +:+ "` which is not listed under `plugins:`"))]
  end.

Definition check_scenario (name : string) (sc : PlanScenario) : list Diagnostic :=
  let base := "scenarios." +:+ name in
  let p := ps_program sc in
  on_err (executor_spec f64_to_string (ps_executor sc)) (fun msg => err (base +:+ ".executor") msg)
  ++ when (is_nil (sp_flow p) && negb (is_some (sp_exec p)))
       (err base "scenario needs a `flow:` (YAML steps) and/or an `exec:` (JS function)")
  ++ match sp_pacing p with
     | Some rate => when (f64_le rate f64_zero)
                      (err (base +:+ ".pacing.iterations_per_second") "pacing rate must be greater than zero")
     | None => []
     end
  ++ match sp_think_time p with Some t => check_think_time (base +:+ ".think_time") t | None => [] end
  ++ match sp_faults p with Some f => check_faults (base +:+ ".faults") f | None => [] end
  ++ (check_steps base "flow" (sp_flow p) (list_to_set (tp_variables plan).*1)).1.

Definition check_defaults : list Diagnostic :=
  let http := pd_http (tp_defaults plan) in
  let tls := tp_tls plan in
  match pd_think_time (tp_defaults plan) with Some t => check_think_time "defaults.think_time" t | None => [] end
  ++ match tp_proxy plan with
     | Some proxy => when (negb (url_parses proxy)) (err "defaults.http.proxy" ("invalid proxy URL `" +:+ proxy +:+ "`"))
     | None => []
     end
  ++ match hd_base_url http with
     | Some base_url =>
         when (match Template_parse base_url with Ok t => is_literal t | Err _ => false end && negb (url_parses base_url))
           (err "defaults.http.base_url" ("invalid base URL `" +:+ base_url +:+ "` (must be absolute, e.g. https://host)"))
     | None => []
     end
  ++ check_file_opt "defaults.http.tls.ca_file" (tls_ca_file tls)
  ++ check_file_opt "defaults.http.tls.cert_file" (tls_cert_file tls)
  ++ check_file_opt "defaults.http.tls.key_file" (tls_key_file tls)
  ++ when (xorb (is_some (tls_cert_file tls)) (is_some (tls_key_file tls)))
       (err "defaults.http.tls" "mTLS needs both `cert_file` and `key_file`").

Definition plugin_metrics : list string :=
  concat ((fun p => [pr_name p +:+ "_reqs"; pr_name p +:+ "_req_duration"; pr_name p +:+ "_docs"; pr_name p +:+ "_rows"])
            <$> tp_plugins plan).
Definition observe_metrics : list string :=
  concat ((fun o => match o with
                    | ObPrometheus name _ query as_name _ _ =>
                        [match as_name, name with Some n, _ | None, Some n => n | None, None => query end]
                    | ObSystem _ _ as_prefix =>
                        (fun m => default "system" as_prefix +:+ "_" +:+ m) <$> ["cpu"; "memory"; "disk_io"; "network"]
                    end) <$> tp_observe plan).
(** A [BTreeSet]: sorted, each name once. *)
Definition known_metrics : list string :=
  merge_sort str_le (remove_dups (BUILTIN_METRICS ++ (tp_metrics plan).*1 ++ plugin_metrics ++ observe_metrics)).

(** [None]: parsing the expression panics. *)
Definition check_threshold_entry (path : string) (e : ThresholdEntry) : may_panic (list Diagnostic) :=
  (fun r => on_err r (fun e => err path (ThresholdParseError_to_string e)))
    <$> ThresholdExpr_parse humantime_parse_duration (expression e).

Fixpoint concat_panics {A B : Type} (f : A -> may_panic (list B)) (l : list A) : may_panic (list B) :=
  match l with
  | [] => Some []
  | x :: l => ds ← f x; rest ← concat_panics f l; Some (ds ++ rest)
  end.

Definition check_threshold (selector_str : string) (l : ThresholdList) : may_panic (list Diagnostic) :=
  let path := "thresholds." +:+ selector_str in
  let selector :=
    match MetricSelector_parse selector_str with
    | Ok sel =>
        when (negb (bool_decide (ms_metric sel ∈ known_metrics)))
          [suggest (Diagnostic_warning path
                      ("`" +:+ ms_metric sel +:+ "` is not a built-in or custom metric; the threshold will have no samples"))
             (did_you_mean jaro_winkler (ms_metric sel) known_metrics)]
    | Err e => err path (ThresholdParseError_to_string e)
    end in
  (fun ds => selector ++ ds) <$> concat_panics (check_threshold_entry path) (entries l).

Definition check_output (i : nat) (out : OutputConfig) : list Diagnostic :=
  let path := at_index "outputs" i in
  match out with
  | OcPrometheus listen remote_write_url _ _ =>
      match remote_write_url with
      | None => when (negb (is_some listen)) (err path "prometheus output needs `listen` and/or `remote_write_url`")
      | Some rw => when (negb (url_parses rw)) (err (path +:+ ".remote_write_url") "invalid URL")
      end
  | OcInfluxdb u _ _ _ _ => when (negb (url_parses u)) (err (path +:+ ".url") "invalid URL")
  | _ => []
  end.

Definition check_plan : may_panic (list Diagnostic) :=
  thresholds ← concat_panics (fun kv => check_threshold kv.1 kv.2) (tp_thresholds plan);
  Some (when (is_nil (tp_scenarios plan)) (err "scenarios" "a test needs at least one scenario")
        ++ check_js_config
        ++ concat ((fun kv => check_secret kv.1 kv.2) <$> tp_secrets plan)
        ++ concat ((fun kv => check_data_source kv.1 kv.2) <$> tp_data plan)
        ++ concat ((fun kv => check_scenario kv.1 kv.2) <$> tp_scenarios plan)
        ++ check_defaults
        ++ thresholds
        ++ each_at check_output 0 (tp_outputs plan)).

Definition validate (source : option string) : may_panic (list Diagnostic) :=
  let index := match source with Some s => SpanIndex_build s | None => [] end in
  (fun ds : list Diagnostic => locate index <$> ds) <$> check_plan.

(** [load_str_with_base], after the document is parsed: errors refuse the plan if they are denied. *)
Definition has_errors (ds : list Diagnostic) : bool := existsb (fun d => bool_decide (dg_severity d = Error)) ds.
Definition accept (source : option string) (deny_errors : bool) : may_panic (result (list Diagnostic) (list Diagnostic)) :=
  (fun ds => if has_errors ds && deny_errors then Err ds else Ok ds) <$> validate source.
End Validate.
