(* ===== verification/ValidateSound.v ===== *)
(** * What validation is worth (validate.rs against flow.rs, plan.rs, thresholds.rs)

    A plan on which the validator reports no error compiles: its executors, its thresholds and every
    request of its flows, but for the texts the validator does not look at, which are named here
    ([unchecked_ok]).  The proof follows the two walks over the plan side by side. *)

From Stdlib Require Import Ascii.
From S2P Require Import Prelude Float64 Str Dur Metrics Threshold Thresholds Executor Value Template Protocol Extract Conditions Feeds Pacing Program Interp Prepare Diagnostics Validate.

(** ** No error *)

Definition no_errors (ds : list Diagnostic) : Prop := Forall (fun d => dg_severity d <> Error) ds.

Lemma no_errors_app (a b : list Diagnostic) : no_errors (a ++ b) <-> no_errors a /\ no_errors b.
Proof. apply Forall_app. Qed.

Lemma no_errors_err (p m : string) : no_errors (err p m) <-> False.
Proof. unfold no_errors, err. rewrite Forall_singleton. by split. Qed.

Lemma no_errors_when (b : bool) (ds : list Diagnostic) : no_errors (when b ds) -> ~ no_errors ds -> b = false.
Proof. by destruct b. Qed.

Lemma no_errors_when_err (b : bool) (p m : string) : no_errors (when b (err p m)) <-> b = false.
Proof.
  destruct b; unfold when; [rewrite no_errors_err; split; [intros []|discriminate]|]. split; [done|]. intros _. constructor.
Qed.

Lemma no_errors_on_err {E A : Type} (r : result E A) (f : E -> list Diagnostic) :
  (forall e, ~ no_errors (f e)) -> no_errors (on_err r f) -> exists x, r = Ok x.
Proof. intros Hf. destruct r as [x|e]; cbn; [by exists x|]. intros Hn. by destruct (Hf e). Qed.

Lemma no_errors_on_err_err {E A : Type} (r : result E A) (p : string) (m : E -> string) :
  no_errors (on_err r (fun e => err p (m e))) -> exists x, r = Ok x.
Proof. apply no_errors_on_err. intros e Hn. by apply no_errors_err in Hn. Qed.

Lemma no_errors_concat {A : Type} (f : A -> list Diagnostic) (l : list A) :
  no_errors (concat (f <$> l)) <-> Forall (fun x => no_errors (f x)) l.
Proof.
  induction l as [|x l IH]; cbn; [split; by constructor|]. by rewrite no_errors_app, IH, Forall_cons.
Qed.

Lemma no_errors_each_at {A : Type} (g : nat -> A -> list Diagnostic) (i : nat) (l : list A) :
  no_errors (each_at g i l) -> forall j x, l !! j = Some x -> no_errors (g (i + j)%nat x).
Proof.
  revert i. induction l as [|y l IH]; intros i; cbn; [done|]. intros [Hy Hl]%no_errors_app j x Hj.
  destruct j as [|j]; cbn in Hj; [injection Hj as ->; by rewrite Nat.add_0_r|].
  replace (i + S j)%nat with (S i + j)%nat by lia. by apply IH.
Qed.

Lemma no_errors_declaring {A : Type} (g : nat -> A -> gset string -> list Diagnostic * gset string) (i : nat) (l : list A) d :
  no_errors (declaring g i l d).1 -> forall j x, l !! j = Some x -> exists d', no_errors (g (i + j)%nat x d').1.
Proof.
  revert i d. induction l as [|y l IH]; intros i d; cbn; [done|].
  destruct (g i y d) as [ds d1] eqn:Hg. destruct (declaring g (S i) l d1) as [rest d2] eqn:Hd. cbn.
  intros [Hy Hl]%no_errors_app j x Hj. destruct j as [|j]; cbn in Hj.
  - injection Hj as ->. exists d. rewrite Nat.add_0_r, Hg. done.
  - replace (i + S j)%nat with (S i + j)%nat by lia. apply (IH _ d1); [by rewrite Hd|done].
Qed.

(** ** Compiling lists *)

Lemma traverse_ok {E A B : Type} (f : A -> result E B) (l : list A) :
  Forall (fun x => exists y, f x = Ok y) l -> exists ys, traverse f l = Ok ys.
Proof.
  induction 1 as [|x l [y Hy] _ [ys IH]]; cbn; [by exists []|]. rewrite Hy, IH. cbn. by eexists.
Qed.

Lemma traverse_at_ok {E A B : Type} (g : nat -> A -> result E B) (i : nat) (l : list A) :
  (forall j x, l !! j = Some x -> exists y, g (i + j)%nat x = Ok y) -> exists ys, traverse_at g i l = Ok ys.
Proof.
  revert i. induction l as [|x l IH]; intros i Hl; cbn; [by exists []|].
  destruct (Hl 0%nat x eq_refl) as [y Hy]. rewrite Nat.add_0_r in Hy. rewrite Hy. cbn.
  destruct (IH (S i)) as [ys ->]; [|by eexists]. intros j z Hj. replace (S i + j)%nat with (i + S j)%nat by lia. by apply Hl.
Qed.

Lemma traverse_opt_ok {E A B : Type} (f : A -> result E B) (o : option A) :
  (forall x, o = Some x -> exists y, f x = Ok y) -> exists y, traverse_opt f o = Ok y.
Proof. destruct o as [x|]; cbn; [|by exists None]. intros Ho. destruct (Ho x eq_refl) as [y ->]. cbn. by eexists. Qed.

Lemma map_err_ok {E F A : Type} (f : E -> F) (r : result E A) : (exists x, r = Ok x) -> exists x, result_map_err f r = Ok x.
Proof. intros [x ->]. by exists x. Qed.

Definition template_ok (s : string) : Prop := exists t, Template_parse s = Ok t.

Lemma parse_template_ok (s what : string) : template_ok s -> exists t, parse_template s what = Ok t.
Proof. apply map_err_ok. Qed.

Lemma compile_fields_ok (what : string) (l : list (string * string)) :
  Forall (fun kv => template_ok kv.2) l -> exists fs, compile_fields what l = Ok fs.
Proof.
  intros Hl. apply traverse_ok. eapply Forall_impl; [exact Hl|]. intros kv [t Ht]%(parse_template_ok _ what). rewrite Ht. cbn. by eexists.
Qed.

Lemma check_template_ok (path text : string) : no_errors (check_template path text) -> template_ok text.
Proof. apply no_errors_on_err_err. Qed.

Lemma check_templates_ok (f : string -> string) (l : list (string * string)) :
  no_errors (concat ((fun kv => check_template (f kv.1) kv.2) <$> l)) -> Forall (fun kv => template_ok kv.2) l.
Proof. rewrite no_errors_concat. intros Hl. eapply Forall_impl; [exact Hl|]. intros kv. apply check_template_ok. Qed.

(** ** JSON values *)

Lemma compiled_json_ok (v : Value) (what : string) : forall path,
  no_errors (check_json_templates path v) -> exists j, CompiledJson_compile v what = Ok j.
Proof.
  induction v as [|b|n|s|items IH|m IH] using Value_ind'; intros path Hn; cbn in Hn |- *; try by eexists.
  - destruct (parse_template_ok s what (check_template_ok _ _ Hn)) as [t ->]. cbn. repeat case_match; by eexists.
  - destruct (traverse_ok (fun item => CompiledJson_compile item what) items) as [js ->]; [|cbn; case_match; by eexists].
    rewrite Forall_forall in IH |- *. intros x Hin. pose proof Hin as [j Hj]%list_elem_of_lookup.
    apply (IH x Hin (at_index path j)). exact (no_errors_each_at (fun i v => check_json_templates (at_index path i) v) 0 items Hn j x Hj).
  - destruct (traverse_ok (fun kv => let? j := CompiledJson_compile kv.2 what in Ok (kv.1, j)) m) as [js ->];
      [|cbn; case_match; by eexists].
    rewrite no_errors_concat in Hn. rewrite Forall_forall in IH, Hn |- *. intros kv Hin.
    destruct (IH kv Hin _ (Hn kv Hin)) as [j ->]. cbn. by eexists.
Qed.

Section Sound.
Context `{ValidateTools, JsonText, ConditionText}.
Context (humantime_parse_duration : string -> result string Duration).
Context (plan : TestPlan) (opts : ValidateOptions).
Context (read : string -> result string string) (aliases : gmap string string) (base_dir : string).

(** ** Requests *)

(** What the validator does not look at: the name, the parameters, the texts and the files of the body,
    and CSS selectors. *)
Definition readable (file : string) : Prop := exists b, read (resolve_path base_dir file) = Ok b.
Definition selector_ok (s : string) : Prop := exists x, selector_parse s = Ok x.
Definition if_some {A : Type} (P : A -> Prop) (o : option A) : Prop := match o with Some x => P x | None => True end.

Record unchecked_ok (r : RequestStep) : Prop := {
  un_name : if_some template_ok (rq_name r);
  un_params : Forall (fun kv => template_ok kv.2) (rq_params r);
  un_body : match rq_body r with
            | Some (BodyText t) => template_ok t
            | Some (BodyOf spec) =>
                if_some readable (bs_file spec)
                /\ if_some (Forall (fun kv => template_ok kv.2)) (bs_form spec)
                /\ if_some (Forall (fun p => if_some template_ok (mp_value p) /\ if_some readable (mp_file p))) (bs_multipart spec)
            | None => True
            end;
  un_css : Forall (fun e => match e with
                            | ExClassic (ExCss _ s _ _ _) => selector_ok s
                            | ExChain c => if_some selector_ok (cs_css c)
                            | _ => True
                            end) (rq_extract r);
}.

Lemma read_file_ok (file : string) : readable file -> exists b, read_file read base_dir file = Ok b.
Proof. apply map_err_ok. Qed.

Lemma compile_body_ok (r : RequestStep) : unchecked_ok r -> exists b, compile_body read base_dir (rq_body r) = Ok b.
Proof.
  intros [_ _ Hb _]. destruct (rq_body r) as [[t|spec]|]; cbn; [| |by eexists].
  - destruct (parse_template_ok t "body" Hb) as [x ->]. cbn. by eexists.
  - destruct Hb as (Hfile & Hform & Hparts). destruct (bs_json spec); [by eexists|].
    destruct (bs_file spec) as [file|]; [destruct (read_file_ok file Hfile) as [b ->]; cbn; by eexists|].
    destruct (bs_form spec) as [form|]; [destruct (compile_fields_ok "form value" form Hform) as [fs ->]; cbn; by eexists|].
    destruct (bs_multipart spec) as [ps|]; [|by eexists].
    destruct (traverse_ok (compile_part read base_dir) ps) as [cs ->]; [|cbn; by eexists].
    eapply Forall_impl; [exact Hparts|]. intros p [Hv Hf]. unfold compile_part.
    destruct (traverse_opt_ok (fun v => parse_template v "multipart value") (mp_value p)) as [v ->].
    { intros x Hx. rewrite Hx in Hv. by apply parse_template_ok. }
    destruct (traverse_opt_ok (read_file read base_dir) (mp_file p)) as [b ->].
    { intros x Hx. rewrite Hx in Hf. by apply read_file_ok. }
    cbn. by eexists.
Qed.

Lemma compile_grpc_ok (rpath : string) (g : GrpcOptions) :
  no_errors (check_grpc opts rpath g) -> exists c, CompiledGrpc_compile g base_dir = Ok c.
Proof.
  unfold check_grpc. cbv zeta. rewrite !no_errors_app. intros (_ & _ & _ & Hm & Hms & Hmeta & _). unfold CompiledGrpc_compile.
  destruct (traverse_opt_ok (fun m => CompiledGrpcValue_compile m "grpc message") (go_message g)) as [m ->].
  { intros x Hx. rewrite Hx in Hm. unfold CompiledGrpcValue_compile.
    destruct (compiled_json_ok x "grpc message" _ Hm) as [j ->]. cbn. destruct j; by eexists. }
  cbn. unfold CompiledGrpcValues_compile.
  destruct (traverse_ok (fun v => CompiledJson_compile v "grpc message") (go_messages g)) as [js ->].
  { rewrite Forall_forall. intros x [j Hj]%list_elem_of_lookup.
    exact (compiled_json_ok x "grpc message" _ (no_errors_each_at _ 0 _ Hms j x Hj)). }
  cbn. set (o := if forallb cj_is_literal js then _ else _). assert (exists v, o = Ok v) as [v ->]
    by (subst o; destruct (forallb cj_is_literal js); eexists; reflexivity).
  cbn. apply (check_templates_ok (fun k => (rpath +:+ ".grpc") +:+ ".metadata." +:+ k)) in Hmeta.
  match goal with |- context [traverse ?f (go_metadata g)] => destruct (traverse_ok f (go_metadata g)) as [md ->] end.
  { eapply Forall_impl; [exact Hmeta|]. intros kv Hkv. cbn.
    destruct (parse_template_ok _ ("grpc metadata `" +:+ kv.1 +:+ "`") Hkv) as [t ->]. cbn. by eexists. }
  cbn. by eexists.
Qed.

Lemma check_regex_group_ok (path pattern : string) (group : option nat) :
  no_errors (check_regex_group path pattern group) -> exists re, regex_new pattern = Ok re.
Proof. unfold check_regex_group. destruct (regex_new pattern) as [re|e]; [by exists re|]. intros Hn. by apply no_errors_err in Hn. Qed.

Lemma chain_source_ok (path : string) (c : ChainSpec) :
  no_errors (check_chain path c) -> if_some selector_ok (cs_css c) -> exists s, chain_source c = Ok s.
Proof.
  unfold check_chain. cbv zeta. rewrite !no_errors_app. intros (Hs & Hb & Hj & Hp & Hr & _) Hcss. unfold chain_source, chain_sources in *.
  destruct (cs_jmespath c) as [e|]; [destruct (no_errors_on_err_err _ _ _ Hj) as [x ->]; cbn; by eexists|].
  destruct (cs_jsonpath c) as [e|]; [destruct (no_errors_on_err_err _ _ _ Hp) as [x ->]; cbn; by eexists|].
  destruct (cs_regex c) as [e|]; [destruct (check_regex_group_ok _ _ _ Hr) as [x ->]; cbn; by eexists|].
  destruct (cs_header c) as [h|]; [by eexists|].
  destruct (cs_css c) as [s|]; [destruct Hcss as [x Hx]; rewrite Hx; cbn; by eexists|].
  destruct (cs_xpath c) as [e|]; [by eexists|].
  destruct (cs_left c), (cs_right c); cbn in Hs, Hb; try (by apply no_errors_err in Hb); [by eexists|by apply no_errors_err in Hs].
Qed.

Lemma compile_extractor_ok (path : string) (e : Extractor) :
  no_errors (check_extractor path e) ->
  match e with
  | ExClassic (ExCss _ s _ _ _) => selector_ok s
  | ExChain c => if_some selector_ok (cs_css c)
  | _ => True
  end -> exists c, CompiledExtractor_compile e = Ok c.
Proof.
  destruct e as [c|[n x d i|n x g d i|n x d|n x a d i|n l r d i|n h d]]; cbn; intros Hn Hcss; try by eexists.
  - unfold CompiledChain_compile. destruct (chain_source_ok path c Hn Hcss) as [s ->]. cbn.
    unfold check_chain in Hn. cbv zeta in Hn. rewrite !no_errors_app in Hn. destruct Hn as (_ & _ & _ & _ & _ & Hk & _).
    destruct (cs_check c) as [k|]; [|by eexists]. unfold check_chain_check in Hk. rewrite no_errors_app in Hk. destruct Hk as [Hm _].
    unfold CompiledChainCheck_compile. destruct (cc_matches k) as [m|]; [|by eexists].
    destruct (no_errors_on_err_err _ _ _ Hm) as [re ->]. cbn. by eexists.
  - destruct (no_errors_on_err_err _ _ _ Hn) as [p ->]. cbn. by eexists.
  - destruct (check_regex_group_ok _ _ _ Hn) as [re ->]. cbn. by eexists.
  - destruct Hcss as [s ->]. cbn. by eexists.
Qed.

Lemma compile_condition_ok (req : RequestStep) (section path : string) (c : Condition) :
  no_errors (check_condition req section path c) -> exists k, CompiledCondition_compile c = Ok k.
Proof.
  unfold CompiledCondition_compile. destruct c; cbn; try by eexists.
  - rewrite no_errors_app. intros [_ Hm]. destruct matches_ as [m|]; [|by eexists].
    destruct (no_errors_on_err_err _ _ _ Hm) as [re ->]. cbn. by eexists.
  - intros Hm. destruct (no_errors_on_err_err _ _ _ Hm) as [re ->]. cbn. by eexists.
  - intros Hm. destruct (no_errors_on_err_err _ _ _ Hm) as [p ->]. cbn. by eexists.
Qed.

Lemma compile_conditions_ok (req : RequestStep) (section : string) (path : nat -> string) (cs : list Condition) :
  no_errors (each_at (fun ci c => check_condition req section (path ci) c) 0 cs) -> exists ks, compile_conditions cs = Ok ks.
Proof.
  intros Hn. apply traverse_ok. rewrite Forall_forall. intros c [j Hj]%list_elem_of_lookup. apply map_err_ok.
  exact (compile_condition_ok req section _ c (no_errors_each_at _ 0 _ Hn j c Hj)).
Qed.

Lemma compile_request_ok (path : string) (r : RequestStep) (declared : gset string) :
  no_errors (check_request plan opts path r declared).1 -> unchecked_ok r ->
  exists c, compile_request read aliases base_dir r = Ok c.
Proof.
  unfold check_request. cbv zeta. cbn [fst]. rewrite !no_errors_app.
  intros (Hurl & Hheaders & _ & _ & _ & Hgrpc & _ & _ & Hex & Hassert & Hchecks) Hun. unfold compile_request.
  destruct (compile_body_ok r Hun) as [body ->]. cbn.
  destruct (traverse_opt_ok (fun g => CompiledGrpc_compile g base_dir) (rq_grpc r)) as [grpc ->].
  { intros g Hg. rewrite Hg in Hgrpc. by eapply compile_grpc_ok. }
  cbn. match goal with |- context [traverse ?f (rq_extract r)] => destruct (traverse_ok f (rq_extract r)) as [ex ->] end.
  { rewrite Forall_forall. intros e Hin. pose proof Hin as [j Hj]%list_elem_of_lookup. apply map_err_ok.
    pose proof (un_css r Hun) as Hcss. rewrite Forall_forall in Hcss.
    exact (compile_extractor_ok _ e (no_errors_each_at _ 0 _ Hex j e Hj) (Hcss e Hin)). }
  cbn. destruct (compile_conditions_ok _ _ _ _ Hassert) as [asserts ->], (compile_conditions_ok _ _ _ _ Hchecks) as [checks ->]. cbn.
  destruct (bind_checks asserts []) as [asserts' bound]. destruct (bind_checks checks bound) as [checks' bound'].
  destruct (traverse_opt_ok (fun n => parse_template n "request name") (rq_name r)) as [name ->].
  { intros n Hn. pose proof (un_name r Hun) as Hname. rewrite Hn in Hname. by apply parse_template_ok. }
  assert (template_ok (rq_url r)) as Hu.
  { unfold check_url in Hurl. rewrite no_errors_app in Hurl. destruct Hurl as [_ Hu].
    destruct (Template_parse (rq_url r)) as [t|e] eqn:Ht; [by exists t|]. by apply no_errors_err in Hu. }
  cbn. destruct (parse_template_ok (rq_url r) "url" Hu) as [url ->].
  destruct (compile_fields_ok "header" (rq_headers r) 
    (check_templates_ok (fun k => (path +:+ ".request") +:+ ".headers." +:+ k) _ Hheaders)) as [headers ->].
  destruct (compile_fields_ok "param" (rq_params r) (un_params r Hun)) as [params ->]. cbn. by eexists.
Qed.

(** ** Steps *)

Local Ltac all_steps IH l := induction l; constructor; [apply IH|assumption].

Fixpoint step_requests (s : Step) : list RequestStep :=
  let all := fun l => concat (map step_requests l) in
  match s with
  | StRequest r => [r]
  | StGroup _ steps | StRepeat _ _ steps | StWhile _ _ steps | StForeach _ _ _ steps | StDuring _ _ steps | StRetry _ _ _ steps =>
      all steps
  | StIf _ then_ otherwise => all then_ ++ all otherwise
  | StRandom _ choices => concat (map (fun '(_, _, steps) => all steps) choices)
  | StSwitch _ cases dflt => concat (map (fun '(_, steps) => all steps) cases) ++ all dflt
  | StParallel branches => concat (map all branches)
  | StThinkTime _ | StJs _ | StRendezvous _ _ _ => []
  end.

Lemma Step_ind' (Pr : Step -> Prop)
    (HRequest : forall r, Pr (StRequest r)) (HThink : forall t, Pr (StThinkTime t)) (HJs : forall j, Pr (StJs j))
    (HGroup : forall n steps, Forall Pr steps -> Pr (StGroup n steps))
    (HRepeat : forall t c steps, Forall Pr steps -> Pr (StRepeat t c steps))
    (HWhile : forall c m steps, Forall Pr steps -> Pr (StWhile c m steps))
    (HIf : forall c t o, Forall Pr t -> Forall Pr o -> Pr (StIf c t o))
    (HRandom : forall s cs, Forall (fun c => Forall Pr c.2) cs -> Pr (StRandom s cs))
    (HForeach : forall i v x steps, Forall Pr steps -> Pr (StForeach i v x steps))
    (HSwitch : forall v cs dflt, Forall (fun c => Forall Pr c.2) cs -> Forall Pr dflt -> Pr (StSwitch v cs dflt))
    (HDuring : forall t c steps, Forall Pr steps -> Pr (StDuring t c steps))
    (HRetry : forall t u b steps, Forall Pr steps -> Pr (StRetry t u b steps))
    (HParallel : forall bs, Forall (Forall Pr) bs -> Pr (StParallel bs))
    (HRendezvous : forall n u t, Pr (StRendezvous n u t)) : forall s, Pr s.
Proof.
  fix IH 1.
  intros [r|t|j|n steps|t c steps|c m steps|c t o|s cs|i v x steps|v cs dflt|t c steps|t u b steps|bs|n u t].
  - apply HRequest.
  - apply HThink.
  - apply HJs.
  - apply HGroup. all_steps IH steps.
  - apply HRepeat. all_steps IH steps.
  - apply HWhile. all_steps IH steps.
  - apply HIf; [all_steps IH t|all_steps IH o].
  - apply HRandom. induction cs as [|[w steps] cs IHcs]; constructor; [cbn; all_steps IH steps|exact IHcs].
  - apply HForeach. all_steps IH steps.
  - apply HSwitch; [|all_steps IH dflt].
    induction cs as [|[k steps] cs IHcs]; constructor; [cbn; all_steps IH steps|exact IHcs].
  - apply HDuring. all_steps IH steps.
  - apply HRetry. all_steps IH steps.
  - apply HParallel. induction bs as [|steps bs IHbs]; constructor; [all_steps IH steps|exact IHbs].
  - apply HRendezvous.
Qed.

Definition step_compiles (s : Step) : Prop := forall path declared at_,
  no_errors (check_step plan opts path s declared).1 -> Forall unchecked_ok (step_requests s) ->
  exists c, compile_step read aliases base_dir at_ s = Ok c.

Lemma Forall_concat_lookup {A B : Type} (P : B -> Prop) (f : A -> list B) (l : list A) (j : nat) (x : A) :
  Forall P (concat (map f l)) -> l !! j = Some x -> Forall P (f x).
Proof. intros Hall Hj%list_elem_of_lookup_2. rewrite !Forall_forall in *. intros y Hy. apply Hall, list_elem_of_In, in_concat.
  exists (f x). split; [|by apply list_elem_of_In]. apply in_map. by apply list_elem_of_In. Qed.

Lemma compile_list_ok (steps : list Step) (path : nat -> string) (declared : gset string) (at_ : nat -> list nat) :
  Forall step_compiles steps ->
  no_errors (declaring (fun i s d => check_step plan opts (path i) s d) 0 steps declared).1 ->
  Forall unchecked_ok (concat (map step_requests steps)) ->
  exists cs, traverse_at (fun i s => compile_step read aliases base_dir (at_ i) s) 0 steps = Ok cs.
Proof.
  intros Hall Hn Hun. apply traverse_at_ok. intros j s Hj.
  destruct (no_errors_declaring _ _ _ _ Hn j s Hj) as [d' Hd']. rewrite Forall_forall in Hall.
  apply (Hall s (list_elem_of_lookup_2 _ _ _ Hj) _ _ _ Hd'). by eapply Forall_concat_lookup.
Qed.

Lemma compile_step_ok (s : Step) : step_compiles s.
Proof.
  induction s as [r|t|j|n steps IH|t c steps IH|c m steps IH|c t o IHt IHo|s cs IH|i v x steps IH|v cs dflt IH IHd|t c steps IH
                 |t u b steps IH|bs IH|n u t] using Step_ind'; intros path declared at_ Hn Hun; cbn [step_requests] in Hun;
    cbn [check_step compile_step] in Hn |- *; cbv zeta in Hn |- *; cbn [fst] in Hn; rewrite ?no_errors_app in Hn.
  - rewrite Forall_singleton in Hun. destruct (compile_request_ok _ _ _ Hn Hun) as [c ->]. cbn. by eexists.
  - by eexists.
  - destruct j; by eexists.
  - destruct (compile_list_ok steps _ _ (fun i => at_ ++ [0%nat; i]) IH (proj2 Hn) Hun) as [ss ->]. cbn. by eexists.
  - destruct (compile_list_ok steps _ _ (fun i => at_ ++ [0%nat; i]) IH (proj2 Hn) Hun) as [ss ->]. cbn. by eexists.
  - destruct (compile_list_ok steps _ _ (fun i => at_ ++ [0%nat; i]) IH (proj2 Hn) Hun) as [ss ->]. cbn. by eexists.
  - destruct (declaring _ 0 t declared) as [ds d1] eqn:Ht. cbn [fst] in Hn. rewrite !no_errors_app in Hn.
    destruct Hn as [[_ Hds] Ho]. apply Forall_app in Hun as [Hut Huo].
    assert (no_errors (declaring (fun i s d => check_step plan opts (at_index ((path +:+ ".if") +:+ "." +:+ "then") i) s d) 0 t declared).1)
      as Hthen by (by rewrite Ht).
    destruct (compile_list_ok t _ _ (fun i => at_ ++ [0%nat; i]) IHt Hthen Hut) as [ts ->].
    destruct (compile_list_ok o _ _ (fun i => at_ ++ [1%nat; i]) IHo Ho Huo) as [os ->]. cbn. by eexists.
  - destruct Hn as [_ Hn].
    match goal with |- context [traverse_at ?f 0 cs] => destruct (traverse_at_ok f 0 cs) as [rs ->] end; [|cbn; by eexists].
    intros j [[w nm] steps] Hj. destruct (no_errors_declaring _ _ _ _ Hn j _ Hj) as [d' Hd']. cbn [fst] in Hd'.
    rewrite no_errors_app in Hd'. rewrite Forall_forall in IH.
    destruct (compile_list_ok steps _ _ (fun i => at_ ++ [(0 + j)%nat; i]) (IH _ (list_elem_of_lookup_2 _ _ _ Hj)) (proj2 Hd')
                (Forall_concat_lookup _ _ _ _ _ Hun Hj)) as [ss ->]. cbn. by eexists.
  - destruct (compile_list_ok steps _ _ (fun i => at_ ++ [0%nat; i]) IH Hn Hun) as [ss ->]. cbn. by eexists.
  - destruct (declaring _ 0 cs declared) as [ds d1] eqn:Hcs. cbn [fst] in Hn. rewrite !no_errors_app in Hn.
    destruct Hn as [(Hv & _ & Hds) Hd]. apply Forall_app in Hun as [Hut Hud].
    destruct (parse_template_ok v "switch value" (check_template_ok _ _ Hv)) as [tv ->]. cbn.
    match goal with |- context [traverse_at ?f 0 cs] => destruct (traverse_at_ok f 0 cs) as [rs ->] end.
    { intros j [key steps] Hj. match type of Hcs with declaring ?g _ _ _ = _ =>
        assert (no_errors (declaring g 0 cs declared).1) as Hn by (by rewrite Hcs) end.
      destruct (no_errors_declaring _ _ _ _ Hn j _ Hj) as [d' Hd']. rewrite Forall_forall in IH.
      destruct (compile_list_ok steps _ _ (fun i => at_ ++ [S (0 + j); i]) (IH _ (list_elem_of_lookup_2 _ _ _ Hj)) Hd'
                  (Forall_concat_lookup _ _ _ _ _ Hut Hj)) as [ss ->]. cbn. by eexists. }
    destruct (compile_list_ok dflt _ _ (fun i => at_ ++ [0%nat; i]) IHd Hd Hud) as [os ->]. cbn. by eexists.
  - destruct (compile_list_ok steps _ _ (fun i => at_ ++ [0%nat; i]) IH (proj2 Hn) Hun) as [ss ->]. cbn. by eexists.
  - destruct (compile_list_ok steps _ _ (fun i => at_ ++ [0%nat; i]) IH (proj2 Hn) Hun) as [ss ->]. cbn. by eexists.
  - destruct Hn as [_ Hn].
    match goal with |- context [traverse_at ?f 0 bs] => destruct (traverse_at_ok f 0 bs) as [rs ->] end; [|cbn; by eexists].
    intros j steps Hj. destruct (no_errors_declaring _ _ _ _ Hn j _ Hj) as [d' Hd']. rewrite Forall_forall in IH.
    apply (compile_list_ok steps _ _ (fun i => at_ ++ [(0 + j)%nat; i]) (IH _ (list_elem_of_lookup_2 _ _ _ Hj)) Hd').
    by apply (Forall_concat_lookup _ _ _ _ _ Hun Hj).
  - by eexists.
Qed.

(** ** Every request of a flow is looked at *)

Definition checked (r : RequestStep) : Prop := exists path declared, no_errors (check_request plan opts path r declared).1.
Definition step_checked (s : Step) : Prop := forall path declared,
  no_errors (check_step plan opts path s declared).1 -> Forall checked (step_requests s).

Lemma Forall_concat_map {A B : Type} (P : B -> Prop) (f : A -> list B) (l : list A) :
  (forall j x, l !! j = Some x -> Forall P (f x)) -> Forall P (concat (map f l)).
Proof.
  intros Hl. rewrite Forall_forall. intros y Hy%list_elem_of_In%in_concat. destruct Hy as (fx & Hfx & Hy).
  apply in_map_iff in Hfx as (x & <- & Hx%list_elem_of_In%list_elem_of_lookup). destruct Hx as [j Hj].
  specialize (Hl j x Hj). rewrite Forall_forall in Hl. by apply Hl, list_elem_of_In.
Qed.

Lemma checked_list (steps : list Step) (path : nat -> string) (declared : gset string) :
  Forall step_checked steps ->
  no_errors (declaring (fun i s d => check_step plan opts (path i) s d) 0 steps declared).1 ->
  Forall checked (concat (map step_requests steps)).
Proof.
  intros Hall Hn. apply Forall_concat_map. intros j s Hj.
  destruct (no_errors_declaring _ _ _ _ Hn j s Hj) as [d' Hd']. rewrite Forall_forall in Hall.
  exact (Hall s (list_elem_of_lookup_2 _ _ _ Hj) _ _ Hd').
Qed.

Lemma check_step_requests (s : Step) : step_checked s.
Proof.
  induction s as [r|t|j|n steps IH|t c steps IH|c m steps IH|c t o IHt IHo|s cs IH|i v x steps IH|v cs dflt IH IHd|t c steps IH
                 |t u b steps IH|bs IH|n u t] using Step_ind'; intros path declared Hn; cbn [step_requests]; try by constructor.
  all: cbn [check_step] in Hn; cbv zeta in Hn; cbn [fst] in Hn; rewrite ?no_errors_app in Hn.
  all: try (by apply (checked_list steps _ _ IH (proj2 Hn))).
  - constructor; [by exists path, declared|constructor].
  - destruct (declaring _ 0 t declared) as [ds d1] eqn:Ht. cbn [fst] in Hn. rewrite !no_errors_app in Hn. destruct Hn as [[_ Hds] Ho].
    apply Forall_app. split; [|by apply (checked_list o _ _ IHo Ho)].
    apply (checked_list t (fun i => at_index ((path +:+ ".if") +:+ "." +:+ "then") i) declared IHt). by rewrite Ht.
  - destruct Hn as [_ Hn]. apply Forall_concat_map. intros j [[w nm] steps] Hj.
    destruct (no_errors_declaring _ _ _ _ Hn j _ Hj) as [d' Hd']. cbn [fst] in Hd'. rewrite no_errors_app in Hd'.
    rewrite Forall_forall in IH. by apply (checked_list steps _ _ (IH _ (list_elem_of_lookup_2 _ _ _ Hj)) (proj2 Hd')).
  - by apply (checked_list steps _ _ IH Hn).
  - destruct (declaring _ 0 cs declared) as [ds d1] eqn:Hcs. cbn [fst] in Hn. rewrite !no_errors_app in Hn.
    destruct Hn as [(_ & _ & Hds) Hd]. apply Forall_app. split; [|by apply (checked_list dflt _ _ IHd Hd)].
    match type of Hcs with declaring ?g _ _ _ = _ => assert (no_errors (declaring g 0 cs declared).1) as Hn by (by rewrite Hcs) end.
    apply Forall_concat_map. intros j [key steps] Hj. destruct (no_errors_declaring _ _ _ _ Hn j _ Hj) as [d' Hd'].
    rewrite Forall_forall in IH. by apply (checked_list steps _ _ (IH _ (list_elem_of_lookup_2 _ _ _ Hj)) Hd').
  - destruct Hn as [_ Hn]. apply Forall_concat_map. intros j steps Hj.
    destruct (no_errors_declaring _ _ _ _ Hn j _ Hj) as [d' Hd']. rewrite Forall_forall in IH.
    by apply (checked_list steps _ _ (IH _ (list_elem_of_lookup_2 _ _ _ Hj)) Hd').
Qed.

(** ** Thresholds and the plan *)

Lemma concat_panics_ok {A : Type} (f : A -> may_panic (list Diagnostic)) (l : list A) (ds : list Diagnostic) :
  concat_panics f l = Some ds -> no_errors ds -> Forall (fun x => exists d, f x = Some d /\ no_errors d) l.
Proof.
  revert ds. induction l as [|x l IH]; intros ds; cbn; [constructor|].
  destruct (f x) as [d|] eqn:Hf; [cbn|done]. destruct (concat_panics f l) as [rest|]; [cbn|done].
  intros [= <-] [Hd Hrest]%no_errors_app. constructor; [by exists d|by eapply IH].
Qed.

Lemma compile_entries_ok (path selector_str : string) (sel : MetricSelector) (l : list ThresholdEntry) :
  Forall (fun e => exists d, check_threshold_entry humantime_parse_duration path e = Some d /\ no_errors d) l ->
  exists ts, compile_entries humantime_parse_duration selector_str sel l = Some (Ok ts).
Proof.
  induction 1 as [|e l (d & Hd & Hn) _ [ts IH]]; cbn; [by exists []|]. unfold check_threshold_entry in Hd.
  destruct (ThresholdExpr_parse humantime_parse_duration (expression e)) as [r|]; [|done]. cbn in Hd. injection Hd as <-.
  destruct (no_errors_on_err_err _ _ _ Hn) as [x ->]. rewrite IH. cbn. by eexists.
Qed.

Lemma compile_thresholds_ok (l : list (string * ThresholdList)) (ds : list Diagnostic) :
  concat_panics (fun kv => check_threshold humantime_parse_duration plan kv.1 kv.2) l = Some ds -> no_errors ds ->
  exists ts, compile_thresholds humantime_parse_duration l = Some (Ok ts).
Proof.
  intros Hc Hn. pose proof (concat_panics_ok _ _ _ Hc Hn) as Hall. clear Hc Hn ds.
  induction Hall as [|[k list_] l (d & Hd & Hn) _ [ts IH]]; cbn [compile_thresholds]; [by exists []|].
  unfold check_threshold in Hd. cbn [fst snd] in Hd.
  destruct (concat_panics _ (entries list_)) as [es|] eqn:Hes; cbn [fmap option_fmap option_map] in Hd; [|discriminate Hd].
  apply (inj Some) in Hd. subst d. apply no_errors_app in Hn as [Hsel Hne]. destruct (MetricSelector_parse k) as [sel|e]; [|by apply no_errors_err in Hsel].
  destruct (compile_entries_ok _ k sel (entries list_) (concat_panics_ok _ _ _ Hes Hne)) as [out ->]. rewrite IH. cbn. by eexists.
Qed.

Lemma locate_severity (index : SpanIndex) (d : Diagnostic) : dg_severity (locate index d) = dg_severity d.
Proof. unfold locate. by repeat case_match. Qed.

Lemma no_errors_locate (index : SpanIndex) (ds : list Diagnostic) : has_errors (locate index <$> ds) = false -> no_errors ds.
Proof.
  induction ds as [|d ds IH]; cbn; [constructor|]. intros [Hd Hds]%orb_false_elim. constructor; [|by apply IH].
  rewrite <- (locate_severity index d). by apply bool_decide_eq_false in Hd.
Qed.

(** The parts of a plan without errors. *)
Lemma validate_parts (source : option string) (ds : list Diagnostic) :
  validate humantime_parse_duration plan opts source = Some ds -> has_errors ds = false ->
  (exists ths, concat_panics (fun kv => check_threshold humantime_parse_duration plan kv.1 kv.2) (tp_thresholds plan) = Some ths
    /\ no_errors ths)
  /\ Forall (fun kv => no_errors (check_scenario plan opts kv.1 kv.2)) (tp_scenarios plan).
Proof.
  unfold validate, check_plan. intros Hv Hn.
  destruct (concat_panics _ (tp_thresholds plan)) as [ths|]; [|done]. cbn in Hv. injection Hv as <-.
  apply no_errors_locate in Hn. rewrite !no_errors_app in Hn. destruct Hn as (_ & _ & _ & _ & Hsc & _ & Hths & _).
  split; [by exists ths|]. by apply no_errors_concat.
Qed.

Definition plan_requests (sc : PlanScenario) : list RequestStep := concat (map step_requests (sp_flow (ps_program sc))).

(** C21: a plan that validates compiles.  If the validator reports no error, the thresholds of the plan
    compile, every scenario has an executor, and the flow of every scenario compiles, but for what the validator does
    not look at: the templates of request names, parameters and bodies, the files a body reads, CSS selectors. *)
Theorem validated_plan_compiles (source : option string) (ds : list Diagnostic) :
  validate humantime_parse_duration plan opts source = Some ds -> has_errors ds = false ->
  (exists ts, compile_thresholds humantime_parse_duration (tp_thresholds plan) = Some (Ok ts))
  /\ forall name sc, (name, sc) ∈ tp_scenarios plan ->
     (exists spec, executor_spec f64_to_string (ps_executor sc) = Ok spec)
     /\ (Forall unchecked_ok (plan_requests sc) ->
         exists steps, compile_steps read aliases base_dir (sp_flow (ps_program sc)) = Ok steps).
Proof.
  intros Hv Hn. destruct (validate_parts source ds Hv Hn) as [(ths & Hths & Hne) Hsc].
  split; [by eapply compile_thresholds_ok|]. intros name sc Hin. rewrite Forall_forall in Hsc. specialize (Hsc _ Hin).
  unfold check_scenario in Hsc. cbv zeta in Hsc. rewrite !no_errors_app in Hsc. destruct Hsc as (Hex & _ & _ & _ & _ & Hsteps).
  split; [by apply no_errors_on_err_err in Hex|]. intros Hun.
  apply (compile_list_ok _ _ _ (fun i => [i])) in Hsteps; [done| |done].
  rewrite Forall_forall. intros s _. apply compile_step_ok.
Qed.

(** What a reference of a URL needs. *)
Definition reference_defined (expr : string) : Prop :=
  (forall x, strip_prefix expr "vars." = Some x -> x ∈ (tp_variables plan).*1)
  /\ (forall x, strip_prefix expr "vars." = None -> strip_prefix expr "secrets." = Some x -> x ∈ (tp_secrets plan).*1)
  /\ (forall x, strip_prefix expr "vars." = None -> strip_prefix expr "secrets." = None ->
       strip_prefix expr "data." = Some x -> default x (head (str_split x ".")) ∈ (tp_data plan).*1).

Lemma no_errors_suggest (d : Diagnostic) (s : option string) : dg_severity d = Error -> ~ no_errors [suggest d s].
Proof. intros Hd Hn. apply Forall_inv in Hn. by destruct s. Qed.

Lemma when_has_key {A : Type} (k : string) (m : list (string * A)) (ds : list Diagnostic) :
  ~ no_errors ds -> no_errors (when (negb (has_key k m)) ds) -> k ∈ m.*1.
Proof. intros Hds Hn. apply no_errors_when in Hn; [|done]. apply negb_false_iff in Hn. by apply bool_decide_eq_true in Hn. Qed.

Lemma check_expr_defined (path expr : string) (declared : gset string) :
  no_errors (check_expr_reference plan path expr declared) -> reference_defined expr.
Proof.
  unfold check_expr_reference, reference_defined.
  destruct (strip_prefix expr "vars.") as [v|], (strip_prefix expr "secrets.") as [s|], (strip_prefix expr "data.") as [d|];
    intros Hn; repeat split; intros; simplify_eq/=.
  all: try (eapply when_has_key; [|exact Hn]); try (by apply no_errors_suggest); by intros ?%no_errors_err.
Qed.

Lemma hex_pairs_ok (cs : list (list ascii)) :
  Nat.even (length (concat cs)) = true -> forallb is_ascii_hexdigit cs = true -> exists b, hex_pairs cs = Ok b.
Proof.
  intros Hlen Hall. assert (Nat.even (length cs) = true) as He.
  { rewrite <- Hlen. f_equal. clear Hlen. induction cs as [|c cs IH]; [done|]. cbn in Hall |- *. apply andb_prop in Hall as [Hc Hall].
    rewrite length_app, <- IH by done. by destruct c as [|? [|??]]. }
  clear Hlen. remember (length cs) as n eqn:Hn. revert cs Hn Hall He. induction n as [n IH] using lt_wf_ind. intros cs -> Hall He.
  destruct cs as [|c [|c' cs]]; [by exists []|discriminate He|]. cbn in Hall, He. apply andb_prop in Hall as [Hc [Hc' Hall]%andb_prop].
  destruct c as [|a [|??]]; [done| |done]. destruct c' as [|b [|??]]; [done| |done]. cbn in Hc, Hc' |- *.
  destruct (to_digit16 a) as [h|]; [|done]. destruct (to_digit16 b) as [l|]; [|done].
  destruct (IH (length cs) ltac:(cbn; lia) cs eq_refl Hall He) as [bytes ->]. cbn. by eexists.
Qed.

(** C22: what a validated plan can count on at run time.  In every request of every flow, however nested, each variable,
    secret and data source the URL names is defined in the plan, and a hexadecimal payload decodes. *)
Theorem validated_references_defined (source : option string) (ds : list Diagnostic) (name : string) (sc : PlanScenario)
    (r : RequestStep) :
  validate humantime_parse_duration plan opts source = Some ds -> has_errors ds = false ->
  (name, sc) ∈ tp_scenarios plan -> r ∈ plan_requests sc ->
  (exists t, Template_parse (rq_url r) = Ok t /\ Forall reference_defined (expressions t))
  /\ forall s hex, rq_socket r = Some s -> so_send_hex s = Some hex -> exists bytes, hex_pairs (cleaned_hex hex) = Ok bytes.
Proof.
  intros Hv Hn Hin Hr. destruct (validate_parts source ds Hv Hn) as [_ Hsc]. rewrite Forall_forall in Hsc. specialize (Hsc _ Hin).
  unfold check_scenario in Hsc. cbv zeta in Hsc. rewrite !no_errors_app in Hsc. destruct Hsc as (_ & _ & _ & _ & _ & Hsteps).
  apply checked_list in Hsteps; [|rewrite Forall_forall; intros s _; apply check_step_requests].
  rewrite Forall_forall in Hsteps. destruct (Hsteps r Hr) as (path & declared & Hreq).
  unfold check_request in Hreq. cbv zeta in Hreq. cbn [fst] in Hreq. rewrite !no_errors_app in Hreq.
  destruct Hreq as (Hurl & _ & _ & _ & _ & _ & Hsock & _). split.
  - unfold check_url in Hurl. apply no_errors_app in Hurl as [_ Hu].
    destruct (Template_parse (rq_url r)) as [t|e]; [|by apply no_errors_err in Hu]. exists t. split; [done|].
    rewrite no_errors_concat in Hu. eapply Forall_impl; [exact Hu|]. intros x. apply check_expr_defined.
  - intros s hex Hs Hhex. rewrite Hs in Hsock. unfold check_socket in Hsock. rewrite Hhex, no_errors_app, !no_errors_when_err in Hsock.
    destruct Hsock as [_ [He Hd]%orb_false_elim]. apply negb_false_iff in He, Hd. by apply hex_pairs_ok.
Qed.
End Sound.

(** ** A plan *)

Module ValidateDemo.
Import ExtractDemo ConditionDemo.

#[export] Instance tools : ValidateTools := {|
  captures_len _ := 2%nat;
  url_parses s := str_contains s "://";
  jaro_winkler a b := if bool_decide (a = b) then f64_of_Z 1 else f64_dec 9 1;
  path_exists _ := true;
|}.
Definition humantime (_ : string) : result string Duration := Err "no duration".
Definition no_opts : ValidateOptions := mkValidateOptions None.

Definition request (url : string) (params : list (string * string)) : RequestStep :=
  mkRequestStep None None (Some "get") url [("X-Key", "${secrets.key}")] params None None None []
    [ExClassic (ExRegex "csrf" "token" None None None)] [CdStatus None (Some 200) None None None] []
    None None None (Some (mkSocketOptions None (Some "de ad") None false None)) None None None.
Definition flow (params : list (string * string)) : list Step :=
  [StGroup "login" [StRequest (request "/t/${vars.tenant}" params)]; StRequest (request "/next/${csrf}" [])].
Definition http : HttpDefaults := mkHttpDefaults (Some "https://e.com") [] 30 true 10 true.
Definition scenario (params : list (string * string)) : PlanScenario :=
  mkPlanScenario (mkScenario KConstantVus (Some 5) (Some 1000) None None [] None None None None None None None None None)
    (mkScenarioPlan (flow params) [] None None None None None None None).
Definition plan (params : list (string * string)) : TestPlan :=
  mkTestPlan (Some "t") None (mkPlanDefaults http [] None) None (mkTlsConfig None None None)
    [("tenant", Text "acme")] [("key", mkSecretSource (Some "API_KEY") None)] [] [] None [("s", scenario params)]
    [("checks", Many [Thresholds.Expr "rate>0.99"])] [] [] [].

Example plan_validates : validate humantime (plan []) no_opts None = Some [].
Proof. vm_compute. reflexivity. Qed.

(** The validator passes a malformed parameter, which does not compile. *)
Example validation_gap :
  validate humantime (plan [("q", "${oops")]) no_opts None = Some []
  /\ is_ok (compile_steps (fun _ => Err "no file") ∅ "." (flow [("q", "${oops")])) = false.
Proof. vm_compute. done. Qed.

Lemma requests_unchecked_ok : Forall (unchecked_ok (fun _ => Err "no file") ".") (plan_requests (scenario [])).
Proof. repeat constructor. Qed.

Lemma validated_plan_compiles_witness :
  exists steps, compile_steps (fun _ => Err "no file") ∅ "." (flow []) = Ok steps.
Proof.
  destruct (validated_plan_compiles humantime (plan []) no_opts (fun _ => Err "no file") ∅ "." None [] plan_validates eq_refl)
    as [_ Hsc].
  destruct (Hsc "s" (scenario [])) as [_ Hc]; [by left|]. exact (Hc requests_unchecked_ok).
Defined.

Lemma validated_references_defined_witness :
  Forall (reference_defined (plan [])) ["vars.tenant"] /\ exists bytes, hex_pairs (cleaned_hex "de ad") = Ok bytes.
Proof.
  destruct (validated_references_defined humantime (plan []) no_opts None [] "s" (scenario []) (request "/t/${vars.tenant}" [])
              plan_validates eq_refl) as [(t & Ht & Hrefs) Hhex]; [by left|by left|].
  assert (match Template_parse "/t/${vars.tenant}" with Ok t => expressions t | Err _ => [] end = ["vars.tenant"]) as Hp
    by (vm_compute; reflexivity).
  change (rq_url (request "/t/${vars.tenant}" [])) with "/t/${vars.tenant}" in Ht. rewrite Ht in Hp. rewrite Hp in Hrefs.
  split; [exact Hrefs|]. exact (Hhex _ "de ad" eq_refl eq_refl).
Defined.
End ValidateDemo.
