(* ===== verification/Exporters.v ===== *)
(** * Metric exporters (crates/loadr-outputs/src/lib.rs, statsd.rs, prometheus.rs, influxdb.rs)

    The texts the exporters write: StatsD lines and the datagrams that carry them, the Prometheus exposition
    and remote-write series, the InfluxDB line protocol, and the outputs a plan asks for.  Sockets,
    HTTP and the protobuf encoding are I/O; [Display] of a double is a parameter. *)

From Stdlib Require Import Ascii.
From S2P Require Import Prelude Float64 Str Dur Metrics Aggregate Value Template Protocol Extract Validate.

Definition newline : ascii := byte_at 10.
Definition double_quote : ascii := byte_at 34.
Definition nl : string := of_chars [newline].

Section Exporters.
Context (f64_display : f64 -> string).

(** ** StatsD *)

Definition MAX_DATAGRAM : Z := 1400.

Definition format_line (prefix : string) (s : Sample) : string :=
  prefix +:+ s_metric s +:+ ":"
  +:+ match s_kind s with
      | Counter => f64_display (s_value s) +:+ "|c"
      | Gauge => f64_display (s_value s) +:+ "|g"
      | Trend => f64_display (s_value s) +:+ "|ms"
      | Rate => (if f64_ne (s_value s) f64_zero then "1" else "0") +:+ "|c"
      end
  +:+ match sorted_tags (s_tags s) with
      | [] => ""
      | tags => "|#" +:+ join "," ((fun kv => kv.1 +:+ ":" +:+ kv.2) <$> tags)
      end.

(** The datagrams sent so far and the batch being filled. *)
Definition add_line (st : list string * string) (line : string) : list string * string :=
  let '(sent, batch) := st in
  let '(sent, batch) :=
    if negb (str_is_empty batch) && Z.ltb MAX_DATAGRAM (Z.of_nat (str_len batch + 1 + str_len line)) then (sent ++ [batch], "")
    else (sent, batch) in
  (sent, (if str_is_empty batch then batch else batch +:+ nl) +:+ line).

Definition statsd_datagrams (prefix : string) (samples : list Sample) : list string :=
  let '(sent, batch) := foldl add_line ([], "") (format_line prefix <$> samples) in
  if str_is_empty batch then sent else sent ++ [batch].

(** ** Prometheus *)

Record PromPoint := mkPromPoint {
  pp_family : string;
  pp_name : string;
  pp_type : string;
  pp_labels : list (string * string);
  pp_value : f64;
}.

Definition is_ascii_alphanumeric (c : ascii) : bool := byte_range 97 122 c || byte_range 65 90 c || byte_range 48 57 c.

Definition metric_char (c : list ascii) : ascii :=
  match c with
  | [a] => if is_ascii_alphanumeric a || Ascii.eqb a "_" || Ascii.eqb a ":" then a else "_"%char
  | _ => "_"%char
  end.
Definition sanitize_metric (name : string) : string := of_chars (metric_char <$> str_chars name).

Definition label_char (c : list ascii) : ascii :=
  match c with
  | [a] => if is_ascii_alphanumeric a || Ascii.eqb a "_" then a else "_"%char
  | _ => "_"%char
  end.
Definition sanitize_label (name : string) : string :=
  match label_char <$> str_chars name with
  | c :: l => if byte_range 48 57 c then of_chars ("_"%char :: c :: l) else of_chars (c :: l)
  | [] => ""
  end.

Definition label_pairs (tags : Tags) : list (string * string) := (fun kv => (sanitize_label kv.1, kv.2)) <$> sorted_tags tags.

Definition prom_points (s : SeriesSnapshot) : list PromPoint :=
  let base := "loadr_" +:+ sanitize_metric (ss_metric s) in
  let labels := label_pairs (ss_tags s) in
  let a := ss_agg s in
  match ss_kind s with
  | Counter => [mkPromPoint (base +:+ "_total") (base +:+ "_total") "counter" labels (av_sum a)]
  | Gauge => [mkPromPoint base base "gauge" labels (default f64_zero (av_last a))]
  | Rate =>
      [mkPromPoint (base +:+ "_rate") (base +:+ "_rate") "gauge" labels (default f64_zero (av_rate a));
       mkPromPoint (base +:+ "_passes_total") (base +:+ "_passes_total") "counter" labels (av_sum a);
       mkPromPoint (base +:+ "_count_total") (base +:+ "_count_total") "counter" labels (f64_of_Z (av_count a))]
  | Trend =>
      let family := base +:+ "_milliseconds" in
      omap (fun qv => (fun v => mkPromPoint family family "summary" (labels ++ [("quantile", qv.1)]) v) <$> qv.2)
        [("0.5", av_med a); ("0.9", av_p90 a); ("0.95", av_p95 a); ("0.99", av_p99 a)]
      ++ [mkPromPoint family (family +:+ "_sum") "summary" labels (av_sum a);
          mkPromPoint family (family +:+ "_count") "summary" labels (f64_of_Z (av_count a))]
  end.

Definition fmt_value (v : f64) : string :=
  match v with
  | SpecFloat.S754_nan => "NaN"
  | SpecFloat.S754_infinity neg => if neg then "-Inf" else "+Inf"
  | _ => f64_display v
  end.

Definition escape_char (c : ascii) : list ascii :=
  if Ascii.eqb c "\" then ["\"; "\"]%char
  else if Ascii.eqb c double_quote then ["\"%char; double_quote]
  else if Ascii.eqb c newline then ["\"; "n"]%char
  else [c].
Definition escape_label_value (v : string) : list ascii := concat (escape_char <$> chars v).

Definition render_label (kv : string * string) : list ascii :=
  chars kv.1 ++ ["="%char; double_quote] ++ escape_label_value kv.2 ++ [double_quote].

Fixpoint join_l (sep : ascii) (l : list (list ascii)) : list ascii :=
  match l with
  | [] => []
  | [x] => x
  | x :: l => x ++ sep :: join_l sep l
  end.

(** The line of a sample, without its end. *)
Definition render_point (p : PromPoint) : list ascii :=
  chars (pp_name p)
  ++ match pp_labels p with [] => [] | ls => "{"%char :: join_l "," (render_label <$> ls) ++ ["}"%char] end
  ++ " "%char :: chars (fmt_value (pp_value p)).

Definition type_line (p : PromPoint) : list ascii := chars ("# TYPE " +:+ pp_family p +:+ " " +:+ pp_type p).

(** The lines of a point, and the families seen. *)
Definition point_lines (st : list (list ascii) * gset string) (p : PromPoint) : list (list ascii) * gset string :=
  let '(lines, seen) := st in
  if bool_decide (pp_family p ∈ seen) then (lines ++ [render_point p], seen)
  else (lines ++ [type_line p; render_point p], {[pp_family p]} ∪ seen).

Definition snapshot_points (sn : Snapshot) : list PromPoint := concat (prom_points <$> sn_series sn).
Definition exposition_lines (sn : Snapshot) : list (list ascii) := (foldl point_lines ([], ∅) (snapshot_points sn)).1.
Definition render_exposition (sn : Snapshot) : string :=
  of_chars (concat ((fun l => l ++ [newline]) <$> exposition_lines sn)).

Record TimeSeries := mkTimeSeries {
  tm_labels : Tags;
  tm_value : f64;
  tm_timestamp : Z;
}.

(** [as i64]. *)
Definition i64_of_u64 (n : Z) : Z := let n := n `mod` u64_modulus in if Z.ltb n (2 ^ 63) then n else n - u64_modulus.

Definition build_write_request (sn : Snapshot) : list TimeSeries :=
  (fun p => mkTimeSeries (<["__name__" := pp_name p]> (foldl (fun m kv => <[kv.1 := kv.2]> m) ∅ (pp_labels p)))
              (pp_value p) (i64_of_u64 (sn_timestamp_ms sn)))
    <$> List.filter (fun p => f64_is_finite (pp_value p)) (snapshot_points sn).

(** ** InfluxDB *)

Definition query_encode (value : string) : string := url_encode value.

Definition escape_with (special : list ascii) (s : string) : list ascii :=
  concat ((fun c => if bool_decide (c ∈ special) then ["\"%char; c] else [c]) <$> chars s).
Definition escape_measurement : string -> list ascii := escape_with [","; " "]%char.
Definition escape_tag : string -> list ascii := escape_with [","; " "; "="]%char.

Definition series_fields (interval_secs : f64) (s : SeriesSnapshot) : list (string * f64) :=
  let a := ss_agg s in
  let given := omap (fun nv => (fun v => (nv.1, v)) <$> nv.2) in
  List.filter (fun nv => f64_is_finite nv.2)
    match ss_kind s with
    | Trend => given [("avg", av_avg a); ("min", av_min a); ("max", av_max a); ("med", av_med a); ("p90", av_p90 a);
                      ("p95", av_p95 a); ("p99", av_p99 a)]
    | Counter =>
        ("sum", av_sum a)
        :: (if f64_lt f64_zero interval_secs then [("rate", f64_div (ss_interval_sum s) interval_secs)] else [])
    | Rate => given [("rate", av_rate a)]
    | Gauge => given [("value", av_last a)]
    end.

Definition render_series (timestamp_ns : string) (interval_secs : f64) (s : SeriesSnapshot) : list ascii :=
  match series_fields interval_secs s with
  | [] => []
  | fields =>
      chars "loadr_" ++ escape_measurement (ss_metric s)
      ++ concat ((fun kv => ","%char :: escape_tag kv.1 ++ "="%char :: escape_tag kv.2) <$> sorted_tags (ss_tags s))
      ++ " "%char :: join_l "," ((fun nv => chars (nv.1 +:+ "=" +:+ f64_display nv.2)) <$> fields)
      ++ " "%char :: chars timestamp_ns ++ [newline]
  end.

Definition render_lines (sn : Snapshot) : string :=
  let timestamp_ns := Z_to_string (sn_timestamp_ms sn * 1000000) in
  of_chars (concat (render_series timestamp_ns (sn_interval_secs sn) <$> sn_series sn)).
End Exporters.

(** ** Targets of the exporters that push over HTTP

    Parsing of a URL and of a header value is the [http] crate's. *)
Section Targets.
Context {Uri HeaderValue : Type} (parse_uri : string -> result string Uri) (header_value : string -> result string HeaderValue).

(** [s.trim_end_matches(c)]. *)
Fixpoint drop_char (c : ascii) (l : list ascii) : list ascii :=
  match l with
  | a :: l' => if Ascii.eqb a c then drop_char c l' else l
  | [] => []
  end.
Definition trim_end_matches (s : string) (c : ascii) : string := of_chars (reverse (drop_char c (reverse (chars s)))).

Record InfluxTarget := mkInfluxTarget {
  it_uri : Uri;
  it_authorization : option HeaderValue;
}.

Definition build_target (url database : string) (token organization : option string) : result EngineError InfluxTarget :=
  let base := trim_end_matches url "/" in
  let? target :=
    match token with
    | Some token =>
        match header_value ("Token " +:+ token) with
        | Ok value =>
            Ok (base +:+ "/api/v2/write?bucket=" +:+ query_encode database +:+ "&org=" +:+ query_encode (default "loadr" organization), Some value)
        | Err err => Err (EngineConfig ("influxdb token is not a valid header: " +:+ err))
        end
    | None => Ok (base +:+ "/write?db=" +:+ query_encode database, None)
    end in
  let '(url, authorization) := target in
  match parse_uri url with
  | Ok uri => Ok (mkInfluxTarget uri authorization)
  | Err err => Err (EngineConfig ("influxdb url `" +:+ url +:+ "`: " +:+ err))
  end.
End Targets.

(** ** The outputs of a plan *)

Definition DEFAULT_INTERVAL : Duration := Duration_from_secs 5.
Definition interval_or_default (interval : option Duration) : Duration :=
  match interval with
  | Some d => if Z.eqb d 0 then DEFAULT_INTERVAL else d
  | None => DEFAULT_INTERVAL
  end.

Inductive BuiltOutput :=
| BoJson (path : string)
| BoCsv (path : string)
| BoPrometheus (listen remote_write_url : option string) (interval final_scrape_grace : Duration)
| BoInfluxdb (url database : string) (token organization : option string) (interval : Duration)
| BoOtlp (endpoint : string) (http : bool) (headers : list (string * string)) (interval : Duration)
| BoStatsd (address prefix : string).

Fixpoint build_outputs (configs : list OutputConfig) : result EngineError (list BuiltOutput) :=
  match configs with
  | [] => Ok []
  | config :: configs =>
      match config with
      | OcJson path => let? os := build_outputs configs in Ok (BoJson path :: os)
      | OcCsv path => let? os := build_outputs configs in Ok (BoCsv path :: os)
      | OcPrometheus None None _ _ => Err (EngineConfig "prometheus output requires `listen` and/or `remote_write_url`")
      | OcPrometheus listen remote_write_url interval grace =>
          let? os := build_outputs configs in
          Ok (BoPrometheus listen remote_write_url (interval_or_default interval) (default 0 grace) :: os)
      | OcInfluxdb url database token organization interval =>
          let? os := build_outputs configs in
          Ok (BoInfluxdb url database token organization (interval_or_default interval) :: os)
      | OcOtlp endpoint http headers interval =>
          let? os := build_outputs configs in Ok (BoOtlp endpoint http headers (interval_or_default interval) :: os)
      | OcStatsd address prefix =>
          let? os := build_outputs configs in Ok (BoStatsd address (default "loadr." prefix) :: os)
      | OcPlugin _ _ => build_outputs configs
      end
  end.

(** ** Datagrams *)

Section Datagrams.

Lemma str_is_empty_iff (s : string) : str_is_empty s = true <-> s = "".
Proof. unfold str_is_empty. apply bool_decide_eq_true. Qed.

Lemma join_snoc (sep : string) (l : list string) (s : string) : l <> [] -> join sep (l ++ [s]) = join sep l +:+ sep +:+ s.
Proof.
  induction l as [|x l IH]; [done|]. intros _. destruct l as [|y l]; [done|].
  change (join sep ((x :: y :: l) ++ [s])) with (x +:+ sep +:+ join sep ((y :: l) ++ [s])). rewrite IH by done.
  change (join sep (x :: y :: l)) with (x +:+ sep +:+ join sep (y :: l)). by rewrite !str_app_assoc.
Qed.

Lemma join_app (sep : string) (l k : list string) : l <> [] -> k <> [] -> join sep (l ++ k) = join sep l +:+ sep +:+ join sep k.
Proof.
  intros Hl Hk. induction l as [|x l IH]; [done|]. destruct l as [|y l].
  - destruct k; [done|]. done.
  - change (join sep ((x :: y :: l) ++ k)) with (x +:+ sep +:+ join sep ((y :: l) ++ k)). rewrite IH by done.
    change (join sep (x :: y :: l)) with (x +:+ sep +:+ join sep (y :: l)). by rewrite !str_app_assoc.
Qed.

Lemma join_empty (sep : string) (l : list string) : Forall (fun s => s <> "") l -> join sep l = "" -> l = [].
Proof.
  intros Hl Hj. destruct l as [|x l]; [done|]. exfalso. apply Forall_inv in Hl. apply Hl. destruct l as [|y l]; [done|].
  cbn in Hj. apply (f_equal str_len) in Hj. rewrite str_len_app in Hj. cbn in Hj. destruct x; [done|]. cbn in Hj. lia.
Qed.

(** The lines a datagram carries: they fit, or there is only one. *)
Definition fits (g : list string) : Prop := Z.of_nat (str_len (join nl g)) <= MAX_DATAGRAM \/ length g = 1%nat.

Record batched (ls : list string) (st : list string * string) (gs : list (list string)) (g : list string) : Prop := {
  bt_sent : st.1 = join nl <$> gs;
  bt_batch : st.2 = join nl g;
  bt_all : concat gs ++ g = ls;
  bt_groups : Forall (fun g => g <> [] /\ fits g) gs;
  bt_fits : fits g;
}.

Lemma add_line_batched (ls : list string) st gs g (line : string) :
  Forall (fun s => s <> "") ls -> line <> "" -> batched ls st gs g ->
  exists gs' g', batched (ls ++ [line]) (add_line st line) gs' g' /\ g' <> [].
Proof.
  intros Hls Hline [Hs Hb Hall Hgs Hfit]. destruct st as [sent batch]. cbn [fst snd] in Hs, Hb. subst sent batch.
  assert (Forall (fun s => s <> "") g) as Hg.
  { rewrite <- Hall in Hls. by apply Forall_app in Hls as [_ ?]. }
  unfold add_line. cbv beta iota. destruct (str_is_empty (join nl g)) eqn:He; cbn [negb andb].
  - apply str_is_empty_iff in He. apply join_empty in He; [|done]. subst g. exists gs, [line]. split; [|done]. constructor; cbn [fst snd]; [done|done| |done|by right]. rewrite <- Hall, app_nil_r. done.
  - assert (g <> []) as Hne by (intros ->; done).
    destruct (Z.ltb_spec MAX_DATAGRAM (Z.of_nat (str_len (join nl g) + 1 + str_len line))) as [Hgt|Hle]; cbv beta iota.
    + exists (gs ++ [g]), [line]. split; [|done]. constructor; cbn [fst snd].
      * by rewrite fmap_app.
      * done.
      * rewrite concat_app. cbn. rewrite app_nil_r. by rewrite Hall.
      * apply Forall_app. split; [done|]. by constructor.
      * by right.
    + exists gs, (g ++ [line]). rewrite ?He. split; [|by destruct g]. constructor; cbn [fst snd].
      * done.
      * rewrite join_snoc by done. by rewrite !str_app_assoc.
      * by rewrite app_assoc, Hall.
      * done.
      * left. rewrite join_snoc by done. rewrite !str_len_app. change (str_len nl) with 1%nat. lia.
Qed.

Lemma add_lines_batched (lines : list string) : forall ls st gs g,
  Forall (fun s => s <> "") ls -> Forall (fun s => s <> "") lines -> batched ls st gs g ->
  exists gs' g', batched (ls ++ lines) (foldl add_line st lines) gs' g'.
Proof.
  induction lines as [|l lines IH]; intros ls st gs g Hls Hlines Hb; cbn; [exists gs, g; by rewrite app_nil_r|].
  apply Forall_cons in Hlines as [Hl Hlines]. destruct (add_line_batched ls st gs g l Hls Hl Hb) as (gs' & g' & Hb' & _).
  destruct (IH (ls ++ [l]) (add_line st l) gs' g') as (gs2 & g2 & H2); [by apply Forall_app; split; [|constructor]|done|done|].
  exists gs2, g2. by rewrite <- app_assoc in H2.
Qed.

Lemma format_line_nonempty (f64_display : f64 -> string) (prefix : string) (s : Sample) : format_line f64_display prefix s <> "".
Proof.
  unfold format_line. intros He. apply (f_equal str_len) in He. rewrite !str_len_app in He. change (str_len ":") with 1%nat in He.
  change (str_len "") with 0%nat in He. lia.
Qed.

Lemma split_groups (gs : list (list string)) :
  Forall (fun g => g <> []) gs -> Forall (fun s => newline ∉ chars s) (concat gs) ->
  concat ((fun d => str_split d newline) <$> (join nl <$> gs)) = concat gs.
Proof.
  induction gs as [|g gs IH]; [done|]. intros [Hg Hgs]%Forall_cons Hall. rewrite !fmap_cons. cbn [concat] in Hall |- *.
  apply Forall_app in Hall as [Hl Hall].
  rewrite IH by done. f_equal. by apply split_join.
Qed.

(** Every sample reaches the StatsD daemon once.  The datagrams, read as newline-separated lines,
    are the lines of the samples, in order and each exactly once (when no name or tag holds a newline), and each
    datagram is within the limit or carries a single line. *)
Theorem statsd_datagrams_exact (f64_display : f64 -> string) (prefix : string) (samples : list Sample) :
  let lines := format_line f64_display prefix <$> samples in
  let datagrams := statsd_datagrams f64_display prefix samples in
  join nl datagrams = join nl lines
  /\ Forall (fun d => Z.of_nat (str_len d) <= MAX_DATAGRAM \/ d ∈ lines) datagrams
  /\ (Forall (fun l => newline ∉ chars l) lines -> concat ((fun d => str_split d newline) <$> datagrams) = lines).
Proof.
  cbv zeta. set (lines := format_line f64_display prefix <$> samples).
  assert (Forall (fun s => s <> "") lines) as Hne.
  { apply Forall_fmap, Forall_true. intros s. apply format_line_nonempty. }
  destruct (add_lines_batched lines [] ([], "") [] []) as (gs & g & [Hs Hb Hall Hgs Hfit]); [constructor|done| |].
  { constructor; try done. by left. }
  cbn in Hall. assert (exists gs', statsd_datagrams f64_display prefix samples = join nl <$> gs' /\ concat gs' = lines
    /\ Forall (fun g => g <> [] /\ fits g) gs') as (gs' & -> & Hc & Hf).
  { unfold statsd_datagrams. fold lines. destruct (foldl add_line ([], "") lines) as [sent batch]. cbn [fst snd] in Hs, Hb. subst sent batch.
    destruct (str_is_empty (join nl g)) eqn:He.
    - apply str_is_empty_iff, join_empty in He; cycle 1.
      { rewrite <- Hall in Hne. by apply Forall_app in Hne as [_ ?]. }
      subst g. exists gs. by rewrite app_nil_r in Hall.
    - exists (gs ++ [g]). rewrite fmap_app, concat_app. cbn. rewrite app_nil_r. split; [done|]. split; [done|].
      apply Forall_app. split; [done|]. constructor; [|constructor]. split; [|done]. intros ->. done. }
  split; [|split].
  - rewrite <- Hc. clear -Hf. induction Hf as [|g gs [Hg _] Hf IH]; [done|]. cbn [concat]. destruct gs as [|g' gs].
    + cbn. by rewrite app_nil_r.
    + assert (concat (g' :: gs) <> []) as Hne.
      { apply Forall_inv in Hf as [Hg' _]. by destruct g'. }
      rewrite join_app by done. rewrite <- IH. done.
  - rewrite Forall_fmap. eapply Forall_impl; [|]; cycle 1.
    { intros g' Hg'. exact Hg'. }
    rewrite Forall_forall in Hf |- *. intros g' Hin. destruct (Hf g' Hin) as [_ [Hle|Hone]]; cbn; [by left|]. right.
    destruct g' as [|x [|??]]; [done| |done]. cbn. rewrite <- Hc. apply list_elem_of_In, in_concat. exists [x].
    split; [by apply list_elem_of_In|by left].
  - intros Hnl. rewrite split_groups, Hc; [done| |by rewrite Hc]. eapply Forall_impl; [exact Hf|]. by intros ? [? _].
Qed.
End Datagrams.

(** ** Reading an exposition back

    A reader of the text format, written from its documentation and not from the code: lines end with a line
    feed; [# TYPE family kind] declares a family; a sample is a name, optional labels in braces and a value. *)
Section Reader.

Inductive ExpoLine :=
| ExpoType (family kind : string)
| ExpoSample (name : string) (labels : list (string * string)) (value : string).

(** The characters of a name, and the rest. *)
Fixpoint take_name (l : list ascii) : list ascii * list ascii :=
  match l with
  | c :: l' => if is_ascii_alphanumeric c || Ascii.eqb c "_" || Ascii.eqb c ":" then (c :: (take_name l').1, (take_name l').2) else ([], l)
  | [] => ([], [])
  end.

(** A quoted value after its first quote, and the rest after its last one. *)
Fixpoint take_value (l : list ascii) : option (list ascii * list ascii) :=
  match l with
  | [] => None
  | c :: l =>
      if Ascii.eqb c double_quote then Some ([], l)
      else if Ascii.eqb c "\" then
        match l with
        | [] => None
        | e :: l =>
            d ← (if Ascii.eqb e "n" then Some newline else if Ascii.eqb e "\" then Some e else if Ascii.eqb e double_quote then Some e else None);
            '(v, r) ← take_value l; Some (d :: v, r)
        end
      else '(v, r) ← take_value l; Some (c :: v, r)
  end.

Fixpoint take_labels (fuel : nat) (l : list ascii) : option (list (string * string) * list ascii) :=
  match fuel with
  | O => None
  | S fuel =>
      let '(k, r) := take_name l in
      match r with
      | e :: q :: r =>
          if Ascii.eqb e "=" && Ascii.eqb q double_quote then
            '(v, r) ← take_value r;
            match r with
            | "}"%char :: r => Some ([(of_chars k, of_chars v)], r)
            | ","%char :: r => '(ls, r) ← take_labels fuel r; Some ((of_chars k, of_chars v) :: ls, r)
            | _ => None
            end
          else None
      | _ => None
      end
  end.

Definition read_sample (l : list ascii) : option ExpoLine :=
  let '(n, r) := take_name l in
  '(ls, r) ← match r with "{"%char :: r => take_labels (length r) r | _ => Some ([], r) end;
  match r with " "%char :: r => Some (ExpoSample (of_chars n) ls (of_chars r)) | _ => None end.

Definition read_line (l : list ascii) : option ExpoLine :=
  match strip_prefix_l (chars "# TYPE ") l with
  | Some r =>
      let '(family, r) := take_name r in
      match r with " "%char :: kind => Some (ExpoType (of_chars family) (of_chars kind)) | _ => None end
  | None => read_sample l
  end.

(** Every line ends with a line feed, so nothing follows the last one. *)
Definition read_exposition (text : string) : option (list ExpoLine) :=
  match reverse (split_l newline (chars text)) with
  | [] :: ls => mapM read_line (reverse ls)
  | _ => None
  end.

Definition expo_sample (f64_display : f64 -> string) (p : PromPoint) : ExpoLine :=
  ExpoSample (pp_name p) (pp_labels p) (fmt_value f64_display (pp_value p)).
Definition is_sample (l : ExpoLine) : bool := match l with ExpoSample _ _ _ => true | _ => false end.
Definition family_of (l : ExpoLine) : option string := match l with ExpoType family _ => Some family | _ => None end.
End Reader.

Section RoundTrip.
Context (f64_display : f64 -> string) (display_one_line : forall v, newline ∉ chars (f64_display v)).

Definition name_char (c : ascii) : Prop := is_ascii_alphanumeric c || Ascii.eqb c "_" || Ascii.eqb c ":" = true.

Lemma take_name_app (l r : list ascii) :
  Forall name_char l -> match r with c :: _ => ~ name_char c | [] => True end -> take_name (l ++ r) = (l, r).
Proof.
  intros Hl Hr. induction Hl as [|c l Hc Hl IH]; cbn [app].
  - destruct r as [|c r]; [done|]. unfold name_char in Hr. cbn. by destruct (_ || _).
  - unfold name_char in Hc. cbn [take_name]. by rewrite Hc, IH.
Qed.

Lemma name_char_not_newline (l : list ascii) : Forall name_char l -> newline ∉ l.
Proof. intros Hl Hin. rewrite Forall_forall in Hl. by specialize (Hl _ Hin). Qed.

Lemma take_value_escape (v : string) (r : list ascii) : take_value (escape_label_value v ++ double_quote :: r) = Some (chars v, r).
Proof.
  unfold escape_label_value. induction (chars v) as [|c l IH]; [done|]. rewrite fmap_cons. cbn [concat]. rewrite <- app_assoc.
  set (t := concat (escape_char <$> l) ++ double_quote :: r) in *. clearbody t. unfold escape_char.
  destruct (Ascii.eqb_spec c "\") as [->|H1]; [cbn; by rewrite IH|].
  destruct (Ascii.eqb_spec c double_quote) as [->|H2]; [cbn; by rewrite IH|].
  destruct (Ascii.eqb_spec c newline) as [->|H3]; [cbn; by rewrite IH|].
  cbn [app take_value]. apply Ascii.eqb_neq in H1, H2. by rewrite H1, H2, IH.
Qed.

Lemma escape_no_newline (v : string) : newline ∉ escape_label_value v.
Proof.
  unfold escape_label_value. induction (chars v) as [|c l IH]; [intros ?%not_elem_of_nil; done|]. rewrite fmap_cons. cbn [concat].
  rewrite elem_of_app. intros [Hin|]; [|done]. unfold escape_char in Hin.
  destruct (Ascii.eqb_spec c "\") as [->|_]; [set_solver|]. destruct (Ascii.eqb_spec c double_quote) as [->|_]; [set_solver|].
  destruct (Ascii.eqb_spec c newline) as [->|Hc]; set_solver.
Qed.

(** Labels as the exposition writes them. *)
Definition label_ok (kv : string * string) : Prop := Forall name_char (chars kv.1).

Lemma render_label_no_newline kv : label_ok kv -> newline ∉ render_label kv.
Proof.
  intros Hk. unfold render_label. rewrite !elem_of_app, !elem_of_cons, elem_of_nil.
  intros [Hin|[[Hin|[Hin|[]]]|[Hin|[Hin|[]]]]]; try done.
  - by apply name_char_not_newline in Hin.
  - by apply escape_no_newline in Hin.
Qed.

Lemma join_labels_no_newline (ls : list (string * string)) : Forall label_ok ls -> newline ∉ join_l "," (render_label <$> ls).
Proof.
  induction 1 as [|kv ls Hk Hls IH]; [intros ?%not_elem_of_nil; done|]. rewrite fmap_cons. pose proof (render_label_no_newline kv Hk) as Hn.
  destruct ls as [|kv' ls]; [done|]. change (newline ∉ render_label kv ++ ","%char :: join_l "," (render_label <$> kv' :: ls)).
  rewrite elem_of_app, elem_of_cons. intros [?|[?|?]]; done.
Qed.

Lemma take_labels_join (ls : list (string * string)) (r : list ascii) : forall fuel,
  ls <> [] -> Forall label_ok ls -> (length ls <= fuel)%nat ->
  take_labels fuel (join_l "," (render_label <$> ls) ++ "}"%char :: r) = Some (ls, r).
Proof.
  induction ls as [|[k v] ls IH]; intros fuel Hne Hls Hf; [done|]. clear Hne. apply Forall_cons in Hls as [Hk Hls].
  cbn [length] in Hf. destruct fuel as [|fuel]; [lia|]. rewrite fmap_cons.
  assert (forall t, take_labels (S fuel) (render_label (k, v) ++ t)
    = match t with "}"%char :: r => Some ([(k, v)], r) | ","%char :: r => '(ls, r) ← take_labels fuel r; Some ((k, v) :: ls, r) | _ => None end) as Hone.
  { intros t. unfold render_label. cbn [fst snd]. rewrite <- !app_assoc. cbn [take_labels]. rewrite take_name_app; [|done|by compute].
    cbn [app andb]. change (Ascii.eqb "=" "=" && Ascii.eqb double_quote double_quote) with true. cbv iota.
    rewrite take_value_escape. cbn [mbind option_bind]. by rewrite !of_chars_chars. }
  destruct ls as [|kv ls].
  - change (join_l "," [render_label (k, v)]) with (render_label (k, v)). by rewrite Hone.
  - change (join_l "," (render_label (k, v) :: (render_label <$> kv :: ls))) with (render_label (k, v) ++ ","%char :: join_l "," (render_label <$> kv :: ls)).
    rewrite <- app_assoc, Hone. cbn [app]. rewrite IH; [done|done|done|]. cbn [length] in *. lia.
Qed.

Lemma join_labels_length (ls : list (string * string)) : (length ls <= length (join_l "," (render_label <$> ls)))%nat.
Proof.
  induction ls as [|kv ls IH]; [cbn; lia|]. rewrite fmap_cons. assert (1 <= length (render_label kv))%nat.
  { unfold render_label. rewrite !length_app. cbn. lia. }
  destruct ls as [|kv' ls]; [cbn [length fmap list_fmap join_l]; lia|].
  change (join_l "," (render_label kv :: (render_label <$> kv' :: ls))) with (render_label kv ++ ","%char :: join_l "," (render_label <$> kv' :: ls)).
  rewrite length_app. cbn [length] in *. lia.
Qed.

Record point_ok (p : PromPoint) : Prop := {
  po_family : Forall name_char (chars (pp_family p));
  po_name : Forall name_char (chars (pp_name p));
  po_labels : Forall label_ok (pp_labels p);
  po_type : newline ∉ chars (pp_type p);
}.

Lemma fmt_value_one_line (v : f64) : newline ∉ chars (fmt_value f64_display v).
Proof. destruct v as [s|[]| |]; try apply display_one_line; apply (bool_decide_unpack _); by vm_compute. Qed.

Lemma render_point_no_newline p : point_ok p -> newline ∉ render_point f64_display p.
Proof.
  intros [_ Hn Hl _]. unfold render_point. rewrite !elem_of_app, elem_of_cons. intros [Hin|[Hin|[Hin|Hin]]].
  - by apply name_char_not_newline in Hin.
  - destruct (pp_labels p) eqn:Hp; [by apply not_elem_of_nil in Hin|]. rewrite <- Hp in *. apply elem_of_cons in Hin as [?|Hin]; [done|].
    apply elem_of_app in Hin as [Hin|Hin]; [by apply join_labels_no_newline in Hin|]. by apply elem_of_cons in Hin as [?|?%not_elem_of_nil].
  - done.
  - by apply fmt_value_one_line in Hin.
Qed.

Lemma read_render_point p : point_ok p -> read_line (render_point f64_display p) = Some (expo_sample f64_display p).
Proof.
  intros [_ Hn Hl _]. unfold read_line. set (l := render_point f64_display p).
  destruct (strip_prefix_l (chars "# TYPE ") l) as [r|] eqn:Hs.
  { exfalso. apply strip_prefix_l_Some in Hs. unfold l, render_point in Hs. destruct (chars (pp_name p)) as [|c n] eqn:Hc.
    - destruct (pp_labels p); by cbn in Hs.
    - apply Forall_inv in Hn. cbn in Hs. injection Hs as -> _. done. }
  clear Hs. subst l. unfold read_sample, render_point. rewrite take_name_app; [|done|by destruct (pp_labels p); compute].
  unfold expo_sample. rewrite of_chars_chars. destruct (pp_labels p) as [|kv ls] eqn:Hp.
  - cbn [app mbind option_bind]. by rewrite of_chars_chars.
  - rewrite <- Hp in *. cbn [app]. rewrite <- app_assoc. cbn [app]. rewrite take_labels_join; [|by rewrite Hp|done|].
    + cbn [mbind option_bind]. by rewrite of_chars_chars.
    + rewrite length_app. pose proof (join_labels_length (pp_labels p)). lia.
Qed.

Lemma type_line_chars p : type_line p = chars "# TYPE " ++ chars (pp_family p) ++ " "%char :: chars (pp_type p).
Proof. unfold type_line. by rewrite !chars_app. Qed.

Lemma type_line_no_newline p : point_ok p -> newline ∉ type_line p.
Proof.
  intros [Hf _ _ Ht]. rewrite type_line_chars, !elem_of_app, elem_of_cons. intros [Hin|[Hin|[Hin|Hin]]]; try done.
  - by apply (bool_decide_pack _) in Hin.
  - by apply name_char_not_newline in Hin.
Qed.

Lemma read_type_line p : point_ok p -> read_line (type_line p) = Some (ExpoType (pp_family p) (pp_type p)).
Proof.
  intros [Hf _ _ _]. unfold read_line. rewrite type_line_chars.
  replace (strip_prefix_l _ _) with (Some (chars (pp_family p) ++ " "%char :: chars (pp_type p))) by (symmetry; by apply strip_prefix_l_Some).
  rewrite take_name_app; [|done|by compute]. by rewrite !of_chars_chars.
Qed.

Lemma metric_char_name (c : list ascii) : name_char (metric_char c).
Proof. unfold metric_char, name_char. destruct c as [|a [|??]]; try done. by destruct (is_ascii_alphanumeric a || Ascii.eqb a "_" || Ascii.eqb a ":") eqn:He. Qed.

Lemma label_char_name (c : list ascii) : name_char (label_char c).
Proof. unfold label_char, name_char. destruct c as [|a [|??]]; try done. destruct (is_ascii_alphanumeric a || Ascii.eqb a "_") eqn:He; [by rewrite He|done]. Qed.

Lemma sanitize_metric_name (s : string) : Forall name_char (chars (sanitize_metric s)).
Proof. unfold sanitize_metric. rewrite chars_of_chars. apply Forall_fmap, Forall_true. intros c. apply metric_char_name. Qed.

Lemma sanitize_label_name (s : string) : Forall name_char (chars (sanitize_label s)).
Proof.
  unfold sanitize_label. assert (Forall name_char (label_char <$> str_chars s)) as Hl.
  { apply Forall_fmap, Forall_true. intros c. apply label_char_name. }
  destruct (label_char <$> str_chars s) as [|c l]; [constructor|]. destruct (byte_range 48 57 c); rewrite chars_of_chars; [by constructor|done].
Qed.

Lemma label_pairs_ok (t : Tags) : Forall label_ok (label_pairs t).
Proof. unfold label_pairs. apply Forall_fmap, Forall_true. intros kv. apply sanitize_label_name. Qed.

Lemma name_chars_app (s t : string) : Forall name_char (chars s) -> Forall name_char (chars t) -> Forall name_char (chars (s +:+ t)).
Proof. intros Hs Ht. rewrite chars_app. by apply Forall_app. Qed.

Lemma prom_points_ok (s : SeriesSnapshot) : Forall point_ok (prom_points s).
Proof.
  pose proof (label_pairs_ok (ss_tags s)) as Hl.
  assert (Forall name_char (chars ("loadr_" +:+ sanitize_metric (ss_metric s)))) as Hb.
  { apply name_chars_app; [by repeat constructor|apply sanitize_metric_name]. }
  assert (forall suffix, bool_decide (Forall name_char (chars suffix)) = true -> Forall name_char (chars (("loadr_" +:+ sanitize_metric (ss_metric s)) +:+ suffix))) as Hsuf.
  { intros suffix Hs%bool_decide_eq_true. by apply name_chars_app. }
  assert (forall f k n ls v, Forall name_char (chars f) -> Forall name_char (chars n) -> Forall label_ok ls -> bool_decide (newline ∉ chars k) = true ->
    point_ok (mkPromPoint f n k ls v)) as Hpt.
  { intros f k n ls v ??? Hk%bool_decide_eq_true. by constructor. }
  unfold prom_points. destruct (ss_kind s).
  - repeat (apply Forall_cons_2; [apply Hpt; try done; by apply Hsuf|]). apply Forall_nil_2.
  - apply Forall_cons_2; [by apply Hpt|]. apply Forall_nil_2.
  - repeat (apply Forall_cons_2; [apply Hpt; try done; by apply Hsuf|]). apply Forall_nil_2.
  - assert (forall suffix, bool_decide (Forall name_char (chars suffix)) = true ->
      Forall name_char (chars ((("loadr_" +:+ sanitize_metric (ss_metric s)) +:+ "_milliseconds") +:+ suffix))) as Hsuf2.
    { intros suffix Hs%bool_decide_eq_true. apply name_chars_app; [by apply Hsuf|done]. }
    apply Forall_app. split.
    + apply Forall_forall. intros p Hp. apply list_elem_of_omap in Hp as ([q v] & _ & Hv). cbn [fst snd] in Hv.
      destruct v as [v|]; [|done]. injection Hv as <-. apply Hpt; try (by apply Hsuf); [|done].
      apply Forall_app. split; [done|]. constructor; [|constructor]. unfold label_ok. cbn [fst]. by repeat constructor.
    + repeat (apply Forall_cons_2; [apply Hpt; try done; [by apply Hsuf|by apply Hsuf2]|]). apply Forall_nil_2.
Qed.

Lemma snapshot_points_ok (sn : Snapshot) : Forall point_ok (snapshot_points sn).
Proof. unfold snapshot_points. apply Forall_concat, Forall_fmap, Forall_true. intros s. apply prom_points_ok. Qed.

(** What a reader makes of the lines written for some points, when some families have been declared. *)
Record reads (seen : gset string) (ps : list PromPoint) (more : list (list ascii)) (parsed : list ExpoLine) : Prop := {
  rd_lines : Forall (fun l => newline ∉ l) more;
  rd_parsed : mapM read_line more = Some parsed;
  rd_samples : List.filter is_sample parsed = expo_sample f64_display <$> ps;
  rd_once : NoDup (omap family_of parsed);
  rd_new : forall f, f ∈ omap family_of parsed -> f ∉ seen;
  rd_declared : forall pre p post, ps = pre ++ p :: post -> exists pre' post',
    parsed = pre' ++ expo_sample f64_display p :: post' /\ List.filter is_sample pre' = expo_sample f64_display <$> pre
    /\ (pp_family p ∈ omap family_of pre' \/ pp_family p ∈ seen);
}.

Lemma points_read (ps : list PromPoint) : Forall point_ok ps -> forall lines seen,
  exists more parsed, (foldl (point_lines f64_display) (lines, seen) ps).1 = lines ++ more /\ reads seen ps more parsed.
Proof.
  induction 1 as [|p ps Hp Hps IH]; intros lines seen; cbn [foldl].
  - exists [], []. rewrite app_nil_r. split; [done|]. constructor; try done; [constructor|by intros ? ?%not_elem_of_nil|by intros [|??]].
  - unfold point_lines at 2. case_bool_decide as Hin.
    + destruct (IH (lines ++ [render_point f64_display p]) seen) as (more & parsed & Heq & [Hl Hr Hs Hn Hd Hq]).
      exists (render_point f64_display p :: more), (expo_sample f64_display p :: parsed). rewrite Heq, <- app_assoc. split; [done|]. constructor.
      * constructor; [by apply render_point_no_newline|done].
      * cbn. by rewrite read_render_point, Hr.
      * cbn. by rewrite Hs.
      * done.
      * done.
      * intros [|p' pre] q post Hsp; injection Hsp as -> Hsp.
        { exists [], parsed. by repeat split; right. }
        destruct (Hq pre q post Hsp) as (pre' & post' & -> & Hf & Hor). exists (expo_sample f64_display p' :: pre'), post'.
        split; [done|]. split; [cbn; by rewrite Hf|done].
    + destruct (IH (lines ++ [type_line p; render_point f64_display p]) ({[pp_family p]} ∪ seen)) as (more & parsed & Heq & [Hl Hr Hs Hn Hd Hq]).
      exists (type_line p :: render_point f64_display p :: more), (ExpoType (pp_family p) (pp_type p) :: expo_sample f64_display p :: parsed).
      rewrite Heq, <- app_assoc. split; [done|]. constructor.
      * constructor; [by apply type_line_no_newline|]. constructor; [by apply render_point_no_newline|done].
      * cbn. by rewrite read_type_line, read_render_point, Hr.
      * cbn. by rewrite Hs.
      * cbn. constructor; [|done]. intros Hf%Hd. set_solver.
      * cbn. intros f [->|Hf%Hd]%elem_of_cons; set_solver.
      * intros [|p' pre] q post Hsp; injection Hsp as -> Hsp.
        { exists [ExpoType (pp_family q) (pp_type q)], parsed. cbn. repeat split; try done. left. by left. }
        destruct (Hq pre q post Hsp) as (pre' & post' & -> & Hf & Hor).
        exists (ExpoType (pp_family p') (pp_type p') :: expo_sample f64_display p' :: pre'), post'.
        split; [done|]. split; [cbn; by rewrite Hf|]. cbn. set_solver.
Qed.

Lemma split_terminated (ls : list (list ascii)) :
  Forall (fun l => newline ∉ l) ls -> split_l newline (concat ((fun l => l ++ [newline]) <$> ls)) = ls ++ [[]].
Proof.
  induction 1 as [|l ls Hl Hls IH]; [done|]. rewrite fmap_cons. cbn [concat]. rewrite <- app_assoc. cbn [app]. by rewrite split_l_app, IH.
Qed.

(** C27: a scrape reads what was measured.  A reader of the text format finds in the exposition of a snapshot
    every point of every series, with its labels and its value, in order and nothing else; every family is declared
    once, and before its first sample, whatever the tags hold. *)
Theorem exposition_roundtrip (sn : Snapshot) : exists parsed,
  read_exposition (render_exposition f64_display sn) = Some parsed
  /\ List.filter is_sample parsed = expo_sample f64_display <$> snapshot_points sn
  /\ NoDup (omap family_of parsed)
  /\ (forall pre p post, snapshot_points sn = pre ++ p :: post -> exists pre' post',
        parsed = pre' ++ expo_sample f64_display p :: post' /\ List.filter is_sample pre' = expo_sample f64_display <$> pre
        /\ pp_family p ∈ omap family_of pre').
Proof.
  destruct (points_read (snapshot_points sn) (snapshot_points_ok sn) [] ∅) as (more & parsed & Heq & [Hl Hr Hs Hn _ Hq]).
  exists parsed. split; [|split; [done|split; [done|]]].
  - unfold render_exposition, exposition_lines, read_exposition. rewrite Heq, chars_of_chars. cbn [app].
    rewrite split_terminated by done. rewrite reverse_app. change (reverse [[]] ++ reverse more) with ([] :: reverse more).
    cbv iota. by rewrite (reverse_involutive more).
  - intros pre p post Hsp. destruct (Hq pre p post Hsp) as (pre' & post' & ? & ? & [?|?]); [|set_solver]. by exists pre', post'.
Qed.
End RoundTrip.

Module ExportersDemo.
(** Enough for the values below. *)
Definition display (v : f64) : string := if f64_ne v f64_zero then "1" else "0".

Lemma display_one_line (v : f64) : newline ∉ chars (display v).
Proof. unfold display. destruct (f64_ne v f64_zero); apply (bool_decide_unpack _); by vm_compute. Qed.

Definition agg (n : Z) : AggValues := mkAggValues n (f64_of_Z n) None None None (Some (f64_of_Z n)) None None None None (Some (f64_of_Z 1)) None None.
Definition checks (t : string) : SeriesSnapshot := mkSeriesSnapshot "checks" Rate {["name" := t]} (agg 1) 0 f64_zero.
Definition two_series : Snapshot := mkSnapshot 0 f64_zero f64_zero [checks "a"; checks ("b" +:+ nl +:+ "c")].

(** The samples of a family are not contiguous once a rate has two series. *)
Example interleaved_families : pp_family <$> snapshot_points two_series =
  ["loadr_checks_rate"; "loadr_checks_passes_total"; "loadr_checks_count_total";
   "loadr_checks_rate"; "loadr_checks_passes_total"; "loadr_checks_count_total"].
Proof. vm_compute. reflexivity. Qed.

(** Two tags of a series can end with the same label. *)
Example colliding_labels : (label_pairs (<["a.b" := "1"]> {["a_b" := "2"]})).*1 = ["a_b"; "a_b"].
Proof. vm_compute. reflexivity. Qed.

(** The escapes of InfluxDB leave a line feed and a final backslash as they are. *)
Example unescaped_tag : escape_tag (nl +:+ "\") = [newline; "\"%char].
Proof. reflexivity. Qed.

Definition reading : Prop := exists parsed, read_exposition (render_exposition display two_series) = Some parsed
  /\ List.filter is_sample parsed = expo_sample display <$> snapshot_points two_series.

Lemma exposition_roundtrip_witness : reading /\ length (snapshot_points two_series) = 6%nat.
Proof.
  split; [|reflexivity]. destruct (exposition_roundtrip display display_one_line two_series) as (parsed & Hr & Hs & _). exists parsed. exact (conj Hr Hs).
Defined.
End ExportersDemo.
