(* ===== verification/Otlp.v ===== *)
(** * OTLP export (crates/loadr-outputs/src/otlp.rs)

    The request built from a snapshot: one metric per name, with a data point per series.  The messages are those of
    the OpenTelemetry protocol, without the fields the exporter leaves empty; encoding and transport are I/O. *)

From S2P Require Import Prelude Float64 Str Metrics Aggregate Federation.

(** The attributes of a point are string values. *)
Definition Attributes : Type := list (string * string).

Record NumberDataPoint := mkNumberDataPoint {
  nd_start : Z;
  nd_time : Z;
  nd_value : f64;
  nd_attributes : Attributes;
}.

Record SummaryDataPoint := mkSummaryDataPoint {
  sd_start : Z;
  sd_time : Z;
  sd_count : Z;
  sd_sum : f64;
  sd_quantiles : list (f64 * f64);
  sd_attributes : Attributes;
}.

(** [metric::Data]; a sum is monotonic and cumulative. *)
Inductive MetricData :=
| MdSum (points : list NumberDataPoint)
| MdGauge (points : list NumberDataPoint)
| MdSummary (points : list SummaryDataPoint).

Record OtlpMetric := mkOtlpMetric {
  om_name : string;
  om_unit : string;
  om_data : MetricData;
}.

Definition tags_to_attrs (tags : Tags) : Attributes := sorted_tags tags.

Definition same_shape (a b : MetricData) : bool :=
  match a, b with
  | MdSum _, MdSum _ | MdGauge _, MdGauge _ | MdSummary _, MdSummary _ => true
  | _, _ => false
  end.

(** [saturating_mul]. *)
Definition u64_saturating_mul (a b : Z) : Z := Z.min u64_max (a * b).

Definition time_unix_nano (sn : Snapshot) : Z := u64_saturating_mul (sn_timestamp_ms sn) 1000000.
Definition start_time_unix_nano (sn : Snapshot) : Z :=
  let start_ms := f64_sub (f64_of_Z (sn_timestamp_ms sn)) (f64_mul (sn_elapsed_secs sn) (f64_of_Z 1000)) in
  u64_saturating_mul (f64_as_u64 (f64_max start_ms f64_zero)) 1000000.

(** The metric of one series. *)
Definition series_metric (sn : Snapshot) (s : SeriesSnapshot) : OtlpMetric :=
  let start := start_time_unix_nano sn in
  let time := time_unix_nano sn in
  let attributes := tags_to_attrs (ss_tags s) in
  let number_point value := mkNumberDataPoint start time value attributes in
  let a := ss_agg s in
  let '(unit, data) :=
    match ss_kind s with
    | Counter => ("", MdSum [number_point (av_sum a)])
    | Gauge => ("", MdGauge [number_point (default f64_zero (av_last a))])
    | Rate => ("", MdGauge [number_point (default f64_zero (av_rate a))])
    | Trend =>
        let quantile_values := omap (fun qv => (fun value => (qv.1, value)) <$> qv.2)
          [(f64_dec 5 1, av_med a); (f64_dec 9 1, av_p90 a); (f64_dec 95 2, av_p95 a); (f64_dec 99 2, av_p99 a)] in
        ("ms", MdSummary [mkSummaryDataPoint start time (av_count a) (av_sum a) quantile_values attributes])
    end in
  mkOtlpMetric (ss_metric s) unit data.

Definition extend (a b : MetricData) : MetricData :=
  match a, b with
  | MdSum p, MdSum q => MdSum (p ++ q)
  | MdGauge p, MdGauge q => MdGauge (p ++ q)
  | MdSummary p, MdSummary q => MdSummary (p ++ q)
  | _, _ => a
  end.

(** Merged with the last metric when it has the same name and shape, pushed otherwise. *)
Fixpoint push_metric (metrics : list OtlpMetric) (next : OtlpMetric) : list OtlpMetric :=
  match metrics with
  | [] => [next]
  | [last] =>
      if bool_decide (om_name last = om_name next) && same_shape (om_data last) (om_data next)
      then [mkOtlpMetric (om_name last) (om_unit last) (extend (om_data last) (om_data next))]
      else [last; next]
  | m :: metrics => m :: push_metric metrics next
  end.

(** The metrics of [build_export_request]; its resource is always [service.name = loadr]. *)
Definition build_export_request (sn : Snapshot) : list OtlpMetric := foldl push_metric [] (series_metric sn <$> sn_series sn).

(** ** Correctness *)

Inductive DataPoint :=
| NumberPoint (p : NumberDataPoint)
| SummaryPoint (p : SummaryDataPoint).

Definition data_points (d : MetricData) : list DataPoint :=
  match d with
  | MdSum p | MdGauge p => NumberPoint <$> p
  | MdSummary p => SummaryPoint <$> p
  end.

(** A metric without its points. *)
Definition shape (d : MetricData) : MetricData :=
  match d with MdSum _ => MdSum [] | MdGauge _ => MdGauge [] | MdSummary _ => MdSummary [] end.

(** Every point of a metric with the metric it belongs to. *)
Definition points_of (m : OtlpMetric) : list (string * string * MetricData * DataPoint) :=
  (fun p => (om_name m, om_unit m, shape (om_data m), p)) <$> data_points (om_data m).

(** The unit goes with the shape. *)
Definition unit_ok (m : OtlpMetric) : Prop := om_unit m = match om_data m with MdSummary _ => "ms" | _ => "" end.

Lemma series_metric_unit sn s : unit_ok (series_metric sn s).
Proof. unfold series_metric, unit_ok. by destruct (ss_kind s). Qed.

Lemma push_metric_snoc (ms : list OtlpMetric) (m next : OtlpMetric) : push_metric (ms ++ [m]) next = ms ++ push_metric [m] next.
Proof. induction ms as [|x ms IH]; [done|]. transitivity (x :: push_metric (ms ++ [m]) next); [|by rewrite IH].
  cbn [app]. destruct (ms ++ [m]) eqn:He; [by destruct ms|done].
Qed.

Lemma push_metric_points (ms : list OtlpMetric) (next : OtlpMetric) : Forall unit_ok ms -> unit_ok next ->
  concat (points_of <$> push_metric ms next) = concat (points_of <$> ms) ++ points_of next /\ Forall unit_ok (push_metric ms next).
Proof.
  intros Hms Hn. destruct ms as [|m ms _] using rev_ind; [by cbn; rewrite app_nil_r; repeat constructor|].
  apply Forall_app in Hms as [Hms [Hm _]%Forall_cons]. rewrite push_metric_snoc, !fmap_app, !concat_app.
  enough (concat (points_of <$> push_metric [m] next) = points_of m ++ points_of next /\ Forall unit_ok (push_metric [m] next)) as [-> Hu].
  { cbn [fmap list_fmap concat]. rewrite app_nil_r, <- app_assoc. split; [done|]. by apply Forall_app. }
  cbn [push_metric]. case_bool_decide as Hname; cbn [andb].
  2: { cbn [fmap list_fmap concat]. by rewrite app_nil_r; repeat constructor. }
  destruct m as [n u d], next as [n' u' d']. cbn [om_name om_data om_unit] in *. subst n'. unfold unit_ok in Hm, Hn. cbn in Hm, Hn. subst u u'.
  destruct d, d'; cbn [same_shape]; try (cbn; by rewrite app_nil_r; repeat constructor);
    (split; [|repeat constructor]); cbn [fmap list_fmap concat]; rewrite app_nil_r; unfold points_of; cbn; by rewrite !fmap_app.
Qed.

Lemma build_points (ns : list OtlpMetric) : Forall unit_ok ns -> forall ms, Forall unit_ok ms ->
  concat (points_of <$> foldl push_metric ms ns) = concat (points_of <$> ms) ++ concat (points_of <$> ns).
Proof.
  induction 1 as [|n ns Hn Hns IH]; intros ms Hms; cbn [foldl]; [by rewrite app_nil_r|].
  destruct (push_metric_points ms n Hms Hn) as [Hp Hu]. rewrite IH, Hp by done. by rewrite <- app_assoc.
Qed.

(** The metrics so far, of series sorted by name, each name with one shape. *)
Record grouped (ms : list OtlpMetric) (last : OtlpMetric) : Prop := {
  gp_last : exists ms' m, ms = ms' ++ [m] /\ om_name m = om_name last /\ same_shape (om_data m) (om_data last) = true;
  gp_names : NoDup (om_name <$> ms);
  gp_sorted : Forall (fun n => str_le n (om_name last)) (om_name <$> ms);
}.

Lemma same_shape_extend (a b c : MetricData) : same_shape a b = true -> same_shape b c = true -> same_shape (extend a b) c = true.
Proof. by destruct a, b, c. Qed.
Lemma same_shape_trans (a b c : MetricData) : same_shape a b = true -> same_shape b c = true -> same_shape a c = true.
Proof. by destruct a, b, c. Qed.

Lemma push_metric_grouped ms last next : grouped ms last -> str_le (om_name last) (om_name next) ->
  (om_name last = om_name next -> same_shape (om_data last) (om_data next) = true) -> grouped (push_metric ms next) next.
Proof.
  intros [(ms' & m & -> & Hm & Hs) Hn Hle] Hln Hshape. rewrite push_metric_snoc. cbn [push_metric].
  rewrite fmap_app in Hn, Hle. cbn in Hn, Hle. case_bool_decide as Hname; cbn [andb].
  - assert (om_name last = om_name next) as Heq by congruence. rewrite (same_shape_trans _ (om_data last)) by auto. split.
    + exists ms'. eexists. split; [done|]. split; [done|]. cbn. apply (same_shape_extend _ (om_data next)); [|by destruct (om_data next)].
      by apply (same_shape_trans _ (om_data last)); auto.
    + by rewrite fmap_app.
    + rewrite fmap_app. cbn. by rewrite <- Heq.
  - assert (Forall (fun n => str_le n (om_name next)) ((om_name <$> ms') ++ [om_name m])) as Hle'.
    { eapply Forall_impl; [exact Hle|]. intros n Hnl. cbn in Hnl |- *. by transitivity (om_name last). }
    change (ms' ++ [m; next]) with (ms' ++ ([m] ++ [next])). rewrite app_assoc. split.
    + exists (ms' ++ [m]), next. split; [done|]. split; [done|]. by destruct (om_data next).
    + rewrite !fmap_app. cbn. apply NoDup_app. split; [done|]. split; [|apply NoDup_singleton].
      intros n Hin [->|?%not_elem_of_nil]%elem_of_cons; [|done]. rewrite Forall_forall in Hle. specialize (Hle _ Hin). cbn in Hle. apply Hname.
      rewrite Hm. by apply (anti_symm str_le).
    + rewrite !fmap_app. cbn. apply Forall_app. split; [done|]. apply Forall_singleton. by destruct (total str_le (om_name next) (om_name next)).
Qed.

Lemma same_shape_refl (d : MetricData) : same_shape d d = true.
Proof. by destruct d. Qed.

Lemma push_metrics_grouped (ns : list OtlpMetric) : forall ms last, grouped ms last ->
  Sorted (fun a b => str_le (om_name a) (om_name b)) (last :: ns) ->
  (forall a b, a ∈ last :: ns -> b ∈ last :: ns -> om_name a = om_name b -> same_shape (om_data a) (om_data b) = true) ->
  NoDup (om_name <$> foldl push_metric ms ns).
Proof.
  induction ns as [|n ns IH]; intros ms last Hg Hsort Hshape; cbn [foldl]; [apply Hg|].
  apply Sorted_inv in Hsort as [Hsort Hhd]. apply HdRel_inv in Hhd. apply (IH _ n); [|done|].
  - apply (push_metric_grouped _ last); [done|done|]. intros He. apply Hshape; [by left|by right; left|done].
  - intros a b Ha Hb. apply Hshape; by right.
Qed.

Lemma foldl_push_names (ns : list OtlpMetric) :
  Sorted (fun a b => str_le (om_name a) (om_name b)) ns ->
  (forall a b, a ∈ ns -> b ∈ ns -> om_name a = om_name b -> same_shape (om_data a) (om_data b) = true) ->
  NoDup (om_name <$> foldl push_metric [] ns).
Proof.
  destruct ns as [|n ns]; intros Hsort Hshape; [constructor|]. cbn [foldl]. apply (push_metrics_grouped _ _ n); [|done|done].
  split; cbn; [|apply NoDup_singleton|].
  - exists [], n. split; [done|]. split; [done|]. apply same_shape_refl.
  - apply Forall_singleton. by destruct (total str_le (om_name n) (om_name n)).
Qed.

Lemma tags_compare_antisym (a : list (string * string)) : forall b, tags_compare b a = CompOpp (tags_compare a b).
Proof.
  induction a as [|[k v] a IH]; intros [|[k' v'] b]; cbn; try done. unfold str_compare.
  rewrite (str_compare_l_antisym (chars k)), (str_compare_l_antisym (chars v)).
  destruct (str_compare_l (chars k) (chars k')); try done. by destruct (str_compare_l (chars v) (chars v')); cbn.
Qed.

#[export] Instance snapshot_le_total : Total snapshot_le.
Proof.
  intros a b. unfold snapshot_le, str_compare. rewrite (str_compare_l_antisym (chars (ss_metric a))).
  rewrite (tags_compare_antisym (sorted_tags (ss_tags a))).
  destruct (str_compare_l _ _), (tags_compare _ _); cbn; try (by left); by right.
Qed.

Lemma snapshot_le_name a b : snapshot_le a b -> str_le (ss_metric a) (ss_metric b).
Proof. unfold snapshot_le, str_le. by destruct (str_compare _ _). Qed.

Lemma series_metric_name sn s : om_name (series_metric sn s) = ss_metric s.
Proof. unfold series_metric. by destruct (ss_kind s). Qed.

Lemma series_metric_shape sn s s' : ss_kind s = ss_kind s' -> same_shape (om_data (series_metric sn s)) (om_data (series_metric sn s')) = true.
Proof. unfold series_metric. intros <-. by destruct (ss_kind s). Qed.

Section OfSnapshots.
Context `{Hdr}.

Lemma snapshot_series_in (a : Aggregator) (now now_ms : Z) (s : SeriesSnapshot) :
  s ∈ sn_series (snapshot a now now_ms).1 -> exists tags x, series a !! (ss_metric s, tags) = Some x /\ ss_kind s = kind x.
Proof.
  unfold snapshot, build_snapshot. cbn [fst sn_series]. rewrite merge_sort_Permutation. intros ([[metric tags] x] & -> & Hin)%list_elem_of_fmap.
  apply elem_of_map_to_list in Hin. exists tags, x. destruct (snd (roll_interval x)). done.
Qed.

(** An OTLP export of an aggregator's snapshot loses and invents nothing, and is well formed: its points are those of
    the series, in order, each under its metric, and no two metrics have the same name. *)
Theorem otlp_export_exact (a : Aggregator) (now now_ms : Z) :
  (forall k k' s s', series a !! k = Some s -> series a !! k' = Some s' -> k.1 = k'.1 -> kind s = kind s') ->
  let sn := (snapshot a now now_ms).1 in
  concat (points_of <$> build_export_request sn) = concat ((fun s => points_of (series_metric sn s)) <$> sn_series sn)
  /\ NoDup (om_name <$> build_export_request sn).
Proof.
  intros Hkind. cbv zeta. set (sn := (snapshot a now now_ms).1). unfold build_export_request. split.
  - rewrite build_points; [by rewrite <- list_fmap_compose| |constructor]. apply Forall_fmap, Forall_true. apply series_metric_unit.
  - apply foldl_push_names.
    + assert (Sorted snapshot_le (sn_series sn)) as Hsort by apply Sorted_merge_sort, _.
      clear Hkind. induction Hsort as [|s l Hsort IH Hhd]; cbn; constructor; [done|].
      destruct Hhd as [|t l Hle]; constructor. rewrite !series_metric_name. by apply snapshot_le_name.
    + intros m m' (s & -> & Hs)%list_elem_of_fmap (s' & -> & Hs')%list_elem_of_fmap. rewrite !series_metric_name. intros Hname.
      apply series_metric_shape. destruct (snapshot_series_in _ _ _ _ Hs) as (t & x & Hx & ->).
      destruct (snapshot_series_in _ _ _ _ Hs') as (t' & x' & Hx' & ->). exact (Hkind _ _ _ _ Hx Hx' Hname).
Qed.
End OfSnapshots.

Module OtlpDemo.
Import HdrModel.

Definition measured : list Sample :=
  [mkSample "http_reqs" Counter (f64_of_Z 1) {["name" := "b"]} 0; mkSample "http_req_duration" Trend (f64_of_Z 12) ∅ 0;
   mkSample "http_reqs" Counter (f64_of_Z 1) {["name" := "a"]} 0; mkSample "checks" Rate (f64_of_Z 1) ∅ 0].
Definition recorded : Aggregator := foldl record (Aggregator_new 0) measured.

Definition keys : list (string * Tags * Series) := map_to_list (series recorded).
Definition one_kind : bool :=
  forallb (fun x => forallb (fun y => implb (bool_decide (x.1.1 = y.1.1)) (bool_decide (kind x.2 = kind y.2))) keys) keys.

Example exported : om_name <$> build_export_request (snapshot recorded 1000000000 1000).1 = ["checks"; "http_req_duration"; "http_reqs"].
Proof. vm_compute. reflexivity. Qed.

Lemma otlp_export_exact_witness :
  NoDup (om_name <$> build_export_request (snapshot recorded 1000000000 1000).1) /\ length keys = 4%nat.
Proof.
  split; [|by vm_compute]. refine (proj2 (otlp_export_exact recorded 1000000000 1000 _)).
  intros k k' s s' Hs Hs' Hname. assert (one_kind = true) as Hok by by vm_compute.
  unfold one_kind in Hok. rewrite forallb_forall in Hok. apply elem_of_map_to_list in Hs, Hs'.
  specialize (Hok _ (proj1 (list_elem_of_In _ _) Hs)). rewrite forallb_forall in Hok. specialize (Hok _ (proj1 (list_elem_of_In _ _) Hs')).
  cbn [fst snd] in Hok. rewrite bool_decide_true in Hok by done. by apply bool_decide_eq_true in Hok.
Defined.
End OtlpDemo.
