(* ===== verification/Observe.v ===== *)
(** * Observed system metrics (crates/loadr-outputs/src/observe.rs, crates/loadr-cli/src/commands/run.rs)

    The series pulled in for the window of a run, their overlay on its timeline, the thresholds on them, and the
    sampler of the local host.  Queries are parameters; so are the alphanumeric characters beyond ASCII. *)

From Stdlib Require Import SpecFloat Ascii.
From S2P Require Import Prelude Float64 Str Dur Metrics Aggregate Threshold Thresholds Summary.
From S2P Require Import Value Template Extract Protocol Validate Diagnostics Exporters.

(** [i64] arithmetic wraps. *)
Definition i64_wrap (n : Z) : Z := i64_of_u64 n.
Definition is_i64 (n : Z) : Prop := - 2 ^ 63 <= n < 2 ^ 63.
Definition i64_abs (n : Z) : Z := i64_wrap (Z.abs n).

Record ObservedSeries := mkObservedSeries {
  ob_name : string;
  ob_unit : string;
  ob_points : list (Z * f64);
}.

(** ** Overlay on the timeline *)

Definition step_for (timeline : list TimelinePoint) : Z :=
  match timeline with
  | p0 :: p1 :: _ =>
      let gap := f64_round (f64_sub (tp_elapsed_secs p1) (tp_elapsed_secs p0)) in
      Z.max 1 (Z.min 3600 (f64_as_i64 gap))
  | _ => 1
  end.

(** The best sample so far, with its distance. *)
Definition nearest_step (target_ms tol_ms : Z) (best : option (Z * f64)) (p : Z * f64) : option (Z * f64) :=
  let d := i64_abs (i64_wrap (p.1 - target_ms)) in
  if Z.leb d tol_ms && match best with Some (bd, _) => Z.ltb d bd | None => true end then Some (d, p.2) else best.
Definition nearest (points : list (Z * f64)) (target_ms tol_ms : Z) : option f64 :=
  snd <$> foldl (nearest_step target_ms tol_ms) None points.

(** Twice the mean spacing of the samples, and at least five seconds. *)
Definition tolerance (points : list (Z * f64)) : Z :=
  let spacing :=
    match points, last points with
    | (first, _) :: _ :: _, Some (last_, _) => Z.quot (i64_wrap (last_ - first)) (Z.of_nat (length points) - 1)
    | _, _ => 5000
    end in
  Z.max (i64_wrap (spacing * 2)) 5000.

Definition point_ms (start_ms : Z) (p : TimelinePoint) : Z :=
  i64_wrap (start_ms + f64_as_i64 (f64_mul (tp_elapsed_secs p) (f64_of_Z 1000))).

Definition set_external (m : gmap string f64) (p : TimelinePoint) : TimelinePoint :=
  mkTimelinePoint (tp_elapsed_secs p) (tp_rps p) (tp_iterations_ps p) (tp_active_vus p) (tp_error_rate p)
    (tp_latency_avg p) (tp_latency_p50 p) (tp_latency_p95 p) (tp_latency_p99 p) m.

Definition attach_point (start_ms : Z) (s : ObservedSeries) (p : TimelinePoint) : TimelinePoint :=
  match nearest (ob_points s) (point_ms start_ms p) (tolerance (ob_points s)) with
  | Some v => set_external (<[ob_name s := v]> (tp_external p)) p
  | None => p
  end.

Definition attach_series (start_ms : Z) (timeline : list TimelinePoint) (s : ObservedSeries) : list TimelinePoint :=
  match ob_points s with [] => timeline | _ => attach_point start_ms s <$> timeline end.

(** [attach]: the timeline of the summary it is given. *)
Definition attach (started_ms : Z) (timeline : list TimelinePoint) (series : list ObservedSeries) : list TimelinePoint :=
  foldl (attach_series (i64_wrap started_ms)) timeline series.

(** ** Range queries *)

Section Queries.
Context {Uri HeaderValue : Type} (parse_uri : string -> result string Uri) (header_value : string -> result string HeaderValue).
Context `{JsonText} (http_get : Uri -> option HeaderValue -> result string (Z * string)) (alphanumeric_beyond_ascii : list ascii -> bool).

Definition percent_encode (s : string) : string := url_encode s.

Definition is_alphanumeric (c : list ascii) : bool := match c with [a] => is_ascii_alphanumeric a | _ => alphanumeric_beyond_ascii c end.
Definition sanitize_query (query : string) : string :=
  let s := of_chars (trim_matches "_" (concat ((fun c => if is_alphanumeric c then c else ["_"%char]) <$> str_chars query))) in
  of_chars (concat (take 40 (str_chars s))).

(** A pair of the matrix, when it is one and its value is finite. *)
Definition matrix_point (pair : Value) : option (Z * f64) :=
  match pair with
  | Array [ts; val] =>
      match as_f64 ts, (match val with Text s => parse_f64 s | _ => None end) with
      | Some ts, Some val => if f64_is_finite val then Some (f64_as_i64 (f64_mul ts (f64_of_Z 1000)), val) else None
      | _, _ => None
      end
  | _ => None
  end.

Definition json_field (k : string) (v : Value) : option Value := match v with Object m => map_get k m | _ => None end.

Definition parse_matrix (json : Value) : list (list (Z * f64)) :=
  match json_field "data" json ≫= json_field "result" with
  | Some (Array result_) =>
      List.filter (fun points => negb (bool_decide (length points = 0%nat)))
        (omap (fun entry => match json_field "values" entry with
                            | Some (Array values) => Some (omap matrix_point values)
                            | _ => None
                            end) result_)
  | _ => []
  end.

Definition range_url (source query : string) (start_ms end_ms step_secs : Z) : string :=
  trim_end_matches source "/" +:+ "/api/v1/query_range?query=" +:+ percent_encode query
  +:+ "&start=" +:+ Z_to_string (Z.quot start_ms 1000) +:+ "&end=" +:+ Z_to_string (Z.quot end_ms 1000)
  +:+ "&step=" +:+ Z_to_string (Z.max step_secs 1).

Definition is_success (status : Z) : bool := Z.leb 200 status && Z.ltb status 300.

Definition prometheus_range (source query : string) (token : option string) (start_ms end_ms step_secs : Z) :
    result string (list (list (Z * f64))) :=
  let url := range_url source query start_ms end_ms step_secs in
  match parse_uri url with
  | Err e => Err ("bad url " +:+ url +:+ ": " +:+ e)
  | Ok uri =>
      let authorization := tok ← token; match header_value ("Bearer " +:+ tok) with Ok v => Some v | Err _ => None end in
      let? got := http_get uri authorization in
      if negb (is_success got.1) then Err ("HTTP " +:+ Z_to_string got.1)
      else match from_json got.2 with
           | Ok json => Ok (parse_matrix json)
           | Err e => Err ("invalid JSON: " +:+ e)
           end
  end.

(** The series of one source; a source that fails has none. *)
Definition collect_source (start_ms end_ms step_secs : Z) (cfg : ObserveConfig) : list ObservedSeries :=
  match cfg with
  | ObPrometheus name source query as_name unit_ token =>
      let label := match as_name, name with Some n, _ => n | None, Some n => n | None, None => sanitize_query query end in
      match prometheus_range source query token start_ms end_ms step_secs with
      | Ok series =>
          imap (fun i points => mkObservedSeries (if Nat.eqb i 0 then label else label +:+ "_" +:+ Z_to_string (Z.of_nat i))
                                  (default "" unit_) points) series
      | Err _ => []
      end
  | ObSystem _ _ _ => []
  end.
Definition collect (configs : list ObserveConfig) (start_ms end_ms step_secs : Z) : list ObservedSeries :=
  concat (collect_source start_ms end_ms step_secs <$> configs).
End Queries.

(** ** Thresholds on observed metrics *)

(** [f64::ceil]. *)
Definition f64_ceil (a : f64) : f64 :=
  match a with
  | S754_finite s m e =>
      if Z.leb 0 e then a
      else
        let t := f64_trunc_Z a in
        if s then (if Z.eqb t 0 then S754_zero true else f64_of_Z t)
        else if Z.eqb (Z.pos m mod 2 ^ (- e)) 0 then a else f64_of_Z (t + 1)
  | _ => a
  end.

(** [partial_cmp] with an unordered pair equal: not greater. *)
Definition sort_le (a b : f64) : Prop := f64_lt b a = false.
#[global] Instance sort_le_dec a b : Decision (sort_le a b).
Proof. unfold sort_le. apply _. Defined.

Definition percentile_at (vals : list f64) (p : f64) : option f64 :=
  let rank := f64_as_u64 (f64_ceil (f64_mul (f64_div p (f64_of_Z 100)) (f64_of_Z (Z.of_nat (length vals))))) in
  vals !! Z.to_nat (Z.min (u64_saturating_sub rank 1) (Z.of_nat (length vals) - 1)).

(** [agg_values]: the indexing of [pct] is in range. *)
Definition observed_agg (s : ObservedSeries) : option AggValues :=
  match ob_points s with
  | [] => None
  | points =>
      let values := snd <$> points in
      let count := Z.of_nat (length values) in
      let sum := f64_sum values in
      let avg := f64_div sum (f64_of_Z count) in
      let vals := merge_sort sort_le values in
      Some (mkAggValues count sum (Some avg) (head vals) (last vals) (percentile_at vals (f64_of_Z 50))
              (percentile_at vals (f64_of_Z 90)) (percentile_at vals (f64_of_Z 95)) (percentile_at vals (f64_of_Z 99))
              (percentile_at vals (f64_dec 999 1)) None (last values) (Some avg))
  end.

Section Gate.
Context (humantime_parse_duration : string -> result string Duration).

(** One entry; an expression that does not parse is skipped. *)
Definition observe_entry (sel : MetricSelector) (agg : AggValues) (entry : ThresholdEntry) : may_panic (list ThresholdStatus) :=
  match ThresholdExpr_parse humantime_parse_duration (expression entry) with
  | None => None
  | Some (Err _) => Some []
  | Some (Ok expr) =>
      let observed := value_for agg (te_agg expr) Gauge in
      let passed := match observed with Some v => Op_eval (te_op expr) v (te_bound expr) | None => true end in
      Some [mkThresholdStatus (MetricSelector_to_string sel) (expression entry) observed passed (abort_on_fail entry)]
  end.

Definition observe_threshold (series : list ObservedSeries) (kv : string * ThresholdList) : may_panic (list ThresholdStatus) :=
  match MetricSelector_parse kv.1 with
  | Err _ => Some []
  | Ok sel =>
      match ms_tags sel with
      | [] =>
          match List.find (fun s => bool_decide (ob_name s = ms_metric sel)) series ≫= observed_agg with
          | Some agg => concat_panics (observe_entry sel agg) (entries kv.2)
          | None => Some []
          end
      | _ => Some []
      end
  end.

Definition evaluate_thresholds (thresholds : list (string * ThresholdList)) (series : list ObservedSeries) : may_panic (list ThresholdStatus) :=
  concat_panics (observe_threshold series) thresholds.
End Gate.

(** The end of [loadr run]: the statuses on observed metrics replace the engine's, and the verdict is computed again. *)
Definition same_threshold (o t : ThresholdStatus) : bool := bool_decide (ts_metric o = ts_metric t) && bool_decide (ts_expression o = ts_expression t).
Definition fold_observed (statuses : list ThresholdStatus) (passed : bool) (observed : list ThresholdStatus) : list ThresholdStatus * bool :=
  match observed with
  | [] => (statuses, passed)
  | _ =>
      let kept := List.filter (fun t => negb (existsb (fun o => same_threshold o t) observed)) statuses in
      (kept ++ observed, forallb ts_passed (kept ++ observed))
  end.

(** ** The sampler of the local host *)

Definition RING_CAP : Z := 86400.

Inductive SystemMetric := Cpu | Memory | DiskIo | Network.
#[export] Instance SystemMetric_eq_dec : EqDecision SystemMetric.
Proof. solve_decision. Defined.

Definition suffix (m : SystemMetric) : string :=
  match m with Cpu => "cpu" | Memory => "memory" | DiskIo => "disk_io" | Network => "network" end.
Definition unit_of (m : SystemMetric) : string := match m with Cpu | Memory => "ratio" | DiskIo | Network => "bytes" end.

Definition metric_named (m : string) : option SystemMetric :=
  if bool_decide (m = "cpu") then Some Cpu
  else if bool_decide (m = "memory") then Some Memory
  else if bool_decide (m = "disk") then Some DiskIo
  else if bool_decide (m = "network") then Some Network
  else None.
Definition enabled_metrics (metrics : list string) : list SystemMetric :=
  match metrics with
  | [] => [Cpu; Memory; DiskIo; Network]
  | _ => foldl (fun out m => match metric_named m with
                             | Some metric => if bool_decide (metric ∈ out) then out else out ++ [metric]
                             | None => out
                             end) [] metrics
  end.

Record RingSeries := mkRingSeries {
  rg_metric : SystemMetric;
  rg_name : string;
  rg_unit : string;
  rg_points : list (Z * f64);
}.

(** [while points.len() >= RING_CAP { points.pop_front() }]: what is left. *)
Fixpoint make_room {A} (points : list A) : list A :=
  match points with
  | [] => []
  | _ :: rest => if Z.leb RING_CAP (Z.of_nat (length points)) then make_room rest else points
  end.
Definition ring_push (r : RingSeries) (ts_ms : Z) (value : f64) : RingSeries :=
  mkRingSeries (rg_metric r) (rg_name r) (rg_unit r) (make_room (rg_points r) ++ [(ts_ms, value)]).

Definition ring_for (prefix : string) (metrics : list SystemMetric) : list RingSeries :=
  (fun m => mkRingSeries m (prefix +:+ "_" +:+ suffix m) (unit_of m) []) <$> metrics.

Record CpuTimes := mkCpuTimes { ct_busy : Z; ct_total : Z }.
Record ProcSnapshot := mkProcSnapshot {
  pc_at_ms : Z;
  pc_cpu : option CpuTimes;
  pc_mem_ratio : option f64;
  pc_disk_sectors : option Z;
  pc_net_bytes : option Z;
}.
Record IntervalValues := mkIntervalValues {
  iv_cpu : option f64;
  iv_memory : option f64;
  iv_disk_io : option f64;
  iv_network : option f64;
}.
Definition iv_value (v : IntervalValues) (m : SystemMetric) : option f64 :=
  match m with Cpu => iv_cpu v | Memory => iv_memory v | DiskIo => iv_disk_io v | Network => iv_network v end.

(** [f64::clamp]. *)
Definition f64_clamp (lo hi v : f64) : f64 := if f64_lt v lo then lo else if f64_lt hi v then hi else v.

Definition counter_rate (dt : f64) (p c : option Z) (scale : f64) : option f64 :=
  match p, c with
  | Some p, Some c => if Z.leb p c then Some (f64_div (f64_mul (f64_of_Z (c - p)) scale) dt) else None
  | _, _ => None
  end.

Definition interval_values (prev cur : ProcSnapshot) : IntervalValues :=
  let dt := f64_div (f64_of_Z (i64_wrap (pc_at_ms cur - pc_at_ms prev))) (f64_of_Z 1000) in
  if f64_le dt f64_zero then mkIntervalValues None (pc_mem_ratio cur) None None
  else
    let cpu :=
      match pc_cpu prev, pc_cpu cur with
      | Some p, Some c =>
          if Z.ltb (ct_total p) (ct_total c) && Z.leb (ct_busy p) (ct_busy c)
          then Some (f64_clamp f64_zero (f64_of_Z 1) (f64_div (f64_of_Z (ct_busy c - ct_busy p)) (f64_of_Z (ct_total c - ct_total p))))
          else None
      | _, _ => None
      end in
    mkIntervalValues cpu (pc_mem_ratio cur) (counter_rate dt (pc_disk_sectors prev) (pc_disk_sectors cur) (f64_of_Z 512))
      (counter_rate dt (pc_net_bytes prev) (pc_net_bytes cur) (f64_of_Z 1)).

Definition push_values (ring : list RingSeries) (at_ms : Z) (vals : IntervalValues) : list RingSeries :=
  (fun rs => match iv_value vals (rg_metric rs) with Some v => ring_push rs at_ms v | None => rs end) <$> ring.

(** [sample_loop] on the passes it makes, the first of which is the baseline. *)
Fixpoint sample_loop (ring : list RingSeries) (prev : ProcSnapshot) (passes : list ProcSnapshot) : list RingSeries :=
  match passes with
  | [] => ring
  | cur :: passes => sample_loop (push_values ring (pc_at_ms cur) (interval_values prev cur)) cur passes
  end.

(** The sampler of one source: none when no metric is known. *)
Definition sampler_for (cfg : ObserveConfig) : option (list RingSeries * Duration) :=
  match cfg with
  | ObSystem metrics interval as_prefix =>
      match enabled_metrics metrics with
      | [] => None
      | enabled => Some (ring_for (default "system" as_prefix) enabled,
                         Z.max (default (Duration_from_secs 1) interval) (Duration_from_millis 100))
      end
  | ObPrometheus _ _ _ _ _ _ => None
  end.
Definition start_samplers (configs : list ObserveConfig) : list (list RingSeries * Duration) := omap sampler_for configs.

Definition stop_samplers (rings : list (list RingSeries)) : list ObservedSeries :=
  omap (fun rs => match rg_points rs with [] => None | points => Some (mkObservedSeries (rg_name rs) (rg_unit rs) points) end)
    (concat rings).

(** ** [/proc] *)

(** [split_whitespace]: the word being read, and those before it. *)
Fixpoint words (fuel : nat) (s word : list ascii) : list (list ascii) :=
  let flush := match word with [] => [] | _ => [word] end in
  match fuel with
  | O => flush
  | S fuel =>
      match s with
      | [] => flush
      | c :: s' =>
          match first_stripped ws_forward s with
          | Some rest => flush ++ words fuel rest []
          | None => words fuel s' (word ++ [c])
          end
      end
  end.
Definition split_whitespace (s : list ascii) : list (list ascii) := words (S (length s)) s [].

(** [parse::<u64>]. *)
Definition parse_u64 (s : list ascii) : option Z :=
  let r := match s with "+"%char :: r => r | r => r end in
  match take_digits r with
  | ((_ :: _) as d, []) => if Z.ltb (digits_val d) u64_modulus then Some (digits_val d) else None
  | _ => None
  end.

Definition first_u64 (s : list ascii) : option Z := head (split_whitespace s) ≫= parse_u64.

Definition parse_proc_stat (s : string) : option CpuTimes :=
  line ← List.find (fun l => bool_decide (is_Some (strip_prefix_l (chars "cpu ") l))) (str_lines s);
  fields ← mapM parse_u64 (drop 1 (split_whitespace line));
  match fields with
  | _ :: _ :: _ :: f3 :: f4 :: _ =>
      let total := u64_sum (take 8 fields) in
      Some (mkCpuTimes (u64_saturating_sub total (u64_add f3 f4)) total)
  | _ => None
  end.

Definition meminfo_line (st : option Z * option Z) (line : list ascii) : option Z * option Z :=
  match strip_prefix_l (chars "MemTotal:") line with
  | Some rest => (first_u64 rest, st.2)
  | None => match strip_prefix_l (chars "MemAvailable:") line with
            | Some rest => (st.1, first_u64 rest)
            | None => st
            end
  end.
Definition parse_meminfo (s : string) : option f64 :=
  let '(total, available) := foldl meminfo_line (None, None) (str_lines s) in
  total ← total; available ← available;
  if Z.eqb total 0 then None else Some (f64_div (f64_of_Z (u64_saturating_sub total available)) (f64_of_Z total)).

Definition is_partition_of (name device : list ascii) : bool :=
  match strip_prefix_l device name with
  | None | Some [] => false
  | Some rest =>
      let rest := match rest with "p"%char :: r => r | r => r end in
      negb (bool_decide (rest = [])) && forallb is_digit rest
  end.

Record DiskTotals := mkDiskTotals { dt_devices : list (list ascii); dt_sectors : Z; dt_any : bool }.
Definition virtual_device (name : list ascii) : bool :=
  existsb (fun p => bool_decide (is_Some (strip_prefix_l (chars p) name))) ["loop"; "ram"; "zram"; "dm-"; "md"].
Definition diskstats_line (st : DiskTotals) (line : list ascii) : DiskTotals :=
  let f := split_whitespace line in
  match f !! 2%nat, f !! 5%nat, f !! 9%nat with
  | Some name, Some f5, Some f9 =>
      if virtual_device name || existsb (is_partition_of name) (dt_devices st) then st
      else match parse_u64 f5, parse_u64 f9 with
           | Some read, Some written => mkDiskTotals (dt_devices st ++ [name]) (u64_add (dt_sectors st) (u64_add read written)) true
           | _, _ => st
           end
  | _, _, _ => st
  end.
Definition disk_totals (s : string) : DiskTotals := foldl diskstats_line (mkDiskTotals [] 0 false) (str_lines s).
Definition parse_diskstats (s : string) : option Z := let t := disk_totals s in if dt_any t then Some (dt_sectors t) else None.

Definition net_line (st : Z * bool) (line : list ascii) : Z * bool :=
  match split_once_l ":" line with
  | Some (iface, rest) =>
      if bool_decide (trim_l iface = chars "lo") then st
      else match split_whitespace rest !! 0%nat, split_whitespace rest !! 8%nat with
           | Some f0, Some f8 =>
               match parse_u64 f0, parse_u64 f8 with
               | Some rx, Some tx => (u64_add st.1 (u64_add rx tx), true)
               | _, _ => st
               end
           | _, _ => st
           end
  | None => st
  end.
Definition parse_net_dev (s : string) : option Z :=
  let '(bytes, any) := foldl net_line (0, false) (str_lines s) in if any then Some bytes else None.

(** ** Correctness of the overlay *)

(** No difference of these times overflows. *)
Definition close_times (points : list (Z * f64)) (target : Z) : Prop := Forall (fun p => - 2 ^ 63 < p.1 - target < 2 ^ 63) points.

(** [v] is the value of the first of the samples nearest to [target], which is within [tol]. *)
Definition is_nearest (points : list (Z * f64)) (target tol : Z) (v : f64) : Prop :=
  exists i ts, points !! i = Some (ts, v) /\ Z.abs (ts - target) <= tol
    /\ forall j ts' v', points !! j = Some (ts', v') ->
         Z.abs (ts - target) <= Z.abs (ts' - target) /\ ((j < i)%nat -> Z.abs (ts - target) < Z.abs (ts' - target)).

Lemma i64_wrap_id (n : Z) : is_i64 n -> i64_wrap n = n.
Proof.
  unfold is_i64, i64_wrap, i64_of_u64, u64_modulus. intros Hn. destruct (Z_le_gt_dec 0 n).
  - rewrite Z.mod_small by lia. destruct (Z.ltb_spec n (2 ^ 63)); lia.
  - replace (n mod 2 ^ 64) with (n + 2 ^ 64) by (symmetry; rewrite <- (Z.mod_add n 1 (2 ^ 64)) by lia; apply Z.mod_small; lia).
    destruct (Z.ltb_spec (n + 2 ^ 64) (2 ^ 63)); lia.
Qed.

(** What the search knows of the samples seen. *)
Definition best_ok (seen : list (Z * f64)) (target tol : Z) (best : option (Z * f64)) : Prop :=
  match best with
  | Some (d, v) => exists i ts, seen !! i = Some (ts, v) /\ d = Z.abs (ts - target) /\ d <= tol
      /\ forall j ts' v', seen !! j = Some (ts', v') -> d <= Z.abs (ts' - target) /\ ((j < i)%nat -> d < Z.abs (ts' - target))
  | None => Forall (fun p => tol < Z.abs (p.1 - target)) seen
  end.

Lemma nearest_step_ok seen target tol best p :
  - 2 ^ 63 < p.1 - target < 2 ^ 63 -> best_ok seen target tol best -> best_ok (seen ++ [p]) target tol (nearest_step target tol best p).
Proof.
  intros Hp Hb. destruct p as [ts v]. cbn [fst] in Hp. unfold nearest_step. cbn [fst snd].
  rewrite (i64_wrap_id (ts - target)) by (unfold is_i64; lia). unfold i64_abs. rewrite i64_wrap_id by (unfold is_i64; lia).
  destruct (Z.leb_spec (Z.abs (ts - target)) tol) as [Htol|Htol]; cbn [andb].
  - destruct best as [[d w]|]; cbn [best_ok] in Hb.
    + destruct Hb as (i & ts0 & Hi & Hd & Htol0 & Hmin). pose proof (lookup_lt_Some _ _ _ Hi) as Hlt.
      destruct (Z.ltb_spec (Z.abs (ts - target)) d) as [Hless|Hmore].
      * exists (length seen), ts. split; [by apply lookup_snoc_Some; right|]. split; [done|]. split; [done|].
        intros j ts' v' [[Hj Hs]|[-> [= <- <-]]]%lookup_snoc_Some; [|lia]. destruct (Hmin j ts' v' Hs). lia.
      * exists i, ts0. split; [by apply lookup_snoc_Some; left|]. split; [done|]. split; [done|].
        intros j ts' v' [[Hj Hs]|[-> [= <- <-]]]%lookup_snoc_Some; [by apply (Hmin j ts' v')|lia].
    + exists (length seen), ts. split; [by apply lookup_snoc_Some; right|]. split; [done|]. split; [done|].
      intros j ts' v' [[Hj Hs]|[-> [= <- <-]]]%lookup_snoc_Some; [|lia]. rewrite Forall_forall in Hb.
      specialize (Hb _ (list_elem_of_lookup_2 _ _ _ Hs)). cbn in Hb. lia.
  - destruct best as [[d w]|]; cbn [best_ok] in Hb |- *.
    + destruct Hb as (i & ts0 & Hi & Hd & Htol0 & Hmin). pose proof (lookup_lt_Some _ _ _ Hi) as Hlt.
      exists i, ts0. split; [by apply lookup_snoc_Some; left|]. split; [done|]. split; [done|].
      intros j ts' v' [[Hj Hs]|[-> [= <- <-]]]%lookup_snoc_Some; [by apply (Hmin j ts' v')|lia].
    + apply Forall_app. split; [done|]. by apply Forall_singleton.
Qed.

Lemma nearest_best (points : list (Z * f64)) (target tol : Z) : close_times points target ->
  best_ok points target tol (foldl (nearest_step target tol) None points).
Proof.
  intros Hc. change points with ([] ++ points) at 1. assert (best_ok [] target tol None) as Hb by constructor.
  revert Hb. generalize (@None (Z * f64)) as best. generalize (@nil (Z * f64)) as seen. induction Hc as [|p points Hp Hc IH]; intros seen best Hb.
  - by rewrite app_nil_r.
  - cbn [foldl]. replace (seen ++ p :: points) with ((seen ++ [p]) ++ points) by by rewrite <- app_assoc. by apply IH, nearest_step_ok.
Qed.

Lemma is_nearest_unique points target tol v w : is_nearest points target tol v -> is_nearest points target tol w -> v = w.
Proof.
  intros (i & ts & Hi & Ht & Hmin) (j & ts' & Hj & Ht' & Hmin'). destruct (Hmin j ts' w Hj) as [H1 H2]. destruct (Hmin' i ts v Hi) as [H3 H4].
  destruct (lt_eq_lt_dec i j) as [[Hlt|Heq]|Hlt]; [specialize (H4 Hlt); lia| |specialize (H2 Hlt); lia]. subst j. congruence.
Qed.

Lemma nearest_exact (points : list (Z * f64)) (target tol : Z) (v : f64) : close_times points target ->
  nearest points target tol = Some v <-> is_nearest points target tol v.
Proof.
  intros Hc. pose proof (nearest_best points target tol Hc) as Hb. unfold nearest.
  destruct (foldl _ None points) as [[d w]|]; cbn [best_ok] in Hb; cbn [fmap option_fmap option_map snd].
  - assert (is_nearest points target tol w) as Hw.
    { destruct Hb as (i & ts & Hi & -> & Ht & Hmin). by exists i, ts. }
    split; [by intros [= <-]|]. intros Hv. by rewrite (is_nearest_unique _ _ _ _ _ Hv Hw).
  - split; [done|]. intros (i & ts & Hi & Ht & _). rewrite Forall_forall in Hb. specialize (Hb _ (list_elem_of_lookup_2 _ _ _ Hi)). cbn in Hb. lia.
Qed.

Lemma point_ms_external start m p : point_ms start (set_external m p) = point_ms start p.
Proof. done. Qed.

Lemma set_external_twice m n p : set_external m (set_external n p) = set_external m p.
Proof. done. Qed.

(** The values one point ends with. *)
Definition attached (start : Z) (p : TimelinePoint) (m : gmap string f64) (s : ObservedSeries) : gmap string f64 :=
  match nearest (ob_points s) (point_ms start p) (tolerance (ob_points s)) with Some v => <[ob_name s := v]> m | None => m end.

Lemma attach_series_eq start timeline s :
  attach_series start timeline s = (fun p => set_external (attached start p (tp_external p) s) p) <$> timeline.
Proof.
  assert (forall p, attach_point start s p = set_external (attached start p (tp_external p) s) p) as Hp.
  { intros p. unfold attach_point, attached. destruct (nearest _ _ _); [done|]. by destruct p. }
  unfold attach_series. destruct (ob_points s) eqn:Hs.
  - symmetry. transitivity (id <$> timeline); [|by rewrite list_fmap_id]. apply list_fmap_ext. intros i q _. rewrite <- Hp. unfold attach_point. by rewrite Hs.
  - apply list_fmap_ext. intros i q _. apply Hp.
Qed.

Lemma attach_fold start (series : list ObservedSeries) : forall timeline,
  foldl (attach_series start) timeline series = (fun p => set_external (foldl (attached start p) (tp_external p) series) p) <$> timeline.
Proof.
  induction series as [|s series IH]; intros timeline; cbn [foldl].
  - symmetry. transitivity (id <$> timeline); [|by rewrite list_fmap_id]. apply list_fmap_ext. intros i q _. by destruct q.
  - rewrite IH, attach_series_eq, <- list_fmap_compose. by apply list_fmap_ext.
Qed.

Lemma attached_other start p (series : list ObservedSeries) (k : string) : forall m,
  k ∉ ob_name <$> series -> foldl (attached start p) m series !! k = m !! k.
Proof.
  induction series as [|s series IH]; intros m Hk; [done|]. cbn [foldl]. cbn in Hk. apply not_elem_of_cons in Hk as [Hne Hk]. rewrite IH by done.
  unfold attached. destruct (nearest _ _ _); [|done]. by rewrite lookup_insert_ne.
Qed.

Lemma attached_own start p (series : list ObservedSeries) (s : ObservedSeries) : forall m,
  NoDup (ob_name <$> series) -> s ∈ series -> m !! ob_name s = None ->
  foldl (attached start p) m series !! ob_name s = nearest (ob_points s) (point_ms start p) (tolerance (ob_points s)).
Proof.
  induction series as [|s' series IH]; intros m Hn Hs Hm; [by apply not_elem_of_nil in Hs|]. cbn [foldl]. cbn in Hn. apply NoDup_cons in Hn as [Hs' Hn].
  apply elem_of_cons in Hs as [<-|Hs].
  - rewrite attached_other by done. unfold attached. destruct (nearest _ _ _); [by rewrite lookup_insert_eq|exact Hm].
  - apply IH; [done|done|]. unfold attached. destruct (nearest (ob_points s') _ _); [|exact Hm]. rewrite lookup_insert_ne; [done|].
    intros Heq. apply Hs'. rewrite Heq. by apply list_elem_of_fmap_2.
Qed.

(** C28: the overlay is the nearest sample.  Attaching series with names of their own to a timeline changes nothing else of it,
    and puts on each point, for each series, the value of the first of the samples nearest to it in time, if one is
    within the tolerance of the series, and no value otherwise. *)
Theorem overlay_exact (started_ms : Z) (timeline : list TimelinePoint) (series : list ObservedSeries) :
  NoDup (ob_name <$> series) -> Forall (fun p => tp_external p = ∅) timeline ->
  Forall (fun p => Forall (fun s => close_times (ob_points s) (point_ms (i64_wrap started_ms) p)) series) timeline ->
  length (attach started_ms timeline series) = length timeline
  /\ forall i p, timeline !! i = Some p -> exists m, attach started_ms timeline series !! i = Some (set_external m p)
       /\ (forall k, k ∉ ob_name <$> series -> m !! k = None)
       /\ forall s v, s ∈ series ->
            (m !! ob_name s = Some v <-> is_nearest (ob_points s) (point_ms (i64_wrap started_ms) p) (tolerance (ob_points s)) v).
Proof.
  intros Hn He Hc. unfold attach. rewrite attach_fold. split; [by rewrite length_fmap|]. intros i p Hp.
  pose proof (list_elem_of_lookup_2 _ _ _ Hp) as Hin. rewrite Forall_forall in He. rewrite Forall_forall in Hc. specialize (He p Hin). specialize (Hc p Hin).
  rewrite list_lookup_fmap, Hp. eexists. split; [done|]. split.
  - intros k Hk. by rewrite attached_other, He.
  - intros s v Hs. rewrite Forall_forall in Hc. rewrite attached_own; [|done|done|by rewrite He]. by apply nearest_exact, Hc.
Qed.

(** ** The ring *)

Definition pushed (cap : Z) {A} (l : list A) : list A := drop (Z.to_nat (Z.of_nat (length l) - cap)) l.

Lemma make_room_drop {A} (l : list A) : make_room l = drop (Z.to_nat (Z.of_nat (length l) - (RING_CAP - 1))) l.
Proof.
  induction l as [|x l IH]; [by rewrite drop_nil|]. cbn [make_room]. unfold RING_CAP in *. destruct (Z.leb_spec 86400 (Z.of_nat (length (x :: l)))) as [Hle|Hgt].
  - rewrite IH. cbn [length] in Hle |- *. replace (Z.to_nat (Z.of_nat (S (length l)) - (86400 - 1))) with (S (Z.to_nat (Z.of_nat (length l) - (86400 - 1)))) by lia.
    done.
  - cbn [length] in Hgt |- *. by replace (Z.to_nat (Z.of_nat (S (length l)) - (86400 - 1))) with 0%nat by lia.
Qed.

(** The samples of one metric, in order. *)
Definition ring_push_all (r : RingSeries) (l : list (Z * f64)) : RingSeries := foldl (fun r p => ring_push r p.1 p.2) r l.

Lemma ring_push_all_points (r : RingSeries) (l : list (Z * f64)) :
  rg_points r = [] -> rg_points (ring_push_all r l) = pushed RING_CAP l.
Proof.
  intros Hr. unfold ring_push_all, pushed. induction l as [|p l IH] using rev_ind; [by rewrite drop_nil|].
  rewrite foldl_snoc. cbn [ring_push rg_points]. rewrite IH, make_room_drop, drop_drop, !length_drop, length_app. destruct p as [t v]. cbn [fst snd length].
  unfold RING_CAP. rewrite drop_app_le by lia. f_equal. f_equal. lia.
Qed.

(** What [/proc] said of a metric, pass after pass. *)
Fixpoint measured (m : SystemMetric) (prev : ProcSnapshot) (passes : list ProcSnapshot) : list (Z * f64) :=
  match passes with
  | [] => []
  | cur :: passes => match iv_value (interval_values prev cur) m with Some v => [(pc_at_ms cur, v)] | None => [] end ++ measured m cur passes
  end.

Lemma ring_push_all_app r l k : ring_push_all r (l ++ k) = ring_push_all (ring_push_all r l) k.
Proof. unfold ring_push_all. by rewrite foldl_app. Qed.

Lemma ring_push_all_fields r l :
  rg_metric (ring_push_all r l) = rg_metric r /\ rg_name (ring_push_all r l) = rg_name r /\ rg_unit (ring_push_all r l) = rg_unit r.
Proof. unfold ring_push_all. induction l as [|p l IH] using rev_ind; [done|]. by rewrite foldl_snoc. Qed.

Lemma sample_loop_eq (passes : list ProcSnapshot) : forall ring prev,
  sample_loop ring prev passes = (fun r => ring_push_all r (measured (rg_metric r) prev passes)) <$> ring.
Proof.
  induction passes as [|cur passes IH]; intros ring prev; cbn [sample_loop measured].
  - symmetry. transitivity (id <$> ring); [by apply list_fmap_ext|]. by rewrite list_fmap_id.
  - rewrite IH. unfold push_values. rewrite <- list_fmap_compose. apply list_fmap_ext. intros i r _. cbn [compose].
    unfold compose. rewrite ring_push_all_app. destruct (iv_value _ _) eqn:Hv; cbn [rg_metric ring_push]; done.
Qed.

(** The host sampler reports what it read.  For every metric a source asks for, the series drained at the end of a run holds the
    values derived from consecutive passes over [/proc], in order, without those that could not be derived, and no older ones
    than the last 86400; a metric without a value has no series. *)
Theorem sampler_exact (prefix : string) (metrics : list SystemMetric) (baseline : ProcSnapshot) (passes : list ProcSnapshot) :
  stop_samplers [sample_loop (ring_for prefix metrics) baseline passes]
  = omap (fun m => match pushed RING_CAP (measured m baseline passes) with
                   | [] => None
                   | points => Some (mkObservedSeries (prefix +:+ "_" +:+ suffix m) (unit_of m) points)
                   end) metrics.
Proof.
  unfold stop_samplers. cbn [concat]. rewrite app_nil_r, sample_loop_eq. unfold ring_for. rewrite <- list_fmap_compose.
  induction metrics as [|m metrics IH]; [done|]. rewrite fmap_cons. cbn [omap list_omap compose]. rewrite IH. unfold compose. cbn [rg_metric].
  rewrite ring_push_all_points by done. destruct (pushed _ _); [done|].
  by destruct (ring_push_all_fields (mkRingSeries m (prefix +:+ "_" +:+ suffix m) (unit_of m) []) (measured m baseline passes)) as (_ & -> & ->).
Qed.

(** ** Disks *)

(** No device counted is virtual, or a partition of one counted before it. *)
Definition devices_ok (l : list (list ascii)) : Prop :=
  forall i d, l !! i = Some d -> virtual_device d = false /\ forall j e, (j < i)%nat -> l !! j = Some e -> is_partition_of d e = false.

Lemma diskstats_line_ok st line : devices_ok (dt_devices st) -> devices_ok (dt_devices (diskstats_line st line)).
Proof.
  intros Hok. unfold diskstats_line. destruct (_ !! 2%nat) as [name|]; [|done]. destruct (_ !! 5%nat); [|done]. destruct (_ !! 9%nat); [|done].
  destruct (virtual_device name) eqn:Hv; [done|]. cbn [orb]. destruct (existsb _ _) eqn:He; [done|].
  destruct (parse_u64 _); [|done]. destruct (parse_u64 _); [|done]. cbn [dt_devices].
  intros i d [[Hi Hd]|[-> <-]]%lookup_snoc_Some.
  - destruct (Hok i d Hd) as [Hd1 Hd2]. split; [done|]. intros j e Hj [[_ Hje]|[-> _]]%lookup_snoc_Some; [by apply (Hd2 j)|lia].
  - split; [done|]. intros j e Hj [[_ Hje]|[-> _]]%lookup_snoc_Some; [|lia]. apply list_elem_of_lookup_2, list_elem_of_In in Hje.
    destruct (is_partition_of name e) eqn:Hp; [|done]. exfalso. assert (existsb (is_partition_of name) (dt_devices st) = true) as Hx; [|by rewrite Hx in He].
    apply existsb_exists. by exists e.
Qed.

Lemma disk_totals_ok (s : string) : devices_ok (dt_devices (disk_totals s)).
Proof.
  unfold disk_totals. induction (str_lines s) as [|l ls IH] using rev_ind; [by intros i d Hi|]. rewrite foldl_snoc. by apply diskstats_line_ok.
Qed.

(** ** Aggregates of a series *)


(** ** Aggregates of a series *)

#[global] Instance sort_le_total : Total sort_le.
Proof.
  intros a b. unfold sort_le, f64_lt, SFltb. destruct (f64_is_nan a) eqn:Ha; [destruct a; try done; left; by destruct b|].
  destruct (f64_is_nan b) eqn:Hb; [destruct b; try done; left; by destruct a|]. rewrite !f64_compare_key by done.
  pose proof (key_compare_spec (f64_key a) (f64_key b)) as H1. pose proof (key_compare_spec (f64_key b) (f64_key a)) as H2.
  destruct (key_compare (f64_key a) (f64_key b)), (key_compare (f64_key b) (f64_key a)); auto. exfalso. unfold key_lt in *. lia.
Qed.

Definition numbers (l : list f64) : Prop := Forall (fun v => f64_is_nan v = false) l.

Lemma sort_le_le (a b : f64) : f64_is_nan a = false -> f64_is_nan b = false -> sort_le a b -> f64_le a b = true.
Proof.
  unfold sort_le. intros Ha Hb Hs. apply f64_le_key; [done|done|]. intros Hk%f64_lt_key; [|done|done]. by rewrite Hk in Hs.
Qed.

Lemma sorted_numbers (l : list f64) : numbers l -> Sorted sort_le l -> StronglySorted (fun a b => f64_le a b = true) l.
Proof.
  intros Hn Hs. apply Sorted_StronglySorted; [intros a b c; apply f64_le_trans|]. induction Hs as [|a l Hs IH Hhd]; [constructor|].
  apply Forall_cons in Hn as [Ha Hn]. constructor; [by apply IH|]. destruct Hhd as [|b l Hab]; constructor. apply Forall_cons in Hn as [Hb _]. by apply sort_le_le.
Qed.

Lemma strongly_sorted_last (l : list f64) (x : f64) : StronglySorted (fun a b => f64_le a b = true) (l ++ [x]) -> Forall (fun v => f64_le v x = true) l.
Proof.
  induction l as [|a l IH]; intros Hs; [constructor|]. cbn [app] in Hs. apply StronglySorted_inv in Hs as [Hs Ha]. constructor; [|by apply IH].
  apply Forall_app in Ha as [_ Ha]. exact (Forall_inv Ha).
Qed.

(** The extremes of a series of numbers are values of it, and bound the others. *)
Lemma observed_extremes (s : ObservedSeries) (agg : AggValues) : observed_agg s = Some agg -> numbers (ob_points s).*2 ->
  exists lo hi, av_min agg = Some lo /\ av_max agg = Some hi /\ lo ∈ (ob_points s).*2 /\ hi ∈ (ob_points s).*2
    /\ Forall (fun v => f64_le lo v = true /\ f64_le v hi = true) (ob_points s).*2.
Proof.
  unfold observed_agg. intros Hagg Hn. destruct (ob_points s) as [|p l] eqn:Hcons; [done|]. rewrite <- Hcons in Hagg, Hn |- *.
  set (values := (ob_points s).*2) in *. injection Hagg as <-. cbn [av_min av_max].
  assert (merge_sort sort_le values ≡ₚ values) as Hperm by apply merge_sort_Permutation.
  assert (StronglySorted (fun a b => f64_le a b = true) (merge_sort sort_le values)) as Hsort.
  { apply sorted_numbers; [|apply Sorted_merge_sort, _]. unfold numbers. by rewrite Hperm. }
  assert (numbers (merge_sort sort_le values)) as Hn' by (unfold numbers; by rewrite Hperm).
  assert (numbers (merge_sort sort_le values) -> merge_sort sort_le values <> [] -> exists lo hi,
    head (merge_sort sort_le values) = Some lo /\ last (merge_sort sort_le values) = Some hi /\ lo ∈ merge_sort sort_le values
    /\ hi ∈ merge_sort sort_le values /\ Forall (fun v => f64_le lo v = true /\ f64_le v hi = true) (merge_sort sort_le values)) as Hends.
  { generalize (merge_sort sort_le values) Hsort. clear. intros l Hsort Hn Hne. destruct l as [|lo l]; [done|].
    destruct (exists_last Hne) as (k & hi & Hk). exists lo, hi. split; [done|]. rewrite Hk, last_snoc. split; [done|].
    split; [rewrite <- Hk; by left|]. split; [apply elem_of_app; right; by left|]. rewrite <- Hk. apply Forall_and. split.
    - apply StronglySorted_inv in Hsort as [_ Hlo]. constructor; [|done]. apply f64_le_refl. exact (Forall_inv Hn).
    - rewrite Hk in Hsort, Hn |- *. apply Forall_app. split; [by apply strongly_sorted_last|]. apply Forall_singleton, f64_le_refl.
      apply Forall_app in Hn as [_ Hn]. exact (Forall_inv Hn). }
  destruct Hends as (lo & hi & Hlo & Hhi & Hl & Hh & Hall); [by unfold numbers; rewrite Hperm| |].
  { intros He. rewrite He in Hperm. symmetry in Hperm. apply Permutation_nil_r in Hperm. unfold values in Hperm. by rewrite Hcons in Hperm. }
  exists lo, hi. rewrite Hperm in Hl, Hh, Hall. done.
Qed.

Section ObservedGate.
Context (humantime_parse_duration : string -> result string Duration).

(** A bound on the extremes of an observed metric is a bound on all its samples: the status of [max < b] or [max <= b] passes
    exactly when every sample satisfies it, and likewise for [min > b] and [min >= b]. *)
Theorem observed_extremes_gate (sel : MetricSelector) (s : ObservedSeries) (agg : AggValues) (entry : ThresholdEntry) (expr : ThresholdExpr) :
  observed_agg s = Some agg -> numbers (ob_points s).*2 -> ThresholdExpr_parse humantime_parse_duration (expression entry) = Some (Ok expr) ->
  (te_agg expr = Max /\ (te_op expr = Threshold.Lt \/ te_op expr = Threshold.Le)) \/ (te_agg expr = Min /\ (te_op expr = Threshold.Gt \/ te_op expr = Threshold.Ge)) ->
  exists status, observe_entry humantime_parse_duration sel agg entry = Some [status]
    /\ (ts_passed status = true <-> Forall (fun v => Op_eval (te_op expr) v (te_bound expr) = true) (ob_points s).*2).
Proof.
  intros Hagg Hn Hexpr Hkind. destruct (observed_extremes s agg Hagg Hn) as (lo & hi & Hlo & Hhi & Hl & Hh & Hall). unfold observe_entry. rewrite Hexpr.
  eexists. split; [done|]. cbn [ts_passed]. rewrite Forall_forall in Hall |- *.
  destruct Hkind as [[Ha Hop]|[Ha Hop]]; rewrite Ha; cbn [value_for]; rewrite ?Hlo, ?Hhi.
  - split; [|by intros Hv; apply Hv]. intros Hb v [_ Hv]%Hall. destruct Hop as [Hop|Hop]; rewrite Hop in *; cbn [Op_eval] in *.
    + by apply (f64_le_lt_trans _ hi).
    + by apply (f64_le_trans _ hi).
  - split; [|by intros Hv; apply Hv]. intros Hb v [Hv _]%Hall. destruct Hop as [Hop|Hop]; rewrite Hop in *; cbn [Op_eval] in *.
    + by apply (f64_lt_le_trans _ lo).
    + by apply (f64_le_trans _ lo).
Qed.
End ObservedGate.

Module ObserveDemo.
Definition cpu : ObservedSeries := mkObservedSeries "system_cpu" "ratio" [(1000, f64_dec 9 1); (2000, f64_dec 8 1); (9000, f64_dec 7 1)].
Definition at_secs (n : Z) : TimelinePoint :=
  mkTimelinePoint (f64_of_Z n) f64_zero f64_zero f64_zero f64_zero None None None None ∅.
Definition timeline : list TimelinePoint := [at_secs 1; at_secs 60].

Lemma overlay_exact_witness :
  (exists m, attach 500 timeline [cpu] !! 0%nat = Some (set_external m (at_secs 1))
    /\ (m !! "system_cpu" = Some (f64_dec 9 1) <-> is_nearest (ob_points cpu) 1500 (tolerance (ob_points cpu)) (f64_dec 9 1)))
  /\ (fun p => tp_external p !! "system_cpu") <$> attach 500 timeline [cpu] = [Some (f64_dec 9 1); None].
Proof.
  split; [|by vm_compute].
  destruct (overlay_exact 500 timeline [cpu]) as [_ Hat].
  - apply NoDup_singleton.
  - by repeat constructor.
  - repeat constructor; by vm_compute.
  - destruct (Hat 0%nat (at_secs 1) eq_refl) as (m & Hm & _ & Hv). exists m. split; [exact Hm|].
    exact (Hv cpu (f64_dec 9 1) (proj2 (elem_of_cons _ _ _) (or_introl eq_refl))).
Defined.

Definition no_durations (s : string) : result string Duration := Err s.
Definition gate (e : string) : ThresholdEntry := Thresholds.Expr e.
Definition sel : MetricSelector := mkMetricSelector "system_cpu" [].
Definition parsed : ThresholdExpr := mkThresholdExpr Max Threshold.Lt (f64_dec 85 2).

Lemma observed_extremes_gate_witness : exists agg status, observed_agg cpu = Some agg
  /\ observe_entry no_durations sel agg (gate "max<0.85") = Some [status]
  /\ (ts_passed status = true <-> Forall (fun v => Op_eval Threshold.Lt v (f64_dec 85 2) = true) (ob_points cpu).*2)
  /\ ts_passed status = false.
Proof.
  destruct (observed_agg cpu) as [agg|] eqn:Hagg; [|by vm_compute in Hagg]. exists agg.
  destruct (observed_extremes_gate no_durations sel cpu agg (gate "max<0.85") parsed) as (status & Hs & Hiff).
  - exact Hagg.
  - repeat constructor.
  - by vm_compute.
  - left. split; [reflexivity|by left].
  - exists status. split; [reflexivity|]. split; [exact Hs|]. split; [exact Hiff|].
    destruct (ts_passed status); [|reflexivity]. destruct Hiff as [Hf _]. specialize (Hf eq_refl). apply Forall_inv in Hf. by vm_compute in Hf.
Defined.

(** A percentile that is not one of four has no value on an observed metric, so its threshold passes. *)
Example unlisted_percentile_passes :
  option_map (List.map (fun st => (ts_observed st, ts_passed st))) (evaluate_thresholds no_durations [("system_cpu", Single "p(75)<0.5")] [cpu])
  = Some [(None, true)].
Proof. vm_compute. reflexivity. Qed.

Example reads_proc :
  parse_proc_stat ("cpu  10 0 10 70 10 0 0 0" +:+ nl) = Some (mkCpuTimes 20 100)
  /\ parse_diskstats (join nl ["8 0 sda 1 0 10 0 1 0 20 0"; "8 1 sda1 1 0 10 0 1 0 20 0"; "7 0 loop0 1 0 10 0 1 0 20 0"]) = Some 30
  /\ parse_net_dev (join nl ["face |bytes"; "lo: 5 0 0 0 0 0 0 0 5"; "eth0: 7 0 0 0 0 0 0 0 8"]) = Some 15.
Proof. vm_compute. done. Qed.
End ObserveDemo.
