(* ===== verification/Sse.v ===== *)
(** * Server-sent events (crates/loadr-protocols/src/sse.rs)

    The incremental parser of the wire format, the limits of a read, the read itself over the frames of a body, and the
    request and response of the handler.  Connections, URLs and header values are the libraries'. *)

From Stdlib Require Import Ascii.
From S2P Require Import Prelude Float64 Str Dur Value Template Protocol Extract Cookies Program Interp Diagnostics Exporters Observe.

Definition EVENTS_CAP : nat := 100.

Record SseEvent := mkSseEvent {
  ev_type : string;
  ev_data : string;
  ev_id : option string;
}.
Definition SseEvent_default : SseEvent := mkSseEvent "" "" None.
Definition SseEvent_to_json (e : SseEvent) : Value :=
  Object [("data", Text (ev_data e)); ("id", match ev_id e with Some id => Text id | None => Null end); ("type", Text (ev_type e))].

Record SseLimits := mkSseLimits {
  sl_max_events : option Z;
  sl_until : option string;
  sl_duration : option Duration;
}.

(** [parse::<f64>().ok().map(Duration::from_secs_f64)], which panics below zero and on what is no duration. *)
Definition secs_opt (s : string) (scale : f64 -> f64) : may_panic (option Duration) :=
  match parse_f64 s with
  | Some v => Some <$> from_secs_f64 (scale v)
  | None => Some None
  end.

Definition parse_duration (raw : string) : may_panic (option Duration) :=
  let raw := trim raw in
  if str_is_empty raw then Some None
  else match strip_suffix raw "ms" with
       | Some num => Some (Duration_from_millis <$> parse_u64 (chars (trim num)))
       | None =>
           match strip_suffix raw "s" with
           | Some num => secs_opt (trim num) id
           | None =>
               match strip_suffix raw "m" with
               | Some num => secs_opt (trim num) (fun m => f64_mul m (f64_of_Z 60))
               | None => secs_opt raw id
               end
           end
       end.

(** [Value::as_u64]. *)
Definition as_u64 (v : Value) : option Z := match v with Num (PosInt u) => Some u | _ => None end.
Definition text_of (v : Value) : option string := match v with Text s => Some s | _ => None end.

Definition from_plugin (plugin : option Value) : may_panic SseLimits :=
  match plugin with
  | Some (Object obj) =>
      let max_events := map_get "events" obj ≫= as_u64 in
      let until := s ← map_get "until" obj ≫= text_of; if str_is_empty s then None else Some s in
      duration ← match map_get "duration" obj ≫= text_of with Some s => parse_duration s | None => Some None end;
      Some (mkSseLimits max_events until duration)
  | _ => Some (mkSseLimits None None None)
  end.

(** ** The parser *)

Record SseParser := mkSseParser {
  sp_buffer : list ascii;
  sp_event_type : option string;
  sp_data : list string;
  sp_id : option string;
  sp_have_fields : bool;
}.
Definition SseParser_default : SseParser := mkSseParser [] None [] None false.

Definition dispatch (p : SseParser) : SseParser * option SseEvent :=
  if negb (sp_have_fields p) then (p, None)
  else
    let event := mkSseEvent (default "message" (sp_event_type p)) (join nl (sp_data p)) (sp_id p) in
    (mkSseParser (sp_buffer p) None [] None false, Some event).

Definition feed_line (p : SseParser) (line : string) : SseParser * option SseEvent :=
  if str_is_empty line then dispatch p
  else if starts_with line ":" then (p, None)
  else
    let '(field, value) :=
      match split_once line ":" with
      | Some (f, v) => (f, default v (strip_prefix v " "))
      | None => (line, "")
      end in
    let buffer := sp_buffer p in
    (if bool_decide (field = "event") then mkSseParser buffer (Some value) (sp_data p) (sp_id p) true
     else if bool_decide (field = "data") then mkSseParser buffer (sp_event_type p) (sp_data p ++ [value]) (sp_id p) true
     else if bool_decide (field = "id") then mkSseParser buffer (sp_event_type p) (sp_data p) (Some value) true
     else mkSseParser buffer (sp_event_type p) (sp_data p) (sp_id p) true,
     None).

(** A line as it is read: a carriage return at its end goes, and what is no UTF-8 is replaced. *)
Definition line_text (line : list ascii) : string := from_utf8_lossy (of_chars (strip_cr line)).

Definition with_buffer (b : list ascii) (p : SseParser) : SseParser := mkSseParser b (sp_event_type p) (sp_data p) (sp_id p) (sp_have_fields p).

(** The [while let] of [push]; every turn shortens the buffer. *)
Fixpoint push_lines (fuel : nat) (p : SseParser) : SseParser * list SseEvent :=
  match fuel with
  | O => (p, [])
  | S fuel =>
      match split_once_l newline (sp_buffer p) with
      | None => (p, [])
      | Some (line, rest) =>
          let '(p, event) := feed_line (with_buffer rest p) (line_text line) in
          let '(p, events) := push_lines fuel p in
          (p, match event with Some e => e :: events | None => events end)
      end
  end.
Definition push (p : SseParser) (chunk : list ascii) : SseParser * list SseEvent :=
  let p := with_buffer (sp_buffer p ++ chunk) p in
  push_lines (S (length (sp_buffer p))) p.

(** ** Reading a body *)

(** What [timeout_at(read_deadline, body.frame())] can give. *)
Inductive BodyFrame :=
| FrameData (bytes : list ascii)
| FrameTrailers
| FrameError (message : string)
| FrameEnd
| FrameTimeout.

Definition enough (limits : SseLimits) (n : nat) : bool :=
  match sl_max_events limits with Some max => Z.leb max (Z.of_nat n) | None => false end.
Definition matches_until (limits : SseLimits) (e : SseEvent) : bool :=
  match sl_until limits with Some needle => str_contains (ev_data e) needle | None => false end.

(** The events of one frame: those kept, and whether the read stops. *)
Fixpoint take_events (limits : SseLimits) (events new : list SseEvent) : list SseEvent * bool :=
  match new with
  | [] => (events, false)
  | e :: new =>
      let events := events ++ [e] in
      if matches_until limits e then (events, true)
      else if enough limits (length events) then (events, true)
      else take_events limits events new
  end.

Record ReadState := mkReadState {
  rd_parser : SseParser;
  rd_events : list SseEvent;
  rd_bytes : Z;
}.
Definition ReadState_new : ReadState := mkReadState SseParser_default [] 0.

(** [read_events] on the frames that come; [None] is a body that gives nothing more, nor ends. *)
Fixpoint read_events (limits : SseLimits) (st : ReadState) (frames : list BodyFrame) : option (list SseEvent * Z * option string) :=
  if enough limits (length (rd_events st)) then Some (rd_events st, rd_bytes st, None)
  else match frames with
       | [] => None
       | FrameTimeout :: _ | FrameEnd :: _ => Some (rd_events st, rd_bytes st, None)
       | FrameError e :: _ => Some (rd_events st, rd_bytes st, Some ("stream read failed: " +:+ e))
       | FrameTrailers :: frames => read_events limits st frames
       | FrameData bytes :: frames =>
           let '(p, new) := push (rd_parser st) bytes in
           let received := u64_add (rd_bytes st) (Z.of_nat (length bytes)) in
           let '(events, stop) := take_events limits (rd_events st) new in
           if stop then Some (events, received, None)
           else read_events limits (mkReadState p events received) frames
       end.

(** ** Request and response *)

Section Handler.
Context (parse_url : string -> result string Url) (valid_method : string -> option string).
Context (valid_name : string -> option string) (valid_value : string -> option string).

Definition normalise_url (raw : string) : result string Url :=
  let rewritten :=
    match strip_prefix raw "sses://" with
    | Some rest => "https://" +:+ rest
    | None => match strip_prefix raw "sse://" with Some rest => "http://" +:+ rest | None => raw end
    end in
  match parse_url rewritten with
  | Err e => Err ("invalid url `" +:+ raw +:+ "`: " +:+ e)
  | Ok url =>
      if bool_decide (url_scheme_part url = "http") || bool_decide (url_scheme_part url = "https") then Ok url
      else Err ("sse handler cannot handle scheme `" +:+ url_scheme_part url +:+ "`")
  end.

Definition authority (scheme host : string) (port : Z) : string :=
  if (bool_decide (scheme = "https") && Z.eqb port 443) || (bool_decide (scheme = "http") && Z.eqb port 80) then host
  else host +:+ ":" +:+ Z_to_string port.

Fixpoint add_headers (l : list (string * string)) : result string (list (string * string)) :=
  match l with
  | [] => Ok []
  | (name, value) :: l =>
      match valid_name name with
      | None => Err ("invalid header `" +:+ name +:+ "`")
      | Some name =>
          match valid_value value with
          | None => Err "invalid header value"
          | Some value => let? rest := add_headers l in Ok ((name, value) :: rest)
          end
      end
  end.

(** The headers of the request, with the cookies for the URL, whose jar forgets what has expired. *)
Definition build_request (now : Z) (jar : CookieJar) (request : PreparedRequest) (url : Url) (host : string) (port : Z) :
    CookieJar * result string (list (string * string)) :=
  match valid_method (to_ascii_uppercase (pr_method request)) with
  | None => (jar, Err "invalid method")
  | Some method =>
      if negb (bool_decide (method = "GET")) then (jar, Err ("sse requires GET, got `" +:+ pr_method request +:+ "`"))
      else
        let own := [("host", authority (url_scheme_part url) host port); ("accept", "text/event-stream");
                    ("cache-control", "no-cache"); ("connection", "keep-alive")] in
        match add_headers (pr_headers request) with
        | Err e => (jar, Err e)
        | Ok given =>
            let '(jar, cookie) := header_for url now jar in
            (jar, match cookie with
                  | None => Ok (own ++ given)
                  | Some c => match valid_value c with
                              | Some c => Ok (own ++ given ++ [("cookie", c)])
                              | None => Err "invalid cookie header"
                              end
                  end)
        end
  end.

(** The response of a stream that was read. *)
Definition sse_response (status : Z) (status_text : string) (headers : list (string * string)) (timings : Timings)
    (bytes_sent : Z) (url : string) (read : list SseEvent * Z * option string) : ProtocolResponse :=
  let '(events, bytes_received, error) := read in
  let last_event := default SseEvent_default (last events) in
  mkResponse status status_text headers (ev_data last_event) timings bytes_sent bytes_received "sse" error url
    (Object [("events", Array (SseEvent_to_json <$> take EVENTS_CAP events)); ("events_received", Num (PosInt (Z.of_nat (length events))));
             ("last_event", SseEvent_to_json last_event)]) [].

(** A transport error is a response without a status. *)
Definition sse_failed (message : string) (timings : Timings) (url : string) : ProtocolResponse :=
  mkResponse 0 "" [] "" timings 0 0 "sse" (Some message) url Null [].
End Handler.

(** ** Chunks do not matter *)

(** The complete lines of a buffer, and what is left. *)
Fixpoint cut (b : list ascii) : list (list ascii) * list ascii :=
  match b with
  | [] => ([], [])
  | c :: b =>
      let '(ls, r) := cut b in
      if Ascii.eqb c newline then ([] :: ls, r)
      else match ls with [] => ([], c :: r) | l :: ls => ((c :: l) :: ls, r) end
  end.

Fixpoint feed_all (p : SseParser) (lines : list (list ascii)) : SseParser * list SseEvent :=
  match lines with
  | [] => (p, [])
  | l :: lines =>
      let '(p, event) := feed_line p (line_text l) in
      let '(p, events) := feed_all p lines in
      (p, match event with Some e => e :: events | None => events end)
  end.

Lemma cut_app (a b : list ascii) :
  cut (a ++ b) = ((cut a).1 ++ (cut ((cut a).2 ++ b)).1, (cut ((cut a).2 ++ b)).2).
Proof.
  induction a as [|c a IH]; cbn [app cut fst snd]; [by destruct (cut b)|]. rewrite IH. destruct (cut a) as [la ra]. cbn [fst snd].
  destruct (Ascii.eqb c newline) eqn:Hc; [done|]. destruct la as [|l la]; cbn [app fst snd]; [|done].
  cbn [cut]. rewrite Hc. destruct (cut (ra ++ b)) as [lb rb]. cbn [fst snd]. by destruct lb.
Qed.

Lemma split_cut (b : list ascii) :
  match split_once_l newline b with
  | Some (l, r) => cut b = (l :: (cut r).1, (cut r).2) /\ (length r < length b)%nat
  | None => cut b = ([], b)
  end.
Proof.
  induction b as [|c b IH]; [done|]. cbn [split_once_l cut]. destruct (Ascii.eqb c newline).
  - destruct (cut b) as [ls r]. cbn. split; [done|lia].
  - destruct (split_once_l newline b) as [[l r]|]; cbn [fmap option_fmap option_map].
    + destruct IH as [-> Hlen]. cbn [length]. split; [done|lia].
    + by rewrite IH.
Qed.

Lemma feed_line_buffer b p line : feed_line (with_buffer b p) line = (with_buffer b (feed_line p line).1, (feed_line p line).2).
Proof.
  unfold feed_line. destruct (str_is_empty line); [unfold dispatch; by destruct p as [? ? ? ? []]|]. destruct (starts_with line ":"); [done|].
  destruct (match split_once line ":" with Some _ => _ | None => _ end) as [field value]. by repeat case_bool_decide.
Qed.

Lemma feed_line_keeps p line : sp_buffer (feed_line p line).1 = sp_buffer p.
Proof.
  unfold feed_line. destruct (str_is_empty line); [unfold dispatch; by destruct p as [? ? ? ? []]|]. destruct (starts_with line ":"); [done|].
  destruct (match split_once line ":" with Some _ => _ | None => _ end) as [field value]. by repeat case_bool_decide.
Qed.

Lemma feed_all_buffer (lines : list (list ascii)) : forall b p, feed_all (with_buffer b p) lines = (with_buffer b (feed_all p lines).1, (feed_all p lines).2).
Proof.
  induction lines as [|l lines IH]; intros b p; [done|]. cbn [feed_all]. rewrite feed_line_buffer. destruct (feed_line p (line_text l)) as [p1 e]. cbn [fst snd].
  rewrite IH. by destruct (feed_all p1 lines).
Qed.

Lemma feed_all_app (l k : list (list ascii)) : forall p,
  feed_all p (l ++ k) = ((feed_all (feed_all p l).1 k).1, (feed_all p l).2 ++ (feed_all (feed_all p l).1 k).2).
Proof.
  induction l as [|x l IH]; intros p; cbn [app feed_all fst snd]; [by destruct (feed_all p k)|]. destruct (feed_line p (line_text x)) as [p1 e]. rewrite IH.
  destruct (feed_all p1 l) as [p2 es]. cbn [fst snd]. destruct e; done.
Qed.

Lemma push_lines_cut (fuel : nat) : forall p, (length (sp_buffer p) < fuel)%nat ->
  push_lines fuel p = (with_buffer (cut (sp_buffer p)).2 (feed_all p (cut (sp_buffer p)).1).1, (feed_all p (cut (sp_buffer p)).1).2).
Proof.
  induction fuel as [|fuel IH]; intros p Hf; [lia|]. cbn [push_lines]. pose proof (split_cut (sp_buffer p)) as Hs.
  destruct (split_once_l newline (sp_buffer p)) as [[l r]|].
  - destruct Hs as [-> Hlen]. cbn [fst snd feed_all]. rewrite feed_line_buffer. destruct (feed_line p (line_text l)) as [p1 e] eqn:Hp1. cbn [fst snd].
    rewrite IH by (cbn; lia). cbn [sp_buffer with_buffer]. rewrite feed_all_buffer. by destruct (feed_all p1 (cut r).1).
  - rewrite Hs. cbn. by destruct p.
Qed.

Lemma push_cut p chunk : push p chunk =
  (with_buffer (cut (sp_buffer p ++ chunk)).2 (feed_all p (cut (sp_buffer p ++ chunk)).1).1, (feed_all p (cut (sp_buffer p ++ chunk)).1).2).
Proof. unfold push. rewrite push_lines_cut by lia. cbn [sp_buffer with_buffer]. by rewrite feed_all_buffer. Qed.

Lemma push_app p a b : push p (a ++ b) = ((push (push p a).1 b).1, (push p a).2 ++ (push (push p a).1 b).2).
Proof.
  rewrite !push_cut. cbn [fst snd sp_buffer with_buffer]. rewrite app_assoc, (cut_app (sp_buffer p ++ a) b). cbn [fst snd].
  rewrite feed_all_app, feed_all_buffer. done.
Qed.

(** The events of a body that came in these chunks. *)
Fixpoint push_all (p : SseParser) (chunks : list (list ascii)) : SseParser * list SseEvent :=
  match chunks with
  | [] => (p, [])
  | c :: chunks => let '(p, es) := push p c in let '(p, rest) := push_all p chunks in (p, es ++ rest)
  end.

Lemma push_nil p : cut (sp_buffer p) = ([], sp_buffer p) -> push p [] = (p, []).
Proof. intros Hb. rewrite push_cut, app_nil_r, Hb. by destruct p. Qed.

Lemma cut_idem (b : list ascii) : cut (cut b).2 = ([], (cut b).2).
Proof.
  induction b as [|c b IH]; [done|]. cbn [cut]. destruct (cut b) as [ls r] eqn:Hb. cbn [snd] in IH. destruct (Ascii.eqb c newline) eqn:Hc; [done|].
  destruct ls as [|l ls]; [|done]. cbn [snd cut]. by rewrite IH, Hc.
Qed.

Lemma push_all_concat (chunks : list (list ascii)) : forall p, cut (sp_buffer p) = ([], sp_buffer p) -> push_all p chunks = push p (concat chunks).
Proof.
  induction chunks as [|c chunks IH]; intros p Hp; [by rewrite push_nil|]. cbn [push_all concat]. rewrite push_app. destruct (push p c) as [p1 es] eqn:Hpc.
  cbn [fst snd]. rewrite IH; [by destruct (push p1 (concat chunks))|]. rewrite push_cut in Hpc. injection Hpc as <- _. cbn. apply cut_idem.
Qed.

(** ** A stream of events is read back *)

(** An event as a server writes it: its type, its lines of data, and its id. *)
Record WireEvent := mkWireEvent {
  we_type : string;
  we_lines : list string;
  we_id : option string;
}.

(** Text of one line: no line end in it, and UTF-8. *)
Definition one_line (s : string) : Prop := newline ∉ chars s /\ byte_at 13 ∉ chars s /\ from_utf8_lossy s = s.
Definition wire_ok (e : WireEvent) : Prop :=
  one_line (we_type e) /\ Forall one_line (we_lines e) /\ match we_id e with Some id => one_line id | None => True end.

Definition wire_lines (e : WireEvent) : list string :=
  ["event: " +:+ we_type e] ++ ((fun l => "data: " +:+ l) <$> we_lines e) ++ match we_id e with Some id => ["id: " +:+ id] | None => [] end ++ [""].
Definition wire (es : list WireEvent) : list ascii := concat ((fun l => chars l ++ [newline]) <$> concat (wire_lines <$> es)).
Definition wire_event (e : WireEvent) : SseEvent := mkSseEvent (we_type e) (join nl (we_lines e)) (we_id e).

Lemma cut_lines (ls : list (list ascii)) : Forall (fun l => newline ∉ l) ls -> cut (concat ((fun l => l ++ [newline]) <$> ls)) = (ls, []).
Proof.
  induction 1 as [|l ls Hl Hls IH]; [done|]. rewrite fmap_cons. cbn [concat]. rewrite <- app_assoc. cbn [app].
  pose proof (split_cut (l ++ newline :: concat ((fun l => l ++ [newline]) <$> ls))) as Hs. rewrite split_once_l_app in Hs by done.
  destruct Hs as [-> _]. by rewrite IH.
Qed.

Lemma lossy_ascii (p l : list ascii) : Forall (fun c => N.ltb (N_of_ascii c) 128 = true) p ->
  lossy_fuel (length (p ++ l)) (p ++ l) = p ++ lossy_fuel (length l) l.
Proof.
  induction 1 as [|c p Hc Hp IH]; [done|]. cbn [app length lossy_fuel]. unfold lossy_chunk. rewrite Hc. cbn [app]. by rewrite IH.
Qed.

Lemma lossy_prefix (p s : string) : forallb (fun c => N.ltb (N_of_ascii c) 128) (chars p) = true -> from_utf8_lossy s = s ->
  from_utf8_lossy (p +:+ s) = p +:+ s.
Proof.
  intros Hp Hs. unfold from_utf8_lossy in *. rewrite chars_app, lossy_ascii.
  - rewrite of_chars_app, Hs, of_chars_chars. done.
  - apply Forall_forall. intros c Hc. apply list_elem_of_In in Hc. by apply (proj1 (forallb_forall _ _) Hp).
Qed.

Lemma strip_cr_none (l : list ascii) : byte_at 13 ∉ l -> strip_cr l = l.
Proof.
  intros Hl. unfold strip_cr. destruct (reverse l) as [|c r] eqn:Hr; [done|]. destruct (Ascii.eqb_spec c (byte_at 13)) as [->|]; [|done].
  exfalso. apply Hl. rewrite <- elem_of_reverse, Hr. by left.
Qed.

Lemma line_text_field (p s : string) : forallb (fun c => N.ltb (N_of_ascii c) 128 && negb (Ascii.eqb c (byte_at 13))) (chars p) = true ->
  one_line s -> line_text (chars (p +:+ s)) = p +:+ s.
Proof.
  intros Hp (Hn & Hcr & Hu). unfold line_text. rewrite strip_cr_none.
  - rewrite of_chars_chars. apply lossy_prefix; [|done]. rewrite forallb_forall in Hp |- *. intros c Hc. by apply Hp, andb_prop in Hc as [? _].
  - rewrite chars_app, elem_of_app. intros [Hin|]; [|done]. apply list_elem_of_In in Hin. rewrite forallb_forall in Hp. apply Hp, andb_prop in Hin as [_ ?]. done.
Qed.

Lemma feed_field p (field v : string) : one_line v -> field <> "" -> ":"%char ∉ chars field ->
  forallb (fun c => N.ltb (N_of_ascii c) 128 && negb (Ascii.eqb c (byte_at 13))) (chars (field +:+ ": ")) = true ->
  feed_line p (line_text (chars (field +:+ ": " +:+ v))) = feed_line p (field +:+ ": " +:+ v)
  /\ split_once (field +:+ ": " +:+ v) ":" = Some (field, " " +:+ v)
  /\ str_is_empty (field +:+ ": " +:+ v) = false /\ starts_with (field +:+ ": " +:+ v) ":" = false.
Proof.
  intros Hv Hf Hcolon Hascii. rewrite <- str_app_assoc, line_text_field by done. split; [done|]. rewrite str_app_assoc. split; [|split].
  - unfold split_once. rewrite chars_app. change (chars (": " +:+ v)) with (":"%char :: chars (" " +:+ v)). rewrite split_once_l_app by done. cbn. by rewrite !of_chars_chars.
  - destruct field; [done|]. done.
  - destruct (starts_with _ _) eqn:Hs; [|done]. apply starts_with_spec in Hs as [r Hr]. exfalso. apply (f_equal chars) in Hr. rewrite !chars_app in Hr.
    destruct field as [|c field]; [done|]. cbn in Hr. injection Hr as -> _. apply Hcolon. by left.
Qed.

Lemma feed_data (lines : list string) : forall b t d i h, Forall one_line lines ->
  feed_all (mkSseParser b t d i h) ((fun l => chars ("data: " +:+ l)) <$> lines) = (mkSseParser b t (d ++ lines) i (h || negb (bool_decide (lines = []))), []).
Proof.
  induction lines as [|l lines IH]; intros b t d i h Hl; [cbn; by rewrite app_nil_r, orb_false_r|]. apply Forall_cons in Hl as [Hl Hlines].
  rewrite fmap_cons. cbn [feed_all].
  destruct (feed_field (mkSseParser b t d i h) "data" l Hl) as (Hf & Hsp & He & Hst); [done|apply (bool_decide_unpack _); by vm_compute|by vm_compute|].
  change ("data" +:+ ": " +:+ l) with ("data: " +:+ l) in *. rewrite Hf. unfold feed_line. rewrite He, Hst, Hsp.
  rewrite (proj2 (strip_prefix_Some (" " +:+ l) " " l) eq_refl). cbn [default]. cbv beta iota. rewrite bool_decide_false, bool_decide_true by done. cbn [sp_buffer sp_event_type sp_data sp_id].
  rewrite IH by done. rewrite <- app_assoc. cbn. by rewrite orb_true_r.
Qed.

Definition clean (b : list ascii) : SseParser := mkSseParser b None [] None false.

Lemma feed_named (field v : string) p : one_line v -> field = "event" \/ field = "id" ->
  feed_line p (line_text (chars (field +:+ ": " +:+ v)))
  = (if bool_decide (field = "event") then mkSseParser (sp_buffer p) (Some v) (sp_data p) (sp_id p) true
     else mkSseParser (sp_buffer p) (sp_event_type p) (sp_data p) (Some v) true, None).
Proof.
  intros Hv Hfield.
  destruct (feed_field p field v Hv) as (Hf & Hsp & He & Hst); [by destruct Hfield as [-> | ->]|destruct Hfield as [-> | ->]; apply (bool_decide_unpack _); by vm_compute|destruct Hfield as [-> | ->]; by vm_compute|].
  rewrite Hf. unfold feed_line. rewrite He, Hst, Hsp, (proj2 (strip_prefix_Some (" " +:+ v) " " v) eq_refl). cbn [default]. cbv beta iota. by destruct Hfield as [-> | ->].
Qed.

Lemma feed_event b (e : WireEvent) : wire_ok e -> feed_all (clean b) (chars <$> wire_lines e) = (clean b, [wire_event e]).
Proof.
  intros (Ht & Hl & Hi). unfold wire_lines. cbn [app]. rewrite fmap_cons. cbn [feed_all].
  pose proof (feed_named "event" (we_type e) (clean b) Ht (or_introl eq_refl)) as Hev. rewrite bool_decide_true in Hev by done.
  change ("event" +:+ ": " +:+ we_type e) with ("event: " +:+ we_type e) in Hev. rewrite Hev. cbn [clean sp_buffer sp_data sp_id]. rewrite fmap_app, feed_all_app.
  rewrite <- list_fmap_compose. unfold compose. rewrite (feed_data (we_lines e)) by done. cbn [fst snd app orb].
  destruct (we_id e) as [id|] eqn:Hid; cbn [app]; rewrite ?fmap_cons; cbn [feed_all fmap list_fmap].
  - pose proof (feed_named "id" id (mkSseParser b (Some (we_type e)) (we_lines e) None true) Hi (or_intror eq_refl)) as Hni.
    rewrite bool_decide_false in Hni by done. change ("id" +:+ ": " +:+ id) with ("id: " +:+ id) in Hni. rewrite Hni. unfold wire_event. by rewrite Hid.
  - unfold wire_event. by rewrite Hid.
Qed.

Lemma feed_events b (es : list WireEvent) : Forall wire_ok es -> feed_all (clean b) (chars <$> concat (wire_lines <$> es)) = (clean b, wire_event <$> es).
Proof.
  induction 1 as [|e es He Hes IH]; [done|]. rewrite fmap_cons. cbn [concat]. rewrite fmap_app, feed_all_app, feed_event by done. cbn [fst snd]. by rewrite IH.
Qed.

Lemma field_line_no_newline (p s : string) : bool_decide (newline ∉ chars p) = true -> newline ∉ chars s -> newline ∉ chars (p +:+ s).
Proof. intros Hp%bool_decide_eq_true Hs. rewrite chars_app, elem_of_app. tauto. Qed.

Lemma wire_lines_no_newline (e : WireEvent) : wire_ok e -> Forall (fun l => newline ∉ l) (chars <$> wire_lines e).
Proof.
  intros ((Ht & _) & Hl & Hi). unfold wire_lines. cbn [app]. rewrite fmap_cons, !fmap_app. constructor; [by apply field_line_no_newline|]. apply Forall_app. split; [|apply Forall_app; split].
  - rewrite <- list_fmap_compose. apply Forall_fmap. eapply Forall_impl; [exact Hl|]. intros l [Hn _]. by apply field_line_no_newline.
  - destruct (we_id e); [|constructor]. apply Forall_singleton. destruct Hi as [Hn _]. by apply field_line_no_newline.
  - apply Forall_singleton. intros ?%not_elem_of_nil. done.
Qed.

(** A stream of server-sent events is read back whatever its packets.  However the text of some events is cut into
    chunks, the parser gives those events, in order, each once, with the lines of their data joined. *)
Theorem sse_chunks_exact (es : list WireEvent) (chunks : list (list ascii)) :
  Forall wire_ok es -> concat chunks = wire es -> push_all SseParser_default chunks = (SseParser_default, wire_event <$> es).
Proof.
  intros Hes Hc. rewrite push_all_concat, Hc by done. rewrite push_cut. cbn [sp_buffer SseParser_default app].
  assert (cut (wire es) = (chars <$> concat (wire_lines <$> es), [])) as ->.
  { unfold wire. rewrite <- cut_lines.
    - by rewrite <- list_fmap_compose.
    - clear Hc. induction Hes as [|e es He Hes IH]; [constructor|]. rewrite fmap_cons. cbn [concat]. rewrite fmap_app. apply Forall_app. by split; [apply wire_lines_no_newline|]. }
  cbn [fst snd]. change SseParser_default with (clean []) at 1 2. by rewrite feed_events.
Qed.

(** ** What a read keeps *)

Definition stops (limits : SseLimits) (i : nat) (e : SseEvent) : bool := matches_until limits e || enough limits (S i).
(** The events up to the first that stops the read; [i] come before. *)
Fixpoint kept_from (limits : SseLimits) (i : nat) (es : list SseEvent) : list SseEvent :=
  match es with
  | [] => []
  | e :: es => e :: (if stops limits i e then [] else kept_from limits (S i) es)
  end.
Fixpoint stopped_from (limits : SseLimits) (i : nat) (es : list SseEvent) : bool :=
  match es with [] => false | e :: es => stops limits i e || stopped_from limits (S i) es end.
Definition kept (limits : SseLimits) (es : list SseEvent) : list SseEvent := if enough limits 0 then [] else kept_from limits 0 es.

(** The bytes of the data before the body ends. *)
Fixpoint frame_data (frames : list BodyFrame) : list (list ascii) :=
  match frames with
  | FrameData bytes :: frames => bytes :: frame_data frames
  | FrameTrailers :: frames => frame_data frames
  | _ => []
  end.

Lemma take_events_kept limits (new : list SseEvent) : forall acc,
  take_events limits acc new = (acc ++ kept_from limits (length acc) new, stopped_from limits (length acc) new).
Proof.
  induction new as [|e new IH]; intros acc; cbn [take_events kept_from stopped_from]; [by rewrite app_nil_r|]. unfold stops.
  rewrite length_app. cbn [length]. rewrite Nat.add_1_r. destruct (matches_until limits e); [done|]. destruct (enough limits (S (length acc))); [done|].
  rewrite IH, length_app. cbn [length orb]. by rewrite Nat.add_1_r, <- app_assoc.
Qed.

Lemma kept_from_app limits (a b : list SseEvent) : forall i,
  kept_from limits i (a ++ b) = kept_from limits i a ++ (if stopped_from limits i a then [] else kept_from limits (i + length a) b).
Proof.
  induction a as [|e a IH]; intros i; cbn [app kept_from stopped_from length]; [by rewrite Nat.add_0_r|].
  destruct (stops limits i e); cbn [orb app]; [done|]. rewrite IH. by rewrite Nat.add_succ_r.
Qed.

Lemma kept_unstopped limits (es : list SseEvent) : forall i, stopped_from limits i es = false -> kept_from limits i es = es.
Proof.
  induction es as [|e es IH]; intros i; cbn; [done|]. destruct (stops limits i e); [done|]. intros Hs. by rewrite IH.
Qed.

Lemma unstopped_room limits (es : list SseEvent) : forall i, enough limits i = false -> stopped_from limits i es = false -> enough limits (i + length es) = false.
Proof.
  induction es as [|e es IH]; intros i Hi; cbn [stopped_from length]; [by rewrite Nat.add_0_r|]. intros [Hs Hes]%orb_false_elim.
  unfold stops in Hs. apply orb_false_elim in Hs as [_ Hs]. rewrite Nat.add_succ_r. exact (IH (S i) Hs Hes).
Qed.

Lemma read_events_kept limits (frames : list BodyFrame) : forall st events bytes error,
  enough limits (length (rd_events st)) = false -> read_events limits st frames = Some (events, bytes, error) ->
  events = rd_events st ++ kept_from limits (length (rd_events st)) (push_all (rd_parser st) (frame_data frames)).2.
Proof.
  induction frames as [|f frames IH]; intros st events bytes error Henough; cbn [read_events]; rewrite Henough; [done|].
  destruct f as [chunk| |msg| |]; cbn [frame_data push_all snd].
  - destruct (push (rd_parser st) chunk) as [p new]. rewrite take_events_kept. destruct (stopped_from limits (length (rd_events st)) new) eqn:Hstop.
    + intros [= <- <- <-]. destruct (push_all p (frame_data frames)) as [p' rest]. cbn [snd]. by rewrite kept_from_app, Hstop, app_nil_r.
    + rewrite kept_unstopped by done. intros Hr.
      apply IH in Hr; cbn [rd_events rd_parser] in *; [|rewrite length_app; by apply unstopped_room].
      rewrite Hr. destruct (push_all p (frame_data frames)) as [p' rest]. cbn [snd]. rewrite kept_from_app, Hstop, (kept_unstopped limits new) by done.
      by rewrite length_app, <- app_assoc.
  - intros Hr. by apply IH in Hr.
  - intros [= <- _ _]. by rewrite app_nil_r.
  - intros [= <- _ _]. by rewrite app_nil_r.
  - intros [= <- _ _]. by rewrite app_nil_r.
Qed.

(** C26: what a read returns depends on the bytes and not on their packets: the events of the whole body up to the first that
    reaches the number asked for or holds the text waited for, that one included, and all of them when none does. *)
Theorem read_events_exact (limits : SseLimits) (frames : list BodyFrame) (events : list SseEvent) (bytes : Z) (error : option string) :
  read_events limits ReadState_new frames = Some (events, bytes, error) ->
  events = kept limits (push SseParser_default (concat (frame_data frames))).2.
Proof.
  unfold kept. destruct (enough limits 0) eqn:He.
  - destruct frames; cbn [read_events rd_events ReadState_new length]; rewrite He; by intros [= <- _ _].
  - intros Hr. apply read_events_kept in Hr; [|done]. cbn [rd_events rd_parser ReadState_new app length] in Hr. by rewrite push_all_concat in Hr.
Qed.

Module SseDemo.
Definition two : list WireEvent := [mkWireEvent "tick" ["a"; "b"] None; mkWireEvent "end" [] (Some "7")].
Definition pieces : list (list ascii) := [take 5 (wire two); take 20 (drop 5 (wire two)); drop 25 (wire two)].

Lemma two_ok : Forall wire_ok two.
Proof. repeat constructor; apply (bool_decide_unpack _); by vm_compute. Qed.

Lemma sse_chunks_exact_witness :
  push_all SseParser_default pieces = (SseParser_default, [mkSseEvent "tick" ("a" +:+ nl +:+ "b") None; mkSseEvent "end" "" (Some "7")]).
Proof. exact (sse_chunks_exact two pieces two_ok eq_refl). Defined.

Definition first_only : SseLimits := mkSseLimits (Some 1) None None.
Definition packets : list BodyFrame := [FrameData (take 30 (wire two)); FrameTrailers; FrameData (drop 30 (wire two)); FrameEnd].
Definition one_read : list SseEvent := [mkSseEvent "tick" ("a" +:+ nl +:+ "b") None].

Lemma read_events_exact_witness :
  one_read = kept first_only (push SseParser_default (concat (frame_data packets))).2 /\ length (frame_data packets) = 2%nat.
Proof. split; [|reflexivity]. apply (read_events_exact first_only packets one_read 30 None). vm_compute. reflexivity. Defined.

(** A block without data is an event, and counts as one. *)
Example retry_is_an_event : (push SseParser_default (chars ("retry: 3000" +:+ nl +:+ nl))).2 = [mkSseEvent "message" "" None].
Proof. vm_compute. reflexivity. Qed.

Example negative_duration_panics : from_plugin (Some (Object [("duration", Text "-1s")])) = None.
Proof. vm_compute. reflexivity. Qed.
End SseDemo.
