(* ===== verification/Net.v ===== *)
(** * Connecting to a host (crates/loadr-protocols/src/net.rs)

    The race between the addresses of a host: attempts start in an order that alternates the two families, one after another
    when the previous one fails or the delay elapses.  What an attempt gives is the network's. *)

From S2P Require Import Prelude Float64 Str.

Definition HAPPY_EYEBALLS_DELAY : Duration := Duration_from_millis 250.

Section Net.
Context {Addr Stream : Type} `{EqDecision Addr} (is_ipv6 : Addr -> bool) (addr_to_string : Addr -> string).

(** The loop of [interleave_address_families]. *)
Fixpoint alternate (fuel : nat) (preferred alternate_ : list Addr) : list Addr :=
  match fuel with
  | O => []
  | S fuel =>
      match preferred, alternate_ with
      | [], [] => []
      | p :: preferred, [] => p :: alternate fuel preferred []
      | [], a :: alternate_ => a :: alternate fuel [] alternate_
      | p :: preferred, a :: alternate_ => p :: a :: alternate fuel preferred alternate_
      end
  end.
Definition interleave_address_families (addrs : list Addr) : list Addr :=
  match addrs with
  | [] => []
  | first :: _ =>
      let ipv6 := List.filter is_ipv6 addrs in
      let ipv4 := List.filter (fun a => negb (is_ipv6 a)) addrs in
      if is_ipv6 first then alternate (length addrs) ipv6 ipv4 else alternate (length addrs) ipv4 ipv6
  end.

Record Race := mkRace {
  rc_remaining : list Addr;
  rc_attempts : list Addr;
  rc_delay_at : Z;
  rc_errors : list (Addr * string);
}.

Inductive RaceEvent :=
| AttemptDone (addr : Addr) (outcome : result string Stream)
| DelayElapsed.

Fixpoint remove_one (a : Addr) (l : list Addr) : option (list Addr) :=
  match l with
  | [] => None
  | x :: l => if decide (x = a) then Some l else (fun l => x :: l) <$> remove_one a l
  end.

Definition all_failed (errors : list (Addr * string)) : string :=
  "all connection attempts failed (" +:+ join "; " ((fun ae => addr_to_string ae.1 +:+ ": " +:+ ae.2) <$> errors) +:+ ")".

(** One turn of the [select!]; [None] when the event cannot happen. *)
Definition race_step (now : Z) (r : Race) (ev : RaceEvent) : option (Race + result string Stream) :=
  match ev with
  | AttemptDone addr outcome =>
      match remove_one addr (rc_attempts r) with
      | None => None
      | Some attempts =>
          match outcome with
          | Ok stream => Some (inr (Ok stream))
          | Err e =>
              let errors := rc_errors r ++ [(addr, e)] in
              match rc_remaining r with
              | next :: remaining => Some (inl (mkRace remaining (attempts ++ [next]) (now + HAPPY_EYEBALLS_DELAY) errors))
              | [] => if bool_decide (attempts = []) then Some (inr (Err (all_failed errors)))
                      else Some (inl (mkRace [] attempts (rc_delay_at r) errors))
              end
          end
      end
  | DelayElapsed =>
      match rc_remaining r with
      | next :: remaining =>
          if Z.leb (rc_delay_at r) now
          then Some (inl (mkRace remaining (rc_attempts r ++ [next]) (now + HAPPY_EYEBALLS_DELAY) (rc_errors r)))
          else None
      | [] => None
      end
  end.

Definition race_start (now : Z) (addrs : list Addr) : Race + result string Stream :=
  match interleave_address_families addrs with
  | [] => inr (Err "cannot connect without a resolved address")
  | first :: remaining => inl (mkRace remaining [first] (now + HAPPY_EYEBALLS_DELAY) [])
  end.

(** [connect_tcp] under a schedule of events with their times. *)
Fixpoint race_run (st : Race + result string Stream) (schedule : list (Z * RaceEvent)) : option (Race + result string Stream) :=
  match schedule with
  | [] => Some st
  | (now, ev) :: schedule =>
      match st with
      | inr _ => None
      | inl r => st ← race_step now r ev; race_run st schedule
      end
  end.
Definition connect_tcp (now : Z) (addrs : list Addr) (schedule : list (Z * RaceEvent)) : option (Race + result string Stream) :=
  race_run (race_start now addrs) schedule.

(** ** The order of the addresses *)

Lemma alternate_perm (fuel : nat) : forall p a, (length p + length a <= fuel)%nat -> alternate fuel p a ≡ₚ p ++ a.
Proof.
  induction fuel as [|fuel IH]; intros p a Hf; [by destruct p, a; cbn in Hf; try lia|]. destruct p as [|x p], a as [|y a]; cbn [alternate app length] in *; [done| | |].
  - by rewrite IH by (cbn; lia).
  - by rewrite IH by (cbn; lia).
  - rewrite IH by lia. by rewrite Permutation_middle.
Qed.

Lemma filter_split (P : Addr -> bool) (l : list Addr) : List.filter P l ++ List.filter (fun a => negb (P a)) l ≡ₚ l.
Proof. induction l as [|x l IH]; [done|]. cbn. destruct (P x); cbn; [by rewrite IH|]. by rewrite <- Permutation_middle, IH. Qed.

Lemma interleave_perm (addrs : list Addr) : interleave_address_families addrs ≡ₚ addrs.
Proof.
  unfold interleave_address_families. destruct addrs as [|x l]; [done|]. set (addrs := x :: l).
  assert (length (List.filter is_ipv6 addrs) + length (List.filter (fun a => negb (is_ipv6 a)) addrs) = length addrs)%nat as Hlen.
  { rewrite <- length_app. by rewrite (filter_split is_ipv6 addrs). }
  destruct (is_ipv6 x); (rewrite alternate_perm by lia); [apply filter_split|]. by rewrite Permutation_app_comm, filter_split.
Qed.

Lemma alternate_filter (P : Addr -> bool) (fuel : nat) : forall p a, (length p + length a <= fuel)%nat ->
  List.filter P p = p -> List.filter P a = [] -> List.filter P (alternate fuel p a) = p /\ List.filter P (alternate fuel a p) = p.
Proof.
  assert (forall x l, List.filter P (x :: l) = x :: l -> P x = true /\ List.filter P l = l) as Hcons.
  { intros x l. cbn. destruct (P x) eqn:Hx; [by intros [= ->]|]. intros Hl. exfalso. pose proof (filter_split P l) as Hs. rewrite Hl in Hs.
    apply Permutation_length in Hs. rewrite length_app in Hs. cbn in Hs. lia. }
  assert (forall x l, List.filter P (x :: l) = [] -> P x = false /\ List.filter P l = []) as Hnone.
  { intros x l. cbn. by destruct (P x). }
  induction fuel as [|fuel IH]; intros p a Hf Hp Ha; [by destruct p, a; cbn in Hf; try lia|].
  destruct p as [|x p], a as [|y a]; cbn [alternate length] in *; [done| | |].
  - apply Hnone in Ha as [Hy Ha]. cbn [List.filter]. rewrite Hy. destruct (IH [] a) as [-> ->]; [cbn; lia|done|done|]. done.
  - apply Hcons in Hp as [Hx Hp]. cbn [List.filter]. rewrite Hx. destruct (IH p []) as [-> ->]; [cbn; lia|done|done|]. done.
  - apply Hnone in Ha as [Hy Ha]. apply Hcons in Hp as [Hx Hp]. cbn [List.filter]. rewrite Hx, Hy. destruct (IH p a) as [-> ->]; [lia|done|done|]. done.
Qed.

Lemma filter_idem (P : Addr -> bool) (l : list Addr) : List.filter P (List.filter P l) = List.filter P l.
Proof. induction l as [|x l IH]; [done|]. cbn. destruct (P x) eqn:Hx; cbn; by rewrite ?Hx, IH. Qed.
Lemma filter_neg (P : Addr -> bool) (l : list Addr) : List.filter P (List.filter (fun a => negb (P a)) l) = [].
Proof. induction l as [|x l IH]; [done|]. cbn. destruct (P x) eqn:Hx; cbn; by rewrite ?Hx, IH. Qed.

(** The order of the resolver is kept within each family. *)
Lemma interleave_stable (addrs : list Addr) :
  List.filter is_ipv6 (interleave_address_families addrs) = List.filter is_ipv6 addrs.
Proof.
  unfold interleave_address_families. destruct addrs as [|x l]; [done|]. set (addrs := x :: l).
  destruct (alternate_filter is_ipv6 (length addrs) (List.filter is_ipv6 addrs) (List.filter (fun a => negb (is_ipv6 a)) addrs)) as [H1 H2].
  - rewrite <- length_app. by rewrite (filter_split is_ipv6 addrs).
  - apply filter_idem.
  - apply filter_neg.
  - by destruct (is_ipv6 x).
Qed.

(** ** The race *)

Record race_ok (addrs : list Addr) (r : Race) : Prop := {
  ro_all : (rc_errors r).*1 ++ rc_attempts r ++ rc_remaining r ≡ₚ addrs;
  ro_live : rc_attempts r <> [];
}.

Lemma remove_one_perm (a : Addr) (l k : list Addr) : remove_one a l = Some k -> l ≡ₚ a :: k.
Proof.
  revert k. induction l as [|x l IH]; intros k; cbn; [done|]. destruct (decide (x = a)) as [->|]; [by intros [= ->]|].
  destruct (remove_one a l) as [l'|] eqn:Hl; [|done]. intros [= <-]. rewrite (IH l') by done. apply Permutation_swap.
Qed.

Definition work (r : Race) : nat := 2 * length (rc_remaining r) + length (rc_attempts r).

Lemma race_step_ok addrs now r ev st : race_ok addrs r -> race_step now r ev = Some st ->
  match st with
  | inl r' => race_ok addrs r' /\ (work r' < work r)%nat
  | inr (Err msg) => exists errors, errors.*1 ≡ₚ addrs /\ msg = all_failed errors
  | inr (Ok stream) => exists addr, ev = AttemptDone addr (Ok stream) /\ addr ∈ addrs
  end.
Proof.
  intros [Hall Hlive]. unfold race_step, work. destruct ev as [addr outcome|].
  - destruct (remove_one addr (rc_attempts r)) as [attempts|] eqn:Hr; [|done]. apply remove_one_perm in Hr.
    pose proof (Permutation_length Hr) as Hlen. cbn [length] in Hlen. rewrite Hr in Hall. destruct outcome as [stream|e].
    + intros [= <-]. exists addr. split; [done|]. rewrite <- Hall. apply elem_of_app. right. by left.
    + destruct (rc_remaining r) as [|next remaining] eqn:Hrem.
      * case_bool_decide as Hempty; intros [= <-].
        -- exists (rc_errors r ++ [(addr, e)]). split; [|done]. rewrite fmap_app. subst attempts. exact Hall.
        -- split; [|cbn [rc_remaining rc_attempts length] in *; lia]. split; [|done]. cbn [rc_errors rc_attempts rc_remaining]. rewrite fmap_app. cbn. by rewrite <- app_assoc.
      * intros [= <-]. split; [|cbn [rc_remaining rc_attempts]; rewrite length_app; cbn [length] in *; lia]. split; [|by cbn; destruct attempts].
        cbn [rc_errors rc_attempts rc_remaining]. rewrite fmap_app. cbn. by rewrite <- !app_assoc.
  - destruct (rc_remaining r) as [|next remaining] eqn:Hrem; [done|]. destruct (Z.leb _ _); [|done]. intros [= <-].
    split; [|cbn [rc_remaining rc_attempts]; rewrite length_app; cbn [length]; lia]. split; [|by cbn; destruct (rc_attempts r)].
    cbn [rc_errors rc_attempts rc_remaining]. by rewrite <- app_assoc.
Qed.

Lemma race_start_ok (now : Z) (addrs : list Addr) : addrs <> [] ->
  exists r, race_start now addrs = inl r /\ race_ok addrs r /\ (work r < 2 * length addrs)%nat.
Proof.
  intros Hne. unfold race_start. pose proof (interleave_perm addrs) as Hp. destruct (interleave_address_families addrs) as [|first remaining].
  - by apply Permutation_nil_l in Hp.
  - eexists. split; [done|]. split; [split; [by cbn|done]|]. rewrite <- Hp. unfold work. cbn [rc_remaining rc_attempts length]. lia.
Qed.

Lemma race_run_ok addrs (schedule : list (Z * RaceEvent)) : forall r st, race_ok addrs r -> race_run (inl r) schedule = Some st ->
  match st with
  | inl r' => race_ok addrs r' /\ (work r' + length schedule <= work r)%nat
  | inr (Err msg) => (exists errors, errors.*1 ≡ₚ addrs /\ msg = all_failed errors) /\ (length schedule <= S (work r))%nat
  | inr (Ok stream) => (exists now addr, last schedule = Some (now, AttemptDone addr (Ok stream)) /\ addr ∈ addrs) /\ (length schedule <= S (work r))%nat
  end.
Proof.
  induction schedule as [|[now ev] schedule IH]; intros r st Hok; cbn [race_run]; [intros [= <-]; cbn; split; [done|lia]|].
  destruct (race_step now r ev) as [st1|] eqn:Hs; [|done]. cbn [mbind option_bind]. pose proof (race_step_ok addrs now r ev st1 Hok Hs) as Hst. destruct st1 as [r1|o].
  - destruct Hst as [Hok1 Hw]. intros Hr. specialize (IH r1 st Hok1 Hr). cbn [length]. destruct st as [r'|[stream|msg]].
    + destruct IH as [? ?]. split; [done|lia].
    + destruct IH as [(n & a & Hlast & Hin) ?]. split; [|lia]. exists n, a. split; [|done]. by destruct schedule.
    + destruct IH as [? ?]. split; [done|lia].
  - destruct schedule as [|[n e] schedule]; cbn [race_run]; [|done]. intros [= <-]. destruct o as [stream|msg]; cbn [length last].
    + destruct Hst as (a & -> & Hin). split; [|lia]. by exists now, a.
    + split; [done|lia].
Qed.

(** C25: connecting gives up on no address: under every schedule of answers and delays, [connect_tcp] fails only after an attempt to each
    address has failed, with all their errors, and succeeds only with the stream of an address of the host; it takes at most two
    steps per address, and until then an attempt is in flight. *)
Theorem connect_exhaustive (now : Z) (addrs : list Addr) (schedule : list (Z * RaceEvent)) st :
  addrs <> [] -> connect_tcp now addrs schedule = Some st ->
  (length schedule <= 2 * length addrs)%nat
  /\ match st with
     | inl r => rc_attempts r <> []
     | inr (Err msg) => exists errors, errors.*1 ≡ₚ addrs /\ msg = all_failed errors
     | inr (Ok stream) => exists at_ addr, last schedule = Some (at_, AttemptDone addr (Ok stream)) /\ addr ∈ addrs
     end.
Proof.
  intros Hne. destruct (race_start_ok now addrs Hne) as (r & Hr & Hok & Hw). unfold connect_tcp. rewrite Hr. intros Hrun.
  pose proof (race_run_ok addrs schedule r st Hok Hrun) as Hend. destruct st as [r'|[stream|msg]].
  - destruct Hend as [[_ Hlive] ?]. split; [lia|done].
  - destruct Hend as [? ?]. split; [lia|done].
  - destruct Hend as [? ?]. split; [lia|done].
Qed.
End Net.

Module NetDemo.
(** An address is its number; the even ones are of IPv6. *)
Definition v6 (a : nat) : bool := Nat.even a.
Definition show (a : nat) : string := Z_to_string (Z.of_nat a).
Definition hosts : list nat := [2; 4; 1; 3]%nat.

Example order : interleave_address_families v6 hosts = [2; 1; 4; 3]%nat.
Proof. reflexivity. Qed.

Definition schedule : list (Z * RaceEvent (Addr := nat) (Stream := nat)) :=
  [(5, AttemptDone 2%nat (Err "refused")); (Duration_from_millis 255, DelayElapsed); (Duration_from_millis 300, AttemptDone 1%nat (Ok 77%nat))]
  .

Lemma connect_exhaustive_witness : exists at_ addr, last schedule = Some (at_, AttemptDone addr (Ok 77%nat)) /\ addr ∈ hosts.
Proof.
  assert (hosts <> []) as Hne by discriminate.
  exact (proj2 (connect_exhaustive v6 show 0 hosts schedule (inr (Ok 77%nat)) Hne eq_refl)).
Defined.
End NetDemo.
