(* ===== verification/Http.v ===== *)
(** * HTTP (crates/loadr-protocols/src/http.rs, graphql.rs)

    One hop with its connection pool, headers and cookies, the loop that follows redirects, and the cache, over a network
    that is a parameter: hyper, TLS, sockets and the clock.  A deadline can elapse at every await of it. *)

From Stdlib Require Import Ascii.
From S2P Require Import Prelude Float64 Str Dur Value Template Protocol Extract Cookies Program Interp Exporters Observe.

(** What the handler reads of a parsed URL; [hu_port] is the port when it is not the default one. *)
Record HttpUrl := mkHttpUrl {
  hu_url : Url;
  hu_port : option Z;
  hu_known_port : option Z;
  hu_query : option string;
  hu_str : string;
}.
Definition scheme_of (u : HttpUrl) : string := url_scheme_part (hu_url u).
Definition hu_path (u : HttpUrl) : string := url_path (hu_url u).

Definition DEFAULT_USER_AGENT : string := "loadr/0.1".

Record HttpHandler := mkHttpHandler {
  hh_prior_knowledge : bool;
  hh_compression : bool;
  hh_keep_alive : bool;
  hh_proxy : option HttpUrl;
  hh_discard_bodies : bool;
  hh_tracing : bool;
  hh_hosts : gmap string string;
  hh_cache : bool;
}.

(** ** Headers: a list of lower-case names and values *)

Definition Headers : Type := list (string * string).
Definition has_header (name : string) (hs : Headers) : bool := existsb (fun kv => bool_decide (kv.1 = name)) hs.
Definition get_header (name : string) (hs : Headers) : option string := snd <$> List.find (fun kv => bool_decide (kv.1 = name)) hs.
(** [HeaderMap::insert]: the first value is replaced, the others go. *)
Fixpoint insert_header (name value : string) (hs : Headers) : Headers :=
  match hs with
  | [] => [(name, value)]
  | kv :: hs => if bool_decide (kv.1 = name) then (name, value) :: List.filter (fun kv => negb (bool_decide (kv.1 = name))) hs
                else kv :: insert_header name value hs
  end.
Definition insert_absent (name value : string) (hs : Headers) : Headers := if has_header name hs then hs else insert_header name value hs.

(** [HeaderValue::to_str]: nothing unless every byte is printable ASCII or a tab. *)
Definition to_str (value : string) : option string :=
  if forallb (fun c => byte_range 32 126 c || byte_range 9 9 c) (chars value) then Some value else None.
Definition get_str (name : string) (hs : Headers) : option string := get_header name hs ≫= to_str.

Definition find_header (headers : list (string * string)) (name : string) : option string :=
  snd <$> List.find (fun kv => eq_ignore_ascii_case kv.1 name) headers.

(** ** Caching *)

Record CacheEntry := mkCacheEntry {
  ce_status : Z;
  ce_status_text : string;
  ce_headers : list (string * string);
  ce_body : string;
  ce_bytes_received : Z;
  ce_protocol_version : string;
  ce_stored_at : Z;
  ce_max_age : Duration;
  ce_etag : option string;
  ce_last_modified : option string;
}.
Definition is_fresh (now : Z) (e : CacheEntry) : bool := Z.ltb (u64_saturating_sub now (ce_stored_at e)) (ce_max_age e).
Definition cache_extras (state : string) : Value := Object [("cache", Text state)].
Definition to_response (e : CacheEntry) (url cache_state : string) : ProtocolResponse :=
  mkResponse (ce_status e) (ce_status_text e) (ce_headers e) (ce_body e) Timings_default 0 (ce_bytes_received e) (ce_protocol_version e) None
    url (cache_extras cache_state) [].

Definition max_age_part (part : string) : option Duration :=
  secs ← strip_prefix (trim part) "max-age="; n ← parse_u64 (chars secs); Some (Duration_from_secs n).
Definition cache_max_age (headers : list (string * string)) : option Duration :=
  match to_ascii_lowercase <$> find_header headers "cache-control" with
  | Some cc => if str_contains cc "no-store" || str_contains cc "private" then None else head (omap max_age_part (str_split cc ","))
  | None => None
  end.

(** ** Addresses and sizes *)

Definition mapped_address (mapped : string) (port : Z) : string := if str_contains mapped ":" then mapped else mapped +:+ ":" +:+ Z_to_string port.
Definition override_host (h : HttpHandler) (host : string) (port : Z) : option string :=
  let host := to_ascii_lowercase host in
  match hh_hosts h !! (host +:+ ":" +:+ Z_to_string port) with
  | Some mapped => Some (mapped_address mapped port)
  | None => (fun mapped => mapped_address mapped port) <$> hh_hosts h !! host
  end.

Definition host_header_value (u : HttpUrl) : string :=
  let host := default "" (url_host (hu_url u)) in
  match hu_port u with Some port => host +:+ ":" +:+ Z_to_string port | None => host end.

Definition headers_size (hs : Headers) : nat := foldl (fun n kv => n + str_len kv.1 + 2 + str_len kv.2 + 2)%nat 0%nat hs.
Definition approx_request_size (method : string) (u : HttpUrl) (hs : Headers) (body_len : nat) : Z :=
  Z.of_nat (str_len method + 1 + str_len (hu_path u) + 1 + str_len "HTTP/1.1" + 2
            + match hu_query u with Some q => str_len q + 1 | None => 0 end + headers_size hs + 2 + body_len).
Definition approx_response_size (reason : string) (hs : Headers) (raw_body_len : Z) : Z :=
  Z.of_nat (str_len "HTTP/1.1" + 1 + 3 + 1 + 2 + str_len reason + headers_size hs + 2) + raw_body_len.

(** ** Trace context *)

Definition u64_mul (a b : Z) : Z := u64_wrap (a * b).
(** One draw of SplitMix64: the value, and the seed after it. *)
Definition splitmix (seed : Z) : Z * Z :=
  let seed := u64_add seed 0x9E3779B97F4A7C15 in
  let z := u64_mul (Z.lxor seed (Z.shiftr seed 30)) 0xBF58476D1CE4E5B9 in
  let z := u64_mul (Z.lxor z (Z.shiftr z 27)) 0x94D049BB133111EB in
  (Z.lxor z (Z.shiftr z 31), seed).
(** [{:016x}]. *)
Fixpoint hex_lower (digits : nat) (n : Z) : list ascii :=
  match digits with
  | O => []
  | S digits => hex_lower digits (n / 16) ++ [let d := Z.to_N (n mod 16) in if N.ltb d 10 then byte_at (48 + d) else byte_at (87 + d)]
  end.
Definition make_traceparent (vu_id counter now_nanos : Z) : string :=
  let seed := u64_add (u64_add vu_id counter) now_nanos in
  let '(a, seed) := splitmix seed in
  let '(b, seed) := splitmix seed in
  let '(c, _) := splitmix seed in
  of_chars (chars "00-" ++ hex_lower 16 a ++ hex_lower 16 b ++ "-"%char :: hex_lower 16 c ++ chars "-01").

(** ** The network *)

Definition PoolKey : Type := string * string * Z.

Record WireRequest := mkWireRequest {
  wq_method : string;
  wq_target : string;
  wq_headers : Headers;
  wq_body : string;
}.

Record WireResponse := mkWireResponse {
  wr_status : Z;
  wr_reason : string;
  wr_version : string;
  wr_headers : Headers;
  wr_raw : string;
  wr_read_error : option string;
  wr_waiting_ms : f64;
  wr_receiving_ms : f64;
}.

Class HttpNetwork := {
  net : Type;
  conn : Type;
  clock : net -> Z;
  (** A pooled connection that is open and becomes ready; nothing when the deadline elapses. *)
  ready : conn -> net -> net * option bool;
  (** A connection to a dial address (or the URL's own) for a URL, with the time each phase took. *)
  dial : HttpUrl -> option string -> net -> net * option (Timings * result string conn);
  is_h2 : conn -> bool;
  closed : conn -> net -> bool;
  (** The answer, after the time it took to send; an error with the time it took. *)
  exchange_on : conn -> WireRequest -> net -> net * option (f64 * result string WireResponse);
  (** The global counter, which advances, and the time since the epoch. *)
  trace_seed : net -> net * (Z * Z);
}.

(** How a computation ends: with a response, a request that cannot be made, or at the deadline. *)
Inductive Outcome (A : Type) :=
| Done (a : A)
| Invalid (message : string)
| Elapsed.
Arguments Done {A} a.
Arguments Invalid {A} message.
Arguments Elapsed {A}.

Section Http.
Context `{HttpNetwork}.
Context (valid_name valid_value : string -> option string) (parse_cookie : string -> option ParsedCookie).
Context (parse_url : string -> result string HttpUrl) (join_url : HttpUrl -> string -> result string HttpUrl) (valid_method : string -> option string).
Context (inflate : string -> string -> result string (option string)).

(** What a virtual user keeps for HTTP, and the network. *)
Record HttpVu := mkHttpVu {
  hv_id : Z;
  hv_jar : CookieJar;
  hv_pool : gmap PoolKey conn;
  hv_cache : gmap string CacheEntry;
  hv_net : net;
}.
Definition set_jar (j : CookieJar) (v : HttpVu) : HttpVu := mkHttpVu (hv_id v) j (hv_pool v) (hv_cache v) (hv_net v).
Definition set_pool (p : gmap PoolKey conn) (v : HttpVu) : HttpVu := mkHttpVu (hv_id v) (hv_jar v) p (hv_cache v) (hv_net v).
Definition set_cache (c : gmap string CacheEntry) (v : HttpVu) : HttpVu := mkHttpVu (hv_id v) (hv_jar v) (hv_pool v) c (hv_net v).
Definition set_net (n : net) (v : HttpVu) : HttpVu := mkHttpVu (hv_id v) (hv_jar v) (hv_pool v) (hv_cache v) n.

Fixpoint append_headers (hs : Headers) (l : list (string * string)) : result string Headers :=
  match l with
  | [] => Ok hs
  | (name, value) :: l =>
      match valid_name name with
      | None => Err ("invalid header name `" +:+ name +:+ "`")
      | Some n => match valid_value value with
                  | None => Err ("invalid value for header `" +:+ n +:+ "`")
                  | Some value => append_headers (hs ++ [(n, value)]) l
                  end
      end
  end.

Definition when_set (b : bool) (f : Headers -> Headers) (hs : Headers) : Headers := if b then f hs else hs.

Definition add_cookies (u : HttpUrl) (hs : Headers) (v : HttpVu) : Headers * HttpVu :=
  if auto (hv_jar v) then
    let '(jar, cookie) := header_for (hu_url u) (clock (hv_net v)) (hv_jar v) in
    let v := set_jar jar v in
    match cookie with
    | Some c =>
        let merged := match get_str "cookie" hs with Some existing => existing +:+ "; " +:+ c | None => c end in
        match valid_value merged with Some value => (insert_header "cookie" value hs, v) | None => (hs, v) end
    | None => (hs, v)
    end
  else (hs, v).

Definition add_trace (h : HttpHandler) (hs : Headers) (v : HttpVu) : Headers * HttpVu :=
  if hh_tracing h && negb (has_header "traceparent" hs) then
    let '(n, (counter, now)) := trace_seed (hv_net v) in
    (insert_header "traceparent" (make_traceparent (hv_id v) counter now) hs, set_net n v)
  else (hs, v).

Definition build_request (h : HttpHandler) (request : PreparedRequest) (u : HttpUrl) (method body : string) (h2 : bool) (v : HttpVu) :
    HttpVu * result string (WireRequest * Z) :=
  let absolute_form := h2 || (bool_decide (is_Some (hh_proxy h)) && bool_decide (scheme_of u = "http")) in
  let target := if absolute_form then hu_str u else hu_path u +:+ match hu_query u with Some q => "?" +:+ q | None => "" end in
  match append_headers [] (pr_headers request) with
  | Err e => (v, Err e)
  | Ok hs =>
      let host := if negb h2 && negb (has_header "host" hs) then valid_value (host_header_value u) else Some "" in
      match host with
      | None => (v, Err ("invalid host `" +:+ host_header_value u +:+ "`"))
      | Some host =>
          let hs := when_set (negb h2) (insert_absent "host" host) hs in
          let hs := insert_absent "user-agent" DEFAULT_USER_AGENT hs in
          let hs := when_set (hh_compression h) (insert_absent "accept-encoding" "gzip, deflate, br") hs in
          let hs := when_set (negb (str_is_empty body)) (insert_absent "content-length" (Z_to_string (Z.of_nat (str_len body)))) hs in
          let hs := when_set (negb h2 && negb (hh_keep_alive h)) (insert_header "connection" "close") hs in
          let '(hs, v) := add_cookies u hs v in
          let '(hs, v) := add_trace h hs v in
          (v, Ok (mkWireRequest method target hs body, approx_request_size method u hs (str_len body)))
      end
  end.

(** Errors of the handler that are responses. *)
Definition transport_error_response (message : string) (timings : Timings) (u : HttpUrl) : ProtocolResponse :=
  mkResponse 0 "" [] "" timings 0 0 "" (Some message) (hu_str u) Null [].
Definition timeout_response (request : PreparedRequest) (elapsed_ms : f64) (show_timeout : string) : ProtocolResponse :=
  mkResponse 0 "" [] "" (mkTimings f64_zero f64_zero f64_zero f64_zero f64_zero f64_zero elapsed_ms f64_zero) 0 0 ""
    (Some ("request timed out after " +:+ show_timeout)) (pr_url request) Null [].

Definition set_blocked (t : Timings) : Timings :=
  mkTimings (dns_ms t) (connect_ms t) (tls_ms t) (sending_ms t) (waiting_ms t) (receiving_ms t) (duration_ms t)
    (f64_add (f64_add (dns_ms t) (connect_ms t)) (tls_ms t)).
Definition set_send_failed (ms : f64) (t : Timings) : Timings :=
  mkTimings (dns_ms t) (connect_ms t) (tls_ms t) ms (waiting_ms t) (receiving_ms t) ms (blocked_ms t).
Definition set_exchange (sending waiting receiving : f64) (t : Timings) : Timings :=
  mkTimings (dns_ms t) (connect_ms t) (tls_ms t) sending waiting receiving (f64_add (f64_add sending waiting) receiving) (blocked_ms t).

(** [host_port]. *)
Definition host_port (u : HttpUrl) : result string (string * Z) :=
  match url_host (hu_url u), hu_known_port u with
  | None, _ => Err ("url `" +:+ hu_str u +:+ "` has no host")
  | _, None => Err ("url `" +:+ hu_str u +:+ "` has no port")
  | Some host, Some port => Ok (host, port)
  end.

(** The pooled connection for [key], if it can be reused; it leaves the pool in every case. *)
Definition reuse (key : PoolKey) (v : HttpVu) : HttpVu * option (option conn) :=
  let pooled := hv_pool v !! key in
  let v := set_pool (delete key (hv_pool v)) v in
  match pooled with
  | Some c =>
      if closed c (hv_net v) then (v, Some None)
      else match ready c (hv_net v) with
           | (n, None) => (set_net n v, None)
           | (n, Some true) => (set_net n v, Some (Some c))
           | (n, Some false) => (set_net n v, Some None)
           end
  | None => (v, Some None)
  end.

(** The address to dial: that of the proxy when there is one, and its override. *)
Definition dial_override (h : HttpHandler) (u : HttpUrl) : option string :=
  let d := default u (hh_proxy h) in
  match url_host (hu_url d), hu_known_port d with
  | Some host, Some port => override_host h host port
  | _, _ => None
  end.

Definition store_cookies (u : HttpUrl) (hs : Headers) (v : HttpVu) : HttpVu :=
  foldl (fun v kv =>
           match (if bool_decide (kv.1 = "set-cookie") then to_str kv.2 else None) with
           | Some value => set_jar (store_from_header parse_cookie (hu_url u) value (clock (hv_net v)) (hv_jar v)) v
           | None => v
           end) v hs.

Definition decoded_body (h : HttpHandler) (r : WireResponse) : string :=
  if hh_compression h && negb (bool_decide (is_Some (wr_read_error r))) then
    match get_str "content-encoding" (wr_headers r) with
    | Some encoding => match inflate (to_ascii_lowercase (trim encoding)) (wr_raw r) with Ok (Some decoded) => decoded | _ => wr_raw r end
    | None => wr_raw r
    end
  else wr_raw r.

Definition keep_connection (h : HttpHandler) (key : PoolKey) (c : conn) (r : WireResponse) (v : HttpVu) : HttpVu :=
  let conn_close := match get_str "connection" (wr_headers r) with Some v => eq_ignore_ascii_case v "close" | None => false end in
  if hh_keep_alive h && negb conn_close && negb (closed c (hv_net v)) then set_pool (<[key := c]> (hv_pool v)) v else v.

(** The request goes out on [c], reused or not. *)
Definition send_on (h : HttpHandler) (request : PreparedRequest) (u : HttpUrl) (method body : string) (key : PoolKey) (c : conn)
    (timings : Timings) (v : HttpVu) : HttpVu * Outcome ProtocolResponse :=
  match build_request h request u method body (is_h2 c) v with
  | (v, Err e) => (v, Invalid e)
  | (v, Ok (wire, bytes_sent)) =>
      match exchange_on c wire (hv_net v) with
      | (n, None) => (set_net n v, Elapsed)
      | (n, Some (sending, Err e)) =>
          (set_net n v, Done (transport_error_response ("request to " +:+ hu_str u +:+ " failed: " +:+ e) (set_send_failed sending timings) u))
      | (n, Some (sending, Ok r)) =>
          let v := store_cookies u (wr_headers r) (set_net n v) in
          let body := decoded_body h r in
          let bytes_received := approx_response_size (wr_reason r) (wr_headers r) (Z.of_nat (str_len (wr_raw r))) in
          let v := keep_connection h key c r v in
          let headers := (fun kv => (kv.1, from_utf8_lossy kv.2)) <$> wr_headers r in
          (v, Done (mkResponse (wr_status r) (wr_reason r) headers (if hh_discard_bodies h then "" else body)
                      (set_exchange sending (wr_waiting_ms r) (wr_receiving_ms r) timings) bytes_sent bytes_received (wr_version r)
                      (wr_read_error r) (hu_str u) Null []))
      end
  end.

Definition one_request (h : HttpHandler) (request : PreparedRequest) (u : HttpUrl) (method body : string) (v : HttpVu) :
    HttpVu * Outcome ProtocolResponse :=
  match host_port u with
  | Err e => (v, Invalid e)
  | Ok (host, port) =>
      let key := (scheme_of u, host, port) in
      match reuse key v with
      | (v, None) => (v, Elapsed)
      | (v, Some (Some c)) => send_on h request u method body key c Timings_default v
      | (v, Some None) =>
          match dial u (dial_override h u) (hv_net v) with
          | (n, None) => (set_net n v, Elapsed)
          | (n, Some (timings, Err msg)) => (set_net n v, Done (transport_error_response msg timings u))
          | (n, Some (timings, Ok c)) => send_on h request u method body key c (set_blocked timings) (set_net n v)
          end
      end
  end.

(** ** Redirects *)

Definition add_timings (a b : Timings) : Timings :=
  mkTimings (f64_add (dns_ms a) (dns_ms b)) (f64_add (connect_ms a) (connect_ms b)) (f64_add (tls_ms a) (tls_ms b))
    (f64_add (sending_ms a) (sending_ms b)) (f64_add (waiting_ms a) (waiting_ms b)) (f64_add (receiving_ms a) (receiving_ms b))
    (f64_add (duration_ms a) (duration_ms b)) (f64_add (blocked_ms a) (blocked_ms b)).

Record Totals := mkTotals { tt_timings : Timings; tt_sent : Z; tt_received : Z }.
Definition Totals_zero : Totals := mkTotals Timings_default 0 0.
Definition add_hop (t : Totals) (hop : ProtocolResponse) : Totals :=
  mkTotals (add_timings (tt_timings t) (rs_timings hop)) (u64_add (tt_sent t) (rs_bytes_sent hop)) (u64_add (tt_received t) (rs_bytes_received hop)).

Definition is_redirect (status : Z) : bool := existsb (Z.eqb status) [301; 302; 303; 307; 308].
Definition becomes_get (status : Z) (method : string) : bool := Z.leb 301 status && Z.leb status 303 && negb (bool_decide (method = "HEAD")).

Definition set_error (e : option string) (r : ProtocolResponse) : ProtocolResponse :=
  mkResponse (rs_status r) (rs_status_text r) (rs_headers r) (rs_body r) (rs_timings r) (rs_bytes_sent r) (rs_bytes_received r)
    (rs_protocol_version r) e (rs_url r) (rs_extras r) (rs_grpc_protobuf_outcomes r).
(** The last hop answers for all. *)
Definition finish_hop (t : Totals) (u : HttpUrl) (r : ProtocolResponse) : ProtocolResponse :=
  mkResponse (rs_status r) (rs_status_text r) (rs_headers r) (rs_body r) (tt_timings t) (tt_sent t) (tt_received t)
    (rs_protocol_version r) (rs_error r) (hu_str u) (rs_extras r) (rs_grpc_protobuf_outcomes r).

(** Where a hop leads: to another, or to the end with the error it leaves. *)
Inductive NextHop :=
| Follow (u : HttpUrl) (method body : string)
| Stop (error : option string).
Definition next_hop (request : PreparedRequest) (redirects : Z) (u : HttpUrl) (method body : string) (hop : ProtocolResponse) : NextHop :=
  if negb (bool_decide (is_Some (rs_error hop))) && is_redirect (rs_status hop) && pr_follow_redirects request then
    if Z.leb (pr_max_redirects request) redirects
    then Stop (Some ("stopped after " +:+ Z_to_string (pr_max_redirects request) +:+ " redirects (max_redirects)"))
    else match header hop "location" with
         | Some location =>
             match join_url u location with
             | Ok next => if becomes_get (rs_status hop) method then Follow next "GET" "" else Follow next method body
             | Err e => Stop (Some ("invalid redirect location `" +:+ location +:+ "`: " +:+ e))
             end
         | None => Stop (rs_error hop)
         end
  else Stop (rs_error hop).

(** [run]; [None] is the end of the fuel, which one more turn than [max_redirects] exceeds. *)
Fixpoint run_hops (fuel : nat) (h : HttpHandler) (request : PreparedRequest) (redirects : Z) (u : HttpUrl) (method body : string)
    (t : Totals) (v : HttpVu) : HttpVu * option (Outcome ProtocolResponse) :=
  match fuel with
  | O => (v, None)
  | S fuel =>
      match one_request h request u method body v with
      | (v, Done hop) =>
          let t := add_hop t hop in
          match next_hop request redirects u method body hop with
          | Follow next method body => run_hops fuel h request (redirects + 1) next method body t v
          | Stop error => (v, Some (Done (finish_hop t u (set_error error hop))))
          end
      | (v, Invalid e) => (v, Some (Invalid e))
      | (v, Elapsed) => (v, Some Elapsed)
      end
  end.
Definition run (h : HttpHandler) (request : PreparedRequest) (u : HttpUrl) (method : string) (v : HttpVu) : HttpVu * option (Outcome ProtocolResponse) :=
  run_hops (S (Z.to_nat (pr_max_redirects request))) h request 0 u method (pr_body request) Totals_zero v.

(** ** The handler *)

Context (debug_duration : Duration -> string).

Definition timed_out (request : PreparedRequest) (start : Z) (v : HttpVu) : ProtocolResponse :=
  timeout_response request (f64_mul (as_secs_f64 (u64_saturating_sub (clock (hv_net v)) start)) (f64_of_Z 1000)) (debug_duration (pr_timeout request)).

Definition with_headers (hs : list (string * string)) (r : PreparedRequest) : PreparedRequest :=
  mkPrepared (pr_name r) (pr_protocol r) (pr_method r) (pr_url r) hs (pr_body r) (pr_timeout r) (pr_follow_redirects r) (pr_max_redirects r) (pr_options r).
(** A stale entry asks for its revalidation. *)
Definition conditional (e : option CacheEntry) (request : PreparedRequest) : PreparedRequest :=
  let given name f := match e ≫= f with Some v => [(name, v)] | None => [] end in
  with_headers (pr_headers request ++ given "If-None-Match" ce_etag ++ given "If-Modified-Since" ce_last_modified) request.

Definition entry_of (now : Z) (max_age : Duration) (r : ProtocolResponse) : CacheEntry :=
  mkCacheEntry (rs_status r) (rs_status_text r) (rs_headers r) (rs_body r) (rs_bytes_received r) (rs_protocol_version r) now max_age
    (find_header (rs_headers r) "etag") (find_header (rs_headers r) "last-modified").
Definition refreshed (now : Z) (headers : list (string * string)) (e : CacheEntry) : CacheEntry :=
  mkCacheEntry (ce_status e) (ce_status_text e) (ce_headers e) (ce_body e) (ce_bytes_received e) (ce_protocol_version e) now
    (default (ce_max_age e) (cache_max_age headers)) (ce_etag e) (ce_last_modified e).
Definition revalidated (r : ProtocolResponse) (e : CacheEntry) (key : string) : ProtocolResponse :=
  let resp := to_response e key "revalidated" in
  mkResponse (rs_status resp) (rs_status_text resp) (rs_headers resp) (rs_body resp) (rs_timings r) (rs_bytes_sent r) (rs_bytes_received resp)
    (rs_protocol_version resp) (rs_error resp) (rs_url resp) (rs_extras resp) (rs_grpc_protobuf_outcomes resp).

Definition set_extras (x : Value) (r : ProtocolResponse) : ProtocolResponse :=
  mkResponse (rs_status r) (rs_status_text r) (rs_headers r) (rs_body r) (rs_timings r) (rs_bytes_sent r) (rs_bytes_received r)
    (rs_protocol_version r) (rs_error r) (rs_url r) x (rs_grpc_protobuf_outcomes r).

(** What the cache does with an answer from the network. *)
Definition settle (key : string) (result : ProtocolResponse) (v : HttpVu) : HttpVu * ProtocolResponse :=
  let now := clock (hv_net v) in
  let miss v := (v, match rs_extras result with Null => set_extras (cache_extras "miss") result | _ => result end) in
  match (if Z.eqb (rs_status result) 304 then hv_cache v !! key else None) with
  | Some e =>
      let e := refreshed now (rs_headers result) e in
      (set_cache (<[key := e]> (hv_cache v)) v, revalidated result e key)
  | None =>
      if Z.eqb (rs_status result) 200 && negb (bool_decide (is_Some (rs_error result))) then
        match cache_max_age (rs_headers result) with
        | Some max_age => miss (set_cache (<[key := entry_of now max_age result]> (hv_cache v)) v)
        | None => miss v
        end
      else miss v
  end.

Definition run_cached (h : HttpHandler) (request : PreparedRequest) (u : HttpUrl) (method : string) (start : Z) (v : HttpVu) :
    HttpVu * option (result string ProtocolResponse) :=
  let key := hu_str u in
  let entry := hv_cache v !! key in
  match (e ← entry; if is_fresh (clock (hv_net v)) e then Some e else None) with
  | Some e => (v, Some (Ok (to_response e key "hit")))
  | None =>
      match run h (conditional entry request) u method v with
      | (v, Some (Done result)) => let '(v, r) := settle key result v in (v, Some (Ok r))
      | (v, Some (Invalid e)) => (v, Some (Err e))
      | (v, Some Elapsed) => (v, Some (Ok (timed_out request start v)))
      | (v, None) => (v, None)
      end
  end.

Definition parse_method (method : string) : result string string :=
  if str_is_empty method then Ok "GET"
  else match valid_method (to_ascii_uppercase method) with Some m => Ok m | None => Err ("invalid method `" +:+ method +:+ "`") end.

Definition execute (h : HttpHandler) (request : PreparedRequest) (v : HttpVu) : HttpVu * option (result string ProtocolResponse) :=
  match parse_url (pr_url request) with
  | Err e => (v, Some (Err ("invalid url `" +:+ pr_url request +:+ "`: " +:+ e)))
  | Ok u =>
      if negb (bool_decide (scheme_of u = "http") || bool_decide (scheme_of u = "https"))
      then (v, Some (Err ("http handler cannot handle scheme `" +:+ scheme_of u +:+ "`")))
      else match parse_method (pr_method request) with
           | Err e => (v, Some (Err e))
           | Ok method =>
               let start := clock (hv_net v) in
               if hh_cache h && bool_decide (method = "GET") then run_cached h request u method start v
               else match run h request u method v with
                    | (v, Some (Done r)) => (v, Some (Ok r))
                    | (v, Some (Invalid e)) => (v, Some (Err e))
                    | (v, Some Elapsed) => (v, Some (Ok (timed_out request start v)))
                    | (v, None) => (v, None)
                    end
           end
  end.

(** ** Redirects end, and are accounted for *)

(** The hops of a request that ends with an answer: where each went, and what came back. *)
Inductive hops (h : HttpHandler) (request : PreparedRequest) :
    Z -> HttpUrl -> string -> string -> HttpVu -> list (HttpUrl * string * string * ProtocolResponse) -> HttpVu -> option string -> Prop :=
| hops_stop redirects u method body v v' hop error :
    one_request h request u method body v = (v', Done hop) -> next_hop request redirects u method body hop = Stop error ->
    hops h request redirects u method body v [(u, method, body, hop)] v' error
| hops_follow redirects u method body v v1 v2 hop next method' body' tail error :
    one_request h request u method body v = (v1, Done hop) -> next_hop request redirects u method body hop = Follow next method' body' ->
    hops h request (redirects + 1) next method' body' v1 tail v2 error ->
    hops h request redirects u method body v ((u, method, body, hop) :: tail) v2 error.

Lemma next_hop_follow request redirects u method body hop next method' body' :
  next_hop request redirects u method body hop = Follow next method' body' ->
  redirects < pr_max_redirects request /\ pr_follow_redirects request = true /\ is_redirect (rs_status hop) = true /\ rs_error hop = None
  /\ (exists location, header hop "location" = Some location /\ join_url u location = Ok next)
  /\ (method', body') = (if becomes_get (rs_status hop) method then ("GET", "") else (method, body)).
Proof.
  unfold next_hop. destruct (rs_error hop) as [e|] eqn:He; cbn [negb andb]; [by rewrite bool_decide_true by eauto|].
  rewrite bool_decide_false by (by intros [? ?]). cbn [negb andb]. destruct (is_redirect (rs_status hop)); [|done]. destruct (pr_follow_redirects request); [|done].
  cbn [andb]. destruct (Z.leb_spec (pr_max_redirects request) redirects); [done|]. destruct (header hop "location") as [location|]; [|done].
  destruct (join_url u location) as [n|] eqn:Hj; [|done]. destruct (becomes_get _ _); intros [= <- <- <-]; (split; [lia|]); (do 3 (split; [done|])); (split; [by exists location|done]).
Qed.

Lemma run_hops_total (fuel : nat) h request : forall redirects u method body t v,
  (Z.to_nat (pr_max_redirects request - redirects) < fuel)%nat -> (run_hops fuel h request redirects u method body t v).2 <> None.
Proof.
  induction fuel as [|fuel IH]; intros redirects u method body t v Hf; [lia|]. cbn [run_hops].
  destruct (one_request h request u method body v) as [v1 [hop|e|]]; try done. destruct (next_hop _ _ _ _ _ _) as [next m b|error] eqn:Hn; [|done].
  apply next_hop_follow in Hn as (Hlt & _). apply IH. lia.
Qed.

Lemma run_hops_trace (fuel : nat) h request : forall redirects u method body t v v' r,
  run_hops fuel h request redirects u method body t v = (v', Some (Done r)) ->
  exists trace u' m' b' hop error, hops h request redirects u method body v trace v' error /\ last trace = Some (u', m', b', hop)
    /\ r = finish_hop (foldl (fun t x => add_hop t x.2) t trace) u' (set_error error hop).
Proof.
  induction fuel as [|fuel IH]; intros redirects u method body t v v' r; [done|]. cbn [run_hops].
  destruct (one_request h request u method body v) as [v1 [hop|e|]] eqn:Ho; try done. destruct (next_hop _ _ _ _ _ _) as [next m b|error] eqn:Hn.
  - intros Hr. apply IH in Hr as (trace & u' & m' & b' & hop' & error & Hh & Hl & ->).
    exists ((u, method, body, hop) :: trace), u', m', b', hop', error. split; [by eapply hops_follow|]. split; [by destruct trace|done].
  - intros [= <- <-]. exists [(u, method, body, hop)], u, method, body, hop, error. split; [by apply hops_stop|done].
Qed.

Lemma hops_length h request redirects u method body v trace v' error :
  hops h request redirects u method body v trace v' error -> Z.of_nat (length trace) <= Z.max 1 (pr_max_redirects request - redirects + 1).
Proof.
  induction 1 as [|redirects u method body v v1 v2 hop next m b tail error Ho Hn Hh IH]; cbn [length]; [lia|].
  apply next_hop_follow in Hn as (? & _). lia.
Qed.

Lemma hops_chain h request redirects u method body v trace v' error : hops h request redirects u method body v trace v' error ->
  (exists hop, head trace = Some (u, method, body, hop))
  /\ forall i u1 m1 b1 hop1 u2 m2 b2 hop2, trace !! i = Some (u1, m1, b1, hop1) -> trace !! S i = Some (u2, m2, b2, hop2) ->
      pr_follow_redirects request = true /\ is_redirect (rs_status hop1) = true /\ rs_error hop1 = None
      /\ (exists location, header hop1 "location" = Some location /\ join_url u1 location = Ok u2)
      /\ (m2, b2) = (if becomes_get (rs_status hop1) m1 then ("GET", "") else (m1, b1)).
Proof.
  induction 1 as [|redirects u method body v v1 v2 hop next m b tail error Ho Hn Hh [[hop' Hhead] IH]].
  - split; [by eexists|]. by intros [|i].
  - split; [by eexists|]. intros [|i] u1 m1 b1 hop1 u2 m2 b2 hop2 H1 H2.
    + cbn in H1, H2. injection H1 as <- <- <- <-. destruct tail as [|x tail]; [done|]. cbn in Hhead, H2. injection Hhead as ->. injection H2 as <- <- <- <-.
      by apply next_hop_follow in Hn as (_ & ? & ? & ? & ? & ?).
    + exact (IH i _ _ _ _ _ _ _ _ H1 H2).
Qed.

(** The phases of an exchange. *)
Definition phases : list (Timings -> f64) := [dns_ms; connect_ms; tls_ms; sending_ms; waiting_ms; receiving_ms; duration_ms; blocked_ms].

Lemma totals_sum (trace : list (HttpUrl * string * string * ProtocolResponse)) (t : Totals) :
  let total := foldl (fun t x => add_hop t x.2) t trace in
  tt_sent total = foldl (fun n x => u64_add n (rs_bytes_sent x.2)) (tt_sent t) trace
  /\ tt_received total = foldl (fun n x => u64_add n (rs_bytes_received x.2)) (tt_received t) trace
  /\ Forall (fun phase => phase (tt_timings total) = foldl (fun ms x => f64_add ms (phase (rs_timings x.2))) (phase (tt_timings t)) trace) phases.
Proof.
  revert t. induction trace as [|x trace IH]; intros t; cbn [foldl]; [split_and!; [done..|by repeat constructor]|].
  destruct (IH (add_hop t x.2)) as (-> & -> & Ht). split_and!; [done..|]. unfold phases in *.
  repeat match goal with Hx : Forall _ (_ :: _) |- _ => apply Forall_cons in Hx as [? Hx] end. repeat constructor; done.
Qed.

(** C24: following redirects ends and adds up: a request is at most [max_redirects] + 1 hops; each hop goes where the redirect before
    it said, relative to its own URL, with its method kept or made [GET]; and the response is the last hop's, with its
    status, headers and body, under its URL, with the bytes of all hops and, phase by phase, the time all of them took.  The loop never runs on. *)
Theorem redirects_exact h request u method v v' out :
  0 <= pr_max_redirects request -> run h request u method v = (v', out) ->
  out <> None
  /\ forall r, out = Some (Done r) -> exists trace error u' m' b' hop,
       hops h request 0 u method (pr_body request) v trace v' error
       /\ Z.of_nat (length trace) <= pr_max_redirects request + 1
       /\ (forall i u1 m1 b1 hop1 u2 m2 b2 hop2, trace !! i = Some (u1, m1, b1, hop1) -> trace !! S i = Some (u2, m2, b2, hop2) ->
            is_redirect (rs_status hop1) = true /\ (exists location, header hop1 "location" = Some location /\ join_url u1 location = Ok u2)
            /\ (m2, b2) = (if becomes_get (rs_status hop1) m1 then ("GET", "") else (m1, b1)))
       /\ last trace = Some (u', m', b', hop)
       /\ rs_status r = rs_status hop /\ rs_headers r = rs_headers hop /\ rs_body r = rs_body hop /\ rs_error r = error /\ rs_url r = hu_str u'
       /\ rs_bytes_sent r = foldl (fun n x => u64_add n (rs_bytes_sent x.2)) 0 trace
       /\ rs_bytes_received r = foldl (fun n x => u64_add n (rs_bytes_received x.2)) 0 trace
       /\ Forall (fun phase => phase (rs_timings r) = foldl (fun ms x => f64_add ms (phase (rs_timings x.2))) f64_zero trace) phases.
Proof.
  intros Hmax Hrun. unfold run in Hrun. split.
  - intros ->. pose proof (run_hops_total (S (Z.to_nat (pr_max_redirects request))) h request 0 u method (pr_body request) Totals_zero v) as Ht.
    rewrite Hrun in Ht. apply Ht; [lia|done].
  - intros r ->. apply run_hops_trace in Hrun as (trace & u' & m' & b' & hop & error & Hh & Hl & ->). exists trace, error, u', m', b', hop.
    split; [done|]. split; [pose proof (hops_length _ _ _ _ _ _ _ _ _ _ Hh); lia|]. split.
    { intros i u1 m1 b1 hop1 u2 m2 b2 hop2 H1 H2. destruct (proj2 (hops_chain _ _ _ _ _ _ _ _ _ _ Hh) i _ _ _ _ _ _ _ _ H1 H2) as (_ & ? & _ & ? & ?). done. }
    split; [done|]. do 5 (split; [done|]). destruct (totals_sum trace Totals_zero) as (H1 & H2 & H3).
    split; [exact H1|]. split; [exact H2|]. unfold phases in *. repeat (apply Forall_cons in H3 as [? H3]). repeat constructor; done.
Qed.

(** ** The cache *)

(** What the cache stores it serves: an answer is stored when it is a 200 without an error whose [Cache-Control] has a [max-age] and neither
    [no-store] nor [private], and until it is that old a [GET] of its URL is answered with its status, headers and body, from
    the cache alone; an answer that is not cacheable leaves the cache as it was. *)
Theorem cache_exact (h : HttpHandler) (request : PreparedRequest) (u : HttpUrl) (method : string) (start : Z)
    (result : ProtocolResponse) (v v2 : HttpVu) (age : Duration) :
  rs_status result = 200 -> rs_error result = None ->
  match cache_max_age (rs_headers result) with
  | Some age =>
      hv_cache v2 !! hu_str u = hv_cache (settle (hu_str u) result v).1 !! hu_str u ->
      u64_saturating_sub (clock (hv_net v2)) (clock (hv_net v)) < age ->
      exists r, run_cached h request u method start v2 = (v2, Some (Ok r)) /\ rs_extras r = cache_extras "hit"
        /\ rs_status r = 200 /\ rs_headers r = rs_headers result /\ rs_body r = rs_body result /\ rs_bytes_sent r = 0
  | None => hv_cache (settle (hu_str u) result v).1 = hv_cache v
  end.
Proof.
  intros Hs He. unfold settle. rewrite Hs, He. cbn [Z.eqb Pos.eqb andb negb]. rewrite bool_decide_false by (by intros [? ?]). cbn [negb].
  destruct (cache_max_age (rs_headers result)) as [a|]; [|done]. cbn [fst set_cache hv_cache]. rewrite lookup_insert_eq. intros Hc Hage.
  unfold run_cached. rewrite Hc. cbn [mbind option_bind]. unfold is_fresh, entry_of at 1 2. cbn [ce_stored_at ce_max_age].
  destruct (Z.ltb_spec (u64_saturating_sub (clock (hv_net v2)) (clock (hv_net v))) a); [|lia]. eexists. split; [done|]. by rewrite <- Hs.
Qed.

(** ** Connections and origins *)

Class HttpNetworkLaws := {
  origin : conn -> PoolKey;
  dial_origin u o n n' t c host port :
    dial u o n = (n', Some (t, Ok c)) -> host_port u = Ok (host, port) -> origin c = (scheme_of u, host, port);
}.

Section Origins.
Context `{HttpNetworkLaws}.

(** A pooled connection is filed under its origin. *)
Definition pool_ok (v : HttpVu) : Prop := forall key c, hv_pool v !! key = Some c -> origin c = key.

Lemma add_cookies_pool u hs v : hv_pool (add_cookies u hs v).2 = hv_pool v.
Proof. unfold add_cookies. destruct (auto (hv_jar v)); [|done]. destruct (header_for _ _ _) as [j [c|]]; [|done]. by destruct (valid_value _). Qed.

Lemma add_trace_pool h hs v : hv_pool (add_trace h hs v).2 = hv_pool v.
Proof. unfold add_trace. destruct (_ && _); [|done]. by destruct (trace_seed _) as [n [a b]]. Qed.

Lemma build_request_pool h request u method body h2 v : hv_pool (build_request h request u method body h2 v).1 = hv_pool v.
Proof.
  unfold build_request. destruct (append_headers _ _) as [hs|e]; [|done]. destruct (if _ : bool then _ else _) as [host|]; [|done].
  match goal with |- context [add_cookies u ?x v] => pose proof (add_cookies_pool u x v) as Hc; destruct (add_cookies u x v) as [hs1 v1] end.
  pose proof (add_trace_pool h hs1 v1) as Ht. destruct (add_trace h hs1 v1) as [hs2 v2]. cbn [fst snd] in *. by rewrite Ht.
Qed.

Lemma store_cookies_pool u (hs : Headers) : forall v, hv_pool (store_cookies u hs v) = hv_pool v.
Proof. unfold store_cookies. induction hs as [|kv hs IH]; intros v; [done|]. cbn [foldl]. rewrite IH. by destruct (if _ : bool then _ else _). Qed.

Lemma reuse_ok key v v' o : pool_ok v -> reuse key v = (v', o) ->
  pool_ok v' /\ forall c, o = Some (Some c) -> origin c = key.
Proof.
  intros Hp. unfold reuse. assert (forall n, pool_ok (set_net n (set_pool (delete key (hv_pool v)) v)) /\ pool_ok (set_pool (delete key (hv_pool v)) v)) as Hd.
  { intros n. split; intros k c Hk; cbn in Hk; apply lookup_delete_Some in Hk as [_ Hk]; by apply Hp. }
  destruct (hv_pool v !! key) as [c|] eqn:Hc; [|intros [= <- <-]; split; [apply (Hd (hv_net v))|done]].
  destruct (closed _ _); [intros [= <- <-]; split; [apply (Hd (hv_net v))|done]|]. cbn [set_pool hv_net].
  destruct (ready c (hv_net v)) as [n [[]|]]; intros [= <- <-]; (split; [apply (Hd n)|]); [|intros ? [=]|intros ? [=]]. intros c' [= <-]. by apply Hp.
Qed.

Lemma keep_connection_ok h key c r v : pool_ok v -> origin c = key -> pool_ok (keep_connection h key c r v).
Proof.
  intros Hp Hc. unfold keep_connection. destruct (_ && _); [|done]. intros k c' Hk. cbn in Hk.
  apply lookup_insert_Some in Hk as [[<- <-]|[_ Hk]]; [done|by apply Hp].
Qed.

Lemma send_on_ok h request u method body key c timings v v' out : pool_ok v -> origin c = key ->
  send_on h request u method body key c timings v = (v', out) -> pool_ok v'.
Proof.
  intros Hp Hc. unfold send_on. pose proof (build_request_pool h request u method body (is_h2 c) v) as Hb.
  destruct (build_request h request u method body (is_h2 c) v) as [v1 [[wire sent]|e]]; cbn [fst] in Hb.
  2: { intros [= <- _]. intros k c' Hk. rewrite Hb in Hk. by apply Hp. }
  assert (forall n, pool_ok (set_net n v1)) as H1 by (intros n k c' Hk; cbn in Hk; rewrite Hb in Hk; by apply Hp).
  destruct (exchange_on c wire (hv_net v1)) as [n [[sending [r|e]]|]]; intros [= <- _]; try done.
  apply keep_connection_ok; [|done]. intros k c' Hk. rewrite store_cookies_pool in Hk. by apply (H1 n).
Qed.

Lemma one_request_ok h request u method body v v' out : pool_ok v -> one_request h request u method body v = (v', out) -> pool_ok v'.
Proof.
  intros Hp. unfold one_request. destruct (host_port u) as [[host port]|e] eqn:Hhp; [|by intros [= <- _]].
  destruct (reuse (scheme_of u, host, port) v) as [v1 o] eqn:Hr. apply reuse_ok in Hr as [Hp1 Ho]; [|done]. destruct o as [[c|]|]; [| |by intros [= <- _]].
  - intros Hs. by apply send_on_ok in Hs; auto.
  - destruct (dial u (dial_override h u) (hv_net v1)) as [n [[timings [c|msg]]|]] eqn:Hd; [|by intros [= <- _]|by intros [= <- _]].
    intros Hs. apply send_on_ok in Hs; [done|done|]. by eapply dial_origin.
Qed.

Lemma run_hops_ok (fuel : nat) h request : forall redirects u method body t v, pool_ok v -> pool_ok (run_hops fuel h request redirects u method body t v).1.
Proof.
  induction fuel as [|fuel IH]; intros redirects u method body t v Hp; [done|]. cbn [run_hops].
  destruct (one_request h request u method body v) as [v1 out] eqn:Ho. apply one_request_ok in Ho; [|done]. destruct out as [hop|e|]; [|done|done].
  destruct (next_hop _ _ _ _ _ _); [by apply IH|done].
Qed.

Lemma settle_pool key r v : hv_pool (settle key r v).1 = hv_pool v.
Proof. unfold settle. destruct (if _ : bool then _ else _); [done|]. destruct (_ && _); [|done]. by destruct (cache_max_age _). Qed.

Lemma execute_ok h request v : pool_ok v -> pool_ok (execute h request v).1.
Proof.
  intros Hp. unfold execute. destruct (parse_url _) as [u|e]; [|done]. destruct (negb _); [done|]. destruct (parse_method _) as [method|e]; [|done].
  destruct (_ && _).
  - unfold run_cached. destruct (hv_cache v !! hu_str u ≫= _); [done|].
    pose proof (run_hops_ok (S (Z.to_nat (pr_max_redirects (conditional (hv_cache v !! hu_str u) request)))) h (conditional (hv_cache v !! hu_str u) request) 0 u method
      (pr_body (conditional (hv_cache v !! hu_str u) request)) Totals_zero v Hp) as Hr. unfold run.
    destruct (run_hops _ _ _ _ _ _ _ _ v) as [v1 [[r|e|]|]]; cbn [fst] in Hr; [|done|done|done].
    pose proof (settle_pool (hu_str u) r v1) as Hs. destruct (settle (hu_str u) r v1) as [v2 r2]. cbn [fst] in *. intros k c Hk. rewrite Hs in Hk. by apply Hr.
  - pose proof (run_hops_ok (S (Z.to_nat (pr_max_redirects request))) h request 0 u method (pr_body request) Totals_zero v Hp) as Hr. unfold run.
    destruct (run_hops _ _ _ _ _ _ _ _ v) as [v1 [[r|e|]|]]; done.
Qed.

(** The requests of a virtual user, one after another. *)
Definition session_of (h : HttpHandler) (requests : list PreparedRequest) (v : HttpVu) : HttpVu := foldl (fun v request => (execute h request v).1) v requests.

(** C23: a connection carries requests for its own origin only: whatever requests, redirects and deadlines a virtual user has seen, what a
    hop is sent on, from the pool or newly opened, was opened to the scheme, host and port of the hop's URL. *)
Theorem connections_same_origin h (requests : list PreparedRequest) (v : HttpVu) request u method body host port v' out :
  hv_pool v = ∅ -> host_port u = Ok (host, port) ->
  one_request h request u method body (session_of h requests v) = (v', out) ->
  (exists c timings v1, origin c = (scheme_of u, host, port)
     /\ (v', out) = send_on h request u method body (scheme_of u, host, port) c timings v1)
  \/ out = Elapsed \/ exists msg timings, out = Done (transport_error_response msg timings u).
Proof.
  intros Hempty Hhp. assert (pool_ok (session_of h requests v)) as Hp.
  { unfold session_of. assert (pool_ok v) as Hv by (intros k c Hk; by rewrite Hempty, lookup_empty in Hk). revert Hv. generalize v. induction requests as [|r rs IH]; intros w Hw; [done|].
    cbn [foldl]. by apply IH, execute_ok. }
  unfold one_request. rewrite Hhp. destruct (reuse (scheme_of u, host, port) (session_of h requests v)) as [v1 o] eqn:Hr. apply reuse_ok in Hr as [_ Ho]; [|done].
  destruct o as [[c|]|].
  - intros Hs. left. exists c, Timings_default, v1. split; [by apply Ho|done].
  - destruct (dial u (dial_override h u) (hv_net v1)) as [n [[timings [c|msg]]|]] eqn:Hd.
    + intros Hs. left. exists c, (set_blocked timings), (set_net n v1). split; [by eapply dial_origin|done].
    + intros [= _ <-]. right. right. by exists msg, timings.
    + intros [= _ <-]. right. by left.
  - intros [= _ <-]. right. by left.
Qed.
End Origins.
End Http.

(** ** GraphQL over HTTP (graphql.rs) *)

Definition graphql_errors (value : Value) : list Value := match json_field "errors" value with Some (Array errors) => errors | _ => [] end.
Definition post_process `{JsonText} (r : ProtocolResponse) : ProtocolResponse :=
  if negb (Z.eqb (rs_status r) 200) || bool_decide (is_Some (rs_error r)) then r
  else match from_json (rs_body r) with
       | Err _ => r
       | Ok value =>
           match graphql_errors value with
           | [] => r
           | errors =>
               let count := Z.of_nat (length errors) in
               let r := set_extras (Object [("errors", Array errors); ("graphql_errors", Num (PosInt count))]) r in
               match json_field "data" value with
               | None => set_error (Some ("graphql: " +:+ Z_to_string count +:+ " error(s)")) r
               | Some _ => r
               end
           end
       end.

Module HttpDemo.
(** A network that answers from a script and keeps what it was sent, in order. *)
Record ScriptNet := mkScriptNet { sn_answers : list WireResponse; sn_sent : list (PoolKey * WireRequest); sn_clock : Z }.

#[export] Instance script_network : HttpNetwork := {|
  net := ScriptNet;
  conn := PoolKey;
  clock n := sn_clock n;
  ready c n := (n, Some true);
  dial u _ n := (n, Some (Timings_default, match host_port u with Ok (host, port) => Ok (scheme_of u, host, port) | Err e => Err e end));
  is_h2 _ := false;
  closed _ _ := false;
  exchange_on c wire n :=
    match sn_answers n with
    | r :: answers => (mkScriptNet answers (sn_sent n ++ [(c, wire)]) (sn_clock n), Some (f64_zero, Ok r))
    | [] => (n, None)
    end;
  trace_seed n := (n, (0, 0));
|}.

#[export] Instance script_laws : HttpNetworkLaws.
Proof.
  refine {| origin c := c |}. intros u o n n' t c host port. cbn. intros [= _ _ Hc] Hhp. rewrite Hhp in Hc. by injection Hc as <-.
Defined.

Definition url (host path : string) : HttpUrl := mkHttpUrl (mkUrl "https" (Some host) path) None (Some 443) None ("https://" +:+ host +:+ path).
Definition parse (s : string) : result string HttpUrl := if bool_decide (s = "https://a/") then Ok (url "a" "/") else Err "unknown".
Definition join (u : HttpUrl) (s : string) : result string HttpUrl := if bool_decide (s = "https://b/x") then Ok (url "b" "/x") else Err "unknown".
Definition keep (s : string) : option string := Some s.
Definition no_cookie (s : string) : option ParsedCookie := None.
Definition plain (e s : string) : result string (option string) := Ok None.
Definition show (d : Duration) : string := "".

Definition handler : HttpHandler := mkHttpHandler false false true None false false ∅ true.
Definition answer (status : Z) (headers : Headers) (body : string) : WireResponse := mkWireResponse status "" "HTTP/1.1" headers body None f64_zero f64_zero.
Definition request : PreparedRequest :=
  mkPrepared "r" "http" "POST" "https://a/" [("authorization", "secret")] "data" 0 true 3 RequestOptions_default.
Definition vu (answers : list WireResponse) : HttpVu := mkHttpVu 1 (CookieJar_new true) ∅ ∅ (mkScriptNet answers [] 0).
Definition redirected : HttpVu := vu [answer 302 [("location", "https://b/x")] ""; answer 200 [] "ok"].
Definition go (v : HttpVu) := run keep keep no_cookie join plain handler request (url "a" "/") "POST" v.
Definition response : ProtocolResponse :=
  mkResponse 200 "" [] "ok" (foldl add_timings Timings_default [set_exchange f64_zero f64_zero f64_zero (set_blocked Timings_default); set_exchange f64_zero f64_zero f64_zero (set_blocked Timings_default)])
    171 59 "HTTP/1.1" None "https://b/x" Null [].

Lemma redirects_exact_witness : (go redirected).2 = Some (Done response) /\ exists trace error u' m' b' hop,
  hops keep keep no_cookie join plain handler request 0 (url "a" "/") "POST" "data" redirected trace (go redirected).1 error
  /\ last trace = Some (u', m', b', hop) /\ rs_url response = hu_str u'
  /\ Forall (fun phase => phase (rs_timings response) = foldl (fun ms x => f64_add ms (phase (rs_timings x.2))) f64_zero trace) phases.
Proof.
  assert ((go redirected).2 = Some (Done response)) as Hgo by (vm_compute; reflexivity). split; [exact Hgo|].
  destruct (redirects_exact keep keep no_cookie join plain handler request (url "a" "/") "POST" redirected (go redirected).1 (go redirected).2) as [_ Hr].
  - vm_compute. discriminate.
  - exact (surjective_pairing (go redirected)).
  - destruct (Hr response Hgo) as (trace & error & u' & m' & b' & hop & Hh & _ & _ & Hl & _ & _ & _ & _ & Hu & _ & _ & Ht).
    exists trace, error, u', m', b', hop. exact (conj Hh (conj Hl (conj Hu Ht))).
Defined.

(** The credentials of a request follow it to another origin. *)
Example credentials_follow : (fun x => (x.1, get_header "authorization" (wq_headers x.2))) <$> sn_sent (hv_net (go redirected).1)
  = [(("https", "a", 443), Some "secret"); (("https", "b", 443), Some "secret")].
Proof. vm_compute. reflexivity. Qed.

Definition cacheable : ProtocolResponse :=
  mkResponse 200 "" [("cache-control", "public, max-age=60")] "page" Timings_default 10 20 "HTTP/1.1" None "https://a/" Null [].
Definition stored : HttpVu := (settle "https://a/" cacheable (vu [])).1.

Lemma cache_exact_witness : exists r,
  run_cached keep keep no_cookie join plain show handler request (url "a" "/") "GET" 0 stored = (stored, Some (Ok r)) /\ rs_body r = "page".
Proof.
  pose proof (cache_exact keep keep no_cookie join plain show handler request (url "a" "/") "GET" 0 cacheable (vu []) stored 0 eq_refl eq_refl) as Hc.
  assert (cache_max_age (rs_headers cacheable) = Some (Duration_from_secs 60)) as Ha by (vm_compute; reflexivity). rewrite Ha in Hc.
  destruct (Hc eq_refl) as (r & Hr & _ & _ & _ & Hb & _); [vm_compute; reflexivity|]. exists r. exact (conj Hr Hb).
Defined.

(** [no-cache] asks for revalidation, and is not looked at. *)
Example no_cache_is_cached : cache_max_age [("cache-control", "no-cache, max-age=60")] = Some (Duration_from_secs 60).
Proof. vm_compute. reflexivity. Qed.

Definition hop_on := one_request keep keep no_cookie plain handler request (url "a" "/") "POST" "data"
  (session_of keep keep no_cookie parse join keep plain show handler [request] redirected).

Lemma connections_same_origin_witness :
  (exists c timings v1, origin c = ("https", "a", 443)
    /\ (hop_on.1, hop_on.2) = send_on keep keep no_cookie plain handler request (url "a" "/") "POST" "data" ("https", "a", 443) c timings v1)
  \/ hop_on.2 = Elapsed \/ exists msg timings, hop_on.2 = Done (transport_error_response msg timings (url "a" "/")).
Proof.
  exact (connections_same_origin keep keep no_cookie parse join keep plain show handler [request] redirected request (url "a" "/") "POST" "data"
    "a" 443 hop_on.1 hop_on.2 eq_refl eq_refl (surjective_pairing hop_on)).
Defined.
End HttpDemo.
