(* ===== verification/Sockets.v ===== *)
(** * Raw TCP and UDP (crates/loadr-protocols/src/socket.rs, net.rs)

    The exchange of a request: resolving the host, connecting, writing the payload and reading the answer.  What the network
    gives at each await is data: the time it took and its outcome; a read may never answer. *)

From Stdlib Require Import Ascii.
From S2P Require Import Prelude Float64 Str Dur Value Template Protocol Cookies Program Interp Http.

(** How an await ends: with a value, with the request cancelled by its own deadline, or not at all. *)
Inductive Await (A : Type) :=
| Ready (a : A)
| Cancelled
| Waiting.
Arguments Ready {A} a.
Arguments Cancelled {A}.
Arguments Waiting {A}.

Definition await_bind {A B} (m : Await A) (k : A -> Await B) : Await B :=
  match m with Ready a => k a | Cancelled => Cancelled | Waiting => Waiting end.
Notation "'await' x ':=' m 'in' k" := (await_bind m (fun x => k)) (at level 200, x strict pattern, m at level 100, k at level 200).

Lemma await_bind_Ready {A B} (m : Await A) (k : A -> Await B) (b : B) :
  await_bind m k = Ready b <-> exists a, m = Ready a /\ k a = Ready b.
Proof. destruct m as [a| |]; simpl; [|split; [done|by intros (? & [=] & _)]..]. split; [by eauto|by intros (? & [= ->] & ?)]. Qed.

(** ** Resolving (net.rs) *)

Inductive Host := IpHost (ip : string) | DomainHost (domain : string).
Definition host_text (h : Host) : string := match h with IpHost s | DomainHost s => s end.

Definition set_dns (ms : f64) (t : Timings) : Timings :=
  mkTimings ms (connect_ms t) (tls_ms t) (sending_ms t) (waiting_ms t) (receiving_ms t) (duration_ms t) (blocked_ms t).
Definition set_connect (ms : f64) (t : Timings) : Timings :=
  mkTimings (dns_ms t) ms (tls_ms t) (sending_ms t) (waiting_ms t) (receiving_ms t) (duration_ms t) (blocked_ms t).
Definition set_sending (ms : f64) (t : Timings) : Timings :=
  mkTimings (dns_ms t) (connect_ms t) (tls_ms t) ms (waiting_ms t) (receiving_ms t) (duration_ms t) (blocked_ms t).
Definition set_waiting (ms : f64) (t : Timings) : Timings :=
  mkTimings (dns_ms t) (connect_ms t) (tls_ms t) (sending_ms t) ms (receiving_ms t) (duration_ms t) (blocked_ms t).
Definition set_receiving (ms : f64) (t : Timings) : Timings :=
  mkTimings (dns_ms t) (connect_ms t) (tls_ms t) (sending_ms t) (waiting_ms t) ms (duration_ms t) (blocked_ms t).
Definition set_duration (ms : f64) (t : Timings) : Timings :=
  mkTimings (dns_ms t) (connect_ms t) (tls_ms t) (sending_ms t) (waiting_ms t) (receiving_ms t) ms (blocked_ms t).
Definition set_blocked_ms (ms : f64) (t : Timings) : Timings :=
  mkTimings (dns_ms t) (connect_ms t) (tls_ms t) (sending_ms t) (waiting_ms t) (receiving_ms t) (duration_ms t) ms.
(** [timings.duration_ms = sending + waiting + receiving]. *)
Definition total_duration (t : Timings) : Timings :=
  set_duration (f64_add (f64_add (sending_ms t) (waiting_ms t)) (receiving_ms t)) t.

Section Sockets.
Context {Addr : Type} (addr_to_string : Addr -> string) (is_ipv4 : Addr -> bool).
(** [SocketAddr::new] of a literal; [{:?}] of a duration; the parser of URLs, with the kind of their host. *)
Context (socket_addr : string -> Z -> Addr) (debug_duration : Duration -> string).
Context (parse_url : string -> result string HttpUrl) (host_kind : string -> Host).

(** [lookup]: the answer of the resolver, asked for a domain only. *)
Definition resolve_all (host : Host) (port : Z) (t : Timings) (lookup : Await (f64 * result string (list Addr))) :
    Await (Timings * result string (list Addr)) :=
  match host with
  | IpHost ip => Ready (t, Ok [socket_addr ip port])
  | DomainHost domain =>
      await (ms, r) := lookup in
      match r with
      | Err e => Ready (t, Err ("dns lookup for `" +:+ domain +:+ "` failed: " +:+ e))
      | Ok addrs =>
          Ready (set_dns ms t,
                 match addrs with [] => Err ("dns lookup for `" +:+ domain +:+ "` returned no addresses") | _ => Ok addrs end)
      end
  end.
Definition resolve (host : Host) (port : Z) (t : Timings) (lookup : Await (f64 * result string (list Addr))) :
    Await (Timings * result string Addr) :=
  await (t, r) := resolve_all host port t lookup in
  Ready (t, match r with
            | Err e => Err e
            | Ok [] => Err ("dns lookup for `" +:+ host_text host +:+ "` returned no addresses")
            | Ok (a :: _) => Ok a
            end).

(** ** Targets and answers *)

Definition parse_target (raw scheme : string) : result string HttpUrl :=
  match parse_url raw with
  | Err e => Err ("invalid url `" +:+ raw +:+ "`: " +:+ e)
  | Ok u =>
      if negb (bool_decide (scheme_of u = scheme)) then
        Err (scheme +:+ " handler cannot handle scheme `" +:+ scheme_of u +:+ "`")
      else match url_host (hu_url u), hu_port u with
           | Some _, Some _ => Ok u
           | _, _ => Err ("`" +:+ raw +:+ "` must be " +:+ scheme +:+ "://host:port")
           end
  end.

Definition socket_response (protocol : string) (u : HttpUrl) (body : string) (t : Timings) (bytes_sent : Z) (error : option string) :
    ProtocolResponse :=
  mkResponse 0 "" [] body t bytes_sent (Z.of_nat (str_len body)) protocol error (hu_str u) Null [].

Inductive ReadMode := Exact (n : Z) | UntilClose | Single.
Definition read_mode (opts : SocketRequest) : ReadMode :=
  match sr_read_bytes opts with
  | Some n => Exact n
  | None => if sr_read_until_close opts then UntilClose else Single
  end.

(** ** Reading *)

(** What an await of the reading loop gives, after some milliseconds: bytes, of which a stream gives none at its end; an
    error; the deadline of the reads; or the deadline of the request, which cancels everything. *)
Inductive ReadEvent :=
| ReadData (elapsed : f64) (bytes : string)
| ReadFailed (elapsed : f64) (e : string)
| ReadTimedOut (elapsed : f64)
| ReadCancelled.

Definition tcp_done (mode : ReadMode) (received : string) : bool :=
  match mode with
  | Exact n => Z.leb n (Z.of_nat (str_len received))
  | UntilClose => false
  | Single => negb (str_is_empty received)
  end.
Definition udp_done (target : option Z) (received : string) : bool :=
  match target with
  | Some n => Z.leb n (Z.of_nat (str_len received))
  | None => negb (str_is_empty received)
  end.

Definition time_read (first : bool) (elapsed : f64) (t : Timings) : Timings :=
  if first then set_waiting elapsed t else set_receiving (f64_add (receiving_ms t) elapsed) t.

(** The loop of [read_tcp] ([closes]: a read of nothing is the end) and of the datagrams of [UdpHandler::run]. *)
Fixpoint read_loop (done : string -> bool) (closes : bool) (failed : string) (read_timeout : Duration) (first : bool) (t : Timings)
    (received : string) (events : list ReadEvent) : Await (Timings * string * option string) :=
  if done received then Ready (t, received, None)
  else match events with
       | [] => Waiting
       | ReadCancelled :: _ => Cancelled
       | ReadTimedOut ms :: _ => Ready (time_read first ms t, received, Some ("read timed out after " +:+ debug_duration read_timeout))
       | ReadFailed ms e :: _ => Ready (time_read first ms t, received, Some (failed +:+ e))
       | ReadData ms bytes :: events =>
           if closes && str_is_empty bytes then Ready (time_read first ms t, received, None)
           else read_loop done closes failed read_timeout false (time_read first ms t) (received +:+ bytes) events
       end.
Definition read_tcp (mode : ReadMode) (read_timeout : Duration) (t : Timings) (events : list ReadEvent) :
    Await (Timings * string * option string) :=
  read_loop (tcp_done mode) true "read failed: " read_timeout true t "" events.
Definition recv_udp (target : option Z) (read_timeout : Duration) (t : Timings) (events : list ReadEvent) :
    Await (Timings * string * option string) :=
  read_loop (udp_done target) false "recv failed: " read_timeout true t "" events.

(** ** An exchange *)

(** What the network does: [wi_open] connects to an address, or binds one; [wi_elapsed] is the time the request had taken
    when it was cancelled. *)
Record Wire := mkWire {
  wi_lookup : Await (f64 * result string (list Addr));
  wi_open : string -> Await (f64 * result string unit);
  wi_send : string -> Await (f64 * result string unit);
  wi_reads : list ReadEvent;
  wi_elapsed : f64;
}.

Definition target_of (u : HttpUrl) : result string (Host * Z) :=
  match url_host (hu_url u), hu_port u with
  | None, _ => Err ("url `" +:+ hu_str u +:+ "` has no host")
  | _, None => Err ("url `" +:+ hu_str u +:+ "` has no port")
  | Some host, Some port => Ok (host_kind host, port)
  end.

Definition tcp_run (u : HttpUrl) (opts : SocketRequest) (payload : string) (read_timeout : Duration) (w : Wire) :
    Await (result string ProtocolResponse) :=
  match target_of u with
  | Err e => Ready (Err e)
  | Ok (host, port) =>
      await (t, addr) := resolve host port Timings_default (wi_lookup w) in
      match addr with
      | Err e => Ready (Err e)
      | Ok addr =>
          await (ms, r) := wi_open w (addr_to_string addr) in
          match r with
          | Err e => Ready (Err ("connection to " +:+ addr_to_string addr +:+ " failed: " +:+ e))
          | Ok tt =>
              let t := set_connect ms t in
              let t := set_blocked_ms (f64_add (dns_ms t) (connect_ms t)) t in
              await (ms, r) := wi_send w payload in
              match r with
              | Err e => Ready (Err ("send failed: " +:+ e))
              | Ok tt =>
                  let t := set_sending ms t in
                  await (t, body, error) := read_tcp (read_mode opts) read_timeout t (wi_reads w) in
                  Ready (Ok (socket_response "tcp" u body (total_duration t) (Z.of_nat (str_len payload)) error))
              end
          end
      end
  end.

Definition bind_addr (addr : Addr) : string := if is_ipv4 addr then "0.0.0.0:0" else "[::]:0".

Definition udp_run (u : HttpUrl) (opts : SocketRequest) (payload : string) (read_timeout : Duration) (w : Wire) :
    Await (result string ProtocolResponse) :=
  match target_of u with
  | Err e => Ready (Err e)
  | Ok (host, port) =>
      await (t, addr) := resolve host port Timings_default (wi_lookup w) in
      match addr with
      | Err e => Ready (Err e)
      | Ok addr =>
          let t := set_blocked_ms (dns_ms t) t in
          await (_, r) := wi_open w (bind_addr addr) in
          match r with
          | Err e => Ready (Err ("udp bind failed: " +:+ e))
          | Ok tt =>
              await (ms, r) := wi_send w payload in
              match r with
              | Err e => Ready (Err ("send failed: " +:+ e))
              | Ok tt =>
                  let t := set_sending ms t in
                  await (t, body, error) := recv_udp (sr_read_bytes opts) read_timeout t (wi_reads w) in
                  Ready (Ok (socket_response "udp" u body (total_duration t) (Z.of_nat (str_len payload)) error))
              end
          end
      end
  end.

Definition with_version (version : string) (r : ProtocolResponse) : ProtocolResponse :=
  mkResponse (rs_status r) (rs_status_text r) (rs_headers r) (rs_body r) (rs_timings r) (rs_bytes_sent r) (rs_bytes_received r)
    version (rs_error r) (rs_url r) (rs_extras r) (rs_grpc_protobuf_outcomes r).

Definition SocketRequest_default : SocketRequest := mkSocketRequest "" None false None.

(** [execute] of both handlers; [run] is that of the protocol. *)
Definition socket_execute (protocol : string)
    (run : HttpUrl -> SocketRequest -> string -> Duration -> Wire -> Await (result string ProtocolResponse))
    (request : PreparedRequest) (w : Wire) : Await (result string ProtocolResponse) :=
  match parse_target (pr_url request) protocol with
  | Err e => Ready (Err e)
  | Ok u =>
      let opts := default SocketRequest_default (ro_socket (pr_options request)) in
      let payload := if str_is_empty (sr_payload opts) then pr_body request else sr_payload opts in
      let read_timeout := default (pr_timeout request) (sr_read_timeout opts) in
      match run u opts payload read_timeout w with
      | Ready (Ok response) => Ready (Ok response)
      | Ready (Err message) => Ready (Ok (socket_response protocol u "" Timings_default 0 (Some message)))
      | Cancelled => Ready (Ok (with_version protocol (timeout_response request (wi_elapsed w) (debug_duration (pr_timeout request)))))
      | Waiting => Waiting
      end
  end.
Definition tcp_execute : PreparedRequest -> Wire -> Await (result string ProtocolResponse) := socket_execute "tcp" tcp_run.
Definition udp_execute : PreparedRequest -> Wire -> Await (result string ProtocolResponse) := socket_execute "udp" udp_run.
End Sockets.

(** ** What is read *)

(** The texts one after another. *)
Definition cat (l : list string) : string := join "" l.
Lemma cat_cons (b : string) (l : list string) : cat (b :: l) = b +:+ cat l.
Proof. unfold cat. destruct l; simpl; [|done]. apply chars_inj. by rewrite chars_app, app_nil_r. Qed.

(** [datas] is what a reading that ended well took of [events]: nothing was read that was not wanted, and it ended because
    there was enough, or because the peer closed the stream. *)
Record read_well (done : string -> bool) (closes : bool) (received : string) (events : list ReadEvent) (datas : list string) : Prop := {
  rw_read : forall i b, datas !! i = Some b -> (exists ms, events !! i = Some (ReadData ms b)) /\ (closes = true -> b <> "");
  rw_wanted : forall i, (i < length datas)%nat -> done (received +:+ cat (take i datas)) = false;
  rw_end : done (received +:+ cat datas) = true
           \/ done (received +:+ cat datas) = false /\ closes = true /\ exists ms, events !! length datas = Some (ReadData ms "");
}.

Lemma str_app_empty (s : string) : s +:+ "" = s.
Proof. apply chars_inj. by rewrite chars_app, app_nil_r. Qed.
Lemma after_none (received : string) : received +:+ cat [] = received.
Proof. apply str_app_empty. Qed.
Lemma after_first (received b : string) (l : list string) : received +:+ cat (b :: l) = (received +:+ b) +:+ cat l.
Proof. by rewrite cat_cons, str_app_assoc. Qed.

Lemma read_well_done done closes received events datas :
  done received = true -> read_well done closes received events datas <-> datas = [].
Proof.
  intros Hd. split.
  - intros [_ Hw _]. destruct datas as [|b datas]; [done|]. specialize (Hw 0%nat). cbn [take length] in Hw.
    rewrite after_none in Hw. rewrite Hw in Hd by lia. done.
  - intros ->. split; [done|cbn [length]; lia|left; by rewrite after_none].
Qed.

(** An event that is no data ends no reading well. *)
Lemma read_well_stuck done closes received events datas :
  done received = false -> (forall ms b, head events <> Some (ReadData ms b)) -> ~ read_well done closes received events datas.
Proof.
  intros Hd Hh [Hr _ He]. destruct datas as [|b datas].
  - rewrite after_none in He. destruct He as [He|(_ & _ & ms & He)]; [congruence|]. apply (Hh ms ""). by destruct events.
  - destruct (Hr 0%nat b eq_refl) as [(ms & He') _]. apply (Hh ms b). by destruct events.
Qed.

Lemma read_well_step done closes received ms b events datas :
  done received = false ->
  read_well done closes received (ReadData ms b :: events) datas
  <-> (if closes && str_is_empty b then datas = []
       else exists datas', datas = b :: datas' /\ read_well done closes (received +:+ b) events datas').
Proof.
  intros Hd. unfold str_is_empty. destruct (closes && bool_decide (b = "")) eqn:Hc.
  - apply andb_true_iff in Hc as [-> ->%bool_decide_eq_true]. split.
    + intros [Hr _ _]. destruct datas as [|b datas]; [done|]. destruct (Hr 0%nat b eq_refl) as [(? & [= _ <-]) Hb]. by destruct Hb.
    + intros ->. split; [done|cbn [length]; lia|]. rewrite after_none. right. eauto.
  - split.
    + intros [Hr Hw He]. destruct datas as [|b' datas].
      * rewrite after_none in He. destruct He as [He|(_ & -> & ms' & [= _ ->])]; [congruence|]. by rewrite bool_decide_true in Hc.
      * destruct (Hr 0%nat b' eq_refl) as [(? & [= _ <-]) _]. exists datas. split; [done|]. split.
        -- intros i c Hi. apply (Hr (S i) c Hi).
        -- intros i Hi. rewrite <- after_first. apply (Hw (S i)). cbn [length]. lia.
        -- by rewrite <- after_first.
    + intros (datas' & -> & [Hr Hw He]). split.
      * intros [|i] c Hi; [|by apply Hr]. injection Hi as <-. split; [by exists ms|]. intros -> ->. by rewrite bool_decide_true in Hc.
      * intros [|i] Hi; cbn [take]; [by rewrite after_none|]. rewrite after_first. apply Hw. cbn [length] in Hi. lia.
      * by rewrite after_first.
Qed.

Lemma read_loop_exact (debug : Duration -> string) done closes failed rt first t received events body :
  (exists t', read_loop debug done closes failed rt first t received events = Ready (t', body, None))
  <-> exists datas, read_well done closes received events datas /\ body = received +:+ cat datas.
Proof.
  revert first t received. induction events as [|ev events IH]; intros first t received; cbn [read_loop];
    (destruct (done received) eqn:Hd;
     [split; [intros (? & [= _ <-]); exists []; rewrite after_none; by rewrite read_well_done
             |intros (datas & Hw & ->); rewrite read_well_done in Hw by done; subst; rewrite after_none; by eexists]|]).
  - split; [by intros (? & [=])|]. intros (datas & Hw & _). by apply read_well_stuck in Hw.
  - destruct ev as [ms b|ms e|ms|]; [|split; [by intros (? & [=])|]; intros (datas & Hw & _); by apply read_well_stuck in Hw..].
    destruct (closes && str_is_empty b) eqn:Hc.
    + split.
      * intros (? & [= _ <-]). exists []. rewrite after_none, read_well_step by done. by rewrite Hc.
      * intros (datas & Hw & ->). rewrite read_well_step, Hc in Hw by done. subst. rewrite after_none. by eexists.
    + rewrite IH. split.
      * intros (datas & Hw & ->). exists (b :: datas). rewrite after_first, read_well_step by done. rewrite Hc. eauto.
      * intros (datas & Hw & ->). rewrite read_well_step, Hc in Hw by done. destruct Hw as (datas' & -> & Hw).
        exists datas'. by rewrite after_first.
Qed.

Section Answers.
Context {Addr : Type} (addr_to_string : Addr -> string) (is_ipv4 : Addr -> bool) (socket_addr : string -> Z -> Addr).
Context (debug_duration : Duration -> string) (parse_url : string -> result string HttpUrl) (host_kind : string -> Host).
Local Notation parse_target := (parse_target parse_url).
Local Notation target_of := (target_of host_kind).
Local Notation resolve := (resolve socket_addr).
Local Notation tcp_execute := (tcp_execute addr_to_string socket_addr debug_duration parse_url host_kind).
Local Notation udp_execute := (udp_execute is_ipv4 socket_addr debug_duration parse_url host_kind).

Definition options_of (request : PreparedRequest) : SocketRequest := default SocketRequest_default (ro_socket (pr_options request)).
Definition payload_of (request : PreparedRequest) : string :=
  if str_is_empty (sr_payload (options_of request)) then pr_body request else sr_payload (options_of request).

(** The exchange behind an answer: the first address of the host was opened, and the payload sent on it. *)
Definition exchanged (protocol : string) (open_on : Addr -> string) (request : PreparedRequest) (w : Wire) : Prop :=
  exists u host port t addr ms ms', parse_target (pr_url request) protocol = Ok u /\ target_of u = Ok (host, port)
    /\ resolve host port Timings_default (wi_lookup w) = Ready (t, Ok addr)
    /\ wi_open w (open_on addr) = Ready (ms, Ok tt) /\ wi_send w (payload_of request) = Ready (ms', Ok tt).

(** An answer of either protocol without an error went through the exchange, and then the reading loop ended well. *)
Definition runs_through (run : HttpUrl -> SocketRequest -> string -> Duration -> Wire -> Await (result string ProtocolResponse))
    (open_on : Addr -> string) (loop : SocketRequest -> Duration -> Timings -> list ReadEvent -> Await (Timings * string * option string)) :
    Prop :=
  forall u opts payload rt w r, run u opts payload rt w = Ready (Ok r) ->
  exists host port t addr ms ms' t' t'', target_of u = Ok (host, port) /\ resolve host port Timings_default (wi_lookup w) = Ready (t, Ok addr)
    /\ wi_open w (open_on addr) = Ready (ms, Ok tt) /\ wi_send w payload = Ready (ms', Ok tt)
    /\ loop opts rt t' (wi_reads w) = Ready (t'', rs_body r, rs_error r)
    /\ rs_bytes_sent r = Z.of_nat (str_len payload) /\ rs_bytes_received r = Z.of_nat (str_len (rs_body r)).

Lemma tcp_runs : runs_through (tcp_run addr_to_string socket_addr debug_duration host_kind) addr_to_string
                   (fun opts => read_tcp debug_duration (read_mode opts)).
Proof.
  intros u opts payload rt w r. unfold tcp_run. destruct (target_of u) as [[host port]|]; [|done].
  rewrite await_bind_Ready. intros ([t addr] & Hres & Hk). destruct addr as [addr|]; [|done].
  apply await_bind_Ready in Hk as ([ms o] & Ho & Hk). destruct o as [[]|]; [|done].
  apply await_bind_Ready in Hk as ([ms' o] & Hs & Hk). destruct o as [[]|]; [|done].
  apply await_bind_Ready in Hk as ([[t'' body] error] & Hr & [= <-]). by repeat eexists.
Qed.
Lemma udp_runs : runs_through (udp_run is_ipv4 socket_addr debug_duration host_kind) (bind_addr is_ipv4)
                   (fun opts => recv_udp debug_duration (sr_read_bytes opts)).
Proof.
  intros u opts payload rt w r. unfold udp_run. destruct (target_of u) as [[host port]|]; [|done].
  rewrite await_bind_Ready. intros ([t addr] & Hres & Hk). destruct addr as [addr|]; [|done].
  apply await_bind_Ready in Hk as ([ms o] & Ho & Hk). destruct o as [[]|]; [|done].
  apply await_bind_Ready in Hk as ([ms' o] & Hs & Hk). destruct o as [[]|]; [|done].
  apply await_bind_Ready in Hk as ([[t'' body] error] & Hr & [= <-]). by repeat eexists.
Qed.

Lemma answered (protocol : string) (run : HttpUrl -> SocketRequest -> string -> Duration -> Wire -> Await (result string ProtocolResponse))
    (open_on : Addr -> string) (loop : SocketRequest -> Duration -> Timings -> list ReadEvent -> Await (Timings * string * option string))
    (request : PreparedRequest) (w : Wire) (r : ProtocolResponse) :
  runs_through run open_on loop ->
  socket_execute debug_duration parse_url protocol run request w = Ready (Ok r) -> rs_error r = None ->
  exchanged protocol open_on request w
  /\ (exists rt t' t'', loop (options_of request) rt t' (wi_reads w) = Ready (t'', rs_body r, None))
  /\ rs_bytes_sent r = Z.of_nat (str_len (payload_of request)) /\ rs_bytes_received r = Z.of_nat (str_len (rs_body r)).
Proof.
  intros Hrun. unfold socket_execute. destruct (parse_target _ _) as [u|] eqn:Hu; [|done]. fold (options_of request). fold (payload_of request).
  destruct (run _ _ _ _ _) as [[r'|m]| |] eqn:Hr; intros [= <-] He; [|done..].
  apply Hrun in Hr as (host & port & t & addr & ms & ms' & t' & t'' & H1 & H2 & H3 & H4 & H5 & H6 & H7).
  split; [exists u, host, port, t, addr, ms, ms'; by repeat split|]. split; [|by split]. rewrite He in H5. by eexists _, _, _.
Qed.

(** A TCP request that is answered without an error connected to an address of its host, sent all of its payload, and read
    what it was asked to and nothing after: the body is the data read in order, which reached the wanted length, or was the
    first to arrive, with the last read, or ended when the peer closed the stream. *)
Theorem tcp_answered (request : PreparedRequest) (w : Wire) (r : ProtocolResponse) :
  tcp_execute request w = Ready (Ok r) -> rs_error r = None ->
  exchanged "tcp" addr_to_string request w
  /\ (exists datas, read_well (tcp_done (read_mode (options_of request))) true "" (wi_reads w) datas /\ rs_body r = cat datas)
  /\ rs_bytes_sent r = Z.of_nat (str_len (payload_of request)) /\ rs_bytes_received r = Z.of_nat (str_len (rs_body r)).
Proof.
  intros H1 H2. destruct (answered _ _ _ _ _ _ _ tcp_runs H1 H2) as (Hx & (rt & t' & t'' & Hl) & Hs).
  split; [done|]. split; [|done]. exact (proj1 (read_loop_exact _ _ _ _ _ _ _ _ _ _) (ex_intro _ _ Hl)).
Qed.

(** The same of UDP, whose socket is bound to any address of the family, and where nothing closes. *)
Theorem udp_answered (request : PreparedRequest) (w : Wire) (r : ProtocolResponse) :
  udp_execute request w = Ready (Ok r) -> rs_error r = None ->
  exchanged "udp" (bind_addr is_ipv4) request w
  /\ (exists datas, read_well (udp_done (sr_read_bytes (options_of request))) false "" (wi_reads w) datas /\ rs_body r = cat datas)
  /\ rs_bytes_sent r = Z.of_nat (str_len (payload_of request)) /\ rs_bytes_received r = Z.of_nat (str_len (rs_body r)).
Proof.
  intros H1 H2. destruct (answered _ _ _ _ _ _ _ udp_runs H1 H2) as (Hx & (rt & t' & t'' & Hl) & Hs).
  split; [done|]. split; [|done]. exact (proj1 (read_loop_exact _ _ _ _ _ _ _ _ _ _) (ex_intro _ _ Hl)).
Qed.
End Answers.

Module SocketsDemo.
Definition u (s : string) : HttpUrl := mkHttpUrl (mkUrl (of_chars (take 3 (chars s))) (Some "h") "") (Some 7) None None s.
Definition parse (s : string) : result string HttpUrl := Ok (u s).
Definition request (protocol : string) (n : option Z) : PreparedRequest :=
  mkPrepared "r" protocol "" (protocol +:+ "://h:7") [] "PING" 0 false 0
    (mkRequestOptions None None (Some (mkSocketRequest "" n false None)) None).
Definition wire (reads : list ReadEvent) : Wire (Addr := string) :=
  mkWire (Ready (f64_zero, Ok ["1.2.3.4:7"])) (fun _ => Ready (f64_zero, Ok tt)) (fun _ => Ready (f64_zero, Ok tt)) reads f64_zero.
Definition tcp (n : option Z) (reads : list ReadEvent) : Await (result string ProtocolResponse) :=
  tcp_execute id (fun ip _ => ip) (fun _ => "1s") parse DomainHost (request "tcp" n) (wire reads).
Definition udp (n : option Z) (reads : list ReadEvent) : Await (result string ProtocolResponse) :=
  udp_execute (fun _ => true) (fun ip _ => ip) (fun _ => "1s") parse DomainHost (request "udp" n) (wire reads).
Definition answer (a : Await (result string ProtocolResponse)) : option (string * option string) :=
  match a with Ready (Ok r) => Some (rs_body r, rs_error r) | _ => None end.

(** [read_bytes] is no limit: a read that brings more is kept whole; and a peer that closes early is no error. *)
Example read_bytes_inexact :
  answer (tcp (Some 2) [ReadData f64_zero "abcd"]) = Some ("abcd", None)
  /\ answer (tcp (Some 8) [ReadData f64_zero "abcd"; ReadData f64_zero ""]) = Some ("abcd", None).
Proof. vm_compute. done. Qed.

(** An empty datagram is one, but the wait goes on. *)
Example empty_datagram_ignored :
  answer (udp None [ReadData f64_zero ""; ReadTimedOut f64_zero]) = Some ("", Some "read timed out after 1s").
Proof. vm_compute. done. Qed.

Lemma tcp_answered_witness :
  exists r, tcp (Some 3) [ReadData f64_zero "ab"; ReadData f64_zero "c"; ReadData f64_zero "d"] = Ready (Ok r)
    /\ rs_body r = "abc" /\ rs_bytes_sent r = 4 /\ rs_bytes_received r = Z.of_nat (str_len (rs_body r)).
Proof.
  eexists. split; [vm_compute; reflexivity|]. split; [reflexivity|].
  exact (proj2 (proj2 (tcp_answered id (fun ip _ => ip) (fun _ => "1s") parse DomainHost (request "tcp" (Some 3))
           (wire [ReadData f64_zero "ab"; ReadData f64_zero "c"; ReadData f64_zero "d"]) _ eq_refl eq_refl))).
Defined.
End SocketsDemo.
