(* ===== verification/Ws.v ===== *)
(** * WebSockets (crates/loadr-protocols/src/ws.rs)

    A session: connecting, the upgrade, the frames to send with their pauses, and receiving until there is enough.  Every
    await but the closing one is under the deadline of the request; what the network gives at each is data. *)

From Stdlib Require Import Ascii.
From S2P Require Import Prelude Float64 Str Dur Value Template Protocol Cookies Program Interp Http Sockets.

Inductive SessionError :=
| Transport (message : string) (timings : Timings)
| SessionTimeout (timings : Timings)
| SessionInvalid (message : string).

(** What [ws.next()] gives, or the end of the wait for it. *)
Inductive WsEvent :=
| WsText (text : string)
| WsBinary (data : string)
| WsClose
| WsControl
| WsError (e : string)
| WsEnd
| WsElapsed.

(** Sending a frame: the instant after its pause, the time the send took, and how it ended. *)
Record SendEvent := mkSendEvent {
  se_now : Z;
  se_elapsed : f64;
  se_sent : bool * string -> Await (result string unit);
}.

Record Received := mkReceived {
  rc_msgs : Z;
  rc_bytes : Z;
  rc_last : option (bool * string);
}.
Definition Received_none : Received := mkReceived 0 0 None.

Definition matches_needle (until : option string) (text : string) : bool :=
  match until with Some needle => str_contains text needle | None => false end.
Definition receive_one (binary : bool) (data : string) (st : Received) : Received :=
  mkReceived (u64_add (rc_msgs st) 1) (u64_add (rc_bytes st) (Z.of_nat (str_len data))) (Some (binary, data)).

(** The loop of the receiving; [session_first]: the session's own deadline is not after the request's.  Nothing when it waits. *)
Fixpoint ws_receive (target : Z) (until : option string) (session_first : bool) (timeout_text : string) (st : Received)
    (events : list WsEvent) : option (Received * option string) :=
  if Z.ltb (rc_msgs st) target then
    match events with
    | [] => None
    | WsElapsed :: _ => Some (st, if session_first then None else Some ("request timed out after " +:+ timeout_text))
    | WsEnd :: _ | WsClose :: _ => Some (st, None)
    | WsError e :: _ => Some (st, Some ("websocket receive failed: " +:+ e))
    | WsText text :: events =>
        let st := receive_one false text st in
        if matches_needle until text then Some (st, None) else ws_receive target until session_first timeout_text st events
    | WsBinary data :: events => ws_receive target until session_first timeout_text (receive_one true data st) events
    | WsControl :: events => ws_receive target until session_first timeout_text st events
    end
  else Some (st, None).

Definition receive_target (opts : WsRequest) (msgs_sent : Z) : Z :=
  match wr_receive_count opts, wr_receive_until opts with
  | Some n, _ => n
  | None, Some _ => u64_max
  | None, None => Z.max msgs_sent 1
  end.

(** What is sent for a frame: a text is made UTF-8. *)
Definition frame_data (f : WsFrame) : bool * string :=
  (wf_binary f, if wf_binary f then wf_payload f else from_utf8_lossy (wf_payload f)).

(** The frames, from the counts of those already sent; [deadline] is the request's. *)
Fixpoint ws_send (deadline : Z) (frames : list WsFrame) (events : list SendEvent) (t : Timings) (sending : f64) (msgs bytes : Z) :
    Await (result SessionError (f64 * Z * Z)) :=
  match frames, events with
  | [], _ => Ready (Ok (sending, msgs, bytes))
  | _ :: _, [] => Waiting
  | frame :: frames, ev :: events =>
      if bool_decide (is_Some (wf_delay frame)) && Z.leb deadline (se_now ev) then Ready (Err (SessionTimeout (set_sending sending t)))
      else
        let sending := f64_add sending (se_elapsed ev) in
        match se_sent ev (frame_data frame) with
        | Waiting => Waiting
        | Ready (Ok _) =>
            ws_send deadline frames events t sending (u64_add msgs 1) (u64_add bytes (Z.of_nat (str_len (wf_payload frame))))
        | Ready (Err e) => Ready (Err (Transport ("websocket send failed: " +:+ e) (set_sending sending t)))
        | Cancelled => Ready (Err (SessionTimeout (set_sending sending t)))
        end
  end.

Section Ws.
Context {Addr : Type} (addr_to_string : Addr -> string) (socket_addr : string -> Z -> Addr) (debug_duration : Duration -> string).
Context (parse_url : string -> result string HttpUrl) (host_kind : string -> Host).
Context (valid_name valid_value : string -> option string).
(** Of the TLS configuration and tungstenite: the name to verify, and the headers of an upgrade of the URL. *)
Context (server_name : HttpUrl -> result string string) (client_request : HttpUrl -> result string Headers).

Record WsWire := mkWsWire {
  ww_lookup : Await (f64 * result string (list Addr));
  ww_connect : Addr -> Await (f64 * result string unit);
  ww_tls : string -> Await (f64 * result string unit);
  ww_handshake : Headers -> Await (f64 * result string Headers);
  ww_sends : list SendEvent;
  ww_receive_at : Z;
  ww_events : list WsEvent;
  ww_receiving : f64;
  ww_closed : Await unit;
  ww_elapsed : f64;
}.

(** An await under the deadline. *)
Definition under {A B} (t : Timings) (m : Await A) (k : A -> Await (result SessionError B)) : Await (result SessionError B) :=
  match m with Ready a => k a | Cancelled => Ready (Err (SessionTimeout t)) | Waiting => Waiting end.

Fixpoint user_headers (l : list (string * string)) (hs : Headers) : result string Headers :=
  match l with
  | [] => Ok hs
  | (name, value) :: l =>
      match valid_name name with
      | None => Err ("invalid header name `" +:+ name +:+ "`: invalid HTTP header name")
      | Some n => match valid_value value with
                  | None => Err ("invalid value for header `" +:+ n +:+ "`: failed to parse header value")
                  | Some value => user_headers l (insert_header n value hs)
                  end
      end
  end.

Definition handshake_headers (u : HttpUrl) (opts : WsRequest) (headers : list (string * string)) : result string Headers :=
  match client_request u with
  | Err e => Err ("invalid websocket url `" +:+ hu_str u +:+ "`: " +:+ e)
  | Ok hs =>
      match wr_subprotocols opts with
      | [] => user_headers headers hs
      | ps => match valid_value (join ", " ps) with
              | Some value => user_headers headers (insert_header "sec-websocket-protocol" value hs)
              | None => Err "invalid subprotocols: failed to parse header value"
              end
      end
  end.

(** TLS when the scheme is [wss]. *)
Definition ws_tls (u : HttpUrl) (host : string) (port : Z) (t : Timings) (w : WsWire) : Await (result SessionError Timings) :=
  if bool_decide (scheme_of u = "wss") then
    match server_name u with
    | Err e => Ready (Err (SessionInvalid e))
    | Ok sni =>
        under t (ww_tls w sni) (fun '(ms, r) =>
          match r with
          | Err e => Ready (Err (Transport ("tls handshake with " +:+ host +:+ ":" +:+ Z_to_string port +:+ " failed: " +:+ e) t))
          | Ok _ => Ready (Ok (mkTimings (dns_ms t) (connect_ms t) ms (sending_ms t) (waiting_ms t) (receiving_ms t) (duration_ms t) (blocked_ms t)))
          end)
    end
  else Ready (Ok t).

Definition ws_response (u : HttpUrl) (headers : Headers) (t : Timings) (msgs_sent bytes_sent : Z) (st : Received) (error : option string) :
    ProtocolResponse :=
  mkResponse 101 "Switching Protocols" ((fun kv => (kv.1, from_utf8_lossy kv.2)) <$> headers)
    match rc_last st with Some (_, data) => data | None => "" end t bytes_sent (rc_bytes st) "ws" error (hu_str u)
    (Object [("last_message", match rc_last st with Some (false, text) => Text text | _ => Null end);
             ("msgs_received", Num (PosInt (rc_msgs st))); ("msgs_sent", Num (PosInt msgs_sent))]) [].

Definition bind_session {A B} (m : Await (result SessionError A)) (k : A -> Await (result SessionError B)) : Await (result SessionError B) :=
  match m with Ready (Ok a) => k a | Ready (Err e) => Ready (Err e) | Cancelled => Cancelled | Waiting => Waiting end.

Definition ws_session (request : PreparedRequest) (u : HttpUrl) (opts : WsRequest) (deadline : Z) (w : WsWire) :
    Await (result SessionError ProtocolResponse) :=
  let t := Timings_default in
  match host_port u with
  | Err e => Ready (Err (Transport e t))
  | Ok (host, port) =>
      under t (resolve socket_addr (host_kind host) port t (ww_lookup w)) (fun '(t, addr) =>
      match addr with
      | Err e => Ready (Err (Transport e t))
      | Ok addr =>
          under t (ww_connect w addr) (fun '(ms, r) =>
          match r with
          | Err e => Ready (Err (Transport ("connection to " +:+ addr_to_string addr +:+ " failed: " +:+ e) t))
          | Ok _ =>
              bind_session (ws_tls u host port (set_connect ms t) w) (fun t =>
              let t := set_blocked t in
              match handshake_headers u opts (pr_headers request) with
              | Err e => Ready (Err (SessionInvalid e))
              | Ok hs =>
                  under t (ww_handshake w hs) (fun '(ms, r) =>
                  match r with
                  | Err e => Ready (Err (Transport ("websocket handshake failed: " +:+ e) t))
                  | Ok answer =>
                      let t := set_waiting ms t in
                      bind_session (ws_send deadline (wr_send opts) (ww_sends w) t f64_zero 0 0) (fun '(sending, msgs_sent, bytes_sent) =>
                      let t := set_sending sending t in
                      let session_first :=
                        match wr_session_duration opts with Some d => Z.leb (ww_receive_at w + d) deadline | None => false end in
                      match ws_receive (receive_target opts msgs_sent) (wr_receive_until opts) session_first
                              (debug_duration (pr_timeout request)) Received_none (ww_events w) with
                      | None => Waiting
                      | Some (st, error) =>
                          match ww_closed w with
                          | Ready _ =>
                              Ready (Ok (ws_response u answer (total_duration (set_receiving (ww_receiving w) t)) msgs_sent bytes_sent st error))
                          | _ => Waiting
                          end
                      end)
                  end)
              end)
          end)
      end)
  end.

Definition ws_failed (message : string) (t : Timings) (u : HttpUrl) : ProtocolResponse :=
  mkResponse 0 "" [] "" t 0 0 "" (Some message) (hu_str u) Null [].

Definition WsRequest_default : WsRequest := mkWsRequest [] [] None None None.

(** [start]: the instant of the call. *)
Definition ws_execute (request : PreparedRequest) (start : Z) (w : WsWire) : Await (result string ProtocolResponse) :=
  match parse_url (pr_url request) with
  | Err e => Ready (Err ("invalid url `" +:+ pr_url request +:+ "`: " +:+ e))
  | Ok u =>
      if negb (bool_decide (scheme_of u = "ws") || bool_decide (scheme_of u = "wss")) then
        Ready (Err ("ws handler cannot handle scheme `" +:+ scheme_of u +:+ "`"))
      else
        let opts := default WsRequest_default (ro_ws (pr_options request)) in
        match ws_session request u opts (start + pr_timeout request) w with
        | Ready (Ok response) => Ready (Ok response)
        | Ready (Err (Transport message t)) => Ready (Ok (ws_failed message t u))
        | Ready (Err (SessionTimeout t)) =>
            Ready (Ok (ws_failed ("request timed out after " +:+ debug_duration (pr_timeout request))
                         (set_duration (f64_sub (ww_elapsed w) (blocked_ms t)) t) u))
        | Ready (Err (SessionInvalid e)) => Ready (Err e)
        | Cancelled | Waiting => Waiting
        end
  end.
End Ws.

(** ** What is received *)

(** The messages among events, text or binary. *)
Definition message_of (ev : WsEvent) : option (bool * string) :=
  match ev with WsText text => Some (false, text) | WsBinary data => Some (true, data) | _ => None end.
Definition messages (events : list WsEvent) : list (bool * string) := omap message_of events.
Definition matched (until : option string) (events : list WsEvent) : bool :=
  match last events with Some (WsText text) => matches_needle until text | _ => false end.
Definition ends (ev : WsEvent) : bool := match ev with WsEnd | WsClose | WsError _ | WsElapsed => true | _ => false end.

Definition received (ms : list (bool * string)) : Received :=
  foldl (fun st m => receive_one m.1 m.2 st) Received_none ms.

(** The session has enough after [events]: as many messages as it waits for, or the one it waits for. *)
Definition satisfied (target : Z) (until : option string) (events : list WsEvent) : bool :=
  negb (Z.ltb (rc_msgs (received (messages events))) target) || matched until events.

(** A session stops at the first moment it has enough, or at the first event that ends it. *)
Record stops_at (target : Z) (until : option string) (events : list WsEvent) (k : nat) : Prop := {
  st_before : forall i, (i < k)%nat -> satisfied target until (take i events) = false /\ exists ev, events !! i = Some ev /\ ends ev = false;
  st_now : satisfied target until (take k events) = true \/ exists ev, events !! k = Some ev /\ ends ev = true;
}.

Definition stop_error (target : Z) (until : option string) (session_first : bool) (timeout_text : string) (events : list WsEvent) (k : nat) :
    option string :=
  if satisfied target until (take k events) then None
  else match events !! k with
       | Some (WsError e) => Some ("websocket receive failed: " +:+ e)
       | Some WsElapsed => if session_first then None else Some ("request timed out after " +:+ timeout_text)
       | _ => None
       end.

Lemma received_snoc (ms : list (bool * string)) (m : bool * string) : received (ms ++ [m]) = receive_one m.1 m.2 (received ms).
Proof. unfold received. by rewrite foldl_app. Qed.
Lemma messages_snoc (pre : list WsEvent) (ev : WsEvent) :
  received (messages (pre ++ [ev]))
  = match message_of ev with Some m => receive_one m.1 m.2 (received (messages pre)) | None => received (messages pre) end.
Proof.
  unfold messages. rewrite omap_app. cbn [omap list_omap]. destruct (message_of ev) as [m|]; [apply received_snoc|by rewrite app_nil_r].
Qed.
Lemma stops_unique target until events a b : stops_at target until events a -> stops_at target until events b -> a = b.
Proof.
  assert (forall a b, stops_at target until events a -> stops_at target until events b -> ~ (a < b)%nat) as Hlt.
  { intros a' b' [_ Hn] [Hb _] Hab. destruct (Hb a' Hab) as (Hs & ev & He & Hf).
    destruct Hn as [Hn|(ev' & He' & Hn)]; [congruence|]. rewrite He in He'. injection He' as <-. congruence. }
  intros Ha Hb. pose proof (Hlt _ _ Ha Hb). pose proof (Hlt _ _ Hb Ha). lia.
Qed.

Definition outcome_at target until sf text (events : list WsEvent) (k : nat) : Received * option string :=
  (received (messages (take k events)), stop_error target until sf text events k).

(** The loop, at a moment where it has taken [pre] without stopping. *)
Definition quiet target until (events : list WsEvent) (n : nat) : Prop :=
  forall i, (i < n)%nat -> satisfied target until (take i events) = false /\ exists ev, events !! i = Some ev /\ ends ev = false.

Lemma at_stop target until sf text events k (r : Received * option string) :
  stops_at target until events k ->
  Some (outcome_at target until sf text events k) = Some r
  <-> exists k', stops_at target until events k' /\ r = outcome_at target until sf text events k'.
Proof.
  intros Hk. split; [intros [= <-]; by exists k|]. intros (k' & Hk' & ->). by rewrite (stops_unique _ _ _ _ _ Hk Hk').
Qed.

Lemma satisfied_unmatched target until events :
  matched until events = false -> satisfied target until events = negb (Z.ltb (rc_msgs (received (messages events))) target).
Proof. intros Hm. unfold satisfied. by rewrite Hm, orb_false_r. Qed.

Lemma quiet_snoc target until pre ev events :
  quiet target until (pre ++ ev :: events) (length pre) -> satisfied target until pre = false -> ends ev = false ->
  quiet target until ((pre ++ [ev]) ++ events) (length (pre ++ [ev])).
Proof.
  intros Hq Hs He i Hi. rewrite length_app in Hi. simpl in Hi. rewrite <- app_assoc. simpl.
  destruct (decide (i = length pre)) as [->|]; [|apply Hq; lia]. rewrite take_app_length, list_lookup_middle by done. split; [done|by eexists].
Qed.

Lemma ws_receive_from target until sf text pre events r :
  quiet target until (pre ++ events) (length pre) -> matched until pre = false ->
  ws_receive target until sf text (received (messages pre)) events = Some r
  <-> exists k, stops_at target until (pre ++ events) k /\ r = outcome_at target until sf text (pre ++ events) k.
Proof.
  revert pre. induction events as [|ev events IH]; intros pre Hq Hm.
  - pose proof (satisfied_unmatched target until pre Hm) as Hs. cbn [ws_receive]. destruct (Z.ltb _ target) eqn:Hl; cbn [negb] in Hs.
    + split; [done|]. intros (k & [Hb Hn] & _). exfalso. rewrite app_nil_r in Hb, Hn, Hq. destruct (decide (k < length pre)%nat) as [Hk|Hk].
      * destruct (Hq k Hk) as (H1 & ev & H2 & H3). destruct Hn as [Hn|(ev' & He & Hn)]; congruence.
      * destruct (decide (k = length pre)) as [->|].
        -- rewrite firstn_all in Hn. destruct Hn as [Hn|(ev & He & _)]; [congruence|]. apply lookup_lt_Some in He. lia.
        -- destruct (Hb (length pre) ltac:(lia)) as (_ & ev & He & _). apply lookup_lt_Some in He. lia.
    + rewrite <- at_stop with (k := length pre) by (split; [done|left; by rewrite take_app_length]).
      unfold outcome_at, stop_error. by rewrite take_app_length, Hs.
  - pose proof (satisfied_unmatched target until pre Hm) as Hs. cbn [ws_receive]. destruct (Z.ltb _ target) eqn:Hl; cbn [negb] in Hs.
    + destruct (ends ev) eqn:He.
      * rewrite <- at_stop with (k := length pre) by (split; [done|right; exists ev; by rewrite list_lookup_middle]).
        unfold outcome_at, stop_error. rewrite take_app_length, Hs, list_lookup_middle by done. by destruct ev.
      * pose proof (quiet_snoc _ _ _ _ _ Hq Hs He) as Hq'.
        assert ((pre ++ [ev]) ++ events = pre ++ ev :: events) as Happ by by rewrite <- app_assoc.
        destruct ev as [t|d| | |e| |]; try done.
        -- assert (receive_one false t (received (messages pre)) = received (messages (pre ++ [WsText t]))) as -> by by rewrite messages_snoc.
           destruct (matches_needle until t) eqn:Hn; [|rewrite IH, Happ; [done|done|unfold matched; by rewrite last_snoc]].
           rewrite <- Happ. assert (satisfied target until (pre ++ [WsText t]) = true) as Hs'
             by (unfold satisfied, matched; by rewrite last_snoc, Hn, orb_true_r).
           rewrite <- at_stop with (k := length (pre ++ [WsText t])) by (split; [done|left; by rewrite take_app_length]).
           unfold outcome_at, stop_error. by rewrite take_app_length, Hs'.
        -- assert (receive_one true d (received (messages pre)) = received (messages (pre ++ [WsBinary d]))) as -> by by rewrite messages_snoc.
           rewrite IH, Happ; [done|done|unfold matched; by rewrite last_snoc].
        -- assert (received (messages pre) = received (messages (pre ++ [WsControl]))) as -> by by rewrite messages_snoc.
           rewrite IH, Happ; [done|done|unfold matched; by rewrite last_snoc].
    + rewrite <- at_stop with (k := length pre) by (split; [done|left; by rewrite take_app_length]).
      unfold outcome_at, stop_error. by rewrite take_app_length, Hs.
Qed.

Lemma foldl_u64_wrap (l : list Z) (acc : Z) : u64_wrap acc = acc -> foldl u64_add acc l = u64_wrap (acc + Zsum l).
Proof.
  revert acc. induction l as [|x l IH]; intros acc Ha; [simpl; change (Zsum []) with 0; by rewrite Z.add_0_r|].
  cbn [foldl]. rewrite IH; unfold u64_add, u64_wrap; [|by rewrite Z.mod_mod].
  rewrite Zsum_cons, Z.add_mod_idemp_l by done. f_equal. lia.
Qed.

(** The network took a frame: a binary one as it is, a text one as UTF-8, and, after a pause, before the deadline. *)
Definition taken (deadline : Z) (f : WsFrame) (ev : SendEvent) : Prop :=
  se_sent ev (wf_binary f, if wf_binary f then wf_payload f else from_utf8_lossy (wf_payload f)) = Ready (Ok tt)
  /\ (is_Some (wf_delay f) -> se_now ev < deadline).

(** What the frames sent add up to, and what became of each. *)
Lemma ws_send_all deadline frames events t sending msgs bytes r :
  ws_send deadline frames events t sending msgs bytes = Ready (Ok r) ->
  r.1.2 = foldl u64_add msgs ((fun _ => 1) <$> frames)
  /\ r.2 = foldl u64_add bytes ((fun f => Z.of_nat (str_len (wf_payload f))) <$> frames)
  /\ r.1.1 = foldl f64_add sending (se_elapsed <$> take (length frames) events)
  /\ Forall2 (taken deadline) frames (take (length frames) events).
Proof.
  revert events sending msgs bytes. induction frames as [|f frames IH]; intros events sending msgs bytes; cbn [ws_send];
    [by intros [= <-]|].
  destruct events as [|ev events]; [done|]. destruct (_ && _) eqn:Hlate; [done|].
  destruct (se_sent ev (frame_data f)) as [[[]|]| |] eqn:Hsent; [|done..].
  intros Hr. apply IH in Hr as (Hm & Hb & He & Hall). split_and!; [done..|]. cbn [take length]. constructor; [|done]. split; [exact Hsent|].
  intros Hd. rewrite bool_decide_eq_true_2 in Hlate by done. simpl in Hlate. by apply Z.leb_gt.
Qed.

Section Answered.
Context {Addr : Type} (addr_to_string : Addr -> string) (socket_addr : string -> Z -> Addr) (debug_duration : Duration -> string).
Context (parse_url : string -> result string HttpUrl) (host_kind : string -> Host) (valid_name valid_value : string -> option string).
Context (server_name : HttpUrl -> result string string) (client_request : HttpUrl -> result string Headers).

Definition ws_options (request : PreparedRequest) : WsRequest := default WsRequest_default (ro_ws (pr_options request)).

(** The answer of a session that was established: the network took each of its frames, in their order, and the answer is told from the
    events up to the one that stopped it. *)
Record ws_complete (request : PreparedRequest) (start : Z) (w : WsWire (Addr := Addr)) (r : ProtocolResponse) (k : nat) : Prop := {
  wc_stops :
    let msgs_sent := u64_wrap (Z.of_nat (length (wr_send (ws_options request)))) in
    stops_at (receive_target (ws_options request) msgs_sent) (wr_receive_until (ws_options request)) (ww_events w) k;
  wc_sent :
    Forall2 (taken (start + pr_timeout request)) (wr_send (ws_options request)) (take (length (wr_send (ws_options request))) (ww_sends w));
  wc_sending : sending_ms (rs_timings r) = foldl f64_add f64_zero (se_elapsed <$> take (length (wr_send (ws_options request))) (ww_sends w));
  wc_bytes_sent : rs_bytes_sent r = u64_wrap (Zsum ((fun f => Z.of_nat (str_len (wf_payload f))) <$> wr_send (ws_options request)));
  wc_bytes_received : rs_bytes_received r = rc_bytes (received (messages (take k (ww_events w))));
  wc_body : rs_body r = match last (messages (take k (ww_events w))) with Some m => m.2 | None => "" end;
  wc_error :
    let msgs_sent := u64_wrap (Z.of_nat (length (wr_send (ws_options request)))) in
    rs_error r = stop_error (receive_target (ws_options request) msgs_sent) (wr_receive_until (ws_options request))
                   match wr_session_duration (ws_options request) with
                   | Some d => Z.leb (ww_receive_at w + d) (start + pr_timeout request) | None => false end
                   (debug_duration (pr_timeout request)) (ww_events w) k;
}.

Lemma received_last (ms : list (bool * string)) : rc_last (received ms) = last ms.
Proof. induction ms as [|m ms _] using rev_ind; [done|]. rewrite received_snoc, last_snoc. by destruct m. Qed.

Lemma Zsum_ones (frames : list WsFrame) : Zsum ((fun _ => 1) <$> frames) = Z.of_nat (length frames).
Proof. induction frames as [|f frames IH]; [done|]. rewrite fmap_cons, Zsum_cons, IH. simpl length. lia. Qed.

Lemma under_Ok {A B} (t : Timings) (m : Await A) (k : A -> Await (result SessionError B)) (b : B) :
  under t m k = Ready (Ok b) -> exists a, m = Ready a /\ k a = Ready (Ok b).
Proof. destruct m; [|done..]. eauto. Qed.
Lemma bind_session_Ok {A B} (m : Await (result SessionError A)) (k : A -> Await (result SessionError B)) (b : B) :
  bind_session m k = Ready (Ok b) -> exists a, m = Ready (Ok a) /\ k a = Ready (Ok b).
Proof. destruct m as [[a|e]| |]; [|done..]. eauto. Qed.

(** C34: an answer of the WebSocket handler either is that of an established session, or has no status and carries an error.  In an
    established session the network took every frame of the request, in order and without an error, each one that waits its pause
    before the deadline; the time of sending is theirs; and the messages are those that arrived until the session first had enough of them
    or was ended.  So a frame that could not be sent never makes a successful answer. *)
Theorem ws_answered (request : PreparedRequest) (start : Z) (w : WsWire) (r : ProtocolResponse) :
  ws_execute addr_to_string socket_addr debug_duration parse_url host_kind valid_name valid_value server_name client_request
    request start w = Ready (Ok r) ->
  (rs_status r = 101 /\ exists k, ws_complete request start w r k) \/ (rs_status r = 0 /\ is_Some (rs_error r) /\ rs_bytes_sent r = 0).
Proof.
  unfold ws_execute. destruct (parse_url _) as [u|]; [|done]. destruct (negb _); [done|]. fold (ws_options request).
  destruct (ws_session _ _ _ _ _ _ _ _ _ _ _ _ _) as [[r'|[m t|t|m]]| |] eqn:Hs; intros [= <-]; [|by right; repeat split; eexists..].
  left. unfold ws_session in Hs. destruct (host_port u) as [[host port]|]; [|done].
  apply under_Ok in Hs as ([t addr] & _ & Hs). destruct addr as [addr|]; [|done].
  apply under_Ok in Hs as ([ms o] & _ & Hs). destruct o; [|done].
  apply bind_session_Ok in Hs as (t' & _ & Hs). destruct (handshake_headers _ _ _ _ _ _) as [hs|]; [|done].
  apply under_Ok in Hs as ([ms' o] & _ & Hs). destruct o as [answer|]; [|done].
  apply bind_session_Ok in Hs as ([[sending msgs] bytes] & Hsend & Hs).
  apply ws_send_all in Hsend as (Hmsgs & Hbytes & Hsending & Htaken). cbn [fst snd] in Hmsgs, Hbytes, Hsending.
  rewrite foldl_u64_wrap in Hmsgs, Hbytes by done. rewrite Zsum_ones in Hmsgs. rewrite Z.add_0_l in Hmsgs, Hbytes. subst msgs bytes.
  destruct (ws_receive _ _ _ _ _ _) as [[st error]|] eqn:Hr; [|done]. destruct (ww_closed w); [|done..]. injection Hs as <-.
  split; [done|]. change Received_none with (received (messages [])) in Hr. apply (ws_receive_from _ _ _ _ []) in Hr as (k & Hk & Ho); [|by intros i ?%Nat.nlt_0_r|done].
  injection Ho as -> ->. exists k. split; [exact Hk|exact Htaken|exact Hsending|done|done| |done].
  cbn [rs_body ws_response app]. rewrite received_last. by destruct (last _) as [[]|].
Qed.
End Answered.

Module WsDemo.
Definition parse (s : string) : result string HttpUrl := Ok (mkHttpUrl (mkUrl "ws" (Some "h") "/") None (Some 80) None s).
Definition request (opts : WsRequest) : PreparedRequest :=
  mkPrepared "r" "ws" "" "ws://h/" [] "" (5 * 1000000000) false 0 (mkRequestOptions (Some opts) None None None).
Definition wire (sends : list SendEvent) (events : list WsEvent) : WsWire (Addr := string) :=
  mkWsWire (Ready (f64_zero, Ok ["1.2.3.4:80"])) (fun _ => Ready (f64_zero, Ok tt)) (fun _ => Ready (f64_zero, Ok tt))
    (fun _ => Ready (f64_zero, Ok [])) sends 10 events f64_zero (Ready tt) f64_zero.
Definition ran (opts : WsRequest) (sends : list SendEvent) (events : list WsEvent) : Await (result string ProtocolResponse) :=
  ws_execute id (fun ip _ => ip) (fun _ => "5s") parse DomainHost Some Some (fun _ => Ok "h") (fun _ => Ok [("host", "h")])
    (request opts) 0 (wire sends events).
Definition sent : SendEvent := mkSendEvent 0 f64_zero (fun _ => Ready (Ok tt)).
Definition hello (count : option Z) (until : option string) (d : option Duration) : WsRequest :=
  mkWsRequest [] [mkWsFrame "hi" false None] count until d.
Definition answer (a : Await (result string ProtocolResponse)) : option (string * Z * option string) :=
  match a with Ready (Ok r) => Some (rs_body r, rs_bytes_received r, rs_error r) | _ => None end.

Example receives :
  answer (ran (hello None (Some "done") None) [sent] [WsText "one"; WsControl; WsText "done"; WsText "late"]) = Some ("done", 7, None)
  /\ answer (ran (hello (Some 2) None None) [sent] [WsBinary "a"; WsClose]) = Some ("a", 1, None)
  /\ answer (ran (hello (Some 2) None None) [sent] [WsElapsed]) = Some ("", 0, Some "request timed out after 5s").
Proof. vm_compute. done. Qed.

(** A session with a duration only is closed by the first answer to each frame, long before. *)
Example duration_not_kept : answer (ran (hello None None (Some 3000000000)) [sent] [WsText "one"; WsText "two"]) = Some ("one", 3, None).
Proof. vm_compute. done. Qed.

Lemma ws_answered_witness :
  exists r, ran (hello (Some 1) None None) [sent] [WsControl; WsText "one"] = Ready (Ok r)
    /\ ((rs_status r = 101 /\ exists k, ws_complete (fun _ => "5s") (request (hello (Some 1) None None)) 0
                                          (wire [sent] [WsControl; WsText "one"]) r k)
        \/ (rs_status r = 0 /\ is_Some (rs_error r) /\ rs_bytes_sent r = 0)).
Proof.
  eexists. split; [vm_compute; reflexivity|].
  exact (ws_answered id (fun ip _ => ip) (fun _ => "5s") parse DomainHost Some Some (fun _ => Ok "h") (fun _ => Ok [("host", "h")])
           (request (hello (Some 1) None None)) 0 (wire [sent] [WsControl; WsText "one"]) _ eq_refl).
Defined.
End WsDemo.
