(* ===== verification/StateErr.v ===== *)
(** * Stateful computations that can fail

    What [&mut self] methods returning [Result] are: a function of the state to an answer
    and the state it leaves, whether it succeeded or not. *)

From S2P Require Import Prelude.

Definition stm (S E A : Type) : Type := S -> result E A * S.

Section Monad.
Context {S E : Type}.

Definition st_ret {A} (a : A) : stm S E A := fun s => (Ok a, s).
Definition st_err {A} (e : E) : stm S E A := fun s => (Err e, s).
Definition st_lift {A} (r : result E A) : stm S E A := fun s => (r, s).
Definition st_get {A} (f : S -> A) : stm S E A := fun s => (Ok (f s), s).
Definition st_bind {A B} (m : stm S E A) (k : A -> stm S E B) : stm S E B :=
  fun s => match m s with
           | (Ok a, s) => k a s
           | (Err e, s) => (Err e, s)
           end.
(** The answer as a value: [match m() {...}], [let _ = m()]. *)
Definition st_try {A} (m : stm S E A) : stm S E (result E A) :=
  fun s => let '(r, s) := m s in (Ok r, s).
Definition st_map_err {F A} (f : E -> F) (m : stm S E A) : stm S F A :=
  fun s => let '(r, s) := m s in (result_map_err f r, s).
End Monad.

Notation "'let!' x := m 'in' k" := (st_bind m (fun x => k))
  (at level 10, x pattern, m at level 100, k at level 200) : loadr_scope.

Section Laws.
Context {S E : Type}.

Lemma st_bind_Ok {A B} (m : stm S E A) (k : A -> stm S E B) (s s' : S) (b : B) :
  st_bind m k s = (Ok b, s') <-> exists a s1, m s = (Ok a, s1) /\ k a s1 = (Ok b, s').
Proof.
  unfold st_bind. destruct (m s) as [[a|e] s1]; split.
  - eauto.
  - intros (a' & s2 & [= <- <-] & Hk). exact Hk.
  - discriminate.
  - by intros (? & ? & ? & _).
Qed.

Lemma st_bind_assoc {A B C} (m : stm S E A) (k : A -> stm S E B) (h : B -> stm S E C) (s : S) :
  st_bind (st_bind m k) h s = st_bind m (fun a => st_bind (k a) h) s.
Proof. unfold st_bind. by destruct (m s) as [[a|e] s1]. Qed.

(** A relation between the state before and the state after that every step respects. *)
Definition respects {A} (R : S -> S -> Prop) (m : stm S E A) : Prop := forall s, R s (m s).2.

Lemma respects_ret {A} (R : S -> S -> Prop) `{!Reflexive R} (a : A) : respects R (st_ret a).
Proof. intros s. simpl. reflexivity. Qed.
Lemma respects_err {A} (R : S -> S -> Prop) `{!Reflexive R} (e : E) : respects (A := A) R (st_err e).
Proof. intros s. simpl. reflexivity. Qed.
Lemma respects_lift {A} (R : S -> S -> Prop) `{!Reflexive R} (r : result E A) : respects R (st_lift r).
Proof. intros s. simpl. reflexivity. Qed.
Lemma respects_get {A} (R : S -> S -> Prop) `{!Reflexive R} (f : S -> A) : respects R (st_get f).
Proof. intros s. simpl. reflexivity. Qed.
Lemma respects_bind {A B} (R : S -> S -> Prop) `{!Transitive R} (m : stm S E A) (k : A -> stm S E B) :
  respects R m -> (forall a, respects R (k a)) -> respects R (st_bind m k).
Proof.
  intros Hm Hk s. unfold st_bind. specialize (Hm s). destruct (m s) as [[a|e] s1]; simpl in *; [|done].
  etransitivity; [exact Hm|apply Hk].
Qed.
(** The continuation only matters on answers the first step can give. *)
Lemma respects_bind_ok {A B} (R : S -> S -> Prop) `{!Transitive R} (m : stm S E A) (k : A -> stm S E B) :
  respects R m -> (forall s a s', m s = (Ok a, s') -> respects R (k a)) -> respects R (st_bind m k).
Proof.
  intros Hm Hk s. unfold st_bind. specialize (Hm s). destruct (m s) as [[a|e] s1] eqn:E1; simpl in *; [|done].
  etransitivity; [exact Hm|by eapply Hk].
Qed.
Lemma respects_try {A} (R : S -> S -> Prop) (m : stm S E A) : respects R m -> respects R (st_try m).
Proof. intros Hm s. unfold st_try. specialize (Hm s). by destruct (m s). Qed.
End Laws.

Lemma respects_map_err {S E F A} (R : S -> S -> Prop) (f : E -> F) (m : stm S E A) :
  respects R m -> respects R (st_map_err f m).
Proof. intros Hm s. unfold st_map_err. specialize (Hm s). by destruct (m s). Qed.

Create HintDb loadr_st.
#[export] Hint Resolve respects_ret respects_err respects_lift respects_get respects_bind respects_try
  respects_map_err : loadr_st.
