(* ===== verification/Bytes.v ===== *)
(** * Bytes and base64 (plugins/loadr-plugin-mqtt/src/lib.rs, [base64_*])

    A [Vec<u8>] as the codecs of the plugins handle it: a list of 8-bit integers.  The
    base64 routines are the hand-written ones the native plugins carry. *)

From Stdlib Require Import Ascii.
From S2P Require Import Prelude Str.

Definition is_byte (z : Z) : Prop := 0 <= z < 256.
#[export] Instance is_byte_dec (z : Z) : Decision (is_byte z).
Proof. unfold is_byte. apply _. Defined.

Definition byte_of (c : ascii) : Z := Z.of_N (N_of_ascii c).
Definition char_of (z : Z) : ascii := byte_at (Z.to_N z).
(** [s.as_bytes()] and, on valid text, [String::from_utf8]. *)
Definition as_bytes (s : string) : list Z := byte_of <$> chars s.
Definition of_bytes (l : list Z) : string := of_chars (char_of <$> l).

(** [u16::to_be_bytes], [u16::from_be_bytes]. *)
Definition to_be_bytes (n : Z) : list Z := [n / 256; n mod 256].
Definition from_be_bytes (hi lo : Z) : Z := hi * 256 + lo.

(** [l.chunks(n)], for [n > 0]. *)
Fixpoint chunks_fuel {A} (fuel n : nat) (l : list A) : list (list A) :=
  match fuel, l with
  | S fuel, _ :: _ => take n l :: chunks_fuel fuel n (drop n l)
  | _, _ => []
  end.
Definition chunks {A} (n : nat) (l : list A) : list (list A) := chunks_fuel (length l) n l.

(** ** Decoding *)

Definition base64_val (c : Z) : option Z :=
  if Z.leb 65 c && Z.leb c 90 then Some (c - 65)
  else if Z.leb 97 c && Z.leb c 122 then Some (c - 97 + 26)
  else if Z.leb 48 c && Z.leb c 57 then Some (c - 48 + 52)
  else if Z.eqb c 43 then Some 62
  else if Z.eqb c 47 then Some 63
  else None.

(** The sextets of one chunk and the number of padding characters. *)
Fixpoint chunk_sextets (chunk : list Z) : result string (list Z * Z) :=
  match chunk with
  | [] => Ok ([], 0)
  | b :: chunk =>
      if Z.eqb b 61 then let? (buf, pad) := chunk_sextets chunk in Ok (0 :: buf, pad + 1)
      else
        let? v := ok_or (base64_val b) "invalid base64 in request body" in
        let? (buf, pad) := chunk_sextets chunk in Ok (v :: buf, pad)
  end.

Definition decode_chunk (chunk : list Z) : result string (list Z) :=
  let? (buf, pad) := chunk_sextets chunk in
  let at_ i := default 0 (buf !! i) in
  let n := Z.lor (Z.lor (Z.lor (Z.shiftl (at_ 0%nat) 18) (Z.shiftl (at_ 1%nat) 12)) (Z.shiftl (at_ 2%nat) 6)) (at_ 3%nat) in
  Ok (Z.shiftr n 16 mod 256
      :: (if Z.ltb pad 2 then [Z.shiftr n 8 mod 256] else [])
      ++ (if Z.ltb pad 1 then [n mod 256] else [])).

Fixpoint decode_chunks (cs : list (list Z)) : result string (list Z) :=
  match cs with
  | [] => Ok []
  | c :: cs =>
      let? out := decode_chunk c in
      let? rest := decode_chunks cs in
      Ok (out ++ rest)
  end.

Definition base64_decode (input : string) : result string (list Z) :=
  decode_chunks (chunks 4 (filter (fun b => b <> 10 /\ b <> 13) (as_bytes input))).

(** ** Encoding *)

Definition ALPHA : list ascii := chars "ABCDEFGHIJKLMNOPQRSTUVWXYZabcdefghijklmnopqrstuvwxyz0123456789+/".
Definition alpha_at (i : Z) : ascii := default "="%char (ALPHA !! Z.to_nat i).

Definition encode_chunk (chunk : list Z) : list ascii :=
  let b0 := default 0 (chunk !! 0%nat) in
  let b1 := default 0 (chunk !! 1%nat) in
  let b2 := default 0 (chunk !! 2%nat) in
  let n := Z.lor (Z.lor (Z.shiftl b0 16) (Z.shiftl b1 8)) b2 in
  [alpha_at (Z.land (Z.shiftr n 18) 63); alpha_at (Z.land (Z.shiftr n 12) 63);
   if Nat.ltb 1 (length chunk) then alpha_at (Z.land (Z.shiftr n 6) 63) else "="%char;
   if Nat.ltb 2 (length chunk) then alpha_at (Z.land n 63) else "="%char].

Definition base64_encode (input : list Z) : string :=
  of_chars (concat (encode_chunk <$> chunks 3 input)).

(** ** Lemmas *)

Lemma byte_of_range (c : ascii) : is_byte (byte_of c).
Proof. unfold is_byte, byte_of. destruct c as [[] [] [] [] [] [] [] []]; vm_compute; split; congruence. Qed.

Lemma byte_of_char_of (z : Z) : is_byte z -> byte_of (char_of z) = z.
Proof.
  intros [H1 H2]. unfold byte_of, char_of, byte_at. rewrite N_ascii_embedding by lia. lia.
Qed.
Lemma char_of_byte_of (c : ascii) : char_of (byte_of c) = c.
Proof. unfold byte_of, char_of, byte_at. rewrite N2Z.id. apply ascii_N_embedding. Qed.

Lemma as_bytes_of_bytes (l : list Z) : Forall is_byte l -> as_bytes (of_bytes l) = l.
Proof.
  intros Hl. unfold as_bytes, of_bytes. rewrite chars_of_chars.
  induction Hl as [|z l Hz _ IH]; [done|]. cbn [fmap list_fmap]. by rewrite IH, byte_of_char_of.
Qed.
Lemma of_bytes_as_bytes (s : string) : of_bytes (as_bytes s) = s.
Proof.
  unfold as_bytes, of_bytes. apply chars_inj. rewrite chars_of_chars.
  induction (chars s) as [|c l IH]; [done|]. cbn [fmap list_fmap]. by rewrite IH, char_of_byte_of.
Qed.
Lemma as_bytes_range (s : string) : Forall is_byte (as_bytes s).
Proof. unfold as_bytes. apply Forall_fmap, Forall_true. intros c. apply byte_of_range. Qed.
Lemma length_as_bytes (s : string) : length (as_bytes s) = str_len s.
Proof. unfold as_bytes, str_len. by rewrite length_fmap. Qed.

Lemma from_to_be_bytes (n : Z) : from_be_bytes (n / 256) (n mod 256) = n.
Proof. unfold from_be_bytes. pose proof (Z.div_mod n 256 ltac:(lia)). lia. Qed.

(** A decidable property of the bytes below a bound is settled by trying them. *)
Lemma bytes_forall (n : nat) (P : Z -> Prop) `{forall z, Decision (P z)} :
  forallb (fun z => bool_decide (P z)) (Z.of_nat <$> seq 0 n) = true -> forall z, 0 <= z < Z.of_nat n -> P z.
Proof.
  intros Hall z Hz. rewrite forallb_forall in Hall. eapply bool_decide_eq_true_1, Hall, list_elem_of_In.
  apply list_elem_of_fmap. exists (Z.to_nat z). split; [lia|]. apply elem_of_seq. lia.
Qed.

Lemma lor_shiftl_add (a b k : Z) : 0 <= k -> 0 <= b < 2 ^ k -> Z.lor (Z.shiftl a k) b = a * 2 ^ k + b.
Proof.
  intros Hk Hb. rewrite Z.shiftl_mul_pow2 by done.
  assert (Z.land (a * 2 ^ k) b = 0) as Hl.
  { apply Z.bits_inj'. intros n Hn. rewrite Z.land_spec, Z.bits_0.
    destruct (Z.lt_ge_cases n k) as [Hlt|Hge]; [by rewrite Z.mul_pow2_bits_low by done|].
    apply andb_false_intro2. rewrite <- (Z.mod_small b (2 ^ k)) by done.
    by apply Z.mod_pow2_bits_high. }
  pose proof (Z.add_lor_land (a * 2 ^ k) b). lia.
Qed.

Lemma alpha_val (i : Z) : 0 <= i < 64 -> base64_val (byte_of (alpha_at i)) = Some i.
Proof.
  apply (bytes_forall 64 (fun i => base64_val (byte_of (alpha_at i)) = Some i)). vm_compute. reflexivity.
Qed.
Lemma alpha_plain (i : Z) :
  0 <= i < 64 -> byte_of (alpha_at i) <> 61 /\ byte_of (alpha_at i) <> 10 /\ byte_of (alpha_at i) <> 13.
Proof.
  apply (bytes_forall 64 (fun i =>
    byte_of (alpha_at i) <> 61 /\ byte_of (alpha_at i) <> 10 /\ byte_of (alpha_at i) <> 13)).
  vm_compute. reflexivity.
Qed.

(** The sextets of a group of three bytes, and the bytes of four sextets. *)
Lemma group_value (a b c : Z) :
  is_byte a -> is_byte b -> is_byte c ->
  Z.lor (Z.lor (Z.shiftl a 16) (Z.shiftl b 8)) c = a * 65536 + b * 256 + c.
Proof.
  unfold is_byte. intros Ha Hb Hc.
  replace (Z.shiftl a 16) with (Z.shiftl (Z.shiftl a 8) 8) by (by rewrite Z.shiftl_shiftl by lia).
  rewrite <- Z.shiftl_lor, (lor_shiftl_add _ c), (lor_shiftl_add a b) by (simpl; lia). simpl; lia.
Qed.
Lemma sextets_value (a b c d : Z) :
  0 <= a < 64 -> 0 <= b < 64 -> 0 <= c < 64 -> 0 <= d < 64 ->
  Z.lor (Z.lor (Z.lor (Z.shiftl a 18) (Z.shiftl b 12)) (Z.shiftl c 6)) d = ((a * 64 + b) * 64 + c) * 64 + d.
Proof.
  intros Ha Hb Hc Hd.
  replace (Z.shiftl a 18) with (Z.shiftl (Z.shiftl (Z.shiftl a 6) 6) 6) by (by rewrite !Z.shiftl_shiftl by lia).
  replace (Z.shiftl b 12) with (Z.shiftl (Z.shiftl b 6) 6) by (by rewrite Z.shiftl_shiftl by lia).
  rewrite <- !Z.shiftl_lor, (lor_shiftl_add _ d), (lor_shiftl_add _ c), (lor_shiftl_add a b) by (simpl; lia).
  simpl; lia.
Qed.

Lemma sextet_of (n k : Z) : 0 <= k -> Z.land (Z.shiftr n k) 63 = n / 2 ^ k mod 64.
Proof. intros Hk. change 63 with (Z.ones 6). by rewrite Z.land_ones, Z.shiftr_div_pow2 by lia. Qed.

(** One character that is not padding. *)
Lemma chunk_sextets_alpha (i : Z) (chunk : list Z) :
  0 <= i < 64 ->
  chunk_sextets (byte_of (alpha_at i) :: chunk) = let? (buf, pad) := chunk_sextets chunk in Ok (i :: buf, pad).
Proof.
  intros Hi. cbn [chunk_sextets]. destruct (alpha_plain i Hi) as (H1 & _).
  apply Z.eqb_neq in H1. by rewrite H1, alpha_val.
Qed.
Lemma chunk_sextets_pad (chunk : list Z) :
  chunk_sextets (byte_of "=" :: chunk) = let? (buf, pad) := chunk_sextets chunk in Ok (0 :: buf, pad + 1).
Proof. done. Qed.

Ltac sextet_range := apply Z.mod_pos_bound; lia.

Lemma decode_encode_chunk (chunk : list Z) :
  (1 <= length chunk <= 3)%nat -> Forall is_byte chunk -> decode_chunk (byte_of <$> encode_chunk chunk) = Ok chunk.
Proof.
  intros Hl Hb. unfold encode_chunk, decode_chunk. rewrite !sextet_of by lia.
  replace (Z.land (Z.lor (Z.lor _ _) _) 63) with
    (Z.lor (Z.lor (Z.shiftl (default 0 (chunk !! 0%nat)) 16) (Z.shiftl (default 0 (chunk !! 1%nat)) 8))
       (default 0 (chunk !! 2%nat)) / 2 ^ 0 mod 64)
    by (change 63 with (Z.ones 6); by rewrite Z.land_ones, Z.pow_0_r, Z.div_1_r by lia).
  destruct chunk as [|a [|b [|c [|? ?]]]]; simpl in Hl; try lia; repeat (apply Forall_cons in Hb as [? Hb]);
    cbn [lookup list_lookup default from_option id length Nat.ltb Nat.leb]; rewrite group_value by (done || (unfold is_byte; lia));
    cbn [fmap list_fmap]; rewrite ?chunk_sextets_pad; repeat (rewrite chunk_sextets_alpha by sextet_range);
    rewrite ?chunk_sextets_pad; cbn [chunk_sextets result_bind];
    cbn [lookup list_lookup default from_option id length Nat.ltb Nat.leb];
    (rewrite sextets_value by (sextet_range || lia)); rewrite !Z.shiftr_div_pow2 by lia;
    change (2 ^ 18) with 262144; change (2 ^ 16) with 65536; change (2 ^ 12) with 4096;
    change (2 ^ 8) with 256; change (2 ^ 6) with 64; change (2 ^ 0) with 1; unfold is_byte in *; simpl;
    repeat f_equal; Z.to_euclidean_division_equations; lia.
Qed.

Lemma chunks_fuel_enough {A} (n f g : nat) (l : list A) :
  (0 < n)%nat -> (length l <= f)%nat -> (length l <= g)%nat -> chunks_fuel f n l = chunks_fuel g n l.
Proof.
  intros Hn. revert g l. induction f as [|f IH]; intros [|g] [|x l] Hf Hg; simpl in *; try done; try lia.
  f_equal. apply IH; rewrite length_drop; simpl; lia.
Qed.

Lemma chunks_app {A} (n : nat) (c l : list A) : (0 < n)%nat -> length c = n -> chunks n (c ++ l) = c :: chunks n l.
Proof.
  intros Hn Hc. destruct c as [|x c]; [simpl in *; lia|]. unfold chunks at 1. simpl. f_equal.
  - rewrite <- Hc. simpl. by rewrite take_app_length.
  - destruct n as [|n]; [lia|]. simpl in *. injection Hc as <-. rewrite drop_app_length.
    apply chunks_fuel_enough; rewrite ?length_app; lia.
Qed.

Lemma chunks_short {A} (n : nat) (c : list A) : (0 < length c <= n)%nat -> chunks n c = [c].
Proof.
  intros Hc. destruct c as [|x c]; [simpl in *; lia|]. unfold chunks. simpl.
  rewrite firstn_all2, skipn_all2 by (simpl in *; lia). destruct (length c); done.
Qed.

(** Chunk after chunk, three bytes at a time. *)
Lemma chunks_ind (P : list Z -> Prop) :
  P [] -> (forall c, (1 <= length c <= 3)%nat -> P c) ->
  (forall c l, length c = 3%nat -> P l -> P (c ++ l)) -> forall l, P l.
Proof.
  intros H0 H1 H2 l. induction (Wf_nat.well_founded_ltof _ (@length Z) l) as [l _ IH].
  destruct (decide (length l <= 3)%nat) as [Hl|Hl].
  - destruct l; [done|]. apply H1. simpl in *. lia.
  - rewrite <- (take_drop 3 l). apply H2; [rewrite length_take; lia|].
    apply IH. unfold Wf_nat.ltof. rewrite length_drop. lia.
Qed.

Lemma encode_chunk_length (c : list Z) : length (encode_chunk c) = 4%nat.
Proof. done. Qed.

Lemma encode_chunk_plain (c : list Z) : Forall (fun b => b <> 10 /\ b <> 13) (byte_of <$> encode_chunk c).
Proof.
  assert (forall n, byte_of (alpha_at (Z.land n 63)) <> 10 /\ byte_of (alpha_at (Z.land n 63)) <> 13) as Ha.
  { intros n. destruct (alpha_plain (Z.land n 63)) as (_ & ?); [|done].
    change 63 with (Z.ones 6). rewrite Z.land_ones by lia. apply Z.mod_pos_bound. lia. }
  unfold encode_chunk. repeat (constructor; [repeat case_match; first [apply Ha|vm_compute; split; congruence]|]).
  constructor.
Qed.

Lemma decode_encode_chunks (l : list Z) :
  Forall is_byte l ->
  decode_chunks (chunks 4 (byte_of <$> concat (encode_chunk <$> chunks 3 l))) = Ok l.
Proof.
  induction l as [|c Hc|c l Hc IH] using chunks_ind; intros Hb; [done| |].
  - rewrite (chunks_short 3) by lia. cbn [fmap list_fmap concat]. rewrite app_nil_r, (chunks_short 4) by (simpl; lia).
    cbn [decode_chunks]. rewrite decode_encode_chunk by done. cbn. by rewrite app_nil_r.
  - apply Forall_app in Hb as [Hbc Hbl]. rewrite (chunks_app 3) by (done || lia). cbn [fmap list_fmap concat].
    fold (encode_chunk <$> chunks 3 l). rewrite fmap_app, (chunks_app 4) by (done || lia). cbn [decode_chunks].
    rewrite decode_encode_chunk by (done || lia). cbn [result_bind]. by rewrite IH.
Qed.

(** Whatever bytes a plugin encodes as base64 (the body of its response), decoding the
    text gives them back: no byte is added, lost or changed, padding included. *)
Theorem base64_roundtrip (l : list Z) : Forall is_byte l -> base64_decode (base64_encode l) = Ok l.
Proof.
  intros Hl. unfold base64_decode, base64_encode, as_bytes. rewrite chars_of_chars.
  rewrite filter_all; [by apply decode_encode_chunks|].
  clear Hl. induction l as [|c Hc|c l Hc IH] using chunks_ind; [constructor| |].
  - rewrite (chunks_short 3) by lia. cbn [fmap list_fmap concat]. rewrite app_nil_r. apply encode_chunk_plain.
  - rewrite (chunks_app 3) by (done || lia). cbn [fmap list_fmap concat]. fold (encode_chunk <$> chunks 3 l).
    rewrite fmap_app. apply Forall_app. split; [apply encode_chunk_plain|done].
Qed.

Lemma base64_roundtrip_witness :
  base64_encode [77; 97; 110; 0; 255] = "TWFuAP8=" /\ base64_decode (base64_encode [77; 97; 110; 0; 255]) = Ok [77; 97; 110; 0; 255].
Proof.
  split; [vm_compute; reflexivity|]. apply (base64_roundtrip [77; 97; 110; 0; 255]).
  repeat constructor; discriminate.
Defined.

Example base64_lenient : base64_decode "TQ" = Ok [77; 0; 0] /\ base64_decode "T===" = Ok [76].
Proof. split; vm_compute; reflexivity. Qed.
