(* ===== verification/Mqtt.v ===== *)
(** * The MQTT plugin (plugins/loadr-plugin-mqtt/src/lib.rs)

    The MQTT 3.1.1 packets the plugin writes and reads by hand, its publish and subscribe
    exchanges over one blocking connection, and the pool of connections its requests
    share.  A socket is what the broker will send on it, and what was written to it. *)

From Stdlib Require Import Ascii.
From S2P Require Import Prelude Float64 Str Dur Value StateErr Bytes.

(** ** Targets *)

Definition DEFAULT_PORT : Z := 1883.
Definition KEEP_ALIVE : Z := 0.

Record Creds := mkCreds {
  user : string;
  pass : option string;
}.
#[export] Instance Creds_eq_dec : EqDecision Creds.
Proof. solve_decision. Defined.

Record Target := mkTarget {
  addr : string;
  creds : option Creds;
}.

Definition pool_key (t : Target) : string :=
  match creds t with
  | Some c => user c +:+ "@" +:+ addr t
  | None => addr t
  end.

(** What the plugin reads of a parsed [url::Url]. *)
Record MqttUrl := mkMqttUrl {
  mu_scheme : string;
  mu_host : option string;
  mu_port : option Z;
  mu_username : string;
  mu_password : option string;
}.

Definition parse_target (url_parse : string -> result string MqttUrl) (raw : string) : result string Target :=
  let? url := result_map_err (fun e => "invalid url `" +:+ raw +:+ "`: " +:+ e) (url_parse raw) in
  if negb (bool_decide (mu_scheme url = "mqtt")) then
    Err ("mqtt plugin cannot handle scheme `" +:+ mu_scheme url +:+ "` (only plaintext `mqtt` is served)")
  else
    let? host := ok_or (mu_host url) ("`" +:+ raw +:+ "` has no host") in
    let port := default DEFAULT_PORT (mu_port url) in
    Ok (mkTarget (host +:+ ":" +:+ Z_to_string port)
          (if str_is_empty (mu_username url) then None else Some (mkCreds (mu_username url) (mu_password url)))).

(** ** Operations *)

Inductive Op :=
| OpPublish (topic : string) (qos : Z) (retain : bool) (body : list Z)
| OpSubscribe (topic : string) (qos : Z) (timeout : option Duration).

Definition op_name (o : Op) : string :=
  match o with OpPublish _ _ _ _ => "publish" | OpSubscribe _ _ _ => "subscribe" end.
Definition op_topic (o : Op) : string :=
  match o with OpPublish topic _ _ _ | OpSubscribe topic _ _ => topic end.
Definition op_qos (o : Op) : Z :=
  match o with OpPublish _ qos _ _ | OpSubscribe _ qos _ => qos end.

(** loadr-plugin-api/src/native.rs. *)
Record FfiRequest := mkFfiRequest {
  fq_name : string;
  fq_method : string;
  fq_url : string;
  fq_headers : list (string * string);
  fq_body_b64 : string;
  fq_timeout_ms : Z;
  fq_options : option Value;
  fq_config : Value;
}.

Record FfiResponse := mkFfiResponse {
  fr_status : Z;
  fr_status_text : string;
  fr_headers : list (string * string);
  fr_body_b64 : string;
  fr_duration_ms : f64;
  fr_error : option string;
  fr_extras : Value;
}.

(** [opts.and_then(|o| o.get(key))]. *)
Definition opt_get (opts : option Value) (key : string) : option Value :=
  match opts with
  | Some (Object m) => map_get key m
  | _ => None
  end.
Definition opt_str (opts : option Value) (key : string) : option string :=
  match opt_get opts key with Some (Text s) => Some s | _ => None end.

Section Parse.
Context `{JsonText}.

Definition resolve_body (request : FfiRequest) (opts : option Value) : result string (list Z) :=
  match opt_get opts "body" with
  | Some (Text s) => Ok (as_bytes s)
  | Some Null => Ok []
  | Some other => Ok (as_bytes (to_json other))
  | None => if str_is_empty (fq_body_b64 request) then Ok [] else base64_decode (fq_body_b64 request)
  end.

Definition parse_qos (opts : option Value) : result string Z :=
  match opt_get opts "qos" with
  | None | Some Null => Ok 0
  | Some (Num (PosInt q) as n) =>
      if Z.leb q 2 then Ok q else Err ("qos must be 0, 1 or 2 (got " +:+ to_json n +:+ ")")
  | Some (Num n) => Err ("qos must be 0, 1 or 2 (got " +:+ to_json (Num n) +:+ ")")
  | Some other => Err ("qos must be a number 0, 1 or 2 (got " +:+ to_json other +:+ ")")
  end.

(** A suffix and its scale in milliseconds. *)
Definition split_unit (s : string) : string * f64 :=
  match strip_suffix s "ms" with
  | Some rest => (rest, f64_of_Z 1)
  | None =>
      match strip_suffix s "s" with
      | Some rest => (rest, f64_of_Z 1000)
      | None => match strip_suffix s "m" with
                | Some rest => (rest, f64_of_Z 60000)
                | None => (s, f64_of_Z 1)
                end
      end
  end.

Definition parse_duration_str (raw : string) : result string Duration :=
  let s := trim raw in
  if str_is_empty s then Err "empty timeout"
  else
    let '(num, scale) := split_unit s in
    let? value := ok_or (parse_f64 (trim num)) ("invalid timeout `" +:+ raw +:+ "`") in
    if f64_lt value f64_zero then Err ("timeout must be non-negative (got `" +:+ raw +:+ "`)")
    else Ok (Duration_from_millis (f64_as_u64 (f64_mul value scale))).

Definition parse_timeout (value : Value) : result string (option Duration) :=
  match value with
  | Null => Ok None
  | Num n =>
      if f64_le f64_zero (Number_as_f64 n) then Ok (Some (Duration_from_millis (f64_as_u64 (Number_as_f64 n))))
      else Err ("timeout must be a non-negative number (got " +:+ to_json (Num n) +:+ ")")
  | Text s => let? d := parse_duration_str s in Ok (Some d)
  | other => Err ("invalid timeout `" +:+ to_json other +:+ "`")
  end.

Definition parse_op (request : FfiRequest) : result string Op :=
  let opts := fq_options request in
  let? operation := ok_or (opt_str opts "operation") "mqtt plugin requires an `operation` (`publish` or `subscribe`)" in
  let? topic := ok_or (match opt_str opts "topic" with
                       | Some s => if str_is_empty s then None else Some s
                       | None => None
                       end) "mqtt plugin requires a non-empty `topic`" in
  let? qos := parse_qos opts in
  if bool_decide (operation = "publish") || bool_decide (operation = "pub") then
    let retain := match opt_get opts "retain" with Some (Bool b) => b | _ => false end in
    let? body := resolve_body request opts in
    Ok (OpPublish topic qos retain body)
  else if bool_decide (operation = "subscribe") || bool_decide (operation = "sub") then
    let? timeout := match opt_get opts "timeout" with
                    | Some v => parse_timeout v
                    | None => Ok None
                    end in
    Ok (OpSubscribe topic qos timeout)
  else Err ("unknown mqtt operation `" +:+ operation +:+ "` (want `publish` or `subscribe`)").
End Parse.

(** ** The wire *)

Definition CONNECT : Z := 1.
Definition CONNACK : Z := 2.
Definition PUBLISH : Z := 3.
Definition PUBACK : Z := 4.
Definition PUBREC : Z := 5.
Definition PUBREL : Z := 6.
Definition PUBCOMP : Z := 7.
Definition SUBSCRIBE : Z := 8.
Definition SUBACK : Z := 9.
Definition PINGRESP : Z := 13.

Inductive Packet :=
| ConnAck (return_code : Z)
| Publish (qos : Z) (packet_id : option Z) (payload : list Z)
| PubAck (packet_id : Z)
| PubRec (packet_id : Z)
| PubRel (packet_id : Z)
| PubComp (packet_id : Z)
| SubAck (packet_id : Z) (codes : list Z)
| PingResp
| Other (packet_type : Z).
#[export] Instance Packet_eq_dec : EqDecision Packet.
Proof. solve_decision. Defined.

Definition encode_field (bytes : list Z) : list Z :=
  to_be_bytes (Z.of_nat (length bytes) mod 65536) ++ bytes.

Fixpoint remaining_length_fuel (fuel : nat) (len : Z) : list Z :=
  match fuel with
  | O => []
  | S fuel =>
      let byte := len mod 128 in
      let len := len / 128 in
      if Z.ltb 0 len then Z.lor byte 128 :: remaining_length_fuel fuel len else [byte]
  end.
(** A [usize] has at most ten groups of seven bits. *)
Definition encode_remaining_length (len : Z) : list Z := remaining_length_fuel 10 len.

Definition frame (packet_type flags : Z) (body : list Z) : list Z :=
  Z.lor (Z.land (Z.shiftl packet_type 4) 255) (Z.land flags 15)
    :: encode_remaining_length (Z.of_nat (length body)) ++ body.

Definition encode_connect (client_id : string) (c : option Creds) (keep_alive : Z) : list Z :=
  let flags := match c with
               | Some c => Z.lor (Z.lor 2 128) (match pass c with Some _ => 64 | None => 0 end)
               | None => 2
               end in
  let body := encode_field (as_bytes "MQTT") ++ [4; flags] ++ to_be_bytes keep_alive
              ++ encode_field (as_bytes client_id)
              ++ match c with
                 | Some c => encode_field (as_bytes (user c))
                             ++ match pass c with Some p => encode_field (as_bytes p) | None => [] end
                 | None => []
                 end in
  frame CONNECT 0 body.

Definition encode_publish (topic : string) (qos : Z) (retain : bool) (packet_id : option Z) (payload : list Z) : list Z :=
  let body := encode_field (as_bytes topic)
              ++ match packet_id with Some id => to_be_bytes id | None => [] end
              ++ payload in
  let flags := Z.lor (Z.shiftl (Z.land qos 3) 1) (if retain then 1 else 0) in
  frame PUBLISH flags body.

Definition encode_ack (packet_type flags packet_id : Z) : list Z :=
  frame packet_type flags (to_be_bytes packet_id).

Definition encode_subscribe (packet_id : Z) (topic : string) (qos : Z) : list Z :=
  frame SUBSCRIBE 2 (to_be_bytes packet_id ++ encode_field (as_bytes topic) ++ [Z.land qos 3]).

(** *** Reading *)

(** A [Read] that yields [l] and then fails, saying [e]. *)
Definition read_exact (e : string) (n : nat) (l : list Z) : result string (list Z * list Z) :=
  if Nat.leb n (length l) then Ok (take n l, drop n l) else Err ("read failed: " +:+ e).

Fixpoint remaining_length_loop (e : string) (turns : nat) (multiplier value : Z) (l : list Z) :
    result string (Z * list Z) :=
  match turns with
  | O => Err "malformed remaining length (more than 4 bytes)"
  | S turns =>
      let? (b, l) := read_exact e 1 l in
      let b := default 0 (b !! 0%nat) in
      let value := value + Z.land b 127 * multiplier in
      if Z.eqb (Z.land b 128) 0 then Ok (value, l)
      else remaining_length_loop e turns (multiplier * 128) value l
  end.
Definition read_remaining_length (e : string) (l : list Z) : result string (Z * list Z) :=
  remaining_length_loop e 4 1 0 l.

Definition read_packet_id (body : list Z) : result string Z :=
  match body with
  | hi :: lo :: _ => Ok (from_be_bytes hi lo)
  | _ => Err "packet too short for a packet identifier"
  end.

Definition parse_publish (flags : Z) (body : list Z) : result string Packet :=
  let qos := Z.land (Z.shiftr flags 1) 3 in
  match body with
  | hi :: lo :: _ =>
      let idx := (2 + Z.to_nat (from_be_bytes hi lo))%nat in
      if Nat.ltb (length body) idx then Err "malformed PUBLISH topic"
      else if Z.ltb 0 qos then
        match drop idx body with
        | hi :: lo :: payload => Ok (Publish qos (Some (from_be_bytes hi lo)) payload)
        | _ => Err "malformed PUBLISH packet id"
        end
      else Ok (Publish qos None (drop idx body))
  | _ => Err "malformed PUBLISH"
  end.

Definition parse_packet (packet_type flags : Z) (body : list Z) : result string Packet :=
  if Z.eqb packet_type CONNACK then
    match body with
    | _ :: return_code :: _ => Ok (ConnAck return_code)
    | _ => Err "malformed CONNACK"
    end
  else if Z.eqb packet_type PUBLISH then parse_publish flags body
  else if Z.eqb packet_type PUBACK then let? id := read_packet_id body in Ok (PubAck id)
  else if Z.eqb packet_type PUBREC then let? id := read_packet_id body in Ok (PubRec id)
  else if Z.eqb packet_type PUBREL then let? id := read_packet_id body in Ok (PubRel id)
  else if Z.eqb packet_type PUBCOMP then let? id := read_packet_id body in Ok (PubComp id)
  else if Z.eqb packet_type SUBACK then let? id := read_packet_id body in Ok (SubAck id (drop 2 body))
  else if Z.eqb packet_type PINGRESP then Ok PingResp
  else Ok (Other packet_type).

Definition read_packet (e : string) (l : list Z) : result string (Packet * list Z) :=
  let? (header, l) := read_exact e 1 l in
  let h := default 0 (header !! 0%nat) in
  let packet_type := Z.shiftr h 4 in
  let flags := Z.land h 15 in
  let? (remaining, l) := read_remaining_length e l in
  let? (body, l) := read_exact e (Z.to_nat remaining) l in
  let? p := parse_packet packet_type flags body in
  Ok (p, l).

(** ** Connections *)

(** A socket to a broker: what the broker sends on it, and the error reading past that ends
    in; everything written to it; and the outcomes of the writes to come ([None], or the end
    of the list: the write succeeds).  A write can fail after some of its bytes, or when it is flushed. *)
Inductive WriteFault :=
| WriteFails (written : nat) (e : string)
| FlushFails (e : string).

Record Conn := mkConn {
  c_in : list Z;
  c_in_err : string;
  c_out : list Z;
  c_sends : list (option WriteFault);
}.

Notation io := (stm Conn string).

Definition send (buf : list Z) : io unit := fun c =>
  match c_sends c with
  | Some (WriteFails n e) :: sends => (Err ("send failed: " +:+ e), mkConn (c_in c) (c_in_err c) (c_out c ++ take n buf) sends)
  | Some (FlushFails e) :: sends => (Err ("flush failed: " +:+ e), mkConn (c_in c) (c_in_err c) (c_out c ++ buf) sends)
  | sends => (Ok tt, mkConn (c_in c) (c_in_err c) (c_out c ++ buf) (tail sends))
  end.

Definition with_input (l : list Z) (c : Conn) : Conn := mkConn l (c_in_err c) (c_out c) (c_sends c).

(** After a failed read nothing is read from the connection again. *)
Definition io_read_packet : io Packet := fun c =>
  match read_packet (c_in_err c) (c_in c) with
  | Ok (p, l) => (Ok p, with_input l c)
  | Err e => (Err e, with_input [] c)
  end.

(** [TcpStream::set_read_timeout] refuses a zero duration. *)
Definition set_read_timeout (timeout : option Duration) : io unit :=
  if bool_decide (timeout = Some 0) then st_err "set_read_timeout failed: cannot set a 0 duration timeout"
  else st_ret tt.

(** [{:?}] of what an error message can show. *)
Definition debug_bytes (l : list Z) : string := "[" +:+ join ", " (Z_to_string <$> l) +:+ "]".
Definition debug_option (o : option Z) : string :=
  match o with Some z => "Some(" +:+ Z_to_string z +:+ ")" | None => "None" end.
Definition debug_id (name : string) (id : Z) : string := name +:+ " { packet_id: " +:+ Z_to_string id +:+ " }".
Definition debug_packet (p : Packet) : string :=
  match p with
  | ConnAck code => "ConnAck { return_code: " +:+ Z_to_string code +:+ " }"
  | Publish qos id payload =>
      "Publish { qos: " +:+ Z_to_string qos +:+ ", packet_id: " +:+ debug_option id
      +:+ ", payload: " +:+ debug_bytes payload +:+ " }"
  | PubAck id => debug_id "PubAck" id
  | PubRec id => debug_id "PubRec" id
  | PubRel id => debug_id "PubRel" id
  | PubComp id => debug_id "PubComp" id
  | SubAck id codes => "SubAck { packet_id: " +:+ Z_to_string id +:+ ", codes: " +:+ debug_bytes codes +:+ " }"
  | PingResp => "PingResp"
  | Other t => "Other { packet_type: " +:+ Z_to_string t +:+ " }"
  end.

Definition connack_reason (code : Z) : string :=
  let reason := if Z.eqb code 1 then "unacceptable protocol version"
                else if Z.eqb code 2 then "client identifier rejected"
                else if Z.eqb code 3 then "server unavailable"
                else if Z.eqb code 4 then "bad username or password"
                else if Z.eqb code 5 then "not authorized"
                else "connection refused" in
  "broker refused CONNECT: " +:+ reason +:+ " (code " +:+ Z_to_string code +:+ ")".

Definition client_handshake (client_id : string) (c : option Creds) (keep_alive : Z) : io unit :=
  let! _ := send (encode_connect client_id c keep_alive) in
  let! p := io_read_packet in
  match p with
  | ConnAck code => if Z.eqb code 0 then st_ret tt else st_err (connack_reason code)
  | other => st_err ("expected CONNACK on connect, got " +:+ debug_packet other)
  end.

(** [wait_for]: a turn reads a packet, so the bytes to come bound the turns
    ([wait_for_total]). *)
Fixpoint wait_for_fuel {T} (fuel : nat) (expected : string) (want : Packet -> option (result string T)) :
    Conn -> option (result string T * Conn) :=
  fun c =>
    match fuel with
    | O => None
    | S fuel =>
        match io_read_packet c with
        | (Err e, c) => Some (Err e, c)
        | (Ok packet, c) =>
            match want packet with
            | Some r => Some (r, c)
            | None =>
                match packet with
                | PingResp => wait_for_fuel fuel expected want c
                | other => Some (Err ("expected " +:+ expected +:+ ", got " +:+ debug_packet other), c)
                end
            end
        end
    end.
Definition wait_for {T} (expected : string) (want : Packet -> option (result string T)) : io T :=
  fun c => default (Err "", c) (wait_for_fuel (S (length (c_in c))) expected want c).

Definition want_puback (id : Z) (p : Packet) : option (result string unit) :=
  match p with PubAck got => if Z.eqb got id then Some (Ok tt) else None | _ => None end.
Definition want_pubrec (id : Z) (p : Packet) : option (result string unit) :=
  match p with PubRec got => if Z.eqb got id then Some (Ok tt) else None | _ => None end.
Definition want_pubrel (id : Z) (p : Packet) : option (result string unit) :=
  match p with PubRel got => if Z.eqb got id then Some (Ok tt) else None | _ => None end.
Definition want_pubcomp (id : Z) (p : Packet) : option (result string unit) :=
  match p with PubComp got => if Z.eqb got id then Some (Ok tt) else None | _ => None end.
Definition want_suback (id : Z) (p : Packet) : option (result string unit) :=
  match p with
  | SubAck got codes =>
      if Z.eqb got id then
        Some (if existsb (fun c => negb (Z.eqb (Z.land c 128) 0)) codes
              then Err "broker rejected subscription" else Ok tt)
      else None
  | _ => None
  end.
Definition want_publish (p : Packet) : option (result string (Z * option Z * list Z)) :=
  match p with Publish qos id payload => Some (Ok (qos, id, payload)) | _ => None end.

Definition do_publish (topic : string) (qos : Z) (retain : bool) (body : list Z) (packet_id : Z) : io unit :=
  let id := if Z.ltb 0 qos then Some packet_id else None in
  let! _ := send (encode_publish topic qos retain id body) in
  if Z.eqb qos 0 then st_ret tt
  else if Z.eqb qos 1 then wait_for "PUBACK" (want_puback packet_id)
  else if Z.eqb qos 2 then
    let! _ := wait_for "PUBREC" (want_pubrec packet_id) in
    let! _ := send (encode_ack PUBREL 2 packet_id) in
    wait_for "PUBCOMP" (want_pubcomp packet_id)
  else st_err ("invalid QoS " +:+ Z_to_string qos).

Definition ack_incoming (qos : Z) (packet_id : option Z) : io unit :=
  if Z.eqb qos 0 then st_ret tt
  else if Z.eqb qos 1 then
    let! id := st_lift (ok_or packet_id "QoS 1 PUBLISH missing packet id") in
    send (encode_ack PUBACK 0 id)
  else if Z.eqb qos 2 then
    let! id := st_lift (ok_or packet_id "QoS 2 PUBLISH missing packet id") in
    let! _ := send (encode_ack PUBREC 0 id) in
    let! _ := wait_for "PUBREL" (want_pubrel id) in
    send (encode_ack PUBCOMP 0 id)
  else st_err ("invalid QoS " +:+ Z_to_string qos +:+ " on delivered message").

Definition do_subscribe (topic : string) (qos packet_id : Z) : io (list Z) :=
  let! _ := send (encode_subscribe packet_id topic qos) in
  let! _ := wait_for "SUBACK" (want_suback packet_id) in
  let! (msg_qos, msg_id, payload) := wait_for "PUBLISH" want_publish in
  let! _ := ack_incoming msg_qos msg_id in
  st_ret payload.

Definition perform (o : Op) (packet_id : Z) : io (list Z) :=
  match o with
  | OpPublish topic qos retain body =>
      let! _ := do_publish topic qos retain body packet_id in st_ret []
  | OpSubscribe topic qos _ => do_subscribe topic qos packet_id
  end.

(** ** The pool *)

(** The process-wide state: idle connections by key, the counter of identifiers, and what
    the dials to come answer ([TcpStream::connect]). *)
Record MqttWorld := mkMqttWorld {
  idle : gmap string (list Conn);
  next : Z;
  dials : list (result string Conn);
}.

Definition checkout (key : string) (w : MqttWorld) : option (Conn * MqttWorld) :=
  match idle w !! key with
  | Some conns =>
      match last conns with
      | Some c => Some (c, mkMqttWorld (<[key := removelast conns]> (idle w)) (next w) (dials w))
      | None => None
      end
  | None => None
  end.

Definition checkin (key : string) (c : Conn) (w : MqttWorld) : MqttWorld :=
  mkMqttWorld (<[key := default [] (idle w !! key) ++ [c]]> (idle w)) (next w) (dials w).

Definition next_id : stm MqttWorld string Z := fun w =>
  (Ok (next w), mkMqttWorld (idle w) (u64_add (next w) 1) (dials w)).

Definition packet_id_from (id : Z) : Z :=
  let v := Z.land id 65535 in if Z.eqb v 0 then 1 else v.

Definition dial : stm MqttWorld string Conn := fun w =>
  match dials w with
  | r :: ds => (r, mkMqttWorld (idle w) (next w) ds)
  | [] => (Err "connection refused", w)
  end.

(** [{:x}]. *)
Fixpoint hex_fuel (fuel : nat) (n : Z) : list ascii :=
  match fuel with
  | O => []
  | S fuel =>
      let d := n mod 16 in
      (if Z.ltb 0 (n / 16) then hex_fuel fuel (n / 16) else [])
        ++ [char_of (if Z.ltb d 10 then 48 + d else 87 + d)]
  end.
Definition to_hex (n : Z) : string := of_chars (hex_fuel 16 n).

Section Run.
(** [std::process::id()]. *)
Context (pid : Z).

Definition connect (t : Target) : stm MqttWorld string Conn :=
  let! conn := st_map_err (fun e => "connection to " +:+ addr t +:+ " failed: " +:+ e) dial in
  let! n := next_id in
  match client_handshake ("loadr-" +:+ to_hex pid +:+ "-" +:+ to_hex n) (creds t) KEEP_ALIVE conn with
  | (Ok _, conn) => st_ret conn
  | (Err e, _) => st_err e
  end.

(** One attempt on a connection the caller owns; on success the connection goes back. *)
Definition attempt (key : string) (timeout : option Duration) (o : Op) (packet_id : Z) (conn : Conn)
    (w : MqttWorld) : result string (list Z) * MqttWorld :=
  match (let! _ := set_read_timeout timeout in perform o packet_id) conn with
  | (Ok body, conn) => (Ok body, checkin key conn w)
  | (Err e, _) => (Err e, w)
  end.

Definition run (t : Target) (key : string) (timeout : option Duration) (o : Op) (packet_id : Z) :
    stm MqttWorld string (list Z) := fun w =>
  let fresh := (let! conn := connect t in attempt key timeout o packet_id conn) in
  match checkout key w with
  | Some (conn, w) =>
      match attempt key timeout o packet_id conn w with
      | (Ok body, w) => (Ok body, w)
      | (Err _, w) => fresh w
      end
  | None => fresh w
  end.

(** ** The handler *)

Definition ok_response (o : Op) (body : list Z) (latency_ms : f64) : FfiResponse :=
  mkFfiResponse 0 "OK" [] (base64_encode body) latency_ms None
    (Object [("operation", Text (op_name o)); ("qos", Num (PosInt (op_qos o))); ("topic", Text (op_topic o))]).

Definition error_response (latency_ms : f64) (error : string) : FfiResponse :=
  mkFfiResponse 1 "ERROR" [] "" latency_ms (Some error) (Object []).

Definition elapsed_ms (elapsed : Duration) : f64 := f64_mul (as_secs_f64 elapsed) (f64_of_Z 1000).

Context `{JsonText} (decode_request : string -> result string FfiRequest)
  (url_parse : string -> result string MqttUrl).

Definition op_timeout (o : Op) (request : FfiRequest) : option Duration :=
  match o with
  | OpSubscribe _ _ (Some t) => Some t
  | _ => if Z.eqb (fq_timeout_ms request) 0 then None else Some (Duration_from_millis (fq_timeout_ms request))
  end.

Definition handle (request_json : string) (elapsed : Duration) (w : MqttWorld) : FfiResponse * MqttWorld :=
  match decode_request request_json with
  | Err e => (error_response f64_zero ("invalid request JSON: " +:+ e), w)
  | Ok request =>
      match parse_target url_parse (fq_url request), parse_op request with
      | Err e, _ => (error_response (elapsed_ms elapsed) e, w)
      | _, Err e => (error_response (elapsed_ms elapsed) e, w)
      | Ok target, Ok o =>
          let '(r, w) := (let! id := next_id in
                          run target (pool_key target) (op_timeout o request) o (packet_id_from id)) w in
          match r with
          | Ok body => (ok_response o body (elapsed_ms elapsed), w)
          | Err e => (error_response (elapsed_ms elapsed) e, w)
          end
      end
  end.
End Run.

(** ** The codec *)

Lemma continue_bits (b : Z) :
  0 <= b < 128 ->
  Z.land (Z.lor b 128) 127 = b /\ Z.land (Z.lor b 128) 128 = 128 /\ Z.land b 127 = b /\ Z.land b 128 = 0.
Proof.
  apply (bytes_forall 128 (fun b => Z.land (Z.lor b 128) 127 = b /\ Z.land (Z.lor b 128) 128 = 128
                                    /\ Z.land b 127 = b /\ Z.land b 128 = 0)).
  vm_compute. reflexivity.
Qed.

Lemma read_exact_app (e : string) (n : nat) (l r : list Z) : length l = n -> read_exact e n (l ++ r) = Ok (l, r).
Proof.
  intros <-. unfold read_exact. rewrite length_app. destruct (Nat.leb_spec (length l) (length l + length r)); [|lia].
  by rewrite take_app_length, drop_app_length.
Qed.

Lemma remaining_length_step (e : string) (turns : nat) (m v b : Z) (l : list Z) :
  remaining_length_loop e (S turns) m v (b :: l)
  = if Z.eqb (Z.land b 128) 0 then Ok (v + Z.land b 127 * m, l)
    else remaining_length_loop e turns (m * 128) (v + Z.land b 127 * m) l.
Proof. done. Qed.

Lemma remaining_length_loop_ok (e : string) (turns fuel : nat) (m v n : Z) (r : list Z) :
  (turns < fuel)%nat -> 0 <= n < 128 ^ Z.of_nat (S turns) ->
  remaining_length_loop e (S turns) m v (remaining_length_fuel fuel n ++ r) = Ok (v + n * m, r).
Proof.
  revert fuel m v n. induction turns as [|turns IH]; intros [|fuel] m v n Hf Hn; try lia.
  - change (128 ^ Z.of_nat 1) with 128 in Hn. destruct (continue_bits n Hn) as (_ & _ & H3 & H4).
    cbn [remaining_length_fuel]. rewrite Z.div_small, Z.mod_small by lia.
    cbn [Z.ltb Z.compare app]. by rewrite remaining_length_step, H3, H4.
  - rewrite Nat2Z.inj_succ, Z.pow_succ_r in Hn by lia.
    assert (0 <= n mod 128 < 128) as Hb by (apply Z.mod_pos_bound; lia).
    destruct (continue_bits _ Hb) as (H1 & H2 & H3 & H4).
    pose proof (Z.div_mod n 128 ltac:(lia)). pose proof (Z.div_pos n 128 ltac:(lia) ltac:(lia)).
    assert (n / 128 < 128 ^ Z.of_nat (S turns)) by (apply Z.div_lt_upper_bound; [lia|apply Hn]).
    cbn [remaining_length_fuel]. destruct (Z.ltb_spec 0 (n / 128)) as [Hq|Hq].
    + cbn [app]. rewrite remaining_length_step, H1, H2. cbn [Z.eqb]. rewrite IH by lia. f_equal. f_equal. nia.
    + cbn [app]. rewrite remaining_length_step, H3, H4. cbn [Z.eqb]. by replace (n mod 128) with n by lia.
Qed.

Lemma remaining_length_loop_long (e : string) (turns fuel : nat) (m v n : Z) (r : list Z) :
  (turns < fuel)%nat -> 128 ^ Z.of_nat turns <= n ->
  remaining_length_loop e turns m v (remaining_length_fuel fuel n ++ r)
  = Err "malformed remaining length (more than 4 bytes)".
Proof.
  revert fuel m v n. induction turns as [|turns IH]; intros [|fuel] m v n Hf Hn; try lia; try done.
  assert (0 <= n mod 128 < 128) as Hb by (apply Z.mod_pos_bound; lia).
  destruct (continue_bits _ Hb) as (H1 & H2 & _).
  rewrite Nat2Z.inj_succ, Z.pow_succ_r in Hn by lia.
  assert (128 ^ Z.of_nat turns <= n / 128) as Hq by (apply Z.div_le_lower_bound; lia).
  assert (0 < 128 ^ Z.of_nat turns) by (apply Z.pow_pos_nonneg; lia).
  cbn [remaining_length_fuel]. destruct (Z.ltb_spec 0 (n / 128)); [|lia].
  cbn [app]. rewrite remaining_length_step, H2. cbn [Z.eqb]. apply IH; lia.
Qed.

(** The length a packet declares is read back exactly when it is below 2^28, the limit of
    the protocol's four bytes; a longer packet is still written, with a header no reader
    accepts. *)
Theorem remaining_length_exact (e : string) (n : Z) (r : list Z) :
  0 <= n < 2 ^ 64 ->
  read_remaining_length e (encode_remaining_length n ++ r)
  = if Z.ltb n (2 ^ 28) then Ok (n, r) else Err "malformed remaining length (more than 4 bytes)".
Proof.
  intros Hn. unfold read_remaining_length, encode_remaining_length. destruct (Z.ltb_spec n (2 ^ 28)).
  - rewrite remaining_length_loop_ok by (simpl; lia). f_equal. f_equal. lia.
  - apply remaining_length_loop_long; simpl; lia.
Qed.

Lemma remaining_length_exact_witness :
  encode_remaining_length 321 = [193; 2]
  /\ read_remaining_length "eof" (encode_remaining_length (2 ^ 28) ++ [])
     = if Z.ltb (2 ^ 28) (2 ^ 28) then Ok (2 ^ 28, []) else Err "malformed remaining length (more than 4 bytes)".
Proof. split; [vm_compute; reflexivity|]. apply (remaining_length_exact "eof" (2 ^ 28) []). lia. Defined.

Lemma header_bits (t flags : Z) :
  0 <= t < 16 -> 0 <= flags < 16 ->
  let h := Z.lor (Z.land (Z.shiftl t 4) 255) (Z.land flags 15) in Z.shiftr h 4 = t /\ Z.land h 15 = flags.
Proof.
  intros Ht Hf.
  assert (forall z, 0 <= z < 256 ->
    Z.shiftr (Z.lor (Z.land (Z.shiftl (z / 16) 4) 255) (Z.land (z mod 16) 15)) 4 = z / 16
    /\ Z.land (Z.lor (Z.land (Z.shiftl (z / 16) 4) 255) (Z.land (z mod 16) 15)) 15 = z mod 16) as H.
  { apply (bytes_forall 256 (fun z =>
      Z.shiftr (Z.lor (Z.land (Z.shiftl (z / 16) 4) 255) (Z.land (z mod 16) 15)) 4 = z / 16
      /\ Z.land (Z.lor (Z.land (Z.shiftl (z / 16) 4) 255) (Z.land (z mod 16) 15)) 15 = z mod 16)).
    vm_compute. reflexivity. }
  specialize (H (t * 16 + flags) ltac:(lia)).
  replace ((t * 16 + flags) / 16) with t in H by (Z.to_euclidean_division_equations; lia).
  by replace ((t * 16 + flags) mod 16) with flags in H by (Z.to_euclidean_division_equations; lia).
Qed.

Lemma read_packet_frame (e : string) (t flags : Z) (body r : list Z) :
  0 <= t < 16 -> 0 <= flags < 16 -> Z.of_nat (length body) < 2 ^ 28 ->
  read_packet e (frame t flags body ++ r) = let? p := parse_packet t flags body in Ok (p, r).
Proof.
  intros Ht Hf Hl. unfold read_packet, frame. destruct (header_bits t flags Ht Hf) as [H1 H2].
  cbn [app read_exact Nat.leb length take drop result_bind lookup list_lookup default from_option id].
  rewrite H1, H2, <- app_assoc.
  unfold read_remaining_length, encode_remaining_length. rewrite drop_0, remaining_length_loop_ok by (simpl; lia).
  cbn [result_bind]. rewrite read_exact_app by lia. done.
Qed.

(** The packets the plugin writes that have a reader in it. *)
Inductive encodes : Packet -> list Z -> Prop :=
| encodes_publish (topic : string) (qos : Z) (retain : bool) (id : option Z) (payload : list Z) :
    0 <= qos <= 2 -> (qos = 0 <-> id = None) -> (forall i, id = Some i -> 0 <= i < 65536) ->
    Z.of_nat (str_len topic) < 65536 -> Z.of_nat (str_len topic + length payload) + 4 < 2 ^ 28 ->
    encodes (Publish qos id payload) (encode_publish topic qos retain id payload)
| encodes_puback (id : Z) : encodes (PubAck id) (encode_ack PUBACK 0 id)
| encodes_pubrec (id : Z) : encodes (PubRec id) (encode_ack PUBREC 0 id)
| encodes_pubrel (id : Z) : encodes (PubRel id) (encode_ack PUBREL 2 id)
| encodes_pubcomp (id : Z) : encodes (PubComp id) (encode_ack PUBCOMP 0 id).

Lemma publish_flags (qos : Z) (retain : bool) :
  0 <= qos <= 2 ->
  let flags := Z.lor (Z.shiftl (Z.land qos 3) 1) (if retain then 1 else 0) in
  0 <= flags < 16 /\ Z.land (Z.shiftr flags 1) 3 = qos.
Proof.
  intros Hq. assert (qos = 0 \/ qos = 1 \/ qos = 2) as [-> | [-> | ->]] by lia; destruct retain; vm_compute; intuition congruence.
Qed.

Lemma parse_publish_ok (flags qos : Z) (topic : list Z) (id : option Z) (payload : list Z) :
  Z.land (Z.shiftr flags 1) 3 = qos -> 0 <= qos -> (qos = 0 <-> id = None) -> Z.of_nat (length topic) < 65536 ->
  parse_publish flags (encode_field topic ++ match id with Some i => to_be_bytes i | None => [] end ++ payload)
  = Ok (Publish qos id payload).
Proof.
  intros Hq Hq0 Hid Ht. unfold parse_publish, encode_field. rewrite Hq, Z.mod_small by lia.
  set (rest := match id with Some i => to_be_bytes i | None => [] end ++ payload).
  unfold to_be_bytes. cbn [app]. rewrite from_to_be_bytes, Nat2Z.id.
  destruct (Nat.ltb_spec (length (Z.of_nat (length topic) / 256 :: Z.of_nat (length topic) mod 256
    :: topic ++ rest)) (2 + length topic)) as [Hl|_]; [simpl in Hl; rewrite length_app in Hl; lia|].
  change (2 + length topic)%nat with (S (S (length topic))). rewrite !skipn_cons, drop_app_length.
  destruct id as [i|]; subst rest.
  - destruct (Z.ltb_spec 0 qos) as [_|]; [|by assert (qos = 0) as Hz by lia; apply Hid in Hz].
    unfold to_be_bytes. cbn [app]. by rewrite from_to_be_bytes.
  - by rewrite (proj2 Hid eq_refl).
Qed.

(** C38: What the plugin writes, it reads back: every PUBLISH within the protocol's limits
    and every acknowledgement, whatever bytes follow on the stream; the topic, the payload
    and the packet identifier keep their boundaries. *)
Theorem packet_roundtrip (e : string) (p : Packet) (l r : list Z) :
  encodes p l -> read_packet e (l ++ r) = Ok (p, r).
Proof.
  intros He. destruct He as [topic qos retain id payload Hq Hid Hi Ht Hl|id|id|id|id].
  - unfold encode_publish. destruct (publish_flags qos retain Hq) as [Hf Hfq]. rewrite read_packet_frame; [|done|done|].
    + unfold parse_packet. cbn [Z.eqb PUBLISH CONNACK Pos.eqb].
      rewrite (parse_publish_ok _ qos) by (done || lia || by rewrite length_as_bytes). done.
    + unfold encode_field. rewrite !length_app, length_as_bytes. destruct id; simpl; lia.
  - unfold encode_ack. rewrite read_packet_frame by (done || vm_compute; split; congruence). simpl. by rewrite from_to_be_bytes.
  - unfold encode_ack. rewrite read_packet_frame by (done || vm_compute; split; congruence). simpl. by rewrite from_to_be_bytes.
  - unfold encode_ack. rewrite read_packet_frame by (done || vm_compute; split; congruence). simpl. by rewrite from_to_be_bytes.
  - unfold encode_ack. rewrite read_packet_frame by (done || vm_compute; split; congruence). simpl. by rewrite from_to_be_bytes.
Qed.

Lemma packet_roundtrip_witness :
  encodes (Publish 1 (Some 7) [104; 105]) [50; 7; 0; 1; 116; 0; 7; 104; 105]
  /\ read_packet "eof" ([50; 7; 0; 1; 116; 0; 7; 104; 105] ++ [208; 0])
     = Ok (Publish 1 (Some 7) [104; 105], [208; 0]).
Proof.
  assert (encodes (Publish 1 (Some 7) [104; 105]) [50; 7; 0; 1; 116; 0; 7; 104; 105]) as H.
  { apply (encodes_publish "t" 1 false (Some 7) [104; 105]).
    - lia.
    - split; discriminate.
    - intros i Hi. injection Hi as <-. lia.
    - vm_compute. reflexivity.
    - vm_compute. reflexivity. }
  split; [exact H|]. exact (packet_roundtrip "eof" _ _ [208; 0] H).
Defined.

(** ** Exchanges *)

Lemma read_exact_Ok (e : string) (n : nat) (l a b : list Z) : read_exact e n l = Ok (a, b) -> l = a ++ b /\ length a = n.
Proof.
  unfold read_exact. destruct (Nat.leb_spec n (length l)); [|done]. intros [= <- <-].
  rewrite take_drop, length_take. split; [done|lia].
Qed.

Lemma remaining_length_loop_shorter (e : string) (turns : nat) (m v : Z) (l : list Z) (r : Z * list Z) :
  remaining_length_loop e turns m v l = Ok r -> (length r.2 <= length l)%nat.
Proof.
  revert m v l. induction turns as [|turns IH]; intros m v l; cbn [remaining_length_loop]; [done|].
  destruct (read_exact e 1 l) as [[a b]|] eqn:E; cbn [result_bind]; [|done].
  apply read_exact_Ok in E as [-> E]. destruct (Z.eqb _ _).
  - intros [= <-]. simpl. rewrite length_app. lia.
  - intros Hl. apply IH in Hl. rewrite length_app. lia.
Qed.

Lemma read_packet_shorter (e : string) (l l' : list Z) (p : Packet) :
  read_packet e l = Ok (p, l') -> (length l' < length l)%nat.
Proof.
  unfold read_packet. destruct (read_exact e 1 l) as [[h l1]|] eqn:E1; cbn [result_bind]; [|done].
  destruct (read_remaining_length e l1) as [[n l2]|] eqn:E2; cbn [result_bind]; [|done].
  destruct (read_exact e (Z.to_nat n) l2) as [[body l3]|] eqn:E3; cbn [result_bind]; [|done].
  destruct (parse_packet _ _ body); cbn [result_bind]; [|done]. intros [= <- <-].
  apply read_exact_Ok in E1 as [-> E1], E3 as [-> _]. apply remaining_length_loop_shorter in E2. simpl in E2.
  rewrite length_app in *. lia.
Qed.

Lemma io_read_packet_shorter (c c' : Conn) (p : Packet) :
  io_read_packet c = (Ok p, c') -> (length (c_in c') < length (c_in c))%nat.
Proof.
  unfold io_read_packet. destruct (read_packet _ _) as [[q l]|] eqn:E; [|done].
  intros [= <- <-]. by apply read_packet_shorter in E.
Qed.

Lemma wait_for_fuel_total {T} (expected : string) (want : Packet -> option (result string T)) (fuel : nat) (c : Conn) :
  (length (c_in c) < fuel)%nat -> is_Some (wait_for_fuel fuel expected want c).
Proof.
  revert c. induction fuel as [|fuel IH]; intros c Hf; [lia|]. cbn [wait_for_fuel].
  destruct (io_read_packet c) as [[p|e] c'] eqn:E; [|eauto]. apply io_read_packet_shorter in E.
  destruct (want p); [eauto|]. destruct p; eauto. apply IH. lia.
Qed.
Lemma wait_for_total {T} (expected : string) (want : Packet -> option (result string T)) (c : Conn) :
  wait_for_fuel (S (length (c_in c))) expected want c = Some (wait_for expected want c).
Proof.
  unfold wait_for. destruct (wait_for_fuel_total expected want (S (length (c_in c))) c) as [r ->]; [lia|done].
Qed.

(** The packets on a stream. *)
Inductive reads (e : string) : list Z -> list Packet -> list Z -> Prop :=
| reads_nil (l : list Z) : reads e l [] l
| reads_cons (l l1 l2 : list Z) (p : Packet) (ps : list Packet) :
    read_packet e l = Ok (p, l1) -> reads e l1 ps l2 -> reads e l (p :: ps) l2.

Lemma reads_app (e : string) (l l2 : list Z) (ps qs : list Packet) :
  reads e l (ps ++ qs) l2 <-> exists l1, reads e l ps l1 /\ reads e l1 qs l2.
Proof.
  split.
  - revert l. induction ps as [|p ps IH]; intros l H; [eexists; split; [constructor|done]|].
    inversion H as [|? l1 ? ? ? Hp Hr]; subst. destruct (IH _ Hr) as (l3 & ? & ?).
    exists l3. split; [by econstructor|done].
  - intros (l1 & H1 & H2). induction H1; [done|]. simpl. econstructor; eauto.
Qed.

Definition pings (n : nat) : list Packet := replicate n PingResp.

Lemma wait_for_fuel_Ok {T} (expected : string) (want : Packet -> option (result string T)) (x : T) (fuel : nat) (c c' : Conn) :
  want PingResp = None ->
  wait_for_fuel fuel expected want c = Some (Ok x, c') ->
  exists n p, reads (c_in_err c) (c_in c) (pings n ++ [p]) (c_in c') /\ want p = Some (Ok x) /\ c' = with_input (c_in c') c.
Proof.
  intros Hw. revert c. induction fuel as [|fuel IH]; intros c; cbn [wait_for_fuel]; [done|].
  unfold io_read_packet. destruct (read_packet (c_in_err c) (c_in c)) as [[p l]|e] eqn:E; [|done].
  destruct (want p) as [r|] eqn:Ep.
  - intros [= -> <-]. exists 0%nat, p. split; [|done]. econstructor; [exact E|constructor].
  - destruct p; try discriminate. intros H. destruct (IH _ H) as (n & p & Hr & Hp & Hc).
    exists (S n), p. split; [simpl in *; econstructor; [exact E|exact Hr]|]. split; [done|]. rewrite Hc at 1. done.
Qed.

(** [wait_for] answers with the first packet that is not an idle ping. *)
Lemma wait_for_Ok {T} (expected : string) (want : Packet -> option (result string T)) (x : T) (c c' : Conn) :
  want PingResp = None ->
  wait_for expected want c = (Ok x, c') <->
  exists n p, reads (c_in_err c) (c_in c) (pings n ++ [p]) (c_in c') /\ want p = Some (Ok x) /\ c' = with_input (c_in c') c.
Proof.
  intros Hw. split.
  - intros H. apply (wait_for_fuel_Ok expected want x (S (length (c_in c)))); [done|]. by rewrite wait_for_total, H.
  - intros (n & p & Hr & Hp & Hc). pose proof (wait_for_total expected want c) as Ht.
    apply (inj Some). rewrite <- Ht. clear Ht. generalize (Nat.lt_succ_diag_r (length (c_in c))).
    generalize (S (length (c_in c))) as fuel. rewrite Hc. clear Hc. generalize (c_in c') as l', Hr. clear c' Hr.
    revert c. induction n as [|n IH]; intros c l' Hr [|fuel] Hf; try lia; cbn [wait_for_fuel];
      inversion Hr as [|? l1 ? ? ? E Hr1]; subst; unfold io_read_packet; rewrite E.
    + inversion Hr1; subst. by rewrite Hp.
    + rewrite Hw. apply read_packet_shorter in E. apply (IH (with_input l1 c)); [done|simpl; lia].
Qed.

Lemma want_exact (id : Z) (p : Packet) :
  (want_puback id p = Some (Ok tt) <-> p = PubAck id) /\ (want_pubrec id p = Some (Ok tt) <-> p = PubRec id)
  /\ (want_pubrel id p = Some (Ok tt) <-> p = PubRel id) /\ (want_pubcomp id p = Some (Ok tt) <-> p = PubComp id).
Proof.
  destruct p as [| |i|i|i|i| | |]; simpl; try (destruct (Z.eqb_spec i id)); naive_solver.
Qed.

(** The packets a broker answers a PUBLISH with, idle pings apart. *)
Inductive confirms (id : Z) : Z -> list Packet -> Prop :=
| confirms_0 : confirms id 0 []
| confirms_1 (n : nat) : confirms id 1 (pings n ++ [PubAck id])
| confirms_2 (n m : nat) : confirms id 2 ((pings n ++ [PubRec id]) ++ pings m ++ [PubComp id]).

Definition publish_bytes (topic : string) (qos : Z) (retain : bool) (body : list Z) (id : Z) : list Z :=
  encode_publish topic qos retain (if Z.ltb 0 qos then Some id else None) body
  ++ (if Z.eqb qos 2 then encode_ack PUBREL 2 id else []).

(** The PUBLISH, and the PUBREL at QoS 2. *)
Definition writes (qos : Z) : nat := if Z.eqb qos 2 then 2 else 1.

Lemma send_Ok (buf : list Z) (c c' : Conn) (u : unit) :
  send buf c = (Ok u, c')
  <-> Forall (eq None) (take 1 (c_sends c)) /\ c' = mkConn (c_in c) (c_in_err c) (c_out c ++ buf) (drop 1 (c_sends c)).
Proof.
  destruct u. unfold send. destruct (c_sends c) as [|[[n e|e]|] sends]; cbn [take drop tail].
  - split; [by intros [= <-]|by intros [_ ->]].
  - split; [done|]. by intros [[? _]%Forall_cons _].
  - split; [done|]. by intros [[? _]%Forall_cons _].
  - rewrite take_0, drop_0. split; [intros [= <-]; by repeat constructor|by intros [_ ->]].
Qed.

Lemma Forall_take_succ {A} (P : A -> Prop) (n m : nat) (l : list A) :
  Forall P (take (n + m) l) <-> Forall P (take n l) /\ Forall P (take m (drop n l)).
Proof. by rewrite <- Forall_app, take_take_drop. Qed.

(** C36: a publish succeeds exactly when every write went out and the broker confirmed it, whatever else happens on the
    connection: nothing is awaited at QoS 0, its PUBACK at QoS 1, its PUBREC and then its PUBCOMP at QoS 2, for this very
    packet identifier, with nothing but pings before them; and then the connection has carried the PUBLISH, the PUBREL at QoS 2,
    and nothing else, and no byte past the confirmation was read.  So a write that fails, or a flush, makes it an error at every QoS. *)
Theorem publish_exact (topic : string) (qos : Z) (retain : bool) (body : list Z) (id : Z) (l : list Z) (e : string)
    (out : list Z) (sends : list (option WriteFault)) (c' : Conn) :
  0 <= qos <= 2 ->
  do_publish topic qos retain body id (mkConn l e out sends) = (Ok tt, c') <->
  Forall (eq None) (take (writes qos) sends)
  /\ exists ps l', confirms id qos ps /\ reads e l ps l'
       /\ c' = mkConn l' e (out ++ publish_bytes topic qos retain body id) (drop (writes qos) sends).
Proof.
  intros Hq. assert (qos = 0 \/ qos = 1 \/ qos = 2) as [-> | [-> | ->]] by lia; unfold do_publish, publish_bytes, writes;
    cbn [Z.ltb Z.eqb Z.compare Pos.eqb]; rewrite ?app_nil_r, st_bind_Ok; setoid_rewrite send_Ok; cbn [c_sends c_in c_in_err c_out].
  - split.
    + intros ([] & c1 & [Hs ->] & [= <-]). split; [done|]. exists [], l. repeat constructor.
    + intros (Hs & ps & l' & Hc & Hr & ->). inversion Hc; subst. inversion Hr; subst. by eexists tt, _.
  - split.
    + intros ([] & c1 & [Hs ->] & H). split; [done|]. apply wait_for_Ok in H as (n & p & Hr & Hp & ->); [|done].
      apply want_exact in Hp as ->. eexists _, _. split; [constructor|]. by split.
    + intros (Hs & ps & l' & Hc & Hr & ->). eexists tt, _. split; [by split|]. apply wait_for_Ok; [done|].
      inversion Hc as [|n|]; subst. exists n, (PubAck id). split; [done|]. split; [|done]. by apply want_exact.
  - split.
    + intros ([] & c1 & [Hs ->] & H). apply st_bind_Ok in H as ([] & c2 & H1 & H2).
      apply wait_for_Ok in H1 as (n & p & Hr & Hp & Hc1); [|done].
      cbn [c_in c_in_err] in Hr. rewrite Hc1 in H2. destruct (want_exact id p) as (_ & Hw & _). apply Hw in Hp as ->.
      apply st_bind_Ok in H2 as ([] & c3 & H2 & H3). apply send_Ok in H2 as [Hs2 ->].
      cbn [with_input c_sends c_in c_in_err c_out] in Hs2, H3.
      apply wait_for_Ok in H3 as (m & p & Hr2 & Hp & Hc2); [|done]. apply want_exact in Hp as ->. rewrite Hc2.
      split; [by apply (Forall_take_succ _ 1 1)|]. eexists _, _. split; [constructor|].
      split; [apply reads_app; eexists; split; [exact Hr|exact Hr2]|]. unfold with_input. cbn [c_sends c_in c_in_err c_out].
      by rewrite app_assoc, drop_drop.
    + intros (Hs & ps & l' & Hc & Hr & ->). apply (Forall_take_succ _ 1 1) in Hs as [Hs1 Hs2].
      inversion Hc as [| |n m]; subst. apply reads_app in Hr as (l1 & Hr1 & Hr2). eexists tt, _. split; [by split|].
      apply st_bind_Ok. exists tt, (mkConn l1 e (out ++ encode_publish topic 2 retain (Some id) body) (drop 1 sends)). split.
      * apply wait_for_Ok; [done|]. exists n, (PubRec id). split; [done|]. split; [|done]. by apply want_exact.
      * apply st_bind_Ok. eexists tt, _. split; [apply send_Ok; split; [exact Hs2|reflexivity]|]. apply wait_for_Ok; [done|].
        exists m, (PubComp id). split; [done|]. split; [by apply want_exact|]. unfold with_input.
        cbn [c_sends c_in c_in_err c_out]. by rewrite app_assoc, drop_drop.
Qed.

(** A PUBLISH at QoS 2 that goes through on a connection whose third write would fail, and one at QoS 0 that cannot be written. *)
Lemma publish_exact_witness :
  do_publish "t" 2 false [104] 7 (mkConn [208; 0; 80; 2; 0; 7; 112; 2; 0; 7; 48] "eof" [] [None; None; Some (FlushFails "reset")])
  = (Ok tt, mkConn [48] "eof" ([] ++ publish_bytes "t" 2 false [104] 7) [Some (FlushFails "reset")])
  /\ forall c', do_publish "t" 0 false [104] 7 (mkConn [] "eof" [] [Some (WriteFails 3 "reset")]) <> (Ok tt, c').
Proof.
  split.
  - apply (publish_exact "t" 2 false [104] 7 [208; 0; 80; 2; 0; 7; 112; 2; 0; 7; 48] "eof" [] [None; None; Some (FlushFails "reset")]).
    + lia.
    + split; [repeat constructor|]. exists ((pings 1 ++ [PubRec 7]) ++ pings 0 ++ [PubComp 7]), [48]. split; [constructor|]. split; [|reflexivity].
      repeat (econstructor; [vm_compute; reflexivity|]). constructor.
  - intros c' H. apply (publish_exact "t" 0 false [104] 7 [] "eof" [] [Some (WriteFails 3 "reset")]) in H as [H _]; [|lia].
    inversion H. discriminate.
Defined.

(** ** What the pool holds *)

(** Connections only ever write more. *)
Definition grows (c c' : Conn) : Prop := c_out c `prefix_of` c_out c'.
#[export] Instance grows_refl : Reflexive grows.
Proof. intros c. unfold grows. done. Qed.
#[export] Instance grows_trans : Transitive grows.
Proof. intros a b c. unfold grows. apply transitivity. Qed.

Lemma send_grows (buf : list Z) : respects grows (send buf).
Proof. intros c. unfold send, grows. destruct (c_sends c) as [|[[|]|] ?]; simpl; by apply prefix_app_r. Qed.

Lemma io_read_packet_grows : respects grows io_read_packet.
Proof. intros c. unfold io_read_packet, grows. by destruct (read_packet _ _) as [[p l]|e]. Qed.

Lemma wait_for_grows {T} (expected : string) (want : Packet -> option (result string T)) :
  respects grows (wait_for expected want).
Proof.
  intros c. unfold wait_for. generalize (S (length (c_in c))) as fuel. intros fuel. revert c.
  induction fuel as [|fuel IH]; intros c; cbn [wait_for_fuel]; [by unfold grows|].
  pose proof (io_read_packet_grows c) as Hg. destruct (io_read_packet c) as [[p|e] c1]; [|done].
  destruct (want p); [done|]. destruct p; try done. simpl in Hg. specialize (IH c1).
  destruct (wait_for_fuel fuel expected want c1); simpl in *; [by transitivity c1|done].
Qed.

Ltac grows_tac :=
  repeat first
    [ apply send_grows | apply io_read_packet_grows | apply wait_for_grows
    | apply (respects_bind grows); [|intros ?]
    | apply (respects_ret grows) | apply (respects_err grows) | apply (respects_lift grows) | case_match ].

Lemma perform_grows (o : Op) (packet_id : Z) : respects grows (perform o packet_id).
Proof.
  destruct o; simpl; unfold do_publish, do_subscribe, ack_incoming; grows_tac.
Qed.
Lemma set_read_timeout_grows (t : option Duration) : respects grows (set_read_timeout t).
Proof. unfold set_read_timeout. grows_tac. Qed.

(** A connection that was opened for a target of this key. *)
Definition opened (key : string) (c : Conn) : Prop :=
  exists t client_id, pool_key t = key /\ encode_connect client_id (creds t) KEEP_ALIVE `prefix_of` c_out c.

(** Every idle connection introduced itself as a target of its key, and a socket just
    dialled has carried nothing. *)
Record pool_ok (w : MqttWorld) : Prop := mkPoolOk {
  ok_idle : forall key conns c, idle w !! key = Some conns -> c ∈ conns -> opened key c;
  ok_dials : forall c, Ok c ∈ dials w -> c_out c = [];
}.

Lemma opened_grows (key : string) (c c' : Conn) : opened key c -> grows c c' -> opened key c'.
Proof. intros (t & cid & Hk & Hp) Hg. exists t, cid. split; [done|]. by transitivity (c_out c). Qed.

Lemma pool_ok_idle (w : MqttWorld) (key : string) (conns : list Conn) :
  pool_ok w -> (forall c, c ∈ conns -> opened key c) -> pool_ok (mkMqttWorld (<[key := conns]> (idle w)) (next w) (dials w)).
Proof.
  intros [Hi Hd] Hc. split; simpl; [|done]. intros k cs c. destruct (decide (k = key)) as [->|Hne].
  - rewrite lookup_insert_eq. intros [= <-]. apply Hc.
  - rewrite lookup_insert_ne by done. apply Hi.
Qed.

Lemma checkout_ok (key : string) (w w' : MqttWorld) (c : Conn) :
  pool_ok w -> checkout key w = Some (c, w') -> pool_ok w' /\ opened key c.
Proof.
  intros Hw. unfold checkout. destruct (idle w !! key) as [conns|] eqn:E; [|done].
  destruct (last conns) as [c0|] eqn:El; [|done]. intros [= <- <-].
  apply last_Some in El as [conns' ->]. split.
  - apply pool_ok_idle; [done|]. rewrite removelast_last. intros c Hc. eapply ok_idle; [exact Hw|exact E|set_solver].
  - eapply ok_idle; [exact Hw|exact E|set_solver].
Qed.

Lemma attempt_ok (key : string) (timeout : option Duration) (o : Op) (id : Z) (c : Conn) (w : MqttWorld) :
  pool_ok w -> opened key c -> pool_ok (attempt key timeout o id c w).2.
Proof.
  intros Hw Hc. unfold attempt.
  assert (respects grows (let! _ := set_read_timeout timeout in perform o id)) as Hg.
  by (apply (respects_bind grows); [apply set_read_timeout_grows|intros _; apply perform_grows]).
  specialize (Hg c). destruct (st_bind _ _ c) as [[body|e] c']; [|done]. simpl in *.
  unfold checkin. apply pool_ok_idle; [done|]. intros c1 [Hc1|Hc1%list_elem_of_singleton]%elem_of_app.
  - destruct (idle w !! key) as [conns|] eqn:E; [|by apply elem_of_nil in Hc1]. by eapply ok_idle.
  - subst c1. by eapply opened_grows.
Qed.

Lemma handshake_opened (cid : string) (t : Target) (c c' : Conn) :
  c_out c = [] -> client_handshake cid (creds t) KEEP_ALIVE c = (Ok tt, c') -> opened (pool_key t) c'.
Proof.
  intros Hc. unfold client_handshake. rewrite st_bind_Ok. intros ([] & c1 & Hs & Hr).
  exists t, cid. split; [done|]. transitivity (c_out c1).
  - apply send_Ok in Hs as [_ ->]. simpl. by rewrite Hc.
  - assert (respects grows (let! p := io_read_packet in
      match p with ConnAck code => if Z.eqb code 0 then st_ret tt else st_err (connack_reason code)
      | other => st_err ("expected CONNACK on connect, got " +:+ debug_packet other) end)) as Hg
    by grows_tac.
    specialize (Hg c1). by rewrite Hr in Hg.
Qed.

Lemma connect_ok (pid : Z) (t : Target) (w w' : MqttWorld) (r : result string Conn) :
  pool_ok w -> connect pid t w = (r, w') -> pool_ok w' /\ forall c, r = Ok c -> opened (pool_key t) c.
Proof.
  intros [Hi Hd]. unfold connect, st_bind, st_map_err, dial, next_id.
  destruct (dials w) as [|d ds] eqn:Ed.
  - intros [= <- <-]. split; [split; [done|by rewrite Ed]|done].
  - assert (forall n, pool_ok (mkMqttWorld (idle w) n ds)) as Hw.
    { intros n. split; simpl; [done|]. intros c Hc. apply Hd. by right. }
    destruct d as [c|e]; cbn [result_map_err next idle dials].
    + destruct (client_handshake _ _ _ c) as [[[]|e] c'] eqn:Eh; intros [= <- <-]; (split; [apply Hw|]); [|done].
      intros c1 [= <-]. eapply handshake_opened; [|exact Eh]. apply Hd. by left.
    + intros [= <- <-]. split; [apply Hw|done].
Qed.

(** A pooled connection belongs to its key: whatever requests a process makes, every
    connection waiting in the pool has introduced itself to the broker with the credentials
    of a target of the key it is filed under. *)
Theorem pool_keyed `{JsonText} (pid : Z) (decode_request : string -> result string FfiRequest)
    (url_parse : string -> result string MqttUrl) (request_json : string) (elapsed : Duration) (w : MqttWorld) :
  pool_ok w -> pool_ok (handle pid decode_request url_parse request_json elapsed w).2.
Proof.
  intros Hw. unfold handle. destruct (decode_request request_json) as [request|]; [|done].
  destruct (parse_target _ _) as [t|]; [|done]. destruct (parse_op request) as [o|]; [|done].
  unfold st_bind at 1, next_id. set (w1 := mkMqttWorld _ _ _).
  assert (pool_ok w1) as Hw1 by (destruct Hw; by split). generalize (packet_id_from (next w)) as id. intros id.
  enough (pool_ok (run pid t (pool_key t) (op_timeout o request) o id w1).2) as Hr.
  { by destruct (run _ _ _ _ _ _ _) as [[body|e] w2]. }
  assert (forall w2, pool_ok w2 ->
    pool_ok ((let! conn := connect pid t in attempt (pool_key t) (op_timeout o request) o id conn) w2).2) as Hfresh.
  { intros w2 Hw2. unfold st_bind. destruct (connect pid t w2) as [[c|e] w3] eqn:Ec;
      destruct (connect_ok _ _ _ _ _ Hw2 Ec) as [Hw3 Hc]; [|done]. apply attempt_ok; [done|]. by apply Hc. }
  unfold run. destruct (checkout _ w1) as [[c w2]|] eqn:Ec; [|by apply Hfresh].
  destruct (checkout_ok _ _ _ _ Hw1 Ec) as [Hw2 Hc].
  pose proof (attempt_ok (pool_key t) (op_timeout o request) o id c w2 Hw2 Hc) as Ha.
  destruct (attempt _ _ _ _ _ _) as [[body|e] w3]; [done|by apply Hfresh].
Qed.

(** ** Runs *)

Module MqttDemo.
Definition t1 : Target := mkTarget "b:1883" (Some (mkCreds "u" (Some "right"))).
Definition t2 : Target := mkTarget "b:1883" (Some (mkCreds "u" (Some "wrong"))).
Definition publish (qos : Z) : Op := OpPublish "t" qos false [104].
Definition subscribe (topic : string) : Op := OpSubscribe topic 0 None.

(** A broker that accepts the connection and then answers [l]. *)
Definition socket (l : list Z) : Conn := mkConn ([32; 2; 0; 0] ++ l) "timed out" [] [].
Definition refuses : Conn := mkConn [32; 2; 0; 4] "timed out" [] [].
Definition world (ds : list (result string Conn)) : MqttWorld := mkMqttWorld ∅ 1 ds.
Definition written (key : string) (w : MqttWorld) : list (list Z) := c_out <$> default [] (idle w !! key).

(** A broker that refuses the password is not asked when a connection of the same user is
    idle: the pool's key leaves the password out. *)
Example wrong_password_shares :
  pool_key t1 = pool_key t2
  /\ (run 1 t2 (pool_key t2) None (publish 0) 2 (world [Ok refuses])).1
     = Err "broker refused CONNECT: bad username or password (code 4)"
  /\ (let '(r, w) := run 1 t1 (pool_key t1) None (publish 0) 1 (world [Ok (socket []); Ok refuses]) in
      r = Ok [] /\ (run 1 t2 (pool_key t2) None (publish 0) 2 w).1 = Ok []).
Proof. vm_compute. repeat split. Qed.

(** A message whose confirmation was lost on a pooled connection is published again, as a
    new message, at QoS 2 too. *)
Example qos2_published_twice :
  let idle_conn := mkConn [80; 2; 0; 7] "timed out" [] [] in
  let w := mkMqttWorld {[ pool_key t1 := [idle_conn] ]} 1
             [Ok (socket [80; 2; 0; 7; 112; 2; 0; 7])] in
  (perform (publish 2) 7 idle_conn).1 = Err "read failed: timed out"
  /\ c_out (perform (publish 2) 7 idle_conn).2 = publish_bytes "t" 2 false [104] 7
  /\ (run 1 t1 (pool_key t1) None (publish 2) 7 w).1 = Ok []
  /\ written (pool_key t1) (run 1 t1 (pool_key t1) None (publish 2) 7 w).2
     = [encode_connect "loadr-1-1" (creds t1) 0 ++ publish_bytes "t" 2 false [104] 7].
Proof. vm_compute. repeat split. Qed.

(** A subscription outlives the request that made it: the next one on the connection is
    given a message of the earlier topic. *)
Example stale_subscription :
  let suback id := [144; 3; 0; id; 0] in
  let message topic text := encode_publish topic 0 false None (as_bytes text) in
  let s := socket (suback 1 ++ message "a" "1" ++ suback 2 ++ message "a" "2" ++ message "b" "3") in
  let '(r1, w) := run 1 t1 (pool_key t1) None (subscribe "a") 1 (world [Ok s]) in
  r1 = Ok (as_bytes "1") /\ (run 1 t1 (pool_key t1) None (subscribe "b") 2 w).1 = Ok (as_bytes "2").
Proof. vm_compute. repeat split. Qed.

(** The prefix of a long topic is its length modulo 2^16. *)
Example long_topic : take 2 (encode_field (replicate 65537 97)) = [0; 1].
Proof. vm_compute. reflexivity. Qed.

Definition decode (s : string) : result string FfiRequest :=
  Ok (mkFfiRequest "" "" "mqtt://u:right@b" [] "" 0
        (Some (Object [("operation", Text "publish"); ("topic", Text "t")])) Null).
Definition parse (s : string) : result string MqttUrl := Ok (mkMqttUrl "mqtt" (Some "b") None "u" (Some "right")).
Definition json : JsonText := {| to_json _ := ""; from_json _ := Err "" |}.

Lemma world_ok : pool_ok (world [Ok (socket [])]).
Proof.
  split.
  - intros key conns c H. vm_compute in H. discriminate.
  - intros c Hc. apply list_elem_of_singleton in Hc. injection Hc as ->. reflexivity.
Qed.

Lemma pool_keyed_witness :
  length (written "u@b:1883" (@handle 1 json decode parse "" 0 (world [Ok (socket [])])).2) = 1%nat
  /\ pool_ok (@handle 1 json decode parse "" 0 (world [Ok (socket [])])).2.
Proof. split; [vm_compute; reflexivity|]. exact (@pool_keyed json 1 decode parse "" 0 _ world_ok). Defined.
End MqttDemo.
