(* ===== verification/Files.v ===== *)
(** * Paths and files (the parts of [std::path] and [std::fs] the plugin installer uses)

    A path is its text cut at every [/]; a file tree is a finite map from locations to
    directories, files and symbolic links, resolved as Linux does.  Every system call can
    also fail for a reason of the machine's own ([Fault]), and then has no effect. *)

From Stdlib Require Import Ascii.
From S2P Require Import Prelude Str StateErr.

(** ** Paths *)

Notation Path := (list string).

Definition path (s : string) : Path := str_split s "/".
Definition path_text (p : Path) : string := join "/" p.

Definition is_absolute (p : Path) : bool :=
  match p with
  | "" :: _ :: _ => true
  | _ => false
  end.

(** [a.join(b)]. *)
Definition path_join (a b : Path) : Path :=
  if is_absolute b then b
  else if bool_decide (a = [""]) then b
  else if bool_decide (last a = Some "") then removelast a ++ b
  else a ++ b.

Inductive Component :=
| RootDir
| CurDir
| ParentDir
| Normal (s : string).
#[export] Instance Component_eq_dec : EqDecision Component.
Proof. solve_decision. Defined.

Definition trivial_segment (s : string) : bool := bool_decide (s = "") || bool_decide (s = ".").

Definition segment_component (s : string) : option Component :=
  if trivial_segment s then None
  else if bool_decide (s = "..") then Some ParentDir
  else Some (Normal s).

Definition components (p : Path) : list Component :=
  (if is_absolute p then [RootDir] else if bool_decide (head p = Some ".") then [CurDir] else [])
  ++ omap segment_component p.

(** [path.file_name()]. *)
Definition file_name (p : Path) : option string :=
  match last (components p) with
  | Some (Normal s) => Some s
  | _ => None
  end.

Fixpoint strip_trivial (p : Path) : Path :=
  match p with
  | [] => []
  | s :: p =>
      match strip_trivial p with
      | [] => if trivial_segment s then [] else [s]
      | q => s :: q
      end
  end.

(** [path.parent()]: the text without its last component. *)
Definition parent (p : Path) : option Path :=
  match strip_trivial p with
  | [] => if bool_decide (head p = Some ".") then Some [""] else None
  | t =>
      match strip_trivial (removelast t) with
      | [] => Some (if is_absolute p then ["" ; ""] else if bool_decide (length t = 1%nat) then [""] else ["."])
      | rest => Some rest
      end
  end.

(** Two paths are equal when their components are ([Path]'s [PartialEq]). *)
Definition path_eqb (p q : Path) : bool := bool_decide (components p = components q).

(** ** The tree *)

Notation Loc := (list string).

Inductive Node :=
| Dir
| File (bytes : string)
| Link (target : string).
#[export] Instance Node_eq_dec : EqDecision Node.
Proof. solve_decision. Defined.

Inductive Fault := PermissionDenied | StorageFull | Interrupted | Hardware.

Inductive IoError :=
| NotFound
| NotADirectory
| IsADirectory
| AlreadyExists
| FilesystemLoop
| InvalidInput
| InvalidData
| Uncategorized
| Failed (f : Fault).

Record Disk := mkDisk {
  tree : gmap Loc Node;
  cwd : Loc;
  faults : list (option Fault);
}.

Definition node_at (t : gmap Loc Node) (l : Loc) : option Node :=
  match l with
  | [] => Some Dir
  | _ => t !! l
  end.
Definition is_dir_at (t : gmap Loc Node) (l : Loc) : bool :=
  match node_at t l with Some Dir => true | _ => false end.

(** path_resolution(7): where the segments lead from the directory [cur]; the last may be
    missing.  At most [hops] symbolic links are followed on the way. *)
Fixpoint walk (t : gmap Loc Node) (follow : bool) (hops : nat) : Loc -> list string -> result IoError Loc :=
  fix go (cur : Loc) (segs : list string) : result IoError Loc :=
    match segs with
    | [] => Ok cur
    | s :: rest =>
        if negb (is_dir_at t cur) then Err NotADirectory
        else if trivial_segment s then go cur rest
        else if bool_decide (s = "..") then go (removelast cur) rest
        else
          match node_at t (cur ++ [s]) with
          | Some (Link target) =>
              if negb follow && bool_decide (rest = []) then Ok (cur ++ [s])
              else
                match hops with
                | O => Err FilesystemLoop
                | S hops =>
                    walk t follow hops (if is_absolute (path target) then [] else cur) (path target ++ rest)
                end
          | Some _ => go (cur ++ [s]) rest
          | None => if bool_decide (rest = []) then Ok (cur ++ [s]) else Err NotFound
          end
    end.

(** Linux follows 40 links at most; an empty path names nothing. *)
Definition MAXSYMLINKS : nat := 40.
Definition resolve (follow : bool) (d : Disk) (p : Path) : result IoError Loc :=
  if bool_decide (p = [""]) then Err NotFound
  else walk (tree d) follow MAXSYMLINKS (if is_absolute p then [] else cwd d) p.

(** ** System calls *)

Notation sys := (stm Disk IoError).

Definition syscall {A} (f : sys A) : sys A := fun d =>
  match faults d with
  | Some e :: fs => (Err (Failed e), mkDisk (tree d) (cwd d) fs)
  | fs => f (mkDisk (tree d) (cwd d) (tail fs))
  end.

Definition with_tree (t : gmap Loc Node) (d : Disk) : Disk := mkDisk t (cwd d) (faults d).
Definition set_node (l : Loc) (n : Node) : sys unit := fun d => (Ok tt, with_tree (<[l := n]> (tree d)) d).

(** What a path leads to, links followed. *)
Definition metadata (p : Path) : sys Node :=
  syscall (fun d =>
    match resolve true d p with
    | Ok l => (ok_or (node_at (tree d) l) NotFound, d)
    | Err e => (Err e, d)
    end).
(** [path.is_file()], [is_dir()], [exists()]: an error counts as no. *)
Definition is_file (p : Path) : sys bool :=
  let! r := st_try (metadata p) in st_ret (match r with Ok (File _) => true | _ => false end).
Definition is_dir (p : Path) : sys bool :=
  let! r := st_try (metadata p) in st_ret (match r with Ok Dir => true | _ => false end).
Definition exists_ (p : Path) : sys bool :=
  let! r := st_try (metadata p) in st_ret (is_ok r).

(** [fs::read]; [fs::read_to_string] wants UTF-8. *)
Definition read (p : Path) : sys string :=
  let! n := metadata p in
  match n with
  | File bytes => st_ret bytes
  | _ => st_err IsADirectory
  end.

(** Opening for writing: the file is created, or emptied. *)
Definition open_truncate (p : Path) : sys Loc :=
  syscall (fun d =>
    match resolve true d p with
    | Ok l =>
        match node_at (tree d) l with
        | Some Dir => (Err IsADirectory, d)
        | _ => (Ok l, with_tree (<[l := File ""]> (tree d)) d)
        end
    | Err e => (Err e, d)
    end).
(** [fs::write]. *)
Definition write (p : Path) (bytes : string) : sys unit :=
  let! l := open_truncate p in syscall (set_node l (File bytes)).

(** [fs::copy]: the contents; the permissions it also copies are not part of the tree. *)
Definition copy (from to_ : Path) : sys unit :=
  let! n := metadata from in
  match n with
  | File bytes => let! l := open_truncate to_ in syscall (set_node l (File bytes))
  | _ => st_err InvalidInput
  end.

(** mkdir(2) takes a directory's name with slashes behind it. *)
Fixpoint strip_slashes (p : Path) : Path :=
  match p with
  | [] => []
  | s :: p =>
      match strip_slashes p with
      | [] => if bool_decide (s = "") then [] else [s]
      | q => s :: q
      end
  end.

(** mkdir(2): a last link is not followed.  All slashes: the root, which exists. *)
Definition mkdir (p : Path) : sys unit :=
  syscall (fun d =>
    match (match strip_slashes p with [] => resolve false d p | q => resolve false d q end) with
    | Ok l =>
        match node_at (tree d) l with
        | Some _ => (Err AlreadyExists, d)
        | None => (Ok tt, with_tree (<[l := Dir]> (tree d)) d)
        end
    | Err e => (Err e, d)
    end).

Definition if_dir (p : Path) (e : IoError) : sys unit :=
  let! b := is_dir p in if b : bool then st_ret tt else st_err e.
(** One attempt of [create_dir_all]; [missing] is what follows a missing parent. *)
Definition mkdir_or (p : Path) (missing : sys unit) : sys unit :=
  let! r := st_try (mkdir p) in
  match r with
  | Ok _ => st_ret tt
  | Err NotFound => missing
  | Err e => if_dir p e
  end.

(** [fs::create_dir_all]: every turn drops a component of the path. *)
Fixpoint create_dir_all_fuel (fuel : nat) (p : Path) : sys unit :=
  if bool_decide (p = [""]) then st_ret tt
  else
    mkdir_or p (match parent p, fuel with
                | Some q, S fuel =>
                    let! _ := create_dir_all_fuel fuel q in mkdir_or p (if_dir p NotFound)
                | _, _ => st_err Uncategorized
                end).
Definition create_dir_all (p : Path) : sys unit := create_dir_all_fuel (length p) p.

(** A plain file name. *)
Definition slashless (s : string) : Prop := "/"%char ∉ chars s.
#[export] Instance slashless_dec (s : string) : Decision (slashless s).
Proof. unfold slashless. apply _. Defined.
Definition normal (s : string) : Prop := trivial_segment s = false /\ s <> ".." /\ slashless s.
#[export] Instance normal_dec (s : string) : Decision (normal s).
Proof. unfold normal. apply _. Defined.

Lemma path_slashless (s : string) : Forall slashless (path s).
Proof.
  unfold path, str_split. assert (Forall (fun w => "/"%char ∉ w) (split_l "/" (chars s))) as H.
  { induction (chars s) as [|c l IH]; simpl; [constructor; [set_solver|constructor]|].
    destruct (Ascii.eqb_spec c "/") as [->|Hc]; [constructor; [set_solver|done]|].
    destruct (split_l "/" l) as [|w ws]; [constructor; [set_solver|constructor]|].
    apply Forall_cons in IH as [Hw Hws]. constructor; [set_solver|done]. }
  apply Forall_fmap. eapply Forall_impl; [exact H|]. intros w Hw. unfold slashless. simpl. by rewrite chars_of_chars.
Qed.
Lemma path_single (s : string) : slashless s -> path s = [s].
Proof. intros Hs. unfold path, str_split. rewrite split_l_no by done. simpl. by rewrite of_chars_chars. Qed.

(** The names in a directory, in an order of the file system's own; a name is never empty,
    [.] or [..]. *)
Definition children (t : gmap Loc Node) (l : Loc) : list string :=
  omap (fun k => match last k with
                 | Some s => if bool_decide (k = l ++ [s] /\ normal s) then Some s else None
                 | None => None
                 end) ((map_to_list t).*1).
Definition read_dir (p : Path) : sys (list string) :=
  syscall (fun d =>
    match resolve true d p with
    | Ok l => if is_dir_at (tree d) l then (Ok (children (tree d) l), d)
              else (Err (match node_at (tree d) l with Some _ => NotADirectory | None => NotFound end), d)
    | Err e => (Err e, d)
    end).

(** [fs::rename] of something that is not a directory. *)
Definition rename (from to_ : Path) : sys unit :=
  syscall (fun d =>
    match resolve false d from, resolve false d to_ with
    | Ok l, Ok l' =>
        match node_at (tree d) l, node_at (tree d) l' with
        | None, _ => (Err NotFound, d)
        | Some Dir, _ => (Err Uncategorized, d)
        | _, Some Dir => (Err IsADirectory, d)
        | Some n, _ => (Ok tt, with_tree (<[l' := n]> (delete l (tree d))) d)
        end
    | Err e, _ => (Err e, d)
    | _, Err e => (Err e, d)
    end).

Definition remove_file (p : Path) : sys unit :=
  syscall (fun d =>
    match resolve false d p with
    | Ok l =>
        match node_at (tree d) l with
        | Some Dir => (Err IsADirectory, d)
        | Some _ => (Ok tt, with_tree (delete l (tree d)) d)
        | None => (Err NotFound, d)
        end
    | Err e => (Err e, d)
    end).

(** [fs::remove_dir_all]: a link is removed itself; nothing is followed below. *)
Definition remove_dir_all (p : Path) : sys unit :=
  syscall (fun d =>
    match resolve false d p with
    | Ok l =>
        match node_at (tree d) l with
        | Some Dir => (Ok tt, with_tree (filter (fun kn => ~ l `prefix_of` kn.1) (tree d)) d)
        | Some (Link _) => (Ok tt, with_tree (delete l (tree d)) d)
        | Some (File _) => (Err NotADirectory, d)
        | None => (Err NotFound, d)
        end
    | Err e => (Err e, d)
    end).

(** ** Staying below a directory *)

(** The absolute path of a location. *)
Definition at_ (l : Loc) : Path := "" :: l.

(** [D] is a directory with no link on the way and none below. *)
Record settled (D : Loc) (d : Disk) : Prop := mkSettled {
  settled_proper : D <> [];
  settled_names : Forall normal D;
  settled_dirs : forall L, L `prefix_of` D -> node_at (tree d) L = Some Dir;
  settled_links : forall L s, D `prefix_of` L -> tree d !! L <> Some (Link s);
}.

(** A call that, from a settled directory, leaves it settled and touches nothing else. *)
Definition confined (D : Loc) (d d' : Disk) : Prop :=
  settled D d -> settled D d' /\ forall L, ~ D `prefix_of` L -> tree d' !! L = tree d !! L.

#[export] Instance confined_refl (D : Loc) : Reflexive (confined D).
Proof. intros d Hd. done. Qed.
#[export] Instance confined_trans (D : Loc) : Transitive (confined D).
Proof.
  intros d1 d2 d3 H12 H23 Hd. destruct (H12 Hd) as [Hd2 H2], (H23 Hd2) as [Hd3 H3].
  split; [done|]. intros L HL. by rewrite H3, H2.
Qed.

Lemma confined_same (D : Loc) (d d' : Disk) : tree d' = tree d -> confined D d d'.
Proof. intros Ht [H1 H2 H3 H4]. split; [split|]; rewrite ?Ht; done. Qed.

Lemma node_at_insert (t : gmap Loc Node) (l k : Loc) (n : Node) :
  l <> [] -> node_at (<[l := n]> t) k = if decide (k = l) then Some n else node_at t k.
Proof.
  intros Hl. destruct k as [|s k]; simpl; [by rewrite decide_False|].
  destruct (decide (s :: k = l)) as [<-|]; [by rewrite lookup_insert_eq|by rewrite lookup_insert_ne].
Qed.

Lemma normal_slashless (L : Loc) : Forall normal L -> Forall slashless L.
Proof. intros H. eapply Forall_impl; [exact H|]. by intros s (_ & _ & ?). Qed.

(** The segments of a joined path are segments of the two. *)
Lemma path_join_slashless (a b : Path) : Forall slashless a -> Forall slashless b -> Forall slashless (path_join a b).
Proof.
  intros Ha Hb. unfold path_join. repeat case_match; try done; apply Forall_app; split; try done.
  destruct a as [|x l _] using rev_ind; [done|]. rewrite removelast_last. by apply Forall_app in Ha as [? _].
Qed.

Lemma component_normal (p : Path) (s : string) : Forall slashless p -> Normal s ∈ components p -> normal s.
Proof.
  intros Hp. unfold components. rewrite elem_of_app. intros [Hin|Hin]; [exfalso; revert Hin; repeat case_match; set_solver|].
  apply list_elem_of_omap in Hin as (x & Hx & Hs). unfold segment_component in Hs.
  destruct (trivial_segment x) eqn:Et; [done|]. case_bool_decide; [done|]. injection Hs as <-.
  split; [done|]. split; [done|]. by eapply Forall_forall in Hp.
Qed.

Lemma file_name_normal (p : Path) (s : string) : Forall slashless p -> file_name p = Some s -> normal s.
Proof.
  intros Hp. unfold file_name. destruct (last (components p)) as [[| | |s']|] eqn:E; try done. intros [= <-].
  apply (component_normal p); [done|]. apply last_Some in E as [l ->]. set_solver.
Qed.

(** Putting a file or a directory strictly below. *)
Lemma confined_insert (D rel : Loc) (n : Node) (d : Disk) :
  rel <> [] -> (forall s, n <> Link s) -> confined D d (with_tree (<[D ++ rel := n]> (tree d)) d).
Proof.
  intros Hrel Hn [H1 H2 H3 H4]. assert (~ (D ++ rel) `prefix_of` D) as Hp.
  { intros Hp%prefix_length. rewrite length_app in Hp. destruct rel; [done|simpl in Hp; lia]. }
  split; [split; [done|done| |]|].
  - intros L HL. simpl. rewrite node_at_insert by (by destruct D). rewrite decide_False; [by apply H3|].
    intros ->. by apply Hp.
  - intros L s HL. simpl. rewrite lookup_insert_Some. intros [[_ Hs]|[_ Hs]]; [by eapply Hn|by eapply H4].
  - intros L HL. simpl. apply lookup_insert_ne. intros <-. apply HL. by eexists.
Qed.

Lemma walk_eq (t : gmap Loc Node) (follow : bool) (hops : nat) (cur : Loc) (s : string) (rest : list string) :
  normal s -> is_dir_at t cur = true -> (forall g, node_at t (cur ++ [s]) <> Some (Link g)) ->
  walk t follow hops cur (s :: rest)
  = match node_at t (cur ++ [s]) with
    | Some _ => walk t follow hops (cur ++ [s]) rest
    | None => if bool_decide (rest = []) then Ok (cur ++ [s]) else Err NotFound
    end.
Proof.
  intros (Hs1 & Hs2 & _) Hd Hl. destruct hops; cbn [walk]; rewrite Hd, Hs1; cbn [negb];
    rewrite bool_decide_false by done; destruct (node_at t (cur ++ [s])) as [[|b|g]|] eqn:E; try done; by destruct (Hl g).
Qed.

Lemma walk_trivial (t : gmap Loc Node) (follow : bool) (hops : nat) (cur : Loc) (rest : list string) :
  is_dir_at t cur = true -> walk t follow hops cur ("" :: rest) = walk t follow hops cur rest.
Proof. intros Hd. destruct hops; cbn [walk]; by rewrite Hd. Qed.

(** Through directories. *)
Lemma walk_dirs (t : gmap Loc Node) (follow : bool) (hops : nat) (cur D : Loc) (rest : list string) :
  Forall normal D -> (forall L, L `prefix_of` D -> node_at t (cur ++ L) = Some Dir) ->
  walk t follow hops cur (D ++ rest) = walk t follow hops (cur ++ D) rest.
Proof.
  intros HD. revert cur. induction HD as [|s D Hs _ IH]; intros cur Hdirs; [by rewrite app_nil_r|].
  simpl. assert (node_at t (cur ++ [s]) = Some Dir) as Hc by (apply (Hdirs [s]); by eexists).
  rewrite walk_eq; [|done| |by rewrite Hc].
  - rewrite Hc, IH; [by rewrite <- app_assoc|]. intros L [k ->]. rewrite <- app_assoc. apply Hdirs.
    exists k. done.
  - unfold is_dir_at. specialize (Hdirs [] ltac:(by eexists)). rewrite app_nil_r in Hdirs. by rewrite Hdirs.
Qed.

(** Below a directory without links. *)
Lemma walk_below (t : gmap Loc Node) (follow : bool) (hops : nat) (cur rel : Loc) (l : Loc) :
  Forall normal rel -> (forall L s, cur `prefix_of` L -> node_at t L <> Some (Link s)) ->
  walk t follow hops cur rel = Ok l -> l = cur ++ rel.
Proof.
  intros Hrel. revert cur. induction Hrel as [|s rel Hs _ IH]; intros cur Hlinks.
  - destruct hops; cbn [walk]; intros [= <-]; by rewrite app_nil_r.
  - destruct (is_dir_at t cur) eqn:Ed; [|destruct hops; cbn [walk]; by rewrite Ed].
    rewrite walk_eq; [|done|done|intros g; apply Hlinks; by eexists].
    destruct (node_at t (cur ++ [s])) as [n|] eqn:En.
    + intros Hw. apply IH in Hw as ->; [by rewrite <- app_assoc|]. intros L g [k ->]. apply Hlinks. exists (s :: k).
      by rewrite <- app_assoc.
    + case_bool_decide as Hr; [|done]. subst. by intros [= <-].
Qed.

Section Settled.
Context (D : Loc) (d : Disk) (Hd : settled D d).

Lemma settled_node_links (L : Loc) (s : string) : D `prefix_of` L -> node_at (tree d) L <> Some (Link s).
Proof. intros HL. destruct L as [|x L]; [done|]. by apply (settled_links D d Hd). Qed.

Lemma resolve_walk (follow : bool) (rel : Loc) :
  resolve follow d (at_ (D ++ rel)) = walk (tree d) follow MAXSYMLINKS D rel.
Proof.
  unfold resolve, at_. rewrite bool_decide_false by (intros [= HD]; apply (settled_proper D d Hd); by destruct D).
  replace (is_absolute ("" :: D ++ rel)) with true
    by (pose proof (settled_proper D d Hd); destruct D as [|x E]; [done|by destruct x as [|? ?]]).
  rewrite walk_trivial by done. rewrite walk_dirs; [done|apply (settled_names D d Hd)|].
  intros L HL. apply (settled_dirs D d Hd L HL).
Qed.

Lemma resolve_below (follow : bool) (rel l : Loc) :
  Forall normal rel -> resolve follow d (at_ (D ++ rel)) = Ok l -> l = D ++ rel.
Proof. intros Hrel. rewrite resolve_walk. apply walk_below; [done|]. apply settled_node_links. Qed.

Lemma resolve_self (follow : bool) : resolve follow d (at_ D) = Ok D.
Proof. pose proof (resolve_walk follow []) as H. rewrite app_nil_r in H. by rewrite H. Qed.

Lemma node_self : node_at (tree d) D = Some Dir.
Proof. by apply (settled_dirs D d Hd). Qed.
End Settled.

Section Confined.
Context (D : Loc).
Notation R := (confined D).

Lemma respects_syscall {A} (f : sys A) : respects R f -> respects R (syscall f).
Proof.
  intros Hf d. unfold syscall. destruct (faults d) as [|[e|] fs].
  - specialize (Hf (mkDisk (tree d) (cwd d) (tail []))). etransitivity; [|exact Hf]. by apply confined_same.
  - by apply confined_same.
  - specialize (Hf (mkDisk (tree d) (cwd d) (tail (None :: fs)))). etransitivity; [|exact Hf]. by apply confined_same.
Qed.

(** A call that looks and changes nothing. *)
Lemma respects_pure {A} (f : sys A) : (forall d, tree (f d).2 = tree d) -> respects R f.
Proof. intros Hf d. apply confined_same, Hf. Qed.

Lemma metadata_confined (p : Path) : respects R (metadata p).
Proof. apply respects_syscall, respects_pure. intros d. by destruct (resolve true d p). Qed.
Lemma is_file_confined (p : Path) : respects R (is_file p).
Proof. apply (respects_bind R); [apply respects_try, metadata_confined|intros r; apply (respects_ret R)]. Qed.
Lemma is_dir_confined (p : Path) : respects R (is_dir p).
Proof. apply (respects_bind R); [apply respects_try, metadata_confined|intros r; apply (respects_ret R)]. Qed.
Lemma exists_confined (p : Path) : respects R (exists_ p).
Proof. apply (respects_bind R); [apply respects_try, metadata_confined|intros r; apply (respects_ret R)]. Qed.
Lemma read_confined (p : Path) : respects R (read p).
Proof.
  apply (respects_bind R); [apply metadata_confined|]. intros [|b|s]; first [apply (respects_ret R)|apply (respects_err R)].
Qed.
Lemma read_dir_confined (p : Path) : respects R (read_dir p).
Proof. apply respects_syscall, respects_pure. intros d. destruct (resolve true d p); [|done]. by case_match. Qed.

(** Writes strictly below. *)
Lemma open_truncate_confined (rel : Loc) :
  Forall normal rel -> rel <> [] ->
  respects R (open_truncate (at_ (D ++ rel))) /\
  forall d l d', settled D d -> open_truncate (at_ (D ++ rel)) d = (Ok l, d') -> l = D ++ rel.
Proof.
  intros Hn Hr. split.
  - apply respects_syscall. intros d Hd. destruct (resolve true d (at_ (D ++ rel))) as [l|e] eqn:E; [|by apply confined_refl].
    apply resolve_below in E as ->; [|done|done].
    destruct (node_at _ _) as [[|b|s]|]; first [by apply confined_refl|by apply confined_insert].
  - intros d l d' Hd. unfold open_truncate, syscall.
    assert (forall fs, settled D (mkDisk (tree d) (cwd d) fs)) as Hs by (intros fs; destruct Hd; by split).
    destruct (faults d) as [|[e|] fs]; [| |]; try discriminate;
      (destruct (resolve true _ (at_ (D ++ rel))) as [l'|e] eqn:E; [|done]);
      (apply resolve_below in E as ->; [|apply Hs|done]);
      destruct (node_at _ _) as [[|b|s]|]; intros [= <- _]; done.
Qed.

Lemma set_node_confined (rel : Loc) (b : string) : rel <> [] -> respects R (syscall (set_node (D ++ rel) (File b))).
Proof. intros Hr. apply respects_syscall. intros d. by apply confined_insert. Qed.

Lemma truncate_then_write (rel : Loc) (b : string) :
  Forall normal rel -> rel <> [] ->
  respects R (let! l := open_truncate (at_ (D ++ rel)) in syscall (set_node l (File b))).
Proof.
  intros Hn Hr d Hd. destruct (open_truncate_confined rel Hn Hr) as [H1 H2]. unfold st_bind.
  specialize (H1 d). specialize (H2 d). destruct (open_truncate (at_ (D ++ rel)) d) as [[l|e] d1]; [|by apply H1].
  rewrite (H2 l d1 Hd eq_refl). eapply (confined_trans D); [exact H1| |done]. by apply set_node_confined.
Qed.

Lemma write_confined (rel : Loc) (b : string) :
  Forall normal rel -> rel <> [] -> respects R (write (at_ (D ++ rel)) b).
Proof. apply truncate_then_write. Qed.

Lemma copy_confined (from : Path) (rel : Loc) :
  Forall normal rel -> rel <> [] -> respects R (copy from (at_ (D ++ rel))).
Proof.
  intros Hn Hr. apply (respects_bind R); [apply metadata_confined|].
  intros [|b|s]; [apply (respects_err R)|by apply truncate_then_write|apply (respects_err R)].
Qed.

Lemma strip_slashes_at (L : Loc) : Forall normal L -> L <> [] -> strip_slashes (at_ L) = at_ L.
Proof.
  intros HL Hne. assert (forall s K, K <> [] -> Forall normal K -> strip_slashes (s :: K) = s :: K) as H; [|by apply H].
  intros s K. revert s. induction K as [|x K IH]; intros s HK HnK; [done|].
  apply Forall_cons in HnK as [Hx HnK]. destruct K as [|y K].
  - simpl. destruct Hx as [Hx _]. unfold trivial_segment in Hx. apply orb_false_iff in Hx as [Hx _].
    by rewrite Hx.
  - change (strip_slashes (s :: x :: y :: K)) with
      (match strip_slashes (x :: y :: K) with [] => if bool_decide (s = "") then [] else [s] | q => s :: q end).
    rewrite IH by done. done.
Qed.

Lemma mkdir_confined (rel : Loc) : Forall normal rel -> respects R (mkdir (at_ (D ++ rel))).
Proof.
  intros Hn. apply respects_syscall. intros d Hd.
  rewrite strip_slashes_at; [|apply Forall_app; split; [apply (settled_names D d Hd)|done]
    |intros [E _]%app_nil; by apply (settled_proper D d Hd)].
  cbn [at_]. fold (at_ (D ++ rel)). destruct (resolve false d (at_ (D ++ rel))) as [l|e] eqn:E; [|by apply confined_refl].
  apply resolve_below in E as ->; [|done|done].
  destruct (node_at (tree d) (D ++ rel)) eqn:En; [by apply confined_refl|].
  apply confined_insert; [|done|done]. intros ->. rewrite app_nil_r, node_self in En by done. done.
Qed.
End Confined.

Lemma strip_trivial_normal (s : string) (K : list string) :
  K <> [] -> Forall normal K -> strip_trivial (s :: K) = s :: K.
Proof.
  revert s. induction K as [|x K IH]; intros s HK HnK; [done|].
  apply Forall_cons in HnK as [Hx HnK]. destruct K as [|y K].
  - simpl. by destruct Hx as [-> _].
  - change (strip_trivial (s :: x :: y :: K)) with
      (match strip_trivial (x :: y :: K) with [] => if trivial_segment s then [] else [s] | q => s :: q end).
    rewrite IH by done. done.
Qed.

Lemma parent_at (L : Loc) (x : string) :
  Forall normal (L ++ [x]) -> L <> [] -> parent (at_ (L ++ [x])) = Some (at_ L).
Proof.
  intros HL Hne. unfold parent, at_. rewrite strip_trivial_normal; [|by destruct L|done].
  change ("" :: L ++ [x]) with (("" :: L) ++ [x]) at 1. rewrite removelast_last.
  apply Forall_app in HL as [HL _]. by rewrite strip_trivial_normal.
Qed.

Lemma join_at (L rel : Loc) : Forall normal L -> L <> [] -> Forall normal rel -> path_join (at_ L) rel = at_ (L ++ rel).
Proof.
  intros HL Hne Hrel. unfold path_join, at_.
  replace (is_absolute rel) with false by (destruct Hrel as [|x rel [Hx _] _]; [done|destruct x; [done|by destruct rel]]).
  rewrite bool_decide_false by (by destruct L). rewrite bool_decide_false; [done|].
  destruct L as [|s L'] using rev_ind; [done|]. change ("" :: L' ++ [s]) with (("" :: L') ++ [s]). rewrite last_snoc.
  intros [= ->]. apply Forall_app in HL as [_ [[Hs _] _]%Forall_cons]. done.
Qed.

Section CreateDirAll.
Context (D : Loc).
Notation R := (confined D).

Lemma mkdir_self (d : Disk) : settled D d -> exists e, (mkdir (at_ D) d).1 = Err e /\ e <> NotFound.
Proof.
  intros Hd. unfold mkdir, syscall.
  assert (forall fs, settled D (mkDisk (tree d) (cwd d) fs)) as Hs by (intros fs; destruct Hd; by split).
  rewrite strip_slashes_at by apply Hd. cbn [at_]. fold (at_ D).
  destruct (faults d) as [|[e|] fs]; [|by eexists|];
    rewrite (resolve_self D _ (Hs _)), (node_self D _ (Hs _)); by eexists.
Qed.

Lemma if_dir_confined (p : Path) (e : IoError) : respects R (if_dir p e).
Proof.
  apply (respects_bind R); [apply is_dir_confined|]. intros []; [apply (respects_ret R)|apply (respects_err R)].
Qed.

Lemma mkdir_or_confined (rel : Loc) (missing : sys unit) :
  Forall normal rel -> (rel <> [] -> respects R missing) -> respects R (mkdir_or (at_ (D ++ rel)) missing).
Proof.
  intros Hn Hmiss d Hd. unfold mkdir_or, st_bind, st_try. pose proof (mkdir_confined D rel Hn d) as Hm.
  destruct (mkdir (at_ (D ++ rel)) d) as [[u|e] d1] eqn:Em; [by apply Hm|].
  refine (confined_trans D d d1 _ Hm _ Hd). destruct e; try apply if_dir_confined. apply Hmiss.
  intros ->. rewrite app_nil_r in Em. destruct (mkdir_self d Hd) as (e & He & Hne). rewrite Em in He. by injection He as <-.
Qed.

Lemma create_dir_all_confined (fuel : nat) (rel : Loc) :
  Forall normal rel -> respects R (create_dir_all_fuel fuel (at_ (D ++ rel))).
Proof.
  revert rel. induction fuel as [|fuel IH]; intros rel Hn d Hd; cbn [create_dir_all_fuel];
    (rewrite bool_decide_false by (intros [= [E _]%app_nil]; by apply (settled_proper D d Hd)));
    apply mkdir_or_confined; try done; intros Hrel.
  - destruct (parent _); apply (respects_err R).
  - destruct rel as [|x rel _] using rev_ind; [done|]. rewrite app_assoc, parent_at.
    + apply (respects_bind R); [apply IH; by apply Forall_app in Hn as [Hn _]|]. intros _. rewrite <- app_assoc.
      apply mkdir_or_confined; [done|]. intros _. apply if_dir_confined.
    + rewrite <- app_assoc. apply Forall_app. split; [apply (settled_names D d Hd)|done].
    + intros [E _]%app_nil. by apply (settled_proper D d Hd).
Qed.
End CreateDirAll.

(** A directory lists plain names. *)
Lemma read_dir_normal (p : Path) (d d' : Disk) (names : list string) :
  read_dir p d = (Ok names, d') -> Forall normal names.
Proof.
  assert (forall t l, Forall normal (children t l)) as Hc.
  { intros t l. unfold children. induction (map_to_list t).*1 as [|k ks IH]; [constructor|]. simpl.
    destruct (last k) as [s|]; [|done]. case_bool_decide as Hs; [|done]. constructor; [apply Hs|done]. }
  unfold read_dir, syscall. destruct (faults d) as [|[e|] fs]; [|done|];
    (destruct (resolve true _ p); [|done]); case_match; intros H'; try discriminate; injection H' as <- _; apply Hc.
Qed.

(** Moving a file below. *)
Lemma rename_confined (D rel rel' : Loc) :
  Forall normal rel -> rel <> [] -> Forall normal rel' -> rel' <> [] ->
  respects (confined D) (rename (at_ (D ++ rel)) (at_ (D ++ rel'))).
Proof.
  intros Hn Hr Hn' Hr'. apply respects_syscall. intros d Hd.
  destruct (resolve false d (at_ (D ++ rel))) as [l|e] eqn:E; [|by apply confined_refl].
  destruct (resolve false d (at_ (D ++ rel'))) as [l'|e] eqn:E'; [|by apply confined_refl].
  apply resolve_below in E as ->; [|done|done]. apply resolve_below in E' as ->; [|done|done].
  destruct (node_at (tree d) (D ++ rel)) as [n|] eqn:En; [|by apply confined_refl].
  assert (forall s, n <> Link s) as Hl.
  { intros s ->. eapply (settled_node_links D d Hd); [|exact En]. by eexists. }
  assert (n <> Dir -> confined D d (with_tree (<[D ++ rel' := n]> (delete (D ++ rel) (tree d))) d)) as Hmove.
  { intros HnD. set (d1 := with_tree (delete (D ++ rel) (tree d)) d).
    transitivity d1; [|apply (confined_insert D rel' n d1); done].
    intros _. destruct Hd as [H1 H2 H3 H4]. subst d1. split; [split; [done|done| |]|].
    - intros L HL. simpl. specialize (H3 L HL). destruct L as [|x L]; [done|]. simpl in *.
      rewrite lookup_delete_ne; [done|]. intros Heq. rewrite <- Heq in H3.
      destruct (D ++ rel) as [|y K] eqn:Ek; [by destruct D|]. simpl in En. rewrite En in H3. by injection H3.
    - intros L s HL. simpl. intros [_ Hs]%lookup_delete_Some. by eapply H4.
    - intros L HL. simpl. apply lookup_delete_ne. intros <-. apply HL. by eexists. }
  destruct n as [|b|s]; [by apply confined_refl| |by destruct (Hl s)].
  destruct (node_at (tree d) (D ++ rel')) as [[|b'|s]|]; first [by apply confined_refl|by apply Hmove].
Qed.

(** A name with a slash behind it can only be a directory's. *)
Lemma walk_below_slash (t : gmap Loc Node) (follow : bool) (hops : nat) (cur rel : Loc) (l : Loc) :
  Forall normal rel -> (forall L s, cur `prefix_of` L -> node_at t L <> Some (Link s)) ->
  walk t follow hops cur (rel ++ [""]) = Ok l -> is_dir_at t l = true.
Proof.
  intros Hrel. revert cur. induction Hrel as [|s rel Hs _ IH]; intros cur Hlinks; simpl.
  - destruct (is_dir_at t cur) eqn:Ed; [|destruct hops; cbn [walk]; by rewrite Ed].
    rewrite walk_trivial by done. destruct hops; cbn [walk]; by intros [= <-].
  - destruct (is_dir_at t cur) eqn:Ed; [|destruct hops; cbn [walk]; by rewrite Ed].
    rewrite walk_eq; [|done|done|intros g; apply Hlinks; by eexists].
    destruct (node_at t (cur ++ [s])) as [n|] eqn:En; [|by rewrite bool_decide_false by (by intros [_ ?]%app_nil)].
    apply IH. intros L g [k ->]. apply Hlinks. exists (s :: k). by rewrite <- app_assoc.
Qed.

Lemma rename_onto_dir (D rel : Loc) (from : Path) :
  Forall normal rel -> respects (confined D) (rename from (at_ (D ++ rel ++ [""]))).
Proof.
  intros Hn. apply respects_syscall. intros d Hd.
  destruct (resolve false d from) as [l|e]; [|by apply confined_refl].
  destruct (resolve false d (at_ (D ++ rel ++ [""]))) as [l'|e] eqn:E; [|by apply confined_refl].
  rewrite resolve_walk in E by done. apply walk_below_slash in E; [|done|by apply settled_node_links].
  unfold is_dir_at in E. destruct (node_at (tree d) l) as [[|b|s]|]; try (by apply confined_refl);
    destruct (node_at (tree d) l') as [[|b'|s']|]; first [done|by apply confined_refl].
Qed.
