(* ===== verification/Loader.v ===== *)
(** * Loading a test definition (crates/loadr-config/src/lib.rs; the visitors of plan.rs and duration.rs)

    From the text of a plan to a validated plan: the syntax pass, the override of an environment, deserialization with the
    path of what failed, and the validator.  YAML and the derived deserialization are serde's: parameters; the visitors the
    crate writes itself are here. *)

From Stdlib Require Import Ascii SpecFloat.
From S2P Require Import Prelude Float64 Str Dur Value Extract Conditions Diagnostics Merge Validate Files.

(** ** The visitor of steps (plan.rs) *)

Definition STEP_KINDS : list string :=
  ["request"; "think_time"; "js"; "group"; "repeat"; "while"; "if"; "random"; "foreach"; "switch"; "during"; "retry"; "parallel";
   "rendezvous"].

Definition tick : string := "`".

Section Steps.
(** [next_value] of a kind: the derived deserialization of its fields, and the variant. *)
Context {Node Step : Type} (next_value : string -> Node -> result string Step) (jaro_winkler : string -> string -> f64).

(** The best of [STEP_KINDS], when it is close enough. *)
Definition closest_kind (other : string) : option string :=
  match foldl (closer jaro_winkler other) None STEP_KINDS with
  | Some (score, cand) => if f64_le (f64_dec 78 2) score then Some cand else None
  | None => None
  end.

Definition unknown_step (other : string) : string :=
  "unknown step type `" +:+ other +:+ "`, expected one of " +:+ join ", " STEP_KINDS
  +:+ match closest_kind other with Some cand => " (did you mean `" +:+ cand +:+ "`?)" | None => "" end.

Definition visit_map (entries : list (string * Node)) : result string Step :=
  match entries with
  | [] => Err ("empty step; expected one of " +:+ join ", " STEP_KINDS)
  | (key, node) :: rest =>
      let? step := (if bool_decide (key ∈ STEP_KINDS) then next_value key node else Err (unknown_step key)) in
      match rest with
      | [] => Ok step
      | (extra, _) :: _ =>
          Err ("step has extra key `" +:+ extra +:+ "`; each step is a single-key mapping (check indentation)")
      end
  end.

(** [Serialize]: one entry, the kind of the step. *)
Definition serialize_step (kind_of : Step -> string) (node_of : Step -> Node) (s : Step) : list (string * Node) :=
  [(kind_of s, node_of s)].

Lemma visit_map_ok entries s :
  visit_map entries = Ok s <-> exists kind node, entries = [(kind, node)] /\ kind ∈ STEP_KINDS /\ next_value kind node = Ok s.
Proof.
  unfold visit_map. destruct entries as [|[key node] rest]; [split; [done|by intros (? & ? & [=] & _)]|].
  case_bool_decide as Hk.
  - destruct (next_value key node) as [s'|e] eqn:Hn; simpl.
    + destruct rest as [|[extra ?] rest]; split.
      * intros [= ->]. by exists key, node.
      * intros (k & n & [= <- <-] & _ & Hv). congruence.
      * done.
      * by intros (? & ? & [=] & _).
    + split; [done|]. intros (k & n & [= <- <- ->] & _ & Hv). congruence.
  - simpl. split; [done|]. by intros (k & n & [= <- <- ->] & Hin & _).
Qed.

(** A step is read back as it was written, if its fields are. *)
Lemma step_roundtrip kind_of node_of s :
  kind_of s ∈ STEP_KINDS -> next_value (kind_of s) (node_of s) = Ok s ->
  visit_map (serialize_step kind_of node_of s) = Ok s.
Proof. intros Hk Hn. apply visit_map_ok. by exists (kind_of s), (node_of s). Qed.
End Steps.

(** ** Durations (duration.rs) *)

Section DurVisitor.
Context (humantime_parse_duration : string -> result string Duration).
Definition from_secs (secs : Z) : Duration := secs * NANOS_PER_SEC.

(** [DurVisitor] on what a document has: nothing for what is neither a text nor a number. *)
Definition visit_duration (v : Value) : option (may_panic (result string Duration)) :=
  match v with
  | Text s => Some (Dur_parse humantime_parse_duration s)
  | Num (PosInt u) => Some (Some (Ok (from_secs u)))
  | Num (NegInt i) => Some (Some (if Z.ltb i 0 then Err "duration cannot be negative" else Ok (from_secs i)))
  | Num (Float x) =>
      Some (if f64_lt x f64_zero || negb (f64_is_finite x) then Some (Err "duration must be a non-negative number")
            else Ok <$> from_secs_f64 x)
  | _ => None
  end.

(** A duration that is read is never negative, and a whole number of seconds is that many. *)
Lemma visit_duration_nonnegative v d :
  (forall s d', humantime_parse_duration s = Ok d' -> 0 <= d') ->
  (forall u, v = Num (PosInt u) -> 0 <= u) ->
  visit_duration v = Some (Some (Ok d)) -> 0 <= d.
Proof.
  intros Hh Hu. assert (forall x d', from_secs_f64 x = Some d' -> 0 <= d') as Hf.
  { intros x d' Hx. unfold from_secs_f64 in Hx. destruct x as [s|s| |s m e]; [by injection Hx as <-|done|done|]. destruct s; [done|].
    destruct (Z.leb_spec 0 e) as [He|He].
    - destruct (Z.ltb _ _); [|done]. injection Hx as <-. unfold NANOS_PER_SEC. pose proof (Z.pow_pos_nonneg 2 e ltac:(lia) He). nia.
    - destruct (Z.ltb _ _); [|done]. injection Hx as <-. unfold div_half_even.
      assert (0 < 2 ^ (- e)) as Hp by (apply Z.pow_pos_nonneg; lia).
      assert (0 <= Z.pos m * NANOS_PER_SEC / 2 ^ (- e)) by (apply Z.div_pos; [unfold NANOS_PER_SEC; lia|done]).
      repeat case_match; lia. }
  unfold visit_duration. destruct v as [| |[u|i|x]|s| |]; try done.
  - intros [= <-]. specialize (Hu u eq_refl). unfold from_secs, NANOS_PER_SEC. lia.
  - destruct (Z.ltb_spec i 0); [done|]. intros [= <-]. unfold from_secs, NANOS_PER_SEC. lia.
  - destruct (f64_lt _ _ || _); [done|]. destruct (from_secs_f64 x) eqn:Hx; [|done]. intros [= <-]. by eapply Hf.
  - unfold Dur_parse. destruct (parse_f64 _) as [x|] eqn:Hp.
    + destruct (f64_lt _ _ || _); [done|]. destruct (from_secs_f64 x) eqn:Hx; [|done]. intros [= <-]. by eapply Hf.
    + destruct (humantime_parse_duration _) eqn:Hd; simpl; [|done]. intros [= <-]. by eapply Hh.
Qed.
End DurVisitor.

(** ** Messages of serde *)

Section Messages.
Context (jaro_winkler : string -> string -> f64).

(** The text before the first [sep]. *)
Definition before (sep s : string) : string := match str_find s sep with Some i => slice_to s i | None => s end.
Definition after (sep s : string) : option string := (fun i => slice_from s (i + str_len sep)) <$> str_find s sep.

Definition prettify_serde_message (msg : string) : string := trim (before " at line " msg).

(** The names serde lists. *)
Definition expected_names (text : string) : list string :=
  List.filter (fun s => negb (str_is_empty s))
    ((fun s => of_chars (trim_matches "`" (chars (trim s)))) <$> str_split text ",").

Definition unknown_field_suggestion (msg : string) : option string :=
  rest ← match strip_prefix msg "unknown field `" with Some r => Some r | None => after "unknown field `" msg end;
  '(field, rest) ← split_once rest "`";
  names ← after "expected one of " rest;
  did_you_mean jaro_winkler field (expected_names names).

(** A suggestion is one of the names. *)
Lemma closer_among input best cands s c :
  foldl (closer jaro_winkler input) best cands = Some (s, c) -> best = Some (s, c) \/ c ∈ cands.
Proof.
  revert best. induction cands as [|x cands IH]; intros best; [by left|]. simpl. intros Hf. destruct (IH _ Hf) as [Hb|]; [|right; by right].
  unfold closer in Hb. destruct (f64_lt _ _); [injection Hb as _ ->; right; by left|by left].
Qed.
Lemma suggestion_among msg s :
  unknown_field_suggestion msg = Some s ->
  exists names c, c ∈ expected_names names /\ s = "did you mean `" +:+ c +:+ "`?".
Proof.
  unfold unknown_field_suggestion, did_you_mean. intros (rest & _ & Hs)%bind_Some.
  apply bind_Some in Hs as ([field rest'] & _ & Hs). apply bind_Some in Hs as (names & _ & Hs).
  destruct (foldl _ _ _) as [[score c]|] eqn:Hf; [|done]. destruct (f64_le _ _); [|done]. injection Hs as <-.
  apply closer_among in Hf as [|Hin]; [done|]. by exists names, c.
Qed.
End Messages.

(** ** Loading *)

Record LoadOptions := mkLoadOptions {
  lo_env : option string;
  lo_check_files : bool;
  lo_deny_errors : bool;
}.
Definition LoadOptions_new : LoadOptions := mkLoadOptions None false true.

Inductive ConfigError :=
| ConfigIo (path source : string)
| ConfigSyntax (message : string)
| ConfigDeserialize (d : Diagnostic)
| ConfigUnknownEnv (requested : string) (available : list string)
| ConfigInvalid (ds : list Diagnostic).

Definition ConfigError_to_string (e : ConfigError) : string :=
  match e with
  | ConfigIo path source => "cannot read " +:+ path +:+ ": " +:+ source
  | ConfigSyntax m => "YAML syntax error: " +:+ m
  | ConfigDeserialize d => Diagnostic_to_string d
  | ConfigUnknownEnv requested available => "unknown environment `" +:+ requested +:+ "`; available: " +:+ join ", " available
  | ConfigInvalid ds =>
      "test definition has " +:+ nat_to_string (length (List.filter (fun d => bool_decide (dg_severity d = Error)) ds))
      +:+ " validation error(s)"
  end.

Record Loaded := mkLoaded {
  ld_plan : TestPlan;
  ld_diagnostics : list Diagnostic;
  ld_base_dir : string;
}.

Section Loader.
Context `{ValidateTools, JsonText, ConditionText}.
Context (humantime_parse_duration : string -> result string Duration).
Context {Key Scalar : Type} `{!EqDecision Key} (key_string : string -> Key) (key_as_str : Key -> option string).
(** serde_yaml; [TestPlan::deserialize], with the path it tracked when it fails; [read_to_string]. *)
Context (yaml_from_str : string -> result string (Yaml (Key:=Key) (Scalar:=Scalar))).
Context (deserialize : Yaml (Key:=Key) (Scalar:=Scalar) -> may_panic (result (string * string) TestPlan)).
Context (read_to_string : string -> result string string).

Definition apply_environment (opts : LoadOptions) (doc : Yaml (Key:=Key) (Scalar:=Scalar)) : result ConfigError (Yaml (Key:=Key) (Scalar:=Scalar)) :=
  match lo_env opts with
  | None => Ok doc
  | Some env_name => result_map_err (ConfigUnknownEnv env_name) (apply_env key_string key_as_str doc env_name)
  end.

Definition deserialize_error (source : string) (e : string * string) : ConfigError :=
  let '(path, message) := e in
  let path := if bool_decide (path = ".") then "" else path in
  let d := Diagnostic_error path (prettify_serde_message message) in
  let d := match unknown_field_suggestion jaro_winkler message with Some s => with_suggestion s d | None => d end in
  ConfigDeserialize (locate (SpanIndex_build source) d).

Definition typed_plan (source : string) (opts : LoadOptions) : may_panic (result ConfigError TestPlan) :=
  match yaml_from_str source with
  | Err e => Some (Err (ConfigSyntax e))
  | Ok doc =>
      match apply_environment opts doc with
      | Err e => Some (Err e)
      | Ok doc => (fun r => result_map_err (deserialize_error source) r) <$> deserialize doc
      end
  end.

Definition load_str_with_base (source base_dir : string) (opts : LoadOptions) : may_panic (result ConfigError Loaded) :=
  r ← typed_plan source opts;
  match r with
  | Err e => Some (Err e)
  | Ok plan =>
      let vopts := mkValidateOptions (if lo_check_files opts then Some base_dir else None) in
      (fun r => match r with
                | Err ds => Err (ConfigInvalid ds)
                | Ok ds => Ok (mkLoaded plan ds base_dir)
                end) <$> accept humantime_parse_duration plan vopts (Some source) (lo_deny_errors opts)
  end.

Definition load_str (source : string) (opts : LoadOptions) : may_panic (result ConfigError Loaded) := load_str_with_base source "." opts.

Definition base_dir_of (path : string) : string :=
  match Files.parent (Files.path path) with
  | Some p => if str_is_empty (path_text p) then "." else path_text p
  | None => "."
  end.
Definition load_file (path : string) (opts : LoadOptions) : may_panic (result ConfigError Loaded) :=
  match read_to_string path with
  | Err e => Some (Err (ConfigIo path e))
  | Ok source => load_str_with_base source (base_dir_of path) opts
  end.

(** What is loaded is what the document says with its environment over it, and everything the validator reports of it, which
    is no error when errors are denied. *)
Theorem load_exact source base_dir opts l :
  load_str_with_base source base_dir opts = Some (Ok l)
  <-> exists doc doc' plan ds,
        yaml_from_str source = Ok doc
        /\ match lo_env opts with None => doc' = doc | Some env => apply_env key_string key_as_str doc env = Ok doc' end
        /\ deserialize doc' = Some (Ok plan)
        /\ validate humantime_parse_duration plan (mkValidateOptions (if lo_check_files opts then Some base_dir else None)) (Some source)
           = Some ds
        /\ (lo_deny_errors opts = true -> has_errors ds = false)
        /\ l = mkLoaded plan ds base_dir.
Proof.
  unfold load_str_with_base, typed_plan, apply_environment, accept. split.
  - destruct (yaml_from_str source) as [doc|e]; [|done].
    destruct (lo_env opts) as [env|].
    + destruct (apply_env _ _ doc env) as [doc'|e] eqn:He; [simpl|done]. destruct (deserialize doc') as [[plan|e]|] eqn:Hd; [|done..]. simpl.
      destruct (validate _ _ _ _) as [ds|] eqn:Hv; [simpl|done]. intros Hl. exists doc, doc', plan, ds. repeat (split; [done|]).
      destruct (has_errors ds), (lo_deny_errors opts); simpl in Hl; by simplify_eq.
    + simpl. destruct (deserialize doc) as [[plan|e]|] eqn:Hd; [|done..]. simpl.
      destruct (validate _ _ _ _) as [ds|] eqn:Hv; [simpl|done]. intros Hl. exists doc, doc, plan, ds. repeat (split; [done|]).
      destruct (has_errors ds), (lo_deny_errors opts); simpl in Hl; by simplify_eq.
  - intros (doc & doc' & plan & ds & -> & He & Hd & Hv & Hn & ->).
    assert (match lo_env opts with None => Ok doc | Some env => result_map_err (ConfigUnknownEnv env) (apply_env key_string key_as_str doc env) end
            = Ok doc') as -> by (revert He; destruct (lo_env opts); [by intros ->|by intros ->]).
    rewrite Hd. simpl. rewrite Hv. simpl. destruct (has_errors ds), (lo_deny_errors opts); simpl; try done. by specialize (Hn eq_refl).
Qed.
End Loader.

Example suggestion_read :
  unknown_field_suggestion (fun a b => if bool_decide (b = "scenarios") then f64_dec 95 2 else f64_zero)
    "unknown field `scenariosss`, expected one of `name`, `scenarios`, `env`" = Some "did you mean `scenarios`?".
Proof. vm_compute. done. Qed.
Example base_dirs : base_dir_of "plan.yaml" = "." /\ base_dir_of "tests/plan.yaml" = "tests".
Proof. vm_compute. done. Qed.
Example extra_key :
  visit_map (fun k _ => Ok k) (fun _ _ => f64_zero) [("js", tt); ("name", tt)]
  = Err "step has extra key `name`; each step is a single-key mapping (check indentation)".
Proof. vm_compute. done. Qed.
