(* ===== verification/Convert.v ===== *)
(** * What the converters share (crates/loadr-convert/src/lib.rs)

    A plan with warnings, the defaults the converters fill plans up with, and what makes a URL built from literal text and
    references a template without errors. *)

From Stdlib Require Import Ascii.
From S2P Require Import Prelude Float64 Str Dur Metrics Threshold Thresholds Executor Value Template Protocol Extract Conditions Feeds Pacing Program Interp Prepare Diagnostics Validate ValidateSound.

Record ConversionWarning := mkWarning { cw_element : string; cw_message : string }.
Definition ConversionWarning_to_string (w : ConversionWarning) : string := cw_element w +:+ ": " +:+ cw_message w.

Record Conversion := mkConversion { cv_plan : TestPlan; cv_warnings : list ConversionWarning }.

(** ** Defaults (plan.rs) *)

Definition HttpDefaults_default : HttpDefaults := mkHttpDefaults None [] (Duration_from_secs 30) true 10 true.
Definition TlsConfig_default : TlsConfig := mkTlsConfig None None None.
Definition TestPlan_default : TestPlan :=
  mkTestPlan None None (mkPlanDefaults HttpDefaults_default [] None) None TlsConfig_default [] [] [] [] None [] [] [] [] [].
Definition RequestStep_default : RequestStep :=
  mkRequestStep None None None "" [] [] None None None [] [] [] [] None None None None None None None.
Definition ScenarioPlan_of (flow : list Step) : ScenarioPlan := mkScenarioPlan flow [] None None None None None None None.

(** ** Templates without errors *)

(** A piece of a text: a character that cannot start an expression, or a reference. *)
Inductive Piece := Char (c : ascii) | Ref (e : string).
Definition piece_text (p : Piece) : list ascii :=
  match p with Char c => [c] | Ref e => "$"%char :: "{"%char :: chars e ++ ["}"%char] end.
Definition piece_ok (p : Piece) : Prop :=
  match p with
  | Char c => c <> "$"%char /\ (N_of_ascii c < 128)%N
  | Ref e => balanced (chars e) 1 /\ trim_l (chars e) = chars e /\ chars e <> []
  end.
Definition refs (ps : list Piece) : list string := omap (fun p => match p with Ref e => Some e | Char _ => None end) ps.

Lemma utf8_len_ascii (c : ascii) : (N_of_ascii c < 128)%N -> utf8_len c = 1%nat.
Proof. intros Hc. unfold utf8_len. by rewrite (proj2 (N.ltb_lt _ _) Hc). Qed.

Definition exprs (ps : list Part) : list string := omap (fun p => match p with Expr e => Some e | Lit _ => None end) ps.
Lemma exprs_app (a b : list Part) : exprs (a ++ b) = exprs a ++ exprs b.
Proof. apply omap_app. Qed.
Lemma exprs_flush (lit : list ascii) (ps : list Part) : exprs (flush lit ps) = exprs ps.
Proof. destruct lit; [done|]. unfold flush. rewrite exprs_app. apply app_nil_r. Qed.

(** The text of parts, and of pieces, once their references have values. *)
Definition parts_value (value : string -> string) (ps : list Part) : list ascii :=
  concat ((fun p => match p with Lit l => chars l | Expr e => chars (value e) end) <$> ps).
Definition piece_value (value : string -> string) (p : Piece) : list ascii :=
  match p with Char c => [c] | Ref e => chars (value e) end.

Lemma parts_value_app value a b : parts_value value (a ++ b) = parts_value value a ++ parts_value value b.
Proof. unfold parts_value. by rewrite fmap_app, concat_app. Qed.
Lemma parts_value_flush value lit ps : parts_value value (flush lit ps) = parts_value value ps ++ lit.
Proof.
  destruct lit as [|c lit]; [by rewrite app_nil_r|]. unfold flush. rewrite parts_value_app. unfold parts_value at 2.
  rewrite fmap_cons, concat_cons. simpl. by rewrite app_nil_r, chars_of_chars.
Qed.

Lemma parse_pieces (l : list Piece) (i : nat) (lit : list ascii) (ps : list Part) :
  Forall piece_ok l ->
  exists ps', parse_loop (length (concat (piece_text <$> l))) (concat (piece_text <$> l)) i lit ps = Ok ps'
    /\ exprs ps' = exprs ps ++ refs l
    /\ forall value, parts_value value ps' = parts_value value ps ++ lit ++ concat (piece_value value <$> l).
Proof.
  intros Hl. revert i lit ps. induction Hl as [|p l Hp _ IH]; intros i lit ps.
  - exists (flush lit ps). split; [done|]. split; [by rewrite exprs_flush, app_nil_r|].
    intros value. rewrite parts_value_flush. simpl. by rewrite app_nil_r.
  - rewrite fmap_cons, concat_cons. destruct p as [c|e]; simpl piece_text.
    + destruct Hp as [Hc Ha]. destruct (IH (i + utf8_len c)%nat (lit ++ [c]) ps) as (ps' & Hr & He & Hv).
      exists ps'. split; [|split; [done|]].
      * rewrite <- Hr. apply (parse_bytes_plain c []); [by left|by rewrite utf8_len_ascii].
      * intros value. rewrite Hv, <- app_assoc. done.
    + destruct Hp as (Hb & Ht & He). destruct (IH (i + 3 + length (chars e))%nat [] (flush lit ps ++ [Expr (of_chars (chars e))]))
        as (ps' & Hr & Hx & Hv).
      exists ps'. split; [|split].
      * rewrite <- Hr, <- (parse_bytes_expr (chars e)) by done. simpl app. by rewrite <- !app_assoc.
      * rewrite Hx, exprs_app, exprs_flush, <- app_assoc. by rewrite of_chars_chars.
      * intros value. rewrite Hv, parts_value_app, parts_value_flush, of_chars_chars. rewrite fmap_cons, concat_cons.
        unfold parts_value at 2. simpl. by rewrite app_nil_r, <- !app_assoc.
Qed.

(** Such a text is a template, and its expressions are the references. *)
Lemma pieces_template (s : string) (l : list Piece) :
  chars s = concat (piece_text <$> l) -> Forall piece_ok l -> exists t, Template_parse s = Ok t /\ expressions t = refs l.
Proof.
  intros Hs Hl. destruct (parse_pieces l 0 [] [] Hl) as (ps & Hp & He & _). unfold Template_parse. rewrite Hs, Hp.
  eexists. split; [done|]. exact He.
Qed.

Lemma render_parts_value (value : string -> string) ps :
  render_parts (fun e (u : unit) => (Some (value e), u)) ps tt = (Ok (of_chars (parts_value value ps)), tt).
Proof.
  induction ps as [|[l|e] ps IH]; [done| |]; simpl; rewrite IH; f_equal; f_equal; apply chars_inj;
    rewrite chars_app, !chars_of_chars; done.
Qed.

(** Rendered with values for its references, it has the values in their place. *)
Lemma pieces_render (s : string) (l : list Piece) (value : string -> string) :
  chars s = concat (piece_text <$> l) -> Forall piece_ok l ->
  exists t, Template_parse s = Ok t
    /\ render (fun e (u : unit) => (Some (value e), u)) t tt = (Ok (of_chars (concat (piece_value value <$> l))), tt).
Proof.
  intros Hs Hl. destruct (parse_pieces l 0 [] [] Hl) as (ps & Hp & _ & Hv). unfold Template_parse. rewrite Hs, Hp.
  eexists. split; [done|]. unfold render. simpl. rewrite render_parts_value, Hv. done.
Qed.

(** ** Plans without errors *)

Lemma has_errors_none (ds : list Diagnostic) : no_errors ds -> has_errors ds = false.
Proof. induction 1 as [|d ds Hd _ IH]; [done|]. simpl. by rewrite bool_decide_eq_false_2. Qed.
Lemma locate_no_errors (index : SpanIndex) (ds : list Diagnostic) : no_errors ds -> has_errors (locate index <$> ds) = false.
Proof.
  intros Hn. apply has_errors_none. apply Forall_fmap. eapply Forall_impl; [exact Hn|]. intros d Hd. simpl. by rewrite locate_severity.
Qed.
Lemma no_errors_nil : no_errors [].
Proof. constructor. Qed.
Lemma no_errors_warning (p m : string) (o : option string) : no_errors [suggest (Diagnostic_warning p m) o].
Proof. constructor; [by destruct o|constructor]. Qed.
Lemma no_errors_when_true (b : bool) (ds : list Diagnostic) : no_errors ds -> no_errors (when b ds).
Proof. destruct b; [done|intros; constructor]. Qed.

Lemma declaring_no_errors {A : Type} (g : nat -> A -> gset string -> list Diagnostic * gset string) (i : nat) (l : list A) d :
  (forall j x d, x ∈ l -> no_errors (g j x d).1 /\ (g j x d).2 = d) -> no_errors (declaring g i l d).1 /\ (declaring g i l d).2 = d.
Proof.
  revert i d. induction l as [|y l IH]; intros i d Hg; cbn; [by split; [constructor|]|].
  destruct (Hg i y d) as [Hy Hd]; [by left|]. destruct (g i y d) as [ds d1] eqn:Hgy. simpl in Hd. subst d1.
  destruct (IH (S i) d) as [Hr Hrd]; [intros j x d' Hx; apply Hg; by right|].
  destruct (declaring g (S i) l d) as [rest d2]. simpl in *. split; [by apply no_errors_app|done].
Qed.
