(* ===== verification/AccessLog.v ===== *)
(** * The access-log importer (crates/loadr-convert/src/accesslog.rs)

    From the lines of a web server's log to a plan that replays the observed traffic: an arrival rate and a weighted mix of
    endpoints.  The regular expressions are third-party: what the one of a line captures ([line_captures]), and which path
    segments the other three take for identifiers ([segment_is_id]). *)

From Stdlib Require Import Ascii SpecFloat.
From S2P Require Import Prelude Float64 Str Dur Metrics Threshold Thresholds Executor Value Template Protocol Extract Conditions Feeds Pacing Program Interp Prepare Diagnostics Validate ValidateSound Observe Convert.

Definition DEFAULT_TOP_ENDPOINTS : nat := 20.
Definition MONTHS : list string := ["Jan"; "Feb"; "Mar"; "Apr"; "May"; "Jun"; "Jul"; "Aug"; "Sep"; "Oct"; "Nov"; "Dec"].

Record ParsedLine := mkParsedLine { pl_method : string; pl_path : string; pl_epoch : Z; pl_extra_fields : bool }.

(** The groups of a line that are read: the time, the request, what follows the fields of the format. *)
Record Captures := mkCaptures { ca_time : string; ca_request : string; ca_extra : string }.

(** ** Times *)

(** In [i64]: the arithmetic wraps, and wrapping once at the end of sums and products is the same. *)
Definition days_from_civil (y m d : Z) : Z :=
  let y := if Z.leb m 2 then i64_wrap (y - 1) else y in
  let era := y / 400 in
  let yoe := y - era * 400 in
  let mp := (m + 9) mod 12 in
  let doy := (153 * mp + 2) / 5 + d - 1 in
  let doe := yoe * 365 + yoe / 4 - yoe / 100 + doy in
  i64_wrap (era * 146097 + doe - 719468).

Definition tz_offset_seconds (tz : string) : option Z :=
  '(sign, digits) ← match chars tz with
                    | "+"%char :: ds => Some (1, ds)
                    | "-"%char :: ds => Some (-1, ds)
                    | _ => None
                    end;
  if Nat.eqb (length digits) 4 && forallb is_digit digits then
    Some (sign * (digits_val (take 2 digits) * 3600 + digits_val (drop 2 digits) * 60))
  else None.

Definition parse_u32 (s : string) : option Z := n ← parse_u64 (chars s); if Z.ltb n (2 ^ 32) then Some n else None.
Definition month_of (name : string) : option Z :=
  (fun p => Z.of_nat p.1 + 1) <$> list_find (fun m => to_ascii_lowercase m = to_ascii_lowercase name) MONTHS.

Definition parse_clf_timestamp (s : string) : option Z :=
  let '(dt, tz) := match split_once s " " with Some p => p | None => (s, "+0000") end in
  '(day, r) ← split_once dt "/";
  day ← parse_u32 day;
  '(mon, rest) ← split_once r "/";
  month ← month_of mon;
  '(year, r) ← split_once rest ":";
  year ← parse_i64 year;
  '(hour, r) ← split_once r ":";
  hour ← parse_i64 hour;
  '(minute, sec) ← split_once r ":";
  minute ← parse_i64 minute;
  sec ← parse_i64 sec;
  if Z.eqb day 0 || Z.ltb 31 day || Z.ltb 23 hour || Z.ltb 59 minute || Z.ltb 60 sec then None
  else
    let local := i64_wrap (days_from_civil year month day * 86400 + hour * 3600 + minute * 60 + sec) in
    offset ← tz_offset_seconds tz;
    Some (i64_wrap (local - offset)).

(** ** Lines *)

Definition is_ascii_alphabetic (c : ascii) : bool :=
  let n := N_of_ascii (ascii_lower c) in N.leb 97 n && N.leb n 122.

(** The path of a target: what follows the authority of an absolute one. *)
Definition target_path (target : string) : option string :=
  match str_find target "://" with
  | Some i =>
      let after := slice_from target (i + 3) in
      Some (match str_find after "/" with Some j => slice_from after j | None => "/" end)
  | None => if starts_with target "/" || bool_decide (target = "*") then Some target else None
  end.

(** Up to the query. *)
Fixpoint before_query (s : list ascii) : list ascii :=
  match s with
  | [] => []
  | c :: s => if Ascii.eqb c "?" || Ascii.eqb c "#" then [] else c :: before_query s
  end.

Section AccessLog.
Context (line_captures : string -> option Captures) (segment_is_id : string -> bool).

Definition parse_line (line : string) : option ParsedLine :=
  caps ← line_captures line;
  epoch ← parse_clf_timestamp (ca_time caps);
  match split_whitespace (chars (ca_request caps)) with
  | meth :: target :: _ =>
      if negb (forallb is_ascii_alphabetic meth) then None
      else
        path ← target_path (of_chars target);
        Some (mkParsedLine (to_ascii_uppercase (of_chars meth)) path epoch (negb (str_is_empty (trim (ca_extra caps)))))
  | _ => None
  end.

Definition ID : string := "${vars.id}".
Definition is_id (seg : string) : bool := negb (str_is_empty seg) && segment_is_id seg.
Definition normalize_segment (seg : string) : string := if is_id seg then ID else seg.
Definition normalize_path (path : string) : string * nat :=
  let segments := str_split (of_chars (before_query (chars path))) "/" in
  (join "/" (normalize_segment <$> segments), length (List.filter is_id segments)).

(** ** Reading a log *)

Definition Endpoint : Type := string * string.
Record Log := mkLog {
  lg_malformed : nat;
  lg_extra_lines : nat;
  lg_normalised_segments : nat;
  lg_queries_dropped : nat;
  lg_buckets : gmap Z Z;
  lg_endpoints : list (Endpoint * Z);
  lg_total : Z;
}.
Definition Log_new : Log := mkLog 0 0 0 0 ∅ [] 0.

(** [entry(k).or_insert(0) += 1] of an [IndexMap]. *)
Fixpoint count_endpoint (k : Endpoint) (m : list (Endpoint * Z)) : list (Endpoint * Z) :=
  match m with
  | [] => [(k, 1)]
  | (k', n) :: m => if decide (k = k') then (k', u64_add n 1) :: m else (k', n) :: count_endpoint k m
  end.

Definition log_line (l : Log) (raw : list ascii) : Log :=
  let line := trim (of_chars raw) in
  if str_is_empty line then l
  else match parse_line line with
       | None => mkLog (S (lg_malformed l)) (lg_extra_lines l) (lg_normalised_segments l) (lg_queries_dropped l) (lg_buckets l)
                   (lg_endpoints l) (lg_total l)
       | Some p =>
           let '(path, changed) := normalize_path (pl_path p) in
           mkLog (lg_malformed l) (if pl_extra_fields p then S (lg_extra_lines l) else lg_extra_lines l)
             (lg_normalised_segments l + changed) (if str_contains (pl_path p) "?" then S (lg_queries_dropped l) else lg_queries_dropped l)
             (<[pl_epoch p := u64_add (default 0 (lg_buckets l !! pl_epoch p)) 1]> (lg_buckets l))
             (count_endpoint (pl_method p, path) (lg_endpoints l)) (u64_add (lg_total l) 1)
       end.
Definition read_log (source : string) : Log := foldl log_line Log_new (str_lines source).

(** ** The plan *)

(** A stable sort by count, the greatest first. *)
Fixpoint insert_ranked (e : Endpoint * Z) (l : list (Endpoint * Z)) : list (Endpoint * Z) :=
  match l with
  | [] => [e]
  | x :: l' => if Z.ltb x.2 e.2 then e :: l else x :: insert_ranked e l'
  end.
Definition ranked (l : list (Endpoint * Z)) : list (Endpoint * Z) := foldl (fun acc e => insert_ranked e acc) [] l.

(** The traffic of a log; [unwrap] panics on one without a line. *)
Record Traffic := mkTraffic { tr_duration_secs : Z; tr_peak : Z; tr_avg : f64; tr_rate : f64 }.
Definition traffic (l : Log) : may_panic Traffic :=
  let epochs := (map_to_list (lg_buckets l)).*1 in
  match epochs with
  | [] => None
  | e :: es =>
      let first := foldl Z.min e es in
      let last_ := foldl Z.max e es in
      let duration_secs := i64_wrap (last_ - first + 1) mod u64_modulus in
      let avg := f64_div (f64_of_Z (lg_total l)) (f64_of_Z duration_secs) in
      Some (mkTraffic duration_secs (foldl Z.max 0 (map_to_list (lg_buckets l)).*2) avg
              (f64_div (f64_round (f64_mul (f64_max avg (f64_dec 1 2)) (f64_of_Z 100))) (f64_of_Z 100)))
  end.

Definition endpoint_step (e : Endpoint) : Step :=
  let name := e.1 +:+ " " +:+ e.2 in
  let r := RequestStep_default in
  StRequest (mkRequestStep (Some name) (rq_protocol r) (Some e.1) e.2 (rq_headers r) (rq_params r) (rq_body r) (rq_timeout r)
               (rq_follow_redirects r) (rq_tags r) (rq_extract r) (rq_assert r) (rq_checks r) (rq_ws r) (rq_grpc r) (rq_graphql r)
               (rq_socket r) (rq_sse r) (rq_sql r) (rq_plugin r)).
Definition choice (e : Endpoint * Z) : option f64 * option string * list Step :=
  (Some (f64_of_Z e.2), Some (e.1.1 +:+ " " +:+ e.1.2), [endpoint_step e.1]).

Definition replay_scenario (t : Traffic) (kept : list (Endpoint * Z)) : PlanScenario :=
  mkPlanScenario
    (mkScenario KConstantArrivalRate None (Some (Duration_from_secs (tr_duration_secs t))) None None [] (Some (tr_rate t)) None None
       (Some (Z.max (tr_peak t) 1)) (Some (Z.max ((tr_peak t * 2) mod u64_modulus) 2)) None None None None)
    (ScenarioPlan_of [StRandom Weighted (choice <$> kept)]).

Context (f64_display : f64 -> string) (f64_fixed : nat -> f64 -> string).

Definition replay_plan (l : Log) (t : Traffic) (kept : list (Endpoint * Z)) : TestPlan :=
  mkTestPlan (Some "access log replay")
    (Some ("Imported from an access log by `loadr convert`: " +:+ Z_to_string (lg_total l) +:+ " requests over "
           +:+ Z_to_string (tr_duration_secs t) +:+ "s (avg " +:+ f64_fixed 2 (tr_avg t) +:+ " req/s, peak "
           +:+ Z_to_string (tr_peak t) +:+ " req/s)."))
    (tp_defaults TestPlan_default) None TlsConfig_default
    (if Nat.ltb 0 (lg_normalised_segments l) then [("id", Text "1")] else []) [] [] [] None
    [("replayed_traffic", replay_scenario t kept)] [] [] [] [].

Definition has_body (e : Endpoint * Z) : bool := bool_decide (e.1.1 ∈ ["POST"; "PUT"; "PATCH"]).
Definition count_text (n : nat) : string := Z_to_string (Z.of_nat n).
Definition warn_if (n : nat) (element message : string) : list ConversionWarning :=
  match n with O => [] | _ => [mkWarning element message] end.

Definition replay_warnings (l : Log) (t : Traffic) (endpoints kept : list (Endpoint * Z)) : list ConversionWarning :=
  warn_if (lg_malformed l) "parser" ("skipped " +:+ count_text (lg_malformed l) +:+ " malformed line(s)")
  ++ warn_if (lg_extra_lines l) "parser"
       (count_text (lg_extra_lines l) +:+ " line(s) had extra fields after the standard COMBINED fields (custom log_format?); the extras were ignored")
  ++ [mkWarning "scenario `replayed_traffic`"
        ("constant-arrival-rate set to the observed average (" +:+ f64_display (tr_rate t) +:+ " req/s); the observed peak was "
         +:+ Z_to_string (tr_peak t) +:+ " req/s — consider ramping-arrival-rate up to the peak for worst-case load");
      mkWarning "defaults.http.base_url" "access logs do not record scheme or host — set `defaults.http.base_url` before running"]
  ++ warn_if (lg_queries_dropped l) "paths"
       ("dropped query strings on " +:+ count_text (lg_queries_dropped l)
        +:+ " request(s) when grouping — re-add important parameters via `params:`")
  ++ warn_if (lg_normalised_segments l) "paths"
       ("normalised " +:+ count_text (lg_normalised_segments l)
        +:+ " id-like path segment(s) (numbers, UUIDs, hashes) to `${vars.id}` — replace the placeholder variable with a `data:` feeder of real ids")
  ++ (if Nat.ltb (length kept) (length endpoints) then
        [mkWarning "endpoints"
           ("kept the top " +:+ count_text (length kept) +:+ " of " +:+ count_text (length endpoints) +:+ " endpoints ("
            +:+ f64_fixed 1 (f64_div (f64_mul (f64_of_Z 100) (f64_of_Z (foldl u64_add 0 kept.*2))) (f64_of_Z (lg_total l)))
            +:+ "% of requests); the long tail was dropped")]
      else [])
  ++ warn_if (length (List.filter has_body kept)) "bodies"
       (count_text (length (List.filter has_body kept))
        +:+ " endpoint(s) use POST/PUT/PATCH; access logs do not record request bodies — add realistic `body:` payloads").

Definition convert_with_top_n (source : string) (top_n : nat) : may_panic (result string Conversion) :=
  let l := read_log source in
  if Z.eqb (lg_total l) 0 then
    Some (Err ("no parseable request lines found (" +:+ count_text (lg_malformed l) +:+ " malformed line(s))"))
  else
    t ← traffic l;
    let kept := take (Nat.max top_n 1) (ranked (lg_endpoints l)) in
    Some (Ok (mkConversion (replay_plan l t kept) (replay_warnings l t (lg_endpoints l) kept))).
Definition convert_accesslog (source : string) : may_panic (result string Conversion) := convert_with_top_n source DEFAULT_TOP_ENDPOINTS.
End AccessLog.

(** ** The calendar *)

Definition leap (y : Z) : bool := Z.eqb (y mod 4) 0 && (negb (Z.eqb (y mod 100) 0) || Z.eqb (y mod 400) 0).
Definition days_in_month (y m : Z) : Z :=
  if Z.eqb m 2 then if leap y then 29 else 28
  else if existsb (Z.eqb m) [4; 6; 9; 11] then 30 else 31.
Definition valid_date (y m d : Z) : Prop := 1 <= m <= 12 /\ 1 <= d <= days_in_month y m.
(** The day after a date. *)
Definition next_date (y m d : Z) : Z * Z * Z :=
  if Z.ltb d (days_in_month y m) then (y, m, d + 1)
  else if Z.ltb m 12 then (y, m + 1, 1) else (y + 1, 1, 1).

Lemma i64_wrap_small (n : Z) : - 2 ^ 63 <= n < 2 ^ 63 -> i64_wrap n = n.
Proof. intros Hn. apply i64_wrap_id. unfold is_i64. lia. Qed.

(** The leap days before the end of a year. *)
Definition leap_days (y : Z) : Z := y / 4 - y / 100 + y / 400.
Lemma leap_days_step (y : Z) : leap_days y = leap_days (y - 1) + (if leap y then 1 else 0).
Proof.
  unfold leap_days, leap.
  destruct (Z.eqb_spec (y mod 4) 0), (Z.eqb_spec (y mod 100) 0), (Z.eqb_spec (y mod 400) 0); simpl; Z.to_euclidean_division_equations; lia.
Qed.

Ltac closed_parts :=
  repeat match goal with
         | |- context [Z.leb ?a 2] => let b := eval vm_compute in (Z.leb a 2) in change (Z.leb a 2) with b
         | |- context [Z.eqb ?a 2] => let b := eval vm_compute in (Z.eqb a 2) in change (Z.eqb a 2) with b
         | |- context [existsb ?f ?l] => let b := eval vm_compute in (existsb f l) in change (existsb f l) with b
         | |- context [(153 * ?a + 2) / 5] => let b := eval vm_compute in ((153 * a + 2) / 5) in change ((153 * a + 2) / 5) with b
         end; cbv iota beta.

(** The importer's calendar is the Gregorian one: the first of January 1970 is day 0, and the day after a date has the next
    number, for every date of years whose numbers of days an i64 can hold. *)
Theorem days_from_civil_gregorian (y m d : Z) :
  - 2 ^ 53 <= y <= 2 ^ 53 -> valid_date y m d ->
  days_from_civil 1970 1 1 = 0
  /\ (let '(y', m', d') := next_date y m d in days_from_civil y' m' d' = days_from_civil y m d + 1).
Proof.
  intros Hy [Hm Hd]. split; [vm_compute; done|].
  assert (forall y m d, - 2 ^ 53 <= y <= 2 ^ 53 + 1 -> 1 <= m <= 12 -> 1 <= d <= 32 ->
    days_from_civil y m d =
      let y := if Z.leb m 2 then y - 1 else y in
      365 * y + y / 4 - y / 100 + y / 400 + (153 * ((m + 9) mod 12) + 2) / 5 + d - 1 - 719468) as Hdays.
  { clear. intros y m d Hy Hm Hd. unfold days_from_civil. rewrite (i64_wrap_small (y - 1)) by lia.
    set (y1 := if Z.leb m 2 then y - 1 else y). assert (- 2 ^ 53 - 1 <= y1 <= 2 ^ 53 + 1) as Hy1 by (subst y1; destruct (Z.leb m 2); lia).
    clearbody y1. cbv zeta. rewrite i64_wrap_small; Z.to_euclidean_division_equations; lia. }
  assert (1 <= d <= 31) as Hd31 by (unfold days_in_month in Hd; repeat case_match; lia).
  unfold next_date. destruct (Z.ltb_spec d (days_in_month y m)) as [Hlt|Hge].
  - rewrite !Hdays by lia. cbv zeta. lia.
  - assert (d = days_in_month y m) as -> by lia. clear Hd Hge Hd31.
    assert (leap_days y = leap_days (y - 1) + (if leap y then 1 else 0)) as Hl by apply leap_days_step.
    assert (1 <= days_in_month y m <= 31) as Hdm by (unfold days_in_month; repeat case_match; lia).
    destruct (Z.ltb_spec m 12) as [Hm12|Hm12]; rewrite !Hdays by lia; unfold leap_days in Hl; cbv zeta.
    + assert (m = 1 \/ m = 2 \/ m = 3 \/ m = 4 \/ m = 5 \/ m = 6 \/ m = 7 \/ m = 8 \/ m = 9 \/ m = 10 \/ m = 11) as Hin by lia.
      unfold days_in_month.
      repeat destruct Hin as [Hin|Hin]; subst m;
        closed_parts; try destruct (leap y); lia.
    + assert (m = 12) as -> by lia. unfold days_in_month. replace (y + 1 - 1) with y by lia. closed_parts. lia.
Qed.

(** ** The plan validates *)

(** Text of which nothing reads as an expression. *)
Definition tame (l : list ascii) : Prop := Forall (fun c => c <> "$"%char /\ (N_of_ascii c < 128)%N) l.

Lemma tame_split (l : list ascii) : tame l -> Forall tame (split_l "/" l).
Proof.
  unfold tame. induction 1 as [|c l Hc _ IH]; [by repeat constructor|]. simpl. destruct (Ascii.eqb c "/"); [constructor; [constructor|done]|].
  destruct (split_l "/" l) as [|x xs]; [constructor; [by apply Forall_singleton|done]|]. inversion IH; subst. constructor; [by constructor|done].
Qed.
Lemma tame_before_query (l : list ascii) : tame l -> tame (before_query l).
Proof. induction 1 as [|c l Hc _ IH]; [constructor|]. simpl. destruct (_ || _); [constructor|by constructor]. Qed.

Section Validates.
Context (line_captures : string -> option Captures) (segment_is_id : string -> bool).
Context (f64_display : f64 -> string) (f64_fixed : nat -> f64 -> string).
Local Notation read_log := (read_log line_captures segment_is_id).
Local Notation is_id := (is_id segment_is_id).
Local Notation normalize_segment := (normalize_segment segment_is_id).
Local Notation normalize_path := (normalize_path segment_is_id).

(** The pieces of a segment, and of a normalised path. *)
Definition segment_pieces (seg : string) : list Piece := if is_id seg then [Ref "vars.id"] else Char <$> chars seg.
Fixpoint path_pieces (segs : list string) : list Piece :=
  match segs with
  | [] => []
  | [s] => segment_pieces s
  | s :: segs => segment_pieces s ++ Char "/" :: path_pieces segs
  end.

Lemma chars_text (l : list ascii) : concat (piece_text <$> (Char <$> l)) = l.
Proof. induction l as [|c l IH]; [done|]. rewrite !fmap_cons, concat_cons, IH. done. Qed.
Lemma segment_pieces_text seg : chars (normalize_segment seg) = concat (piece_text <$> segment_pieces seg).
Proof. unfold normalize_segment, segment_pieces. destruct (is_id seg); [done|symmetry; apply chars_text]. Qed.
Lemma path_pieces_text segs : chars (join "/" (normalize_segment <$> segs)) = concat (piece_text <$> path_pieces segs).
Proof.
  induction segs as [|s [|s' segs] IH]; [done|apply segment_pieces_text|].
  change (join "/" (normalize_segment <$> s :: s' :: segs))
    with (normalize_segment s +:+ "/" +:+ join "/" (normalize_segment <$> s' :: segs)).
  change (path_pieces (s :: s' :: segs)) with (segment_pieces s ++ Char "/" :: path_pieces (s' :: segs)).
  rewrite fmap_app, concat_app, <- segment_pieces_text, (fmap_cons piece_text (Char "/")), concat_cons, <- IH. by rewrite !chars_app.
Qed.

Lemma segment_pieces_ok seg : tame (chars seg) -> Forall piece_ok (segment_pieces seg).
Proof.
  intros Ht. unfold segment_pieces. destruct (is_id seg); [|by apply Forall_fmap].
  constructor; [|constructor]. by vm_compute.
Qed.
Lemma path_pieces_ok segs : Forall (fun s => tame (chars s)) segs -> Forall piece_ok (path_pieces segs).
Proof.
  induction segs as [|s [|s' segs] IH]; [constructor|intros [Hs _]%Forall_cons; by apply segment_pieces_ok|].
  intros [Hs Hss]%Forall_cons. change (path_pieces (s :: s' :: segs)) with (segment_pieces s ++ Char "/" :: path_pieces (s' :: segs)).
  apply Forall_app. split; [by apply segment_pieces_ok|]. constructor; [by vm_compute|by apply IH].
Qed.

Lemma refs_app (a b : list Piece) : refs (a ++ b) = refs a ++ refs b.
Proof. apply omap_app. Qed.
Lemma refs_segment seg : refs (segment_pieces seg) = if is_id seg then ["vars.id"] else [].
Proof. unfold segment_pieces. destruct (is_id seg); [done|]. induction (chars seg) as [|c l IH]; [done|]. exact IH. Qed.
Lemma refs_path segs e : e ∈ refs (path_pieces segs) -> e = "vars.id" /\ (0 < length (List.filter is_id segs))%nat.
Proof.
  induction segs as [|s [|s' segs] IH]; [by intros ?%elem_of_nil| |].
  - simpl. rewrite refs_segment. destruct (is_id s); [|by intros ?%elem_of_nil]. intros ->%list_elem_of_singleton. by split; [|simpl; lia].
  - change (path_pieces (s :: s' :: segs)) with (segment_pieces s ++ Char "/" :: path_pieces (s' :: segs)).
    rewrite refs_app, elem_of_app, refs_segment. cbn [List.filter]. destruct (is_id s).
    + intros [->%list_elem_of_singleton|He]; [by split; [|simpl; lia]|]. destruct (IH He) as [-> _]. by split; [|simpl; lia].
    + intros [?%elem_of_nil|He]; [done|]. by apply IH.
Qed.

(** An endpoint's path came out of normalising a tame one. *)
Definition endpoint_ok (normalised : nat) (path : string) : Prop :=
  exists segs, path = join "/" (normalize_segment <$> segs) /\ Forall (fun s => tame (chars s)) segs /\ path <> ""
    /\ (length (List.filter is_id segs) <= normalised)%nat.

Record log_ok (n : nat) (l : Log) : Prop := {
  lo_total : 0 <= lg_total l <= Z.of_nat n;
  lo_endpoints : Forall (fun e => endpoint_ok (lg_normalised_segments l) e.1.2 /\ 0 <= e.2) (lg_endpoints l);
  lo_some : lg_total l <> 0 -> lg_endpoints l <> [] /\ lg_buckets l <> ∅;
  lo_buckets : map_Forall (fun _ v => 0 < v <= lg_total l) (lg_buckets l);
}.

Lemma split_l_nonempty (l : list ascii) : split_l "/" l <> [].
Proof. destruct l as [|c l]; [done|]. simpl. destruct (Ascii.eqb c "/"); [done|]. by destruct (split_l "/" l). Qed.
Lemma split_l_single (l x : list ascii) : split_l "/" l = [x] -> x = l.
Proof.
  revert x. induction l as [|c l IH]; intros x; simpl; [by intros [= <-]|]. pose proof (split_l_nonempty l) as Hne. destruct (Ascii.eqb c "/").
  - by intros [= _ Hn].
  - destruct (split_l "/" l) as [|y [|z zs]]; [done| |done]. intros [= <-]. by rewrite (IH y).
Qed.

Lemma normalized_nonempty (l : list ascii) : l <> [] -> join "/" (normalize_segment <$> str_split (of_chars l) "/") <> "".
Proof.
  intros Hl. unfold str_split. rewrite chars_of_chars. destruct (split_l "/" l) as [|x [|y ys]] eqn:Hs.
  - by apply split_l_nonempty in Hs.
  - apply split_l_single in Hs as ->. simpl. unfold normalize_segment. destruct (is_id _); [done|].
    intros He. apply Hl. by rewrite <- (chars_of_chars l), He.
  - intros He. apply (f_equal chars) in He. rewrite path_pieces_text in He.
    assert (In "/"%char (concat (piece_text <$> path_pieces (of_chars <$> x :: y :: ys)))) as Hin; [|by rewrite He in Hin].
    change (path_pieces (of_chars <$> x :: y :: ys))
      with (segment_pieces (of_chars x) ++ Char "/" :: path_pieces (of_chars <$> y :: ys)).
    rewrite fmap_app, concat_app, in_app_iff. right. by left.
Qed.

Lemma target_path_head t p : target_path t = Some p -> before_query (chars p) <> [].
Proof.
  unfold target_path. assert (forall s, head (chars s) = Some "/"%char -> before_query (chars s) <> []) as Hslash.
  { intros s. destruct (chars s) as [|c l]; [done|]. by intros [= ->]. }
  destruct (str_find t "://") as [i|].
  - intros [= <-]. apply Hslash. destruct (str_find _ "/") as [j|] eqn:Hj; [|done].
    apply find_l_Some in Hj as ((r & Hr) & Hle & _). unfold slice_from at 1. rewrite chars_of_chars.
    set (s := chars (slice_from t (i + 3))) in *. clearbody s. rewrite Hr, drop_app_le by (rewrite length_take; lia).
    rewrite drop_ge by (rewrite length_take; lia). done.
  - destruct (starts_with t "/") eqn:Hs; simpl.
    + intros [= <-]. apply starts_with_spec in Hs as [r ->]. by apply Hslash.
    + destruct (bool_decide_reflect (t = "*")) as [->|]; [|done]. by intros [= <-].
Qed.

Lemma parse_line_path line p : parse_line line_captures line = Some p -> before_query (chars (pl_path p)) <> [].
Proof.
  unfold parse_line. intros (caps & _ & Hp)%bind_Some. apply bind_Some in Hp as (epoch & _ & Hp).
  destruct (split_whitespace _) as [|m [|t ts]]; [done..|]. destruct (negb _); [done|].
  apply bind_Some in Hp as (path & Ht & [= <-]). by apply target_path_head in Ht.
Qed.

Lemma normalize_path_ok path n path' changed :
  tame (chars path) -> before_query (chars path) <> [] -> normalize_path path = (path', changed) -> endpoint_ok (n + changed) path'.
Proof.
  intros Ht Hb [= <- <-]. eexists. split; [done|]. split; [|split; [by apply normalized_nonempty|lia]].
  unfold str_split. rewrite chars_of_chars. apply Forall_fmap. apply tame_before_query, tame_split in Ht.
  eapply Forall_impl; [exact Ht|]. intros x Hx. simpl. by rewrite chars_of_chars.
Qed.

Lemma endpoint_ok_mono n m path : (n <= m)%nat -> endpoint_ok n path -> endpoint_ok m path.
Proof. intros Hnm (segs & ? & ? & ? & ?). exists segs. repeat split; [done..|lia]. Qed.

Lemma count_endpoint_forall (P : Endpoint -> Prop) k m :
  P k -> Forall (fun e => P e.1 /\ 0 <= e.2) m -> Forall (fun e => P e.1 /\ 0 <= e.2) (count_endpoint k m).
Proof.
  intros Hk. induction 1 as [|[k' n] m [Hp Hn] Hm IH]; simpl; [by repeat constructor|].
  destruct (decide (k = k')) as [->|]; constructor; try done. split; [done|]. apply u64_wrap_range.
Qed.
Lemma count_endpoint_nonempty k m : count_endpoint k m <> [].
Proof. destruct m as [|[k' n] m]; [done|]. simpl. by destruct (decide _). Qed.

Definition line_tame (raw : list ascii) : Prop :=
  forall p, parse_line line_captures (trim (of_chars raw)) = Some p -> tame (chars (pl_path p)).

Lemma log_line_ok n l raw :
  Z.of_nat (S n) < 2 ^ 63 -> log_ok n l -> line_tame raw -> log_ok (S n) (log_line line_captures segment_is_id l raw).
Proof.
  intros Hn [Ht He Hs Hb] Htame. unfold log_line. destruct (str_is_empty _); [split; [lia|done..]|].
  destruct (parse_line _ _) as [p|] eqn:Hp; [|split; [simpl; lia|done..]].
  destruct (normalize_path (pl_path p)) as [path changed] eqn:Hnorm.
  assert (u64_add (lg_total l) 1 = lg_total l + 1) as Hadd by (apply u64_add_small; unfold is_u64, u64_modulus; lia).
  split; simpl; rewrite ?Hadd.
  - lia.
  - apply (count_endpoint_forall (fun e => endpoint_ok (lg_normalised_segments l + changed) e.2)).
    + eapply normalize_path_ok; [by apply Htame|by eapply parse_line_path|done].
    + eapply Forall_impl; [exact He|]. intros e [Hok ?]. split; [|done]. eapply endpoint_ok_mono; [|exact Hok]. lia.
  - intros _. split; [apply count_endpoint_nonempty|]. apply insert_non_empty.
  - apply map_Forall_insert_2.
    + assert (0 <= default 0 (lg_buckets l !! pl_epoch p) <= lg_total l) as Hd.
      { destruct (lg_buckets l !! pl_epoch p) as [v|] eqn:Hv; simpl; [|lia]. specialize (Hb _ _ Hv). simpl in Hb. lia. }
      assert (u64_add (default 0 (lg_buckets l !! pl_epoch p)) 1 = default 0 (lg_buckets l !! pl_epoch p) + 1) as ->; [|lia].
      apply u64_add_small. unfold is_u64, u64_modulus. lia.
    + eapply map_Forall_impl; [exact Hb|]. simpl. lia.
Qed.

Lemma read_log_ok source :
  Z.of_nat (length (str_lines source)) < 2 ^ 63 -> Forall line_tame (str_lines source) ->
  log_ok (length (str_lines source)) (read_log source).
Proof.
  intros Hn Hl. unfold read_log. induction (str_lines source) as [|raw raws IH] using rev_ind; [by split|].
  apply Forall_app in Hl as [Hl Hr]. rewrite Forall_singleton in Hr. rewrite length_app, Nat.add_1_r in Hn |- *. rewrite foldl_app.
  apply log_line_ok; [done|apply IH; [lia|done]|done].
Qed.

Context `{ValidateTools, JsonText, ConditionText} (humantime_parse_duration : string -> result string Duration) (opts : ValidateOptions).

Lemma f64_of_Z_nonneg (n : Z) : 0 <= n -> f64_lt (f64_of_Z n) f64_zero = false.
Proof.
  intros Hn. unfold f64_of_Z. destruct n as [|p|p]; [done| |lia]. unfold f64_lt, f64_zero.
  simpl. unfold binary_round, binary_round_aux. repeat case_match; try done; simplify_eq; done.
Qed.

Lemma insert_ranked_perm e l : insert_ranked e l ≡ₚ e :: l.
Proof. induction l as [|x l IH]; [done|]. simpl. destruct (Z.ltb _ _); [done|]. rewrite IH. apply Permutation_swap. Qed.
Lemma ranked_perm l : ranked l ≡ₚ l.
Proof.
  unfold ranked. rewrite <- (app_nil_r l) at 2. generalize (@nil (Endpoint * Z)) as acc. induction l as [|e l IH]; intros acc; [done|].
  simpl. rewrite IH, insert_ranked_perm. symmetry. apply Permutation_middle.
Qed.

(** The step of an endpoint has no errors. *)
Lemma endpoint_step_checked plan n path e declared :
  endpoint_ok n e.2 -> ((0 < n)%nat -> has_key "id" (tp_variables plan) = true) ->
  let r := check_step plan opts path (endpoint_step e) declared in no_errors r.1 /\ r.2 = declared.
Proof.
  intros (segs & Hpath & Htame & Hne & Hn) Hid. simpl. split; [|apply union_empty_r_L].
  rewrite !no_errors_app. split_and!; try apply no_errors_nil; [|apply no_errors_when_true, no_errors_warning].
  unfold check_url. simpl. rewrite no_errors_app. split.
  { unfold str_is_empty. rewrite bool_decide_eq_false_2 by done. apply no_errors_nil. }
  destruct (pieces_template e.2 (path_pieces segs)) as (t & -> & Ht); [by rewrite Hpath, path_pieces_text|by apply path_pieces_ok|].
  rewrite no_errors_concat, Ht. apply Forall_forall. intros x Hx. apply refs_path in Hx as [-> Hlt].
  unfold check_expr_reference. simpl. rewrite Hid by lia. apply no_errors_nil.
Qed.

Lemma scenario_checked l t kept plan name :
  f64_le (tr_rate t) f64_zero = false -> 0 <= tr_peak t < 2 ^ 63 -> kept <> [] ->
  (forall e, e ∈ kept -> endpoint_ok (lg_normalised_segments l) e.1.2 /\ 0 <= e.2) ->
  ((0 < lg_normalised_segments l)%nat -> has_key "id" (tp_variables plan) = true) ->
  no_errors (check_scenario plan opts name (replay_scenario t kept)).
Proof.
  intros Hrate Hpeak Hkept Hall Hid. unfold check_scenario. cbv zeta. rewrite !no_errors_app.
  split_and!; try apply no_errors_nil.
  - unfold executor_spec. cbn. change (S754_zero false) with f64_zero. rewrite Hrate. change (Duration_from_secs 1 =? 0) with false. cbv iota.
    assert (Z.ltb (Z.max ((tr_peak t * 2) mod u64_modulus) 2) (Z.max (tr_peak t) 1) = false) as ->; [|apply no_errors_nil].
    unfold u64_modulus. rewrite Z.mod_small by lia. apply Z.ltb_ge. lia.
  - unfold check_steps. simpl sp_flow. cbn [declaring].
    assert (forall path declared, no_errors (check_step plan opts path (StRandom Weighted (choice <$> kept)) declared).1) as Hc.
    { intros path declared. cbn [check_step]. simpl. rewrite no_errors_app. split; [destruct kept; [done|apply no_errors_nil]|].
      apply declaring_no_errors. intros j c d Hc. apply list_elem_of_fmap in Hc as (e & -> & He). destruct (Hall e He) as [Hok Hpos].
      unfold choice. rewrite f64_of_Z_nonneg by done. simpl when. cbn [declaring].
      destruct (endpoint_step_checked plan _ (at_index (at_index (path +:+ ".random.choices") j +:+ "." +:+ "steps") 0) e.1 d Hok Hid) as [Hs Hd].
      destruct (check_step _ _ _ (endpoint_step e.1) d) as [ds d']. simpl in *. subst d'. split; [by rewrite app_nil_r|done]. }
    specialize (Hc (at_index (("scenarios." +:+ name) +:+ "." +:+ "flow") 0) (list_to_set (tp_variables plan).*1)).
    destruct (check_step _ _ _ _ _) as [ds d]. simpl in *. by rewrite app_nil_r.
Qed.

Lemma traffic_of_log n l : Z.of_nat n < 2 ^ 63 -> log_ok n l -> lg_total l <> 0 -> exists t, traffic l = Some t /\ 0 <= tr_peak t < 2 ^ 63.
Proof.
  intros Hn Hl Ht. destruct (lo_some n l Hl Ht) as [_ Hb]. unfold traffic.
  destruct (map_to_list (lg_buckets l)).*1 as [|e es] eqn:He.
  - apply fmap_nil_inv, map_to_list_empty_iff in He. done.
  - eexists. split; [done|]. cbn [tr_peak].
    assert (Forall (fun v => 0 <= v < 2 ^ 63) (map_to_list (lg_buckets l)).*2) as Hv.
    { apply Forall_fmap, Forall_forall. intros [k v] Hkv%elem_of_map_to_list. pose proof (lo_buckets n l Hl k v Hkv). simpl in *.
      pose proof (lo_total n l Hl). lia. }
    assert (forall acc, 0 <= acc < 2 ^ 63 -> 0 <= foldl Z.max acc (map_to_list (lg_buckets l)).*2 < 2 ^ 63) as Hf; [|by apply Hf].
    induction Hv as [|v vs Hv _ IH]; intros acc Ha; [done|]. apply IH. lia.
Qed.

(** C32: a plan imported from an access log validates.  For every log whose requested paths are ASCII without a dollar sign, the
    importer does not panic, and if it returns a plan then the validator finds no error in it, whatever the regular expressions
    take for a line and for an identifier; the one thing left to the numbers is that the rounded rate is positive. *)
Theorem convert_accesslog_validates source top_n :
  Z.of_nat (length (str_lines source)) < 2 ^ 63 -> Forall line_tame (str_lines source) ->
  (forall t, traffic (read_log source) = Some t -> f64_le (tr_rate t) f64_zero = false) ->
  exists r, convert_with_top_n line_captures segment_is_id f64_display f64_fixed source top_n = Some r
    /\ match r with
       | Err _ => lg_total (read_log source) = 0
       | Ok c => exists ds, validate humantime_parse_duration (cv_plan c) opts None = Some ds /\ has_errors ds = false
       end.
Proof.
  intros Hn Htame Hrate. pose proof (read_log_ok source Hn Htame) as Hl. unfold convert_with_top_n.
  destruct (Z.eqb_spec (lg_total (read_log source)) 0) as [Hz|Hz]; [by eexists|].
  destruct (traffic_of_log _ _ Hn Hl Hz) as (t & Ht & Hpeak). rewrite Ht. eexists. split; [done|].
  set (kept := take (Nat.max top_n 1) (ranked (lg_endpoints (read_log source)))). cbn [cv_plan].
  unfold validate, check_plan. cbn [tp_thresholds replay_plan concat_panics mbind option_bind]. eexists. split; [done|].
  apply locate_no_errors. rewrite !no_errors_app. split_and!; try apply no_errors_nil.
  cbn [tp_scenarios replay_plan fmap list_fmap concat]. rewrite app_nil_r.
  apply (scenario_checked (read_log source)); [by apply Hrate|done| | |].
  - destruct (lo_some _ _ Hl Hz) as [Hne _]. subst kept. intros Hk. apply Hne.
    destruct (ranked (lg_endpoints (read_log source))) as [|e es] eqn:Hr; [by apply Permutation_nil; rewrite <- Hr, ranked_perm|].
    destruct (Nat.max top_n 1) eqn:Hm; [lia|done].
  - intros e He. apply elem_of_take in He as (i & He & _). apply list_elem_of_lookup_2 in He. rewrite ranked_perm in He.
    pose proof (lo_endpoints _ _ Hl) as Hall. rewrite Forall_forall in Hall. by apply Hall.
  - intros Hpos. cbn [tp_variables replay_plan]. by destruct (Nat.ltb_spec 0 (lg_normalised_segments (read_log source))); [|lia].
Qed.
End Validates.

Module AccessLogDemo.
Import ExtractDemo ConditionDemo ValidateDemo.
(** Lines of a time and a request; identifiers are numbers. *)
Definition captures (line : string) : option Captures := '(t, r) ← split_once line "|"; Some (mkCaptures t r "").
Definition digits (s : string) : bool := forallb is_digit (chars s).
Definition newline_text : string := of_chars [newline].
Definition log : string :=
  join newline_text ["10/Oct/2000:13:55:36 -0700|GET /users/42?x=1 HTTP/1.1"; "nonsense"; "10/Oct/2000:13:55:37 -0700|GET /users/7 HTTP/1.1";
                     "10/Oct/2000:13:55:37 -0700|post /login HTTP/1.1"].
Definition convert (source : string) : may_panic (result string Conversion) :=
  convert_with_top_n captures digits (fun _ => "?") (fun _ _ => "?") source 1.
Definition urls (c : Conversion) : list string :=
  concat ((fun kv => rq_url <$> plan_requests kv.2) <$> tp_scenarios (cv_plan c)).

Example clf_time : parse_clf_timestamp "10/Oct/2000:13:55:36 -0700" = Some 971211336.
Proof. vm_compute. done. Qed.
(** A day that its month does not have, and hours before midnight, are times of other days. *)
Example odd_times :
  parse_clf_timestamp "31/Feb/2001:00:00:00" = parse_clf_timestamp "03/Mar/2001:00:00:00"
  /\ parse_clf_timestamp "10/Oct/2000:-1:00:00" = parse_clf_timestamp "09/Oct/2000:23:00:00".
Proof. vm_compute. done. Qed.

Example replay :
  match convert log with
  | Some (Ok c) => urls c = ["/users/${vars.id}"] /\ length (cv_warnings c) = 6%nat
  | _ => False
  end.
Proof. vm_compute. done. Qed.

(** What a client asked for is a template of the plan: it can break it, or read what only the plan should. *)
Example a_path_is_a_template :
  match convert "10/Oct/2000:13:55:36|GET /${ HTTP/1.1" with
  | Some (Ok c) => has_errors <$> validate humantime (cv_plan c) no_opts None = Some true
  | _ => False
  end
  /\ match convert "10/Oct/2000:13:55:36|GET /${env.HOME} HTTP/1.1" with
     | Some (Ok c) => urls c = ["/${env.HOME}"] /\ has_errors <$> validate humantime (cv_plan c) no_opts None = Some false
     | _ => False
     end.
Proof. vm_compute. done. Qed.

Definition tame_char (c : ascii) : bool := negb (Ascii.eqb c "$") && N.ltb (N_of_ascii c) 128.
Definition tame_line (raw : list ascii) : bool :=
  match parse_line captures (trim (of_chars raw)) with Some p => forallb tame_char (chars (pl_path p)) | None => true end.
Lemma tame_line_ok raw : tame_line raw = true -> line_tame captures raw.
Proof.
  intros Ht p Hp. unfold tame_line in Ht. rewrite Hp in Ht.
  refine (proj2 (Forall_forall _ _) _). intros c Hc. rewrite forallb_forall in Ht. specialize (Ht c (proj1 (list_elem_of_In _ _) Hc)).
  apply andb_true_iff in Ht as [Hd Ha]. split; [|by apply N.ltb_lt]. intros ->. done.
Qed.
Lemma log_tame : Forall (line_tame captures) (str_lines log).
Proof.
  assert (forallb tame_line (str_lines log) = true) as Ht by (vm_compute; reflexivity). rewrite forallb_forall in Ht.
  refine (proj2 (Forall_forall _ _) _). intros raw Hraw. apply tame_line_ok, Ht. by apply list_elem_of_In.
Qed.

Lemma convert_accesslog_validates_witness :
  exists c, convert log = Some (Ok c)
    /\ exists ds, validate humantime (cv_plan c) no_opts None = Some ds /\ has_errors ds = false.
Proof.
  destruct (convert_accesslog_validates captures digits (fun _ => "?") (fun _ _ => "?") humantime no_opts log 1) as (r & Hr & Hok).
  - vm_compute. done.
  - exact log_tame.
  - intros t Ht. vm_compute in Ht. injection Ht as <-. vm_compute. done.
  - destruct r as [c|e]; [|vm_compute in Hok; discriminate Hok]. exists c. exact (conj Hr Hok).
Defined.

Lemma days_from_civil_gregorian_witness : valid_date 2000 2 28 /\ days_from_civil 2000 2 29 = days_from_civil 2000 2 28 + 1.
Proof.
  assert (valid_date 2000 2 28) as Hv by (unfold valid_date; vm_compute; repeat split; discriminate).
  assert (- 2 ^ 53 <= 2000 <= 2 ^ 53) as Hy by lia.
  split; [exact Hv|]. exact (proj2 (days_from_civil_gregorian 2000 2 28 Hy Hv)).
Defined.
End AccessLogDemo.
