(* ===== verification/Har.v ===== *)
(** * The HAR importer (crates/loadr-convert/src/har.rs)

    From a recorded session to a plan: requests without the static ones, relative to the most common origin, with the values
    of JSON responses that later requests repeat turned into extractors and references.  Regular expressions and JSON are
    third-party; the order in which a [HashMap] of origins is read is a parameter. *)

From Stdlib Require Import Ascii.
From S2P Require Import Prelude Float64 Str Dur Metrics Threshold Thresholds Executor Value Template Protocol Extract Conditions Feeds Pacing Program Interp Prepare Diagnostics Validate ValidateSound Convert.

Definition MIN_VALUE_LEN : nat := 4.

(** ** What is left out *)

Definition header_dropped (name : string) : bool :=
  let n := to_ascii_lowercase name in
  starts_with n ":" || bool_decide (n ∈ ["host"; "content-length"; "connection"; "cookie"; "accept-encoding"]).

Definition STATIC_EXTENSIONS : list string :=
  [".css"; ".js"; ".mjs"; ".png"; ".jpg"; ".jpeg"; ".gif"; ".svg"; ".webp"; ".ico"; ".woff"; ".woff2"; ".ttf"; ".eot"; ".map"; ".avif"].

(** The first piece of [split(c)]. *)
Definition first_of (s : string) (c : ascii) : string := default s (head (str_split s c)).

Definition is_static_asset (mime url_path : string) : bool :=
  let m := to_ascii_lowercase mime in
  if starts_with m "image/" || starts_with m "font/" || starts_with m "audio/" || starts_with m "video/" || str_contains m "css"
     || str_contains m "javascript" then true
  else
    let path := to_ascii_lowercase (first_of url_path "?") in
    existsb (fun e => ends_with path e) STATIC_EXTENSIONS.

Definition split_origin (url : string) : option (string * string) :=
  scheme_end ← str_find url "://";
  let after := slice_from url (scheme_end + 3) in
  let path_start := default (str_len after) (str_find after "/") in
  let rest := slice_from after path_start in
  Some (slice_to url (scheme_end + 3 + path_start), if str_is_empty rest then "/" else rest).

(** ** Candidates *)

Definition SENSITIVE_TERMS : list string :=
  ["token"; "csrf"; "xsrf"; "nonce"; "session"; "secret"; "auth"; "ticket"; "sid"; "uuid"; "guid"].
Definition key_is_sensitive (key : string) : bool :=
  let k := to_ascii_lowercase key in
  existsb (fun t => str_contains k t) SENSITIVE_TERMS || bool_decide (k = "id") || ends_with k "id" || ends_with k "_id".

Definition value_denied (v : string) : bool :=
  bool_decide (v ∈ ["true"; "false"; "null"; "none"; "undefined"; "application/json"; "text/html"]).

Record Candidate := mkCandidate { cd_producer : nat; cd_jsonpath : string; cd_value : string; cd_key : string }.

Section Candidates.
Context `{JsonText} (regex_matches : string -> string -> bool).

Definition UUID : string := "^[0-9a-fA-F]{8}-[0-9a-fA-F]{4}-[0-9a-fA-F]{4}-[0-9a-fA-F]{4}-[0-9a-fA-F]{12}$".
Definition HEX16 : string := "^[0-9a-fA-F]{16,}$".
Definition NUMERIC_ID : string := "^[0-9]{4,}$".
Definition TOKEN : string := "^[A-Za-z0-9_\-.]{16,}$".

Definition value_looks_dynamic (v : string) : bool :=
  regex_matches UUID v || (starts_with v "eyJ" && str_contains v ".") || regex_matches HEX16 v || regex_matches NUMERIC_ID v
  || regex_matches TOKEN v.

Definition is_candidate (key value : string) : bool :=
  Nat.leb MIN_VALUE_LEN (str_len value) && negb (existsb is_whitespace_char (str_chars value)) && negb (value_denied value)
  && (key_is_sensitive key || value_looks_dynamic value).

(** The candidate leaves: path, value, key. *)
Fixpoint collect_candidates (v : Value) (path key : string) : list (string * string * string) :=
  let leaf s := if is_candidate key s then [(path, s, key)] else [] in
  match v with
  | Object fields => concat (map (fun kv => collect_candidates kv.2 (path +:+ "." +:+ kv.1) kv.1) fields)
  | Array items =>
      (fix go (i : nat) (items : list Value) : list (string * string * string) :=
         match items with
         | [] => []
         | v :: items => collect_candidates v (path +:+ "[" +:+ nat_to_string i +:+ "]") key ++ go (S i) items
         end) 0%nat items
  | Text s => leaf s
  | Num n => leaf (to_json (Num n))
  | _ => []
  end.
End Candidates.

(** ** Names *)

Definition name_char (c : ascii) : ascii :=
  if is_digit c || (let n := N_of_ascii (ascii_lower c) in N.leb 97 n && N.leb n 122) then ascii_lower c else "_"%char.

(** One turn of the loop shortens the text. *)
Fixpoint squeeze (fuel : nat) (s : string) : string :=
  match fuel with
  | O => s
  | S fuel => if str_contains s "__" then squeeze fuel (str_replace s "__" "_") else s
  end.

Definition trim_underscores (s : string) : string := of_chars (trim_matches "_" (chars s)).
Definition is_lower (c : ascii) : bool := N.leb 97 (N_of_ascii c) && N.leb (N_of_ascii c) 122.

(** A character of a key that is not ASCII is one [_]. *)
Definition base_name (key : string) : string :=
  let s := of_chars ((fun c => match c with [a] => name_char a | _ => "_"%char end) <$> str_chars key) in
  let base := trim_underscores (squeeze (str_len s) s) in
  let base := match chars base with
              | c :: _ => if is_lower c then base else trim_underscores ("v_" +:+ base)
              | [] => trim_underscores ("v_" +:+ base)
              end in
  if str_is_empty base then "var" else base.

Definition numbered (base : string) (n : nat) : string := base +:+ "_" +:+ nat_to_string n.
(** The loop over the names tried, [fuel] at most. *)
Fixpoint free_name (fuel : nat) (base name : string) (n : nat) (used : gset string) : string :=
  match fuel with
  | O => name
  | S fuel => if bool_decide (name ∈ used) then free_name fuel base (numbered base n) (S n) used else name
  end.
Definition var_name (key : string) (used : gset string) : string * gset string :=
  let base := base_name key in
  let name := free_name (size used) base base 2 used in
  (name, {[name]} ∪ used).

(** ** Requests *)

Record RawReq := mkRawReq {
  rw_method : string;
  rw_url : string;
  rw_headers : list (string * string);
  rw_body_text : option string;
  rw_body_is_json : bool;
  rw_response_json : option Value;
  rw_extract : list Extractor;
}.

Definition raw_contains (r : RawReq) (value : string) : bool :=
  str_contains (rw_url r) value || existsb (fun kv => str_contains kv.2 value) (rw_headers r)
  || match rw_body_text r with Some b => str_contains b value | None => false end.
(** Replacing in a text without the value changes nothing. *)
Definition raw_replace (value repl : string) (r : RawReq) : RawReq :=
  mkRawReq (rw_method r) (str_replace (rw_url r) value repl) ((fun kv => (kv.1, str_replace kv.2 value repl)) <$> rw_headers r)
    ((fun b => str_replace b value repl) <$> rw_body_text r) (rw_body_is_json r) (rw_response_json r) (rw_extract r).
Definition set_url (u : string) (r : RawReq) : RawReq :=
  mkRawReq (rw_method r) u (rw_headers r) (rw_body_text r) (rw_body_is_json r) (rw_response_json r) (rw_extract r).
Definition push_extract (e : Extractor) (r : RawReq) : RawReq :=
  mkRawReq (rw_method r) (rw_url r) (rw_headers r) (rw_body_text r) (rw_body_is_json r) (rw_response_json r) (rw_extract r ++ [e]).

(** ** Reading a recording *)

Definition field (v : option Value) (name : string) : option Value :=
  match v with Some (Object fields) => map_get name fields | _ => None end.
Definition text_of (v : option Value) : option string := match v with Some (Text s) => Some s | _ => None end.

Definition header_array (v : option Value) : list (string * string) :=
  match v with
  | Some (Array items) =>
      omap (fun h => name ← text_of (field (Some h) "name"); value ← text_of (field (Some h) "value"); Some (name, value)) items
  | _ => []
  end.

Section Har.
Context `{TextTools, JsonText} (regex_matches : string -> string -> bool).
(** The order in which the origins and their counts are read. *)
Context (origins : gmap string nat -> list (string * nat)).

Definition json_parses (s : string) : bool := is_ok (from_json s).

(** What is read of an entry's request; [None] when it is skipped. *)
Definition raw_req (meth url : string) (request response : option Value) (resp_mime : string) : RawReq :=
  let post := field request "postData" in
  let body_text := text_of (field post "text") in
  let req_mime := default "" (text_of (field post "mimeType")) in
  mkRawReq meth url (List.filter (fun kv => negb (header_dropped kv.1)) (header_array (field request "headers"))) body_text
    (str_contains req_mime "json" && match body_text with Some t => json_parses t | None => false end)
    (if str_contains resp_mime "json" then
       match t ← text_of (field (field response "content") "text"); Some (from_json t) with Some (Ok v) => Some v | _ => None end
     else None) [].

Record Recording := mkRecording { rd_reqs : list RawReq; rd_origins : gmap string nat; rd_skipped_static : nat }.
Definition Recording_new : Recording := mkRecording [] ∅ 0.

Definition read_entry (d : Recording) (entry : Value) : Recording :=
  match field (Some entry) "request" with
  | None => d
  | Some request =>
      let meth := str_to_uppercase (default "GET" (text_of (field (Some request) "method"))) in
      match text_of (field (Some request) "url") with
      | None => d
      | Some url =>
          let response := field (Some entry) "response" in
          let resp_mime := default "" (text_of (field (field response "content") "mimeType")) in
          let path_for_check := default "" (snd <$> split_origin url) in
          if is_static_asset resp_mime path_for_check then mkRecording (rd_reqs d) (rd_origins d) (S (rd_skipped_static d))
          else
            let counts := match split_origin url with
                          | Some (origin, _) => <[origin := S (default 0%nat (rd_origins d !! origin))]> (rd_origins d)
                          | None => rd_origins d
                          end in
            mkRecording (rd_reqs d ++ [raw_req meth url (Some request) response resp_mime]) counts (rd_skipped_static d)
      end
  end.
Definition read_entries (entries : list Value) : Recording := foldl read_entry Recording_new entries.

(** [max_by_key]: the last of the greatest. *)
Definition most_common (l : list (string * nat)) : option string :=
  fst <$> foldl (fun best x => match best with Some b => if Nat.ltb x.2 b.2 then Some b else Some x | None => Some x end) None l.

Definition relativise (base : option string) (r : RawReq) : RawReq :=
  match base, split_origin (rw_url r) with
  | Some base, Some (origin, pq) => if bool_decide (origin = base) then set_url pq r else r
  | _, _ => r
  end.

(** ** Correlation *)

(** Each value once, of its earliest producer. *)
Fixpoint add_leaves (producer : nat) (leaves : list (string * string * string)) (seen : gset string) : list Candidate * gset string :=
  match leaves with
  | [] => ([], seen)
  | (jsonpath, value, key) :: leaves =>
      if bool_decide (value ∈ seen) then add_leaves producer leaves seen
      else let '(cs, seen) := add_leaves producer leaves ({[value]} ∪ seen) in (mkCandidate producer jsonpath value key :: cs, seen)
  end.
Fixpoint candidates_from (i : nat) (reqs : list RawReq) (seen : gset string) : list Candidate :=
  match reqs with
  | [] => []
  | r :: reqs =>
      let '(cs, seen) := match rw_response_json r with
                         | Some body => add_leaves i (collect_candidates regex_matches body "$" "") seen
                         | None => ([], seen)
                         end in
      cs ++ candidates_from (S i) reqs seen
  end.

Record Correlation := mkCorrelation {
  co_reqs : list RawReq;
  co_used : gset string;
  co_correlated : nat;
  co_warnings : list ConversionWarning;
}.

(** Which later requests repeat a value. *)
Definition consumers (c : Candidate) (reqs : list RawReq) : list nat :=
  List.filter (fun j => match reqs !! j with Some r => raw_contains r (cd_value c) | None => false end)
    (seq (S (cd_producer c)) (length reqs - S (cd_producer c))).

Definition reference (name : string) : string := "${" +:+ name +:+ "}".

Definition correlate (s : Correlation) (c : Candidate) : Correlation :=
  match consumers c (co_reqs s) with
  | [] => s
  | js =>
      let '(name, used) := var_name (cd_key c) (co_used s) in
      let reqs := alter (push_extract (ExClassic (ExJsonpath name (cd_jsonpath c) None None))) (cd_producer c) (co_reqs s) in
      let reqs := foldl (fun reqs j => alter (raw_replace (cd_value c) (reference name)) j reqs) reqs js in
      mkCorrelation reqs used (S (co_correlated s))
        (co_warnings s ++
         [mkWarning ("request #" +:+ nat_to_string (S (cd_producer c)))
            ("auto-correlated `" +:+ name +:+ "` (" +:+ cd_jsonpath c +:+ " from the response) into " +:+ nat_to_string (length js)
             +:+ " later request(s) — review it")])
  end.
Definition correlate_all (reqs : list RawReq) : Correlation :=
  foldl correlate (mkCorrelation reqs ∅ 0 []) (candidates_from 0 reqs ∅).

(** ** The plan *)

Definition body_of (r : RawReq) : option Body :=
  (fun t => if rw_body_is_json r then
              match from_json t with Ok json => BodyOf (mkBodySpec (Some json) None None None) | Err _ => BodyText t end
            else BodyText t) <$> rw_body_text r.

Definition recorded_step (r : RawReq) : Step :=
  let d := RequestStep_default in
  let path := first_of (rw_url r) "?" in
  StRequest (mkRequestStep (Some (rw_method r +:+ " " +:+ path)) (rq_protocol d) (Some (rw_method r)) (rw_url r)
               (foldl (fun m kv => index_insert kv.1 kv.2 m) [] (rw_headers r)) (rq_params d) (body_of r) (rq_timeout d)
               (rq_follow_redirects d) (rq_tags d) (rw_extract r) (rq_assert d) (rq_checks d) (rq_ws d) (rq_grpc d) (rq_graphql d)
               (rq_socket d) (rq_sse d) (rq_sql d) (rq_plugin d)).

Definition recorded_plan (base_url : option string) (reqs : list RawReq) : TestPlan :=
  let http := HttpDefaults_default in
  mkTestPlan (Some "recorded session")
    (Some "Imported from a HAR recording by `loadr convert`. Review correlations and set real load.")
    (mkPlanDefaults (mkHttpDefaults base_url (hd_headers http) (hd_timeout http) (hd_follow_redirects http) (hd_max_redirects http)
                       (hd_cookies http)) [] None)
    None TlsConfig_default [] [] [] [] None
    [("recorded", mkPlanScenario (mkScenario KConstantVus (Some 1) (Some (Duration_from_secs 60)) None None [] None None None None None None None None None)
                    (ScenarioPlan_of (recorded_step <$> reqs)))] [] [] [] [].

Definition har_warnings (skipped_static correlated : nat) (warnings : list ConversionWarning) : list ConversionWarning :=
  (if Nat.ltb 0 skipped_static then
     [mkWarning "static assets" ("skipped " +:+ nat_to_string skipped_static +:+ " static-asset request(s) (images, CSS, JS, fonts)")]
   else [])
  ++ warnings
  ++ [mkWarning "scenario `recorded`" "defaulted to constant-vus 1 VU for 60s — set real vus/duration/executor before load testing"]
  ++ (if Nat.eqb correlated 0 then
        [mkWarning "correlation" "no dynamic values were auto-correlated (no JSON response value was reused in a later request)"]
      else []).

Definition convert_har (source : string) : result string Conversion :=
  match from_json source with
  | Err e => Err ("not valid JSON: " +:+ e)
  | Ok root =>
      match field (field (Some root) "log") "entries" with
      | Some (Array entries) =>
          let d := read_entries entries in
          match rd_reqs d with
          | [] => Err "no non-static HTTP requests found in the HAR"
          | reqs =>
              let base_url := most_common (origins (rd_origins d)) in
              let s := correlate_all (relativise base_url <$> reqs) in
              Ok (mkConversion (recorded_plan base_url (co_reqs s)) (har_warnings (rd_skipped_static d) (co_correlated s) (co_warnings s)))
          end
      | _ => Err "missing `log.entries` (not a HAR file?)"
      end
  end.
End Har.

(** ** The names of extracted values *)

(** The names tried, in order. *)
Definition tried (base : string) (i : nat) : string := match i with O => base | S i => numbered base (i + 2) end.

Lemma numbered_longer base n : numbered base n <> base.
Proof.
  intros He. apply (f_equal chars) in He. unfold numbered in He. rewrite !chars_app in He.
  apply (f_equal length) in He. rewrite !length_app in He. simpl in He. lia.
Qed.
#[local] Instance tried_inj base : Inj (=) (=) (tried base).
Proof.
  intros [|i] [|j]; simpl; [done|intros He; by apply eq_sym, numbered_longer in He|intros He; by apply numbered_longer in He|].
  intros He. apply (f_equal chars) in He. unfold numbered in He. rewrite !chars_app in He. apply app_inv_head, app_inv_head, chars_inj in He.
  unfold nat_to_string, Z_to_string in He. apply (inj pretty.pretty) in He. lia.
Qed.

Lemma free_name_used fuel base i used k :
  free_name fuel base (tried base i) (i + 2) used ∈ used -> (k <= fuel)%nat -> tried base (i + k) ∈ used.
Proof.
  revert i k. induction fuel as [|fuel IH]; intros i k; simpl.
  - intros Hu Hk. by replace (i + k)%nat with i by lia.
  - destruct (bool_decide_reflect (tried base i ∈ used)) as [Hu|Hu]; [|done].
    intros Hf Hk. destruct k as [|k]; [by rewrite Nat.add_0_r|].
    replace (i + S k)%nat with (S i + k)%nat by lia. apply IH; [exact Hf|lia].
Qed.

(** The name of a value is new: the loop over the names tried finds one within as many turns as there are names taken. *)
Theorem var_name_fresh key used : let '(name, used') := var_name key used in name ∉ used /\ used' = {[name]} ∪ used.
Proof.
  unfold var_name. split; [|done]. intros Hu.
  assert (list_to_set (tried (base_name key) <$> seq 0 (S (size used))) ⊆ used) as Hsub.
  { intros x. rewrite elem_of_list_to_set. intros (k & -> & Hk%elem_of_seq)%list_elem_of_fmap.
    apply (free_name_used (size used) _ 0 used k Hu). lia. }
  apply subseteq_size in Hsub. rewrite size_list_to_set in Hsub; [rewrite length_fmap, length_seq in Hsub; lia|].
  apply NoDup_fmap_2; [apply tried_inj|apply NoDup_seq].
Qed.

(** Names are made of small letters, digits and [_]. *)
Definition name_ok (c : ascii) : Prop := is_lower c = true \/ is_digit c = true \/ c = "_"%char.
Lemma name_char_ok c : name_ok (name_char c).
Proof. unfold name_ok. destruct c as [[] [] [] [] [] [] [] []]; vm_compute; tauto. Qed.

(** ** Correlating loses nothing *)

Lemma pretty_N_char_digit x : is_digit (pretty.pretty_N_char x) = true.
Proof. unfold pretty.pretty_N_char. by repeat case_match. Qed.
Lemma pretty_N_go_digits x s : Forall (fun c => is_digit c = true) (chars s) -> Forall (fun c => is_digit c = true) (chars (pretty.pretty_N_go x s)).
Proof.
  revert s. induction (N.lt_wf_0 x) as [x _ IH]. intros s Hs. destruct (decide (0 < x)%N) as [Hx|Hx].
  - rewrite pretty.pretty_N_go_step by done. apply IH; [by apply N.div_lt|]. constructor; [apply pretty_N_char_digit|done].
  - replace x with 0%N by lia. by rewrite pretty.pretty_N_go_0.
Qed.
Lemma nat_digits n : Forall (fun c => is_digit c = true) (chars (nat_to_string n)).
Proof.
  unfold nat_to_string, Z_to_string. destruct (Z.of_nat n) as [|p|p] eqn:Hz; [by repeat constructor| |lia].
  change (pretty.pretty (Z.pos p)) with (pretty.pretty (N.pos p)). unfold pretty.pretty, pretty.pretty_N. simpl. apply pretty_N_go_digits. constructor.
Qed.

Ltac name_literal := repeat (apply Forall_cons_2; [unfold name_ok; vm_compute; tauto|]); apply Forall_nil_2.

Lemma replace_fuel_forall (P : ascii -> Prop) fuel s from to_ : Forall P s -> Forall P to_ -> Forall P (replace_fuel fuel s from to_).
Proof.
  intros Hs Ht. revert s Hs. induction fuel as [|fuel IH]; intros s Hs; [done|]. simpl. destruct (find_l s from) as [i|]; [|done].
  repeat apply Forall_app_2; [by apply Forall_take|done|]. apply IH. by apply Forall_drop.
Qed.
Lemma drop_while_forall (P : ascii -> Prop) c l : Forall P l -> Forall P (drop_while c l).
Proof. induction 1 as [|a l Ha Hl IH]; [constructor|]. simpl. destruct (Ascii.eqb a c); [done|by constructor]. Qed.
Lemma trim_matches_forall (P : ascii -> Prop) c l : Forall P l -> Forall P (trim_matches c l).
Proof. intros Hl. unfold trim_matches. by repeat (apply Forall_reverse, drop_while_forall || apply drop_while_forall). Qed.
Lemma trim_underscores_ok s : Forall name_ok (chars s) -> Forall name_ok (chars (trim_underscores s)).
Proof. intros Hs. unfold trim_underscores. rewrite chars_of_chars. by apply trim_matches_forall. Qed.
Lemma squeeze_ok fuel s : Forall name_ok (chars s) -> Forall name_ok (chars (squeeze fuel s)).
Proof.
  revert s. induction fuel as [|fuel IH]; intros s Hs; [done|]. simpl. destruct (str_contains s "__"); [|done]. apply IH.
  change (str_replace s "__" "_") with (of_chars (replace_fuel (S (length (chars s))) (chars s) (chars "__") (chars "_"))).
  rewrite chars_of_chars. apply replace_fuel_forall; [done|]. name_literal.
Qed.

Lemma base_name_ok key : Forall name_ok (chars (base_name key)) /\ base_name key <> "".
Proof.
  unfold base_name. set (s := of_chars ((fun c => match c with [a] => name_char a | _ => "_"%char end) <$> str_chars key)).
  assert (Forall name_ok (chars s)) as Hs.
  { subst s. rewrite chars_of_chars. apply Forall_fmap, Forall_forall. intros c _. simpl.
    destruct c as [|a [|]]; [by right; right|apply name_char_ok|by right; right]. }
  clearbody s. set (base := trim_underscores (squeeze (str_len s) s)).
  assert (Forall name_ok (chars base)) as Hb by by apply trim_underscores_ok, squeeze_ok. clearbody base.
  set (named := match chars base with c :: _ => if is_lower c then base else _ | [] => _ end).
  assert (Forall name_ok (chars named)) as Hn.
  { assert (Forall name_ok (chars (trim_underscores ("v_" +:+ base)))) as Hv.
    { apply trim_underscores_ok. rewrite chars_app. apply Forall_app_2; [|done]. name_literal. }
    subst named. destruct (chars base) as [|c l] eqn:Hc; [exact Hv|]. destruct (is_lower c); [by rewrite Hc|exact Hv]. }
  cbv zeta. fold named. unfold str_is_empty. destruct (bool_decide_reflect (named = "")) as [He|He]; [|done].
  split; [name_literal|done].
Qed.

Lemma free_name_ok fuel base i used :
  Forall name_ok (chars base) -> base <> "" ->
  Forall name_ok (chars (free_name fuel base (tried base i) (i + 2) used)) /\ free_name fuel base (tried base i) (i + 2) used <> "".
Proof.
  intros Hb Hne. revert i. assert (forall i, Forall name_ok (chars (tried base i)) /\ tried base i <> "") as Ht.
  { intros [|i]; [done|]. simpl. unfold numbered. split.
    - rewrite !chars_app. repeat apply Forall_app_2; [done|name_literal|].
      eapply Forall_impl; [apply nat_digits|]. intros c Hc. by right; left.
    - intros He. apply (f_equal chars) in He. rewrite !chars_app in He. by destruct (chars base). }
  induction fuel as [|fuel IH]; intros i; [apply Ht|]. simpl. case_bool_decide; [apply (IH (S i))|apply Ht].
Qed.

Lemma var_name_ok key used : let name := (var_name key used).1 in Forall name_ok (chars name) /\ name <> "".
Proof. destruct (base_name_ok key) as [Hb Hne]. exact (free_name_ok (size used) (base_name key) 0 used Hb Hne). Qed.

Lemma name_ok_visible c : name_ok c -> visible c = true /\ c <> "{"%char /\ c <> "}"%char.
Proof.
  unfold name_ok, is_lower, is_digit, visible. rewrite !andb_true_iff, !N.leb_le, !N.ltb_lt.
  intros [Hc|[Hc| ->]]; [split; [lia|]; split; intros ->; simpl in Hc; lia..|done].
Qed.
Lemma name_piece_ok name : Forall name_ok (chars name) -> name <> "" -> piece_ok (Ref name).
Proof.
  intros Hn Hne. simpl. split; [|split].
  - induction Hn as [|c l Hc _ IH]; [done|]. simpl. destruct (name_ok_visible c Hc) as (_ & Ho & Hcl).
    by destruct (Ascii.eqb_spec c "{"), (Ascii.eqb_spec c "}").
  - apply trim_chars. apply trim_visible; intros c Hc; apply name_ok_visible; rewrite Forall_forall in Hn; apply Hn.
    + destruct (chars name); [done|]. injection Hc as ->. by left.
    + by apply last_Some_elem_of.
  - by apply chars_nonempty.
Qed.

(** The pieces of a text in which a value became a reference. *)
Fixpoint replaced_pieces (fuel : nat) (s from : list ascii) (name : string) : list Piece :=
  match fuel with
  | O => Char <$> s
  | S fuel =>
      match find_l s from with
      | Some i => (Char <$> take i s) ++ Ref name :: replaced_pieces fuel (drop (i + length from) s) from name
      | None => Char <$> s
      end
  end.
Lemma chars_pieces_text (l : list ascii) : concat (piece_text <$> (Char <$> l)) = l.
Proof. induction l as [|c l IH]; [done|]. rewrite !fmap_cons, concat_cons, IH. done. Qed.
Lemma chars_pieces_value value (l : list ascii) : concat (piece_value value <$> (Char <$> l)) = l.
Proof. induction l as [|c l IH]; [done|]. rewrite !fmap_cons, concat_cons, IH. done. Qed.

Lemma replaced_text fuel s from name :
  replace_fuel fuel s from (chars (reference name)) = concat (piece_text <$> replaced_pieces fuel s from name).
Proof.
  revert s. induction fuel as [|fuel IH]; intros s; simpl; [by rewrite chars_pieces_text|].
  destruct (find_l s from) as [i|]; [|by rewrite chars_pieces_text].
  rewrite fmap_app, concat_app, chars_pieces_text, (fmap_cons piece_text (Ref name)), concat_cons, <- IH. f_equal. f_equal.
  unfold reference. rewrite !chars_app. done.
Qed.
Lemma replaced_value fuel s from name value :
  chars (value name) = from -> concat (piece_value value <$> replaced_pieces fuel s from name) = s.
Proof.
  intros Hv. revert s. induction fuel as [|fuel IH]; intros s; simpl; [apply chars_pieces_value|].
  destruct (find_l s from) as [i|] eqn:Hf; [|apply chars_pieces_value].
  rewrite fmap_app, concat_app, chars_pieces_value, (fmap_cons (piece_value value) (Ref name)), concat_cons, IH. simpl piece_value. rewrite Hv.
  apply find_l_Some in Hf as ((r & Hr) & Hle & _). assert (drop (i + length from) s = r) as ->; [|by rewrite <- Hr].
  apply (f_equal (drop (i + length from))) in Hr. rewrite Hr.
  rewrite drop_app_add' by (rewrite length_take; lia). apply drop_app_length.
Qed.
Lemma replaced_ok fuel s from name :
  Forall (fun c => c <> "$"%char /\ (N_of_ascii c < 128)%N) s -> piece_ok (Ref name) -> Forall piece_ok (replaced_pieces fuel s from name).
Proof.
  intros Hs Hn. revert s Hs. assert (forall l, Forall (fun c => c <> "$"%char /\ (N_of_ascii c < 128)%N) l -> Forall piece_ok (Char <$> l)) as Hc
    by (intros l Hl; by apply Forall_fmap).
  induction fuel as [|fuel IH]; intros s Hs; simpl; [by apply Hc|]. destruct (find_l s from) as [i|]; [|by apply Hc].
  apply Forall_app_2; [by apply Hc, Forall_take|]. constructor; [done|]. apply IH. by apply Forall_drop.
Qed.

(** Correlating a value loses nothing.  When a value of a response is replaced in a text by a reference to the variable
    [var_name] makes for it, the text is a template, and rendering it with the recorded value for that variable gives back the
    recorded text: every occurrence was replaced, nothing else was, and the reference reads as one whatever the key was. *)
Theorem correlation_lossless (key value text : string) (used : gset string) :
  value <> "" -> Forall (fun c => c <> "$"%char /\ (N_of_ascii c < 128)%N) (chars text) ->
  let name := (var_name key used).1 in
  exists t, Template_parse (str_replace text value (reference name)) = Ok t
    /\ render (fun e (u : unit) => (Some (if bool_decide (e = name) then value else ""), u)) t tt = (Ok text, tt).
Proof.
  intros Hv Ht name. destruct (var_name_ok key used) as [Hok Hne].
  pose (pieces := replaced_pieces (S (length (chars text))) (chars text) (chars value) name).
  destruct (pieces_render (str_replace text value (reference name)) pieces (fun e => if bool_decide (e = name) then value else "")) as (t & Hp & Hr).
  - unfold str_replace, str_is_empty. rewrite bool_decide_eq_false_2 by done. rewrite chars_of_chars. apply replaced_text.
  - apply replaced_ok; [done|]. by apply name_piece_ok.
  - exists t. split; [done|]. rewrite Hr. subst pieces. rewrite replaced_value; [by rewrite of_chars_chars|].
    by rewrite bool_decide_eq_true_2.
Qed.

Module HarDemo.
Import ExtractDemo.
Definition none_match (_ _ : string) : bool := false.
Definition answered (url : string) (response : option Value) : RawReq := mkRawReq "GET" url [] None false response [].
Definition correlated (reqs : list RawReq) : list string := rw_url <$> co_reqs (correlate_all none_match reqs).

Example a_token_is_carried :
  correlated [answered "/login" (Some (Object [("csrfToken", Text "abcd1234")])); answered "/next?t=abcd1234" None]
  = ["/login"; "/next?t=${csrftoken}"].
Proof. vm_compute. done. Qed.

(** A value that occurs in the name of another one breaks the reference to it. *)
Example a_reference_is_broken :
  correlated [answered "/login" (Some (Object [("csrf_token", Text "abcd1234"); ("id", Text "toke")])); answered "/next?t=abcd1234" None]
  = ["/login"; "/next?t=${csrf_${id}n}"].
Proof. vm_compute. done. Qed.

(** A key with a dot is read as two. *)
Example a_dotted_key : collect_candidates none_match (Object [("user.id", Text "u-123")]) "$" "" = [("$.user.id", "u-123", "user.id")].
Proof. vm_compute. done. Qed.

(** The base of a session with two equally common origins is that of the order of a hash map. *)
Example base_of_a_tie : most_common [("https://a", 1%nat); ("https://b", 1%nat)] <> most_common [("https://b", 1%nat); ("https://a", 1%nat)].
Proof. vm_compute. done. Qed.

Example names : (var_name "CSRF-Token" ∅).1 = "csrf_token" /\ (var_name "9" {["v_9"]}).1 = "v_9_2" /\ (var_name "__" ∅).1 = "v".
Proof. vm_compute. done. Qed.

Lemma correlation_lossless_witness :
  str_replace "/a/42x/b?id=42x" "42x" (reference (var_name "id" ∅).1) = "/a/${id}/b?id=${id}"
  /\ exists t, Template_parse "/a/${id}/b?id=${id}" = Ok t
       /\ render (fun e (u : unit) => (Some (if bool_decide (e = "id") then "42x" else ""), u)) t tt = (Ok "/a/42x/b?id=42x", tt).
Proof.
  split; [vm_compute; reflexivity|].
  assert (Forall (fun c => c <> "$"%char /\ (N_of_ascii c < 128)%N) (chars "/a/42x/b?id=42x")) as Ht.
  { repeat (apply Forall_cons_2; [split; [discriminate|vm_compute; reflexivity]|]). apply Forall_nil_2. }
  exact (correlation_lossless "id" "42x" "/a/42x/b?id=42x" ∅ ltac:(discriminate) Ht).
Defined.
End HarDemo.
