(* ===== verification/K6Lex.v ===== *)
(** * Reading k6 scripts (crates/loadr-convert/src/k6.rs, its source utilities)

    The importer of k6 scripts has no JavaScript engine: it looks at the text.  Here are the pieces it looks with: comments,
    matching brackets, top-level commas and colons, string literals, and object literals made JSON. *)

From Stdlib Require Import Ascii.
From S2P Require Import Prelude Str Dur Value Template Protocol Extract Interp Prepare Diagnostics.

Definition quote1 : ascii := byte_at 39.
Definition quote2 : ascii := byte_at 34.
Definition backtick : ascii := byte_at 96.
Definition backslash : ascii := byte_at 92.
Definition is_quote (c : ascii) : bool := Ascii.eqb c quote1 || Ascii.eqb c quote2 || Ascii.eqb c backtick.

(** [c as char] of a byte, in a [String]. *)
Definition byte_as_char (c : ascii) : list ascii :=
  let n := N_of_ascii c in
  if N.ltb n 128 then [c] else [byte_at (192 + N.shiftr n 6); byte_at (128 + N.land n 63)].

(** ** Comments *)

Fixpoint skip_line (s : list ascii) : list ascii :=
  match s with
  | [] => []
  | c :: s' => if Ascii.eqb c newline then s else skip_line s'
  end.
Fixpoint skip_block (s : list ascii) : list ascii :=
  match s with
  | "*"%char :: "/"%char :: s' => s'
  | _ :: s' => skip_block s'
  | [] => []
  end.

Fixpoint strip_fuel (fuel : nat) (quote : option ascii) (s : list ascii) : list ascii :=
  match fuel, s with
  | _, [] | O, _ => []
  | S fuel, c :: s' =>
      match quote with
      | Some q =>
          byte_as_char c ++
          (if Ascii.eqb c backslash then
             match s' with
             | d :: s'' => byte_as_char d ++ strip_fuel fuel quote s''
             | [] => strip_fuel fuel (if Ascii.eqb c q then None else quote) s'
             end
           else strip_fuel fuel (if Ascii.eqb c q then None else quote) s')
      | None =>
          if is_quote c then c :: strip_fuel fuel (Some c) s'
          else match c, s' with
               | "/"%char, "/"%char :: _ => strip_fuel fuel None (skip_line s)
               | "/"%char, "*"%char :: s'' => strip_fuel fuel None (skip_block s'')
               | _, _ => let n := utf8_len c in take n s ++ strip_fuel fuel None (drop n s)
               end
      end
  end.
Definition strip_comments (src : string) : string := of_chars (strip_fuel (length (chars src)) None (chars src)).

Definition stripped_script (original : string) : string :=
  "// Converted from a k6 script by loadr-convert." +:+ of_chars [newline]
  +:+ "// k6 imports were removed: `http`, `check`, `sleep` and `group` are" +:+ of_chars [newline]
  +:+ "// provided as loadr globals. Review before running." +:+ of_chars [newline]
  +:+ of_chars (concat ((fun line =>
        let trimmed := of_chars (trim_start_l line) in
        if starts_with trimmed "import "
           && (str_contains trimmed (of_chars (quote1 :: chars "k6")) || str_contains trimmed (of_chars (quote2 :: chars "k6")))
        then [] else line ++ [newline]) <$> str_lines original)).

(** ** Brackets, commas, colons *)

(** One byte of text with string literals: the quote it leaves open, and how many bytes it takes. *)
Definition in_quote (q c : ascii) (s : list ascii) : option ascii * list ascii :=
  if Ascii.eqb c backslash then (Some q, drop 1 s) else (if Ascii.eqb c q then None else Some q, s).

Definition closer_of (open_ : ascii) : option ascii :=
  if Ascii.eqb open_ "(" then Some ")"%char else if Ascii.eqb open_ "{" then Some "}"%char
  else if Ascii.eqb open_ "[" then Some "]"%char else None.

(** The loop of [match_delim] from offset [i]; what is left of the text is [s]. *)
Fixpoint match_from (fuel : nat) (open_ close_ : ascii) (depth : nat) (quote : option ascii) (i : nat) (s : list ascii) : option nat :=
  match fuel, s with
  | _, [] | O, _ => None
  | S fuel, c :: s' =>
      match quote with
      | Some q => let '(quote, rest) := in_quote q c s' in match_from fuel open_ close_ depth quote (i + (length s - length rest)) rest
      | None =>
          if is_quote c then match_from fuel open_ close_ depth (Some c) (S i) s'
          else if Ascii.eqb c open_ then match_from fuel open_ close_ (S depth) None (S i) s'
          else if Ascii.eqb c close_ then
            if Nat.eqb depth 1 then Some i else match_from fuel open_ close_ (depth - 1) None (S i) s'
          else match_from fuel open_ close_ depth None (S i) s'
      end
  end.
Definition match_delim (s : string) (open_ : nat) : option nat :=
  open_ch ← chars s !! open_;
  close_ch ← closer_of open_ch;
  match_from (str_len s) open_ch close_ch 0 None open_ (drop open_ (chars s)).

Definition opens (c : ascii) : bool := bool_decide (c ∈ ["("; "{"; "["]%char).
Definition closes (c : ascii) : bool := bool_decide (c ∈ [")"; "}"; "]"]%char).

(** The text up to the first [sep] outside of strings and brackets, reversed after [acc], and what follows it. *)
Fixpoint top_level (fuel : nat) (sep : ascii) (depth : Z) (quote : option ascii) (s acc : list ascii) : option (list ascii * list ascii) :=
  match fuel, s with
  | _, [] | O, _ => None
  | S fuel, c :: s' =>
      match quote with
      | Some q =>
          let '(quote, rest) := in_quote q c s' in
          top_level fuel sep depth quote rest (reverse (take (length s - length rest) s) ++ acc)
      | None =>
          if is_quote c then top_level fuel sep depth (Some c) s' (c :: acc)
          else if opens c then top_level fuel sep (depth + 1) None s' (c :: acc)
          else if closes c then top_level fuel sep (depth - 1) None s' (c :: acc)
          else if Ascii.eqb c sep && Z.eqb depth 0 then Some (reverse acc, s')
          else top_level fuel sep depth None s' (c :: acc)
      end
  end.

Fixpoint split_args (fuel : nat) (s : list ascii) : list string :=
  let last_ := of_chars (trim_l s) in
  match fuel with
  | O => []
  | S fuel =>
      match top_level (length s) "," 0 None s [] with
      | Some (arg, rest) => of_chars (trim_l arg) :: split_args fuel rest
      | None => if str_is_empty last_ then [] else [last_]
      end
  end.
Definition split_top_level_args (s : string) : list string := split_args (S (str_len s)) (chars s).

(** ** String literals *)

Definition unescaped (c : ascii) : ascii :=
  if Ascii.eqb c "n" then newline else if Ascii.eqb c "t" then byte_at 9 else if Ascii.eqb c "r" then byte_at 13 else c.

(** The inside of a literal; an unescaped quote makes it an expression. *)
Fixpoint literal_inner (first : ascii) (s : list ascii) : option (list ascii) :=
  match s with
  | [] => Some []
  | c :: s' =>
      if Ascii.eqb c backslash then
        match s' with d :: s'' => cons (unescaped d) <$> literal_inner first s'' | [] => None end
      else if Ascii.eqb c first then None
      else cons c <$> literal_inner first s'
  end.
Definition string_literal (text : string) : option string :=
  let s := trim_l (chars text) in
  first ← head s;
  if negb (is_quote first) || Nat.ltb (length s) 2 || negb (bool_decide (last s = Some first)) then None
  else of_chars <$> literal_inner first (take (length s - 2) (drop 1 s)).

Definition split_key_value (entry : string) : option (string * string) :=
  '(key, value) ← top_level (str_len entry) ":" 0 None (chars entry) [];
  let raw_key := of_chars (trim_l key) in
  Some (default raw_key (string_literal raw_key), of_chars (trim_l value)).

(** The quote a prefix leaves open. *)
Fixpoint open_quote (quote : option ascii) (s : list ascii) : option ascii :=
  match s with
  | [] => quote
  | c :: s' =>
      match quote with
      | Some q => if Ascii.eqb c backslash then match s' with _ :: s'' => open_quote quote s'' | [] => quote end
                  else open_quote (if Ascii.eqb c q then None else quote) s'
      | None => open_quote (if is_quote c then Some c else None) s'
      end
  end.
Definition inside_string (prefix : string) : bool := bool_decide (is_Some (open_quote None (chars prefix))).

Definition k6_url_path (url : string) : string :=
  let rest := match str_find url "://" with Some i => slice_from url (i + 3) | None => url end in
  let path := match str_find rest "/" with Some i => slice_from rest i | None => "/" end in
  let path := default path (head (str_split path "?")) in
  if str_is_empty path then "/" else path.

(** ** Object literals *)

Section Tokens.
Context `{JsonText}.
(** [char::is_alphabetic], [char::is_alphanumeric]. *)
Context (is_alphabetic is_alphanumeric : list ascii -> bool).

Definition json_string (s : string) : string := to_json (Text s).

(** From after the opening quote: the value, and what follows the closing one. *)
Fixpoint read_js_string (quote : ascii) (s : list (list ascii)) : result string (list ascii * list (list ascii)) :=
  match s with
  | [] => Err "unterminated string literal"
  | c :: s' =>
      if bool_decide (c = [backslash]) then
        match s' with
        | [] => Err "dangling escape in string"
        | d :: s'' =>
            let? (value, rest) := read_js_string quote s'' in
            Ok (match d with [a] => [unescaped a] | _ => d end ++ value, rest)
        end
      else if bool_decide (c = [quote]) then Ok ([], s')
      else let? (value, rest) := read_js_string quote s' in Ok (c ++ value, rest)
  end.

Fixpoint span_while (p : list ascii -> bool) (s : list (list ascii)) : list (list ascii) * list (list ascii) :=
  match s with
  | c :: s' => if p c then let '(a, b) := span_while p s' in (c :: a, b) else ([], s)
  | [] => ([], [])
  end.

Definition is_char (l : list ascii) (c : list ascii) : bool := match c with [a] => bool_decide (a ∈ l) | _ => false end.
Definition digit_or (l : list ascii) (c : list ascii) : bool := match c with [a] => is_digit a || bool_decide (a ∈ l) | _ => false end.

Definition identifier_token (ident : string) (is_key : bool) : string :=
  if bool_decide (ident ∈ ["true"; "false"; "null"]) && negb is_key then ident
  else match strip_prefix ident "__ENV." with
       | Some rest => json_string ("${env." +:+ rest +:+ "}")
       | None => json_string (if is_key then ident else "${" +:+ ident +:+ "}")
       end.

Fixpoint tokenize (fuel : nat) (s : list (list ascii)) : result string (list string) :=
  match fuel, s with
  | _, [] | O, _ => Ok []
  | S fuel, c :: s' =>
      if is_whitespace_char c then tokenize fuel s'
      else if is_char ["{"; "}"; "["; "]"; ":"; ","]%char c then
        let? toks := tokenize fuel s' in Ok (of_chars c :: toks)
      else if is_char [quote1; quote2; backtick] c then
        let? (value, rest) := read_js_string (default quote1 (head c)) s' in
        let? toks := tokenize fuel rest in
        Ok (json_string (str_replace (of_chars value) "${__ENV." "${env.") :: toks)
      else if digit_or ["-"; "+"; "."]%char c then
        let '(number, rest) := span_while (digit_or ["."; "e"; "E"; "+"; "-"]%char) s' in
        let? toks := tokenize fuel rest in
        Ok (of_chars (concat (c :: number)) :: toks)
      else if is_alphabetic c || is_char ["_"; "$"]%char c then
        let '(ident, rest) := span_while (fun c => is_alphanumeric c || is_char ["_"; "$"; "."]%char c) s in
        let is_key := bool_decide (head (span_while is_whitespace_char rest).2 = Some [":"%char]) in
        let? toks := tokenize fuel rest in
        Ok (identifier_token (of_chars (concat ident)) is_key :: toks)
      else Err ("unexpected `" +:+ of_chars c +:+ "` in object literal")
  end.
Definition tokenize_js_value (src : string) : result string (list string) := tokenize (str_len src) (str_chars src).

(** A comma before a closing bracket, or at the end, is dropped. *)
Fixpoint join_tokens (toks : list string) : string :=
  match toks with
  | [] => ""
  | tok :: rest =>
      if bool_decide (tok = ",")
         && match rest with next :: _ => bool_decide (next = "}") || bool_decide (next = "]") | [] => true end
      then join_tokens rest
      else tok +:+ join_tokens rest
  end.
Definition js_object_to_json (src : string) : result string Value :=
  let? toks := tokenize_js_value src in from_json (join_tokens toks).

(** ** What a literal says *)

(** A value written between quotes. *)
Fixpoint escape_js (quote : ascii) (v : list ascii) : list ascii :=
  match v with
  | [] => []
  | c :: v' =>
      (if Ascii.eqb c newline then [backslash; "n"%char] else if Ascii.eqb c quote || Ascii.eqb c backslash then [backslash; c] else [c])
      ++ escape_js quote v'
  end.
Definition js_literal (quote : ascii) (v : list ascii) : list ascii := quote :: escape_js quote v ++ [quote].

Definition escapable (quote : ascii) : Prop := is_quote quote = true.
Lemma escapable_ne quote : escapable quote -> quote <> backslash /\ unescaped quote = quote /\ quote <> newline /\ Ascii.eqb quote backslash = false.
Proof.
  unfold escapable, is_quote. rewrite !orb_true_iff. intros [[H'|H']|H']; apply Ascii.eqb_eq in H' as ->; vm_compute; repeat split; discriminate.
Qed.

Lemma literal_inner_escape quote v : escapable quote -> literal_inner quote (escape_js quote v) = Some v.
Proof.
  intros Hq. destruct (escapable_ne quote Hq) as (Hne & Hun & Hnl & Hqb). induction v as [|c v IH]; [done|]. cbn [escape_js].
  destruct (Ascii.eqb_spec c newline) as [->|Hc].
  - cbn [app literal_inner]. rewrite Ascii.eqb_refl, IH. done.
  - destruct (Ascii.eqb_spec c quote) as [->|Hcq]; [cbn [orb app literal_inner]; rewrite Ascii.eqb_refl, IH, Hun; done|]. cbn [orb].
    destruct (Ascii.eqb_spec c backslash) as [->|Hcb]; [cbn [app literal_inner]; rewrite Ascii.eqb_refl, IH; done|].
    cbn [app literal_inner]. rewrite (proj2 (Ascii.eqb_neq c backslash)), (proj2 (Ascii.eqb_neq c quote)) by done. by rewrite IH.
Qed.

Lemma read_js_string_escape quote v rest :
  escapable quote ->
  read_js_string quote (map (fun c => [c]) (escape_js quote v ++ quote :: rest)) = Ok (v, map (fun c => [c]) rest).
Proof.
  intros Hq. destruct (escapable_ne quote Hq) as (Hne & Hun & Hnl & Hqb).
  assert (bool_decide ([quote] = [backslash]) = false) as Hqn by (apply bool_decide_eq_false; congruence).
  assert (forall c, bool_decide ([c] = [c : ascii]) = true) as Hrefl by (intros c; by apply bool_decide_eq_true).
  induction v as [|c v IH]; [cbn [escape_js app map read_js_string]; by rewrite Hqn, Hrefl|].
  cbn [escape_js]. destruct (Ascii.eqb_spec c newline) as [->|Hc].
  - cbn [app map read_js_string]. rewrite Hrefl. rewrite IH. done.
  - destruct (Ascii.eqb_spec c quote) as [->|Hcq]; [cbn [orb app map read_js_string]; rewrite Hrefl, IH, Hun; done|]. cbn [orb].
    destruct (Ascii.eqb_spec c backslash) as [->|Hcb]; [cbn [app map read_js_string]; rewrite Hrefl, IH; done|].
    cbn [app map read_js_string].
    rewrite (bool_decide_eq_false_2 ([c] = [backslash])), (bool_decide_eq_false_2 ([c] = [quote])) by congruence. by rewrite IH.
Qed.
End Tokens.

(** ** What the importer reads is what was written *)

Lemma escape_open quote v s : escapable quote -> open_quote (Some quote) (escape_js quote v ++ quote :: s) = open_quote None s.
Proof.
  intros Hq. destruct (escapable_ne quote Hq) as (Hne & _ & _ & Hqb). induction v as [|c v IH].
  - cbn [escape_js app open_quote]. by rewrite Hqb, Ascii.eqb_refl.
  - cbn [escape_js]. destruct (Ascii.eqb_spec c newline) as [->|Hc]; [cbn [app open_quote]; by rewrite Ascii.eqb_refl|].
    destruct (Ascii.eqb_spec c quote) as [->|Hcq]; [cbn [orb app open_quote]; by rewrite Ascii.eqb_refl|]. cbn [orb].
    destruct (Ascii.eqb_spec c backslash) as [->|Hcb]; [cbn [app open_quote]; by rewrite Ascii.eqb_refl|].
    cbn [app open_quote]. by rewrite (proj2 (Ascii.eqb_neq c backslash)), (proj2 (Ascii.eqb_neq c quote)).
Qed.

Lemma quote_visible quote : escapable quote -> visible quote = true.
Proof.
  unfold escapable, is_quote. rewrite !orb_true_iff. intros [[H'|H']|H']; apply Ascii.eqb_eq in H' as ->; done.
Qed.

(** Every value comes back from a literal that was written for it, whichever quote it is written with: read as a literal of its
    own or in an object, and looked at from behind, where it leaves no quote open. *)
Theorem js_literal_roundtrip quote v rest :
  escapable quote ->
  string_literal (of_chars (js_literal quote v)) = Some (of_chars v)
  /\ read_js_string quote (map (fun c => [c]) (escape_js quote v ++ quote :: rest)) = Ok (v, map (fun c => [c]) rest)
  /\ open_quote None (js_literal quote v ++ rest) = open_quote None rest.
Proof.
  intros Hq. split; [|split; [by apply read_js_string_escape|]].
  - unfold string_literal. assert (trim_l (chars (of_chars (js_literal quote v))) = js_literal quote v) as ->.
    { rewrite <- (chars_of_chars (js_literal quote v)) at 2. apply trim_chars. apply trim_visible; rewrite chars_of_chars; intros c.
      - intros [= <-]. by apply quote_visible.
      - unfold js_literal. rewrite app_comm_cons, last_snoc. intros [= <-]. by apply quote_visible. }
    unfold js_literal. cbn [head mbind option_bind]. rewrite app_comm_cons, last_snoc, bool_decide_eq_true_2 by done.
    assert (is_quote quote = true) as -> by exact Hq. cbn [negb orb].
    rewrite length_app. cbn [length]. destruct (Nat.ltb_spec (S (length (escape_js quote v)) + 1) 2) as [Hl|_]; [lia|]. cbn [orb].
    cbn [app drop]. rewrite drop_0. replace (S (length (escape_js quote v)) + 1 - 2)%nat with (length (escape_js quote v)) by lia.
    rewrite take_app_length, literal_inner_escape by done. done.
  - unfold js_literal. cbn [app open_quote]. assert (is_quote quote = true) as -> by exact Hq. rewrite <- app_assoc. by apply escape_open.
Qed.

(** ** Comments are gone *)

(** No comment begins outside of a string literal. *)
Fixpoint clean (quote : option ascii) (s : list ascii) : Prop :=
  match s with
  | [] => True
  | c :: s' =>
      match quote with
      | Some q => if Ascii.eqb c backslash then match s' with _ :: s'' => clean quote s'' | [] => True end
                  else clean (if Ascii.eqb c q then None else quote) s'
      | None =>
          if is_quote c then clean (Some c) s'
          else (c = "/"%char -> head s' <> Some "/"%char /\ head s' <> Some "*"%char) /\ clean None s'
      end
  end.

Definition all_ascii (s : list ascii) : Prop := Forall (fun c => (N_of_ascii c < 128)%N) s.

Lemma byte_as_char_ascii c : (N_of_ascii c < 128)%N -> byte_as_char c = [c].
Proof. intros Hc. unfold byte_as_char. by rewrite (proj2 (N.ltb_lt _ _) Hc). Qed.
Lemma utf8_len_one c : (N_of_ascii c < 128)%N -> utf8_len c = 1%nat.
Proof. intros Hc. unfold utf8_len. by rewrite (proj2 (N.ltb_lt _ _) Hc). Qed.

Lemma skip_line_spec (P : ascii -> Prop) s : Forall P s -> Forall P (skip_line s) /\ (length (skip_line s) <= length s)%nat.
Proof. induction 1 as [|c s Hc Hs [IH Hl]]; [done|]. simpl. destruct (Ascii.eqb c newline); simpl; [split; [by constructor|lia]|split; [done|lia]]. Qed.
Lemma skip_block_spec (P : ascii -> Prop) s : Forall P s -> Forall P (skip_block s) /\ (length (skip_block s) <= length s)%nat.
Proof.
  induction 1 as [|c s Hc Hs [IH Hl]]; [done|].
  assert (skip_block (c :: s) = skip_block s \/ exists s', s = "/"%char :: s' /\ skip_block (c :: s) = s') as [->|(s' & -> & ->)].
  { destruct (ascii_dec c "*") as [->|Hne].
    - destruct s as [|d s]; [by left|]. destruct (ascii_dec d "/") as [->|Hd]; [right; by eexists|left].
      destruct d as [[] [] [] [] [] [] [] []]; done.
    - left. destruct c as [[] [] [] [] [] [] [] []]; done. }
  - split; [done|simpl; lia].
  - inversion Hs; subst. split; [done|simpl; lia].
Qed.

(** What a turn outside of literals does. *)
Lemma strip_code fuel c s :
  is_quote c = false -> (N_of_ascii c < 128)%N ->
  (exists s', s = "/"%char :: s' /\ c = "/"%char /\ strip_fuel (S fuel) None (c :: s) = strip_fuel fuel None (skip_line (c :: s)))
  \/ (exists s', s = "*"%char :: s' /\ c = "/"%char /\ strip_fuel (S fuel) None (c :: s) = strip_fuel fuel None (skip_block s'))
  \/ (strip_fuel (S fuel) None (c :: s) = c :: strip_fuel fuel None s
      /\ (c = "/"%char -> head s <> Some "/"%char /\ head s <> Some "*"%char)).
Proof.
  intros Hq Ha. destruct (ascii_dec c "/") as [->|Hc].
  - destruct s as [|d s]; [right; right; by split|].
    destruct (ascii_dec d "/") as [->|Hd1]; [left; by eexists|]. destruct (ascii_dec d "*") as [->|Hd2]; [right; left; by eexists|].
    right; right. split; [|intros _; cbn [head]; split; intros [= He]; congruence].
    destruct d as [[] [] [] [] [] [] [] []]; done.
  - right; right. split; [|done].
    assert (strip_fuel (S fuel) None (c :: s) = take (utf8_len c) (c :: s) ++ strip_fuel fuel None (drop (utf8_len c) (c :: s))) as ->.
    { simpl. rewrite Hq. destruct c as [[] [] [] [] [] [] [] []]; done. }
    by rewrite utf8_len_one.
Qed.

Lemma strip_clean fuel quote s : all_ascii s -> clean quote s -> (length s <= fuel)%nat -> strip_fuel fuel quote s = s.
Proof.
  revert quote s. induction fuel as [|fuel IH]; intros quote [|c s] Ha Hc Hl; [done|simpl in Hl; lia|done|].
  apply Forall_cons in Ha as [Hac Has]. simpl in Hl. destruct quote as [q|].
  - cbn [strip_fuel clean] in *. rewrite byte_as_char_ascii by done. cbn [app]. f_equal. destruct (Ascii.eqb c backslash).
    + destruct s as [|d s]; [by destruct fuel|]. apply Forall_cons in Has as [Had Has]. rewrite byte_as_char_ascii by done. cbn [app].
      f_equal. apply IH; [done|done|simpl in Hl; lia].
    + apply IH; [done|done|lia].
  - cbn [clean] in Hc. destruct (is_quote c) eqn:Hq.
    + cbn [strip_fuel]. rewrite Hq. f_equal. apply IH; [done|done|lia].
    + destruct Hc as [Hn Hc]. destruct (strip_code fuel c s Hq Hac) as [(s' & -> & -> & _)|[(s' & -> & -> & _)|[-> _]]].
      * by destruct (Hn eq_refl).
      * by destruct (Hn eq_refl).
      * f_equal. apply IH; [done|done|lia].
Qed.

Lemma strip_head fuel s :
  all_ascii s -> head s <> Some "/"%char -> strip_fuel fuel None s = [] \/ head (strip_fuel fuel None s) = head s.
Proof.
  intros Ha Hh. destruct fuel as [|fuel], s as [|c s]; [by left..|]. right. apply Forall_cons in Ha as [Hac _].
  destruct (is_quote c) eqn:Hq; [cbn [strip_fuel]; by rewrite Hq|].
  destruct (strip_code fuel c s Hq Hac) as [(s' & -> & -> & _)|[(s' & -> & -> & _)|[-> _]]]; [by destruct Hh..|done].
Qed.

Lemma strip_is_clean fuel quote s : all_ascii s -> all_ascii (strip_fuel fuel quote s) /\ clean quote (strip_fuel fuel quote s).
Proof.
  revert quote s. induction fuel as [|fuel IH]; intros quote [|c s] Ha; [split; [constructor|done]..|].
  apply Forall_cons in Ha as [Hac Has]. destruct quote as [q|].
  - cbn [strip_fuel]. rewrite byte_as_char_ascii by done. cbn [app clean]. destruct (Ascii.eqb c backslash).
    + destruct s as [|d s].
      * assert (strip_fuel fuel (if Ascii.eqb c q then None else Some q) [] = []) as -> by by destruct fuel. by repeat constructor.
      * apply Forall_cons in Has as [Had Has]. rewrite byte_as_char_ascii by done. cbn [app]. destruct (IH (Some q) s Has). split; [by repeat constructor|done].
    + destruct (IH (if Ascii.eqb c q then None else Some q) s Has). split; [by constructor|done].
  - destruct (is_quote c) eqn:Hq.
    + cbn [strip_fuel clean]. rewrite Hq. cbn [clean]. rewrite Hq. destruct (IH (Some c) s Has). split; [by constructor|done].
    + destruct (strip_code fuel c s Hq Hac) as [(s' & -> & -> & ->)|[(s' & -> & -> & ->)|[-> Hn]]].
      * apply IH. apply skip_line_spec. by constructor.
      * apply IH. apply skip_block_spec. by apply Forall_cons in Has as [_ ?].
      * destruct (IH None s Has) as [Hra Hrc]. split; [by constructor|]. cbn [clean]. rewrite Hq. split; [|done].
        intros ->. destruct (Hn eq_refl) as [H1' H2']. destruct (strip_head fuel s Has H1') as [->| ->]; done.
Qed.

(** A script without its comments has none left, and taking comments out again changes nothing: of an ASCII script all that is
    removed is comments. *)
Theorem strip_comments_idempotent (src : string) :
  all_ascii (chars src) ->
  clean None (chars (strip_comments src)) /\ strip_comments (strip_comments src) = strip_comments src
  /\ (clean None (chars src) -> strip_comments src = src).
Proof.
  intros Ha. unfold strip_comments. destruct (strip_is_clean (length (chars src)) None (chars src) Ha) as [Hra Hrc].
  rewrite chars_of_chars. split; [done|]. split; [f_equal; by apply strip_clean|].
  intros Hc. rewrite strip_clean by done. apply of_chars_chars.
Qed.

(** ** Brackets *)

Lemma in_quote_rest q c s : exists k, (k <= 1)%nat /\ (in_quote q c s).2 = drop k s.
Proof. unfold in_quote. destruct (Ascii.eqb c backslash); [by exists 1%nat|]. exists 0%nat. split; [lia|done]. Qed.

Lemma match_from_closer fuel o c depth quote i s j :
  match_from fuel o c depth quote i s = Some j -> (i <= j)%nat /\ s !! (j - i)%nat = Some c.
Proof.
  revert depth quote i s. induction fuel as [|fuel IH]; intros depth quote i [|a s]; [done..|]. cbn [match_from].
  assert (forall depth quote k, match_from fuel o c depth quote (i + S k) (drop k s) = Some j ->
            (i <= j)%nat /\ (a :: s) !! (j - i)%nat = Some c) as Hstep.
  { intros depth' quote' k Hm. apply IH in Hm as [Hle Hs]. rewrite lookup_drop in Hs. split; [lia|].
    replace (j - i)%nat with (S (k + (j - (i + S k))))%nat by lia. done. }
  assert (forall depth quote, match_from fuel o c depth quote (S i) s = Some j -> (i <= j)%nat /\ (a :: s) !! (j - i)%nat = Some c) as Hone.
  { intros depth' quote' Hm. apply (Hstep depth' quote' 0%nat). by rewrite Nat.add_1_r, drop_0. }
  destruct quote as [q|].
  - destruct (in_quote_rest q a s) as (k & Hk & He). destruct (in_quote q a s) as [quote' rest]. simpl in He. subst rest.
    destruct (le_lt_dec k (length s)) as [Hkl|Hkl].
    + assert (i + (length (a :: s) - length (drop k s)) = i + S k)%nat as -> by (rewrite length_drop; simpl; lia). apply Hstep.
    + rewrite drop_ge by lia. intros Hm. by destruct fuel.
  - destruct (is_quote a); [apply Hone|]. destruct (Ascii.eqb a o); [apply Hone|].
    destruct (Ascii.eqb_spec a c) as [->|]; [|apply Hone]. destruct (Nat.eqb depth 1); [|apply Hone].
    intros [= <-]. split; [lia|]. by rewrite Nat.sub_diag.
Qed.

(** The offset found is that of a closing bracket of the kind of the one at [open_], behind it. *)
Lemma match_delim_closer s open_ i :
  match_delim s open_ = Some i ->
  exists o c, chars s !! open_ = Some o /\ closer_of o = Some c /\ chars s !! i = Some c /\ (open_ <= i)%nat.
Proof.
  unfold match_delim. intros (o & Ho & Hm)%bind_Some. apply bind_Some in Hm as (c & Hc & Hm).
  apply match_from_closer in Hm as [Hle Hl]. exists o, c. rewrite lookup_drop in Hl. replace (open_ + (i - open_))%nat with i in Hl by lia. done.
Qed.

Module K6Demo.
#[local] Instance json : JsonText :=
  {| to_json v := match v with Text s => of_chars (quote2 :: chars s ++ [quote2]) | _ => "?" end; from_json s := Ok (Text s) |}.
Definition letter (c : list ascii) : bool :=
  match c with [a] => let n := N_of_ascii (ascii_lower a) in N.leb 97 n && N.leb n 122 | _ => true end.
Definition letter_or_digit (c : list ascii) : bool := letter c || match c with [a] => is_digit a | _ => false end.
Definition q (s : string) : string := of_chars (quote1 :: chars s ++ [quote1]).

Example comments : strip_comments ("a(1); // one" +:+ of_chars [newline] +:+ "b(/* two */ " +:+ q "//3" +:+ ");")
                   = "a(1); " +:+ of_chars [newline] +:+ "b( " +:+ q "//3" +:+ ");".
Proof. vm_compute. reflexivity. Qed.

(** The bytes of a literal are taken for characters: what is not ASCII in one is written anew, each byte as a character. *)
Example accents_broken : strip_comments (q "é") = q "Ã©" /\ strip_comments "é" = "é".
Proof. vm_compute. done. Qed.

Example arguments : split_top_level_args ("url, {a: [1, 2]}, " +:+ q "x, y") = ["url"; "{a: [1, 2]}"; q "x, y"].
Proof. vm_compute. reflexivity. Qed.
Example brackets : match_delim ("f(a, (b), " +:+ q ")" +:+ ") + 1") 1 = Some 13%nat.
Proof. vm_compute. reflexivity. Qed.
Example entry : split_key_value (q "k:1" +:+ ": {a: b}") = Some ("k:1", "{a: b}").
Proof. vm_compute. reflexivity. Qed.
Example objects :
  js_object_to_json letter letter_or_digit ("{ vus: 10, user: __ENV.USER, list: [x, true,], }")
  = Ok (Text (of_chars (chars "{" ++ [quote2] ++ chars "vus" ++ [quote2] ++ chars ":10," ++ [quote2] ++ chars "user" ++ [quote2] ++ chars ":"
               ++ [quote2] ++ chars "${env.USER}" ++ [quote2] ++ chars "," ++ [quote2] ++ chars "list" ++ [quote2] ++ chars ":["
               ++ [quote2] ++ chars "${x}" ++ [quote2] ++ chars ",true]}"))).
Proof. vm_compute. reflexivity. Qed.

Lemma strip_comments_idempotent_witness :
  strip_comments "a /* b */ c // d" = "a  c " /\ strip_comments (strip_comments "a /* b */ c // d") = strip_comments "a /* b */ c // d".
Proof.
  split; [vm_compute; reflexivity|]. assert (all_ascii (chars "a /* b */ c // d")) as Ha.
  { repeat (apply Forall_cons_2; [vm_compute; reflexivity|]). apply Forall_nil_2. }
  exact (proj1 (proj2 (strip_comments_idempotent _ Ha))).
Defined.

Lemma js_literal_roundtrip_witness :
  js_literal quote1 (chars "it's") = chars (of_chars [quote1] +:+ "it\" +:+ of_chars [quote1] +:+ "s" +:+ of_chars [quote1])
  /\ string_literal (of_chars (js_literal quote1 (chars "it's"))) = Some (of_chars (chars "it's")).
Proof.
  split; [vm_compute; reflexivity|]. assert (escapable quote1) as Hq by (vm_compute; reflexivity).
  exact (proj1 (js_literal_roundtrip quote1 (chars "it's") [] Hq)).
Defined.
End K6Demo.
