(* ===== verification/Grpc.v ===== *)
(** * The gRPC handler (crates/loadr-protocols/src/grpc.rs)

    Field checks on protobuf messages, channels and their pools, and the request with everything a virtual user keeps between
    requests of one shape.  Descriptors and messages are prost-reflect's, the compiler of [.proto] files is protox, and the
    call itself tonic's: parameters. *)

From Stdlib Require Import Ascii SpecFloat.
From S2P Require Import Prelude Float64 Str Dur Value Template Protocol Cookies Extract Feeds Conditions Program Interp Http Files.

(** ** Descriptors and values (prost_reflect) *)

(** A field's type; an enum with the number of each of its names. *)
Inductive Kind :=
| KDouble | KFloat | KInt32 | KInt64 | KUint32 | KUint64 | KSint32 | KSint64 | KFixed32 | KFixed64 | KSfixed32 | KSfixed64
| KBool | KString | KBytes
| KMessage
| KEnum (number_of : string -> option Z).

Record FieldDescriptor := mkField {
  fd_name : string;
  fd_is_list : bool;
  fd_kind : Kind;
  fd_supports_presence : bool;
}.

(** The values of singular scalars; [PvOther] is a message, a list or a map. *)
Inductive ProtoValue :=
| PvBool (b : bool)
| PvI32 (n : Z)
| PvI64 (n : Z)
| PvU32 (n : Z)
| PvU64 (n : Z)
| PvF32 (x : f64)
| PvF64 (x : f64)
| PvString (s : string)
| PvBytes (s : string)
| PvEnumNumber (n : Z)
| PvOther (text : string).

(** [==]: that of floats is the IEEE one. *)
Definition value_eqb (a b : ProtoValue) : bool :=
  match a, b with
  | PvBool x, PvBool y => Bool.eqb x y
  | PvI32 x, PvI32 y | PvI64 x, PvI64 y | PvU32 x, PvU32 y | PvU64 x, PvU64 y | PvEnumNumber x, PvEnumNumber y => Z.eqb x y
  | PvF32 x, PvF32 y | PvF64 x, PvF64 y => f64_eq x y
  | PvString x, PvString y | PvBytes x, PvBytes y | PvOther x, PvOther y => bool_decide (x = y)
  | _, _ => false
  end.

(** [x as f32], as the double of the same value. *)
Definition f64_as_f32 (x : f64) : f64 :=
  match x with
  | S754_finite s m e => binary_normalize 24 128 (if s then Z.neg m else Z.pos m) e s
  | _ => x
  end.

Class Protobuf := {
  DescriptorPool : Type;
  ServiceDescriptor : Type;
  MethodDescriptor : Type;
  MessageDescriptor : Type;
  DynamicMessage : Type;
  (** protox on files and include directories, and the pool of what it compiles *)
  FileDescriptorSet : Type;
  compile_protos : list string -> list string -> result string FileDescriptorSet;
  pool_from_set : FileDescriptorSet -> result string DescriptorPool;
  get_service_by_name : DescriptorPool -> string -> option ServiceDescriptor;
  service_full_name : ServiceDescriptor -> string;
  service_methods : ServiceDescriptor -> list MethodDescriptor;
  method_name : MethodDescriptor -> string;
  method_input : MethodDescriptor -> MessageDescriptor;
  method_output : MethodDescriptor -> MessageDescriptor;
  is_client_streaming : MethodDescriptor -> bool;
  is_server_streaming : MethodDescriptor -> bool;
  message_full_name : MessageDescriptor -> string;
  get_field_by_name : MessageDescriptor -> string -> option FieldDescriptor;
  message_new : MessageDescriptor -> DynamicMessage;
  message_deserialize : MessageDescriptor -> Value -> result string DynamicMessage;
  encode_to_vec : DynamicMessage -> string;
  encoded_len : DynamicMessage -> Z;
  message_decode : MessageDescriptor -> string -> result string DynamicMessage;
  has_field : DynamicMessage -> FieldDescriptor -> bool;
  get_field : DynamicMessage -> FieldDescriptor -> ProtoValue;
  message_to_json : DynamicMessage -> result string Value;
  (** [{:?}] of a kind, a value and a string; base64's [decode] *)
  kind_debug : Kind -> string;
  value_debug : ProtoValue -> string;
  str_debug : string -> string;
  base64_standard : string -> option string;
}.

Section Checks.
Context `{Protobuf, JsonText}.

(** ** Field checks *)

Record ResolvedProtobufFieldCheck := mkResolvedCheck {
  rk_id : Z;
  rk_field : FieldDescriptor;
  rk_expected : option ProtoValue;
  rk_exists : bool;
}.

Definition protobuf_kind_is_groupable (k : Kind) : bool :=
  match k with
  | KInt32 | KInt64 | KUint32 | KUint64 | KSint32 | KSint64 | KFixed32 | KFixed64 | KSfixed32 | KSfixed64 | KEnum _ => true
  | _ => false
  end.

Definition in_i32 (n : Z) : option Z := if Z.leb (- 2 ^ 31) n && Z.ltb n (2 ^ 31) then Some n else None.
Definition in_u32 (n : Z) : option Z := if Z.ltb n (2 ^ 32) then Some n else None.
Definition value_as_u64 (v : Value) : option Z := match v with Num (PosInt n) => Some n | _ => None end.
Definition value_as_str (v : Value) : option string := match v with Text s => Some s | _ => None end.

Definition typed_value (k : Kind) (v : Value) : option ProtoValue :=
  match k with
  | KDouble => PvF64 <$> as_f64 v
  | KFloat => (fun x => PvF32 (f64_as_f32 x)) <$> as_f64 v
  | KInt32 | KSint32 | KSfixed32 => PvI32 <$> (as_i64 v ≫= in_i32)
  | KInt64 | KSint64 | KSfixed64 => PvI64 <$> as_i64 v
  | KUint32 | KFixed32 => PvU32 <$> (value_as_u64 v ≫= in_u32)
  | KUint64 | KFixed64 => PvU64 <$> value_as_u64 v
  | KBool => match v with Bool b => Some (PvBool b) | _ => None end
  | KString => PvString <$> value_as_str v
  | KBytes => PvBytes <$> (value_as_str v ≫= base64_standard)
  | KEnum number_of =>
      PvEnumNumber <$> match v with Text name => number_of name | _ => as_i64 v ≫= in_i32 end
  | KMessage => None
  end.

Definition protobuf_expected_value (field : FieldDescriptor) (v : Value) : result string ProtoValue :=
  match typed_value (fd_kind field) v with
  | Some x => Ok x
  | None => Err ("protobuf check value " +:+ to_json v +:+ " does not match field `" +:+ fd_name field +:+ "` ("
                 +:+ kind_debug (fd_kind field) +:+ ")")
  end.

Definition is_message (k : Kind) : bool := match k with KMessage => true | _ => false end.

Definition resolve_check (output : MessageDescriptor) (c : GrpcProtobufFieldCheck) : result string ResolvedProtobufFieldCheck :=
  match get_field_by_name output (fc_field c) with
  | None => Err ("protobuf field `" +:+ fc_field c +:+ "` not found on `" +:+ message_full_name output
                 +:+ "` (field names are exact and top-level)")
  | Some field =>
      if fd_is_list field || is_message (fd_kind field) then
        Err ("protobuf field `" +:+ fc_field c +:+ "` on `" +:+ message_full_name output +:+ "` must be a singular scalar or enum")
      else if fc_group_failures c && negb (protobuf_kind_is_groupable (fd_kind field)) then
        Err ("failure_groups requires an integer or enum protobuf field; `" +:+ fc_field c +:+ "` is " +:+ kind_debug (fd_kind field))
      else if negb (fc_exists c) && negb (fd_supports_presence field) then
        Err ("protobuf field `" +:+ fc_field c +:+ "` on `" +:+ message_full_name output
             +:+ "` always reads as its default (proto3 implicit presence), so `exists: false` can never pass")
      else
        let? expected := match fc_equals c with
                         | Some v => let? x := protobuf_expected_value field v in Ok (Some x)
                         | None => Ok None
                         end in
        Ok (mkResolvedCheck (fc_id c) field expected (fc_exists c))
  end.
Definition resolve_protobuf_checks (output : MessageDescriptor) (cs : list GrpcProtobufFieldCheck) :
    result string (list ResolvedProtobufFieldCheck) := traverse (resolve_check output) cs.

(** [i64::try_from] of the larger ones. *)
Definition protobuf_numeric_code (v : ProtoValue) : option Z :=
  match v with
  | PvI32 n | PvI64 n | PvU32 n | PvEnumNumber n => Some n
  | PvU64 n => if Z.ltb n (2 ^ 63) then Some n else None
  | _ => None
  end.

(** The longest prefix of at most [n] bytes that ends at a boundary of characters. *)
Fixpoint char_boundary (n : nat) (s : list ascii) : nat :=
  match n with
  | O => O
  | S m => match s !! n with
           | Some c => if N.leb 128 (N_of_ascii c) && N.ltb (N_of_ascii c) 192 then char_boundary m s else n
           | None => n
           end
  end.
Definition BRIEF_MAX_LEN : nat := 64.
Definition protobuf_value_brief (v : ProtoValue) : string :=
  match v with
  | PvString s =>
      if Nat.ltb BRIEF_MAX_LEN (str_len s) then
        str_debug (of_chars (take (char_boundary BRIEF_MAX_LEN (chars s)) (chars s))) +:+ "… (" +:+ Z_to_string (Z.of_nat (str_len s)) +:+ " bytes)"
      else value_debug v
  | PvBytes b =>
      if Nat.ltb BRIEF_MAX_LEN (str_len b) then "<" +:+ Z_to_string (Z.of_nat (str_len b)) +:+ " bytes>" else value_debug v
  | _ => value_debug v
  end.

Definition evaluate_check (m : DynamicMessage) (c : ResolvedProtobufFieldCheck) : GrpcProtobufFieldOutcome :=
  let field := rk_field c in
  let present := negb (fd_supports_presence field) || has_field m field in
  if negb present then
    mkOutcome (rk_id c) (negb (rk_exists c))
      (if rk_exists c then Some ("protobuf field `" +:+ fd_name field +:+ "` is absent") else None) None true
  else
    let actual := get_field m field in
    let code := protobuf_numeric_code actual in
    if negb (rk_exists c) then
      mkOutcome (rk_id c) false
        (Some ("protobuf field `" +:+ fd_name field +:+ "` is present with value " +:+ protobuf_value_brief actual)) code false
    else
      match rk_expected c with
      | Some expected =>
          if value_eqb actual expected then mkOutcome (rk_id c) true None code false
          else mkOutcome (rk_id c) false
                 (Some ("protobuf field `" +:+ fd_name field +:+ "` expected " +:+ protobuf_value_brief expected +:+ ", got "
                        +:+ protobuf_value_brief actual)) code false
      | None => mkOutcome (rk_id c) true None code false
      end.
Definition evaluate_protobuf_checks (m : DynamicMessage) (cs : list ResolvedProtobufFieldCheck) : list GrpcProtobufFieldOutcome :=
  evaluate_check m <$> cs.
End Checks.

(** ** Calls *)

Record Status := mkStatus { st_code : Z; st_message : string }.
(** [{:?}] of tonic's codes. *)
Definition CODES : list string :=
  ["Ok"; "Cancelled"; "Unknown"; "InvalidArgument"; "DeadlineExceeded"; "NotFound"; "AlreadyExists"; "PermissionDenied";
   "ResourceExhausted"; "FailedPrecondition"; "Aborted"; "OutOfRange"; "Unimplemented"; "Internal"; "Unavailable"; "DataLoss";
   "Unauthenticated"].
Definition code_debug (code : Z) : string := default "Unknown" (CODES !! Z.to_nat code).

Section Call.
Context `{Protobuf}.

(** What is handed to tonic: the shape of the method, the frames, the path, the codec and the metadata. *)
Record WireCall := mkWireCall {
  wc_shape : bool * bool;
  wc_frames : list string;
  wc_path : string;
  wc_output : MessageDescriptor;
  wc_discard : bool;
  wc_metadata : list (string * string);
}.

Inductive Inbound :=
| InMessage (m : DynamicMessage)
| InSkipped (encoded_len : Z).

(** The decoder on one frame. *)
Definition decode (c : WireCall) (frame : string) : result Status Inbound :=
  if wc_discard c then Ok (InSkipped (Z.of_nat (str_len frame)))
  else match message_decode (wc_output c) frame with
       | Ok m => Ok (InMessage m)
       | Err e => Err (mkStatus 13 ("failed to decode message: " +:+ e))
       end.

(** The frames that come back, and the status that ends the call when it is not [Ok]. *)
Record CallEnd := mkCallEnd { ce_frames : list string; ce_failed : option Status }.

Definition collect (c : WireCall) (e : CallEnd) : result Status (list Inbound) :=
  let? out := traverse (decode c) (ce_frames e) in
  match ce_failed e with Some s => Err s | None => Ok out end.
End Call.

#[export] Instance GrpcTransport_eq_dec : EqDecision GrpcTransport.
Proof. solve_decision. Defined.

Class GrpcNetwork `{Protobuf} := {
  gnet : Type;
  Chan : Type;
  gclock : gnet -> Z;
  (** A lazy channel to an endpoint: [raw] or tonic's, tuned for sharing or not, with or without TLS. *)
  open_channel : bool -> bool -> string -> bool -> gnet -> gnet * result string Chan;
  (** Server reflection of a symbol; nothing when the timeout elapses. *)
  reflect : Chan -> string -> gnet -> gnet * option (result string DescriptorPool);
  call_on : Chan -> WireCall -> gnet -> gnet * option CallEnd;
}.

Section Handler.
Context `{GrpcNetwork, JsonText}.
(** The parser of URLs; keys and values of metadata; what is wrong with a path; [{:?}] of a duration. *)
Context (parse_url : string -> result string HttpUrl) (valid_key valid_meta : string -> result string string).
Context (path_error : string -> option string) (debug_duration : Duration -> string).

Record GrpcHandler := mkGrpcHandler {
  gh_transport_override : option GrpcTransport;
  gh_base_dir : string;
}.

Definition is_raw (t : GrpcTransport) : bool := match t with TransportRaw => true | TransportChannel => false end.

(** [parse_transport]. *)
Definition parse_transport (value : option string) : option GrpcTransport :=
  value ← value;
  let value := to_ascii_lowercase (trim value) in
  if bool_decide (value = "channel") then Some TransportChannel
  else if bool_decide (value = "raw") then Some TransportRaw else None.

Record CachedCallIdentity := mkIdentity {
  ci_url : string;
  ci_endpoint : string;
  ci_tls : bool;
  ci_service : string;
  ci_method : string;
  ci_reflection : bool;
  ci_proto_files : list string;
  ci_proto_includes : list string;
  ci_pool_size : option Z;
  ci_transport : GrpcTransport;
}.
Definition identity_matches (i : CachedCallIdentity) (url : string) (g : GrpcRequest) (t : GrpcTransport) : bool :=
  bool_decide (ci_url i = url) && bool_decide (ci_service i = gr_service g) && bool_decide (ci_method i = gr_method g)
  && Bool.eqb (ci_reflection i) (gr_reflection g) && bool_decide (ci_proto_files i = gr_proto_files g)
  && bool_decide (ci_proto_includes i = gr_proto_includes g) && bool_decide (ci_pool_size i = gr_channel_pool_size g)
  && bool_decide (ci_transport i = t).

Record EncodedMessages := mkEncoded { en_frames : list string; en_bytes_sent : Z }.
Record CachedMetadata := mkCachedMetadata { cm_source : list (string * string); cm_map : list (string * string) }.
Definition CachedMetadata_default : CachedMetadata := mkCachedMetadata [] [].

(** [encoded] and [protobuf_check_sets] are keyed by the addresses of what the plan owns. *)
Record CachedCall := mkCachedCall {
  cc_identity : CachedCallIdentity;
  cc_input : MessageDescriptor;
  cc_output : MessageDescriptor;
  cc_path : string;
  cc_shape : bool * bool;
  cc_client : Chan;
  cc_encoded : gmap Z EncodedMessages;
  cc_metadata : CachedMetadata;
  cc_check_sets : gmap Z (list ResolvedProtobufFieldCheck);
}.
Definition set_encoded (e : gmap Z EncodedMessages) (c : CachedCall) : CachedCall :=
  mkCachedCall (cc_identity c) (cc_input c) (cc_output c) (cc_path c) (cc_shape c) (cc_client c) e (cc_metadata c) (cc_check_sets c).
Definition set_metadata (m : CachedMetadata) (c : CachedCall) : CachedCall :=
  mkCachedCall (cc_identity c) (cc_input c) (cc_output c) (cc_path c) (cc_shape c) (cc_client c) (cc_encoded c) m (cc_check_sets c).
Definition set_check_sets (s : gmap Z (list ResolvedProtobufFieldCheck)) (c : CachedCall) : CachedCall :=
  mkCachedCall (cc_identity c) (cc_input c) (cc_output c) (cc_path c) (cc_shape c) (cc_client c) (cc_encoded c) (cc_metadata c) s.

(** A pool of channels handed out in turn; the counter is shared by all who hold it. *)
Record RoundRobin := mkRoundRobin { rr_items : list Chan; rr_next : Z }.

(** What a virtual user keeps ([GrpcChannels]; the flag of a key is the raw transport, a memo of a pool is its size), and what
    all share: the descriptors, the pools, the network. *)
Record GrpcState := mkGrpcState {
  gs_channels : gmap (bool * string) Chan;
  gs_pools : gmap (bool * string) Z;
  gs_calls : list CachedCall;
  gs_descriptors : gmap string DescriptorPool;
  gs_shared : gmap (bool * string * Z) RoundRobin;
  gs_net : gnet;
}.
Definition set_channels (x : gmap (bool * string) Chan) (s : GrpcState) : GrpcState :=
  mkGrpcState x (gs_pools s) (gs_calls s) (gs_descriptors s) (gs_shared s) (gs_net s).
Definition set_pools (x : gmap (bool * string) Z) (s : GrpcState) : GrpcState :=
  mkGrpcState (gs_channels s) x (gs_calls s) (gs_descriptors s) (gs_shared s) (gs_net s).
Definition set_calls (x : list CachedCall) (s : GrpcState) : GrpcState :=
  mkGrpcState (gs_channels s) (gs_pools s) x (gs_descriptors s) (gs_shared s) (gs_net s).
Definition set_descriptors (x : gmap string DescriptorPool) (s : GrpcState) : GrpcState :=
  mkGrpcState (gs_channels s) (gs_pools s) (gs_calls s) x (gs_shared s) (gs_net s).
Definition set_shared (x : gmap (bool * string * Z) RoundRobin) (s : GrpcState) : GrpcState :=
  mkGrpcState (gs_channels s) (gs_pools s) (gs_calls s) (gs_descriptors s) x (gs_net s).
Definition set_gnet (x : gnet) (s : GrpcState) : GrpcState :=
  mkGrpcState (gs_channels s) (gs_pools s) (gs_calls s) (gs_descriptors s) (gs_shared s) x.

(** ** Channels *)

Definition next_channel (key : bool * string * Z) (rr : RoundRobin) (s : GrpcState) : GrpcState * option Chan :=
  let i := rr_next rr `mod` Z.of_nat (length (rr_items rr)) in
  (set_shared (<[key := mkRoundRobin (rr_items rr) (u64_add (rr_next rr) 1)]> (gs_shared s)) s, rr_items rr !! Z.to_nat i).

Fixpoint build_channels (n : nat) (raw : bool) (endpoint : string) (tls : bool) (x : gnet) : gnet * result string (list Chan) :=
  match n with
  | O => (x, Ok [])
  | S n =>
      match open_channel raw true endpoint tls x with
      | (x, Err e) => (x, Err e)
      | (x, Ok c) => let '(x, r) := build_channels n raw endpoint tls x in (x, let? cs := r in Ok (c :: cs))
      end
  end.

Definition shared_pool (raw : bool) (endpoint : string) (tls : bool) (size : Z) (s : GrpcState) : GrpcState * result string RoundRobin :=
  match gs_shared s !! (raw, endpoint, size) with
  | Some rr => (s, Ok rr)
  | None =>
      match build_channels (Z.to_nat size) raw endpoint tls (gs_net s) with
      | (x, Err e) => (set_gnet x s, Err e)
      | (x, Ok items) =>
          let rr := mkRoundRobin items 0 in
          (set_shared (<[(raw, endpoint, size) := rr]> (gs_shared s)) (set_gnet x s), Ok rr)
      end
  end.

(** [channel] and [raw]; an item of a pool exists as the pool is not empty. *)
Definition take_channel (raw : bool) (endpoint : string) (tls : bool) (pool_size : option Z) (s : GrpcState) :
    GrpcState * result string Chan :=
  match pool_size with
  | Some size =>
      let size := Z.max size 1 in
      let of_next (p : GrpcState * option Chan) := (p.1, match p.2 with Some c => Ok c | None => Err "index out of bounds" end) in
      match (known ← gs_pools s !! (raw, endpoint); if Z.eqb known size then gs_shared s !! (raw, endpoint, size) else None) with
      | Some rr => of_next (next_channel (raw, endpoint, size) rr s)
      | None =>
          match shared_pool raw endpoint tls size s with
          | (s, Err e) => (s, Err e)
          | (s, Ok rr) =>
              let '(s, c) := next_channel (raw, endpoint, size) rr s in
              of_next (set_pools (<[(raw, endpoint) := size]> (gs_pools s)) s, c)
          end
      end
  | None =>
      match gs_channels s !! (raw, endpoint) with
      | Some c => (s, Ok c)
      | None =>
          match open_channel raw false endpoint tls (gs_net s) with
          | (x, Err e) => (set_gnet x s, Err e)
          | (x, Ok c) => (set_channels (<[(raw, endpoint) := c]> (gs_channels s)) (set_gnet x s), Ok c)
          end
      end
  end.

(** ** Descriptors *)

Definition endpoint_uri (raw : string) : result string (string * bool) :=
  match parse_url raw with
  | Err e => Err ("invalid url `" +:+ raw +:+ "`: " +:+ e)
  | Ok u =>
      let scheme := scheme_of u in
      let? (target, tls) :=
        (if bool_decide (scheme = "grpc") || bool_decide (scheme = "http") then Ok ("http", false)
         else if bool_decide (scheme = "grpcs") || bool_decide (scheme = "https") then Ok ("https", true)
         else Err ("grpc handler cannot handle scheme `" +:+ scheme +:+ "`")) in
      match url_host (hu_url u), hu_port u with
      | None, _ => Err ("url `" +:+ raw +:+ "` has no host")
      | _, None => Err ("url `" +:+ raw +:+ "` has no port")
      | Some host, Some port => Ok (target +:+ "://" +:+ host +:+ ":" +:+ Z_to_string port, tls)
      end
  end.

Definition add_parent (includes : list string) (file : string) : list string :=
  match Files.parent (Files.path file) with
  | Some dir => if existsb (fun i => path_eqb (Files.path i) dir) includes then includes else includes ++ [path_text dir]
  | None => includes
  end.

(** The files and include directories handed to protox. *)
Definition proto_paths (h : GrpcHandler) (proto_files proto_includes : list string) : list string * list string :=
  let files := resolve_path (gh_base_dir h) <$> proto_files in
  let includes := foldl add_parent (resolve_path (gh_base_dir h) <$> proto_includes) files in
  (files, match includes with [] => [gh_base_dir h] | _ => includes end).
Definition protos_key (files includes : list string) : string := "protos:" +:+ join "|" files +:+ "::" +:+ join "|" includes.
Definition reflection_key (endpoint symbol : string) : string := "reflection:" +:+ endpoint +:+ "::" +:+ symbol.

Definition compile_pool (files includes : list string) : result string DescriptorPool :=
  match compile_protos files includes with
  | Err e => Err ("failed to compile proto files: " +:+ e)
  | Ok fds => match pool_from_set fds with Ok pool => Ok pool | Err e => Err ("invalid file descriptor set: " +:+ e) end
  end.

Definition cached_pool (key : string) (r : result string DescriptorPool) (s : GrpcState) : GrpcState * result string DescriptorPool :=
  match r with Ok pool => (set_descriptors (<[key := pool]> (gs_descriptors s)) s, Ok pool) | Err e => (s, Err e) end.

Definition pool_from_protos (h : GrpcHandler) (g : GrpcRequest) (s : GrpcState) : GrpcState * result string DescriptorPool :=
  let '(files, includes) := proto_paths h (gr_proto_files g) (gr_proto_includes g) in
  match gs_descriptors s !! protos_key files includes with
  | Some pool => (s, Ok pool)
  | None => cached_pool (protos_key files includes) (compile_pool files includes) s
  end.

(** Nothing when the timeout elapses. *)
Definition pool_from_reflection (c : Chan) (endpoint symbol : string) (s : GrpcState) : GrpcState * option (result string DescriptorPool) :=
  match gs_descriptors s !! reflection_key endpoint symbol with
  | Some pool => (s, Some (Ok pool))
  | None =>
      match reflect c symbol (gs_net s) with
      | (x, None) => (set_gnet x s, None)
      | (x, Some r) => let '(s, r) := cached_pool (reflection_key endpoint symbol) r (set_gnet x s) in (s, Some r)
      end
  end.

(** The method of a pool and its path. *)
Definition find_method (pool : DescriptorPool) (service method : string) : result string (MethodDescriptor * string) :=
  match get_service_by_name pool service with
  | None => Err ("service `" +:+ service +:+ "` not found")
  | Some sd =>
      match List.find (fun m => bool_decide (method_name m = method)) (service_methods sd) with
      | None => Err ("method `" +:+ method +:+ "` not found on `" +:+ service +:+ "`")
      | Some md =>
          let path := "/" +:+ service_full_name sd +:+ "/" +:+ method_name md in
          match path_error path with Some e => Err ("invalid grpc path: " +:+ e) | None => Ok (md, path) end
      end
  end.

(** ** The state of a call *)

(** The addresses of what the plan owns: the message, the list of messages, the list of checks. *)
Record Arcs := mkArcs { ar_message : Z; ar_messages : Z; ar_checks : Z }.

Definition raw_messages (g : GrpcRequest) : list Value :=
  match gr_messages g with [] => match gr_message g with Some m => [m] | None => [] end | ms => ms end.

Definition literal_key (g : GrpcRequest) (a : Arcs) : option Z :=
  if gr_message_literal g then
    match gr_messages g with
    | [] => match gr_message g with Some _ => Some (ar_message a) | None => None end
    | _ => Some (ar_messages a)
    end
  else None.

Definition checks_key (g : GrpcRequest) (a : Arcs) : option Z :=
  match gr_protobuf_checks g with Some (_ :: _) => Some (ar_checks a) | _ => None end.

Definition encode_one (input : MessageDescriptor) (json : Value) : result string string :=
  match message_deserialize input json with
  | Ok m => Ok (encode_to_vec m)
  | Err e => Err ("message does not match `" +:+ message_full_name input +:+ "`: " +:+ e)
  end.
(** Frames have five bytes of header. *)
Definition frames_bytes (frames : list string) : Z := foldl (fun total b => u64_add total (Z.of_nat (str_len b) + 5)) 0 frames.

Definition encode_all (input : MessageDescriptor) (raw : list Value) : result string EncodedMessages :=
  let? frames := traverse (encode_one input) raw in
  Ok (mkEncoded frames (frames_bytes frames)).

(** Messages with substitutions are encoded anew; a request without any sends an empty message. *)
Definition encode_fresh (input : MessageDescriptor) (raw : list Value) : result string EncodedMessages :=
  match raw with
  | [] => let frames := [encode_to_vec (message_new input)] in Ok (mkEncoded frames (frames_bytes frames))
  | _ => encode_all input raw
  end.

Definition outbound (c : CachedCall) (g : GrpcRequest) (a : Arcs) : CachedCall * result string EncodedMessages :=
  match literal_key g a with
  | Some key =>
      match cc_encoded c !! key with
      | Some e => (c, Ok e)
      | None => match encode_all (cc_input c) (raw_messages g) with
                | Ok e => (set_encoded (<[key := e]> (cc_encoded c)) c, Ok e)
                | Err e => (c, Err e)
                end
      end
  | None => (c, encode_fresh (cc_input c) (raw_messages g))
  end.

Definition build_metadata_of (l : list (string * string)) : result string (list (string * string)) :=
  traverse (fun kv : string * string =>
    match valid_key (to_ascii_lowercase kv.1) with
    | Err e => Err ("invalid metadata key `" +:+ kv.1 +:+ "`: " +:+ e)
    | Ok key => match valid_meta kv.2 with
                | Err e => Err ("invalid metadata value for `" +:+ kv.1 +:+ "`: " +:+ e)
                | Ok value => Ok (key, value)
                end
    end) l.

(** [CachedMetadata::for_request]. *)
Definition metadata_for (c : CachedCall) (g : GrpcRequest) (headers : list (string * string)) :
    CachedCall * result string (list (string * string)) :=
  let source := gr_metadata g ++ headers in
  if bool_decide (cm_source (cc_metadata c) = source) then (c, Ok (cm_map (cc_metadata c)))
  else match build_metadata_of source with
       | Ok m => (set_metadata (mkCachedMetadata source m) c, Ok m)
       | Err e => (c, Err e)
       end.

Definition resolved_checks (c : CachedCall) (g : GrpcRequest) (a : Arcs) : CachedCall * result string (list ResolvedProtobufFieldCheck) :=
  match checks_key g a with
  | None => (c, Ok [])
  | Some key =>
      match cc_check_sets c !! key with
      | Some cs => (c, Ok cs)
      | None => match resolve_protobuf_checks (cc_output c) (default [] (gr_protobuf_checks g)) with
                | Ok cs => (set_check_sets (<[key := cs]> (cc_check_sets c)) c, Ok cs)
                | Err e => (c, Err e)
                end
      end
  end.

(** What a request puts on the wire, the bytes it counts, and the checks its answer has to pass. *)
Record Outgoing := mkOutgoing { og_call : WireCall; og_bytes_sent : Z; og_checks : list ResolvedProtobufFieldCheck }.

Definition one_message_only (c : CachedCall) (g : GrpcRequest) : option string :=
  if negb (cc_shape c).1 && Nat.ltb 1 (length (raw_messages g)) then
    Some ("`" +:+ gr_service g +:+ "/" +:+ gr_method g +:+ "` is not client-streaming: it accepts one message, but "
          +:+ Z_to_string (Z.of_nat (length (raw_messages g))) +:+ " were built (check `messages`/`stream_repeat`)")
  else None.

Definition has_checks (g : GrpcRequest) : bool := match gr_protobuf_checks g with Some (_ :: _) => true | _ => false end.

Definition prepare (c : CachedCall) (g : GrpcRequest) (a : Arcs) (headers : list (string * string)) : CachedCall * result string Outgoing :=
  match resolved_checks c g a with
  | (c, Err e) => (c, Err e)
  | (c, Ok checks) =>
      match one_message_only c g with
      | Some e => (c, Err e)
      | None =>
          match outbound c g a with
          | (c, Err e) => (c, Err e)
          | (c, Ok out) =>
              match metadata_for c g headers with
              | (c, Err e) => (c, Err e)
              | (c, Ok metadata) =>
                  let discard := gr_discard_response_body g && negb (has_checks g) in
                  (c, Ok (mkOutgoing (mkWireCall (cc_shape c) (en_frames out) (cc_path c) (cc_output c) discard metadata)
                            (en_bytes_sent out) checks))
              end
          end
      end
  end.

(** ** The call *)

(** [invoke]: other shapes than the client-streaming ones send one message. *)
Definition invoke (client : Chan) (c : WireCall) (x : gnet) : gnet * option (result Status (list Inbound)) :=
  let send c := let '(x, r) := call_on client c x in (x, (collect c) <$> r) in
  if (wc_shape c).1 then send c
  else match wc_frames c with
       | [] => (x, Some (Err (mkStatus 13 "missing request message")))
       | frame :: _ => send (mkWireCall (wc_shape c) [frame] (wc_path c) (wc_output c) (wc_discard c) (wc_metadata c))
       end.

Definition inbound_len (i : Inbound) : Z := match i with InMessage m => encoded_len m | InSkipped n => n end.
Definition grpc_bytes_received (rs : list Inbound) : Z := foldl (fun total i => u64_add total (inbound_len i + 5)) 0 rs.

Definition grpc_body (g : GrpcRequest) (rs : list Inbound) : string :=
  if gr_protobuf_only_response g then ""
  else match last rs with
       | Some (InMessage m) => to_json (match message_to_json m with Ok v => v | Err _ => Null end)
       | _ => ""
       end.

Definition grpc_outcomes (checks : list ResolvedProtobufFieldCheck) (rs : list Inbound) : list GrpcProtobufFieldOutcome :=
  match last rs with Some (InMessage m) => evaluate_protobuf_checks m checks | _ => [] end.

Definition grpc_timings (elapsed : f64) : Timings :=
  mkTimings f64_zero f64_zero f64_zero f64_zero elapsed f64_zero elapsed f64_zero.

Definition grpc_response (g : GrpcRequest) (url : string) (elapsed : f64) (out : Outgoing) (r : result Status (list Inbound)) : ProtocolResponse :=
  match r with
  | Ok rs =>
      mkResponse 0 "OK" [] (grpc_body g rs) (grpc_timings elapsed) (og_bytes_sent out) (grpc_bytes_received rs) "grpc" None url
        (Object [("message_count", Num (PosInt (Z.of_nat (length rs))))]) (grpc_outcomes (og_checks out) rs)
  | Err status =>
      mkResponse (st_code status) (code_debug (st_code status) +:+ ": " +:+ st_message status) [] "" (grpc_timings elapsed)
        (og_bytes_sent out) 0 "grpc" None url Null []
  end.

Definition grpc_error_response (message : string) (elapsed : f64) (url : string) : ProtocolResponse :=
  mkResponse 0 "" [] "" (mkTimings f64_zero f64_zero f64_zero f64_zero f64_zero f64_zero elapsed f64_zero) 0 0 "grpc" (Some message) url Null [].

(** [ms_since]. *)
Definition ms_between (start now : Z) : f64 := f64_mul (as_secs_f64 (u64_saturating_sub now start)) (f64_of_Z 1000).

(** A call whose state is known. *)
Definition run_call (request : PreparedRequest) (g : GrpcRequest) (a : Arcs) (start : Z) (idx : nat) (c : CachedCall) (s : GrpcState) :
    GrpcState * result string ProtocolResponse :=
  let '(c, out) := prepare c g a (pr_headers request) in
  let s := set_calls (<[idx := c]> (gs_calls s)) s in
  match out with
  | Err e => (s, Err e)
  | Ok out =>
      let '(x, r) := invoke (cc_client c) (og_call out) (gs_net s) in
      let s := set_gnet x s in
      let elapsed := ms_between start (gclock x) in
      (s, Ok match r with
             | None => timeout_response request elapsed (debug_duration (pr_timeout request))
             | Some r => grpc_response g (pr_url request) elapsed out r
             end)
  end.

(** The descriptors of a call, or the answer when there are none. *)
Definition descriptors_of (h : GrpcHandler) (request : PreparedRequest) (g : GrpcRequest) (start : Z) (endpoint : string) (client : Chan)
    (s : GrpcState) : GrpcState * (DescriptorPool + result string ProtocolResponse) :=
  if gr_reflection g then
    match pool_from_reflection client endpoint (gr_service g) s with
    | (s, Some (Ok pool)) => (s, inl pool)
    | (s, Some (Err message)) => (s, inr (Ok (grpc_error_response message (ms_between start (gclock (gs_net s))) (pr_url request))))
    | (s, None) =>
        (s, inr (Ok (timeout_response request (ms_between start (gclock (gs_net s))) (debug_duration (pr_timeout request)))))
    end
  else match gr_proto_files g with
       | [] => (s, inr (Err "grpc request needs `proto_files` or `reflection: true`"))
       | _ => match pool_from_protos h g s with (s, Ok pool) => (s, inl pool) | (s, Err e) => (s, inr (Err e)) end
       end.

Definition new_call (url : string) (endpoint : string) (tls : bool) (g : GrpcRequest) (t : GrpcTransport) (client : Chan)
    (md : MethodDescriptor) (path : string) : CachedCall :=
  mkCachedCall
    (mkIdentity url endpoint tls (gr_service g) (gr_method g) (gr_reflection g) (gr_proto_files g) (gr_proto_includes g)
       (gr_channel_pool_size g) t)
    (method_input md) (method_output md) path (is_client_streaming md, is_server_streaming md) client ∅ CachedMetadata_default ∅.

(** A call of a new shape: channel, descriptors, method; its state is kept. *)
Definition run_new (h : GrpcHandler) (request : PreparedRequest) (g : GrpcRequest) (a : Arcs) (t : GrpcTransport) (s : GrpcState) :
    GrpcState * result string ProtocolResponse :=
  match endpoint_uri (pr_url request) with
  | Err e => (s, Err e)
  | Ok (endpoint, tls) =>
      let start := gclock (gs_net s) in
      match take_channel (is_raw t) endpoint tls (gr_channel_pool_size g) s with
      | (s, Err e) => (s, Err e)
      | (s, Ok client) =>
          match descriptors_of h request g start endpoint client s with
          | (s, inr r) => (s, r)
          | (s, inl pool) =>
              match find_method pool (gr_service g) (gr_method g) with
              | Err e => (s, Err e)
              | Ok (md, path) =>
                  let c := new_call (pr_url request) endpoint tls g t client md path in
                  run_call request g a start (length (gs_calls s)) c (set_calls (gs_calls s ++ [c]) s)
              end
          end
      end
  end.

Definition find_call (calls : list CachedCall) (url : string) (g : GrpcRequest) (t : GrpcTransport) : option (nat * CachedCall) :=
  list_find (fun c => identity_matches (cc_identity c) url g t = true) calls.

Definition execute (h : GrpcHandler) (request : PreparedRequest) (a : Arcs) (s : GrpcState) : GrpcState * result string ProtocolResponse :=
  match ro_grpc (pr_options request) with
  | None => (s, Err "grpc request requires `grpc:` options")
  | Some g =>
      let t := default (gr_transport g) (gh_transport_override h) in
      match find_call (gs_calls s) (pr_url request) g t with
      | Some (idx, c) => run_call request g a (gclock (gs_net s)) idx c s
      | None => run_new h request g a t s
      end
  end.
End Handler.
