(* ===== verification/GrpcCache.v ===== *)
(** * What a gRPC virtual user keeps between requests

    The descriptors, the path, the encoded messages, the metadata and the resolved checks of a call are kept; none of it can be
    told from the answers.  The addresses that key some of them are those of what the plan owns: [lit] and [chk] are its
    content there. *)

From Stdlib Require Import Ascii.
From S2P Require Import Prelude Float64 Str Dur Value Template Protocol Cookies Extract Feeds Conditions Program Interp Http Files Grpc.

Section Cache.
Context `{GrpcNetwork, JsonText}.
Context (parse_url : string -> result string HttpUrl) (valid_key valid_meta : string -> result string string).
Context (path_error : string -> option string) (debug_duration : Duration -> string).
Context (lit : Z -> list Value) (chk : Z -> list GrpcProtobufFieldCheck).
Local Notation build_metadata_of := (build_metadata_of valid_key valid_meta).
Local Notation prepare := (prepare valid_key valid_meta).
Local Notation endpoint_uri := (endpoint_uri parse_url).
Local Notation find_method := (find_method path_error).
Local Notation execute := (execute parse_url valid_key valid_meta path_error debug_duration).
Local Notation run_new := (run_new parse_url valid_key valid_meta path_error debug_duration).
Local Notation run_call := (run_call valid_key valid_meta debug_duration).

(** A request whose addresses are those of the plan. *)
Definition request_ok (g : GrpcRequest) (a : Arcs) : Prop :=
  (forall k, literal_key g a = Some k -> raw_messages g = lit k)
  /\ (forall k, checks_key g a = Some k -> default [] (gr_protobuf_checks g) = chk k).

(** ** A call, with and without its caches *)

(** What a request puts on the wire given the descriptors of its method alone. *)
Definition prepare_direct (c : CachedCall) (g : GrpcRequest) (headers : list (string * string)) : result string Outgoing :=
  let? checks := resolve_protobuf_checks (cc_output c) (default [] (gr_protobuf_checks g)) in
  match one_message_only c g with
  | Some e => Err e
  | None =>
      let? out := encode_fresh (cc_input c) (raw_messages g) in
      let? metadata := build_metadata_of (gr_metadata g ++ headers) in
      Ok (mkOutgoing (mkWireCall (cc_shape c) (en_frames out) (cc_path c) (cc_output c)
                        (gr_discard_response_body g && negb (has_checks g)) metadata) (en_bytes_sent out) checks)
  end.

Record call_ok (c : CachedCall) : Prop := {
  ok_encoded : forall k e, cc_encoded c !! k = Some e -> encode_all (cc_input c) (lit k) = Ok e;
  ok_metadata : build_metadata_of (cm_source (cc_metadata c)) = Ok (cm_map (cc_metadata c));
  ok_checks : forall k cs, cc_check_sets c !! k = Some cs -> resolve_protobuf_checks (cc_output c) (chk k) = Ok cs;
}.

(** The two calls are of one method over one channel. *)
Record same_call (c d : CachedCall) : Prop := {
  sc_identity : cc_identity c = cc_identity d;
  sc_input : cc_input c = cc_input d;
  sc_output : cc_output c = cc_output d;
  sc_path : cc_path c = cc_path d;
  sc_shape : cc_shape c = cc_shape d;
  sc_client : cc_client c = cc_client d;
}.
#[local] Instance same_call_refl : Reflexive same_call.
Proof. by intros c. Qed.
#[local] Instance same_call_trans : Transitive same_call.
Proof. intros c d e [] []. split; congruence. Qed.

Lemma resolved_checks_spec c g a :
  call_ok c -> request_ok g a ->
  let '(c', r) := resolved_checks c g a in
  call_ok c' /\ same_call c c' /\ r = resolve_protobuf_checks (cc_output c) (default [] (gr_protobuf_checks g)).
Proof.
  intros Hc [_ Hk]. unfold resolved_checks. destruct (checks_key g a) as [k|] eqn:Hkey.
  - rewrite (Hk k eq_refl). destruct (cc_check_sets c !! k) as [cs|] eqn:Hcs; [by rewrite (ok_checks c Hc k cs Hcs)|].
    destruct (resolve_protobuf_checks _ _) as [cs|e] eqn:Hr; [|done]. split; [|done].
    split; simpl; [apply Hc|apply Hc|]. intros k' cs'. rewrite lookup_insert_Some. intros [[<- <-]|[_ ?]]; [done|by apply Hc].
  - unfold checks_key in Hkey. by destruct (gr_protobuf_checks g) as [[|]|].
Qed.

Lemma outbound_spec c g a :
  call_ok c -> request_ok g a ->
  let '(c', r) := outbound c g a in
  call_ok c' /\ same_call c c' /\ r = encode_fresh (cc_input c) (raw_messages g).
Proof.
  intros Hc [Hl _]. unfold outbound. destruct (literal_key g a) as [k|] eqn:Hkey; [|done].
  assert (encode_fresh (cc_input c) (raw_messages g) = encode_all (cc_input c) (raw_messages g)) as ->.
  { unfold literal_key in Hkey. unfold encode_fresh, raw_messages. destruct (gr_message_literal g); [|done].
    destruct (gr_messages g); [|done]. by destruct (gr_message g). }
  rewrite (Hl k eq_refl). destruct (cc_encoded c !! k) as [e|] eqn:He; [by rewrite (ok_encoded c Hc k e He)|].
  destruct (encode_all _ _) as [e|e] eqn:Hr; [|done]. split; [|done].
  split; simpl; [|apply Hc|apply Hc]. intros k' e'. rewrite lookup_insert_Some. intros [[<- <-]|[_ ?]]; [done|by apply Hc].
Qed.

Lemma metadata_for_spec c g headers :
  call_ok c ->
  let '(c', r) := metadata_for valid_key valid_meta c g headers in
  call_ok c' /\ same_call c c' /\ r = build_metadata_of (gr_metadata g ++ headers).
Proof.
  intros Hc. unfold metadata_for. case_bool_decide as Hs; [rewrite <- Hs; by rewrite (ok_metadata c Hc)|].
  destruct (build_metadata_of _) as [m|e] eqn:Hr; [|done]. split; [|done]. split; simpl; [apply Hc|done|apply Hc].
Qed.

Lemma prepare_spec c g a headers :
  call_ok c -> request_ok g a ->
  let '(c', r) := prepare c g a headers in call_ok c' /\ same_call c c' /\ r = prepare_direct c g headers.
Proof.
  intros Hc Hg. unfold prepare, prepare_direct. pose proof (resolved_checks_spec c g a Hc Hg) as Hp1.
  destruct (resolved_checks c g a) as [c1 r1]. destruct Hp1 as (Hc1 & Hs1 & ->). destruct (resolve_protobuf_checks _ _) as [cs|e]; [|done].
  simpl. assert (one_message_only c1 g = one_message_only c g) as -> by (unfold one_message_only; by rewrite (sc_shape _ _ Hs1)).
  destruct (one_message_only c g); [done|]. pose proof (outbound_spec c1 g a Hc1 Hg) as Hp2.
  destruct (outbound c1 g a) as [c2 r2]. destruct Hp2 as (Hc2 & Hs2 & ->). rewrite (sc_input _ _ Hs1).
  destruct (encode_fresh _ _) as [out|e]; [|split; [done|]; split; [by transitivity c1|done]]. simpl.
  pose proof (metadata_for_spec c2 g headers Hc2) as Hp3. destruct (metadata_for _ _ c2 g headers) as [c3 r3]. destruct Hp3 as (Hc3 & Hs3 & ->).
  assert (same_call c c3) as Hs by (transitivity c1; [done|]; by transitivity c2).
  destruct (build_metadata_of _) as [m|e]; [|done]. simpl. split; [done|]. split; [done|]. destruct Hs as [_ _ -> -> -> _]. done.
Qed.

(** ** The state of a user *)

(** A call was resolved from what the state still knows under the call's own identity. *)
Record origin_ok (h : GrpcHandler) (s : GrpcState) (c : CachedCall) : Prop := {
  og_endpoint : endpoint_uri (ci_url (cc_identity c)) = Ok (ci_endpoint (cc_identity c), ci_tls (cc_identity c));
  og_method : exists pool md,
    (let i := cc_identity c in
     if ci_reflection i then gs_descriptors s !! reflection_key (ci_endpoint i) (ci_service i) = Some pool
     else ci_proto_files i <> []
          /\ (let '(files, includes) := proto_paths h (ci_proto_files i) (ci_proto_includes i) in
              gs_descriptors s !! protos_key files includes = Some pool))
    /\ find_method pool (ci_service (cc_identity c)) (ci_method (cc_identity c)) = Ok (md, cc_path c)
    /\ cc_input c = method_input md /\ cc_output c = method_output md /\ cc_shape c = (is_client_streaming md, is_server_streaming md);
  og_client : ci_pool_size (cc_identity c) = None ->
    gs_channels s !! (is_raw (ci_transport (cc_identity c)), ci_endpoint (cc_identity c)) = Some (cc_client c);
}.

Definition state_ok (h : GrpcHandler) (s : GrpcState) : Prop := forall c, c ∈ gs_calls s -> call_ok c /\ origin_ok h s c.

(** What is known is not replaced. *)
Record knows_more (s s' : GrpcState) : Prop := {
  km_descriptors : gs_descriptors s ⊆ gs_descriptors s';
  km_channels : gs_channels s ⊆ gs_channels s';
}.
#[local] Instance knows_more_refl : Reflexive knows_more.
Proof. by intros s. Qed.
#[local] Instance knows_more_trans : Transitive knows_more.
Proof. intros s t u [] []. split; by etrans. Qed.

Lemma origin_mono h s s' c : knows_more s s' -> origin_ok h s c -> origin_ok h s' c.
Proof.
  intros [Hd Hch] [He (pool & md & Hp & Hm) Hcl]. split; [done| |].
  - exists pool, md. split; [|done]. simpl in *. revert Hp. destruct (ci_reflection _); [intros Hp; by eapply lookup_weaken|].
    intros [Hf Hp]. split; [done|]. by eapply lookup_weaken.
  - intros Hn. eapply lookup_weaken; [by apply Hcl|done].
Qed.
Lemma origin_same h s c d : same_call c d -> origin_ok h s c -> origin_ok h s d.
Proof. intros [H1' H2' H3' H4' H5' H6'] [He Hm Hc]. split; congruence || by rewrite <- ?H1', <- ?H2', <- ?H3', <- ?H4', <- ?H5', <- ?H6'. Qed.

(** ** Calls change nothing but calls *)

(** [f] neither reads nor changes the calls. *)
Definition forgetful {A} (f : GrpcState -> GrpcState * A) : Prop :=
  forall s l, f (set_calls l s) = (set_calls l (f s).1, (f s).2).
Definition keeps_calls {A} (f : GrpcState -> GrpcState * A) : Prop := forall s, gs_calls (f s).1 = gs_calls s /\ knows_more s (f s).1.

Ltac cases_of :=
  repeat (match goal with
          | |- context [match ?x with _ => _ end] => is_var x; destruct x
          | |- context [match ?x with _ => _ end] => destruct x eqn:?
          end; simpl in *; try done).

Lemma next_channel_forgetful key rr : forgetful (next_channel key rr).
Proof. done. Qed.
Lemma next_channel_keeps key rr : keeps_calls (next_channel key rr).
Proof. by split. Qed.

Lemma take_channel_forgetful raw endpoint tls pool_size : forgetful (take_channel raw endpoint tls pool_size).
Proof.
  intros s l. unfold take_channel, shared_pool. simpl. destruct pool_size as [size|]; [|by cases_of].
  destruct (known ← _; _) as [rr|]; [done|]. destruct (gs_shared s !! _) as [rr|]; [done|].
  by destruct (build_channels _ _ _ _ _) as [x [items|e]].
Qed.
Lemma take_channel_keeps raw endpoint tls pool_size : keeps_calls (take_channel raw endpoint tls pool_size).
Proof.
  intros s. unfold take_channel, shared_pool. simpl. destruct pool_size as [size|].
  - destruct (known ← _; _) as [rr|]; [done|]. destruct (gs_shared s !! _) as [rr|]; [done|].
    by destruct (build_channels _ _ _ _ _) as [x [items|e]].
  - destruct (gs_channels s !! _) eqn:Hc; [done|]. destruct (open_channel _ _ _ _ _) as [x [c|e]]; [|done].
    split; [done|]. split; simpl; [done|]. by apply insert_subseteq.
Qed.
Lemma take_channel_own raw endpoint tls s s' c :
  take_channel raw endpoint tls None s = (s', Ok c) -> gs_channels s' !! (raw, endpoint) = Some c.
Proof.
  unfold take_channel. destruct (gs_channels s !! _) eqn:Hc; [by intros [= <- <-]|].
  destruct (open_channel _ _ _ _ _) as [x [c'|e]]; [|done]. intros [= <- <-]. simpl. by rewrite lookup_insert_eq.
Qed.

Local Notation descriptors_of := (descriptors_of debug_duration).

Lemma cached_pool_knows key r s : gs_descriptors s !! key = None -> knows_more s (cached_pool key r s).1.
Proof. intros Hn. unfold cached_pool. destruct r; [|done]. split; simpl; [by apply insert_subseteq|done]. Qed.

Lemma descriptors_of_forgetful h request g start endpoint client : forgetful (descriptors_of h request g start endpoint client).
Proof.
  intros s l. unfold descriptors_of, pool_from_reflection, pool_from_protos, cached_pool.
  destruct (proto_paths h (gr_proto_files g) (gr_proto_includes g)) as [files includes]. simpl. destruct (gr_reflection g).
  - destruct (gs_descriptors s !! _); [done|]. destruct (reflect _ _ _) as [x [[pool|e]|]]; done.
  - destruct (gr_proto_files g) eqn:Hf; [done|]. destruct (gs_descriptors s !! _); [done|].
    by destruct (compile_pool _ _).
Qed.
Lemma descriptors_of_keeps h request g start endpoint client : keeps_calls (descriptors_of h request g start endpoint client).
Proof.
  intros s. unfold descriptors_of, pool_from_reflection, pool_from_protos.
  destruct (proto_paths h (gr_proto_files g) (gr_proto_includes g)) as [files includes]. simpl. destruct (gr_reflection g).
  - destruct (gs_descriptors s !! _) eqn:Hn; [done|]. destruct (reflect _ _ _) as [x [[pool|e]|]]; [|done..].
    split; [done|]. split; simpl; [by apply insert_subseteq|done].
  - destruct (gr_proto_files g) eqn:Hf; [done|]. destruct (gs_descriptors s !! _) eqn:Hn; [done|].
    destruct (compile_pool _ _) as [pool|e]; [|done]. split; [done|]. exact (cached_pool_knows _ (Ok pool) s Hn).
Qed.

(** Where the descriptors of a request are kept. *)
Definition pool_known (h : GrpcHandler) (g : GrpcRequest) (endpoint : string) (s : GrpcState) (pool : DescriptorPool) : Prop :=
  if gr_reflection g then gs_descriptors s !! reflection_key endpoint (gr_service g) = Some pool
  else gr_proto_files g <> []
       /\ (let '(files, includes) := proto_paths h (gr_proto_files g) (gr_proto_includes g) in
           gs_descriptors s !! protos_key files includes = Some pool).

Lemma descriptors_of_own h request g start endpoint client s s' pool :
  descriptors_of h request g start endpoint client s = (s', inl pool) -> pool_known h g endpoint s' pool.
Proof.
  unfold descriptors_of, pool_from_reflection, pool_from_protos, cached_pool, pool_known.
  destruct (proto_paths h (gr_proto_files g) (gr_proto_includes g)) as [files includes]. destruct (gr_reflection g).
  - destruct (gs_descriptors s !! _) eqn:Hn; [by intros [= <- <-]|]. destruct (reflect _ _ _) as [x [[p|e]|]]; [|done..].
    intros [= <- <-]. simpl. by rewrite lookup_insert_eq.
  - destruct (gr_proto_files g) eqn:Hf; [done|].
    destruct (gs_descriptors s !! _) eqn:Hn; [intros [= <- <-]; by split|].
    destruct (compile_pool _ _) as [p|e]; [|done]. intros [= <- <-]. split; [done|]. simpl. by rewrite lookup_insert_eq.
Qed.
Lemma descriptors_of_known h request g start endpoint client s pool :
  pool_known h g endpoint s pool -> descriptors_of h request g start endpoint client s = (s, inl pool).
Proof.
  unfold descriptors_of, pool_from_reflection, pool_from_protos, pool_known.
  destruct (proto_paths h (gr_proto_files g) (gr_proto_includes g)) as [files includes]. destruct (gr_reflection g); [by intros ->|].
  destruct (gr_proto_files g) eqn:Hf; [by intros []|]. intros [_ Hp]. by rewrite Hp.
Qed.

(** ** A call's answer *)

(** What is answered, given what goes out. *)
Definition answer (request : PreparedRequest) (g : GrpcRequest) (start : Z) (out : result string Outgoing) (client : Chan) (x : gnet) :
    gnet * result string ProtocolResponse :=
  match out with
  | Err e => (x, Err e)
  | Ok out =>
      let '(x, r) := invoke client (og_call out) x in
      let elapsed := ms_between start (gclock x) in
      (x, Ok match r with
             | None => timeout_response request elapsed (debug_duration (pr_timeout request))
             | Some r => grpc_response g (pr_url request) elapsed out r
             end)
  end.

Lemma run_call_spec request g a start idx c s :
  call_ok c -> request_ok g a ->
  exists c', call_ok c' /\ same_call c c'
    /\ let '(x, r) := answer request g start (prepare_direct c g (pr_headers request)) (cc_client c) (gs_net s) in
       run_call request g a start idx c s = (set_gnet x (set_calls (<[idx := c']> (gs_calls s)) s), r).
Proof.
  intros Hc Hg. unfold run_call. pose proof (prepare_spec c g a (pr_headers request) Hc Hg) as Hp.
  destruct (prepare c g a _) as [c' r]. destruct Hp as (Hc' & Hs & ->). exists c'. split; [done|]. split; [done|].
  rewrite (sc_client _ _ Hs). unfold answer. destruct (prepare_direct _ _ _) as [out|e]; [|by destruct s].
  simpl. by destruct (invoke _ _ _).
Qed.

(** ** The states a user reaches *)

Lemma new_call_ok url endpoint tls g t client md path : call_ok (new_call url endpoint tls g t client md path).
Proof. split; simpl; [intros ??; by rewrite lookup_empty|done|intros ??; by rewrite lookup_empty]. Qed.

Lemma new_call_origin h s url endpoint tls g t client md path pool :
  endpoint_uri url = Ok (endpoint, tls) -> pool_known h g endpoint s pool ->
  find_method pool (gr_service g) (gr_method g) = Ok (md, path) ->
  (gr_channel_pool_size g = None -> gs_channels s !! (is_raw t, endpoint) = Some client) ->
  origin_ok h s (new_call url endpoint tls g t client md path).
Proof. intros He Hp Hm Hc. split; [done| |done]. exists pool, md. done. Qed.

Lemma state_ok_step h s s' :
  state_ok h s -> knows_more s s' ->
  (forall c, c ∈ gs_calls s' -> exists d, same_call d c /\ call_ok c /\ (d ∈ gs_calls s \/ origin_ok h s' d)) -> state_ok h s'.
Proof.
  intros Hs Hk Hcalls c Hc. destruct (Hcalls c Hc) as (d & Hd & Hok & Hor). split; [done|].
  apply (origin_same h s' d c Hd). destruct Hor as [Hin|]; [|done]. apply (origin_mono h s s' d Hk). by apply Hs.
Qed.

Lemma state_ok_kept h s s' : state_ok h s -> gs_calls s' = gs_calls s -> knows_more s s' -> state_ok h s'.
Proof.
  intros Hs Hc Hk. apply (state_ok_step h s); [done..|]. rewrite Hc. intros c Hin. exists c. split; [done|]. split; [by apply Hs|by left].
Qed.

Lemma run_call_ok h request g a start idx c s :
  state_ok h s -> gs_calls s !! idx = Some c -> request_ok g a ->
  state_ok h (run_call request g a start idx c s).1.
Proof.
  intros Hs Hc Hg. assert (c ∈ gs_calls s) as Hin by by eapply list_elem_of_lookup_2.
  destruct (run_call_spec request g a start idx c s (proj1 (Hs c Hin)) Hg) as (c' & Hc' & Hsame & Hr).
  destruct (answer _ _ _ _ _ _) as [x r]. rewrite Hr. apply (state_ok_step h s); [done|done|].
  simpl. intros d Hd. apply list_elem_of_lookup in Hd as [i Hd].
  apply list_lookup_insert_Some in Hd as [(-> & -> & _)|[_ Hd]]; [exists c; split; [done|]; split; [done|by left]|].
  apply list_elem_of_lookup_2 in Hd. exists d. split; [done|]. split; [by apply Hs|by left].
Qed.

Lemma run_new_ok h request g a t s : state_ok h s -> request_ok g a -> state_ok h (run_new h request g a t s).1.
Proof.
  intros Hs Hg. unfold run_new. destruct (endpoint_uri (pr_url request)) as [[endpoint tls]|e] eqn:He; [|done].
  pose proof (take_channel_keeps (is_raw t) endpoint tls (gr_channel_pool_size g) s) as [Hc1 Hk1].
  destruct (take_channel _ _ _ _ s) as [s1 [client|e]] eqn:Ht; [|by apply (state_ok_kept h s)]. simpl in Hc1, Hk1.
  pose proof (descriptors_of_keeps h request g (gclock (gs_net s)) endpoint client s1) as [Hc2 Hk2].
  assert (state_ok h s1) as Hs1 by by apply (state_ok_kept h s).
  destruct (descriptors_of _ _ _ _ _ _ _) as [s2 [pool|r]] eqn:Hd; simpl in Hc2, Hk2; [|by apply (state_ok_kept h s1)].
  assert (state_ok h s2) as Hs2 by by apply (state_ok_kept h s1).
  pose proof (descriptors_of_own _ _ _ _ _ _ _ _ _ Hd) as Hown.
  destruct (find_method _ _ _) as [[md path]|e] eqn:Hm; [|done].
  apply run_call_ok; [|exact (list_lookup_middle (gs_calls s2) [] _ _ eq_refl)|done].
  apply (state_ok_step h s2); [done|done|]. simpl. intros c Hin. exists c. split; [done|].
  apply elem_of_app in Hin as [Hin|Hin]; [split; [by apply Hs2|by left]|].
  apply list_elem_of_singleton in Hin as ->. split; [apply new_call_ok|right].
  apply (new_call_origin _ _ _ _ _ _ _ _ _ _ pool); [done|exact (descriptors_of_own _ _ _ _ _ _ _ _ _ Hd)|done|].
  intros Hn. rewrite Hn in Ht. apply take_channel_own in Ht. simpl. by eapply lookup_weaken; [|apply Hk2].
Qed.

Lemma find_call_Some calls url g t idx c :
  find_call calls url g t = Some (idx, c) -> calls !! idx = Some c /\ identity_matches (cc_identity c) url g t = true.
Proof. intros Hf. apply list_find_Some in Hf as (? & ? & _). done. Qed.

(** A virtual user: it starts without calls, sends requests of the plan, and meanwhile the network and the pools all users
    share go their way. *)
Inductive user (h : GrpcHandler) : GrpcState -> Prop :=
| user_new s : gs_calls s = [] -> user h s
| user_request s request a g :
    user h s -> ro_grpc (pr_options request) = Some g -> request_ok g a -> user h (execute h request a s).1
| user_meanwhile s x shared descriptors :
    user h s -> gs_descriptors s ⊆ descriptors -> user h (set_gnet x (set_shared shared (set_descriptors descriptors s))).

Lemma user_ok h s : user h s -> state_ok h s.
Proof.
  induction 1 as [s Hs|s request a g _ IH Hg Ha|s x shared d _ IH Hd].
  - intros c. rewrite Hs. by intros ?%elem_of_nil.
  - unfold execute. rewrite Hg. destruct (find_call _ _ _ _) as [[idx c]|] eqn:Hf; [|by apply run_new_ok].
    apply run_call_ok; [done| |done]. by apply (find_call_Some _ _ _ _ _ _ Hf).
  - apply (state_ok_kept h s); [done|done|by split].
Qed.

(** ** Nothing shows *)

(** Two outcomes that nobody can tell apart: the answer, and the network after it. *)
Definition same_outcome (p q : GrpcState * result string ProtocolResponse) : Prop := p.2 = q.2 /\ gs_net p.1 = gs_net q.1.

Lemma prepare_direct_same c d g headers : same_call c d -> prepare_direct c g headers = prepare_direct d g headers.
Proof. destruct c, d. intros [? ? ? ? ? ?]. simpl in *. by subst. Qed.

Lemma run_call_same request g a start i j c d s t :
  call_ok c -> call_ok d -> same_call c d -> request_ok g a -> gs_net s = gs_net t ->
  same_outcome (run_call request g a start i c s) (run_call request g a start j d t).
Proof.
  intros Hc Hd Hsame Hg Hn.
  destruct (run_call_spec request g a start i c s Hc Hg) as (c' & _ & _ & Hrc).
  destruct (run_call_spec request g a start j d t Hd Hg) as (d' & _ & _ & Hrd).
  rewrite <- (prepare_direct_same c d g _ Hsame), <- (sc_client _ _ Hsame), <- Hn in Hrd.
  destruct (answer _ _ _ _ _ _) as [x r]. by rewrite Hrc, Hrd.
Qed.

Lemma run_new_same h request g a t s l :
  request_ok g a -> same_outcome (run_new h request g a t s) (run_new h request g a t (set_calls l s)).
Proof.
  intros Hg. unfold run_new. destruct (endpoint_uri (pr_url request)) as [[endpoint tls]|e]; [|done].
  rewrite take_channel_forgetful. destruct (take_channel _ _ _ _ s) as [s1 [client|e]]; [|done]. simpl.
  rewrite (descriptors_of_forgetful h request g (gclock (gs_net s)) endpoint client s1 l).
  destruct (descriptors_of _ _ _ _ _ _ s1) as [s2 [pool|r]]; [|done]. simpl.
  destruct (find_method _ _ _) as [[md path]|e]; [|done].
  apply run_call_same; [apply new_call_ok..|done|done|done].
Qed.

(** A kept call is what resolving its request again gives, and resolving asks nothing of the network. *)
Lemma run_kept_same h request g a t s idx c :
  state_ok h s -> request_ok g a -> gr_channel_pool_size g = None -> find_call (gs_calls s) (pr_url request) g t = Some (idx, c) ->
  same_outcome (run_call request g a (gclock (gs_net s)) idx c s) (run_new h request g a t (set_calls [] s)).
Proof.
  intros Hs Hg Hn Hf. apply find_call_Some in Hf as [Hc Hi]. destruct (Hs c (list_elem_of_lookup_2 _ _ _ Hc)) as [Hok Hor].
  unfold identity_matches in Hi. rewrite !andb_true_iff, !bool_decide_eq_true in Hi.
  destruct Hi as [[[[[[[Hurl Hsv] Hme] Hre] Hpf] Hpi] Hps] Htr]. apply Bool.eqb_prop in Hre.
  destruct Hor as [He (pool & md & Hp & Hm & Hin & Hout & Hsh) Hcl].
  rewrite Hps in Hcl. specialize (Hcl Hn). rewrite Hurl in He. simpl in Hp. rewrite Hre, Hpf, Hpi, Hsv in Hp. rewrite Hsv, Hme in Hm.
  unfold run_new. rewrite He, Hn. unfold take_channel. simpl. rewrite <- Htr, Hcl.
  rewrite (descriptors_of_known h request g _ _ _ (set_calls [] s) pool) by exact Hp. rewrite Hm.
  apply run_call_same; [done|apply new_call_ok| |done|done]. split; simpl; [|done..].
  destruct (cc_identity c). simpl in *. congruence.
Qed.

(** C29: what a virtual user of gRPC keeps per call never shows.  Between two requests the channel, the path, the messages as
    they were encoded, the metadata and the resolved field checks of a method are kept, some of them under the addresses of
    what the plan owns.  In every state a user can reach, through whatever requests of the plan it has sent and whatever the
    network did meanwhile, a request that does not ask for a pool of channels is answered exactly as it would be had all
    those calls been forgotten, and it leaves the network in the same state. *)
Theorem grpc_cache_transparent h s request a g :
  user h s -> ro_grpc (pr_options request) = Some g -> request_ok g a -> gr_channel_pool_size g = None ->
  same_outcome (execute h request a s) (execute h request a (set_calls [] s)).
Proof.
  intros Hs%user_ok Hg Ha Hn. unfold execute. rewrite Hg. simpl.
  destruct (find_call (gs_calls s) _ _ _) as [[idx c]|] eqn:Hf; [by apply (run_kept_same h)|by apply run_new_same].
Qed.
End Cache.

Module GrpcCacheDemo.
(** A server with one method that answers what it is sent; messages are text. *)
#[local] Instance json : JsonText := {| to_json v := match v with Text s => s | _ => "?" end; from_json _ := Err "?" |}.
#[local] Instance protobuf : Protobuf := {|
  DescriptorPool := list string; ServiceDescriptor := string; MethodDescriptor := string; MessageDescriptor := string;
  DynamicMessage := string; FileDescriptorSet := list string;
  compile_protos files _ := Ok files;
  pool_from_set files := Ok files;
  get_service_by_name _ name := if bool_decide (name = "Echo") then Some name else None;
  service_full_name s := s;
  service_methods _ := ["Say"];
  method_name m := m;
  method_input _ := "Line";
  method_output _ := "Line";
  is_client_streaming _ := false;
  is_server_streaming _ := false;
  message_full_name m := m;
  get_field_by_name _ name := if bool_decide (name = "text") then Some (mkField "text" false KString false) else None;
  message_new _ := "";
  message_deserialize _ v := match v with Text s => Ok s | _ => Err "not a line" end;
  encode_to_vec m := m;
  encoded_len m := Z.of_nat (str_len m);
  message_decode _ bytes := Ok bytes;
  has_field _ _ := true;
  get_field m _ := PvString m;
  message_to_json m := Ok (Text m);
  kind_debug _ := "string";
  value_debug v := match v with PvString s => s | _ => "?" end;
  str_debug s := s;
  base64_standard _ := None;
|}.
#[local] Instance network : GrpcNetwork := {|
  gnet := Z; Chan := string; gclock x := x;
  open_channel _ _ endpoint _ x := (x + 1, Ok endpoint);
  reflect _ _ x := (x, None);
  call_on _ c x := (x + 10, Some (mkCallEnd (wc_frames c) None));
|}.

Definition parse (s : string) : result string HttpUrl := Ok (mkHttpUrl (mkUrl "grpc" (Some "h") "") (Some 50051) (Some 50051) None s).
Definition handler : GrpcHandler := mkGrpcHandler None "/plans".
Definition say (checks : option (list GrpcProtobufFieldCheck)) : GrpcRequest :=
  mkGrpcRequest ["echo.proto"] [] false "Echo" "Say" (Some (Text "hello")) [] true [("k", "v")] None TransportChannel false false checks.
Definition checked : GrpcRequest := say (Some [mkFieldCheck 0 "text" (Some (Text "hello")) true false]).
Definition request (g : GrpcRequest) : PreparedRequest :=
  mkPrepared "r" "grpc" "" "grpc://h:50051/" [] "" (5 * 1000000000) false 0 (mkRequestOptions None (Some g) None None).
Definition sends (g : GrpcRequest) (a : Arcs) (s : GrpcState) : GrpcState * result string ProtocolResponse :=
  execute parse Ok Ok (fun _ => None) (fun _ => "5s") handler (request g) a s.
Definition fresh : GrpcState := mkGrpcState ∅ ∅ [] ∅ ∅ 0.
Definition arcs : Arcs := mkArcs 1 2 3.

(** The second request opens no channel: the network is asked for the call alone. *)
Example a_call_is_kept :
  let p := sends checked arcs fresh in
  gs_net p.1 = 11 /\ length (gs_calls p.1) = 1%nat
  /\ (let q := sends checked arcs p.1 in gs_net q.1 = 21 /\ length (gs_calls q.1) = 1%nat
        /\ match q.2 with Ok r => (rs_body r, rs_bytes_sent r, rs_bytes_received r) = ("hello", 10, 10) | Err _ => False end).
Proof. vm_compute. done. Qed.

(** The address of a message that is not the plan's would be taken for the plan's. *)
Example an_address_is_trusted :
  let other := mkGrpcRequest ["echo.proto"] [] false "Echo" "Say" (Some (Text "bye")) [] true [] None TransportChannel false false None in
  match (sends other arcs (sends (say None) arcs fresh).1).2 with Ok r => rs_body r = "hello" | Err _ => False end.
Proof. vm_compute. done. Qed.

(** Two lists of files, one key. *)
Example keys_collide : protos_key ["a|b"] [] = protos_key ["a"; "b"] [].
Proof. reflexivity. Qed.

(** A directory given relatively is put in front of each file anew. *)
Example joined_twice :
  (proto_paths (mkGrpcHandler None "tests") ["tests/echo.proto"] []).1 = ["tests/tests/echo.proto"].
Proof. vm_compute. done. Qed.

(** The port of a URL is not known when it is its scheme's. *)
Example default_port_refused :
  endpoint_uri (fun s => Ok (mkHttpUrl (mkUrl "https" (Some "h") "/") None (Some 443) None s)) "https://h:443/"
  = Err "url `https://h:443/` has no port".
Proof. reflexivity. Qed.

Lemma request_ok_checked : request_ok (fun _ => [Text "hello"]) (fun _ => default [] (gr_protobuf_checks checked)) checked arcs.
Proof. split; intros k [= <-]; reflexivity. Qed.

Lemma grpc_cache_transparent_witness :
  let s := (sends checked arcs fresh).1 in
  length (gs_calls s) = 1%nat
  /\ same_outcome (sends checked arcs s) (sends checked arcs (set_calls [] s)).
Proof.
  split; [vm_compute; reflexivity|].
  refine (grpc_cache_transparent parse Ok Ok (fun _ => None) (fun _ => "5s") (fun _ => [Text "hello"])
            (fun _ => default [] (gr_protobuf_checks checked)) handler (sends checked arcs fresh).1 (request checked) arcs checked
            _ eq_refl request_ok_checked eq_refl).
  refine (user_request parse Ok Ok (fun _ => None) (fun _ => "5s") _ _ handler fresh (request checked) arcs checked _ eq_refl
            request_ok_checked).
  apply user_new. reflexivity.
Defined.
End GrpcCacheDemo.
