(* ===== verification/Plugins.v ===== *)
(** * Plugins (crate loadr-plugin-api: install.rs, manifest.rs, registry.rs)

    The index plugins are resolved in, their verification and unpacking, the manifests, and
    the registry of installed plugins, over the file tree of [Files].  The archive, hash,
    TOML and JSON libraries and the loaders of libraries are parameters. *)

From Stdlib Require Import Ascii.
From S2P Require Import Prelude Str Dur Value Protocol Aggregate StateErr Bytes Files.

Definition LOADR_PLUGIN_ABI_VERSION : Z := 1.
Definition DISABLED_MARKER : string := "disabled".

Inductive PluginError :=
| PluginIo (path : Path) (source : IoError)
| PluginManifestError (path : Path) (message : string)
| PluginNotFound (name : string) (dir : Path)
| PluginKindMismatch (name expected actual : string)
| PluginOther (message : string).

(** ** Manifests *)

Inductive PluginKind := Extractor | Assertion | Output | Protocol | Service.
Inductive PluginType := Wasm | Native.
Inductive PluginAbi := AbiNative | AbiC.
#[export] Instance PluginKind_eq_dec : EqDecision PluginKind.
Proof. solve_decision. Defined.

Definition kind_as_str (k : PluginKind) : string :=
  match k with
  | Extractor => "extractor"
  | Assertion => "assertion"
  | Output => "output"
  | Protocol => "protocol"
  | Service => "service"
  end.
Definition kind_parse (s : string) : option PluginKind :=
  if bool_decide (s = "extractor") then Some Extractor
  else if bool_decide (s = "assertion") then Some Assertion
  else if bool_decide (s = "output") then Some Output
  else if bool_decide (s = "protocol") then Some Protocol
  else if bool_decide (s = "service") then Some Service
  else None.

(** [ManifestFile]: what TOML decodes to; [mf_config] is the [config] table as JSON. *)
Record ManifestFile := mkManifestFile {
  mf_name : string;
  mf_version : string;
  mf_kind : PluginKind;
  mf_type : PluginType;
  mf_entry : string;
  mf_abi : option PluginAbi;
  mf_description : string;
  mf_schemes : list string;
  mf_capabilities : list string;
  mf_config : option (result string Value);
}.

Record PluginManifest := mkManifest {
  name : string;
  version : string;
  kind : PluginKind;
  plugin_type : PluginType;
  abi : option PluginAbi;
  entry : Path;
  description : string;
  default_config : Value;
  schemes : list string;
  capabilities : list string;
  dir : Path;
  enabled : bool;
}.

Notation host := (stm Disk PluginError).
Definition io {A} (p : Path) (m : sys A) : host A := st_map_err (PluginIo p) m.
(** A call that cannot fail ([exists], [is_file]). *)
Definition ask {A} (m : sys A) : host A := st_map_err (PluginIo []) m.

(** Shallow merge: a key of [overrides] wins. *)
Definition merge_config (defaults overrides : Value) : Value :=
  match defaults, overrides with
  | Object d, Object o => Object (foldl (fun m kv => map_insert kv.1 kv.2 m) d o)
  | d, Null => d
  | _, o => o
  end.
Definition merged_config (m : PluginManifest) (overrides : Value) : Value :=
  merge_config (default_config m) overrides.

Section Manifest.
(** [toml::from_str]. *)
Context (toml_manifest : string -> result string ManifestFile).

Definition manifest_parse (toml_str : string) (dir : Path) : host PluginManifest :=
  let err message := PluginManifestError (path_join dir ["plugin.toml"]) message in
  let! file := st_lift (result_map_err err (toml_manifest toml_str)) in
  let! config := match mf_config file with
                 | Some (Ok v) => st_ret v
                 | Some (Err e) => st_err (err ("cannot convert [config] to JSON: " +:+ e))
                 | None => st_ret Null
                 end in
  let! disabled := ask (exists_ (path_join dir [DISABLED_MARKER])) in
  st_ret (mkManifest (mf_name file) (mf_version file) (mf_kind file) (mf_type file) (mf_abi file)
            (path_join dir (path (mf_entry file))) (mf_description file) config (mf_schemes file)
            (mf_capabilities file) dir (negb disabled)).

(** [fs::read_to_string]: bytes that are not UTF-8 are an error. *)
Definition read_to_string (p : Path) : sys string :=
  let! bytes := read p in
  if bool_decide (from_utf8_lossy bytes = bytes) then st_ret bytes else st_err InvalidData.

Definition manifest_load (dir : Path) : host PluginManifest :=
  let p := path_join dir ["plugin.toml"] in
  let! text := io p (read_to_string p) in
  manifest_parse text dir.

(** ** The registry *)

(** One entry of the directory being listed. *)
Definition next_entry (dir : Path) : host unit := io dir (syscall (st_ret tt)).

Fixpoint discover_entries (dir : Path) (names : list string) : host (list PluginManifest) :=
  match names with
  | [] => st_ret []
  | n :: names =>
      let! _ := next_entry dir in
      let sub := path_join dir [n] in
      let! d := ask (is_dir sub) in
      let! f := (if d : bool then ask (is_file (path_join sub ["plugin.toml"])) else st_ret false) in
      if negb f then discover_entries dir names
      else
        let! m := st_try (manifest_load sub) in
        let! out := discover_entries dir names in
        st_ret (match m with Ok m => m :: out | Err _ => out end)
  end.

Definition by_name (a b : PluginManifest) : Prop := str_le (name a) (name b).
#[local] Instance by_name_dec (a b : PluginManifest) : Decision (by_name a b).
Proof. unfold by_name. apply _. Defined.

Definition discover (dir : Path) : host (list PluginManifest) :=
  let! entries := st_try (io dir (read_dir dir)) in
  match entries with
  | Ok names => let! out := discover_entries dir names in st_ret (merge_sort by_name out)
  | Err (PluginIo _ NotFound) => st_ret []
  | Err e => st_err e
  end.

Definition find_plugin (plugins_dir : Path) (n : string) (ms : list PluginManifest) (wanted : PluginManifest -> bool) :
    result PluginError PluginManifest :=
  ok_or (List.find (fun m => bool_decide (name m = n) && wanted m) ms) (PluginNotFound n plugins_dir).

Definition set_enabled (plugins_dir : Path) (n : string) (enabled : bool) : host unit :=
  let! ms := discover plugins_dir in
  let! m := st_lift (find_plugin plugins_dir n ms (fun _ => true)) in
  let marker := path_join (dir m) [DISABLED_MARKER] in
  if enabled then
    let! r := st_try (io marker (remove_file marker)) in
    match r with
    | Ok _ | Err (PluginIo _ NotFound) => st_ret tt
    | Err e => st_err e
    end
  else io marker (write marker "").

Fixpoint copy_entries (src dest : Path) (names : list string) : host unit :=
  match names with
  | [] => st_ret tt
  | n :: names =>
      let! _ := next_entry src in
      let from := path_join src [n] in
      let! f := ask (is_file from) in
      let! _ := (if f : bool then let to_ := path_join dest [n] in io to_ (copy from to_) else st_ret tt) in
      copy_entries src dest names
  end.

Definition install_from_dir (src plugins_dir : Path) : host PluginManifest :=
  let! manifest := manifest_load src in
  let dest := path_join plugins_dir (path (name manifest)) in
  let! _ := io dest (create_dir_all dest) in
  let! names := io src (read_dir src) in
  let! _ := copy_entries src dest names in
  manifest_load dest.

(** install.rs. *)
Definition remove (plugins_dir : Path) (n : string) : host bool :=
  let d := path_join plugins_dir (path n) in
  let! f := ask (is_file (path_join d ["plugin.toml"])) in
  if negb f then st_ret false
  else let! _ := io d (remove_dir_all d) in st_ret true.

(** ** Unpacking *)

(** The components of an archive member that are kept, below the plugin's directory. *)
Definition flatten_entry_path (p : Path) : option Path :=
  match mapM (fun c => match c with Normal s => Some s | _ => None end) (components p) with
  | Some (c :: comps) => Some (if bool_decide (comps = []) then [c] else comps)
  | _ => None
  end.

(** What the tar crate yields for a member: its path, and its [unpack]. *)
Record TarEntry := mkTarEntry {
  te_path : result string string;
  te_unpack : Path -> sys unit;
}.
(** What the zip crate yields: [enclosed_name], and the contents. *)
Record ZipEntry := mkZipEntry {
  ze_enclosed_name : option string;
  ze_is_dir : bool;
  ze_data : result string string;
}.

Class Archives := {
  tar_gz_entries : string -> result string (list (result string TarEntry));
  zip_entries : string -> result string (list (result string ZipEntry));
  (** SHA-256, 32 bytes; [str::to_lowercase]; an I/O error's text. *)
  sha256 : string -> list Z;
  lowercase : string -> string;
  io_text : IoError -> string;
}.

Section Archives.
Context `{Archives}.

Definition make_parent (out : Path) : host unit :=
  match parent out with
  | Some p => io p (create_dir_all p)
  | None => st_ret tt
  end.

Fixpoint unpack_tar_entries (dest : Path) (es : list (result string TarEntry)) : host unit :=
  match es with
  | [] => st_ret tt
  | Err e :: _ => st_err (PluginOther ("reading tar entry: " +:+ e))
  | Ok e :: es =>
      let! p := st_lift (result_map_err (fun e => PluginOther ("bad tar entry path: " +:+ e)) (te_path e)) in
      match flatten_entry_path (path p) with
      | None => unpack_tar_entries dest es
      | Some rel =>
          let out := path_join dest rel in
          let! _ := make_parent out in
          let! _ := st_map_err (fun e => PluginOther ("extracting `" +:+ path_text rel +:+ "`: " +:+ io_text e))
                      (te_unpack e out) in
          unpack_tar_entries dest es
      end
  end.

Definition unpack_tar_gz (bytes : string) (dest : Path) : host unit :=
  let! _ := io dest (create_dir_all dest) in
  let! es := st_lift (result_map_err (fun e => PluginOther ("reading tar archive: " +:+ e)) (tar_gz_entries bytes)) in
  unpack_tar_entries dest es.

Fixpoint unpack_zip_entries (dest : Path) (es : list (result string ZipEntry)) : host unit :=
  match es with
  | [] => st_ret tt
  | Err e :: _ => st_err (PluginOther ("reading zip entry: " +:+ e))
  | Ok e :: es =>
      match ze_enclosed_name e ≫= (fun name => flatten_entry_path (path name)) with
      | None => unpack_zip_entries dest es
      | Some rel =>
          if ze_is_dir e then unpack_zip_entries dest es
          else
            let out := path_join dest rel in
            let! _ := make_parent out in
            let! buf := st_lift (result_map_err
                          (fun e => PluginOther ("extracting `" +:+ path_text rel +:+ "`: " +:+ e)) (ze_data e)) in
            let! _ := io out (write out buf) in
            unpack_zip_entries dest es
      end
  end.

Definition unpack_zip (bytes : string) (dest : Path) : host unit :=
  let! _ := io dest (create_dir_all dest) in
  let! es := st_lift (result_map_err (fun e => PluginOther ("reading zip archive: " +:+ e)) (zip_entries bytes)) in
  unpack_zip_entries dest es.

Definition unpack_archive (url bytes : string) (dest : Path) : host unit :=
  let lower := lowercase url in
  if ends_with lower ".zip" then unpack_zip bytes dest
  else if ends_with lower ".tar.gz" || ends_with lower ".tgz" then unpack_tar_gz bytes dest
  else st_err (PluginOther ("unsupported archive type for `" +:+ url +:+ "` (expected .tar.gz, .tgz or .zip)")).

(** ** The index *)

Record IndexArtifact := mkArtifact {
  art_url : string;
  art_sha256 : string;
  art_entry : string;
}.
Record IndexVersion := mkIndexVersion {
  min_loadr_abi : string;
  artifacts : gmap string IndexArtifact;
}.
Record IndexEntry := mkIndexEntry {
  ie_kind : string;
  ie_description : string;
  latest : string;
  versions : gmap string IndexVersion;
}.
Record PluginIndex := mkIndex {
  schema : Z;
  plugins : gmap string IndexEntry;
}.
Record Resolved := mkResolved {
  rs_name : string;
  rs_version : string;
  rs_kind : string;
  rs_target : string;
  rs_artifact : IndexArtifact;
}.

(** The keys of a [BTreeMap], in its order. *)
Definition keys {A} (m : gmap string A) : list string := sort_strings (map_to_list m).*1.

(** [json_index] is [serde_json::from_slice]. *)
Definition index_parse (json_index : string -> result string PluginIndex) (json : string) : result PluginError PluginIndex :=
  let? index := result_map_err (fun e => PluginOther ("invalid plugin index: " +:+ e)) (json_index json) in
  if negb (Z.eqb (schema index) 1) then
    Err (PluginOther ("unsupported plugin index schema " +:+ Z_to_string (schema index)
                      +:+ " (this loadr understands schema 1)"))
  else Ok index.

Definition search (index : PluginIndex) (term : string) : list string :=
  let needle := lowercase term in
  filter (fun n =>
    match plugins index !! n with
    | Some e => str_contains (lowercase n) needle || str_contains (lowercase (ie_description e)) needle
    | None => false
    end = true) (keys (plugins index)).

(** [str::parse::<u32>]. *)
Definition parse_u32 (s : string) : option Z :=
  let r := match chars s with "+"%char :: r => r | r => r end in
  match take_digits r with
  | ((_ :: _) as d, []) => if Z.ltb (digits_val d) (2 ^ 32) then Some (digits_val d) else None
  | _ => None
  end.

Definition abi_compatible (min_loadr_abi : string) : result PluginError bool :=
  let? major := ok_or (parse_u32 (default min_loadr_abi (head (str_split min_loadr_abi "."))))
                  (PluginOther ("malformed min_loadr_abi `" +:+ min_loadr_abi +:+ "` in index")) in
  Ok (Z.leb major LOADR_PLUGIN_ABI_VERSION).

Definition resolve_plugin (index : PluginIndex) (n : string) (version : option string) (target : string) :
    result PluginError Resolved :=
  let? e := ok_or (plugins index !! n)
              (PluginOther ("plugin `" +:+ n +:+ "` is not in the index (try `loadr plugin search " +:+ n +:+ "`)")) in
  let version := default (latest e) version in
  let? ver := ok_or (versions e !! version)
                (PluginOther ("plugin `" +:+ n +:+ "` has no version `" +:+ version +:+ "` (available: "
                              +:+ join ", " (keys (versions e)) +:+ ")")) in
  let? compatible := abi_compatible (min_loadr_abi ver) in
  if negb compatible then
    Err (PluginOther ("plugin `" +:+ n +:+ "` v" +:+ version +:+ " needs loadr plugin ABI >= " +:+ min_loadr_abi ver
                      +:+ " but this loadr provides " +:+ Z_to_string LOADR_PLUGIN_ABI_VERSION
                      +:+ ".0; upgrade loadr or pick another version"))
  else
    let? artifact := ok_or (artifacts ver !! target)
                       (PluginOther ("plugin `" +:+ n +:+ "` v" +:+ version +:+ " has no artifact for target `"
                                     +:+ target +:+ "` (available: " +:+ join ", " (keys (artifacts ver)) +:+ ")")) in
    Ok (mkResolved n version (ie_kind e) target artifact).

(** ** Verification and installation *)

Definition hex_byte (b : Z) : list ascii :=
  (fun d => char_of (if Z.ltb d 10 then 48 + d else 87 + d)) <$> [b / 16; b mod 16].
Definition sha256_hex (bytes : string) : string := of_chars (concat (hex_byte <$> sha256 bytes)).

Definition verify_sha256 (bytes expected : string) : result PluginError unit :=
  let actual := sha256_hex bytes in
  if eq_ignore_ascii_case actual expected then Ok tt
  else Err (PluginOther ("sha256 mismatch: expected " +:+ expected +:+ ", downloaded artifact hashed to " +:+ actual)).

Definition reconcile_entry (staging : Path) (index_entry : string) : host unit :=
  let! manifest := manifest_load staging in
  let want := default "" (file_name (entry manifest)) in
  let have := path_join staging (path index_entry) in
  let target := path_join staging (path want) in
  let! f := ask (is_file have) in
  let! _ := (if f && negb (path_eqb have target) then
               let! e := ask (exists_ target) in
               if e : bool then st_ret tt else io target (rename have target)
             else st_ret tt) in
  let! f := ask (is_file target) in
  if f : bool then st_ret tt
  else st_err (PluginOther ("unpacked archive is missing the plugin artifact `" +:+ want +:+ "`")).

(** [tempfile::Builder::tempdir]: a directory that did not exist, removed when its handle is
    dropped. *)
Context (temp_name : Disk -> Path).
Definition tempdir : host Path :=
  st_map_err (fun e => PluginOther ("creating temp dir: " +:+ io_text e))
    (fun d => let p := temp_name d in
              match mkdir p d with
              | (Ok _, d) => (Ok p, d)
              | (Err e, d) => (Err e, d)
              end).
Definition with_tempdir {A} (body : Path -> host A) : host A :=
  let! tmp := tempdir in
  let! r := st_try (body tmp) in
  let! _ := st_try (io tmp (remove_dir_all tmp)) in
  st_lift r.

Definition install_resolved (resolved : Resolved) (fetch : string -> result PluginError string) (plugins_dir : Path) :
    host PluginManifest :=
  let! bytes := st_lift (fetch (art_url (rs_artifact resolved))) in
  let! _ := st_lift (verify_sha256 bytes (art_sha256 (rs_artifact resolved))) in
  with_tempdir (fun tmp =>
    let staging := path_join tmp ["unpacked"] in
    let! _ := unpack_archive (art_url (rs_artifact resolved)) bytes staging in
    let! _ := reconcile_entry staging (art_entry (rs_artifact resolved)) in
    install_from_dir staging plugins_dir).

Definition install_archive_bytes (archive_name bytes : string) (plugins_dir : Path) : host PluginManifest :=
  with_tempdir (fun tmp =>
    let staging := path_join tmp ["unpacked"] in
    let! _ := unpack_archive archive_name bytes staging in
    install_from_dir staging plugins_dir).
End Archives.
End Manifest.

(** ** Staying in the plugins directory *)

Lemma io_confined {A} (D : Loc) (p : Path) (m : sys A) : respects (confined D) m -> respects (confined D) (io p m).
Proof. apply respects_map_err. Qed.
Lemma ask_confined {A} (D : Loc) (m : sys A) : respects (confined D) m -> respects (confined D) (ask m).
Proof. apply respects_map_err. Qed.

(** Calls that only look. *)
Ltac look :=
  repeat first
    [ apply io_confined | apply ask_confined
    | apply is_file_confined | apply is_dir_confined | apply exists_confined | apply read_confined
    | apply read_dir_confined | apply metadata_confined
    | apply (respects_ret (confined _)) | apply (respects_err (confined _)) | apply (respects_lift (confined _))
    | apply respects_try | apply (respects_bind (confined _)); [|intros ?]
    | case_match ].

Lemma flatten_normal (p rel : Path) :
  Forall slashless p -> flatten_entry_path p = Some rel -> Forall normal rel /\ rel <> [].
Proof.
  intros Hp. unfold flatten_entry_path. destruct (mapM _ _) as [[|c comps]|] eqn:E; [done| |done].
  assert (Forall normal (c :: comps)) as Hn.
  { apply Forall_forall. intros s Hs. apply (component_normal p); [done|].
    apply mapM_Some_1 in E. apply list_elem_of_lookup in Hs as [i Hi].
    destruct (Forall2_lookup_r _ _ _ _ _ E Hi) as (x & Hx & Hxs). destruct x; try done. injection Hxs as ->.
    by eapply list_elem_of_lookup_2. }
  intros [= <-]. case_bool_decide as Hc; [subst|]; [by split|]. by apply Forall_cons in Hn as [_ Hn].
Qed.

Section Confined.
Context (toml_manifest : string -> result string ManifestFile).

Lemma manifest_load_confined (D : Loc) (p : Path) : respects (confined D) (manifest_load toml_manifest p).
Proof. unfold manifest_load, read_to_string, manifest_parse. look. Qed.

Lemma manifest_load_name (p : Path) (d d' : Disk) (m : PluginManifest) :
  manifest_load toml_manifest p d = (Ok m, d') -> exists text f, toml_manifest text = Ok f /\ name m = mf_name f /\ entry m = path_join p (path (mf_entry f)).
Proof.
  unfold manifest_load. rewrite st_bind_Ok. intros (text & d1 & _ & H).
  unfold manifest_parse in H. rewrite st_bind_Ok in H. destruct H as (f & d2 & Hf & H).
  unfold st_lift in Hf. destruct (toml_manifest text) as [f'|e] eqn:Et; [|done]. simpl in Hf. injection Hf as -> _.
  exists text, f. split; [done|]. rewrite st_bind_Ok in H. destruct H as (config & d3 & _ & H).
  rewrite st_bind_Ok in H. destruct H as (b & d4 & _ & H). by injection H as <- _.
Qed.

Section Zip.
Context `{Archives} (D : Loc) (HD : D <> []) (HDn : Forall normal D).
Notation R := (confined D).

Lemma make_parent_confined (rel : Loc) : Forall normal rel -> rel <> [] -> respects R (make_parent (at_ (D ++ rel))).
Proof.
  intros Hn Hr. unfold make_parent. destruct rel as [|x rel _] using rev_ind; [done|].
  rewrite app_assoc, parent_at.
  - apply io_confined, create_dir_all_confined. by apply Forall_app in Hn as [Hn _].
  - rewrite <- app_assoc. by apply Forall_app.
  - by intros [? _]%app_nil.
Qed.

Lemma unpack_zip_entries_confined (es : list (result string ZipEntry)) (base : Loc) :
  Forall normal base -> respects R (unpack_zip_entries (at_ (D ++ base)) es).
Proof.
  intros Hb. induction es as [|[e|e] es IH]; cbn [unpack_zip_entries]; [look| |look].
  destruct (_ ≫= _) as [rel|] eqn:E; [|exact IH].
  apply bind_Some in E as (p & _ & [Hn Hr]%flatten_normal); [|apply path_slashless]. case_match; [exact IH|].
  rewrite join_at; [|by apply Forall_app|by intros [? _]%app_nil|done]. rewrite <- app_assoc.
  assert (Forall normal (base ++ rel)) by by apply Forall_app.
  assert (base ++ rel <> []) by by intros [_ ?]%app_nil.
  apply (respects_bind R); [by apply make_parent_confined|intros _].
  apply (respects_bind R); [apply (respects_lift R)|intros buf].
  apply (respects_bind R); [apply io_confined; by apply write_confined|intros _]. exact IH.
Qed.

Lemma unpack_zip_confined (bytes : string) (base : Loc) :
  Forall normal base -> respects R (unpack_zip bytes (at_ (D ++ base))).
Proof.
  intros Hb. unfold unpack_zip. apply (respects_bind R); [apply io_confined; by apply create_dir_all_confined|intros _].
  apply (respects_bind R); [apply (respects_lift R)|intros es]. by apply unpack_zip_entries_confined.
Qed.

Lemma path_join_empty (L : Loc) : Forall normal L -> L <> [] -> path_join (at_ L) [""] = at_ (L ++ [""]).
Proof.
  intros HL Hne. unfold path_join, at_. cbn [is_absolute]. rewrite bool_decide_false by (by destruct L).
  rewrite bool_decide_false; [done|].
  destruct L as [|s L'] using rev_ind; [done|]. change ("" :: L' ++ [s]) with (("" :: L') ++ [s]). rewrite last_snoc.
  intros [= ->]. apply Forall_app in HL as [_ [[Hs _] _]%Forall_cons]. done.
Qed.

(** The entry of the index is a plain name; the manifest's is cut to its last component,
    which has no slash. *)
Lemma reconcile_confined (base : Loc) (index_entry : string) :
  Forall normal base -> normal index_entry ->
  respects R (reconcile_entry toml_manifest (at_ (D ++ base)) index_entry).
Proof.
  intros Hb Hi. unfold reconcile_entry. apply (respects_bind_ok R); [apply manifest_load_confined|intros d m d' Hm].
  apply manifest_load_name in Hm as (_ & f & _ & _ & He). rewrite He.
  rewrite (path_single index_entry) by apply Hi. assert (D ++ base <> []) by by intros [? _]%app_nil.
  assert (Forall normal (D ++ base)) by by apply Forall_app.
  rewrite (join_at (D ++ base) [index_entry]), <- app_assoc by (done || by constructor).
  apply (respects_bind R); [look|intros g]. apply (respects_bind R); [|intros _; look].
  destruct (g && negb _); [|look]. apply (respects_bind R); [look|intros []; [look|]]. apply io_confined.
  destruct (file_name (path_join _ _)) as [want|] eqn:E; cbn [default from_option id].
  - apply file_name_normal in E; [|apply path_join_slashless; [|apply path_slashless]].
    + rewrite (path_single want) by apply E. rewrite (join_at (D ++ base) [want]), <- app_assoc by (done || by constructor).
      apply rename_confined; try (apply Forall_app; split; [done|by constructor]); by intros [_ ?]%app_nil.
    + constructor; [vm_compute; by inversion 1|]. by apply normal_slashless.
  - change (path "") with [""]. rewrite path_join_empty, <- app_assoc by done. by apply rename_onto_dir.
Qed.

Lemma copy_entries_confined (src : Path) (base : Loc) (names : list string) :
  Forall normal base -> Forall normal names -> respects R (copy_entries src (at_ (D ++ base)) names).
Proof.
  intros Hb Hn. induction Hn as [|n names Hn _ IH]; cbn [copy_entries]; [look|].
  apply (respects_bind R); [apply io_confined, respects_syscall, (respects_ret R)|intros _].
  apply (respects_bind R); [look|intros f]. apply (respects_bind R); [|intros _; exact IH].
  destruct f; [|look]. assert (D ++ base <> []) by by intros [? _]%app_nil.
  rewrite (join_at (D ++ base) [n]), <- app_assoc by (done || by apply Forall_app || by constructor). apply io_confined.
  apply copy_confined; [apply Forall_app; split; [done|by constructor]|by intros [_ ?]%app_nil].
Qed.

Lemma install_from_dir_confined (src : Path) :
  (forall text f, toml_manifest text = Ok f -> normal (mf_name f)) ->
  respects R (install_from_dir toml_manifest src (at_ D)).
Proof.
  intros Hnames. unfold install_from_dir.
  apply (respects_bind_ok R); [apply manifest_load_confined|intros d m d' Hm].
  apply manifest_load_name in Hm as (text & f & Hf & Hm & _). apply Hnames in Hf. rewrite <- Hm in Hf.
  rewrite (path_single (name m)) by apply Hf. rewrite join_at by (done || by constructor).
  apply (respects_bind R); [apply io_confined, create_dir_all_confined; by constructor|intros _].
  apply (respects_bind_ok R); [look|intros d1 names d2 Hr]. apply (respects_bind R); [|intros _; apply manifest_load_confined].
  apply copy_entries_confined; [by constructor|].
  unfold io, st_map_err in Hr. destruct (read_dir src d1) as [[ns|e] d3] eqn:E; [|done]. injection Hr as <- _.
  by eapply read_dir_normal.
Qed.
End Zip.

(** *** The temporary directory and the plugins directory *)

(** Neither holds the other. *)
Definition apart (T P : Loc) : Prop := ~ T `prefix_of` P /\ ~ P `prefix_of` T.

(** Both stay settled, and nothing else is touched. *)
Definition confined2 (T P : Loc) (d d' : Disk) : Prop :=
  settled T d -> settled P d ->
  settled T d' /\ settled P d' /\ forall L, ~ T `prefix_of` L -> ~ P `prefix_of` L -> tree d' !! L = tree d !! L.

#[export] Instance confined2_refl (T P : Loc) : Reflexive (confined2 T P).
Proof. intros d HT HP. done. Qed.
#[export] Instance confined2_trans (T P : Loc) : Transitive (confined2 T P).
Proof.
  intros d1 d2 d3 H12 H23 HT HP. destruct (H12 HT HP) as (HT2 & HP2 & H2), (H23 HT2 HP2) as (HT3 & HP3 & H3).
  split; [done|]. split; [done|]. intros L HL HL'. by rewrite H3, H2.
Qed.

(** Touching only what is below [T] leaves [P] settled. *)
Lemma settled_apart (T P : Loc) (d d' : Disk) :
  apart T P -> (forall L, ~ T `prefix_of` L -> tree d' !! L = tree d !! L) -> settled P d -> settled P d'.
Proof.
  intros [H1 H2] Hd [P1 P2 P3 P4]. split; [done|done| |].
  - intros L HL. specialize (P3 L HL). destruct L as [|x L]; [done|]. simpl in *. rewrite Hd; [done|].
    intros HT. apply H1. by transitivity (x :: L).
  - intros L s HL. rewrite Hd; [by apply P4|]. intros HT. destruct (prefix_weak_total _ _ _ HT HL); [by apply H1|by apply H2].
Qed.

Lemma confined2_l {A} (T P : Loc) (m : host A) : apart T P -> respects (confined T) m -> respects (confined2 T P) m.
Proof.
  intros Ha Hm d HT HP. destruct (Hm d HT) as [HT' H]. split; [done|]. split; [by eapply settled_apart|]. intros L HL _. by apply H.
Qed.
Lemma confined2_r {A} (T P : Loc) (m : host A) : apart T P -> respects (confined P) m -> respects (confined2 T P) m.
Proof.
  intros [H1 H2] Hm d HT HP. destruct (Hm d HP) as [HP' H]. split; [|split; [done|]].
  - eapply (settled_apart P T); [by split|exact H|done].
  - intros L _ HL. by apply H.
Qed.
End Confined.

Section Install.
Context `{Archives} (toml_manifest : string -> result string ManifestFile) (temp_name : Disk -> Path).

(** What tempfile promises of the name it picks: below a real directory, and unused. *)
Record fresh_temp (T : Loc) (t : string) (d : Disk) : Prop := mkFreshTemp {
  ft_name : temp_name d = at_ (T ++ [t]);
  ft_normal : Forall normal (T ++ [t]);
  ft_dirs : forall L, L `prefix_of` T -> node_at (tree d) L = Some Dir;
  ft_unused : forall L, (T ++ [t]) `prefix_of` L -> tree d !! L = None;
}.

Lemma mkdir_fresh (T : Loc) (t : string) (d d' : Disk) (r : result IoError unit) :
  fresh_temp T t d -> mkdir (temp_name d) d = (r, d') ->
  (r = Ok tt /\ tree d' = <[T ++ [t] := Dir]> (tree d)) \/ (exists e, r = Err e) /\ tree d' = tree d.
Proof.
  intros [H1 H2 H3 H4]. rewrite H1. unfold mkdir, syscall. rewrite strip_slashes_at; [|done|by intros [_ ?]%app_nil].
  assert (forall fs, resolve false (mkDisk (tree d) (cwd d) fs) (at_ (T ++ [t])) = Ok (T ++ [t])) as Hr.
  { intros fs. unfold resolve, at_. rewrite bool_decide_false by (by destruct T).
    replace (is_absolute ("" :: T ++ [t])) with true by (destruct T as [|x T]; [done|by destruct x]).
    apply Forall_app in H2 as [HT Ht]. apply Forall_cons in Ht as [Ht _]. simpl tree.
    rewrite walk_trivial by done. rewrite walk_dirs by done. simpl app.
    assert (node_at (tree d) (T ++ [t]) = None) as Hn.
    { specialize (H4 (T ++ [t]) (reflexivity _)). by destruct T. }
    rewrite walk_eq; [by rewrite Hn|done| |by rewrite Hn]. unfold is_dir_at. by rewrite H3 by done. }
  assert (node_at (tree d) (T ++ [t]) = None) as Hn.
  { specialize (H4 (T ++ [t]) (reflexivity _)). by destruct T. }
  cbn [at_]. fold (at_ (T ++ [t])).
  destruct (faults d) as [|[e|] fs]; rewrite ?Hr; simpl; rewrite ?Hn; intros [= <- <-]; eauto.
Qed.

Lemma fresh_settled (T : Loc) (t : string) (d d' : Disk) :
  fresh_temp T t d -> tree d' = <[T ++ [t] := Dir]> (tree d) -> settled (T ++ [t]) d'.
Proof.
  intros [H1 H2 H3 H4] Ht. split; [by intros [_ ?]%app_nil|done| |].
  - intros L HL. rewrite Ht, node_at_insert by (by intros [_ ?]%app_nil). case_decide as HE; [done|]. apply H3.
    destruct HL as [k Hk]. destruct k as [|x k _] using rev_ind; [rewrite app_nil_r in Hk; by destruct HE|].
    rewrite app_assoc in Hk. apply app_inj_tail in Hk as [-> _]. by eexists.
  - intros L s HL. rewrite Ht, lookup_insert_Some. intros [[_ ?]|[_ Hs]]; [done|]. by rewrite H4 in Hs.
Qed.

Lemma remove_dir_all_settled (D : Loc) (d : Disk) :
  settled D d -> forall L, ~ D `prefix_of` L -> tree (remove_dir_all (at_ D) d).2 !! L = tree d !! L.
Proof.
  intros Hd L HL. unfold remove_dir_all, syscall.
  assert (forall fs, settled D (mkDisk (tree d) (cwd d) fs)) as Hs by (intros fs; destruct Hd; by split).
  destruct (faults d) as [|[e|] fs]; [|done|];
    rewrite (resolve_self D _ (Hs _)), (node_self D _ (Hs _)); simpl;
    (destruct (tree d !! L) as [n|] eqn:E;
     [apply map_lookup_filter_Some; by split|apply map_lookup_filter_None; by left]).
Qed.

(** A body confined to the temporary directory and the plugins directory. *)
Lemma with_tempdir_confined {A} (T P : Loc) (t : string) (d : Disk) (body : Path -> host A) :
  fresh_temp T t d -> apart (T ++ [t]) P -> settled P d ->
  respects (confined2 (T ++ [t]) P) (body (at_ (T ++ [t]))) ->
  forall L, ~ (T ++ [t]) `prefix_of` L -> ~ P `prefix_of` L ->
  tree (with_tempdir temp_name body d).2 !! L = tree d !! L.
Proof.
  intros Hf Ha HP Hb L HL HL'. unfold with_tempdir, tempdir, st_bind at 1, st_map_err at 1.
  destruct (mkdir (temp_name d) d) as [r d1] eqn:Em.
  destruct (mkdir_fresh T t d d1 r Hf Em) as [[-> Ht]|[[e ->] Ht]]; cbn [result_map_err snd]; [|by rewrite Ht].
  pose proof (fresh_settled T t d d1 Hf Ht) as HT1. rewrite (ft_name T t d Hf).
  assert (forall K, ~ (T ++ [t]) `prefix_of` K -> tree d1 !! K = tree d !! K) as Hd1.
  { intros K HK. rewrite Ht. apply lookup_insert_ne. intros <-. by apply HK. }
  pose proof (settled_apart _ _ _ _ Ha Hd1 HP) as HP1.
  unfold st_bind, st_try. specialize (Hb d1 HT1 HP1). destruct (body (at_ (T ++ [t])) d1) as [r2 d2].
  destruct Hb as (HT2 & HP2 & H2). unfold io, st_map_err.
  pose proof (remove_dir_all_settled _ d2 HT2 L HL) as H3. simpl in H2, H3.
  destruct (remove_dir_all (at_ (T ++ [t])) d2) as [r3 d3]. simpl in *. rewrite H3, H2 by done. by apply Hd1.
Qed.

(** C37: installing from the index changes nothing before the download has the digest the index pins.  And a zip archive, whatever
    its members are called and whatever fails on the machine, changes nothing but the plugins directory and the temporary
    directory it is unpacked in, on these conditions: the plugins directory exists, no symbolic link is on its path or
    below it (with a link in it an installation does write outside, [link_leads_out]), the temporary directory is new and neither of
    the two is inside the other, and the name in the manifest and the entry of the index are plain names. *)
Theorem install_confined (resolved : Resolved) (fetch : string -> result PluginError string) (P T : Loc) (t : string)
    (d : Disk) :
  let '(r, d') := install_resolved toml_manifest temp_name resolved fetch (at_ P) d in
  (is_ok r = true \/ d' <> d ->
   exists bytes, fetch (art_url (rs_artifact resolved)) = Ok bytes
     /\ eq_ignore_ascii_case (sha256_hex bytes) (art_sha256 (rs_artifact resolved)) = true)
  /\ ((forall text f, toml_manifest text = Ok f -> normal (mf_name f)) ->
      normal (art_entry (rs_artifact resolved)) ->
      ends_with (lowercase (art_url (rs_artifact resolved))) ".zip" = true ->
      settled P d -> fresh_temp T t d -> apart (T ++ [t]) P ->
      forall L, ~ P `prefix_of` L -> ~ (T ++ [t]) `prefix_of` L -> tree d' !! L = tree d !! L).
Proof.
  destruct (install_resolved _ _ _ _ _ _) as [r d'] eqn:E. unfold install_resolved, st_bind at 1, st_lift at 1 in E.
  destruct (fetch _) as [bytes|e] eqn:Ef; [|injection E as <- <-; split; [by intros [|]|done]].
  unfold st_bind at 1, st_lift at 1, verify_sha256 in E.
  destruct (eq_ignore_ascii_case _ _) eqn:Es; [|injection E as <- <-; split; [by intros [|]|done]].
  split; [by eauto|]. intros Hnames Hentry Hzip HP Hf Ha L HL HL'.
  replace d' with (r, d').2 by done. rewrite <- E. apply (with_tempdir_confined T P t); try done.
  clear E.
  pose proof (ft_normal T t d Hf) as Hn. assert (T ++ [t] <> []) by by intros [_ ?]%app_nil.
  assert (Forall normal ["unpacked"]) as Hu by (repeat constructor; vm_compute; [done|set_solver]).
  rewrite (join_at (T ++ [t]) ["unpacked"]) by done.
  apply (respects_bind (confined2 (T ++ [t]) P)); [|intros _; apply (respects_bind (confined2 (T ++ [t]) P)); [|intros _]].
  - apply confined2_l; [done|]. unfold unpack_archive. rewrite Hzip. by apply unpack_zip_confined.
  - apply confined2_l; [done|]. by apply reconcile_confined.
  - apply confined2_r; [done|]. apply install_from_dir_confined; [apply HP|apply HP|done].
Qed.
End Install.

(** ** Runs *)

Module PluginsDemo.

Lemma settled_check (D : Loc) (d : Disk) :
  D <> [] -> Forall normal D ->
  forallb (fun n => bool_decide (node_at (tree d) (take n D) = Some Dir)) (seq 0 (S (length D))) = true ->
  forallb (fun kn => match kn.2 with Link _ => false | _ => true end) (map_to_list (tree d)) = true ->
  settled D d.
Proof.
  intros H1 H2 H3 H4. split; [done|done| |].
  - intros L [k ->]. rewrite forallb_forall in H3. specialize (H3 (length L)).
    apply bool_decide_eq_true_1 in H3; [by rewrite take_app_length in H3|].
    apply in_seq. rewrite length_app. lia.
  - intros L s _ HL. rewrite forallb_forall in H4. specialize (H4 (L, Link s)).
    apply elem_of_map_to_list, list_elem_of_In, H4 in HL. done.
Qed.

(** Creating a symbolic link, as the tar crate's [unpack] does for a link member. *)
Definition symlink (target : string) (p : Path) : sys unit :=
  syscall (fun d => match resolve false d p with
                    | Ok l => match node_at (tree d) l with
                              | Some _ => (Err AlreadyExists, d)
                              | None => (Ok tt, with_tree (<[l := Link target]> (tree d)) d)
                              end
                    | Err e => (Err e, d)
                    end).

Definition file (name data : string) : result string ZipEntry := Ok (mkZipEntry (Some name) false (Ok data)).
Definition tar_file (name data : string) : result string TarEntry := Ok (mkTarEntry (Ok name) (fun p => write p data)).
Definition tar_link (name target : string) : result string TarEntry := Ok (mkTarEntry (Ok name) (symlink target)).

#[local] Instance demo_archives : Archives := {|
  zip_entries _ := Ok [file "demo-1.0/plugin.toml" "demo"; file "../evil" "x"; file "demo-1.0/lib.so" "ELF"];
  tar_gz_entries _ := Ok [tar_file "plugin.toml" "demo"; tar_link "demo/out" "/etc"; tar_file "demo/out/passwd" "x"];
  sha256 _ := [222; 173];
  lowercase s := s;
  io_text _ := "io";
|}.

(** The manifest's text is the plugin's name. *)
Definition toml (text : string) : result string ManifestFile :=
  Ok (mkManifestFile text "1.0" Output Native "lib.so" None "" [] [] None).
(** The same, refusing a name that is not plain. *)
Definition plain_toml (text : string) : result string ManifestFile :=
  if bool_decide (normal text) then toml text else Err "name".
Definition temp (d : Disk) : Path := at_ ["tmp"; "x"].

Definition disk : Disk :=
  mkDisk (list_to_map [(["tmp"], Dir); (["p"], Dir); (["etc"], Dir); (["etc"; "passwd"], File "root")]) ["p"] [].
Definition demo (url index_entry sha : string) : Resolved :=
  mkResolved "demo" "1.0" "output" "t" (mkArtifact url sha index_entry).
Definition fetch (url : string) : result PluginError string := Ok "bytes".

Example installs :
  let '(r, d') := install_resolved plain_toml temp (demo "d.zip" "lib.so" "DEAD") fetch (at_ ["p"]) disk in
  is_ok r = true /\ tree d' !! ["p"; "demo"; "lib.so"] = Some (File "ELF") /\ tree d' !! ["p"; "demo"; "plugin.toml"] = Some (File "demo")
  /\ tree d' !! ["evil"] = None /\ tree d' !! ["tmp"; "x"] = None.
Proof. vm_compute. repeat split. Qed.

Example refuses :
  install_resolved plain_toml temp (demo "d.zip" "lib.so" "beef") fetch (at_ ["p"]) disk
  = (Err (PluginOther "sha256 mismatch: expected beef, downloaded artifact hashed to dead"), disk).
Proof. vm_compute. reflexivity. Qed.

Example toggles :
  let '(_, d1) := install_resolved plain_toml temp (demo "d.zip" "lib.so" "DEAD") fetch (at_ ["p"]) disk in
  let '(_, d2) := set_enabled plain_toml (at_ ["p"]) "demo" false d1 in
  (match (discover plain_toml (at_ ["p"]) d2).1 with Ok ms => (fun m => (name m, enabled m)) <$> ms | Err _ => [] end)
  = [("demo", false)].
Proof. vm_compute. reflexivity. Qed.

(** A tar archive with a link member writes outside. *)
Example tar_link_escapes :
  let '(r, d') := install_archive_bytes plain_toml temp "d.tgz" "bytes" (at_ ["p"]) disk in
  tree d' !! ["etc"; "passwd"] = Some (File "x").
Proof. vm_compute. reflexivity. Qed.

(** A link in the plugins directory under the name of the plugin leads an installation out of it, plain names or not. *)
Example link_leads_out :
  let d := mkDisk (<[["p"; "demo"] := Link "/etc"]> (tree disk)) ["p"] [] in
  let '(r, d') := install_resolved plain_toml temp (demo "d.zip" "lib.so" "DEAD") fetch (at_ ["p"]) d in
  is_ok r = true /\ tree d' !! ["etc"; "lib.so"] = Some (File "ELF").
Proof. vm_compute. repeat split. Qed.

(** The manifest's name and the name to remove are joined to the directory unchecked. *)
Definition disk2 : Disk :=
  mkDisk (<[["src"] := Dir]> (<[["src"; "plugin.toml"] := File "../etc"]> (<[["src"; "passwd"] := File "x"]> (tree disk)))) [] [].
Example name_escapes :
  let '(r, d') := install_from_dir toml (at_ ["src"]) (at_ ["p"]) disk2 in
  is_ok r = true /\ tree d' !! ["etc"; "passwd"] = Some (File "x").
Proof. vm_compute. repeat split. Qed.
Example remove_escapes :
  let '(r, d') := remove (at_ ["p"]) "../src" disk2 in
  r = Ok true /\ tree d' !! ["src"; "passwd"] = None.
Proof. vm_compute. repeat split. Qed.

(** The entry the index names is moved from wherever it leads. *)
Definition entry_tree : gmap Loc Node :=
  <[["s"] := Dir]> (<[["s"; "plugin.toml"] := File "demo"]> (tree disk)).
Example entry_escapes :
  let '(r, d') := reconcile_entry toml (at_ ["s"]) "/etc/passwd" (mkDisk entry_tree [] []) in
  r = Ok tt /\ tree d' !! ["etc"; "passwd"] = None /\ tree d' !! ["s"; "lib.so"] = Some (File "root").
Proof. vm_compute. repeat split. Qed.

Lemma disk_settled : settled ["p"] disk.
Proof. apply settled_check; [done|refine (bool_decide_eq_true_1 _ _); vm_compute; reflexivity|vm_compute; reflexivity|vm_compute; reflexivity]. Qed.

Lemma disk_fresh : fresh_temp temp ["tmp"] "x" disk.
Proof.
  split; [done|refine (bool_decide_eq_true_1 _ _); vm_compute; reflexivity| |].
  - intros L [k Hk]. destruct L as [|a [|b L]]; [done| |done]. injection Hk as <- <-. vm_compute. reflexivity.
  - intros L [k ->]. apply not_elem_of_list_to_map_1. simpl. intros Hin.
    repeat (apply elem_of_cons in Hin as [Hin|Hin]; [discriminate|]). by apply elem_of_nil in Hin.
Qed.

Lemma install_confined_witness :
  tree (install_resolved plain_toml temp (demo "d.zip" "lib.so" "DEAD") fetch (at_ ["p"]) disk).2 !! ["etc"; "passwd"]
  = Some (File "root").
Proof.
  pose proof (install_confined plain_toml temp (demo "d.zip" "lib.so" "DEAD") fetch ["p"] ["tmp"] "x" disk) as H.
  destruct (install_resolved _ _ _ _ _ _) as [r d']. destruct H as [_ H]. simpl.
  rewrite H; [vm_compute; reflexivity| | |vm_compute; reflexivity|exact disk_settled|exact disk_fresh| | |].
  - intros text f. unfold plain_toml. case_bool_decide as Hn; [|discriminate]. intros Hf. injection Hf as <-. exact Hn.
  - refine (bool_decide_eq_true_1 _ _). vm_compute. reflexivity.
  - split; refine (bool_decide_eq_true_1 _ _); vm_compute; reflexivity.
  - refine (bool_decide_eq_true_1 _ _). vm_compute. reflexivity.
  - refine (bool_decide_eq_true_1 _ _). vm_compute. reflexivity.
Defined.
End PluginsDemo.
