(* ===== verification/PluginLoad.v ===== *)
(** * Loading plugins (loadr-plugin-api/src/registry.rs)

    Which loader a manifest or a plan's [plugins:] entry goes to, and what the engine gets.
    The loaders of WebAssembly components and of native libraries are parameters. *)

From Stdlib Require Import Ascii.
From S2P Require Import Prelude Str Value Protocol StateErr Files Plugins.

(** The loaders, over handles [X] of whatever they load. *)
Class PluginLoaders (X : Type) := {
  wasm_extractor : Path -> result PluginError X;
  wasm_assertion : Path -> result PluginError X;
  (** The kind a component reports. *)
  wasm_probe_kind : Path -> result PluginError string;
  is_c_abi_plugin : Path -> bool;
  (** [CAbiPlugin]: its handle, and the kind and schemes of its [info()]. *)
  c_load : Path -> result PluginError X;
  c_kind : X -> string;
  c_schemes : X -> list string;
  c_make_protocol : X -> Value -> result PluginError X;
  (** [NativePlugin]. *)
  native_load : Path -> result PluginError X;
  native_kind : X -> string;
  native_schemes : X -> list string;
  native_make_output : X -> Value -> result PluginError X;
  native_make_protocol : X -> Value -> result PluginError X;
  native_maybe_service : X -> option X;
  native_make_data_source : X -> Value -> option X;
  handler_name : X -> string;
}.

Inductive LoadedPlugin (X : Type) :=
| LoadedExtractor (x : X)
| LoadedAssertion (x : X)
| LoadedOutput (x : X)
| LoadedProtocol (x : X)
| LoadedService (service data_source : option X).
Arguments LoadedExtractor {X} x.
Arguments LoadedAssertion {X} x.
Arguments LoadedOutput {X} x.
Arguments LoadedProtocol {X} x.
Arguments LoadedService {X} service data_source.

Definition loaded_kind {X : Type} (l : LoadedPlugin X) : PluginKind :=
  match l with
  | LoadedExtractor _ => Extractor
  | LoadedAssertion _ => Assertion
  | LoadedOutput _ => Output
  | LoadedProtocol _ => Protocol
  | LoadedService _ _ => Service
  end.

(** loadr-config/src/plan.rs. *)
Record PluginRef := mkPluginRef {
  pr_name : string;
  pr_path : option Path;
  pr_config : Value;
  pr_enabled : bool;
}.

Section Load.
Context {X : Type} `{PluginLoaders X}.

(** The process-wide table of schemes is the state. *)
Notation loading := (stm (gmap string string) PluginError).

Definition register_protocol_schemes (protocol : string) (schemes : list string) : loading unit := fun aliases =>
  (Ok tt, if bool_decide (schemes = []) then aliases else register_plugin_schemes protocol schemes aliases).

Definition use_c_abi (abi : option PluginAbi) (p : Path) : bool :=
  match abi with
  | Some AbiC => true
  | Some AbiNative => false
  | None => is_c_abi_plugin p
  end.

Definition or_default (schemes_override schemes : list string) : list string :=
  if bool_decide (schemes_override = []) then schemes else schemes_override.

Definition load_native_protocol (p : Path) (abi : option PluginAbi) (schemes_override : list string) (config : Value) : loading X :=
  if use_c_abi abi p then
    let! plugin := st_lift (c_load p) in
    let schemes := or_default schemes_override (c_schemes plugin) in
    let! handler := st_lift (c_make_protocol plugin config) in
    let! _ := register_protocol_schemes (handler_name handler) schemes in
    st_ret handler
  else
    let! plugin := st_lift (native_load p) in
    let schemes := or_default schemes_override (native_schemes plugin) in
    let! handler := st_lift (native_make_protocol plugin config) in
    let! _ := register_protocol_schemes (handler_name handler) schemes in
    st_ret handler.

Definition load_native_service (n : string) (plugin : X) (config : Value) : loading (LoadedPlugin X) :=
  match native_maybe_service plugin, native_make_data_source plugin config with
  | None, None => st_err (PluginKindMismatch n "service or data_source" (native_kind plugin))
  | service, data_source => st_ret (LoadedService service data_source)
  end.

Definition load_with_config (m : PluginManifest) (overrides : Value) : loading (LoadedPlugin X) :=
  let config := merged_config m overrides in
  match plugin_type m, kind m with
  | Wasm, Extractor => let! x := st_lift (wasm_extractor (entry m)) in st_ret (LoadedExtractor x)
  | Wasm, Assertion => let! x := st_lift (wasm_assertion (entry m)) in st_ret (LoadedAssertion x)
  | Wasm, k =>
      st_err (PluginOther ("wasm plugins cannot provide `" +:+ kind_as_str k
        +:+ "` (only extractor/assertion); use a native plugin for `" +:+ name m +:+ "`"))
  | Native, Protocol =>
      let! handler := load_native_protocol (entry m) (abi m) (schemes m) config in st_ret (LoadedProtocol handler)
  | Native, k =>
      let! plugin := st_lift (native_load (entry m)) in
      match k with
      | Output => let! x := st_lift (native_make_output plugin config) in st_ret (LoadedOutput x)
      | Service => load_native_service (name m) plugin config
      | other =>
          st_err (PluginOther ("native plugins cannot provide `" +:+ kind_as_str other
            +:+ "` (only output/protocol/service); use a wasm plugin for `" +:+ name m +:+ "`"))
      end
  end.

(** [path.extension()] is [wasm], in any case: the text after the last dot of the file
    name, when something precedes the dot. *)
Definition is_wasm (p : Path) : bool :=
  match file_name p with
  | Some n =>
      match str_rfind n "." with
      | Some i => negb (Nat.eqb i 0) && eq_ignore_ascii_case (slice_from n (S i)) "wasm"
      | None => false
      end
  | None => false
  end.

(** [plugin_ref.config.get("kind")], when it is a string. *)
Definition config_kind (config : Value) : option string :=
  match config with
  | Object m => match map_get "kind" m with Some (Text k) => Some k | _ => None end
  | _ => None
  end.

(** An artifact without a manifest next to it. *)
Definition load_artifact (r : PluginRef) (p : Path) : loading (LoadedPlugin X) :=
  if is_wasm p then
    let! k := st_lift (match config_kind (pr_config r) with Some k => Ok k | None => wasm_probe_kind p end) in
    match kind_parse k with
    | Some Extractor => let! x := st_lift (wasm_extractor p) in st_ret (LoadedExtractor x)
    | Some Assertion => let! x := st_lift (wasm_assertion p) in st_ret (LoadedAssertion x)
    | _ => st_err (PluginOther ("wasm plugin `" +:+ pr_name r +:+ "` reports unsupported kind `" +:+ k +:+ "`"))
    end
  else if is_c_abi_plugin p then
    let! plugin := st_lift (c_load p) in
    match kind_parse (c_kind plugin) with
    | Some Protocol =>
        let! handler := st_lift (c_make_protocol plugin (pr_config r)) in
        let! _ := register_protocol_schemes (handler_name handler) (c_schemes plugin) in
        st_ret (LoadedProtocol handler)
    | _ =>
        st_err (PluginOther ("C-ABI plugin `" +:+ pr_name r +:+ "` reports kind `" +:+ c_kind plugin
          +:+ "`; the C ABI only supports `protocol` plugins"))
    end
  else
    let! plugin := st_lift (native_load p) in
    match kind_parse (native_kind plugin) with
    | Some Output => let! x := st_lift (native_make_output plugin (pr_config r)) in st_ret (LoadedOutput x)
    | Some Protocol =>
        let! handler := st_lift (native_make_protocol plugin (pr_config r)) in
        let! _ := register_protocol_schemes (handler_name handler) (native_schemes plugin) in
        st_ret (LoadedProtocol handler)
    | Some Service => load_native_service (pr_name r) plugin (pr_config r)
    | _ =>
        st_err (PluginOther ("native plugin `" +:+ pr_name r +:+ "` reports unsupported kind `" +:+ native_kind plugin +:+ "`"))
    end.

(** *** From a plan *)

Context (toml_manifest : string -> result string ManifestFile).

(** What [load_ref] settles on the disk: a manifest to load, or a bare artifact. *)
Definition locate_ref (r : PluginRef) (plugins_dir : Path) : stm Disk PluginError (PluginManifest + Path) :=
  match pr_path r with
  | Some p =>
      match parent p with
      | Some dir =>
          let! f := ask (is_file (path_join dir ["plugin.toml"])) in
          if f : bool then let! m := manifest_load toml_manifest dir in st_ret (inl m) else st_ret (inr p)
      | None => st_ret (inr p)
      end
  | None =>
      let! ms := discover toml_manifest plugins_dir in
      let! m := st_lift (find_plugin plugins_dir (pr_name r) ms enabled) in
      st_ret (inl m)
  end.

Definition load_ref (r : PluginRef) (plugins_dir : Path) (d : Disk) : loading (LoadedPlugin X) :=
  match (locate_ref r plugins_dir d).1 with
  | Ok (inl m) => load_with_config m (pr_config r)
  | Ok (inr p) => load_artifact r p
  | Err e => st_err e
  end.

(** A service has something to offer. *)
Definition loaded_wf (l : LoadedPlugin X) : Prop :=
  match l with LoadedService None None => False | _ => True end.

(** What a manifest loads is what it declares: the loaded plugin has the manifest's kind,
    components are extractors and assertions, libraries are outputs, protocols and services,
    and a service offers at least one capability; nothing else loads. *)
Theorem load_kind_exact (m : PluginManifest) (overrides : Value) (a a' : gmap string string) (l : LoadedPlugin X) :
  load_with_config m overrides a = (Ok l, a') ->
  loaded_kind l = kind m /\ loaded_wf l
  /\ match plugin_type m with
     | Wasm => kind m = Extractor \/ kind m = Assertion
     | Native => kind m = Output \/ kind m = Protocol \/ kind m = Service
     end.
Proof.
  unfold load_with_config, load_native_service, st_bind, st_lift, st_ret, st_err.
  intros Hl. repeat (case_match; simplify_eq; try done); simpl; auto.
Qed.

(** An entry of a plan without a path gets the installed plugin of its name, never a
    disabled one. *)
Theorem ref_by_name (r : PluginRef) (plugins_dir : Path) (d : Disk) (m : PluginManifest) :
  pr_path r = None -> (locate_ref r plugins_dir d).1 = Ok (inl m) -> name m = pr_name r /\ enabled m = true.
Proof.
  intros Hp. unfold locate_ref, find_plugin. rewrite Hp. unfold st_bind, st_lift.
  destruct (discover _ _ d) as [[ms|e] d']; simpl; [|done].
  destruct (List.find _ ms) as [m'|] eqn:E; simpl; [|done]. intros [= ->].
  apply List.find_some in E as [_ [Hn He]%andb_true_iff]. split; [by apply bool_decide_eq_true in Hn|done].
Qed.
End Load.

Module LoadDemo.
#[local] Instance loaders : PluginLoaders string := {|
  wasm_extractor p := Ok "x"; wasm_assertion p := Ok "a"; wasm_probe_kind p := Ok "extractor";
  is_c_abi_plugin p := false; c_load p := Ok "c"; c_kind x := "protocol"; c_schemes x := ["c"];
  c_make_protocol x v := Ok "c"; native_load p := Ok "n"; native_kind x := "service"; native_schemes x := ["n"];
  native_make_output x v := Ok "o"; native_make_protocol x v := Ok "h"; native_maybe_service x := None;
  native_make_data_source x v := match v with Null => None | _ => Some "d" end; handler_name x := x |}.

Definition manifest (k : PluginKind) (t : PluginType) (config : Value) : PluginManifest :=
  mkManifest "demo" "1.0" k t None ["lib.so"] "" config ["Foo"] [] [""; "p"] true.

Example loads :
  (load_with_config (manifest Protocol Native Null) Null ∅) = (Ok (LoadedProtocol "h"), {[ "foo" := "h" ]})
  /\ (load_with_config (manifest Service Native Null) Null ∅).1 = Err (PluginKindMismatch "demo" "service or data_source" "service")
  /\ (load_with_config (manifest Service Native (Bool true)) Null ∅).1 = Ok (LoadedService None (Some "d"))
  /\ is_wasm (path "p/X.WASM") = true /\ is_wasm (path "p/.wasm") = false.
Proof. vm_compute. repeat split. Qed.

Lemma load_kind_exact_witness :
  loaded_kind (LoadedService None (Some "d")) = Service.
Proof.
  exact (proj1 (load_kind_exact (manifest Service Native (Bool true)) Null ∅ ∅ (LoadedService None (Some "d")) eq_refl)).
Defined.
End LoadDemo.
