(* ===== verification/Payload.v ===== *)
(** * Adversarial payloads (crate loadr-payload)

    The catalog of payload kinds, the parsing of [name:magnitude], and the generators. *)

From Stdlib Require Import Ascii.
From S2P Require Import Prelude Str Dur Observe.

Inductive PayloadError :=
| Unknown (name : string)
| BadMagnitude (text : string)
| TooLarge (name : string) (got max : Z) (param : string).

Record PayloadInfo := mkPayloadInfo {
  pi_name : string;
  pi_category : string;
  pi_param : string;
  pi_default : Z;
  pi_max : Z;
  pi_content_type : string;
}.

(** [CATALOG], without the prose. *)
Definition CATALOG : list PayloadInfo := [
  mkPayloadInfo "nested-json" "nesting" "depth" 10000 5000000 "application/json";
  mkPayloadInfo "nested-array" "nesting" "depth" 10000 5000000 "application/json";
  mkPayloadInfo "nested-markdown-blockquote" "nesting" "depth" 50000 5000000 "text/markdown";
  mkPayloadInfo "nested-markdown-bracket" "nesting" "depth" 50000 5000000 "text/markdown";
  mkPayloadInfo "nested-xml" "nesting" "depth" 20000 5000000 "application/xml";
  mkPayloadInfo "nested-html" "nesting" "depth" 20000 5000000 "text/html";
  mkPayloadInfo "nested-parens" "nesting" "depth" 50000 5000000 "text/plain";
  mkPayloadInfo "nested-graphql" "nesting" "depth" 2000 200000 "application/json";
  mkPayloadInfo "billion-laughs" "amplification" "levels" 9 12 "application/xml";
  mkPayloadInfo "yaml-alias-bomb" "amplification" "levels" 10 24 "application/x-yaml";
  mkPayloadInfo "json-array" "volume" "count" 1000000 50000000 "application/json";
  mkPayloadInfo "json-object-keys" "volume" "count" 1000000 20000000 "application/json";
  mkPayloadInfo "long-string" "volume" "bytes" 10000000 200000000 "application/json";
  mkPayloadInfo "csv-rows" "volume" "count" 1000000 50000000 "text/csv";
  mkPayloadInfo "redos" "regex" "bytes" 50000 10000000 "text/plain";
  mkPayloadInfo "zalgo" "unicode" "count" 100000 20000000 "text/plain";
  mkPayloadInfo "bignum" "numeric" "count" 100000 50000000 "application/json";
  mkPayloadInfo "hash-collision" "collision" "count" 65536 1000000 "application/json"].

Definition info (name : string) : option PayloadInfo :=
  List.find (fun p => bool_decide (pi_name p = name)) CATALOG.

Record PayloadSpec := mkPayloadSpec {
  ps_name : string;
  ps_magnitude : Z;
}.

Definition parse_spec (spec : string) : result PayloadError PayloadSpec :=
  let '(name, mag) := match split_once spec ":" with
                      | Some (n, m) => (n, Some m)
                      | None => (spec, None)
                      end in
  let? meta := ok_or (info name) (Unknown name) in
  let? magnitude := match mag with
                    | None => Ok (pi_default meta)
                    | Some m => ok_or (parse_u64 (chars (trim m))) (BadMagnitude m)
                    end in
  if Z.ltb (pi_max meta) magnitude then Err (TooLarge name magnitude (pi_max meta) (pi_param meta))
  else Ok (mkPayloadSpec name magnitude).

(** ** Generators *)

(** [s.repeat(n)]. *)
Definition repeat_str (s : string) (n : nat) : string := of_chars (concat (replicate n (chars s))).
Definition quote : string := of_chars [byte_at 34].
Definition newline : string := of_chars [byte_at 10].
Definition num (n : nat) : string := Z_to_string (Z.of_nat n).
(** What a loop over [0..n] pushes. *)
Definition pushes (f : nat -> string) (from n : nat) : string := of_chars (concat ((fun i => chars (f i)) <$> seq from n)).
(** The same with commas in between. *)
Definition commas (f : nat -> string) (n : nat) : string :=
  pushes (fun i => (if Nat.ltb 0 i then "," else "") +:+ f i) 0 n.

Definition wrap (open core close : string) (n : nat) : string :=
  repeat_str open n +:+ core +:+ repeat_str close n.

Definition entity (i : nat) : string :=
  let refs := repeat_str ("&lol" +:+ num (i - 1) +:+ ";") 10 in
  "  <!ENTITY lol" +:+ num i +:+ " " +:+ quote +:+ refs +:+ quote +:+ ">" +:+ newline.
Definition billion_laughs (levels : nat) : string :=
  let levels := Nat.max levels 1 in
  "<?xml version=" +:+ quote +:+ "1.0" +:+ quote +:+ "?>" +:+ newline +:+ "<!DOCTYPE lolz [" +:+ newline
  +:+ "  <!ENTITY lol0 " +:+ quote +:+ "loooooooooool" +:+ quote +:+ ">" +:+ newline
  +:+ pushes entity 1 (levels - 1)
  +:+ "]>" +:+ newline +:+ "<lolz>&lol" +:+ num (levels - 1) +:+ ";</lolz>".

Definition alias_line (i : nat) : string :=
  let items := join ", " (replicate 10 ("*a" +:+ num (i - 1))) in
  "a" +:+ num i +:+ ": &a" +:+ num i +:+ " [" +:+ items +:+ "]" +:+ newline.
Definition yaml_alias_bomb (levels : nat) : string :=
  let levels := Nat.max levels 1 in
  "a0: &a0 " +:+ quote +:+ "lol" +:+ quote +:+ newline +:+ pushes alias_line 1 (levels - 1).

Definition json_array (n : nat) : string := "[" +:+ commas num n +:+ "]".
Definition json_object_keys (n : nat) : string :=
  "{" +:+ commas (fun i => quote +:+ "k" +:+ num i +:+ quote +:+ ":" +:+ num i) n +:+ "}".
Definition csv_rows (n : nat) : string :=
  "id,name,value" +:+ newline +:+ pushes (fun i => num i +:+ ",row-" +:+ num i +:+ "," +:+ num (i * 3) +:+ newline) 0 n.
(** [U+0301] in UTF-8. *)
Definition zalgo (n : nat) : string := "e" +:+ repeat_str (of_chars [byte_at 204; byte_at 129]) n.

(** The smallest [k] with [2^k >= count]: [k] goes up from 0 and never passes [count]. *)
Fixpoint bits_from (fuel k count : nat) : nat :=
  match fuel with
  | O => k
  | S fuel => if Z.ltb (2 ^ Z.of_nat k) (Z.of_nat count) then bits_from fuel (S k) count else k
  end.
Definition bits_for (count : nat) : nat := bits_from count 0 count.

(** One block of two characters per bit of [i], the highest first. *)
Fixpoint collision_key (k : nat) (i : Z) : list ascii :=
  match k with
  | O => []
  | S k => chars (if Z.testbit i (Z.of_nat k) then "BB" else "Aa") ++ collision_key k i
  end.
Definition collision_keys (count : nat) : list (list ascii) :=
  let count := Nat.max count 1 in
  (fun i => collision_key (bits_for count) (Z.of_nat i)) <$> seq 0 count.
Definition hash_collision (count : nat) : string :=
  let keys := collision_keys count in
  "{" +:+ commas (fun i => quote +:+ of_chars (default [] (keys !! i)) +:+ quote +:+ ":1") (length keys) +:+ "}".

(** [None]: no such kind. *)
Definition generator (name : string) : option (nat -> string) :=
  if bool_decide (name = "nested-json") then Some (wrap ("{" +:+ quote +:+ "a" +:+ quote +:+ ":") "1" "}")
  else if bool_decide (name = "nested-array") then Some (wrap "[" "1" "]")
  else if bool_decide (name = "nested-markdown-blockquote") then Some (fun n => repeat_str ">" n +:+ " x")
  else if bool_decide (name = "nested-markdown-bracket") then Some (fun n => repeat_str "[" n +:+ "x" +:+ repeat_str "]" n)
  else if bool_decide (name = "nested-xml") then Some (wrap "<a>" "x" "</a>")
  else if bool_decide (name = "nested-html") then Some (wrap "<div>" "x" "</div>")
  else if bool_decide (name = "nested-parens") then Some (fun n => repeat_str "(" n +:+ repeat_str ")" n)
  else if bool_decide (name = "nested-graphql") then
    Some (fun n => "{" +:+ repeat_str "a{" n +:+ "id" +:+ repeat_str "}" n +:+ "}")
  else if bool_decide (name = "billion-laughs") then Some billion_laughs
  else if bool_decide (name = "yaml-alias-bomb") then Some yaml_alias_bomb
  else if bool_decide (name = "json-array") then Some json_array
  else if bool_decide (name = "json-object-keys") then Some json_object_keys
  else if bool_decide (name = "long-string") then Some (fun n => quote +:+ repeat_str "a" n +:+ quote)
  else if bool_decide (name = "csv-rows") then Some csv_rows
  else if bool_decide (name = "redos") then Some (fun n => repeat_str "a" n +:+ "!")
  else if bool_decide (name = "zalgo") then Some zalgo
  else if bool_decide (name = "bignum") then Some (fun n => repeat_str "9" (Nat.max n 1))
  else if bool_decide (name = "hash-collision") then Some hash_collision
  else None.

Definition generate (spec : PayloadSpec) : result PayloadError string :=
  match generator (ps_name spec) with
  | Some g => Ok (g (Z.to_nat (ps_magnitude spec)))
  | None => Err (Unknown (ps_name spec))
  end.

Definition generate_str (spec : string) : result PayloadError string :=
  let? s := parse_spec spec in generate s.

(** ** Properties *)

Lemma parse_spec_exact (spec : string) (s : PayloadSpec) :
  parse_spec spec = Ok s ->
  exists meta, info (ps_name s) = Some meta /\ ps_magnitude s <= pi_max meta.
Proof.
  unfold parse_spec. destruct (match split_once spec ":" with Some _ => _ | None => _ end) as [name mag].
  destruct (info name) as [meta|] eqn:Ei; [|done]. cbn [ok_or result_bind].
  assert (forall m, (if Z.ltb (pi_max meta) m then Err (TooLarge name m (pi_max meta) (pi_param meta))
    else Ok (mkPayloadSpec name m)) = Ok s -> exists meta, info (ps_name s) = Some meta /\ ps_magnitude s <= pi_max meta) as H.
  { intros m. destruct (Z.ltb_spec (pi_max meta) m); [done|]. intros [= <-]. by exists meta. }
  destruct mag as [m|]; cbn [result_bind]; [|apply H]. destruct (parse_u64 _); cbn [ok_or result_bind]; [apply H|done].
Qed.

(** Every kind of the catalog has a generator, and only they have one: a spec that parses
    generates, within its cap. *)
Theorem generate_total (spec : string) (s : PayloadSpec) : parse_spec spec = Ok s -> is_ok (generate s) = true.
Proof.
  intros (meta & Hi & _)%parse_spec_exact. unfold info in Hi. apply List.find_some in Hi as [Hin Hn].
  apply bool_decide_eq_true in Hn. unfold generate. rewrite <- Hn.
  assert (forallb (fun p => match generator (pi_name p) with Some _ => true | None => false end) CATALOG = true) as Hall
    by (vm_compute; reflexivity).
  rewrite forallb_forall in Hall. specialize (Hall meta Hin). by destruct (generator (pi_name meta)).
Qed.

(** Java's [String.hashCode]: [h = 31 h + c] on 32 bits, from [h0]. *)
Definition jhash_from (h0 : Z) (s : list ascii) : Z :=
  foldl (fun h c => (h * 31 + Z.of_N (N_of_ascii c)) mod 2 ^ 32) h0 s.
Definition jhash (s : list ascii) : Z := jhash_from 0 s.

Lemma jhash_block (h : Z) (b : bool) : jhash_from h (chars (if b then "BB" else "Aa")) = (h * 961 + 2112) mod 2 ^ 32.
Proof.
  assert (forall x y, ((h * 31 + x) mod 2 ^ 32 * 31 + y) mod 2 ^ 32 = (h * 961 + (x * 31 + y)) mod 2 ^ 32) as H.
  { intros x y. rewrite <- Zplus_mod_idemp_l, Zmult_mod_idemp_l, Zplus_mod_idemp_l. f_equal. lia. }
  destruct b; unfold jhash_from; cbn [chars String.list_ascii_of_string foldl]; rewrite H; reflexivity.
Qed.

Lemma jhash_app (h : Z) (a b : list ascii) : jhash_from h (a ++ b) = jhash_from (jhash_from h a) b.
Proof. apply foldl_app. Qed.

Lemma collision_hash (k : nat) (h i j : Z) : jhash_from h (collision_key k i) = jhash_from h (collision_key k j).
Proof.
  revert h. induction k as [|k IH]; intros h; [done|]. cbn [collision_key]. rewrite !jhash_app, !jhash_block. apply IH.
Qed.

Lemma collision_inj (k : nat) (i j : Z) :
  0 <= i < 2 ^ Z.of_nat k -> 0 <= j < 2 ^ Z.of_nat k -> collision_key k i = collision_key k j -> i = j.
Proof.
  intros Hi Hj Hk. apply Z.bits_inj'. intros n Hn.
  destruct (Z.lt_ge_cases n (Z.of_nat k)) as [Hlt|Hge].
  - clear Hi Hj. induction k as [|k IH]; [lia|]. cbn [collision_key] in Hk.
    destruct (Z.eq_dec n (Z.of_nat k)) as [->|Hne].
    + destruct (Z.testbit i (Z.of_nat k)), (Z.testbit j (Z.of_nat k)); try done.
    + apply IH; [|lia]. destruct (Z.testbit i (Z.of_nat k)), (Z.testbit j (Z.of_nat k)); cbn in Hk; congruence.
  - rewrite <- (Z.mod_small i (2 ^ Z.of_nat k)), <- (Z.mod_small j (2 ^ Z.of_nat k)) by done.
    by rewrite !Z.mod_pow2_bits_high by lia.
Qed.

Lemma bits_from_enough (fuel k count : nat) :
  Z.of_nat count <= 2 ^ Z.of_nat (k + fuel) -> Z.of_nat count <= 2 ^ Z.of_nat (bits_from fuel k count).
Proof.
  revert k. induction fuel as [|fuel IH]; intros k Hc; cbn [bits_from]; [by rewrite Nat.add_0_r in Hc|].
  destruct (Z.ltb_spec (2 ^ Z.of_nat k) (Z.of_nat count)); [|done]. apply IH. replace (S k + fuel)%nat with (k + S fuel)%nat by lia. done.
Qed.
Lemma bits_for_enough (count : nat) : Z.of_nat count <= 2 ^ Z.of_nat (bits_for count).
Proof.
  apply bits_from_enough. simpl. pose proof (Z.pow_gt_lin_r 2 (Z.of_nat count)). lia.
Qed.

(** The keys of a [hash-collision] payload are as many as asked for, all different, and
    all of one hash under the 31-based hash of strings: the object is the worst case of a
    hash map it is meant to be. *)
Theorem collision_keys_exact (count : nat) :
  length (collision_keys count) = Nat.max count 1 /\ NoDup (collision_keys count)
  /\ forall a b, a ∈ collision_keys count -> b ∈ collision_keys count -> jhash a = jhash b.
Proof.
  unfold collision_keys. set (n := Nat.max count 1). split; [by rewrite length_fmap, length_seq|]. split.
  - apply NoDup_alt. intros i j x Hi Hj. rewrite list_lookup_fmap in Hi, Hj.
    destruct (seq 0 n !! i) as [a|] eqn:Ea; [|done]. destruct (seq 0 n !! j) as [b|] eqn:Eb; [|done].
    simpl in Hi, Hj. apply lookup_seq in Ea as [-> ?], Eb as [-> ?]. 
    assert (Z.of_nat (0 + i) = Z.of_nat (0 + j)); [|lia].
    injection Hi as Hi. injection Hj as Hj. rewrite <- Hj in Hi.
    pose proof (bits_for_enough n). apply (collision_inj (bits_for n)); [lia|lia|done].
  - intros a b (i & -> & _)%list_elem_of_fmap (j & -> & _)%list_elem_of_fmap. apply collision_hash.
Qed.

Example generates :
  generate_str "nested-array:3" = Ok "[[[1]]]" /\ generate_str "json-array:3" = Ok "[0,1,2]"
  /\ generate_str "nested-markdown-bracket: 2 " = Ok "[[x]]"
  /\ generate_str "hash-collision:3" = Ok ("{" +:+ quote +:+ "AaAa" +:+ quote +:+ ":1," +:+ quote +:+ "AaBB" +:+ quote
                                            +:+ ":1," +:+ quote +:+ "BBAa" +:+ quote +:+ ":1}")
  /\ generate_str "billion-laughs:13" = Err (TooLarge "billion-laughs" 13 12 "levels")
  /\ generate_str "redos:-1" = Err (BadMagnitude "-1") /\ generate_str "nope" = Err (Unknown "nope")
  /\ generate_str "yaml-alias-bomb:2" = Ok ("a0: &a0 " +:+ quote +:+ "lol" +:+ quote +:+ newline +:+ alias_line 1).
Proof. vm_compute. repeat split. Qed.
