(* ===== verification/History.v ===== *)
(** * Run history (crate loadr-history)

    The tables of the history store, the queries over them, and the statistics that flag a
    regression.  SQLite is seen through its documented semantics: tables as lists of rows in
    order of insertion, and an [ORDER BY ts DESC] that is a parameter, since it leaves the
    order of ties open. *)

From S2P Require Import Prelude Float64 Str Metrics Aggregate Threshold Thresholds Summary.

(** ** Statistics (stats.rs) *)

Record Verdict := mkVerdict {
  value : f64;
  median_ : f64;
  mad_ : f64;
  z : f64;
  sample_n : nat;
  regression : bool;
  low_confidence : bool;
}.

(** [sort_by] of [partial_cmp], an unordered pair counting as equal: insertion keeps the
    order of what it cannot tell apart. *)
Fixpoint insert_f64 (x : f64) (l : list f64) : list f64 :=
  match l with
  | [] => [x]
  | y :: l' => if f64_lt x y then x :: l else y :: insert_f64 x l'
  end.
Definition sort_f64 (l : list f64) : list f64 := foldl (fun l x => insert_f64 x l) [] l.

Definition median (xs : list f64) : f64 :=
  match xs with
  | [] => f64_zero
  | _ =>
      let v := sort_f64 xs in
      let n := length v in
      let at_ i := default f64_zero (v !! i) in
      if Nat.odd n then at_ (n / 2)%nat
      else f64_div (f64_add (at_ (n / 2 - 1)%nat) (at_ (n / 2)%nat)) (f64_of_Z 2)
  end.

Definition mad (xs : list f64) (center : f64) : f64 :=
  match xs with
  | [] => f64_zero
  | _ => median ((fun x => f64_abs (f64_sub x center)) <$> xs)
  end.

Definition worse_by_pct (value median : f64) (higher_is_worse : bool) (pct : f64) : bool :=
  if f64_eq median f64_zero then false
  else if higher_is_worse then f64_gt value (f64_mul median (f64_add (f64_of_Z 1) pct))
  else f64_lt value (f64_mul median (f64_sub (f64_of_Z 1) pct)).

Definition detect (v : f64) (history : list f64) (higher_is_worse : bool) : Verdict :=
  let n := length history in
  let m := median history in
  if Nat.ltb n 5 then
    mkVerdict v m f64_zero f64_zero n (Nat.ltb 0 n && worse_by_pct v m higher_is_worse (f64_dec 1 1)) true
  else
    let d := mad history m in
    if f64_eq d f64_zero then
      mkVerdict v m d f64_zero n (worse_by_pct v m higher_is_worse (f64_dec 1 1)) false
    else
      let z := f64_div (f64_mul (f64_dec 6745 4) (f64_sub v m)) d in
      mkVerdict v m d z n (if higher_is_worse then f64_gt z (f64_dec 35 1) else f64_lt z (f64_dec (-35) 1)) false.

(** ** The store (store.rs) *)

Record RunRow := mkRunRow {
  run_id : string;
  plan_id : string;
  row_name : option string;
  git_sha : option string;
  git_ref : option string;
  ts : Z;
  row_thresholds_passed : bool;
}.

Record MetricRow := mkMetricRow {
  mr_run : string;
  mr_plan : string;
  mr_metric : string;
  mr_field : string;
  mr_value : f64;
  mr_ts : Z;
}.

Record Store := mkStore {
  runs : list RunRow;
  metric_values : list MetricRow;
}.

Definition fields_of (m : MetricSummary) : list (string * f64) :=
  let a := ms_agg m in
  omap (fun kv : string * option f64 => (fun x => (kv.1, x)) <$> kv.2)
    [("p50", av_med a); ("p95", av_p95 a); ("p99", av_p99 a); ("avg", av_avg a); ("rate", av_rate a); ("rps", av_per_second a)].

Definition higher_is_worse (metric field : string) : bool :=
  negb (bool_decide (field = "rps") || bool_decide (field = "per_second")
        || bool_decide (metric = "http_reqs") || bool_decide (metric = "iterations")).

(** [as i64] of a [u64]. *)
Definition as_i64 (n : Z) : Z := if Z.ltb n (2 ^ 63) then n else n - 2 ^ 64.

Definition metric_rows (s : Summary) (plan : string) : list MetricRow :=
  m ← sum_metrics s;
  (fun fv => mkMetricRow (sum_run_id s) plan (ms_name m) fv.1 fv.2 (as_i64 (sum_ended_ms s))) <$> fields_of m.

(** [INSERT OR REPLACE] keyed by the run, then [DELETE] and the [INSERT]s. *)
Definition record (s : Summary) (plan : string) (sha ref : option string) (st : Store) : nat * Store :=
  let row := mkRunRow (sum_run_id s) plan (sum_name s) sha ref (as_i64 (sum_ended_ms s)) (sum_thresholds_passed s) in
  let rows := metric_rows s plan in
  (length rows,
   mkStore (filter (fun r => run_id r <> sum_run_id s) (runs st) ++ [row])
     (filter (fun r => mr_run r <> sum_run_id s) (metric_values st) ++ rows)).

(** [(?1 IS NULL OR plan_id = ?1)] and [(?4 IS NULL OR run_id != ?4)]. *)
Definition plan_matches (plan : option string) (r : RunRow) : bool :=
  match plan with Some p => bool_decide (plan_id r = p) | None => true end.
Definition value_matches (plan metric field : string) (exclude_run : option string) (r : MetricRow) : bool :=
  bool_decide (mr_plan r = plan) && bool_decide (mr_metric r = metric) && bool_decide (mr_field r = field)
  && match exclude_run with Some e => negb (bool_decide (mr_run r = e)) | None => true end.

Section Queries.
(** [ORDER BY ts DESC]. *)
Context (order_runs : list RunRow -> list RunRow) (order_values : list MetricRow -> list MetricRow).

Definition list_runs (plan : option string) (st : Store) : list RunRow :=
  order_runs (filter (fun r => plan_matches plan r = true) (runs st)).

Definition history (plan metric field : string) (exclude_run : option string) (limit : nat) (st : Store) : list f64 :=
  reverse (mr_value <$> take limit (order_values
    (filter (fun r => value_matches plan metric field exclude_run r = true) (metric_values st)))).

Record CheckRow := mkCheckRow {
  cr_metric : string;
  cr_field : string;
  cr_verdict : Verdict;
}.

Definition check (st : Store) (s : Summary) (plan : string) (window : nat) : list CheckRow :=
  m ← sum_metrics s;
  omap (fun fv : string * f64 =>
    match history plan (ms_name m) fv.1 (Some (sum_run_id s)) window st with
    | [] => None
    | hist => Some (mkCheckRow (ms_name m) fv.1 (detect fv.2 hist (higher_is_worse (ms_name m) fv.1)))
    end) (fields_of m).

(** [loadr history check]: 99 on a regression. *)
Definition check_exit (assert_ : bool) (rows : list CheckRow) : Z :=
  if existsb (fun r => regression (cr_verdict r)) rows && assert_ then 99 else 0.

Definition plan_id_from_summary (s : Summary) : string :=
  default "" (sum_name s) +:+ "|" +:+ join "," (sort_strings (sum_scenarios s)).

(** ** Properties *)

Lemma filter_twice {A} (P Q : A -> Prop) `{forall x, Decision (P x), forall x, Decision (Q x)} (l : list A) :
  (forall x, P x -> Q x) -> filter P (filter Q l) = filter P l.
Proof.
  intros HPQ. induction l as [|x l IH]; [done|]. rewrite !filter_cons. destruct (decide (Q x)) as [HQ|HQ].
  - rewrite filter_cons. case_decide; by rewrite IH.
  - rewrite decide_False by (intros HP; by apply HQ, HPQ). done.
Qed.

Lemma metric_rows_run (s : Summary) (plan : string) : Forall (fun r => mr_run r = sum_run_id s) (metric_rows s plan).
Proof.
  unfold metric_rows. apply Forall_bind, Forall_true. intros m. apply Forall_fmap, Forall_true. done.
Qed.

(** Recording is idempotent: the second time replaces what the first left. *)
Theorem record_idempotent (s : Summary) (plan : string) (sha ref : option string) (st : Store) :
  record s plan sha ref (record s plan sha ref st).2 = record s plan sha ref st.
Proof.
  unfold record. simpl. f_equal. f_equal; rewrite filter_app, filter_twice by done.
  - rewrite filter_cons, decide_False by (simpl; naive_solver). by rewrite filter_nil, app_nil_r.
  - rewrite (filter_none _ (metric_rows s plan)); [by rewrite app_nil_r|].
    eapply Forall_impl; [apply metric_rows_run|]. intros r Hr Hne. by apply Hne.
Qed.

Lemma history_excludes (s : Summary) (plan plan' metric field : string) (sha ref : option string) (limit : nat) (st : Store) :
  history plan metric field (Some (sum_run_id s)) limit (record s plan' sha ref st).2
  = history plan metric field (Some (sum_run_id s)) limit st.
Proof.
  unfold history, record. cbn [metric_values snd]. do 4 f_equal. rewrite filter_app, filter_twice.
  - rewrite (filter_none _ (metric_rows s plan')); [by rewrite app_nil_r|].
    eapply Forall_impl; [apply metric_rows_run|]. intros r Hr H. unfold value_matches in H.
    rewrite Hr, (bool_decide_true (sum_run_id s = _)) in H by done. by rewrite andb_false_r in H.
  - intros r H Hr. unfold value_matches in H. rewrite Hr, (bool_decide_true (sum_run_id s = _)) in H by done.
    by rewrite andb_false_r in H.
Qed.

(** The verdict on a run does not depend on whether the run is in the history it is
    checked against: recording it first, under any plan, changes no row of the check. *)
Theorem check_excludes_self (s : Summary) (plan plan' : string) (sha ref : option string) (window : nat) (st : Store) :
  check (record s plan' sha ref st).2 s plan window = check st s plan window.
Proof.
  assert (forall m f, history plan m f (Some (sum_run_id s)) window (record s plan' sha ref st).2
    = history plan m f (Some (sum_run_id s)) window st) as Hh by (intros; apply history_excludes).
  revert Hh. generalize (record s plan' sha ref st).2 as st'. intros st' Hh.
  unfold check. induction (sum_metrics s) as [|m ms IH]; [done|]. rewrite !bind_cons, IH. f_equal.
  clear IH. induction (fields_of m) as [|fv fs IH]; [done|]. simpl. rewrite Hh. unfold omap in IH. by rewrite IH.
Qed.
End Queries.

(** Without at least five prior runs a verdict is marked as low confidence, and without any
    nothing is a regression. *)
Theorem cold_start (v : f64) (history : list f64) (higher : bool) :
  low_confidence (detect v history higher) = Nat.ltb (length history) 5
  /\ (history = [] -> regression (detect v history higher) = false).
Proof.
  split.
  - unfold detect. destruct (Nat.ltb (length history) 5); [done|]. by destruct (f64_eq _ _).
  - by intros ->.
Qed.

(** ** Verdicts *)

Module HistoryDemo.
Definition n (k : Z) : f64 := f64_of_Z k.
Definition latency : list f64 := n <$> [100; 102; 98; 101; 99; 100].

Example verdicts :
  regression (detect (n 101) latency true) = false /\ regression (detect (n 400) latency true) = true
  /\ regression (detect (n 500) (n <$> [1000; 1010; 990; 1005; 995; 1000]) false) = true
  /\ regression (detect (n 200) (n <$> [100; 100]) true) = true
  /\ median latency = n 100 /\ median (n <$> [3; 1]) = n 2 /\ median (n <$> [3; 1; 2]) = n 2.
Proof. vm_compute. repeat split. Qed.

(** A spotless history hides the first failures: against a median of zero nothing is worse. *)
Example zero_history_hides : regression (detect (n 1) (n <$> [0; 0; 0; 0; 0; 0]) true) = false.
Proof. vm_compute. reflexivity. Qed.

(** The pass rate of checks is trended as if a drop were an improvement. *)
Example pass_rate_inverted :
  higher_is_worse "checks" "rate" = true
  /\ regression (detect (f64_dec 1 1) (n <$> [1; 1; 1; 1; 1; 1]) (higher_is_worse "checks" "rate")) = false.
Proof. vm_compute. split; reflexivity. Qed.
End HistoryDemo.
