(* ===== verification/Compare.v ===== *)
(** * Comparing runs (loadr-cli/src/commands/compare.rs)

    [loadr compare]: the differences between two summaries, which of them are regressions,
    and the exit code; the rendering is not modelled. *)

From Stdlib Require Import Ascii SpecFloat.
From S2P Require Import Prelude Float64 Str Dur Protocol Metrics Aggregate Threshold Thresholds Summary.

Inductive Limit :=
| Percent (p : f64)
| Absolute (a : f64).

Record Tolerance := mkTolerance {
  tol_metric : option string;
  tol_field : string;
  tol_limit : Limit;
}.

Record MetricDelta := mkMetricDelta {
  md_metric : string;
  md_field : string;
  md_baseline : f64;
  md_current : f64;
  md_delta_abs : f64;
  md_delta_pct : option f64;
  md_regression : option bool;
}.

Inductive Direction := LowerIsBetter | HigherIsBetter | Neutral.

Definition DEFAULT_TOLERANCE_PCT : f64 := f64_of_Z 5.
Definition DEFAULT_GATED : list string := ["p95"; "p99"; "error_rate"; "pass_rate"].
Definition EXIT_THRESHOLD_FAILED : Z := 99.

(** ** Tolerances *)

(** [ParseFloatError]. *)
Definition float_error (s : string) : string :=
  if str_is_empty s then "cannot parse float from empty string" else "invalid float literal".

Definition parse_limit (text : string) : result string Limit :=
  match strip_suffix text "%" with
  | Some pct =>
      match parse_f64 (trim pct) with
      | Some v => Ok (Percent v)
      | None => Err ("bad percentage `" +:+ text +:+ "`: " +:+ float_error (trim pct))
      end
  | None =>
      match parse_f64 text with
      | Some v => Ok (Absolute v)
      | None => Err ("bad number `" +:+ text +:+ "`: " +:+ float_error text)
      end
  end.

Definition normalize_field (field : string) : string :=
  let f := to_ascii_lowercase field in
  if bool_decide (f = "med") || bool_decide (f = "p50") then "p50"
  else if bool_decide (f = "rps") || bool_decide (f = "per_second") then "per_second"
  else if bool_decide (f = "checks") || bool_decide (f = "pass_rate") then "pass_rate"
  else f.

Definition parse_tolerance (spec : string) : result string Tolerance :=
  let? (target, limit) := ok_or (split_once spec "="%char)
                            ("expected `field=limit` (e.g. `p95=10%`), got `" +:+ spec +:+ "`") in
  let target := trim target in
  if str_is_empty target then Err ("missing field in `" +:+ spec +:+ "`")
  else
    let '(metric, field) := match str_rfind target "."%char with
                            | Some i => (Some (slice_to target i), slice_from target (S i))
                            | None => (None, target)
                            end in
    if str_is_empty field then Err ("missing field in `" +:+ spec +:+ "`")
    else
      let? limit := parse_limit (trim limit) in
      Ok (mkTolerance metric (normalize_field field) limit).

Definition find_tolerance (tolerances : list Tolerance) (metric field : string) : option Tolerance :=
  match List.find (fun t => bool_decide (tol_metric t = Some metric) && bool_decide (tol_field t = field)) tolerances with
  | Some t => Some t
  | None => List.find (fun t => bool_decide (tol_metric t = None) && bool_decide (tol_field t = field)) tolerances
  end.

(** ** Gates *)

Definition is_throughput (metric : string) : bool :=
  bool_decide (metric = "iterations") || ends_with metric "_reqs".

Definition direction (kind : MetricKind) (metric field : string) : Direction :=
  match kind with
  | Trend => LowerIsBetter
  | Counter => if is_throughput metric then HigherIsBetter else Neutral
  | Gauge => Neutral
  | Rate =>
      if bool_decide (field = "error_rate") then LowerIsBetter
      else if bool_decide (field = "pass_rate") then HigherIsBetter
      else Neutral
  end.

Definition exceeds (worsening baseline : f64) (limit : Limit) : bool :=
  let allowance := match limit with
                   | Percent p => f64_mul (f64_abs baseline) (f64_div (f64_abs p) (f64_of_Z 100))
                   | Absolute a => f64_abs a
                   end in
  f64_gt worsening (f64_add allowance (f64_dec 1 9)).

Definition regression_for (dir : Direction) (baseline current : f64) (field : string) (tolerance : option Tolerance) :
    option bool :=
  match (match dir with
         | LowerIsBetter => Some (f64_sub current baseline)
         | HigherIsBetter => Some (f64_sub baseline current)
         | Neutral => None
         end) with
  | None => None
  | Some worsening =>
      match tolerance with
      | Some t => Some (exceeds worsening baseline (tol_limit t))
      | None =>
          if bool_decide (field ∈ DEFAULT_GATED) then Some (exceeds worsening baseline (Percent DEFAULT_TOLERANCE_PCT))
          else None
      end
  end.

Definition make_delta (metric : string) (kind : MetricKind) (field : string) (baseline current : f64)
    (tolerances : list Tolerance) : MetricDelta :=
  let delta_abs := f64_sub current baseline in
  mkMetricDelta metric field baseline current delta_abs
    (if f64_ne baseline f64_zero then Some (f64_mul (f64_div delta_abs baseline) (f64_of_Z 100)) else None)
    (regression_for (direction kind metric field) baseline current field (find_tolerance tolerances metric field)).

(** ** The comparison *)

Definition rate_field (metric : string) : string :=
  if str_contains metric "failed" || str_contains metric "error" then "error_rate" else "rate".

Definition fields_of (m : MetricSummary) : list (string * f64) :=
  let a := ms_agg m in
  let some_fields := omap (fun kv : string * option f64 => (fun x => (kv.1, x)) <$> kv.2) in
  match ms_kind m with
  | Trend => some_fields [("avg", av_avg a); ("p50", av_med a); ("p95", av_p95 a); ("p99", av_p99 a)]
  | Counter => ("count", av_sum a) :: some_fields [("per_second", av_per_second a)]
  | Rate => match av_rate a with Some r => [(rate_field (ms_name m), f64_mul r (f64_of_Z 100))] | None => [] end
  | Gauge => []
  end.

Definition pass_rate (checks : list CheckSummary) : option f64 :=
  let '(passes, total) :=
    foldl (fun '(p, t) c => (u64_add p (cs_passes c), u64_add (u64_add t (cs_passes c)) (cs_fails c))) (0, 0) checks in
  if Z.ltb 0 total then Some (f64_div (f64_mul (f64_of_Z 100) (f64_of_Z passes)) (f64_of_Z total)) else None.

(** The rows of one metric of the baseline. *)
Definition metric_deltas (current : Summary) (tolerances : list Tolerance) (b : MetricSummary) : list MetricDelta :=
  if bool_decide (ms_name b = "checks") then []
  else
    match List.find (fun m => bool_decide (ms_name m = ms_name b)) (sum_metrics current) with
    | None => []
    | Some c =>
        if negb (bool_decide (ms_kind c = ms_kind b)) then []
        else
          omap (fun fv : string * f64 =>
                  (fun cv => make_delta (ms_name b) (ms_kind b) fv.1 fv.2 (cv : string * f64).2 tolerances)
                    <$> List.find (fun cf => bool_decide (cf.1 = fv.1)) (fields_of c)) (fields_of b)
    end.

Definition bool_f64 (b : bool) : f64 := if b then f64_of_Z 1 else f64_zero.

Definition thresholds_row (baseline current : Summary) : list MetricDelta :=
  if bool_decide (sum_thresholds baseline = []) && bool_decide (sum_thresholds current = []) then []
  else
    let b := bool_f64 (sum_thresholds_passed baseline) in
    let c := bool_f64 (sum_thresholds_passed current) in
    [mkMetricDelta "thresholds" "passed" b c (f64_sub c b) None (Some (f64_gt b c))].

Definition diff (baseline current : Summary) (tolerances : list Tolerance) : list MetricDelta :=
  (sum_metrics baseline ≫= metric_deltas current tolerances)
  ++ match pass_rate (sum_checks baseline), pass_rate (sum_checks current) with
     | Some b, Some c => [make_delta "checks" Rate "pass_rate" b c tolerances]
     | _, _ => []
     end
  ++ thresholds_row baseline current.

Definition regression_count (rows : list MetricDelta) : nat :=
  length (filter (fun r => md_regression r = Some true) rows).

(** [None]: the summaries share no comparable metrics, an error. *)
Definition compare_exit (assert_ : bool) (rows : list MetricDelta) : option Z :=
  if bool_decide (rows = []) then None
  else Some (if assert_ && Nat.ltb 0 (regression_count rows) then EXIT_THRESHOLD_FAILED else 0).

(** ** A run against itself *)

(** Not below zero. *)
Definition not_negative (a : f64) : Prop :=
  match a with
  | S754_zero _ | S754_nan | S754_infinity false | S754_finite false _ _ => True
  | _ => False
  end.

Lemma round_sign (s : bool) (m e : Z) (l : location) :
  (0 <= m) -> s = false -> not_negative (binary_round_aux 53 1024 s m e l).
Proof.
  intros _ ->. unfold binary_round_aux. destruct (shr_fexp _ _ _ _ _) as [r e1].
  destruct (shr_fexp _ _ _ _ _) as [r2 e2]. destruct (shr_m r2); [done| |done]. by destruct (Z.leb _ _).
Qed.

Lemma binary_round_sign (m : positive) (e : Z) : not_negative (binary_round 53 1024 false m e).
Proof. unfold binary_round. case (shl_align _ _ _). intros mz ez. by apply round_sign. Qed.

Lemma not_negative_mul (a b : f64) : not_negative a -> not_negative b -> not_negative (f64_mul a b).
Proof.
  unfold f64_mul. destruct a as [s|s| |s m e], b as [s'|s'| |s' m' e']; try destruct s; try destruct s'; try done.
  intros _ _. cbn [SFmul xorb]. by apply round_sign.
Qed.
Lemma not_negative_div (a b : f64) :
  not_negative a -> match b with S754_finite false _ _ => True | _ => False end -> not_negative (f64_div a b).
Proof.
  unfold f64_div. destruct a as [s|s| |s m e], b as [s'|s'| |s' m' e']; try destruct s; try destruct s'; try done.
  intros _ _. cbn [SFdiv xorb]. destruct (SFdiv_core_binary _ _ _ _ _ _) as [[m1 e1] l1]. 
  destruct (Z.le_ge_cases 0 m1); [by apply round_sign|].
  unfold binary_round_aux. destruct (shr_fexp _ _ _ _ _) as [r e2].
  destruct (shr_fexp _ _ _ _ _) as [r2 e3]. destruct (shr_m r2); [done| |done]. by destruct (Z.leb _ _).
Qed.
Lemma not_negative_abs (a : f64) : not_negative (f64_abs a).
Proof. by destruct a. Qed.

Lemma not_negative_add (a b : f64) :
  not_negative a -> match b with S754_finite false _ _ => True | _ => False end -> not_negative (f64_add a b).
Proof.
  unfold f64_add. destruct a as [s|s| |s m e], b as [s'|s'| |s' m' e']; try destruct s; try destruct s'; try done.
  intros _ _. cbn [SFadd cond_Zopp]. set (ez := Z.min e e').
  unfold binary_normalize. generalize (fst (shl_align m e ez)) (fst (shl_align m' e' ez)). intros p q. cbn [Z.add].
  apply binary_round_sign.
Qed.

(** Subtracting a number from itself leaves nothing that exceeds an allowance. *)
Lemma exceeds_self (v baseline : f64) (limit : Limit) : exceeds (f64_sub v v) baseline limit = false.
Proof.
  unfold exceeds, f64_gt. assert (not_negative (f64_add match limit with
    | Percent p => f64_mul (f64_abs baseline) (f64_div (f64_abs p) (f64_of_Z 100))
    | Absolute a => f64_abs a end (f64_dec 1 9))) as Hn.
  { apply not_negative_add; [|by vm_compute]. destruct limit as [p|a]; [|apply not_negative_abs].
    apply not_negative_mul; [apply not_negative_abs|]. apply not_negative_div; [apply not_negative_abs|by vm_compute]. }
  revert Hn. generalize (f64_add match limit with
    | Percent p => f64_mul (f64_abs baseline) (f64_div (f64_abs p) (f64_of_Z 100))
    | Absolute a => f64_abs a end (f64_dec 1 9)) as x.
  assert (match f64_sub v v with S754_zero _ | S754_nan => True | _ => False end) as Hv.
  { unfold f64_sub. destruct v as [s|s| |s m e]; [by destruct s|by destruct s|done|]. cbn [SFsub].
    by rewrite Z.sub_diag. }
  intros x Hx. destruct (f64_sub v v) as [s|s| |s m e]; try done; destruct x as [sx|[]| |[] mx ex]; try done.
Qed.

(** Metrics are found by name: no two of a summary share one. *)
Definition distinct_metrics (s : Summary) : Prop := NoDup (ms_name <$> sum_metrics s).

Lemma find_self {A} (key : A -> string) (l : list A) (x : A) :
  NoDup (key <$> l) -> x ∈ l -> List.find (fun y => bool_decide (key y = key x)) l = Some x.
Proof.
  induction l as [|y l IH]; intros Hnd Hin; [by apply elem_of_nil in Hin|]. simpl in *.
  apply NoDup_cons in Hnd as [Hy Hnd]. case_bool_decide as Hk.
  - apply elem_of_cons in Hin as [->|Hin]; [done|]. destruct Hy. rewrite Hk. by apply list_elem_of_fmap_2.
  - apply IH; [done|]. apply elem_of_cons in Hin as [->|Hin]; [by destruct Hk|done].
Qed.

Lemma fields_distinct (m : MetricSummary) : NoDup (fst <$> fields_of m).
Proof.
  unfold fields_of. destruct m as [name kind a]; simpl. destruct kind; simpl;
    [destruct (av_per_second a)| |destruct (av_rate a)
    |destruct (av_avg a), (av_med a), (av_p95 a), (av_p99 a)]; repeat constructor; set_solver.
Qed.

Lemma make_delta_self (metric : string) (kind : MetricKind) (field : string) (v : f64) (tolerances : list Tolerance) :
  md_regression (make_delta metric kind field v v tolerances) <> Some true.
Proof.
  unfold make_delta, regression_for. cbn [md_regression]. destruct (direction kind metric field); [| |done];
    (destruct (find_tolerance tolerances metric field) as [t|]; [|destruct (bool_decide _); [|done]]); by rewrite exceeds_self.
Qed.

(** A run is no regression of itself: comparing a summary with itself flags nothing,
    whatever the values in it (infinities and NaN included) and whatever tolerances are
    given, so [--assert] never fails it. *)
Theorem compare_self (s : Summary) (tolerances : list Tolerance) :
  distinct_metrics s -> regression_count (diff s s tolerances) = 0%nat.
Proof.
  intros Hd. unfold regression_count. rewrite filter_none; [done|]. unfold diff. rewrite !Forall_app. repeat split.
  - apply Forall_bind, Forall_forall. intros m Hm. unfold compose, metric_deltas. case_bool_decide; [constructor|].
    rewrite (find_self ms_name) by done. case_match; [constructor|].
    apply Forall_forall. intros r (fv & Hfv & Hr)%list_elem_of_omap.
    rewrite (find_self fst) in Hr by (apply fields_distinct || done). injection Hr as <-. apply make_delta_self.
  - destruct (pass_rate (sum_checks s)); repeat constructor. apply make_delta_self.
  - unfold thresholds_row. case_match; repeat constructor. simpl. by destruct (sum_thresholds_passed s).
Qed.

Module CompareDemo.
Definition no_agg : AggValues := mkAggValues 0 f64_zero None None None None None None None None None None None.
Definition trend (name : string) (p95 : f64) : MetricSummary :=
  mkMetricSummary name Trend (mkAggValues 1 p95 (Some p95) None None (Some p95) None (Some p95) None None None None None).
Definition summary (ms : list MetricSummary) (passed : bool) (ts : list ThresholdStatus) : Summary :=
  mkSummary None "r" 0 0 f64_zero [] ms [] ts passed None (mkSnapshot 0 f64_zero f64_zero []) [].
Definition run (p95 : Z) : Summary := summary [trend "http_req_duration" (f64_of_Z p95)] true [].

Example gates :
  regression_count (diff (run 100) (run 105) []) = 0%nat /\ regression_count (diff (run 100) (run 106) []) = 1%nat
  /\ (match parse_tolerance "http_req_duration.p95 = 10%" with
      | Ok t => regression_count (diff (run 100) (run 106) [t]) | Err _ => 9%nat end) = 0%nat
  /\ compare_exit true (diff (run 100) (run 200) []) = Some 99 /\ compare_exit true (diff (run 1) (summary [] true []) []) = None.
Proof. vm_compute. repeat split. Qed.

(** A tolerance of NaN is accepted, and lets everything through. *)
Example nan_tolerance :
  match parse_tolerance "p95=NaN%" with
  | Ok t => regression_count (diff (run 1) (run 1000) [t])
  | Err _ => 9%nat
  end = 0%nat.
Proof. vm_compute. reflexivity. Qed.

Lemma compare_self_witness : regression_count (diff (run 100) (run 100) []) = 0%nat.
Proof. apply (compare_self (run 100) []). refine (bool_decide_eq_true_1 _ _). vm_compute. reflexivity. Defined.
End CompareDemo.
