(* ===== verification/Sweep.v ===== *)
(** * Parameter sweeps (loadr-cli/src/commands/sweep.rs)

    The matrix of combinations, the runs over it, the complexity fit, and the exit code.
    The rendering is not modelled; the natural logarithm is a parameter, and so is the
    process that runs one combination. *)

From Stdlib Require Import Ascii SpecFloat.
From S2P Require Import Prelude Float64 Str Dur Metrics Aggregate Summary Files Compare.

Record SweepVar := mkSweepVar {
  sv_name : string;
  sv_values : list string;
}.

Notation Combo := (list (string * string)).

Definition name_char (c : ascii) : bool :=
  let n := N_of_ascii c in
  (N.leb 48 n && N.leb n 57) || (N.leb 65 n && N.leb n 90) || (N.leb 97 n && N.leb n 122) || N.eqb n 95.

Definition parse_var (spec : string) : result string SweepVar :=
  let? (name, values) := ok_or (split_once spec "="%char)
                           ("expected `name=v1,v2,..` (e.g. `vus=10,50`), got `" +:+ spec +:+ "`") in
  let name := trim name in
  if str_is_empty name || negb (forallb name_char (chars name)) then
    Err ("bad variable name `" +:+ name +:+ "` in `" +:+ spec +:+ "`")
  else
    let values := trim <$> str_split values "," in
    if existsb str_is_empty values then Err ("empty value in `" +:+ spec +:+ "`")
    else Ok (mkSweepVar name values).

Definition expand_matrix (vars : list SweepVar) : list Combo :=
  foldl (fun combos var => combo ← combos; (fun value => combo ++ [(sv_name var, value)]) <$> sv_values var) [[]] vars.

Definition combo_label (combo : Combo) : string := join " " ((fun nv => nv.1 +:+ "=" +:+ nv.2) <$> combo).

(** [slug_char], per character: one that is not ASCII is several bytes and one dash. *)
Definition continuation (c : ascii) : bool := let n := N_of_ascii c in N.leb 128 n && N.ltb n 192.
Definition slug_char (c : ascii) : ascii :=
  let n := N_of_ascii c in
  if (name_char c && negb (N.eqb n 95)) || N.eqb n 46 then c else "-"%char.
Definition sanitize (s : string) : string :=
  of_chars (slug_char <$> filter (fun c => continuation c = false) (chars s)).
Definition combo_slug (combo : Combo) : string :=
  join "_" ((fun nv => sanitize nv.1 +:+ "-" +:+ sanitize nv.2) <$> combo).

(** What [SubprocessRunner] runs: the arguments after the binary, and the environment. *)
Definition to_ascii_uppercase (s : string) : string :=
  of_chars ((fun c => let n := N_of_ascii c in if N.leb 97 n && N.leb n 122 then byte_at (n - 32) else c) <$> chars s).
Definition sweep_env_name (var : string) : string := "LOADR_SWEEP_" +:+ to_ascii_uppercase var.
Definition command (plan export : string) (duration : option string) (combo : Combo) :
    list string * list (string * string) :=
  let overrides := nv ← combo;
    if bool_decide (nv.1 = "vus") then ["--vus"; nv.2]
    else if bool_decide (nv.1 = "duration") then ["--duration"; nv.2] else [] in
  (["run"; plan; "--quiet"; "--summary-export"; export] ++ overrides
     ++ match duration with
        | Some d => if existsb (fun nv => bool_decide (nv.1 = "duration")) combo then [] else ["--duration"; d]
        | None => []
        end,
   (fun nv => (sweep_env_name nv.1, nv.2)) <$> combo).

Record SweepResult := mkSweepResult {
  sr_label : string;
  sr_export : Path;
  sr_exit_code : Z;
  sr_summary : option Summary;
}.

Section Run.
(** One combination run in a world [W]: [None] when it has no summary. *)
Context {W : Type} (run : Combo -> Path -> W -> option (Summary * Z) * W).

Definition run_combo (out_dir : Path) (combo : Combo) (w : W) : SweepResult * W :=
  let export := path_join out_dir (path ("sweep-" +:+ combo_slug combo +:+ ".json")) in
  let '(r, w) := run combo export w in
  (match r with
   | Some (s, code) => mkSweepResult (combo_label combo) export code (Some s)
   | None => mkSweepResult (combo_label combo) export (-1) None
   end, w).

Fixpoint run_sweep (out_dir : Path) (combos : list Combo) (w : W) : list SweepResult * W :=
  match combos with
  | [] => ([], w)
  | combo :: combos =>
      let '(r, w) := run_combo out_dir combo w in
      let '(rs, w) := run_sweep out_dir combos w in
      (r :: rs, w)
  end.
End Run.

(** ** Complexity *)

Section Fit.
Context (ln : f64 -> f64).

(** Least squares on the logarithms. *)
Definition fit_exponent (points : list (f64 * f64)) : option f64 :=
  let pts := (fun p : f64 * f64 => (ln p.1, ln p.2))
               <$> filter (fun p => f64_gt p.1 f64_zero && f64_gt p.2 f64_zero = true) points in
  if Nat.ltb (length pts) 2 then None
  else
    let n := f64_of_Z (Z.of_nat (length pts)) in
    let sx := f64_sum (fst <$> pts) in
    let sy := f64_sum (snd <$> pts) in
    let sxx := f64_sum ((fun p => f64_mul p.1 p.1) <$> pts) in
    let sxy := f64_sum ((fun p => f64_mul p.1 p.2) <$> pts) in
    let denom := f64_sub (f64_mul n sxx) (f64_mul sx sx) in
    if f64_lt (f64_abs denom) f64_EPSILON then None
    else Some (f64_div (f64_sub (f64_mul n sxy) (f64_mul sx sy)) denom).

Definition classify_exponent (k : f64) : string :=
  if f64_lt k (f64_dec 5 1) then "flat / sub-linear"
  else if f64_lt k (f64_dec 12 1) then "≈ linear"
  else if f64_lt k (f64_dec 16 1) then "super-linear"
  else if f64_lt k (f64_dec 24 1) then "≈ quadratic ⚠ DoS risk"
  else "super-quadratic ⚠⚠ DoS".

(** Exact name first, then the suffix of the family. *)
Definition find_metric (s : Summary) (kind : MetricKind) (exact suffix : string) : option MetricSummary :=
  match List.find (fun m => bool_decide (ms_name m = exact)) (sum_metrics s) with
  | Some m => Some m
  | None => List.find (fun m => bool_decide (ms_kind m = kind) && ends_with (ms_name m) suffix) (sum_metrics s)
  end.

Definition point (size_axis : string) (combo : Combo) (r : SweepResult) : option (string * (f64 * f64)) :=
  size ← List.find (fun nv => bool_decide (nv.1 = size_axis)) combo ≫= (fun nv => parse_f64 nv.2);
  s ← sr_summary r;
  m ← find_metric s Trend "http_req_duration" "_req_duration";
  lat ← av_p95 (ms_agg m);
  Some (combo_label (filter (fun nv => nv.1 <> size_axis) combo), (size, lat)).

(** [total_cmp]: negative before positive, zero of either sign by its sign, NaN last. *)
Definition total_lt (a b : f64) : bool :=
  match a, b with
  | S754_zero true, S754_zero false => true
  | S754_nan, _ => false
  | _, S754_nan => true
  | _, _ => f64_lt a b
  end.
Fixpoint insert_point (p : f64 * f64) (l : list (f64 * f64)) : list (f64 * f64) :=
  match l with
  | [] => [p]
  | q :: l' => if total_lt p.1 q.1 then p :: l else q :: insert_point p l'
  end.

Record ComplexityFit := mkComplexityFit {
  group : string;
  points : list (f64 * f64);
  exponent : option f64;
}.

(** The groups in the order of their names ([BTreeMap]). *)
Definition analyze_complexity (combos : list Combo) (results : list SweepResult) (size_axis : string) : list ComplexityFit :=
  let measured := omap (fun cr : Combo * SweepResult => point size_axis cr.1 cr.2) (zip combos results) in
  (fun g =>
     let pts := foldl (fun l p => insert_point p l) [] (snd <$> filter (fun kp => kp.1 = g) measured) in
     mkComplexityFit g pts (fit_exponent pts))
    <$> sort_strings (remove_dups (fst <$> measured)).

(** [worst.map_or(k, |w| w.max(k))]. *)
Definition worst_exponent (fits : list ComplexityFit) : option f64 :=
  foldl (fun worst fit =>
           match exponent fit with
           | Some k => Some (match worst with Some w => f64_max w k | None => k end)
           | None => worst
           end) None fits.

(** What [execute] returns once the sweep has run; [Err] is its error. *)
Definition sweep_exit (vars : list SweepVar) (combos : list Combo) (results : list SweepResult)
    (complexity : option string) (max_exponent : option f64) : result string Z :=
  if existsb (fun r => negb (Z.eqb (sr_exit_code r) 0)) results then Ok EXIT_THRESHOLD_FAILED
  else
    match complexity, max_exponent with
    | None, None => Ok 0
    | None, Some _ => Err "--max-exponent requires --complexity <AXIS> naming the size axis"
    | Some axis, bound =>
        if negb (existsb (fun v => bool_decide (sv_name v = axis)) vars) then
          Err ("--complexity axis `" +:+ axis +:+ "` is not one of the swept --var axes")
        else
          match bound, worst_exponent (analyze_complexity combos results axis) with
          | Some bound, Some k => Ok (if f64_gt k bound then EXIT_THRESHOLD_FAILED else 0)
          | _, _ => Ok 0
          end
    end.
End Fit.

(** ** The matrix *)

(** A combination gives every axis, in order, one of its values. *)
Definition combination (vars : list SweepVar) (c : Combo) : Prop :=
  Forall2 (fun v nv => nv.1 = sv_name v /\ nv.2 ∈ sv_values v) vars c.

Lemma expand_matrix_snoc (vars : list SweepVar) (v : SweepVar) :
  expand_matrix (vars ++ [v])
  = (combo ← expand_matrix vars; (fun value => combo ++ [(sv_name v, value)]) <$> sv_values v).
Proof. unfold expand_matrix. by rewrite foldl_app. Qed.

Lemma NoDup_bind_disjoint {A B} (f : A -> list B) (l : list A) :
  NoDup l -> (forall x, x ∈ l -> NoDup (f x)) -> (forall x y b, x ∈ l -> y ∈ l -> b ∈ f x -> b ∈ f y -> x = y) -> NoDup (l ≫= f).
Proof.
  intros Hl Hf Hd. induction Hl as [|x l Hx Hl IH]; [constructor|]. rewrite bind_cons. apply NoDup_app. split; [|split].
  - apply Hf. by left.
  - intros b Hb Hb'. apply list_elem_of_bind in Hb' as (y & Hy & Hyl). apply Hx.
    rewrite (Hd x y b) by (done || by left || by right). done.
  - apply IH; [intros; apply Hf; by right|]. intros y z b Hy Hz. apply Hd; by right.
Qed.

(** The sweep runs the cartesian product: every way of giving each axis, in the order of
    the command line, one of its values, exactly once when no axis repeats a value, and
    nothing else; as many runs as the product of the axes. *)
Theorem expand_matrix_exact (vars : list SweepVar) :
  (forall c, c ∈ expand_matrix vars <-> combination vars c)
  /\ length (expand_matrix vars) = foldl (fun n v => (n * length (sv_values v))%nat) 1%nat vars
  /\ (Forall (fun v => NoDup (sv_values v)) vars -> NoDup (expand_matrix vars)).
Proof.
  induction vars as [|v vars IH] using rev_ind.
  - split; [|split]; [|done|intros _; apply NoDup_singleton]. intros c. unfold expand_matrix. cbn [foldl]. split.
    + intros ->%list_elem_of_singleton. constructor.
    + inversion 1. by apply list_elem_of_singleton.
  - destruct IH as (IH1 & IH2 & IH3). rewrite expand_matrix_snoc. split; [|split].
    + intros c. unfold combination. rewrite list_elem_of_bind. split.
      * intros (c' & Hc & Hc'). apply list_elem_of_fmap in Hc as (x & -> & Hx). apply Forall2_app; [by apply IH1|].
        by repeat constructor.
      * intros Hc. apply Forall2_app_inv_l in Hc as (c1 & c2 & H1 & H2 & ->).
        inversion H2 as [|? [n x] ? ? [Hn Hx] H3]; subst. inversion H3; subst. simpl in *. subst n.
        exists c1. split; [|by apply IH1]. apply list_elem_of_fmap. by exists x.
    + rewrite foldl_app. cbn [foldl]. rewrite <- IH2. clear. induction (expand_matrix vars) as [|c cs IH]; [done|].
      rewrite bind_cons, length_app, length_fmap, IH. simpl. lia.
    + intros Hnd. apply Forall_app in Hnd as [Hnd [Hv _]%Forall_cons]. apply NoDup_bind_disjoint; [by apply IH3| |].
      * intros c _. apply NoDup_fmap_2; [|done]. intros a b Hab. apply app_inv_head in Hab. by injection Hab.
      * intros c c' b _ _ (x & -> & _)%list_elem_of_fmap (y & Hy & _)%list_elem_of_fmap.
        by apply app_inj_tail in Hy as [-> _].
Qed.

(** One result per combination, in order, a failed one included. *)
Theorem run_sweep_rows {W : Type} (run : Combo -> Path -> W -> option (Summary * Z) * W) (out_dir : Path)
    (combos : list Combo) (w : W) :
  sr_label <$> (run_sweep run out_dir combos w).1 = combo_label <$> combos.
Proof.
  revert w. induction combos as [|c cs IH]; intros w; [done|]. simpl.
  assert (forall w, sr_label (run_combo run out_dir c w).1 = combo_label c) as Hl.
  { intros w'. unfold run_combo. by destruct (run c _ w') as [[[s code]|] w2]. }
  specialize (Hl w). destruct (run_combo run out_dir c w) as [r w1]. specialize (IH w1).
  destruct (run_sweep run out_dir cs w1) as [rs w2]. 
  change (sr_label r :: (sr_label <$> rs) = combo_label c :: (combo_label <$> cs)). f_equal; [exact Hl|exact IH].
Qed.

Module SweepDemo.
Definition vars : list SweepVar := [mkSweepVar "vus" ["10"; "50"]; mkSweepVar "duration" ["1s"]].

Example matrix :
  expand_matrix vars = [[("vus", "10"); ("duration", "1s")]; [("vus", "50"); ("duration", "1s")]]
  /\ combo_slug [("vus", "10"); ("duration", "1.5 s")] = "vus-10_duration-1.5-s"
  /\ parse_var "vus = 10, 50" = Ok (mkSweepVar "vus" ["10"; "50"]) /\ is_ok (parse_var "a-b=1") = false
  /\ is_ok (parse_var "a=1,,2") = false.
Proof. vm_compute. repeat split. Qed.

(** Two combinations can share a summary file. *)
Example slugs_collide :
  combo_slug [("path", "a/b")] = combo_slug [("path", "a-b")] /\ combo_slug [("sign", "-1")] = combo_slug [("sign", "+1")].
Proof. vm_compute. split; reflexivity. Qed.

Lemma expand_matrix_exact_witness : NoDup (expand_matrix vars).
Proof.
  apply (proj2 (proj2 (expand_matrix_exact vars))). refine (bool_decide_eq_true_1 _ _). vm_compute. reflexivity.
Defined.
End SweepDemo.
