(* ===== verification/Arrival.v ===== *)
(** * Open-model executors: the arrival gate (crates/loadr-core/src/executor.rs)

    The dispatcher of [run_arrival_rate] publishes scheduled arrivals as semaphore
    permits; workers claim them; what nobody claims in time is recorded as dropped.
    tokio's [Semaphore] is a parameter, with its documented accounting as laws; a FIFO
    queue at the end of the file satisfies them.  The dispatcher and the workers
    interleave at their [await]s, one transition of [step] per piece. *)

From Stdlib Require Import SpecFloat.
From S2P Require Import Prelude Float64 Str Dur Executor.

(** ** The semaphore *)

Inductive TryAcquire := Acquired | NoPermits | SemClosed.

(** [sem_poll s w] polls the [acquire] future of the task [w], creating it on the first
    poll; [sem_drop s w] drops it.  A permit is in the pool ([available]) or assigned to
    a queued waiter ([assigned]) until it is forgotten. *)
Class Semaphore := {
  sem : Type;
  sem_new : sem;
  available : sem -> Z;
  assigned : sem -> Z;
  waiters : sem -> gset nat;
  sem_closed : sem -> bool;
  MAX_PERMITS : Z;
  sem_try_acquire : sem -> sem * TryAcquire;
  sem_poll : sem -> nat -> sem * option bool;
  sem_drop : sem -> nat -> sem;
  sem_add_permits : sem -> Z -> may_panic sem;
  sem_forget_permits : sem -> Z -> sem * Z;
  sem_close : sem -> sem;
}.

Definition held `{Semaphore} (s : sem) : Z := available s + assigned s.

Class SemaphoreLaws `{Semaphore} : Prop := {
  sem_nonneg s : 0 <= available s <= MAX_PERMITS /\ 0 <= assigned s;
  sem_idle s : waiters s = ∅ -> assigned s = 0;
  sem_new_spec : held sem_new = 0 /\ waiters sem_new = ∅ /\ sem_closed sem_new = false;
  try_acquire_spec s :
    match sem_try_acquire s with
    | (s', Acquired) => held s' = held s - 1 /\ waiters s' = waiters s /\ sem_closed s = false /\ sem_closed s' = false
    | (s', NoPermits) => s' = s /\ sem_closed s = false
    | (s', SemClosed) => s' = s /\ sem_closed s = true
    end;
  poll_spec s w :
    match sem_poll s w with
    | (s', Some true) => held s' = held s - 1 /\ waiters s' = waiters s ∖ {[w]}
                         /\ sem_closed s = false /\ sem_closed s' = false
    | (s', Some false) => held s' = held s /\ waiters s' = waiters s ∖ {[w]}
                          /\ sem_closed s = true /\ sem_closed s' = true
    | (s', None) => held s' = held s /\ waiters s' = waiters s ∪ {[w]}
                    /\ sem_closed s = false /\ sem_closed s' = false
    end;
  drop_spec s w :
    held (sem_drop s w) = held s /\ waiters (sem_drop s w) = waiters s ∖ {[w]}
    /\ sem_closed (sem_drop s w) = sem_closed s;
  add_permits_spec s n s' :
    0 <= n -> sem_add_permits s n = Some s' ->
    held s' = held s + n /\ waiters s' = waiters s /\ sem_closed s' = sem_closed s;
  forget_permits_spec s n :
    0 <= n ->
    let (s', k) := sem_forget_permits s n in
    k = Z.min n (available s) /\ available s' = available s - k /\ held s' = held s - k
    /\ waiters s' = waiters s /\ sem_closed s' = sem_closed s;
  close_spec s :
    held (sem_close s) = held s /\ waiters (sem_close s) = waiters s /\ sem_closed (sem_close s) = true;
}.

(** ** The gate *)

Section Arrival.
Context `{Semaphore}.

Record ArrivalGate := mkArrivalGate {
  budget : sem;
  parked : Z;
  closed : bool;
}.

Inductive Claim := Claimed | Empty | Closed.

Definition gate_new : ArrivalGate := mkArrivalGate sem_new 0 false.

Definition try_claim (g : ArrivalGate) : ArrivalGate * Claim :=
  let '(b, r) := sem_try_acquire (budget g) in
  (mkArrivalGate b (parked g) (closed g),
   match r with Acquired => Claimed | NoPermits => Empty | SemClosed => Closed end).

(** One poll of [claim_parked] by worker [w]. *)
Definition claim_parked (g : ArrivalGate) (w : nat) : ArrivalGate * option bool :=
  let '(b, r) := sem_poll (budget g) w in (mkArrivalGate b (parked g) (closed g), r).

Definition park (g : ArrivalGate) : ArrivalGate :=
  mkArrivalGate (budget g) (u64_add (parked g) 1) (closed g).
(** Dropping the guard. *)
Definition unpark (g : ArrivalGate) : ArrivalGate :=
  mkArrivalGate (budget g) (u64_sub (parked g) 1) (closed g).
(** Dropping the [claim_parked] future. *)
Definition cancel_claim (g : ArrivalGate) (w : nat) : ArrivalGate :=
  mkArrivalGate (sem_drop (budget g) w) (parked g) (closed g).

Definition publish (g : ArrivalGate) (due : Z) (expiry : option Z) (now tick : Z) :
    may_panic (ArrivalGate * option Z) :=
  b ← sem_add_permits (budget g) due;
  Some (mkArrivalGate b (parked g) (closed g), Some (default (now + tick) expiry)).

Definition take_unclaimed (g : ArrivalGate) : ArrivalGate * Z :=
  let '(b, n) := sem_forget_permits (budget g) MAX_PERMITS in (mkArrivalGate b (parked g) (closed g), n).

Definition expire_due (g : ArrivalGate) (expiry : option Z) (now : Z) : ArrivalGate * option Z * Z :=
  match expiry with
  | Some at_ =>
      if Z.leb at_ now then let '(g, n) := take_unclaimed g in (g, None, n) else (g, expiry, 0)
  | None => (g, expiry, 0)
  end.

Definition gate_close (g : ArrivalGate) : ArrivalGate * Z :=
  take_unclaimed (mkArrivalGate (sem_close (budget g)) (parked g) true).

(** ** The dispatcher *)

(** [LOADR_DISPATCH_TICK_US], parsed, with its default and its clamp. *)
Definition dispatch_tick (var : option Z) : Duration :=
  Duration_from_micros (Z.max 250 (Z.min 1000000 (default 5000 var))).

Record Dispatcher := mkDispatcher {
  emitted : f64;
  last_tick : Z;
  expiry : option Z;
  natural_end : bool;
  allocated : Z;
}.

(** What a turn leaves: the dispatcher, the gate, the arrivals published, those
    recorded as dropped, the workers to spawn, and whether the loop goes on. *)
Record Turn := mkTurn {
  t_disp : Dispatcher;
  t_gate : ArrivalGate;
  t_published : Z;
  t_dropped : Z;
  t_grow : Z;
  t_continue : bool;
}.

Section Turn.
Context (schedule : RateSchedule) (started soft_deadline : Z) (tick : Duration) (max_vus : Z).

(** Paused ticks expire what was published and publish nothing. *)
Definition drop_pending (g : ArrivalGate) (exp : option Z) : ArrivalGate * Z :=
  match exp with Some _ => take_unclaimed g | None => (g, 0) end.

(** The body of the dispatch loop, after [select!] chose the ticker ([fired = false]) or
    the deadline ([fired = true]) at [clock]; [later] is when [started.elapsed()] is
    read. *)
Definition dispatch_turn (d : Dispatcher) (g : ArrivalGate) (clock later : Z) (paused fired : bool) :
    may_panic Turn :=
  let now := Z.min clock soft_deadline in
  let deadline_elapsed := fired || Z.leb soft_deadline now in
  let '(g, exp, dropped) := expire_due g (expiry d) now in
  if paused then
    let '(g, n) := drop_pending g exp in
    Some (mkTurn (mkDispatcher (emitted d) now None (natural_end d || deadline_elapsed) (allocated d))
            g 0 (dropped + n) 0 (negb deadline_elapsed))
  else
    let dt := as_secs_f64 (u64_saturating_sub now (last_tick d)) in
    let em := f64_add (emitted d) (f64_mul (rate_at schedule (later - started)) dt) in
    let due := f64_as_u64 em in
    if Z.eqb due 0 then
      Some (mkTurn (mkDispatcher em now exp (natural_end d || deadline_elapsed) (allocated d))
              g 0 dropped 0 (negb deadline_elapsed))
    else
      let em := f64_sub em (f64_of_Z due) in
      let grow := Z.min (u64_saturating_sub due (parked g)) (u64_saturating_sub max_vus (allocated d)) in
      '(g, exp) ← publish g due exp now tick;
      Some (mkTurn (mkDispatcher em now exp (natural_end d || deadline_elapsed) (u64_add (allocated d) grow))
              g due dropped grow (negb deadline_elapsed)).

(** One tick of the drain of the final batch. *)
Definition drain_turn (d : Dispatcher) (g : ArrivalGate) (clock : Z) (paused : bool) : Turn :=
  if paused then
    let '(g, n) := drop_pending g (expiry d) in
    mkTurn (mkDispatcher (emitted d) (last_tick d) None (natural_end d) (allocated d)) g 0 n 0 false
  else
    let '(g, exp, n) := expire_due g (expiry d) clock in
    mkTurn (mkDispatcher (emitted d) (last_tick d) exp (natural_end d) (allocated d)) g 0 n 0
      (bool_decide (is_Some exp)).
End Turn.

(** ** Workers and the run *)

(** Where a worker's loop is: at its head, waiting out a pause, parked on the
    semaphore, running a claimed arrival, returned. *)
Inductive WorkerState := WLoop | WPaused | WParked | WRunning | WExited.

#[global] Instance WorkerState_eq_dec : EqDecision WorkerState.
Proof. solve_decision. Defined.

Inductive Phase := Dispatching | Draining | Joining | Done.

#[global] Instance Phase_eq_dec : EqDecision Phase.
Proof. solve_decision. Defined.

(** [r_published], [r_started] and [r_dropped] count the arrivals published, the
    claims that went into an iteration and what [record_dropped] was given. *)
Record Run := mkRun {
  r_gate : ArrivalGate;
  r_disp : Dispatcher;
  r_phase : Phase;
  r_workers : gmap nat WorkerState;
  r_spawned : nat;
  r_paused : bool;
  r_published : Z;
  r_started : Z;
  r_dropped : Z;
}.

Fixpoint spawn (n : nat) (next : nat) (workers : gmap nat WorkerState) : gmap nat WorkerState :=
  match n with
  | O => workers
  | S n => spawn n (S next) (<[next := WLoop]> workers)
  end.

Definition set_worker (w : nat) (st : WorkerState) (g : ArrivalGate) (started : Z) (r : Run) : Run :=
  mkRun g (r_disp r) (r_phase r) (<[w := st]> (r_workers r)) (r_spawned r) (r_paused r)
    (r_published r) (r_started r + started) (r_dropped r).

(** A worker's piece: at the head of its loop it looks at the pause, then claims. *)
Inductive worker_step (r : Run) (w : nat) : Run -> Prop :=
| ws_pause :
    r_workers r !! w = Some WLoop -> r_paused r = true ->
    worker_step r w (set_worker w WPaused (r_gate r) 0 r)
| ws_resume :
    r_workers r !! w = Some WPaused -> r_paused r = false ->
    worker_step r w (set_worker w WLoop (r_gate r) 0 r)
| ws_paused_closed :
    r_workers r !! w = Some WPaused -> closed (r_gate r) = true ->
    worker_step r w (set_worker w WExited (r_gate r) 0 r)
(** [wait_unpaused] sees the scenario cancelled. *)
| ws_paused_cancelled :
    r_workers r !! w = Some WPaused -> worker_step r w (set_worker w WExited (r_gate r) 0 r)
| ws_claim g c :
    r_workers r !! w = Some WLoop -> r_paused r = false -> try_claim (r_gate r) = (g, c) ->
    worker_step r w
      (match c with
       | Claimed => set_worker w WRunning g 1 r
       | Closed => set_worker w WExited g 0 r
       | Empty => set_worker w WParked (park g) 0 r
       end)
| ws_poll g res :
    r_workers r !! w = Some WParked -> claim_parked (r_gate r) w = (g, res) ->
    worker_step r w
      (match res with
       | None => set_worker w WParked g 0 r
       | Some true => set_worker w WRunning (unpark g) 1 r
       | Some false => set_worker w WExited (unpark g) 0 r
       end)
(** The scenario is cancelled while the worker is parked: both guards drop. *)
| ws_parked_cancelled :
    r_workers r !! w = Some WParked ->
    worker_step r w (set_worker w WExited (unpark (cancel_claim (r_gate r) w)) 0 r)
(** [run_one] returns; the virtual user goes on or retires. *)
| ws_iteration_done st :
    r_workers r !! w = Some WRunning -> st = WLoop \/ st = WExited ->
    worker_step r w (set_worker w st (r_gate r) 0 r).

Section Run.
Context (schedule : RateSchedule) (started soft_deadline : Z) (tick : Duration).
Context (pre_allocated max_vus : Z).

Definition run_start (now : Z) : Run :=
  mkRun gate_new (mkDispatcher f64_zero now None false pre_allocated) Dispatching
    (spawn (Z.to_nat pre_allocated) 0 ∅) (Z.to_nat pre_allocated) false 0 0 0.

(** The dispatcher's state after a turn. *)
Definition after_turn (t : Turn) (ph : Phase) (r : Run) : Run :=
  mkRun (t_gate t) (t_disp t) ph (spawn (Z.to_nat (t_grow t)) (r_spawned r) (r_workers r))
    (r_spawned r + Z.to_nat (t_grow t)) (r_paused r)
    (r_published r + t_published t) (r_started r) (r_dropped r + t_dropped t).

Definition draining (d : Dispatcher) : bool := natural_end d && bool_decide (is_Some (expiry d)).

Inductive step (r : Run) : Run -> Prop :=
| st_worker w r' : worker_step r w r' -> step r r'
| st_pause p :
    step r (mkRun (r_gate r) (r_disp r) (r_phase r) (r_workers r) (r_spawned r) p
              (r_published r) (r_started r) (r_dropped r))
| st_turn clock later fired t :
    r_phase r = Dispatching ->
    dispatch_turn schedule started soft_deadline tick max_vus (r_disp r) (r_gate r) clock later (r_paused r) fired
      = Some t ->
    step r (after_turn t (if t_continue t then Dispatching else Draining) r)
(** The soft stop or the scenario's cancellation breaks the loop. *)
| st_stop :
    r_phase r = Dispatching ->
    step r (mkRun (r_gate r) (r_disp r) Draining (r_workers r) (r_spawned r) (r_paused r)
              (r_published r) (r_started r) (r_dropped r))
| st_drain clock :
    r_phase r = Draining -> draining (r_disp r) = true ->
    step r (after_turn (drain_turn (r_disp r) (r_gate r) clock (r_paused r)) Draining r)
(** The drain is over, or broken off by a stop: close. *)
| st_close g n :
    r_phase r = Draining -> gate_close (r_gate r) = (g, n) ->
    step r (mkRun g (r_disp r) Joining (r_workers r) (r_spawned r) (r_paused r)
              (r_published r) (r_started r) (r_dropped r + n))
(** Every worker is joined: the last sweep. *)
| st_join g n :
    r_phase r = Joining -> (forall w st, r_workers r !! w = Some st -> st = WExited) ->
    take_unclaimed (r_gate r) = (g, n) ->
    step r (mkRun g (r_disp r) Done (r_workers r) (r_spawned r) (r_paused r)
              (r_published r) (r_started r) (r_dropped r + n)).

Inductive reachable : Run -> Prop :=
| reach_start now : reachable (run_start now)
| reach_step r r' : reachable r -> step r r' -> reachable r'.

(** ** Invariant *)

Definition parked_set (workers : gmap nat WorkerState) : gset nat :=
  dom (filter (fun kv => kv.2 = WParked) workers).

Record run_ok (r : Run) : Prop := {
  ok_conserved : r_published r = r_started r + r_dropped r + held (budget (r_gate r));
  ok_closed : sem_closed (budget (r_gate r)) = closed (r_gate r);
  ok_phase : closed (r_gate r) = true <-> r_phase r = Joining \/ r_phase r = Done;
  ok_waiters : waiters (budget (r_gate r)) ⊆ parked_set (r_workers r);
  ok_parked : parked (r_gate r) = Z.of_nat (size (parked_set (r_workers r)));
  ok_spawned : forall w, is_Some (r_workers r !! w) <-> (w < r_spawned r)%nat;
  ok_allocated : allocated (r_disp r) = Z.of_nat (r_spawned r) /\ Z.of_nat (r_spawned r) <= Z.max pre_allocated max_vus;
  ok_done : r_phase r = Done -> held (budget (r_gate r)) = 0;
}.

Lemma parked_set_elem (workers : gmap nat WorkerState) (w : nat) :
  w ∈ parked_set workers <-> workers !! w = Some WParked.
Proof.
  unfold parked_set. rewrite elem_of_dom. split.
  - intros [x [Hx Heq]%map_lookup_filter_Some]. simpl in Heq. by subst.
  - intros Hw. exists WParked. by apply map_lookup_filter_Some.
Qed.

Lemma parked_set_insert (workers : gmap nat WorkerState) (w : nat) (st : WorkerState) :
  parked_set (<[w := st]> workers)
  = if decide (st = WParked) then {[w]} ∪ parked_set workers else parked_set workers ∖ {[w]}.
Proof.
  apply set_eq. intros x. rewrite parked_set_elem.
  destruct (decide (st = WParked)) as [->|Hne]; rewrite ?elem_of_union, ?elem_of_difference, elem_of_singleton, parked_set_elem.
  - destruct (decide (x = w)) as [->|]; [rewrite lookup_insert_eq; tauto|rewrite lookup_insert_ne by done; tauto].
  - destruct (decide (x = w)) as [->|]; [rewrite lookup_insert_eq; naive_solver|rewrite lookup_insert_ne by done; tauto].
Qed.

Lemma parked_set_stay (workers : gmap nat WorkerState) (w : nat) (old st : WorkerState) :
  workers !! w = Some old -> old <> WParked -> st <> WParked ->
  parked_set (<[w := st]> workers) = parked_set workers.
Proof.
  intros Hw Ho Hs. rewrite parked_set_insert, decide_False by done.
  assert (w ∉ parked_set workers) by (rewrite parked_set_elem; congruence). set_solver.
Qed.

Lemma size_park (workers : gmap nat WorkerState) (w : nat) (old : WorkerState) :
  workers !! w = Some old -> old <> WParked ->
  size (parked_set (<[w := WParked]> workers)) = S (size (parked_set workers)).
Proof.
  intros Hw Ho. rewrite parked_set_insert, decide_True by done.
  rewrite size_union, size_singleton; [done|].
  assert (w ∉ parked_set workers) by (rewrite parked_set_elem; congruence). set_solver.
Qed.

Lemma size_unpark (workers : gmap nat WorkerState) (w : nat) (st : WorkerState) :
  workers !! w = Some WParked -> st <> WParked ->
  S (size (parked_set (<[w := st]> workers))) = size (parked_set workers).
Proof.
  intros Hw Hs. rewrite parked_set_insert, decide_False by done.
  rewrite (size_difference_alt _ {[w]}).
  assert (parked_set workers ∩ {[w]} = {[w]}) as -> by (apply parked_set_elem in Hw; set_solver).
  rewrite size_singleton. assert (0 < size (parked_set workers))%nat; [|lia].
  apply parked_set_elem in Hw. assert (size (parked_set workers) <> 0%nat); [|lia].
  intros E%size_empty_inv. set_solver.
Qed.

Lemma spawn_lookup (n next : nat) (workers : gmap nat WorkerState) (w : nat) :
  spawn n next workers !! w = if decide (next <= w < next + n)%nat then Some WLoop else workers !! w.
Proof.
  revert next workers. induction n as [|n IH]; intros next workers; simpl.
  - by rewrite decide_False by lia.
  - rewrite IH. destruct (decide (w = next)) as [->|].
    + rewrite decide_False, decide_True by lia. apply lookup_insert_eq.
    + rewrite lookup_insert_ne by done. by apply decide_ext; lia.
Qed.

Lemma spawn_parked (n next : nat) (workers : gmap nat WorkerState) :
  (forall w, is_Some (workers !! w) -> (w < next)%nat) ->
  parked_set (spawn n next workers) = parked_set workers.
Proof.
  intros Hlt. apply set_eq. intros w. rewrite !parked_set_elem, spawn_lookup.
  destruct (decide _) as [Hd|]; [|done]. split; [done|]. intros Hw.
  specialize (Hlt w ltac:(by eexists)). lia.
Qed.

(** ** The gate's accounting *)

Context `{!SemaphoreLaws}.
Context (Hpre : is_u64 pre_allocated) (Hmax : is_u64 max_vus).

(** Nothing but the pool moves. *)
Definition keeps (g g' : ArrivalGate) : Prop :=
  parked g' = parked g /\ closed g' = closed g
  /\ waiters (budget g') = waiters (budget g) /\ sem_closed (budget g') = sem_closed (budget g).

Lemma take_unclaimed_spec (g g' : ArrivalGate) (n : Z) :
  take_unclaimed g = (g', n) ->
  keeps g g' /\ held (budget g') = held (budget g) - n /\ available (budget g') = 0.
Proof.
  unfold take_unclaimed. pose proof (sem_nonneg (budget g)) as [Hb _].
  assert (0 <= MAX_PERMITS) as Hm by lia.
  pose proof (forget_permits_spec (budget g) MAX_PERMITS Hm) as Hf.
  destruct (sem_forget_permits _ _) as [b k]. intros [= <- <-]. unfold keeps. simpl.
  destruct Hf as (-> & Ha & Hh & Hw & Hc). rewrite Z.min_r in * by lia. split_and!; try done; lia.
Qed.

Lemma expire_due_spec (g g' : ArrivalGate) (exp exp' : option Z) (now n : Z) :
  expire_due g exp now = (g', exp', n) -> keeps g g' /\ held (budget g') = held (budget g) - n.
Proof.
  unfold expire_due. destruct exp as [at_|]; [destruct (Z.leb at_ now)|].
  - destruct (take_unclaimed g) as [g1 k] eqn:E. intros [= <- <- <-].
    apply take_unclaimed_spec in E as (? & ? & ?). done.
  - intros [= <- <- <-]. split; [done|lia].
  - intros [= <- <- <-]. split; [done|lia].
Qed.

Lemma drop_pending_spec (g g' : ArrivalGate) (exp : option Z) (n : Z) :
  drop_pending g exp = (g', n) -> keeps g g' /\ held (budget g') = held (budget g) - n.
Proof.
  unfold drop_pending. destruct exp as [at_|].
  - intros (? & ? & ?)%take_unclaimed_spec. done.
  - intros [= <- <-]. split; [done|lia].
Qed.

Lemma keeps_trans (g1 g2 g3 : ArrivalGate) : keeps g1 g2 -> keeps g2 g3 -> keeps g1 g3.
Proof. unfold keeps. intros (-> & -> & -> & ->) (-> & -> & -> & ->). done. Qed.

Lemma publish_spec (g g' : ArrivalGate) (exp exp' : option Z) (due now tk : Z) :
  0 <= due -> publish g due exp now tk = Some (g', exp') ->
  keeps g g' /\ held (budget g') = held (budget g) + due.
Proof.
  unfold publish. intros Hd. destruct (sem_add_permits (budget g) due) as [b|] eqn:E; [|done].
  intros [= <- <-]. destruct (add_permits_spec _ _ _ Hd E) as (? & ? & ?). done.
Qed.

(** What a turn does to the account, the gauge and the pool. *)
Definition turn_ok (d : Dispatcher) (g : ArrivalGate) (t : Turn) : Prop :=
  keeps g (t_gate t) /\ held (budget (t_gate t)) = held (budget g) + t_published t - t_dropped t
  /\ 0 <= t_grow t /\ allocated (t_disp t) = allocated d + t_grow t
  /\ (allocated d <= Z.max pre_allocated max_vus -> allocated (t_disp t) <= Z.max pre_allocated max_vus).

Lemma dispatch_turn_ok (d : Dispatcher) (g : ArrivalGate) (clock later : Z) (p fired : bool) (t : Turn) :
  0 <= allocated d <= Z.max pre_allocated max_vus ->
  dispatch_turn schedule started soft_deadline tick max_vus d g clock later p fired = Some t -> turn_ok d g t.
Proof.
  intros Ha. unfold dispatch_turn.
  destruct (expire_due g (expiry d) _) as [[g1 exp] n1] eqn:E1. apply expire_due_spec in E1 as [K1 H1].
  destruct p.
  - destruct (drop_pending g1 exp) as [g2 n2] eqn:E2. apply drop_pending_spec in E2 as [K2 H2].
    intros [= <-]. unfold turn_ok. simpl. split_and!; [by eapply keeps_trans|lia..].
  - cbv zeta. set (em := f64_add _ _). pose proof (f64_as_u64_range em) as Hdue.
    destruct (Z.eqb (f64_as_u64 em) 0).
    + intros [= <-]. unfold turn_ok. simpl. split_and!; [done|lia..].
    + destruct (publish g1 (f64_as_u64 em) exp _ tick) as [[g2 exp2]|] eqn:E2; [|done].
      apply publish_spec in E2 as [K2 H2]; [|apply Hdue]. simpl. intros [= <-]. unfold turn_ok. simpl.
      set (grow := Z.min _ _).
      assert (0 <= grow /\ (grow = 0 \/ allocated d + grow <= max_vus)) as [Hg0 Hg]
        by (unfold grow, u64_saturating_sub; lia).
      rewrite u64_add_small by (unfold is_u64 in *; lia).
      split_and!; [by eapply keeps_trans|lia..].
Qed.

Lemma drain_turn_ok (d : Dispatcher) (g : ArrivalGate) (clock : Z) (p : bool) :
  turn_ok d g (drain_turn d g clock p).
Proof.
  unfold drain_turn. destruct p.
  - destruct (drop_pending g (expiry d)) as [g2 n2] eqn:E2. apply drop_pending_spec in E2 as [K2 H2].
    unfold turn_ok. simpl. split_and!; [done|lia..].
  - destruct (expire_due g (expiry d) clock) as [[g1 exp] n1] eqn:E1. apply expire_due_spec in E1 as [K1 H1].
    unfold turn_ok. simpl. split_and!; [done|lia..].
Qed.

(** A change of one worker's state with a gate whose account moved by [-started]. *)
Lemma set_worker_ok (r : Run) (w : nat) (st : WorkerState) (g : ArrivalGate) (k : Z) :
  run_ok r -> is_Some (r_workers r !! w) ->
  held (budget g) = held (budget (r_gate r)) - k ->
  (k <> 0 -> closed g = false) ->
  closed g = closed (r_gate r) -> sem_closed (budget g) = closed g ->
  waiters (budget g) ⊆ parked_set (<[w := st]> (r_workers r)) ->
  parked g = Z.of_nat (size (parked_set (<[w := st]> (r_workers r)))) ->
  run_ok (set_worker w st g k r).
Proof.
  intros Hok Hw Hh Hk Hc Hsc Hwt Hp. destruct Hok as [H1 H2 H3 H4 H5 H6 H7 H8].
  constructor; simpl; try done.
  - lia.
  - by rewrite Hc.
  - intros x. destruct (decide (x = w)) as [->|].
    + rewrite lookup_insert_eq. rewrite <- H6. split; [done|by eexists].
    + by rewrite lookup_insert_ne.
  - intros Hd. specialize (H8 Hd). assert (closed g = true) as Hg.
    { rewrite Hc. apply H3. by right. }
    destruct (Z.eq_dec k 0) as [->|Hk0]; [lia|]. specialize (Hk Hk0). congruence.
Qed.

Lemma parked_positive (r : Run) (w : nat) :
  run_ok r -> r_workers r !! w = Some WParked ->
  1 <= parked (r_gate r) < u64_modulus.
Proof.
  intros Hok Hw. rewrite (ok_parked _ Hok).
  assert (parked_set (r_workers r) ⊆ list_to_set (seq 0 (r_spawned r))) as Hsub.
  { intros x Hx%parked_set_elem. apply elem_of_list_to_set, elem_of_seq.
    pose proof (proj1 (ok_spawned _ Hok x) ltac:(by eexists)). lia. }
  apply subseteq_size in Hsub. rewrite size_list_to_set in Hsub by apply NoDup_seq. rewrite length_seq in Hsub.
  destruct (ok_allocated _ Hok) as [_ Hal]. unfold is_u64 in *.
  pose proof (size_unpark (r_workers r) w WExited Hw ltac:(done)). lia.
Qed.

Lemma worker_step_ok (r r' : Run) (w : nat) : run_ok r -> worker_step r w r' -> run_ok r'.
Proof.
  intros Hok Hst. pose proof (ok_closed _ Hok) as Hsc. pose proof (ok_waiters _ Hok) as Hwt.
  pose proof (ok_parked _ Hok) as Hp.
  destruct Hst as [Hw _|Hw _|Hw _|Hw|g c Hw _ Hc|g res Hw Hc|Hw|st Hw Hor].
  1-4: apply set_worker_ok; [done|by eexists|lia|done|done|done| |];
    by rewrite (parked_set_stay _ _ _ _ Hw).
  - unfold try_claim in Hc. pose proof (try_acquire_spec (budget (r_gate r))) as Hs.
    destruct (sem_try_acquire _) as [b a]. injection Hc as <- <-. destruct a.
    + destruct Hs as (Hh & Hwa & Hc1 & Hc2). apply set_worker_ok; simpl; try done; try congruence;
        rewrite (parked_set_stay _ _ _ _ Hw) by done; [by rewrite Hwa|done].
    + destruct Hs as [-> Hc1]. apply set_worker_ok; simpl; try done; try lia.
      * rewrite parked_set_insert, decide_True by done. set_solver.
      * rewrite (size_park _ _ _ Hw) by done. rewrite Hp, u64_add_small; [lia|].
        assert (size (parked_set (<[w:=WParked]> (r_workers r))) <= r_spawned r)%nat as Hle.
        { assert (parked_set (<[w:=WParked]> (r_workers r)) ⊆ list_to_set (seq 0 (r_spawned r))) as Hsub.
          { intros x Hx%parked_set_elem. apply elem_of_list_to_set, elem_of_seq.
            destruct (decide (x = w)) as [->|Hne].
            - pose proof (proj1 (ok_spawned _ Hok w) ltac:(by eexists)). lia.
            - rewrite lookup_insert_ne in Hx by done.
              pose proof (proj1 (ok_spawned _ Hok x) ltac:(by eexists)). lia. }
          apply subseteq_size in Hsub. rewrite size_list_to_set, length_seq in Hsub by apply NoDup_seq. done. }
        rewrite (size_park _ _ _ Hw) in Hle by done.
        destruct (ok_allocated _ Hok) as [_ Hal]. unfold is_u64 in *. lia.
    + destruct Hs as [-> Hc1]. apply set_worker_ok; simpl; try done; try lia;
        by rewrite (parked_set_stay _ _ _ _ Hw).
  - unfold claim_parked in Hc. pose proof (poll_spec (budget (r_gate r)) w) as Hs.
    pose proof (parked_positive r w Hok Hw) as Hpp.
    destruct (sem_poll _ _) as [b a]. injection Hc as <- <-.
    destruct a as [[]|]; destruct Hs as (Hh & Hwa & Hc1 & Hc2).
    + apply set_worker_ok; simpl; try done; try congruence.
      * rewrite parked_set_insert, decide_False by done. set_solver.
      * pose proof (size_unpark _ w WRunning Hw ltac:(done)). rewrite u64_sub_small by (unfold is_u64 in *; lia). lia.
    + apply set_worker_ok; simpl; try done; try congruence; try lia.
      * rewrite parked_set_insert, decide_False by done. set_solver.
      * pose proof (size_unpark _ w WExited Hw ltac:(done)). rewrite u64_sub_small by (unfold is_u64 in *; lia). lia.
    + assert (parked_set (<[w:=WParked]> (r_workers r)) = parked_set (r_workers r)) as Hps.
      { rewrite parked_set_insert, decide_True by done. apply parked_set_elem in Hw. set_solver. }
      apply set_worker_ok; simpl; try done; try congruence; try lia; rewrite Hps; try done.
      apply parked_set_elem in Hw. set_solver.
  - pose proof (parked_positive r w Hok Hw) as Hpp. pose proof (drop_spec (budget (r_gate r)) w) as (Hh & Hwa & Hcl).
    apply set_worker_ok; simpl; try done; try congruence; try lia.
    + rewrite parked_set_insert, decide_False by done. set_solver.
    + pose proof (size_unpark _ w WExited Hw ltac:(done)). rewrite u64_sub_small by (unfold is_u64 in *; lia). lia.
  - apply set_worker_ok; [done|by eexists|lia|done|done|done| |];
      destruct Hor as [-> | ->]; by rewrite (parked_set_stay _ _ _ _ Hw).
Qed.

Lemma after_turn_ok (r : Run) (t : Turn) (ph : Phase) :
  run_ok r -> (r_phase r = Dispatching \/ r_phase r = Draining) -> (ph = Dispatching \/ ph = Draining) ->
  turn_ok (r_disp r) (r_gate r) t -> run_ok (after_turn t ph r).
Proof.
  intros Hok Hph Hph' ((Kp & Kc & Kw & Ks) & Hh & Hg & Hal & Hb). destruct Hok as [H1 H2 H3 H4 H5 H6 [H7 H7'] H8].
  assert (forall w, is_Some (r_workers r !! w) -> (w < r_spawned r)%nat) as Hlt by (intros w; apply H6).
  constructor; simpl.
  - lia.
  - congruence.
  - rewrite Kc. split.
    + intros Hc%H3. destruct Hph, Hc; congruence.
    + destruct Hph' as [-> | ->]; intros [?|?]; done.
  - by rewrite Kw, spawn_parked.
  - by rewrite Kp, spawn_parked.
  - intros w. rewrite spawn_lookup. destruct (decide _) as [Hd|Hd].
    + split; [lia|by eexists].
    + rewrite H6. lia.
  - rewrite H7 in *. specialize (Hb ltac:(lia)). split; lia.
  - destruct Hph' as [-> | ->]; done.
Qed.

Lemma run_step_ok (r r' : Run) : run_ok r -> step r r' -> run_ok r'.
Proof.
  intros Hok Hst. destruct Hst as [w r' Hw|p|clock later fired t Hp Ht|Hp|clock Hp Hd|g n Hp Hc|g n Hp Hall Hc].
  - by eapply worker_step_ok.
  - by destruct Hok.
  - apply after_turn_ok; [done|by left|destruct (t_continue t); [by left|by right]|].
    eapply dispatch_turn_ok; [|done]. destruct (ok_allocated _ Hok). lia.
  - destruct Hok as [H1 H2 H3 H4 H5 H6 H7 H8]. constructor; simpl; try done.
    rewrite H3, Hp. split; intros [?|?]; done.
  - apply after_turn_ok; [done|by right|by right|]. apply drain_turn_ok.
  - unfold gate_close in Hc. apply take_unclaimed_spec in Hc as ((Kp & Kc & Kw & Ks) & Hh & _). simpl in *.
    destruct (close_spec (budget (r_gate r))) as (Ch & Cw & Cc).
    destruct Hok as [H1 H2 H3 H4 H5 H6 H7 H8]. constructor; simpl; try done; try lia; try congruence.
    + split; [by left|done].
    + by rewrite Kw, Cw.
  - apply take_unclaimed_spec in Hc as ((Kp & Kc & Kw & Ks) & Hh & Ha).
    destruct Hok as [H1 H2 H3 H4 H5 H6 H7 H8]. constructor; simpl; try done; try lia; try congruence.
    + rewrite Kc, H3, Hp. split; intros _; [by right|by left].
    + by rewrite Kw.
    + intros _. unfold held. rewrite Ha. rewrite sem_idle; [done|]. rewrite Kw. apply set_eq. intros w.
      split; [|set_solver]. intros Hw%H4%parked_set_elem. specialize (Hall w _ Hw). done.
Qed.

Lemma run_start_ok (now : Z) : run_ok (run_start now).
Proof.
  destruct sem_new_spec as (Hh & Hw & Hc).
  assert (parked_set (spawn (Z.to_nat pre_allocated) 0 ∅) = ∅) as Hps.
  { rewrite spawn_parked; [|intros w [x Hx]; by rewrite lookup_empty in Hx].
    apply set_eq. intros w. rewrite parked_set_elem, lookup_empty. set_solver. }
  unfold is_u64 in *. constructor; simpl; try done.
  - split; [done|]. intros [?|?]; done.
  - rewrite Hw. set_solver.
  - by rewrite Hps, size_empty.
  - intros w. rewrite spawn_lookup, lookup_empty. destruct (decide _) as [?|Hd].
    + split; [lia|by eexists].
    + split; [by intros [? ?]|lia].
  - lia.
Qed.

Lemma run_reachable_ok (r : Run) : reachable r -> run_ok r.
Proof. induction 1; [apply run_start_ok|by eapply run_step_ok]. Qed.

(** C15: no scheduled arrival is lost or run twice.  At every moment each published
    arrival has been claimed into exactly one iteration, recorded as dropped, or is still
    in the semaphore; when the executor returns, published = started + dropped. *)
Theorem arrivals_conserved (r : Run) :
  reachable r ->
  r_published r = r_started r + r_dropped r + held (budget (r_gate r))
  /\ 0 <= held (budget (r_gate r))
  /\ (r_phase r = Done -> r_published r = r_started r + r_dropped r).
Proof.
  intros Hr. apply run_reachable_ok in Hr. split_and!.
  - apply Hr.
  - unfold held. pose proof (sem_nonneg (budget (r_gate r))). lia.
  - intros Hd. rewrite (ok_conserved _ Hr), (ok_done _ Hr Hd). lia.
Qed.

(** The pool never outgrows the capacity the virtual-user numbering reserves for
    the executor, the dispatcher sizes its growth by the true number of parked workers,
    and once the gate has closed no worker can claim another arrival. *)
Theorem arrival_pool_bounded (r : Run) (spec : ExecutorSpec) :
  reachable r ->
  (exists rate d, spec = ConstantArrivalRate rate d pre_allocated max_vus)
  \/ (exists start st, spec = RampingArrivalRate start st pre_allocated max_vus) ->
  Z.of_nat (size (r_workers r)) <= vu_capacity spec
  /\ allocated (r_disp r) = Z.of_nat (size (r_workers r))
  /\ parked (r_gate r) = Z.of_nat (size (parked_set (r_workers r)))
  /\ (forall w r', r_phase r = Joining \/ r_phase r = Done -> worker_step r w r' -> r_started r' = r_started r).
Proof.
  intros Hr Hspec. apply run_reachable_ok in Hr. destruct (ok_allocated _ Hr) as [Ha Hb].
  assert (size (r_workers r) = r_spawned r) as Hsz.
  { rewrite <- size_dom. assert (dom (r_workers r) = list_to_set (seq 0 (r_spawned r))) as ->.
    { apply set_eq. intros w. rewrite elem_of_dom, (ok_spawned _ Hr), elem_of_list_to_set, elem_of_seq. lia. }
    by rewrite size_list_to_set, length_seq by apply NoDup_seq. }
  rewrite Hsz. split_and!; [|done|apply Hr|].
  - by destruct Hspec as [(rate & d & ->) | (start & st & ->)].
  - intros w r' Hph Hst. pose proof (ok_closed _ Hr) as Hc. rewrite (proj2 (ok_phase _ Hr) Hph) in Hc.
    destruct Hst as [Hw _|Hw _|Hw _|Hw|g c Hw _ Hq|g res Hw Hq|Hw|st Hw Hor]; simpl; try lia.
    + unfold try_claim in Hq. pose proof (try_acquire_spec (budget (r_gate r))) as Hs.
      destruct (sem_try_acquire _) as [b a]. injection Hq as <- <-. destruct a; simpl; [|lia..].
      destruct Hs as (_ & _ & ? & _). congruence.
    + unfold claim_parked in Hq. pose proof (poll_spec (budget (r_gate r)) w) as Hs.
      destruct (sem_poll _ _) as [b a]. injection Hq as <- <-. destruct a as [[]|]; simpl; try lia.
      destruct Hs as (_ & _ & ? & _). congruence.
Qed.

End Run.
End Arrival.

(** ** A FIFO semaphore

    Permits added go to the waiters in order, the rest to the pool; a dropped waiter's
    permit goes to the next one; a waiter that finds the semaphore closed gives its
    permit back. *)
Module Fifo.

Record Raw := mkRaw {
  pool : nat;
  queue : list (nat * bool);
  shut : bool;
}.

Definition FIFO_MAX : Z := 2 ^ 61 - 1.

Definition granted (q : list (nat * bool)) : nat := length (List.filter snd q).

Fixpoint grant (n : nat) (q : list (nat * bool)) : nat * list (nat * bool) :=
  match q with
  | [] => (n, [])
  | (w, true) :: q => let '(r, q) := grant n q in (r, (w, true) :: q)
  | (w, false) :: q =>
      match n with
      | O => (O, (w, false) :: q)
      | S n => let '(r, q) := grant n q in (r, (w, true) :: q)
      end
  end.

Definition without (w : nat) (q : list (nat * bool)) : list (nat * bool) :=
  filter (fun e => e.1 <> w) q.
Definition permits_of (w : nat) (q : list (nat * bool)) : nat :=
  (granted q - granted (without w q))%nat.

Definition raw_ok (r : Raw) : bool := Z.leb (Z.of_nat (pool r + granted (queue r))) FIFO_MAX.

Definition add (n : nat) (r : Raw) : Raw :=
  let '(rest, q) := grant n (queue r) in mkRaw (pool r + rest) q (shut r).

Definition poll (w : nat) (r : Raw) : Raw * option bool :=
  if shut r then (mkRaw (pool r + permits_of w (queue r)) (without w (queue r)) true, Some false)
  else
    match permits_of w (queue r) with
    | S extra => (mkRaw (pool r + extra) (without w (queue r)) false, Some true)
    | O =>
        if bool_decide (w ∈ (queue r).*1) then (r, None)
        else match pool r with
             | S p => (mkRaw p (queue r) false, Some true)
             | O => (mkRaw 0 (queue r ++ [(w, false)]) false, None)
             end
    end.

Definition drop (w : nat) (r : Raw) : Raw :=
  add (permits_of w (queue r)) (mkRaw (pool r) (without w (queue r)) (shut r)).

Lemma granted_app (q1 q2 : list (nat * bool)) : granted (q1 ++ q2) = (granted q1 + granted q2)%nat.
Proof. unfold granted. by rewrite List.filter_app, length_app. Qed.

Lemma granted_without (w : nat) (q : list (nat * bool)) : (granted (without w q) <= granted q)%nat.
Proof.
  unfold without, granted. induction q as [|[x b] q IH]; [done|]. rewrite filter_cons. simpl.
  destruct (decide _); destruct b; simpl; lia.
Qed.

Lemma grant_spec (n : nat) (q : list (nat * bool)) :
  ((grant n q).1 + granted (grant n q).2 = n + granted q)%nat /\ ((grant n q).2).*1 = (q.*1).
Proof.
  revert n. induction q as [|[w b] q IH]; intros n; simpl; [done|]. unfold granted in *. destruct b.
  - specialize (IH n). destruct (grant n q) as [r q']. simpl in *. split; [lia|f_equal; apply IH].
  - destruct n as [|n]; [done|]. specialize (IH n). destruct (grant n q) as [r q']. simpl in *.
    split; [lia|f_equal; apply IH].
Qed.

Lemma without_keys (w : nat) (q : list (nat * bool)) :
  (list_to_set ((without w q).*1) : gset nat) = list_to_set (q.*1) ∖ {[w]}.
Proof.
  unfold without. induction q as [|[x b] q IH]; [set_solver|]. rewrite filter_cons. simpl.
  destruct (decide _) as [Hd|Hd]; simpl in *; rewrite ?fmap_cons; simpl; rewrite ?IH; [set_solver|].
  apply dec_stable in Hd. set_solver.
Qed.

Lemma add_spec (n : nat) (r : Raw) :
  (pool (add n r) + granted (queue (add n r)) = n + (pool r + granted (queue r)))%nat
  /\ (queue (add n r)).*1 = (queue r).*1 /\ shut (add n r) = shut r.
Proof.
  unfold add. pose proof (grant_spec n (queue r)) as [H1 H2]. destruct (grant n (queue r)) as [l q].
  simpl in *. split_and!; [lia|done..].
Qed.

Lemma poll_held (w : nat) (r : Raw) :
  let '(r', res) := poll w r in
  (pool r' + granted (queue r') + (if decide (res = Some true) then 1 else 0) = pool r + granted (queue r))%nat.
Proof.
  unfold poll, permits_of. pose proof (granted_without w (queue r)). destruct (shut r).
  - rewrite decide_False by done. simpl. lia.
  - destruct (granted (queue r) - granted (without w (queue r)))%nat as [|e] eqn:E.
    + case_bool_decide; [rewrite decide_False by done; lia|].
      destruct (pool r) as [|p]; [rewrite decide_False by done; simpl; rewrite granted_app; unfold granted; simpl; lia|].
      rewrite decide_True by done. simpl. lia.
    + rewrite decide_True by done. simpl. lia.
Qed.

Lemma without_waiters (w : nat) (q : list (nat * bool)) :
  (w ∉ q.*1) -> without w q = q.
Proof.
  intros Hw. apply filter_all, Forall_forall. intros [x b] Hx. simpl. intros ->. apply Hw.
  apply list_elem_of_fmap. by exists (w, b).
Qed.

Lemma permits_of_absent (w : nat) (q : list (nat * bool)) : w ∉ q.*1 -> permits_of w q = 0%nat.
Proof. intros Hw. unfold permits_of. rewrite without_waiters by done. lia. Qed.

(** A raw semaphore within its permit limit. *)
Definition Fifo : Type := { r : Raw | raw_ok r = true }.
Definition raw (s : Fifo) : Raw := proj1_sig s.

(** A state with no more permits than a valid one. *)
Definition bounded_by (s : Fifo) (r : Raw)
    (Hle : (pool r + granted (queue r) <= pool (raw s) + granted (queue (raw s)))%nat) : Fifo.
Proof.
  exists r. abstract (destruct s as [s Hs]; unfold raw_ok, raw in *; simpl in *;
    apply Z.leb_le in Hs; apply Z.leb_le; lia).
Defined.

Lemma poll_bound (s : Fifo) (w : nat) :
  (pool (poll w (raw s)).1 + granted (queue (poll w (raw s)).1) <= pool (raw s) + granted (queue (raw s)))%nat.
Proof. pose proof (poll_held w (raw s)) as Hh. destruct (poll w (raw s)) as [r res]. simpl. lia. Qed.

Lemma drop_bound (s : Fifo) (w : nat) :
  (pool (drop w (raw s)) + granted (queue (drop w (raw s))) = pool (raw s) + granted (queue (raw s)))%nat.
Proof.
  unfold drop. destruct (add_spec (permits_of w (queue (raw s))) (mkRaw (pool (raw s)) (without w (queue (raw s))) (shut (raw s))))
    as [-> _]. simpl. unfold permits_of. pose proof (granted_without w (queue (raw s))). lia.
Qed.

Lemma take_bound (s : Fifo) (k : nat) :
  (pool (raw s) - k + granted (queue (raw s)) <= pool (raw s) + granted (queue (raw s)))%nat.
Proof. lia. Qed.

Definition fifo_add (s : Fifo) (n : Z) : option Fifo :=
  let r := add (Z.to_nat n) (raw s) in
  match decide (raw_ok r = true) with
  | left H => Some (exist _ r H)
  | right _ => None
  end.

Definition fifo_take (s : Fifo) (k : nat) : Fifo :=
  bounded_by s (mkRaw (pool (raw s) - k) (queue (raw s)) (shut (raw s))) (take_bound s k).
Definition fifo_close (s : Fifo) : Fifo :=
  bounded_by s (mkRaw (pool (raw s) - 0) (queue (raw s)) true) (take_bound s 0).

Definition fifo_try_acquire (s : Fifo) : Fifo * TryAcquire :=
  if shut (raw s) then (s, SemClosed)
  else match pool (raw s) with
       | O => (s, NoPermits)
       | S _ => (fifo_take s 1, Acquired)
       end.

#[export] Instance fifo : Semaphore := {|
  sem := Fifo;
  sem_new := exist _ (mkRaw 0 [] false) eq_refl;
  available s := Z.of_nat (pool (raw s));
  assigned s := Z.of_nat (granted (queue (raw s)));
  waiters s := list_to_set ((queue (raw s)).*1);
  sem_closed s := shut (raw s);
  MAX_PERMITS := FIFO_MAX;
  sem_try_acquire := fifo_try_acquire;
  sem_poll s w := (bounded_by s (poll w (raw s)).1 (poll_bound s w), (poll w (raw s)).2);
  sem_drop s w := bounded_by s (drop w (raw s)) (Nat.eq_le_incl _ _ (drop_bound s w));
  sem_add_permits := fifo_add;
  sem_forget_permits s n :=
    let k := Z.to_nat (Z.min n (Z.of_nat (pool (raw s)))) in
    (fifo_take s k, Z.of_nat k);
  sem_close := fifo_close;
|}.

Lemma poll_rest (w : nat) (r : Raw) :
  let '(r', res) := poll w r in
  shut r' = shut r
  /\ (res = Some false <-> shut r = true)
  /\ (list_to_set (queue r').*1 : gset nat)
     = match res with
       | Some _ => list_to_set (queue r).*1 ∖ {[w]}
       | None => list_to_set (queue r).*1 ∪ {[w]}
       end.
Proof.
  unfold poll. destruct (shut r) eqn:Hc; [simpl; split_and!; [done|done|apply without_keys]|].
  destruct (permits_of w (queue r)) as [|e] eqn:E; [|simpl; split_and!; [done|by split|apply without_keys]].
  case_bool_decide as Hw.
  - split_and!; [done|by split|]. set_solver.
  - destruct (pool r) as [|p]; simpl; split_and!; try done; try by split.
    + rewrite fmap_app, list_to_set_app_L. set_solver.
    + set_solver.
Qed.

#[export] Instance fifo_laws : SemaphoreLaws.
Proof.
  split.
  - intros [r Hr]. pose proof Hr as Hb. unfold raw_ok in Hb. apply Z.leb_le in Hb. simpl. lia.
  - intros [r Hr]. simpl. intros He. destruct (queue r) as [|e q]; [done|]. simpl in He. set_solver.
  - done.
  - intros s. simpl. unfold fifo_try_acquire. destruct (shut (raw s)) eqn:Hc; [done|].
    destruct (pool (raw s)) eqn:Hp; [done|].
    unfold held. simpl. split_and!; try done. lia.
  - intros s w. pose proof (poll_held w (raw s)) as Hh. pose proof (poll_rest w (raw s)) as Hrest.
    unfold held. simpl. destruct (poll w (raw s)) as [r res]. simpl in *. destruct Hrest as (Hs & Hr & Hq).
    destruct res as [[]|]; simpl in *; rewrite Hq; (split_and!; [|done|..]).
    + simpl in Hh; lia.
    + destruct (shut (raw s)); [|done]. destruct Hr as [_ Hr]. by specialize (Hr eq_refl).
    + destruct (shut (raw s)); [|done]. destruct Hr as [_ Hr]. by specialize (Hr eq_refl).
    + simpl in Hh; lia.
    + by apply Hr.
    + rewrite Hs. by apply Hr.
    + simpl in Hh; lia.
    + destruct (shut (raw s)); [|done]. destruct Hr as [_ Hr]. by specialize (Hr eq_refl).
    + destruct (shut (raw s)); [|done]. destruct Hr as [_ Hr]. by specialize (Hr eq_refl).
  - intros s w. unfold held. simpl. pose proof (drop_bound s w) as Hb.
    destruct (add_spec (permits_of w (queue (raw s))) (mkRaw (pool (raw s)) (without w (queue (raw s))) (shut (raw s))))
      as (_ & Hq & Hc). split_and!; [lia| |done]. unfold drop. rewrite Hq. simpl. apply without_keys.
  - intros s n s' Hn. simpl. unfold fifo_add. destruct (decide _) as [Hd|]; [|done]. intros [= <-].
    destruct (add_spec (Z.to_nat n) (raw s)) as (H1 & H2 & H3). unfold held. simpl. unfold raw in *. simpl.
    rewrite H2. split_and!; [lia|done..].
  - intros s n Hn. unfold held. simpl. split_and!; try done; lia.
  - intros s. unfold held. simpl. split_and!; try done. lia.
Qed.
End Fifo.

(** ** A run *)
Module ArrivalDemo.
Import Fifo.

Definition sched : RateSchedule := ConstantRate (f64_of_Z 1000) 10000000.
Notation Step := (step sched 0 10000000 5000000 2).
Notation Reachable := (reachable sched 0 10000000 5000000 1 2).

Definition claim (w : nat) (r : Run) : Run :=
  let '(g, c) := try_claim (r_gate r) in
  match c with
  | Claimed => set_worker w WRunning g 1 r
  | Closed => set_worker w WExited g 0 r
  | Empty => set_worker w WParked (park g) 0 r
  end.
Definition poll_claim (w : nat) (r : Run) : Run :=
  let '(g, res) := claim_parked (r_gate r) w in
  match res with
  | None => set_worker w WParked g 0 r
  | Some true => set_worker w WRunning (unpark g) 1 r
  | Some false => set_worker w WExited (unpark g) 0 r
  end.
Definition turn (clock : Z) (r : Run) : Run :=
  match dispatch_turn sched 0 10000000 5000000 2 (r_disp r) (r_gate r) clock clock (r_paused r) false with
  | Some t => after_turn t (if t_continue t then Dispatching else Draining) r
  | None => r
  end.
Definition shut_gate (r : Run) : Run :=
  let '(g, n) := gate_close (r_gate r) in
  mkRun g (r_disp r) Joining (r_workers r) (r_spawned r) (r_paused r) (r_published r) (r_started r) (r_dropped r + n).
Definition finish (r : Run) : Run :=
  let '(g, n) := take_unclaimed (r_gate r) in
  mkRun g (r_disp r) Done (r_workers r) (r_spawned r) (r_paused r) (r_published r) (r_started r) (r_dropped r + n).

Definition at_ (r : Run) (w : nat) (st : WorkerState) : bool := bool_decide (r_workers r !! w = Some st).

Lemma claim_step (r : Run) (w : nat) : at_ r w WLoop && negb (r_paused r) = true -> Step r (claim w r).
Proof.
  intros [Hw%bool_decide_eq_true Hp%negb_true_iff]%andb_prop. eapply st_worker with (w := w).
  unfold claim. destruct (try_claim (r_gate r)) as [g c] eqn:E. by apply ws_claim.
Qed.

Lemma poll_step (r : Run) (w : nat) : at_ r w WParked = true -> Step r (poll_claim w r).
Proof.
  intros Hw%bool_decide_eq_true. eapply st_worker with (w := w).
  unfold poll_claim. destruct (claim_parked (r_gate r) w) as [g c] eqn:E. by apply ws_poll.
Qed.

Lemma turn_step (r : Run) (clock : Z) :
  bool_decide (r_phase r = Dispatching) && bool_decide (is_Some (dispatch_turn sched 0 10000000 5000000 2
    (r_disp r) (r_gate r) clock clock (r_paused r) false)) = true -> Step r (turn clock r).
Proof.
  intros [Hp%bool_decide_eq_true Ht%bool_decide_eq_true]%andb_prop. unfold turn.
  destruct (dispatch_turn _ _ _ _ _ _ _ _ _ _ _) as [t|] eqn:E; [|by destruct Ht].
  by eapply st_turn.
Qed.

Lemma reach_claim (r : Run) (w : nat) : at_ r w WLoop && negb (r_paused r) = true -> Reachable r -> Reachable (claim w r).
Proof. intros. by eapply reach_step; [|apply claim_step]. Qed.
Lemma arrival_reach_poll (r : Run) (w : nat) : at_ r w WParked = true -> Reachable r -> Reachable (poll_claim w r).
Proof. intros. by eapply reach_step; [|apply poll_step]. Qed.
Lemma reach_turn (r : Run) (clock : Z) :
  bool_decide (r_phase r = Dispatching) && bool_decide (is_Some (dispatch_turn sched 0 10000000 5000000 2
    (r_disp r) (r_gate r) clock clock (r_paused r) false)) = true -> Reachable r -> Reachable (turn clock r).
Proof. intros. by eapply reach_step; [|apply turn_step]. Qed.

Definition retire_worker (w : nat) (r : Run) : Run := set_worker w WExited (r_gate r) 0 r.
Lemma reach_retire (r : Run) (w : nat) : at_ r w WRunning = true -> Reachable r -> Reachable (retire_worker w r).
Proof.
  intros Hw%bool_decide_eq_true Hr. eapply reach_step; [exact Hr|]. eapply st_worker with (w := w).
  apply ws_iteration_done; [done|by right].
Qed.

Definition stop (r : Run) : Run :=
  mkRun (r_gate r) (r_disp r) Draining (r_workers r) (r_spawned r) (r_paused r)
    (r_published r) (r_started r) (r_dropped r).
Lemma reach_stop (r : Run) : bool_decide (r_phase r = Dispatching) = true -> Reachable r -> Reachable (stop r).
Proof. intros Hp%bool_decide_eq_true Hr. eapply reach_step; [exact Hr|]. by apply st_stop. Qed.

Lemma reach_shut (r : Run) : bool_decide (r_phase r = Draining) = true -> Reachable r -> Reachable (shut_gate r).
Proof.
  intros Hp%bool_decide_eq_true Hr. eapply reach_step; [exact Hr|]. unfold shut_gate.
  destruct (gate_close (r_gate r)) as [g n] eqn:E. by apply st_close.
Qed.

Lemma reach_finish (r : Run) :
  bool_decide (r_phase r = Joining) && forallb (fun kv => bool_decide (kv.2 = WExited)) (map_to_list (r_workers r)) = true ->
  Reachable r -> Reachable (finish r).
Proof.
  intros [Hp%bool_decide_eq_true Hall]%andb_prop Hr. eapply reach_step; [exact Hr|]. unfold finish.
  destruct (take_unclaimed (r_gate r)) as [g n] eqn:E. apply st_join; [done| |done].
  intros w st Hw. rewrite forallb_forall in Hall.
  specialize (Hall (w, st) ltac:(by apply list_elem_of_In, elem_of_map_to_list)).
  by apply bool_decide_eq_true in Hall.
Qed.

Definition r0 : Run := run_start 1 0.
Definition r2 : Run := poll_claim 0 (claim 0 r0).
Definition r4 : Run := poll_claim 0 (turn 5000000 r2).
Definition r6 : Run := stop (retire_worker 0 r4).
Definition r8 : Run := claim 1 (shut_gate r6).
Definition r9 : Run := finish r8.

Lemma r9_reachable : Reachable r9.
Proof.
  apply reach_finish; [by vm_compute|]. apply reach_claim; [by vm_compute|]. apply reach_shut; [by vm_compute|].
  apply reach_stop; [by vm_compute|]. apply reach_retire; [by vm_compute|]. apply arrival_reach_poll; [by vm_compute|].
  apply reach_turn; [by vm_compute|]. apply arrival_reach_poll; [by vm_compute|]. apply reach_claim; [by vm_compute|].
  apply reach_start.
Qed.

Lemma arrivals_conserved_witness :
  (r_published r9, r_started r9, r_dropped r9) = (5, 1, 4) /\ r_published r9 = r_started r9 + r_dropped r9.
Proof.
  split; [by vm_compute|].
  assert (bool_decide (r_phase r9 = Done) = true) as Hd by by vm_compute. apply bool_decide_eq_true in Hd.
  exact (proj2 (proj2 (arrivals_conserved sched 0 10000000 5000000 1 2
           ltac:(by vm_compute) ltac:(by vm_compute) r9 r9_reachable)) Hd).
Defined.

Lemma arrival_pool_bounded_witness : Z.of_nat (size (r_workers r9)) <= 2.
Proof.
  exact (proj1 (arrival_pool_bounded sched 0 10000000 5000000 1 2 ltac:(by vm_compute) ltac:(by vm_compute)
           r9 (ConstantArrivalRate (f64_of_Z 1000) 10000000 1 2) r9_reachable
           (or_introl (ex_intro _ _ (ex_intro _ _ eq_refl))))).
Defined.
End ArrivalDemo.
