(* ===== verification/Controller.v ===== *)
(** * The coordination controller (crates/loadr-agent/src/controller.rs)

    [Inner] is the shared state behind the mutexes: the registered agents, the runs and
    the two counters.  One definition per handler, in the order of the file; each takes
    the clock it reads and returns the state after it.  A handler that runs without
    an [await] is one function; the [async] ones ([sweep], the preparation barrier,
    [control]) are cut at their [await]s, and ControllerSystem.v interleaves the pieces.

    [outbox] collects what the handlers put into the agents' channels, in order; a
    channel that is full or closed drops a message, which no handler but [control]
    looks at.  Log lines and the wake-ups of [prep_notify] are left out.

    [serde_json] decoding and the plan loader are parameters. *)

From S2P Require Import Prelude Float64 Str Dur Metrics Aggregate Federation Uplink Proto Threshold Thresholds Summary.

(** What a handler reads from the clocks: [Instant::now()] and [now_unix_ms()]. *)
Record Clock := mkClock {
  instant : Z;
  unix_ms : Z;
}.

Inductive OnAgentLoss :=
| LossContinue
| LossAbort.

Inductive RunState :=
| Pending
| Running
| Stopping
| Finished
| Aborted
| Failed.

#[export] Instance RunState_eq_dec : EqDecision RunState.
Proof. solve_decision. Defined.

Definition is_terminal (s : RunState) : bool :=
  match s with
  | Finished | Aborted | Failed => true
  | Pending | Running | Stopping => false
  end.

Definition RunState_as_str (s : RunState) : string :=
  match s with
  | Pending => "pending"
  | Running => "running"
  | Stopping => "stopping"
  | Finished => "finished"
  | Aborted => "aborted"
  | Failed => "failed"
  end.

(** Split [total] across [agents], the remainder to the lowest indices. *)
Definition scale_shares (total agents : Z) : list Z :=
  (fun i => u64_add (total / agents) (u64_from_bool (Z.ltb i (total `mod` agents)))) <$> seqZ 0 agents.

(** The sending half of a session's channel, by the session it was made for. *)
Definition AgentSender : Type := Z.

Inductive PrepPhase :=
| Assigned
| ReadyPhase.

#[export] Instance PrepPhase_eq_dec : EqDecision PrepPhase.
Proof. solve_decision. Defined.

Record PrepState := mkPrepState {
  phases : gmap string PrepPhase;
  failure : option (string * RunState);
}.

Inductive Admit :=
| Apply
| Duplicate
| Stale.

Record PendingControl := mkPendingControl {
  pc_expected : gset string;
  pc_responses : gmap string (result string unit);
  pc_action : string;
  pc_scenario : string;
}.

Record AgentEntry := mkAgentEntry {
  a_name : string;
  a_labels : gmap string string;
  a_cores : Z;
  a_peer_addr : option string;
  a_version : option string;
  a_revision : option string;
  a_incarnation : string;
  a_connected_at : Z;
  a_last_heartbeat : Z;
  a_active_vus : Z;
  a_connected : bool;
  a_session : Z;
  a_last_seq : Z;
  a_active_run : option string;
  a_sender : AgentSender;
}.

Definition set_a_last_heartbeat (v : Z) (e : AgentEntry) : AgentEntry :=
  mkAgentEntry (a_name e) (a_labels e) (a_cores e) (a_peer_addr e) (a_version e) (a_revision e)
    (a_incarnation e) (a_connected_at e) v (a_active_vus e) (a_connected e) (a_session e) (a_last_seq e)
    (a_active_run e) (a_sender e).
Definition set_a_active_vus (v : Z) (e : AgentEntry) : AgentEntry :=
  mkAgentEntry (a_name e) (a_labels e) (a_cores e) (a_peer_addr e) (a_version e) (a_revision e)
    (a_incarnation e) (a_connected_at e) (a_last_heartbeat e) v (a_connected e) (a_session e) (a_last_seq e)
    (a_active_run e) (a_sender e).
Definition set_a_connected (v : bool) (e : AgentEntry) : AgentEntry :=
  mkAgentEntry (a_name e) (a_labels e) (a_cores e) (a_peer_addr e) (a_version e) (a_revision e)
    (a_incarnation e) (a_connected_at e) (a_last_heartbeat e) (a_active_vus e) v (a_session e) (a_last_seq
    e) (a_active_run e) (a_sender e).
Definition set_a_last_seq (v : Z) (e : AgentEntry) : AgentEntry :=
  mkAgentEntry (a_name e) (a_labels e) (a_cores e) (a_peer_addr e) (a_version e) (a_revision e)
    (a_incarnation e) (a_connected_at e) (a_last_heartbeat e) (a_active_vus e) (a_connected e) (a_session e)
    v (a_active_run e) (a_sender e).
Definition set_a_active_run (v : option string) (e : AgentEntry) : AgentEntry :=
  mkAgentEntry (a_name e) (a_labels e) (a_cores e) (a_peer_addr e) (a_version e) (a_revision e)
    (a_incarnation e) (a_connected_at e) (a_last_heartbeat e) (a_active_vus e) (a_connected e) (a_session e)
    (a_last_seq e) v (a_sender e).

Section Controller.
Context `{Hdr}.

Record FleetMetric := mkFleetMetric {
  fm_metric : string;
  fm_kind : MetricKind;
  fm_agg : AggValues;
}.

Record RunMetricsView := mkRunMetricsView {
  mv_run_id : string;
  mv_name : option string;
  mv_state : string;
  mv_started_ms : Z;
  mv_detailed : Snapshot;
  mv_fleet : list FleetMetric;
}.

(** The fields of [ControllerRun] that never change after submission. *)
Record RunSpec := mkRunSpec {
  run_id : string;
  name : option string;
  plan_yaml : string;
  scenarios : list string;
  externally_controlled : list string;
  thresholds : list CompiledThreshold;
  on_agent_loss : OnAgentLoss;
  assigned : list string;
  files : list DataFile;
  env : string;
  submitted_ms : Z;
}.

(** The fields behind a mutex, beside [r_spec]; [r_snapshot] is the value of the
    [watch] channel. *)
Record ControllerRun := mkControllerRun {
  r_spec : RunSpec;
  r_state : RunState;
  r_prep : PrepState;
  r_start_unix_ms : option Z;
  r_started_ms : option Z;
  r_finished_ms : option Z;
  r_agg : Aggregator;
  r_done : gmap string string;
  r_lost : gset string;
  r_lost_ever : gset string;
  r_contributing : gset string;
  r_paused : option bool;
  r_pending_controls : gmap Z PendingControl;
  r_summaries : list Summary;
  r_merged_summary : option Summary;
  r_threshold_statuses : list ThresholdStatus;
  r_abort_reason : option string;
  r_snapshot : Snapshot;
  r_timeline : list TimelinePoint;
  r_prom_view : option RunMetricsView;
}.

Definition set_r_state (v : RunState) (r : ControllerRun) : ControllerRun :=
  mkControllerRun (r_spec r) v (r_prep r) (r_start_unix_ms r) (r_started_ms r) (r_finished_ms r) (r_agg r)
    (r_done r) (r_lost r) (r_lost_ever r) (r_contributing r) (r_paused r) (r_pending_controls r)
    (r_summaries r) (r_merged_summary r) (r_threshold_statuses r) (r_abort_reason r) (r_snapshot r)
    (r_timeline r) (r_prom_view r).
Definition set_r_prep (v : PrepState) (r : ControllerRun) : ControllerRun :=
  mkControllerRun (r_spec r) (r_state r) v (r_start_unix_ms r) (r_started_ms r) (r_finished_ms r) (r_agg r)
    (r_done r) (r_lost r) (r_lost_ever r) (r_contributing r) (r_paused r) (r_pending_controls r)
    (r_summaries r) (r_merged_summary r) (r_threshold_statuses r) (r_abort_reason r) (r_snapshot r)
    (r_timeline r) (r_prom_view r).
Definition set_r_start_unix_ms (v : option Z) (r : ControllerRun) : ControllerRun :=
  mkControllerRun (r_spec r) (r_state r) (r_prep r) v (r_started_ms r) (r_finished_ms r) (r_agg r) (r_done
    r) (r_lost r) (r_lost_ever r) (r_contributing r) (r_paused r) (r_pending_controls r) (r_summaries r)
    (r_merged_summary r) (r_threshold_statuses r) (r_abort_reason r) (r_snapshot r) (r_timeline r)
    (r_prom_view r).
Definition set_r_started_ms (v : option Z) (r : ControllerRun) : ControllerRun :=
  mkControllerRun (r_spec r) (r_state r) (r_prep r) (r_start_unix_ms r) v (r_finished_ms r) (r_agg r)
    (r_done r) (r_lost r) (r_lost_ever r) (r_contributing r) (r_paused r) (r_pending_controls r)
    (r_summaries r) (r_merged_summary r) (r_threshold_statuses r) (r_abort_reason r) (r_snapshot r)
    (r_timeline r) (r_prom_view r).
Definition set_r_finished_ms (v : option Z) (r : ControllerRun) : ControllerRun :=
  mkControllerRun (r_spec r) (r_state r) (r_prep r) (r_start_unix_ms r) (r_started_ms r) v (r_agg r) (r_done
    r) (r_lost r) (r_lost_ever r) (r_contributing r) (r_paused r) (r_pending_controls r) (r_summaries r)
    (r_merged_summary r) (r_threshold_statuses r) (r_abort_reason r) (r_snapshot r) (r_timeline r)
    (r_prom_view r).
Definition set_r_agg (v : Aggregator) (r : ControllerRun) : ControllerRun :=
  mkControllerRun (r_spec r) (r_state r) (r_prep r) (r_start_unix_ms r) (r_started_ms r) (r_finished_ms r) v
    (r_done r) (r_lost r) (r_lost_ever r) (r_contributing r) (r_paused r) (r_pending_controls r)
    (r_summaries r) (r_merged_summary r) (r_threshold_statuses r) (r_abort_reason r) (r_snapshot r)
    (r_timeline r) (r_prom_view r).
Definition set_r_done (v : gmap string string) (r : ControllerRun) : ControllerRun :=
  mkControllerRun (r_spec r) (r_state r) (r_prep r) (r_start_unix_ms r) (r_started_ms r) (r_finished_ms r)
    (r_agg r) v (r_lost r) (r_lost_ever r) (r_contributing r) (r_paused r) (r_pending_controls r)
    (r_summaries r) (r_merged_summary r) (r_threshold_statuses r) (r_abort_reason r) (r_snapshot r)
    (r_timeline r) (r_prom_view r).
Definition set_r_lost (v : gset string) (r : ControllerRun) : ControllerRun :=
  mkControllerRun (r_spec r) (r_state r) (r_prep r) (r_start_unix_ms r) (r_started_ms r) (r_finished_ms r)
    (r_agg r) (r_done r) v (r_lost_ever r) (r_contributing r) (r_paused r) (r_pending_controls r)
    (r_summaries r) (r_merged_summary r) (r_threshold_statuses r) (r_abort_reason r) (r_snapshot r)
    (r_timeline r) (r_prom_view r).
Definition set_r_lost_ever (v : gset string) (r : ControllerRun) : ControllerRun :=
  mkControllerRun (r_spec r) (r_state r) (r_prep r) (r_start_unix_ms r) (r_started_ms r) (r_finished_ms r)
    (r_agg r) (r_done r) (r_lost r) v (r_contributing r) (r_paused r) (r_pending_controls r) (r_summaries r)
    (r_merged_summary r) (r_threshold_statuses r) (r_abort_reason r) (r_snapshot r) (r_timeline r)
    (r_prom_view r).
Definition set_r_contributing (v : gset string) (r : ControllerRun) : ControllerRun :=
  mkControllerRun (r_spec r) (r_state r) (r_prep r) (r_start_unix_ms r) (r_started_ms r) (r_finished_ms r)
    (r_agg r) (r_done r) (r_lost r) (r_lost_ever r) v (r_paused r) (r_pending_controls r) (r_summaries r)
    (r_merged_summary r) (r_threshold_statuses r) (r_abort_reason r) (r_snapshot r) (r_timeline r)
    (r_prom_view r).
Definition set_r_paused (v : option bool) (r : ControllerRun) : ControllerRun :=
  mkControllerRun (r_spec r) (r_state r) (r_prep r) (r_start_unix_ms r) (r_started_ms r) (r_finished_ms r)
    (r_agg r) (r_done r) (r_lost r) (r_lost_ever r) (r_contributing r) v (r_pending_controls r) (r_summaries
    r) (r_merged_summary r) (r_threshold_statuses r) (r_abort_reason r) (r_snapshot r) (r_timeline r)
    (r_prom_view r).
Definition set_r_pending_controls (v : gmap Z PendingControl) (r : ControllerRun) : ControllerRun :=
  mkControllerRun (r_spec r) (r_state r) (r_prep r) (r_start_unix_ms r) (r_started_ms r) (r_finished_ms r)
    (r_agg r) (r_done r) (r_lost r) (r_lost_ever r) (r_contributing r) (r_paused r) v (r_summaries r)
    (r_merged_summary r) (r_threshold_statuses r) (r_abort_reason r) (r_snapshot r) (r_timeline r)
    (r_prom_view r).
Definition set_r_summaries (v : list Summary) (r : ControllerRun) : ControllerRun :=
  mkControllerRun (r_spec r) (r_state r) (r_prep r) (r_start_unix_ms r) (r_started_ms r) (r_finished_ms r)
    (r_agg r) (r_done r) (r_lost r) (r_lost_ever r) (r_contributing r) (r_paused r) (r_pending_controls r) v
    (r_merged_summary r) (r_threshold_statuses r) (r_abort_reason r) (r_snapshot r) (r_timeline r)
    (r_prom_view r).
Definition set_r_merged_summary (v : option Summary) (r : ControllerRun) : ControllerRun :=
  mkControllerRun (r_spec r) (r_state r) (r_prep r) (r_start_unix_ms r) (r_started_ms r) (r_finished_ms r)
    (r_agg r) (r_done r) (r_lost r) (r_lost_ever r) (r_contributing r) (r_paused r) (r_pending_controls r)
    (r_summaries r) v (r_threshold_statuses r) (r_abort_reason r) (r_snapshot r) (r_timeline r) (r_prom_view
    r).
Definition set_r_threshold_statuses (v : list ThresholdStatus) (r : ControllerRun) : ControllerRun :=
  mkControllerRun (r_spec r) (r_state r) (r_prep r) (r_start_unix_ms r) (r_started_ms r) (r_finished_ms r)
    (r_agg r) (r_done r) (r_lost r) (r_lost_ever r) (r_contributing r) (r_paused r) (r_pending_controls r)
    (r_summaries r) (r_merged_summary r) v (r_abort_reason r) (r_snapshot r) (r_timeline r) (r_prom_view r).
Definition set_r_abort_reason (v : option string) (r : ControllerRun) : ControllerRun :=
  mkControllerRun (r_spec r) (r_state r) (r_prep r) (r_start_unix_ms r) (r_started_ms r) (r_finished_ms r)
    (r_agg r) (r_done r) (r_lost r) (r_lost_ever r) (r_contributing r) (r_paused r) (r_pending_controls r)
    (r_summaries r) (r_merged_summary r) (r_threshold_statuses r) v (r_snapshot r) (r_timeline r)
    (r_prom_view r).
Definition set_r_snapshot (v : Snapshot) (r : ControllerRun) : ControllerRun :=
  mkControllerRun (r_spec r) (r_state r) (r_prep r) (r_start_unix_ms r) (r_started_ms r) (r_finished_ms r)
    (r_agg r) (r_done r) (r_lost r) (r_lost_ever r) (r_contributing r) (r_paused r) (r_pending_controls r)
    (r_summaries r) (r_merged_summary r) (r_threshold_statuses r) (r_abort_reason r) v (r_timeline r)
    (r_prom_view r).
Definition set_r_timeline (v : list TimelinePoint) (r : ControllerRun) : ControllerRun :=
  mkControllerRun (r_spec r) (r_state r) (r_prep r) (r_start_unix_ms r) (r_started_ms r) (r_finished_ms r)
    (r_agg r) (r_done r) (r_lost r) (r_lost_ever r) (r_contributing r) (r_paused r) (r_pending_controls r)
    (r_summaries r) (r_merged_summary r) (r_threshold_statuses r) (r_abort_reason r) (r_snapshot r) v
    (r_prom_view r).
Definition set_r_prom_view (v : option RunMetricsView) (r : ControllerRun) : ControllerRun :=
  mkControllerRun (r_spec r) (r_state r) (r_prep r) (r_start_unix_ms r) (r_started_ms r) (r_finished_ms r)
    (r_agg r) (r_done r) (r_lost r) (r_lost_ever r) (r_contributing r) (r_paused r) (r_pending_controls r)
    (r_summaries r) (r_merged_summary r) (r_threshold_statuses r) (r_abort_reason r) (r_snapshot r)
    (r_timeline r) v.

Record Inner := mkInner {
  controller_id : string;
  liveness : Duration;
  agents : gmap string AgentEntry;
  runs : gmap string ControllerRun;
  session_counter : Z;
  control_counter : Z;
  outbox : list (AgentSender * result Status CtrlMsg);
}.

Definition set_agents (v : gmap string AgentEntry) (i : Inner) : Inner :=
  mkInner (controller_id i) (liveness i) v (runs i) (session_counter i) (control_counter i) (outbox i).
Definition set_runs (v : gmap string ControllerRun) (i : Inner) : Inner :=
  mkInner (controller_id i) (liveness i) (agents i) v (session_counter i) (control_counter i) (outbox i).
Definition set_session_counter (v : Z) (i : Inner) : Inner :=
  mkInner (controller_id i) (liveness i) (agents i) (runs i) v (control_counter i) (outbox i).
Definition set_control_counter (v : Z) (i : Inner) : Inner :=
  mkInner (controller_id i) (liveness i) (agents i) (runs i) (session_counter i) v (outbox i).
Definition set_outbox (v : list (AgentSender * result Status CtrlMsg)) (i : Inner) : Inner :=
  mkInner (controller_id i) (liveness i) (agents i) (runs i) (session_counter i) (control_counter i) v.

Section Handlers.
(** [serde_json::from_slice] at the two types the uplink carries. *)
Context (delta_of_json : string -> result string MetricsDelta).
Context (summary_of_json : string -> result string Summary).

Definition non_empty (value : string) : option string :=
  if str_is_empty value then None else Some value.

(** [sender.try_send(m)]. *)
Definition send (sender : AgentSender) (m : result Status CtrlMsg) (i : Inner) : Inner :=
  set_outbox (outbox i ++ [(sender, m)]) i.

Definition send_all (targets : list (string * AgentSender)) (m : CtrlMsg) (i : Inner) : Inner :=
  set_outbox (outbox i ++ ((fun t => (t.2, Ok m)) <$> targets)) i.

(** Writes through the [Arc<ControllerRun>] of a run, and through the agents' table. *)
Definition upd_run (id : string) (f : ControllerRun -> ControllerRun) (i : Inner) : Inner :=
  set_runs (alter f id (runs i)) i.
Definition upd_agent (id : string) (f : AgentEntry -> AgentEntry) (i : Inner) : Inner :=
  set_agents (alter f id (agents i)) i.

Definition agent_sender (i : Inner) (agent_id : string) : option AgentSender :=
  a_sender <$> agents i !! agent_id.

(** [if reason.is_none() { reason = Some(..) }]. *)
Definition set_abort_reason_once (reason : string) (r : ControllerRun) : ControllerRun :=
  set_r_abort_reason (Some (default reason (r_abort_reason r))) r.

Definition send_assignment (id agent_id : string) (i : Inner) : Inner :=
  match runs i !! id with
  | None => i
  | Some run =>
      let spec := r_spec run in
      match position agent_id (assigned spec), agent_sender i agent_id with
      | Some index, Some sender =>
          send sender (Ok (CAssignment
            (mkAssignment (run_id spec) (plan_yaml spec) (Z.of_nat index)
               (Z.of_nat (length (assigned spec))) (files spec) (env spec)))) i
      | _, _ => i
      end
  end.

Definition kill_agent_run (agent_id id : string) (i : Inner) : Inner :=
  match agent_sender i agent_id with
  | Some sender => send sender (Ok (control_message id "kill" "" 0 0)) i
  | None => i
  end.

(** The failure is recorded only while the run is [Pending]; the boolean says so. *)
Definition record_prep_failure (id reason : string) (verdict : RunState) (i : Inner) : Inner * bool :=
  match runs i !! id with
  | None => (i, false)
  | Some run =>
      if bool_decide (r_state run = Pending) then
        (upd_run id (fun r => set_r_prep (mkPrepState (phases (r_prep r))
                                (Some (default (reason, verdict) (failure (r_prep r))))) r) i, true)
      else (i, false)
  end.

Definition release_reservations (run : ControllerRun) (i : Inner) : Inner :=
  set_agents
    (foldl (fun ags id =>
              alter (fun e => if bool_decide (a_active_run e = Some (run_id (r_spec run)))
                              then set_a_active_run None e else e) id ags)
           (agents i) (assigned (r_spec run))) i.

(** The interval is worth a timeline point. *)
Definition interval_has_data (sn : Snapshot) : bool :=
  f64_gt (sn_interval_secs sn) f64_zero
  && existsb (fun s => Z.ltb 0 (ss_interval_count s) || bool_decide (ss_metric s = "vus")) (sn_series sn).

Definition push_timeline (sn aggregates : Snapshot) (timeline : list TimelinePoint) : list TimelinePoint :=
  if interval_has_data sn then timeline ++ [from_snapshots sn (Some aggregates)] else timeline.

(** What [finalize_run] does to the run under its state lock. *)
Definition finalize (c : Clock) (final_state : RunState) (run : ControllerRun) : ControllerRun :=
  let spec := r_spec run in
  let finished_ms := unix_ms c in
  let agg := r_agg run in
  let '(statuses, _) := evaluate_all (thresholds spec) agg (elapsed agg (instant c)) (instant c) in
  let aggregates := aggregate_snapshot agg [["scenario"]] (instant c) (unix_ms c) in
  let '(sn, agg) := snapshot agg (instant c) (unix_ms c) in
  let timeline := push_timeline sn aggregates (r_timeline run) in
  let started_ms := default (submitted_ms spec) (r_started_ms run) in
  let '(s, agg) := build (name spec) (run_id spec) started_ms (scenarios spec) agg statuses
                     (r_abort_reason run) timeline (instant c) (unix_ms c) in
  let s := mkSummary (sum_name s) (sum_run_id s) (sum_started_ms s) finished_ms
             (f64_div (f64_of_Z (u64_saturating_sub finished_ms started_ms)) (f64_of_Z 1000))
             (sum_scenarios s) (sum_metrics s) (sum_checks s) (sum_thresholds s)
             (sum_thresholds_passed s) (sum_aborted s) sn (sum_timeline s) in
  set_r_snapshot sn (set_r_state final_state (set_r_merged_summary (Some s) (set_r_agg agg
    (set_r_timeline timeline (set_r_threshold_statuses statuses (set_r_finished_ms (Some finished_ms) run)))))).

Definition finalize_run (c : Clock) (id : string) (final_state : RunState) (i : Inner) : Inner :=
  match runs i !! id with
  | None => i
  | Some run =>
      if is_terminal (r_state run) then i
      else release_reservations run (upd_run id (finalize c final_state) i)
  end.

(** The verdict once everybody is accounted for. *)
Definition all_accounted (run : ControllerRun) : bool :=
  forallb (fun a => bool_decide (is_Some (r_done run !! a)) || bool_decide (a ∈ r_lost run))
          (assigned (r_spec run)).
Definition done_values (run : ControllerRun) : list string := snd <$> map_to_list (r_done run).
Definition completion_state (run : ControllerRun) : RunState :=
  let any_failed := bool_decide ("failed" ∈ done_values run) || bool_decide (r_done run = ∅) in
  let any_aborted := bool_decide ("aborted" ∈ done_values run) in
  if any_failed then Failed else if any_aborted then Aborted else Finished.

Definition check_completion (c : Clock) (id : string) (i : Inner) : Inner :=
  match runs i !! id with
  | None => i
  | Some run =>
      if is_terminal (r_state run) then i
      else if all_accounted run then finalize_run c id (completion_state run) i
      else i
  end.

Definition run_senders (i : Inner) (run : ControllerRun) : list (string * AgentSender) :=
  omap (fun id =>
          if bool_decide (is_Some (r_done run !! id)) || bool_decide (id ∈ r_lost run) then None
          else match agents i !! id with
               | Some e => if a_connected e then Some (id, a_sender e) else None
               | None => None
               end) (assigned (r_spec run)).

Definition zero_agent_live_gauges (agent_id : string) (run : ControllerRun) : ControllerRun :=
  set_r_agg (foldl (fun agg metric => set_gauge_by_tag agg metric "loadr_agent_id" agent_id f64_zero)
                   (r_agg run) LIVE_GAUGES) run.

Definition terminate_participation (c : Clock) (agent_id id : string) (i : Inner) : Inner :=
  match runs i !! id with
  | None => i
  | Some run =>
      let '(i, recorded) :=
        record_prep_failure id ("agent " +:+ agent_id +:+ " restarted during preparation") Failed i in
      if recorded then i
      else if is_terminal (r_state run) || bool_decide (is_Some (r_done run !! agent_id)) then i
      else
        let i := upd_run id (fun r => set_r_lost ({[ agent_id ]} ∪ r_lost r) r) i in
        match on_agent_loss (r_spec run) with
        | LossContinue => check_completion c id i
        | LossAbort =>
            let i := upd_run id (set_abort_reason_once ("agent restarted: " +:+ agent_id)) i in
            match runs i !! id with
            | None => i
            | Some run =>
                let i := send_all (run_senders i run)
                           (control_message (run_id (r_spec run)) "stop" "" 0 0) i in
                finalize_run c id Failed i
            end
        end
  end.

Definition replay_assignment_if_pending (agent_id id : string) (i : Inner) : Inner :=
  match runs i !! id with
  | None => i
  | Some run =>
      if is_terminal (r_state run) then i
      else if negb (bool_decide (phases (r_prep run) !! agent_id = Some Assigned)) then i
      else if bool_decide (is_Some (r_done run !! agent_id)) || bool_decide (agent_id ∈ r_lost run) then i
      else send_assignment id agent_id i
  end.

Definition resume_run (agent_id id : string) (i : Inner) : Inner :=
  match runs i !! id with
  | None => kill_agent_run agent_id id i
  | Some run =>
      if negb (bool_decide (agent_id ∈ assigned (r_spec run))) then i
      else if is_terminal (r_state run) || bool_decide (is_Some (r_done run !! agent_id)) then
        kill_agent_run agent_id id i
      else
        let i := upd_run id (fun r => set_r_lost (r_lost r ∖ {[ agent_id ]}) r) i in
        match phases (r_prep run) !! agent_id with
        | Some Assigned => send_assignment id agent_id i
        | Some ReadyPhase =>
            match r_start_unix_ms run, agent_sender i agent_id with
            | Some start_unix_ms, Some sender =>
                send sender (Ok (CStart (run_id (r_spec run)) start_unix_ms)) i
            | _, _ => i
            end
        | None => i
        end
  end.

Inductive Followup :=
| FNone
| TerminateParticipation (run_id : string)
| MaybeReplayAssignment (run_id : string).

(** The critical section of [register_agent]: the new entry and what it decides. *)
Definition register_entry (c : Clock) (reg : Register) (peer_addr : option string)
    (sender : AgentSender) (session : Z) (prev : option AgentEntry) : AgentEntry * bool * Followup :=
  let same p := bool_decide (a_incarnation p = reg_incarnation reg) in
  let last_seq := match prev with Some p => if same p then a_last_seq p else 0 | None => 0 end in
  let restarted := match prev with Some p => negb (same p) | None => false end in
  let prev_active := prev ≫= a_active_run in
  let '(active_run, followup) :=
    match prev_active with
    | Some id =>
        if restarted then (None, TerminateParticipation id)
        else if str_is_empty (reg_resume_run_id reg) then (Some id, MaybeReplayAssignment id)
        else (Some id, FNone)
    | None => (None, FNone)
    end in
  (mkAgentEntry (reg_agent_name reg) (reg_labels reg) (reg_cpu_cores reg) peer_addr
     (non_empty (reg_loadr_version reg)) (non_empty (reg_build_revision reg)) (reg_incarnation reg)
     (instant c) (instant c) 0 true session last_seq active_run sender,
   restarted, followup).

Definition register_agent (c : Clock) (reg : Register) (peer_addr : option string)
    (sender : AgentSender) (session : Z) (i : Inner) : Inner :=
  let id := reg_agent_id reg in
  let superseded := agents i !! id in
  let '(entry, restarted, followup) := register_entry c reg peer_addr sender session superseded in
  let i := set_agents (<[id := entry]> (agents i)) i in
  let i := match superseded with
           | Some previous =>
               send (a_sender previous) (Err (Aborted_ "session superseded by a newer registration")) i
           | None => i
           end in
  let i := match followup with
           | TerminateParticipation r => terminate_participation c id r i
           | MaybeReplayAssignment r => replay_assignment_if_pending id r i
           | FNone => i
           end in
  if str_is_empty (reg_resume_run_id reg) then i
  else if restarted then i
  else resume_run id (reg_resume_run_id reg) i.

Definition mark_disconnected (agent_id : string) (session : Z) (i : Inner) : Inner :=
  upd_agent agent_id (fun e => if Z.eqb (a_session e) session then set_a_connected false e else e) i.

Definition send_uplink_ack (e : AgentEntry) (seq : Z) (i : Inner) : Inner :=
  send (a_sender e) (Ok (CUplinkAck seq)) i.

Definition admit_message (c : Clock) (agent_id : string) (session seq : Z) (i : Inner) : Inner * Admit :=
  match agents i !! agent_id with
  | None => (i, Stale)
  | Some entry =>
      if negb (Z.eqb (a_session entry) session) then (i, Stale)
      else
        let i := upd_agent agent_id (set_a_last_heartbeat (instant c)) i in
        let cursor := a_last_seq entry in
        if Z.eqb seq 0 then
          (if Z.ltb 0 cursor then send_uplink_ack entry cursor i else i, Apply)
        else if Z.leb seq cursor then (send_uplink_ack entry cursor i, Duplicate)
        else
          let i := upd_agent agent_id (set_a_last_seq seq) i in
          (send_uplink_ack entry seq i, Apply)
  end.

Definition add_agent_identity (agent_name agent_id : string) (delta : MetricsDelta) : MetricsDelta :=
  (fun s => mkSeriesDelta (d_metric s) (d_kind s)
              (<["loadr_agent_id" := agent_id]> (<["loadr_agent" := agent_name]> (d_tags s)))
              (d_data s)) <$> delta.

(** What a delta does to a live run, under its state lock. *)
Definition merge_agent_delta (agent_id : string) (delta : MetricsDelta) (run : ControllerRun) : ControllerRun :=
  let run := set_r_contributing ({[ agent_id ]} ∪ r_contributing run) run in
  let run := set_r_agg (merge_delta (r_agg run) delta) run in
  let lost := bool_decide (agent_id ∈ r_lost run) in
  let done := bool_decide (is_Some (r_done run !! agent_id)) in
  if lost || done then zero_agent_live_gauges agent_id run else run.

Definition apply_metrics (agent_id : string) (batch : MetricsBatch) (i : Inner) : Inner :=
  match runs i !! mb_run_id batch with
  | None => i
  | Some run =>
      match delta_of_json (mb_delta_json batch) with
      | Err _ => i
      | Ok delta =>
          let agent_name := from_option a_name agent_id (agents i !! agent_id) in
          let delta := add_agent_identity agent_name agent_id delta in
          if is_terminal (r_state run) then i
          else
            upd_run (mb_run_id batch) (merge_agent_delta agent_id delta) i
      end
  end.

Definition apply_control_ack (agent_id : string) (ack : ControlAck) (i : Inner) : Inner :=
  match runs i !! ca_run_id ack with
  | None => i
  | Some run =>
      match r_pending_controls run !! ca_command_id ack with
      | None => i
      | Some command =>
          if bool_decide (agent_id ∈ pc_expected command)
             && bool_decide (ca_action ack = pc_action command)
             && bool_decide (ca_scenario ack = pc_scenario command)
          then
            let res := if ca_applied ack then Ok tt
                       else Err (if str_is_empty (ca_detail ack) then "agent rejected command"
                                 else ca_detail ack) in
            upd_run (ca_run_id ack) (fun r =>
              set_r_pending_controls
                (<[ca_command_id ack := mkPendingControl (pc_expected command)
                     (<[agent_id := res]> (pc_responses command)) (pc_action command)
                     (pc_scenario command)]> (r_pending_controls r)) r) i
          else i
      end
  end.

Definition handle_assignment_ready (agent_id : string) (ar : AssignmentReady) (i : Inner) : Inner :=
  match runs i !! ar_run_id ar with
  | None => kill_agent_run agent_id (ar_run_id ar) i
  | Some run =>
      if negb (bool_decide (position agent_id (assigned (r_spec run))
                            = Some (Z.to_nat (ar_partition_index ar)))) then i
      else if is_terminal (r_state run) then kill_agent_run agent_id (ar_run_id ar) i
      else upd_run (ar_run_id ar) (fun r =>
             set_r_prep (mkPrepState (<[agent_id := ReadyPhase]> (phases (r_prep r)))
                           (failure (r_prep r))) r) i
  end.

Definition is_terminal_kind (kind : string) : bool :=
  bool_decide (kind = "finished") || bool_decide (kind = "aborted") || bool_decide (kind = "failed").

(** The updates of a terminal event to its run, before the completion check. *)
Definition note_terminal_event (agent_id : string) (ev : RunEvent) (run : ControllerRun) : ControllerRun :=
  let run := if str_is_empty (ev_summary_json ev) then run
             else match summary_of_json (ev_summary_json ev) with
                  | Ok s => set_r_summaries (r_summaries run ++ [s]) run
                  | Err _ => run
                  end in
  let run := if (bool_decide (ev_kind ev = "aborted") || bool_decide (ev_kind ev = "failed"))
                && negb (str_is_empty (ev_detail ev))
             then set_abort_reason_once (ev_detail ev) run else run in
  let run := zero_agent_live_gauges agent_id run in
  set_r_done (<[agent_id := ev_kind ev]> (r_done run)) run.

Definition handle_run_event (c : Clock) (agent_id : string) (ev : RunEvent) (i : Inner) : Inner :=
  match runs i !! ev_run_id ev with
  | None => i
  | Some run =>
      if bool_decide (ev_kind ev = "started") then
        upd_run (ev_run_id ev)
          (fun r => if bool_decide (r_state r = Pending) then set_r_state Running r else r) i
      else if bool_decide (ev_kind ev = "prep_failed") then
        (record_prep_failure (ev_run_id ev)
           ("preparation failed on agent " +:+ agent_id +:+ ": " +:+ ev_detail ev) Failed i).1
      else if is_terminal_kind (ev_kind ev) then
        check_completion c (ev_run_id ev) (upd_run (ev_run_id ev) (note_terminal_event agent_id ev) i)
      else i
  end.

Definition apply_agent_message (c : Clock) (agent_id : string) (m : option AgentMsg) (i : Inner) : Inner :=
  match m with
  | Some (MHeartbeat hb) => upd_agent agent_id (set_a_active_vus (hb_active_vus hb)) i
  | Some (MMetrics batch) => apply_metrics agent_id batch i
  | Some (MEvent ev) => handle_run_event c agent_id ev i
  | Some (MControlAck ack) => apply_control_ack agent_id ack i
  | Some (MAssignmentReady ar) => handle_assignment_ready agent_id ar i
  | Some (MRegister _) | None => i
  end.

(** [false] tells the caller to stop pumping a superseded stream. *)
Definition handle_agent_message (c : Clock) (agent_id : string) (session : Z) (m : UplinkMessage)
    (i : Inner) : Inner * bool :=
  match admit_message c agent_id session (seq m) i with
  | (i, Apply) => (apply_agent_message c agent_id (msg m) i, true)
  | (i, Duplicate) => (i, true)
  | (i, Stale) => (i, false)
  end.

(** The handshake of [session]: the first message must register, at this protocol
    version, under an id.  On success the session number and the agent id the pump
    serves. *)
Definition session (c : Clock) (peer_addr : option string) (first : option UplinkMessage) (i : Inner) :
    Inner * result Status (string * Z) :=
  match first with
  | None => (i, Err (InvalidArgument "stream closed before Register"))
  | Some first =>
      match msg first with
      | Some (MRegister reg) =>
          if negb (Z.eqb (reg_protocol_version reg) PROTOCOL_VERSION) then
            (i, Err (FailedPrecondition
              ("protocol version mismatch: controller speaks " +:+ Z_to_string PROTOCOL_VERSION
               +:+ ", agent speaks " +:+ Z_to_string (reg_protocol_version reg))))
          else if str_is_empty (reg_agent_id reg) then
            (i, Err (InvalidArgument "agent_id is required"))
          else
            let s := u64_add (session_counter i) 1 in
            let i := send s (Ok (CRegistered (controller_id i) PROTOCOL_VERSION
                                   ("welcome " +:+ reg_agent_name reg))) i in
            let i := set_session_counter s i in
            (register_agent c reg peer_addr s s i, Ok (reg_agent_id reg, s))
      | _ => (i, Err (InvalidArgument "first message must be Register"))
      end
  end.

(** ** The liveness sweep *)

(** Silent for longer than [liveness]. *)
Definition silent (c : Clock) (i : Inner) (e : AgentEntry) : bool :=
  Z.ltb (liveness i) (u64_saturating_sub (instant c) (a_last_heartbeat e)).

Definition lost_ids (c : Clock) (i : Inner) : list string :=
  fst <$> filter (fun kv => silent c i kv.2 = true) (map_to_list (agents i)).

Definition newly_lost (lost : list string) (run : ControllerRun) : list string :=
  filter (fun id => id ∈ assigned (r_spec run) /\ id ∉ r_lost run /\ r_done run !! id = None) lost.

Definition mark_lost (run : ControllerRun) (id : string) : ControllerRun :=
  zero_agent_live_gauges id
    (set_r_lost_ever ({[ id ]} ∪ r_lost_ever run) (set_r_lost ({[ id ]} ∪ r_lost run) run)).

(** One run of the sweep up to its [await]; the boolean says that the run is to be
    finalized as [Failed] once the stops are sent. *)
Definition sweep_run (c : Clock) (lost : list string) (id : string) (i : Inner) : Inner * bool :=
  match runs i !! id with
  | None => (i, false)
  | Some run =>
      if is_terminal (r_state run) then (i, false)
      else
        match newly_lost lost run with
        | [] => (i, false)
        | newly =>
            let i := upd_run id (fun r => foldl mark_lost r newly) i in
            let '(i, recorded) :=
              record_prep_failure id ("agent(s) lost during preparation: " +:+ join ", " newly) Failed i in
            if recorded then (i, false)
            else
              match on_agent_loss (r_spec run) with
              | LossContinue => (check_completion c id i, false)
              | LossAbort =>
                  let i := upd_run id (set_abort_reason_once ("agent(s) lost: " +:+ join ", " newly)) i in
                  match runs i !! id with
                  | None => (i, false)
                  | Some run =>
                      (send_all (run_senders i run)
                         (control_message (run_id (r_spec run)) "stop" "" 0 0) i, true)
                  end
              end
        end
  end.

(** The whole sweep when nothing else runs at its [await]s. *)
Definition sweep (c : Clock) (i : Inner) : Inner :=
  let lost := lost_ids c i in
  if bool_decide (lost = []) then i
  else foldl (fun i id => let '(i, fin) := sweep_run c lost id i in
                          if fin then finalize_run c id Failed i else i)
             i (fst <$> map_to_list (runs i)).

(** ** Publication *)

Definition publish (c : Clock) (run : ControllerRun) : ControllerRun :=
  let agg := r_agg run in
  let '(statuses, _) := evaluate_all (thresholds (r_spec run)) agg (elapsed agg (instant c)) (instant c) in
  let aggregates := aggregate_snapshot agg [["scenario"]] (instant c) (unix_ms c) in
  let '(sn, agg) := snapshot agg (instant c) (unix_ms c) in
  set_r_snapshot sn (set_r_timeline (push_timeline sn aggregates (r_timeline run))
    (set_r_agg agg (set_r_threshold_statuses statuses run))).

Definition publish_live_snapshot (c : Clock) (id : string) (i : Inner) : Inner :=
  match runs i !! id with
  | None => i
  | Some run => if is_terminal (r_state run) then i else upd_run id (publish c) i
  end.

(** ** The preparation barrier *)

Inductive BarrierDecision :=
| Started (start_unix_ms : Z)
| FailRun (reason : string) (verdict : RunState)
| Settled.

Definition all_ready (run : ControllerRun) : bool :=
  forallb (fun p => bool_decide (p = ReadyPhase)) (snd <$> map_to_list (phases (r_prep run))).

(** One turn of the waiting loop, under the state and preparation locks: [None] parks.
    A start is committed here, before anything is sent. *)
Definition barrier_check (c : Clock) (start_barrier_ms : Z) (id : string) (i : Inner) : Inner * option BarrierDecision :=
  match runs i !! id with
  | None => (i, None)
  | Some run =>
      if is_terminal (r_state run) then (i, Some Settled)
      else
        match failure (r_prep run) with
        | Some (reason, verdict) => (i, Some (FailRun reason verdict))
        | None =>
            if all_ready run then
              let start_unix_ms := unix_ms c + start_barrier_ms in
              (upd_run id (fun r =>
                 set_r_state Running (set_r_agg (Aggregator_new (instant c))
                   (set_r_started_ms (Some (unix_ms c)) (set_r_start_unix_ms (Some start_unix_ms) r)))) i,
               Some (Started start_unix_ms))
            else (i, None)
        end
  end.

(** [tokio::time::timeout] elapsed: the decision it makes. *)
Definition barrier_timeout (id : string) (i : Inner) : option BarrierDecision :=
  run ← runs i !! id;
  let waiting := filter (fun a => phases (r_prep run) !! a <> Some ReadyPhase) (assigned (r_spec run)) in
  Some (FailRun ("preparation timed out waiting for: " +:+ join ", " waiting) Failed).

(** Acting on the decision up to the [await] of the last send.  The verdict, when there
    is one, is what the run is finalized with afterwards. *)
Definition barrier_act (id : string) (d : BarrierDecision) (i : Inner) : Inner * option RunState :=
  match runs i !! id with
  | None => (i, None)
  | Some run =>
      match d with
      | Settled => (i, None)
      | Started start_unix_ms =>
          (send_all (run_senders i run) (CStart (run_id (r_spec run)) start_unix_ms) i, None)
      | FailRun reason verdict =>
          let i := upd_run id (set_abort_reason_once reason) i in
          (send_all (run_senders i run) (control_message (run_id (r_spec run)) "stop" "" 0 0) i,
           Some verdict)
      end
  end.

(** ** Submission *)

(** Connected, heard from within the liveness window, and carrying the labels. *)
Definition matches_request (c : Clock) (i : Inner) (filter : option (gmap string string)) (entry : AgentEntry) : bool :=
  let fresh := a_connected entry
               && Z.leb (u64_saturating_sub (instant c) (a_last_heartbeat entry)) (liveness i) in
  fresh
  && match filter with
     | Some f => forallb (fun kv => bool_decide (a_labels entry !! kv.1 = Some kv.2)) (map_to_list f)
     | None => true
     end.

(** Selection and reservation of one agent: [matching] counts, [sel] collects. *)
Definition reserve_one (c : Clock) (i : Inner) (filter : option (gmap string string)) (id : string)
    (acc : gmap string AgentEntry * Z * list (string * AgentSender)) (kv : string * AgentEntry) :
    gmap string AgentEntry * Z * list (string * AgentSender) :=
  let '(ags, matching, sel) := acc in
  let '(agent_id, entry) := kv in
  if negb (matches_request c i filter entry) then acc
  else match a_active_run entry with
       | None => (<[agent_id := set_a_active_run (Some id) entry]> ags, matching + 1,
                  sel ++ [(agent_id, a_sender entry)])
       | Some _ => (ags, matching + 1, sel)
       end.

Definition reserve_agents (c : Clock) (filter : option (gmap string string)) (id : string) (i : Inner) :
    Inner * result AgentError (list (string * AgentSender)) :=
  let '(ags, matching, sel) :=
    foldl (reserve_one c i filter id) (agents i, 0, []) (map_to_list (agents i)) in
  let i := set_agents ags i in
  if bool_decide (sel = []) then (i, Err (if Z.ltb 0 matching then AgentsBusy else NoAgents))
  else (i, Ok sel).

Record SubmitOptions := mkSubmitOptions {
  so_env : option string;
  so_name : option string;
  so_files : list (string * string);
  so_agent_filter : option (gmap string string);
  so_on_agent_loss : OnAgentLoss;
  so_start_barrier_ms : Z;
}.

(** What [submit] uses of a loaded plan: its name, its scenarios in order, each with
    whether its executor is externally controlled, and its thresholds. *)
Record LoadedPlan := mkLoadedPlan {
  lp_name : option string;
  lp_scenarios : list (string * bool);
  lp_thresholds : list (string * ThresholdList);
}.

Definition new_run (c : Clock) (id plan : string) (loaded : LoadedPlan)
    (compiled : list CompiledThreshold) (opts : SubmitOptions) (sel : list (string * AgentSender)) :
    ControllerRun :=
  mkControllerRun
    (mkRunSpec id (match so_name opts with Some n => Some n | None => lp_name loaded end) plan
       (fst <$> lp_scenarios loaded) (fst <$> filter (fun sc => sc.2 = true) (lp_scenarios loaded))
       compiled (so_on_agent_loss opts) (fst <$> sel)
       ((fun f => mkDataFile f.1 f.2) <$> so_files opts) (default "" (so_env opts)) (unix_ms c))
    Pending (mkPrepState (list_to_map ((fun s => (s.1, Assigned)) <$> sel)) None)
    None None None (Aggregator_new (instant c)) ∅ ∅ ∅ ∅ (Some false) ∅ [] None [] None
    (mkSnapshot 0 f64_zero f64_zero []) [] None.

Definition assignments (run : ControllerRun) (sel : list (string * AgentSender)) :
    list (AgentSender * result Status CtrlMsg) :=
  imap (fun index s =>
          (s.2, Ok (CAssignment (mkAssignment (run_id (r_spec run)) (plan_yaml (r_spec run)) (Z.of_nat index)
                                   (Z.of_nat (length sel)) (files (r_spec run)) (env (r_spec run)))))) sel.

(** The first data-file path the check refuses. *)
Fixpoint validate_files (fs : list (string * string)) : result AgentError unit :=
  match fs with
  | [] => Ok tt
  | (path, _) :: fs => let? _ := validate_data_file_path path in validate_files fs
  end.

Section Submit.
Context (humantime_parse_duration : string -> result string Duration).
(** [loadr_config::load_str], with the options [submit] passes. *)
Context (load_str : string -> option string -> result string LoadedPlan).

(** [id] is the fresh UUID.  The barrier task is spawned by the caller's scheduler. *)
Definition submit (c : Clock) (id plan : string) (opts : SubmitOptions) (i : Inner) :
    may_panic (Inner * result AgentError string) :=
  match load_str plan (so_env opts) with
  | Err e => Some (i, Err (Config e))
  | Ok loaded =>
      match validate_files (so_files opts) with
      | Err e => Some (i, Err e)
      | Ok _ =>
          match compile_thresholds humantime_parse_duration (lp_thresholds loaded) with
          | None => None
          | Some (Err e) => Some (i, Err (Config e))
          | Some (Ok compiled) =>
              let '(i, reserved) := reserve_agents c (so_agent_filter opts) id i in
              match reserved with
              | Err e => Some (i, Err e)
              | Ok sel =>
                  let sel := merge_sort (fun a b => str_le a.1 b.1) sel in
                  let run := new_run c id plan loaded compiled opts sel in
                  let i := set_runs (<[id := run]> (runs i)) i in
                  let i := set_outbox (outbox i ++ assignments run sel) i in
                  Some (i, Ok id)
              end
          end
      end
  end.
End Submit.

(** ** Control commands *)

Definition is_stop (action : string) : bool :=
  bool_decide (action = "stop") || bool_decide (action = "kill").
Definition is_pause (action : string) : bool :=
  bool_decide (action = "pause") || bool_decide (action = "resume").

(** The value sent to the target at an index. *)
Definition share_at (vus_total : option Z) (n : nat) (index : nat) : Z :=
  default 0 (vus_total ≫= (fun total => scale_shares total (Z.of_nat n) !! index)).

(** Up to the wait for acknowledgements: an early answer, or the id of the command in
    flight.  [delivered] says which channels took the message. *)
Definition control_begin (id action scenario : string) (vus_total : option Z)
    (delivered : string -> bool) (i : Inner) : Inner * result (result AgentError unit) Z :=
  match runs i !! id with
  | None => (i, Err (Err (UnknownRun id)))
  | Some run =>
      let '(i, recorded) :=
        if is_stop action then record_prep_failure id "run stopped before start" Aborted i
        else (i, false) in
      if recorded then (i, Err (Ok tt))
      else if negb (is_stop action) && bool_decide (r_state run = Pending) then (i, Err (Err (NotStarted id)))
      else
        let targets := run_senders i run in
        if bool_decide (targets = []) then (i, Err (Err NoAgents))
        else if bool_decide (action = "scale")
                && negb (bool_decide (scenario ∈ externally_controlled (r_spec run))) then
          (i, Err (Err (ControlFailed
            ("scenario `" +:+ scenario +:+ "` is not externally controlled (available: "
             +:+ join ", " (externally_controlled (r_spec run)) +:+ ")"))))
        else
          let command_id := u64_add (control_counter i) 1 in
          let i := set_control_counter command_id i in
          let undelivered := filter (fun t => delivered t.1 = false) targets in
          let responses := list_to_map ((fun t => (t.1, Err "could not deliver command")) <$> undelivered) in
          let i := upd_run id (fun r =>
                     set_r_pending_controls
                       (<[command_id := mkPendingControl (list_to_set (fst <$> targets)) responses
                                          action scenario]> (r_pending_controls r)) r) i in
          let i := set_outbox (outbox i ++
                     imap (fun index t => (t.2, Ok (control_message id action scenario
                             (share_at vus_total (length targets) index) command_id))) targets) i in
          (i, Ok command_id)
  end.

(** The acknowledgements are complete. *)
Definition control_complete (run : ControllerRun) (command_id : Z) : bool :=
  match r_pending_controls run !! command_id with
  | None => true
  | Some p => Nat.leb (size (pc_expected p)) (size (pc_responses p))
  end.

Definition set_paused (action : string) (v : option bool) (r : ControllerRun) : ControllerRun :=
  if is_pause action then set_r_paused v r else r.

(** The refusals among the answers. *)
Definition control_failures (responses : gmap string (result string unit)) : list string :=
  omap (fun kv => match kv.2 with Ok _ => None | Err e => Some (kv.1 +:+ ": " +:+ e) end)
       (map_to_list responses).

(** After the wait: the verdict over the responses. *)
Definition control_finish (id action : string) (command_id : Z) (i : Inner) : Inner * result AgentError unit :=
  match runs i !! id with
  | None => (i, Err (UnknownRun id))
  | Some run =>
      let responses := from_option pc_responses ∅ (r_pending_controls run !! command_id) in
      let i := upd_run id (fun r => set_r_pending_controls (delete command_id (r_pending_controls r)) r) i in
      match control_failures responses with
      | [] =>
          if is_pause action then
            (upd_run id (set_r_paused (Some (bool_decide (action = "pause")))) i, Ok tt)
          else if is_stop action then
            (upd_run id (fun r => if is_terminal (r_state r) then r else set_r_state Stopping r) i, Ok tt)
          else (i, Ok tt)
      | failures => (upd_run id (set_paused action None) i, Err (ControlFailed (join "; " failures)))
      end
  end.

(** Three seconds passed first. *)
Definition control_timeout (id action : string) (command_id : Z) (i : Inner) : Inner * result AgentError unit :=
  match runs i !! id with
  | None => (i, Err (UnknownRun id))
  | Some run =>
      let missing := from_option (fun p => filter (fun a => pc_responses p !! a = None)
                                             (elements (pc_expected p))) []
                       (r_pending_controls run !! command_id) in
      let i := upd_run id (fun r => set_r_pending_controls (delete command_id (r_pending_controls r)) r) i in
      let i := upd_run id (set_paused action None) i in
      (i, Err (ControlFailed ("timed out waiting for agent acknowledgement"
                              +:+ (if bool_decide (missing = []) then "" else ": " +:+ join ", " missing))))
  end.

(** ** Queries *)

Record AgentInfo := mkAgentInfo {
  ai_id : string;
  ai_entry : AgentEntry;
  ai_connected_secs : Z;
  ai_last_heartbeat_ms : Z;
  ai_healthy : bool;
}.

Definition agent_infos (c : Clock) (i : Inner) : list AgentInfo :=
  (fun kv =>
     let quiet := u64_saturating_sub (instant c) (a_last_heartbeat kv.2) in
     mkAgentInfo kv.1 kv.2 (u64_saturating_sub (instant c) (a_connected_at kv.2) / NANOS_PER_SEC)
       (quiet / 1000000) (a_connected kv.2 && Z.leb quiet (liveness i)))
    <$> map_to_list (agents i).

Record RunSummaryInfo := mkRunSummaryInfo {
  rs_run_id : string;
  rs_name : option string;
  rs_state : string;
  rs_started_ms : Z;
  rs_ended_ms : option Z;
  rs_agents : list string;
}.

(** Newest first, ties by run id. *)
Definition newest_first (a b : RunSummaryInfo) : Prop :=
  rs_started_ms b < rs_started_ms a
  \/ rs_started_ms a = rs_started_ms b /\ str_le (rs_run_id a) (rs_run_id b).
#[global] Instance newest_first_dec a b : Decision (newest_first a b).
Proof. unfold newest_first. apply _. Defined.

Definition run_infos (i : Inner) : list RunSummaryInfo :=
  merge_sort newest_first
    ((fun kv =>
        let r := kv.2 in
        mkRunSummaryInfo (run_id (r_spec r)) (name (r_spec r)) (RunState_as_str (r_state r))
          (default (submitted_ms (r_spec r)) (r_started_ms r)) (r_finished_ms r) (assigned (r_spec r)))
       <$> map_to_list (runs i)).

(** The view, cached on the run once it is terminal. *)
Definition run_metrics_view (c : Clock) (id : string) (i : Inner) : Inner * option RunMetricsView :=
  match runs i !! id with
  | None => (i, None)
  | Some run =>
      let fresh :=
        let '(detailed, agg) := cumulative_snapshot (r_agg run) (instant c) (unix_ms c) in
        let fleet := (fun m => mkFleetMetric m.1.1 m.1.2 m.2) <$> aggregate_all agg (instant c) in
        let view := mkRunMetricsView (run_id (r_spec run)) (name (r_spec run))
                      (RunState_as_str (r_state run))
                      (default (submitted_ms (r_spec run)) (r_started_ms run)) detailed fleet in
        (upd_run id (fun r => set_r_agg agg
           (if is_terminal (r_state run) then set_r_prom_view (Some view) r else r)) i, Some view) in
      match r_prom_view run with
      | Some view => if is_terminal (r_state run) then (i, Some view) else fresh
      | None => fresh
      end
  end.

Definition run_aggregate_snapshot (c : Clock) (id : string) (i : Inner) : option Snapshot :=
  (fun run => aggregate_snapshot (r_agg run) [["scenario"]; ["loadr_agent"; "loadr_agent_id"]]
                (instant c) (unix_ms c)) <$> runs i !! id.

Record RunOperationalInfo := mkRunOperationalInfo {
  oi_spec : RunSpec;
  oi_contributing : list string;
  oi_completed : list string;
  oi_lost : list string;
  oi_paused : option bool;
}.

Definition run_operational_info (id : string) (i : Inner) : option RunOperationalInfo :=
  (fun run => mkRunOperationalInfo (r_spec run)
                (sort_strings (elements (r_contributing run)))
                (sort_strings (fst <$> map_to_list (r_done run)))
                (sort_strings (elements (r_lost_ever run)))
                (r_paused run)) <$> runs i !! id.

Definition run_thresholds (id : string) (i : Inner) : list ThresholdStatus :=
  from_option r_threshold_statuses [] (runs i !! id).

Definition run_agent_summaries (id : string) (i : Inner) : list Summary :=
  from_option r_summaries [] (runs i !! id).

Definition run_summary (id : string) (i : Inner) : option Summary :=
  run ← runs i !! id;
  if is_terminal (r_state run) then r_merged_summary run else None.

(** [Controller::start]: the state before the first session. *)
Definition Inner_new (id : string) (live : Duration) : Inner := mkInner id live ∅ ∅ 0 0 [].

End Handlers.
End Controller.
