(* ===== verification/Fleet.v ===== *)
(** * What the fleet reports is what its virtual users recorded

    The controller's aggregator of a run (controller.rs) receives the batches of every
    agent, each tagged with the agent's identity, between its own snapshots and the
    zeroing of lost agents' gauges.  Together with Flush.v: once the batches of an agent
    have all been applied, the run's aggregator holds, under the agent's tags, exactly
    what the agent's virtual users recorded. *)

From S2P Require Import Prelude Float64 Str Dur Metrics Aggregate Federation Uplink Proto Threshold Thresholds Summary Pipeline Flush Controller.

Section Fleet.
Context `{Hdr}.
Context (delta_of_json : string -> result string MetricsDelta).

(** The tags an agent's series carry at the controller. *)
Definition identity_tags (agent_id agent_name : string) (tags : Tags) : Tags :=
  <["loadr_agent_id" := agent_id]> (<["loadr_agent" := agent_name]> tags).

Definition no_identity (tags : Tags) : Prop :=
  tags !! "loadr_agent_id" = None /\ tags !! "loadr_agent" = None.

(** The life of a run at the controller, as its aggregator sees it; the log is the
    batches applied, with their agent's id and name. *)
Inductive fleet_run : ControllerRun -> list (string * string * string) -> Prop :=
| fr_new run : series (r_agg run) = ∅ -> fleet_run run []
| fr_metrics run log agent_id agent_name json delta :
    fleet_run run log -> delta_of_json json = Ok delta ->
    fleet_run (merge_agent_delta agent_id (add_agent_identity agent_name agent_id delta) run)
      (log ++ [(agent_id, agent_name, json)])
| fr_publish c run log : fleet_run run log -> fleet_run (Controller.publish c run) log
| fr_lost agent_id run log : fleet_run run log -> fleet_run (zero_agent_live_gauges agent_id run) log
| fr_finalize c v run log : fleet_run run log -> fleet_run (finalize c v run) log
| fr_other run run' log : fleet_run run log -> r_agg run' = r_agg run -> fleet_run run' log.

(** The batches of one agent. *)
Definition batches_from (agent_id agent_name : string) (log : list (string * string * string)) : list string :=
  snd <$> filter (fun e => e.1 = (agent_id, agent_name)) log.

Lemma batches_from_snoc agent_id agent_name log e :
  batches_from agent_id agent_name (log ++ [e]) =
    batches_from agent_id agent_name log
    ++ (if decide (e.1 = (agent_id, agent_name)) then [e.2] else []).
Proof.
  unfold batches_from. rewrite filter_app, fmap_app. f_equal.
  destruct (decide _); [by rewrite filter_cons_True|by rewrite filter_cons_False].
Qed.

Lemma clean_from (P : string -> Prop) agent_id agent_name log :
  Forall (fun e => P e.2) log -> Forall P (batches_from agent_id agent_name log).
Proof.
  intros Hl. unfold batches_from. apply Forall_fmap, Forall_forall.
  intros e [_ He]%list_elem_of_filter. rewrite Forall_forall in Hl. by apply Hl.
Qed.

Section Measured.
Context {M : Type} `{!SeriesMeasure M} `{!FlushMeasure M}.
Context (agent_id agent_name metric : string) (tags : Tags).
Context (tags_clean : no_identity tags).
#[local] Notation key := (metric, tags).
#[local] Notation key' := (metric, identity_tags agent_id agent_name tags).

(** A batch decodes to a delta whose series do not use the identity tags, and whose
    entries under the metric have its kind. *)
Definition clean_batch (json : string) : Prop :=
  exists delta, delta_of_json json = Ok delta
    /\ Forall (fun sd => no_identity (d_tags sd) /\ (d_metric sd = metric -> d_kind sd = m_kind)) delta.

Definition decoded (json : string) : MetricsDelta :=
  match delta_of_json json with Ok d => d | Err _ => [] end.

Lemma identity_tags_inj (i i' n n' : string) (t t' : Tags) :
  no_identity t -> no_identity t' -> identity_tags i n t = identity_tags i' n' t' -> i = i' /\ n = n' /\ t = t'.
Proof.
  intros [Hi Hn] [Hi' Hn'] Heq. unfold identity_tags in Heq.
  assert (forall k, <["loadr_agent_id":=i]> (<["loadr_agent":=n]> t) !! k
                    = <["loadr_agent_id":=i']> (<["loadr_agent":=n']> t') !! k) as Hk by (intros k; by rewrite Heq).
  pose proof (Hk "loadr_agent_id") as H1. rewrite !lookup_insert_eq in H1.
  pose proof (Hk "loadr_agent") as H2. rewrite !(lookup_insert_ne _ "loadr_agent_id"), !lookup_insert_eq in H2 by done.
  split_and!; [congruence..|]. apply map_eq. intros k.
  destruct (decide (k = "loadr_agent_id")) as [->|H3]; [by rewrite Hi, Hi'|].
  destruct (decide (k = "loadr_agent")) as [->|H4]; [by rewrite Hn, Hn'|].
  specialize (Hk k). by rewrite !lookup_insert_ne in Hk by done.
Qed.

(** The entries of a tagged delta under the tagged key. *)
Lemma delta_for_identity (i n : string) (delta : MetricsDelta) :
  Forall (fun sd => no_identity (d_tags sd)) delta ->
  d_data <$> delta_for key' (add_agent_identity n i delta)
  = if decide ((i, n) = (agent_id, agent_name)) then d_data <$> delta_for key delta else [].
Proof.
  intros Hd. induction Hd as [|sd delta Hsd Hd IH]; [by destruct (decide _)|].
  unfold add_agent_identity, delta_for in *. rewrite fmap_cons.
  set (sd' := mkSeriesDelta _ _ _ _).
  destruct (decide ((d_metric sd', d_tags sd') = key')) as [He|Hne].
  - rewrite filter_cons_True by done. injection He as Hm Ht.
    destruct (identity_tags_inj _ _ _ _ _ _ Hsd tags_clean Ht) as (-> & -> & Htg).
    rewrite fmap_cons, IH, !decide_True by done.
    rewrite (filter_cons_True (fun sd => (d_metric sd, d_tags sd) = key)) by (by subst).
    done.
  - rewrite filter_cons_False by done. rewrite IH. destruct (decide _) as [[= -> ->]|]; [|done].
    rewrite (filter_cons_False (fun sd => (d_metric sd, d_tags sd) = key)); [done|].
    intros [= <- <-]. by apply Hne.
Qed.

Lemma delta_at_identity (i n : string) (delta : MetricsDelta) :
  Forall (fun sd => no_identity (d_tags sd)) delta ->
  delta_at key' (add_agent_identity n i delta)
  = if decide ((i, n) = (agent_id, agent_name)) then delta_at key delta else m_zero.
Proof.
  intros Hd. unfold delta_at.
  assert (forall l : list SeriesDelta, foldr (fun sd acc => m_op (m_delta (d_data sd)) acc) m_zero l
            = foldr (fun d acc => m_op (m_delta d) acc) m_zero (d_data <$> l)) as Hf.
  { induction l as [|sd l IH]; simpl; [done|]. by rewrite IH. }
  rewrite !Hf, delta_for_identity by done. by destruct (decide _).
Qed.

(** What the aggregator holds under the agent's tags. *)
Definition applied (log : list (string * string * string)) : M :=
  deltas_at key (decoded <$> batches_from agent_id agent_name log).

Lemma set_gauge_at (a : Aggregator) (m tag value : string) (v : f64) :
  ok_at key' a -> series (set_gauge_by_tag a m tag value v) !! key' = series a !! key'.
Proof.
  intros Ha. unfold set_gauge_by_tag. simpl. rewrite map_lookup_imap.
  destruct (series a !! key') as [s|] eqn:Hs; simpl; [|done].
  pose proof (f_no_gauge s (Ha s Hs)) as Hg. destruct (_ || _); [done|]. by destruct (data s).
Qed.

Lemma zero_gauges_at (id : string) (run : ControllerRun) :
  ok_at key' (r_agg run) ->
  series (r_agg (zero_agent_live_gauges id run)) !! key' = series (r_agg run) !! key'.
Proof.
  intros Ha. unfold zero_agent_live_gauges, LIVE_GAUGES. cbn [foldl set_r_agg r_agg]. by rewrite set_gauge_at.
Qed.

Lemma at_ext (a a' : Aggregator) :
  series a' !! key' = series a !! key' -> ok_at key' a -> ok_at key' a' /\ val_at key' a' = val_at key' a.
Proof. unfold ok_at, val_at. by intros ->. Qed.

Lemma snapshot_val_at (a : Aggregator) (now now_ms : Z) :
  ok_at key' a ->
  ok_at key' (snapshot a now now_ms).2 /\ val_at key' (snapshot a now now_ms).2 = val_at key' a.
Proof.
  unfold ok_at, val_at. simpl. rewrite lookup_fmap. intros Ha.
  destruct (series a !! key') as [s|]; simpl; [|done]. specialize (Ha s eq_refl).
  split; [intros ? [= <-]|]; by apply m_roll.
Qed.

Lemma merge_agent_delta_at (id : string) (delta : MetricsDelta) (run : ControllerRun) :
  ok_at key' (r_agg run) -> delta_kind_ok key' delta ->
  ok_at key' (r_agg (merge_agent_delta id delta run))
  /\ m_eq (val_at key' (r_agg (merge_agent_delta id delta run)))
       (m_op (val_at key' (r_agg run)) (delta_at key' delta)).
Proof.
  intros Ha Hk. destruct (merge_at key' (r_agg run) delta Ha Hk) as (Hok & Hv & _).
  unfold merge_agent_delta. destruct (_ || _); [|by split].
  set (run' := set_r_agg _ _). destruct (at_ext (r_agg run') _ (zero_gauges_at id run' Hok) Hok) as [Hok' ->].
  by split.
Qed.

Lemma identity_kind_ok (i n : string) (delta : MetricsDelta) :
  Forall (fun sd => no_identity (d_tags sd) /\ (d_metric sd = metric -> d_kind sd = m_kind)) delta ->
  delta_kind_ok key' (add_agent_identity n i delta).
Proof.
  intros Hd. unfold delta_kind_ok, delta_for, add_agent_identity.
  apply Forall_forall. intros sd [Heq Hin]%list_elem_of_filter. injection Heq as Hm _.
  apply list_elem_of_fmap in Hin as (sd0 & -> & Hin). rewrite Forall_forall in Hd. destruct (Hd sd0 Hin) as [_ Hk]. by apply Hk.
Qed.

Lemma fleet_at (run : ControllerRun) (log : list (string * string * string)) :
  fleet_run run log -> Forall (fun e => clean_batch e.2) log ->
  ok_at key' (r_agg run) /\ m_eq (val_at key' (r_agg run)) (applied log).
Proof.
  induction 1 as [run Hs|run log i n json delta _ IH Hj|c run log _ IH|id run log _ IH|c v run log _ IH
                 |run run' log _ IH Hagg]; intros Hc.
  - unfold ok_at, val_at. by rewrite Hs, lookup_empty.
  - apply Forall_app in Hc as [Hc He]. apply Forall_cons in He as [(d & Hd & Hcl) _]. simpl in Hd.
    rewrite Hj in Hd. injection Hd as <-. destruct (IH Hc) as [Ha Hv].
    destruct (merge_agent_delta_at i _ run Ha (identity_kind_ok i n delta Hcl)) as [Ha' Hv'].
    split; [done|]. rewrite Hv', Hv. unfold applied. rewrite batches_from_snoc, fmap_app.
    rewrite delta_at_identity by (eapply Forall_impl; [exact Hcl|by intros ? []]). cbn [fst snd].
    destruct (decide _) as [?|?]; [|by rewrite app_nil_r, m_op_zero].
    cbn [fmap list_fmap]. rewrite deltas_at_snoc. unfold decoded at 3. by rewrite Hj.
  - destruct (IH Hc) as [Ha Hv]. unfold Controller.publish. destruct (evaluate_all _ _ _ _) as [sts ab].
    destruct (snapshot_val_at (r_agg run) (instant c) (unix_ms c) Ha) as [Ha' Hv'].
    destruct (snapshot _ _ _) as [sn a]. simpl in *. by rewrite Hv'.
  - destruct (IH Hc) as [Ha Hv]. destruct (at_ext _ _ (zero_gauges_at id run Ha) Ha) as [Ha' ->]. by split.
  - destruct (IH Hc) as [Ha Hv]. unfold finalize. destruct (evaluate_all _ _ _ _) as [sts ab].
    destruct (snapshot_val_at (r_agg run) (instant c) (unix_ms c) Ha) as [Ha' Hv'].
    destruct (snapshot _ _ _) as [sn a]. simpl in Ha', Hv'. unfold build.
    destruct (snapshot_val_at a (instant c) (unix_ms c) Ha') as [Ha2 Hv2].
    destruct (snapshot _ _ _) as [sn2 a2]. simpl in *. by rewrite Hv2, Hv'.
  - rewrite Hagg. by apply IH.
Qed.

(** Decoding what was encoded changes floating-point values at most. *)
Lemma decoded_sim (delta_to_json : MetricsDelta -> option string) (ds : list MetricsDelta) :
  (forall d b d', delta_to_json d = Some b -> delta_of_json b = Ok d' -> Forall2 entry_sim d d') ->
  (forall d, is_Some (delta_to_json d)) ->
  Forall clean_batch (omap delta_to_json ds) ->
  deltas_at key (decoded <$> omap delta_to_json ds) = deltas_at key ds.
Proof.
  intros Hcodec Htotal. induction ds as [|d ds IH]; [done|]. rewrite omap_cons_eq.
  destruct (Htotal d) as [b Hb]. rewrite Hb. intros Hc. apply Forall_cons in Hc as [(d' & Hd' & _) Hc].
  rewrite fmap_cons. simpl. rewrite IH by done. f_equal. unfold decoded. rewrite Hd'.
  specialize (Hcodec d b d' Hb Hd'). unfold delta_at, delta_for. clear -Hcodec.
  induction Hcodec as [|sd sd' d d' (Hm & Hk & Ht & Hs) _ IH]; [done|].
  rewrite !filter_cons, Hm, Ht. destruct (decide _); simpl; [|done]. by rewrite IH, (f_sim _ _ Hs).
Qed.
End Measured.
End Fleet.

Section Exact.
Context `{Hdr} `{!HdrLaws} `{TokioNotify}.
Context (encoded_len : UplinkMessage -> Z).
Context (delta_to_json : MetricsDelta -> option string) (delta_of_json : string -> result string MetricsDelta).

(** What the code relies on of [serde_json]: serializing a delta does not fail, and a
    text that parses back gives the same names, tags, integers and strings. *)
Record json_faithful : Prop := {
  jf_total d : is_Some (delta_to_json d);
  jf_sim d b d' : delta_to_json d = Some b -> delta_of_json b = Ok d' -> Forall2 entry_sim d d';
}.

(** C12: trends are exact across the fleet: when an agent's run has ended and its
    batches have all been applied, the controller's histogram under that agent's tags
    is the one a single aggregator recording all its virtual users' samples would
    hold, whatever the other agents, the ticks, the rejected and restored deltas, the
    reconnections and the controller's snapshots were. *)
Theorem fleet_trend_exact (p : Pipe) (vu_log : list Sample) (run : ControllerRun)
    (log : list (string * string * string)) (run_id agent_id agent_name metric : string) (tags : Tags)
    (thresholds : list CompiledThreshold) :
  json_faithful -> (forall h, is_Some (hdr_encode h)) -> no_identity tags ->
  pipe_run encoded_len delta_to_json run_id thresholds p vu_log ->
  pc (pi_loop p) = Ended -> is_closed (pi_up p) = false ->
  Forall (fun smp => sample_key smp = (metric, tags) -> s_kind smp = Trend) vu_log ->
  fleet_run delta_of_json run log ->
  Forall (fun e => clean_batch (M := Histogram) delta_of_json metric e.2) log ->
  batches_from agent_id agent_name log = batches run_id (lg_queued (pi_up p)) ->
  from_option trend_val hdr_new (series (r_agg run) !! (metric, identity_tags agent_id agent_name tags))
  = hist_of_values (key_values (metric, tags) vu_log).
Proof.
  intros [Htotal Hsim] Henc Htags Hp Hpc Hcl Hk Hf Hclean Hb.
  destruct (conserved_end encoded_len delta_to_json run_id thresholds (M := Histogram) (metric, tags) Htotal
              (fun h => h = hdr_new)) with (p := p) (log := vu_log)
    as (ds & rest & Hds & _ & -> & Hm); [done|by intros ?? -> ->; apply hdr_add_new_r| |done..|].
  { intros s (Hkd & h & dh & sum & count & mn & mx & Hd). simpl. unfold Series_take_delta, trend_pend. rewrite Hd.
    destruct (hdr_is_empty dh) eqn:He; simpl; [rewrite Hd; by apply hdr_is_empty_new|].
    destruct (Henc dh) as [b ->]. done. }
  destruct (fleet_at (M := Histogram) delta_of_json agent_id agent_name metric tags Htags run log Hf Hclean) as [_ Hv].
  change (val_at (metric, identity_tags agent_id agent_name tags) (r_agg run)
          = hist_of_values (key_values (metric, tags) vu_log)).
  rewrite <- logged_trend. etrans; [exact Hv|]. rewrite <- Hm. unfold applied.
  assert (Forall (clean_batch (M := Histogram) delta_of_json metric) (omap delta_to_json ds)) as Hclean'.
  { rewrite <- Hds, <- Hb. apply clean_from, Hclean. }
  rewrite Hb, Hds, (decoded_sim delta_of_json metric tags delta_to_json ds Hsim Htotal Hclean').
  symmetry. apply hdr_add_new_r.
Qed.
End Exact.

(** ** A concrete run: one virtual user, one sample, one batch *)

Module FleetDemo.
Import HdrModel.

Import Uplink.Sample.

Definition len1 (_ : UplinkMessage) : Z := 1.
Definition smp : Sample := trend_sample 7.
Definition key : string * Tags := trend_key.

(** The pipeline up to the dispatch of its last delta, whatever the codec. *)
Definition p0 : Pipe := mkPipe (MetricShards_new 1 0) (Loop_new 0) (mkLogged (with_limits 1000 10 "inc") []).
Definition p1 : Pipe := mkPipe (shards_record (pi_shards p0) 0 smp) (pi_loop p0) (pi_up p0).

Definition delta0 : MetricsDelta :=
  (take_delta (drain_into (pi_shards p1) (agg (pi_loop p1))).2).2.

#[local] Instance data_eq_dec : EqDecision SeriesDeltaData.
Proof. solve_decision. Defined.
#[local] Instance entry_eq_dec : EqDecision SeriesDelta.
Proof. solve_decision. Defined.

(** A codec that knows one delta only. *)
Definition to_json_of (d0 d : MetricsDelta) : option string := Some (if decide (d = d0) then "0" else "1").
Definition of_json_of (d0 : MetricsDelta) (s : string) : result string MetricsDelta :=
  if decide (s = "0") then Ok d0 else Err "not a delta".

Lemma entry_sim_refl (sd : SeriesDelta) : entry_sim sd sd.
Proof. repeat split. by destruct (d_data sd). Qed.

Lemma codec_faithful_of (d0 : MetricsDelta) : json_faithful (to_json_of d0) (of_json_of d0).
Proof.
  split; [by eauto|]. intros d b d'. unfold to_json_of, of_json_of. intros [= <-].
  destruct (decide (d = d0)) as [->|]; simpl; [|done]. intros [= <-].
  induction d0 as [|x l IH]; constructor; [apply entry_sim_refl|exact IH].
Qed.

Definition to_json : MetricsDelta -> option string := to_json_of delta0.
Definition of_json : string -> result string MetricsDelta := of_json_of delta0.

Definition r2 := shards_end (outs len1 to_json "run-1") [] 1000000000 1 (pi_shards p1) (pi_loop p1) (pi_up p1).
Definition p2 : Pipe := mkPipe r2.1 r2.2.1 r2.2.2.
Definition r3 := dispatch_poll (W := Logged) [] 1000000001 (pi_loop p2) (pi_up p2).
Definition p3 : Pipe := mkPipe (pi_shards p2) r3.1 r3.2.

Definition run0 : ControllerRun :=
  new_run (mkClock 0 0) "run-1" "" (mkLoadedPlan None [] []) [] (mkSubmitOptions None None [] None LossContinue 0) [].
Definition run1 : ControllerRun :=
  merge_agent_delta "agent-1" (add_agent_identity "one" "agent-1" delta0) run0.

Lemma ended_reached p log now now_ms r :
  pipe_run len1 to_json "run-1" [] p log -> pc (pi_loop p) = Selecting ->
  shards_end (outs len1 to_json "run-1") [] now now_ms (pi_shards p) (pi_loop p) (pi_up p) = r ->
  pipe_run len1 to_json "run-1" [] (mkPipe r.1 r.2.1 r.2.2) log.
Proof. intros Hp Hpc Hr. destruct r as [ms [l w]]. by eapply pp_end. Qed.

Lemma polled_reached p log now r :
  pipe_run len1 to_json "run-1" [] p log ->
  dispatch_poll (W := Logged) [] now (pi_loop p) (pi_up p) = r ->
  pipe_run len1 to_json "run-1" [] (mkPipe (pi_shards p) r.1 r.2) log.
Proof. intros Hp Hr. destruct r as [l w]. by eapply pp_poll. Qed.

Lemma p1_reached : pipe_run len1 to_json "run-1" [] p1 [smp].
Proof. apply (pp_record _ _ _ _ p0 [] 0 smp); [by apply pp_new|exact I]. Qed.

Lemma p3_reached : pipe_run len1 to_json "run-1" [] p3 [smp].
Proof.
  exact (polled_reached p2 [smp] _ r3 (ended_reached p1 [smp] _ _ r2 p1_reached eq_refl eq_refl) eq_refl).
Qed.

Lemma of_json_delta0 : of_json "0" = Ok delta0.
Proof. unfold of_json, of_json_of. by rewrite decide_True. Qed.

Lemma run0_fresh : series (r_agg run0) = ∅.
Proof. reflexivity. Qed.

Lemma run1_reached : fleet_run of_json run1 [("agent-1", "one", "0")].
Proof.
  exact (fr_metrics of_json run0 [] "agent-1" "one" "0" delta0 (fr_new of_json run0 run0_fresh) of_json_delta0).
Qed.

Lemma fleet_trend_exact_witness :
  from_option trend_val hdr_new (series (r_agg run1) !! ("http_req_duration", identity_tags "agent-1" "one" ∅))
  = hist_of_values [f64_of_Z 7].
Proof.
  refine (fleet_trend_exact len1 to_json of_json p3 [smp] run1 [("agent-1", "one", "0")] "run-1" "agent-1" "one"
            "http_req_duration" ∅ [] (codec_faithful_of delta0) _ _ p3_reached _ _ _ run1_reached _ _).
  - intros h. by eexists.
  - done.
  - vm_compute. reflexivity.
  - vm_compute. reflexivity.
  - by repeat constructor.
  - constructor; [|constructor]. exists delta0. split; [exact of_json_delta0|].
    apply (bool_decide_unpack _). vm_compute. exact I.
  - vm_compute. reflexivity.
Defined.
End FleetDemo.
