(* ===== verification/ControllerSystem.v ===== *)
(** * The controller as a system of tasks

    The tasks of the controller process (the inbound pump of each session, the
    preparation barrier and the ticker of each run, the sweeper, control commands in
    flight) interleave at their [await]s: [task_step] is one piece of a task and
    [step] any piece of any task or a new request from outside.  The invariants of
    controller.rs are proved for every interleaving. *)

From S2P Require Import Prelude Float64 Str Dur Executor Metrics Aggregate Federation Uplink Proto Threshold Thresholds Summary Controller.

Section System.
Context `{Hdr}.
Context (delta_of_json : string -> result string MetricsDelta).
Context (summary_of_json : string -> result string Summary).
Context (humantime_parse_duration : string -> result string Duration).
Context (load_str : string -> option string -> result string LoadedPlan).

Inductive Task :=
| TPump (agent_id : string) (session : Z)
| TBarrier (id : string) (start_barrier_ms : Z)
| TAct (id : string) (d : BarrierDecision)
| TFinalize (id : string) (verdict : RunState)
| TTicker (id : string)
| TSweep (lost : list string) (ids : list string)
| TSweepFinalize (lost : list string) (id : string) (ids : list string)
| TControl (id action : string) (command_id : Z).

Record System := mkSystem {
  inner : Inner;
  tasks : list Task;
}.

(** One piece of a task: the state after it and the tasks that take its place. *)
Inductive task_step (c : Clock) : Task -> Inner -> Inner -> list Task -> Prop :=
| ts_pump a s m i i' :
    handle_agent_message delta_of_json summary_of_json c a s m i = (i', true) ->
    task_step c (TPump a s) i i' [TPump a s]
| ts_pump_superseded a s m i i' :
    handle_agent_message delta_of_json summary_of_json c a s m i = (i', false) ->
    task_step c (TPump a s) i (mark_disconnected a s i') []
| ts_pump_closed a s i : task_step c (TPump a s) i (mark_disconnected a s i) []
| ts_barrier_wait id ms i i' :
    barrier_check c ms id i = (i', None) -> task_step c (TBarrier id ms) i i' [TBarrier id ms]
| ts_barrier_decide id ms i i' d :
    barrier_check c ms id i = (i', Some d) -> task_step c (TBarrier id ms) i i' [TAct id d]
| ts_barrier_timeout id ms i d :
    barrier_timeout id i = Some d -> task_step c (TBarrier id ms) i i [TAct id d]
| ts_act_start id t i i' :
    barrier_act id (Started t) i = (i', None) -> task_step c (TAct id (Started t)) i i' [TTicker id]
| ts_act_fail id reason v i i' :
    barrier_act id (FailRun reason v) i = (i', Some v) ->
    task_step c (TAct id (FailRun reason v)) i i' [TFinalize id v]
| ts_act_settled id i : task_step c (TAct id Settled) i i []
| ts_finalize id v i : task_step c (TFinalize id v) i (finalize_run c id v i) []
| ts_ticker id i :
    task_step c (TTicker id) i (publish_live_snapshot c id i)
      (match runs i !! id with
       | Some run => if is_terminal (r_state run) then [] else [TTicker id]
       | None => []
       end)
| ts_sweep lost id ids i i' :
    sweep_run c lost id i = (i', false) -> task_step c (TSweep lost (id :: ids)) i i' [TSweep lost ids]
| ts_sweep_abort lost id ids i i' :
    sweep_run c lost id i = (i', true) ->
    task_step c (TSweep lost (id :: ids)) i i' [TSweepFinalize lost id ids]
| ts_sweep_finalize lost id ids i :
    task_step c (TSweepFinalize lost id ids) i (finalize_run c id Failed i) [TSweep lost ids]
| ts_sweep_end lost i : task_step c (TSweep lost []) i i []
| ts_control_done id action cmd i run :
    runs i !! id = Some run -> control_complete run cmd = true ->
    task_step c (TControl id action cmd) i (control_finish id action cmd i).1 []
| ts_control_timeout id action cmd i :
    task_step c (TControl id action cmd) i (control_timeout id action cmd i).1 []
| ts_shutdown t i : task_step c t i i [].

(** One step of the process: a piece of a task, or a request. *)
Inductive step : System -> System -> Prop :=
| s_task c i i' t ts l1 l2 :
    task_step c t i i' ts ->
    step (mkSystem i (l1 ++ t :: l2)) (mkSystem i' (l1 ++ ts ++ l2))
| s_session c peer first i i' r l :
    session c peer first i = (i', r) -> 0 <= session_counter i < u64_max ->
    step (mkSystem i l) (mkSystem i' (match r with Ok (a, s) => TPump a s :: l | Err _ => l end))
| s_submit c id plan opts i i' r l :
    runs i !! id = None ->
    submit humantime_parse_duration load_str c id plan opts i = Some (i', r) ->
    step (mkSystem i l)
      (mkSystem i' (match r with Ok id => TBarrier id (so_start_barrier_ms opts) :: l | Err _ => l end))
| s_sweep c i l :
    step (mkSystem i l) (mkSystem i (TSweep (lost_ids c i) (fst <$> map_to_list (runs i)) :: l))
| s_control id action scenario total delivered i i' r l :
    control_begin id action scenario total delivered i = (i', r) ->
    step (mkSystem i l) (mkSystem i' (match r with Ok cmd => TControl id action cmd :: l | Err _ => l end))
| s_view c id i l : step (mkSystem i l) (mkSystem (run_metrics_view c id i).1 l).

(** The process as [Controller::start] leaves it, and what it can become. *)
Definition start_system (controller : string) (live : Duration) : System :=
  mkSystem (Inner_new controller live) [].

Definition reachable (controller : string) (live : Duration) : System -> Prop :=
  rtc step (start_system controller live).

(** ** Invariants *)

(** The part of a run that its lifecycle is about. *)
Definition core (r : ControllerRun) :=
  (r_spec r, r_state r, r_prep r, r_start_unix_ms r, r_started_ms r, r_finished_ms r,
   r_contributing r, r_merged_summary r, r_threshold_statuses r, r_timeline r).

(** Only the agents a command was sent to answer it. *)
Definition controls_ok (r : ControllerRun) : Prop :=
  forall cmd p, r_pending_controls r !! cmd = Some p -> dom (pc_responses p) ⊆ pc_expected p.

Record run_ok (id : string) (r : ControllerRun) : Prop := {
  ro_id : run_id (r_spec r) = id;
  ro_nodup : NoDup (assigned (r_spec r));
  ro_phases : forall a, is_Some (phases (r_prep r) !! a) <-> a ∈ assigned (r_spec r);
  ro_terminal : is_terminal (r_state r) = true <-> is_Some (r_merged_summary r);
  ro_finished : is_Some (r_finished_ms r) <-> is_Some (r_merged_summary r);
  ro_started : is_Some (r_started_ms r) <-> is_Some (r_start_unix_ms r);
  ro_start_ready : is_Some (r_start_unix_ms r) ->
    forall a, a ∈ assigned (r_spec r) -> phases (r_prep r) !! a = Some ReadyPhase;
  ro_pending : r_state r = Pending -> r_start_unix_ms r = None;
  ro_failure : forall reason v, failure (r_prep r) = Some (reason, v) ->
    is_terminal v = true /\ r_start_unix_ms r = None;
  ro_controls : controls_ok r;
}.

(** How a run may change.  [b] allows the start to be committed. *)
Record evolves (b : bool) (r r' : ControllerRun) : Prop := {
  ev_spec : r_spec r' = r_spec r;
  ev_frozen : is_terminal (r_state r) = true -> core r' = core r;
  ev_ready : forall a, phases (r_prep r) !! a = Some ReadyPhase -> phases (r_prep r') !! a = Some ReadyPhase;
  ev_failure : forall f, failure (r_prep r) = Some f -> failure (r_prep r') = Some f;
  ev_start : r_start_unix_ms r' = r_start_unix_ms r \/ b = true /\ r_start_unix_ms r = None;
  ev_pending : r_state r' = Pending -> r_state r = Pending;
}.

Definition start_sent (i : Inner) (o : AgentSender * result Status CtrlMsg) : Prop :=
  match o.2 with
  | Ok (CStart id t) => exists r, runs i !! id = Some r /\ r_start_unix_ms r = Some t
  | _ => True
  end.

Record inner_ok (i : Inner) : Prop := {
  io_runs : forall id r, runs i !! id = Some r -> run_ok id r;
  io_reserved : forall a e id, agents i !! a = Some e -> a_active_run e = Some id ->
    exists r, runs i !! id = Some r /\ is_terminal (r_state r) = false /\ a ∈ assigned (r_spec r);
  io_sessions : forall a e, agents i !! a = Some e -> a_session e <= session_counter i /\ a_sender e = a_session e;
  io_outbox : Forall (start_sent i) (outbox i);
}.

Definition inner_evolves (b : bool) (i i' : Inner) : Prop :=
  forall id r, runs i !! id = Some r -> exists r', runs i' !! id = Some r' /\ evolves b r r'.

(** A handler from [i] to [i'] keeps the invariant and only lets runs evolve. *)
Definition ok_step (b : bool) (i i' : Inner) : Prop :=
  inner_ok i -> inner_ok i' /\ inner_evolves b i i'.

(** *** Evolution *)

#[local] Instance evolves_refl b : Reflexive (evolves b).
Proof. intros r. split; auto. Qed.

#[local] Instance evolves_trans b : Transitive (evolves b).
Proof.
  intros r1 r2 r3 [S1 F1 R1 L1 T1 P1] [S2 F2 R2 L2 T2 P2]. split; auto.
  - congruence.
  - intros Ht. specialize (F1 Ht). rewrite <- F1. apply F2.
    injection F1. intros. congruence.
  - destruct T1 as [T1|T1], T2 as [T2|T2]; [left; congruence| | |]; right; naive_solver congruence.
Qed.

Lemma evolves_weaken (r r' : ControllerRun) b : evolves false r r' -> evolves b r r'.
Proof. intros []. split; auto. naive_solver. Qed.

#[local] Instance inner_evolves_refl b : Reflexive (inner_evolves b).
Proof. intros i id r Hr. exists r. by split. Qed.

#[local] Instance inner_evolves_trans b : Transitive (inner_evolves b).
Proof.
  intros i1 i2 i3 H12 H23 id r Hr. destruct (H12 id r Hr) as (r' & Hr' & He).
  destruct (H23 id r' Hr') as (r'' & Hr'' & He'). exists r''. split; [done|]. by etrans.
Qed.

#[local] Instance ok_step_refl b : Reflexive (ok_step b).
Proof. intros i Hi. by split. Qed.

#[local] Instance ok_step_trans b : Transitive (ok_step b).
Proof. intros i1 i2 i3 H12 H23 [H2 E12]%H12. destruct (H23 H2). split; [done|]. by etrans. Qed.

Lemma ok_step_weaken b i i' : ok_step false i i' -> ok_step b i i'.
Proof.
  intros Hs [Hi He]%Hs. split; [done|]. intros id r Hr. destruct (He id r Hr) as (r' & ? & ?).
  exists r'. split; [done|]. by apply evolves_weaken.
Qed.

(** A change outside the core. *)
Lemma core_eq_ok (id : string) (r r' : ControllerRun) :
  core r' = core r -> (controls_ok r -> controls_ok r') -> run_ok id r -> run_ok id r'.
Proof.
  unfold core. intros [= E1 E2 E3 E4 E5 E6 E7 E8 E9 E10] Hc [].
  by split; rewrite ?E1, ?E2, ?E3, ?E4, ?E5, ?E6, ?E8; auto.
Qed.

Lemma core_eq_evolves (b : bool) (r r' : ControllerRun) : core r' = core r -> evolves b r r'.
Proof.
  intros E. split; try done; unfold core in E; injection E; intros; try congruence. by left.
Qed.

(** *** Primitive updates *)

Lemma start_sent_evolves (b : bool) (i i' : Inner) o :
  inner_evolves b i i' -> start_sent i o -> start_sent i' o.
Proof.
  intros He. unfold start_sent. destruct (o.2) as [m|]; [|done]. destruct m; try done.
  intros (r & Hr & Ht). destruct (He _ _ Hr) as (r' & Hr' & Hev). exists r'. split; [done|].
  destruct (ev_start _ _ _ Hev) as [->|[_ Hn]]; [done|]. by rewrite Hn in Ht.
Qed.

(** Messages that are not a start. *)
Definition no_start (m : result Status CtrlMsg) : bool :=
  match m with Ok (CStart _ _) => false | _ => true end.

Lemma ok_outbox b (i : Inner) l :
  Forall (start_sent i) l -> ok_step b i (set_outbox (outbox i ++ l) i).
Proof.
  intros Hl [Hr Ha Hs Ho]. split; [|by intros id r Hid; exists r]. split; try done.
  by apply Forall_app.
Qed.

Lemma ok_send b s m (i : Inner) : no_start m = true -> ok_step b i (send s m i).
Proof.
  intros Hm. apply ok_outbox. constructor; [|constructor]. unfold start_sent. simpl.
  by destruct m as [[]|].
Qed.

Lemma ok_send_all b targets m (i : Inner) : no_start (Ok m) = true -> ok_step b i (send_all targets m i).
Proof.
  intros Hm. apply ok_outbox. apply Forall_fmap, Forall_forall. intros t _.
  unfold start_sent. simpl. by destruct m.
Qed.

Lemma ok_upd_run b id f (i : Inner) :
  (forall r, runs i !! id = Some r -> run_ok id r ->
     run_ok id (f r) /\ evolves b r (f r)
     /\ (is_terminal (r_state (f r)) = true -> is_terminal (r_state r) = true)) ->
  ok_step b i (upd_run id f i).
Proof.
  intros Hf [Hr Ha Hs Ho].
  assert (inner_evolves b i (upd_run id f i)) as He.
  { intros id' r Hid. unfold upd_run. simpl. destruct (decide (id = id')) as [->|Hne].
    - rewrite lookup_alter_eq, Hid. simpl. exists (f r). split; [done|]. by apply Hf; auto.
    - rewrite lookup_alter_ne by done. by exists r. }
  split; [|done]. split; try done; simpl.
  - intros id' r Hid. destruct (decide (id = id')) as [->|Hne].
    + rewrite lookup_alter_eq in Hid. apply fmap_Some in Hid as (r0 & Hr0 & ->). by apply Hf; auto.
    + rewrite lookup_alter_ne in Hid by done. auto.
  - intros a e id' Hae Hact. destruct (Ha a e id' Hae Hact) as (r & Hid & Ht & Has).
    destruct (decide (id = id')) as [->|Hne].
    + exists (f r). rewrite lookup_alter_eq, Hid. destruct (Hf r Hid (Hr _ _ Hid)) as (_ & Hev & Hterm).
      split; [done|]. rewrite (ev_spec _ _ _ Hev). split; [|done].
      destruct (is_terminal (r_state (f r))); [|done]. by rewrite Hterm in Ht.
    + exists r. by rewrite lookup_alter_ne.
  - eapply Forall_impl; [exact Ho|]. intros o. by apply (start_sent_evolves b).
Qed.

Lemma ok_upd_core_controls b id f (i : Inner) :
  (forall r, runs i !! id = Some r -> core (f r) = core r /\ (controls_ok r -> controls_ok (f r))) ->
  ok_step b i (upd_run id f i).
Proof.
  intros Hf. apply ok_upd_run. intros r Hr Hok. destruct (Hf r Hr) as [Hc Hctl]. split_and!.
  - by eapply core_eq_ok.
  - by apply core_eq_evolves.
  - unfold core in Hc. injection Hc. intros. congruence.
Qed.

Lemma ok_upd_core b id f (i : Inner) :
  (forall r, core (f r) = core r /\ r_pending_controls (f r) = r_pending_controls r) ->
  ok_step b i (upd_run id f i).
Proof.
  intros Hf. apply ok_upd_core_controls. intros r _. destruct (Hf r) as [Hc Hp]. split; [done|].
  unfold controls_ok. by rewrite Hp.
Qed.

Lemma ok_upd_agent b a f (i : Inner) :
  (forall e, a_active_run (f e) = a_active_run e /\ a_session (f e) = a_session e /\ a_sender (f e) = a_sender e) ->
  ok_step b i (upd_agent a f i).
Proof.
  intros Hf [Hr Ha Hs Ho]. split; [|by intros id r Hid; exists r]. split; try done; simpl.
  - intros a' e id Hae Hact. apply lookup_alter_Some in Hae as [(-> & e0 & He0 & ->)|[_ ?]]; [|eauto].
    destruct (Hf e0) as (Hact' & _). rewrite Hact' in Hact. eauto.
  - intros a' e Hae. apply lookup_alter_Some in Hae as [(-> & e0 & He0 & ->)|[_ ?]]; [|eauto].
    destruct (Hf e0) as (_ & -> & ->). eauto.
Qed.

(** *** Finalization *)

Lemma release_lookup (run : ControllerRun) (i : Inner) (a : string) :
  agents (release_reservations run i) !! a
  = (fun e => if bool_decide (a ∈ assigned (r_spec run)) && bool_decide (a_active_run e = Some (run_id (r_spec run)))
              then set_a_active_run None e else e) <$> agents i !! a.
Proof.
  unfold release_reservations. simpl. generalize (agents i). generalize (run_id (r_spec run)).
  intros rid. induction (assigned (r_spec run)) as [|x l IH]; intros m; simpl.
  - symmetry. rewrite <- (option_fmap_id (m !! a)) at 2. by apply option_fmap_ext.
  - rewrite IH. destruct (decide (x = a)) as [->|Hne].
    + rewrite lookup_alter_eq, <- option_fmap_compose. apply option_fmap_ext. intros e. unfold compose.
      rewrite (bool_decide_true (a ∈ a :: l)) by (by left).
      destruct (bool_decide_reflect (a_active_run e = Some rid)); simpl.
      * by rewrite andb_false_r.
      * rewrite (bool_decide_false (a_active_run e = Some rid)) by done. by rewrite andb_false_r.
    + rewrite lookup_alter_ne by done. apply option_fmap_ext. intros e.
      by rewrite (bool_decide_ext (a ∈ x :: l) (a ∈ l)) by (rewrite elem_of_cons; naive_solver).
Qed.

Lemma finalize_spec (c : Clock) (v : RunState) (r : ControllerRun) :
  let r' := finalize c v r in
  r_spec r' = r_spec r /\ r_state r' = v /\ r_prep r' = r_prep r /\ r_start_unix_ms r' = r_start_unix_ms r
  /\ r_started_ms r' = r_started_ms r /\ r_finished_ms r' = Some (unix_ms c)
  /\ r_contributing r' = r_contributing r /\ is_Some (r_merged_summary r')
  /\ r_pending_controls r' = r_pending_controls r
  /\ r_done r' = r_done r /\ r_lost r' = r_lost r /\ r_abort_reason r' = r_abort_reason r.
Proof.
  unfold finalize. destruct (evaluate_all _ _ _ _) as [statuses ab].
  destruct (snapshot _ _ _) as [sn agg]. destruct (build _ _ _ _ _ _ _ _ _ _) as [s agg']. simpl. by split_and!.
Qed.

Lemma ok_finalize b c id v (i : Inner) : is_terminal v = true -> ok_step b i (finalize_run c id v i).
Proof.
  intros Hv. unfold finalize_run. destruct (runs i !! id) as [run|] eqn:Hrun; [|done].
  destruct (is_terminal (r_state run)) eqn:Hterm; [done|]. intros [Hr Ha Hs Ho].
  destruct (finalize_spec c v run) as (F1 & F2 & F3 & F4 & F5 & F6 & F7 & F8 & F9 & _).
  pose proof (Hr id run Hrun) as [].
  assert (inner_evolves b i (upd_run id (finalize c v) i)) as He.
  { intros id' r Hid. unfold upd_run. simpl. destruct (decide (id = id')) as [<-|Hne].
    - rewrite lookup_alter_eq, Hid. simpl. exists (finalize c v r). split; [done|].
      rewrite Hrun in Hid. injection Hid as <-. split; rewrite ?F1, ?F2, ?F3, ?F4; auto.
      + congruence.
      + intros ->. done.
    - rewrite lookup_alter_ne by done. by exists r. }
  split; [|intros id' r Hid; apply (He id' r Hid)]. split.
  - intros id' r. unfold release_reservations, upd_run. simpl. intros Hid.
    apply lookup_alter_Some in Hid as [(<- & r0 & Hr0 & ->)|[_ ?]]; [|eauto].
    rewrite Hrun in Hr0. injection Hr0 as <-. split; rewrite ?F1, ?F2, ?F3, ?F4, ?F5, ?F6; auto; try done.
    + intros ->. done.
    + unfold controls_ok. by rewrite F9.
  - intros a e id' Hae Hact. rewrite release_lookup in Hae.
    apply fmap_Some in Hae as (e0 & He0 & ->). simpl in He0.
    set (rel := bool_decide _ && _) in *. destruct rel eqn:Hrel; [done|]. subst rel.
    destruct (Ha a e0 id' He0 Hact) as (r & Hid & Ht & Has).
    destruct (decide (id = id')) as [<-|Hne].
    + rewrite Hrun in Hid. injection Hid as <-. rewrite ro_id0, Hact in Hrel.
      by rewrite !bool_decide_true in Hrel.
    + exists r. unfold upd_run. simpl. by rewrite lookup_alter_ne.
  - intros a e Hae. rewrite release_lookup in Hae. apply fmap_Some in Hae as (e0 & He0 & ->).
    simpl in He0. destruct (Hs a e0 He0). by destruct (_ && _).
  - simpl. eapply Forall_impl; [exact Ho|]. intros o Hso. exact (start_sent_evolves b _ _ o He Hso).
Qed.

(** *** Handlers *)

Lemma ok_record_prep_failure b id reason v (i : Inner) :
  is_terminal v = true -> ok_step b i (record_prep_failure id reason v i).1.
Proof.
  intros Hv. unfold record_prep_failure. destruct (runs i !! id) as [run|] eqn:Hrun; [|done].
  case_bool_decide as Hp; [|done]. simpl. apply ok_upd_run. intros r Hr [].
  rewrite Hrun in Hr. injection Hr as <-. split_and!; [| |done].
  - split; simpl; auto. intros reason' v' Hf. split; [|auto].
    destruct (failure (r_prep run)) as [[? ?]|] eqn:Hfl; simpl in Hf; injection Hf as -> ->; [|done].
    by eapply ro_failure0.
  - split; simpl; auto.
    + rewrite Hp. done.
    + intros f ->. done.
Qed.

Lemma completion_state_terminal (run : ControllerRun) : is_terminal (completion_state run) = true.
Proof. unfold completion_state. by repeat case_match. Qed.

Lemma ok_check_completion b c id (i : Inner) : ok_step b i (check_completion c id i).
Proof.
  unfold check_completion. repeat case_match; try done. apply ok_finalize, completion_state_terminal.
Qed.

Lemma ok_send_assignment b id a (i : Inner) : ok_step b i (send_assignment id a i).
Proof. unfold send_assignment. repeat case_match; try done. by apply ok_send. Qed.

Lemma ok_kill_agent_run b a id (i : Inner) : ok_step b i (kill_agent_run a id i).
Proof. unfold kill_agent_run. case_match; [|done]. by apply ok_send. Qed.

Lemma ok_abort_reason b id reason (i : Inner) : ok_step b i (upd_run id (set_abort_reason_once reason) i).
Proof. apply ok_upd_core. by intros []. Qed.

Lemma ok_terminate_participation b c a id (i : Inner) : ok_step b i (terminate_participation c a id i).
Proof.
  unfold terminate_participation. destruct (runs i !! id) as [run|]; [|done].
  pose proof (ok_record_prep_failure b id ("agent " +:+ a +:+ " restarted during preparation") Failed i eq_refl) as Hp.
  destruct (record_prep_failure _ _ _ i) as [i1 recorded]. simpl in Hp. etrans; [exact Hp|].
  destruct recorded; [done|]. destruct (_ || _); [done|].
  etrans; [apply (ok_upd_core _ id (fun r => set_r_lost ({[a]} ∪ r_lost r) r)); by intros []|].
  destruct (on_agent_loss (r_spec run)); [apply ok_check_completion|].
  etrans; [apply ok_abort_reason|].
  case_match; [|done]. etrans; [|by apply ok_finalize]. by apply ok_send_all.
Qed.

Lemma ok_replay_assignment b a id (i : Inner) : ok_step b i (replay_assignment_if_pending a id i).
Proof. unfold replay_assignment_if_pending. repeat case_match; try done. apply ok_send_assignment. Qed.

Lemma ok_resume_run b a id (i : Inner) : ok_step b i (resume_run a id i).
Proof.
  unfold resume_run. destruct (runs i !! id) as [run|] eqn:Hrun; [|apply ok_kill_agent_run].
  destruct (negb _); [done|]. destruct (_ || _); [apply ok_kill_agent_run|].
  set (i1 := upd_run id _ i).
  assert (ok_step b i i1) as H1 by (apply ok_upd_core; by intros []).
  etrans; [exact H1|].
  destruct (phases (r_prep run) !! a) as [[]|]; [apply ok_send_assignment| |done].
  destruct (r_start_unix_ms run) as [t|] eqn:Ht; [|done].
  destruct (agent_sender i1 a) as [sd|]; [|done]. intros Hok.
  refine (ok_outbox b i1 _ _ Hok). constructor; [|constructor]. unfold start_sent. simpl.
  assert (runs i1 !! id = Some (set_r_lost (r_lost run ∖ {[a]}) run)) as Hi1
    by (subst i1; unfold upd_run; simpl; by rewrite lookup_alter_eq, Hrun).
  pose proof (ro_id _ _ (io_runs _ Hok _ _ Hi1)) as Hid. simpl in Hid. rewrite Hid. eauto.
Qed.

Lemma ok_register b c reg peer sn (i : Inner) :
  sn <= session_counter i -> ok_step b i (register_agent c reg peer sn sn i).
Proof.
  intros Hsn. unfold register_agent.
  destruct (register_entry _ _ _ _ _ _) as [[entry restarted] followup] eqn:Hre.
  set (id := reg_agent_id reg) in *. set (i1 := set_agents _ i).
  assert (ok_step b i i1) as H1.
  { intros [Hr Ha Hs Ho]. split; [|by intros id' r Hid; exists r].
    assert (a_session entry = sn /\ a_sender entry = sn
            /\ (a_active_run entry = None \/ a_active_run entry = agents i !! id ≫= a_active_run)) as (E1 & E2 & E3).
    { unfold register_entry in Hre. destruct (agents i !! id ≫= a_active_run); [|by simplify_eq; simpl; auto].
      repeat case_match; simplify_eq; simpl; auto. }
    split; try done; simpl.
    - intros a e id' Hae Hact. apply lookup_insert_Some in Hae as [[<- <-]|[_ ?]]; [|eauto].
      destruct E3 as [E3|E3]; rewrite E3 in Hact; [done|].
      destruct (agents i !! id) as [p|] eqn:Hp; [|done]. by eapply Ha.
    - intros a e Hae. apply lookup_insert_Some in Hae as [[<- <-]|[_ ?]]; [|eauto]. by rewrite E1, E2. }
  etrans; [exact H1|].
  set (i2 := match agents i !! id with Some previous => send (a_sender previous) _ i1 | None => i1 end).
  assert (ok_step b i1 i2) as H2 by (subst i2; case_match; [by apply ok_send|done]).
  etrans; [exact H2|].
  set (i3 := match followup with FNone => i2 | TerminateParticipation r => _ | MaybeReplayAssignment r => _ end).
  assert (ok_step b i2 i3) as H3
    by (subst i3; case_match; [done|apply ok_terminate_participation|apply ok_replay_assignment]).
  etrans; [exact H3|]. repeat case_match; try done; apply ok_resume_run.
Qed.

Lemma ok_admit b c a sn q (i : Inner) : ok_step b i (admit_message c a sn q i).1.
Proof.
  unfold admit_message. destruct (agents i !! a) as [e|]; [|done]. destruct (negb _); [done|].
  etrans; [apply (ok_upd_agent _ a (set_a_last_heartbeat (instant c))); by intros []|].
  destruct (Z.eqb q 0); [simpl; case_match; [by apply ok_send|done]|].
  destruct (Z.leb q (a_last_seq e)); [by apply ok_send|]. cbn [fst].
  etrans; [apply (ok_upd_agent _ a (set_a_last_seq q)); by intros []|]. by apply ok_send.
Qed.

Lemma ok_apply_metrics b a batch (i : Inner) : ok_step b i (apply_metrics delta_of_json a batch i).
Proof.
  unfold apply_metrics. destruct (runs i !! mb_run_id batch) as [run|] eqn:Hrun; [|done].
  destruct (delta_of_json _) as [delta|]; [|done].
  destruct (is_terminal (r_state run)) eqn:Ht; [done|]. apply ok_upd_run.
  intros r Hr Hok. rewrite Hrun in Hr. injection Hr as <-. set (run' := merge_agent_delta a _ run).
  assert (r_spec run' = r_spec run /\ r_state run' = r_state run /\ r_prep run' = r_prep run
    /\ r_start_unix_ms run' = r_start_unix_ms run /\ r_started_ms run' = r_started_ms run
    /\ r_finished_ms run' = r_finished_ms run /\ r_merged_summary run' = r_merged_summary run
    /\ r_pending_controls run' = r_pending_controls run)
    as (E1 & E2 & E3 & E4 & E5 & E6 & E7 & E8) by (subst run'; unfold merge_agent_delta; by destruct (_ || _)).
  destruct Hok. split_and!; [| |by rewrite E2].
  { by split; unfold controls_ok; rewrite ?E1, ?E2, ?E3, ?E4, ?E5, ?E6, ?E7, ?E8. }
  split; rewrite ?E1, ?E2, ?E3, ?E4; auto. by rewrite Ht.
Qed.

Lemma ok_apply_control_ack b a ca (i : Inner) : ok_step b i (apply_control_ack a ca i).
Proof.
  unfold apply_control_ack. destruct (runs i !! ca_run_id ca) as [run|] eqn:Hrun; [|done].
  destruct (r_pending_controls run !! ca_command_id ca) as [p|] eqn:Hp; [|done].
  case_bool_decide as Hexp; [|done]. destruct (_ && _ && _); [|done].
  apply ok_upd_core_controls. intros r Hr. rewrite Hrun in Hr. injection Hr as <-. split; [done|].
  intros Hc cmd p' Hp'. simpl in Hp'. apply lookup_insert_Some in Hp' as [[<- <-]|[_ ?]]; [|by eapply Hc].
  simpl. specialize (Hc _ _ Hp). rewrite dom_insert_L. set_solver.
Qed.

Lemma ok_assignment_ready b a ar (i : Inner) : ok_step b i (handle_assignment_ready a ar i).
Proof.
  unfold handle_assignment_ready.
  destruct (runs i !! ar_run_id ar) as [run|] eqn:Hrun; [|apply ok_kill_agent_run].
  case_bool_decide as Hpos; simpl; [|done].
  destruct (is_terminal (r_state run)) eqn:Ht; [apply ok_kill_agent_run|]. apply ok_upd_run.
  intros r Hr []. rewrite Hrun in Hr. injection Hr as <-.
  assert (a ∈ assigned (r_spec run)) as Hin by (apply position_is_Some; eauto).
  split_and!; [| |done].
  - split; simpl; auto.
    + intros a'. rewrite lookup_insert_is_Some, ro_phases0.
      split; [by intros [->|[_ ?]]|]. intros ?. destruct (decide (a = a')); auto.
    + intros Hst a' Ha'. destruct (decide (a = a')) as [->|Hne]; [by rewrite lookup_insert_eq|].
      rewrite lookup_insert_ne by done. auto.
  - split; simpl; auto; [by rewrite Ht|]. intros a' Ha'.
    destruct (decide (a = a')) as [->|Hne]; [by rewrite lookup_insert_eq|]. by rewrite lookup_insert_ne.
Qed.

Lemma note_terminal_event_core a ev (r : ControllerRun) :
  core (note_terminal_event summary_of_json a ev r) = core r
  /\ r_pending_controls (note_terminal_event summary_of_json a ev r) = r_pending_controls r.
Proof. unfold note_terminal_event. by repeat case_match. Qed.

Lemma ok_handle_run_event b c a ev (i : Inner) : ok_step b i (handle_run_event summary_of_json c a ev i).
Proof.
  unfold handle_run_event. destruct (runs i !! ev_run_id ev) as [run|] eqn:Hrun; [|done].
  case_bool_decide.
  - apply ok_upd_run. intros r _ Hok. case_bool_decide as Hp; [|by split_and!]. destruct Hok.
    rewrite Hp in *. split_and!; [by split| |done].
    split; simpl; auto. by rewrite Hp.
  - case_bool_decide; [by apply ok_record_prep_failure|]. destruct (is_terminal_kind _); [|done].
    etrans; [apply ok_upd_core, note_terminal_event_core|apply ok_check_completion].
Qed.

Lemma ok_apply_agent_message b c a m (i : Inner) :
  ok_step b i (apply_agent_message delta_of_json summary_of_json c a m i).
Proof.
  destruct m as [[]|]; simpl; try done.
  - apply ok_upd_agent. by intros [].
  - apply ok_apply_metrics.
  - apply ok_handle_run_event.
  - apply ok_apply_control_ack.
  - apply ok_assignment_ready.
Qed.

Lemma ok_handle_agent_message b c a sn m (i : Inner) :
  ok_step b i (handle_agent_message delta_of_json summary_of_json c a sn m i).1.
Proof.
  unfold handle_agent_message. pose proof (ok_admit b c a sn (seq m) i) as Ha.
  destruct (admit_message c a sn (seq m) i) as [i1 []]; simpl in *; try done.
  etrans; [exact Ha|]. apply ok_apply_agent_message.
Qed.

Lemma ok_mark_disconnected b a sn (i : Inner) : ok_step b i (mark_disconnected a sn i).
Proof. apply ok_upd_agent. intros []. by case_match. Qed.

Lemma ok_session b c peer first (i : Inner) :
  0 <= session_counter i < u64_max -> ok_step b i (session c peer first i).1.
Proof.
  intros Hc. unfold session. repeat case_match; try done. cbn [fst].
  rewrite u64_add_small by (unfold is_u64, u64_max in *; lia).
  etrans; [|apply ok_register; simpl; lia].
  etrans; [by apply (ok_send _ (session_counter i + 1) (Ok (CRegistered (controller_id i) PROTOCOL_VERSION
                       ("welcome " +:+ reg_agent_name r))))|].
  intros [Hr Ha Hs Ho]. split; [|by intros id' r' Hid; exists r']. split; try done.
  simpl. intros a' e Hae. destruct (Hs a' e Hae). simpl in *. lia.
Qed.

Lemma mark_lost_core newly (r : ControllerRun) :
  core (foldl mark_lost r newly) = core r
  /\ r_pending_controls (foldl mark_lost r newly) = r_pending_controls r.
Proof.
  revert r. induction newly as [|x l IH]; intros r; [done|]. simpl. by destruct (IH (mark_lost r x)) as [-> ->].
Qed.

Lemma ok_sweep_run b c lost id (i : Inner) : ok_step b i (sweep_run c lost id i).1.
Proof.
  unfold sweep_run. destruct (runs i !! id) as [run|]; [|done].
  destruct (is_terminal (r_state run)); [done|].
  destruct (newly_lost lost run) as [|x l]; [done|]. set (newly := x :: l).
  set (reason := "agent(s) lost during preparation: " +:+ _). set (i1 := upd_run id _ i).
  etrans; [apply (ok_upd_core b id (fun r => foldl mark_lost r newly)), mark_lost_core|]. fold i1.
  pose proof (ok_record_prep_failure b id reason Failed i1 eq_refl) as Hp.
  destruct (record_prep_failure id reason Failed i1) as [i2 recorded]. simpl in Hp.
  etrans; [exact Hp|]. destruct recorded; [done|].
  destruct (on_agent_loss (r_spec run)); [apply ok_check_completion|].
  set (i3 := upd_run id (set_abort_reason_once _) i2).
  etrans; [instantiate (1 := i3); apply ok_abort_reason|]. destruct (runs i3 !! id); [|done]. by apply ok_send_all.
Qed.

Lemma ok_publish b c id (i : Inner) : ok_step b i (publish_live_snapshot c id i).
Proof.
  unfold publish_live_snapshot. destruct (runs i !! id) as [run|] eqn:Hrun; [|done].
  destruct (is_terminal (r_state run)) eqn:Ht; [done|]. apply ok_upd_run. intros r Hr [].
  rewrite Hrun in Hr. injection Hr as <-. unfold publish.
  destruct (evaluate_all _ _ _ _). destruct (snapshot _ _ _). split_and!; [by split| |done].
  split; simpl; auto. by rewrite Ht.
Qed.

Lemma ok_view b c id (i : Inner) : ok_step b i (run_metrics_view c id i).1.
Proof.
  unfold run_metrics_view. destruct (runs i !! id) as [run|]; [|done].
  destruct (cumulative_snapshot _ _ _) as [detailed agg].
  repeat case_match; try done; apply ok_upd_core; by intros [].
Qed.

Lemma ok_control_begin b id action scenario total delivered (i : Inner) :
  ok_step b i (control_begin id action scenario total delivered i).1.
Proof.
  unfold control_begin. destruct (runs i !! id) as [run|]; [|done].
  set (p := if is_stop action then _ else _).
  assert (ok_step b i p.1) as Hp by (subst p; destruct (is_stop action); [by apply ok_record_prep_failure|done]).
  destruct p as [i1 recorded]. simpl in Hp. etrans; [exact Hp|]. clear Hp.
  destruct recorded; [done|]. destruct (_ && _); [done|]. case_bool_decide; [done|].
  destruct (_ && _); [done|]. cbn [fst].
  set (i2 := set_control_counter _ i1). etrans; [instantiate (1 := i2)|].
  { intros [Hr Ha Hs Ho]. split; [by split|]. intros id' r Hid. by exists r. }
  set (i3 := upd_run id _ i2).
  etrans; [instantiate (1 := i3); apply ok_upd_core_controls; intros r _; split; [done|]|].
  { intros Hc cmd p Hp. simpl in Hp. apply lookup_insert_Some in Hp as [[_ <-]|[_ ?]]; [|by eapply Hc].
    simpl. intros x. rewrite dom_list_to_map_L, !elem_of_list_to_set, <- list_fmap_compose.
    intros (t & -> & Ht)%list_elem_of_fmap. apply list_elem_of_filter in Ht as [_ Ht].
    change (t.1 ∈ (run_senders i1 run).*1). by apply list_elem_of_fmap_2. }
  apply ok_outbox. apply Forall_forall. intros o Ho. apply elem_of_lookup_imap in Ho as (n & t & -> & _). done.
Qed.

Lemma ok_forget_control b id cmd (i : Inner) :
  ok_step b i (upd_run id (fun r => set_r_pending_controls (delete cmd (r_pending_controls r)) r) i).
Proof.
  apply ok_upd_core_controls. intros r _. split; [done|]. intros Hc cmd' p Hp. simpl in Hp.
  apply lookup_delete_Some in Hp as [_ Hp]. by eapply Hc.
Qed.

Lemma ok_control_finish b id action cmd (i : Inner) : ok_step b i (control_finish id action cmd i).1.
Proof.
  unfold control_finish. destruct (runs i !! id) as [run|]; [|done].
  set (i1 := upd_run id _ i).
  etrans; [instantiate (1 := i1); apply ok_forget_control|].
  destruct (control_failures _).
  - destruct (is_pause action); [apply ok_upd_core; by intros []|].
    destruct (is_stop action); [|done]. apply ok_upd_run. intros r _ Hok.
    destruct (is_terminal (r_state r)) eqn:Ht; [by split_and!|]. destruct Hok.
    split_and!; [|split; simpl; auto; congruence|done].
    split; simpl; auto; [|done]. by rewrite <- ro_terminal0, Ht.
  - apply ok_upd_core. intros r. unfold set_paused. by case_match.
Qed.

Lemma ok_control_timeout b id action cmd (i : Inner) : ok_step b i (control_timeout id action cmd i).1.
Proof.
  unfold control_timeout. destruct (runs i !! id) as [run|]; [|done]. cbn [fst].
  etrans; [|apply ok_upd_core; intros r; unfold set_paused; by case_match].
  apply ok_forget_control.
Qed.

(** *** The barrier *)

Lemma all_ready_spec id (r : ControllerRun) (a : string) :
  run_ok id r -> all_ready r = true -> a ∈ assigned (r_spec r) -> phases (r_prep r) !! a = Some ReadyPhase.
Proof.
  intros Hok Hall Ha. apply (ro_phases _ _ Hok) in Ha as [p Hp]. rewrite Hp. f_equal.
  unfold all_ready in Hall. rewrite List.forallb_forall in Hall.
  specialize (Hall p). case_bool_decide; [done|]. discriminate Hall.
  apply list_elem_of_In, list_elem_of_fmap. exists (a, p). split; [done|]. by apply elem_of_map_to_list.
Qed.

Lemma ok_barrier_check c ms id (i : Inner) :
  (forall r, runs i !! id = Some r -> r_start_unix_ms r = None) ->
  ok_step true i (barrier_check c ms id i).1.
Proof.
  intros Hst. unfold barrier_check. destruct (runs i !! id) as [run|] eqn:Hrun; [|done].
  destruct (is_terminal (r_state run)) eqn:Ht; [done|].
  destruct (failure (r_prep run)) as [[? ?]|] eqn:Hf; [done|].
  destruct (all_ready run) eqn:Hall; [|done]. cbn [fst]. apply ok_upd_run. intros r Hr Hok.
  rewrite Hrun in Hr. injection Hr as <-.
  pose proof (fun a => all_ready_spec id run a Hok Hall) as Hready. destruct Hok.
  split_and!; [| |done].
  - split; simpl; auto; try done; [|by rewrite Hf]. by rewrite <- ro_terminal0, Ht.
  - split; simpl; auto; try done. by rewrite Ht.
Qed.

Lemma ok_barrier_act b id d (i : Inner) :
  (forall t r, d = Started t -> runs i !! id = Some r -> r_start_unix_ms r = Some t) ->
  ok_step b i (barrier_act id d i).1.
Proof.
  intros Hd. unfold barrier_act. destruct (runs i !! id) as [run|] eqn:Hrun; [|done].
  destruct d as [t|reason v|]; [| |done]; cbn [fst].
  - intros Hok. refine (ok_outbox b i _ _ Hok). apply Forall_fmap, Forall_forall. intros tg _.
    unfold start_sent. simpl. rewrite (ro_id _ _ (io_runs _ Hok _ _ Hrun)). eauto.
  - etrans; [apply ok_abort_reason|]. by apply ok_send_all.
Qed.

(** *** Submission *)

(** What reservation leaves: entries unchanged, or reserved for the new run and listed. *)
Definition reserved_inv (i : Inner) (id : string) (ags : gmap string AgentEntry)
    (sel : list (string * AgentSender)) : Prop :=
  (forall a e', ags !! a = Some e' ->
     exists e, agents i !! a = Some e
       /\ (e' = e \/ e' = set_a_active_run (Some id) e /\ a_active_run e = None /\ a ∈ sel.*1))
  /\ (forall a s, (a, s) ∈ sel -> exists e, agents i !! a = Some e /\ a_active_run e = None /\ s = a_sender e
                                          /\ ags !! a = Some (set_a_active_run (Some id) e))
  /\ (forall a e, agents i !! a = Some e -> a ∉ sel.*1 -> ags !! a = Some e).

(** The agents a submission takes: matching and not reserved. *)
Definition pickable (c : Clock) (i : Inner) (flt : option (gmap string string)) (e : AgentEntry) : Prop :=
  matches_request c i flt e = true /\ a_active_run e = None.

Lemma reserved_inv_insert (i : Inner) id ags sel (a : string) (e : AgentEntry) :
  agents i !! a = Some e -> a_active_run e = None -> a ∉ sel.*1 -> reserved_inv i id ags sel ->
  reserved_inv i id (<[a := set_a_active_run (Some id) e]> ags) (sel ++ [(a, a_sender e)]).
Proof using Type.
  clear delta_of_json summary_of_json humantime_parse_duration load_str.
  intros Hae Hact Hnew (Hi1 & Hi2 & Hi3). unfold reserved_inv. rewrite fmap_app. simpl. split_and!.
  - intros a' e' Ha'. apply lookup_insert_Some in Ha' as [[<- <-]|[Hne Ha']].
    + exists e. split; [done|]. right. split_and!; try done. set_solver.
    + destruct (Hi1 a' e' Ha') as (e0 & He0 & [->|(-> & ? & ?)]); exists e0; split; auto.
      right. split_and!; try done. set_solver.
  - intros a' s' [Hin|Hin]%elem_of_app.
    + destruct (Hi2 a' s' Hin) as (e0 & ? & ? & ? & ?). exists e0. split_and!; try done.
      rewrite lookup_insert_ne; [done|]. intros ->. apply Hnew. apply list_elem_of_fmap. by exists (a', s').
    + apply list_elem_of_singleton in Hin as [= -> ->]. exists e. by rewrite lookup_insert_eq.
  - intros a' e' Ha' Hn. rewrite elem_of_app, list_elem_of_singleton in Hn.
    rewrite lookup_insert_ne by naive_solver. apply Hi3; naive_solver.
Qed.

Lemma reserve_fold c (i : Inner) flt id (l : list (string * AgentEntry)) ags m sel ags' m' sel' :
  (forall a e, (a, e) ∈ l -> agents i !! a = Some e) ->
  NoDup (sel.*1 ++ l.*1) -> reserved_inv i id ags sel ->
  foldl (reserve_one c i flt id) (ags, m, sel) l = (ags', m', sel') ->
  NoDup (sel'.*1) /\ reserved_inv i id ags' sel'
  /\ sel' = sel ++ ((fun kv => (kv.1, a_sender kv.2)) <$> filter (fun kv => pickable c i flt kv.2) l)
  /\ m' = m + Z.of_nat (length (filter (fun kv => matches_request c i flt kv.2 = true) l)).
Proof using Type.
  clear delta_of_json summary_of_json humantime_parse_duration load_str.
  revert ags m sel. induction l as [|[a e] l IH]; intros ags m sel Hl Hnd Hinv; simpl.
  - intros [= <- <- <-]. rewrite !app_nil_r in *. split_and!; try done. simpl. lia.
  - assert (agents i !! a = Some e) as Hae by (apply Hl; by left).
    assert (forall x y, (x, y) ∈ l -> agents i !! x = Some y) as Hl' by (intros; apply Hl; by right).
    apply NoDup_app in Hnd as (Hnd1 & Hnd2 & Hnd3). simpl in Hnd3. apply NoDup_cons in Hnd3 as [Hnd3 Hnd4].
    assert (NoDup (sel.*1 ++ l.*1)) as Hskip.
    { apply NoDup_app. split_and!; try done. intros x Hx Hx'. apply (Hnd2 x Hx). by right. }
    destruct (matches_request c i flt e) eqn:Hm; simpl.
    2:{ rewrite !filter_cons_False by (unfold pickable; simpl; rewrite Hm; naive_solver). by apply IH. }
    rewrite (filter_cons_True (fun kv => matches_request c i flt kv.2 = true)) by done.
    destruct (a_active_run e) as [r|] eqn:Hact; intros Hfold.
    { rewrite filter_cons_False by (unfold pickable; simpl; rewrite Hact; naive_solver).
      destruct (IH _ _ _ Hl' Hskip Hinv Hfold) as (? & ? & ? & ->). split_and!; try done. simpl. lia. }
    rewrite filter_cons_True by done.
    destruct (IH (<[a := set_a_active_run (Some id) e]> ags) (m + 1) (sel ++ [(a, a_sender e)]))
      as (? & ? & -> & ->); [exact Hl'| | |exact Hfold|].
    + rewrite fmap_app. simpl. rewrite <- app_assoc. simpl. apply NoDup_app. split_and!; try done.
      by apply NoDup_cons.
    + apply reserved_inv_insert; [done|done| |done]. intros Hin. apply (Hnd2 a Hin). by left.
    + split_and!; try done; [by rewrite <- app_assoc|]. simpl. lia.
Qed.

Lemma reserve_agents_spec c flt id (i i' : Inner) res :
  reserve_agents c flt id i = (i', res) ->
  exists ags sel, i' = set_agents ags i /\ NoDup (sel.*1) /\ reserved_inv i id ags sel
    /\ (forall a, a ∈ sel.*1 <-> exists e, agents i !! a = Some e /\ pickable c i flt e)
    /\ match res with
       | Ok l => l = sel /\ sel <> []
       | Err e =>
           sel = []
           /\ (e = AgentsBusy /\ (exists a en, agents i !! a = Some en /\ matches_request c i flt en = true)
               \/ e = NoAgents /\ (forall a en, agents i !! a = Some en -> matches_request c i flt en = false))
       end.
Proof using Type.
  clear delta_of_json summary_of_json humantime_parse_duration load_str.
  unfold reserve_agents. destruct (foldl _ _ _) as [[ags m] sel] eqn:Hf.
  apply reserve_fold in Hf as (Hnd & Hinv & Hsel & Hm).
  - intros Hres. exists ags, sel.
    assert (forall a, a ∈ sel.*1 <-> exists e, agents i !! a = Some e /\ pickable c i flt e) as Hin.
    { intros a. rewrite Hsel. simpl. rewrite list_elem_of_fmap. split.
      - intros ([a' s] & -> & ([a0 e] & [= -> ->] & Hfi)%list_elem_of_fmap).
        apply list_elem_of_filter in Hfi as [Hp Hl]. exists e. split; [|done]. by apply elem_of_map_to_list.
      - intros (e & He & Hp). exists (a, a_sender e). split; [done|].
        apply list_elem_of_fmap. exists (a, e). split; [done|]. apply list_elem_of_filter.
        split; [done|]. by apply elem_of_map_to_list. }
    case_bool_decide as Hn; injection Hres as <- <-; split_and!; try done.
    set (ms := filter _ _) in Hm. destruct ms as [|[a e] ms'] eqn:Hms; simpl in Hm.
    + right. rewrite (proj2 (Z.ltb_nlt 0 m)) by lia. split; [done|]. intros a en Ha.
      destruct (matches_request c i flt en) eqn:Hmt; [|done].
      assert ((a, en) ∈ ms) as Hbad; [|rewrite Hms in Hbad; by apply not_elem_of_nil in Hbad].
      apply list_elem_of_filter. split; [done|]. by apply elem_of_map_to_list.
    + left. rewrite (proj2 (Z.ltb_lt 0 m)) by lia. split; [done|].
      assert ((a, e) ∈ ms) as Hin' by (rewrite Hms; by left).
      apply list_elem_of_filter in Hin' as [Hmt Hl]. exists a, e. split; [|done].
      by apply elem_of_map_to_list.
  - intros a e Hin. by apply elem_of_map_to_list.
  - simpl. apply NoDup_fst_map_to_list.
  - split_and!; [|intros a s Hin; by apply not_elem_of_nil in Hin|done]. intros a e Ha. exists e. auto.
Qed.

Lemma new_run_ok c id plan loaded compiled opts (sel : list (string * AgentSender)) :
  NoDup (sel.*1) -> run_ok id (new_run c id plan loaded compiled opts sel).
Proof.
  intros Hnd. split; simpl; try done.
  intros a. rewrite <- elem_of_dom, dom_list_to_map_L, elem_of_list_to_set, <- list_fmap_compose.
  by rewrite (list_fmap_ext _ fst).
Qed.

Lemma ok_submit c id plan opts (i i' : Inner) res :
  runs i !! id = None ->
  submit humantime_parse_duration load_str c id plan opts i = Some (i', res) ->
  ok_step false i i'
  /\ match res with
     | Ok id' => id' = id /\ exists r, runs i' !! id = Some r /\ r_start_unix_ms r = None
     | Err _ => True
     end.
Proof.
  intros Hfresh. unfold submit. destruct (load_str _ _) as [loaded|]; [|by intros [= <- <-]].
  destruct (validate_files _) as [u|]; [|by intros [= <- <-]].
  destruct (compile_thresholds _ _) as [[compiled|]|]; [|by intros [= <- <-]|done].
  destruct (reserve_agents c _ id i) as [i1 res1] eqn:Hres.
  apply reserve_agents_spec in Hres as (ags & sel & -> & Hnd & (Hinv1 & Hinv2 & _) & _ & Hres).
  destruct res1 as [l|e].
  - destruct Hres as [-> _]. set (sel' := merge_sort _ sel). set (run := new_run _ _ _ _ _ _ sel').
    assert (sel' ≡ₚ sel) as Hperm by apply merge_sort_Permutation.
    intros [= <- <-]. split; [|split; [done|]; exists run; simpl; by rewrite lookup_insert_eq].
    intros [Hr Ha Hs Ho].
    assert (inner_evolves false i (set_runs (<[id := run]> (runs i)) i)) as He.
    { intros id' r Hid. exists r. simpl. rewrite lookup_insert_ne by congruence. done. }
    split; [|exact He]. split; simpl.
    + intros id' r Hid. apply lookup_insert_Some in Hid as [[<- <-]|[_ ?]]; [|eauto].
      apply new_run_ok. by rewrite Hperm.
    + intros a e' id' Hae Hact. destruct (Hinv1 a e' Hae) as (e & He0 & [->|(-> & _ & Hin)]).
      * destruct (Ha a e id' He0 Hact) as (r & Hid & ? & ?). exists r.
        rewrite lookup_insert_ne by congruence. done.
      * simpl in Hact. injection Hact as <-. exists run. rewrite lookup_insert_eq. split_and!; try done.
        simpl. by rewrite Hperm.
    + intros a e' Hae. destruct (Hinv1 a e' Hae) as (e & He0 & [->|(-> & _ & _)]); by apply (Hs a e).
    + apply Forall_app. split.
      * eapply Forall_impl; [exact Ho|]. intros o. by apply (start_sent_evolves false).
      * apply Forall_forall. intros o Hin. by apply elem_of_lookup_imap in Hin as (n & x & -> & _).
  - destruct Hres as [-> _]. intros [= <- <-]. split; [|done]. intros [Hr Ha Hs Ho].
    split; [|by intros id' r Hid; exists r]. split; try done; simpl.
    + intros a e' id' Hae. destruct (Hinv1 a e' Hae) as (e0 & He0 & [->|(_ & _ & Hn)]); [eauto|].
      by apply not_elem_of_nil in Hn.
    + intros a e' Hae. destruct (Hinv1 a e' Hae) as (e0 & He0 & [->|(_ & _ & Hn)]); [eauto|].
      by apply not_elem_of_nil in Hn.
Qed.

(** *** Tasks *)

Definition task_ok (i : Inner) (t : Task) : Prop :=
  match t with
  | TBarrier id _ => exists r, runs i !! id = Some r /\ r_start_unix_ms r = None
  | TAct id (Started ms) => exists r, runs i !! id = Some r /\ r_start_unix_ms r = Some ms
  | TAct _ (FailRun _ v) | TFinalize _ v => is_terminal v = true
  | _ => True
  end.

Definition barrier_id (t : Task) : option string :=
  match t with TBarrier id _ => Some id | _ => None end.

Record sys_ok (s : System) : Prop := {
  so_inner : inner_ok (inner s);
  so_tasks : Forall (task_ok (inner s)) (tasks s);
  so_barriers : NoDup (omap barrier_id (tasks s));
}.

Lemma task_ok_evolves (i i' : Inner) (t : Task) :
  inner_evolves false i i' -> task_ok i t -> task_ok i' t.
Proof.
  intros He. destruct t as [| id ms|id [ms| |]| | | | |]; simpl; try done; intros (r & Hr & Hs);
    destruct (He id r Hr) as (r' & Hr' & Hev); exists r'; split; try done;
    destruct (ev_start _ _ _ Hev) as [->|[? _]]; done.
Qed.

(** A task's piece: the state stays well-formed, the other tasks stay well-formed, and
    no barrier appears from nowhere. *)
Definition piece_ok (t : Task) (i i' : Inner) (ts : list Task) : Prop :=
  inner_ok i' /\ inner_evolves true i i'
  /\ (forall u, task_ok i u -> (is_Some (barrier_id t) -> barrier_id u <> barrier_id t) -> task_ok i' u)
  /\ Forall (task_ok i') ts /\ (omap barrier_id ts = [] \/ ts = [t]).

Lemma piece_intro t (i i' : Inner) ts :
  inner_ok i -> ok_step false i i' -> Forall (task_ok i') ts ->
  omap barrier_id ts = [] \/ ts = [t] -> piece_ok t i i' ts.
Proof.
  intros Hi Hs Hts Hb. destruct (ok_step_weaken true i i' Hs Hi) as [? ?]. destruct (Hs Hi) as [? He].
  split_and!; try done. intros u Hu _. by apply (task_ok_evolves i).
Qed.

Lemma barrier_check_piece c ms id (i i' : Inner) d :
  inner_ok i -> task_ok i (TBarrier id ms) -> barrier_check c ms id i = (i', d) ->
  piece_ok (TBarrier id ms) i i' (match d with Some d => [TAct id d] | None => [TBarrier id ms] end).
Proof.
  intros Hi (r & Hr & Hst) Hc.
  destruct (ok_barrier_check c ms id i) as [Hi' He]; [intros r' Hr'; by simplify_eq|done|].
  rewrite Hc in Hi', He. simpl in Hi', He.
  assert (forall id', id' <> id -> runs i' !! id' = runs i !! id') as Hother.
  { intros id' Hne. unfold barrier_check in Hc. repeat case_match; simplify_eq; try done.
    simpl. by rewrite lookup_alter_ne. }
  split_and!; try done.
  - intros u Hu Hne. simpl in Hne. destruct u as [|id' ms'|id' [ms'| |]| | | | |]; simpl in *; try done.
    + rewrite Hother; [done|]. intros ->. by apply Hne.
    + destruct Hu as (r' & Hr' & Hs'). destruct (decide (id' = id)) as [->|Hn]; [|rewrite Hother by done; eauto].
      simplify_eq.
  - unfold barrier_check in Hc. rewrite Hr in Hc. destruct (is_terminal (r_state r)); [by simplify_eq; repeat constructor|].
    destruct (failure (r_prep r)) as [[reason v]|] eqn:Hf.
    { simplify_eq. constructor; [|done]. by destruct (ro_failure _ _ (io_runs _ Hi _ _ Hr) _ _ Hf). }
    destruct (all_ready r); simplify_eq; (constructor; [|done]); simpl.
    + rewrite lookup_alter_eq, Hr. simpl. by eexists.
    + eauto.
  - destruct d; auto.
Qed.

Lemma task_step_ok c t (i i' : Inner) ts :
  inner_ok i -> task_ok i t -> task_step c t i i' ts -> piece_ok t i i' ts.
Proof.
  intros Hi Ht Hstep. destruct Hstep as
    [a s m i i' Hm|a s m i i' Hm|a s i|id ms i i' Hb|id ms i i' d Hb|id ms i d Hb|id t i i' Hb
    |id reason v i i' Hb|id i|id v i|id i|lost id ids i i' Hs|lost id ids i i' Hs|lost id ids i|lost i
    |id action cmd i run Hrun Hcc|id action cmd i|t i].
  - pose proof (ok_handle_agent_message false c a s m i) as Ho. rewrite Hm in Ho.
    apply piece_intro; auto; by repeat constructor.
  - pose proof (ok_handle_agent_message false c a s m i) as Ho. rewrite Hm in Ho. simpl in Ho.
    apply piece_intro; auto. etrans; [exact Ho|apply ok_mark_disconnected].
  - apply piece_intro; auto. apply ok_mark_disconnected.
  - exact (barrier_check_piece c ms id i i' None Hi Ht Hb).
  - exact (barrier_check_piece c ms id i i' (Some d) Hi Ht Hb).
  - apply piece_intro; auto; [done|]. constructor; [|done].
    unfold barrier_timeout in Hb. destruct (runs i !! id); [|done]. simpl in Hb. by simplify_eq.
  - assert (ok_step false i i') as Ho.
    { pose proof (ok_barrier_act false id (Started t) i) as Ho. rewrite Hb in Ho. apply Ho.
      intros t' r [= <-] Hr. destruct Ht as (r' & Hr' & ?). by simplify_eq. }
    apply piece_intro; auto; by repeat constructor.
  - assert (ok_step false i i') as Ho.
    { pose proof (ok_barrier_act false id (FailRun reason v) i) as Ho. rewrite Hb in Ho. by apply Ho. }
    apply piece_intro; auto.
  - by apply piece_intro; auto.
  - apply piece_intro; auto. by apply ok_finalize.
  - apply piece_intro; auto; [apply ok_publish| |]; repeat case_match; auto; by repeat constructor.
  - pose proof (ok_sweep_run false c lost id i) as Ho. rewrite Hs in Ho.
    apply piece_intro; auto; by repeat constructor.
  - pose proof (ok_sweep_run false c lost id i) as Ho. rewrite Hs in Ho.
    apply piece_intro; auto; by repeat constructor.
  - apply piece_intro; auto; by apply ok_finalize.
  - by apply piece_intro; auto.
  - apply piece_intro; auto. apply ok_control_finish.
  - apply piece_intro; auto. apply ok_control_timeout.
  - by apply piece_intro; auto.
Qed.

(** A request that adds tasks [new]. *)
Lemma request_ok (i i' : Inner) (l new : list Task) :
  sys_ok (mkSystem i l) -> ok_step false i i' -> Forall (task_ok i') new ->
  NoDup (omap barrier_id (new ++ l)) ->
  sys_ok (mkSystem i' (new ++ l)) /\ inner_evolves true i i'.
Proof.
  intros [Hi Ht Hb] Ho Hnew Hnd. destruct (Ho Hi) as [Hi' He]. simpl in *.
  split; [|by apply (ok_step_weaken true i i' Ho)]. split; simpl; try done.
  apply Forall_app. split; [done|]. eapply Forall_impl; [exact Ht|]. intros u. by apply task_ok_evolves.
Qed.

Lemma step_ok (s s' : System) :
  sys_ok s -> step s s' -> sys_ok s' /\ inner_evolves true (inner s) (inner s').
Proof.
  intros Hsys Hstep. pose proof Hsys as [Hi Ht Hb]. destruct Hstep as
    [c i i' t ts l1 l2 Hts|c peer first i i' r l Hs Hc|c id plan opts i i' r l Hf Hs|c i l
    |id action scenario total delivered i i' r l Hs|c id i l]; simpl in *.
  - apply Forall_app in Ht as [Ht1 Ht2]. apply Forall_cons in Ht2 as [Htt Ht2].
    destruct (task_step_ok c t i i' ts Hi Htt Hts) as (Hi' & He & Hu & Hok & Hids). split; [|done].
    assert (forall u, u ∈ l1 \/ u ∈ l2 -> is_Some (barrier_id t) -> barrier_id u <> barrier_id t) as Hdis.
    { intros u Hu' [id Hid] Heq. rewrite Hid in Heq. rewrite omap_app, omap_cons_eq, Hid in Hb.
      apply NoDup_app in Hb as (_ & Hd & Hb). apply NoDup_cons in Hb as [Hb _].
      destruct Hu' as [Hu'|Hu'].
      - apply (Hd id); [|by left]. apply list_elem_of_omap. by exists u.
      - apply Hb, list_elem_of_omap. by exists u. }
    split; simpl; [done| |].
    + apply Forall_app. split; [|apply Forall_app; split; [done|]];
        apply Forall_forall; intros u Hin.
      * rewrite Forall_forall in Ht1. apply Hu; [by apply Ht1|]. apply Hdis. by left.
      * rewrite Forall_forall in Ht2. apply Hu; [by apply Ht2|]. apply Hdis. by right.
    + destruct Hids as [Hn| ->]; [|exact Hb]. rewrite omap_app, omap_app, Hn. simpl.
      rewrite omap_app, omap_cons_eq in Hb. destruct (barrier_id t); [|done].
      apply NoDup_app in Hb as (? & Hd & Hb2). apply NoDup_cons in Hb2 as [_ ?]. apply NoDup_app.
      split_and!; try done. intros x Hx Hx'. apply (Hd x Hx). by right.
  - pose proof (ok_session false c peer first i Hc) as Ho. rewrite Hs in Ho.
    destruct r as [[a sn]|]; [apply (request_ok i i' l [TPump a sn])|apply (request_ok i i' l [])];
      auto; by repeat constructor.
  - destruct (ok_submit c id plan opts i i' r Hf Hs) as [Ho Hr].
    destruct r as [id'|]; [|apply (request_ok i i' l []); auto].
    destruct Hr as [-> Hr]. apply (request_ok i i' l [TBarrier id _]); auto. simpl. apply NoDup_cons.
    split; [|done]. intros Hin. apply list_elem_of_omap in Hin as (u & Hu & Hid). destruct u; try done.
    simpl in Hid. injection Hid as ->. rewrite Forall_forall in Ht. destruct (Ht _ Hu) as (r0 & Hr0 & _).
    congruence.
  - apply (request_ok i i l [TSweep _ _]); auto; [done|]. by repeat constructor.
  - pose proof (ok_control_begin false id action scenario total delivered i) as Ho. rewrite Hs in Ho.
    destruct r as [cmd|]; [apply (request_ok i i' l [TControl id action cmd])|apply (request_ok i i' l [])];
      auto; by repeat constructor.
  - apply (request_ok i _ l []); auto. apply ok_view.
Qed.

Lemma steps_ok (s s' : System) :
  sys_ok s -> rtc step s s' -> sys_ok s' /\ inner_evolves true (inner s) (inner s').
Proof.
  intros Hs Hr. revert Hs. induction Hr as [s|s1 s2 s3 H12 _ IH]; intros Hs; [done|].
  destruct (step_ok _ _ Hs H12) as [Hs2 He]. destruct (IH Hs2) as [Hs3 He']. split; [done|]. by etrans.
Qed.

Lemma reachable_sys_ok controller live (s : System) : reachable controller live s -> sys_ok s.
Proof.
  intros Hr. apply (steps_ok (start_system controller live)); [|done]. split; simpl; [|done|constructor].
  split; simpl; try done; intros *; by rewrite lookup_empty.
Qed.

(** ** Properties *)

(** C10: in every reachable state of the controller a run has settled exactly when its
    fleet summary has been published and its end recorded, a run that has a start
    time has every assigned agent ready and no preparation failure, and every agent
    of the partition, and no other, has a preparation phase. *)
Theorem run_lifecycle controller live (s : System) (id : string) (r : ControllerRun) :
  reachable controller live s -> runs (inner s) !! id = Some r ->
  (is_terminal (r_state r) = true <-> is_Some (run_summary id (inner s)))
  /\ (is_terminal (r_state r) = true <-> is_Some (r_finished_ms r))
  /\ (is_Some (r_start_unix_ms r) ->
      r_state r <> Pending /\ failure (r_prep r) = None
      /\ forall a, a ∈ assigned (r_spec r) -> phases (r_prep r) !! a = Some ReadyPhase)
  /\ (forall a, is_Some (phases (r_prep r) !! a) <-> a ∈ assigned (r_spec r)).
Proof.
  intros Hs Hr. apply reachable_sys_ok in Hs as [Hi _ _]. destruct (io_runs _ Hi _ _ Hr). split_and!.
  - unfold run_summary. rewrite Hr. simpl. destruct (is_terminal (r_state r)); [tauto|].
    split; [done|]. by intros [? ?].
  - by rewrite ro_terminal0, ro_finished0.
  - intros Hst. split_and!; [|destruct (failure (r_prep r)) as [[? ?]|] eqn:Hf; [|done]|auto].
    + intros Hp. rewrite (ro_pending0 Hp) in Hst. by destruct Hst.
    + destruct (ro_failure0 _ _ eq_refl) as [_ Hn]. rewrite Hn in Hst. by destruct Hst.
  - done.
Qed.

(** C4: settling is final and freezes the result: whatever happens after a run is
    terminal, its state, fleet summary, end, start, contributing agents, threshold
    verdicts and timeline never change again, and the summary served for it is the
    same. *)
Theorem terminal_run_frozen controller live (s s' : System) (id : string) (r : ControllerRun) :
  reachable controller live s -> rtc step s s' ->
  runs (inner s) !! id = Some r -> is_terminal (r_state r) = true ->
  exists r', runs (inner s') !! id = Some r' /\ core r' = core r
    /\ run_summary id (inner s') = run_summary id (inner s) /\ is_Some (run_summary id (inner s)).
Proof.
  intros Hs Hst Hr Ht. apply reachable_sys_ok in Hs as Hok.
  destruct (steps_ok _ _ Hok Hst) as [_ He]. destruct (He id r Hr) as (r' & Hr' & Hev).
  pose proof (ev_frozen _ _ _ Hev Ht) as Hc. exists r'. split_and!; try done.
  - unfold run_summary. rewrite Hr, Hr'. simpl. unfold core in Hc. injection Hc as E1 E2 E3 E4 E5 E6 E7 E8 E9 E10.
    by rewrite E2, E8.
  - unfold run_summary. rewrite Hr. simpl. rewrite Ht. apply (ro_terminal _ _ (io_runs _ (so_inner _ Hok) _ _ Hr)).
    done.
Qed.

(** C11: no reservation leaks: an agent is only ever reserved for a run that exists,
    has not settled, and has the agent in its partition. *)
Theorem reservation_sound controller live (s : System) (a id : string) (e : AgentEntry) :
  reachable controller live s -> agents (inner s) !! a = Some e -> a_active_run e = Some id ->
  exists r, runs (inner s) !! id = Some r /\ is_terminal (r_state r) = false /\ a ∈ assigned (r_spec r).
Proof. intros Hs. apply reachable_sys_ok in Hs as [[_ Ha _ _] _ _]. apply Ha. Qed.

(** C2: the start barrier: every start ever sent for a run, first broadcast or
    replay, carries the one start time the run committed to, and was sent only because
    every agent of the partition had reported ready. *)
Theorem start_barrier_sound controller live (s : System) (sd : AgentSender) (id : string) (t : Z) :
  reachable controller live s -> (sd, Ok (CStart id t)) ∈ outbox (inner s) ->
  exists r, runs (inner s) !! id = Some r /\ r_start_unix_ms r = Some t
    /\ forall a, a ∈ assigned (r_spec r) -> phases (r_prep r) !! a = Some ReadyPhase.
Proof.
  intros Hs Hin. apply reachable_sys_ok in Hs as [Hi _ _]. pose proof (io_outbox _ Hi) as Ho.
  rewrite Forall_forall in Ho. destruct (Ho _ Hin) as (r & Hr & Ht). exists r. split_and!; try done.
  apply (ro_start_ready _ _ (io_runs _ Hi _ _ Hr)). by rewrite Ht.
Qed.

(** A preparation failure is final: once one is recorded for a run, in no
    continuation is the run ever given a start time or a start sent for it. *)
Theorem failed_preparation_never_starts controller live (s s' : System) (id : string) (r : ControllerRun) :
  reachable controller live s -> rtc step s s' ->
  runs (inner s) !! id = Some r -> is_Some (failure (r_prep r)) ->
  (exists r', runs (inner s') !! id = Some r' /\ r_start_unix_ms r' = None)
  /\ forall sd t, (sd, Ok (CStart id t)) ∉ outbox (inner s').
Proof.
  intros Hs Hst Hr [f Hf]. apply reachable_sys_ok in Hs as Hok.
  destruct (steps_ok _ _ Hok Hst) as [[Hi' _ _] He]. destruct (He id r Hr) as (r' & Hr' & Hev).
  pose proof (ev_failure _ _ _ Hev f Hf) as Hf'. destruct f as [reason v].
  destruct (ro_failure _ _ (io_runs _ Hi' _ _ Hr') _ _ Hf') as [_ Hn]. split; [eauto|].
  intros sd t Hin. pose proof (io_outbox _ Hi') as Ho. rewrite Forall_forall in Ho.
  destruct (Ho _ Hin) as (r0 & Hr0 & Ht). congruence.
Qed.

(** *** Completion *)

Lemma all_accounted_spec (r : ControllerRun) :
  all_accounted r = true <->
  forall a, a ∈ assigned (r_spec r) -> is_Some (r_done r !! a) \/ a ∈ r_lost r.
Proof.
  unfold all_accounted. rewrite List.forallb_forall. split; intros Hall a Ha.
  - apply list_elem_of_In, Hall in Ha. apply orb_prop in Ha as [Ha|Ha]; bool_to_prop; auto.
  - apply orb_true_intro. apply list_elem_of_In, Hall in Ha as [?|?]; [left|right];
      by apply bool_decide_eq_true.
Qed.

Lemma done_values_spec (r : ControllerRun) (k : string) :
  k ∈ done_values r <-> exists a, r_done r !! a = Some k.
Proof.
  unfold done_values. rewrite list_elem_of_fmap. split.
  - intros ([a k'] & -> & Hin). exists a. by apply elem_of_map_to_list.
  - intros [a Ha]. exists (a, k). split; [done|]. by apply elem_of_map_to_list.
Qed.

Lemma check_completion_run c id (i : Inner) (r : ControllerRun) :
  runs i !! id = Some r -> is_terminal (r_state r) = false ->
  runs (check_completion c id i) !! id
  = Some (if all_accounted r then finalize c (completion_state r) r else r).
Proof.
  intros Hr Ht. unfold check_completion, finalize_run. rewrite Hr, Ht.
  destruct (all_accounted r); [|done]. rewrite ?Ht. simpl. by rewrite lookup_alter_eq, Hr.
Qed.

Lemma note_terminal_event_fields a ev (r : ControllerRun) :
  let r1 := note_terminal_event summary_of_json a ev r in
  r_done r1 = <[a := ev_kind ev]> (r_done r) /\ r_lost r1 = r_lost r
  /\ r_spec r1 = r_spec r /\ r_state r1 = r_state r.
Proof. unfold note_terminal_event. by repeat case_match. Qed.

(** A terminal report from an agent of a live run.  As long as another assigned
    agent has neither reported nor been lost, the run's state is untouched; the
    report that accounts for the last one settles the run at once, as failed if any
    agent failed, else as aborted if any was aborted, else as finished. *)
Theorem last_report_settles c a ev (i : Inner) (r : ControllerRun) :
  runs i !! ev_run_id ev = Some r -> is_terminal (r_state r) = false ->
  is_terminal_kind (ev_kind ev) = true ->
  let done' := <[a := ev_kind ev]> (r_done r) in
  exists r', runs (handle_run_event summary_of_json c a ev i) !! ev_run_id ev = Some r'
    /\ r_done r' = done'
    /\ ((exists b, b ∈ assigned (r_spec r) /\ done' !! b = None /\ b ∉ r_lost r) -> r_state r' = r_state r)
    /\ ((forall b, b ∈ assigned (r_spec r) -> is_Some (done' !! b) \/ b ∈ r_lost r) ->
        ((exists b, done' !! b = Some "failed") -> r_state r' = Failed)
        /\ ((forall b, done' !! b <> Some "failed") ->
            (exists b, done' !! b = Some "aborted") -> r_state r' = Aborted)
        /\ ((forall b, done' !! b <> Some "failed") ->
            (forall b, done' !! b <> Some "aborted") -> r_state r' = Finished)).
Proof using summary_of_json.
  clear delta_of_json humantime_parse_duration load_str.
  intros Hr Ht Hk. simpl. unfold handle_run_event. rewrite Hr.
  rewrite !bool_decide_false by (intros E; rewrite E in Hk; done). rewrite Hk.
  set (r1 := note_terminal_event summary_of_json a ev r).
  destruct (note_terminal_event_fields a ev r) as (Hd & Hl & E1 & E2). fold r1 in Hd, Hl, E1, E2.
  rewrite (check_completion_run c _ _ r1);
    [|simpl; by rewrite lookup_alter_eq, Hr|by rewrite E2].
  pose proof (all_accounted_spec r1) as Hall. rewrite E1, Hd, Hl in Hall.
  destruct (finalize_spec c (completion_state r1) r1) as (_ & F2 & _ & _ & _ & _ & _ & _ & _ & F3 & _).
  eexists. split; [done|]. split; [by destruct (all_accounted r1); rewrite ?F3|]. split.
  - intros (b & Hb & Hn & Hnl). destruct (all_accounted r1); [|done].
    destruct (proj1 Hall eq_refl b Hb) as [[? Hs]|?]; [congruence|done].
  - intros Hacc. rewrite (proj2 Hall Hacc), F2. unfold completion_state.
    rewrite (bool_decide_false (r_done r1 = ∅)) by (rewrite Hd; apply insert_non_empty).
    rewrite orb_false_r. pose proof (done_values_spec r1) as Hdv. rewrite Hd in Hdv.
    split_and!.
    + intros Hf. by rewrite bool_decide_true by by apply Hdv.
    + intros Hnf Ha. rewrite bool_decide_false by (rewrite Hdv; naive_solver).
      by rewrite bool_decide_true by by apply Hdv.
    + intros Hnf Hna. rewrite !bool_decide_false by (rewrite Hdv; naive_solver). done.
Qed.

(** *** Control commands *)

Lemma control_failures_nil (m : gmap string (result string unit)) (a : string) (x : result string unit) :
  control_failures m = [] -> m !! a = Some x -> x = Ok tt.
Proof.
  intros Hn Ha. destruct x as [[]|e]; [done|]. exfalso.
  assert (a +:+ ": " +:+ e ∈ control_failures m) as Hin; [|rewrite Hn in Hin; by apply not_elem_of_nil in Hin].
  apply list_elem_of_omap. exists (a, Err e). split; [|done]. by apply elem_of_map_to_list.
Qed.

(** A control command reports success only when it took effect everywhere: if the
    wait for a command that is still in flight ends with [Ok], every agent the
    command was sent to has acknowledged it as applied. *)
Theorem control_ok_everywhere controller live (s : System) (id action : string) (cmd : Z)
    (r : ControllerRun) (p : PendingControl) :
  reachable controller live s -> runs (inner s) !! id = Some r ->
  r_pending_controls r !! cmd = Some p -> control_complete r cmd = true ->
  (control_finish id action cmd (inner s)).2 = Ok tt ->
  forall a, a ∈ pc_expected p -> pc_responses p !! a = Some (Ok tt).
Proof.
  intros Hs Hr Hp Hc Hf a Ha. apply reachable_sys_ok in Hs as [Hi _ _].
  pose proof (ro_controls _ _ (io_runs _ Hi _ _ Hr) _ _ Hp) as Hsub.
  unfold control_complete in Hc. rewrite Hp in Hc. apply Nat.leb_le in Hc.
  unfold control_finish in Hf. rewrite Hr, Hp in Hf. simpl in Hf.
  destruct (control_failures (pc_responses p)) eqn:Hfl; [|done].
  assert (a ∈ dom (pc_responses p)) as Hd.
  { assert (dom (pc_responses p) = pc_expected p) as ->; [|done].
    apply set_subseteq_size_eq; [done|]. by rewrite size_dom. }
  apply elem_of_dom in Hd as [x Hx]. rewrite Hx. f_equal. by eapply control_failures_nil.
Qed.

(** *** Shares and submission *)

(** A scale command loses no virtual user: the shares of [total] over the
    targeted agents add up to [total], there is one per agent, no two differ by
    more than one, and with the whole fleet targeted each share fits the pool that the
    agent's own part of the scenario has ([partition_spec]). *)
Theorem scale_shares_exact (total n : Z) :
  0 < n -> is_u64 total ->
  Zsum (scale_shares total n) = total /\ length (scale_shares total n) = Z.to_nat n
  /\ Forall (fun x => total / n <= x <= total / n + 1) (scale_shares total n)
  /\ (forall m d i x, total <= m -> is_u64 m -> scale_shares total n !! i = Some x ->
        exists pool, partition_spec (ExternallyControlled m d) (Z.of_nat i) n = Some (ExternallyControlled pool d)
          /\ x <= pool).
Proof.
  intros Hn Ht. change (scale_shares total n) with (even_share total n <$> seqZ 0 n). split_and!.
  - by apply Zsum_even_shares.
  - by rewrite length_fmap, length_seqZ.
  - apply Forall_fmap, Forall_forall. intros x Hx%elem_of_seqZ. apply even_share_bounds; [lia|done|lia].
  - intros m d i x Hm Hmu Hx. apply list_lookup_fmap_Some in Hx as (y & -> & [-> Hy]%lookup_seqZ).
    unfold partition_spec. rewrite !(proj2 (Z.ltb_lt _ _)) by lia. eexists. split; [done|].
    etrans; [apply (even_share_mono total m); unfold is_u64 in *; lia|apply Z.le_max_l].
Qed.

(** Submission is atomic and exclusive.  On success the run is pending, its
    partition lists in id order exactly the agents that matched and were free, each of
    them is now reserved for this run and nobody else's entry changed, and each was sent
    its own index of the partition on its own channel.  On failure nothing changed. *)
Theorem submit_exclusive c id plan opts (i i' : Inner) res :
  submit humantime_parse_duration load_str c id plan opts i = Some (i', res) ->
  match res with
  | Ok rid =>
      rid = id
      /\ exists r, runs i' = <[id := r]> (runs i) /\ r_state r = Pending
        /\ NoDup (assigned (r_spec r)) /\ assigned (r_spec r) <> [] /\ StronglySorted str_le (assigned (r_spec r))
        /\ (forall a, a ∈ assigned (r_spec r) <->
              exists e, agents i !! a = Some e /\ pickable c i (so_agent_filter opts) e)
        /\ (forall a e, agents i !! a = Some e ->
              agents i' !! a = Some (if decide (a ∈ assigned (r_spec r)) then set_a_active_run (Some id) e else e))
        /\ exists sent, outbox i' = outbox i ++ sent
          /\ length sent = length (assigned (r_spec r))
          /\ forall k a e, assigned (r_spec r) !! k = Some a -> agents i !! a = Some e ->
               sent !! k = Some (a_sender e, Ok (CAssignment
                 (mkAssignment id plan (Z.of_nat k) (Z.of_nat (length (assigned (r_spec r))))
                    (files (r_spec r)) (env (r_spec r)))))
  | Err _ => runs i' = runs i /\ outbox i' = outbox i
             /\ forall a e, agents i !! a = Some e -> agents i' !! a = Some e
  end.
Proof using humantime_parse_duration load_str.
  clear delta_of_json summary_of_json.
  unfold submit. destruct (load_str _ _) as [loaded|]; [|by intros [= <- <-]].
  destruct (validate_files _) as [u|]; [|by intros [= <- <-]].
  destruct (compile_thresholds _ _) as [[compiled|]|]; [|by intros [= <- <-]|done].
  destruct (reserve_agents c _ id i) as [i1 res1] eqn:Hres.
  apply reserve_agents_spec in Hres as (ags & sel & -> & Hnd & (Hinv1 & Hinv2 & Hinv3) & Hin & Hres).
  destruct res1 as [l|e].
  2:{ destruct Hres as [-> _]. intros [= <- <-]. split_and!; try done. intros a en Ha.
      apply Hinv3; [done|]. apply not_elem_of_nil. }
  destruct Hres as [-> Hne]. set (le := fun a b : string * AgentSender => str_le a.1 b.1).
  set (sel' := merge_sort le sel).
  assert (sel' ≡ₚ sel) as Hperm by apply merge_sort_Permutation.
  intros [= <- <-]. split; [done|]. eexists. split; [done|]. simpl. split_and!; try done.
  - by rewrite Hperm.
  - intros Hnil. apply fmap_nil_inv in Hnil. rewrite Hnil in Hperm. by apply Permutation_nil_l in Hperm.
  - assert (StronglySorted le sel') as Hss.
    { assert (Transitive le) by (intros x y z; apply str_le_trans).
      assert (Total le) by (intros x y; apply str_le_total). apply (StronglySorted_merge_sort le). }
    clear -Hss. induction Hss as [|x l _ IH Hf]; simpl; constructor; [done|]. apply Forall_fmap.
    eapply Forall_impl; [exact Hf|]. done.
  - intros a. by rewrite Hperm, Hin.
  - intros a e Ha. case_decide as Hd.
    + rewrite Hperm in Hd. apply list_elem_of_fmap in Hd as ([a' sd] & -> & Hsel).
      destruct (Hinv2 _ _ Hsel) as (e' & He' & _ & _ & Hags). simpl in *. by simplify_eq.
    + apply Hinv3; [done|]. by rewrite <- Hperm.
  - eexists. split; [done|]. split; [unfold assignments; by rewrite length_imap, length_fmap|].
    intros k a e Hk Ha. unfold assignments. rewrite list_lookup_imap. rewrite list_lookup_fmap in Hk.
    apply fmap_Some in Hk as ([a' sd] & Hk & ->). rewrite Hk. simpl in *. rewrite length_fmap.
    assert ((a', sd) ∈ sel) as Hsel by (rewrite <- Hperm; by eapply list_elem_of_lookup_2).
    destruct (Hinv2 _ _ Hsel) as (e' & He' & _ & -> & _). by simplify_eq.
Qed.
End System.

(** ** A run from submission to its end

    One agent registers, a run is submitted, the agent reports ready, the barrier
    commits and broadcasts the start, a pause is acknowledged, the agent finishes.  A
    second history stops the run before its start. *)

Module Demo.
Import HdrModel.

Definition no_delta (_ : string) : result string MetricsDelta := Err "not a delta".
Definition no_summary (_ : string) : result string Summary := Err "not a summary".
Definition no_human (_ : string) : result string Duration := Err "not a duration".
Definition one_scenario (_ : string) (_ : option string) : result string LoadedPlan :=
  Ok (mkLoadedPlan (Some "demo") [("main", false)] []).
Notation dstep := (step no_delta no_summary no_human one_scenario).
Notation dreach := (reachable no_delta no_summary no_human one_scenario "ctl" 90000000000).

Definition at_ms (ms : Z) : Clock := mkClock (ms * 1000000) ms.
Definition reg : Register := mkRegister "agent-1" "box" 4 "1.0" 8 ∅ "" "" "boot-1".
Definition opts : SubmitOptions := mkSubmitOptions None None [] None LossContinue 2000.
Definition up (q : Z) (m : AgentMsg) : UplinkMessage := mkAgentMessage q (Some m).

Definition i0 : Inner := Inner_new "ctl" 90000000000.
Definition i1 : Inner := (session (at_ms 10) None (Some (agent_msg (MRegister reg))) i0).1.
Definition i2 : Inner :=
  from_option fst i1 (submit no_human one_scenario (at_ms 20) "run-1" "plan" opts i1).
Definition deliver (ms q : Z) (m : AgentMsg) (i : Inner) : Inner * bool :=
  handle_agent_message no_delta no_summary (at_ms ms) "agent-1" 1 (up q m) i.
Definition i3 : Inner := (deliver 30 1 (MAssignmentReady (mkAssignmentReady "run-1" 0)) i2).1.
Definition i4 : Inner := (barrier_check (at_ms 40) 2000 "run-1" i3).1.
Definition i5 : Inner := (barrier_act "run-1" (Started 2040) i4).1.
Definition i6 : Inner := (control_begin "run-1" "pause" "" None (fun _ => true) i5).1.
Definition i7 : Inner := (deliver 60 2 (MControlAck (mkControlAck "run-1" 1 "pause" "" 0 true "")) i6).1.
Definition i8 : Inner := (deliver 70 3 (MEvent (mkRunEvent "run-1" "finished" "" "")) i7).1.
(** The second history, from [i2]. *)
Definition j3 : Inner := (control_begin "run-1" "stop" "" None (fun _ => true) i2).1.

Notation pump := (TPump "agent-1" 1).

Lemma pair_eq {A B : Type} (p : A * B) (b : B) : p.2 = b -> p = (p.1, b).
Proof. destruct p. by intros <-. Qed.

Lemma reach_i1 : dreach (mkSystem i1 [pump]).
Proof.
  eapply rtc_l; [|apply rtc_refl].
  refine (s_session _ _ _ _ (at_ms 10) None (Some (agent_msg (MRegister reg))) i0 i1 (Ok ("agent-1", 1)) [] _ _).
  - apply pair_eq. by vm_compute.
  - by vm_compute.
Qed.

Lemma is_none {A : Type} (o : option A) : from_option (fun _ => false) true o = true -> o = None.
Proof. by destruct o. Qed.

Lemma submit_i2 : submit no_human one_scenario (at_ms 20) "run-1" "plan" opts i1 = Some (i2, Ok "run-1").
Proof.
  assert (snd <$> submit no_human one_scenario (at_ms 20) "run-1" "plan" opts i1 = Some (Ok "run-1")) as Hs
    by by vm_compute.
  unfold i2. destruct (submit _ _ _ _ _ _ _) as [[i r]|]; [|done]. simpl in *. by injection Hs as ->.
Qed.

Lemma reach_i2 : dreach (mkSystem i2 [TBarrier "run-1" 2000; pump]).
Proof.
  eapply rtc_r; [exact reach_i1|].
  refine (s_submit _ _ _ _ (at_ms 20) "run-1" "plan" opts i1 i2 (Ok "run-1") [pump] _ submit_i2).
  apply is_none. by vm_compute.
Qed.

Lemma reach_i3 : dreach (mkSystem i3 [TBarrier "run-1" 2000; pump]).
Proof.
  eapply rtc_r; [exact reach_i2|].
  refine (s_task _ _ _ _ (at_ms 30) i2 i3 pump [pump] [TBarrier "run-1" 2000] [] _).
  eapply ts_pump. apply pair_eq. by vm_compute.
Qed.

Lemma reach_i4 : dreach (mkSystem i4 [TAct "run-1" (Started 2040); pump]).
Proof.
  eapply rtc_r; [exact reach_i3|].
  refine (s_task _ _ _ _ (at_ms 40) i3 i4 (TBarrier "run-1" 2000) [TAct "run-1" (Started 2040)] [] [pump] _).
  eapply ts_barrier_decide. apply pair_eq. by vm_compute.
Qed.

Lemma reach_i5 : dreach (mkSystem i5 [TTicker "run-1"; pump]).
Proof.
  eapply rtc_r; [exact reach_i4|].
  refine (s_task _ _ _ _ (at_ms 50) i4 i5 (TAct "run-1" (Started 2040)) [TTicker "run-1"] [] [pump] _).
  eapply ts_act_start. apply pair_eq. by vm_compute.
Qed.

Lemma reach_i6 : dreach (mkSystem i6 [TControl "run-1" "pause" 1; TTicker "run-1"; pump]).
Proof.
  eapply rtc_r; [exact reach_i5|].
  refine (s_control _ _ _ _ "run-1" "pause" "" None (fun _ => true) i5 i6 (Ok 1) [TTicker "run-1"; pump] _).
  apply pair_eq. by vm_compute.
Qed.

Lemma reach_i7 : dreach (mkSystem i7 [TControl "run-1" "pause" 1; TTicker "run-1"; pump]).
Proof.
  eapply rtc_r; [exact reach_i6|].
  refine (s_task _ _ _ _ (at_ms 60) i6 i7 pump [pump] [TControl "run-1" "pause" 1; TTicker "run-1"] [] _).
  eapply ts_pump. apply pair_eq. by vm_compute.
Qed.

Lemma reach_i8 : dreach (mkSystem i8 [TControl "run-1" "pause" 1; TTicker "run-1"; pump]).
Proof.
  eapply rtc_r; [exact reach_i7|].
  refine (s_task _ _ _ _ (at_ms 70) i7 i8 pump [pump] [TControl "run-1" "pause" 1; TTicker "run-1"] [] _).
  eapply ts_pump. apply pair_eq. by vm_compute.
Qed.

Lemma reach_j3 : dreach (mkSystem j3 [TBarrier "run-1" 2000; pump]).
Proof.
  eapply rtc_r; [exact reach_i2|].
  refine (s_control _ _ _ _ "run-1" "stop" "" None (fun _ => true) i2 j3 (Err (Ok tt)) _ _).
  apply pair_eq. by vm_compute.
Qed.

(** The run in a state. *)
Definition the_run (i : Inner) : option ControllerRun := runs i !! "run-1".

Lemma run_of (i : Inner) (P : ControllerRun -> bool) :
  from_option P false (the_run i) = true -> exists r, the_run i = Some r /\ P r = true.
Proof. destruct (the_run i); [|done]. eauto. Qed.

Lemma run_lifecycle_witness : exists r, the_run i8 = Some r /\ is_Some (run_summary "run-1" i8).
Proof.
  destruct (run_of i8 (fun r => is_terminal (r_state r)) ltac:(by vm_compute)) as (r & Hr & Ht).
  exact (ex_intro _ r (conj Hr (proj1 (proj1 (run_lifecycle _ _ _ _ _ _ _ _ _ reach_i8 Hr)) Ht))).
Defined.

Lemma terminal_run_frozen_witness :
  exists r r', the_run i8 = Some r /\ core r' = core r.
Proof.
  destruct (run_of i8 (fun r => is_terminal (r_state r)) ltac:(by vm_compute)) as (r & Hr & Ht).
  destruct (terminal_run_frozen _ _ _ _ _ _ _ _ _ _ reach_i8 (rtc_refl _ _) Hr Ht) as (r' & _ & Hc & _).
  exact (ex_intro _ r (ex_intro _ r' (conj Hr Hc))).
Defined.

Lemma agent_of (i : Inner) (P : AgentEntry -> bool) :
  from_option P false (agents i !! "agent-1") = true -> exists e, agents i !! "agent-1" = Some e /\ P e = true.
Proof. destruct (agents i !! "agent-1"); [|done]. eauto. Qed.

Lemma reservation_sound_witness :
  exists r, the_run i5 = Some r /\ is_terminal (r_state r) = false /\ "agent-1" ∈ assigned (r_spec r).
Proof.
  destruct (agent_of i5 (fun e => bool_decide (a_active_run e = Some "run-1")) ltac:(by vm_compute))
    as (e & He & Ha%bool_decide_eq_true).
  exact (reservation_sound _ _ _ _ _ _ _ _ _ _ reach_i5 He Ha).
Defined.

Lemma start_barrier_sound_witness :
  exists r, the_run i5 = Some r /\ r_start_unix_ms r = Some 2040
    /\ forall a, a ∈ assigned (r_spec r) -> phases (r_prep r) !! a = Some ReadyPhase.
Proof.
  refine (start_barrier_sound _ _ _ _ _ _ _ 1 "run-1" 2040 reach_i5 _).
  apply (list_elem_of_lookup_2 _ 3). by vm_compute.
Defined.

Lemma failed_preparation_never_starts_witness :
  exists r', the_run j3 = Some r' /\ r_start_unix_ms r' = None.
Proof.
  destruct (run_of j3 (fun r => bool_decide (is_Some (failure (r_prep r)))) ltac:(by vm_compute))
    as (r & Hr & Hf%bool_decide_eq_true).
  exact (proj1 (failed_preparation_never_starts _ _ _ _ _ _ _ _ _ _ reach_j3 (rtc_refl _ _) Hr Hf)).
Defined.

Lemma last_report_settles_witness :
  exists r', the_run (handle_run_event no_summary (at_ms 70) "agent-1"
                        (mkRunEvent "run-1" "aborted" "stopped" "") i7) = Some r' /\ r_state r' = Aborted.
Proof.
  destruct (run_of i7 (fun r => bool_decide (is_terminal (r_state r) = false)
                                && bool_decide (r_done r = ∅)
                                && bool_decide (assigned (r_spec r) = ["agent-1"])) ltac:(by vm_compute))
    as (r & Hr & [[Ht%bool_decide_eq_true Hd%bool_decide_eq_true]%andb_prop Has%bool_decide_eq_true]%andb_prop).
  destruct (last_report_settles no_summary (at_ms 70) "agent-1" (mkRunEvent "run-1" "aborted" "stopped" "")
              i7 r Hr Ht eq_refl) as (r' & Hr' & _ & _ & Hall).
  refine (ex_intro _ r' (conj Hr' _)). rewrite Hd, Has in Hall. destruct Hall as (_ & Hab & _).
  - intros b ->%list_elem_of_singleton. left. simpl. rewrite lookup_insert_eq. eauto.
  - apply Hab.
    + intros b. simpl. destruct (decide ("agent-1" = b)) as [<-|]; [by rewrite lookup_insert_eq|].
      by rewrite lookup_insert_ne, lookup_empty.
    + exists "agent-1". by rewrite lookup_insert_eq.
Defined.

Lemma control_ok_everywhere_witness :
  exists r p, the_run i7 = Some r /\ r_pending_controls r !! 1 = Some p
    /\ pc_responses p !! "agent-1" = Some (Ok tt).
Proof.
  destruct (run_of i7 (fun r => bool_decide (is_Some (r_pending_controls r !! 1)) && control_complete r 1)
              ltac:(by vm_compute)) as (r & Hr & [[p Hp]%bool_decide_eq_true Hc]%andb_prop).
  refine (ex_intro _ r (ex_intro _ p (conj Hr (conj Hp _)))).
  refine (control_ok_everywhere _ _ _ _ _ _ (mkSystem i7 _) "run-1" "pause" 1 r p reach_i7 Hr Hp Hc _ "agent-1" _).
  - by vm_compute.
  - assert (from_option (fun r => from_option (fun p => bool_decide ("agent-1" ∈ pc_expected p)) false
                                    (r_pending_controls r !! 1)) false (the_run i7) = true) as Hb by by vm_compute.
    rewrite Hr in Hb. simpl in Hb. rewrite Hp in Hb. simpl in Hb. by apply bool_decide_eq_true in Hb.
Defined.

Lemma scale_shares_exact_witness :
  scale_shares 10 3 = [4; 3; 3] /\ Zsum (scale_shares 10 3) = 10.
Proof. split; [by vm_compute|]. exact (proj1 (scale_shares_exact 10 3 ltac:(lia) ltac:(by vm_compute))). Defined.

Lemma submit_exclusive_witness :
  exists r, runs i2 = <["run-1" := r]> (runs i1) /\ r_state r = Pending.
Proof.
  destruct (submit_exclusive no_human one_scenario (at_ms 20) "run-1" "plan" opts i1 i2 _ submit_i2)
    as (_ & r & Hr & Hp & _).
  exact (ex_intro _ r (conj Hr Hp)).
Defined.

End Demo.
