(* ===== verification/Delivery.v ===== *)
(** * Delivery: the uplink window and the controller's cursor together

    uplink.rs promises at-least-once delivery, [register_agent] and [admit_message] of
    controller.rs turn it into exactly-once.  Here one agent id is followed through any
    number of processes (incarnations), sessions that die with messages and
    acknowledgements in flight, replays, and any other activity of the controller.  The
    agent's steps are the functions of Uplink.v, the controller's those of
    Controller.v; the ghost logs [n_queued] and [n_applied] record what each
    incarnation's window accepted and what the controller applied. *)

From S2P Require Import Prelude Float64 Str Dur Metrics Aggregate Federation Uplink Proto Threshold Thresholds Summary Controller.

(** ** What a handler leaves of an agent's cursor *)

Section Quiet.
Context `{Hdr}.
Context (delta_of_json : string -> result string MetricsDelta).
Context (summary_of_json : string -> result string Summary).

Definition cursor_view (e : AgentEntry) : Z * Z * string * AgentSender :=
  (a_session e, a_last_seq e, a_incarnation e, a_sender e).

Definition is_ack (o : AgentSender * result Status CtrlMsg) : Prop :=
  match o.2 with Ok (CUplinkAck _) => True | _ => False end.

(** No cursor, no session and no acknowledgement is touched. *)
Definition quiet (i i' : Inner) : Prop :=
  (forall a, cursor_view <$> agents i' !! a = cursor_view <$> agents i !! a)
  /\ session_counter i' = session_counter i
  /\ exists extra, outbox i' = outbox i ++ extra /\ Forall (fun o => ~ is_ack o) extra.

#[local] Instance quiet_refl : Reflexive quiet.
Proof. intros i. split_and!; try done. exists []. by rewrite app_nil_r. Qed.

#[local] Instance quiet_trans : Transitive quiet.
Proof.
  intros i1 i2 i3 (A1 & S1 & e1 & O1 & F1) (A2 & S2 & e2 & O2 & F2). split_and!; [|congruence|].
  - intros a. by rewrite A2.
  - exists (e1 ++ e2). rewrite O2, O1, app_assoc. split; [done|]. by apply Forall_app.
Qed.

Lemma quiet_upd_run id f (i : Inner) : quiet i (upd_run id f i).
Proof. split_and!; try done. exists []. by rewrite app_nil_r. Qed.

Lemma quiet_send s m (i : Inner) : ~ is_ack (s, m) -> quiet i (send s m i).
Proof. intros Hm. split_and!; try done. exists [(s, m)]. split; [done|]. by repeat constructor. Qed.

Lemma quiet_send_all targets m (i : Inner) : (forall s, ~ is_ack (s, Ok m)) -> quiet i (send_all targets m i).
Proof.
  intros Hm. split_and!; try done. eexists. split; [done|]. apply Forall_fmap, Forall_forall. intros t _. apply Hm.
Qed.

Lemma quiet_upd_agent a f (i : Inner) :
  (forall e, cursor_view (f e) = cursor_view e) -> quiet i (upd_agent a f i).
Proof.
  intros Hf. split_and!; try done; [|exists []; by rewrite app_nil_r]. intros a'. simpl.
  destruct (decide (a = a')) as [->|]; [|by rewrite lookup_alter_ne].
  rewrite lookup_alter_eq, <- option_fmap_compose. apply option_fmap_ext. intros e. apply Hf.
Qed.

Lemma quiet_release run (i : Inner) : quiet i (release_reservations run i).
Proof.
  split_and!; try done; [|exists []; by rewrite app_nil_r]. intros a. unfold release_reservations. simpl.
  generalize (agents i). induction (assigned (r_spec run)) as [|x l IH]; intros m; simpl; [done|].
  rewrite IH. destruct (decide (x = a)) as [->|]; [|by rewrite lookup_alter_ne].
  rewrite lookup_alter_eq, <- option_fmap_compose. apply option_fmap_ext. intros e. unfold compose.
  by case_bool_decide.
Qed.

Lemma quiet_finalize c id v (i : Inner) : quiet i (finalize_run c id v i).
Proof.
  unfold finalize_run. repeat case_match; try done. etrans; [apply quiet_upd_run|apply quiet_release].
Qed.

Lemma quiet_check_completion c id (i : Inner) : quiet i (check_completion c id i).
Proof. unfold check_completion. repeat case_match; try done. apply quiet_finalize. Qed.

Lemma quiet_record_prep_failure id reason v (i : Inner) : quiet i (record_prep_failure id reason v i).1.
Proof. unfold record_prep_failure. repeat case_match; try done. apply quiet_upd_run. Qed.

Lemma quiet_send_assignment id a (i : Inner) : quiet i (send_assignment id a i).
Proof. unfold send_assignment. repeat case_match; try done. apply quiet_send. by intros []. Qed.

Lemma quiet_kill a id (i : Inner) : quiet i (kill_agent_run a id i).
Proof. unfold kill_agent_run. case_match; [|done]. apply quiet_send. by intros []. Qed.

Lemma quiet_terminate c a id (i : Inner) : quiet i (terminate_participation c a id i).
Proof.
  unfold terminate_participation. destruct (runs i !! id) as [run|]; [|done].
  pose proof (quiet_record_prep_failure id ("agent " +:+ a +:+ " restarted during preparation") Failed i) as Hp.
  destruct (record_prep_failure _ _ _ i) as [i1 recorded]. simpl in Hp. etrans; [exact Hp|].
  destruct recorded; [done|]. destruct (_ || _); [done|]. etrans; [apply quiet_upd_run|].
  destruct (on_agent_loss (r_spec run)); [apply quiet_check_completion|].
  etrans; [apply quiet_upd_run|]. case_match; [|done]. etrans; [|apply quiet_finalize].
  apply quiet_send_all. by intros s [].
Qed.

Lemma quiet_replay a id (i : Inner) : quiet i (replay_assignment_if_pending a id i).
Proof. unfold replay_assignment_if_pending. repeat case_match; try done. apply quiet_send_assignment. Qed.

Lemma quiet_resume a id (i : Inner) : quiet i (resume_run a id i).
Proof.
  unfold resume_run. destruct (runs i !! id) as [run|]; [|apply quiet_kill].
  destruct (negb _); [done|]. destruct (_ || _); [apply quiet_kill|].
  set (i1 := upd_run id _ i). etrans; [apply (quiet_upd_run id (fun r => set_r_lost (r_lost r ∖ {[a]}) r))|].
  fold i1. repeat case_match; try done; [apply quiet_send_assignment|]. apply quiet_send. by intros [].
Qed.

Lemma quiet_apply c a m (i : Inner) : quiet i (apply_agent_message delta_of_json summary_of_json c a m i).
Proof.
  destruct m as [[r|hb|batch|ev|ack|ar]|]; simpl; try done.
  - by apply quiet_upd_agent.
  - unfold apply_metrics. repeat case_match; try done; apply quiet_upd_run.
  - unfold handle_run_event. destruct (runs i !! ev_run_id ev); [|done].
    case_bool_decide; [apply quiet_upd_run|]. case_bool_decide; [apply quiet_record_prep_failure|].
    destruct (is_terminal_kind _); [|done]. etrans; [apply quiet_upd_run|apply quiet_check_completion].
  - unfold apply_control_ack. repeat case_match; try done; apply quiet_upd_run.
  - unfold handle_assignment_ready. repeat case_match; try done; apply quiet_kill || apply quiet_upd_run.
Qed.

(** Registration replaces the entry of its agent, whose cursor survives exactly when
    the process is the same one; everything else is quiet. *)
Lemma register_cursor c reg peer s (i : Inner) :
  let i' := register_agent c reg peer s s i in
  let prev := agents i !! reg_agent_id reg in
  let last := match prev with
              | Some p => if decide (a_incarnation p = reg_incarnation reg) then a_last_seq p else 0
              | None => 0
              end in
  cursor_view <$> agents i' !! reg_agent_id reg = Some (s, last, reg_incarnation reg, s)
  /\ session_counter i' = session_counter i
  /\ exists extra, outbox i' = outbox i ++ extra /\ Forall (fun o => ~ is_ack o) extra.
Proof.
  simpl. unfold register_agent. set (id := reg_agent_id reg).
  destruct (register_entry _ _ _ _ _ _) as [[entry restarted] followup] eqn:Hre.
  set (i1 := set_agents _ i). set (i2 := match agents i !! id with Some _ => _ | None => _ end).
  set (i3 := match followup with FNone => _ | TerminateParticipation _ => _ | MaybeReplayAssignment _ => _ end).
  assert (quiet i1 i2) as H2.
  { subst i2. case_match; [|done]. apply quiet_send. by intros []. }
  assert (quiet i2 i3) as H3.
  { subst i3. case_match; [done|apply quiet_terminate|apply quiet_replay]. }
  set (i4 := if str_is_empty _ then _ else _).
  assert (quiet i3 i4) as H4 by (subst i4; repeat case_match; try done; apply quiet_resume).
  assert (quiet i1 i4) as (Ha & Hs & Ho) by (etrans; [exact H2|]; by etrans).
  split; [|split; [by rewrite Hs|exact Ho]].
  rewrite Ha. simpl. rewrite lookup_insert_eq. simpl. f_equal. unfold register_entry in Hre.
  destruct (agents i !! id) as [p|]; simpl in Hre.
  - destruct (decide (a_incarnation p = reg_incarnation reg)) as [Heq|Hne].
    + rewrite bool_decide_true in Hre by done. repeat case_match; by simplify_eq.
    + rewrite bool_decide_false in Hre by done. repeat case_match; by simplify_eq.
  - repeat case_match; by simplify_eq.
Qed.

(** One delivery: refused without a trace outside the live session; otherwise the
    cursor becomes the larger of the two sequence numbers, and every acknowledgement
    sent carries the new cursor to the live session. *)
Lemma deliver_cursor c a s m (i i' : Inner) (ok : bool) e :
  agents i !! a = Some e -> 0 <= a_last_seq e -> 0 <= seq m ->
  handle_agent_message delta_of_json summary_of_json c a s m i = (i', ok) ->
  if decide (a_session e = s) then
    ok = true
    /\ cursor_view <$> agents i' !! a = Some (s, Z.max (a_last_seq e) (seq m), a_incarnation e, a_sender e)
    /\ session_counter i' = session_counter i
    /\ (exists extra, outbox i' = outbox i ++ extra
       /\ Forall (fun o => is_ack o -> o = (a_sender e, Ok (CUplinkAck (Z.max (a_last_seq e) (seq m))))) extra)
    /\ ((admit_message c a s (seq m) i).2 = Apply <-> seq m = 0 \/ a_last_seq e < seq m)
  else ok = false /\ i' = i /\ (admit_message c a s (seq m) i).2 = Stale.
Proof.
  intros He HL Hq Hm. unfold handle_agent_message in Hm. unfold admit_message in *. rewrite He in *.
  destruct (Z.eqb_spec (a_session e) s) as [Heq|Hne]; simpl in *.
  2:{ rewrite decide_False by done. by simplify_eq. }
  rewrite decide_True by done.
  set (i1 := upd_agent a (set_a_last_heartbeat (instant c)) i) in *.
  assert (agents i1 !! a = Some (set_a_last_heartbeat (instant c) e)) as He1
    by (subst i1; simpl; by rewrite lookup_alter_eq, He).
  destruct (Z.eqb_spec (seq m) 0) as [H0|H0]; [|destruct (Z.leb_spec (seq m) (a_last_seq e)) as [Hle|Hgt]];
    simpl in Hm; simplify_eq.
  - rewrite Z.max_l by lia. set (i2 := if Z.ltb 0 (a_last_seq e) then _ else _) in *.
    destruct (quiet_apply c a (msg m) i2) as (Ha & Hs & extra & Ho & Hf).
    assert (agents i2 = agents i1 /\ session_counter i2 = session_counter i
            /\ exists x, outbox i2 = outbox i ++ x
               /\ Forall (fun o => is_ack o -> o = (a_sender e, Ok (CUplinkAck (a_last_seq e)))) x)
      as (Ha2 & Hs2 & x & Ho2 & Hf2).
    { subst i2. destruct (Z.ltb 0 (a_last_seq e)); split_and!; try done.
      - eexists. split; [done|]. by repeat constructor.
      - exists []. by rewrite app_nil_r. }
    split_and!; [done| |congruence| |split; [by left|done]].
    + by rewrite Ha, Ha2, He1.
    + exists (x ++ extra). rewrite Ho, Ho2, app_assoc. split; [done|]. apply Forall_app. split; [done|].
      eapply Forall_impl; [exact Hf|]. by intros o Hn ?.
  - rewrite Z.max_l by lia. split_and!; [done|simpl; by rewrite lookup_alter_eq, He|done| |split; [done|lia]].
    eexists. split; [done|]. by repeat constructor.
  - rewrite Z.max_r by lia. set (i2 := send_uplink_ack _ _ _).
    destruct (quiet_apply c a (msg m) i2) as (Ha & Hs & extra & Ho & Hf).
    split_and!; [done| |done| |split; [by right|done]].
    + rewrite Ha. subst i2 i1. simpl. by rewrite !lookup_alter_eq, He.
    + exists ([(a_sender e, Ok (CUplinkAck (seq m)))] ++ extra). rewrite Ho. simpl. rewrite <- app_assoc.
      split; [done|]. constructor; [done|]. eapply Forall_impl; [exact Hf|]. by intros o Hn ?.
Qed.
End Quiet.

(** ** The network *)

Section Network.
Context `{Hdr} `{TokioNotify}.
Context (delta_of_json : string -> result string MetricsDelta).
Context (summary_of_json : string -> result string Summary).
Context (encoded_len : UplinkMessage -> Z).
(** The agent id that is followed, and the window's limits. *)
Context (aid : string) (max_b max_m : Z).

Notation Payload := (option AgentMsg).

Record Net := mkNet {
  n_ctl : Inner;
  n_up : Uplink (Msg := Payload);
  n_queued : gmap string (list Payload);
  n_applied : gmap string (list Payload);
  n_wire : gmap Z (list UplinkMessage);
  n_owner : gmap Z string;
  n_writer : option (Z * Z);
}.

Definition log_append (inc : string) (m : Payload) (l : gmap string (list Payload)) : gmap string (list Payload) :=
  alter (fun q => q ++ [m]) inc l.

(** The incarnation the controller counts for. *)
Definition entry_incarnation (i : Inner) : string := from_option a_incarnation "" (agents i !! aid).

Definition note_applied (verdict : Admit) (inc : string) (m : UplinkMessage)
    (l : gmap string (list Payload)) : gmap string (list Payload) :=
  match verdict with
  | Apply => if Z.eqb (seq m) 0 then l else log_append inc (msg m) l
  | _ => l
  end.

Inductive net_step : Net -> Net -> Prop :=
(** A producer offers a message to the window. *)
| ns_push n m u r :
    push encoded_len (n_up n) m = (u, r) -> next_seq (state (n_up n)) < u64_max -> 0 <= encoded_len m ->
    net_step n (mkNet (n_ctl n) u
                  (match r with Ok _ => log_append (incarnation (n_up n)) (msg m) (n_queued n)
                              | Err _ => n_queued n end)
                  (n_applied n) (n_wire n) (n_owner n) (n_writer n))
(** A session opens: the controller registers it, then its writer starts. *)
| ns_connect n c peer reg i s u ep :
    reg_agent_id reg = aid -> reg_incarnation reg = incarnation (n_up n) ->
    0 <= session_counter (n_ctl n) < u64_max ->
    session c peer (Some (agent_msg (MRegister reg))) (n_ctl n) = (i, Ok (aid, s)) ->
    rewind (n_up n) = (u, ep) ->
    net_step n (mkNet i u (n_queued n) (n_applied n) (<[s := []]> (n_wire n))
                  (<[s := incarnation (n_up n)]> (n_owner n)) (Some (s, ep)))
(** The writer puts the next unsent message on its session's wire. *)
| ns_write n s ep u m :
    n_writer n = Some (s, ep) -> next_unsent (n_up n) ep = (u, Ready (Some m)) ->
    net_step n (mkNet (n_ctl n) u (n_queued n) (n_applied n) (alter (fun l => l ++ [m]) s (n_wire n))
                  (n_owner n) (n_writer n))
(** A heartbeat goes on the wire beside the window. *)
| ns_heartbeat n s ep hb :
    n_writer n = Some (s, ep) ->
    net_step n (mkNet (n_ctl n) (n_up n) (n_queued n) (n_applied n)
                  (alter (fun l => l ++ [agent_msg (MHeartbeat hb)]) s (n_wire n)) (n_owner n) (n_writer n))
(** The controller reads one message of any session still open. *)
| ns_deliver n c s m rest i ok :
    n_wire n !! s = Some (m :: rest) ->
    handle_agent_message delta_of_json summary_of_json c aid s m (n_ctl n) = (i, ok) ->
    net_step n (mkNet i (n_up n) (n_queued n)
                  (note_applied (admit_message c aid s (seq m) (n_ctl n)).2 (entry_incarnation (n_ctl n)) m (n_applied n))
                  (<[s := rest]> (n_wire n)) (n_owner n) (n_writer n))
(** A session dies with whatever was on its wire. *)
| ns_drop n s :
    net_step n (mkNet (mark_disconnected aid s (n_ctl n)) (n_up n) (n_queued n) (n_applied n)
                  (delete s (n_wire n)) (n_owner n) (n_writer n))
(** An acknowledgement sent to one of this process's sessions arrives; it may as well
    arrive late, again, or never. *)
| ns_ack n (s : Z) q :
    (s, Ok (CUplinkAck q)) ∈ outbox (n_ctl n) -> n_owner n !! s = Some (incarnation (n_up n)) ->
    net_step n (mkNet (n_ctl n) (ack (n_up n) q) (n_queued n) (n_applied n) (n_wire n) (n_owner n) (n_writer n))
(** The process is restarted under a fresh incarnation. *)
| ns_restart n inc :
    n_queued n !! inc = None ->
    net_step n (mkNet (n_ctl n) (with_limits max_b max_m inc) (<[inc := []]> (n_queued n))
                  (<[inc := []]> (n_applied n)) (n_wire n) (n_owner n) None)
(** Anything else the controller does. *)
| ns_other n i extra :
    cursor_view <$> agents i !! aid = cursor_view <$> agents (n_ctl n) !! aid ->
    session_counter (n_ctl n) <= session_counter i ->
    outbox i = outbox (n_ctl n) ++ extra ->
    Forall (fun o => is_ack o -> o.1 <= session_counter i /\ n_owner n !! (o.1 : Z) = None) extra ->
    net_step n (mkNet i (n_up n) (n_queued n) (n_applied n) (n_wire n) (n_owner n) (n_writer n)).

Definition net_start (controller : string) (live : Duration) (inc : string) : Net :=
  mkNet (Inner_new controller live) (with_limits max_b max_m inc) {[ inc := [] ]} {[ inc := [] ]} ∅ ∅ None.

Inductive net_reachable : Net -> Prop :=
| nr_start controller live inc : net_reachable (net_start controller live inc)
| nr_step n n' : net_reachable n -> net_step n n' -> net_reachable n'.

(** ** Invariant *)

(** The wire never jumps past the cursor of its reader. *)
Fixpoint gapless (L : Z) (l : list UplinkMessage) : Prop :=
  match l with
  | [] => True
  | m :: l => seq m <= L + 1 /\ gapless (Z.max L (seq m)) l
  end.
Definition reach (L : Z) (l : list UplinkMessage) : Z := foldl (fun c m => Z.max c (seq m)) L l.

(** The number the writer sends next. *)
Definition next_sent (u : Uplink (Msg := Payload)) : Z := oldest u + Z.of_nat (cursor (state u)).

(** What the controller has applied of the current process. *)
Definition cursor_of (n : Net) : Z :=
  match agents (n_ctl n) !! aid with
  | Some e => if decide (a_incarnation e = incarnation (n_up n)) then a_last_seq e else 0
  | None => 0
  end.

(** The [k]-th message of a log, counted from 1. *)
Definition nth_msg (q : list Payload) (k : Z) : option Payload := q !! (Z.to_nat (k - 1)).

Record net_ok (n : Net) : Prop := {
  no_window : window_ok (n_up n);
  no_queue : exists q, n_queued n !! incarnation (n_up n) = Some q
    /\ next_seq (state (n_up n)) = Z.of_nat (length q)
    /\ forall e, e ∈ pending (state (n_up n)) -> nth_msg q (seq (e_msg e)) = Some (msg (e_msg e));
  no_dom : forall i, is_Some (n_applied n !! i) <-> is_Some (n_queued n !! i);
  no_prefix : forall i ap q, n_applied n !! i = Some ap -> n_queued n !! i = Some q -> ap `prefix_of` q;
  no_entry : forall e, agents (n_ctl n) !! aid = Some e ->
    n_owner n !! a_session e = Some (a_incarnation e) /\ a_sender e = a_session e
    /\ exists ap, n_applied n !! a_incarnation e = Some ap /\ a_last_seq e = Z.of_nat (length ap);
  no_current : exists ap, n_applied n !! incarnation (n_up n) = Some ap /\ cursor_of n = Z.of_nat (length ap);
  no_oldest : oldest (n_up n) <= cursor_of n + 1;
  no_acks : forall (s : Z) q, (s, Ok (CUplinkAck q)) ∈ outbox (n_ctl n) ->
    s <= session_counter (n_ctl n) /\ (n_owner n !! s = Some (incarnation (n_up n)) -> q <= cursor_of n);
  no_owner : forall s i, n_owner n !! s = Some i -> s <= session_counter (n_ctl n) /\ is_Some (n_queued n !! i);
  no_wire : forall s l m, n_wire n !! s = Some l -> m ∈ l ->
    0 <= seq m /\ (seq m <> 0 -> exists i q, n_owner n !! s = Some i /\ n_queued n !! i = Some q
                                           /\ nth_msg q (seq m) = Some (msg m));
  no_live : forall e l, agents (n_ctl n) !! aid = Some e -> n_wire n !! a_session e = Some l ->
    gapless (a_last_seq e) l
    /\ forall ep, n_writer n = Some (a_session e, ep) -> ep = epoch (state (n_up n)) ->
         next_sent (n_up n) <= reach (a_last_seq e) l + 1;
  no_writer : forall s ep, n_writer n = Some (s, ep) ->
    exists e, agents (n_ctl n) !! aid = Some e /\ a_session e = s /\ a_incarnation e = incarnation (n_up n);
}.

(** *** Lemmas *)

Lemma gapless_app (L : Z) (l : list UplinkMessage) (m : UplinkMessage) :
  gapless L l -> seq m <= reach L l + 1 -> gapless L (l ++ [m]).
Proof. revert L. induction l as [|x l IH]; intros L; simpl; [auto|]. intros [? ?] ?. auto. Qed.

Lemma reach_app (L : Z) (l : list UplinkMessage) (m : UplinkMessage) :
  reach L (l ++ [m]) = Z.max (reach L l) (seq m).
Proof. unfold reach. by rewrite foldl_app. Qed.

Lemma reach_ge (L : Z) (l : list UplinkMessage) : L <= reach L l.
Proof.
  revert L. induction l as [|x l IH]; intros L; [done|]. unfold reach in *. simpl.
  specialize (IH (Z.max L (seq x))). lia.
Qed.

Lemma nth_msg_app (q k : list Payload) (x : Z) (m : Payload) : nth_msg q x = Some m -> nth_msg (q ++ k) x = Some m.
Proof. unfold nth_msg. apply lookup_app_l_Some. Qed.

Lemma view_Some (i i' : Inner) (e' : AgentEntry) :
  cursor_view <$> agents i' !! aid = cursor_view <$> agents i !! aid -> agents i' !! aid = Some e' ->
  exists e, agents i !! aid = Some e /\ a_session e = a_session e' /\ a_last_seq e = a_last_seq e'
    /\ a_incarnation e = a_incarnation e' /\ a_sender e = a_sender e'.
Proof.
  intros Hv He'. rewrite He' in Hv. destruct (agents i !! aid) as [e|]; [|done].
  injection Hv as ? ? ? ?. by exists e.
Qed.

Lemma cursor_of_view (n : Net) (i : Inner) (w : gmap Z (list UplinkMessage)) :
  cursor_view <$> agents i !! aid = cursor_view <$> agents (n_ctl n) !! aid ->
  cursor_of (mkNet i (n_up n) (n_queued n) (n_applied n) w (n_owner n) (n_writer n)) = cursor_of n.
Proof.
  unfold cursor_of. simpl. destruct (agents i !! aid) as [e'|], (agents (n_ctl n) !! aid) as [e|]; try done.
  simpl. intros [= ? -> -> ?]. done.
Qed.

(** The controller moves without touching the agent's cursor, and sessions die. *)
Lemma net_ok_ctl (n : Net) (i : Inner) (w : gmap Z (list UplinkMessage)) extra :
  net_ok n -> w ⊆ n_wire n ->
  cursor_view <$> agents i !! aid = cursor_view <$> agents (n_ctl n) !! aid ->
  session_counter (n_ctl n) <= session_counter i ->
  outbox i = outbox (n_ctl n) ++ extra ->
  Forall (fun o => is_ack o -> o.1 <= session_counter i /\ n_owner n !! (o.1 : Z) = None) extra ->
  net_ok (mkNet i (n_up n) (n_queued n) (n_applied n) w (n_owner n) (n_writer n)).
Proof.
  intros [] Hw Hv Hs Ho Hf.
  pose proof (cursor_of_view n i w Hv) as Hc. split; rewrite ?Hc; simpl; auto.
  - intros e' He'. destruct (view_Some _ _ _ Hv He') as (e & He & E1 & E2 & E3 & E4).
    rewrite <- E1, <- E2, <- E3, <- E4. auto.
  - intros s q Hin. rewrite Ho in Hin. apply elem_of_app in Hin as [Hin|Hin].
    + destruct (no_acks0 s q Hin). split; [lia|done].
    + rewrite Forall_forall in Hf. destruct (Hf _ Hin I) as [? Hn]. split; [done|].
      intros Hso. exfalso. enough (None = Some (incarnation (n_up n))) by done.
      etrans; [symmetry; exact Hn|exact Hso].
  - intros s inc Hso. destruct (no_owner0 s inc Hso). split; [lia|done].
  - intros s l m Hl. apply no_wire0. by eapply lookup_weaken.
  - intros e' l He' Hl. destruct (view_Some _ _ _ Hv He') as (e & He & E1 & E2 & E3 & E4).
    rewrite <- E1 in *. rewrite <- E2. apply no_live0; [done|]. by eapply lookup_weaken.
  - intros s ep Hwr. destruct (no_writer0 s ep Hwr) as (e & He & Hse & Hie). rewrite He in Hv.
    destruct (agents i !! aid) as [e'|]; [|done]. injection Hv as ? ? ? ?. exists e'. split; [done|]. by split; congruence.
Qed.

Lemma ok_push (n : Net) m u r :
  net_ok n -> push encoded_len (n_up n) m = (u, r) -> next_seq (state (n_up n)) < u64_max ->
  0 <= encoded_len m ->
  net_ok (mkNet (n_ctl n) u
            (match r with Ok _ => log_append (incarnation (n_up n)) (msg m) (n_queued n)
                        | Err _ => n_queued n end)
            (n_applied n) (n_wire n) (n_owner n) (n_writer n)).
Proof.
  intros Hok Hp Hns Hlen. pose proof (push_cases encoded_len (n_up n) m) as Hc.
  pose proof (push_window_ok encoded_len (n_up n) m (no_window _ Hok) Hns Hlen) as Hw. rewrite Hp in *.
  destruct r as [sq|rej]; [|destruct Hc as [-> _]; by destruct n].
  destruct Hc as (_ & _ & -> & Hst & _ & _ & Hinc). simpl in Hw.
  assert (0 <= next_seq (state (n_up n))) as Hpos by (destruct (wo_next _ (no_window _ Hok)); lia).
  rewrite u64_add_small in Hst by (unfold is_u64, u64_max in *; lia).
  destruct Hok. destruct no_queue0 as (q & Hq & Hlq & Hpe).
  assert (forall inc', is_Some (log_append (incarnation (n_up n)) (msg m) (n_queued n) !! inc')
                       <-> is_Some (n_queued n !! inc')) as Hdom
    by (intros inc'; unfold log_append; by rewrite lookup_alter_is_Some).
  assert (forall inc' q', n_queued n !! inc' = Some q' ->
    exists k, log_append (incarnation (n_up n)) (msg m) (n_queued n) !! inc' = Some (q' ++ k)) as Hext.
  { intros inc' q' Hq'. unfold log_append. destruct (decide (incarnation (n_up n) = inc')) as [<-|Hne].
    - rewrite lookup_alter_eq, Hq'. by exists [msg m].
    - rewrite lookup_alter_ne by done. exists []. by rewrite app_nil_r. }
  assert (oldest u = oldest (n_up n)) as Hold.
  { unfold oldest. rewrite Hst. simpl. rewrite length_app. simpl. lia. }
  split; simpl; rewrite ?Hinc; auto.
  - exists (q ++ [msg m]). rewrite Hst. simpl. split_and!.
    + unfold log_append. by rewrite lookup_alter_eq, Hq.
    + rewrite length_app. simpl. lia.
    + intros e [He|He]%elem_of_app; [by apply nth_msg_app, Hpe|].
      apply list_elem_of_singleton in He as ->. simpl. unfold nth_msg.
      replace (Z.to_nat _) with (length q) by lia. by rewrite lookup_app_r, Nat.sub_diag.
  - intros inc'. rewrite no_dom0. by rewrite Hdom.
  - intros inc' ap q' Hap Hq'. destruct (n_queued n !! inc') as [q0|] eqn:Hq0.
    + destruct (Hext _ _ Hq0) as [k Hk]. rewrite Hk in Hq'. injection Hq' as <-.
      etrans; [by eapply no_prefix0|]. by exists k.
    + assert (is_Some (n_queued n !! inc')) as [? ?] by (apply Hdom; eauto). congruence.
  - unfold cursor_of in *. simpl. rewrite Hinc. exact no_current0.
  - rewrite Hold. unfold cursor_of in *. simpl. by rewrite Hinc.
  - intros s x Hin. unfold cursor_of in *. simpl. rewrite Hinc. auto.
  - intros s inc' Hso. rewrite Hdom. auto.
  - intros s l x Hl Hx. destruct (no_wire0 s l x Hl Hx) as [? Hwr]. split; [done|]. intros Hne.
    destruct (Hwr Hne) as (inc' & q' & ? & Hq' & ?). destruct (Hext _ _ Hq') as [k Hk].
    exists inc', (q' ++ k). split_and!; try done. by apply nth_msg_app.
  - intros e l He Hl. destruct (no_live0 e l He Hl) as [? Hn]. split; [done|]. intros ep Hwr Hep.
    unfold next_sent in *. rewrite Hold. rewrite Hst in *. simpl in *. eauto.
Qed.

Lemma ok_write (n : Net) s ep u m :
  net_ok n -> n_writer n = Some (s, ep) -> next_unsent (n_up n) ep = (u, Ready (Some m)) ->
  net_ok (mkNet (n_ctl n) u (n_queued n) (n_applied n) (alter (fun l => l ++ [m]) s (n_wire n))
            (n_owner n) (n_writer n)).
Proof.
  intros Hok Hwr Hnu. pose proof (next_unsent_cases (n_up n) ep) as Hc.
  pose proof (next_unsent_window_ok (n_up n) ep (no_window _ Hok)) as Hw. rewrite Hnu in *.
  destruct Hc as (Hep & e0 & He0 & -> & Hst & Hinc). simpl in Hw.
  assert (oldest u = oldest (n_up n)) as Hold by (unfold oldest; by rewrite Hst).
  assert (seq (e_msg e0) = next_sent (n_up n)) as Hseq.
  { rewrite (window_lookup (n_up n) _ e0 (no_window _ Hok) He0). done. }
  destruct Hok. destruct no_queue0 as (q & Hq & Hlq & Hpe).
  destruct (no_writer0 s ep Hwr) as (e & He & Hse & Hie).
  assert (forall x, cursor_of (mkNet (n_ctl n) u (n_queued n) (n_applied n) x (n_owner n) (n_writer n)) = cursor_of n)
    as Hcur by (intros x; unfold cursor_of; simpl; by rewrite Hinc).
  assert (cursor_of n = a_last_seq e) as Hce by (unfold cursor_of; by rewrite He, decide_True).
  split; rewrite ?Hcur; simpl; rewrite ?Hinc, ?Hold; auto.
  - exists q. rewrite Hst. by split_and!.
  - intros s' l x Hl Hx. apply lookup_alter_Some in Hl as [(-> & l0 & Hl0 & ->)|[_ Hl]]; [|by eapply no_wire0].
    apply elem_of_app in Hx as [Hx|Hx]; [by eapply no_wire0|]. apply list_elem_of_singleton in Hx as ->.
    split.
    + rewrite Hseq. unfold next_sent. pose proof (wo_next _ no_window0). unfold oldest. lia.
    + intros _. exists (incarnation (n_up n)), q. split_and!; [|done|apply Hpe; by eapply list_elem_of_lookup_2].
      destruct (no_entry0 e He) as [Ho _]. rewrite Hse, Hie in Ho. done.
  - intros e' l He' Hl. rewrite He in He'. injection He' as <-. rewrite Hse in *.
    rewrite lookup_alter_eq in Hl. apply fmap_Some in Hl as (l0 & Hl0 & ->).
    destruct (no_live0 e l0 He) as [Hg Hn]; [by rewrite Hse|]. rewrite Hse in Hn. specialize (Hn ep Hwr (eq_sym Hep)).
    split.
    + apply gapless_app; [done|]. by rewrite Hseq.
    + intros _ _ _. rewrite reach_app, Hseq. unfold next_sent. rewrite Hold, Hst. simpl. lia.
Qed.

Lemma ok_heartbeat (n : Net) s hb :
  net_ok n ->
  net_ok (mkNet (n_ctl n) (n_up n) (n_queued n) (n_applied n)
            (alter (fun l => l ++ [agent_msg (MHeartbeat hb)]) s (n_wire n)) (n_owner n) (n_writer n)).
Proof.
  intros []. split; simpl; auto.
  - intros s' l x Hl Hx. apply lookup_alter_Some in Hl as [(-> & l0 & Hl0 & ->)|[_ Hl]]; [|by eapply no_wire0].
    apply elem_of_app in Hx as [Hx|Hx]; [by eapply no_wire0|]. by apply list_elem_of_singleton in Hx as ->.
  - intros e l He Hl. apply lookup_alter_Some in Hl as [(Heq & l0 & Hl0 & ->)|[_ Hl]]; [|by apply no_live0].
    rewrite <- Heq in *. destruct (no_live0 e l0 He) as [Hg Hn]; [by rewrite <- Heq|].
    destruct (no_entry0 e He) as (_ & _ & ap & _ & Hl). pose proof (reach_ge (a_last_seq e) l0).
    split; [apply gapless_app; [done|simpl; lia]|]. intros ep Hwr Hep. rewrite reach_app. simpl.
    rewrite <- Heq in Hn. specialize (Hn ep Hwr Hep). lia.
Qed.

Lemma ok_ack (n : Net) (s : Z) q :
  net_ok n -> (s, Ok (CUplinkAck q)) ∈ outbox (n_ctl n) -> n_owner n !! s = Some (incarnation (n_up n)) ->
  net_ok (mkNet (n_ctl n) (ack (n_up n) q) (n_queued n) (n_applied n) (n_wire n) (n_owner n) (n_writer n)).
Proof.
  intros Hok Hin Hso. destruct (ack_others (n_up n) q) as (_ & _ & Hinc).
  pose proof (ack_spec (n_up n) q (no_window _ Hok)) as Hst.
  pose proof (ack_window_ok (n_up n) q (no_window _ Hok)) as Hw.
  destruct (no_acks _ Hok s q Hin) as [_ Hqc]. specialize (Hqc Hso).
  destruct Hok. destruct no_queue0 as (ql & Hq & Hlq & Hpe). destruct no_current0 as (ap & Hap & Hcur).
  assert (q <= next_seq (state (n_up n))) as Hle.
  { pose proof (prefix_length _ _ (no_prefix0 _ _ _ Hap Hq)). lia. }
  destruct (Z.ltb_spec (next_seq (state (n_up n))) q) as [|_]; [lia|].
  assert (covered (n_up n) q <= length (pending (state (n_up n))))%nat as Hcl by (unfold covered; lia).
  assert (oldest (ack (n_up n) q) = oldest (n_up n) + Z.of_nat (covered (n_up n) q)) as Hold.
  { unfold oldest. rewrite Hst. simpl. rewrite length_drop. lia. }
  assert (oldest (ack (n_up n) q) <= cursor_of n + 1) as Hcov.
  { rewrite Hold. unfold covered, oldest in *. lia. }
  assert (cursor_of (mkNet (n_ctl n) (ack (n_up n) q) (n_queued n) (n_applied n) (n_wire n) (n_owner n) (n_writer n))
          = cursor_of n) as Hcn by (unfold cursor_of; simpl; by rewrite Hinc).
  split; rewrite ?Hcn; simpl; rewrite ?Hinc; eauto.
  - exists ql. rewrite Hst. simpl. split_and!; try done. intros e He. apply Hpe.
    apply list_elem_of_lookup in He as [k Hk]. rewrite lookup_drop in Hk. by eapply list_elem_of_lookup_2.
  - intros e l He Hl. destruct (no_live0 e l He Hl) as [Hg Hn]. split; [done|]. intros ep Hwr Hep.
    destruct (no_writer0 _ _ Hwr) as (e' & He' & _ & Hie). rewrite He in He'. injection He' as <-.
    assert (cursor_of n = a_last_seq e) as Hce by (unfold cursor_of; by rewrite He, decide_True).
    specialize (Hn ep Hwr). rewrite Hst in Hep. simpl in Hep. specialize (Hn Hep).
    pose proof (reach_ge (a_last_seq e) l). unfold next_sent in *. rewrite Hold, Hst in *. simpl. lia.
Qed.

Lemma ok_restart (n : Net) inc :
  net_ok n -> n_queued n !! inc = None ->
  net_ok (mkNet (n_ctl n) (with_limits max_b max_m inc) (<[inc := []]> (n_queued n))
            (<[inc := []]> (n_applied n)) (n_wire n) (n_owner n) None).
Proof.
  intros [] Hfresh.
  assert (n_applied n !! inc = None) as Hfresh'.
  { apply eq_None_not_Some. rewrite no_dom0, Hfresh. by intros [? ?]. }
  assert (forall e, agents (n_ctl n) !! aid = Some e -> a_incarnation e <> inc) as Hne.
  { intros e He Hi. destruct (no_entry0 e He) as (_ & _ & ap & Hap & _). rewrite Hi in Hap. congruence. }
  assert (forall s, n_owner n !! s <> Some inc) as Hno.
  { intros s Hs. destruct (no_owner0 _ _ Hs) as [_ [? ?]]. congruence. }
  assert (cursor_of (mkNet (n_ctl n) (with_limits max_b max_m inc) (<[inc := []]> (n_queued n))
            (<[inc := []]> (n_applied n)) (n_wire n) (n_owner n) None) = 0) as Hcur.
  { unfold cursor_of. simpl. destruct (agents (n_ctl n) !! aid) as [e|] eqn:He; [|done].
    rewrite decide_False; [done|]. by apply Hne. }
  split; rewrite ?Hcur; simpl; auto; try done.
  - exists []. rewrite lookup_insert_eq. split_and!; try done. intros e He. by apply not_elem_of_nil in He.
  - intros i. rewrite !lookup_insert_is_Some. by rewrite no_dom0.
  - intros i ap q Hap Hq. destruct (decide (inc = i)) as [<-|Hi].
    + rewrite lookup_insert_eq in *. by simplify_eq.
    + rewrite lookup_insert_ne in * by done. by eapply no_prefix0.
  - intros e He. destruct (no_entry0 e He) as (? & ? & ap & ? & ?). split_and!; try done.
    exists ap. rewrite lookup_insert_ne; [done|]. intros ->. by apply (Hne e He).
  - exists []. by rewrite lookup_insert_eq.
  - intros s q Hin. destruct (no_acks0 s q Hin). split; [done|]. intros Hs. by apply Hno in Hs.
  - intros s i Hs. destruct (no_owner0 s i Hs). split; [done|]. rewrite lookup_insert_is_Some'. auto.
  - intros s l m Hl Hm. destruct (no_wire0 s l m Hl Hm) as [? Hwr]. split; [done|]. intros Hn0.
    destruct (Hwr Hn0) as (i & q & Ho & Hq & ?). exists i, q. split_and!; try done.
    rewrite lookup_insert_ne; [done|]. intros ->. by apply Hno in Ho.
  - intros e l He Hl. destruct (no_live0 e l He Hl). by split.
Qed.

(** What a successful handshake does to the cursor. *)
Lemma session_cursor c peer reg (i i' : Inner) s :
  reg_agent_id reg = aid -> 0 <= session_counter i < u64_max ->
  session c peer (Some (agent_msg (MRegister reg))) i = (i', Ok (aid, s)) ->
  let last := match agents i !! aid with
              | Some p => if decide (a_incarnation p = reg_incarnation reg) then a_last_seq p else 0
              | None => 0
              end in
  s = session_counter i + 1 /\ session_counter i' = s
  /\ cursor_view <$> agents i' !! aid = Some (s, last, reg_incarnation reg, s)
  /\ exists extra, outbox i' = outbox i ++ extra /\ Forall (fun o => ~ is_ack o) extra.
Proof.
  intros Hid Hc. unfold session. simpl. destruct (negb _); [done|]. destruct (str_is_empty _); [done|].
  intros Hs. rewrite u64_add_small in Hs by (unfold is_u64, u64_max in *; lia).
  injection Hs as Hi Hid' Hs. subst s.
  set (ix := set_session_counter _ _) in Hi. subst i'.
  destruct (register_cursor c reg peer (session_counter i + 1) ix) as (Hv & Hsc & extra & Ho & Hf).
  rewrite Hid in Hv. split_and!; [done|by rewrite Hsc|exact Hv|].
  eexists. split; [rewrite Ho; subst ix; simpl; by rewrite <- app_assoc|].
  constructor; [by intros []|done].
Qed.

Lemma ok_connect (n : Net) c peer reg i (s : Z) u ep :
  net_ok n -> reg_agent_id reg = aid -> reg_incarnation reg = incarnation (n_up n) ->
  0 <= session_counter (n_ctl n) < u64_max ->
  session c peer (Some (agent_msg (MRegister reg))) (n_ctl n) = (i, Ok (aid, s)) ->
  rewind (n_up n) = (u, ep) ->
  net_ok (mkNet i u (n_queued n) (n_applied n) (<[s := []]> (n_wire n))
            (<[s := incarnation (n_up n)]> (n_owner n)) (Some (s, ep))).
Proof.
  intros Hok Hid Hinc Hcnt Hs Hrw.
  apply session_cursor in Hs as (Hsn & Hsc & Hv & extra & Ho & Hf); [|done|done].
  rewrite Hinc in Hv. fold (cursor_of n) in Hv.
  pose proof (rewind_window_ok (n_up n) (no_window _ Hok)) as Hw. rewrite Hrw in Hw. simpl in Hw.
  assert (oldest u = oldest (n_up n) /\ incarnation u = incarnation (n_up n)
          /\ pending (state u) = pending (state (n_up n)) /\ next_seq (state u) = next_seq (state (n_up n))
          /\ cursor (state u) = 0%nat) as (Hold & Hui & Hup & Hun & Hcz)
    by (unfold rewind in Hrw; by simplify_eq).
  destruct Hok. destruct no_current0 as (ap & Hap & Hcur).
  assert (exists e, agents i !! aid = Some e /\ a_session e = s /\ a_last_seq e = cursor_of n
                    /\ a_incarnation e = incarnation (n_up n) /\ a_sender e = s) as (e & He & E1 & E2 & E3 & E4).
  { destruct (agents i !! aid) as [e|]; [|done]. injection Hv as ? ? ? ?. by exists e. }
  assert (n_owner n !! s = None) as Hfresh.
  { destruct (n_owner n !! s) eqn:Hs; [|done]. destruct (no_owner0 _ _ Hs). lia. }
  assert (cursor_of (mkNet i u (n_queued n) (n_applied n) (<[s:=[]]> (n_wire n))
            (<[s:=incarnation (n_up n)]> (n_owner n)) (Some (s, ep))) = cursor_of n) as Hcn.
  { unfold cursor_of at 1. simpl. rewrite He, decide_True by congruence. done. }
  split; rewrite ?Hcn; simpl; rewrite ?Hui, ?Hold, ?Hup, ?Hun; eauto.
  - intros e' He'. rewrite He in He'. injection He' as <-. rewrite E1, E3, E4, lookup_insert_eq.
    split_and!; try done. exists ap. split; [done|]. by rewrite E2.
  - intros s' q Hin. rewrite Ho in Hin. apply elem_of_app in Hin as [Hin|Hin].
    + destruct (no_acks0 s' q Hin) as [? Hq]. split; [lia|]. intros Hs'. apply Hq.
      rewrite lookup_insert_ne in Hs' by lia. done.
    + rewrite Forall_forall in Hf. by destruct (Hf _ Hin).
  - intros s' inc' Hs'. apply lookup_insert_Some in Hs' as [[<- <-]|[_ Hs']].
    + split; [lia|]. destruct no_queue0 as (q & -> & _). eauto.
    + destruct (no_owner0 _ _ Hs'). split; [lia|done].
  - intros s' l m Hl Hm. apply lookup_insert_Some in Hl as [[<- <-]|[Hne Hl]]; [by apply not_elem_of_nil in Hm|].
    destruct (no_wire0 s' l m Hl Hm) as [? Hwr]. split; [done|]. rewrite lookup_insert_ne by done. done.
  - intros e' l He' Hl. rewrite He in He'. injection He' as <-. rewrite E1, lookup_insert_eq in Hl.
    injection Hl as <-. split; [done|]. intros ep' _ _. unfold next_sent, reach. simpl. rewrite Hold, Hcz, E2. lia.
  - intros s' ep' [= <- <-]. exists e. by split_and!.
Qed.

Lemma ok_deliver (n : Net) c (s : Z) m rest i ok :
  net_ok n -> n_wire n !! s = Some (m :: rest) ->
  handle_agent_message delta_of_json summary_of_json c aid s m (n_ctl n) = (i, ok) ->
  net_ok (mkNet i (n_up n) (n_queued n)
            (note_applied (admit_message c aid s (seq m) (n_ctl n)).2 (entry_incarnation (n_ctl n)) m (n_applied n))
            (<[s := rest]> (n_wire n)) (n_owner n) (n_writer n)).
Proof.
  intros Hok Hwire Hm.
  assert (m ∈ m :: rest) as Hmin by by left.
  destruct (no_wire _ Hok s _ m Hwire Hmin) as [Hq0 Hqm].
  assert (forall s' l x, <[s:=rest]> (n_wire n) !! s' = Some l -> x ∈ l ->
            0 <= seq x /\ (seq x <> 0 -> exists i q, n_owner n !! s' = Some i /\ n_queued n !! i = Some q
                                           /\ nth_msg q (seq x) = Some (msg x))) as Hwire'.
  { intros s' l x Hl Hx. apply lookup_insert_Some in Hl as [[<- <-]|[_ Hl]]; [|by eapply (no_wire _ Hok)].
    eapply (no_wire _ Hok); [exact Hwire|]. by right. }
  destruct (agents (n_ctl n) !! aid) as [e|] eqn:He.
  2:{ unfold handle_agent_message, admit_message in Hm. rewrite He in Hm. simplify_eq. unfold admit_message. rewrite He. simpl.
      destruct Hok. split; simpl; auto. intros e l He'. by rewrite He in He'. }
  destruct (no_entry _ Hok e He) as (Hoe & Hse & ap & Hap & HL).
  pose proof (deliver_cursor delta_of_json summary_of_json c aid s m (n_ctl n) i ok e He ltac:(lia) Hq0 Hm) as Hd.
  case_decide as Hlive.
  2:{ destruct Hd as (_ & -> & ->). simpl. destruct Hok. split; simpl; auto.
      intros e' l He' Hl. rewrite He in He'. injection He' as <-. rewrite lookup_insert_ne in Hl by done. auto. }
  destruct Hd as (_ & Hv & Hsc & (extra & Ho & Hf) & Happ).
  assert (exists e', agents i !! aid = Some e' /\ a_session e' = s /\ a_last_seq e' = Z.max (a_last_seq e) (seq m)
                     /\ a_incarnation e' = a_incarnation e /\ a_sender e' = a_sender e)
    as (e' & He' & E1 & E2 & E3 & E4).
  { destruct (agents i !! aid) as [e'|]; [|done]. injection Hv as ? ? ? ?. by exists e'. }
  rewrite <- Hlive in *.
  destruct (no_live _ Hok e _ He Hwire) as [[Hgap Hgap'] Hnext].
  set (verdict := (admit_message c aid _ _ _).2) in *. unfold entry_incarnation. rewrite He. simpl.
  set (applied' := note_applied verdict (a_incarnation e) m (n_applied n)).
  assert (applied' = if decide (a_last_seq e < seq m) then log_append (a_incarnation e) (msg m) (n_applied n)
                     else n_applied n) as Happ'.
  { subst applied'. unfold note_applied. case_decide as Hlt.
    - rewrite (proj2 Happ) by by right. destruct (Z.eqb_spec (seq m) 0); [lia|done].
    - destruct verdict; try done. destruct (Z.eqb_spec (seq m) 0); [done|].
      destruct (proj1 Happ eq_refl); lia. }
  clearbody applied'. clear Happ verdict.
  assert (exists ap', applied' !! a_incarnation e = Some ap' /\ Z.of_nat (length ap') = Z.max (a_last_seq e) (seq m)
          /\ (forall q, n_queued n !! a_incarnation e = Some q -> ap' `prefix_of` q))
    as (ap' & Hap' & Hlen' & Hpre').
  { rewrite Happ'. case_decide as Hlt.
    - exists (ap ++ [msg m]). unfold log_append. rewrite lookup_alter_eq, Hap. split_and!; [done| |].
      + rewrite length_app. simpl. lia.
      + intros q Hq. destruct (Hqm ltac:(lia)) as (inc' & q' & Ho' & Hq' & Hn).
        rewrite Hoe in Ho'. injection Ho' as <-. rewrite Hq in Hq'. injection Hq' as <-.
        destruct (no_prefix _ Hok _ _ _ Hap Hq) as [k Hk]. subst q. unfold nth_msg in Hn.
        replace (Z.to_nat (seq m - 1)) with (length ap) in Hn by lia.
        rewrite lookup_app_r, Nat.sub_diag in Hn by lia. destruct k as [|x k]; [done|]. injection Hn as ->.
        exists k. by rewrite <- app_assoc.
    - exists ap. split_and!; [done|lia|]. intros q Hq. by eapply (no_prefix _ Hok). }
  assert (forall inc', inc' <> a_incarnation e -> applied' !! inc' = n_applied n !! inc') as Hother.
  { intros inc' Hne. rewrite Happ'. case_decide; [|done]. unfold log_append. by rewrite lookup_alter_ne. }
  set (n' := mkNet i (n_up n) (n_queued n) applied' _ (n_owner n) (n_writer n)).
  assert (cursor_of n <= cursor_of n' /\ (a_incarnation e = incarnation (n_up n) -> cursor_of n' = Z.max (a_last_seq e) (seq m))
          /\ (a_incarnation e <> incarnation (n_up n) -> cursor_of n' = cursor_of n)) as (Hc1 & Hc2 & Hc3).
  { unfold cursor_of. subst n'. simpl. rewrite He, He', E2, E3.
    destruct (decide (a_incarnation e = incarnation (n_up n))); split_and!; intros; first [lia|congruence]. }
  destruct Hok. split; subst n'; simpl; auto.
  - intros inc'. destruct (decide (inc' = a_incarnation e)) as [->|Hne]; [|by rewrite Hother].
    rewrite Hap', <- no_dom0, Hap. split; eauto.
  - intros inc' ap0 q Hap0 Hq. destruct (decide (inc' = a_incarnation e)) as [->|Hne].
    + rewrite Hap' in Hap0. injection Hap0 as <-. auto.
    + rewrite Hother in Hap0 by done. by eapply no_prefix0.
  - intros e0 He0. rewrite He' in He0. injection He0 as <-. rewrite E1, E2, E3, E4. split_and!; try done.
    exists ap'. by rewrite Hlen'.
  - destruct (decide (a_incarnation e = incarnation (n_up n))) as [Heq|Hne].
    + exists ap'. rewrite <- Heq at 1. rewrite (Hc2 Heq), Hlen'. done.
    + rewrite Hother by done. by rewrite (Hc3 Hne).
  - lia.
  - intros s' q Hin. rewrite Ho in Hin. apply elem_of_app in Hin as [Hin|Hin].
    + destruct (no_acks0 s' q Hin) as [? Hq]. rewrite Hsc. split; [done|]. intros Hs'. specialize (Hq Hs'). lia.
    + rewrite Forall_forall in Hf. specialize (Hf _ Hin I). injection Hf as -> ->. rewrite Hse, Hsc.
      split; [by destruct (no_owner0 _ _ Hoe)|]. intros Hs'. rewrite Hoe in Hs'. injection Hs' as Hs'.
      rewrite (Hc2 Hs'). lia.
  - intros s' inc' Hs'. rewrite Hsc. auto.
  - intros e0 l He0 Hl. rewrite He' in He0. injection He0 as <-. rewrite E1, lookup_insert_eq in Hl.
    injection Hl as <-. rewrite E1, E2. split; [done|]. intros ep Hwr Hep. apply (Hnext ep Hwr Hep).
  - intros s' ep Hwr. destruct (no_writer0 s' ep Hwr) as (e0 & He0 & Hs0 & Hi0).
    rewrite He in He0. injection He0 as <-. exists e'. split_and!; congruence.
Qed.

Lemma net_reachable_ok (n : Net) : net_reachable n -> net_ok n.
Proof.
  induction 1 as [controller live inc|n n' _ IH Hstep].
  - split; simpl; try done.
    + exists []. rewrite lookup_singleton_eq. split_and!; try done. intros e He. by apply not_elem_of_nil in He.
    + intros i ap q Ha Hq. apply lookup_singleton_Some in Ha as [<- <-].
      rewrite lookup_singleton_eq in Hq. by injection Hq as <-.
    + exists []. by rewrite lookup_singleton_eq.
    + intros s q Hin. by apply not_elem_of_nil in Hin.
  - destruct Hstep.
    + by apply ok_push.
    + by eapply ok_connect.
    + by eapply ok_write.
    + by apply ok_heartbeat.
    + by eapply ok_deliver.
    + apply (net_ok_ctl n _ _ []); try done; [apply delete_subseteq| |by rewrite app_nil_r].
      simpl. rewrite lookup_alter_eq, <- option_fmap_compose. apply option_fmap_ext. intros e.
      unfold compose. by case_match.
    + by eapply ok_ack.
    + by apply ok_restart.
    + by eapply net_ok_ctl.
Qed.

(** *** Progress *)

Lemma steps_reachable (n n' : Net) : net_reachable n -> rtc net_step n n' -> net_reachable n'.
Proof. intros Hn Hs. induction Hs as [|x y z H1 _ IH]; [done|]. apply IH. by eapply nr_step. Qed.

(** The writer of the current epoch puts everything unsent on its wire. *)
Lemma write_all (k : nat) (n : Net) (s ep : Z) l :
  net_reachable n -> n_writer n = Some (s, ep) -> ep = epoch (state (n_up n)) -> n_wire n !! s = Some l ->
  (length (pending (state (n_up n))) - cursor (state (n_up n)))%nat = k ->
  exists n' l', rtc net_step n n' /\ n_ctl n' = n_ctl n /\ n_queued n' = n_queued n
    /\ incarnation (n_up n') = incarnation (n_up n) /\ n_writer n' = n_writer n
    /\ epoch (state (n_up n')) = epoch (state (n_up n)) /\ n_wire n' !! s = Some l'
    /\ cursor (state (n_up n')) = length (pending (state (n_up n'))).
Proof.
  revert n l. induction k as [|k IH]; intros n l Hn Hwr Hep Hl Hk.
  - exists n, l. split_and!; try done. destruct (wo_cursor _ (no_window _ (net_reachable_ok _ Hn))); lia.
  - assert (exists e, pending (state (n_up n)) !! cursor (state (n_up n)) = Some e) as [e He]
      by (apply lookup_lt_is_Some; lia).
    pose proof (next_unsent_cases (n_up n) ep) as Hc.
    destruct (next_unsent (n_up n) ep) as [u [[m|]|]] eqn:Hnu.
    + destruct Hc as (_ & e' & _ & _ & Hst & Hinc).
      set (n1 := mkNet (n_ctl n) u (n_queued n) (n_applied n) (alter (fun l => l ++ [m]) s (n_wire n))
                   (n_owner n) (n_writer n)).
      assert (net_step n n1) as Hs1 by by eapply ns_write.
      destruct (IH n1 (l ++ [m])) as (n' & l' & Hs & E1 & E2 & E3 & E4 & E5 & E6 & E7).
      * by eapply nr_step.
      * done.
      * simpl. by rewrite Hst.
      * simpl. by rewrite lookup_alter_eq, Hl.
      * simpl. rewrite Hst. simpl. lia.
      * exists n', l'. split_and!; try done; [by eapply rtc_l|by rewrite E3|].
        rewrite E5. simpl. by rewrite Hst.
    + destruct Hc as (_ & _ & [?|[_ ?]]); congruence.
    + destruct Hc as (_ & _ & _ & ?). congruence.
Qed.

(** The live session's wire is read to its end. *)
Lemma deliver_all (l : list UplinkMessage) (n : Net) (e : AgentEntry) :
  net_reachable n -> agents (n_ctl n) !! aid = Some e -> n_wire n !! a_session e = Some l ->
  exists n' e', rtc net_step n n' /\ n_up n' = n_up n /\ n_queued n' = n_queued n
    /\ agents (n_ctl n') !! aid = Some e' /\ a_incarnation e' = a_incarnation e
    /\ a_last_seq e' = reach (a_last_seq e) l.
Proof.
  revert n e. induction l as [|m l IH]; intros n e Hn He Hl; [by exists n, e|].
  pose proof (net_reachable_ok _ Hn) as Hok.
  destruct (handle_agent_message delta_of_json summary_of_json (mkClock 0 0) aid (a_session e) m (n_ctl n))
    as [i ok] eqn:Hm.
  destruct (no_entry _ Hok e He) as (_ & _ & ap & _ & HL).
  destruct (no_wire _ Hok _ _ m Hl) as [Hq _]; [by left|].
  pose proof (deliver_cursor _ _ _ _ _ _ _ _ _ _ He ltac:(lia) Hq Hm) as Hd.
  rewrite decide_True in Hd by done. destruct Hd as (_ & Hv & _).
  set (n1 := mkNet i (n_up n) (n_queued n)
     (note_applied (admit_message (mkClock 0 0) aid (a_session e) (seq m) (n_ctl n)).2 (entry_incarnation (n_ctl n)) m
        (n_applied n)) (<[a_session e := l]> (n_wire n)) (n_owner n) (n_writer n)).
  assert (net_step n n1) as Hs1 by by eapply ns_deliver.
  destruct (agents i !! aid) as [e1|] eqn:He1; [|done]. injection Hv as E1 E2 E3 E4.
  destruct (IH n1 e1) as (n' & e' & Hs & F1 & F2 & F3 & F4 & F5).
  - by eapply nr_step.
  - done.
  - simpl. by rewrite E1, lookup_insert_eq.
  - exists n', e'. split_and!; try done; [by eapply rtc_l|by rewrite F4|]. rewrite F5, E2. done.
Qed.

(** ** Properties *)

(** C1: exactly-once, in-order delivery.  Through any crashes, reconnections, replays,
    lost acknowledgements and process restarts, what the controller has applied for an
    incarnation is a prefix of what that incarnation's window accepted: nothing twice,
    nothing out of order, no gap. *)
Theorem uplink_exactly_once (n : Net) (inc : string) (ap q : list Payload) :
  net_reachable n -> n_applied n !! inc = Some ap -> n_queued n !! inc = Some q -> ap `prefix_of` q.
Proof. intros Hn%net_reachable_ok. apply (no_prefix _ Hn). Qed.

(** C6: nothing is lost while the process lives: what the window has retired was
    applied, and everything else is still in the window, in order; in particular an
    empty window means everything accepted has been applied. *)
Theorem uplink_no_loss (n : Net) :
  net_reachable n ->
  exists q ap (k : nat), n_queued n !! incarnation (n_up n) = Some q
    /\ n_applied n !! incarnation (n_up n) = Some ap
    /\ (msg ∘ e_msg) <$> pending (state (n_up n)) = drop k q /\ (k <= length ap)%nat
    /\ (pending (state (n_up n)) = [] -> ap = q).
Proof.
  intros Hn%net_reachable_ok. destruct (no_queue _ Hn) as (q & Hq & Hlq & Hpe).
  destruct (no_current _ Hn) as (ap & Hap & Hcur). pose proof (no_oldest _ Hn) as Hold.
  pose proof (no_window _ Hn) as Hw. pose proof (wo_next _ Hw) as Hnx.
  exists q, ap, (Z.to_nat (oldest (n_up n) - 1)). split_and!; try done.
  - apply list_eq. intros i. rewrite list_lookup_fmap, lookup_drop.
    destruct (pending (state (n_up n)) !! i) as [e|] eqn:He; simpl.
    + rewrite <- (Hpe e) by by eapply list_elem_of_lookup_2.
      rewrite (window_lookup (n_up n) i e Hw He). unfold nth_msg, oldest in *. f_equal. lia.
    + symmetry. apply lookup_ge_None. apply lookup_ge_None in He. unfold oldest. lia.
  - lia.
  - intros Hnil. unfold oldest in *. rewrite Hnil in *. simpl in *.
    pose proof (no_prefix _ Hn _ _ _ Hap Hq) as [k ->].
    assert (k = []) as ->; [|by rewrite app_nil_r]. rewrite length_app in Hlq. destruct k; [done|]. simpl in *. lia.
Qed.

(** The gap that [admit_message] tolerates never occurs: the next message on the live
    session's wire is at most one past the controller's cursor. *)
Theorem uplink_no_gap (n : Net) (e : AgentEntry) (m : UplinkMessage) (rest : list UplinkMessage) :
  net_reachable n -> agents (n_ctl n) !! aid = Some e -> n_wire n !! a_session e = Some (m :: rest) ->
  seq m <= a_last_seq e + 1.
Proof. intros Hn%net_reachable_ok He Hl. by destruct (no_live _ Hn e _ He Hl) as [[? _] _]. Qed.

(** C40: delivery always can complete: from any reachable state, however many sessions
    have died, one fresh session that lives long enough brings everything the window
    has accepted to the controller. *)
Theorem uplink_can_catch_up (n : Net) :
  net_reachable n -> aid <> "" -> 0 <= session_counter (n_ctl n) < u64_max ->
  exists n' q, rtc net_step n n' /\ incarnation (n_up n') = incarnation (n_up n)
    /\ n_queued n' = n_queued n
    /\ n_queued n' !! incarnation (n_up n) = Some q /\ n_applied n' !! incarnation (n_up n) = Some q.
Proof.
  intros Hn Haid Hcnt.
  set (reg := mkRegister aid "agent" PROTOCOL_VERSION "" 1 ∅ "" "" (incarnation (n_up n))).
  destruct (session (mkClock 0 0) None (Some (agent_msg (MRegister reg))) (n_ctl n)) as [i r] eqn:Hs.
  assert (exists s, r = Ok (aid, s)) as [s ->].
  { unfold session in Hs. simpl in Hs. destruct (str_is_empty aid) eqn:Hem.
    - unfold str_is_empty in Hem. by bool_to_prop.
    - injection Hs as _ <-. eauto. }
  destruct (rewind (n_up n)) as [u ep] eqn:Hrw.
  set (n1 := mkNet i u (n_queued n) (n_applied n) (<[s := []]> (n_wire n))
               (<[s := incarnation (n_up n)]> (n_owner n)) (Some (s, ep))).
  assert (net_step n n1) as Hs1 by by apply (ns_connect n (mkClock 0 0) None reg i s u ep).
  assert (net_reachable n1) as Hn1 by by eapply nr_step.
  assert (ep = epoch (state u) /\ incarnation u = incarnation (n_up n)) as [Hep Hinc]
    by (unfold rewind in Hrw; by simplify_eq).
  destruct (write_all (length (pending (state u)) - cursor (state u)) n1 s ep [] Hn1 eq_refl Hep) as (n2 & l & Hs2 & E1 & E2 & E3 & E4 & E5 & E6 & E7);
    [simpl; by rewrite lookup_insert_eq|done|].
  pose proof (steps_reachable _ _ Hn1 Hs2) as Hn2. pose proof (net_reachable_ok _ Hn2) as Hok2.
  destruct (no_writer _ Hok2 s ep) as (e & He & Hse & Hie); [by rewrite E4|].
  rewrite <- Hse in E6.
  destruct (no_live _ Hok2 e l He E6) as [_ Hnext]. specialize (Hnext ep).
  rewrite E4, Hse, E5 in Hnext. specialize (Hnext eq_refl Hep).
  destruct (deliver_all l n2 e Hn2 He E6) as (n3 & e3 & Hs3 & F1 & F2 & F3 & F4 & F5).
  pose proof (net_reachable_ok _ (steps_reachable _ _ Hn2 Hs3)) as Hok3.
  destruct (no_queue _ Hok3) as (q & Hq & Hlq & _). destruct (no_entry _ Hok3 e3 F3) as (_ & _ & ap & Hap & HL).
  assert (incarnation (n_up n3) = incarnation (n_up n)) as Hi3 by (rewrite F1, E3; done).
  rewrite F4, Hie, E3 in Hap. simpl in Hap. rewrite Hinc in Hap. rewrite Hi3 in Hq.
  exists n3, q. split_and!; try done.
  - eapply rtc_l; [exact Hs1|]. by etrans.
  - by rewrite F2, E2.
  - rewrite Hap. f_equal. pose proof (no_prefix _ Hok3 _ _ _ Hap Hq) as [k ->].
    assert (k = []) as ->; [|by rewrite app_nil_r].
    rewrite F1 in Hlq. rewrite length_app in Hlq. destruct k; [done|].
    unfold next_sent, oldest in Hnext. rewrite E7 in Hnext. simpl in Hlq. lia.
Qed.
End Network.

(** ** One message, from the window to the controller *)

Module DeliveryDemo.
Import HdrModel Uplink.Sample.

Definition no_delta (_ : string) : result string MetricsDelta := Err "not a delta".
Definition no_summary (_ : string) : result string Summary := Err "not a summary".
Definition ten (_ : UplinkMessage) : Z := 10.
Notation dnet := (net_reachable no_delta no_summary ten "agent-1" DEFAULT_MAX_BYTES DEFAULT_MAX_MESSAGES).
Notation dnstep := (net_step no_delta no_summary ten "agent-1" DEFAULT_MAX_BYTES DEFAULT_MAX_MESSAGES).

Definition t0 : Clock := mkClock 0 0.
Definition reg : Register := mkRegister "agent-1" "box" 4 "1.0" 8 ∅ "" "" "boot-1".
Definition ready : UplinkMessage := agent_msg (MAssignmentReady (mkAssignmentReady "run-9" 0)).

Definition n0 : Net := net_start DEFAULT_MAX_BYTES DEFAULT_MAX_MESSAGES "ctl" 90 "boot-1".
Definition n1 : Net :=
  mkNet (n_ctl n0) (push ten (n_up n0) ready).1 (log_append "boot-1" (msg ready) (n_queued n0))
    (n_applied n0) (n_wire n0) (n_owner n0) (n_writer n0).
Definition n2 : Net :=
  mkNet (session t0 None (Some (agent_msg (MRegister reg))) (n_ctl n1)).1 (rewind (n_up n1)).1
    (n_queued n1) (n_applied n1) (<[1 := []]> (n_wire n1)) (<[1 := "boot-1"]> (n_owner n1)) (Some (1, 1)).
Definition sent : UplinkMessage := mkAgentMessage 1 (msg ready).
Definition n3 : Net :=
  mkNet (n_ctl n2) (next_unsent (n_up n2) 1).1 (n_queued n2) (n_applied n2)
    (alter (fun l => l ++ [sent]) 1 (n_wire n2)) (n_owner n2) (n_writer n2).
Definition n4 : Net :=
  mkNet (handle_agent_message no_delta no_summary t0 "agent-1" 1 sent (n_ctl n3)).1 (n_up n3) (n_queued n3)
    (note_applied (admit_message t0 "agent-1" 1 1 (n_ctl n3)).2 (entry_incarnation "agent-1" (n_ctl n3)) sent
       (n_applied n3))
    (<[1 := []]> (n_wire n3)) (n_owner n3) (n_writer n3).

Lemma pair_fst {A B : Type} (p : A * B) (b : B) : p.2 = b -> p = (p.1, b).
Proof. destruct p. by intros <-. Qed.

Lemma n1_reachable : dnet n1.
Proof.
  eapply nr_step; [apply (nr_start _ _ _ _ _ _ "ctl" 90 "boot-1")|].
  apply (ns_push _ _ _ _ _ _ n0 ready (push ten (n_up n0) ready).1 (Ok 1)); [|by vm_compute|by vm_compute].
  apply pair_fst. by vm_compute.
Qed.

Lemma n2_reachable : dnet n2.
Proof.
  eapply nr_step; [exact n1_reachable|].
  apply (ns_connect _ _ _ _ _ _ n1 t0 None reg (n_ctl n2) 1 (n_up n2) 1); [done|done|by vm_compute| |].
  - apply pair_fst. by vm_compute.
  - apply pair_fst. by vm_compute.
Qed.

Lemma n3_reachable : dnet n3.
Proof.
  eapply nr_step; [exact n2_reachable|].
  apply (ns_write _ _ _ _ _ _ n2 1 1 (n_up n3) sent); [done|]. apply pair_fst. by vm_compute.
Qed.

Lemma n4_reachable : dnet n4.
Proof.
  eapply nr_step; [exact n3_reachable|].
  apply (ns_deliver _ _ _ _ _ _ n3 t0 1 sent [] (n_ctl n4) true); [by vm_compute|].
  apply pair_fst. by vm_compute.
Qed.

Lemma uplink_exactly_once_witness :
  n_applied n4 !! "boot-1" = Some [msg ready] /\ [msg ready] `prefix_of` [msg ready].
Proof.
  split; [by vm_compute|].
  exact (uplink_exactly_once _ _ _ _ _ _ n4 "boot-1" [msg ready] [msg ready] n4_reachable
           ltac:(by vm_compute) ltac:(by vm_compute)).
Defined.

Lemma uplink_no_loss_witness :
  exists q, n_queued n3 !! "boot-1" = Some q.
Proof.
  destruct (uplink_no_loss _ _ _ _ _ _ n3 n3_reachable) as (q & _ & _ & Hq & _).
  exact (ex_intro _ q Hq).
Defined.

Lemma uplink_no_gap_witness :
  exists e, agents (n_ctl n3) !! "agent-1" = Some e /\ seq sent <= a_last_seq e + 1.
Proof.
  assert (from_option (fun e => Z.eqb (a_session e) 1) false (agents (n_ctl n3) !! "agent-1") = true) as Hb
    by by vm_compute.
  destruct (agents (n_ctl n3) !! "agent-1") as [e|] eqn:He; [|discriminate Hb].
  apply Z.eqb_eq in Hb. refine (ex_intro _ e (conj eq_refl _)).
  refine (uplink_no_gap _ _ _ _ _ _ n3 e sent [] n3_reachable He _).
  simpl in Hb. rewrite Hb. by vm_compute.
Defined.

Lemma uplink_can_catch_up_witness :
  exists n' q, rtc dnstep n3 n' /\ n_applied n' !! "boot-1" = Some q.
Proof.
  destruct (uplink_can_catch_up _ _ _ _ _ _ n3 n3_reachable ltac:(done) ltac:(by vm_compute))
    as (n' & q & Hs & _ & _ & _ & Ha).
  exact (ex_intro _ n' (ex_intro _ q (conj Hs Ha))).
Defined.

End DeliveryDemo.
